(* ===== verification/_CoqProject ===== *)
-Q . S2P
Prelude.v
Order.v
Absl.v
AbslReference.v
Schema.v
RowRestriction.v
Storage.v
DuckDbSql.v
DuckDbList.v
StorageWrite.v
StorageRead.v
VersionLog.v
SidecarJson.v
SidecarProps.v
FileTree.v
Registry.v
CatalogStorage.v
CatalogProps.v
RowStorage.v
CatalogExamples.v
ArrowToBq.v
Governance.v
ObjectRegistry.v
ScriptText.v
SqlPreprocess.v
FrameStack.v
SemanticError.v
Hll.v
SqlValue.v
GoogleSqlReference.v
Arithmetic.v
Operators.v
MathFuncs.v
Casts.v
EvalExpr.v
EvalReference.v
EvalTypes.v
StringFuncs.v
StringProps.v
ArrayFuncs.v
Kll.v
DatetimeFuncs.v
NetFuncs.v
GeogFuncs.v
JsonFuncs.v
Dispatch.v
EvalProps.v
Rows.v
Joins.v
SetOps.v
Unnest.v
AggFuncs.v
Aggregates.v
Analytic.v
AnalyticProps.v
Scans.v
ScanProps.v
QueryProps.v
QueryExamples.v
OtherScans.v
Udaf.v
OtherProps.v
StorageValues.v
Dml.v
EngineSql.v
ControlText.v
DmlProps.v
MergeProps.v
DmlExamples.v
SemanticExecutor.v
Parameters.v
Analyze.v
Script.v
ControlOps.v
ControlProps.v
ScriptRunner.v
Routes.v
ScriptProps.v
Coordinator.v
ScriptExamples.v
