(* ===== verification/Prelude.v ===== *)
(** * BigQuery emulator: verification of the C++ engine

    The repository is an emulator of BigQuery.  A Go gateway speaks REST; the
    C++ engine under [src/backend] and [src/frontend] holds the data and answers
    gRPC calls.  This development models the storage of tables and of the catalog,
    the services that read and write them, the semantic SQL engine with its
    functions, and the coordinator that takes requests and scripts; it proves what
    makes them correct.

    ** Parts and files

    - [Prelude] (this file): byte strings and searching in them, results of
      fallible code ([outcome]), machine integers, tactics shared by all files.
    - [Absl]: status values and the text routines of Abseil.  Abseil is not part
      of the sources, so its routines are the operations of a class, [AbslText],
      that every definition using them takes as an argument; [AbslTextLaws]
      states their documented behaviour.  [AbslReference] is a concrete instance
      with the laws proved, used by the witnesses.
    - [Schema]: [backend/schema/schema.{h,cc}].  Column types, nested columns,
      conversion from and to the wire, DuckDB type names.
    - [RowRestriction]: [backend/storage/row_restriction.{h,cc}], the parser of
      single-equality row restrictions.
    - [Storage]: [backend/storage/storage.{h,cc}] and
      [frontend/handlers/handler_common.cc].  Values, rows, read filters, wire
      cells, status mapping.  The abstract class [storage::Storage] is the class
      [Storage]; the promises its comments make are [StorageLaws], phrased with
      the abstract contents of a table.  Both services below are verified against
      that interface; the instance [MemStore] shows it can be met.
    - [DuckDbSql]: [backend/storage/duckdb/duckdb_storage_literals.cc],
      [duckdb_storage_sql_render.cc] and the statement builder of
      [duckdb_storage_read_stream.cc]: the SQL text the backend issues.
    - [DuckDbList]: [duckdb_storage_list_literals.cc], the decoder of DuckDB's
      text form of lists and structs.
    - [StorageWrite]: [frontend/handlers/storage_write*.{h,cc}], the Storage Write
      API.  The service's state is a record of its members; each RPC handler is
      one definition over it with all its guards and early returns.  The regions
      a mutex protects are the steps of an abstract machine ([step]), which the
      handlers are proved to run; the machine takes an append to the store and the
      cursor's update after it for one step.
    - [StorageRead]: [frontend/handlers/storage_read*.{h,cc}], the Storage Read
      API: sessions, partitions, paged streaming, splitting.  Doubles are
      [SpecFloat] binary64 numbers.
    - [VersionLog]: [backend/storage/duckdb/duckdb_storage_version_log.{h,cc}]
      with the file helpers it uses: the per-table index of archived snapshots,
      pruning, and the resolution of AS OF timestamps, over a file system whose
      operations may fail for a path.
    - [SidecarJson]: the JSON texts of the catalog ([duckdb_storage_meta.cc],
      [duckdb_storage_tombstone_registry_json.cc] and [_governance.cc]), with the
      hand-written readers; [SidecarProps] holds their theorems.  [FileTree]: files
      and directories, with renaming, removal and listing as [std::filesystem] has
      them, failing where the disk of [VersionLog] fails.  [Registry]: the DuckDB
      connection, the monad of the storage ([ST]), and the views, routines and
      policies ([duckdb_storage_views.cc], [_routines.cc], [_governance.cc]).
      [CatalogStorage]: [duckdb_storage_catalog.cc] and
      [duckdb_storage_version_log_tombstone.cc], datasets and tables, dropping and
      restoring them.  [RowStorage]: [duckdb_storage_rows.cc], the rows.
      [CatalogProps] holds the theorems, [CatalogExamples] the closed examples.
    - [ArrowToBq]: [backend/engine/duckdb/arrow_to_bq*.cc], the cells of DuckDB's
      result vectors.  [Governance]: [catalog/table_governance.cc] and
      [duckdb_executor_security.cc], row access policies and column masks.
      [ObjectRegistry]: [catalog/view_registry.cc], [udf_registry.cc],
      [tvf_registry.cc] and the ids of [view_persistence.cc] and
      [routine_persistence.cc]: the views, functions and table functions of a
      project.
    - [FrameStack], [SemanticError], [Hll]: from [backend/engine/semantic], the
      variable scopes of scripts, the error reasons, and the HLL_COUNT functions
      with their 64-bit fingerprint.
    - [SqlValue]: [googlesql::Value] and its types; decimals, dates and intervals
      of GoogleSQL are the classes [GoogleSql] and [GoogleSqlOps], with their
      documented behaviour as [GoogleSqlLaws]; [GoogleSqlReference] is a concrete
      instance with the laws proved.
    - [Arithmetic], [Operators], [MathFuncs], [Casts]: the operators, mathematical
      functions and casts of the semantic executor ([eval_expr_operators.cc],
      [eval_expr_numeric.cc], [eval_expr_dispatch.cc], [functions/operator_*.cc],
      [eval_expr_cast*.cc]).
    - [EvalExpr]: [eval_expr.cc], [eval_expr_calls.cc], [eval_expr_fn_dispatch.cc]:
      the evaluator of resolved expressions.  [EvalTypes] is a type checker for
      them with its soundness, [EvalProps] the theorems on calls, [EvalReference]
      the instances for closed examples.
    - [StringFuncs], [ArrayFuncs], [Kll], [DatetimeFuncs], [NetFuncs], [GeogFuncs],
      [JsonFuncs]: the function families under [semantic/functions], one definition
      per function, with the routines of GoogleSQL and of the sketch library as a
      class per family; [StringProps] holds the theorems on strings.  [Dispatch]:
      [functions/dispatch.cc], the table of every family by name, tied to the
      evaluator by [with_functions].
    - [Order]: comparators, [std::stable_sort], ordered maps.
    - [Rows]: the scans of a resolved query, rows and their names.  [Joins],
      [SetOps], [Unnest], [AggFuncs], [Aggregates], [Analytic] and [Scans] model
      [scan_eval*.cc], [outer_row_eval.cc], [array_struct/array_scan.cc] and
      [functions/aggregate_*.cc]: [MaterializeScanImpl] maps a scan and a context
      to rows or an error.  [OtherScans]: [scan_eval_sample.cc], [eval_tvf.cc] and
      [scan_eval_match_recognize.cc]; [Udaf]: [eval_udaf*.cc], the bodies of SQL
      aggregate functions; [OtherProps] goes with them.  [AnalyticProps], [ScanProps]
      and [QueryProps] hold the theorems on whole scans and windows, [QueryExamples] the closed
      examples of scans and expressions.
    - [StorageValues]: the conversions between SQL values and table cells
      ([value.cc], [catalog/storage_table.cc]).  [Dml]: [semantic/dml/*.cc], INSERT,
      UPDATE, DELETE and MERGE with THEN RETURN and ASSERT_ROWS_MODIFIED, over any
      store that meets [RewritableStorageLaws] of [Storage].  [DmlProps] and
      [MergeProps] hold the theorems, [DmlExamples] the closed examples.
    - [EngineSql]: [duckdb_executor_literals.cc], [duckdb_executor_attach*.cc] and
      [control_op_literals.cc]: literals, parameters, attaching tables to an
      in-memory DuckDB.  [ControlText]: [control_op_options.cc],
      [gcs_uri_resolver.cc] and the statements of LOAD DATA and EXPORT DATA.
      [ControlOps]: the other files of [backend/engine/control], every statement
      handler of the control-op executor; [ControlProps] holds the theorems.
    - [SemanticExecutor]: [semantic/semantic_executor.cc], the top of the semantic
      engine: the rows of a SELECT streamed to the caller, CALL of a table
      function, the dispatch of DML.
    - [ScriptText]: splitting a script at its semicolons and reading SET
      statements.  [SqlPreprocess]: the rewriting of SQL text before analysis
      (table decorators, DDL spellings GoogleSQL does not know).
    - [Parameters], [Analyze]: query parameters, and the handler steps that turn a
      request into a resolved statement and a dry run into a schema.
    - [Routes]: [coordinator/route_classifier*.cc] with the table of
      [node_dispositions.yaml]: which executor a resolved statement needs.
    - [Script], [ScriptRunner]: [coordinator/script_*.cc], the engine's side of
      GoogleSQL's script executor (variables, CALL, EXECUTE IMMEDIATE, system
      variables) and the fallback that runs a script statement by statement.
    - [Coordinator]: [coordinator/local_coordinator_engine.cc] and
      [stub_executors.cc], the entry points of a request.  [ScriptProps]
      holds the theorems on scripts, [ScriptExamples] the closed examples.

    Calls go from the services through [Storage] to the DuckDB backend, which
    renders statements ([DuckDbSql]), decodes results ([DuckDbList]) and keeps
    the files ([RowStorage], [CatalogStorage], [VersionLog]).  A query the DuckDB engine cannot run goes to
    the semantic executor: [Scans] materializes its rows and calls [EvalExpr] for
    every expression; a subquery inside an expression calls [Scans] again
    ([TiedParts]).  A request reaches [Coordinator]: its text is rewritten
    ([SqlPreprocess]) and analyzed ([Analyze], with [Parameters]); [Routes] picks
    the DuckDB executor, the semantic executor ([SemanticExecutor], [Dml]) or the
    control operations; a script goes to [ScriptRunner], whose statements are
    requests to the same engine, one level deeper ([engine_at]).

    ** What the theorems show

    - Writing: every sequence of calls is a run of the step relation along which
      tables, buffers and visible prefixes grow by exactly the rows delivered,
      appended and flushed ([write_runs_deliver_exactly_once], a simulation of
      the handlers by the relation); the stream invariant after any sequence of
      calls ([write_streams_consistent]); the exact effect of a flush
      ([flush_rows_exact]), of each outcome of an append, of creating and of
      finalizing a stream ([finalized_stream_sealed]); the grammar of stream names.
    - Reading: the streams of a session partition the table and can be read to
      their end in pages of at most 100 rows ([read_session_complete]); splits
      preserve rows; offsets resume; partitions are balanced and the arithmetic
      fits in 64 bits; projections are exact.
    - Time travel: after any history of replacements an AS OF read finds the
      snapshot live at that time, with the exact condition under which it does
      ([time_travel_reads], [time_travel_window_hole]); the index round-trips.
    - Stored tables: a change of rows is atomic for readers under any failure, and a
      successful one installs the file of a COPY that succeeded ([append_atomic]);
      a sidecar returns what it was written with ([sidecar_roundtrip]); a drop
      moves every file of a table to its tombstone and a restore brings them back
      ([dropped_table_restores]); what restoring a dataset's views, routines and
      policies writes ([registry_restored]), and that the REST metadata of a second
      drop is not found ([rest_metadata_first_kept]).
    - SQL text: a rendered cell cannot leave its slot of the statement, with one
      exception that is stated too; the batch INSERT reads back as the rows; the
      conditions of a read stream; decoding of lists and structs.
    - Round trips of schemas, cells, restrictions, sketches and error reasons;
      sketches of batches merge to the sketch of the whole; scopes are restored
      at the end of a block.
    - Expressions: a well-typed expression evaluates to a value of its type or to
      an error ([eval_type_sound]); lazy and eager conditionals agree; SAFE calls;
      exact 64-bit arithmetic; AND, OR and NOT are Kleene's; LIKE terminates and
      decides the matching relation; SAFE_CAST is total.
    - Functions: no name is listed twice in the tables of functions
      ([call_reaches_function]); base 32, padding, INSTR, CONTAINS_SUBSTR,
      scientific notation, array access, overlap of ranges, merging of sketches,
      unix times, addresses and masks, points in polygons, JSON subscripts
      ([base32_roundtrip] and the other theorems of the family files).
    - Queries: every row of a scan of any kind binds the scan's columns
      ([scan_rows_bind_columns]); the hash join agrees with the nested loop; ORDER
      BY on keys of plain types sorts stably; GROUP BY partitions; set operations have SQL's
      multiplicities; UNNEST, WITH, IN subqueries, LAG and LEAD, NTILE, ROWS
      frames, SUM, MIN and MAX row by row; samples, table functions and pattern
      matches bind their columns ([other_rows_bind_columns]); SQL aggregates
      ([udaf_over_group]).
    - DML: the table a successful INSERT, UPDATE, DELETE or MERGE leaves, as a
      function of the rows it had and of the statement, with the exact counts and
      every other table as it was ([insert_exact], [update_exact], [delete_exact],
      [merge_exact]); what a failed statement leaves ([failed_dml_unchanged]);
      values survive the way into a cell and back ([cell_value_reads_back]).
    - Requests: the route of a statement is the worst disposition any node or
      function of it demands ([route_is_worst_demand]); a statement that is
      walked and has an unsupported part is refused without touching the store or
      running an executor ([unsupported_refused]); a SELECT delivers the rows of its scan, in order,
      under its output names ([select_rows]); a dry run reports the schema the run
      delivers ([dry_run_schema_agrees]); a parameter's declared type and value
      agree ([parameter_types_agree]); rewriting leaves string literals alone
      when they do not escape their quote ([rewriting_keeps_literals]); TRUNCATE empties exactly its table
      ([truncate_exact]).
    - Scripts: where statements are split, and which literals are cut
      ([split_statements]); the statement loop returns, with an explicit bound, for
      a script whose calls are not recursive, when every engine request returns
      ([script_returns]); CALL changes nothing of the caller but the variables
      passed as bare arguments ([call_isolated]); the bounds of the model never change an answer
      ([bounds_irrelevant]).

    - Executors: what a result row shows by the governance records and their grants
      ([masks_disclose_only]); when
      parameters are substituted in place ([parameters_substituted]); the text of
      every timestamp and decimal ([timestamp_text_exact], [decimal_text_exact]);
      the words of the shell commands ([curl_commands_exact]).
    - Control operations: what ALTER TABLE leaves in every outcome
      ([alter_table_outcomes], [rename_loses_values]) and CREATE TABLE in its three
      modes ([create_table_modes]).
    - Registries: no object is destroyed while a catalog may point to it
      ([objects_never_destroyed]); the view found is the one registered
      ([registered_view_found]); what a catalog resolves after a replay
      ([replay_resolves_live]).

    Several theorems state behaviour that the code probably does not intend:
    [batch_commit_repeats_rows], [finalize_append_race], the second half of
    [stream_name_roundtrip], [time_travel_window_hole],
    [keyword_inside_literal_refused], [struct_text_spliced], the exceptions in
    [read_stream_conditions], [like_operator], [in_subquery_values] and
    [rows_frame], [failed_dml_unchanged], [cell_value_reads_back], the last part of
    [struct_text_decodes], [nested_structs_not_decoded], [set_chunk_consumed] (a last SET
    without a semicolon leaves bytes behind), [call_isolated] (IN arguments are
    copied back too), [decorators_not_lowered], [merge_not_walked] (the
    classifier does not look into a MERGE), [registry_restored],
    [rest_metadata_first_kept], [unix_time_wraps], [json_null_path_refused] and
    the second half of [udaf_over_group], [hugeint_narrow], the last parts of
    [parameters_substituted] and [split_statements], the alias in
    [masks_disclose_only], [rename_loses_values],
    and the examples of [RegistryDemo] and [ControlDemo].

    ** Bounds and fuel

    Integers are [Z]; where the code relies on their width the bound is in the
    definition ([u64] in [Hll]) or in the theorem ([partitions_balanced],
    [restriction_sound]).  Four loops that are not structural take fuel:
    [like_loop] in [Operators], whose bound [like_fuel] is enough by
    [like_terminates], [ParseEntriesLoop] in [VersionLog] and the two decoding
    loops of [DuckDbList].  For these three the fuel is the length of the
    text they consume, each turn consumes at least one byte, and
    [version_index_roundtrip], [list_text_decodes] and [struct_text_decodes] state
    that more fuel changes nothing for any text.  The readers of [SidecarJson], the padding and
    base 32 loops of [StringFuncs] and the splitting loops of the registry run on
    the length of their text in the same way; the round trips and
    [padding_exact] are stated for the definitions with that fuel, so they include
    that it suffices.  The block loops of the
    fingerprint run a number of rounds computed from the input length.  The text
    loops of [ScriptText] and [SqlPreprocess] run on the length of the text and
    those of [Parameters] on the depth of the value; [rewrite_loop_enough],
    [json_elements_enough] and [depth_enough] say that this suffices.  A request may
    run another request: [engine_at] has a depth, and GoogleSQL's script executor,
    which may loop for ever, a number of turns; [None] means that one of them is
    used up.  [script_returns] gives bounds that suffice for the statement loop, and
    [bounds_irrelevant] shows that a larger bound never changes an answer.

    ** What is not modelled

    Null request and response pointers, which the handlers of the services
    refuse first, cannot be represented.  The clock is an argument.  The
    following are arguments because their code is not part of the sources or is
    reached only through it: row-restriction transpilation (GoogleSQL's
    analyzer), Abseil's time parsing, formatting of doubles and dates,
    GoogleSQL's values and analyzer, [strtod], the DuckDB connection
    ([DuckDb], with the law [DuckDbFiles] that a statement writes no file but the
    one a COPY names), protobuf's JSON form ([ProtoJson]), the sketch, calendar,
    JSON and text libraries of the function families.  What the evaluator takes as
    a parameter ([ExecutorParts], [AggregateParts], [ResolvedAst]) is given by the
    later files: [with_functions] of [Dispatch], [TiedScans] of [OtherScans],
    [TiedUdaf] of [Udaf].  Parameters that stay are the sketches inside
    aggregates, the external UDF runtimes, the texts of dates and
    intervals ([ValueText], with [DecimalTextLaws] for decimals) and the parser of
    query parameters ([ParameterParser]).  For requests and scripts the parameters
    are GoogleSQL's analyzer with the option flags it is given ([AnalyzerLibrary],
    [ParameterLibrary]), its script executor ([ScriptExecutorLibrary]: a tree of
    turns in which the engine's callbacks are the questions), the node
    tree of a statement as the classifier walks it ([resolved_tree], with
    [TreeLaws]), the
    function table of the route classifier ([RouteTables]), and the DuckDB and
    control-operation executors, whose parts are in [EngineSql] and [ControlOps].  A C++ exception that no caller catches is a
    status of its own ([uncaught_out_of_range]).  The host is taken to
    be little-endian.  The storage holds one mutex throughout every operation, so
    its operations are steps of their own and the mutex is not in the model; the
    ids in the theorems on files are single path components ([table_ok]), and a
    path is the text the program builds.

    The executors run over any store ([CatalogStore]); the theorems on control
    operations take the laws [CatalogStoreLaws], which allow what [DuckDBStorage]
    can leave when a call fails, and which are shown to hold of a store in memory,
    not of [CatalogStorage].  They run over any in-memory database
    ([InMemoryDb]), any memory of result vectors ([VectorMemory]) and any host
    ([Host]: environment, files, shell); SHA-256 is [Sha256], and GoogleSQL's
    catalog [SimpleCatalog] with [SimpleCatalogLaws].

    Not modelled: the catalog and query handlers, which translate messages; the transpiler, whose input, the resolved AST with all its
    node types, is GoogleSQL's; the catalog adapters that implement GoogleSQL's
    interfaces; the external UDF runtimes, the server binary and the gateway
    (process and network input and output, the gateway in Go). *)

From stdpp Require Export base tactics option list list_numbers gmap strings numbers sorting.
From Stdlib Require Export ZArith Lia Ascii.

(** ** Byte strings

    [std::string] and [absl::string_view] are byte strings: lists of 8-bit
    characters.  [lit] turns a string literal into one. *)
Abbreviation str := (list ascii).

Definition lit (s : string) : str := String.list_ascii_of_string s.
Arguments lit : simpl never.

Declare Scope bqe_scope.
Delimit Scope bqe_scope with bqe.
Notation "$ s" := (lit s%string) (at level 5, s at level 4, format "$ s") : bqe_scope.
Open Scope bqe_scope.

(** The value of a byte as an unsigned integer, and the byte of an integer
    taken modulo 256 ([static_cast<unsigned char>] and [static_cast<char>]). *)
Definition byteval (c : ascii) : Z := Z.of_N (N_of_ascii c).
Definition byteof (z : Z) : ascii := ascii_of_N (Z.to_N (z mod 256)).

(** ** Results

    Fallible code returns [absl::StatusOr<T>] or a status with an out
    parameter; both are an [outcome] over the error type. *)
Inductive outcome (E A : Type) : Type :=
| Ok (a : A)
| Err (e : E).
Arguments Ok {E A} a.
Arguments Err {E A} e.

#[export] Instance outcome_ret {E} : MRet (outcome E) := fun A a => Ok a.
#[export] Instance outcome_bind {E} : MBind (outcome E) := fun A B f m =>
  match m with Ok a => f a | Err e => Err e end.
#[export] Instance outcome_fmap {E} : FMap (outcome E) := fun A B f m =>
  match m with Ok a => Ok (f a) | Err e => Err e end.

Definition is_ok {E A} (m : outcome E A) : bool :=
  match m with Ok _ => true | Err _ => false end.

(** The result of a computation that succeeds on every element of a list, in
    order, or stops at the first failure. *)
Fixpoint outcome_mapM {E A B} (f : A -> outcome E B) (l : list A) : outcome E (list B) :=
  match l with
  | [] => Ok []
  | x :: l => y ← f x; ys ← outcome_mapM f l; Ok (y :: ys)
  end.

(** ** Machine integers *)
Definition int64_min : Z := - 2 ^ 63.
Definition int64_max : Z := 2 ^ 63 - 1.
Definition in_int64 (z : Z) : Prop := (int64_min <= z <= int64_max)%Z.
Definition in_uint64 (z : Z) : Prop := (0 <= z < 2 ^ 64)%Z.
Definition u64 (z : Z) : Z := z mod 2 ^ 64.

(** ** Automation *)
Create HintDb bqe.

(** Case analysis on every [match] and [if] of a hypothesis or the goal,
    simplifying equations between constructors on the way. *)
Ltac step_cases :=
  repeat first [ case_match | progress simplify_eq/= ].

(** Invert a successful chain of [outcome] binds. *)
Ltac inv_ok H :=
  repeat match type of H with
  | mbind ?f ?m = Ok _ =>
      let E := fresh "E" in
      destruct m eqn:E; simpl in H; [| discriminate H]
  | Ok _ = Ok _ => injection H as H; subst
  | Err _ = Ok _ => discriminate H
  end.

Ltac bool_to_prop :=
  repeat match goal with
  | H : (_ && _)%bool = true |- _ => apply andb_true_iff in H; destruct H
  | H : (_ || _)%bool = false |- _ => apply orb_false_iff in H; destruct H
  | H : negb _ = true |- _ => apply negb_true_iff in H
  | H : negb _ = false |- _ => apply negb_false_iff in H
  | H : (_ <? _)%Z = true |- _ => apply Z.ltb_lt in H
  | H : (_ <? _)%Z = false |- _ => apply Z.ltb_ge in H
  | H : (_ <=? _)%Z = true |- _ => apply Z.leb_le in H
  | H : (_ <=? _)%Z = false |- _ => apply Z.leb_gt in H
  | H : (_ =? _)%Z = true |- _ => apply Z.eqb_eq in H
  | H : (_ =? _)%Z = false |- _ => apply Z.eqb_neq in H
  | H : bool_decide _ = true |- _ => apply bool_decide_eq_true in H
  | H : bool_decide _ = false |- _ => apply bool_decide_eq_false in H
  end.

(** ** Substring search

    [find_sub needle s] is [s] split around the first occurrence of [needle]
    ([s.substr(0, pos)] and [s.substr(pos + needle.size())] for
    [pos = s.find(needle)]); [None] is [npos].  [rfind_sub] does the same for
    the last occurrence ([rfind]). *)
Fixpoint strip_prefix (p s : str) : option str :=
  match p, s with
  | [], _ => Some s
  | c :: p, d :: s => if decide (c = d) then strip_prefix p s else None
  | _ :: _, [] => None
  end.

Fixpoint find_sub (needle s : str) : option (str * str) :=
  match strip_prefix needle s with
  | Some rest => Some ([], rest)
  | None =>
      match s with
      | [] => None
      | c :: s => match find_sub needle s with
                  | Some (a, b) => Some (c :: a, b)
                  | None => None
                  end
      end
  end.

Fixpoint rfind_sub (needle s : str) : option (str * str) :=
  let here := match strip_prefix needle s with
              | Some rest => Some ([], rest)
              | None => None
              end in
  match s with
  | [] => here
  | c :: s => match rfind_sub needle s with
              | Some (a, b) => Some (c :: a, b)
              | None => here
              end
  end.

Definition str_contains (s needle : str) : bool :=
  match find_sub needle s with Some _ => true | None => false end.

(** Texts appended one after the other with a separator between them. *)
Fixpoint join_text (sep : str) (l : list str) : str :=
  match l with
  | [] => []
  | [t] => t
  | t :: l => t ++ sep ++ join_text sep l
  end.

Lemma join_text_cons sep t l : join_text sep (t :: l) = t ++ mjoin (map (app sep) l).
Proof.
  revert t. induction l as [|u l IH]; intros t; [by rewrite app_nil_r|].
  change (join_text sep (t :: u :: l)) with (t ++ sep ++ join_text sep (u :: l)).
  rewrite IH. simpl. by rewrite <- app_assoc.
Qed.

Lemma strip_prefix_Some p s r : strip_prefix p s = Some r <-> s = p ++ r.
Proof.
  revert s r. induction p as [|c p IH]; intros [|d s] r; simpl; split; intros;
    simplify_eq; try done; case_decide; simplify_eq/=.
  - by f_equal; apply IH.
  - by apply IH.
Qed.

Lemma strip_prefix_app p r : strip_prefix p (p ++ r) = Some r.
Proof. by apply strip_prefix_Some. Qed.

Lemma strip_prefix_None p s : strip_prefix p s = None <-> ~ exists r, s = p ++ r.
Proof.
  destruct (strip_prefix p s) as [r|] eqn:E.
  - apply strip_prefix_Some in E. split; [done|]. intros []. eauto.
  - split; [|done]. intros _ [r ->]. by rewrite strip_prefix_app in E.
Qed.

Lemma find_sub_Some needle s a b :
  find_sub needle s = Some (a, b) -> s = a ++ needle ++ b.
Proof.
  revert a b. induction s as [|c s IH]; intros a b; simpl;
    destruct (strip_prefix needle _) eqn:E; intros; simplify_eq.
  - by apply strip_prefix_Some in E.
  - by apply strip_prefix_Some in E.
  - destruct (find_sub needle s) as [[a' b']|]; simplify_eq/=. by f_equal; apply IH.
Qed.

(** The split is at the first occurrence. *)
Lemma find_sub_first needle s a b a' b' :
  find_sub needle s = Some (a, b) -> s = a' ++ needle ++ b' -> length a <= length a'.
Proof.
  revert a b a' b'. induction s as [|c s IH]; intros a b a' b'; simpl;
    destruct (strip_prefix needle _) eqn:E; intros H1 H2; simplify_eq/=; try lia.
  destruct (find_sub needle s) as [[a1 b1]|] eqn:F; simplify_eq/=.
  destruct a' as [|c' a']; simplify_eq/=.
  - apply strip_prefix_None in E. destruct E. eauto.
  - specialize (IH _ _ a' b' eq_refl eq_refl). lia.
Qed.

Lemma find_sub_None needle s :
  find_sub needle s = None <-> ~ exists a b, s = a ++ needle ++ b.
Proof.
  induction s as [|c s IH]; simpl.
  - destruct (strip_prefix needle []) as [r|] eqn:E.
    + apply strip_prefix_Some in E. split; [done|]. intros []. by exists [], r.
    + split; [|done]. intros _ (a & b & Hab).
      apply strip_prefix_None in E. destruct E. exists b.
      destruct a; simplify_eq/=. done.
  - destruct (strip_prefix needle (c :: s)) as [r|] eqn:E.
    + apply strip_prefix_Some in E. split; [done|]. intros []. by exists [], r.
    + destruct (find_sub needle s) as [[a b]|] eqn:F.
      * split; [done|]. intros []. apply find_sub_Some in F. exists (c :: a), b. by f_equal/=.
      * split; [|done]. intros _ (a & b & Hab). destruct a as [|c' a]; simplify_eq/=.
        { apply strip_prefix_None in E. destruct E. eauto. }
        apply IH; eauto.
Qed.

Lemma rfind_sub_Some needle s a b :
  rfind_sub needle s = Some (a, b) -> s = a ++ needle ++ b.
Proof.
  revert a b. induction s as [|c s IH]; intros a b; simpl.
  - destruct (strip_prefix needle []) eqn:E; intros; simplify_eq.
    by apply strip_prefix_Some in E.
  - destruct (rfind_sub needle s) as [[a' b']|] eqn:F; intros; simplify_eq.
    + simpl. f_equal. by apply IH.
    + destruct (strip_prefix needle (c :: s)) eqn:E; simplify_eq.
      by apply strip_prefix_Some in E.
Qed.

Lemma rfind_sub_None needle s :
  rfind_sub needle s = None -> ~ exists a b, s = a ++ needle ++ b.
Proof.
  induction s as [|c s IH]; simpl; intros H (a & b & Hab).
  - destruct a; simplify_eq/=. by rewrite Hab, strip_prefix_app in H.
  - destruct (rfind_sub needle s) as [[a' b']|] eqn:F; [done|].
    destruct a as [|c' a]; simplify_eq/=.
    + by rewrite Hab, strip_prefix_app in H.
    + apply IH; eauto.
Qed.

(** The split is at the last occurrence. *)
Lemma rfind_sub_last needle s a b a' b' :
  rfind_sub needle s = Some (a, b) -> s = a' ++ needle ++ b' -> length a' <= length a.
Proof.
  revert a b a' b'. induction s as [|c s IH]; intros a b a' b'; simpl.
  { intros _ E. destruct a'; simplify_eq/=. lia. }
  destruct (rfind_sub needle s) as [[a1 b1]|] eqn:F; intros E1 E2.
  - simplify_eq. destruct a' as [|c' a']; simpl; [lia|]. simplify_eq/=.
    specialize (IH _ _ a' b' eq_refl eq_refl). lia.
  - destruct a' as [|c' a']; simpl; [lia|]. simplify_eq/=.
    exfalso. apply (rfind_sub_None _ _ F). eauto.
Qed.

(** Searching skips a prefix that does not contain the needle's first byte, and
    a position at which the needle does not match. *)
Lemma find_sub_skip c n p r :
  c ∉ p -> find_sub (c :: n) (p ++ r) = (fun ab => (p ++ ab.1, ab.2)) <$> find_sub (c :: n) r.
Proof.
  induction p as [|d p IH]; intros Hp; simpl.
  - by destruct (find_sub (c :: n) r) as [[]|].
  - rewrite decide_False by set_solver. rewrite IH by set_solver.
    by destruct (find_sub (c :: n) r) as [[]|].
Qed.

Lemma find_sub_step needle c s :
  strip_prefix needle (c :: s) = None ->
  find_sub needle (c :: s) = (fun ab => (c :: ab.1, ab.2)) <$> find_sub needle s.
Proof. intros E. cbn [find_sub]. rewrite E. by destruct (find_sub needle s) as [[]|]. Qed.

Lemma find_sub_here needle r : find_sub needle (needle ++ r) = Some ([], r).
Proof.
  pose proof (strip_prefix_app needle r) as E.
  destruct (needle ++ r) eqn:K; cbn [find_sub]; by rewrite E.
Qed.

Lemma find_sub_at needle s r : s = needle ++ r -> find_sub needle s = Some ([], r).
Proof. intros ->. apply find_sub_here. Qed.

(** A literal without a byte, by computation. *)
Lemma literal_without c (l : str) :
  forallb (fun d => negb (Ascii.eqb d c)) l = true -> c ∉ l.
Proof.
  rewrite forallb_forall. intros F Hin. apply list_elem_of_In in Hin.
  specialize (F _ Hin). by rewrite Ascii.eqb_refl in F.
Qed.

(** ** Positional notation

    The integer a list of digits denotes, most significant digit first. *)
Definition of_digits (base : Z) (ds : list Z) : Z :=
  fold_left (fun acc d => acc * base + d)%Z ds 0%Z.

Lemma of_digits_acc base ds acc :
  fold_left (fun acc d => acc * base + d)%Z ds acc =
  (acc * base ^ Z.of_nat (length ds) + of_digits base ds)%Z.
Proof.
  revert acc. unfold of_digits. induction ds as [|d ds IH]; intros acc; simpl length; [simpl; lia|].
  cbn [fold_left]. rewrite (IH (acc * base + d)%Z), (IH (0 * base + d)%Z).
  rewrite Nat2Z.inj_succ, Z.pow_succ_r by lia. lia.
Qed.

Lemma of_digits_app base a b :
  of_digits base (a ++ b) = (of_digits base a * base ^ Z.of_nat (length b) + of_digits base b)%Z.
Proof. unfold of_digits at 1. by rewrite fold_left_app, of_digits_acc. Qed.

Lemma of_digits_cons base d ds :
  of_digits base (d :: ds) = (d * base ^ Z.of_nat (length ds) + of_digits base ds)%Z.
Proof. change (d :: ds) with ([d] ++ ds). rewrite of_digits_app. unfold of_digits. simpl. lia. Qed.

Lemma of_digits_snoc base ds d : of_digits base (ds ++ [d]) = (of_digits base ds * base + d)%Z.
Proof. rewrite of_digits_app. unfold of_digits at 2. simpl. lia. Qed.

Lemma of_digits_bound base ds :
  (0 < base)%Z -> Forall (fun d => 0 <= d < base)%Z ds ->
  (0 <= of_digits base ds < base ^ Z.of_nat (length ds))%Z.
Proof.
  intros B F. induction F as [|d ds Hd F IH]; [unfold of_digits; simpl; lia|].
  rewrite of_digits_cons. simpl length. rewrite Nat2Z.inj_succ, Z.pow_succ_r by lia.
  pose proof (Z.pow_pos_nonneg base (Z.of_nat (length ds)) ltac:(lia) ltac:(lia)). nia.
Qed.

(** Leading zeros do not count; digits dropped at the end are a division. *)
Lemma of_digits_zeros base n ds : of_digits base (replicate n 0%Z ++ ds) = of_digits base ds.
Proof.
  induction n as [|n IH]; [done|]. cbn [replicate]. cbn [app]. by rewrite of_digits_cons, IH.
Qed.

Lemma of_digits_take base n ds :
  (0 < base)%Z -> Forall (fun d => 0 <= d < base)%Z ds -> n <= length ds ->
  of_digits base (take n ds) = (of_digits base ds / base ^ Z.of_nat (length ds - n))%Z.
Proof.
  intros B F L. rewrite <- (take_drop n ds) at 2. rewrite of_digits_app, length_drop.
  apply (Forall_drop _ n) in F. apply of_digits_bound in F; [|done]. rewrite length_drop in F.
  rewrite Z.div_add_l by lia. rewrite Z.div_small by done. lia.
Qed.

Lemma of_digits_inj base a b :
  (0 < base)%Z -> Forall (fun d => 0 <= d < base)%Z a -> Forall (fun d => 0 <= d < base)%Z b ->
  length a = length b -> of_digits base a = of_digits base b -> a = b.
Proof.
  intros B Fa. revert b. induction Fa as [|x a Hx Fa IH]; intros [|y b] Fb L E; try done.
  inversion Fb as [|? ? Hy Fb']; subst. injection L as L. rewrite !of_digits_cons, L in E.
  pose proof (of_digits_bound base a B Fa). pose proof (of_digits_bound base b B Fb').
  rewrite L in *. assert (x = y) by nia. subst y. f_equal. apply IH; [done..|lia].
Qed.
