(* ===== verification/Order.v ===== *)
(** * Order: comparators, stable sorting and ordered maps

    [std::stable_sort] with a comparator, the order of [std::string], and
    [std::map<std::string, T>], whose iteration is in key order.  A comparator
    that is a strict weak order determines the sorted list; what the sort does
    with any other comparator is undefined in C++ and unspecified here. *)

From S2P Require Import Prelude.

(** ** Comparators *)

Class StrictWeakOrder {A} (lt : A -> A -> bool) : Prop := {
  swo_asym x y : lt x y = true -> lt y x = false;
  swo_cases x y z : lt x z = true -> lt x y = true \/ lt y z = true;
}.

Section weak_orders.
Context {A} (lt : A -> A -> bool) `{!StrictWeakOrder lt}.

Lemma swo_irrefl x : lt x x = false.
Proof. destruct (lt x x) eqn:E; [|done]. by rewrite (swo_asym _ _ E) in E. Qed.

Lemma swo_trans x y z : lt x y = true -> lt y z = true -> lt x z = true.
Proof.
  intros E1 E2. destruct (swo_cases x z y E1) as [?|E]; [done|]. by rewrite (swo_asym _ _ E2) in E.
Qed.

(** [x] is not after [y]. *)
Definition not_after (x y : A) : Prop := lt y x = false.

Lemma not_after_trans x y z : not_after x y -> not_after y z -> not_after x z.
Proof.
  unfold not_after. intros E1 E2. destruct (lt z x) eqn:E; [|done].
  destruct (swo_cases z y x E); congruence.
Qed.

(** Neither is before the other. *)
Definition tied (x y : A) : bool := negb (lt x y) && negb (lt y x).

Lemma tied_spec x y : tied x y = true <-> lt x y = false /\ lt y x = false.
Proof. unfold tied. by rewrite andb_true_iff, !negb_true_iff. Qed.
End weak_orders.

(** A comparator through a function, and the first of two comparators that
    decides. *)
#[export] Instance swo_key {A B} (f : A -> B) (lt : B -> B -> bool) `{!StrictWeakOrder lt} :
  StrictWeakOrder (fun x y => lt (f x) (f y)).
Proof. split; intros *; [apply swo_asym|apply swo_cases]. Qed.

Definition lex {A} (lt1 lt2 : A -> A -> bool) (x y : A) : bool :=
  lt1 x y || (negb (lt1 y x) && lt2 x y).

#[export] Instance swo_lex {A} (lt1 lt2 : A -> A -> bool)
  `{!StrictWeakOrder lt1, !StrictWeakOrder lt2} : StrictWeakOrder (lex lt1 lt2).
Proof.
  split.
  - intros x y. unfold lex. destruct (lt1 x y) eqn:E1; simpl.
    + intros _. by rewrite (swo_asym _ _ E1).
    + destruct (lt1 y x) eqn:E2; [done|]. simpl. apply swo_asym.
  - intros x y z. unfold lex. destruct (lt1 x z) eqn:E1; simpl.
    + intros _. destruct (swo_cases x y z E1) as [E2|E2]; rewrite E2; auto.
    + destruct (lt1 z x) eqn:E2; [done|]. simpl. intros E3.
      destruct (lt1 x y) eqn:Xy; [by left|]. destruct (lt1 y z) eqn:Yz; [by right|].
      assert (lt1 y x = false) as ->.
      { destruct (lt1 y x) eqn:Yx; [|done]. destruct (swo_cases y z x Yx); congruence. }
      assert (lt1 z y = false) as ->.
      { destruct (lt1 z y) eqn:Zy; [|done]. destruct (swo_cases z x y Zy); congruence. }
      cbn. by apply swo_cases.
Qed.

Lemma swo_ext {A} (lt lt' : A -> A -> bool) :
  (forall x y, lt' x y = lt x y) -> StrictWeakOrder lt -> StrictWeakOrder lt'.
Proof. intros E S. split; intros *; rewrite !E; [apply swo_asym|apply swo_cases]. Qed.

#[export] Instance swo_false {A} : StrictWeakOrder (fun _ _ : A => false).
Proof. by split. Qed.

#[export] Instance swo_flip {A} (lt : A -> A -> bool) `{!StrictWeakOrder lt} :
  StrictWeakOrder (fun x y => lt y x).
Proof. split; [intros x y; apply swo_asym|]. intros x y z E. destruct (swo_cases z y x E); auto. Qed.

(** FALSE comes before TRUE. *)
Definition bool_ltb (a b : bool) : bool := negb a && b.

#[export] Instance swo_bool : StrictWeakOrder bool_ltb.
Proof. split; [by intros [] []|intros [] [] []; auto]. Qed.

#[export] Instance swo_Z : StrictWeakOrder Z.ltb.
Proof. split; intros *; rewrite ?Z.ltb_lt, ?Z.ltb_ge; lia. Qed.

(** ** Strings *)

(** [operator<] of [std::string]: bytes compared as unsigned characters. *)
Fixpoint str_ltb (a b : str) : bool :=
  match a, b with
  | _, [] => false
  | [], _ :: _ => true
  | x :: a, y :: b => (byteval x <? byteval y)%Z || ((byteval x =? byteval y)%Z && str_ltb a b)
  end.

Lemma byteval_eq x y : byteval x = byteval y -> x = y.
Proof.
  unfold byteval. intros E%N2Z.inj. rewrite <- (ascii_N_embedding x), <- (ascii_N_embedding y). by f_equal.
Qed.

#[export] Instance swo_str : StrictWeakOrder str_ltb.
Proof.
  split.
  - intros x. induction x as [|a x IH]; intros [|b y]; simpl; try done.
    rewrite !orb_true_iff, orb_false_iff, andb_true_iff, andb_false_iff.
    rewrite !Z.ltb_lt, Z.ltb_ge, !Z.eqb_eq, Z.eqb_neq. intros [L|[E L]]; [lia|].
    split; [lia|]. right. by apply IH.
  - intros x y z. revert x y. induction z as [|c z IH]; intros [|a x] [|b y]; simpl; try done; auto.
    rewrite !orb_true_iff, !andb_true_iff, !Z.ltb_lt, !Z.eqb_eq. intros [L|[E L]].
    + destruct (Z.lt_trichotomy (byteval a) (byteval b)) as [?|[?|?]]; [auto|right; left; lia|right; left; lia].
    + destruct (Z.lt_trichotomy (byteval a) (byteval b)) as [?|[Eb|?]]; [auto| |right; left; lia].
      destruct (IH x y L) as [?|?]; [auto|right; right; split; [lia|done]].
Qed.

(** The order of strings is total. *)
Lemma str_ltb_total a b : str_ltb a b = false -> str_ltb b a = false -> a = b.
Proof.
  revert b. induction a as [|x a IH]; intros [|y b]; simpl; try done.
  rewrite !orb_false_iff, !andb_false_iff, !Z.ltb_ge, !Z.eqb_neq. intros [L1 E1] [L2 E2].
  assert (byteval x = byteval y) as E by lia. apply byteval_eq in E as ->.
  f_equal. apply IH; [by destruct E1|by destruct E2].
Qed.

(** ** Stable sorting *)
Section sorting.
Context {A} (lt : A -> A -> bool).

Fixpoint sort_insert (x : A) (l : list A) : list A :=
  match l with
  | [] => [x]
  | y :: l' => if lt y x then y :: sort_insert x l' else x :: l
  end.

(** [std::stable_sort]: insertion of every element before the first one that is
    not less. *)
Fixpoint stable_sort (l : list A) : list A :=
  match l with
  | [] => []
  | x :: l => sort_insert x (stable_sort l)
  end.

Lemma sort_insert_Permutation x l : sort_insert x l ≡ₚ x :: l.
Proof.
  induction l as [|y l IH]; simpl; [done|]. destruct (lt y x); [|done].
  rewrite IH. apply Permutation_swap.
Qed.

Lemma stable_sort_Permutation l : stable_sort l ≡ₚ l.
Proof. induction l as [|x l IH]; simpl; [done|]. by rewrite sort_insert_Permutation, IH. Qed.

Lemma stable_sort_length l : length (stable_sort l) = length l.
Proof. apply Permutation_length, stable_sort_Permutation. Qed.

Context `{!StrictWeakOrder lt}.

Lemma sort_insert_sorted x l :
  StronglySorted (not_after lt) l -> StronglySorted (not_after lt) (sort_insert x l).
Proof.
  induction l as [|y l IH]; intros S; simpl; [by repeat constructor|].
  inversion S as [|? ? S' F]; subst. destruct (lt y x) eqn:E.
  - constructor; [by apply IH|]. rewrite sort_insert_Permutation. constructor; [|done].
    unfold not_after. by apply swo_asym.
  - constructor; [done|]. constructor; [exact E|]. apply (Forall_impl _ _ _ F).
    intros z Yz. by eapply not_after_trans.
Qed.

Lemma stable_sort_sorted l : StronglySorted (not_after lt) (stable_sort l).
Proof. induction l; simpl; [constructor|]. by apply sort_insert_sorted. Qed.

(** Elements tied with [z] keep their order. *)
Lemma sort_insert_stable z x l :
  List.filter (tied lt z) (sort_insert x l) = List.filter (tied lt z) (x :: l).
Proof.
  induction l as [|y l IH]; [done|]. cbn [sort_insert]. destruct (lt y x) eqn:E; [|done].
  cbn [List.filter] in *. rewrite IH.
  destruct (tied lt z y) eqn:Ty, (tied lt z x) eqn:Tx; try done.
  apply tied_spec in Ty as [A1 A2], Tx as [B1 B2].
  destruct (swo_cases y z x E); congruence.
Qed.

Lemma stable_sort_stable z l :
  List.filter (tied lt z) (stable_sort l) = List.filter (tied lt z) l.
Proof.
  induction l as [|x l IH]; [done|]. cbn [stable_sort]. rewrite sort_insert_stable.
  cbn [List.filter]. by rewrite IH.
Qed.
End sorting.

(** Only the comparisons of elements of the list matter. *)
Lemma stable_sort_ext {A} (lt lt' : A -> A -> bool) l :
  (forall x y, x ∈ l -> y ∈ l -> lt x y = lt' x y) -> stable_sort lt l = stable_sort lt' l.
Proof.
  induction l as [|x l IH]; intros E; [done|]. cbn [stable_sort].
  rewrite IH by (intros; apply E; by right).
  assert (forall y, y ∈ stable_sort lt' l -> lt y x = lt' y x) as K.
  { intros y I. rewrite stable_sort_Permutation in I. apply E; [by right|by left]. }
  clear E IH. revert K. generalize (stable_sort lt' l) as s. induction s as [|y s IH]; intros K; [done|].
  cbn [sort_insert]. rewrite (K y) by (by left). destruct (lt' y x); [|done]. f_equal. apply IH.
  intros z I. apply K. by right.
Qed.

(** ** Ordered maps *)

(** The entries of a [std::map] keyed by strings, in iteration order. *)
Definition sorted_entries {A} (m : gmap str A) : list (str * A) :=
  stable_sort (fun p q => str_ltb p.1 q.1) (map_to_list m).

Lemma sorted_entries_Permutation {A} (m : gmap str A) : sorted_entries m ≡ₚ map_to_list m.
Proof. apply stable_sort_Permutation. Qed.

Lemma sorted_entries_elem {A} (m : gmap str A) k v : (k, v) ∈ sorted_entries m <-> m !! k = Some v.
Proof. by rewrite sorted_entries_Permutation, elem_of_map_to_list. Qed.

Lemma sorted_entries_NoDup {A} (m : gmap str A) : NoDup (sorted_entries m).*1.
Proof. rewrite sorted_entries_Permutation. apply NoDup_fst_map_to_list. Qed.

(** Rows appended under their keys: every key has its rows in order. *)
Lemma fold_append_lookup {A} (key : A -> str) (l : list A) (m : gmap str (list A)) (k : str) :
  fold_left (fun m x => <[key x := default [] (m !! key x) ++ [x]]> m) l m !! k =
  match List.filter (fun x => bool_decide (key x = k)) l with
  | [] => m !! k
  | xs => Some (default [] (m !! k) ++ xs)
  end.
Proof.
  revert m. induction l as [|x l IH]; intros m; cbn [fold_left List.filter]; [done|].
  rewrite IH. case_bool_decide as E.
  - subst k. rewrite lookup_insert_eq. cbn [default]. unfold id.
    case_match; [done|]. by rewrite <- app_assoc.
  - by rewrite lookup_insert_ne.
Qed.

Lemma List_filter_Permutation {A} (f : A -> bool) l l' : l ≡ₚ l' -> List.filter f l ≡ₚ List.filter f l'.
Proof.
  intros E. induction E; simpl; repeat case_match; try done; try by constructor. by etrans.
Qed.

Lemma StronglySorted_filter {A} (R : A -> A -> Prop) (f : A -> bool) l :
  StronglySorted R l -> StronglySorted R (List.filter f l).
Proof.
  induction 1 as [|x l S IH F]; simpl; [constructor|]. destruct (f x); [|done]. constructor; [done|].
  rewrite Forall_forall in F |- *. intros y I. apply F.
  apply list_elem_of_In, filter_In in I as [I _]. by apply list_elem_of_In.
Qed.

(** [emplace] of a map: a key that is present keeps its value. *)
Definition emplace {K A} `{Countable K} (k : K) (v : A) (m : gmap K A) : gmap K A :=
  match m !! k with Some _ => m | None => <[k := v]> m end.

Lemma lookup_emplace {K A} `{Countable K} (k j : K) (v : A) (m : gmap K A) :
  emplace k v m !! j = if decide (j = k) then Some (default v (m !! k)) else m !! j.
Proof.
  unfold emplace. destruct (m !! k) as [w|] eqn:E; case_decide; subst; simpl; [done|done| |].
  - by rewrite lookup_insert_eq.
  - by rewrite lookup_insert_ne.
Qed.

(** ** Chains of fallible steps *)

Lemma bind_Ok {E A B} (m : outcome E A) (f : A -> outcome E B) b :
  m ≫= f = Ok b <-> exists a, m = Ok a /\ f a = Ok b.
Proof.
  destruct m as [a|e]; cbn [mbind outcome_bind]; split.
  - by exists a.
  - by intros (? & [= ->] & ?).
  - done.
  - by intros (? & ? & ?).
Qed.

Lemma mapM_Forall2 {E A B} (f : A -> outcome E B) l out :
  outcome_mapM f l = Ok out <-> Forall2 (fun x y => f x = Ok y) l out.
Proof.
  revert out. induction l as [|x l IH]; intros out; cbn [outcome_mapM].
  - split; [by intros [= <-]|by inversion 1].
  - rewrite bind_Ok. split.
    + intros (y & E1 & E2). apply bind_Ok in E2 as (ys & E2 & E3). injection E3 as <-.
      constructor; [done|by apply IH].
    + inversion 1; subst. eexists. split; [done|]. apply bind_Ok. eexists. by split; [apply IH|].
Qed.

Lemma mapM_length {E A B} (f : A -> outcome E B) l out :
  outcome_mapM f l = Ok out -> length out = length l.
Proof. intros F%mapM_Forall2. symmetry. by apply Forall2_length in F. Qed.
