(* ===== verification/Absl.v ===== *)
(** * Absl: what the engine uses of Abseil and gRPC

    The engine links Abseil and gRPC, whose code is not part of the repository.
    Status codes and status values are data.  The text routines are the
    operations of the class [AbslText]; every definition that calls them takes
    an instance as an argument, and [AbslTextLaws] states the documented
    behaviour the theorems rely on.  [AbslReference] is a concrete instance
    that satisfies the laws, so that closed examples compute. *)

From S2P Require Import Prelude.

(** ** Status codes and statuses *)

Inductive StatusCode :=
| kCancelled | kUnknown | kInvalidArgument | kDeadlineExceeded | kNotFound
| kAlreadyExists | kPermissionDenied | kResourceExhausted | kFailedPrecondition
| kAborted | kOutOfRange | kUnimplemented | kInternal | kUnavailable | kDataLoss
| kUnauthenticated.

#[export] Instance StatusCode_eq_dec : EqDecision StatusCode.
Proof. solve_decision. Defined.

(** A non-OK [absl::Status]; the payload slot holds the bytes the semantic
    executor attaches under its own URL. *)
Record Status := mkStatus {
  code : StatusCode;
  message : str;
  payload : option str;
}.

Abbreviation StatusOr := (outcome Status).

Definition InvalidArgumentError (m : str) : Status := mkStatus kInvalidArgument m None.
Definition NotFoundError (m : str) : Status := mkStatus kNotFound m None.
Definition AlreadyExistsError (m : str) : Status := mkStatus kAlreadyExists m None.
Definition FailedPreconditionError (m : str) : Status := mkStatus kFailedPrecondition m None.
Definition InternalError (m : str) : Status := mkStatus kInternal m None.
Definition UnimplementedError (m : str) : Status := mkStatus kUnimplemented m None.
Definition OutOfRangeError (m : str) : Status := mkStatus kOutOfRange m None.

(** gRPC statuses, restricted to the codes the handlers produce. *)
Inductive GrpcCode :=
| INVALID_ARGUMENT | NOT_FOUND | ALREADY_EXISTS | FAILED_PRECONDITION
| UNIMPLEMENTED | INTERNAL | ABORTED.

#[export] Instance GrpcCode_eq_dec : EqDecision GrpcCode.
Proof. solve_decision. Defined.

Record GrpcStatus := mkGrpc { grpc_code : GrpcCode; grpc_message : str }.

Abbreviation Grpc := (outcome GrpcStatus).

Definition grpc_code_of {A} (r : Grpc A) : option GrpcCode :=
  match r with Ok _ => None | Err s => Some (grpc_code s) end.

(** ** Text routines *)

Class AbslText := {
  (** [absl::StrSplit(s, c)] *)
  StrSplit : str -> ascii -> list str;
  (** the decimal rendering [absl::StrCat] gives an integer *)
  StrInt : Z -> str;
  (** [absl::SimpleAtoi] into an [int64_t] *)
  SimpleAtoi : str -> option Z;
  ascii_isspace : ascii -> bool;
  ascii_isalpha : ascii -> bool;
  ascii_isdigit : ascii -> bool;
  ascii_tolower : ascii -> ascii;
  ascii_toupper : ascii -> ascii;
}.

(** Pieces joined with a one-character separator. *)
Fixpoint join (c : ascii) (l : list str) : str :=
  match l with
  | [] => []
  | [p] => p
  | p :: l => p ++ c :: join c l
  end.

Class AbslTextLaws `{AbslText} : Prop := {
  StrSplit_nonempty s c : StrSplit s c <> [];
  StrSplit_join s c : join c (StrSplit s c) = s;
  StrSplit_pieces s c : Forall (fun p => c ∉ p) (StrSplit s c);
  StrInt_nonempty z : StrInt z <> [];
  StrInt_chars z : Forall (fun c => ascii_isdigit c = true \/ c = "-"%char) (StrInt z);
  StrInt_shape z : exists (neg : bool) ds,
    StrInt z = (if neg then ["-"%char] else []) ++ ds /\
    ds <> [] /\ Forall (fun c => ascii_isdigit c = true) ds;
  SimpleAtoi_StrInt z : in_int64 z -> SimpleAtoi (StrInt z) = Some z;
  SimpleAtoi_int64 s z : SimpleAtoi s = Some z -> in_int64 z;
  StrInt_inj z z' : StrInt z = StrInt z' -> z = z';
  StrInt_zero : StrInt 0 = $"0";
  StrInt_neg z : (0 < z)%Z -> StrInt (- z) = "-"%char :: StrInt z;
  StrInt_leading z c s : (0 < z)%Z -> StrInt z = c :: s -> c <> "0"%char;
  StrInt_value z : (0 <= z)%Z -> of_digits 10 (map (fun c => byteval c - 48)%Z (StrInt z)) = z;
  SimpleAtoi_out z : ~ in_int64 z -> SimpleAtoi (StrInt z) = None;
  ascii_isspace_spec c :
    ascii_isspace c = true <-> (byteval c = 32 \/ 9 <= byteval c <= 13)%Z;
  ascii_isdigit_spec c : ascii_isdigit c = true <-> (48 <= byteval c <= 57)%Z;
  ascii_isalpha_spec c :
    ascii_isalpha c = true <-> (65 <= byteval c <= 90 \/ 97 <= byteval c <= 122)%Z;
  ascii_tolower_spec c :
    byteval (ascii_tolower c) =
      if bool_decide (65 <= byteval c <= 90)%Z then (byteval c + 32)%Z else byteval c;
  ascii_toupper_spec c :
    byteval (ascii_toupper c) =
      if bool_decide (97 <= byteval c <= 122)%Z then (byteval c - 32)%Z else byteval c;
}.

Section derived.
Context `{AbslText}.

Definition ascii_isalnum (c : ascii) : bool := ascii_isalpha c || ascii_isdigit c.

(** [absl::AsciiStrToLower], [absl::AsciiStrToUpper] and [absl::EqualsIgnoreCase]. *)
Definition AsciiStrToLower (s : str) : str := map ascii_tolower s.
Definition AsciiStrToUpper (s : str) : str := map ascii_toupper s.
Definition EqualsIgnoreCase (a b : str) : bool :=
  bool_decide (AsciiStrToLower a = AsciiStrToLower b).

(** [absl::StripAsciiWhitespace]. *)
Fixpoint StripLeadingWhitespace (s : str) : str :=
  match s with
  | c :: r => if ascii_isspace c then StripLeadingWhitespace r else s
  | [] => []
  end.
Definition StripAsciiWhitespace (s : str) : str :=
  rev (StripLeadingWhitespace (rev (StripLeadingWhitespace s))).

(** [absl::StartsWithIgnoreCase] and [absl::EndsWithIgnoreCase]. *)
Definition StartsWithIgnoreCase (s prefix : str) : bool :=
  EqualsIgnoreCase (take (length prefix) s) prefix.
Definition EndsWithIgnoreCase (s suffix : str) : bool :=
  (length suffix <=? length s) && EqualsIgnoreCase (drop (length s - length suffix) s) suffix.

(** The conversion [%0wd] of [absl::StrFormat]: the sign, then zeros up to the
    width, then the digits. *)
Definition PadInt (w : nat) (z : Z) : str :=
  let sign := if (z <? 0)%Z then ["-"%char] else [] in
  let digits := StrInt (Z.abs z) in
  sign ++ replicate (w - length sign - length digits) "0"%char ++ digits.
End derived.

(** [absl::StartsWith] and [absl::EndsWith]. *)
Definition has_prefix (s p : str) : bool :=
  match strip_prefix p s with Some _ => true | None => false end.
Definition has_suffix (s p : str) : bool := has_prefix (rev s) (rev p).

(** ** Facts the components share *)

Lemma byteval_range c : (0 <= byteval c < 256)%Z.
Proof. unfold byteval. pose proof (N_ascii_bounded c). lia. Qed.

Lemma byteof_byteval c : byteof (byteval c) = c.
Proof.
  unfold byteof. rewrite Z.mod_small by apply byteval_range.
  unfold byteval. by rewrite N2Z.id, ascii_N_embedding.
Qed.

Lemma byteval_byteof z : byteval (byteof z) = (z mod 256)%Z.
Proof.
  unfold byteval, byteof. pose proof (Z.mod_pos_bound z 256 ltac:(lia)).
  rewrite N_ascii_embedding by lia. by rewrite Z2N.id by lia.
Qed.

#[export] Instance byteval_inj : Inj (=) (=) byteval.
Proof. intros a b E. by rewrite <- (byteof_byteval a), E, byteof_byteval. Qed.

Section laws.
Context `{AbslTextLaws}.

Lemma tolower_idem c : ascii_tolower (ascii_tolower c) = ascii_tolower c.
Proof.
  apply (inj byteval). rewrite !ascii_tolower_spec.
  repeat case_bool_decide; lia.
Qed.

Lemma AsciiStrToLower_idem s : AsciiStrToLower (AsciiStrToLower s) = AsciiStrToLower s.
Proof.
  unfold AsciiStrToLower. rewrite map_map. apply map_ext. intros. apply tolower_idem.
Qed.

Lemma join_cons c p l : l <> [] -> join c (p :: l) = p ++ c :: join c l.
Proof. by destruct l. Qed.

Lemma app_sep_inj (c : ascii) (p q r s : str) :
  c ∉ p -> c ∉ q -> p ++ c :: r = q ++ c :: s -> p = q /\ r = s.
Proof.
  revert q. induction p as [|x p IH]; intros [|y q] Hp Hq E; simplify_eq/=; try set_solver.
  destruct (IH q) as [-> ->]; set_solver.
Qed.

Lemma app_sep_inj_r (c : ascii) (p q r s : str) :
  c ∉ r -> c ∉ s -> p ++ c :: r = q ++ c :: s -> p = q /\ r = s.
Proof.
  intros Hr Hs E. apply (f_equal reverse) in E.
  rewrite !reverse_app, !reverse_cons, <- !app_assoc in E.
  apply (app_sep_inj c) in E as [E1 E2]; rewrite ?elem_of_reverse; try done.
  split; by apply (inj reverse).
Qed.

(** The pieces of a join determine it: the split of a join is the list joined. *)
Lemma join_inj c l1 l2 :
  l1 <> [] -> l2 <> [] ->
  Forall (fun p => c ∉ p) l1 -> Forall (fun p => c ∉ p) l2 ->
  join c l1 = join c l2 -> l1 = l2.
Proof.
  revert l2. induction l1 as [|p l1 IH]; intros [|q l2] N1 N2 F1 F2; try done.
  inversion F1; inversion F2; subst.
  destruct l1 as [|p' l1], l2 as [|q' l2]; intros E.
  - by simplify_eq/=.
  - exfalso. simpl in E. subst p. set_solver.
  - exfalso. simpl in E. subst q. set_solver.
  - rewrite !join_cons in E by done. apply app_sep_inj in E as [-> E]; [|done..].
    f_equal. by apply IH.
Qed.

Lemma StrSplit_of_join c l :
  l <> [] -> Forall (fun p => c ∉ p) l -> StrSplit (join c l) c = l.
Proof.
  intros N F. apply (join_inj c); auto using StrSplit_nonempty, StrSplit_pieces, StrSplit_join.
Qed.

(** A number that is not negative is written with digits only. *)
Lemma StrInt_isdigit z : (0 <= z)%Z -> Forall (fun c => ascii_isdigit c = true) (StrInt z).
Proof.
  intros Z0. destruct (StrInt_shape z) as ([] & ds & E & _ & F); [|by rewrite E].
  exfalso. pose proof (StrInt_value z Z0) as V. rewrite E in V. cbn [app map] in V.
  rewrite of_digits_cons in V. change (byteval "-"%char - 48)%Z with (-3)%Z in V.
  assert (Forall (fun d => 0 <= d < 10)%Z (map (fun c => byteval c - 48)%Z ds)) as B.
  { apply Forall_fmap. eapply Forall_impl; [exact F|]. intros c Hc. apply ascii_isdigit_spec in Hc. cbn. lia. }
  apply of_digits_bound in B; lia.
Qed.

Lemma StrInt_no_char z c :
  ascii_isdigit c = false -> c <> "-"%char -> c ∉ StrInt z.
Proof.
  intros D N Hin. pose proof (StrInt_chars z) as F.
  rewrite Forall_forall in F. destruct (F c Hin); congruence.
Qed.
End laws.
