(* ===== verification/AbslReference.v ===== *)
(** * AbslReference: a concrete instance of the text routines

    An implementation of [AbslText] that satisfies [AbslTextLaws].  It makes
    the closed examples of the other files compute and shows that the laws the
    theorems assume can hold together. *)

From S2P Require Import Prelude Absl.

Definition ref_isspace (c : ascii) : bool :=
  ((byteval c =? 32) || ((9 <=? byteval c) && (byteval c <=? 13)))%Z.
Definition ref_isdigit (c : ascii) : bool := ((48 <=? byteval c) && (byteval c <=? 57))%Z.
Definition ref_isalpha (c : ascii) : bool :=
  (((65 <=? byteval c) && (byteval c <=? 90)) || ((97 <=? byteval c) && (byteval c <=? 122)))%Z.
Definition ref_tolower (c : ascii) : ascii :=
  if ((65 <=? byteval c) && (byteval c <=? 90))%Z then byteof (byteval c + 32) else c.
Definition ref_toupper (c : ascii) : ascii :=
  if ((97 <=? byteval c) && (byteval c <=? 122))%Z then byteof (byteval c - 32) else c.

Fixpoint ref_split (s : str) (c : ascii) : list str :=
  match s with
  | [] => [[]]
  | x :: s =>
      if decide (x = c) then [] :: ref_split s c
      else match ref_split s c with
           | [] => [[x]]
           | p :: l => (x :: p) :: l
           end
  end.

(** Decimal digits of a non-negative integer, most significant first. *)
Definition digit (n : Z) : ascii := byteof (48 + n mod 10).

Fixpoint ref_digits (fuel : nat) (n : Z) (acc : str) : str :=
  match fuel with
  | 0 => acc
  | S fuel =>
      let acc := digit n :: acc in
      if (n / 10 =? 0)%Z then acc else ref_digits fuel (n / 10) acc
  end.

Definition ref_nat (n : Z) : str := ref_digits (S (Z.to_nat (Z.log2 n))) n [].
Definition ref_StrInt (z : Z) : str :=
  if (z <? 0)%Z then "-"%char :: ref_nat (- z) else ref_nat z.

Definition ref_value (s : str) : Z := fold_left (fun a c => 10 * a + (byteval c - 48))%Z s 0%Z.

Definition ref_unsigned (s : str) : option Z :=
  match s with
  | [] => None
  | _ => if forallb ref_isdigit s then Some (ref_value s) else None
  end.

Definition ref_integer (s : str) : option Z :=
  match s with
  | c :: s' => if decide (c = "-"%char) then Z.opp <$> ref_unsigned s'
               else if decide (c = "+"%char) then ref_unsigned s' else ref_unsigned s
  | [] => None
  end.

Fixpoint ref_ltrim (s : str) : str :=
  match s with
  | c :: s' => if ref_isspace c then ref_ltrim s' else s
  | [] => []
  end.

Definition ref_SimpleAtoi (s : str) : option Z :=
  match ref_integer (rev (ref_ltrim (rev (ref_ltrim s)))) with
  | Some z => if bool_decide (in_int64 z) then Some z else None
  | None => None
  end.

#[export] Instance in_int64_dec z : Decision (in_int64 z).
Proof. unfold in_int64. apply _. Defined.

#[export] Instance absl_reference : AbslText := {
  StrSplit := ref_split;
  StrInt := ref_StrInt;
  SimpleAtoi := ref_SimpleAtoi;
  ascii_isspace := ref_isspace;
  ascii_isalpha := ref_isalpha;
  ascii_isdigit := ref_isdigit;
  ascii_tolower := ref_tolower;
  ascii_toupper := ref_toupper;
}.

Lemma ref_split_nonempty s c : ref_split s c <> [].
Proof. destruct s; simpl; [done|]. case_decide; [done|]. by destruct (ref_split s c). Qed.

Lemma ref_split_join s c : join c (ref_split s c) = s.
Proof.
  induction s as [|x s IH]; simpl; [done|]. pose proof (ref_split_nonempty s c).
  case_decide; subst.
  - rewrite join_cons by done. by rewrite IH.
  - destruct (ref_split s c) as [|p [|q l]]; simpl in *; [done|congruence..].
Qed.

Lemma ref_split_pieces s c : Forall (fun p => c ∉ p) (ref_split s c).
Proof.
  induction s as [|x s IH]; simpl; [repeat constructor; set_solver|].
  case_decide; [constructor; [set_solver|done]|].
  destruct (ref_split s c); inversion IH; subst; repeat constructor; set_solver.
Qed.

Lemma byteval_digit n : byteval (digit n) = (48 + n mod 10)%Z.
Proof.
  unfold digit. rewrite byteval_byteof. apply Z.mod_small.
  pose proof (Z.mod_pos_bound n 10). lia.
Qed.

Lemma digit_isdigit n : ref_isdigit (digit n) = true.
Proof.
  unfold ref_isdigit. rewrite byteval_digit. pose proof (Z.mod_pos_bound n 10).
  apply andb_true_iff. lia.
Qed.

Lemma ref_digits_isdigit fuel n acc :
  forallb ref_isdigit acc = true -> forallb ref_isdigit (ref_digits fuel n acc) = true.
Proof.
  revert n acc. induction fuel as [|fuel IH]; intros n acc F; simpl; [done|].
  assert (forallb ref_isdigit (digit n :: acc) = true) by (simpl; by rewrite digit_isdigit).
  case_match; auto.
Qed.

Lemma ref_digits_nonempty fuel n acc : acc <> [] -> ref_digits fuel n acc <> [].
Proof.
  revert n acc. induction fuel as [|fuel IH]; intros n acc F; simpl; [done|].
  case_match; [done|]. by apply IH.
Qed.

Definition value_from (a : Z) (s : str) : Z :=
  fold_left (fun a c => 10 * a + (byteval c - 48))%Z s a.

Lemma ref_digits_value fuel n acc :
  (0 <= n < 10 ^ Z.of_nat fuel)%Z ->
  value_from 0 (ref_digits fuel n acc) = value_from n acc.
Proof.
  revert n acc. induction fuel as [|fuel IH]; intros n acc Hn; simpl.
  { assert (n = 0%Z) by (simpl in Hn; lia). by subst. }
  assert (E : (10 * (n / 10) + n mod 10 = n)%Z) by (pose proof (Z.div_mod n 10); lia).
  rewrite Nat2Z.inj_succ, Z.pow_succ_r in Hn by lia.
  case_match eqn:Z0.
  - apply Z.eqb_eq in Z0. cbn [value_from fold_left]. rewrite byteval_digit.
    unfold value_from. f_equal. lia.
  - rewrite IH.
    + cbn [value_from fold_left]. rewrite byteval_digit. unfold value_from. f_equal. lia.
    + split; [apply Z.div_pos; lia|]. apply Z.div_lt_upper_bound; lia.
Qed.

Lemma ref_digits_leading fuel n acc c s :
  (0 < n < 10 ^ Z.of_nat fuel)%Z -> ref_digits fuel n acc = c :: s -> c <> "0"%char.
Proof.
  revert n acc. induction fuel as [|fuel IH]; intros n acc Hn; simpl; [simpl in Hn; lia|].
  rewrite Nat2Z.inj_succ, Z.pow_succ_r in Hn by lia.
  pose proof (Z.div_mod n 10 ltac:(lia)). pose proof (Z.mod_pos_bound n 10 ltac:(lia)).
  case_match eqn:Z0.
  - apply Z.eqb_eq in Z0. intros [= <- _] E.
    apply (f_equal byteval) in E. rewrite byteval_digit in E. change (byteval "0") with 48%Z in E. lia.
  - apply Z.eqb_neq in Z0. apply IH. pose proof (Z.div_pos n 10).
    split; [lia|]. apply Z.div_lt_upper_bound; lia.
Qed.

Lemma fuel_enough n : (0 <= n)%Z -> (n < 10 ^ Z.of_nat (S (Z.to_nat (Z.log2 n))))%Z.
Proof.
  intros Hn. rewrite Nat2Z.inj_succ, Z2Nat.id by apply Z.log2_nonneg.
  destruct (Z.eq_dec n 0) as [->|]; [done|].
  eapply Z.lt_le_trans; [apply Z.log2_spec; lia|].
  apply Z.pow_le_mono_l. lia.
Qed.

Lemma ref_nat_value n : (0 <= n)%Z -> ref_value (ref_nat n) = n.
Proof.
  intros Hn. unfold ref_nat.
  change (ref_value ?s) with (value_from 0 s). rewrite ref_digits_value; [done|].
  split; [done|]. by apply fuel_enough.
Qed.

Lemma ref_value_digits s : of_digits 10 (map (fun c => byteval c - 48)%Z s) = ref_value s.
Proof.
  unfold of_digits, ref_value. generalize 0%Z as a. induction s as [|c s IH]; intros a; cbn [map fold_left]; [done|].
  rewrite IH. f_equal. lia.
Qed.

Lemma ref_nat_nonempty n : ref_nat n <> [].
Proof.
  unfold ref_nat. simpl. case_match; [done|]. by apply ref_digits_nonempty.
Qed.

Lemma ref_nat_isdigit n : forallb ref_isdigit (ref_nat n) = true.
Proof. by apply ref_digits_isdigit. Qed.

Lemma ref_nat_unsigned n : (0 <= n)%Z -> ref_unsigned (ref_nat n) = Some n.
Proof.
  intros Hn. unfold ref_unsigned. rewrite ref_nat_isdigit, ref_nat_value by done.
  pose proof (ref_nat_nonempty n). by destruct (ref_nat n).
Qed.

Lemma isdigit_cases c : ref_isdigit c = true ->
  c <> "-"%char /\ c <> "+"%char /\ ref_isspace c = false.
Proof.
  unfold ref_isdigit, ref_isspace. intros H%andb_true_iff.
  repeat split; [intros ->; vm_compute in H; naive_solver..|].
  apply orb_false_iff. split; [lia|]. apply andb_false_iff. lia.
Qed.

Lemma ref_integer_StrInt z : ref_integer (ref_StrInt z) = Some z.
Proof.
  unfold ref_StrInt. destruct (Z.ltb_spec z 0).
  - simpl. rewrite ref_nat_unsigned by lia. simpl. f_equal. lia.
  - pose proof (ref_nat_nonempty z). pose proof (ref_nat_isdigit z) as D.
    unfold ref_integer. destruct (ref_nat z) as [|c s] eqn:E; [done|].
    simpl in D. apply andb_true_iff in D as [D _]. apply isdigit_cases in D as (? & ? & _).
    rewrite !decide_False by done. rewrite <- E. by apply ref_nat_unsigned.
Qed.

Lemma ltrim_id s : (forall c s', s = c :: s' -> ref_isspace c = false) -> ref_ltrim s = s.
Proof. destruct s as [|c s]; intros H; simpl; [done|]. by rewrite (H c s). Qed.

Lemma ref_StrInt_chars z :
  Forall (fun c => ref_isdigit c = true \/ c = "-"%char) (ref_StrInt z).
Proof.
  assert (forall n, Forall (fun c => ref_isdigit c = true \/ c = "-"%char) (ref_nat n)).
  { intros n. pose proof (ref_nat_isdigit n) as D. rewrite forallb_forall in D.
    apply Forall_forall. intros c Hc%list_elem_of_In. auto. }
  unfold ref_StrInt. case_match; [constructor; auto|auto].
Qed.

Lemma ref_StrInt_nospace z : Forall (fun c => ref_isspace c = false) (ref_StrInt z).
Proof.
  eapply Forall_impl; [apply ref_StrInt_chars|]. intros c [Hc| ->]; [|done].
  by apply isdigit_cases.
Qed.

Lemma ref_trim_StrInt z : rev (ref_ltrim (rev (ref_ltrim (ref_StrInt z)))) = ref_StrInt z.
Proof.
  assert (T : forall s, Forall (fun c => ref_isspace c = false) s -> ref_ltrim s = s).
  { intros s F. apply ltrim_id. intros c s' ->. by inversion F. }
  rewrite (T (ref_StrInt z)) by apply ref_StrInt_nospace. rewrite T.
  - apply rev_involutive.
  - apply Forall_rev, ref_StrInt_nospace.
Qed.

Lemma byteval_tolower c :
  byteval (ref_tolower c) =
    if bool_decide (65 <= byteval c <= 90)%Z then (byteval c + 32)%Z else byteval c.
Proof.
  unfold ref_tolower. pose proof (byteval_range c).
  case_match eqn:E; case_bool_decide; bool_to_prop; try lia.
  - rewrite byteval_byteof. apply Z.mod_small. lia.
Qed.

Lemma byteval_toupper c :
  byteval (ref_toupper c) =
    if bool_decide (97 <= byteval c <= 122)%Z then (byteval c - 32)%Z else byteval c.
Proof.
  unfold ref_toupper. pose proof (byteval_range c).
  case_match eqn:E; case_bool_decide; bool_to_prop; try lia.
  - rewrite byteval_byteof. apply Z.mod_small. lia.
Qed.

#[export] Instance absl_reference_laws : AbslTextLaws.
Proof.
  split; simpl.
  - apply ref_split_nonempty.
  - apply ref_split_join.
  - apply ref_split_pieces.
  - intros z. unfold ref_StrInt. case_match; [done|apply ref_nat_nonempty].
  - apply ref_StrInt_chars.
  - intros z. assert (forall n, Forall (fun c => ref_isdigit c = true) (ref_nat n)) as D.
    { intros n. apply Forall_forall. intros c Hn%list_elem_of_In.
      pose proof (ref_nat_isdigit n) as F. rewrite forallb_forall in F. auto. }
    exists (z <? 0)%Z. unfold ref_StrInt.
    destruct (z <? 0)%Z; eexists; eauto using ref_nat_nonempty.
  - intros z Hz. unfold ref_SimpleAtoi. rewrite ref_trim_StrInt, ref_integer_StrInt.
    by rewrite bool_decide_true.
  - intros s z. unfold ref_SimpleAtoi. case_match; [|done]. case_bool_decide; [|done].
    by intros [= <-].
  - intros z z' E. apply (f_equal ref_integer) in E.
    rewrite !ref_integer_StrInt in E. by simplify_eq.
  - reflexivity.
  - intros z Hz. unfold ref_StrInt. rewrite Z.opp_involutive.
    destruct (Z.ltb_spec (- z) 0), (Z.ltb_spec z 0); by try lia.
  - intros z c s Hz. unfold ref_StrInt. destruct (Z.ltb_spec z 0); [lia|].
    apply ref_digits_leading. split; [done|]. apply fuel_enough. lia.
  - intros z Hz. unfold ref_StrInt. destruct (Z.ltb_spec z 0); [lia|].
    rewrite <- (ref_nat_value z) at 2 by done. apply ref_value_digits.
  - intros z Hz. unfold ref_SimpleAtoi. rewrite ref_trim_StrInt, ref_integer_StrInt.
    by rewrite bool_decide_false.
  - intros c. unfold ref_isspace. rewrite orb_true_iff, andb_true_iff. lia.
  - intros c. unfold ref_isdigit. rewrite andb_true_iff. lia.
  - intros c. unfold ref_isalpha. rewrite orb_true_iff, !andb_true_iff. lia.
  - apply byteval_tolower.
  - apply byteval_toupper.
Qed.

(** ** The character routines are determined by their laws

    Every instance that satisfies the laws agrees with the reference one on
    the character classes, so a closed text computes in any instance once it
    is rewritten to the reference routines. *)
Section determined.
Context `{AbslTextLaws}.

Lemma isspace_ref c : ascii_isspace c = ref_isspace c.
Proof. apply eq_true_iff_eq. by rewrite ascii_isspace_spec, (@ascii_isspace_spec absl_reference _). Qed.

Lemma isdigit_ref c : ascii_isdigit c = ref_isdigit c.
Proof. apply eq_true_iff_eq. by rewrite ascii_isdigit_spec, (@ascii_isdigit_spec absl_reference _). Qed.

Lemma isalpha_ref c : ascii_isalpha c = ref_isalpha c.
Proof. apply eq_true_iff_eq. by rewrite ascii_isalpha_spec, (@ascii_isalpha_spec absl_reference _). Qed.

Lemma tolower_ref s : AsciiStrToLower s = map ref_tolower s.
Proof.
  unfold AsciiStrToLower. apply map_ext. intros c. apply (inj byteval).
  by rewrite ascii_tolower_spec, byteval_tolower.
Qed.

Lemma toupper_ref s : AsciiStrToUpper s = map ref_toupper s.
Proof.
  unfold AsciiStrToUpper. apply map_ext. intros c. apply (inj byteval).
  by rewrite ascii_toupper_spec, byteval_toupper.
Qed.

Lemma EqualsIgnoreCase_ref a b :
  EqualsIgnoreCase a b = bool_decide (map ref_tolower a = map ref_tolower b).
Proof. unfold EqualsIgnoreCase. by rewrite !tolower_ref. Qed.

Lemma StripAsciiWhitespace_ref s :
  StripAsciiWhitespace s = rev (ref_ltrim (rev (ref_ltrim s))).
Proof.
  assert (forall s, StripLeadingWhitespace s = ref_ltrim s) as E.
  { intros t. induction t as [|c t IH]; simpl; [done|]. by rewrite isspace_ref, IH. }
  unfold StripAsciiWhitespace. by rewrite !E.
Qed.
End determined.

Example StrInt_2024 : StrInt 2024 = $"2024" /\ SimpleAtoi $" -17 " = Some (-17)%Z.
Proof. done. Qed.
