(* ===== verification/Schema.v ===== *)
(** * Schema: column types, modes and table schemas

    Models [backend/schema/schema.h] and [backend/schema/schema.cc]: the
    BigQuery column types and modes, their names, the conversion between the
    engine's schemas and the wire's [FieldSchema] messages, and the lowering of
    column types onto DuckDB type expressions. *)

From S2P Require Import Prelude Absl AbslReference.

Inductive ColumnType :=
| kUnknown | kInt64 | kFloat64 | kBool | kString | kBytes | kDate | kTime
| kDatetime | kTimestamp | kNumeric | kBignumeric | kJson | kGeography
| kArray | kStruct.

Inductive ColumnMode := kNullable | kRequired | kRepeated.

#[export] Instance ColumnType_eq_dec : EqDecision ColumnType.
Proof. solve_decision. Defined.
#[export] Instance ColumnMode_eq_dec : EqDecision ColumnMode.
Proof. solve_decision. Defined.

Inductive ColumnSchema := mkColumn {
  col_name : str;
  col_type : ColumnType;
  col_mode : ColumnMode;
  col_description : str;
  col_raw_type : str;
  col_fields : list ColumnSchema;
}.

Record TableSchema := mkTableSchema { columns : list ColumnSchema }.

(** The wire messages [v1::FieldSchema] and [v1::TableSchema]. *)
Inductive FieldSchema := mkField {
  f_name : str;
  f_type : str;
  f_mode : str;
  f_description : str;
  f_fields : list FieldSchema;
}.

Record TableSchemaProto := mkTableSchemaProto { ts_fields : list FieldSchema }.

Section schema.
Context `{AbslText}.

Definition ColumnTypeName (t : ColumnType) : str :=
  match t with
  | kInt64 => $"INT64" | kFloat64 => $"FLOAT64" | kBool => $"BOOL"
  | kString => $"STRING" | kBytes => $"BYTES" | kDate => $"DATE"
  | kTime => $"TIME" | kDatetime => $"DATETIME" | kTimestamp => $"TIMESTAMP"
  | kNumeric => $"NUMERIC" | kBignumeric => $"BIGNUMERIC" | kJson => $"JSON"
  | kGeography => $"GEOGRAPHY" | kArray => $"ARRAY" | kStruct => $"STRUCT"
  | kUnknown => $""
  end.

Definition ParseColumnType (name : str) : ColumnType :=
  if EqualsIgnoreCase name $"INT64" || EqualsIgnoreCase name $"INTEGER" then kInt64
  else if EqualsIgnoreCase name $"FLOAT64" || EqualsIgnoreCase name $"FLOAT" then kFloat64
  else if EqualsIgnoreCase name $"BOOL" || EqualsIgnoreCase name $"BOOLEAN" then kBool
  else if EqualsIgnoreCase name $"STRING" then kString
  else if EqualsIgnoreCase name $"BYTES" then kBytes
  else if EqualsIgnoreCase name $"DATE" then kDate
  else if EqualsIgnoreCase name $"TIME" then kTime
  else if EqualsIgnoreCase name $"DATETIME" then kDatetime
  else if EqualsIgnoreCase name $"TIMESTAMP" then kTimestamp
  else if EqualsIgnoreCase name $"NUMERIC" then kNumeric
  else if EqualsIgnoreCase name $"BIGNUMERIC" || EqualsIgnoreCase name $"BIGDECIMAL"
       then kBignumeric
  else if EqualsIgnoreCase name $"JSON" then kJson
  else if EqualsIgnoreCase name $"GEOGRAPHY" then kGeography
  else if EqualsIgnoreCase name $"ARRAY" then kArray
  else if EqualsIgnoreCase name $"STRUCT" || EqualsIgnoreCase name $"RECORD" then kStruct
  else kUnknown.

Definition ColumnModeName (m : ColumnMode) : str :=
  match m with
  | kNullable => $"NULLABLE" | kRequired => $"REQUIRED" | kRepeated => $"REPEATED"
  end.

Definition ParseColumnMode (name : str) : ColumnMode :=
  if bool_decide (name = []) then kNullable
  else if EqualsIgnoreCase name $"REQUIRED" then kRequired
  else if EqualsIgnoreCase name $"REPEATED" then kRepeated
  else kNullable.

(** The loop over the nested fields of a column called [name]: the first
    failing field fails the column, its message prefixed with the path. *)
Definition FieldsFromProto (from_proto : FieldSchema -> StatusOr ColumnSchema) (name : str) :=
  fix go (l : list FieldSchema) : StatusOr (list ColumnSchema) :=
    match l with
    | [] => Ok []
    | nested :: l =>
        match from_proto nested with
        | Err e => Err (mkStatus (code e) (name ++ $"." ++ message e) None)
        | Ok child => cs ← go l; Ok (child :: cs)
        end
    end.

Fixpoint ColumnSchemaFromProto (proto : FieldSchema) : StatusOr ColumnSchema :=
  match proto with
  | mkField name type mode description fields =>
      if bool_decide (name = []) then
        Err (InvalidArgumentError $"FieldSchema is missing the required `name` field")
      else
        let ty := ParseColumnType type in
        let raw := if decide (ty = kUnknown) then type else [] in
        children ← FieldsFromProto ColumnSchemaFromProto name fields;
        Ok (mkColumn name ty (ParseColumnMode mode) description raw children)
  end.

Definition TableSchemaFromProto (proto : TableSchemaProto) : StatusOr TableSchema :=
  cols ← outcome_mapM ColumnSchemaFromProto (ts_fields proto); Ok (mkTableSchema cols).

Fixpoint ColumnSchemaToProto (c : ColumnSchema) : FieldSchema :=
  match c with
  | mkColumn name type mode description raw fields =>
      mkField name
        (if bool_decide (type = kUnknown) && negb (bool_decide (raw = []))
         then raw else ColumnTypeName type)
        (ColumnModeName mode) description
        (map ColumnSchemaToProto fields)
  end.

Definition TableSchemaToProto (s : TableSchema) : TableSchemaProto :=
  mkTableSchemaProto (map ColumnSchemaToProto (columns s)).

(** *** DuckDB types *)

Definition ToDuckDBType (t : ColumnType) : str :=
  match t with
  | kInt64 => $"BIGINT" | kFloat64 => $"DOUBLE" | kBool => $"BOOLEAN"
  | kString => $"VARCHAR" | kBytes => $"BLOB" | kDate => $"DATE" | kTime => $"TIME"
  | kDatetime => $"TIMESTAMP" | kTimestamp => $"TIMESTAMP WITH TIME ZONE"
  | kNumeric => $"DECIMAL(38, 9)" | kBignumeric => $"DECIMAL(38, 38)"
  | kJson => $"JSON" | kGeography => $"VARCHAR" | kArray => $"LIST"
  | kStruct => $"STRUCT" | kUnknown => $"VARCHAR"
  end.

Definition ToDuckDBStorageType (t : ColumnType) : str :=
  if decide (t = kBignumeric) then $"VARCHAR" else ToDuckDBType t.

Fixpoint TypeHead (name : str) : str :=
  match name with
  | [] => []
  | c :: name =>
      if bool_decide (c = "("%char \/ c = "["%char \/ c = " "%char \/ c = "009"%char)
      then [] else c :: TypeHead name
  end.

Definition DuckDBTypeAliases : list (str * ColumnType) := [
  ($"BIGINT", kInt64); ($"INT8", kInt64); ($"LONG", kInt64); ($"INT64", kInt64);
  ($"INTEGER", kInt64); ($"INT", kInt64); ($"INT4", kInt64); ($"SMALLINT", kInt64);
  ($"INT2", kInt64); ($"TINYINT", kInt64); ($"INT1", kInt64);
  ($"DOUBLE", kFloat64); ($"FLOAT8", kFloat64); ($"REAL", kFloat64);
  ($"FLOAT4", kFloat64); ($"FLOAT", kFloat64);
  ($"BOOLEAN", kBool); ($"BOOL", kBool);
  ($"VARCHAR", kString); ($"TEXT", kString); ($"STRING", kString); ($"CHAR", kString);
  ($"BLOB", kBytes); ($"BYTEA", kBytes); ($"BINARY", kBytes); ($"VARBINARY", kBytes);
  ($"BYTES", kBytes);
  ($"DATE", kDate); ($"TIME", kTime);
  ($"TIMESTAMPTZ", kTimestamp); ($"TIMESTAMP_TZ", kTimestamp);
  ($"DECIMAL", kNumeric); ($"NUMERIC", kNumeric);
  ($"HUGEINT", kBignumeric); ($"BIGNUMERIC", kBignumeric); ($"BIGDECIMAL", kBignumeric);
  ($"JSON", kJson); ($"GEOMETRY", kGeography); ($"GEOGRAPHY", kGeography);
  ($"STRUCT", kStruct); ($"ROW", kStruct); ($"RECORD", kStruct);
  ($"LIST", kArray); ($"ARRAY", kArray)].

Fixpoint drop_leading (c : ascii) (s : str) : str :=
  match s with
  | d :: s' => if decide (d = c) then drop_leading c s' else s
  | [] => []
  end.

Definition StripArraySuffix (name : str) : str :=
  rev (drop_leading "["%char (drop_leading "]"%char (rev name))).

Definition ResolveTimestampVariant (name : str) : ColumnType :=
  if str_contains (AsciiStrToUpper name) $"WITH TIME ZONE" then kTimestamp else kDatetime.

Fixpoint alias_find (key : str) (l : list (str * ColumnType)) : option ColumnType :=
  match l with
  | [] => None
  | (k, v) :: l => if decide (k = key) then Some v else alias_find key l
  end.

Definition FromDuckDBType (duckdb_type : str) : ColumnType :=
  let name := StripArraySuffix duckdb_type in
  let head := TypeHead name in
  if EqualsIgnoreCase head $"TIMESTAMP" then ResolveTimestampVariant name
  else match alias_find (AsciiStrToUpper head) DuckDBTypeAliases with
       | Some t => t
       | None => kUnknown
       end.

(** [absl::StrReplaceAll(name, {{quote, quote quote}})], then quoted. *)
Definition dquote : ascii := "034"%char.
Definition QuoteStructFieldName (name : str) : str :=
  [dquote] ++ flat_map (fun c => if decide (c = dquote) then [c; c] else [c]) name ++ [dquote].

Fixpoint ColumnSchemaToDuckDBTypeWithFn (scalar_type : ColumnType -> str)
    (c : ColumnSchema) : str :=
  match c with
  | mkColumn _ type mode _ _ fields =>
      let rep := if decide (mode = kRepeated) then $"[]" else [] in
      match type with
      | kStruct =>
          $"STRUCT(" ++
          (fix go (first : bool) (l : list ColumnSchema) : str :=
             match l with
             | [] => []
             | f :: l =>
                 (if first then [] else $", ") ++
                 QuoteStructFieldName (col_name f) ++ $" " ++
                 ColumnSchemaToDuckDBTypeWithFn scalar_type f ++ go false l
             end) true fields ++ $")" ++ rep
      | kArray =>
          match fields with
          | [] => $"VARCHAR"
          | f :: _ => ColumnSchemaToDuckDBTypeWithFn scalar_type f
          end ++ $"[]" ++ rep
      | _ => scalar_type type ++ rep
      end
  end.

Definition ColumnSchemaToDuckDBType (c : ColumnSchema) : str :=
  ColumnSchemaToDuckDBTypeWithFn ToDuckDBType c.
Definition ColumnSchemaToDuckDBStorageType (c : ColumnSchema) : str :=
  ColumnSchemaToDuckDBTypeWithFn ToDuckDBStorageType c.
End schema.

(** ** Induction on nested schemas *)

Section nested_induction.
Variable P : ColumnSchema -> Prop.
Hypothesis step : forall n t m d r fs, Forall P fs -> P (mkColumn n t m d r fs).

Fixpoint ColumnSchema_nested (c : ColumnSchema) : P c :=
  match c with
  | mkColumn n t m d r fs =>
      step n t m d r fs
        ((fix go l : Forall P l :=
            match l with
            | [] => List.Forall_nil P
            | f :: l => List.Forall_cons P f l (ColumnSchema_nested f) (go l)
            end) fs)
  end.
End nested_induction.

Section field_induction.
Variable P : FieldSchema -> Prop.
Hypothesis step : forall n t m d fs, Forall P fs -> P (mkField n t m d fs).

Fixpoint FieldSchema_nested (c : FieldSchema) : P c :=
  match c with
  | mkField n t m d fs =>
      step n t m d fs
        ((fix go l : Forall P l :=
            match l with
            | [] => List.Forall_nil P
            | f :: l => List.Forall_cons P f l (FieldSchema_nested f) (go l)
            end) fs)
  end.
End field_induction.

(** ** Well-formed schemas

    A column read from the wire has a name, and keeps the wire's type name
    exactly when the engine does not know it. *)
Section wf.
Context `{AbslText}.

Inductive wf_column : ColumnSchema -> Prop :=
| wf_column_intro n t m d r fs :
    n <> [] ->
    (t = kUnknown -> ParseColumnType r = kUnknown) ->
    (t <> kUnknown -> r = []) ->
    Forall wf_column fs ->
    wf_column (mkColumn n t m d r fs).

Definition wf_schema (s : TableSchema) : Prop := Forall wf_column (columns s).
End wf.

Section theorems.
Context `{AbslTextLaws}.

Ltac ignore_case := unfold ParseColumnType, ParseColumnMode; rewrite ?EqualsIgnoreCase_ref.

Lemma ParseColumnType_name t : ParseColumnType (ColumnTypeName t) = t.
Proof. ignore_case. by destruct t. Qed.

Lemma ParseColumnMode_name m : ParseColumnMode (ColumnModeName m) = m.
Proof. ignore_case. by destruct m. Qed.

Lemma ParseColumnType_empty : ParseColumnType [] = kUnknown.
Proof. exact (ParseColumnType_name kUnknown). Qed.

Lemma children_from_proto (name : str) (cs : list ColumnSchema) :
  Forall (fun c => ColumnSchemaFromProto (ColumnSchemaToProto c) = Ok c) cs ->
  FieldsFromProto ColumnSchemaFromProto name (map ColumnSchemaToProto cs) = Ok cs.
Proof. induction 1 as [|c cs E _ IH]; simpl; [done|]. by rewrite E, IH. Qed.

Lemma children_wf name l cs :
  Forall (fun p => forall c, ColumnSchemaFromProto p = Ok c -> wf_column c) l ->
  FieldsFromProto ColumnSchemaFromProto name l = Ok cs -> Forall wf_column cs.
Proof.
  intros F. revert cs. induction F as [|q l Hq _ IH]; intros cs E; simplify_eq/=; [constructor|].
  destruct (ColumnSchemaFromProto q) eqn:Q; [|done].
  destruct (FieldsFromProto _ name l) eqn:G; simplify_eq/=. constructor; eauto.
Qed.

Lemma column_proto_roundtrip c :
  wf_column c -> ColumnSchemaFromProto (ColumnSchemaToProto c) = Ok c.
Proof.
  induction c as [n t m d r fs IH] using ColumnSchema_nested.
  inversion_clear 1 as [? ? ? ? ? ? Hn Hu Hk Hfs].
  simpl. rewrite bool_decide_false by done.
  rewrite children_from_proto.
  2: { clear -IH Hfs. induction Hfs; inversion IH; constructor; auto. }
  simpl. rewrite ParseColumnMode_name. destruct (decide (t = kUnknown)) as [->|Ht].
  - rewrite bool_decide_true by done. destruct r as [|x r].
    + rewrite bool_decide_true by done. cbn [andb negb]. by rewrite ParseColumnType_name.
    + rewrite (bool_decide_false (x :: r = [])) by done. cbn [andb negb].
      rewrite Hu by done. done.
  - rewrite (bool_decide_false (t = kUnknown)) by done. cbn [andb].
    rewrite ParseColumnType_name, decide_False by done. by rewrite Hk.
Qed.

Lemma from_proto_wf p c : ColumnSchemaFromProto p = Ok c -> wf_column c.
Proof.
  revert c. induction p as [n t m d fs IH] using FieldSchema_nested. intros c; simpl.
  case_bool_decide as Hn; [done|].
  destruct (FieldsFromProto _ n fs) as [cs|] eqn:G; simpl; intros; simplify_eq.
  constructor; eauto using children_wf; case_decide; naive_solver.
Qed.

Lemma columns_mapM_roundtrip cs :
  Forall wf_column cs ->
  outcome_mapM ColumnSchemaFromProto (map ColumnSchemaToProto cs) = Ok cs.
Proof.
  induction 1 as [|c cs Hc _ IH]; simpl; [done|].
  by rewrite column_proto_roundtrip, IH.
Qed.

Lemma table_from_proto_wf p s : TableSchemaFromProto p = Ok s -> wf_schema s.
Proof.
  unfold TableSchemaFromProto, wf_schema. destruct p as [l]. simpl.
  destruct (outcome_mapM _ l) as [cs|] eqn:E; intros; simplify_eq/=.
  revert cs E. induction l as [|q l IH]; intros cs E; simplify_eq/=; [constructor|].
  destruct (ColumnSchemaFromProto q) eqn:Q; [|done]; simpl in E.
  destruct (outcome_mapM _ l) eqn:G; simplify_eq/=. constructor; eauto using from_proto_wf.
Qed.

(** Reading a table schema from its wire message, writing it back and
    reading it again gives the schema first read: [TableSchemaToProto] and
    [TableSchemaFromProto] are inverse on every schema the engine can hold,
    nested fields and unknown type names included. *)
Theorem schema_proto_roundtrip p s :
  TableSchemaFromProto p = Ok s ->
  TableSchemaFromProto (TableSchemaToProto s) = Ok s.
Proof.
  intros E%table_from_proto_wf. destruct s as [cs]. unfold TableSchemaFromProto. simpl.
  by rewrite columns_mapM_roundtrip.
Qed.

(** The DuckDB type name of a column type reads back as that type, except
    for the three types DuckDB has no name of its own for: BIGNUMERIC reads
    back as NUMERIC, GEOGRAPHY and unknown types as STRING. *)
Theorem duckdb_type_roundtrip t :
  FromDuckDBType (ToDuckDBType t) =
    match t with
    | kBignumeric => kNumeric
    | kGeography | kUnknown => kString
    | t => t
    end.
Proof.
  unfold FromDuckDBType, ResolveTimestampVariant.
  rewrite EqualsIgnoreCase_ref, !toupper_ref. by destruct t; vm_compute.
Qed.
End theorems.

Definition sample_proto : TableSchemaProto := mkTableSchemaProto [
  mkField $"id" $"integer" $"REQUIRED" [] [];
  mkField $"tags" $"RECORD" $"repeated" $"labels" [mkField $"k" $"STRING" [] [] []];
  mkField $"odd" $"MYSTERY" [] [] []].

Lemma schema_proto_roundtrip_witness :
  exists s, TableSchemaFromProto sample_proto = Ok s /\
            TableSchemaFromProto (TableSchemaToProto s) = Ok s.
Proof.
  eexists. split; [vm_compute; reflexivity|].
  apply (schema_proto_roundtrip sample_proto). vm_compute. reflexivity.
Defined.

Lemma duckdb_type_roundtrip_witness :
  FromDuckDBType (ToDuckDBType kTimestamp) = kTimestamp /\
  FromDuckDBType (ToDuckDBType kBignumeric) = kNumeric.
Proof. split; [apply (duckdb_type_roundtrip kTimestamp)|apply (duckdb_type_roundtrip kBignumeric)]. Defined.
