(* ===== verification/RowRestriction.v ===== *)
(** * RowRestriction: the Storage Read API's row-restriction parser

    Models [backend/storage/row_restriction.h] and
    [backend/storage/row_restriction.cc]: the parser of
    [<column> = <literal>] against a table schema.  The out parameter is the
    result; [Ok None] is the empty restriction, which leaves it untouched. *)

From S2P Require Import Prelude Absl AbslReference Schema.

Inductive PredicateKind := pkInt64 | pkBool | pkString.

Record EqualityPredicate := mkPredicate {
  column : str;
  kind : PredicateKind;
  column_index : nat;
  int64_value : Z;
  bool_value : bool;
  string_value : str;
}.

Definition squote : ascii := "'"%char.
Definition is_quote (c : ascii) : bool := bool_decide (c = squote \/ c = dquote).

Section parser.
Context `{AbslText}.

Fixpoint TrimLeft (s : str) : str :=
  match s with
  | c :: s' => if ascii_isspace c then TrimLeft s' else s
  | [] => []
  end.
Definition Trim (s : str) : str := rev (TrimLeft (rev (TrimLeft s))).

(** One pass over the text with the state of the C++ loop: the delimiter of
    the literal being read, and whether the index is 0.  A doubled delimiter
    inside a literal is consumed as a pair. *)
Fixpoint SplitScan (string_delim : option ascii) (at_start : bool) (s : str)
    : option (str * str) :=
  let push c r := match r with Some (l, r) => Some (c :: l, r) | None => None end in
  match s with
  | [] => None
  | c :: s' =>
      match string_delim with
      | Some d =>
          if decide (c = d) then
            match s' with
            | c2 :: s'' => if decide (c2 = d) then push c (push c2 (SplitScan (Some d) false s''))
                           else push c (SplitScan None false s')
            | [] => None
            end
          else push c (SplitScan (Some d) false s')
      | None =>
          if is_quote c then push c (SplitScan (Some c) false s')
          else if decide (c = "="%char) then
            if at_start || bool_decide (s' = []) then None else Some ([], s')
          else push c (SplitScan None false s')
      end
  end.
Definition SplitOnTopLevelEquals (s : str) : option (str * str) := SplitScan None true s.

Definition IsBareIdentifierChar (c : ascii) : bool :=
  ascii_isalnum c || bool_decide (c = "_"%char).

Fixpoint TakeIdentifier (s : str) : str * str :=
  match s with
  | c :: s' => if IsBareIdentifierChar c
               then let '(a, b) := TakeIdentifier s' in (c :: a, b) else ([], s)
  | [] => ([], [])
  end.

Definition trailing_error (rest : str) : Status :=
  InvalidArgumentError
    ($"row_restriction: unexpected trailing input after column name: " ++ rest).

Definition ExtractIdentifier (s0 : str) : StatusOr str :=
  let s := Trim s0 in
  match s with
  | [] => Err (InvalidArgumentError
             $"row_restriction: column name is empty (expected `col = literal`)")
  | c :: s' =>
      if decide (c = "`"%char) then
        match find_sub ["`"%char] s' with
        | None => Err (InvalidArgumentError
                    $"row_restriction: unterminated backtick-quoted column name")
        | Some (name, after) =>
            match Trim after with
            | [] => Ok name
            | rest => Err (trailing_error rest)
            end
        end
      else if negb (ascii_isalpha c) && negb (bool_decide (c = "_"%char)) then
        Err (InvalidArgumentError
          ($"row_restriction: column name must start with a letter or underscore (got: "
             ++ s ++ $")"))
      else
        let '(name, after) := TakeIdentifier s in
        match Trim after with
        | [] => Ok name
        | rest => Err (trailing_error rest)
        end
  end.

Fixpoint UnescapeBody (delim : ascii) (body : str) : option str :=
  match body with
  | [] => Some []
  | c :: b =>
      if decide (c = delim) then
        match b with
        | c2 :: b' => if decide (c2 = delim) then cons delim <$> UnescapeBody delim b' else None
        | [] => None
        end
      else cons c <$> UnescapeBody delim b
  end.

Definition malformed_literal (s : str) : Status :=
  InvalidArgumentError
    ($"row_restriction: malformed string literal (expected '...' or "
       ++ [dquote] ++ $"..." ++ [dquote] ++ $"): " ++ s).

Definition ParseStringLiteral (s : str) : StatusOr str :=
  match s with
  | delim :: _ :: _ =>
      if negb (is_quote delim) || negb (bool_decide (last s = Some delim))
      then Err (malformed_literal s)
      else match UnescapeBody delim (removelast (tail s)) with
           | Some acc => Ok acc
           | None => Err (InvalidArgumentError
               ($"row_restriction: unescaped quote inside string literal: " ++ s))
           end
  | _ => Err (malformed_literal s)
  end.

Definition ParseBoolLiteral (s : str) : StatusOr bool :=
  if EqualsIgnoreCase s $"true" then Ok true
  else if EqualsIgnoreCase s $"false" then Ok false
  else Err (InvalidArgumentError
         ($"row_restriction: expected BOOL literal (true / false), got: " ++ s)).

Definition ParseInt64Literal (s : str) : StatusOr Z :=
  if existsb (fun c => bool_decide (c = "."%char \/ c = "e"%char \/ c = "E"%char)) s then
    Err (InvalidArgumentError
      ($"row_restriction: FLOAT64 literals are not supported by the row_restriction parser (got: "
         ++ s ++ $")"))
  else match SimpleAtoi s with
       | None => Err (InvalidArgumentError
                   ($"row_restriction: expected INT64 literal, got: " ++ s))
       | Some z => Ok z
       end.

Definition kBanned : list str := [
  $" AND "; $" and "; $" OR "; $" or "; $" NOT "; $" not "; $" IN "; $" in ";
  $" IS "; $" is "; $" LIKE "; $" like "; $" BETWEEN "; $" between "].
Definition kBannedOps : list str := [$"<="; $">="; $"!="; $"<>"; $"<"; $">"].

(** The first column called [name], with its index. *)
Fixpoint FindColumnFrom (i : nat) (cols : list ColumnSchema) (name : str)
    : option (nat * ColumnSchema) :=
  match cols with
  | [] => None
  | c :: cols => if decide (col_name c = name) then Some (i, c)
                 else FindColumnFrom (S i) cols name
  end.

Definition only_equality (restriction : str) : Status :=
  InvalidArgumentError
    ($"row_restriction: only `<column> = <literal>` is supported in this emulator profile; got: "
       ++ restriction).

(** The literal, lowered according to the column's type. *)
Definition LowerLiteral (name : str) (i : nat) (ty : ColumnType) (l : str)
    : StatusOr EqualityPredicate :=
  match ty with
  | kInt64 => z ← ParseInt64Literal l; Ok (mkPredicate name pkInt64 i z false [])
  | kBool => b ← ParseBoolLiteral l; Ok (mkPredicate name pkBool i 0 b [])
  | kString => s ← ParseStringLiteral l; Ok (mkPredicate name pkString i 0 false s)
  | _ => Err (InvalidArgumentError
           ($"row_restriction: column `" ++ name ++ $"` has type " ++ ColumnTypeName ty ++
            $"; only INT64, BOOL, and STRING columns are supported by the row_restriction parser in this emulator profile"))
  end.

Definition ParseRowRestriction (restriction : str) (schema : TableSchema)
    : StatusOr (option EqualityPredicate) :=
  let trimmed := Trim restriction in
  if bool_decide (trimmed = []) then Ok None
  else if existsb (str_contains trimmed) kBanned then Err (only_equality restriction)
  else if existsb (str_contains trimmed) kBannedOps then Err (only_equality restriction)
  else
    match SplitOnTopLevelEquals trimmed with
    | None => Err (InvalidArgumentError
        ($"row_restriction: missing `=` (expected `<column> = <literal>`): " ++ restriction))
    | Some (lhs, rhs) =>
        column_name ← ExtractIdentifier lhs;
        match FindColumnFrom 0 (columns schema) column_name with
        | None => Err (InvalidArgumentError
            ($"row_restriction: unknown column `" ++ column_name ++
             $"` (table has no top-level column with that name)"))
        | Some (i, col) =>
            if decide (col_mode col = kRepeated) then
              Err (InvalidArgumentError
                ($"row_restriction: equality on REPEATED column `" ++ column_name ++
                 $"` is not supported in this emulator profile"))
            else if bool_decide (col_type col = kArray \/ col_type col = kStruct) then
              Err (InvalidArgumentError
                ($"row_restriction: equality on ARRAY/STRUCT column `" ++ column_name ++
                 $"` is not supported in this emulator profile"))
            else
              match Trim rhs with
              | [] => Err (InvalidArgumentError
                  ($"row_restriction: missing literal after `=` (expected `<column> = <literal>`): "
                     ++ restriction))
              | l => p ← LowerLiteral column_name i (col_type col) l; Ok (Some p)
              end
        end
    end.
End parser.

(** ** Writing restrictions

    The texts a client writes: a literal quoted with its delimiter doubled
    inside, and [<column> = <literal>]. *)
Definition EscapeBody (d : ascii) (v : str) : str :=
  flat_map (fun c => if decide (c = d) then [d; d] else [c]) v.
Definition QuoteLiteral (d : ascii) (v : str) : str := d :: EscapeBody d v ++ [d].
Definition RenderEquality (col literal : str) : str := col ++ $" = " ++ literal.

Section theorems.
Context `{AbslTextLaws}.

(** Column names the parser reads unquoted. *)
Definition bare_identifier (n : str) : Prop :=
  match n with
  | [] => False
  | c :: _ => (ascii_isalpha c = true \/ c = "_"%char) /\ Forall (fun c => IsBareIdentifierChar c = true) n
  end.

Lemma UnescapeBody_escape d v : UnescapeBody d (EscapeBody d v) = Some v.
Proof.
  induction v as [|c v IH]; simpl; [done|]. case_decide as E; simpl.
  - subst. rewrite !decide_True by done. by rewrite IH.
  - rewrite decide_False by done. by rewrite IH.
Qed.

Lemma UnescapeBody_Some d b v : UnescapeBody d b = Some v -> b = EscapeBody d v.
Proof.
  revert v. induction b as [b IH] using (induction_ltof1 _ (@length ascii)). unfold ltof in IH.
  intros v. destruct b as [|c b]; simpl; intros E; [by simplify_eq|].
  case_decide as Hc.
  - subst. destruct b as [|c2 b]; [done|]. case_decide; [|done]. subst.
    apply fmap_Some in E as (v' & Hv & ->). simpl. rewrite decide_True by done.
    simpl. do 2 f_equal. apply IH; [simpl; lia|done].
  - apply fmap_Some in E as (v' & Hv & ->). simpl. rewrite decide_False by done.
    simpl. f_equal. apply IH; [simpl; lia|done].
Qed.

Lemma removelast_snoc {A} (l : list A) x : removelast (l ++ [x]) = l.
Proof. apply removelast_last. Qed.

Lemma snoc_of_last {A} (l : list A) x : last l = Some x -> l = removelast l ++ [x].
Proof. intros E. apply last_Some in E as [l' ->]. by rewrite removelast_snoc. Qed.

Lemma ParseStringLiteral_quote d v :
  is_quote d = true -> ParseStringLiteral (QuoteLiteral d v) = Ok v.
Proof.
  intros Q. unfold ParseStringLiteral, QuoteLiteral.
  destruct (EscapeBody d v ++ [d]) as [|c l] eqn:E; [by destruct (EscapeBody d v)|].
  rewrite <- E, Q. rewrite bool_decide_true by (by rewrite app_comm_cons, last_snoc).
  cbn [negb orb tail]. by rewrite removelast_snoc, UnescapeBody_escape.
Qed.

(** A string literal is accepted exactly when it is a quoted value with
    its delimiter doubled inside, and the value parsed is the value quoted. *)
Theorem string_literal_exact s v :
  ParseStringLiteral s = Ok v <->
  exists d, is_quote d = true /\ s = QuoteLiteral d v.
Proof.
  split.
  - destruct s as [|d [|c s]]; simpl; [done..|].
    destruct (is_quote d) eqn:Q; simpl; [|done].
    case_bool_decide as L; simpl; [|done].
    destruct (UnescapeBody _ _) as [v'|] eqn:U; [|done]. intros; simplify_eq.
    exists d. split; [done|]. unfold QuoteLiteral. f_equal.
    change (match s with [] => [] | _ :: _ => c :: removelast s end) with (removelast (c :: s)) in U.
    rewrite <- (UnescapeBody_Some _ _ _ U). apply snoc_of_last. by rewrite <- L.
  - intros (d & Q & ->). by apply ParseStringLiteral_quote.
Qed.

Lemma TrimLeft_id s : (forall c, head s = Some c -> ascii_isspace c = false) -> TrimLeft s = s.
Proof. destruct s as [|c s]; intros E; simpl; [done|]. by rewrite (E c). Qed.

Lemma rev_head {A} (l : list A) : head (rev l) = last l.
Proof.
  induction l as [|x l IH] using rev_ind; [done|]. by rewrite rev_unit, last_snoc.
Qed.

Lemma Trim_id s :
  (forall c, head s = Some c -> ascii_isspace c = false) ->
  (forall c, last s = Some c -> ascii_isspace c = false) -> Trim s = s.
Proof.
  intros Hh Hl. unfold Trim. rewrite (TrimLeft_id s) by done.
  rewrite TrimLeft_id by (by rewrite rev_head). apply rev_involutive.
Qed.

Lemma Trim_space_l s : Trim (" "%char :: s) = Trim s.
Proof. unfold Trim. simpl. by rewrite isspace_ref. Qed.

Lemma Trim_space_r s :
  (forall c, head s = Some c -> ascii_isspace c = false) -> s <> [] ->
  Trim (s ++ $" ") = Trim s.
Proof.
  intros Hh Hn. unfold Trim. destruct s as [|c s]; [done|].
  rewrite (TrimLeft_id ((c :: s) ++ _)), (TrimLeft_id (c :: s)) by (intros ? [= <-]; auto).
  rewrite rev_app_distr. simpl. by rewrite isspace_ref.
Qed.

Lemma SplitScan_prefix p r b :
  Forall (fun c => is_quote c = false /\ c <> "="%char) p -> r <> [] ->
  (b = true -> p <> []) ->
  SplitScan None b (p ++ "="%char :: r) = Some (p, r).
Proof.
  intros F Hr. revert b. induction F as [|c p [Q N] _ IH]; intros b Hb; simpl.
  - destruct b; [by destruct Hb|]. rewrite bool_decide_false by done. done.
  - rewrite Q, decide_False by done. by rewrite IH.
Qed.

Lemma bare_char_plain c :
  IsBareIdentifierChar c = true ->
  is_quote c = false /\ c <> "="%char /\ ascii_isspace c = false.
Proof.
  unfold IsBareIdentifierChar, ascii_isalnum, is_quote.
  rewrite isalpha_ref, isdigit_ref, isspace_ref. intros E.
  repeat split; [|intros ->; done|].
  - apply bool_decide_eq_false. by intros [-> | ->].
  - destruct (ref_isspace c) eqn:S; [|done]. exfalso.
    unfold ref_isspace, ref_isalpha, ref_isdigit in *.
    rewrite !orb_true_iff, !andb_true_iff, bool_decide_eq_true in *.
    destruct E as [E| ->]; [lia|]. vm_compute in S. naive_solver.
Qed.

Lemma bare_identifier_chars n :
  bare_identifier n -> Forall (fun c => IsBareIdentifierChar c = true) n.
Proof. destruct n; [done|]. by intros []. Qed.

Lemma TakeIdentifier_app n r :
  Forall (fun c => IsBareIdentifierChar c = true) n ->
  (forall c, head r = Some c -> IsBareIdentifierChar c = false) ->
  TakeIdentifier (n ++ r) = (n, r).
Proof.
  intros F Hr. induction F as [|c n Hc _ IH]; simpl.
  - destruct r as [|c r]; simpl; [done|]. by rewrite (Hr c).
  - by rewrite Hc, IH.
Qed.

Lemma ExtractIdentifier_bare n : bare_identifier n -> ExtractIdentifier (n ++ $" ") = Ok n.
Proof.
  intros B. pose proof (bare_identifier_chars n B) as F.
  assert (Hh : forall c, head n = Some c -> ascii_isspace c = false).
  { intros c Hc. destruct n; simplify_eq/=. inversion F; subst. by apply bare_char_plain. }
  assert (Hl : forall c, last n = Some c -> ascii_isspace c = false).
  { intros c Hc%last_Some_elem_of. rewrite Forall_forall in F. by apply bare_char_plain, F. }
  unfold ExtractIdentifier. rewrite Trim_space_r, Trim_id by (auto; by destruct n).
  destruct n as [|c n]; [done|]. destruct B as [Hc _].
  rewrite decide_False.
  2: { intros ->. rewrite isalpha_ref in Hc. by destruct Hc. }
  replace (negb (ascii_isalpha c) && negb (bool_decide (c = "_"%char))) with false.
  2: { destruct Hc as [->| ->]; [done|]. rewrite bool_decide_true by done. by rewrite andb_false_r. }
  pose proof (TakeIdentifier_app (c :: n) [] F) as T. rewrite app_nil_r in T.
  by rewrite T.
Qed.

Lemma FindColumnFrom_lookup i cols name j c :
  FindColumnFrom i cols name = Some (j, c) ->
  i <= j /\ cols !! (j - i) = Some c /\ col_name c = name /\
  forall k c', k < j - i -> cols !! k = Some c' -> col_name c' <> name.
Proof.
  revert i. induction cols as [|d cols IH]; intros i; simpl; [done|].
  case_decide as D; intros E; simplify_eq.
  - rewrite Nat.sub_diag. split_and!; [lia|done..|]. intros k c' Hk. lia.
  - apply IH in E as (Hi & L & N & F). replace (j - i) with (S (j - S i)) by lia.
    split_and!; [lia|done..|]. intros [|k] c' Hk Hc; simplify_eq/=; [done|].
    apply (F k); [lia|done].
Qed.

Lemma FindColumnFrom_first i pre c post :
  Forall (fun d => col_name d <> col_name c) pre ->
  FindColumnFrom i (pre ++ c :: post) (col_name c) = Some (i + length pre, c).
Proof.
  intros F. revert i. induction F as [|d pre Hd _ IH]; intros i; simpl.
  - rewrite decide_True by done. by rewrite Nat.add_0_r.
  - rewrite decide_False by done. rewrite IH. do 2 f_equal. lia.
Qed.

(** The text of an equality passes the keyword and operator screens. *)
Definition no_banned (text : str) : Prop :=
  existsb (str_contains text) kBanned = false /\
  existsb (str_contains text) kBannedOps = false.

(** What the parser does with the text of an equality on a bare column. *)
Lemma parse_equality_text schema pre col post l :
  columns schema = pre ++ col :: post ->
  Forall (fun d => col_name d <> col_name col) pre ->
  bare_identifier (col_name col) ->
  col_mode col <> kRepeated -> col_type col <> kArray -> col_type col <> kStruct ->
  l <> [] ->
  (forall c, head l = Some c -> ascii_isspace c = false) ->
  (forall c, last l = Some c -> ascii_isspace c = false) ->
  no_banned (RenderEquality (col_name col) l) ->
  ParseRowRestriction (RenderEquality (col_name col) l) schema =
    (p ← LowerLiteral (col_name col) (length pre) (col_type col) l; Ok (Some p)).
Proof.
  intros Hs Hpre B Hm Ha Ht Hl Hh Hend [N1 N2].
  pose proof (bare_identifier_chars _ B) as F.
  assert (Tr : Trim (RenderEquality (col_name col) l) = RenderEquality (col_name col) l).
  { apply Trim_id.
    - intros c. unfold RenderEquality. destruct (col_name col); [done|].
      intros [= <-]. inversion F; subst. by apply bare_char_plain.
    - intros c. unfold RenderEquality. rewrite !last_app.
      destruct (last l) eqn:E; [intros [= <-]; auto|]. by apply last_None in E. }
  unfold ParseRowRestriction. rewrite Tr.
  rewrite bool_decide_false by (unfold RenderEquality; by destruct (col_name col)).
  rewrite N1, N2.
  assert (Sp : SplitOnTopLevelEquals (RenderEquality (col_name col) l) =
               Some (col_name col ++ $" ", $" " ++ l)).
  { unfold SplitOnTopLevelEquals, RenderEquality.
    change (col_name col ++ $" = " ++ l) with (col_name col ++ $" " ++ "="%char :: $" " ++ l).
    rewrite app_assoc. apply SplitScan_prefix; [|done|by destruct (col_name col)].
    apply Forall_app; split; [|by repeat constructor].
    eapply Forall_impl; [exact F|]. intros c Hc%bare_char_plain. naive_solver. }
  rewrite Sp, ExtractIdentifier_bare by done. simpl.
  rewrite Hs, FindColumnFrom_first by done. simpl.
  rewrite decide_False, bool_decide_false by (try done; naive_solver).
  change ($" " ++ l) with (" "%char :: l). rewrite Trim_space_l, Trim_id by done.
  by destruct l.
Qed.

Lemma quote_not_space d : is_quote d = true -> ascii_isspace d = false.
Proof. unfold is_quote. rewrite isspace_ref. by intros [-> | ->]%bool_decide_eq_true. Qed.

Lemma QuoteLiteral_last d v : last (QuoteLiteral d v) = Some d.
Proof. unfold QuoteLiteral. by rewrite app_comm_cons, last_snoc. Qed.

(** An equality on a STRING column written with a quoted literal is
    parsed to the predicate with exactly the column, its index and the value
    that was quoted, for every value and either quote character. *)
Theorem string_restriction_roundtrip schema pre col post d v :
  columns schema = pre ++ col :: post ->
  Forall (fun c => col_name c <> col_name col) pre ->
  bare_identifier (col_name col) ->
  col_mode col <> kRepeated -> col_type col = kString -> is_quote d = true ->
  no_banned (RenderEquality (col_name col) (QuoteLiteral d v)) ->
  ParseRowRestriction (RenderEquality (col_name col) (QuoteLiteral d v)) schema =
    Ok (Some (mkPredicate (col_name col) pkString (length pre) 0 false v)).
Proof.
  intros Hs Hpre B Hm Ht Q N. erewrite parse_equality_text; eauto.
  - rewrite Ht. cbn [LowerLiteral]. by rewrite ParseStringLiteral_quote.
  - by rewrite Ht.
  - by rewrite Ht.
  - intros c [= <-]. by apply quote_not_space.
  - intros c. rewrite QuoteLiteral_last. intros [= <-]. by apply quote_not_space.
Qed.

Lemma StrInt_plain z c : c ∈ StrInt z ->
  ascii_isspace c = false /\ c <> "."%char /\ c <> "e"%char /\ c <> "E"%char.
Proof.
  intros Hc. pose proof (StrInt_chars z) as F. rewrite Forall_forall in F.
  destruct (F c Hc) as [D| ->].
  - rewrite isdigit_ref in D. rewrite isspace_ref.
    split_and!; [|by intros ->..]. apply isdigit_cases in D. naive_solver.
  - by rewrite isspace_ref.
Qed.

(** An equality on an INT64 column written with a decimal 64-bit integer
    is parsed to the predicate with exactly that integer. *)
Theorem int64_restriction_roundtrip schema pre col post z :
  columns schema = pre ++ col :: post ->
  Forall (fun c => col_name c <> col_name col) pre ->
  bare_identifier (col_name col) ->
  col_mode col <> kRepeated -> col_type col = kInt64 -> in_int64 z ->
  no_banned (RenderEquality (col_name col) (StrInt z)) ->
  ParseRowRestriction (RenderEquality (col_name col) (StrInt z)) schema =
    Ok (Some (mkPredicate (col_name col) pkInt64 (length pre) z false [])).
Proof.
  intros Hs Hpre B Hm Ht Hz N. erewrite parse_equality_text; eauto using StrInt_nonempty.
  - rewrite Ht. cbn [LowerLiteral]. unfold ParseInt64Literal. rewrite SimpleAtoi_StrInt by done.
    replace (existsb _ (StrInt z)) with false; [done|]. symmetry.
    apply not_true_iff_false. intros (c & Hc%list_elem_of_In & E)%existsb_exists.
    apply StrInt_plain in Hc. apply bool_decide_eq_true in E. naive_solver.
  - by rewrite Ht.
  - by rewrite Ht.
  - intros c Hc. apply (StrInt_plain z). destruct (StrInt z); simplify_eq/=. set_solver.
  - intros c Hc%last_Some_elem_of. by apply (StrInt_plain z).
Qed.

(** The kind a predicate must have for the type of its column. *)
Definition kind_of_type (t : ColumnType) : option PredicateKind :=
  match t with
  | kInt64 => Some pkInt64 | kBool => Some pkBool | kString => Some pkString | _ => None
  end.

Lemma LowerLiteral_sound name i ty l p :
  LowerLiteral name i ty l = Ok p ->
  column p = name /\ column_index p = i /\ kind_of_type ty = Some (kind p) /\ in_int64 (int64_value p).
Proof.
  assert (in_int64 0) by (unfold in_int64, int64_min, int64_max; lia).
  destruct ty; simpl; try done; intros E; inv_ok E; simpl; split_and!; auto.
  unfold ParseInt64Literal in *. step_cases. eauto using SimpleAtoi_int64.
Qed.

(** A predicate the parser produces names a top-level column of the
    schema by the index of its first occurrence, the column is not REPEATED,
    the predicate's kind is the one of the column's type, and an integer
    literal fits in 64 bits. *)
Theorem restriction_sound restriction schema p :
  ParseRowRestriction restriction schema = Ok (Some p) ->
  exists col, columns schema !! column_index p = Some col /\
    col_name col = column p /\
    (forall k c, k < column_index p -> columns schema !! k = Some c -> col_name c <> column p) /\
    col_mode col <> kRepeated /\ kind_of_type (col_type col) = Some (kind p) /\
    in_int64 (int64_value p).
Proof.
  unfold ParseRowRestriction.
  repeat (case_match; [done|]). destruct (SplitOnTopLevelEquals _) as [[lhs rhs]|]; [|done].
  destruct (ExtractIdentifier lhs) as [name|]; simpl; [|done].
  destruct (FindColumnFrom _ _ _) as [[i col]|] eqn:F; [|done].
  apply FindColumnFrom_lookup in F as (_ & L & N & M). rewrite Nat.sub_0_r in *.
  case_decide as Hm; [done|]. case_match; [done|]. case_match; [done|].
  intros E. inv_ok E. apply LowerLiteral_sound in E0 as (-> & -> & K & Z).
  exists col. split_and!; auto.
Qed.

(** The keyword screen looks inside quoted literals: an equality whose
    quoted value contains [ and ] between blanks is refused, although the
    restriction has a single equality. *)
Theorem keyword_inside_literal_refused schema col a b :
  let text := RenderEquality col (QuoteLiteral squote (a ++ $" and " ++ b)) in
  Trim text = text ->
  Forall (fun c => c <> squote) (a ++ b) ->
  ParseRowRestriction text schema = Err (only_equality text).
Proof.
  intros text T F. unfold ParseRowRestriction. rewrite T.
  rewrite bool_decide_false by (unfold text, RenderEquality; by destruct col).
  replace (existsb (str_contains text) kBanned) with true; [done|]. symmetry.
  apply existsb_exists. exists ($" and "). split; [simpl; tauto|].
  unfold str_contains. destruct (find_sub _ text) eqn:E; [done|]. exfalso.
  assert (ES : forall s, Forall (fun c => c <> squote) s -> EscapeBody squote s = s).
  { induction 1 as [|c s Hc _ IH]; simpl; [done|]. by rewrite decide_False, IH. }
  apply find_sub_None in E. destruct E. apply Forall_app in F as [Fa Fb].
  exists (col ++ $" = " ++ squote :: a), (b ++ [squote]).
  unfold text, RenderEquality, QuoteLiteral. rewrite ES.
  - by rewrite <- !app_assoc.
  - repeat (apply Forall_app; split); auto. by repeat constructor.
Qed.
End theorems.

(** ** Witnesses *)

Definition shop_schema : TableSchema := mkTableSchema [
  mkColumn $"id" kInt64 kRequired [] [] [];
  mkColumn $"state" kString kNullable [] [] [];
  mkColumn $"state" kInt64 kNullable [] [] []].

Lemma string_literal_exact_witness :
  ParseStringLiteral (QuoteLiteral squote $"O'Hara") = Ok $"O'Hara".
Proof. apply string_literal_exact. exists squote. split; reflexivity. Defined.

Lemma string_restriction_roundtrip_witness :
  ParseRowRestriction $"state = 'O''Hara'" shop_schema =
    Ok (Some (mkPredicate $"state" pkString 1 0 false $"O'Hara")).
Proof.
  apply (string_restriction_roundtrip shop_schema
           [mkColumn $"id" kInt64 kRequired [] [] []]
           (mkColumn $"state" kString kNullable [] [] [])
           [mkColumn $"state" kInt64 kNullable [] [] []] squote $"O'Hara");
    try reflexivity; try done.
  - by repeat constructor.
  - split; [left; reflexivity|by repeat constructor].
Defined.

Lemma int64_restriction_roundtrip_witness :
  RenderEquality $"id" (StrInt (-42)) = $"id = -42" /\
  ParseRowRestriction (RenderEquality $"id" (StrInt (-42))) shop_schema =
    Ok (Some (mkPredicate $"id" pkInt64 0 (-42) false [])).
Proof.
  split; [reflexivity|].
  apply (int64_restriction_roundtrip shop_schema []
           (mkColumn $"id" kInt64 kRequired [] [] [])
           [mkColumn $"state" kString kNullable [] [] [];
            mkColumn $"state" kInt64 kNullable [] [] []] (-42));
    try reflexivity; try done.
  - split; [left; reflexivity|by repeat constructor].
Defined.

Lemma restriction_sound_witness :
  exists col, columns shop_schema !! 1 = Some col /\ col_name col = $"state" /\ col_type col = kString.
Proof.
  assert (E : ParseRowRestriction $"state = 'WA'" shop_schema =
              Ok (Some (mkPredicate $"state" pkString 1 0 false $"WA")))
    by (vm_compute; reflexivity).
  destruct (restriction_sound _ _ _ E) as (col & L & N & _ & _ & K & _).
  exists col. split; [exact L|]. split; [exact N|].
  destruct (col_type col); try discriminate K. reflexivity.
Defined.

Lemma keyword_inside_literal_refused_witness :
  ParseRowRestriction $"state = 'rock and roll'" shop_schema =
    Err (only_equality $"state = 'rock and roll'").
Proof.
  apply (keyword_inside_literal_refused shop_schema $"state" $"rock" $"roll").
  - reflexivity.
  - by repeat constructor.
Defined.
