(* ===== verification/Storage.v ===== *)
(** * Storage: the row-store interface and the wire cells

    Models [backend/storage/storage.h], [backend/storage/storage.cc] and
    [frontend/handlers/handler_common.cc]: identifiers, the [Value] variant with
    its accessors, rows, row iterators, the read filter, the mapping of statuses
    onto gRPC and the conversions between values and wire cells.

    The abstract class [storage::Storage] is the type class [Storage]; its
    contract, as the comments of the header state it, is [StorageLaws], phrased
    with the abstract contents of every table.  The read and write services are
    verified against that contract.  [MemStore] is a small instance that
    satisfies it. *)

From Stdlib Require Import SpecFloat.
From S2P Require Import Prelude Absl Schema RowRestriction.

(** ** Identifiers *)

Record DatasetId := mkDatasetId { ds_project_id : str; ds_dataset_id : str }.

Record TableId := mkTableId {
  project_id : str;
  dataset_id : str;
  table_id : str;
}.

#[export] Instance DatasetId_eq_dec : EqDecision DatasetId.
Proof. solve_decision. Defined.

#[export] Instance TableId_eq_dec : EqDecision TableId.
Proof. solve_decision. Defined.

#[export] Instance TableId_countable : Countable TableId.
Proof.
  refine (inj_countable' (fun t => (project_id t, dataset_id t, table_id t))
            (fun p => mkTableId p.1.1 p.1.2 p.2) _).
  by intros [].
Defined.

(** ** Values *)

(** A double is an IEEE binary64 number, [SpecFloat.spec_float] with 53 bits of
    precision. *)
Inductive Value :=
| VNull
| VBool (b : bool)
| VInt64 (z : Z)
| VFloat64 (d : spec_float)
| VString (s : str)
| VBytes (s : str)
| VArray (l : list Value)
| VStruct (l : list Value).

Section value_ind.
Context (P : Value -> Prop).
Hypothesis (PNull : P VNull) (PBool : forall b, P (VBool b)) (PInt : forall z, P (VInt64 z))
  (PFloat : forall d, P (VFloat64 d)) (PString : forall s, P (VString s))
  (PBytes : forall s, P (VBytes s))
  (PArray : forall l, Forall P l -> P (VArray l))
  (PStruct : forall l, Forall P l -> P (VStruct l)).

Fixpoint Value_nested_ind (v : Value) : P v :=
  let fix go (l : list Value) : Forall P l :=
    match l with
    | [] => Forall_nil_2 _
    | v :: l => Forall_cons_2 _ _ _ (Value_nested_ind v) (go l)
    end in
  match v with
  | VNull => PNull
  | VBool b => PBool b
  | VInt64 z => PInt z
  | VFloat64 d => PFloat d
  | VString s => PString s
  | VBytes s => PBytes s
  | VArray l => PArray l (go l)
  | VStruct l => PStruct l (go l)
  end.
End value_ind.

(** The accessors: the slot when the active kind holds it, a default
    otherwise.  STRING and BYTES share the string slot. *)
Definition bool_value (v : Value) : bool := match v with VBool b => b | _ => false end.
Definition int64_value (v : Value) : Z := match v with VInt64 z => z | _ => 0 end.
Definition float64_value (v : Value) : spec_float :=
  match v with VFloat64 d => d | _ => S754_zero false end.
Definition string_value (v : Value) : str :=
  match v with VString s | VBytes s => s | _ => [] end.
Definition array_value (v : Value) : list Value := match v with VArray l => l | _ => [] end.
Definition struct_value (v : Value) : list Value := match v with VStruct l => l | _ => [] end.

Record Row := mkRow { cells : list Value }.

(** A row iterator, by what its successive [Next] calls return: the rows, then
    either the end of the stream or an error. *)
Record RowIterator := mkIterator {
  iter_rows : list Row;
  iter_error : option Status;
}.

Record ReadFilter := mkReadFilter {
  row_limit : Z;
  offset : Z;
  selected_fields : list str;
  row_restriction : str;
  where_sql : option str;
  equality_predicate : option EqualityPredicate;
  row_start : Z;
  row_end : Z;
}.

Definition default_ReadFilter : ReadFilter :=
  mkReadFilter 0 0 [] [] None None 0 (-1).

(** ** Statuses on the wire *)

Definition AbslToGrpcStatus (s : Status) : GrpcStatus :=
  mkGrpc
    match code s with
    | kNotFound => NOT_FOUND
    | kAlreadyExists => ALREADY_EXISTS
    | kInvalidArgument => INVALID_ARGUMENT
    | kFailedPrecondition => FAILED_PRECONDITION
    | kUnimplemented => UNIMPLEMENTED
    | _ => INTERNAL
    end (message s).

(** A storage result seen through [AbslToGrpcStatus]. *)
Definition to_grpc {A} (r : StatusOr A) : Grpc A :=
  match r with Ok a => Ok a | Err s => Err (AbslToGrpcStatus s) end.

(** ** Wire cells *)

(** The [v1::Cell] oneof; [CNotSet] is [VALUE_NOT_SET]. *)
Inductive Cell :=
| CNotSet
| CString (s : str)
| CNull (b : bool)
| CArray (l : list Cell)
| CStruct (l : list Cell).

Section cell_ind.
Context (P : Cell -> Prop).
Hypothesis (PNotSet : P CNotSet) (PString : forall s, P (CString s))
  (PNull : forall b, P (CNull b))
  (PArray : forall l, Forall P l -> P (CArray l))
  (PStruct : forall l, Forall P l -> P (CStruct l)).

Fixpoint Cell_nested_ind (c : Cell) : P c :=
  let fix go (l : list Cell) : Forall P l :=
    match l with
    | [] => Forall_nil_2 _
    | c :: l => Forall_cons_2 _ _ _ (Cell_nested_ind c) (go l)
    end in
  match c with
  | CNotSet => PNotSet
  | CString s => PString s
  | CNull b => PNull b
  | CArray l => PArray l (go l)
  | CStruct l => PStruct l (go l)
  end.
End cell_ind.

(** What [absl::StrCat] renders a double to; no law constrains it. *)
Class AbslDouble := StrDouble : spec_float -> str.

Section cells.
Context `{AbslText, AbslDouble}.

Fixpoint ValueToCell (v : Value) : Cell :=
  match v with
  | VNull => CNull true
  | VBool b => CString (if b then $"true" else $"false")
  | VInt64 z => CString (StrInt z)
  | VFloat64 d => CString (StrDouble d)
  | VString s => CString s
  | VBytes s => CString s
  | VArray l => CArray (map ValueToCell l)
  | VStruct l => CStruct (map ValueToCell l)
  end.
End cells.

Fixpoint CellToValue (c : Cell) : Value :=
  match c with
  | CString s => VString s
  | CNull _ => VNull
  | CArray l => VArray (map CellToValue l)
  | CStruct l => VStruct (map CellToValue l)
  | CNotSet => VNull
  end.

(** The cells [ValueToCell] can emit: every node is set, and a null is written
    with the flag on. *)
Fixpoint cell_canonical (c : Cell) : bool :=
  match c with
  | CNotSet => false
  | CString _ => true
  | CNull b => b
  | CArray l | CStruct l => forallb cell_canonical l
  end.

Section cell_laws.
Context `{AbslText, AbslDouble}.

Lemma ValueToCell_canonical v : cell_canonical (ValueToCell v) = true.
Proof.
  induction v as [| | | | | |l IH|l IH] using Value_nested_ind; try done; simpl;
    apply forallb_forall; intros c (v & <- & Hv)%in_map_iff;
    rewrite Forall_forall in IH; apply IH; by apply list_elem_of_In.
Qed.

Lemma map_fixpoint_iff {A} (f : A -> A) (p : A -> bool) l :
  Forall (fun x => p x = true <-> f x = x) l -> forallb p l = true <-> map f l = l.
Proof.
  induction 1 as [|x l Hx _ IH]; simpl; [done|].
  rewrite andb_true_iff, Hx, IH. split; [intros [-> ->]; done|].
  intros [= -> ->]. done.
Qed.

Lemma CellToValue_roundtrip c :
  cell_canonical c = true <-> ValueToCell (CellToValue c) = c.
Proof.
  induction c as [|s|b|l IH|l IH] using Cell_nested_ind; simpl; try done.
  - destruct b; split; congruence.
  - rewrite map_map, (map_fixpoint_iff (fun c => ValueToCell (CellToValue c))) by done.
    split; congruence.
  - rewrite map_map, (map_fixpoint_iff (fun c => ValueToCell (CellToValue c))) by done.
    split; congruence.
Qed.

(** A wire cell survives the trip through a storage value exactly when it
    is canonical (no unset node, every null flagged), at every nesting depth,
    and a value only ever renders to canonical cells; so a cell served by the
    read API and appended again through the write API comes back unchanged. *)
Theorem cell_value_roundtrip :
  (forall v, ValueToCell (CellToValue (ValueToCell v)) = ValueToCell v) /\
  (forall c, ValueToCell (CellToValue c) = c <-> cell_canonical c = true).
Proof.
  split; intros; [apply CellToValue_roundtrip, ValueToCell_canonical|].
  by rewrite CellToValue_roundtrip.
Qed.
End cell_laws.

(** ** The storage interface *)

Class Storage (S : Type) := {
  GetSchema : S -> TableId -> StatusOr TableSchema;
  AppendRows : S -> TableId -> list Row -> S * StatusOr unit;
  CountRows : S -> TableId -> StatusOr Z;
  CreateReadStream : S -> TableId -> ReadFilter -> StatusOr RowIterator;
}.

(** The rows a filter without predicate and projection selects: the partition
    [[row_start, row_end)] of the table (a negative [row_end] is unbounded),
    less [offset] leading rows, cut to [row_limit] rows when that is positive. *)
Definition partition_rows {A} (start stop : Z) (rows : list A) : list A :=
  drop (Z.to_nat start)
    (if (stop <? 0)%Z then rows else take (Z.to_nat stop) rows).

Definition filter_rows {A} (f : ReadFilter) (rows : list A) : list A :=
  let rows := drop (Z.to_nat (offset f)) (partition_rows (row_start f) (row_end f) rows) in
  if (0 <? row_limit f)%Z then take (Z.to_nat (row_limit f)) rows else rows.

(** The contract of [storage.h].  [contents s t] are the rows of table [t];
    [stored sch r] is how a row handed to [AppendRows] reads back from a table
    with schema [sch] (a store types the cells by their columns). *)
Class StorageLaws S `{Storage S} := {
  contents : S -> TableId -> list Row;
  stored : TableSchema -> Row -> Row;
  append_ok s t rows s' :
    AppendRows s t rows = (s', Ok ()) -> exists sch, GetSchema s t = Ok sch /\
      contents s' t = contents s t ++ map (stored sch) rows;
  append_err s t rows s' e u :
    AppendRows s t rows = (s', Err e) -> contents s' u = contents s u;
  append_frame s t rows s' r u :
    AppendRows s t rows = (s', r) -> u <> t -> contents s' u = contents s u;
  append_schema s t rows s' r u :
    AppendRows s t rows = (s', r) -> GetSchema s' u = GetSchema s u;
  count_ok s t n : CountRows s t = Ok n -> n = Z.of_nat (length (contents s t));
  read_ok s t f it :
    CreateReadStream s t f = Ok it ->
    where_sql f = None -> equality_predicate f = None -> selected_fields f = [] ->
    iter_error it = None -> iter_rows it = filter_rows f (contents s t);
}.

(** The operations of the interface the DML executor uses besides: a scan of all
    rows, and the replacement of all rows. *)
Class RewritableStorage S `{Storage S} := {
  ScanRows : S -> TableId -> StatusOr RowIterator;
  OverwriteRows : S -> TableId -> list Row -> S * StatusOr unit;
}.

Class RewritableStorageLaws S `{RewritableStorage S, !StorageLaws S} : Prop := {
  scan_ok s t it : ScanRows s t = Ok it -> iter_error it = None -> iter_rows it = contents s t;
  overwrite_ok s t rows s' :
    OverwriteRows s t rows = (s', Ok ()) ->
    exists sch, GetSchema s t = Ok sch /\ contents s' t = map (stored sch) rows;
  overwrite_err s t rows s' e u :
    OverwriteRows s t rows = (s', Err e) -> contents s' u = contents s u;
  overwrite_frame s t rows s' r u :
    OverwriteRows s t rows = (s', r) -> u <> t -> contents s' u = contents s u;
}.

(** ** A small in-memory store *)

Module MemStore.

Record table := mkTable { tab_schema : TableSchema; tab_rows : list Row }.
Abbreviation t := (gmap TableId table).

Definition not_found (id : TableId) : Status :=
  NotFoundError ($"table not found: " ++ table_id id).

Definition with_table {A} (s : t) (id : TableId) (f : table -> StatusOr A) : StatusOr A :=
  match s !! id with Some tb => f tb | None => Err (not_found id) end.

Definition row_fits (sch : TableSchema) (r : Row) : bool :=
  bool_decide (length (cells r) = length (columns sch)).

Definition append (s : t) (id : TableId) (rows : list Row) : t * StatusOr unit :=
  match s !! id with
  | None => (s, Err (not_found id))
  | Some tb =>
      if forallb (row_fits (tab_schema tb)) rows
      then (<[id := mkTable (tab_schema tb) (tab_rows tb ++ rows)]> s, Ok ())
      else (s, Err (InvalidArgumentError $"row shape"))
  end.

#[global] Instance mem_storage : Storage t := {
  GetSchema s id := with_table s id (fun tb => Ok (tab_schema tb));
  AppendRows := append;
  CountRows s id := with_table s id (fun tb => Ok (Z.of_nat (length (tab_rows tb))));
  CreateReadStream s id f :=
    with_table s id (fun tb =>
      match where_sql f, equality_predicate f, selected_fields f with
      | None, None, [] => Ok (mkIterator (filter_rows f (tab_rows tb)) None)
      | _, _, _ => Err (UnimplementedError $"predicate")
      end);
}.

Definition rows_of (s : t) (id : TableId) : list Row :=
  match s !! id with Some tb => tab_rows tb | None => [] end.

Lemma append_inv s id rows s' r :
  append s id rows = (s', r) ->
  (exists e, r = Err e /\ s' = s) \/
  (exists tb, s !! id = Some tb /\ r = Ok () /\
     s' = <[id := mkTable (tab_schema tb) (tab_rows tb ++ rows)]> s).
Proof. unfold append. intros E. step_cases; eauto 10. Qed.

#[global] Instance mem_storage_laws : StorageLaws t.
Proof.
  refine {| contents := rows_of; stored := fun _ r => r |}; simpl; unfold rows_of, with_table.
  - intros s id rows s' [(? & [=] & _)|(tb & Hs & _ & ->)]%append_inv.
    exists (tab_schema tb). rewrite Hs, lookup_insert_eq. simpl. by rewrite map_id.
  - intros s id rows s' e u [(? & _ & ->)|(tb & _ & [=] & _)]%append_inv. done.
  - intros s id rows s' r u [(? & _ & ->)|(tb & _ & _ & ->)]%append_inv Hu; [done|].
    by rewrite lookup_insert_ne.
  - intros s id rows s' r u [(? & _ & ->)|(tb & Hs & _ & ->)]%append_inv; [done|].
    destruct (decide (u = id)) as [->|]; [|by rewrite lookup_insert_ne].
    by rewrite Hs, lookup_insert_eq.
  - intros s id n E. by step_cases.
  - intros s id f it E Hw He Hs _. rewrite Hw, He, Hs in E. by step_cases.
Defined.

Definition overwrite (s : t) (id : TableId) (rows : list Row) : t * StatusOr unit :=
  match s !! id with
  | None => (s, Err (not_found id))
  | Some tb =>
      if forallb (row_fits (tab_schema tb)) rows
      then (<[id := mkTable (tab_schema tb) rows]> s, Ok ())
      else (s, Err (InvalidArgumentError $"row shape"))
  end.

#[global] Instance mem_rewritable : RewritableStorage t := {
  ScanRows s id := with_table s id (fun tb => Ok (mkIterator (tab_rows tb) None));
  OverwriteRows := overwrite;
}.

Lemma overwrite_inv s id rows s' r :
  overwrite s id rows = (s', r) ->
  (exists e, r = Err e /\ s' = s) \/
  (exists tb, s !! id = Some tb /\ r = Ok () /\ s' = <[id := mkTable (tab_schema tb) rows]> s).
Proof. unfold overwrite. intros E. step_cases; eauto 10. Qed.

#[global] Instance mem_rewritable_laws : RewritableStorageLaws t.
Proof.
  split; simpl; unfold rows_of, with_table.
  - intros s id it E _. by step_cases.
  - intros s id rows s' [(? & [=] & _)|(tb & Hs & _ & ->)]%overwrite_inv.
    exists (tab_schema tb). rewrite Hs, lookup_insert_eq. simpl. by rewrite map_id.
  - intros s id rows s' e u [(? & _ & ->)|(tb & _ & [=] & _)]%overwrite_inv. done.
  - intros s id rows s' r u [(? & _ & ->)|(tb & _ & _ & ->)]%overwrite_inv Hu; [done|].
    by rewrite lookup_insert_ne.
Qed.

End MemStore.
