(* ===== verification/DuckDbSql.v ===== *)
(** * DuckDbSql: the SQL text the DuckDB backend issues

    Models [backend/storage/duckdb/duckdb_storage_literals.cc],
    [duckdb_storage_sql_render.cc] and the statement builder of
    [duckdb_storage_read_stream.cc]: identifiers and string literals, the
    literal of a cell by its column, the batch INSERT, the projection list, the
    WHERE fragments and the paged SELECT of a read stream, with the removal of
    measure columns from [backend/catalog/measure_catalog.cc].

    [scan] is the part of SQL's lexical structure that decides where a slot of a
    VALUES list ends; the theorems show that a rendered cell stays within its
    slot, and name the one case in which it does not. *)

From Stdlib Require Import SpecFloat.
From S2P Require Import Prelude Absl AbslReference Schema RowRestriction Storage.

(** ** Formatting routines that are not part of the repository

    [absl::ToCivilSecond] in UTC of a time in microseconds, GoogleSQL's
    [FormatDateToString] with the format %F, and [absl::StrFormat] with %.17g
    on a finite double. *)
Class DuckText := {
  ToCivilSecond : Z -> Z * Z * Z * Z * Z * Z;
  FormatDateToString : Z -> option str;
  FormatG17 : spec_float -> str;
}.

(** The conversion %.17g prints a sign, digits with at most a point among them,
    and possibly a signed exponent. *)
Class DuckTextLaws `{AbslText, DuckText} : Prop := {
  FormatG17_shape d : exists (neg : bool) m e,
    FormatG17 d = (if neg then ["-"%char] else []) ++ m ++ e /\
    m <> [] /\ Forall (fun c => ascii_isdigit c = true \/ c = "."%char) m /\
    (e = [] \/ exists sg ds, e = "e"%char :: sg :: ds /\ (sg = "+"%char \/ sg = "-"%char) /\
       ds <> [] /\ Forall (fun c => ascii_isdigit c = true) ds);
}.

(** ** Literals *)

Section literals.
Context `{AbslText, DuckText}.

(** [absl::StrReplaceAll] of one character by itself twice. *)
Definition double_char (c : ascii) (s : str) : str :=
  flat_map (fun d => if decide (d = c) then [d; d] else [d]) s.

Definition QuoteIdent (ident : str) : str := [dquote] ++ double_char dquote ident ++ [dquote].

Definition EscapeStringLiteralInner (s : str) : str := double_char squote s.

(** A text in single quotes, as every string literal below is assembled. *)
Definition quoted_text (s : str) : str := [squote] ++ EscapeStringLiteralInner s ++ [squote].

Definition kHex : str := $"0123456789abcdef".

Definition hex_byte (c : ascii) : str :=
  let b := byteval c in
  [nth (Z.to_nat (Z.shiftr b 4)) kHex zero; nth (Z.to_nat (Z.land b 0x0f)) kHex zero].

Definition RenderBlobLiteral (bytes : str) : str :=
  $"X'" ++ flat_map hex_byte bytes ++ [squote].

Definition all_digits (s : str) : bool := forallb ascii_isdigit s.

(** [absl::SimpleAtoi] into an [int32_t]: the same syntax, a smaller range. *)
Definition SimpleAtoi32 (s : str) : option Z :=
  match SimpleAtoi s with
  | Some z => if ((- 2 ^ 31 <=? z) && (z <? 2 ^ 31))%Z then Some z else None
  | None => None
  end.

Definition TryFormatPackedDateString (s : str) : option str :=
  match s with
  | [] => None
  | _ =>
      if negb (all_digits s) then None
      else match SimpleAtoi32 s with
           | None => None
           | Some packed => FormatDateToString packed
           end
  end.

Definition TryFormatMicrosTimestampString (s : str) : option str :=
  match s with
  | [] => None
  | _ =>
      if negb (all_digits s) then None
      else match SimpleAtoi s with
           | None => None
           | Some micros =>
               let '(y, mo, d, h, mi, sec) := ToCivilSecond micros in
               let civil := PadInt 4 y ++ $"-" ++ PadInt 2 mo ++ $"-" ++ PadInt 2 d ++ $" " ++
                            PadInt 2 h ++ $":" ++ PadInt 2 mi ++ $":" ++ PadInt 2 sec in
               if (Z.rem micros 1000000 =? 0)%Z then Some (civil ++ $"+00")
               else
                 let frac := if (0 <=? micros)%Z then Z.rem micros 1000000
                             else Z.rem (- micros) 1000000 in
                 Some (civil ++ $"." ++ PadInt 6 frac ++ $"+00")
           end
  end.

Definition RenderFloatLiteral (cell : Value) : str :=
  match cell with
  | VString s => $"CAST(" ++ quoted_text s ++ $" AS DOUBLE)"
  | _ =>
      match float64_value cell with
      | S754_nan => $"'NaN'::DOUBLE"
      | S754_infinity false => $"'Infinity'::DOUBLE"
      | S754_infinity true => $"'-Infinity'::DOUBLE"
      | v => FormatG17 v
      end
  end.

(** The cases of [RenderScalarLiteral] other than STRUCT. *)
Definition RenderScalarText (cell : Value) (type : ColumnType) : str :=
  match type with
  | kBool =>
      match cell with
      | VString s => $"CAST(" ++ quoted_text s ++ $" AS BOOLEAN)"
      | _ => if bool_value cell then $"TRUE" else $"FALSE"
      end
  | kInt64 =>
      match cell with
      | VString s => $"CAST(" ++ quoted_text s ++ $" AS BIGINT)"
      | _ => StrInt (int64_value cell)
      end
  | kFloat64 => RenderFloatLiteral cell
  | kBytes => RenderBlobLiteral (string_value cell)
  | kDate =>
      let iso := string_value cell in
      $"DATE " ++ quoted_text (default iso (TryFormatPackedDateString iso))
  | kTime => $"TIME " ++ quoted_text (string_value cell)
  | kDatetime => $"TIMESTAMP " ++ quoted_text (string_value cell)
  | kTimestamp =>
      let ts := match cell with VInt64 z => StrInt z | _ => string_value cell end in
      $"TIMESTAMPTZ " ++ quoted_text (default ts (TryFormatMicrosTimestampString ts))
  | kNumeric => $"CAST(" ++ quoted_text (string_value cell) ++ $" AS " ++ ToDuckDBType type ++ $")"
  | kBignumeric =>
      $"CAST(" ++ quoted_text (string_value cell) ++ $" AS " ++ ToDuckDBStorageType type ++ $")"
  | kString | kJson | kGeography | kArray | kStruct | kUnknown => quoted_text (string_value cell)
  end.

(** The text of a string cell that [RenderStructLiteral] passes on as it is. *)
Definition raw_struct_text (cell : Value) : option str :=
  match cell with
  | VString s =>
      match StripAsciiWhitespace s with
      | c :: r => if decide (c = "{"%char) then Some (c :: r) else None
      | [] => None
      end
  | _ => None
  end.

Definition kind_number (v : Value) : Z :=
  match v with
  | VNull => 0 | VBool _ => 1 | VInt64 _ => 2 | VFloat64 _ => 3
  | VString _ => 4 | VBytes _ => 5 | VArray _ => 6 | VStruct _ => 7
  end.

Definition as_element (c : ColumnSchema) : ColumnSchema :=
  mkColumn (col_name c) (col_type c) kNullable (col_description c) (col_raw_type c) (col_fields c).

Definition expects_array (column : ColumnSchema) (cell : Value) : Status :=
  InvalidArgumentError ($"AppendRows: REPEATED column '" ++ col_name column ++
    $"' expects ARRAY but row provided kind " ++ StrInt (kind_number cell)).

Definition expects_struct (column : ColumnSchema) : Status :=
  InvalidArgumentError ($"AppendRows: column '" ++ col_name column ++
    $"' expects STRUCT but row provided non-struct cell").

Definition struct_width (column : ColumnSchema) (n : nat) : Status :=
  InvalidArgumentError ($"AppendRows: STRUCT column '" ++ col_name column ++ $"' has " ++
    StrInt (Z.of_nat (length (col_fields column))) ++ $" fields but row provided " ++
    StrInt (Z.of_nat n)).

Definition cast_list (inner : str) (column : ColumnSchema) : str :=
  $"CAST([" ++ inner ++ $"] AS " ++ ColumnSchemaToDuckDBStorageType column ++ $")".

(** [RenderCellLiteral], with [RenderScalarLiteral] and [RenderStructLiteral]
    inlined where they call it back; the elements of a list and the fields of a
    struct are rendered in order and the first error ends the call. *)
Fixpoint RenderCellLiteral (cell : Value) (column : ColumnSchema) : StatusOr str :=
  match cell with
  | VNull => Ok $"NULL"
  | _ =>
      if decide (col_mode column = kRepeated) then
        match cell with
        | VArray [] => Ok (cast_list [] column)
        | VArray elems =>
            texts ← (fix elements (l : list Value) : StatusOr (list str) :=
                       match l with
                       | [] => Ok []
                       | e :: l =>
                           t ← RenderCellLiteral e (as_element column); ts ← elements l; Ok (t :: ts)
                       end) elems;
            Ok (cast_list (join_text $", " texts) column)
        | _ => Err (expects_array column cell)
        end
      else if decide (col_type column = kStruct) then
        match raw_struct_text cell with
        | Some text => Ok text
        | None =>
            match cell with
            | VStruct vs =>
                if negb (length vs =? length (col_fields column))%nat then
                  Err (struct_width column (length vs))
                else
                  texts ← (fix fields (l : list Value) (cols : list ColumnSchema)
                             : StatusOr (list str) :=
                             match l, cols with
                             | v :: l, f :: cols =>
                                 t ← RenderCellLiteral v f; ts ← fields l cols;
                                 Ok ((quoted_text (col_name f) ++ $": " ++ t) :: ts)
                             | _, _ => Ok []
                             end) vs (col_fields column);
                  Ok ($"{" ++ join_text $", " texts ++ $"}")
            | _ => Err (expects_struct column)
            end
        end
      else Ok (RenderScalarText cell (col_type column))
  end.
End literals.

(** ** Measure columns *)

Section measures.
Context `{AbslText}.

Record MeasureColumnSpec := mkMeasure {
  measure_name : str;
  expression : str;
  row_key_names : list str;
}.

Definition kMeasureMarker : str := $"bqemu_measure:".

Definition ParseMeasureColumnSpec (column : ColumnSchema) : option MeasureColumnSpec :=
  match strip_prefix kMeasureMarker (col_description column) with
  | None => None
  | Some payload =>
      match StrSplit payload ":" with
      | [e; keys] =>
          if bool_decide (e = []) then None
          else Some (mkMeasure (col_name column) e
                 (map StripAsciiWhitespace (filter (fun k => k <> []) (StrSplit keys ","))))
      | _ => None
      end
  end.

Definition StripMeasureColumns (sch : TableSchema) : TableSchema :=
  mkTableSchema (filter (fun c => ParseMeasureColumnSpec c = None) (columns sch)).

Definition ParquetStorageSchema (logical : TableSchema) : TableSchema := StripMeasureColumns logical.
End measures.

(** ** Statements *)

Section statements.
Context `{AbslText, DuckText}.

Definition RenderColumnList (sch : TableSchema) : str :=
  $"(" ++ join_text $", " (map (fun c => QuoteIdent (col_name c) ++ $" " ++
             ColumnSchemaToDuckDBStorageType c) (columns sch)) ++ $")".

Definition RenderPredicateClause (p : EqualityPredicate) : str :=
  $" WHERE " ++ QuoteIdent (column p) ++ $" = " ++
  match kind p with
  | pkInt64 => StrInt (RowRestriction.int64_value p)
  | pkBool => if RowRestriction.bool_value p then $"TRUE" else $"FALSE"
  | pkString => quoted_text (RowRestriction.string_value p)
  end.

Definition RenderWhereSqlClause (where_sql : str) : str :=
  match where_sql with [] => [] | _ => $" WHERE (" ++ where_sql ++ $")" end.

Definition row_lower_bound (row_start : Z) : str := $"file_row_number >= " ++ StrInt row_start.
Definition row_upper_bound (row_end : Z) : str := $"file_row_number < " ++ StrInt row_end.

Definition RenderRowPartitionClause (row_start row_end : Z) : str :=
  if ((0 <? row_start) || (0 <=? row_end))%Z then
    $" WHERE " ++
    (if (0 <? row_start)%Z then row_lower_bound row_start else []) ++
    (if (0 <=? row_end)%Z
     then (if (0 <? row_start)%Z then $" AND " else []) ++ row_upper_bound row_end else [])
  else [].

Definition cast_to_varchar (ident : str) : str :=
  $"CAST(" ++ ident ++ $" AS VARCHAR) AS " ++ ident.

Definition RenderColumnSelectExpr (c : ColumnSchema) : str :=
  let ident := QuoteIdent (col_name c) in
  if decide (col_mode c = kRepeated) then cast_to_varchar ident
  else match col_type c with
       | kDate | kTime | kDatetime | kTimestamp | kStruct => cast_to_varchar ident
       | _ => ident
       end.

Definition RenderColumnIdentList (sch : TableSchema) : str :=
  join_text $", " (map RenderColumnSelectExpr (columns sch)).

(** The first column of a schema with a name. *)
Definition find_column (sch : TableSchema) (name : str) : option ColumnSchema :=
  head (filter (fun c => col_name c = name) (columns sch)).

Definition RenderSelectedColumnIdentList (sch : TableSchema) (names : list str) : str :=
  join_text $", " (map (fun n =>
    match find_column sch n with
    | Some c => RenderColumnSelectExpr c
    | None => QuoteIdent n
    end) names).

Definition ProjectSchema (sch : TableSchema) (names : list str) : StatusOr TableSchema :=
  cols ← outcome_mapM (fun n =>
    match find_column sch n with
    | Some c => Ok c
    | None => Err (InvalidArgumentError ($"selected_fields: unknown column `" ++ n ++
                $"` (table has no top-level column with that name)"))
    end) names;
  Ok (mkTableSchema cols).

Fixpoint ValidateRowsFrom (tag : str) (id : TableId) (i : Z) (rows : list Row) (ncols : nat)
    : StatusOr unit :=
  match rows with
  | [] => Ok ()
  | r :: rows =>
      if negb (length (cells r) =? ncols)%nat then
        Err (InvalidArgumentError (tag ++ $": row[" ++ StrInt i ++ $"] has " ++
          StrInt (Z.of_nat (length (cells r))) ++ $" cell(s) but table " ++ project_id id ++
          $"." ++ dataset_id id ++ $"." ++ table_id id ++ $" has " ++
          StrInt (Z.of_nat ncols) ++ $" column(s)"))
      else ValidateRowsFrom tag id (i + 1) rows ncols
  end.

Definition ValidateRowsShape (tag : str) (id : TableId) (rows : list Row) (ncols : nat)
    : StatusOr unit := ValidateRowsFrom tag id 0 rows ncols.

(** The cells of one row against the columns, in column order. *)
Fixpoint RenderRowCells (cs : list Value) (cols : list ColumnSchema) : StatusOr (list str) :=
  match cols, cs with
  | [], _ => Ok []
  | f :: cols, v :: cs => t ← RenderCellLiteral v f; ts ← RenderRowCells cs cols; Ok (t :: ts)
  | _ :: _, [] => Ok []
  end.

Definition render_tuple (texts : list str) : str := $"(" ++ join_text $", " texts ++ $")".

Definition BuildBatchInsertSql (tmp_table : str) (rows : list Row) (sch : TableSchema)
    : StatusOr str :=
  tuples ← outcome_mapM (fun r => RenderRowCells (cells r) (columns sch)) rows;
  Ok ($"INSERT INTO " ++ tmp_table ++ $" VALUES " ++ join_text $", " (map render_tuple tuples)).

Record ReadStreamPlan := mkPlan { effective_schema : TableSchema; select_cols : str }.

Definition PlanReadStreamProjection (physical : TableSchema) (filter : ReadFilter)
    : StatusOr ReadStreamPlan :=
  match selected_fields filter with
  | [] => Ok (mkPlan physical (RenderColumnIdentList physical))
  | names =>
      projected ← ProjectSchema physical names;
      Ok (mkPlan projected (RenderSelectedColumnIdentList physical names))
  end.

Definition AppendReadStreamFilters (filter : ReadFilter) (sql : str) : str :=
  let sql :=
    match where_sql filter with
    | Some (c :: w) => sql ++ RenderWhereSqlClause (c :: w)
    | _ => match equality_predicate filter with
           | Some p => sql ++ RenderPredicateClause p
           | None => sql
           end
    end in
  if ((0 <? row_start filter) || (0 <=? row_end filter))%Z then
    if str_contains sql $" WHERE " then
      sql ++
      (if (0 <? row_start filter)%Z
       then $" AND file_row_number >= " ++ StrInt (row_start filter) else []) ++
      (if (0 <=? row_end filter)%Z
       then $" AND file_row_number < " ++ StrInt (row_end filter) else [])
    else sql ++ RenderRowPartitionClause (row_start filter) (row_end filter)
  else sql.

Definition AppendReadStreamPagination (filter : ReadFilter) (sql : str) : str :=
  sql ++ $" ORDER BY file_row_number" ++
  (if (0 <? row_limit filter)%Z then $" LIMIT " ++ StrInt (row_limit filter) else []) ++
  (if (0 <? offset filter)%Z
   then (if (row_limit filter <=? 0)%Z then $" LIMIT ALL" else []) ++
        $" OFFSET " ++ StrInt (offset filter) else []).

Definition read_parquet_select (parquet_path select_cols : str) : str :=
  $"SELECT " ++ select_cols ++ $" FROM read_parquet('" ++
  EscapeStringLiteralInner parquet_path ++ $"', file_row_number = true)".

Definition BuildReadStreamSql (parquet_path select_cols : str) (filter : ReadFilter) : str :=
  AppendReadStreamPagination filter
    (AppendReadStreamFilters filter (read_parquet_select parquet_path select_cols)).
End statements.

(** ** The lexical structure of a slot

    Reading a text from the start of a slot: outside quotes, brackets of any
    kind nest, a comma between brackets of the slot itself ends it, and a
    semicolon, a comment or a bracket that closes the slot's own surroundings
    would leave it. *)
Inductive Mode := Outside | AfterMinus | InSingle | InDouble.

Definition outside_step (d : nat) (c : ascii) : option (Mode * nat) :=
  if decide (c = squote) then Some (InSingle, d)
  else if decide (c = dquote) then Some (InDouble, d)
  else if decide (c ∈ $"([{") then Some (Outside, S d)
  else if decide (c ∈ $")]}") then match d with 0 => None | S d => Some (Outside, d) end
  else if decide (c = ","%char) then match d with 0 => None | S _ => Some (Outside, d) end
  else if decide (c ∈ $";/$\") then None
  else if decide (c = "-"%char) then Some (AfterMinus, d)
  else Some (Outside, d).

Definition scan_step (st : Mode * nat) (c : ascii) : option (Mode * nat) :=
  let d := st.2 in
  match st.1 with
  | InSingle => Some (if decide (c = squote) then Outside else InSingle, d)
  | InDouble => Some (if decide (c = dquote) then Outside else InDouble, d)
  | AfterMinus => if decide (c = "-"%char) then None else outside_step d c
  | Outside => outside_step d c
  end.

Fixpoint scan (st : Mode * nat) (s : str) : option (Mode * nat) :=
  match s with
  | [] => Some st
  | c :: s => match scan_step st c with Some st => scan st s | None => None end
  end.

(** A text that begins and ends outside quotes and brackets and does not leave
    its slot on the way. *)
Definition closed (s : str) : Prop := scan (Outside, 0) s = Some (Outside, 0).

Lemma scan_app st s t : scan st (s ++ t) = scan st s ≫= fun st => scan st t.
Proof.
  revert st. induction s as [|c s IH]; intros st; simpl; [done|].
  destruct (scan_step st c); simpl; [apply IH|done].
Qed.

Lemma outside_step_deeper k d c st :
  outside_step d c = Some st -> outside_step (d + k) c = Some (st.1, st.2 + k).
Proof.
  unfold outside_step. intros E. repeat case_decide; simplify_eq/=; try done;
    destruct d; simplify_eq/=; done.
Qed.

Lemma scan_step_deeper k st c st' :
  scan_step st c = Some st' -> scan_step (st.1, st.2 + k) c = Some (st'.1, st'.2 + k).
Proof.
  destruct st as [[] d]; unfold scan_step; simpl; intros E; simplify_eq/=; try done.
  - by apply outside_step_deeper.
  - case_decide; [done|]. by apply outside_step_deeper.
Qed.

Lemma scan_deeper k st s st' :
  scan st s = Some st' -> scan (st.1, st.2 + k) s = Some (st'.1, st'.2 + k).
Proof.
  revert st. induction s as [|c s IH]; intros st; simpl; [by intros [= <-]|].
  destruct (scan_step st c) as [st1|] eqn:E; [|done].
  rewrite (scan_step_deeper _ _ _ _ E). apply IH.
Qed.

Lemma closed_at d s : closed s -> scan (Outside, d) s = Some (Outside, d).
Proof. intros E. exact (scan_deeper d _ _ _ E). Qed.

Lemma scan_closed d s t : closed s -> scan (Outside, d) (s ++ t) = scan (Outside, d) t.
Proof. intros C. by rewrite scan_app, closed_at. Qed.

Lemma closed_app s t : closed s -> closed t -> closed (s ++ t).
Proof. intros Cs Ct. unfold closed. by rewrite scan_closed. Qed.

(** Text inside quotes. *)
Lemma scan_escaped d s : scan (InSingle, d) (EscapeStringLiteralInner s) = Some (InSingle, d).
Proof.
  induction s as [|c s IH]; simpl; [done|]. unfold EscapeStringLiteralInner in IH.
  case_decide as E; simpl.
  - subst c. done.
  - unfold scan_step. simpl. by rewrite decide_False.
Qed.

Lemma scan_ident d s : scan (InDouble, d) (double_char dquote s) = Some (InDouble, d).
Proof.
  induction s as [|c s IH]; simpl; [done|].
  case_decide as E; simpl.
  - subst c. done.
  - unfold scan_step. simpl. by rewrite decide_False.
Qed.

Lemma scan_single d s : squote ∉ s -> scan (InSingle, d) s = Some (InSingle, d).
Proof.
  induction s as [|c s IH]; simpl; intros N; [done|]. unfold scan_step. simpl.
  rewrite decide_False by set_solver. apply IH. set_solver.
Qed.

Lemma closed_quoted s : closed (quoted_text s).
Proof.
  unfold closed, quoted_text. rewrite scan_app. simpl. by rewrite scan_app, scan_escaped.
Qed.

Lemma closed_ident s : closed (QuoteIdent s).
Proof. unfold closed, QuoteIdent. rewrite scan_app. simpl. by rewrite scan_app, scan_ident. Qed.

(** Bracketed lists of closed texts. *)
Lemma scan_join d ts t :
  Forall closed ts -> scan (Outside, S d) (join_text $", " ts ++ t) = scan (Outside, S d) t.
Proof.
  induction 1 as [|s [|s' l] Hs Hl IH]; [done|apply scan_closed; done|].
  change (join_text $", " (s :: s' :: l)) with (s ++ $", " ++ join_text $", " (s' :: l)).
  rewrite <- !app_assoc, scan_closed by done. rewrite scan_app. exact IH.
Qed.

Lemma closed_tuple ts : Forall closed ts -> closed (render_tuple ts).
Proof. intros F. unfold closed, render_tuple. rewrite scan_app. simpl. by rewrite scan_join. Qed.

(** Plain text: no bracket, quote or sign. *)
Definition plain_char (c : ascii) : Prop :=
  c <> squote /\ c <> dquote /\ c ∉ $"([{)]},;/$\-".

Lemma scan_plain m d c : plain_char c -> m = Outside \/ m = AfterMinus ->
  scan_step (m, d) c = Some (Outside, d).
Proof.
  intros (? & ? & N) M.
  assert (outside_step d c = Some (Outside, d)) as E.
  { unfold outside_step. rewrite !decide_False; try done; intros ?; apply N; set_solver. }
  destruct M as [-> | ->]; unfold scan_step; simpl; [done|].
  by rewrite decide_False by (intros ->; apply N; set_solver).
Qed.

Lemma scan_plains d s : Forall plain_char s -> scan (Outside, d) s = Some (Outside, d).
Proof. induction 1 as [|c s Hc _ IH]; simpl; [done|]. rewrite scan_plain; auto. Qed.

(** Reading a literal piece of text. *)
Ltac scan_lit :=
  rewrite ?app_assoc; rewrite <- ?app_assoc;
  repeat (rewrite scan_app;
    match goal with
    | |- context [scan (?m, ?d) (lit ?s) ≫= _] =>
        let r := eval vm_compute in (scan (m, d) (lit s)) in
        change (scan (m, d) (lit s)) with r; cbn [mbind option_bind]
    end).

Section closedness.
Context `{AbslTextLaws, !DuckText, !DuckTextLaws}.

Lemma digit_plain c : ascii_isdigit c = true -> plain_char c.
Proof.
  rewrite isdigit_ref. intros D.
  split; [by intros ->|]. split; [by intros ->|]. intros Hin%list_elem_of_In.
  assert (forallb (fun d => negb (ref_isdigit d)) $"([{)]},;/$\-" = true) as F by done.
  rewrite forallb_forall in F. specialize (F _ Hin). by rewrite D in F.
Qed.

Lemma digits_plain ds : Forall (fun c => ascii_isdigit c = true) ds -> Forall plain_char ds.
Proof. intros F. eapply Forall_impl; [exact F|]. apply digit_plain. Qed.

Lemma scan_number m d ds t : m = Outside \/ m = AfterMinus -> ds <> [] -> Forall plain_char ds ->
  scan (m, d) (ds ++ t) = scan (Outside, d) t.
Proof.
  intros M N F. destruct ds as [|c ds]; [done|]. apply Forall_cons in F as [Fc F]. simpl.
  rewrite scan_plain by done. by rewrite scan_app, scan_plains.
Qed.

Lemma closed_StrInt z : closed (StrInt z).
Proof.
  destruct (StrInt_shape z) as (neg & ds & -> & N & F%digits_plain). unfold closed.
  rewrite <- (app_nil_r ds). destruct neg; simpl; rewrite scan_number; auto.
Qed.

Lemma closed_FormatG17 d : closed (FormatG17 d).
Proof.
  destruct (FormatG17_shape d) as (neg & m & e & -> & N & F & E). unfold closed.
  assert (Forall plain_char m) as Fm.
  { eapply Forall_impl; [exact F|]. intros c [Hc| ->]; [by apply digit_plain|].
    split; [done|]. split; [done|]. by apply literal_without. }
  assert (scan (Outside, 0) e = Some (Outside, 0)) as Ee.
  { destruct E as [->|(sg & ds & -> & S & Nd & Fd%digits_plain)]; [done|].
    rewrite <- (app_nil_r ds). destruct S as [-> | ->]; simpl; rewrite scan_number; auto. }
  destruct neg; simpl; rewrite scan_number; auto.
Qed.

Lemma hex_byte_plain c : ~ In squote (hex_byte c).
Proof. destruct c as [[] [] [] [] [] [] [] []]; vm_compute; intros Hin; destruct_or! Hin; done. Qed.

Lemma closed_blob bytes : closed (RenderBlobLiteral bytes).
Proof.
  unfold closed, RenderBlobLiteral. scan_lit. rewrite scan_app, scan_single; [done|].
  intros (c & _ & Hc)%list_elem_of_In%in_flat_map. revert c Hc. by apply hex_byte_plain.
Qed.

Lemma closed_type (f : ColumnType -> str) c :
  (forall t, closed (f t)) -> closed (ColumnSchemaToDuckDBTypeWithFn f c).
Proof.
  intros Hf. assert (closed $"[]") as Hb by done.
  assert (forall m : ColumnMode, closed (if decide (m = kRepeated) then $"[]" else [])) as Hrep
    by (intros m; by case_decide).
  induction c as [name ty m desc raw fields IH] using ColumnSchema_nested.
  cbn [ColumnSchemaToDuckDBTypeWithFn].
  destruct ty; try (apply closed_app; [apply Hf|apply Hrep]).
  - apply closed_app; [|by apply closed_app].
    destruct fields as [|c fs]; [done|]. by apply Forall_cons in IH as [? _].
  - rewrite !app_assoc. apply closed_app; [|apply Hrep]. unfold closed.
    rewrite <- !app_assoc. scan_lit.
    assert (forall first t, scan (Outside, 1) ((fix go (first : bool) (l : list ColumnSchema) : str :=
       match l with
       | [] => []
       | f0 :: l =>
           (if first then [] else $", ") ++
           QuoteStructFieldName (col_name f0) ++ $" " ++
           ColumnSchemaToDuckDBTypeWithFn f f0 ++ go false l
       end) first fields ++ t) = scan (Outside, 1) t) as ->; [|done].
    induction IH as [|c fs Hc _ IHf]; intros first t; [done|].
    rewrite <- !app_assoc.
    assert (forall r, scan (Outside, 1) ((if first then [] else $", ") ++ r) = scan (Outside, 1) r) as ->
      by (by destruct first).
    rewrite (scan_closed _ (QuoteStructFieldName _)) by apply closed_ident.
    rewrite (scan_closed _ $" ") by done. rewrite scan_closed by done. apply IHf.
Qed.

Lemma closed_storage_type c : closed (ColumnSchemaToDuckDBStorageType c).
Proof. apply closed_type. by intros []. Qed.

Lemma closed_cast pre text post :
  scan (Outside, 0) pre = Some (Outside, 1) -> closed text -> scan (Outside, 1) post = Some (Outside, 0) ->
  closed (pre ++ text ++ post).
Proof. intros E1 C E2. unfold closed. rewrite scan_app, E1. simpl. by rewrite scan_closed. Qed.

Lemma closed_scalar cell type : closed (RenderScalarText cell type).
Proof.
  assert (forall pre s, closed pre -> closed (pre ++ quoted_text s)) as Q
    by (intros; apply closed_app; [done|apply closed_quoted]).
  destruct type; cbn [RenderScalarText]; try apply closed_quoted; try by apply Q.
  - destruct cell; try apply closed_StrInt. by apply closed_cast; [|apply closed_quoted|].
  - unfold RenderFloatLiteral.
    destruct cell; cbn [float64_value]; try apply closed_FormatG17;
      [|by apply closed_cast; [|apply closed_quoted|]].
    by destruct d as [| [] | |]; try apply closed_FormatG17.
  - destruct cell as [|[]| | | | | |]; try done. by apply closed_cast; [|apply closed_quoted|].
  - apply closed_blob.
  - by apply closed_cast; [|apply closed_quoted|].
  - by apply closed_cast; [|apply closed_quoted|].
Qed.

Lemma closed_cast_list ts column : Forall closed ts -> closed (cast_list (join_text $", " ts) column).
Proof.
  intros F. unfold closed, cast_list. scan_lit. rewrite scan_join by done. scan_lit.
  by rewrite scan_closed by apply closed_storage_type.
Qed.
End closedness.

(** No STRUCT slot of the cell, at any depth, is filled with a string. *)
Section typed.
Context `{AbslText}.

Fixpoint typed_cell (cell : Value) (column : ColumnSchema) : bool :=
  match cell with
  | VNull => true
  | _ =>
      if decide (col_mode column = kRepeated) then
        match cell with
        | VArray l => forallb (fun e => typed_cell e (as_element column)) l
        | _ => true
        end
      else if decide (col_type column = kStruct) then
        match raw_struct_text cell with
        | Some _ => false
        | None =>
            match cell with
            | VStruct vs =>
                (fix fields (l : list Value) (cols : list ColumnSchema) : bool :=
                   match l, cols with
                   | v :: l, f :: cols => typed_cell v f && fields l cols
                   | _, _ => true
                   end) vs (col_fields column)
            | _ => true
            end
        end
      else true
  end.
End typed.

Section rendered.
Context `{AbslTextLaws, !DuckText, !DuckTextLaws}.

Lemma cell_literal_closed_aux cell : forall column t,
  RenderCellLiteral cell column = Ok t -> typed_cell cell column = true -> closed t.
Proof.
  induction cell as [| | | | | |l IH|l IH] using Value_nested_ind; intros column t; cbn [RenderCellLiteral typed_cell];
    try (case_decide; [done|]); try (case_decide; [|intros [= <-] _; apply closed_scalar]);
    try by (cbn [raw_struct_text]; try case_match).
  - by intros [= <-].
  - case_decide; [|case_decide; [done|intros [= <-] _; apply closed_scalar]].
    intros E T.
    assert (forall ts, (fix elements (l : list Value) : StatusOr (list str) :=
       match l with
       | [] => Ok []
       | e :: l => t ← RenderCellLiteral e (as_element column); ts ← elements l; Ok (t :: ts)
       end) l = Ok ts -> Forall closed ts) as F.
    { clear E. revert T. induction IH as [|e l He _ IHl]; simpl; intros T ts E; [by simplify_eq|].
      bool_to_prop. inv_ok E. constructor; eauto. }
    destruct l as [|e l]; [by simplify_eq/=; apply (closed_cast_list [])|].
    inv_ok E. apply closed_cast_list. by apply F.
  - cbn [raw_struct_text]. destruct (negb _) eqn:H5; [done|]. intros E T. inv_ok E.
    assert (Forall closed a) as F.
    { clear H5. revert T E0. generalize (col_fields column). revert a.
      induction IH as [|v l Hv _ IHl]; intros a cols T E; destruct cols as [|f cols]; try by simplify_eq.
      bool_to_prop. inv_ok E. constructor; [|eauto].
      change (closed (quoted_text (col_name f) ++ $": " ++ a0)).
      apply closed_app; [apply closed_quoted|]. apply closed_app; [done|eauto]. }
    change (closed ($"{" ++ join_text $", " a ++ $"}")).
    unfold closed. scan_lit. by rewrite scan_join.
Qed.
End rendered.

(** ** Reading a VALUES list back

    [split_top] cuts a text at the commas of its own level, [values_of] reads
    the tuples of an INSERT statement and the slots of each tuple. *)
Fixpoint split_top (st : Mode * nat) (acc : str) (s : str) : option (list str) :=
  match s with
  | [] => Some [acc]
  | c :: s =>
      match scan_step st c with
      | Some st => split_top st (acc ++ [c]) s
      | None =>
          if decide (c = ","%char) then
            match s with
            | d :: s => if decide (d = " "%char) then cons acc <$> split_top (Outside, 0) [] s else None
            | [] => None
            end
          else None
      end
  end.

Definition tuple_slots (t : str) : option (list str) :=
  match strip_prefix $"(" t with
  | Some r =>
      match rev r with
      | c :: r => if decide (c = ")"%char) then split_top (Outside, 0) [] (rev r) else None
      | [] => None
      end
  | None => None
  end.

Definition values_of (tmp_table sql : str) : option (list (list str)) :=
  match strip_prefix ($"INSERT INTO " ++ tmp_table ++ $" VALUES ") sql with
  | Some body => ts ← split_top (Outside, 0) [] body; mapM tuple_slots ts
  | None => None
  end.

Lemma split_top_scan st acc p r st' :
  scan st p = Some st' -> split_top st acc (p ++ r) = split_top st' (acc ++ p) r.
Proof.
  revert st acc. induction p as [|c p IH]; intros st acc; simpl.
  - intros [= <-]. by rewrite app_nil_r.
  - destruct (scan_step st c) as [st1|]; [|done]. intros E. by rewrite (IH _ _ E), <- app_assoc.
Qed.

Lemma split_top_join ts :
  ts <> [] -> Forall closed ts -> split_top (Outside, 0) [] (join_text $", " ts) = Some ts.
Proof.
  intros N F. induction F as [|t ts Ht F IH]; [done|]. destruct ts as [|t' ts].
  - simpl. rewrite <- (app_nil_r t) at 1. by rewrite (split_top_scan _ _ _ _ _ Ht).
  - change (join_text $", " (t :: t' :: ts)) with (t ++ $", " ++ join_text $", " (t' :: ts)).
    rewrite (split_top_scan _ _ _ _ _ Ht). specialize (IH ltac:(done)).
    change (cons t <$> split_top (Outside, 0) [] (join_text $", " (t' :: ts)) = Some (t :: t' :: ts)).
    by rewrite IH.
Qed.

Lemma tuple_slots_render ts :
  ts <> [] -> Forall closed ts -> tuple_slots (render_tuple ts) = Some ts.
Proof.
  intros N F. unfold tuple_slots, render_tuple. rewrite strip_prefix_app.
  change ($")") with [")"%char]. rewrite rev_unit. simpl. rewrite rev_involutive.
  by apply split_top_join.
Qed.

Lemma values_of_tuples tmp tuples :
  tuples <> [] -> Forall (fun ts => ts <> [] /\ Forall closed ts) tuples ->
  values_of tmp ($"INSERT INTO " ++ tmp ++ $" VALUES " ++ join_text $", " (map render_tuple tuples))
    = Some tuples.
Proof.
  intros N F. unfold values_of.
  rewrite !app_assoc, strip_prefix_app.
  rewrite split_top_join; cbn [mbind option_bind].
  - clear N. induction F as [|ts tuples [Nt Ft] _ IH]; simpl; [done|].
    rewrite tuple_slots_render by done. simpl. by rewrite IH.
  - by destruct tuples.
  - apply Forall_map. eapply Forall_impl; [exact F|]. intros ts [_ Fc]. by apply closed_tuple.
Qed.

Section batches.
Context `{AbslTextLaws, !DuckText, !DuckTextLaws}.

Definition typed_row (sch : TableSchema) (r : Row) : Prop :=
  Forall2 (fun v c => typed_cell v c = true) (cells r) (columns sch).

Definition row_literals (sch : TableSchema) (r : Row) (texts : list str) : Prop :=
  Forall2 (fun vc t => RenderCellLiteral vc.1 vc.2 = Ok t) (zip (cells r) (columns sch)) texts.

Lemma RenderRowCells_spec sch r texts :
  RenderRowCells (cells r) (columns sch) = Ok texts -> typed_row sch r ->
  row_literals sch r texts /\ Forall closed texts /\ length texts = length (columns sch).
Proof.
  unfold typed_row, row_literals. intros E T. revert texts E.
  induction T as [|v c vs cs Hv _ IH]; intros texts E; simpl in E; [by simplify_eq|].
  inv_ok E. destruct (IH _ eq_refl) as (? & ? & ?). simpl. split_and!; [by constructor| |by f_equal].
  constructor; [|done]. by eapply cell_literal_closed_aux.
Qed.

Lemma mapM_rows sch rows tuples :
  outcome_mapM (fun r => RenderRowCells (cells r) (columns sch)) rows = Ok tuples ->
  columns sch <> [] -> Forall (typed_row sch) rows ->
  Forall2 (row_literals sch) rows tuples /\
  Forall (fun ts => ts <> [] /\ Forall closed ts) tuples.
Proof.
  intros E Hc T. revert tuples E. induction T as [|r rows Hr _ IH]; intros tuples E; simpl in E.
  - by simplify_eq.
  - inv_ok E. destruct (RenderRowCells_spec _ _ _ E0 Hr) as (? & ? & L).
    destruct (IH _ eq_refl) as [? ?]. split; constructor; auto. split; [|done].
    intros ->. by destruct (columns sch).
Qed.

(** Rendered values stay within their slot, whatever bytes they hold: the
    literal of a cell and the predicate of a row restriction begin and end
    outside quotes and brackets and have no comma, semicolon or comment of their
    own level. *)
Theorem cell_literal_closed :
  (forall cell column t, RenderCellLiteral cell column = Ok t -> typed_cell cell column = true ->
     closed t) /\
  (forall p, closed (RenderPredicateClause p)).
Proof.
  split; [apply cell_literal_closed_aux|]. intros p. unfold RenderPredicateClause.
  apply closed_app; [done|]. apply closed_app; [apply closed_ident|]. apply closed_app; [done|].
  destruct (kind p); [apply closed_StrInt| |apply closed_quoted].
  by destruct (RowRestriction.bool_value p).
Qed.

(** The batch INSERT carries exactly the rows it was given: its VALUES list
    reads back as one tuple per row and one slot per column, each slot the
    literal of that cell. *)
Theorem batch_insert_slots tmp rows sch sql
    (E : BuildBatchInsertSql tmp rows sch = Ok sql) (Hr : rows <> []) (Hc : columns sch <> [])
    (T : Forall (typed_row sch) rows) :
  exists tuples, values_of tmp sql = Some tuples /\ Forall2 (row_literals sch) rows tuples.
Proof.
  unfold BuildBatchInsertSql in E.
  destruct (outcome_mapM _ rows) as [tuples|] eqn:M; [|done]. injection E as <-.
  destruct (mapM_rows _ _ _ M Hc T) as [F2 F]. exists tuples. split; [|done].
  apply values_of_tuples; [|done]. intros ->. by apply Forall2_length in F2; destruct rows.
Qed.

(** A STRUCT cell given as a string is copied into the statement as it is:
    for every table whose only column is a STRUCT there is a single row whose
    INSERT statement adds two. *)
Theorem struct_text_spliced tmp column
    (Ht : col_type column = kStruct) (Hm : col_mode column <> kRepeated) :
  exists cell sql,
    BuildBatchInsertSql tmp [mkRow [cell]] (mkTableSchema [column]) = Ok sql /\
    exists t1 t2, values_of tmp sql = Some [[t1]; [t2]].
Proof.
  exists (VString $"{}), ({}").
  assert (raw_struct_text (VString $"{}), ({}") = Some $"{}), ({}") as Raw
    by (cbn [raw_struct_text]; by rewrite StripAsciiWhitespace_ref).
  eexists. split.
  - unfold BuildBatchInsertSql. cbn [outcome_mapM RenderRowCells cells columns RenderCellLiteral].
    rewrite decide_False, decide_True, Raw by done. reflexivity.
  - exists ($"{}"), ($"{}").
    apply (values_of_tuples tmp [[$"{}"]; [$"{}"]]); [done|].
    assert ([$"{}"] <> [] /\ Forall closed [$"{}"]) by (split; [done|by constructor]).
    by repeat constructor.
Qed.
End batches.

(** ** The read-stream statement *)

(** The conditions a filter imposes: the predicate, then the bounds of the
    partition. *)
Section read_stream.
Context `{AbslText}.

Definition filter_predicate (f : ReadFilter) : option str :=
  match where_sql f with
  | Some (c :: w) => Some ($"(" ++ (c :: w) ++ $")")
  | _ => (fun p => drop 7 (RenderPredicateClause p)) <$> equality_predicate f
  end.

Definition filter_bounds (f : ReadFilter) : list str :=
  (if (0 <? row_start f)%Z then [row_lower_bound (row_start f)] else []) ++
  (if (0 <=? row_end f)%Z then [row_upper_bound (row_end f)] else []).

Definition filter_conditions (f : ReadFilter) : list str :=
  match filter_predicate f with Some p => p :: filter_bounds f | None => filter_bounds f end.

Definition where_clause (conds : list str) : str :=
  match conds with [] => [] | _ => $" WHERE " ++ join_text $" AND " conds end.

Definition page_clause (f : ReadFilter) : str := AppendReadStreamPagination f [].

Lemma contains_where a b : str_contains (a ++ $" WHERE " ++ b) $" WHERE " = true.
Proof.
  unfold str_contains. destruct (find_sub _ _) eqn:E; [done|].
  apply find_sub_None in E. destruct E. by exists a, b.
Qed.

Lemma predicate_text p : RenderPredicateClause p = $" WHERE " ++ drop 7 (RenderPredicateClause p).
Proof. done. Qed.

(** The statement after its restriction, and after the bounds. *)
Definition restricted (f : ReadFilter) (sql : str) : str :=
  sql ++ match filter_predicate f with Some p => $" WHERE " ++ p | None => [] end.

Definition bounded (f : ReadFilter) (sql : str) : str :=
  if ((0 <? row_start f) || (0 <=? row_end f))%Z then
    if str_contains sql $" WHERE " then
      sql ++
      (if (0 <? row_start f)%Z
       then $" AND file_row_number >= " ++ StrInt (row_start f) else []) ++
      (if (0 <=? row_end f)%Z
       then $" AND file_row_number < " ++ StrInt (row_end f) else [])
    else sql ++ RenderRowPartitionClause (row_start f) (row_end f)
  else sql.

Lemma restricted_sql f sql : AppendReadStreamFilters f sql = bounded f (restricted f sql).
Proof.
  unfold AppendReadStreamFilters, restricted, filter_predicate.
  destruct (where_sql f) as [[|c w]|], (equality_predicate f); simpl; by rewrite ?app_nil_r.
Qed.

Lemma bounds_after f sql :
  bounded f sql =
    sql ++ (if str_contains sql $" WHERE "
            then mjoin (map (fun c => $" AND " ++ c) (filter_bounds f))
            else where_clause (filter_bounds f)).
Proof.
  unfold bounded, filter_bounds, RenderRowPartitionClause.
  destruct (0 <? row_start f)%Z, (0 <=? row_end f)%Z; cbn [orb];
    destruct (str_contains sql _); cbn; by rewrite ?app_nil_r.
Qed.

(** The SELECT of a read stream has one WHERE clause whose conditions are
    exactly the row restriction and the bounds of the partition, joined with
    AND, and orders and pages by row number; unless there is no restriction and
    the text before the clause, which holds the column names and the path,
    already contains the word WHERE between blanks: then the bounds follow
    without a WHERE and the statement is malformed. *)
Theorem read_stream_conditions path cols f :
  let base := read_parquet_select path cols in
  BuildReadStreamSql path cols f =
    base ++
    (if bool_decide (filter_predicate f = None) && str_contains base $" WHERE "
     then mjoin (map (fun c => $" AND " ++ c) (filter_bounds f))
     else where_clause (filter_conditions f)) ++ page_clause f.
Proof.
  cbn zeta. unfold BuildReadStreamSql. set (base := read_parquet_select path cols).
  assert (forall s, AppendReadStreamPagination f s = s ++ page_clause f) as -> by done.
  rewrite app_assoc. f_equal. rewrite restricted_sql, bounds_after.
  unfold restricted, filter_conditions. destruct (filter_predicate f) as [p|].
  - rewrite bool_decide_false by done. cbn [andb]. rewrite contains_where, <- !app_assoc. f_equal.
    cbn [where_clause]. f_equal. by rewrite join_text_cons.
  - rewrite bool_decide_true, app_nil_r by done. by destruct (str_contains base _).
Qed.
End read_stream.

(** ** Witnesses *)

Module Demo.

#[local] Instance demo_text : DuckText := {
  ToCivilSecond micros := (1970, 1, 1, 0, 0, micros / 1000000)%Z;
  FormatDateToString packed := if (packed =? 20240131)%Z then Some $"2024-01-31" else None;
  FormatG17 d := match d with S754_zero true => $"-0" | _ => $"1.5e+300" end;
}.

#[local] Instance demo_text_laws : DuckTextLaws.
Proof.
  split. intros d. assert (FormatG17 d = $"-0" \/ FormatG17 d = $"1.5e+300") as [-> | ->]
    by (destruct d as [[]| | |]; auto).
  - exists true, ($"0"), []. split; [done|]. split; [done|]. split; [|by left].
    by constructor; [left|].
  - exists false, ($"1.5"), ($"e+300"). split; [done|]. split; [done|]. split.
    + constructor; [by left|]. constructor; [by right|]. by constructor; [left|].
    + right. exists "+"%char, ($"300"). split; [done|]. split; [by left|]. split; [done|].
      by repeat constructor.
Qed.

Definition dk_schema : TableSchema := mkTableSchema [
  mkColumn $"name" kString kNullable [] [] []; mkColumn $"n" kInt64 kNullable [] [] [];
  mkColumn $"tags" kString kRepeated [] [] []].
Definition dk_row : Row :=
  mkRow [VString $"it's), ('x"; VInt64 (-5); VArray [VString $"a"; VNull]].
Definition dk_pair : ColumnSchema := mkColumn $"pair" kStruct kNullable [] [] [].

Lemma cell_literal_closed_witness :
  exists t, RenderCellLiteral (VString $"it's") (mkColumn $"name" kString kNullable [] [] []) = Ok t /\
    t = $"'it''s'" /\ closed t.
Proof.
  eexists. split; [vm_compute; reflexivity|]. split; [vm_compute; reflexivity|].
  apply (proj1 cell_literal_closed (VString $"it's") (mkColumn $"name" kString kNullable [] [] []));
    vm_compute; reflexivity.
Defined.

Lemma batch_insert_slots_witness :
  exists sql tuples, BuildBatchInsertSql $"t" [dk_row; dk_row] dk_schema = Ok sql /\
    values_of $"t" sql = Some tuples /\ Forall2 (row_literals dk_schema) [dk_row; dk_row] tuples.
Proof.
  assert (exists sql, BuildBatchInsertSql $"t" [dk_row; dk_row] dk_schema = Ok sql) as [sql E]
    by (eexists; vm_compute; reflexivity).
  assert (Forall (typed_row dk_schema) [dk_row; dk_row]) as T by (by repeat constructor).
  destruct (batch_insert_slots $"t" [dk_row; dk_row] dk_schema sql E ltac:(done) ltac:(done) T)
    as (tuples & V & F).
  exists sql, tuples. split; [exact E|]. split; [exact V|exact F].
Defined.

Lemma struct_text_spliced_witness :
  exists cell sql, BuildBatchInsertSql $"t" [mkRow [cell]] (mkTableSchema [dk_pair]) = Ok sql /\
    exists t1 t2, values_of $"t" sql = Some [[t1]; [t2]].
Proof. apply (struct_text_spliced $"t" dk_pair); [reflexivity|discriminate]. Defined.

End Demo.
