(* ===== verification/DuckDbList.v ===== *)
(** * DuckDbList: decoding DuckDB's text form of lists and structs

    Models [backend/storage/duckdb/duckdb_storage_list_literals.cc]: REPEATED and
    STRUCT columns are read from DuckDB as VARCHAR and decoded from that text.
    The loops consume the text from the left; their fuel is one more than its
    length; every turn of a loop consumes at least one byte ([decode_list_fuel]). *)

From Stdlib Require Import SpecFloat.
From S2P Require Import Prelude Absl AbslReference Schema RowRestriction Storage DuckDbSql.

(** ** Tokens *)

Definition is_blank (c : ascii) : bool := bool_decide (c = " "%char \/ c = "009"%char).

Fixpoint trim_front (s : str) : str :=
  match s with
  | c :: r => if is_blank c then trim_front r else s
  | [] => []
  end.

Definition TrimAsciiSpace (s : str) : str := rev (trim_front (rev (trim_front s))).

(** The rest of a quoted token after its opening quote: its text, and what
    follows the closing quote. *)
Fixpoint QuotedRest (s : str) : option (str * str) :=
  match s with
  | [] => None
  | c :: r =>
      if decide (c = squote) then
        match r with
        | d :: r' =>
            if decide (d = squote) then (fun p => (squote :: p.1, p.2)) <$> QuotedRest r'
            else Some ([], r)
        | [] => Some ([], [])
        end
      else (fun p => (c :: p.1, p.2)) <$> QuotedRest r
  end.

Definition ParseQuotedStringToken (s : str) : StatusOr (str * str) :=
  match s with
  | c :: r =>
      if decide (c = squote) then
        match QuotedRest r with
        | Some p => Ok p
        | None => Err (InvalidArgumentError $"ParseQuotedStringToken: unterminated quoted string")
        end
      else Err (InvalidArgumentError $"ParseQuotedStringToken: expected leading quote")
  | [] => Err (InvalidArgumentError $"ParseQuotedStringToken: expected leading quote")
  end.

(** [std::strtoll] in base 10 when it consumes the whole text: blanks, a sign,
    digits; the value saturates at the bounds of [int64_t]. *)
Definition clamp64 (z : Z) : Z := Z.max int64_min (Z.min int64_max z).

Definition strtoll_all (s : str) : option Z :=
  match ref_ltrim s with
  | c :: r =>
      let digits := if decide (c = "-"%char \/ c = "+"%char) then r else c :: r in
      if bool_decide (digits <> []) && forallb ref_isdigit digits
      then Some (clamp64 (if decide (c = "-"%char) then - ref_value digits else ref_value digits))
      else None
  | [] => None
  end.

(** [std::strtod] when it consumes the whole text. *)
Class CFloat := strtod_all : str -> option spec_float.

Section decode.
Context `{AbslText, CFloat}.

Definition cannot_parse (token : str) : Status :=
  InvalidArgumentError ($"ParseListElementToken: cannot parse `" ++ token ++ $"`").

Definition ParseListElementToken (token0 : str) (element : ColumnSchema) : StatusOr Value :=
  let token := TrimAsciiSpace token0 in
  if bool_decide (token = [] \/ token = $"NULL") then Ok VNull
  else if bool_decide (head token = Some squote) then
    p ← ParseQuotedStringToken token; Ok (VString p.1)
  else match col_type element with
       | kBool =>
           if bool_decide (token = $"true") then Ok (VBool true)
           else if bool_decide (token = $"false") then Ok (VBool false)
           else Err (cannot_parse token)
       | kInt64 =>
           match strtoll_all token with
           | Some v => Ok (VInt64 v)
           | None => Err (cannot_parse token)
           end
       | kFloat64 =>
           match strtod_all token with
           | Some v => Ok (VFloat64 v)
           | None => Err (cannot_parse token)
           end
       | _ => Ok (VString token)
       end.

(** One element and the text after it. *)
Definition AppendQuotedListElement (body : str) : StatusOr (Value * str) :=
  p ← ParseQuotedStringToken body; Ok (VString p.1, p.2).

Definition AppendTokenListElement (body : str) (element : ColumnSchema) : StatusOr (Value * str) :=
  let (token, rest) := default (body, []) (find_sub $"," body) in
  v ← ParseListElementToken (TrimAsciiSpace token) element; Ok (v, rest).

Definition drop_comma (body : str) : str :=
  match body with
  | c :: r => if decide (c = ","%char) then r else body
  | [] => []
  end.

Fixpoint DecodeListLoop (fuel : nat) (body : str) (element : ColumnSchema) : StatusOr (list Value) :=
  match fuel with
  | 0 => Ok []
  | S fuel =>
      let body := TrimAsciiSpace body in
      if bool_decide (body = []) then Ok []
      else
        p ← (if bool_decide (head body = Some squote) then AppendQuotedListElement body
             else AppendTokenListElement body element);
        vs ← DecodeListLoop fuel (drop_comma (TrimAsciiSpace p.2)) element;
        Ok (p.1 :: vs)
  end.

(** The text between a pair of brackets, trimmed. *)
Definition bracketed (l r : ascii) (body : str) : option str :=
  match body with
  | c :: d :: rest =>
      if bool_decide (c = l /\ last (d :: rest) = Some r)
      then Some (TrimAsciiSpace (removelast (d :: rest))) else None
  | _ => None
  end.

Definition ParseDuckDBListVarchar (text : str) (element : ColumnSchema) : StatusOr Value :=
  let body := TrimAsciiSpace text in
  if bool_decide (body = [] \/ body = $"NULL") then Ok VNull
  else match bracketed "[" "]" body with
       | None => Err (InvalidArgumentError ($"ParseDuckDBListVarchar: expected `[...]` got `" ++
                   body ++ $"`"))
       | Some inner => vs ← DecodeListLoop (S (length inner)) inner element; Ok (VArray vs)
       end.

(** *** Structs *)

Record StructFieldPair := mkPair { key : str; raw_value : str }.

Definition ParseNextStructField (body : str) : StatusOr (StructFieldPair * str) :=
  if bool_decide (head body <> Some squote) then
    Err (InvalidArgumentError ($"ParseDuckDBStructVarchar: expected quoted field name in `" ++
      body ++ $"`"))
  else
    k ← ParseQuotedStringToken body;
    match TrimAsciiSpace k.2 with
    | c :: rest =>
        if decide (c = ":"%char) then
          let body := TrimAsciiSpace rest in
          if bool_decide (head body = Some squote) then
            v ← ParseQuotedStringToken body; Ok (mkPair k.1 v.1, v.2)
          else
            match find_sub $", '" body with
            | Some (raw, rest) => Ok (mkPair k.1 (TrimAsciiSpace raw), squote :: rest)
            | None => Ok (mkPair k.1 (TrimAsciiSpace body), [])
            end
        else Err (InvalidArgumentError $"ParseDuckDBStructVarchar: expected ':' after field name")
    | [] => Err (InvalidArgumentError $"ParseDuckDBStructVarchar: expected ':' after field name")
    end.

(** A field name with the decoder of its values. *)
Abbreviation FieldDecoder := (str * (str -> StatusOr Value))%type.

Fixpoint AssignStructFieldValue (k raw : str) (decoders : list FieldDecoder) (fields : list Value)
    : StatusOr (list Value) :=
  match decoders, fields with
  | (name, decode) :: decoders, v :: fields =>
      if bool_decide (name <> k) then
        fs ← AssignStructFieldValue k raw decoders fields; Ok (v :: fs)
      else v' ← decode raw; Ok (v' :: fields)
  | _, _ => Ok fields
  end.

Fixpoint DecodeStructLoop (fuel : nat) (body : str) (decoders : list FieldDecoder)
    (fields : list Value) : StatusOr (list Value) :=
  match fuel with
  | 0 => Ok fields
  | S fuel =>
      let body := TrimAsciiSpace body in
      if bool_decide (body = []) then Ok fields
      else
        p ← ParseNextStructField body;
        fields ← AssignStructFieldValue (key p.1) (raw_value p.1) decoders fields;
        DecodeStructLoop fuel (drop_comma (TrimAsciiSpace p.2)) decoders fields
  end.

Definition DecodeStruct (decoders : list FieldDecoder) (text : str) : StatusOr Value :=
  let body := TrimAsciiSpace text in
  if bool_decide (body = [] \/ body = $"NULL") then Ok VNull
  else match bracketed "{" "}" body with
       | None => Err (InvalidArgumentError ($"ParseDuckDBStructVarchar: expected `{...}` got `" ++
                   body ++ $"`"))
       | Some inner =>
           fs ← DecodeStructLoop (S (length inner)) inner decoders
                  (replicate (length decoders) VNull);
           Ok (VStruct fs)
       end.

Fixpoint ParseStructFieldLiteral (field : ColumnSchema) (raw : str) : StatusOr Value :=
  let trimmed := TrimAsciiSpace raw in
  if bool_decide (trimmed = [] \/ trimmed = $"NULL") then Ok VNull
  else match field with
       | mkColumn _ type _ _ _ fields =>
           match type with
           | kBool =>
               if bool_decide (trimmed = $"true" \/ trimmed = $"TRUE") then Ok (VBool true)
               else if bool_decide (trimmed = $"false" \/ trimmed = $"FALSE") then Ok (VBool false)
               else Ok (VString trimmed)
           | kInt64 =>
               Ok (match strtoll_all trimmed with Some v => VInt64 v | None => VString trimmed end)
           | kFloat64 =>
               Ok (match strtod_all trimmed with Some v => VFloat64 v | None => VString trimmed end)
           | kStruct =>
               DecodeStruct (map (fun f => (col_name f, ParseStructFieldLiteral f)) fields) trimmed
           | _ => Ok (VString trimmed)
           end
       end.

Definition field_decoders (column : ColumnSchema) : list FieldDecoder :=
  map (fun f => (col_name f, ParseStructFieldLiteral f)) (col_fields column).

Definition ParseDuckDBStructVarchar (text : str) (column : ColumnSchema) : StatusOr Value :=
  DecodeStruct (field_decoders column) text.
End decode.

(** ** Trimming *)

Definition ends_solid (s : str) : Prop :=
  (exists c, head s = Some c /\ is_blank c = false) /\
  (exists c, last s = Some c /\ is_blank c = false).

Lemma trim_front_id s : (forall c, head s = Some c -> is_blank c = false) -> trim_front s = s.
Proof. destruct s as [|c s]; simpl; [done|]. intros E. by rewrite (E c). Qed.

Lemma head_rev (s : str) : head (rev s) = last s.
Proof.
  induction s as [|c s IH] using rev_ind; [done|]. by rewrite rev_unit, last_snoc.
Qed.

Lemma trim_id s : ends_solid s -> TrimAsciiSpace s = s.
Proof.
  intros [(c & Hc & Bc) (d & Hd & Bd)]. unfold TrimAsciiSpace.
  rewrite (trim_front_id s) by (intros ? E; rewrite Hc in E; by simplify_eq).
  rewrite trim_front_id; [apply rev_involutive|].
  intros e E. rewrite head_rev, Hd in E. by simplify_eq.
Qed.

Lemma trim_space s : TrimAsciiSpace (" "%char :: s) = TrimAsciiSpace s.
Proof. done. Qed.

Lemma trim_front_length s : length (trim_front s) <= length s.
Proof. induction s as [|c s IH]; simpl; [done|]. case_match; simpl; lia. Qed.

Lemma trim_length s : length (TrimAsciiSpace s) <= length s.
Proof.
  unfold TrimAsciiSpace. rewrite length_rev.
  etransitivity; [apply trim_front_length|]. rewrite length_rev. apply trim_front_length.
Qed.

Lemma head_app (s t : str) : s <> [] -> head (s ++ t) = head s.
Proof. by destruct s. Qed.

Lemma last_app_ne (s t : str) : t <> [] -> last (s ++ t) = last t.
Proof.
  intros N. destruct (last t) as [c|] eqn:E; [by apply last_app_Some; left|].
  apply last_None in E. done.
Qed.

Lemma ends_solid_ne s : ends_solid s -> s <> [].
Proof. by intros [(c & Hc & _) _] ->. Qed.

Lemma ends_solid_app s m t : ends_solid s -> ends_solid t -> ends_solid (s ++ m ++ t).
Proof.
  intros Hs Ht. pose proof (ends_solid_ne _ Hs). pose proof (ends_solid_ne _ Ht).
  split.
  - rewrite head_app by done. apply Hs.
  - rewrite !last_app_ne; [apply Ht|done|by destruct m].
Qed.

Lemma ends_solid_join ts :
  ts <> [] -> Forall ends_solid ts -> ends_solid (join_text $", " ts).
Proof.
  intros N F. induction F as [|t ts Ht F IH]; [done|]. destruct ts as [|t' ts]; [done|].
  by apply ends_solid_app; [|apply IH].
Qed.

(** ** Quoted tokens *)

Lemma QuotedRest_escape s r :
  head r <> Some squote -> QuotedRest (EscapeStringLiteralInner s ++ squote :: r) = Some (s, r).
Proof.
  intros N. unfold EscapeStringLiteralInner, double_char. induction s as [|c s IH]; simpl.
  - destruct r as [|d r]; [done|]. by rewrite decide_False by (intros ->; done).
  - case_decide as E; simpl.
    + subst c. rewrite decide_True by done. by rewrite IH.
    + rewrite decide_False by done. by rewrite IH.
Qed.

Lemma ParseQuoted_text s r :
  head r <> Some squote -> ParseQuotedStringToken (quoted_text s ++ r) = Ok (s, r).
Proof.
  intros N. unfold quoted_text. rewrite <- !app_assoc. simpl. by rewrite QuotedRest_escape.
Qed.

Lemma QuotedRest_length s p : QuotedRest s = Some p -> length p.2 < length s.
Proof.
  revert p. induction s as [s IH] using (well_founded_induction (Wf_nat.well_founded_ltof _ (@length ascii))).
  unfold Wf_nat.ltof in IH. destruct s as [|c r]; simpl; intros p E; [done|].
  case_decide; [destruct r as [|d r']; [by simplify_eq/=; lia|case_decide]|].
  - apply fmap_Some in E as (q & Q & ->). apply IH in Q; simpl in *; lia.
  - simplify_eq/=. lia.
  - apply fmap_Some in E as (q & Q & ->). apply IH in Q; simpl in *; lia.
Qed.

Lemma ParseQuoted_length s p : ParseQuotedStringToken s = Ok p -> length p.2 < length s.
Proof.
  destruct s as [|c r]; simpl; [done|]. case_decide; [|done].
  destruct (QuotedRest r) eqn:Q; [|done]. intros [= <-]. apply QuotedRest_length in Q. lia.
Qed.

Lemma ends_solid_quoted s : ends_solid (quoted_text s).
Proof.
  split; exists squote; (split; [|done]); [done|].
  unfold quoted_text. by rewrite app_assoc, last_snoc.
Qed.

(** The first occurrence of a text, when the text before it has none even with
    the occurrence's own beginning. *)
Lemma find_sub_exact n c t r :
  find_sub (n ++ [c]) (t ++ n) = None -> find_sub (n ++ [c]) (t ++ (n ++ [c]) ++ r) = Some (t, r).
Proof.
  intros N. destruct (find_sub (n ++ [c]) (t ++ (n ++ [c]) ++ r)) as [[a b]|] eqn:E.
  - pose proof (find_sub_first _ _ _ _ t r E eq_refl) as L. apply find_sub_Some in E.
    assert (length a = length t) as La.
    { destruct (decide (length a < length t)) as [Hlt|]; [|lia]. exfalso.
      apply find_sub_None in N. apply N.
      assert (t ++ n = take (length t + length n) (a ++ (n ++ [c]) ++ b)) as ->.
      { rewrite <- E, !app_assoc, <- app_assoc. rewrite <- (length_app t n), app_assoc.
        rewrite <- app_assoc. by rewrite take_app_length. }
      exists a, (take (length t - length a - 1) b).
      rewrite take_app_ge by lia. f_equal. rewrite take_app_ge by (rewrite length_app; simpl; lia).
      f_equal. f_equal. rewrite length_app. simpl. lia. }
    apply app_inj_1 in E as [<- E]; [|done]. by apply app_inv_head in E as ->.
  - apply find_sub_None in E. destruct E. eauto.
Qed.

(** ** Lists *)

Section list_laws.
Context `{AbslText, CFloat}.

(** What a bare token stands for, by the element's type. *)
Definition token_value (type : ColumnType) (t : str) (v : Value) : Prop :=
  match type with
  | kBool => t = $"true" /\ v = VBool true \/ t = $"false" /\ v = VBool false
  | kInt64 => exists z, strtoll_all t = Some z /\ v = VInt64 z
  | kFloat64 => exists d, strtod_all t = Some d /\ v = VFloat64 d
  | _ => v = VString t
  end.

(** The texts of one element: NULL, a quoted string, or a bare token without a
    comma that is not mistaken for one of these. *)
Inductive elem_text (element : ColumnSchema) : Value -> str -> Prop :=
| ET_null : elem_text element VNull $"NULL"
| ET_quoted s : elem_text element (VString s) (quoted_text s)
| ET_token v t :
    ends_solid t -> "," %char ∉ t -> head t <> Some squote -> t <> $"NULL" ->
    token_value (col_type element) t v -> elem_text element v t.

Lemma elem_text_solid element v t : elem_text element v t -> ends_solid t.
Proof.
  destruct 1; [|apply ends_solid_quoted|done]. split; [by exists "N"%char|by exists "L"%char].
Qed.

Lemma elem_text_head element v t : elem_text element v t -> head t <> Some ","%char.
Proof.
  destruct 1 as [| |v t S C Q N T]; [done..|]. destruct t as [|c t]; [done|]. simpl.
  intros [= ->]. apply C. by left.
Qed.

Lemma token_not_quoted t r : head t <> Some squote -> t <> [] ->
  bool_decide (head (t ++ r) = Some squote) = false.
Proof. intros. rewrite head_app by done. by apply bool_decide_false. Qed.

Lemma ParseListElementToken_token element v t :
  ends_solid t -> head t <> Some squote -> t <> $"NULL" -> token_value (col_type element) t v ->
  ParseListElementToken t element = Ok v.
Proof.
  intros S Q N T. unfold ParseListElementToken. rewrite trim_id by done.
  rewrite bool_decide_false by (intros [->|?]; [by apply ends_solid_ne in S|done]).
  rewrite bool_decide_false by done. unfold token_value in T.
  destruct (col_type element); subst; try done.
  - destruct T as (z & -> & ->). done.
  - destruct T as (d & -> & ->). done.
  - by destruct T as [[-> ->]|[-> ->]].
Qed.

(** One element in front of a text that is empty or starts the next element. *)
Definition list_rest (more : str) (last_one : bool) : str :=
  if last_one then [] else $", " ++ more.

Definition list_step (body : str) (element : ColumnSchema) : StatusOr (Value * str) :=
  if bool_decide (head body = Some squote) then AppendQuotedListElement body
  else AppendTokenListElement body element.

Lemma bare_token_step element v t last_one more :
  ends_solid t -> "," %char ∉ t -> head t <> Some squote ->
  ParseListElementToken t element = Ok v ->
  list_step (t ++ list_rest more last_one) element =
    Ok (v, if last_one then [] else " "%char :: more).
Proof.
  intros S C Q P. unfold list_step.
  rewrite token_not_quoted by (try done; by apply ends_solid_ne).
  unfold AppendTokenListElement. change ($",") with [","%char].
  destruct last_one; unfold list_rest.
  - rewrite app_nil_r. assert (find_sub [","%char] t = None) as ->.
    { apply find_sub_None. intros (a & b & ->). apply C. set_solver. }
    simpl. by rewrite trim_id, P.
  - rewrite find_sub_skip by done. simpl. by rewrite app_nil_r, trim_id, P.
Qed.

Lemma elem_step element v t last_one more :
  elem_text element v t ->
  exists rest, list_step (t ++ list_rest more last_one) element = Ok (v, rest) /\
    (rest = list_rest more last_one \/ rest = if last_one then [] else " "%char :: more).
Proof.
  intros E. pose proof (elem_text_solid _ _ _ E) as S. destruct E as [|s|v t _ C Q N T].
  - eexists. split; [|by right]. apply bare_token_step; try done. by apply literal_without.
  - eexists. split; [|by left]. unfold list_step.
    rewrite bool_decide_true by done. unfold AppendQuotedListElement.
    by rewrite ParseQuoted_text by (by destruct last_one).
  - eexists. split; [|by right]. apply bare_token_step; try done.
    by apply ParseListElementToken_token.
Qed.

Lemma elem_texts_solid element vs ts :
  Forall2 (elem_text element) vs ts -> Forall ends_solid ts.
Proof. induction 1; constructor; eauto using elem_text_solid. Qed.

Lemma join_texts_head element vs ts :
  Forall2 (elem_text element) vs ts -> head (join_text $", " ts) <> Some ","%char.
Proof.
  destruct 1 as [|v t vs ts E F]; [done|]. pose proof (elem_text_head _ _ _ E).
  pose proof (ends_solid_ne _ (elem_text_solid _ _ _ E)).
  destruct ts; [done|]. cbn [join_text]. by rewrite head_app.
Qed.

(** The loop reads the elements in order; blanks in front do not matter. *)
Lemma DecodeListLoop_texts element vs ts fuel :
  Forall2 (elem_text element) vs ts -> length ts < fuel ->
  DecodeListLoop fuel (join_text $", " ts) element = Ok vs /\
  DecodeListLoop fuel (" "%char :: join_text $", " ts) element = Ok vs.
Proof.
  intros F. revert fuel.
  induction F as [|v t vs ts E F IH]; intros fuel L; (destruct fuel as [|fuel]; [simpl in L; lia|]).
  { done. }
  set (more := join_text $", " ts) in *. set (last_one := bool_decide (ts = [])).
  assert (join_text $", " (t :: ts) = t ++ list_rest more last_one) as Ej.
  { unfold last_one. destruct ts; [by rewrite app_nil_r|done]. }
  assert (ends_solid (join_text $", " (t :: ts))) as Sj.
  { apply ends_solid_join; [done|]. apply (elem_texts_solid element (v :: vs)). by constructor. }
  destruct (elem_step element v t last_one more E) as (rest & Es & Hr).
  assert (DecodeListLoop fuel (drop_comma (TrimAsciiSpace rest)) element = Ok vs) as Hl.
  { simpl in L. destruct (IH fuel ltac:(lia)) as [IH1 IH2]. fold more in IH1, IH2.
    unfold last_one, list_rest in Hr. destruct ts as [|t' ts'] eqn:Ets; simpl in Hr.
    - destruct Hr as [-> | ->]; exact IH1.
    - assert (ends_solid more) as Sm by (apply ends_solid_join; [done|by eapply elem_texts_solid]).
      destruct Hr as [-> | ->].
      + rewrite trim_id; [exact IH2|]. split; [by exists ","%char|].
        change (","%char :: " "%char :: more) with ($", " ++ more).
        rewrite last_app_ne; [apply Sm|by apply ends_solid_ne].
      + rewrite trim_space, trim_id by done.
        pose proof (join_texts_head _ _ _ F) as Hh. fold more in Hh.
        destruct more as [|c more']; [exact IH1|]. simpl. rewrite decide_False; [exact IH1|].
        intros ->. done. }
  cbn [DecodeListLoop]. rewrite trim_space, trim_id by done.
  rewrite bool_decide_false by (by apply ends_solid_ne). rewrite Ej.
  fold (list_step (t ++ list_rest more last_one) element). rewrite Es. simpl. by rewrite Hl.
Qed.

(** Every turn of the loop shortens the text, so more fuel changes nothing. *)
Lemma list_step_shorter element body p : body <> [] ->
  list_step body element = Ok p -> length p.2 < length body.
Proof.
  intros N. unfold list_step, AppendQuotedListElement, AppendTokenListElement.
  case_bool_decide; intros E.
  - inv_ok E. by apply ParseQuoted_length in E0.
  - destruct (find_sub $"," body) as [[a r]|] eqn:F; simpl in E; inv_ok E; simpl.
    + apply find_sub_Some in F as ->. rewrite !length_app.
      assert (length $"," = 1) by done. lia.
    + destruct body; simpl; [done|]. lia.
Qed.

Lemma drop_comma_length s : length (drop_comma s) <= length s.
Proof. destruct s; simpl; [done|]. case_decide; simpl; lia. Qed.

Lemma decode_list_fuel element body f1 f2 : length body < f1 -> length body < f2 ->
  DecodeListLoop f1 body element = DecodeListLoop f2 body element.
Proof.
  revert body f2. induction f1 as [|f1 IH]; intros body [|f2] L1 L2; try lia.
  cbn [DecodeListLoop]. pose proof (trim_length body). case_bool_decide as Hb; [done|].
  fold (list_step (TrimAsciiSpace body) element).
  destruct (list_step _ _) as [p|] eqn:E; simpl; [|done].
  apply list_step_shorter in E; [|done].
  pose proof (trim_length p.2). pose proof (drop_comma_length (TrimAsciiSpace p.2)).
  by rewrite (IH _ f2) by lia.
Qed.

Lemma join_text_length ts : Forall ends_solid ts -> length ts <= length (join_text $", " ts).
Proof.
  induction 1 as [|t ts St _ IH]; [done|]. apply ends_solid_ne in St.
  destruct ts as [|t' ts]; [destruct t; simpl; [done|lia]|].
  change (join_text $", " (t :: t' :: ts)) with (t ++ $", " ++ join_text $", " (t' :: ts)).
  rewrite !length_app. destruct t; simpl in *; [done|lia].
Qed.

Lemma bracketed_text l r inner : is_blank l = false -> is_blank r = false ->
  inner = [] \/ ends_solid inner ->
  TrimAsciiSpace (l :: inner ++ [r]) = l :: inner ++ [r] /\
  bracketed l r (l :: inner ++ [r]) = Some inner.
Proof.
  intros Hl Hr Hi. split.
  - apply trim_id. split; [by exists l|]. exists r. by rewrite app_comm_cons, last_snoc.
  - unfold bracketed. destruct (inner ++ [r]) as [|d rest] eqn:E; [by destruct inner|].
    rewrite <- E, bool_decide_true, removelast_last by (by rewrite last_snoc).
    destruct Hi as [->|Hi]; [done|]. by rewrite trim_id.
Qed.

(** The text form of a list decodes to its elements: NULLs, quoted strings
    of any bytes and bare tokens, in order; and the loop reads every text to its
    end. *)
Theorem list_text_decodes element vs ts (F : Forall2 (elem_text element) vs ts) :
  ParseDuckDBListVarchar ($"[" ++ join_text $", " ts ++ $"]") element = Ok (VArray vs) /\
  (forall fuel body, length body < fuel ->
     DecodeListLoop fuel body element = DecodeListLoop (S (length body)) body element).
Proof.
  split; [|intros fuel body ?; apply decode_list_fuel; lia].
  pose proof (elem_texts_solid _ _ _ F) as Fs. unfold ParseDuckDBListVarchar.
  destruct (bracketed_text "[" "]" (join_text $", " ts)) as [T B]; [done|done| |].
  { destruct ts; [by left|]. right. by apply ends_solid_join. }
  change ($"[" ++ join_text $", " ts ++ $"]") with ("["%char :: join_text $", " ts ++ ["]"%char]).
  rewrite T, B. rewrite bool_decide_false by (intros [?|?]; done).
  pose proof (join_text_length _ Fs).
  destruct (DecodeListLoop_texts element vs ts (S (length (join_text $", " ts))) F) as [-> _]; [lia|].
  done.
Qed.
End list_laws.

(** ** Structs *)

Section struct_laws.
Context `{AbslText, CFloat}.

(** The text of one field value: a quoted text, or a bare one that does not
    begin like a quoted text and does not contain what separates two fields. *)
Inductive field_text (f : ColumnSchema) : Value -> str -> Prop :=
| FT_quoted v s : ParseStructFieldLiteral f s = Ok v -> field_text f v (quoted_text s)
| FT_bare v t :
    ends_solid t -> head t <> Some squote -> find_sub $", '" (t ++ $", ") = None ->
    ParseStructFieldLiteral f t = Ok v -> field_text f v t.

Definition field_piece (f : ColumnSchema) (t : str) : str :=
  quoted_text (col_name f) ++ $": " ++ t.

Lemma field_text_solid f v t : field_text f v t -> ends_solid t.
Proof. by destruct 1; [apply ends_solid_quoted|]. Qed.

Lemma field_piece_solid f v t : field_text f v t -> ends_solid (field_piece f t).
Proof. intros E%field_text_solid. apply ends_solid_app; [apply ends_solid_quoted|done]. Qed.

(** The rest after one field: the end, or the next field's quoted name. *)
Definition next_fields (rest : str) : Prop :=
  rest = [] \/ exists m, rest = $", '" ++ m /\ ends_solid (squote :: m).

Definition after_field (rest left : str) : Prop := left = rest \/ rest = $", " ++ left.

Lemma solid_before t rest : ends_solid t -> next_fields rest -> ends_solid (t ++ rest).
Proof.
  intros S [->|(m & -> & Sm)]; [by rewrite app_nil_r|].
  change (ends_solid (t ++ $", " ++ (squote :: m))). by apply ends_solid_app.
Qed.

Lemma next_field_value f v t rest :
  field_text f v t -> next_fields rest ->
  exists left raw, ParseNextStructField (field_piece f t ++ rest) = Ok (mkPair (col_name f) raw, left) /\
    ParseStructFieldLiteral f raw = Ok v /\ after_field rest left.
Proof.
  intros E N. pose proof (field_text_solid _ _ _ E) as S. pose proof (solid_before _ _ S N) as S2.
  assert (head rest <> Some squote) as Hr by (destruct N as [->|(? & -> & _)]; done).
  unfold ParseNextStructField, field_piece. rewrite bool_decide_false by (intros X; by destruct X).
  rewrite <- !app_assoc, ParseQuoted_text by done. cbn [mbind outcome_bind snd fst].
  rewrite trim_id.
  2:{ split; [by exists ":"%char|]. rewrite last_app_ne; [apply S2|by apply ends_solid_ne]. }
  change ($": " ++ t ++ rest) with (":"%char :: " "%char :: t ++ rest). cbv iota.
  rewrite decide_True by done. cbv zeta. rewrite trim_space, trim_id by done.
  destruct E as [v s P|v t _ Q B P].
  - rewrite bool_decide_true by done. rewrite ParseQuoted_text by done. simpl.
    exists rest, s. split; [done|]. split; [done|by left].
  - rewrite token_not_quoted by (try done; by apply ends_solid_ne).
    destruct N as [->|(m & -> & Sm)].
    + rewrite app_nil_r. assert (find_sub $", '" t = None) as ->.
      { apply find_sub_None. intros (a & b & ->). apply find_sub_None in B. apply B.
        exists a, (b ++ $", "). by rewrite <- !app_assoc. }
      rewrite trim_id by done. exists [], t. split; [done|]. split; [done|by left].
    + pose proof (find_sub_exact $", " squote t m B) as X.
      change (find_sub $", '" (t ++ $", '" ++ m) = Some (t, m)) in X.
      rewrite X, trim_id by done.
      exists (squote :: m), t. split; [done|]. split; [done|by right].
Qed.

Lemma AssignStructFieldValue_at k raw v name decode pre post vpre old vpost :
  name = k -> k ∉ map fst pre -> length pre = length vpre -> decode raw = Ok v ->
  AssignStructFieldValue k raw (pre ++ (name, decode) :: post) (vpre ++ old :: vpost) =
    Ok (vpre ++ v :: vpost).
Proof.
  intros -> N L D. revert vpre L. induction pre as [|[n d] pre IH]; intros [|w vpre] L; simplify_eq/=.
  - rewrite bool_decide_false by naive_solver. by rewrite D.
  - rewrite bool_decide_true by set_solver. rewrite IH by (set_solver || lia). done.
Qed.

Lemma field_pieces_solid fs vs ts :
  Forall3 field_text fs vs ts -> Forall ends_solid (zip_with field_piece fs ts).
Proof. induction 1; simpl; constructor; eauto using field_piece_solid. Qed.

(** The rest of the fields after the first, as a text. *)
Lemma pieces_rest fs vs ts : Forall3 field_text fs vs ts -> fs <> [] ->
  exists m, join_text $", " (zip_with field_piece fs ts) = squote :: m /\ ends_solid (squote :: m).
Proof.
  intros F N. assert (ends_solid (join_text $", " (zip_with field_piece fs ts))) as S.
  { apply ends_solid_join; [by destruct F|by eapply field_pieces_solid]. }
  destruct F as [|f v t fs vs ts _ F]; [done|]. simpl in *.
  destruct (zip_with field_piece fs ts); eexists; split; [reflexivity|exact S|reflexivity|exact S].
Qed.

(** Between two fields the loop skips the comma or has already done so. *)
Lemma skip_separator (fs : list ColumnSchema) more left :
  (fs <> [] -> exists m, more = squote :: m /\ ends_solid (squote :: m)) ->
  after_field (if bool_decide (fs = []) then [] else $", " ++ more) left ->
  more = [] \/ fs <> [] ->
  drop_comma (TrimAsciiSpace left) = more \/ drop_comma (TrimAsciiSpace left) = " "%char :: more.
Proof.
  intros Hm Ha Hn. case_bool_decide as Hfs.
  - destruct Ha as [->|[=]]. destruct Hn as [->|]; [by left|done].
  - destruct (Hm Hfs) as (m & -> & Sm). destruct Ha as [->|E].
    + right. rewrite trim_id; [done|]. split; [by exists ","%char|].
      rewrite last_app_ne by done. apply Sm.
    + apply app_inv_head in E as <-. left. by rewrite trim_id.
Qed.

Lemma DecodeStructLoop_fields fs vs ts : Forall3 field_text fs vs ts ->
  forall pre vpre fuel,
  NoDup (map fst pre ++ map col_name fs) -> length pre = length vpre -> length fs < fuel ->
  let text := join_text $", " (zip_with field_piece fs ts) in
  let decoders := pre ++ map (fun f => (col_name f, ParseStructFieldLiteral f)) fs in
  let fields := vpre ++ replicate (length fs) VNull in
  DecodeStructLoop fuel text decoders fields = Ok (vpre ++ vs) /\
  DecodeStructLoop fuel (" "%char :: text) decoders fields = Ok (vpre ++ vs).
Proof.
  intros F. induction F as [|f v t fs vs ts E F IH]; intros pre vpre fuel ND L Hf;
    (destruct fuel as [|fuel]; [simpl in Hf; lia|]).
  { by rewrite !app_nil_r. }
  cbv zeta. set (more := join_text $", " (zip_with field_piece fs ts)) in *.
  set (rest := if bool_decide (fs = []) then [] else $", " ++ more).
  assert (join_text $", " (zip_with field_piece (f :: fs) (t :: ts)) = field_piece f t ++ rest) as Ej.
  { unfold rest. destruct F; [by rewrite app_nil_r|done]. }
  assert (ends_solid (join_text $", " (zip_with field_piece (f :: fs) (t :: ts)))) as Sj.
  { apply ends_solid_join; [done|]. apply (field_pieces_solid _ (v :: vs)). by constructor. }
  assert (next_fields rest) as Nr.
  { unfold rest. case_bool_decide as Hfs; [by left|]. right.
    destruct (pieces_rest _ _ _ F Hfs) as (m & Em & Sm). exists m. unfold more. by rewrite Em. }
  destruct (next_field_value f v t rest E Nr) as (left & raw & En & Ev & Ha).
  simpl in ND. apply NoDup_app in ND as (ND1 & ND2 & ND3).
  assert (AssignStructFieldValue (col_name f) raw
    (pre ++ map (fun f => (col_name f, ParseStructFieldLiteral f)) (f :: fs))
    (vpre ++ replicate (length (f :: fs)) VNull) = Ok (vpre ++ v :: replicate (length fs) VNull)) as Ea.
  { apply AssignStructFieldValue_at; try done. intros Hin. apply (ND2 _ Hin). by left. }
  assert (DecodeStructLoop fuel (drop_comma (TrimAsciiSpace left))
    (pre ++ map (fun f => (col_name f, ParseStructFieldLiteral f)) (f :: fs))
    (vpre ++ v :: replicate (length fs) VNull) = Ok (vpre ++ v :: vs)) as Hl.
  { simpl in Hf.
    destruct (IH (pre ++ [(col_name f, ParseStructFieldLiteral f)]) (vpre ++ [v]) fuel) as [IH1 IH2].
    - rewrite map_app, <- app_assoc. simpl. apply NoDup_app. auto.
    - rewrite !length_app. simpl. lia.
    - lia.
    - fold more in IH1, IH2. rewrite <- !app_assoc in IH1, IH2. simpl in IH1, IH2. simpl.
      destruct (skip_separator fs more left) as [-> | ->]; [|exact Ha| |exact IH1|exact IH2].
      + intros Hfs. by apply (pieces_rest fs vs ts).
      + destruct F; [by left|by right]. }
  cbn [DecodeStructLoop]. rewrite trim_space, trim_id by done.
  rewrite bool_decide_false by (by apply ends_solid_ne). rewrite Ej, En.
  cbn [mbind outcome_bind fst snd key raw_value]. rewrite Ea. cbn [mbind outcome_bind].
  by rewrite Hl.
Qed.

Lemma pieces_length fs vs ts : Forall3 field_text fs vs ts ->
  length fs <= length (join_text $", " (zip_with field_piece fs ts)).
Proof.
  intros F. pose proof (join_text_length _ (field_pieces_solid _ _ _ F)) as L.
  rewrite length_zip_with in L. pose proof (Forall3_length_lm _ _ _ _ F).
  pose proof (Forall3_length_lr _ _ _ _ F). lia.
Qed.

(** Every turn of the loop shortens the text, so more fuel changes nothing. *)
Lemma next_field_shorter body p : ParseNextStructField body = Ok p -> length p.2 < length body.
Proof.
  unfold ParseNextStructField. case_bool_decide; [done|].
  destruct (ParseQuotedStringToken body) as [k|] eqn:K; simpl; [|done].
  apply ParseQuoted_length in K. pose proof (trim_length k.2) as T.
  destruct (TrimAsciiSpace k.2) as [|c rest]; [done|]. case_decide; [|done]. simpl in T.
  pose proof (trim_length rest) as T2. case_bool_decide; intros E.
  - destruct (ParseQuotedStringToken _) as [v|] eqn:V; simplify_eq/=.
    apply ParseQuoted_length in V. lia.
  - destruct (find_sub _ _) as [[raw r]|] eqn:F; simplify_eq/=; [|lia].
    apply find_sub_Some in F. rewrite F, !length_app in T2.
    assert (length $", '" = 3) by done. lia.
Qed.

Lemma decode_struct_fuel decoders body fields f1 f2 : length body < f1 -> length body < f2 ->
  DecodeStructLoop f1 body decoders fields = DecodeStructLoop f2 body decoders fields.
Proof.
  revert body fields f2. induction f1 as [|f1 IH]; intros body fields [|f2] L1 L2; try lia.
  cbn [DecodeStructLoop]. pose proof (trim_length body). case_bool_decide as Hb; [done|].
  destruct (ParseNextStructField _) as [p|] eqn:E; [|done]. cbn [mbind outcome_bind].
  destruct (AssignStructFieldValue _ _ _ _) as [fields'|]; [|done]. cbn [mbind outcome_bind].
  apply next_field_shorter in E.
  pose proof (trim_length p.2). pose proof (drop_comma_length (TrimAsciiSpace p.2)).
  by apply IH; lia.
Qed.

(** The text form of a struct whose field names differ decodes to its
    fields, each at its position, whatever the bytes of its quoted names and
    values, and the loop reads every text to its end; but a quoted empty text
    decodes to NULL, in a STRING field too. *)
Theorem struct_text_decodes column vs ts
    (F : Forall3 field_text (col_fields column) vs ts)
    (ND : NoDup (map col_name (col_fields column))) :
  ParseDuckDBStructVarchar
    ($"{" ++ join_text $", " (zip_with field_piece (col_fields column) ts) ++ $"}") column =
    Ok (VStruct vs) /\
  (forall f, field_text f VNull (quoted_text [])) /\
  (forall fuel body decoders fields, length body < fuel ->
     DecodeStructLoop fuel body decoders fields =
     DecodeStructLoop (S (length body)) body decoders fields).
Proof.
  split; [|split; [intros f; constructor; by destruct f|intros; apply decode_struct_fuel; lia]].
  set (inner := join_text $", " (zip_with field_piece (col_fields column) ts)).
  unfold ParseDuckDBStructVarchar, DecodeStruct.
  destruct (bracketed_text "{" "}" inner) as [T B]; [done|done| |].
  { pose proof (field_pieces_solid _ _ _ F) as S. unfold inner.
    destruct (zip_with field_piece (col_fields column) ts); [by left|].
    right. by apply ends_solid_join. }
  change ($"{" ++ inner ++ $"}") with ("{"%char :: inner ++ ["}"%char]).
  rewrite T, B. rewrite bool_decide_false by (intros [?|?]; done).
  destruct (DecodeStructLoop_fields _ _ _ F [] [] (S (length inner))) as [E _]; [done|done| |].
  { pose proof (pieces_length _ _ _ F). unfold inner. lia. }
  unfold field_decoders. rewrite length_map. cbn [app] in E. fold inner in E. by rewrite E.
Qed.

(** Text that the struct decoder refuses. *)
Lemma DecodeStruct_unclosed decoders text c :
  ends_solid text -> head text = Some "{"%char -> last text = Some c -> c <> "}"%char ->
  is_ok (DecodeStruct decoders text) = false.
Proof.
  intros S Hh Hl Hc. unfold DecodeStruct. rewrite trim_id by done.
  rewrite bool_decide_false by (intros [-> | ->]; done).
  replace (bracketed "{" "}" text) with (@None str); [done|].
  unfold bracketed. destruct text as [|a [|b r]]; [done|done|].
  rewrite bool_decide_false; [done|]. intros [_ L]. simpl in Hl, L. congruence.
Qed.

Lemma nested_struct_refused column f fs raw rest c :
  col_fields column = f :: fs -> col_type f = kStruct ->
  ends_solid raw -> head raw = Some "{"%char -> last raw = Some c -> c <> "}"%char ->
  find_sub $", '" (raw ++ $", ") = None ->
  is_ok (ParseDuckDBStructVarchar
    ($"{" ++ (quoted_text (col_name f) ++ $": " ++ raw ++ $", '" ++ rest ++ $"}") ++ $"}") column)
    = false.
Proof.
  intros Hf Ht S Hh Hl Hc Hn. set (inner := quoted_text _ ++ _).
  unfold ParseDuckDBStructVarchar, DecodeStruct.
  assert (ends_solid inner) as Si.
  { unfold inner. rewrite !app_assoc. split; [by exists squote|].
    exists "}"%char. split; [by rewrite last_app_ne|done]. }
  destruct (bracketed_text "{" "}" inner) as [T B]; [done|done|by right|].
  change ($"{" ++ inner ++ $"}") with ("{"%char :: inner ++ ["}"%char]).
  rewrite T, B. rewrite bool_decide_false by (intros [?|?]; done).
  cbn [DecodeStructLoop]. rewrite trim_id by done. rewrite bool_decide_false by (by apply ends_solid_ne).
  assert (ends_solid (raw ++ $", '" ++ rest ++ $"}")) as Sr.
  { rewrite (app_assoc $", '"). apply ends_solid_app; [done|]. by split; exists "}"%char. }
  assert (ParseNextStructField inner = Ok (mkPair (col_name f) raw, squote :: rest ++ $"}")) as ->.
  { unfold ParseNextStructField, inner. rewrite bool_decide_false by (intros X; by destruct X).
    rewrite ParseQuoted_text by done. cbn [mbind outcome_bind fst snd].
    rewrite trim_id.
    2:{ split; [by exists ":"%char|]. rewrite last_app_ne; [apply Sr|by apply ends_solid_ne]. }
    change ($": " ++ raw ++ $", '" ++ rest ++ $"}") with
      (":"%char :: " "%char :: raw ++ $", '" ++ rest ++ $"}").
    cbv iota. rewrite decide_True by done. cbv zeta. rewrite trim_space, trim_id by done.
    rewrite token_not_quoted by (by destruct raw; simplify_eq/=).
    pose proof (find_sub_exact $", " squote raw (rest ++ $"}") Hn) as X.
    change (find_sub $", '" (raw ++ $", '" ++ rest ++ $"}") = Some (raw, rest ++ $"}")) in X.
    rewrite X. cbv iota. by rewrite (trim_id raw S). }
  unfold field_decoders. rewrite Hf. cbn [mbind outcome_bind fst snd key raw_value map length replicate].
  cbn [AssignStructFieldValue]. rewrite bool_decide_false by naive_solver.
  destruct f as [fn ft fm fd fr ffs]. simpl in Ht. subst ft. cbn [ParseStructFieldLiteral].
  rewrite (trim_id raw S). rewrite bool_decide_false by (intros [-> | ->]; simplify_eq/=).
  pose proof (DecodeStruct_unclosed (map (fun f => (col_name f, ParseStructFieldLiteral f)) ffs)
    raw c S Hh Hl Hc) as D.
  by destruct (DecodeStruct _ raw).
Qed.

Lemma list_step_strings element body p :
  col_type element = kStruct -> list_step body element = Ok p ->
  p.1 = VNull \/ exists s, p.1 = VString s.
Proof.
  intros T. unfold list_step, AppendQuotedListElement, AppendTokenListElement, ParseListElementToken.
  rewrite T. destruct (default _ _) as [token rest]. intros E.
  case_bool_decide; inv_ok E; [by right; eexists|]. simpl.
  repeat case_bool_decide; inv_ok E0; eauto.
Qed.

(** Structs below the top level are not decoded: a struct field that is
    itself a struct of several fields makes the whole cell an error, because the
    value is cut at the inner comma; and a REPEATED STRUCT column decodes to
    NULLs and strings, never to structs. *)
Theorem nested_structs_not_decoded :
  (forall column f fs inner rest c,
     col_fields column = f :: fs -> col_type f = kStruct ->
     last ("{"%char :: inner) = Some c -> is_blank c = false -> c <> "}"%char ->
     find_sub $", '" ("{"%char :: inner ++ $", ") = None ->
     is_ok (ParseDuckDBStructVarchar
       ($"{" ++ quoted_text (col_name f) ++ $": {" ++ inner ++ $", '" ++ rest ++ $"}}") column)
       = false) /\
  (forall element text vs,
     col_type element = kStruct -> ParseDuckDBListVarchar text element = Ok (VArray vs) ->
     Forall (fun v => v = VNull \/ exists s, v = VString s) vs).
Proof.
  split.
  - intros column f fs inner rest c Hf Ht Hl Hb Hc Hn.
    assert (ends_solid ("{"%char :: inner)) as S by (split; [by exists "{"%char|by exists c]).
    pose proof (nested_struct_refused column f fs ("{"%char :: inner) rest c Hf Ht S eq_refl Hl Hc Hn) as K.
    rewrite <- !app_assoc in K. exact K.
  - intros element text vs Ht E. unfold ParseDuckDBListVarchar in E.
    case_bool_decide; [done|]. destruct (bracketed _ _ _) as [inner|]; [|done]. inv_ok E.
    revert vs E0. generalize (S (length inner)) as fuel. intros fuel. revert inner.
    induction fuel as [|fuel IH]; intros inner vs E; [by simplify_eq/=|].
    cbn [DecodeListLoop] in E. case_bool_decide; [by injection E as <-|].
    fold (list_step (TrimAsciiSpace inner) element) in E. inv_ok E.
    constructor; [|by eapply IH]. by eapply list_step_strings.
Qed.
End struct_laws.

(** ** Witnesses *)

Module Demo.

#[local] Instance demo_cfloat : CFloat := fun _ => None.

Definition tags : ColumnSchema := mkColumn $"tags" kString kNullable [] [] [].
Definition point : ColumnSchema := mkColumn $"p" kStruct kNullable [] []
  [mkColumn $"x" kInt64 kNullable [] [] []; mkColumn $"label" kString kNullable [] [] []].

Lemma list_text_decodes_witness :
  ParseDuckDBListVarchar $"['it''s', NULL, plain]" tags =
    Ok (VArray [VString $"it's"; VNull; VString $"plain"]).
Proof.
  assert (Forall2 (elem_text tags) [VString $"it's"; VNull; VString $"plain"]
            [quoted_text $"it's"; $"NULL"; $"plain"]) as F.
  { constructor; [apply ET_quoted|]. constructor; [apply ET_null|]. constructor; [|constructor].
    apply ET_token; [split; [by exists "p"%char|by exists "n"%char]|by apply literal_without|done|done|done]. }
  exact (proj1 (list_text_decodes tags _ _ F)).
Defined.

Lemma struct_text_decodes_witness :
  ParseDuckDBStructVarchar $"{'x': 7, 'label': 'a, b'}" point =
    Ok (VStruct [VInt64 7; VString $"a, b"]).
Proof.
  assert (Forall3 field_text (col_fields point) [VInt64 7; VString $"a, b"] [$"7"; quoted_text $"a, b"]) as F.
  { constructor; [|constructor; [|constructor]].
    - apply FT_bare; [by split; exists "7"%char|done|done|vm_compute; reflexivity].
    - apply FT_quoted. vm_compute. reflexivity. }
  assert (NoDup (map col_name (col_fields point))) as ND
    by (apply (bool_decide_unpack _); vm_compute; exact I).
  exact (proj1 (struct_text_decodes point _ _ F ND)).
Defined.

(** A nested struct of two fields is refused, and a list of structs falls into
    pieces. *)
Example nested_pieces :
  is_ok (ParseDuckDBStructVarchar $"{'p': {'x': 1, 'label': a}}"
           (mkColumn $"s" kStruct kNullable [] [] [point])) = false /\
  ParseDuckDBListVarchar $"[{'x': 1, 'label': a}]" point =
    Ok (VArray [VString $"{'x': 1"; VString $"label"; VString $": a}"]).
Proof. split; vm_compute; reflexivity. Qed.

End Demo.
