(* ===== verification/StorageWrite.v ===== *)
(** * StorageWrite: the Storage Write service

    Models [frontend/handlers/storage_write.h], [storage_write.cc],
    [storage_write_append_rows.cc], [storage_write_buffered.cc] and
    [storage_write_internal.cc]: the stream table guarded by [mu_], every
    handler of the service and the helpers they call.

    A handler maps the service state (and the wire, for the bidirectional
    [AppendRows]) to the new state and a gRPC result.  The clock is an argument:
    [now] is the string [Rfc3339Now] returns during the call.  Requests and
    responses are never null here.  The store behind [storage_] is any instance
    of the [Storage] class. *)

From S2P Require Import Prelude Absl AbslReference Schema Storage.

(** ** Data *)

(** [v1::WriteStream::Type]; an open proto3 enum may carry other numbers. *)
Inductive WriteStreamType :=
| TYPE_UNSPECIFIED | COMMITTED | PENDING | BUFFERED | TYPE_OTHER (n : Z).

#[export] Instance WriteStreamType_eq_dec : EqDecision WriteStreamType.
Proof. solve_decision. Defined.

Definition type_number (ty : WriteStreamType) : Z :=
  match ty with
  | TYPE_UNSPECIFIED => 0 | COMMITTED => 1 | PENDING => 2 | BUFFERED => 3
  | TYPE_OTHER n => n
  end.

Record StreamState := mkStream {
  table : TableId;
  schema : TableSchema;
  type : WriteStreamType;
  create_time : str;
  committed_rows : Z;
  buffered_rows : list Row;
  flushed_rows : Z;
  finalized : bool;
}.

(** A freshly minted stream: the member initialisers of [StreamState]. *)
Definition fresh_stream (t : TableId) (sch : TableSchema) (ty : WriteStreamType)
    (now : str) : StreamState :=
  mkStream t sch ty now 0 [] 0 false.

Record WriteStream := mkWriteStream {
  ws_name : str;
  ws_type : WriteStreamType;
  ws_schema : TableSchemaProto;
  ws_create_time : str;
}.

Record CreateWriteStreamRequest := mkCreate {
  cr_parent : str;
  cr_write_stream : option WriteStream;
}.

Record AppendRowsRequest := mkAppendReq {
  write_stream : str;
  proto_rows : list (list Cell);
  trace_id : str;
}.

(** The [response] oneof of [AppendRowsResponse]. *)
Inductive AppendBody :=
| response_not_set
| append_result (off : Z)
| error_message (m : str).

Record AppendRowsResponse := mkAppendResp {
  response : AppendBody;
  resp_trace_id : str;
  row_count : Z;
}.

(** The server side of the bidirectional stream: the responses written so far
    and how many more writes succeed before the client is gone. *)
Record Wire := mkWire { accepts : nat; written : list AppendRowsResponse }.

(** The service.  [storage_null] says that the pointer [storage_] is null; the
    store is what it points to otherwise. *)
Record StorageWriteService (S : Type) := mkService {
  storage_null : bool;
  storage_ : S;
  next_stream_id_ : Z;
  streams_ : gmap str StreamState;
}.
Arguments mkService {S}.
Arguments storage_null {S}.
Arguments storage_ {S}.
Arguments next_stream_id_ {S}.
Arguments streams_ {S}.

Definition set_storage {S} (svc : StorageWriteService S) (s : S) : StorageWriteService S :=
  mkService (storage_null svc) s (next_stream_id_ svc) (streams_ svc).

Definition set_stream {S} (svc : StorageWriteService S) (name : str) (st : StreamState)
    : StorageWriteService S :=
  mkService (storage_null svc) (storage_ svc) (next_stream_id_ svc)
    (<[name := st]> (streams_ svc)).

Definition invalid_argument {A} (m : str) : Grpc A := Err (mkGrpc INVALID_ARGUMENT m).
Definition not_found {A} (m : str) : Grpc A := Err (mkGrpc NOT_FOUND m).
Definition failed_precondition {A} (m : str) : Grpc A := Err (mkGrpc FAILED_PRECONDITION m).
Definition internal {A} (m : str) : Grpc A := Err (mkGrpc INTERNAL m).

Section names.
Context `{AbslText}.

(** ** Names *)

Definition SplitTablePath (path : str) : option TableId :=
  match StrSplit path "/" with
  | [p0; p1; p2; p3; p4; p5] =>
      if bool_decide (p0 = $"projects") && bool_decide (p2 = $"datasets") &&
         bool_decide (p4 = $"tables") && negb (bool_decide (p1 = [])) &&
         negb (bool_decide (p3 = [])) && negb (bool_decide (p5 = []))
      then Some (mkTableId p1 p3 p5) else None
  | _ => None
  end.

Definition TablePathFor (id : TableId) : str :=
  $"projects/" ++ project_id id ++ $"/datasets/" ++ dataset_id id ++
  $"/tables/" ++ table_id id.

Definition ParseTableParent (parent : str) : Grpc TableId :=
  if bool_decide (parent = [])
  then invalid_argument $"StorageWrite.CreateWriteStream: parent is required (expected form projects/{p}/datasets/{d}/tables/{t})"
  else match SplitTablePath parent with
       | None => invalid_argument ($"StorageWrite.CreateWriteStream: malformed parent (expected form projects/{p}/datasets/{d}/tables/{t}): " ++ parent)
       | Some out => Ok out
       end.

Definition kSep : str := $"/streams/".

Definition ParseStreamName (name : str) : Grpc (TableId * str) :=
  if bool_decide (name = [])
  then invalid_argument $"StorageWrite: write_stream is required"
  else match find_sub kSep name with
       | None => invalid_argument ($"StorageWrite: malformed write_stream name (expected form projects/{p}/datasets/{d}/tables/{t}/streams/{id}): " ++ name)
       | Some (table_prefix, stream_id) =>
           match SplitTablePath table_prefix with
           | None => invalid_argument ($"StorageWrite: malformed table prefix on write_stream name (expected projects/{p}/datasets/{d}/tables/{t} before /streams/): " ++ name)
           | Some t =>
               if bool_decide (stream_id = [])
               then invalid_argument ($"StorageWrite: empty stream id in write_stream name: " ++ name)
               else Ok (t, stream_id)
           end
       end.

Definition NewStreamId {S} (svc : StorageWriteService S) (table_path : str)
    : StorageWriteService S * str :=
  let id := next_stream_id_ svc in
  (mkService (storage_null svc) (storage_ svc) (id + 1) (streams_ svc),
   table_path ++ $"/streams/s" ++ StrInt id).
End names.

Section handlers.
Context `{AbslText} {S : Type} `{Storage S}.
Implicit Types (svc : StorageWriteService S).

(** [std::map::emplace] keeps an existing entry. *)
Definition emplace_stream svc (name : str) (st : StreamState) : StorageWriteService S :=
  match streams_ svc !! name with
  | Some _ => svc
  | None => set_stream svc name st
  end.

(** ** CreateWriteStream *)

Definition requested_type (req : CreateWriteStreamRequest) : WriteStreamType :=
  match cr_write_stream req with
  | Some ws => match ws_type ws with TYPE_UNSPECIFIED => COMMITTED | ty => ty end
  | None => COMMITTED
  end.

Definition CreateWriteStream (now : str) svc (req : CreateWriteStreamRequest)
    : StorageWriteService S * Grpc WriteStream :=
  if storage_null svc
  then (svc, internal $"StorageWrite.CreateWriteStream: storage backend is not configured")
  else match ParseTableParent (cr_parent req) with
  | Err e => (svc, Err e)
  | Ok tid =>
      let requested := requested_type req in
      if negb (bool_decide (requested = COMMITTED)) &&
         negb (bool_decide (requested = BUFFERED)) &&
         negb (bool_decide (requested = PENDING))
      then (svc, invalid_argument ($"StorageWrite.CreateWriteStream: unknown stream type " ++ StrInt (type_number requested)))
      else match GetSchema (storage_ svc) tid with
      | Err e => (svc, Err (AbslToGrpcStatus e))
      | Ok sch =>
          let '(svc, stream_name) := NewStreamId svc (TablePathFor tid) in
          (emplace_stream svc stream_name (fresh_stream tid sch requested now),
           Ok (mkWriteStream stream_name requested (TableSchemaToProto sch) now))
      end
  end.

Definition EnsureDefaultStream (now : str) svc (stream_name : str) (t : TableId)
    : StorageWriteService S * Grpc unit :=
  match GetSchema (storage_ svc) t with
  | Err e => (svc, Err (AbslToGrpcStatus e))
  | Ok sch => (emplace_stream svc stream_name (fresh_stream t sch COMMITTED now), Ok ())
  end.

Definition GetWriteStream svc (name : str) : Grpc WriteStream :=
  match streams_ svc !! name with
  | None => not_found ($"StorageWrite.GetWriteStream: no such stream: " ++ name)
  | Some st => Ok (mkWriteStream name (type st) (TableSchemaToProto (schema st)) (create_time st))
  end.

(** ** AppendRows *)

Record DecodedAppendBatch := mkBatch {
  shape_error : option str;
  batch_rows : list Row;
}.

(** The decoding loop from row number [r] on, [out] holding the rows so far. *)
Fixpoint DecodeRowsFrom (ncols : nat) (r : Z) (rows_in : list (list Cell)) (out : list Row)
    : DecodedAppendBatch :=
  match rows_in with
  | [] => mkBatch None out
  | src :: rows_in =>
      if bool_decide (length src = ncols)
      then DecodeRowsFrom ncols (r + 1) rows_in (out ++ [mkRow (map CellToValue src)])
      else mkBatch (Some ($"AppendRows: row " ++ StrInt r ++ $" has " ++
                          StrInt (Z.of_nat (length src)) ++
                          $" cell(s) but the stream's table has " ++ StrInt (Z.of_nat ncols) ++
                          $" top-level column(s)")) out
  end.

Definition DecodeAppendRowBatch (req : AppendRowsRequest) (sch : TableSchema)
    : DecodedAppendBatch :=
  DecodeRowsFrom (length (columns sch)) 0 (proto_rows req) [].

(** The stream a call is bound to: its name (empty before the first message)
    and the table parsed from it. *)
Definition BindWriteStreamFromRequest (now : str) svc (req : AppendRowsRequest)
    (bound : str * TableId) : StorageWriteService S * Grpc (str * TableId) :=
  let name := write_stream req in
  if bool_decide (name = [])
  then if bool_decide (bound.1 = [])
       then (svc, invalid_argument $"StorageWrite.AppendRows: first message must set write_stream")
       else (svc, Ok bound)
  else match ParseStreamName name with
  | Err e => (svc, Err e)
  | Ok (t, stream_id) =>
      if negb (bool_decide (bound.1 = [])) && negb (bool_decide (bound.1 = name))
      then (svc, invalid_argument ($"StorageWrite.AppendRows: cannot rebind stream mid-call (first message: " ++ bound.1 ++ $", later message: " ++ name ++ $")"))
      else if bool_decide (stream_id = $"_default")
      then match EnsureDefaultStream now svc name t with
           | (svc, Err e) => (svc, Err e)
           | (svc, Ok _) => (svc, Ok (name, t))
           end
      else (svc, Ok (name, t))
  end.

Definition WriteAppendResponse (w : Wire) (resp : AppendRowsResponse) : Wire * Grpc unit :=
  match accepts w with
  | O => (w, Err (mkGrpc ABORTED $"StorageWrite.AppendRows: client cancelled mid-stream"))
  | Datatypes.S k => (mkWire k (written w ++ [resp]), Ok ())
  end.

Record StreamSessionSnapshot := mkSnapshot {
  snap_table : TableId;
  snap_schema : TableSchema;
  snap_type : WriteStreamType;
}.

Definition LoadStreamSessionForAppend svc (name : str) : Grpc StreamSessionSnapshot :=
  match streams_ svc !! name with
  | None => not_found ($"StorageWrite.AppendRows: no such stream (call CreateWriteStream first or use the reserved _default suffix): " ++ name)
  | Some st =>
      if finalized st
      then failed_precondition ($"StorageWrite.AppendRows: stream is finalized: " ++ name)
      else Ok (mkSnapshot (table st) (schema st) (type st))
  end.

(** [committed_rows] advanced by [n], the buffer extended by [rows]. *)
Definition advance (st : StreamState) (n : Z) (rows : list Row) : StreamState :=
  mkStream (table st) (schema st) (type st) (create_time st) (committed_rows st + n)
    (buffered_rows st ++ rows) (flushed_rows st) (finalized st).

Definition CommitBufferedAppendRows svc (name : str) (rows : list Row)
    : StorageWriteService S * Grpc Z :=
  match streams_ svc !! name with
  | None => (svc, not_found ($"StorageWrite.AppendRows: no such stream: " ++ name))
  | Some st =>
      (set_stream svc name (advance st (Z.of_nat (length rows)) rows), Ok (committed_rows st))
  end.

(** The append itself, with the error message to put on the response when the
    store rejects the batch recoverably; otherwise the prior offset. *)
Definition CommitImmediateAppendRows svc (name : str) (t : TableId) (rows : list Row)
    (prior_offset : Z) : StorageWriteService S * Grpc (str + Z) :=
  let '(s, append_status) :=
    match rows with
    | [] => (storage_ svc, Ok ())
    | _ => Storage.AppendRows (storage_ svc) t rows
    end in
  let svc := set_storage svc s in
  match append_status with
  | Err e =>
      if bool_decide (code e = kInvalidArgument) || bool_decide (code e = kFailedPrecondition)
      then (svc, Ok (inl (message e)))
      else (svc, Err (AbslToGrpcStatus e))
  | Ok _ =>
      match streams_ svc !! name with
      | Some st =>
          (set_stream svc name (advance st (Z.of_nat (length rows)) []),
           Ok (inr (committed_rows st)))
      | None => (svc, Ok (inr prior_offset))
      end
  end.

(** A reply with a body: the write can fail when the client has gone. *)
Definition reply (svc : StorageWriteService S) (w : Wire) (resp : AppendRowsResponse)
    : StorageWriteService S * Wire * Grpc unit :=
  let '(w, r) := WriteAppendResponse w resp in (svc, w, r).

Definition ProcessAppendRowsRequest svc (w : Wire) (req : AppendRowsRequest) (name : str)
    : StorageWriteService S * Wire * Grpc unit :=
  let trace := trace_id req in
  match LoadStreamSessionForAppend svc name with
  | Err e => (svc, w, Err e)
  | Ok session =>
      let batch := DecodeAppendRowBatch req (snap_schema session) in
      match shape_error batch with
      | Some detail => reply svc w (mkAppendResp (error_message detail) trace 0)
      | None =>
          let rows := batch_rows batch in
          let n := Z.of_nat (length rows) in
          match snap_type session with
          | BUFFERED | PENDING =>
              match CommitBufferedAppendRows svc name rows with
              | (svc, Err e) => (svc, w, Err e)
              | (svc, Ok prior) => reply svc w (mkAppendResp (append_result prior) trace n)
              end
          | _ =>
              match CommitImmediateAppendRows svc name (snap_table session) rows 0 with
              | (svc, Err e) => (svc, w, Err e)
              | (svc, Ok (inl m)) => reply svc w (mkAppendResp (error_message m) trace 0)
              | (svc, Ok (inr prior)) => reply svc w (mkAppendResp (append_result prior) trace n)
              end
          end
      end
  end.

(** The read loop over the requests still to come. *)
Fixpoint AppendRowsLoop (now : str) svc (w : Wire) (bound : str * TableId)
    (reqs : list AppendRowsRequest) : StorageWriteService S * Wire * Grpc unit :=
  match reqs with
  | [] => (svc, w, Ok ())
  | req :: reqs =>
      match BindWriteStreamFromRequest now svc req bound with
      | (svc, Err e) => (svc, w, Err e)
      | (svc, Ok bound) =>
          match ProcessAppendRowsRequest svc w req bound.1 with
          | (svc, w, Err e) => (svc, w, Err e)
          | (svc, w, Ok _) => AppendRowsLoop now svc w bound reqs
          end
      end
  end.

Definition AppendRows (now : str) svc (w : Wire) (reqs : list AppendRowsRequest)
    : StorageWriteService S * Wire * Grpc unit :=
  if storage_null svc
  then (svc, w, internal $"StorageWrite.AppendRows: storage backend is not configured")
  else AppendRowsLoop now svc w ([], mkTableId [] [] []) reqs.

(** ** FlushRows and FinalizeWriteStream *)

Definition set_flushed (st : StreamState) (n : Z) : StreamState :=
  mkStream (table st) (schema st) (type st) (create_time st) (committed_rows st)
    (buffered_rows st) n (finalized st).

(** Given the stream's state, the new store and the stream's new state. *)
Definition CommitBufferedPrefix (s : S) (st : StreamState) (off : Z)
    : S * StreamState * Grpc unit :=
  if negb (bool_decide (type st = BUFFERED))
  then (s, st, failed_precondition $"StorageWrite.FlushRows: FlushRows is only valid for BUFFERED streams")
  else if finalized st
  then (s, st, failed_precondition $"StorageWrite.FlushRows: stream is finalized")
  else
    let buffered_count := Z.of_nat (length (buffered_rows st)) in
    if (off <? 0)%Z || (buffered_count <=? off)%Z
    then (s, st, invalid_argument ($"StorageWrite.FlushRows: offset " ++ StrInt off ++ $" is out of range for " ++ StrInt buffered_count ++ $" buffered row(s)"))
    else if (off <? flushed_rows st - 1)%Z
    then (s, st, invalid_argument ($"StorageWrite.FlushRows: offset " ++ StrInt off ++ $" must not precede the prior flush cursor " ++ StrInt (flushed_rows st)))
    else
      let start := flushed_rows st in
      let stop := (off + 1)%Z in
      if (stop <=? start)%Z then (s, st, Ok ())
      else
        let batch := take (Z.to_nat (stop - start)) (drop (Z.to_nat start) (buffered_rows st)) in
        match Storage.AppendRows s (table st) batch with
        | (s, Err e) => (s, st, Err (AbslToGrpcStatus e))
        | (s, Ok _) => (s, set_flushed st stop, Ok ())
        end.

Definition FlushRows svc (name : str) (flush_offset : Z)
    : StorageWriteService S * Grpc Z :=
  if storage_null svc
  then (svc, internal $"StorageWrite.FlushRows: storage backend is not configured")
  else if bool_decide (name = [])
  then (svc, invalid_argument $"StorageWrite.FlushRows: write_stream is required")
  else match ParseStreamName name with
  | Err e => (svc, Err e)
  | Ok _ =>
      match streams_ svc !! name with
      | None => (svc, not_found ($"StorageWrite.FlushRows: no such stream: " ++ name))
      | Some st =>
          let '(s, st, commit) := CommitBufferedPrefix (storage_ svc) st flush_offset in
          let svc := set_stream (set_storage svc s) name st in
          match commit with
          | Err e => (svc, Err e)
          | Ok _ => (svc, Ok flush_offset)
          end
      end
  end.

Definition set_finalized (st : StreamState) : StreamState :=
  mkStream (table st) (schema st) (type st) (create_time st) (committed_rows st)
    (buffered_rows st) (flushed_rows st) true.

(** The row count a finalized stream reports. *)
Definition finalize_count (st : StreamState) : Z :=
  match type st with
  | BUFFERED => flushed_rows st
  | PENDING => Z.of_nat (length (buffered_rows st))
  | _ => committed_rows st
  end.

Definition FinalizeWriteStream svc (name : str) : StorageWriteService S * Grpc Z :=
  if bool_decide (name = [])
  then (svc, invalid_argument $"StorageWrite.FinalizeWriteStream: name is required")
  else match ParseStreamName name with
  | Err e => (svc, Err e)
  | Ok _ =>
      match streams_ svc !! name with
      | None => (svc, not_found ($"StorageWrite.FinalizeWriteStream: no such stream: " ++ name))
      | Some st =>
          if finalized st
          then (svc, failed_precondition ($"StorageWrite.FinalizeWriteStream: stream already finalized: " ++ name))
          else (set_stream svc name (set_finalized st), Ok (finalize_count st))
      end
  end.

(** ** BatchCommitWriteStreams *)

(** The commits gathered under the lock, in request order. *)
Fixpoint PendingCommits (streams : gmap str StreamState) (parent : option TableId)
    (names : list str) : Grpc (list (TableId * list Row)) :=
  match names with
  | [] => Ok []
  | name :: names =>
      match streams !! name with
      | None => not_found ($"StorageWrite.BatchCommitWriteStreams: no such stream: " ++ name)
      | Some st =>
          if negb (bool_decide (type st = PENDING))
          then invalid_argument ($"StorageWrite.BatchCommitWriteStreams: stream is not PENDING: " ++ name)
          else if negb (finalized st)
          then failed_precondition ($"StorageWrite.BatchCommitWriteStreams: stream is not finalized: " ++ name)
          else if match parent with
                  | Some p => negb (bool_decide (table st = p))
                  | None => false
                  end
          then invalid_argument ($"StorageWrite.BatchCommitWriteStreams: stream does not belong to parent table: " ++ name)
          else rest ← PendingCommits streams parent names;
               Ok ((table st, buffered_rows st) :: rest)
      end
  end.

Fixpoint ApplyCommits (s : S) (commits : list (TableId * list Row)) : S * StatusOr unit :=
  match commits with
  | [] => (s, Ok ())
  | (t, []) :: commits => ApplyCommits s commits
  | (t, rows) :: commits =>
      match Storage.AppendRows s t rows with
      | (s, Err e) => (s, Err e)
      | (s, Ok _) => ApplyCommits s commits
      end
  end.

Definition BatchCommitWriteStreams (now : str) svc (parent : str) (names : list str)
    : StorageWriteService S * Grpc str :=
  if storage_null svc
  then (svc, internal $"StorageWrite.BatchCommitWriteStreams: storage backend is not configured")
  else match names with
  | [] => (svc, invalid_argument $"StorageWrite.BatchCommitWriteStreams: write_streams is required")
  | _ =>
      match (if bool_decide (parent = []) then Ok None else Some <$> ParseTableParent parent) with
      | Err e => (svc, Err e)
      | Ok parent_table =>
          match PendingCommits (streams_ svc) parent_table names with
          | Err e => (svc, Err e)
          | Ok commits =>
              let '(s, r) := ApplyCommits (storage_ svc) commits in
              (set_storage svc s,
               match r with Ok _ => Ok now | Err e => Err (AbslToGrpcStatus e) end)
          end
      end
  end.

Definition StreamsForTesting svc : nat := size (streams_ svc).

End handlers.

(** ** Stream names *)

Section name_laws.
Context `{AbslTextLaws}.

(** A path component: something between two slashes. *)
Definition component (p : str) : Prop := p <> [] /\ "/"%char ∉ p.
Definition valid_table (t : TableId) : Prop :=
  component (project_id t) /\ component (dataset_id t) /\ component (table_id t).

Definition path_pieces (t : TableId) : list str :=
  [$"projects"; project_id t; $"datasets"; dataset_id t; $"tables"; table_id t].

Lemma TablePathFor_join t : TablePathFor t = join "/" (path_pieces t).
Proof. done. Qed.

Lemma literal_no_slash (l : str) : forallb (fun c => negb (Ascii.eqb c "/")) l = true -> "/"%char ∉ l.
Proof. apply literal_without. Qed.

Lemma path_pieces_no_slash t : valid_table t -> Forall (fun p => "/"%char ∉ p) (path_pieces t).
Proof.
  intros ((_ & ?) & (_ & ?) & (_ & ?)).
  repeat constructor; auto; by apply literal_no_slash.
Qed.

Lemma SplitTablePath_Some path t :
  SplitTablePath path = Some t <-> path = TablePathFor t /\ valid_table t.
Proof.
  split.
  - unfold SplitTablePath. intros E.
    pose proof (StrSplit_join path "/"). pose proof (StrSplit_pieces path "/") as F.
    destruct (StrSplit path "/") as [|p0 [|p1 [|p2 [|p3 [|p4 [|p5 [|]]]]]]]; try done.
    case_match eqn:C; simplify_eq. bool_to_prop. subst.
    rewrite !Forall_cons in F. destruct F as (_ & ? & _ & ? & _ & ? & _). done.
  - intros [-> V]. unfold SplitTablePath.
    rewrite TablePathFor_join, StrSplit_of_join by (done || by apply path_pieces_no_slash).
    destruct V as ((? & _) & (? & _) & (? & _)), t as [p d tb].
    cbn [path_pieces project_id dataset_id table_id] in *.
    by repeat case_bool_decide.
Qed.

(** Splitting at the first [/streams/] walks over the components of a path. *)
Lemma find_sep_skip p r :
  "/"%char ∉ p -> find_sub kSep (p ++ r) = (fun ab => (p ++ ab.1, ab.2)) <$> find_sub kSep r.
Proof. apply find_sub_skip. Qed.

Lemma find_sep_component q r :
  "/"%char ∉ q -> q <> $"streams" ->
  find_sub kSep ("/"%char :: q ++ "/"%char :: r) =
  (fun ab => ("/"%char :: q ++ ab.1, ab.2)) <$> find_sub kSep ("/"%char :: r).
Proof.
  intros Hq Hne.
  assert (strip_prefix kSep ("/"%char :: q ++ "/"%char :: r) = None) as E.
  { apply strip_prefix_None. intros [r' E]. apply Hne.
    apply (app_sep_inj "/" q ($"streams") r r'); [done|by apply literal_no_slash|].
    change (kSep ++ r') with ("/"%char :: $"streams" ++ "/"%char :: r') in E.
    by apply (f_equal tail) in E. }
  pose proof (find_sep_skip q ("/"%char :: r) Hq) as K.
  transitivity (match find_sub kSep (q ++ "/"%char :: r) with
                | Some (a, b) => Some ("/"%char :: a, b) | None => None end).
  - cbn [find_sub]. by rewrite E.
  - rewrite K. by destruct (find_sub kSep ("/"%char :: r)) as [[]|].
Qed.

Lemma find_sep_join p ps r :
  "/"%char ∉ p -> Forall (fun q => ("/"%char ∉ q) /\ q <> $"streams") ps ->
  find_sub kSep (join "/" (p :: ps) ++ kSep ++ r) = Some (join "/" (p :: ps), r).
Proof.
  revert p. induction ps as [|q ps IH]; intros p Hp F.
  - change (join "/" [p]) with p. rewrite find_sep_skip, find_sub_here by done.
    simpl. by rewrite app_nil_r.
  - inversion F as [|? ? [Hq Hs] F']; subst. rewrite join_cons by done.
    specialize (IH q Hq F').
    rewrite <- app_assoc, find_sep_skip by done.
    change (("/"%char :: join "/" (q :: ps)) ++ kSep ++ r)
      with ("/"%char :: (join "/" (q :: ps) ++ kSep ++ r)).
    assert (exists r0, join "/" (q :: ps) ++ kSep ++ r = q ++ "/"%char :: r0) as [r0 Er].
    { destruct ps as [|q' ps]; [by eexists|].
      rewrite join_cons by done. eexists. by rewrite <- app_assoc. }
    rewrite Er in IH |- *. rewrite find_sep_component by done.
    rewrite find_sep_skip in IH by done.
    destruct (find_sub kSep ("/"%char :: r0)) as [[a b]|]; simplify_eq/=. congruence.
Qed.

(** The same name with a component called [streams] splits too early. *)
Lemma find_sep_early p ps qs r :
  "/"%char ∉ p -> Forall (fun q => ("/"%char ∉ q) /\ q <> $"streams") ps ->
  exists b, find_sub kSep (join "/" ((p :: ps) ++ $"streams" :: qs) ++ kSep ++ r) =
            Some (join "/" (p :: ps), b).
Proof.
  intros Hp F.
  assert (exists r', join "/" ((p :: ps) ++ $"streams" :: qs) ++ kSep ++ r =
                     join "/" (p :: ps) ++ kSep ++ r') as [r' ->].
  { clear F Hp. revert p. induction ps as [|q ps IH]; intros p.
    - simpl app at 2. destruct qs as [|q qs].
      + exists ($"streams/" ++ r). rewrite join_cons by done.
        rewrite <- !app_assoc. done.
      + exists (join "/" (q :: qs) ++ kSep ++ r).
        rewrite !join_cons by done. rewrite <- !app_assoc. done.
    - destruct (IH q) as [r' E]. exists r'.
      change ((p :: q :: ps) ++ $"streams" :: qs) with (p :: ((q :: ps) ++ $"streams" :: qs)).
      rewrite (join_cons _ p) by done. rewrite (join_cons _ p (q :: ps)) by done.
      rewrite <- !app_assoc. f_equal. cbn [app]. f_equal. exact E. }
  eexists. by apply find_sep_join.
Qed.

Lemma ParseStreamName_Ok name t id :
  ParseStreamName name = Ok (t, id) -> name = TablePathFor t ++ kSep ++ id /\ valid_table t /\ id <> [].
Proof.
  unfold ParseStreamName. intros E. case_bool_decide; [done|].
  destruct (find_sub kSep name) as [[pre sid]|] eqn:F; [|done].
  destruct (SplitTablePath pre) as [t'|] eqn:G; [|done].
  case_bool_decide; simplify_eq/=. apply find_sub_Some in F.
  apply SplitTablePath_Some in G as [-> V]. auto.
Qed.
End name_laws.

(** ** The stream table as a state machine

    The abstract machine the handlers are proved to run ([run_steps]).  The
    handlers take [mu_] several times per call, and one step is one of these
    critical sections: [step_buffer] and [step_store] do not ask whether the stream
    is finalized, since the check is made by an earlier section
    ([LoadStreamSessionForAppend]).  [step_store] is coarser than the code in one
    way: [CommitImmediateAppendRows] appends to the store without the lock and
    takes it for the cursor only, and the step does both at once.  The theorems on
    calls therefore speak of calls one after the other. *)

Inductive label :=
| LTau
| LMint (name : str)
| LBuffer (name : str) (rows : list Row)
| LStore (name : str) (t : TableId) (rows : list Row)
| LFlush (name : str) (t : TableId) (rows : list Row)
| LFinalize (name : str)
| LBatch (name : str) (t : TableId) (rows : list Row).

(** Rows a label delivers to a table. *)
Definition delivered (t : TableId) (l : label) : list Row :=
  match l with
  | LStore _ u rows | LFlush _ u rows | LBatch _ u rows =>
      if decide (u = t) then rows else []
  | _ => []
  end.

(** Rows a label adds to the buffer of a stream, and flushes from it. *)
Definition buffered_by (name : str) (l : label) : list Row :=
  match l with LBuffer n rows => if decide (n = name) then rows else [] | _ => [] end.
Definition flushed_by (name : str) (l : label) : list Row :=
  match l with LFlush n _ rows => if decide (n = name) then rows else [] | _ => [] end.

Section machine.
Context `{AbslText} {S : Type} `{Storage S}.
Implicit Types (svc : StorageWriteService S).

(** An append the store accepts; an empty batch is not sent to it. *)
Definition store_append (s : S) (t : TableId) (rows : list Row) (s' : S) : Prop :=
  (rows = [] /\ s' = s) \/ Storage.AppendRows s t rows = (s', Ok ()).

(** The names a stream of table [t] can be minted under when the counter is
    [next], and the counter afterwards. *)
Inductive mints (t : TableId) (next : Z) : str -> Z -> Prop :=
| mints_numbered :
    valid_table t -> mints t next (TablePathFor t ++ $"/streams/s" ++ StrInt next) (next + 1)
| mints_default name :
    ParseStreamName name = Ok (t, $"_default") -> mints t next name next.

Inductive step : StorageWriteService S -> label -> StorageWriteService S -> Prop :=
| step_store_error svc t rows s' e :
    Storage.AppendRows (storage_ svc) t rows = (s', Err e) ->
    step svc LTau (set_storage svc s')
| step_mint svc name t sch ty now next' :
    streams_ svc !! name = None -> mints t (next_stream_id_ svc) name next' ->
    ty = COMMITTED \/ ty = BUFFERED \/ ty = PENDING ->
    step svc (LMint name)
      (mkService (storage_null svc) (storage_ svc) next'
         (<[name := fresh_stream t sch ty now]> (streams_ svc)))
| step_buffer svc name st rows :
    streams_ svc !! name = Some st -> type st = BUFFERED \/ type st = PENDING ->
    step svc (LBuffer name rows)
      (set_stream svc name (advance st (Z.of_nat (length rows)) rows))
| step_store svc name st rows s' :
    streams_ svc !! name = Some st -> type st <> BUFFERED -> type st <> PENDING ->
    store_append (storage_ svc) (table st) rows s' ->
    step svc (LStore name (table st) rows)
      (set_stream (set_storage svc s') name (advance st (Z.of_nat (length rows)) []))
| step_flush svc name st stop s' rows :
    streams_ svc !! name = Some st -> type st = BUFFERED -> finalized st = false ->
    (flushed_rows st < stop <= Z.of_nat (length (buffered_rows st)))%Z ->
    rows = take (Z.to_nat (stop - flushed_rows st))
             (drop (Z.to_nat (flushed_rows st)) (buffered_rows st)) ->
    Storage.AppendRows (storage_ svc) (table st) rows = (s', Ok ()) ->
    step svc (LFlush name (table st) rows)
      (set_stream (set_storage svc s') name (set_flushed st stop))
| step_finalize svc name st :
    streams_ svc !! name = Some st -> finalized st = false ->
    step svc (LFinalize name) (set_stream svc name (set_finalized st))
| step_batch svc name st rows s' :
    streams_ svc !! name = Some st -> type st = PENDING -> finalized st = true ->
    rows `prefix_of` buffered_rows st ->
    store_append (storage_ svc) (table st) rows s' ->
    step svc (LBatch name (table st) rows) (set_storage svc s').

Inductive steps : StorageWriteService S -> list label -> StorageWriteService S -> Prop :=
| steps_refl svc : steps svc [] svc
| steps_snoc svc ls svc' l svc'' :
    steps svc ls svc' -> step svc' l svc'' -> steps svc (ls ++ [l]) svc''.

Lemma steps_one svc l svc' : step svc l svc' -> steps svc [l] svc'.
Proof. intros. by apply (steps_snoc svc [] svc l svc' (steps_refl svc)). Qed.

Lemma steps_trans svc ls svc' ls' svc'' :
  steps svc ls svc' -> steps svc' ls' svc'' -> steps svc (ls ++ ls') svc''.
Proof.
  intros S1 S2. revert ls S1. induction S2 as [|a ls' b l c S2 IH S3]; intros ls S1.
  - by rewrite app_nil_r.
  - rewrite app_assoc. eapply steps_snoc; eauto.
Qed.

(** *** The stream invariant *)

Definition stream_inv (st : StreamState) : Prop :=
  let n := Z.of_nat (length (buffered_rows st)) in
  (0 <= flushed_rows st <= n)%Z /\
  match type st with
  | COMMITTED => buffered_rows st = [] /\ (0 <= committed_rows st)%Z
  | BUFFERED => committed_rows st = n
  | PENDING => committed_rows st = n /\ flushed_rows st = 0%Z
  | _ => False
  end.

(** Every stream's counters agree with its buffer, and every stream has a name
    the service minted for its table before the counter reached its value. *)
Definition service_inv svc : Prop :=
  forall name st, streams_ svc !! name = Some st ->
    stream_inv st /\ exists n next', (n <= next' <= next_stream_id_ svc)%Z /\
                                     mints (table st) n name next'.

Lemma stream_inv_fresh t sch ty now :
  ty = COMMITTED \/ ty = BUFFERED \/ ty = PENDING -> stream_inv (fresh_stream t sch ty now).
Proof. intros [-> | [-> | ->]]; unfold stream_inv; simpl; auto with lia. Qed.

Lemma stream_inv_buffer st rows :
  type st = BUFFERED \/ type st = PENDING -> stream_inv st ->
  stream_inv (advance st (Z.of_nat (length rows)) rows).
Proof.
  unfold stream_inv; simpl. rewrite length_app, Nat2Z.inj_add.
  intros [E|E]; rewrite E; lia.
Qed.

Lemma stream_inv_store st n :
  type st <> BUFFERED -> type st <> PENDING -> (0 <= n)%Z -> stream_inv st ->
  stream_inv (advance st n []).
Proof.
  unfold stream_inv; simpl. rewrite app_nil_r. destruct (type st); try done.
  intros _ _ ? (F & E & ?). repeat split; auto; lia.
Qed.

Lemma stream_inv_flush st stop :
  type st = BUFFERED -> (flushed_rows st < stop <= Z.of_nat (length (buffered_rows st)))%Z ->
  stream_inv st -> stream_inv (set_flushed st stop).
Proof. unfold stream_inv; simpl. intros ->. lia. Qed.

Lemma stream_inv_finalize st : stream_inv st -> stream_inv (set_finalized st).
Proof. done. Qed.

Lemma service_inv_update svc svc' name st st' :
  service_inv svc -> streams_ svc !! name = Some st ->
  streams_ svc' = <[name := st']> (streams_ svc) -> next_stream_id_ svc' = next_stream_id_ svc ->
  table st' = table st -> stream_inv st' -> service_inv svc'.
Proof.
  intros I L E1 E2 Et I' n0 st0. rewrite E1, E2.
  destruct (decide (n0 = name)) as [->|].
  - rewrite lookup_insert_eq. intros [= <-]. split; [done|].
    rewrite Et. by destruct (I _ _ L).
  - rewrite lookup_insert_ne by done. apply I.
Qed.

Lemma mints_mono t n name next' : mints t n name next' -> (n <= next')%Z.
Proof. destruct 1; lia. Qed.

Lemma step_inv svc l svc' : step svc l svc' -> service_inv svc -> service_inv svc'.
Proof.
  intros St I. destruct St; try (by apply I).
  - intros n0 st0. simpl. assert (next_stream_id_ svc <= next')%Z by (by eapply mints_mono).
    destruct (decide (n0 = name)) as [->|].
    + rewrite lookup_insert_eq. intros [= <-]. split; [by apply stream_inv_fresh|].
      exists (next_stream_id_ svc), next'. split; [lia|done].
    + rewrite lookup_insert_ne by done. intros L. destruct (I _ _ L) as (? & k & m & ? & ?).
      split; [done|]. exists k, m. split; [lia|done].
  - eapply service_inv_update; eauto. apply stream_inv_buffer; [done|]. by eapply I.
  - eapply service_inv_update; eauto. apply stream_inv_store; try done; [lia|]. by eapply I.
  - eapply service_inv_update; eauto. apply stream_inv_flush; try done. by eapply I.
  - eapply service_inv_update; eauto. apply stream_inv_finalize. by eapply I.
Qed.

Lemma steps_inv svc ls svc' : steps svc ls svc' -> service_inv svc -> service_inv svc'.
Proof. induction 1; eauto using step_inv. Qed.
End machine.

(** ** What the handlers do, as steps *)

(** The branch returned without touching the state. *)
Ltac no_step := simplify_eq/=; exists []; by apply steps_refl.

Section refinement.
Context `{AbslTextLaws} {S : Type} `{Storage S}.
Implicit Types (svc : StorageWriteService S).

Lemma numbered_no_slash n : "/"%char ∉ "s"%char :: StrInt n.
Proof.
  apply not_elem_of_cons. split; [done|]. apply StrInt_no_char; [|done].
  apply not_true_is_false. intros E%ascii_isdigit_spec. by destruct E.
Qed.

(** Names that end in the same id are equal in both parts. *)
Lemma stream_name_inj (p q x y : str) :
  "/"%char ∉ x -> "/"%char ∉ y -> p ++ kSep ++ x = q ++ kSep ++ y -> p = q /\ x = y.
Proof.
  intros Hx Hy E.
  change kSep with ($"/streams" ++ ["/"%char]) in E.
  rewrite <- !app_assoc, !(app_assoc p), !(app_assoc q) in E. cbn [app] in E.
  apply app_sep_inj_r in E as [E ->]; [|done..].
  by apply app_inv_tail in E as ->.
Qed.

Lemma numbered_name t n : TablePathFor t ++ $"/streams/s" ++ StrInt n =
  TablePathFor t ++ kSep ++ "s"%char :: StrInt n.
Proof. done. Qed.

(** A numbered name is new: every name in the table is older, or a default. *)
Lemma numbered_fresh svc t :
  service_inv svc -> streams_ svc !! (TablePathFor t ++ $"/streams/s" ++ StrInt (next_stream_id_ svc)) = None.
Proof.
  intros I. destruct (_ !! _) as [st|] eqn:L; [|done]. exfalso.
  destruct (I _ _ L) as (_ & n & m & Hnm & M). rewrite numbered_name in M.
  inversion M as [V E|name P E]; subst.
  - apply stream_name_inj in E as [_ E]; [|apply numbered_no_slash..].
    injection E as E%StrInt_inj. lia.
  - apply ParseStreamName_Ok in P as (E & _).
    apply stream_name_inj in E as [_ E]; [by vm_compute in E; simplify_eq|apply numbered_no_slash|].
    by apply literal_no_slash.
Qed.

Lemma ParseTableParent_Ok p t : ParseTableParent p = Ok t -> p = TablePathFor t /\ valid_table t.
Proof.
  unfold ParseTableParent. intros E. case_bool_decide; [done|].
  destruct (SplitTablePath p) eqn:F; simplify_eq/=. by apply SplitTablePath_Some.
Qed.

Lemma requested_cases (ty : WriteStreamType) :
  negb (bool_decide (ty = COMMITTED)) && negb (bool_decide (ty = BUFFERED)) &&
  negb (bool_decide (ty = PENDING)) = false -> ty = COMMITTED \/ ty = BUFFERED \/ ty = PENDING.
Proof. intros. repeat case_bool_decide; simplify_eq/=; auto. Qed.

Lemma CreateWriteStream_steps now svc req svc' r :
  CreateWriteStream now svc req = (svc', r) -> service_inv svc ->
  match r with
  | Err _ => svc' = svc
  | Ok ws => exists t sch,
      cr_parent req = TablePathFor t /\ valid_table t /\ GetSchema (storage_ svc) t = Ok sch /\
      ws_name ws = TablePathFor t ++ $"/streams/s" ++ StrInt (next_stream_id_ svc) /\
      streams_ svc !! ws_name ws = None /\
      streams_ svc' = <[ws_name ws := fresh_stream t sch (requested_type req) now]> (streams_ svc) /\
      storage_ svc' = storage_ svc /\
      step svc (LMint (ws_name ws)) svc'
  end.
Proof.
  unfold CreateWriteStream. intros E I.
  destruct (storage_null svc) eqn:N; [by simplify_eq|].
  destruct (ParseTableParent _) as [t|] eqn:P; [|by simplify_eq].
  destruct (_ && _) eqn:T; [by simplify_eq|]. apply requested_cases in T.
  destruct (GetSchema _ _) as [sch|] eqn:G; [|by simplify_eq].
  unfold NewStreamId, emplace_stream in E. cbn [streams_] in E.
  rewrite numbered_fresh in E by done. injection E as <- <-.
  apply ParseTableParent_Ok in P as [-> V]. exists t, sch. simpl.
  assert (streams_ svc !! (TablePathFor t ++ $"/streams/s" ++ StrInt (next_stream_id_ svc)) = None)
    as F by by apply numbered_fresh.
  do 7 (split; [done|]).
  apply (step_mint svc _ t sch (requested_type req) now); [done|by apply mints_numbered|done].
Qed.

Lemma EnsureDefaultStream_steps now svc name t svc' r :
  EnsureDefaultStream now svc name t = (svc', r) -> ParseStreamName name = Ok (t, $"_default") ->
  exists ls, steps svc ls svc' /\ storage_ svc' = storage_ svc.
Proof.
  unfold EnsureDefaultStream, emplace_stream. intros E P.
  step_cases; try (exists []; split; [by apply steps_refl|done]).
  exists [LMint name]. split; [|done]. apply steps_one.
  apply (step_mint svc name t _ COMMITTED now); [done|by apply mints_default|auto].
Qed.

Lemma BindWriteStream_steps now svc req bound svc' r :
  BindWriteStreamFromRequest now svc req bound = (svc', r) ->
  exists ls, steps svc ls svc' /\ storage_ svc' = storage_ svc.
Proof.
  unfold BindWriteStreamFromRequest. intros E.
  destruct (ParseStreamName (write_stream req)) as [[t sid]|] eqn:P;
    repeat case_bool_decide; simplify_eq/=;
    try (exists []; split; [by apply steps_refl|done]).
  all: destruct (EnsureDefaultStream _ _ _ _) as [svc1 [u|e]] eqn:D; simplify_eq/=;
    by eapply EnsureDefaultStream_steps.
Qed.

Lemma CommitBuffered_steps svc name st rows svc' r :
  CommitBufferedAppendRows svc name rows = (svc', r) ->
  streams_ svc !! name = Some st -> type st = BUFFERED \/ type st = PENDING ->
  r = Ok (committed_rows st) /\ step svc (LBuffer name rows) svc' /\
  svc' = set_stream svc name (advance st (Z.of_nat (length rows)) rows).
Proof.
  unfold CommitBufferedAppendRows. intros E L T. rewrite L in E. simplify_eq.
  eauto using step_buffer.
Qed.

(** An append to a COMMITTED stream either reaches the store and the counter,
    or the store refuses it and neither the table nor the counter moves. *)
Lemma CommitImmediate_steps svc name st rows p svc' r :
  CommitImmediateAppendRows svc name (table st) rows p = (svc', r) ->
  streams_ svc !! name = Some st -> type st <> BUFFERED -> type st <> PENDING ->
  (r = Ok (inr (committed_rows st)) /\ step svc (LStore name (table st) rows) svc' /\
   exists s', store_append (storage_ svc) (table st) rows s' /\
     svc' = set_stream (set_storage svc s') name (advance st (Z.of_nat (length rows)) [])) \/
  ((forall z, r <> Ok (inr z)) /\ step svc LTau svc' /\ streams_ svc' = streams_ svc /\
   exists s' e, Storage.AppendRows (storage_ svc) (table st) rows = (s', Err e) /\
     storage_ svc' = s').
Proof.
  unfold CommitImmediateAppendRows. intros E L T1 T2.
  destruct (match rows with [] => _ | _ => _ end) as [s' [[]|e]] eqn:A.
  - left. simpl in E. rewrite L in E. simplify_eq.
    assert (store_append (storage_ svc) (table st) rows s') as SA.
    { destruct rows; [left|right]; by simplify_eq. }
    split; [done|]. split; [by apply step_store|eauto].
  - right. destruct rows as [|row rows]; [done|].
    assert (svc' = set_storage svc s' /\ forall z, r <> Ok (inr z)) as [-> Hr]
      by (case_match; by simplify_eq).
    split; [done|]. split; [by eapply step_store_error|]. eauto.
Qed.

Lemma reply_state svc w resp : (reply svc w resp).1.1 = svc.
Proof. unfold reply. by destruct (WriteAppendResponse w resp). Qed.

Lemma reply_listening svc k out resp :
  reply svc (mkWire (Datatypes.S k) out) resp = (svc, mkWire k (out ++ [resp]), Ok ()).
Proof. done. Qed.

Lemma ProcessAppend_steps svc w req name svc' w' r :
  ProcessAppendRowsRequest svc w req name = (svc', w', r) -> exists ls, steps svc ls svc'.
Proof.
  unfold ProcessAppendRowsRequest, LoadStreamSessionForAppend. intros E.
  destruct (streams_ svc !! name) as [st|] eqn:L;
    [|no_step].
  destruct (finalized st) eqn:F; [no_step|].
  cbn [snap_schema snap_type snap_table] in E.
  destruct (shape_error _) as [d|].
  { apply (f_equal (fun x => x.1.1)) in E. rewrite reply_state in E. simplify_eq/=.
    exists []. by apply steps_refl. }
  destruct (decide (type st = BUFFERED \/ type st = PENDING)) as [T|T].
  - assert (exists svc1 r1, CommitBufferedAppendRows svc name
       (batch_rows (DecodeAppendRowBatch req (schema st))) = (svc1, r1) /\ svc' = svc1)
      as (svc1 & r1 & C & ->).
    { destruct (CommitBufferedAppendRows _ _ _) as [svc1 r1]. exists svc1, r1. split; [done|].
      destruct T as [T|T]; rewrite T in E; destruct r1;
        apply (f_equal (fun x => x.1.1)) in E; rewrite ?reply_state in E; by simplify_eq/=. }
    destruct (CommitBuffered_steps _ _ _ _ _ _ C L T) as (_ & St & _).
    eauto using steps_one.
  - assert (exists svc1 r1, CommitImmediateAppendRows svc name (table st)
       (batch_rows (DecodeAppendRowBatch req (schema st))) 0 = (svc1, r1) /\ svc' = svc1)
      as (svc1 & r1 & C & ->).
    { destruct (CommitImmediateAppendRows _ _ _ _ _) as [svc1 r1]. exists svc1, r1.
      split; [done|].
      destruct (type st); try (exfalso; by auto); destruct r1 as [[?|?]|?];
        apply (f_equal (fun x => x.1.1)) in E; rewrite ?reply_state in E; by simplify_eq/=. }
    destruct (CommitImmediate_steps _ _ _ _ _ _ _ C L) as [(_ & St & _)|(_ & St & _)];
      eauto using steps_one.
Qed.

Lemma AppendRowsLoop_steps now reqs svc w bound svc' w' r :
  AppendRowsLoop now svc w bound reqs = (svc', w', r) -> exists ls, steps svc ls svc'.
Proof.
  revert svc w bound. induction reqs as [|req reqs IH]; intros svc w bound E; simpl in E.
  { simplify_eq. exists []. by apply steps_refl. }
  destruct (BindWriteStreamFromRequest _ _ _ _) as [svc1 r1] eqn:B.
  destruct (BindWriteStream_steps _ _ _ _ _ _ B) as (ls1 & S1 & _).
  destruct r1 as [b|e]; [|simplify_eq; eauto].
  destruct (ProcessAppendRowsRequest _ _ _ _) as [[svc2 w2] r2] eqn:P.
  destruct (ProcessAppend_steps _ _ _ _ _ _ _ P) as [ls2 S2].
  destruct r2; [|simplify_eq; eauto using steps_trans].
  destruct (IH _ _ _ E) as [ls3 S3]. eauto using steps_trans.
Qed.

Lemma CommitBufferedPrefix_cases (s : S) st off s' st' r :
  CommitBufferedPrefix s st off = (s', st', r) ->
  (s' = s /\ st' = st /\ (r = Ok () -> type st = BUFFERED /\ finalized st = false /\
                          off = flushed_rows st - 1)%Z) \/
  (type st = BUFFERED /\ finalized st = false /\
   (flushed_rows st < off + 1 <= Z.of_nat (length (buffered_rows st)))%Z /\
   exists r', Storage.AppendRows s (table st)
     (take (Z.to_nat (off + 1 - flushed_rows st))
        (drop (Z.to_nat (flushed_rows st)) (buffered_rows st))) = (s', r') /\
     ((exists e, r' = Err e /\ st' = st /\ r = Err (AbslToGrpcStatus e)) \/
      (r' = Ok () /\ st' = set_flushed st (off + 1) /\ r = Ok ()))).
Proof.
  unfold CommitBufferedPrefix. intros E.
  destruct (decide (type st = BUFFERED)) as [T|T];
    [rewrite bool_decide_true in E by done|rewrite bool_decide_false in E by done];
    simpl in E; [|left; by simplify_eq].
  destruct (finalized st) eqn:F; [left; by simplify_eq|].
  destruct (_ || _) eqn:R; [left; by simplify_eq|].
  destruct (off <? flushed_rows st - 1)%Z eqn:B; [left; by simplify_eq|].
  destruct (off + 1 <=? flushed_rows st)%Z eqn:Q; bool_to_prop.
  { left. simplify_eq. repeat split; auto. lia. }
  right. destruct (Storage.AppendRows _ _ _) as [s1 [[]|e]]; simplify_eq;
    (split; [done|]; split; [done|]; split; [lia|]); eauto 10.
Qed.

Lemma FlushRows_steps svc name off svc' r :
  FlushRows svc name off = (svc', r) -> exists ls, steps svc ls svc'.
Proof.
  unfold FlushRows. intros E.
  destruct (storage_null svc); [no_step|].
  case_bool_decide; [no_step|].
  destruct (ParseStreamName name); [|no_step].
  destruct (streams_ svc !! name) as [st|] eqn:L;
    [|no_step].
  destruct (CommitBufferedPrefix _ _ _) as [[s1 st1] r1] eqn:C.
  assert (svc' = set_stream (set_storage svc s1) name st1) as -> by (by destruct r1; simplify_eq).
  apply CommitBufferedPrefix_cases in C
    as [(-> & -> & _)|(T & F & R & r' & A & [(e & -> & -> & _)|(-> & -> & _)])].
  - exists []. unfold set_stream, set_storage. simpl. rewrite insert_id by done.
    destruct svc. by apply steps_refl.
  - exists [LTau]. unfold set_stream, set_storage. simpl. rewrite insert_id by done.
    apply steps_one. by eapply step_store_error.
  - eexists. apply steps_one. by eapply step_flush.
Qed.

Lemma FinalizeWriteStream_steps svc name svc' r :
  FinalizeWriteStream svc name = (svc', r) ->
  match r with
  | Err _ => svc' = svc
  | Ok n => exists st, streams_ svc !! name = Some st /\ finalized st = false /\
      n = finalize_count st /\ svc' = set_stream svc name (set_finalized st) /\
      step svc (LFinalize name) svc'
  end.
Proof.
  unfold FinalizeWriteStream. intros E. step_cases; eauto 10 using step_finalize.
Qed.

(** The stream a gathered commit stands for. *)
Definition pending_commit (streams : gmap str StreamState) (parent : option TableId)
    (name : str) (c : TableId * list Row) : Prop :=
  exists st, streams !! name = Some st /\ type st = PENDING /\ finalized st = true /\
    c = (table st, buffered_rows st) /\ (forall p, parent = Some p -> table st = p).

Lemma PendingCommits_Ok streams parent names commits :
  PendingCommits streams parent names = Ok commits ->
  Forall2 (pending_commit streams parent) names commits.
Proof.
  revert commits. induction names as [|name names IH]; intros commits E; simpl in E.
  { simplify_eq. constructor. }
  destruct (streams !! name) as [st|] eqn:L; [|done].
  case_bool_decide as T; [|done]. destruct (finalized st) eqn:F; [|done]. simpl in E.
  destruct (match parent with Some _ => _ | None => _ end) eqn:P; [done|].
  inv_ok E. constructor; [|by apply IH]. exists st. do 4 (split; [done|]).
  intros p ->. by case_bool_decide.
Qed.

Lemma ApplyCommits_steps svc parent names commits s' r :
  Forall2 (pending_commit (streams_ svc) parent) names commits ->
  ApplyCommits (storage_ svc) commits = (s', r) ->
  exists ls, steps svc ls (set_storage svc s') /\
    (r = Ok () -> ls = zip_with (fun name c => LBatch name c.1 c.2) names commits).
Proof.
  intros F. revert svc F. induction commits as [|c commits IH] in names, s', r |- *;
    intros svc F E; inversion F as [|name ? names' ? (st & L & T & Fi & -> & _) F']; subst; simpl in E.
  { simplify_eq. exists []. split; [|done]. destruct svc. by apply steps_refl. }
  assert (forall s1, store_append (storage_ svc) (table st) (buffered_rows st) s1 ->
    ApplyCommits s1 commits = (s', r) ->
    exists ls, steps svc ls (set_storage svc s') /\
      (r = Ok () -> ls = LBatch name (table st) (buffered_rows st) ::
         zip_with (fun name c => LBatch name c.1 c.2) names' commits)) as K.
  { intros s1 SA A. destruct (IH names' s' r (set_storage svc s1)) as (ls & S2 & Hls); [done..|].
    exists (LBatch name (table st) (buffered_rows st) :: ls). split.
    - apply (steps_trans _ [_] (set_storage svc s1)); [|done]. apply steps_one.
      by apply step_batch.
    - intros. by rewrite Hls. }
  destruct (buffered_rows st) as [|row rows] eqn:B.
  { apply K in E; [done|]. by left. }
  destruct (Storage.AppendRows _ _ _) as [s1 [[]|e]] eqn:A.
  { apply K in E; [done|]. by right. }
  simplify_eq. exists [LTau]. split; [|done]. apply steps_one. by eapply step_store_error.
Qed.

Lemma BatchCommit_steps now svc parent names svc' r :
  BatchCommitWriteStreams now svc parent names = (svc', r) ->
  exists ls, steps svc ls svc' /\ streams_ svc' = streams_ svc /\
    (is_ok r = true -> exists commits pt,
       Forall2 (pending_commit (streams_ svc) pt) names commits /\
       ls = zip_with (fun name c => LBatch name c.1 c.2) names commits).
Proof.
  unfold BatchCommitWriteStreams. intros E.
  assert (forall e, (svc, Err e) = (svc', r) -> exists ls, steps svc ls svc' /\
    streams_ svc' = streams_ svc /\ (is_ok r = true -> exists commits pt,
      Forall2 (pending_commit (streams_ svc) pt) names commits /\
      ls = zip_with (fun name c => LBatch name c.1 c.2) names commits)) as K.
  { intros e [= <- <-]. exists []. split; [by apply steps_refl|done]. }
  destruct (storage_null svc); [by eapply K|].
  destruct names as [|name names]; [by eapply K|].
  destruct (if bool_decide _ then _ else _) as [pt|e]; [|by eapply K].
  destruct (PendingCommits _ _ _) as [commits|e] eqn:P; [|by eapply K].
  destruct (ApplyCommits _ _) as [s1 r1] eqn:A. apply PendingCommits_Ok in P.
  destruct (ApplyCommits_steps _ _ _ _ _ _ P A) as (ls & St & Hls). simplify_eq.
  exists ls. split; [done|]. split; [done|]. intros Hok. exists commits, pt.
  split; [done|]. apply Hls. by destruct r1 as [[]|].
Qed.
End refinement.

(** ** Delivery *)

Section delivery.
Context `{AbslTextLaws} {S : Type} `{StorageLaws S}.
Implicit Types (svc : StorageWriteService S).

(** How rows delivered to a table read back from it. *)
Definition stored_rows (s : S) (t : TableId) (rows : list Row) : list Row :=
  match GetSchema s t with Ok sch => map (stored sch) rows | Err _ => [] end.

Lemma stored_rows_nil s t : stored_rows s t [] = [].
Proof. unfold stored_rows. by case_match. Qed.

Lemma stored_rows_app s t l1 l2 :
  stored_rows s t (l1 ++ l2) = stored_rows s t l1 ++ stored_rows s t l2.
Proof. unfold stored_rows. case_match; [apply map_app|done]. Qed.

Lemma store_append_contents s t rows s' u :
  store_append s t rows s' ->
  contents s' u = contents s u ++ stored_rows s u (if decide (t = u) then rows else []) /\
  GetSchema s' u = GetSchema s u.
Proof.
  intros [[-> ->]|A].
  - case_decide; by rewrite stored_rows_nil, app_nil_r.
  - split; [|by eapply append_schema]. case_decide as D.
    + subst. apply append_ok in A as (sch & G & E). unfold stored_rows. by rewrite G.
    + rewrite stored_rows_nil, app_nil_r. by eapply append_frame.
Qed.

Lemma step_contents svc l svc' t :
  step svc l svc' ->
  contents (storage_ svc') t =
    contents (storage_ svc) t ++ stored_rows (storage_ svc) t (delivered t l) /\
  GetSchema (storage_ svc') t = GetSchema (storage_ svc) t.
Proof.
  intros St. destruct St; simpl; rewrite ?stored_rows_nil, ?app_nil_r; try done.
  - split; [by eapply append_err|by eapply append_schema].
  - by apply store_append_contents.
  - apply store_append_contents. by right.
  - by apply store_append_contents.
Qed.

Lemma steps_contents svc ls svc' t :
  steps svc ls svc' ->
  contents (storage_ svc') t =
    contents (storage_ svc) t ++ stored_rows (storage_ svc) t (mjoin (map (delivered t) ls)) /\
  GetSchema (storage_ svc') t = GetSchema (storage_ svc) t.
Proof.
  induction 1 as [svc|svc ls svc1 l svc2 _ [IH1 IH2] St].
  - simpl. by rewrite stored_rows_nil, app_nil_r.
  - destruct (step_contents _ _ _ t St) as [E1 E2]. split; [|congruence].
    rewrite E1, IH1, map_app, join_app. cbn [map]. simpl mjoin.
    rewrite app_nil_r, stored_rows_app, app_assoc. f_equal.
    unfold stored_rows. by rewrite IH2.
Qed.

(** The buffer of a stream and the prefix of it that is visible. *)
Definition buffer_of svc (name : str) : list Row :=
  match streams_ svc !! name with Some st => buffered_rows st | None => [] end.
Definition visible_of svc (name : str) : list Row :=
  match streams_ svc !! name with
  | Some st => take (Z.to_nat (flushed_rows st)) (buffered_rows st)
  | None => []
  end.

Lemma lookup_stream_update svc svc' name st name' :
  streams_ svc' = <[name := st]> (streams_ svc) ->
  (name' = name /\ streams_ svc' !! name' = Some st) \/
  (name' <> name /\ streams_ svc' !! name' = streams_ svc !! name').
Proof.
  intros ->. destruct (decide (name' = name)) as [->|]; [left|right].
  - by rewrite lookup_insert_eq.
  - by rewrite lookup_insert_ne.
Qed.

Lemma step_stream svc l svc' name :
  step svc l svc' -> service_inv svc ->
  buffer_of svc' name = buffer_of svc name ++ buffered_by name l /\
  visible_of svc' name = visible_of svc name ++ flushed_by name l.
Proof.
  intros St I. destruct St; unfold buffer_of, visible_of; simpl; rewrite ?app_nil_r; try done.
  - destruct (decide (name0 = name)) as [->|].
    + rewrite lookup_insert_eq. by simplify_option_eq.
    + by rewrite lookup_insert_ne.
  - destruct (decide (name0 = name)) as [->|].
    + rewrite lookup_insert_eq. simplify_option_eq. split; [done|].
      destruct (I _ _ H3) as [[R _] _]. rewrite take_app_le; [done|lia].
    + by rewrite lookup_insert_ne, app_nil_r.
  - destruct (decide (name0 = name)) as [->|].
    + rewrite lookup_insert_eq. simplify_option_eq. by rewrite app_nil_r.
    + by rewrite lookup_insert_ne.
  - destruct (decide (name0 = name)) as [->|].
    + rewrite lookup_insert_eq. simplify_option_eq. split; [done|].
      destruct (I _ _ H3) as [[R _] _].
      rewrite take_take_drop. f_equal. lia.
    + by rewrite lookup_insert_ne, app_nil_r.
  - destruct (decide (name0 = name)) as [->|].
    + rewrite lookup_insert_eq. by simplify_option_eq.
    + by rewrite lookup_insert_ne.
Qed.

Lemma steps_stream svc ls svc' name :
  steps svc ls svc' -> service_inv svc ->
  buffer_of svc' name = buffer_of svc name ++ mjoin (map (buffered_by name) ls) /\
  visible_of svc' name = visible_of svc name ++ mjoin (map (flushed_by name) ls).
Proof.
  induction 1 as [svc|svc ls svc1 l svc2 S1 IH St]; intros I.
  - simpl. by rewrite !app_nil_r.
  - destruct (IH I) as [E1 E2].
    destruct (step_stream _ _ _ name St) as [E3 E4]; [by eapply steps_inv|].
    rewrite E3, E4, E1, E2, !map_app, !join_app. cbn [map]. simpl mjoin.
    by rewrite !app_nil_r, !app_assoc.
Qed.
End delivery.

(** ** Runs of calls *)

Inductive Call :=
| CallCreate (now : str) (req : CreateWriteStreamRequest)
| CallAppend (now : str) (accepted : nat) (reqs : list AppendRowsRequest)
| CallGet (name : str)
| CallFlush (name : str) (off : Z)
| CallFinalize (name : str)
| CallBatch (now : str) (parent : str) (names : list str).

Section runs.
Context `{AbslText} {S : Type} `{Storage S}.
Implicit Types (svc : StorageWriteService S).

Definition exec svc (c : Call) : StorageWriteService S :=
  match c with
  | CallCreate now req => (CreateWriteStream now svc req).1
  | CallAppend now n reqs => (AppendRows now svc (mkWire n []) reqs).1.1
  | CallGet name => svc
  | CallFlush name off => (FlushRows svc name off).1
  | CallFinalize name => (FinalizeWriteStream svc name).1
  | CallBatch now parent names => (BatchCommitWriteStreams now svc parent names).1
  end.

Definition run svc (calls : list Call) : StorageWriteService S := fold_left exec calls svc.

(** The service as the server constructs it over a store. *)
Definition init_service (s : S) : StorageWriteService S := mkService false s 1 ∅.
End runs.

Section run_laws.
Context `{AbslTextLaws} {S : Type} `{Storage S}.
Implicit Types (svc : StorageWriteService S).

Lemma exec_steps svc c : service_inv svc -> exists ls, steps svc ls (exec svc c).
Proof.
  intros I. destruct c as [now req|now n reqs|name|name off|name|now parent names]; simpl.
  - destruct (CreateWriteStream now svc req) as [svc' r] eqn:E.
    apply CreateWriteStream_steps in E; [|done].
    destruct r; [|subst; exists []; by apply steps_refl].
    destruct E as (t & sch & _ & _ & _ & _ & _ & _ & _ & St). eauto using steps_one.
  - unfold AppendRows. destruct (storage_null svc); [exists []; by apply steps_refl|].
    destruct (AppendRowsLoop _ _ _ _ _) as [[svc' w'] r] eqn:E.
    by eapply AppendRowsLoop_steps.
  - exists []. by apply steps_refl.
  - destruct (FlushRows svc name off) as [svc' r] eqn:E. by eapply FlushRows_steps.
  - destruct (FinalizeWriteStream svc name) as [svc' r] eqn:E.
    apply FinalizeWriteStream_steps in E.
    destruct r; [|subst; exists []; by apply steps_refl].
    destruct E as (st & _ & _ & _ & _ & St). eauto using steps_one.
  - destruct (BatchCommitWriteStreams now svc parent names) as [svc' r] eqn:E.
    apply BatchCommit_steps in E as (ls & St & _). eauto.
Qed.

Lemma run_steps svc calls : service_inv svc -> exists ls, steps svc ls (run svc calls).
Proof.
  revert svc. induction calls as [|c calls IH]; intros svc I; simpl.
  { exists []. by apply steps_refl. }
  destruct (exec_steps svc c I) as [ls1 S1].
  destruct (IH (exec svc c)) as [ls2 S2]; [by eapply steps_inv|]. eauto using steps_trans.
Qed.

Lemma init_service_inv (s : S) : service_inv (init_service s).
Proof. intros name st. simpl. by rewrite lookup_empty. Qed.
End run_laws.

(** ** Decoding *)

Definition decode_row (src : list Cell) : Row := mkRow (map CellToValue src).

Lemma DecodeRowsFrom_spec `{AbslText} ncols r rows_in out :
  let b := DecodeRowsFrom ncols r rows_in out in
  (Forall (fun src => length src = ncols) rows_in ->
     shape_error b = None /\ batch_rows b = out ++ map decode_row rows_in) /\
  (~ Forall (fun src => length src = ncols) rows_in -> is_Some (shape_error b)).
Proof.
  revert r out. induction rows_in as [|src rows_in IH]; intros r out; simpl.
  - rewrite app_nil_r. split; [done|]. intros []. constructor.
  - case_bool_decide as L.
    + destruct (IH (r + 1)%Z (out ++ [decode_row src])) as [IH1 IH2]. split; intros F.
      * inversion F; subst. rewrite <- app_assoc in IH1. by apply IH1.
      * apply IH2. intros F'. apply F. by constructor.
    + split; intros F; [by inversion F|by eexists].
Qed.

(** ** Finalized streams are sealed *)

Section sealed.
Context `{AbslText} {S : Type} `{Storage S}.
Implicit Types (svc : StorageWriteService S).

Definition sealed (name : str) (st : StreamState) svc : Prop :=
  streams_ svc !! name = Some st /\ finalized st = true.

Lemma sealed_update svc svc' name st name' st' :
  sealed name st svc -> name' <> name -> streams_ svc' = <[name' := st']> (streams_ svc) ->
  sealed name st svc'.
Proof. intros [L F] N E. split; [|done]. by rewrite E, lookup_insert_ne. Qed.

Lemma sealed_emplace svc name st name' st' :
  sealed name st svc -> sealed name st (emplace_stream svc name' st').
Proof.
  intros Hs. unfold emplace_stream. case_match eqn:L; [done|].
  eapply sealed_update; [done| |done]. intros ->. destruct Hs as [L' _]. congruence.
Qed.

Lemma sealed_process svc name st w req bound :
  sealed name st svc -> sealed name st (ProcessAppendRowsRequest svc w req bound).1.1.
Proof.
  intros Hs. unfold ProcessAppendRowsRequest, LoadStreamSessionForAppend.
  destruct (streams_ svc !! bound) as [st'|] eqn:L; [|done].
  destruct (finalized st') eqn:F; [done|]. simpl.
  assert (bound <> name) as N.
  { intros ->. destruct Hs as [L' F']. congruence. }
  destruct (shape_error _); [by rewrite reply_state|].
  set (rows := batch_rows _).
  assert (sealed name st (CommitBufferedAppendRows svc bound rows).1) as KB.
  { unfold CommitBufferedAppendRows. rewrite L. by eapply sealed_update. }
  assert (sealed name st (CommitImmediateAppendRows svc bound (table st') rows 0).1) as KI.
  { unfold CommitImmediateAppendRows. destruct (match rows with [] => _ | _ => _ end) as [s [[]|e]].
    - simpl. rewrite L. by eapply (sealed_update svc); [..|reflexivity].
    - by case_match. }
  destruct (CommitBufferedAppendRows _ _ _) as [svc1 [z|e]],
    (CommitImmediateAppendRows _ _ _ _ _) as [svc2 [[?|?]|?]];
    destruct (type st'); simpl; by rewrite ?reply_state.
Qed.

Lemma sealed_bind now svc name st req bound :
  sealed name st svc -> sealed name st (BindWriteStreamFromRequest now svc req bound).1.
Proof.
  intros Hs. unfold BindWriteStreamFromRequest, EnsureDefaultStream.
  repeat case_match; simplify_eq/=; auto using sealed_emplace.
Qed.

Lemma sealed_append_loop now reqs svc w bound name st :
  sealed name st svc -> sealed name st (AppendRowsLoop now svc w bound reqs).1.1.
Proof.
  revert svc w bound. induction reqs as [|req reqs IH]; intros svc w bound Hs; simpl; [done|].
  pose proof (sealed_bind now svc name st req bound Hs) as H1.
  destruct (BindWriteStreamFromRequest _ _ _ _) as [svc1 [b|e]]; [|done]. simpl in H1.
  pose proof (sealed_process svc1 name st w req b.1 H1) as H2.
  destruct (ProcessAppendRowsRequest _ _ _ _) as [[svc2 w2] [u|e]]; [|done]. by apply IH.
Qed.

Lemma sealed_flush svc name st name' off :
  sealed name st svc -> sealed name st (FlushRows svc name' off).1.
Proof.
  intros Hs. unfold FlushRows. destruct (storage_null svc); [done|].
  case_bool_decide; [done|].
  destruct (ParseStreamName name'); [|done].
  destruct (streams_ svc !! name') as [st'|] eqn:L; [|done].
  destruct (CommitBufferedPrefix _ _ _) as [[s1 st1] r1] eqn:C.
  assert (sealed name st (set_stream (set_storage svc s1) name' st1)).
  { destruct (decide (name' = name)) as [->|]; [|by eapply (sealed_update svc); [..|reflexivity]].
    destruct Hs as [L' F]. simplify_eq. unfold CommitBufferedPrefix in C.
    rewrite F in C. split; [|done]. simpl. rewrite lookup_insert_eq. f_equal.
    by case_match; simplify_eq. }
  by case_match.
Qed.

Lemma sealed_exec svc c name st : sealed name st svc -> sealed name st (exec svc c).
Proof.
  intros Hs. destruct c as [now req|now n reqs|n0|n0 off|n0|now parent names]; simpl.
  - unfold CreateWriteStream, NewStreamId. repeat case_match; simplify_eq/=;
      try done; by apply sealed_emplace.
  - unfold AppendRows. case_match; [done|]. by apply sealed_append_loop.
  - done.
  - by apply sealed_flush.
  - destruct (FinalizeWriteStream svc n0) as [svc' r] eqn:E.
    apply FinalizeWriteStream_steps in E. destruct r; [|by subst].
    destruct E as (st' & L & F & _ & -> & _). eapply sealed_update; [done| |done].
    intros ->. destruct Hs. congruence.
  - unfold BatchCommitWriteStreams. repeat case_match; simplify_eq/=; done.
Qed.

Lemma sealed_run svc calls name st : sealed name st svc -> sealed name st (run svc calls).
Proof. revert svc. induction calls; intros svc Hs; simpl; [done|]. auto using sealed_exec. Qed.
End sealed.

(** ** Properties *)

Section properties.
Context `{AbslTextLaws} {S : Type} `{StorageLaws S}.
Implicit Types (svc : StorageWriteService S).

(** C1: Any sequence of calls to the service is a run of critical-section steps
    in which every table grows by exactly the rows delivered to it, in delivery
    order, and for every stream the buffer is what was appended to it and its
    visible prefix is what was flushed from it, each row once and in order. *)
Theorem write_runs_deliver_exactly_once svc calls (I : service_inv svc) :
  exists ls,
    steps svc ls (run svc calls) /\
    (forall t, contents (storage_ (run svc calls)) t =
       contents (storage_ svc) t ++ stored_rows (storage_ svc) t (mjoin (map (delivered t) ls))) /\
    (forall name, buffer_of (run svc calls) name =
       buffer_of svc name ++ mjoin (map (buffered_by name) ls)) /\
    (forall name, visible_of (run svc calls) name =
       visible_of svc name ++ mjoin (map (flushed_by name) ls)).
Proof.
  destruct (run_steps svc calls I) as [ls St]. exists ls. split; [done|].
  split; [intros t; by apply steps_contents|].
  split; intros name; by apply (steps_stream svc ls).
Qed.

(** C27: After any sequence of calls of the handlers on a fresh service, successful or
    not, each stream's append cursor equals its buffer's length (BUFFERED,
    PENDING), its flush cursor stays within the buffer and at zero for a PENDING
    stream, COMMITTED streams buffer nothing, no stream has another type, and the
    stream's name is the path of the table it writes followed by its id. *)
Theorem write_streams_consistent (s : S) calls name st
    (Hst : streams_ (run (init_service s) calls) !! name = Some st) :
  (0 <= flushed_rows st <= Z.of_nat (length (buffered_rows st)))%Z /\
  match type st with
  | COMMITTED => buffered_rows st = [] /\ (0 <= committed_rows st)%Z
  | BUFFERED => committed_rows st = Z.of_nat (length (buffered_rows st))
  | PENDING => committed_rows st = Z.of_nat (length (buffered_rows st)) /\ flushed_rows st = 0%Z
  | _ => False
  end /\
  exists id, name = TablePathFor (table st) ++ kSep ++ id.
Proof.
  destruct (run_steps (init_service s) calls (init_service_inv s)) as [ls St].
  pose proof (steps_inv _ _ _ St (init_service_inv s)) as I.
  destruct (I _ _ Hst) as ([R T] & n & m & _ & M). split; [done|]. split; [done|].
  destruct M as [V|name' P].
  - exists ("s"%char :: StrInt n). by rewrite numbered_name.
  - exists ($"_default"). by apply ParseStreamName_Ok in P as (-> & _).
Qed.

(** C7: A successful FlushRows(offset) appends to the stream's table exactly the
    buffered rows between the flush cursor and the offset, moves the cursor to
    offset + 1 and touches no other stream or table; a refused one leaves every
    stream and every table as they were. *)
Theorem flush_rows_exact svc name off svc' r
    (I : service_inv svc) (E : FlushRows svc name off = (svc', r)) :
  match r with
  | Ok res => exists st, streams_ svc !! name = Some st /\ res = off /\
      type st = BUFFERED /\ finalized st = false /\
      (0 <= off < Z.of_nat (length (buffered_rows st)))%Z /\
      (flushed_rows st <= off + 1)%Z /\
      streams_ svc' = <[name := set_flushed st (off + 1)]> (streams_ svc) /\
      (forall t, contents (storage_ svc') t = contents (storage_ svc) t ++
         stored_rows (storage_ svc) t (if decide (table st = t)
           then take (Z.to_nat (off + 1 - flushed_rows st))
                  (drop (Z.to_nat (flushed_rows st)) (buffered_rows st))
           else []))
  | Err _ => streams_ svc' = streams_ svc /\
      (forall t, contents (storage_ svc') t = contents (storage_ svc) t)
  end.
Proof.
  unfold FlushRows in E. destruct (storage_null svc); [by simplify_eq|].
  case_bool_decide; [by simplify_eq|].
  destruct (ParseStreamName name); [|by simplify_eq].
  destruct (streams_ svc !! name) as [st|] eqn:L; [|by simplify_eq].
  destruct (CommitBufferedPrefix _ _ _) as [[s1 st1] r1] eqn:C.
  assert (0 <= flushed_rows st)%Z by (destruct (I _ _ L) as [[? _] _]; lia).
  assert (svc' = set_stream (set_storage svc s1) name st1 /\
          r = match r1 with Ok _ => Ok off | Err e => Err e end) as [-> ->]
    by (by destruct r1; simplify_eq).
  pose proof C as C'. unfold CommitBufferedPrefix in C'.
  apply CommitBufferedPrefix_cases in C
    as [(-> & -> & Hr)|(T & F & R & r' & A & [(e & -> & -> & ->)|(-> & -> & ->)])].
  - destruct r1 as [[]|e]; simpl; [|by rewrite insert_id].
    destruct (Hr eq_refl) as (T & F & Hoff). exists st.
    assert (0 <= off < Z.of_nat (length (buffered_rows st)))%Z.
    { rewrite bool_decide_true, F in C' by done. simpl in C'.
      destruct (_ || _) eqn:B; [done|]. bool_to_prop. lia. }
    replace (off + 1 - flushed_rows st)%Z with 0%Z by lia.
    do 6 (split; [done || lia|]). split.
    + f_equal. rewrite Hoff. replace (flushed_rows st - 1 + 1)%Z with (flushed_rows st) by lia.
      by destruct st.
    + intros t. simpl. by destruct (decide _); rewrite stored_rows_nil, app_nil_r.
  - simpl. rewrite insert_id by done. split; [done|]. intros t. by eapply append_err.
  - exists st. do 4 (split; [done|]). split; [lia|]. split; [lia|]. split; [done|].
    intros t. simpl. apply (store_append_contents _ (table st)). by right.
Qed.

(** C26: What one AppendRows request does to a stream that is open while the
    client listens: a batch with a row of the wrong width is answered with an
    error and changes nothing; a batch for a BUFFERED or PENDING stream is
    appended to the buffer and acknowledged at the buffer's old length, the
    store untouched; a batch for a COMMITTED stream is either acknowledged at
    the stream's old count with exactly these rows appended to the table, or
    refused with no stream and no table changed. *)
Theorem append_request_outcomes svc w req name st svc' w' r
    (I : service_inv svc) (L : streams_ svc !! name = Some st) (F : finalized st = false)
    (Hw : accepts w <> 0)
    (E : ProcessAppendRowsRequest svc w req name = (svc', w', r)) :
  let rows := map decode_row (proto_rows req) in
  let n := Z.of_nat (length rows) in
  let fits := Forall (fun src => length src = length (columns (schema st))) (proto_rows req) in
  (~ fits /\ svc' = svc /\ r = Ok () /\ exists m,
     written w' = written w ++ [mkAppendResp (error_message m) (trace_id req) 0]) \/
  (fits /\ (type st = BUFFERED \/ type st = PENDING) /\ r = Ok () /\
     storage_ svc' = storage_ svc /\
     streams_ svc' = <[name := advance st n rows]> (streams_ svc) /\
     written w' = written w ++
       [mkAppendResp (append_result (Z.of_nat (length (buffered_rows st)))) (trace_id req) n]) \/
  (fits /\ type st = COMMITTED /\ r = Ok () /\
     streams_ svc' = <[name := advance st n []]> (streams_ svc) /\
     (forall t, contents (storage_ svc') t = contents (storage_ svc) t ++
        stored_rows (storage_ svc) t (if decide (table st = t) then rows else [])) /\
     written w' = written w ++
       [mkAppendResp (append_result (committed_rows st)) (trace_id req) n]) \/
  (fits /\ type st = COMMITTED /\ streams_ svc' = streams_ svc /\
     (forall t, contents (storage_ svc') t = contents (storage_ svc) t) /\
     ((exists e, r = Err e /\ w' = w) \/
      (r = Ok () /\ exists m,
         written w' = written w ++ [mkAppendResp (error_message m) (trace_id req) 0]))).
Proof.
  destruct w as [[|k] out]; [done|]. clear Hw. destruct (I _ _ L) as [[_ Inv] _].
  unfold ProcessAppendRowsRequest, LoadStreamSessionForAppend in E. rewrite L, F in E.
  cbn [snap_schema snap_type snap_table] in E. unfold DecodeAppendRowBatch in E.
  pose proof (DecodeRowsFrom_spec (length (columns (schema st))) 0 (proto_rows req) []) as [D1 D2].
  destruct (decide (Forall (fun src => length src = length (columns (schema st))) (proto_rows req)))
    as [Fit|Fit].
  2:{ left. destruct (D2 Fit) as [m Hm]. rewrite Hm, reply_listening in E. simplify_eq.
      do 3 (split; [done|]). by exists m. }
  right. destruct (D1 Fit) as [-> ->] in E. cbn [app] in E.
  destruct (decide (type st = BUFFERED \/ type st = PENDING)) as [T|T].
  - left. destruct (CommitBufferedAppendRows _ _ _) as [svc1 r1] eqn:C.
    destruct (CommitBuffered_steps _ _ _ _ _ _ C L T) as (-> & _ & ->).
    assert (committed_rows st = Z.of_nat (length (buffered_rows st))) as <-
      by (destruct T as [T|T]; rewrite T in Inv; [done|by destruct Inv]).
    destruct T as [T|T]; rewrite T, reply_listening in E; simplify_eq; eauto 10.
  - right. assert (type st = COMMITTED) as T1 by (destruct (type st); try done; naive_solver).
    destruct (CommitImmediateAppendRows _ _ _ _ _) as [svc1 r1] eqn:C. rewrite T1 in E.
    destruct (CommitImmediate_steps _ _ _ _ _ _ _ C L) as
      [(-> & _ & s' & SA & ->)|(Hr & _ & Hst & s' & e & A & Hs)]; try (rewrite T1; congruence).
    + left. rewrite reply_listening in E. simplify_eq. do 4 (split; [done|]). split; [|done].
      intros t. by apply store_append_contents.
    + right. do 2 (split; [done|]).
      assert (svc' = svc1) as ->.
      { destruct r1 as [[?|?]|?]; rewrite ?reply_listening in E; by simplify_eq. }
      split; [done|]. split; [intros t; rewrite Hs; by eapply append_err|].
      destruct r1 as [[m|z]|e']; rewrite ?reply_listening in E; simplify_eq; [right|by destruct (Hr z)|left]; eauto.
Qed.

(** CreateWriteStream never reuses a name: a successful call returns a name
    no stream had, under which exactly one new, empty, open stream of the
    requested type appears, bound to the parent table and pinned to its current
    schema; a failed call changes nothing. *)
Theorem create_stream_fresh now svc req svc' r
    (I : service_inv svc) (E : CreateWriteStream now svc req = (svc', r)) :
  match r with
  | Err _ => svc' = svc
  | Ok ws => exists t sch,
      cr_parent req = TablePathFor t /\ GetSchema (storage_ svc) t = Ok sch /\
      streams_ svc !! ws_name ws = None /\
      streams_ svc' = <[ws_name ws := fresh_stream t sch (requested_type req) now]> (streams_ svc) /\
      storage_ svc' = storage_ svc /\ GetWriteStream svc' (ws_name ws) = Ok ws
  end.
Proof.
  pose proof (CreateWriteStream_steps _ _ _ _ _ E I) as K.
  destruct r as [ws|e]; [|done].
  destruct K as (t & sch & Hp & V & G & Hn & Hf & Hs & Hst & _).
  exists t, sch. do 5 (split; [done|]).
  unfold GetWriteStream. rewrite Hs, lookup_insert_eq. simpl.
  unfold CreateWriteStream in E. destruct (storage_null svc); [by simplify_eq|].
  destruct (ParseTableParent _) as [t'|] eqn:P; [|by simplify_eq].
  destruct (_ && _); [by simplify_eq|].
  destruct (GetSchema _ t') as [sch'|] eqn:G'; [|by simplify_eq].
  unfold NewStreamId in E. simplify_eq/=.
  apply ParseTableParent_Ok in P as [Hp' V'].
  assert (t' = t) as ->.
  { apply (f_equal SplitTablePath) in Hp. rewrite Hp' in Hp.
    rewrite (proj2 (SplitTablePath_Some _ t')) in Hp by done.
    rewrite (proj2 (SplitTablePath_Some _ t)) in Hp by done. congruence. }
  congruence.
Qed.

(** C33: Once a stream is finalized, no sequence of calls changes it any more:
    appends to it are refused with FAILED_PRECONDITION, flushes and a second
    finalize too, and its buffer and cursors stay what they were. *)
Theorem finalized_stream_sealed svc calls name st
    (L : streams_ svc !! name = Some st) (F : finalized st = true) :
  let svc' := run svc calls in
  streams_ svc' !! name = Some st /\
  (forall w req, exists m,
     ProcessAppendRowsRequest svc' w req name = (svc', w, failed_precondition m)) /\
  (forall off, grpc_code_of (FlushRows svc' name off).2 <> None) /\
  (forall t id, ParseStreamName name = Ok (t, id) ->
     grpc_code_of (FinalizeWriteStream svc' name).2 = Some FAILED_PRECONDITION).
Proof.
  destruct (sealed_run svc calls name st (conj L F)) as [L' _]. cbn zeta. split; [done|].
  split; [|split].
  - intros w req. eexists. unfold ProcessAppendRowsRequest, LoadStreamSessionForAppend.
    by rewrite L', F.
  - intros off. unfold FlushRows. destruct (storage_null _); [done|].
    case_bool_decide; [done|]. destruct (ParseStreamName name); [|done].
    rewrite L'. unfold CommitBufferedPrefix. rewrite F. by destruct (negb _).
  - intros t id P. unfold FinalizeWriteStream. case_bool_decide.
    + by subst.
    + by rewrite P, L', F.
Qed.

(** The delivery a batch commit makes for a stream: its whole buffer. *)
Definition batch_label svc (name : str) : label :=
  match streams_ svc !! name with
  | Some st => LBatch name (table st) (buffered_rows st)
  | None => LTau
  end.

Lemma batch_labels svc p names cm :
  Forall2 (pending_commit (streams_ svc) p) names cm ->
  zip_with (fun name c => LBatch name c.1 c.2) names cm = map (batch_label svc) names.
Proof.
  induction 1 as [|name c names cm (st & L & _ & _ & -> & _) _ IH]; simpl; [done|].
  rewrite IH. unfold batch_label at 2. by rewrite L.
Qed.

(** Two successful BatchCommitWriteStreams calls over the same streams write
    every buffered row twice: the call delivers the whole buffers of the listed
    streams to their tables and leaves no mark on the streams that they have
    been committed. *)
Theorem batch_commit_repeats_rows svc now parent names svc1 now2 svc2 c1 c2
    (E1 : BatchCommitWriteStreams now svc parent names = (svc1, Ok c1))
    (E2 : BatchCommitWriteStreams now2 svc1 parent names = (svc2, Ok c2)) :
  exists ls, streams_ svc2 = streams_ svc /\
    ls = map (batch_label svc) names /\
    forall t, contents (storage_ svc2) t = contents (storage_ svc) t ++
      stored_rows (storage_ svc) t (mjoin (map (delivered t) ls)) ++
      stored_rows (storage_ svc) t (mjoin (map (delivered t) ls)).
Proof.
  apply BatchCommit_steps in E1 as (ls1 & S1 & Q1 & K1).
  apply BatchCommit_steps in E2 as (ls2 & S2 & Q2 & K2).
  destruct (K1 eq_refl) as (cm1 & p1 & F1 & ->). destruct (K2 eq_refl) as (cm2 & p2 & F2 & ->).
  rewrite Q1 in F2, Q2.
  rewrite (batch_labels _ _ _ _ F1) in S1. rewrite (batch_labels _ _ _ _ F2) in S2. eexists. split; [done|]. split; [done|].
  intros t. destruct (steps_contents _ _ _ t S1) as [C1 G1].
  destruct (steps_contents _ _ _ t S2) as [C2 _]. rewrite C2, C1, <- app_assoc. f_equal. f_equal.
  unfold stored_rows. by rewrite G1.
Qed.

(** The check that refuses appends to a finalized stream is made before the
    rows are added, in another critical section: when FinalizeWriteStream runs
    in between, the append still lands, and the stream ends with more rows than
    finalize reported. *)
Theorem finalize_append_race svc name snap n svc1 rows
    (I : service_inv svc)
    (Hload : LoadStreamSessionForAppend svc name = Ok snap)
    (Hty : snap_type snap = PENDING)
    (Hfin : FinalizeWriteStream svc name = (svc1, Ok n)) :
  exists svc2 prior, CommitBufferedAppendRows svc1 name rows = (svc2, Ok prior) /\
    n = Z.of_nat (length (buffer_of svc name)) /\
    buffer_of svc2 name = buffer_of svc name ++ rows.
Proof.
  unfold LoadStreamSessionForAppend in Hload.
  destruct (streams_ svc !! name) as [st|] eqn:L; [|done].
  destruct (finalized st) eqn:F; [done|]. injection Hload as <-. simpl in Hty.
  apply FinalizeWriteStream_steps in Hfin as (st' & L' & _ & -> & -> & _). simplify_eq.
  unfold CommitBufferedAppendRows. simpl. rewrite lookup_insert_eq.
  eexists _, _. split; [done|]. unfold buffer_of. simpl.
  rewrite lookup_insert_eq, L. split; [|done]. unfold finalize_count. by rewrite Hty.
Qed.

(** A table path with a component called [streams] is cut short. *)
Lemma streams_component_split t id :
  valid_table t ->
  project_id t = $"streams" \/ dataset_id t = $"streams" \/ table_id t = $"streams" ->
  exists ps b, length ps <> 6 /\ ps <> [] /\ Forall (fun p => "/"%char ∉ p) ps /\
    find_sub kSep (TablePathFor t ++ kSep ++ id) = Some (join "/" ps, b).
Proof.
  intros V Hs. pose proof (path_pieces_no_slash t V) as NS. unfold path_pieces in NS.
  rewrite !Forall_cons in NS. destruct NS as (N0 & N1 & N2 & N3 & N4 & N5 & _).
  assert (exists n, n < 6 /\ n <> 0 /\ path_pieces t !! n = Some ($"streams") /\
    Forall (fun q => ("/"%char ∉ q) /\ q <> $"streams") (tail (take n (path_pieces t))))
    as (n & Hn & Hn0 & Hat & HF).
  { destruct (decide (project_id t = $"streams")) as [E|Hp].
    { exists 1. unfold path_pieces. rewrite E. by repeat constructor. }
    destruct (decide (dataset_id t = $"streams")) as [E|Hd].
    { exists 3. unfold path_pieces. rewrite E. by repeat constructor. }
    assert (table_id t = $"streams") as E by tauto.
    exists 5. unfold path_pieces. rewrite E. by repeat constructor. }
  assert (take n (path_pieces t) = $"projects" :: tail (take n (path_pieces t))) as Hc
    by (by destruct n).
  destruct (find_sep_early ($"projects") (tail (take n (path_pieces t)))
              (drop (Datatypes.S n) (path_pieces t)) id) as [b Hb]; [done|done|].
  exists (take n (path_pieces t)), b. split; [rewrite length_take; simpl; lia|].
  split; [by rewrite Hc|]. split.
  { apply Forall_take. by apply path_pieces_no_slash. }
  rewrite <- Hc, take_drop_middle in Hb by done. by rewrite TablePathFor_join.
Qed.

(** The name of a write stream parses back to its table and id exactly when
    no component of the table path is called [streams]; with such a component
    the name is split too early and refused as malformed. *)
Theorem stream_name_roundtrip t id (V : valid_table t) (Hid : id <> []) :
  let name := TablePathFor t ++ kSep ++ id in
  (project_id t <> $"streams" /\ dataset_id t <> $"streams" /\ table_id t <> $"streams" ->
     ParseStreamName name = Ok (t, id)) /\
  (project_id t = $"streams" \/ dataset_id t = $"streams" \/ table_id t = $"streams" ->
     grpc_code_of (ParseStreamName name) = Some INVALID_ARGUMENT).
Proof.
  pose proof (path_pieces_no_slash t V) as NS. unfold path_pieces in NS.
  rewrite !Forall_cons in NS. destruct NS as (N0 & N1 & N2 & N3 & N4 & N5 & _).
  assert ((TablePathFor t ++ kSep ++ id) <> []) as NE by done.
  unfold ParseStreamName. rewrite bool_decide_false by done. split.
  - intros (Hp & Hd & Ht).
    rewrite TablePathFor_join at 1. unfold path_pieces. rewrite find_sep_join; [|done|].
    + change (join "/" _) with (TablePathFor t).
      rewrite (proj2 (SplitTablePath_Some _ t)) by done. by rewrite bool_decide_false.
    + repeat constructor; done.
  - intros Hs.
    destruct (streams_component_split t id V Hs) as (ps & b & Hl & Hn & HF & ->).
    assert (SplitTablePath (join "/" ps) = None) as ->; [|done].
    unfold SplitTablePath. rewrite StrSplit_of_join by done.
    by do 7 (destruct ps as [|? ps]; [done|]).
Qed.
End properties.

(** ** Witnesses over a small store *)

Definition demo_table : TableId := mkTableId $"p" $"d" $"t".
Definition demo_schema : TableSchema := mkTableSchema [mkColumn $"name" kString kNullable [] [] []].
Definition demo_store : MemStore.t :=
  {[ demo_table := MemStore.mkTable demo_schema [] ]}.
Definition demo_init : StorageWriteService MemStore.t := init_service demo_store.

Definition demo_create (ty : WriteStreamType) : CreateWriteStreamRequest :=
  mkCreate $"projects/p/datasets/d/tables/t" (Some (mkWriteStream [] ty (TableSchemaToProto demo_schema) [])).
Definition demo_name : str := $"projects/p/datasets/d/tables/t/streams/s1".
Definition demo_request (values : list str) : AppendRowsRequest :=
  mkAppendReq demo_name (map (fun v => [CString v]) values) [].
Definition demo_rows (values : list str) : list Row :=
  map (fun v => mkRow [VString v]) values.

(** A stream of the given type with three rows appended. *)
Definition demo_service (ty : WriteStreamType) : StorageWriteService MemStore.t :=
  run demo_init [CallCreate [] (demo_create ty);
                 CallAppend [] 9 [demo_request [$"a"; $"b"]; demo_request [$"c"]]].

Definition demo_sealed : StorageWriteService MemStore.t :=
  run (demo_service PENDING) [CallFinalize demo_name].

Lemma demo_service_inv calls : service_inv (run demo_init calls).
Proof.
  destruct (run_steps demo_init calls (init_service_inv demo_store)) as [ls St].
  apply (steps_inv _ _ _ St), init_service_inv.
Qed.

Definition demo_stream (ty : WriteStreamType) (fin : bool) : StreamState :=
  mkStream demo_table demo_schema ty [] 3 (demo_rows [$"a"; $"b"; $"c"]) 0 fin.

Lemma demo_buffered_stream :
  streams_ (demo_service BUFFERED) !! demo_name = Some (demo_stream BUFFERED false).
Proof. vm_compute. reflexivity. Qed.

Lemma demo_pending_stream :
  streams_ (demo_service PENDING) !! demo_name = Some (demo_stream PENDING false).
Proof. vm_compute. reflexivity. Qed.

Lemma demo_sealed_stream :
  streams_ demo_sealed !! demo_name = Some (demo_stream PENDING true).
Proof. vm_compute. reflexivity. Qed.

Lemma write_runs_deliver_exactly_once_witness :
  let svc := run demo_init [CallCreate [] (demo_create BUFFERED);
    CallAppend [] 9 [demo_request [$"a"; $"b"]; demo_request [$"c"]]; CallFlush demo_name 1] in
  visible_of svc demo_name = demo_rows [$"a"; $"b"] /\
  contents (storage_ svc) demo_table = demo_rows [$"a"; $"b"] /\
  exists ls, steps demo_init ls svc /\ mjoin (map (flushed_by demo_name) ls) = demo_rows [$"a"; $"b"].
Proof.
  set (calls := [CallCreate [] _; _; _]). intros svc.
  destruct (write_runs_deliver_exactly_once demo_init calls (init_service_inv demo_store))
    as (ls & St & _ & _ & V).
  assert (visible_of svc demo_name = demo_rows [$"a"; $"b"]) as Hv by (vm_compute; reflexivity).
  split; [exact Hv|]. split; [vm_compute; reflexivity|].
  exists ls. split; [exact St|]. specialize (V demo_name).
  change (run demo_init calls) with svc in V. rewrite Hv in V. symmetry. exact V.
Defined.

Lemma write_streams_consistent_witness :
  exists st, streams_ (demo_service BUFFERED) !! demo_name = Some st /\
    committed_rows st = Z.of_nat (length (buffered_rows st)) /\ committed_rows st = 3%Z.
Proof.
  destruct (write_streams_consistent demo_store [CallCreate [] (demo_create BUFFERED);
      CallAppend [] 9 [demo_request [$"a"; $"b"]; demo_request [$"c"]]] demo_name
              _ demo_buffered_stream) as (_ & T & _).
  eexists. split; [exact demo_buffered_stream|]. split; [exact T|reflexivity].
Defined.

Lemma flush_rows_exact_witness :
  contents (storage_ (FlushRows (demo_service BUFFERED) demo_name 1).1) demo_table =
  demo_rows [$"a"; $"b"].
Proof.
  assert (is_ok (FlushRows (demo_service BUFFERED) demo_name 1).2 = true) as Hok
    by (vm_compute; reflexivity).
  destruct (FlushRows (demo_service BUFFERED) demo_name 1) as [svc' r] eqn:E.
  pose proof (flush_rows_exact (demo_service BUFFERED) demo_name 1 svc' r
                (demo_service_inv _) E) as K.
  destruct r as [res|e]; [|discriminate Hok].
  destruct K as (st & L & _ & _ & _ & _ & _ & _ & C).
  rewrite demo_buffered_stream in L. injection L as <-. cbn [fst]. rewrite (C demo_table).
  vm_compute. reflexivity.
Defined.

Lemma append_request_outcomes_witness :
  buffer_of (ProcessAppendRowsRequest (demo_service PENDING) (mkWire 1 [])
               (demo_request [$"z"]) demo_name).1.1 demo_name = demo_rows [$"a"; $"b"; $"c"; $"z"].
Proof.
  destruct (ProcessAppendRowsRequest (demo_service PENDING) (mkWire 1 []) (demo_request [$"z"]) demo_name)
    as [[svc' w'] r] eqn:E.
  destruct (append_request_outcomes (demo_service PENDING) (mkWire 1 []) (demo_request [$"z"])
              demo_name _ svc' w' r (demo_service_inv _) demo_pending_stream eq_refl
              ltac:(discriminate) E)
    as [(N & _)|[(_ & _ & _ & _ & Hs & _)|[(_ & T & _)|(_ & T & _)]]].
  - exfalso. apply N. by repeat constructor.
  - unfold buffer_of. cbn [fst]. rewrite Hs, lookup_insert_eq. reflexivity.
  - discriminate T.
  - discriminate T.
Defined.

Lemma create_stream_fresh_witness :
  exists svc' ws, CreateWriteStream $"now" (demo_service BUFFERED) (demo_create PENDING) = (svc', Ok ws) /\
    GetWriteStream svc' (ws_name ws) = Ok ws /\
    streams_ (demo_service BUFFERED) !! ws_name ws = None.
Proof.
  assert (is_ok (CreateWriteStream $"now" (demo_service BUFFERED) (demo_create PENDING)).2 = true)
    as Hok by (vm_compute; reflexivity).
  destruct (CreateWriteStream $"now" (demo_service BUFFERED) (demo_create PENDING)) as [svc' r] eqn:E.
  pose proof (create_stream_fresh $"now" _ _ svc' r (demo_service_inv _) E) as K.
  destruct r as [ws|e]; [|discriminate Hok].
  destruct K as (t & sch & _ & _ & Hn & _ & _ & G). exists svc', ws. auto.
Defined.

Lemma finalized_stream_sealed_witness :
  streams_ (run demo_sealed [CallAppend [] 9 [demo_request [$"x"]]; CallFlush demo_name 0]) !! demo_name
  = Some (demo_stream PENDING true).
Proof.
  apply (finalized_stream_sealed demo_sealed _ demo_name _ demo_sealed_stream eq_refl).
Defined.

Lemma batch_commit_repeats_rows_witness :
  exists once twice,
    BatchCommitWriteStreams $"now" demo_sealed [] [demo_name] = (once, Ok $"now") /\
    BatchCommitWriteStreams $"now" once [] [demo_name] = (twice, Ok $"now") /\
    contents (storage_ twice) demo_table = demo_rows [$"a"; $"b"; $"c"; $"a"; $"b"; $"c"].
Proof.
  assert ((BatchCommitWriteStreams $"now" demo_sealed [] [demo_name]).2 = Ok $"now") as O1
    by (vm_compute; reflexivity).
  assert ((BatchCommitWriteStreams $"now" (BatchCommitWriteStreams $"now" demo_sealed [] [demo_name]).1
             [] [demo_name]).2 = Ok $"now") as O2 by (vm_compute; reflexivity).
  destruct (BatchCommitWriteStreams $"now" demo_sealed [] [demo_name]) as [once r1] eqn:E1.
  cbn [fst snd] in O1, O2. subst r1.
  destruct (BatchCommitWriteStreams $"now" once [] [demo_name]) as [twice r2] eqn:E2.
  cbn [snd] in O2. subst r2. exists once, twice. split; [reflexivity|]. split; [exact E2|].
  destruct (batch_commit_repeats_rows _ _ _ _ _ _ _ _ _ E1 E2) as (ls & _ & -> & C).
  rewrite (C demo_table). vm_compute. reflexivity.
Defined.

Lemma finalize_append_race_witness :
  exists n svc1 svc2 prior,
    FinalizeWriteStream (demo_service PENDING) demo_name = (svc1, Ok n) /\ n = 3%Z /\
    CommitBufferedAppendRows svc1 demo_name (demo_rows [$"late"]) = (svc2, Ok prior) /\
    buffer_of svc2 demo_name = demo_rows [$"a"; $"b"; $"c"; $"late"].
Proof.
  assert (is_ok (FinalizeWriteStream (demo_service PENDING) demo_name).2 = true) as Hok
    by (vm_compute; reflexivity).
  destruct (FinalizeWriteStream (demo_service PENDING) demo_name) as [svc1 r] eqn:E.
  destruct r as [n|e]; [|discriminate Hok].
  destruct (finalize_append_race (demo_service PENDING) demo_name
              (mkSnapshot demo_table demo_schema PENDING) n svc1 (demo_rows [$"late"])
              (demo_service_inv _) ltac:(unfold LoadStreamSessionForAppend;
                rewrite demo_pending_stream; reflexivity) eq_refl E)
    as (svc2 & prior & C & Hn & B).
  unfold buffer_of in Hn, B at 2. rewrite demo_pending_stream in Hn, B.
  exists n, svc1, svc2, prior. split; [reflexivity|]. split; [exact Hn|]. split; [exact C|exact B].
Defined.

Lemma stream_name_roundtrip_witness :
  ParseStreamName (TablePathFor demo_table ++ kSep ++ $"s1") = Ok (demo_table, $"s1") /\
  grpc_code_of (ParseStreamName (TablePathFor (mkTableId $"p" $"streams" $"t") ++ kSep ++ $"s1"))
    = Some INVALID_ARGUMENT.
Proof.
  assert (forall d, component d -> valid_table (mkTableId $"p" d $"t")) as V.
  { intros d Hd. repeat split; try done; try apply Hd; by apply literal_no_slash. }
  assert (component $"d" /\ component $"streams") as [C1 C2]
    by (split; split; try done; by apply literal_no_slash).
  split.
  - apply (stream_name_roundtrip demo_table $"s1" (V _ C1) ltac:(discriminate)).
    repeat split; discriminate.
  - apply (stream_name_roundtrip (mkTableId $"p" $"streams" $"t") $"s1" (V _ C2) ltac:(discriminate)).
    right. left. reflexivity.
Defined.
