(* ===== verification/StorageRead.v ===== *)
(** * StorageRead: the Storage Read service

    Models [frontend/handlers/storage_read.h], [storage_read.cc],
    [storage_read_streams.cc] and [storage_read_internal.cc]: session creation,
    the partition of a table into streams, the paging loop of [ReadRows], and
    [SplitReadStream] with its double arithmetic.

    [TranspileRowRestriction] (the SQL analyzer's entry point) and the time
    parser of Abseil are arguments.  Requests, responses and the writer are
    never null here.  The store is any instance of the [Storage] class. *)

From Stdlib Require Import SpecFloat.
From S2P Require Import Prelude Absl AbslReference Schema Storage.

(** ** Data *)

Record StreamPartition := mkPartition {
  part_name : str;
  part_start : Z;
  part_end : Z;
}.

Record SessionState := mkSession {
  ss_table : TableId;
  ss_schema : TableSchema;
  ss_where_sql : option str;
  ss_selected_fields : list str;
  total_rows : Z;
  ss_streams : gmap str StreamPartition;
  next_split_id : Z;
}.

Record StorageReadService (S : Type) := mkReadService {
  rd_storage : S;
  next_session_id_ : Z;
  sessions_ : gmap str SessionState;
}.
Arguments mkReadService {S}.
Arguments rd_storage {S}.
Arguments next_session_id_ {S}.
Arguments sessions_ {S}.

Record ReadOptions := mkReadOptions {
  opt_selected_fields : list str;
  opt_row_restriction : str;
}.

Record CreateReadSessionRequest := mkReadReq {
  rq_parent : str;
  rq_table : str;
  rq_read_options : option ReadOptions;
  max_stream_count : Z;
}.

Record ReadSession := mkReadSession {
  rs_name : str;
  rs_table : str;
  rs_schema : TableSchemaProto;
  rs_read_options : option ReadOptions;
  rs_streams : list str;
}.

Record ReadRowsResponse := mkPage { page_rows : list (list Cell); page_row_count : Z }.

(** The server side of the response stream: the pages written so far and how
    many more writes succeed before the client is gone. *)
Record Writer := mkWriter { wr_accepts : nat; wr_pages : list ReadRowsResponse }.

Definition kMaxStreamCount : Z := 1000.
Definition kReadRowsBatchSize : Z := 100.
Definition kPublicDataProject : str := $"bigquery-public-data".
Definition kStreamsMarker : str := $"/streams/".

(** The time parser the engine links: [absl::ParseTime] with a format, and
    [absl::ToUnixMicros]. *)
Class AbslTime := {
  Time : Type;
  ParseTime : str -> str -> option Time;
  ToUnixMicros : Time -> Z;
}.

Definition rd_invalid {A} (m : str) : Grpc A := Err (mkGrpc INVALID_ARGUMENT m).
Definition rd_not_found {A} (m : str) : Grpc A := Err (mkGrpc NOT_FOUND m).
Definition rd_precondition {A} (m : str) : Grpc A := Err (mkGrpc FAILED_PRECONDITION m).

(** ** Cells and schemas: storage_read_internal.cc *)

Section cells.
Context `{AbslText, AbslDouble, AbslTime}.

(** A trailing [+dd] or [-dd] offset gets [:00] appended when the text has a
    time part. *)
Definition NormalizeTimestampOffsetSuffix (text : str) : str :=
  match reverse text with
  | d1 :: d0 :: sign :: _ =>
      if (bool_decide (sign = "+"%char) || bool_decide (sign = "-"%char)) &&
         ascii_isdigit d0 && ascii_isdigit d1
      then if negb (bool_decide (":"%char ∈ text)) && negb (bool_decide ("T"%char ∈ text))
           then text else text ++ $":00"
      else text
  | _ => text
  end.

Definition IsAllDigits (s : str) : bool :=
  match s with [] => false | _ => forallb ascii_isdigit s end.

Definition strip_suffix (suffix s : str) : option str :=
  reverse <$> strip_prefix (reverse suffix) (reverse s).

Definition RFC3339_full : str := $"%Y-%m-%d%ET%H:%M:%E*S%Ez".

Definition timestamp_formats : list str :=
  [RFC3339_full; $"%Y-%m-%d %H:%M:%E*S%Ez"; $"%Y-%m-%dT%H:%M:%E*S%Ez";
   $"%Y-%m-%d %H:%M:%E*S"; $"%Y-%m-%dT%H:%M:%E*S"; $"%Y-%m-%d"].

(** The first format that parses. *)
Fixpoint parse_first (formats : list str) (text : str) : option Time :=
  match formats with
  | [] => None
  | f :: formats =>
      match ParseTime f text with Some t => Some t | None => parse_first formats text end
  end.

Definition ParseTimestampWireString (body : str) : StatusOr Time :=
  let text := match strip_suffix ($" UTC") body with Some t => t | None => body end in
  match parse_first timestamp_formats (NormalizeTimestampOffsetSuffix text) with
  | Some t => Ok t
  | None => Err (InvalidArgumentError ($"StorageRead: invalid TIMESTAMP value '" ++ body ++ $"'"))
  end.

Definition TimestampValueToMicrosString (v : Value) : StatusOr str :=
  match v with
  | VNull => Err (InvalidArgumentError $"StorageRead: TIMESTAMP cell is NULL")
  | VInt64 z => Ok (StrInt z)
  | VString text =>
      if IsAllDigits text then Ok text
      else parsed ← ParseTimestampWireString text; Ok (StrInt (ToUnixMicros parsed))
  | _ => Err (InvalidArgumentError $"StorageRead: TIMESTAMP cell has unsupported kind")
  end.

Definition ValueToCellForStorageRead (v : Value) (ty : ColumnType) : Cell :=
  if bool_decide (ty = kTimestamp) && match v with VNull => false | _ => true end
  then match TimestampValueToMicrosString v with
       | Ok micros => CString micros
       | Err _ => ValueToCell v
       end
  else ValueToCell v.
End cells.

Fixpoint SchemasEqualFrom (a b : list ColumnSchema) : bool :=
  match a, b with
  | [], [] => true
  | x :: a, y :: b =>
      bool_decide (col_name x = col_name y) && bool_decide (col_type x = col_type y) &&
      bool_decide (col_mode x = col_mode y) && SchemasEqualFrom a b
  | _, _ => false
  end.

Definition SchemasEqualByShape (a b : TableSchema) : bool :=
  bool_decide (length (columns a) = length (columns b)) &&
  SchemasEqualFrom (columns a) (columns b).

(** The first column of that name; [None] is [kColumnNotFound]. *)
Definition FindColumnByName (sch : TableSchema) (name : str) : option nat :=
  fst <$> list_find (fun c => col_name c = name) (columns sch).

Definition ProjectSchemaForResponse (sch : TableSchema) (names : list str) : TableSchema :=
  mkTableSchema
    (omap (fun name => idx ← FindColumnByName sch name; columns sch !! idx) names).

(** ** Sessions: storage_read.cc *)

Section sessions.
Context `{AbslText}.

Definition ParseReadSessionWhereSql {S}
    (TranspileRowRestriction : str -> TableId -> S -> StatusOr str)
    (opts : option ReadOptions) (t : TableId) (s : S) : StatusOr (option str) :=
  match opts with
  | None => Ok None
  | Some o =>
      if bool_decide (opt_row_restriction o = []) then Ok None
      else Some <$> TranspileRowRestriction (opt_row_restriction o) t s
  end.

Fixpoint CheckSelectedFields (sch : TableSchema) (names : list str) : StatusOr (list str) :=
  match names with
  | [] => Ok []
  | name :: names =>
      if bool_decide (name = [])
      then Err (InvalidArgumentError $"StorageRead.CreateReadSession: read_options.selected_fields entries must be non-empty")
      else match FindColumnByName sch name with
           | None => Err (InvalidArgumentError ($"StorageRead.CreateReadSession: read_options.selected_fields names unknown column `" ++ name ++ $"` (table has no top-level column with that name)"))
           | Some _ => rest ← CheckSelectedFields sch names; Ok (name :: rest)
           end
  end.

Definition ParseReadSessionSelectedFields (opts : option ReadOptions) (sch : TableSchema)
    : StatusOr (list str) :=
  match opts with
  | None => Ok []
  | Some o => CheckSelectedFields sch (opt_selected_fields o)
  end.

Definition NegotiateStreamCount (requested total : Z) : Z :=
  if (requested <=? 0)%Z then 1
  else if (total <=? 0)%Z then 1
  else Z.min (Z.min requested kMaxStreamCount) total.

(** Partition [i] of [stream_count]. *)
Definition BuildPartition (session_name : str) (stream_count total : Z) (i : Z)
    : StreamPartition :=
  mkPartition (session_name ++ kStreamsMarker ++ StrInt i)
    ((total * i) `quot` stream_count) ((total * (i + 1)) `quot` stream_count).

Definition BuildPartitions (session_name : str) (stream_count total : Z)
    : list StreamPartition :=
  map (fun i => BuildPartition session_name stream_count total (Z.of_nat i))
    (seq 0 (Z.to_nat stream_count)).

Definition ParseParent (parent : str) : Grpc str :=
  if bool_decide (parent = [])
  then rd_invalid $"StorageRead.CreateReadSession: parent is required (expected form projects/{project_id})"
  else match StrSplit parent "/" with
       | [p0; p1] =>
           if bool_decide (p0 = $"projects") && negb (bool_decide (p1 = []))
           then Ok p1
           else rd_invalid ($"StorageRead.CreateReadSession: malformed parent (expected form projects/{project_id}): " ++ parent)
       | _ => rd_invalid ($"StorageRead.CreateReadSession: malformed parent (expected form projects/{project_id}): " ++ parent)
       end.

Definition malformed_table (table_path : str) : Grpc TableId :=
  rd_invalid ($"StorageRead.CreateReadSession: malformed read_session.table (expected form projects/{project_id}/datasets/{dataset_id}/tables/{table_id}): " ++ table_path).

Definition ParseTablePath (table_path : str) : Grpc TableId :=
  if bool_decide (table_path = [])
  then rd_invalid $"StorageRead.CreateReadSession: read_session.table is required (expected form projects/{project_id}/datasets/{dataset_id}/tables/{table_id})"
  else match StrSplit table_path "/" with
       | [p0; p1; p2; p3; p4; p5] =>
           if bool_decide (p0 = $"projects") && bool_decide (p2 = $"datasets") &&
              bool_decide (p4 = $"tables") && negb (bool_decide (p1 = [])) &&
              negb (bool_decide (p3 = [])) && negb (bool_decide (p5 = []))
           then Ok (mkTableId p1 p3 p5) else malformed_table table_path
       | _ => malformed_table table_path
       end.

Definition session_name_for (project : str) (id : Z) : str :=
  $"projects/" ++ project ++ $"/locations/-/sessions/s" ++ StrInt id.

Definition NewSessionId {S} (svc : StorageReadService S) (project : str)
    : StorageReadService S * str :=
  let id := next_session_id_ svc in
  (mkReadService (rd_storage svc) (id + 1) (sessions_ svc), session_name_for project id).

Definition StreamIdForSession (session_name : str) (stream_index : Z) : str :=
  session_name ++ kStreamsMarker ++ StrInt stream_index.

(** Session name and stream key, split at the last [/streams/]. *)
Definition ParseReadStreamName (read_stream : str) : Grpc (str * str) :=
  if bool_decide (read_stream = [])
  then rd_invalid $"StorageRead: read_stream is required"
  else match rfind_sub kStreamsMarker read_stream with
       | Some (session_name, c :: key) => Ok (session_name, c :: key)
       | _ => rd_invalid ($"StorageRead: malformed read_stream (expected {session_name}/streams/{id}): " ++ read_stream)
       end.

(** [emplace] keeps an entry that is already there. *)
Definition emplace {A} (name : str) (a : A) (m : gmap str A) : gmap str A :=
  match m !! name with Some _ => m | None => <[name := a]> m end.

Definition add_partitions (parts : list StreamPartition) (m : gmap str StreamPartition)
    : gmap str StreamPartition :=
  fold_left (fun m p => emplace (part_name p) p m) parts m.

Definition CreateReadSession {S} `{Storage S}
    (TranspileRowRestriction : str -> TableId -> S -> StatusOr str)
    (svc : StorageReadService S) (req : CreateReadSessionRequest)
    : StorageReadService S * Grpc ReadSession :=
  match ParseParent (rq_parent req) with
  | Err e => (svc, Err e)
  | Ok project =>
  match ParseTablePath (rq_table req) with
  | Err e => (svc, Err e)
  | Ok tid =>
  if negb (bool_decide (project_id tid = project)) &&
     negb (bool_decide (project_id tid = kPublicDataProject))
  then (svc, rd_invalid ($"StorageRead.CreateReadSession: parent project (" ++ project ++ $") does not match read_session.table project (" ++ project_id tid ++ $")"))
  else
  match GetSchema (rd_storage svc) tid with
  | Err e => (svc, Err (AbslToGrpcStatus e))
  | Ok sch =>
  match ParseReadSessionWhereSql TranspileRowRestriction (rq_read_options req) tid (rd_storage svc) with
  | Err e => (svc, Err (AbslToGrpcStatus e))
  | Ok where_sql =>
  match ParseReadSessionSelectedFields (rq_read_options req) sch with
  | Err e => (svc, Err (AbslToGrpcStatus e))
  | Ok selected =>
  match CountRows (rd_storage svc) tid with
  | Err e => (svc, Err (AbslToGrpcStatus e))
  | Ok total =>
      let stream_count := NegotiateStreamCount (max_stream_count req) total in
      let '(svc, session_name) := NewSessionId svc project in
      let partitions := BuildPartitions session_name stream_count total in
      let state := mkSession tid sch where_sql selected total (add_partitions partitions ∅) 0 in
      (mkReadService (rd_storage svc) (next_session_id_ svc)
         (emplace session_name state (sessions_ svc)),
       Ok (mkReadSession session_name (rq_table req)
             (TableSchemaToProto
                match selected with
                | [] => sch
                | _ => ProjectSchemaForResponse sch selected
                end)
             (rq_read_options req) (map part_name partitions)))
  end end end end end end.

Definition SessionsForTesting {S} (svc : StorageReadService S) : nat := size (sessions_ svc).
End sessions.

(** ** ReadRows and SplitReadStream: storage_read_streams.cc *)

Section streams.
Context `{AbslText, AbslDouble, AbslTime}.

(** [writer->Write(page)]: [None] when the client has gone. *)
Definition WritePage (w : Writer) (page : list (list Cell)) (in_page : Z) : option Writer :=
  match wr_accepts w with
  | O => None
  | Datatypes.S k => Some (mkWriter k (wr_pages w ++ [mkPage page in_page]))
  end.

Definition client_cancelled {A} : Grpc A :=
  Err (mkGrpc ABORTED $"StorageRead.ReadRows: client cancelled mid-stream").

Definition row_to_cells (sch : TableSchema) (r : Row) : list Cell :=
  zip_with (fun v c => ValueToCellForStorageRead v (col_type c)) (cells r) (columns sch).

(** The paging loop over the rows the iterator still has. *)
Fixpoint StreamRowsLoop (rows : list Row) (err : option Status) (sch : TableSchema)
    (batch_size : Z) (page : list (list Cell)) (in_page : Z) (w : Writer)
    : Writer * Grpc unit :=
  match rows with
  | [] =>
      match err with
      | Some e => (w, Err (AbslToGrpcStatus e))
      | None =>
          if (0 <? in_page)%Z
          then match WritePage w page in_page with
               | None => (w, client_cancelled)
               | Some w => (w, Ok ())
               end
          else (w, Ok ())
      end
  | r :: rows =>
      if negb (bool_decide (length (cells r) = length (columns sch)))
      then (w, Err (mkGrpc INTERNAL ($"StorageRead.ReadRows: row cell count " ++ StrInt (Z.of_nat (length (cells r))) ++ $" does not match schema column count " ++ StrInt (Z.of_nat (length (columns sch))))))
      else
        let page := page ++ [row_to_cells sch r] in
        let in_page := (in_page + 1)%Z in
        if (batch_size <=? in_page)%Z
        then match WritePage w page in_page with
             | None => (w, client_cancelled)
             | Some w => StreamRowsLoop rows err sch batch_size [] 0 w
             end
        else StreamRowsLoop rows err sch batch_size page in_page w
  end.

Definition StreamRowsToWriter (it : RowIterator) (sch : TableSchema) (batch_size : Z)
    (w : Writer) : Writer * Grpc unit :=
  StreamRowsLoop (iter_rows it) (iter_error it) sch batch_size [] 0 w.

Definition ReadRows {S} `{Storage S} (svc : StorageReadService S) (read_stream : str)
    (req_offset : Z) (w : Writer) : Writer * Grpc unit :=
  match ParseReadStreamName read_stream with
  | Err e => (w, Err e)
  | Ok (session_name, _) =>
  match sessions_ svc !! session_name with
  | None => (w, rd_not_found ($"StorageRead.ReadRows: no such session (call CreateReadSession first): " ++ session_name))
  | Some ss =>
  match ss_streams ss !! read_stream with
  | None => (w, rd_not_found ($"StorageRead.ReadRows: no such stream: " ++ read_stream))
  | Some partition =>
  let t := ss_table ss in
  match GetSchema (rd_storage svc) t with
  | Err e => (w, Err (AbslToGrpcStatus e))
  | Ok live =>
  if negb (SchemasEqualByShape (ss_schema ss) live)
  then (w, rd_precondition ($"StorageRead.ReadRows: table schema for " ++ project_id t ++ $"." ++ dataset_id t ++ $"." ++ table_id t ++ $" changed since CreateReadSession; open a new session"))
  else
    let filter := mkReadFilter 0 req_offset (ss_selected_fields ss) [] (ss_where_sql ss) None
                    (part_start partition) (part_end partition) in
    match CreateReadStream (rd_storage svc) t filter with
    | Err e => (w, Err (AbslToGrpcStatus e))
    | Ok it =>
        let row_schema := match ss_selected_fields ss with
                          | [] => ss_schema ss
                          | sel => ProjectSchemaForResponse (ss_schema ss) sel
                          end in
        StreamRowsToWriter it row_schema kReadRowsBatchSize w
    end
  end end end end.

(** [static_cast<double>] of an integer, and [floor] of a double as an integer
    (the value [static_cast<std::int64_t>(std::floor(d))] when it fits). *)
Definition double_of_Z (z : Z) : spec_float := binary_normalize 53 1024 z 0 false.
Definition double_mul : spec_float -> spec_float -> spec_float := SFmul 53 1024.
Definition double_floor (d : spec_float) : Z :=
  match d with
  | S754_finite s m e => Z.shiftl (if s then Z.neg m else Z.pos m) e
  | _ => 0
  end.

Definition set_session {S} (svc : StorageReadService S) (name : str) (ss : SessionState)
    : StorageReadService S :=
  mkReadService (rd_storage svc) (next_session_id_ svc) (<[name := ss]> (sessions_ svc)).

Definition split_name (session_name : str) (id : Z) (suffix : ascii) : str :=
  session_name ++ $"/streams/split" ++ StrInt id ++ [suffix].

(** The point at which a range of [span] rows from [start] is cut. *)
Definition split_point (start span : Z) (fraction : spec_float) : Z :=
  start + double_floor (double_mul (double_of_Z span) fraction).

Definition SplitReadStream {S} (svc : StorageReadService S) (name : str)
    (fraction : spec_float) : StorageReadService S * Grpc (str * str) :=
  if bool_decide (name = [])
  then (svc, rd_invalid $"StorageRead.SplitReadStream: name is required")
  else if negb (SFltb (S754_zero false) fraction && SFltb fraction (double_of_Z 1))
  then (svc, rd_invalid ($"StorageRead.SplitReadStream: fraction must be in (0.0, 1.0); got " ++ StrDouble fraction))
  else match ParseReadStreamName name with
  | Err e => (svc, Err e)
  | Ok (session_name, _) =>
  match sessions_ svc !! session_name with
  | None => (svc, rd_not_found ($"StorageRead.SplitReadStream: no such session: " ++ session_name))
  | Some ss =>
  match ss_streams ss !! name with
  | None => (svc, rd_not_found ($"StorageRead.SplitReadStream: no such stream: " ++ name))
  | Some original =>
      let range_start := part_start original in
      let range_end := if (part_end original <? 0)%Z then total_rows ss else part_end original in
      let span := (range_end - range_start)%Z in
      if (span <=? 1)%Z
      then (svc, rd_precondition ($"StorageRead.SplitReadStream: stream cannot be split (remaining range has " ++ StrInt span ++ $" row(s)): " ++ name))
      else
        let split_at := split_point range_start span fraction in
        if (split_at <=? range_start)%Z || (range_end <=? split_at)%Z
        then (svc, rd_precondition $"StorageRead.SplitReadStream: split point leaves an empty child stream")
        else
          let split_id := next_split_id ss in
          let primary := mkPartition (split_name session_name split_id "p") range_start split_at in
          let remainder := mkPartition (split_name session_name split_id "r") split_at
                             (part_end original) in
          let ss := mkSession (ss_table ss) (ss_schema ss) (ss_where_sql ss)
                      (ss_selected_fields ss) (total_rows ss)
                      (add_partitions [primary; remainder] (ss_streams ss)) (split_id + 1) in
          (set_session svc session_name ss, Ok (part_name primary, part_name remainder))
  end end end.
End streams.

(** ** Stream names *)

Section name_laws.
Context `{AbslTextLaws}.

Lemma marker_inj (p q x y : str) :
  "/"%char ∉ x -> "/"%char ∉ y -> p ++ kStreamsMarker ++ x = q ++ kStreamsMarker ++ y ->
  p = q /\ x = y.
Proof.
  intros Hx Hy E. change kStreamsMarker with ($"/streams" ++ ["/"%char]) in E.
  rewrite <- !app_assoc, !(app_assoc p), !(app_assoc q) in E. cbn [app] in E.
  apply app_sep_inj_r in E as [E ->]; [|done..]. by apply app_inv_tail in E as ->.
Qed.

(** A key without a slash is what follows the last marker. *)
Lemma rfind_marker p key :
  "/"%char ∉ key -> rfind_sub kStreamsMarker (p ++ kStreamsMarker ++ key) = Some (p, key).
Proof.
  intros Hk. destruct (rfind_sub _ _) as [[a b]|] eqn:R.
  - pose proof (rfind_sub_last _ _ _ _ p key R eq_refl) as Hle.
    apply rfind_sub_Some in R.
    assert ("/"%char ∉ b) as Hb.
    { intros Hin. apply Hk.
      rewrite !app_assoc in R. apply app_eq_inv in R as [(k & E & ->)|(k & _ & ->)]; [|set_solver].
      apply (f_equal length) in E. rewrite !length_app in E.
      destruct k; [done|]. simpl in E. lia. }
    by apply marker_inj in R as [-> ->].
  - exfalso. apply (rfind_sub_None _ _ R). eauto.
Qed.

Lemma ParseReadStreamName_marker p key :
  "/"%char ∉ key -> key <> [] ->
  ParseReadStreamName (p ++ kStreamsMarker ++ key) = Ok (p, key).
Proof.
  intros Hk Hne. unfold ParseReadStreamName. rewrite bool_decide_false.
  - rewrite rfind_marker by done. by destruct key.
  - intros E. apply (f_equal length) in E. rewrite !length_app in E. simpl in E. lia.
Qed.
End name_laws.

(** ** Partitions *)

Definition bound (n total i : Z) : Z := (total * i) `quot` n.

Lemma bound_div n total i : (0 < n)%Z -> (0 <= total)%Z -> (0 <= i)%Z ->
  bound n total i = (total * i / n)%Z.
Proof. intros. unfold bound. apply Z.quot_div_nonneg; nia. Qed.

Lemma bound_0 n total : bound n total 0 = 0%Z.
Proof. unfold bound. rewrite Z.mul_0_r. by destruct n. Qed.

Lemma bound_n n total : (0 < n)%Z -> bound n total n = total.
Proof. intros. unfold bound. apply Z.quot_mul. lia. Qed.

(** Consecutive bounds are [total / n] apart, or one more. *)
Lemma bound_step n total i : (0 < n)%Z -> (0 <= total)%Z -> (0 <= i)%Z ->
  (total / n <= bound n total (i + 1) - bound n total i <= total / n + 1)%Z.
Proof.
  intros. rewrite !bound_div by lia.
  pose proof (Z.div_mod total n ltac:(lia)). pose proof (Z.mod_pos_bound total n ltac:(lia)).
  pose proof (Z.div_mod (total * i) n ltac:(lia)). pose proof (Z.mod_pos_bound (total * i) n ltac:(lia)).
  pose proof (Z.div_mod (total * (i + 1)) n ltac:(lia)).
  pose proof (Z.mod_pos_bound (total * (i + 1)) n ltac:(lia)). nia.
Qed.

Lemma bound_mono n total i j : (0 < n)%Z -> (0 <= total)%Z -> (0 <= i <= j)%Z ->
  (0 <= bound n total i <= bound n total j)%Z.
Proof.
  intros. rewrite !bound_div by lia. split; [apply Z.div_pos; nia|].
  apply Z.div_le_mono; nia.
Qed.

Lemma NegotiateStreamCount_bounds requested total :
  (1 <= NegotiateStreamCount requested total <= 1000)%Z /\
  ((0 < total)%Z -> (NegotiateStreamCount requested total <= total)%Z) /\
  ((0 < requested)%Z -> (NegotiateStreamCount requested total <= requested)%Z).
Proof.
  unfold NegotiateStreamCount, kMaxStreamCount.
  destruct (requested <=? 0)%Z eqn:E1; [bool_to_prop; lia|].
  destruct (total <=? 0)%Z eqn:E2; bool_to_prop; lia.
Qed.

(** Adjacent row ranges of a table concatenate. *)
Lemma partition_rows_app {A} (a b c : Z) (l : list A) :
  (0 <= a <= b)%Z -> (b <= c)%Z ->
  partition_rows a b l ++ partition_rows b c l = partition_rows a c l.
Proof.
  intros. unfold partition_rows. rewrite !(proj2 (Z.ltb_ge _ _)) by lia.
  rewrite !skipn_firstn_comm.
  replace (Z.to_nat c - Z.to_nat a) with ((Z.to_nat b - Z.to_nat a) + (Z.to_nat c - Z.to_nat b)) by lia.
  rewrite <- take_take_drop, drop_drop. do 2 f_equal. f_equal. lia.
Qed.

Lemma partition_rows_all {A} (l : list A) : partition_rows 0 (Z.of_nat (length l)) l = l.
Proof.
  unfold partition_rows. rewrite (proj2 (Z.ltb_ge _ _)), Nat2Z.id by lia. by rewrite take_ge.
Qed.

Lemma partition_rows_length {A} (a b : Z) (l : list A) :
  (0 <= a <= b)%Z -> (b <= Z.of_nat (length l))%Z ->
  length (partition_rows a b l) = Z.to_nat (b - a).
Proof.
  intros. unfold partition_rows. rewrite (proj2 (Z.ltb_ge _ _)) by lia.
  rewrite length_drop, length_take. lia.
Qed.

Section partitions.
Context `{AbslTextLaws}.

Definition part_rows {A} (p : StreamPartition) (l : list A) : list A :=
  partition_rows (part_start p) (part_end p) l.

Lemma BuildPartitions_prefix {A} sn n total k (l : list A) :
  (0 < n)%Z -> (0 <= total)%Z ->
  mjoin (map (fun i => part_rows (BuildPartition sn n total (Z.of_nat i)) l) (seq 0 k)) =
  partition_rows 0 (bound n total (Z.of_nat k)) l.
Proof.
  intros Hn Ht. induction k as [|k IH].
  - simpl seq. cbn [map]. rewrite bound_0. by destruct l.
  - rewrite seq_S, map_app, join_app, IH. cbn [map]. simpl mjoin. rewrite app_nil_r.
    change (part_rows _ l) with (partition_rows (bound n total (Z.of_nat k))
      (bound n total (Z.of_nat k + 1)) l).
    rewrite Nat2Z.inj_succ, <- Z.add_1_r.
    apply partition_rows_app; pose proof (bound_mono n total (Z.of_nat k) (Z.of_nat k + 1));
      pose proof (bound_0 n total); lia.
Qed.

Lemma BuildPartitions_cover {A} sn n (l : list A) :
  (0 < n)%Z ->
  mjoin (map (fun p => part_rows p l) (BuildPartitions sn n (Z.of_nat (length l)))) = l.
Proof.
  intros Hn. unfold BuildPartitions. rewrite map_map, BuildPartitions_prefix by lia.
  rewrite Z2Nat.id, bound_n by lia. apply partition_rows_all.
Qed.

Lemma BuildPartitions_in sn n total p :
  (0 < n)%Z -> (0 <= total)%Z -> p ∈ BuildPartitions sn n total ->
  exists i, (0 <= i < n)%Z /\ p = BuildPartition sn n total i /\
    (0 <= part_start p <= part_end p)%Z /\ (part_end p <= total)%Z.
Proof.
  intros Hn Ht Hin. unfold BuildPartitions in Hin.
  apply list_elem_of_fmap in Hin as (i & -> & Hi). apply elem_of_seq in Hi.
  exists (Z.of_nat i). split; [lia|]. split; [done|].
  pose proof (bound_mono n total (Z.of_nat i) (Z.of_nat i + 1) Hn Ht ltac:(lia)).
  pose proof (bound_mono n total (Z.of_nat i + 1) n Hn Ht ltac:(lia)).
  rewrite bound_n in * by lia. unfold bound in *. simpl. lia.
Qed.

Lemma BuildPartitions_names sn n total : NoDup (map part_name (BuildPartitions sn n total)).
Proof.
  unfold BuildPartitions. rewrite map_map. apply NoDup_fmap_2_strong; [|apply NoDup_seq].
  intros i j _ _ E. unfold BuildPartition in E. cbn [part_name] in E.
  apply app_inv_head, app_inv_head, StrInt_inj in E. lia.
Qed.

Lemma add_partitions_other parts m key :
  key ∉ map part_name parts -> add_partitions parts m !! key = m !! key.
Proof.
  revert m. induction parts as [|p parts IH]; intros m N; [done|].
  cbn [map] in N. apply not_elem_of_cons in N as [N1 N2].
  change (add_partitions (p :: parts) m) with (add_partitions parts (emplace (part_name p) p m)).
  rewrite IH by done. unfold emplace. case_match; [done|]. by rewrite lookup_insert_ne.
Qed.

Lemma add_partitions_lookup parts m p :
  NoDup (map part_name parts) -> p ∈ parts -> m !! part_name p = None ->
  add_partitions parts m !! part_name p = Some p.
Proof.
  revert m. induction parts as [|q parts IH]; intros m ND Hin L; [set_solver|].
  cbn [map] in ND. apply NoDup_cons in ND as [N ND].
  change (add_partitions (q :: parts) m) with (add_partitions parts (emplace (part_name q) q m)).
  apply elem_of_cons in Hin as [->|Hin].
  - rewrite add_partitions_other by done. unfold emplace. rewrite L. by rewrite lookup_insert_eq.
  - apply IH; [done..|]. unfold emplace. case_match; [done|].
    rewrite lookup_insert_ne; [done|]. intros E. apply N. rewrite E.
    apply list_elem_of_fmap. eauto.
Qed.

Lemma add_partitions_inv parts m key p :
  add_partitions parts m !! key = Some p ->
  m !! key = Some p \/ (p ∈ parts /\ key = part_name p).
Proof.
  revert m. induction parts as [|q parts IH]; intros m L; [by left|].
  change (add_partitions (q :: parts) m) with (add_partitions parts (emplace (part_name q) q m)) in L.
  apply IH in L as [L|[? ?]]; [|right; set_solver].
  unfold emplace in L. destruct (m !! part_name q) eqn:E; [by left|].
  destruct (decide (key = part_name q)) as [->|].
  - rewrite lookup_insert_eq in L. simplify_eq. right. set_solver.
  - rewrite lookup_insert_ne in L by done. by left.
Qed.
End partitions.

(** ** Paging *)

Section paging.
Context `{AbslText, AbslDouble, AbslTime}.

Definition row_fits (sch : TableSchema) (r : Row) : Prop :=
  length (cells r) = length (columns sch).

(** Well-formed pages: nonempty, at most [batch] rows, the count right, and all
    but the last full. *)
Fixpoint pages_ok (batch : nat) (ps : list ReadRowsResponse) : Prop :=
  match ps with
  | [] => True
  | p :: ps =>
      page_row_count p = Z.of_nat (length (page_rows p)) /\
      0 < length (page_rows p) <= batch /\
      (ps <> [] -> length (page_rows p) = batch) /\ pages_ok batch ps
  end.

Lemma StreamRowsLoop_complete rows sch (batch : nat) page w :
  Forall (row_fits sch) rows -> length page < batch ->
  (if decide (page = []) then length rows else Datatypes.S (length rows)) <= wr_accepts w ->
  exists ps w', StreamRowsLoop rows None sch (Z.of_nat batch) page (Z.of_nat (length page)) w = (w', Ok ()) /\
    wr_pages w' = wr_pages w ++ ps /\ pages_ok batch ps /\
    mjoin (map page_rows ps) = page ++ map (row_to_cells sch) rows.
Proof.
  intros F. revert page w. induction F as [|r rows Hr F IH]; intros page w Hp Hw; simpl.
  - rewrite app_nil_r. destruct page as [|c page].
    { exists [], w. by rewrite app_nil_r. }
    rewrite decide_False in Hw by done.
    destruct w as [[|k] pages]; [simpl in Hw; lia|]. cbn [Z.of_nat Z.ltb Z.compare].
    exists [mkPage (c :: page) (Z.of_nat (length (c :: page)))], (mkWriter k (pages ++ [mkPage (c :: page) (Z.of_nat (length (c :: page)))])).
    split; [done|]. split; [done|]. split; [|simpl; by rewrite app_nil_r].
    simpl in Hp |- *. repeat split; try done; lia.
  - rewrite bool_decide_true by done. simpl negb. cbn [row_fits].
    assert (length (page ++ [row_to_cells sch r]) = Datatypes.S (length page)) as El
      by (rewrite length_app; simpl; lia).
    replace (Z.of_nat (length page) + 1)%Z with (Z.of_nat (length (page ++ [row_to_cells sch r]))) by lia.
    destruct (Z.of_nat batch <=? _)%Z eqn:B; bool_to_prop.
    + destruct w as [[|k] pages]; [simpl in Hw; destruct (decide _); lia|].
      cbn [WritePage wr_accepts wr_pages].
      set (pg := mkPage (page ++ [row_to_cells sch r]) (Z.of_nat (length (page ++ [row_to_cells sch r])))).
      destruct (IH [] (mkWriter k (pages ++ [pg]))) as (ps & w' & E & Ew & Ok' & Ej);
        [simpl; lia|simpl; simpl in Hw; destruct (decide (page = [])); lia|].
      exists (pg :: ps), w'. split; [exact E|]. split; [by rewrite Ew; simpl; rewrite <- app_assoc|].
      split; [|cbn [map]; simpl mjoin; rewrite Ej; simpl; by rewrite <- app_assoc].
      simpl. repeat split; try done; lia.
    + destruct (IH (page ++ [row_to_cells sch r]) w) as (ps & w' & E & Ew & Ok' & Ej); [lia| |].
      { rewrite decide_False by (by destruct page). simpl in Hw. destruct (decide (page = [])); lia. }
      exists ps, w'. split; [exact E|]. split; [done|]. split; [done|].
      rewrite Ej. by rewrite <- app_assoc.
Qed.
End paging.

(** ** The session invariant *)

Section invariant.
Context `{AbslTextLaws}.

(** The ids a session gives its streams: partition numbers and split halves. *)
Inductive stream_id (next : Z) : str -> Prop :=
| id_partition i : stream_id next (StrInt i)
| id_split k suffix :
    (k < next)%Z -> suffix = "p"%char \/ suffix = "r"%char ->
    stream_id next ($"split" ++ StrInt k ++ [suffix]).

Definition session_inv (name : str) (ss : SessionState) : Prop :=
  forall key p, ss_streams ss !! key = Some p ->
    part_name p = key /\ (0 <= part_start p <= part_end p)%Z /\ (part_end p <= total_rows ss)%Z /\
    exists id, key = name ++ kStreamsMarker ++ id /\ stream_id (next_split_id ss) id.

Definition read_inv {S} (svc : StorageReadService S) : Prop :=
  forall name ss, sessions_ svc !! name = Some ss ->
    session_inv name ss /\
    exists project k, (k < next_session_id_ svc)%Z /\ name = session_name_for project k.

Lemma digit_or_minus_no_slash z : "/"%char ∉ StrInt z.
Proof.
  apply StrInt_no_char; [|done].
  apply not_true_is_false. intros E%ascii_isdigit_spec. by destruct E.
Qed.

Lemma stream_id_key next id : stream_id next id -> ("/"%char ∉ id) /\ id <> [].
Proof.
  destruct 1 as [i|k suffix _ Hs].
  - split; [apply digit_or_minus_no_slash|apply StrInt_nonempty].
  - split; [|done]. rewrite !elem_of_app. intros [Hin|[Hin|Hin]].
    + vm_compute in Hin. set_solver.
    + by apply digit_or_minus_no_slash in Hin.
    + destruct Hs; subst; set_solver.
Qed.

Lemma stream_id_mono next next' id : (next <= next')%Z -> stream_id next id -> stream_id next' id.
Proof. destruct 2; constructor; [lia|done]. Qed.

Lemma session_name_inj p q k j : session_name_for p k = session_name_for q j -> k = j.
Proof.
  unfold session_name_for. intros E.
  assert (forall r z, $"projects/" ++ r ++ $"/locations/-/sessions/s" ++ StrInt z =
    ($"projects/" ++ r ++ $"/locations/-/sessions") ++ "/"%char :: "s"%char :: StrInt z) as K.
  { intros r z. rewrite <- !app_assoc. done. }
  rewrite !K in E. apply app_sep_inj_r in E as [_ E].
  - injection E as E. by apply StrInt_inj.
  - rewrite elem_of_cons. intros [?|Hin]; [done|]. by apply digit_or_minus_no_slash in Hin.
  - rewrite elem_of_cons. intros [?|Hin]; [done|]. by apply digit_or_minus_no_slash in Hin.
Qed.

Lemma session_name_fresh {S} (svc : StorageReadService S) project :
  read_inv svc -> sessions_ svc !! session_name_for project (next_session_id_ svc) = None.
Proof.
  intros I. destruct (_ !! _) as [ss|] eqn:L; [|done].
  destruct (I _ _ L) as (_ & p & k & Hk & E). apply session_name_inj in E. lia.
Qed.

(** A split half is a new name in its session. *)
Lemma split_name_fresh name ss suffix :
  session_inv name ss -> suffix = "p"%char \/ suffix = "r"%char ->
  ss_streams ss !! split_name name (next_split_id ss) suffix = None.
Proof.
  intros I Hs. destruct (_ !! _) as [p|] eqn:L; [|done]. exfalso.
  destruct (I _ _ L) as (_ & _ & _ & id & E & Hid).
  change (split_name name (next_split_id ss) suffix) with
    (name ++ kStreamsMarker ++ $"split" ++ StrInt (next_split_id ss) ++ [suffix]) in E.
  apply app_inv_head, app_inv_head in E. destruct Hid as [i|k s Hk _].
  - pose proof (StrInt_chars i) as F. rewrite <- E in F.
    apply Forall_inv in F as [D%ascii_isdigit_spec|D]; [by destruct D|done].
  - apply app_inv_head in E. apply app_inj_tail in E as [E _]. apply StrInt_inj in E. lia.
Qed.

Lemma split_names_differ name k : split_name name k "p" <> split_name name k "r".
Proof.
  unfold split_name. intros E. do 2 apply app_inv_head in E. by apply app_inv_head in E.
Qed.

Lemma BuildPartitions_session_inv name t sch wh sel n total :
  (0 < n)%Z -> (0 <= total)%Z ->
  session_inv name (mkSession t sch wh sel total
    (add_partitions (BuildPartitions name n total) ∅) 0).
Proof.
  intros Hn Ht key p L. simpl in L. apply add_partitions_inv in L as [L|[Hin ->]]; [by rewrite lookup_empty in L|].
  destruct (BuildPartitions_in _ _ _ _ Hn Ht Hin) as (i & Hi & -> & R1 & R2).
  split; [done|]. split; [done|]. split; [done|].
  exists (StrInt i). split; [done|constructor].
Qed.
End invariant.

Section handler_laws.
Context `{AbslTextLaws, AbslDouble, AbslTime} {S : Type} `{StorageLaws S}.
Context (TranspileRowRestriction : str -> TableId -> S -> StatusOr str).
Implicit Types (svc : StorageReadService S).

(** The state a successful CreateReadSession leaves. *)
Lemma CreateReadSession_Ok svc req svc' rs :
  CreateReadSession TranspileRowRestriction svc req = (svc', Ok rs) -> read_inv svc ->
  exists project tid sch wh sel,
    let name := session_name_for project (next_session_id_ svc) in
    let total := Z.of_nat (length (contents (rd_storage svc) tid)) in
    let parts := BuildPartitions name (NegotiateStreamCount (max_stream_count req) total) total in
    ParseTablePath (rq_table req) = Ok tid /\ GetSchema (rd_storage svc) tid = Ok sch /\
    ParseReadSessionWhereSql TranspileRowRestriction (rq_read_options req) tid (rd_storage svc) = Ok wh /\
    ParseReadSessionSelectedFields (rq_read_options req) sch = Ok sel /\
    rs_name rs = name /\ rs_streams rs = map part_name parts /\
    sessions_ svc !! name = None /\
    svc' = mkReadService (rd_storage svc) (next_session_id_ svc + 1)
             (<[name := mkSession tid sch wh sel total (add_partitions parts ∅) 0]> (sessions_ svc)).
Proof.
  unfold CreateReadSession. intros E I.
  destruct (ParseParent _) as [project|] eqn:E1; [|done].
  destruct (ParseTablePath _) as [tid|] eqn:E2; [|done].
  destruct (_ && _); [done|].
  destruct (GetSchema _ _) as [sch|] eqn:E3; [|done].
  destruct (ParseReadSessionWhereSql _ _ _ _) as [wh|] eqn:E4; [|done].
  destruct (ParseReadSessionSelectedFields _ _) as [sel|] eqn:E5; [|done].
  destruct (CountRows _ _) as [total|] eqn:E6; [|done].
  apply count_ok in E6. unfold NewSessionId, emplace in E. cbn [sessions_ rd_storage next_session_id_] in E.
  rewrite session_name_fresh in E by done. simplify_eq/=.
  exists project, tid, sch, wh, sel.
  do 7 (split; [by auto using session_name_fresh|]). done.
Qed.

Lemma CreateReadSession_inv svc req :
  read_inv svc -> read_inv (CreateReadSession TranspileRowRestriction svc req).1.
Proof.
  intros I. destruct (CreateReadSession _ svc req) as [svc' [rs|e]] eqn:E.
  - apply CreateReadSession_Ok in E as (project & tid & sch & wh & sel & _ & _ & _ & _ & _ & _ & _ & ->); [|done].
    intros name ss. simpl. destruct (decide (name = session_name_for project (next_session_id_ svc))) as [->|].
    + rewrite lookup_insert_eq. intros [= <-]. split.
      * apply BuildPartitions_session_inv; [|lia].
        pose proof (NegotiateStreamCount_bounds (max_stream_count req)
          (Z.of_nat (length (contents (rd_storage svc) tid)))). lia.
      * eexists _, _. split; [|done]. lia.
    + rewrite lookup_insert_ne by done. intros L. destruct (I _ _ L) as (? & p & k & ? & ?).
      split; [done|]. exists p, k. split; [lia|done].
  - assert (svc' = svc) as ->; [|done].
    unfold CreateReadSession, NewSessionId in E. repeat case_match; by simplify_eq/=.
Qed.

Lemma SplitReadStream_Ok svc name fraction svc' p r :
  SplitReadStream svc name fraction = (svc', Ok (p, r)) -> read_inv svc ->
  exists sname ss original mid,
    sessions_ svc !! sname = Some ss /\ ss_streams ss !! name = Some original /\
    (part_start original < mid < part_end original)%Z /\
    p = split_name sname (next_split_id ss) "p" /\ r = split_name sname (next_split_id ss) "r" /\
    svc' = set_session svc sname (mkSession (ss_table ss) (ss_schema ss) (ss_where_sql ss)
      (ss_selected_fields ss) (total_rows ss)
      (<[r := mkPartition r mid (part_end original)]>
         (<[p := mkPartition p (part_start original) mid]> (ss_streams ss)))
      (next_split_id ss + 1)).
Proof.
  unfold SplitReadStream. intros E I. case_bool_decide; [done|].
  destruct (negb _); [done|]. destruct (ParseReadStreamName name) as [[sname key]|]; [|done].
  destruct (sessions_ svc !! sname) as [ss|] eqn:L; [|done].
  destruct (ss_streams ss !! name) as [o|] eqn:Ls; [|done].
  destruct (I _ _ L) as [Is _]. destruct (Is _ _ Ls) as (_ & R1 & _ & _).
  destruct (part_end o <? 0)%Z eqn:Neg; [bool_to_prop; lia|].
  destruct (_ <=? 1)%Z; [done|]. set (mid := split_point _ _ _) in E.
  destruct (_ || _) eqn:B; [done|]. bool_to_prop. injection E as <- <- <-.
  exists sname, ss, o, mid. do 5 (split; [done || lia|]).
  do 2 f_equal. unfold add_partitions, emplace. simpl.
  rewrite (split_name_fresh sname ss "p"), lookup_insert_ne by auto using split_names_differ.
  by rewrite (split_name_fresh sname ss "r") by auto.
Qed.

Lemma SplitReadStream_inv svc name fraction :
  read_inv svc -> read_inv (SplitReadStream svc name fraction).1.
Proof.
  intros I. destruct (SplitReadStream svc name fraction) as [svc' [[p r]|e]] eqn:E.
  - apply SplitReadStream_Ok in E as (sname & ss & o & mid & L & Lo & Hm & -> & -> & ->); [|done].
    destruct (I _ _ L) as [Is Hname]. destruct (Is _ _ Lo) as (_ & R1 & R2 & _).
    intros n0 ss0. simpl. destruct (decide (n0 = sname)) as [->|]; [|rewrite lookup_insert_ne by done; apply I].
    rewrite lookup_insert_eq. intros [= <-]. split; [|done].
    intros key q. simpl.
    assert (forall sfx, sfx = "p"%char \/ sfx = "r"%char -> exists id,
      split_name sname (next_split_id ss) sfx = sname ++ kStreamsMarker ++ id /\
      stream_id (next_split_id ss + 1) id) as Hid.
    { intros sfx Hs. eexists. split; [done|]. apply id_split; [lia|done]. }
    destruct (decide (key = split_name sname (next_split_id ss) "r")) as [->|Hr].
    { rewrite lookup_insert_eq. intros [= <-]. simpl. repeat split; auto; lia. }
    rewrite lookup_insert_ne by done.
    destruct (decide (key = split_name sname (next_split_id ss) "p")) as [->|Hp].
    { rewrite lookup_insert_eq. intros [= <-]. simpl. repeat split; auto; lia. }
    rewrite lookup_insert_ne by done. intros Lq. destruct (Is _ _ Lq) as (? & ? & ? & id & ? & ?).
    repeat split; try done; try lia. exists id. split; [done|]. by eapply stream_id_mono; [|done]; lia.
  - assert (svc' = svc) as ->; [|done].
    unfold SplitReadStream in E. repeat case_match; by simplify_eq/=.
Qed.
End handler_laws.

(** ** Reading a stream *)

Section reading.
Context `{AbslTextLaws, AbslDouble, AbslTime} {S : Type} `{StorageLaws S}.
Implicit Types (svc : StorageReadService S).

(** The store serves scans of the table that ask for no predicate and no
    projection, and they end without an error. *)
Definition readable (s : S) (t : TableId) : Prop :=
  forall f, where_sql f = None -> equality_predicate f = None -> selected_fields f = [] ->
    exists it, CreateReadStream s t f = Ok it /\ iter_error it = None.

(** A session over a whole table: no restriction, no projection, the table
    readable, its schema unchanged, every row as wide as the schema. *)
Definition whole_table svc (ss : SessionState) : Prop :=
  ss_where_sql ss = None /\ ss_selected_fields ss = [] /\
  readable (rd_storage svc) (ss_table ss) /\
  (exists live, GetSchema (rd_storage svc) (ss_table ss) = Ok live /\
                SchemasEqualByShape (ss_schema ss) live = true) /\
  Forall (row_fits (ss_schema ss)) (contents (rd_storage svc) (ss_table ss)).

Lemma session_stream_parses svc sname ss key p :
  read_inv svc -> sessions_ svc !! sname = Some ss -> ss_streams ss !! key = Some p ->
  exists id, ParseReadStreamName key = Ok (sname, id).
Proof.
  intros I L Ls. destruct (I _ _ L) as [Is _]. destruct (Is _ _ Ls) as (_ & _ & _ & id & -> & Hid).
  apply stream_id_key in Hid as [? ?]. exists id. by apply ParseReadStreamName_marker.
Qed.

Lemma ReadRows_whole svc sname ss name p off (n : nat) :
  read_inv svc -> sessions_ svc !! sname = Some ss -> ss_streams ss !! name = Some p ->
  whole_table svc ss -> length (contents (rd_storage svc) (ss_table ss)) <= n ->
  exists w', ReadRows svc name off (mkWriter n []) = (w', Ok ()) /\
    pages_ok 100 (wr_pages w') /\
    mjoin (map page_rows (wr_pages w')) =
      map (row_to_cells (ss_schema ss))
        (drop (Z.to_nat off) (part_rows p (contents (rd_storage svc) (ss_table ss)))).
Proof.
  intros I L Ls (Hw & Hsel & Hread & (live & G & Sh) & Fit) Hn.
  destruct (session_stream_parses _ _ _ _ _ I L Ls) as [id P].
  unfold ReadRows. rewrite P, L, Ls, G, Sh, Hw, Hsel. simpl negb.
  set (f := mkReadFilter _ _ _ _ _ _ _ _).
  destruct (Hread f) as (it & C & Ie); [done..|].
  pose proof (read_ok _ _ _ _ C eq_refl eq_refl eq_refl Ie) as Er.
  cbv iota zeta. rewrite C. unfold StreamRowsToWriter. rewrite Ie, Er.
  set (rows := filter_rows f _).
  assert (rows = drop (Z.to_nat off) (part_rows p (contents (rd_storage svc) (ss_table ss)))) as Hr by done.
  assert (length rows <= length (contents (rd_storage svc) (ss_table ss))) as Hl.
  { rewrite Hr, length_drop. unfold part_rows, partition_rows. rewrite length_drop.
    case_match; rewrite ?length_take; lia. }
  destruct (StreamRowsLoop_complete rows (ss_schema ss) 100 [] (mkWriter n [])) as (ps & w' & E & Ew & Ok' & Ej).
  - rewrite Hr. apply Forall_drop. unfold part_rows, partition_rows. apply Forall_drop.
    case_match; [done|by apply Forall_take].
  - simpl. lia.
  - simpl. lia.
  - exists w'. split; [exact E|]. rewrite Ew. simpl. split; [done|]. rewrite Ej, <- Hr. done.
Qed.

(** What a client collects from a stream, reading from an offset. *)
Definition stream_output svc (n : nat) (off : Z) (name : str) : list (list Cell) :=
  mjoin (map page_rows (wr_pages (ReadRows svc name off (mkWriter n [])).1)).

Lemma stream_output_whole svc sname ss name p off n :
  read_inv svc -> sessions_ svc !! sname = Some ss -> ss_streams ss !! name = Some p ->
  whole_table svc ss -> length (contents (rd_storage svc) (ss_table ss)) <= n ->
  stream_output svc n off name =
    map (row_to_cells (ss_schema ss))
      (drop (Z.to_nat off) (part_rows p (contents (rd_storage svc) (ss_table ss)))).
Proof.
  intros I L Ls Hw Hn. destruct (ReadRows_whole svc sname ss name p off n I L Ls Hw Hn) as (w' & E & _ & Ej).
  unfold stream_output. by rewrite E.
Qed.

Lemma SchemasEqualByShape_refl sch : SchemasEqualByShape sch sch = true.
Proof.
  unfold SchemasEqualByShape. rewrite bool_decide_true by done. simpl.
  induction (columns sch) as [|c l IH]; simpl; [done|]. by rewrite !bool_decide_true, IH.
Qed.

Lemma mjoin_map_compose {A B} (f : A -> B) (ll : list (list A)) :
  mjoin (map (map f) ll) = map f (mjoin ll).
Proof. induction ll as [|l ll IH]; [done|]. simpl. by rewrite map_app, <- IH. Qed.

End reading.

(** ** Properties *)

Section properties.
Context `{AbslTextLaws, AbslDouble, AbslTime} {S : Type} `{StorageLaws S}.
Context (TranspileRowRestriction : str -> TableId -> S -> StatusOr str).
Implicit Types (svc : StorageReadService S).

(** C2: A read session over a whole table is complete: every stream the
    session returns can be read to its end, in well-formed pages, and the
    streams in order yield every row of the table exactly once, in table
    order. *)
Theorem read_session_complete svc req svc' rs tid sch (n : nat)
    (I : read_inv svc)
    (E : CreateReadSession TranspileRowRestriction svc req = (svc', Ok rs))
    (Hopt : rq_read_options req = None)
    (Ht : ParseTablePath (rq_table req) = Ok tid)
    (Hs : GetSchema (rd_storage svc) tid = Ok sch)
    (Hread : readable (rd_storage svc) tid)
    (Hfit : Forall (row_fits sch) (contents (rd_storage svc) tid))
    (Hn : length (contents (rd_storage svc) tid) <= n) :
  (forall name, name ∈ rs_streams rs -> exists w',
     ReadRows svc' name 0 (mkWriter n []) = (w', Ok ()) /\ pages_ok 100 (wr_pages w')) /\
  mjoin (map (stream_output svc' n 0) (rs_streams rs)) =
    map (row_to_cells sch) (contents (rd_storage svc) tid).
Proof.
  pose proof (CreateReadSession_inv TranspileRowRestriction svc req I) as I'. rewrite E in I'.
  apply CreateReadSession_Ok in E
    as (project & t' & sch' & wh & sel & Ht' & Hs' & Hw & Hsel & Hn' & Hstr & Hnew & ->); [|done].
  rewrite Hopt in Hw, Hsel. simpl in Hw, Hsel. simplify_eq.
  rewrite Ht in Ht'. injection Ht' as <-. rewrite Hs in Hs'. injection Hs' as <-. rewrite Hstr.
  set (sname := session_name_for _ _) in *. set (total := Z.of_nat _) in *.
  set (cnt := NegotiateStreamCount _ _) in *. set (svc' := mkReadService _ _ _) in *.
  assert (0 < cnt)%Z by (pose proof (NegotiateStreamCount_bounds (max_stream_count req) total); lia).
  set (ss := mkSession _ _ _ _ _ _ _) in *.
  assert (sessions_ svc' !! sname = Some ss) as L by (simpl; by rewrite lookup_insert_eq).
  assert (whole_table svc' ss) as W.
  { split; [reflexivity|]. split; [reflexivity|]. split; [exact Hread|]. split; [|exact Hfit].
    exists sch. split; [exact Hs|apply SchemasEqualByShape_refl]. }
  assert (forall p, p ∈ BuildPartitions sname cnt total -> ss_streams ss !! part_name p = Some p) as Lp.
  { intros p Hp. apply add_partitions_lookup; [apply BuildPartitions_names|done|apply lookup_empty]. }
  split.
  - intros name Hin. apply list_elem_of_fmap in Hin as (p & -> & Hp).
    destruct (ReadRows_whole svc' sname ss (part_name p) p 0 n I' L (Lp p Hp) W Hn) as (w' & E & Pg & _).
    by exists w'.
  - rewrite map_map.
    rewrite (map_ext_in _ (fun p => map (row_to_cells sch) (part_rows p (contents (rd_storage svc) tid)))).
    + rewrite <- (map_map (fun p => part_rows p (contents (rd_storage svc) tid)) (map (row_to_cells sch))).
      rewrite mjoin_map_compose. f_equal. by apply BuildPartitions_cover.
    + intros p Hp%list_elem_of_In.
      by rewrite (stream_output_whole svc' sname ss (part_name p) p 0 n I' L (Lp p Hp) W Hn).
Qed.

(** SplitReadStream neither loses nor duplicates rows: the two streams it
    returns are new, both are nonempty, and reading the primary and then the
    remainder yields exactly what the split stream yields. *)
Theorem split_preserves_rows svc name fraction svc' p r sname ss (n : nat)
    (I : read_inv svc)
    (E : SplitReadStream svc name fraction = (svc', Ok (p, r)))
    (L : sessions_ svc !! sname = Some ss) (Hin : is_Some (ss_streams ss !! name))
    (W : whole_table svc ss) (Hn : length (contents (rd_storage svc) (ss_table ss)) <= n)
    (Htot : total_rows ss = Z.of_nat (length (contents (rd_storage svc) (ss_table ss)))) :
  p <> r /\ ss_streams ss !! p = None /\ ss_streams ss !! r = None /\
  stream_output svc' n 0 p <> [] /\ stream_output svc' n 0 r <> [] /\
  stream_output svc' n 0 p ++ stream_output svc' n 0 r = stream_output svc n 0 name.
Proof.
  pose proof (SplitReadStream_inv svc name fraction I) as I'. rewrite E in I'. simpl in I'.
  apply SplitReadStream_Ok in E as (sn & ss1 & o & mid & L1 & Lo & Hm & -> & -> & ->); [|done].
  assert (sn = sname) as ->.
  { destruct Hin as [o' Lo'].
    destruct (session_stream_parses svc sn ss1 name o I L1 Lo) as [id1 P1].
    destruct (session_stream_parses svc sname ss name o' I L Lo') as [id2 P2]. congruence. }
  rewrite L in L1. injection L1 as <-.
  destruct (I _ _ L) as [Is _]. destruct (Is _ _ Lo) as (_ & R1 & R2 & _).
  set (p := split_name _ _ "p") in *. set (r := split_name _ _ "r") in *.
  assert (p <> r) as Hpr by apply split_names_differ.
  split; [done|]. split; [apply split_name_fresh; auto|]. split; [apply split_name_fresh; auto|].
  set (ss' := mkSession _ _ _ _ _ _ _) in *.
  set (svc' := set_session _ _ _) in *.
  assert (sessions_ svc' !! sname = Some ss') as L' by (simpl; by rewrite lookup_insert_eq).
  assert (ss_streams ss' !! p = Some (mkPartition p (part_start o) mid)) as Lp
    by (simpl; by rewrite lookup_insert_ne, lookup_insert_eq).
  assert (ss_streams ss' !! r = Some (mkPartition r mid (part_end o))) as Lr
    by (simpl; by rewrite lookup_insert_eq).
  rewrite (stream_output_whole svc' sname ss' p _ 0 n I' L' Lp W Hn).
  rewrite (stream_output_whole svc' sname ss' r _ 0 n I' L' Lr W Hn).
  rewrite (stream_output_whole svc sname ss name o 0 n I L Lo W Hn).
  unfold part_rows. simpl part_start. simpl part_end. rewrite !drop_0.
  change (ss_table ss') with (ss_table ss). change (rd_storage svc') with (rd_storage svc).
  change (ss_schema ss') with (ss_schema ss).
  set (l := contents _ _) in *.
  assert (forall a b, (0 <= a < b)%Z -> (b <= Z.of_nat (length l))%Z ->
    map (row_to_cells (ss_schema ss)) (partition_rows a b l) <> []) as NE.
  { intros a b ? ? Hnil%map_eq_nil. apply (f_equal length) in Hnil.
    rewrite partition_rows_length in Hnil by lia. simpl in Hnil. lia. }
  split; [apply NE; lia|]. split; [apply NE; lia|].
  rewrite <- map_app, partition_rows_app by lia. done.
Qed.

(** Resuming a stream at offset [k] yields exactly the rows a full read
    yields after its first [k]. *)
Theorem read_rows_resume svc sname ss name k (n : nat)
    (I : read_inv svc) (L : sessions_ svc !! sname = Some ss)
    (Hin : is_Some (ss_streams ss !! name)) (W : whole_table svc ss)
    (Hn : length (contents (rd_storage svc) (ss_table ss)) <= n) :
  stream_output svc n (Z.of_nat k) name = drop k (stream_output svc n 0 name).
Proof.
  destruct Hin as [p Lp].
  rewrite !(stream_output_whole svc sname ss name p _ n I L Lp W Hn).
  rewrite Nat2Z.id. change (Z.to_nat 0) with 0. rewrite drop_0. symmetry. apply skipn_map.
Qed.

(** The partitions of a table of [total] rows over the negotiated number of
    streams are balanced: each holds [total / n] rows or one more, none is empty
    when the table is not, and the products the code computes stay within 64
    bits for tables of up to [int64_max / 1000] rows. *)
Theorem partitions_balanced sname requested total p
    (Ht : (0 <= total <= int64_max / 1000)%Z)
    (Hp : p ∈ BuildPartitions sname (NegotiateStreamCount requested total) total) :
  let n := NegotiateStreamCount requested total in
  (total / n <= part_end p - part_start p <= total / n + 1)%Z /\
  ((0 < total)%Z -> (part_start p < part_end p)%Z) /\
  (forall i, (0 <= i <= n)%Z -> in_int64 (total * i)).
Proof.
  cbn zeta. pose proof (NegotiateStreamCount_bounds requested total) as (B1 & B2 & _).
  set (n := NegotiateStreamCount requested total) in *.
  destruct (BuildPartitions_in sname n total p ltac:(lia) ltac:(lia) Hp) as (i & Hi & -> & _ & _).
  pose proof (bound_step n total i ltac:(lia) ltac:(lia) ltac:(lia)) as St.
  unfold bound in St. unfold BuildPartition. cbn [part_end part_start].
  split; [done|]. split.
  - intros Hpos. assert (1 <= total / n)%Z by (apply Z.div_le_lower_bound; lia). lia.
  - intros j Hj. unfold in_int64, int64_min, int64_max in *.
    assert (total * j <= total * 1000)%Z by nia.
    assert (1000 * ((2 ^ 63 - 1) / 1000) <= 2 ^ 63 - 1)%Z by (apply Z.mul_div_le; lia). nia.
Qed.

(** A call of the service that changes its sessions. *)
Inductive ReadCall :=
| CallSession (req : CreateReadSessionRequest)
| CallSplit (name : str) (fraction : spec_float).

Definition exec_read svc (c : ReadCall) : StorageReadService S :=
  match c with
  | CallSession req => (CreateReadSession TranspileRowRestriction svc req).1
  | CallSplit name fraction => (SplitReadStream svc name fraction).1
  end.

(** In every state the service reaches, whatever sessions are opened and
    split, every stream of a session covers a range of the rows counted when the
    session was opened, and its name is one that ReadRows resolves back to that
    session. *)
Theorem read_sessions_consistent (s : S) calls sname ss name p
    (L : sessions_ (fold_left exec_read calls (mkReadService s 1 ∅)) !! sname = Some ss)
    (Lp : ss_streams ss !! name = Some p) :
  (0 <= part_start p <= part_end p)%Z /\ (part_end p <= total_rows ss)%Z /\
  part_name p = name /\ exists id, ParseReadStreamName name = Ok (sname, id).
Proof.
  assert (forall calls svc, read_inv svc -> read_inv (fold_left exec_read calls svc)) as K.
  { intros cs. induction cs as [|[req|nm fr] cs IH]; intros svc I; simpl; [done|apply IH..].
    - by apply CreateReadSession_inv.
    - by apply SplitReadStream_inv. }
  assert (read_inv (fold_left exec_read calls (mkReadService s 1 ∅))) as I.
  { apply K. intros n0 ss0. simpl. by rewrite lookup_empty. }
  destruct (I _ _ L) as [Is _]. destruct (Is _ _ Lp) as (? & ? & ? & _).
  do 3 (split; [done|]). by eapply session_stream_parses.
Qed.
End properties.

(** Fields accepted at session creation project to exactly these columns,
    in the order requested; an unknown or empty field is refused with
    INVALID_ARGUMENT. *)
Theorem selected_fields_project `{AbslText} sch opts :
  match ParseReadSessionSelectedFields (Some opts) sch with
  | Ok sel => sel = opt_selected_fields opts /\
      map col_name (columns (ProjectSchemaForResponse sch sel)) = sel
  | Err e => code e = kInvalidArgument /\
      exists f, f ∈ opt_selected_fields opts /\ (f = [] \/ f ∉ map col_name (columns sch))
  end.
Proof.
  simpl. induction (opt_selected_fields opts) as [|f fs IH]; simpl; [done|].
  case_bool_decide as Hf; [split; [done|]; set_solver|].
  destruct (FindColumnByName sch f) as [idx|] eqn:Fd; simpl.
  - unfold FindColumnByName in Fd. apply fmap_Some in Fd as ([i c] & Fd & ->).
    pose proof Fd as Fd'. apply list_find_Some in Fd as (Lc & Hc & _).
    destruct (CheckSelectedFields sch fs) as [sel|e]; simpl.
    + destruct IH as [-> IH]. split; [done|].
      unfold ProjectSchemaForResponse, FindColumnByName in IH |- *. simpl in IH |- *.
      rewrite Fd'. simpl. rewrite Lc. simpl. f_equal; [exact Hc|exact IH].
    + destruct IH as (? & g & ? & ?). split; [done|]. exists g. set_solver.
  - split; [done|]. exists f. split; [set_solver|]. right.
    unfold FindColumnByName in Fd. apply fmap_None, list_find_None in Fd.
    intros (c & -> & Hc)%list_elem_of_fmap. rewrite Forall_forall in Fd. by apply (Fd c Hc).
Qed.


(** ** Witnesses over a small store *)

Module Demo.

(** Strings only: doubles and timestamps do not occur in the tables below. *)
#[local] Instance demo_double : AbslDouble := fun _ => [].
#[local] Instance demo_time : AbslTime :=
  {| Time := Z; ParseTime := fun _ _ => None; ToUnixMicros := fun t => t |}.

Definition rd_table_id : TableId := mkTableId $"p" $"d" $"t".
Definition rd_schema : TableSchema := mkTableSchema [mkColumn $"name" kString kNullable [] [] []].
Definition rd_rows : list Row := map (fun v => mkRow [VString v]) [$"a"; $"b"; $"c"; $"d"; $"e"].
Definition rd_store : MemStore.t := {[ rd_table_id := MemStore.mkTable rd_schema rd_rows ]}.
Definition rd_init : StorageReadService MemStore.t := mkReadService rd_store 1 ∅.
Definition rd_request : CreateReadSessionRequest :=
  mkReadReq $"projects/p" $"projects/p/datasets/d/tables/t" None 2.
Definition no_restriction : str -> TableId -> MemStore.t -> StatusOr str := fun s _ _ => Ok s.

Definition rd_session_name : str := $"projects/p/locations/-/sessions/s1".
Definition rd_stream (i : Z) : str := StreamIdForSession rd_session_name i.
Definition rd_service : StorageReadService MemStore.t :=
  (CreateReadSession no_restriction rd_init rd_request).1.
Definition rd_session : SessionState :=
  mkSession rd_table_id rd_schema None [] 5
    (add_partitions [mkPartition (rd_stream 0) 0 2; mkPartition (rd_stream 1) 2 5] ∅) 0.
Definition half : spec_float := S754_finite false 4503599627370496 (-53).

Lemma rd_init_inv : read_inv rd_init.
Proof. intros name ss. simpl. by rewrite lookup_empty. Qed.

Lemma rd_service_inv : read_inv rd_service.
Proof. apply CreateReadSession_inv, rd_init_inv. Qed.

Lemma rd_service_session : sessions_ rd_service !! rd_session_name = Some rd_session.
Proof. vm_compute. reflexivity. Qed.

Lemma rd_readable : readable rd_store rd_table_id.
Proof.
  intros f Hw He Hs. simpl. unfold MemStore.with_table.
  replace (rd_store !! rd_table_id) with (Some (MemStore.mkTable rd_schema rd_rows))
    by (vm_compute; reflexivity).
  rewrite Hw, He, Hs. eexists. split; reflexivity.
Qed.

Lemma rd_contents : contents rd_store rd_table_id = rd_rows.
Proof. vm_compute. reflexivity. Qed.

Lemma rd_fit : Forall (row_fits rd_schema) (contents rd_store rd_table_id).
Proof. rewrite rd_contents. repeat constructor. Qed.

Lemma rd_whole : whole_table rd_service rd_session.
Proof.
  split; [reflexivity|]. split; [reflexivity|]. split; [exact rd_readable|].
  split; [|exact rd_fit]. exists rd_schema. split; [vm_compute; reflexivity|reflexivity].
Qed.

Lemma rd_length : length (contents rd_store rd_table_id) <= 5.
Proof. rewrite rd_contents. simpl. lia. Qed.

Lemma read_session_complete_witness :
  exists rs, CreateReadSession no_restriction rd_init rd_request = (rd_service, Ok rs) /\
    length (rs_streams rs) = 2 /\
    mjoin (map (stream_output rd_service 5 0) (rs_streams rs)) =
      map (fun v => [CString v]) [$"a"; $"b"; $"c"; $"d"; $"e"].
Proof.
  destruct (CreateReadSession no_restriction rd_init rd_request) as [svc' [rs|e]] eqn:E;
    [|apply (f_equal snd) in E; vm_compute in E; discriminate E].
  assert (rd_service = svc') as <- by (unfold rd_service; rewrite E; reflexivity).
  destruct (read_session_complete no_restriction rd_init rd_request rd_service rs rd_table_id rd_schema 5
    rd_init_inv E eq_refl ltac:(vm_compute; reflexivity) ltac:(vm_compute; reflexivity)
    rd_readable rd_fit rd_length) as [_ C].
  exists rs. split; [reflexivity|]. split; [|rewrite C; vm_compute; reflexivity].
  apply (f_equal (fun x => match x.2 with Ok r => length (rs_streams r) | Err _ => 0 end)) in E.
  cbn [snd] in E. rewrite <- E. vm_compute. reflexivity.
Defined.

Lemma split_preserves_rows_witness :
  exists svc' p r, SplitReadStream rd_service (rd_stream 1) half = (svc', Ok (p, r)) /\
    stream_output svc' 5 0 p ++ stream_output svc' 5 0 r = map (fun v => [CString v]) [$"c"; $"d"; $"e"].
Proof.
  assert (is_ok (SplitReadStream rd_service (rd_stream 1) half).2 = true) as Hok
    by (vm_compute; reflexivity).
  destruct (SplitReadStream rd_service (rd_stream 1) half) as [svc' [[p r]|e]] eqn:E;
    [|discriminate Hok].
  destruct (split_preserves_rows rd_service (rd_stream 1) half svc' p r rd_session_name rd_session 5
    rd_service_inv E rd_service_session ltac:(eexists; vm_compute; reflexivity) rd_whole rd_length
    ltac:(vm_compute; reflexivity)) as (_ & _ & _ & _ & _ & Hout).
  exists svc', p, r. split; [reflexivity|]. rewrite Hout. vm_compute. reflexivity.
Defined.

Lemma read_rows_resume_witness :
  stream_output rd_service 5 (Z.of_nat 2) (rd_stream 1) = [[CString $"e"]].
Proof.
  rewrite (read_rows_resume rd_service rd_session_name rd_session (rd_stream 1) 2 5
    rd_service_inv rd_service_session ltac:(eexists; vm_compute; reflexivity) rd_whole rd_length).
  vm_compute. reflexivity.
Defined.

Lemma partitions_balanced_witness :
  let p := mkPartition (rd_stream 1) 2 5 in
  p ∈ BuildPartitions rd_session_name (NegotiateStreamCount 2 5) 5 /\
  (5 / 2 <= part_end p - part_start p <= 5 / 2 + 1)%Z.
Proof.
  assert (mkPartition (rd_stream 1) 2 5 ∈ BuildPartitions rd_session_name (NegotiateStreamCount 2 5) 5)
    as Hin by (apply list_elem_of_In; right; left; vm_compute; reflexivity).
  split; [exact Hin|].
  apply (partitions_balanced rd_session_name 2 5 (mkPartition (rd_stream 1) 2 5)
           ltac:(vm_compute; split; discriminate) Hin).
Defined.

Lemma read_sessions_consistent_witness :
  exists id, ParseReadStreamName (rd_stream 1) = Ok (rd_session_name, id).
Proof.
  destruct (read_sessions_consistent no_restriction rd_store [CallSession rd_request]
    rd_session_name rd_session (rd_stream 1) (mkPartition (rd_stream 1) 2 5)
    rd_service_session ltac:(vm_compute; reflexivity)) as (_ & _ & _ & P). exact P.
Defined.

End Demo.
