(* ===== verification/VersionLog.v ===== *)
(** * VersionLog: the Parquet version log behind time travel

    Models [backend/storage/duckdb/duckdb_storage_version_log.h] and
    [duckdb_storage_version_log.cc] (the archive of superseded snapshots, the
    JSON index, pruning and the resolution of an AS OF timestamp) with the file
    helpers of [duckdb_storage_meta.cc] and the path helpers of
    [duckdb_storage.cc].

    The disk is a finite map from paths to file contents, with a fault map that
    makes chosen operations on chosen paths fail.  Timestamps are milliseconds;
    the clock is an argument. *)

From S2P Require Import Prelude Absl AbslReference Storage.

(** ** The disk *)

Inductive Fault :=
| FRead
| FOpen
| FWrite
| FRename
| FMkdir (message : str)
| FCopy (message : str)
| FMove (message : str)
| FList (message : str)
| FPurge (message : str)
| FRemove (message : str).

Record Disk := mkDisk { files : gmap str str; faults : str -> option Fault }.

Definition set_file (d : Disk) (path contents : str) : Disk :=
  mkDisk (<[path := contents]> (files d)) (faults d).
Definition delete_file (d : Disk) (path : str) : Disk :=
  mkDisk (delete path (files d)) (faults d).

(** [fs::exists] of a file. *)
Definition exists_file (d : Disk) (path : str) : bool :=
  match files d !! path with Some _ => true | None => false end.

(** [fs::path(a) / b] on POSIX: an absolute [b] replaces [a]; otherwise one
    separator is put between them unless [a] is empty or ends in one. *)
Definition path_join (a b : str) : str :=
  match b with
  | "/"%char :: _ => b
  | _ => match last a with
         | None => b
         | Some "/"%char => a ++ b
         | Some _ => a ++ "/"%char :: b
         end
  end.

Definition remove_file (d : Disk) (path : str) : Disk :=
  match faults d path with Some (FRemove _) => d | _ => delete_file d path end.

Definition copy_file (d : Disk) (from to : str) : Disk * option str :=
  match faults d to, files d !! from with
  | Some (FCopy m), _ => (d, Some m)
  | _, None => (d, Some $"No such file or directory")
  | _, Some c => (set_file d to c, None)
  end.

Definition create_directories (d : Disk) (path : str) : option str :=
  match faults d path with Some (FMkdir m) => Some m | _ => None end.

(** [WriteFileAtomic]: a sibling [.tmp] file, then a rename over the target. *)
Definition WriteFileAtomic (d : Disk) (path contents : str) : Disk * StatusOr unit :=
  let tmp := path ++ $".tmp" in
  match faults d path with
  | Some FOpen => (d, Err (InternalError ($"failed to open " ++ tmp ++ $" for write")))
  | Some FWrite => (set_file d tmp [], Err (InternalError ($"failed to write " ++ tmp)))
  | Some FRename =>
      (delete_file d tmp, Err (InternalError ($"failed to rename " ++ tmp ++ $" -> " ++ path)))
  | _ => (set_file (delete_file d tmp) path contents, Ok ())
  end.

Definition ReadFile (d : Disk) (path : str) : StatusOr str :=
  match files d !! path, faults d path with
  | None, _ => Err (NotFoundError ($"file not found: " ++ path))
  | Some _, Some FRead => Err (InternalError ($"failed to read " ++ path))
  | Some c, _ => Ok c
  end.

Definition FilesystemStatus (what message : str) : Status :=
  InternalError (what ++ $": " ++ message).

(** ** The index *)

Definition kTimeTravelWindowMs : Z := 7 * 24 * 60 * 60 * 1000.

Record VersionEntry := mkEntry { valid_from_ms : Z; file : str }.

Record VersionIndex := mkIndex {
  created_ts_ms : Z;
  current_ts_ms : Z;
  versions : list VersionEntry;
}.

Definition quote : ascii := "034"%char.
Definition backslash : ascii := "092"%char.

(** A field name between double quotes. *)
Definition quoted (field : str) : str := quote :: field ++ [quote].

Fixpoint EscapeJsonString (s : str) : str :=
  match s with
  | [] => []
  | c :: s =>
      if bool_decide (c = backslash) then backslash :: backslash :: EscapeJsonString s
      else if bool_decide (c = quote) then backslash :: quote :: EscapeJsonString s
      else c :: EscapeJsonString s
  end.

(** Sorting by [valid_from_ms]; entries with equal keys keep their order. *)
Fixpoint insert_version (v : VersionEntry) (l : list VersionEntry) : list VersionEntry :=
  match l with
  | [] => [v]
  | w :: l => if (valid_from_ms v <=? valid_from_ms w)%Z then v :: w :: l
              else w :: insert_version v l
  end.
Definition sort_versions (l : list VersionEntry) : list VersionEntry :=
  foldr insert_version [] l.

Section json.
Context `{AbslText}.

(** The longest prefix of minus signs and digits. *)
Definition is_int_char (c : ascii) : bool :=
  bool_decide (c = "-"%char) || ((48 <=? byteval c)%Z && (byteval c <=? 57)%Z).
Fixpoint span_int (s : str) : str :=
  match s with
  | c :: s => if is_int_char c then c :: span_int s else []
  | [] => []
  end.

Fixpoint skip_blanks (s : str) : str :=
  match s with
  | c :: s' => if bool_decide (c = " "%char) || bool_decide (c = "009"%char)
               then skip_blanks s' else s
  | [] => []
  end.

Definition ParseJsonInt64Field (json field : str) : StatusOr Z :=
  match find_sub (quoted field ++ $":") json with
  | None => Err (InvalidArgumentError ($"version index missing field " ++ field))
  | Some (_, rest) =>
      match span_int (skip_blanks rest) with
      | [] => Err (InvalidArgumentError ($"version index field " ++ field ++ $" is not an integer"))
      | digits =>
          match SimpleAtoi digits with
          | None => Err (InvalidArgumentError ($"version index field " ++ field ++ $" overflow"))
          | Some value => Ok value
          end
      end
  end.

(** The body of a JSON string up to its closing quote. *)
Fixpoint UnescapeJson (s : str) : str :=
  match s with
  | [] => []
  | c :: s' =>
      if bool_decide (c = backslash)
      then match s' with
           | d :: s'' => d :: UnescapeJson s''
           | [] => [c]
           end
      else if bool_decide (c = quote) then []
      else c :: UnescapeJson s'
  end.

Definition ParseJsonStringField (json field : str) : StatusOr str :=
  match find_sub (quoted field ++ $":" ++ [quote]) json with
  | None => Err (InvalidArgumentError ($"version entry missing field " ++ field))
  | Some (_, rest) => Ok (UnescapeJson rest)
  end.

(** [from] is the text from the entry's key on. *)
Definition ParseVersionEntryFile (from : str) : option str :=
  match find_sub (quoted $"file" ++ $":" ++ [quote]) from with
  | None => None
  | Some (_, file_rest) =>
      match UnescapeJson file_rest with [] => None | f => Some f end
  end.

Definition valid_from_key : str := quoted $"valid_from_ms" ++ $":".

(** [rest] is the text after the key. *)
Definition ParseVersionEntryAt (rest : str) : option VersionEntry :=
  let valid_from := match span_int rest with
                    | [] => 0%Z
                    | digits => match SimpleAtoi digits with Some v => v | None => 0%Z end
                    end in
  f ← ParseVersionEntryFile (valid_from_key ++ rest); Some (mkEntry valid_from f).

(** The entries after each occurrence of the key; every round consumes at least
    the key, so the length of the text bounds the rounds. *)
Fixpoint ParseEntriesLoop (fuel : nat) (json : str) : list VersionEntry :=
  match fuel with
  | O => []
  | Datatypes.S fuel =>
      match find_sub valid_from_key json with
      | None => []
      | Some (_, rest) =>
          match ParseVersionEntryAt rest with
          | Some e => e :: ParseEntriesLoop fuel rest
          | None => ParseEntriesLoop fuel rest
          end
      end
  end.

Definition ParseVersionEntries (json : str) : list VersionEntry :=
  sort_versions (ParseEntriesLoop (length json) json).

Definition RenderVersion (v : VersionEntry) : str :=
  $"{" ++ valid_from_key ++ StrInt (valid_from_ms v) ++ $"," ++
  quoted $"file" ++ $":" ++ [quote] ++ EscapeJsonString (file v) ++ [quote] ++ $"}".

Definition RenderVersionIndexJson (index : VersionIndex) : str :=
  $"{" ++ quoted $"created_ts_ms" ++ $":" ++ StrInt (created_ts_ms index) ++ $"," ++
  quoted $"current_ts_ms" ++ $":" ++ StrInt (current_ts_ms index) ++ $"," ++
  quoted $"versions" ++ $":[" ++ join "," (map RenderVersion (versions index)) ++ $"]}".

(** The fields of an index file. *)
Definition ParseVersionIndex (json : str) : StatusOr VersionIndex :=
  created ← ParseJsonInt64Field json $"created_ts_ms";
  current ← ParseJsonInt64Field json $"current_ts_ms";
  Ok (mkIndex created current (ParseVersionEntries json)).

Definition ReadVersionIndex (d : Disk) (index_path : str) (allow_missing : bool)
    : StatusOr VersionIndex :=
  if negb (exists_file d index_path)
  then if allow_missing then Ok (mkIndex 0 0 [])
       else Err (NotFoundError ($"version index not found: " ++ index_path))
  else json ← ReadFile d index_path; ParseVersionIndex json.

Definition WriteVersionIndex (d : Disk) (index_path : str) (index : VersionIndex)
    : Disk * StatusOr unit :=
  WriteFileAtomic d index_path (RenderVersionIndexJson index).

(** ** Paths *)

Context (data_dir : str).

Definition DatasetDirFromStorage (id : TableId) : str :=
  path_join (path_join data_dir (project_id id)) (dataset_id id).
Definition TableMetaPathFromStorage (id : TableId) : str :=
  path_join (DatasetDirFromStorage id) (table_id id ++ $".meta.json").
Definition TableParquetPathFromStorage (id : TableId) : str :=
  path_join (DatasetDirFromStorage id) (table_id id ++ $".parquet").
Definition TableVersionsDir (id : TableId) : str :=
  path_join (DatasetDirFromStorage id) (table_id id ++ $".versions").
Definition TableVersionsIndexPath (id : TableId) : str :=
  path_join (DatasetDirFromStorage id) (table_id id ++ $".versions.json").
Definition DatasetTombstoneKey (id : DatasetId) : str :=
  ds_project_id id ++ $"." ++ ds_dataset_id id.
Definition TableTombstoneDir (id : TableId) (deleted_ms : Z) : str :=
  path_join (path_join (path_join (path_join data_dir $".tombstones")
    (DatasetTombstoneKey (mkDatasetId (project_id id) (dataset_id id)))) (table_id id))
    (StrInt deleted_ms).
Definition DatasetTombstoneDir (id : DatasetId) (deleted_ms : Z) : str :=
  path_join (path_join (path_join (path_join data_dir $".tombstones") $"__dataset__")
    (DatasetTombstoneKey id)) (StrInt deleted_ms).

(** ** Operations *)

Definition LoadVersionIndexOrInit (d : Disk) (id : TableId) (now_ms : Z)
    : StatusOr VersionIndex :=
  let index_path := TableVersionsIndexPath id in
  if negb (exists_file d index_path) then Ok (mkIndex now_ms now_ms [])
  else json ← ReadFile d index_path; ParseVersionIndex json.

Definition EarliestReadableMs (index : VersionIndex) : Z :=
  match versions index with
  | [] => created_ts_ms index
  | v :: _ => Z.min (created_ts_ms index) (valid_from_ms v)
  end.

(** The pruned index and the disk without the pruned files. *)
Definition PruneOldVersions (d : Disk) (index : VersionIndex) (id : TableId) (now_ms : Z)
    : Disk * VersionIndex :=
  let cutoff := (now_ms - kTimeTravelWindowMs)%Z in
  let dropped := List.filter (fun v => (valid_from_ms v <? cutoff)%Z) (versions index) in
  let kept := List.filter (fun v => negb (valid_from_ms v <? cutoff)%Z) (versions index) in
  (fold_left (fun d v => remove_file d (path_join (TableVersionsDir id) (file v))) dropped d,
   mkIndex (if (created_ts_ms index <? cutoff)%Z then cutoff else created_ts_ms index)
     (current_ts_ms index) kept).

Definition InvalidSnapshotTimeError (id : TableId) (as_of_ms earliest_ms : Z) : Status :=
  InvalidArgumentError
    ($"Invalid snapshot time " ++ StrInt as_of_ms ++ $" for table " ++ project_id id ++ $":" ++
     dataset_id id ++ $"." ++ table_id id ++ $"@" ++ StrInt as_of_ms ++
     $". Cannot read before " ++ StrInt earliest_ms ++ $".").

Definition InitVersionIndex (d : Disk) (id : TableId) (created : Z) : Disk * StatusOr unit :=
  WriteVersionIndex d (TableVersionsIndexPath id) (mkIndex created created []).

(** [current_ts_ms] set to the mutation time, pruned and written back. *)
Definition FinishArchive (d : Disk) (index : VersionIndex) (id : TableId) (mutation_ts_ms : Z)
    : Disk * StatusOr unit :=
  let index := mkIndex (created_ts_ms index) mutation_ts_ms (versions index) in
  let '(d, index) := PruneOldVersions d index id mutation_ts_ms in
  WriteVersionIndex d (TableVersionsIndexPath id) index.

Definition ArchiveParquetBeforeReplace (d : Disk) (id : TableId) (live_parquet_path : str)
    (mutation_ts_ms clock_ms : Z) : Disk * StatusOr unit :=
  if negb (exists_file d live_parquet_path)
  then match LoadVersionIndexOrInit d id clock_ms with
       | Err e => (d, Err e)
       | Ok index => FinishArchive d index id mutation_ts_ms
       end
  else match LoadVersionIndexOrInit d id clock_ms with
       | Err e => (d, Err e)
       | Ok index =>
           let versions_dir := TableVersionsDir id in
           match create_directories d versions_dir with
           | Some m => (d, Err (FilesystemStatus ($"failed to create versions dir: " ++ versions_dir) m))
           | None =>
               let archive_name := StrInt (current_ts_ms index) ++ $".parquet" in
               let archive_path := path_join versions_dir archive_name in
               match copy_file d live_parquet_path archive_path with
               | (d, Some m) =>
                   (d, Err (FilesystemStatus ($"failed to archive parquet to " ++ archive_path) m))
               | (d, None) =>
                   let entry := mkEntry (current_ts_ms index) archive_name in
                   FinishArchive d
                     (mkIndex (created_ts_ms index) (current_ts_ms index)
                        (sort_versions (versions index ++ [entry])))
                     id mutation_ts_ms
               end
           end
       end.

(** The last entry valid at the timestamp, in list order. *)
Definition best_version (l : list VersionEntry) (as_of_ms : Z) : option VersionEntry :=
  last (List.filter (fun v => (valid_from_ms v <=? as_of_ms)%Z) l).

Definition ResolveParquetSnapshotAt (d : Disk) (id : TableId) (live_parquet_path : str)
    (as_of_ms now_ms clock_ms : Z) : StatusOr str :=
  if (now_ms <? as_of_ms)%Z
  then index ← LoadVersionIndexOrInit d id clock_ms;
       Err (InvalidSnapshotTimeError id as_of_ms (created_ts_ms index))
  else if (as_of_ms <? now_ms - kTimeTravelWindowMs)%Z
  then index ← LoadVersionIndexOrInit d id clock_ms;
       Err (InvalidSnapshotTimeError id as_of_ms
              (Z.max (EarliestReadableMs index) (now_ms - kTimeTravelWindowMs)))
  else
    index ← LoadVersionIndexOrInit d id clock_ms;
    let index_on_disk := exists_file d (TableVersionsIndexPath id) in
    if negb index_on_disk && bool_decide (length (versions index) = 0) &&
       (as_of_ms <=? now_ms)%Z && exists_file d live_parquet_path
    then Ok live_parquet_path
    else if (as_of_ms <? created_ts_ms index)%Z
    then Err (InvalidSnapshotTimeError id as_of_ms (created_ts_ms index))
    else if (current_ts_ms index <=? as_of_ms)%Z
    then if negb (exists_file d live_parquet_path)
         then Err (NotFoundError ($"table parquet missing: " ++ project_id id ++ $"." ++
                                  dataset_id id ++ $"." ++ table_id id))
         else Ok live_parquet_path
    else match best_version (versions index) as_of_ms with
         | None => Err (InvalidSnapshotTimeError id as_of_ms (created_ts_ms index))
         | Some best =>
             let path := path_join (TableVersionsDir id) (file best) in
             if negb (exists_file d path)
             then Err (InvalidSnapshotTimeError id as_of_ms (created_ts_ms index))
             else Ok path
         end.
End json.

(** ** The index file round trip *)

Section json_laws.
Context `{AbslTextLaws}.

(** A file name that needs no escaping. *)
Definition plain_name (f : str) : Prop := f <> [] /\ (quote ∉ f) /\ (backslash ∉ f).

Definition entry_ok (v : VersionEntry) : Prop := in_int64 (valid_from_ms v) /\ plain_name (file v).

Fixpoint versions_sorted (l : list VersionEntry) : Prop :=
  match l with
  | v :: ((w :: _) as l') => (valid_from_ms v <= valid_from_ms w)%Z /\ versions_sorted l'
  | _ => True
  end.

Lemma sort_versions_sorted l : versions_sorted l -> sort_versions l = l.
Proof.
  induction l as [|v l IH]; intros Hs; [done|]. simpl.
  assert (versions_sorted l) as Hl by (by destruct l; [|destruct Hs]).
  rewrite IH by done. destruct l as [|w l]; [done|]. destruct Hs as [Hle _]. simpl.
  by rewrite (proj2 (Z.leb_le _ _)).
Qed.

Lemma EscapeJsonString_plain f : quote ∉ f -> backslash ∉ f -> EscapeJsonString f = f.
Proof.
  induction f as [|c f IH]; intros Hq Hb; [done|]. simpl.
  rewrite !bool_decide_false by set_solver. f_equal. apply IH; set_solver.
Qed.

Lemma UnescapeJson_plain f r :
  quote ∉ f -> backslash ∉ f -> UnescapeJson (f ++ quote :: r) = f.
Proof.
  induction f as [|c f IH]; intros Hq Hb; simpl; [done|].
  rewrite !bool_decide_false by set_solver. f_equal. apply IH; set_solver.
Qed.

Lemma StrInt_int_chars z : Forall (fun c => is_int_char c = true) (StrInt z).
Proof.
  eapply Forall_impl; [apply StrInt_chars|]. intros c [D|E]; [|subst c]; unfold is_int_char.
  - apply ascii_isdigit_spec in D. rewrite (proj2 (Z.leb_le 48 _)), (proj2 (Z.leb_le _ 57)) by lia.
    by rewrite orb_true_r.
  - done.
Qed.

Lemma span_int_StrInt z c r : is_int_char c = false -> span_int (StrInt z ++ c :: r) = StrInt z.
Proof.
  intros Hc. induction (StrInt_int_chars z) as [|d l Hd _ IH]; simpl; [by rewrite Hc|].
  by rewrite Hd, IH.
Qed.

Lemma StrInt_no_quote z : quote ∉ StrInt z.
Proof.
  apply StrInt_no_char; [|done]. apply not_true_is_false.
  intros E%ascii_isdigit_spec. vm_compute in E. by destruct E.
Qed.

Lemma skip_blanks_StrInt z r : skip_blanks (StrInt z ++ r) = StrInt z ++ r.
Proof.
  pose proof (StrInt_nonempty z). pose proof (StrInt_int_chars z) as F.
  destruct (StrInt z) as [|c l]; [done|]. apply Forall_inv in F. simpl.
  rewrite !bool_decide_false; [done|intros ->; by vm_compute in F..].
Qed.

(** An integer field found in the text parses back. *)
Lemma ParseJsonInt64Field_at json field pre z c r :
  find_sub (quoted field ++ $":") json = Some (pre, StrInt z ++ c :: r) ->
  is_int_char c = false -> in_int64 z -> ParseJsonInt64Field json field = Ok z.
Proof.
  intros E Hc Hz. unfold ParseJsonInt64Field. rewrite E, skip_blanks_StrInt, span_int_StrInt by done.
  pose proof (SimpleAtoi_StrInt z Hz) as A. pose proof (StrInt_nonempty z).
  destruct (StrInt z); [done|]. by rewrite A.
Qed.

(** Skip literal bytes at which the needle does not start. *)
Ltac skip_literal := repeat (rewrite find_sub_step by reflexivity).

(** The text of an entry after its key, followed by [t]. *)
Definition entry_tail (v : VersionEntry) (t : str) : str :=
  StrInt (valid_from_ms v) ++ $"," ++ quoted $"file" ++ $":" ++ [quote] ++ file v ++
  [quote] ++ $"}" ++ t.

Lemma RenderVersion_plain v t :
  plain_name (file v) -> RenderVersion v ++ t = $"{" ++ valid_from_key ++ entry_tail v t.
Proof.
  intros (_ & Hq & Hb). unfold RenderVersion, entry_tail.
  rewrite EscapeJsonString_plain by done. by rewrite <- !app_assoc.
Qed.

(** The needle of the file field, less its opening quote. *)
Definition file_key : str := $"file" ++ [quote] ++ $":" ++ [quote].

Lemma ParseVersionEntryAt_tail v t :
  entry_ok v -> ParseVersionEntryAt (entry_tail v t) = Some v.
Proof.
  intros (Hz & Hne & Hq & Hb). unfold ParseVersionEntryAt.
  assert (span_int (entry_tail v t) = StrInt (valid_from_ms v)) as -> by (by apply span_int_StrInt).
  assert (ParseVersionEntryFile (valid_from_key ++ entry_tail v t) = Some (file v)) as ->.
  { unfold ParseVersionEntryFile.
    assert (exists a, find_sub (quoted $"file" ++ $":" ++ [quote]) (valid_from_key ++ entry_tail v t) =
              Some (a, file v ++ quote :: $"}" ++ t)) as [a ->].
    { change (quoted $"file" ++ $":" ++ [quote]) with (quote :: file_key).
      change (valid_from_key ++ entry_tail v t) with
        (quote :: $"valid_from_ms" ++ quote :: ":"%char :: entry_tail v t).
      rewrite find_sub_step by reflexivity.
      rewrite find_sub_skip by (by apply literal_without).
      do 2 (rewrite find_sub_step by reflexivity). unfold entry_tail.
      rewrite find_sub_skip by apply StrInt_no_quote.
      change ($"," ++ quoted $"file" ++ $":" ++ [quote] ++ file v ++ [quote] ++ $"}" ++ t) with
        (","%char :: ((quote :: file_key) ++ file v ++ quote :: $"}" ++ t)).
      rewrite find_sub_step by reflexivity. rewrite find_sub_here. by eexists. }
    rewrite UnescapeJson_plain by done. by destruct (file v). }
  simpl. pose proof (SimpleAtoi_StrInt _ Hz) as A. pose proof (StrInt_nonempty (valid_from_ms v)).
  destruct (StrInt (valid_from_ms v)); [done|]. rewrite A. by destruct v.
Qed.

(** After an entry the search for the next key resumes at its end. *)
Lemma find_key_after v t :
  plain_name (file v) ->
  (fun ab => ab.2) <$> find_sub valid_from_key (entry_tail v t) =
  (fun ab => ab.2) <$> find_sub valid_from_key t.
Proof.
  intros (_ & Hq & _). unfold entry_tail.
  change valid_from_key with (quote :: $"valid_from_ms" ++ [quote] ++ $":").
  rewrite find_sub_skip by apply StrInt_no_quote.
  change ($"," ++ quoted $"file" ++ $":" ++ [quote] ++ file v ++ [quote] ++ $"}" ++ t) with
    (","%char :: quote :: $"file" ++ quote :: ":"%char :: quote :: file v ++ quote :: "}"%char :: t).
  do 2 (rewrite find_sub_step by reflexivity).
  rewrite find_sub_skip by (by apply literal_without).
  do 2 (rewrite find_sub_step by reflexivity).
  rewrite find_sub_step.
  2:{ apply strip_prefix_None. intros [r E].
      change ((quote :: $"valid_from_ms" ++ [quote] ++ $":") ++ r) with
        (quote :: $"valid_from_ms" ++ quote :: ":"%char :: r) in E.
      apply (f_equal tail) in E. cbn [tail] in E. apply app_sep_inj in E as [_ [=]]; [done|].
      by apply literal_without. }
  rewrite find_sub_skip by done. do 2 (rewrite find_sub_step by reflexivity).
  by destruct (find_sub _ t) as [[]|].
Qed.

Definition entries_text (vs : list VersionEntry) : str :=
  join "," (map RenderVersion vs) ++ $"]}".

Lemma entries_text_cons v vs :
  plain_name (file v) -> exists t,
    entries_text (v :: vs) = $"{" ++ valid_from_key ++ entry_tail v t /\
    snd <$> find_sub valid_from_key t = snd <$> find_sub valid_from_key (entries_text vs).
Proof.
  intros Hv. destruct vs as [|w vs].
  - exists ($"]}"). split; [|done]. unfold entries_text. cbn [map join]. by apply RenderVersion_plain.
  - exists (","%char :: entries_text (w :: vs)). split.
    + unfold entries_text at 1. rewrite map_cons, join_cons by done.
      rewrite <- app_assoc, RenderVersion_plain by done. done.
    + rewrite find_sub_step by reflexivity. by destruct (find_sub _ (entries_text _)) as [[]|].
Qed.

Lemma ParseEntriesLoop_text vs fuel t :
  Forall entry_ok vs -> length vs <= fuel ->
  snd <$> find_sub valid_from_key t = snd <$> find_sub valid_from_key (entries_text vs) ->
  ParseEntriesLoop fuel t = vs.
Proof.
  intros F. revert fuel t. induction F as [|v vs Hv F IH]; intros fuel t Hf E.
  - destruct fuel; [done|]. simpl.
    replace (find_sub valid_from_key (entries_text [])) with (@None (str * str)) in E by reflexivity.
    by destruct (find_sub valid_from_key t) as [[]|].
  - destruct fuel as [|fuel]; [simpl in Hf; lia|].
    destruct (entries_text_cons v vs) as (t' & Et & Es); [by destruct Hv|].
    rewrite Et in E. cbn [app] in E.
    change ($"{" ++ valid_from_key ++ entry_tail v t') with ("{"%char :: valid_from_key ++ entry_tail v t') in E.
    rewrite find_sub_step, find_sub_here in E by reflexivity. simpl in E.
    destruct (find_sub valid_from_key t) as [[a rest]|] eqn:Ft; [|done]. simpl in E. simplify_eq.
    simpl. rewrite Ft, ParseVersionEntryAt_tail by done. f_equal.
    apply IH; [simpl in Hf; lia|]. rewrite <- Es. by apply find_key_after; destruct Hv.
Qed.

Lemma length_join_ge c (l : list str) : Forall (fun p => p <> []) l -> length l <= length (join c l).
Proof.
  induction 1 as [|p l Hp F IH]; [done|]. destruct l as [|q l].
  - simpl. destruct p; simpl; [done|lia].
  - rewrite join_cons, length_app by done. simpl in IH |- *. destruct p; simpl; [done|lia].
Qed.

(** The three fields of a rendered index, found where they were written. *)
Lemma render_fields index :
  (exists a, find_sub (quoted $"created_ts_ms" ++ $":") (RenderVersionIndexJson index) =
     Some (a, StrInt (created_ts_ms index) ++ ","%char :: quoted $"current_ts_ms" ++ $":" ++
              StrInt (current_ts_ms index) ++ $"," ++ quoted $"versions" ++ $":[" ++
              entries_text (versions index))) /\
  (exists a, find_sub (quoted $"current_ts_ms" ++ $":") (RenderVersionIndexJson index) =
     Some (a, StrInt (current_ts_ms index) ++ ","%char :: quoted $"versions" ++ $":[" ++
              entries_text (versions index))) /\
  snd <$> find_sub valid_from_key (RenderVersionIndexJson index) =
  snd <$> find_sub valid_from_key (entries_text (versions index)).
Proof.
  unfold RenderVersionIndexJson.
  change (join "," (map RenderVersion (versions index)) ++ $"]}") with (entries_text (versions index)).
  set (n := StrInt (created_ts_ms index)). set (m := StrInt (current_ts_ms index)).
  set (t := entries_text (versions index)).
  assert (quote ∉ n) as Hn by apply StrInt_no_quote. assert (quote ∉ m) as Hm by apply StrInt_no_quote.
  change ($"{" ++ quoted $"created_ts_ms" ++ $":" ++ n ++ $"," ++ quoted $"current_ts_ms" ++ $":" ++
    m ++ $"," ++ quoted $"versions" ++ $":[" ++ t) with
    ("{"%char :: quote :: $"created_ts_ms" ++ quote :: ":"%char :: n ++ ","%char :: quote ::
     $"current_ts_ms" ++ quote :: ":"%char :: m ++ ","%char :: quote :: $"versions" ++ quote ::
     ":"%char :: "["%char :: t).
  split; [|split].
  - rewrite find_sub_step by reflexivity.
    rewrite (find_sub_at (quoted $"created_ts_ms" ++ $":") _
               (n ++ ","%char :: quote :: $"current_ts_ms" ++ quote :: ":"%char :: m ++ ","%char ::
                quote :: $"versions" ++ quote :: ":"%char :: "["%char :: t)) by reflexivity. by eexists.
  - change (quoted $"current_ts_ms" ++ $":") with (quote :: $"current_ts_ms" ++ [quote] ++ $":").
    do 2 (rewrite find_sub_step by reflexivity). rewrite find_sub_skip by (by apply literal_without).
    do 2 (rewrite find_sub_step by reflexivity). rewrite find_sub_skip by done.
    rewrite find_sub_step by reflexivity.
    rewrite (find_sub_at (quote :: $"current_ts_ms" ++ [quote] ++ $":") _
               (m ++ ","%char :: quote :: $"versions" ++ quote :: ":"%char :: "["%char :: t)) by reflexivity.
    by eexists.
  - change valid_from_key with (quote :: $"valid_from_ms" ++ [quote] ++ $":").
    do 2 (rewrite find_sub_step by reflexivity). rewrite find_sub_skip by (by apply literal_without).
    do 2 (rewrite find_sub_step by reflexivity). rewrite find_sub_skip by done.
    do 2 (rewrite find_sub_step by reflexivity). rewrite find_sub_skip by (by apply literal_without).
    do 2 (rewrite find_sub_step by reflexivity). rewrite find_sub_skip by done.
    do 2 (rewrite find_sub_step by reflexivity). rewrite find_sub_skip by (by apply literal_without).
    do 3 (rewrite find_sub_step by reflexivity).
    by destruct (find_sub _ t) as [[]|].
Qed.

(** An index the log can hold. *)
Definition index_ok (index : VersionIndex) : Prop :=
  in_int64 (created_ts_ms index) /\ in_int64 (current_ts_ms index) /\
  Forall entry_ok (versions index) /\ versions_sorted (versions index).

Lemma ParseVersionIndex_render index :
  index_ok index -> ParseVersionIndex (RenderVersionIndexJson index) = Ok index.
Proof.
  intros (H1 & H2 & H3 & H4). destruct (render_fields index) as ([a Ea] & [b Eb] & Ec).
  unfold ParseVersionIndex.
  rewrite (ParseJsonInt64Field_at _ _ _ _ _ _ Ea), (ParseJsonInt64Field_at _ _ _ _ _ _ Eb) by done.
  simpl. unfold ParseVersionEntries.
  rewrite (ParseEntriesLoop_text (versions index)); [|done| |done].
  - rewrite sort_versions_sorted by done. by destruct index.
  - unfold RenderVersionIndexJson. rewrite !length_app.
    pose proof (length_join_ge "," (map RenderVersion (versions index))) as L.
    rewrite length_map in L. assert (Forall (fun p => p <> []) (map RenderVersion (versions index))) as N
      by (apply Forall_map, Forall_true; done). specialize (L N). lia.
Qed.
End json_laws.

(** ** A table's history on disk *)

Section history.
Context `{AbslTextLaws} (data_dir : str) (id : TableId).

(** The snapshots a table went through: from when each was the live one, and
    its bytes; oldest first. *)
Abbreviation Snapshot := (Z * str)%type.

Definition live_path : str := TableParquetPathFromStorage data_dir id.

(** The table is created with its first snapshot, and replaced at each later
    one: the tails of [CreateTable], [AppendRows] and [OverwriteRows]. *)
Definition create_table (d : Disk) (s : Snapshot) : Disk :=
  set_file (InitVersionIndex data_dir d id s.1).1 live_path s.2.

Definition replace_table (clock : Z) (d : Disk) (s : Snapshot) : Disk :=
  match ArchiveParquetBeforeReplace data_dir d id live_path s.1 clock with
  | (d, Ok _) => set_file d live_path s.2
  | (d, Err _) => d
  end.

(** The snapshot that was live at a time. *)
Definition snapshot_at (h : list Snapshot) (ts : Z) : option Snapshot :=
  last (List.filter (fun s => (s.1 <=? ts)%Z) h).

Definition version_name (t : Z) : str := StrInt t ++ $".parquet".
Definition version_path (t : Z) : str := path_join (TableVersionsDir data_dir id) (version_name t).

(** *** Paths do not collide *)

Definition dir_prefix (base : str) : str :=
  match last base with
  | None => []
  | Some "/"%char => base
  | Some _ => base ++ ["/"%char]
  end.

Definition stem : str := dir_prefix (DatasetDirFromStorage data_dir id) ++ table_id id.

Definition relative_id : Prop := exists c r, table_id id = c :: r /\ c <> "/"%char.

Lemma path_join_relative base c r :
  c <> "/"%char -> path_join base (c :: r) = dir_prefix base ++ c :: r.
Proof.
  intros Hc. unfold path_join, dir_prefix.
  assert (forall A (x y : A), match c with "/"%char => x | _ => y end = y) as E.
  { intros A x y. destruct c as [[] [] [] [] [] [] [] []]; try done. }
  destruct (last base) as [l|]; [|by destruct c as [[] [] [] [] [] [] [] []]].
  transitivity (match l with "/"%char => base ++ c :: r | _ => base ++ "/"%char :: c :: r end).
  - by destruct c as [[] [] [] [] [] [] [] []].
  - destruct l as [[] [] [] [] [] [] [] []]; by rewrite <- ?app_assoc.
Qed.

Lemma stem_paths suffix :
  relative_id -> path_join (DatasetDirFromStorage data_dir id) (table_id id ++ suffix) = stem ++ suffix.
Proof.
  intros (c & r & E & Hc). unfold stem. rewrite E. cbn [app].
  rewrite path_join_relative by done. by rewrite <- app_assoc.
Qed.

Lemma version_path_stem t : relative_id -> version_path t = stem ++ $".versions/" ++ version_name t.
Proof.
  intros R. unfold version_path, TableVersionsDir. rewrite stem_paths by done.
  unfold version_name. pose proof (StrInt_nonempty t). pose proof (StrInt_int_chars t) as F.
  destruct (StrInt t) as [|c l]; [done|]. apply Forall_inv in F. cbn [app].
  rewrite path_join_relative by (intros ->; by vm_compute in F).
  unfold dir_prefix.
  replace (last (stem ++ $".versions")) with (Some "s"%char); [by rewrite <- !app_assoc|].
  change ($".versions") with ($".version" ++ ["s"%char]). by rewrite app_assoc, last_snoc.
Qed.

Lemma version_path_inj t t' : relative_id -> version_path t = version_path t' -> t = t'.
Proof.
  intros R. rewrite !version_path_stem by done. intros E.
  do 2 apply app_inv_head in E. by apply app_inv_tail, StrInt_inj in E.
Qed.

Lemma paths_apart t : relative_id ->
  live_path <> TableVersionsIndexPath data_dir id /\
  live_path <> TableVersionsIndexPath data_dir id ++ $".tmp" /\
  live_path <> version_path t /\
  TableVersionsIndexPath data_dir id <> version_path t /\
  TableVersionsIndexPath data_dir id ++ $".tmp" <> version_path t /\
  TableVersionsIndexPath data_dir id ++ $".tmp" <> TableVersionsIndexPath data_dir id.
Proof.
  intros R. unfold live_path, TableParquetPathFromStorage, TableVersionsIndexPath.
  rewrite version_path_stem, !stem_paths, <- !app_assoc by done.
  repeat split; intros E%app_inv_head; discriminate E.
Qed.

Lemma version_name_plain t : plain_name (version_name t).
Proof.
  unfold version_name. split; [|split].
  - pose proof (StrInt_nonempty t). by destruct (StrInt t).
  - rewrite elem_of_app. intros [E|E]; [by apply StrInt_no_quote in E|].
    by apply (literal_without quote ($".parquet")) in E.
  - rewrite elem_of_app. intros [E|E]; [|by apply (literal_without backslash ($".parquet")) in E].
    pose proof (StrInt_chars t) as F. rewrite Forall_forall in F.
    destruct (F _ E) as [D|D]; [|done]. apply ascii_isdigit_spec in D. vm_compute in D. by destruct D.
Qed.

(** *** The invariant of the log *)

Definition healthy (d : Disk) : Prop := forall p, faults d p = None.

Definition in_window (cur t : Z) : bool := (cur - kTimeTravelWindowMs <=? t)%Z.

Definition entry_for (s : Snapshot) : VersionEntry := mkEntry s.1 (version_name s.1).

(** The index after the history [pre ++ [(cur, _)]] of a table created at [t0]. *)
Definition index_for (t0 : Z) (pre : list Snapshot) (cur : Z) : VersionIndex :=
  mkIndex (Z.max t0 (cur - kTimeTravelWindowMs)) cur
    (map entry_for (List.filter (fun s => in_window cur s.1) pre)).

Record log_inv (d : Disk) (t0 : Z) (pre : list Snapshot) (cur : Z) (c : str) : Prop := {
  inv_healthy : healthy d;
  inv_live : files d !! live_path = Some c;
  inv_index : files d !! TableVersionsIndexPath data_dir id =
                Some (RenderVersionIndexJson (index_for t0 pre cur));
  inv_versions : forall s, s ∈ pre -> in_window cur s.1 = true -> (s.1 < cur)%Z ->
    files d !! version_path s.1 = snd <$> snapshot_at (pre ++ [(cur, c)]) s.1;
}.

(** Times at which a table can change: 64-bit milliseconds, never going back. *)
Definition times_ok (t0 : Z) (h : list Snapshot) : Prop :=
  StronglySorted Z.le (map fst h) /\ Forall (fun s => (t0 <= s.1)%Z /\ in_int64 s.1) h /\ in_int64 t0.

Lemma versions_sorted_of l :
  StronglySorted Z.le (map fst l) -> versions_sorted (map entry_for l).
Proof.
  induction l as [|s l IH]; intros HS; [done|]. inversion HS as [|? ? HS' HF]; subst.
  destruct l as [|s' l]; [done|]. split; [by apply Forall_inv in HF|by apply IH].
Qed.

Lemma sorted_map_filter {A} (f : A -> Z) (p : A -> bool) l :
  StronglySorted Z.le (map f l) -> StronglySorted Z.le (map f (List.filter p l)).
Proof.
  induction l as [|x l IH]; intros HS; [done|]. inversion HS as [|? ? HS' HF]; subst. simpl.
  destruct (p x); [|by apply IH]. simpl. constructor; [by apply IH|].
  rewrite Forall_forall in HF |- *. intros y (z & -> & Hz)%list_elem_of_fmap.
  apply HF, list_elem_of_fmap. exists z. split; [done|].
  apply list_elem_of_In in Hz. apply filter_In in Hz as [Hz _]. by apply list_elem_of_In.
Qed.

Lemma StronglySorted_prefix {A} (R : A -> A -> Prop) l1 l2 :
  StronglySorted R (l1 ++ l2) -> StronglySorted R l1.
Proof.
  induction l1 as [|x l1 IH]; intros HS; [constructor|]. inversion HS as [|? ? HS' HF]; subst.
  constructor; [by apply IH|]. by apply Forall_app in HF as [? _].
Qed.

Lemma StronglySorted_last (l : list Z) x y :
  StronglySorted Z.le (l ++ [x]) -> y ∈ l -> (y <= x)%Z.
Proof.
  induction l as [|z l IH]; intros HS Hy; [set_solver|]. inversion HS as [|? ? HS' HF]; subst.
  apply elem_of_cons in Hy as [->|Hy]; [|by apply IH].
  rewrite Forall_forall in HF. apply HF. set_solver.
Qed.

Lemma index_for_ok t0 pre cur c : times_ok t0 (pre ++ [(cur, c)]) -> index_ok (index_for t0 pre cur).
Proof.
  intros (HS & HF & H0'). rewrite map_app in HS.
  apply Forall_app in HF as [HF Hc]. apply Forall_inv in Hc as [? ?]. simpl in *.
  unfold index_ok, index_for, in_int64, int64_min, int64_max, kTimeTravelWindowMs in *. simpl.
  split; [lia|]. split; [lia|]. split.
  - apply Forall_map. apply Forall_forall. intros s Hs. split; [|apply version_name_plain].
    simpl. apply list_elem_of_In, filter_In in Hs as [Hs _].
    rewrite Forall_forall in HF. apply HF. by apply list_elem_of_In.
  - apply versions_sorted_of, sorted_map_filter. by eapply StronglySorted_prefix.
Qed.

Lemma load_index d t0 pre cur c clock :
  log_inv d t0 pre cur c -> times_ok t0 (pre ++ [(cur, c)]) ->
  LoadVersionIndexOrInit data_dir d id clock = Ok (index_for t0 pre cur).
Proof.
  intros I T. unfold LoadVersionIndexOrInit, exists_file, ReadFile.
  rewrite (inv_index _ _ _ _ _ I), (inv_healthy _ _ _ _ _ I). simpl.
  by eapply ParseVersionIndex_render, index_for_ok.
Qed.

Lemma create_table_inv d t0 c :
  relative_id -> healthy d -> in_int64 t0 -> log_inv (create_table d (t0, c)) t0 [] t0 c.
Proof.
  intros R Hh Ht. unfold create_table, InitVersionIndex, WriteVersionIndex, WriteFileAtomic.
  rewrite Hh. simpl. destruct (paths_apart 0 R) as (P1 & _).
  split; simpl.
  - exact Hh.
  - by rewrite lookup_insert_eq.
  - rewrite lookup_insert_ne, lookup_insert_eq by done. do 2 f_equal. unfold index_for. simpl.
    rewrite Z.max_l by (unfold kTimeTravelWindowMs; lia). done.
  - set_solver.
Qed.

(** Removing archived files of other times leaves a file in place. *)
Lemma remove_files_lookup d (l : list VersionEntry) p :
  healthy d -> (forall v, v ∈ l -> path_join (TableVersionsDir data_dir id) (file v) <> p) ->
  let d' := fold_left (fun d v => remove_file d (path_join (TableVersionsDir data_dir id) (file v))) l d in
  healthy d' /\ files d' !! p = files d !! p.
Proof.
  revert d. induction l as [|v l IH]; intros d Hh Hl; simpl; [done|].
  assert (remove_file d (path_join (TableVersionsDir data_dir id) (file v)) =
          delete_file d (path_join (TableVersionsDir data_dir id) (file v))) as ->
    by (unfold remove_file; by rewrite Hh).
  destruct (IH (delete_file d (path_join (TableVersionsDir data_dir id) (file v)))) as [H1 H2].
  - exact Hh.
  - intros w Hw. apply Hl. set_solver.
  - split; [exact H1|]. rewrite H2. simpl. apply lookup_delete_ne. apply Hl. set_solver.
Qed.

Lemma filter_filter_in_window cur ts l :
  (cur <= ts)%Z ->
  List.filter (fun s => in_window ts s.1) (List.filter (fun s => in_window cur s.1) l) =
  List.filter (fun s : Snapshot => in_window ts s.1) l.
Proof.
  intros Hle. induction l as [|s l IH]; simpl; [done|].
  destruct (in_window cur s.1) eqn:E; simpl; rewrite IH; [done|].
  unfold in_window in *. rewrite (proj2 (Z.leb_gt _ _)); [done|]. bool_to_prop. lia.
Qed.

Lemma filter_map_entry (p : Z -> bool) (l : list Snapshot) :
  List.filter (fun v => p (valid_from_ms v)) (map entry_for l) =
  map entry_for (List.filter (fun s => p s.1) l).
Proof. induction l as [|s l IH]; simpl; [done|]. by destruct (p s.1); simpl; rewrite IH. Qed.

(** The snapshot live at an earlier time does not change as the table goes on. *)
Lemma snapshot_at_snoc h ts s :
  (ts < s.1)%Z -> snapshot_at (h ++ [s]) ts = snapshot_at h ts.
Proof.
  intros Hlt. unfold snapshot_at. rewrite List.filter_app. simpl.
  rewrite (proj2 (Z.leb_gt _ _)) by done. by rewrite app_nil_r.
Qed.

Lemma snapshot_at_last h cur c ts : (cur <= ts)%Z -> snapshot_at (h ++ [(cur, c)]) ts = Some (cur, c).
Proof.
  intros Hle. unfold snapshot_at. rewrite List.filter_app. simpl.
  rewrite (proj2 (Z.leb_le _ _)) by done. by rewrite last_snoc.
Qed.

Lemma times_ok_prefix t0 h h' : times_ok t0 (h ++ h') -> times_ok t0 h.
Proof.
  intros (HS & HF & ?). rewrite map_app in HS. split; [by eapply StronglySorted_prefix|].
  by apply Forall_app in HF as [? _].
Qed.

Lemma kept_versions cur ts pre c :
  (cur <= ts)%Z ->
  List.filter (fun v => negb (valid_from_ms v <? ts - kTimeTravelWindowMs)%Z)
    (map entry_for (List.filter (fun s => in_window cur s.1) pre ++ [(cur, c)])) =
  map entry_for (List.filter (fun s => in_window ts s.1) (pre ++ [(cur, c)])).
Proof.
  intros Hle.
  rewrite (filter_ext _ (fun v => in_window ts (valid_from_ms v)))
    by (intros v; unfold in_window; by rewrite Z.leb_antisym).
  rewrite filter_map_entry, !List.filter_app. by rewrite filter_filter_in_window.
Qed.

Lemma created_max t0 cur ts :
  (cur <= ts)%Z ->
  (if (Z.max t0 (cur - kTimeTravelWindowMs) <? ts - kTimeTravelWindowMs)%Z
   then ts - kTimeTravelWindowMs else Z.max t0 (cur - kTimeTravelWindowMs))%Z =
  Z.max t0 (ts - kTimeTravelWindowMs).
Proof. intros. case_match eqn:E; bool_to_prop; lia. Qed.

(** What archiving leaves: the index of the longer history, the old snapshot
    under its own time, and every archived file still in the window. *)
Lemma archive_result d t0 pre cur c ts clock :
  relative_id -> log_inv d t0 pre cur c -> times_ok t0 (pre ++ [(cur, c)]) -> (cur <= ts)%Z ->
  exists d', ArchiveParquetBeforeReplace data_dir d id live_path ts clock = (d', Ok ()) /\
    healthy d' /\
    files d' !! TableVersionsIndexPath data_dir id =
      Some (RenderVersionIndexJson (index_for t0 (pre ++ [(cur, c)]) ts)) /\
    forall t, in_window ts t = true ->
      files d' !! version_path t = files (set_file d (version_path cur) c) !! version_path t.
Proof.
  intros R I T Hle. destruct I as [Hh Hl Hi Hv].
  unfold ArchiveParquetBeforeReplace. unfold exists_file at 1. rewrite Hl. simpl negb. cbv iota.
  rewrite (load_index d t0 pre cur c clock) by (done || by constructor).
  unfold create_directories. rewrite Hh.
  change (path_join (TableVersionsDir data_dir id) (StrInt (current_ts_ms (index_for t0 pre cur)) ++ $".parquet"))
    with (version_path cur).
  unfold copy_file. rewrite Hh, Hl. set (d1 := set_file d (version_path cur) c).
  unfold FinishArchive, PruneOldVersions. cbn [created_ts_ms current_ts_ms versions index_for].
  rewrite sort_versions_sorted.
  2:{ change ([mkEntry cur (StrInt cur ++ $".parquet")]) with (map entry_for [(cur, c)]).
      rewrite <- map_app. apply versions_sorted_of.
      destruct T as [HS _]. apply (sorted_map_filter fst (fun s => in_window cur s.1)) in HS.
      rewrite List.filter_app in HS. simpl in HS.
      unfold in_window at 2 in HS. rewrite (proj2 (Z.leb_le _ _)) in HS; [done|].
      unfold kTimeTravelWindowMs. lia. }
  change ([mkEntry cur (StrInt cur ++ $".parquet")]) with (map entry_for [(cur, c)]).
  rewrite <- map_app, (kept_versions cur ts pre c), created_max by done.
  set (dropped := List.filter _ _).
  set (dd := fold_left _ dropped d1).
  assert (forall p, (forall t, in_window ts t = false -> version_path t <> p) ->
            healthy dd /\ files dd !! p = files d1 !! p) as Hdd.
  { intros p Hp. apply remove_files_lookup; [exact Hh|]. intros v Hv'.
    unfold dropped in Hv'. apply list_elem_of_In, filter_In in Hv' as [Hin Hlt].
    apply in_map_iff in Hin as (s & <- & _). apply Hp. unfold in_window. simpl in Hlt.
    bool_to_prop. apply Z.leb_gt. lia. }
  destruct (paths_apart 0 R) as (_ & _ & _ & _ & _ & Ptmp).
  assert (healthy dd) as Hhd.
  { apply (Hdd live_path). intros t _ E. by destruct (paths_apart t R) as (_ & _ & P & _). }
  unfold WriteVersionIndex, WriteFileAtomic. rewrite Hhd. eexists. split; [done|]. split; [exact Hhd|].
  simpl. split; [by rewrite lookup_insert_eq|].
  intros t Ht. destruct (paths_apart t R) as (_ & _ & _ & P3 & P4 & _).
  rewrite lookup_insert_ne, lookup_delete_ne by done.
  apply (Hdd (version_path t)). intros t' Ht' E. apply version_path_inj in E; [|done]. congruence.
Qed.

Lemma replace_table_inv d t0 pre cur c ts c' clock :
  relative_id -> log_inv d t0 pre cur c -> times_ok t0 ((pre ++ [(cur, c)]) ++ [(ts, c')]) ->
  log_inv (replace_table clock d (ts, c')) t0 (pre ++ [(cur, c)]) ts c'.
Proof.
  intros R I T.
  assert (cur <= ts)%Z as Hle.
  { destruct T as [HS _]. rewrite !map_app in HS. eapply StronglySorted_last; [exact HS|]. set_solver. }
  destruct (archive_result d t0 pre cur c ts clock R I (times_ok_prefix _ _ _ T) Hle)
    as (d' & E & Hh & Hi & Hv).
  unfold replace_table. simpl. rewrite E. destruct (paths_apart 0 R) as (P1 & _).
  constructor; simpl.
  - exact Hh.
  - by rewrite lookup_insert_eq.
  - by rewrite lookup_insert_ne.
  - intros s Hs Hw Hlt. destruct (paths_apart s.1 R) as (_ & _ & P2 & _).
    rewrite lookup_insert_ne, Hv, snapshot_at_snoc by done. simpl.
    destruct (decide (s.1 = cur)) as [->|Hne].
    + by rewrite lookup_insert_eq, snapshot_at_last by lia.
    + rewrite lookup_insert_ne by (intros ?%version_path_inj; done).
      apply elem_of_app in Hs as [Hs|Hs]; [|set_solver].
      destruct I as [_ _ _ Iv]. apply Iv; [done| |].
      * unfold in_window in *. bool_to_prop. apply Z.leb_le. lia.
      * destruct (times_ok_prefix _ _ _ T) as [HS _]. rewrite map_app in HS. simpl in HS.
        assert (s.1 ∈ map fst pre) as Hin by (apply list_elem_of_fmap; eauto).
        pose proof (StronglySorted_last _ _ s.1 HS Hin). lia.
Qed.

(** The disk after a whole history. *)
Definition disk_after (clock : Z) (d : Disk) (first : Snapshot) (rest : list Snapshot) : Disk :=
  fold_left (replace_table clock) rest (create_table d first).

Lemma disk_after_inv clock d first rest pre cur c :
  relative_id -> healthy d -> times_ok first.1 (first :: rest) ->
  first :: rest = pre ++ [(cur, c)] ->
  log_inv (disk_after clock d first rest) first.1 pre cur c.
Proof.
  intros R Hh. revert pre cur c. induction rest as [|[ts c'] rest IH] using rev_ind;
    intros pre cur c T E.
  - destruct pre as [|? [|]]; simplify_eq/=. apply create_table_inv; [done..|]. apply T.
  - rewrite app_comm_cons in E, T. apply app_inj_tail in E as [<- E]. simplify_eq.
    destruct (exists_last (l := first :: rest)) as (pre' & [cur' c0] & E'); [done|].
    unfold disk_after. rewrite fold_left_app. simpl. rewrite E' in T |- *.
    apply replace_table_inv; [done| |done]. apply IH; [|done].
    rewrite E'. by eapply times_ok_prefix.
Qed.

(** *** Resolution *)

Lemma last_filter_keep {A} (q : A -> bool) (m : list A) s :
  last m = Some s -> q s = true -> last (List.filter q m) = Some s.
Proof.
  intros L Q. apply last_Some in L as [m' ->]. rewrite List.filter_app. simpl.
  by rewrite Q, last_snoc.
Qed.

Lemma filter_comm {A} (p q : A -> bool) l :
  List.filter p (List.filter q l) = List.filter q (List.filter p l).
Proof.
  induction l as [|x l IH]; [done|]. simpl.
  destruct (q x) eqn:Q, (p x) eqn:P; simpl; rewrite ?Q, ?P, IH; done.
Qed.

Lemma best_version_entries (pre : list Snapshot) cur as_of :
  best_version (map entry_for (List.filter (fun s => in_window cur s.1) pre)) as_of =
  entry_for <$> last (List.filter (fun s => in_window cur s.1)
                        (List.filter (fun s => (s.1 <=? as_of)%Z) pre)).
Proof.
  unfold best_version. rewrite (filter_map_entry (fun t => (t <=? as_of)%Z)), filter_comm.
  apply fmap_last.
Qed.

Lemma snapshot_at_self pre as_of s :
  snapshot_at pre as_of = Some s -> snapshot_at pre s.1 = Some s /\ (s.1 <= as_of)%Z /\ s ∈ pre.
Proof.
  unfold snapshot_at. intros L. pose proof L as L'. apply last_Some in L' as [m Em].
  assert (s ∈ List.filter (fun s => (s.1 <=? as_of)%Z) pre) as Hin by (rewrite Em; set_solver).
  apply list_elem_of_In, filter_In in Hin as [Hin Hle]. apply Z.leb_le in Hle.
  split; [|split; [done|by apply list_elem_of_In]].
  replace (List.filter (fun s' => (s'.1 <=? s.1)%Z) pre) with
    (List.filter (fun s' => (s'.1 <=? s.1)%Z) (List.filter (fun s' => (s'.1 <=? as_of)%Z) pre)).
  - apply last_filter_keep; [done|]. by apply Z.leb_le.
  - clear -Hle. induction pre as [|x pre IH]; [done|]. simpl.
    destruct (x.1 <=? as_of)%Z eqn:E; simpl; rewrite IH; [done|].
    rewrite (proj2 (Z.leb_gt _ _)); [done|]. bool_to_prop. lia.
Qed.

Section resolve.
Context (d : Disk) (t0 : Z) (pre : list Snapshot) (cur : Z) (c : str).
Context (R : relative_id) (I : log_inv d t0 pre cur c) (T : times_ok t0 (pre ++ [(cur, c)])).
Context (as_of now clock : Z).
Context (Hnow : (cur <= now)%Z) (Has : (as_of <= now)%Z)
  (Hwin : (now - kTimeTravelWindowMs <= as_of)%Z) (Ht0 : (t0 <= as_of)%Z).

Lemma resolve_reduces :
  ResolveParquetSnapshotAt data_dir d id live_path as_of now clock =
  if (cur <=? as_of)%Z then Ok live_path
  else match best_version (versions (index_for t0 pre cur)) as_of with
       | None => Err (InvalidSnapshotTimeError id as_of (created_ts_ms (index_for t0 pre cur)))
       | Some best =>
           if negb (exists_file d (path_join (TableVersionsDir data_dir id) (file best)))
           then Err (InvalidSnapshotTimeError id as_of (created_ts_ms (index_for t0 pre cur)))
           else Ok (path_join (TableVersionsDir data_dir id) (file best))
       end.
Proof.
  unfold ResolveParquetSnapshotAt. rewrite !(proj2 (Z.ltb_ge _ _)) by lia.
  rewrite (load_index d t0 pre cur c clock I T). simpl mbind.
  assert (exists_file d (TableVersionsIndexPath data_dir id) = true) as ->
    by (unfold exists_file; by rewrite (inv_index _ _ _ _ _ I)).
  assert (exists_file d live_path = true) as ->
    by (unfold exists_file; by rewrite (inv_live _ _ _ _ _ I)).
  simpl negb. cbn [andb created_ts_ms current_ts_ms index_for].
  by rewrite (proj2 (Z.ltb_ge _ _)) by lia.
Qed.

Lemma resolve_served s :
  snapshot_at (pre ++ [(cur, c)]) as_of = Some s -> (cur <= as_of)%Z \/ in_window cur s.1 = true ->
  exists path, ResolveParquetSnapshotAt data_dir d id live_path as_of now clock = Ok path /\
    files d !! path = Some s.2.
Proof.
  intros Hs Hor. rewrite resolve_reduces. destruct (cur <=? as_of)%Z eqn:B; bool_to_prop.
  - exists live_path. split; [done|]. rewrite snapshot_at_last in Hs by done. simplify_eq.
    apply I.
  - destruct Hor as [?|Hw]; [lia|]. rewrite snapshot_at_snoc in Hs by done.
    destruct (snapshot_at_self _ _ _ Hs) as (Hself & Hle & Hin).
    assert (files d !! version_path s.1 = Some s.2) as Hf.
    { rewrite (inv_versions _ _ _ _ _ I s) by (done || lia).
      rewrite snapshot_at_snoc by (simpl; lia). by rewrite Hself. }
    cbn [versions index_for]. rewrite best_version_entries.
    rewrite (last_filter_keep _ _ s) by done. simpl.
    change (path_join (TableVersionsDir data_dir id) (version_name s.1)) with (version_path s.1).
    unfold exists_file. rewrite Hf. simpl. eauto.
Qed.

Lemma resolve_hole s :
  snapshot_at (pre ++ [(cur, c)]) as_of = Some s -> (as_of < cur)%Z -> in_window cur s.1 = false ->
  ResolveParquetSnapshotAt data_dir d id live_path as_of now clock =
    Err (InvalidSnapshotTimeError id as_of (Z.max t0 (cur - kTimeTravelWindowMs))).
Proof.
  intros Hs Hlt Hw. rewrite resolve_reduces, (proj2 (Z.leb_gt _ _)) by done.
  rewrite snapshot_at_snoc in Hs by done. cbn [versions index_for].
  rewrite best_version_entries.
  replace (List.filter (fun s => in_window cur s.1)
             (List.filter (fun s => (s.1 <=? as_of)%Z) pre)) with (@nil Snapshot); [done|].
  symmetry. unfold snapshot_at in Hs. apply last_Some in Hs as [m Em].
  destruct T as [HS _]. rewrite map_app in HS. apply StronglySorted_prefix in HS.
  apply (sorted_map_filter fst (fun s => (s.1 <=? as_of)%Z)) in HS.
  rewrite Em in HS |- *. rewrite map_app in HS.
  assert (forall x, x ∈ m ++ [s] -> in_window cur x.1 = false) as Hall.
  { intros x Hx. assert (x.1 <= s.1)%Z as Hxs.
    { apply elem_of_app in Hx as [Hx|Hx].
      - eapply StronglySorted_last; [exact HS|]. apply list_elem_of_fmap. eauto.
      - apply list_elem_of_singleton in Hx as ->. lia. }
    unfold in_window in *. bool_to_prop. apply Z.leb_gt. lia. }
  clear -Hall. induction (m ++ [s]) as [|x l IH]; [done|]. simpl.
  rewrite Hall by set_solver. apply IH. intros y Hy. apply Hall. set_solver.
Qed.
End resolve.
End history.

(** ** Properties *)

Section properties.
Context `{AbslTextLaws}.

(** C25: FOR SYSTEM_TIME AS OF reads the right data: after a table has been
    created and then replaced any number of times at non-decreasing times, a
    timestamp inside the 7-day window resolves to a file that holds exactly the
    snapshot that was live at that time, whenever that snapshot is still the
    live one or became live within 7 days of the last replacement. *)
Theorem time_travel_reads data_dir id d first rest pre cur c clock now as_of s
    (R : relative_id id) (Hd : healthy d) (T : times_ok first.1 (first :: rest))
    (Hlast : first :: rest = pre ++ [(cur, c)])
    (Hnow : (cur <= now)%Z) (Has : (first.1 <= as_of <= now)%Z)
    (Hwin : (now - kTimeTravelWindowMs <= as_of)%Z)
    (Hs : snapshot_at (first :: rest) as_of = Some s)
    (Hkept : (cur <= as_of)%Z \/ (cur - kTimeTravelWindowMs <= s.1)%Z) :
  let disk := disk_after data_dir id clock d first rest in
  exists path,
    ResolveParquetSnapshotAt data_dir disk id (live_path data_dir id) as_of now clock = Ok path /\
    files disk !! path = Some s.2.
Proof.
  pose proof (disk_after_inv data_dir id clock d first rest pre cur c R Hd T Hlast) as I.
  rewrite Hlast in T, Hs.
  apply (resolve_served data_dir id _ first.1 pre cur c I T as_of now clock); try lia; [done|].
  destruct Hkept as [?|?]; [by left|]. right. by apply Z.leb_le.
Qed.

(** The hole in the window: when the snapshot live at a timestamp became
    live more than 7 days before the table's last replacement, an AS OF read
    inside the 7-day window is refused as an invalid snapshot time, because
    pruning judges an archived snapshot by when it became live and not by when
    it was replaced. *)
Theorem time_travel_window_hole data_dir id d first rest pre cur c clock now as_of s
    (R : relative_id id) (Hd : healthy d) (T : times_ok first.1 (first :: rest))
    (Hlast : first :: rest = pre ++ [(cur, c)])
    (Hnow : (cur <= now)%Z) (Has : (first.1 <= as_of < cur)%Z)
    (Hwin : (now - kTimeTravelWindowMs <= as_of)%Z)
    (Hs : snapshot_at (first :: rest) as_of = Some s)
    (Hold : (s.1 < cur - kTimeTravelWindowMs)%Z) :
  ResolveParquetSnapshotAt data_dir (disk_after data_dir id clock d first rest) id
    (live_path data_dir id) as_of now clock =
  Err (InvalidSnapshotTimeError id as_of (cur - kTimeTravelWindowMs)).
Proof.
  pose proof (disk_after_inv data_dir id clock d first rest pre cur c R Hd T Hlast) as I.
  rewrite Hlast in T, Hs.
  rewrite (resolve_hole data_dir id _ first.1 pre cur c I T as_of now clock) with (s := s);
    try lia; [|done|by apply Z.leb_gt].
  rewrite Z.max_r; [done|]. destruct (snapshot_at_self _ _ _ Hs) as (_ & _ & Hin).
  destruct T as (_ & F & _). rewrite Forall_forall in F. pose proof (F s Hin). lia.
Qed.

Lemma parse_entries_fuel json f1 f2 : length json <= f1 -> length json <= f2 ->
  ParseEntriesLoop f1 json = ParseEntriesLoop f2 json.
Proof.
  revert json f2. induction f1 as [|f1 IH]; intros json f2 L1 L2.
  { destruct json; [by destruct f2|simpl in L1; lia]. }
  destruct f2 as [|f2]; [destruct json; [done|simpl in L2; lia]|]. cbn [ParseEntriesLoop].
  destruct (find_sub valid_from_key json) as [[a rest]|] eqn:F; [|done].
  apply find_sub_Some in F. apply (f_equal length) in F. rewrite !length_app in F.
  assert (0 < length valid_from_key) by (vm_compute; lia).
  by rewrite (IH rest f2) by lia.
Qed.

(** The version index written to disk reads back unchanged: its two
    timestamps and all its entries in order, for any 64-bit times, sorted
    entries and file names free of quotes and backslashes; and reading stops at
    the end of the text, whatever the text. *)
Theorem version_index_roundtrip d path index
    (Hd : healthy d) (Hok : index_ok index) :
  exists d', WriteVersionIndex d path index = (d', Ok ()) /\
    ReadVersionIndex d' path false = Ok index /\
    (forall fuel json, length json <= fuel ->
       ParseEntriesLoop fuel json = ParseEntriesLoop (length json) json).
Proof.
  unfold WriteVersionIndex, WriteFileAtomic. rewrite Hd. eexists. split; [done|].
  split; [|intros; apply parse_entries_fuel; lia].
  unfold ReadVersionIndex, exists_file, ReadFile. simpl. rewrite lookup_insert_eq, Hd. simpl.
  by apply ParseVersionIndex_render.
Qed.
End properties.

(** ** Witnesses *)

Module Demo.

Definition day : Z := 24 * 60 * 60 * 1000.
Definition tbl : TableId := mkTableId $"p" $"d" $"t".
Definition empty_disk : Disk := mkDisk ∅ (fun _ => None).
Definition history : list (Z * str) := [(20 * day, $"v1"); (21 * day, $"v2"); (30 * day, $"v3")]%Z.

Lemma tbl_relative : relative_id tbl.
Proof. exists "t"%char, []. split; [reflexivity|discriminate]. Qed.

(** Closed goals about times: list structure, then arithmetic. *)
Ltac solve_times :=
  repeat first [apply SSorted_nil | apply SSorted_cons | apply Forall_nil_2 | apply Forall_cons_2];
  unfold in_int64, int64_min, int64_max, day; simpl; lia.

Lemma history_times : times_ok (20 * day) history.
Proof. split; [|split]; unfold history; cbn [map fst]; solve_times. Qed.

(** Created on day 20 and replaced on day 21: a read of day 20 served on day 22. *)
Lemma time_travel_reads_witness :
  exists path,
    ResolveParquetSnapshotAt [] (disk_after [] tbl 0 empty_disk (20 * day, $"v1")%Z [(21 * day, $"v2")%Z])
      tbl (live_path [] tbl) (20 * day + 5) (22 * day) 0 = Ok path /\
    files (disk_after [] tbl 0 empty_disk (20 * day, $"v1")%Z [(21 * day, $"v2")%Z]) !! path = Some $"v1".
Proof.
  apply (time_travel_reads [] tbl empty_disk (20 * day, $"v1")%Z [(21 * day, $"v2")%Z]
           [(20 * day, $"v1")%Z] (21 * day) $"v2" 0 (22 * day) (20 * day + 5) (20 * day, $"v1")%Z
           tbl_relative (fun p => eq_refl)); try reflexivity.
  - split; [|split]; cbn [map fst]; solve_times.
  - unfold day. lia.
  - unfold day. simpl. lia.
  - unfold kTimeTravelWindowMs, day. lia.
  - right. unfold kTimeTravelWindowMs, day. simpl. lia.
Defined.

(** Replaced again on day 30: day 29 lies in the window of day 31, and the
    snapshot of day 21 that was live on day 29 is gone. *)
Lemma time_travel_window_hole_witness :
  ResolveParquetSnapshotAt [] (disk_after [] tbl 0 empty_disk (20 * day, $"v1")%Z
      [(21 * day, $"v2"); (30 * day, $"v3")]%Z) tbl (live_path [] tbl) (29 * day) (31 * day) 0 =
  Err (InvalidSnapshotTimeError tbl (29 * day) (30 * day - kTimeTravelWindowMs)).
Proof.
  apply (time_travel_window_hole [] tbl empty_disk (20 * day, $"v1")%Z
           [(21 * day, $"v2"); (30 * day, $"v3")]%Z [(20 * day, $"v1"); (21 * day, $"v2")]%Z
           (30 * day) $"v3" 0 (31 * day) (29 * day) (21 * day, $"v2")%Z
           tbl_relative (fun p => eq_refl)); try reflexivity.
  - exact history_times.
  - unfold day. lia.
  - unfold day. simpl. lia.
  - unfold kTimeTravelWindowMs, day. lia.
Defined.

Lemma version_index_roundtrip_witness :
  exists d', WriteVersionIndex empty_disk $"t.versions.json"
      (mkIndex 5 9 [mkEntry 5 (version_name 5); mkEntry 7 (version_name 7)]) = (d', Ok ()) /\
    ReadVersionIndex d' $"t.versions.json" false =
      Ok (mkIndex 5 9 [mkEntry 5 (version_name 5); mkEntry 7 (version_name 7)]).
Proof.
  assert (forall z, (0 <= z <= 9)%Z -> in_int64 z) as B
    by (intros z ?; unfold in_int64, int64_min, int64_max; lia).
  edestruct (version_index_roundtrip empty_disk $"t.versions.json")
    as (d' & W & R & _); [intros p; reflexivity| |exists d'; split; [exact W|exact R]].
  split; [apply B; simpl; lia|]. split; [apply B; simpl; lia|]. split.
  - repeat constructor; try (apply B; simpl; lia); apply version_name_plain.
  - simpl. lia.
Defined.

End Demo.
