(* ===== verification/SidecarJson.v ===== *)
(** * SidecarJson: the JSON texts kept beside tables and in tombstones

    Models the text layer of the DuckDB storage: [JsonEscape], the dataset and
    table sidecars of [backend/storage/duckdb/duckdb_storage_meta.cc], the
    registry snapshots of [duckdb_storage_tombstone_registry_json.cc] and
    [duckdb_storage_tombstone_registry_governance.cc], and the table manifest
    of [duckdb_storage_version_log_tombstone.cc].

    None of these readers is a JSON parser: each searches for a quoted field
    name and scans from there.  Texts are byte strings; [find_sub] is
    [string_view::find].  The JSON form of a schema message, which protobuf
    prints and parses, is a parameter, and so is the value that [SimpleAtoi]
    leaves in its output when it fails. *)

From S2P Require Import Prelude Absl Schema Storage VersionLog.

(** ** Records of the registry *)

Record RoutineId := mkRoutineId { r_project_id : str; r_dataset_id : str; routine_id : str }.

Inductive RoutineKind := kScalarFunction | kAggregateFunction | kTableValuedFunction | kProcedure.

Record RoutineRecord := mkRoutine {
  r_id : RoutineId;
  kind : RoutineKind;
  language : str;
  r_ddl_sql : str;
  is_temp : bool;
  signature_json : str;
}.

Record ViewId := mkViewId { v_project_id : str; v_dataset_id : str; view_id : str }.

Record ViewRecord := mkView {
  v_id : ViewId;
  ddl_sql : str;
  view_query : str;
  schema : TableSchema;
}.

Record TableResourceInfo := mkResourceInfo {
  table_type : str;
  info_view_query : str;
  info_ddl_sql : str;
}.

Record RowAccessPolicyRecord := mkPolicy {
  policy_id : str;
  filter_predicate : str;
  grantees : list str;
  creation_time_ms : Z;
  last_modified_time_ms : Z;
}.

Definition empty_policy : RowAccessPolicyRecord := mkPolicy [] [] [] 0 0.

Inductive DataMaskKind := kNone | kNullify | kSha256 | kDefaultValue | kDenied.

Record ColumnGovernanceRecord := mkColumnGov {
  policy_tags : list str;
  mask_kind : DataMaskKind;
  mask_grantees : list str;
  default_mask_value : str;
}.

Record TableGovernance := mkGovernance {
  row_access_policies : list RowAccessPolicyRecord;
  gov_columns : list (str * ColumnGovernanceRecord);
}.

(** ** Escapes *)

Definition newline : ascii := "010"%char.
Definition carriage_return : ascii := "013"%char.
Definition tab : ascii := "009"%char.

Definition escape_char (c : ascii) : str :=
  if decide (c = backslash) then [backslash; backslash]
  else if decide (c = quote) then [backslash; quote]
  else if decide (c = newline) then [backslash; "n"%char]
  else if decide (c = carriage_return) then [backslash; "r"%char]
  else if decide (c = tab) then [backslash; "t"%char]
  else [c].

Definition JsonEscape (s : str) : str := flat_map escape_char s.

(** A value between quotes. *)
Definition json_string (s : str) : str := quote :: JsonEscape s ++ [quote].

(** Only the backslash and the quote are escaped. *)
Definition escape_quotes_char (c : ascii) : str :=
  if decide (c = backslash) then [backslash; backslash]
  else if decide (c = quote) then [backslash; quote]
  else [c].
Definition escape_quotes (s : str) : str := flat_map escape_quotes_char s.

(** The text after the first occurrence of [needle]. *)
Definition find_after (needle s : str) : option str := snd <$> find_sub needle s.

(** ** Registry snapshots *)

Definition RoutineKindToString (k : RoutineKind) : str :=
  match k with
  | kScalarFunction => $"scalar_function"
  | kAggregateFunction => $"aggregate_function"
  | kTableValuedFunction => $"table_valued_function"
  | kProcedure => $"procedure"
  end.

Section text.
Context `{AbslText}.

Definition RoutineKindFromString (s : str) : StatusOr RoutineKind :=
  let lower := AsciiStrToLower s in
  if decide (lower = $"scalar_function") then Ok kScalarFunction
  else if decide (lower = $"aggregate_function") then Ok kAggregateFunction
  else if decide (lower = $"table_valued_function") then Ok kTableValuedFunction
  else if decide (lower = $"procedure") then Ok kProcedure
  else Err (InvalidArgumentError ($"unknown routine kind: " ++ s)).

Definition RenderQuotedJsonStrings (values : list str) : str :=
  $"[" ++ join_text $"," (map json_string values) ++ $"]".

(** The body of a string up to its closing quote, and what follows it. *)
Fixpoint ScanJsonString (s : str) : str * str :=
  match s with
  | [] => ([], [])
  | c :: s' =>
      if bool_decide (c = backslash)
      then match s' with
           | d :: s'' => let '(id, rest) := ScanJsonString s'' in (d :: id, rest)
           | [] => ([c], [])
           end
      else if bool_decide (c = quote) then ([], s')
      else let '(id, rest) := ScanJsonString s' in (c :: id, rest)
  end.

Fixpoint QuotedStringsLoop (fuel : nat) (json : str) : list str :=
  match fuel with
  | O => []
  | S fuel =>
      match find_after [quote] json with
      | None => []
      | Some rest =>
          let '(id, rest) := ScanJsonString rest in
          match id with
          | [] => QuotedStringsLoop fuel rest
          | _ => id :: QuotedStringsLoop fuel rest
          end
      end
  end.

(** Every round consumes at least the opening quote. *)
Definition ParseQuotedJsonStringArray (json : str) : list str :=
  QuotedStringsLoop (length json) json.

Definition ParseJsonStringField (json field : str) : StatusOr str :=
  match find_after (quoted field ++ $":" ++ [quote]) json with
  | None => Err (InvalidArgumentError ($"json missing string field " ++ field))
  | Some rest => Ok (UnescapeJson rest)
  end.

Definition ParseJsonBoolField (json field : str) : bool :=
  match find_after (quoted field ++ $":") json with
  | None => false
  | Some rest => match strip_prefix $"true" rest with Some _ => true | None => false end
  end.

Definition RenderViewRecordJson (rec : ViewRecord) : str :=
  $"{" ++ quoted $"view_id" ++ $":" ++ json_string (view_id (v_id rec)) ++
  $"," ++ quoted $"ddl_sql" ++ $":" ++ json_string (ddl_sql rec) ++ $"}".

Definition ParseViewRecordJson (json : str) (ds : DatasetId) : StatusOr ViewRecord :=
  id ← ParseJsonStringField json $"view_id";
  ddl ← ParseJsonStringField json $"ddl_sql";
  Ok (mkView (mkViewId (ds_project_id ds) (ds_dataset_id ds) id) ddl [] (mkTableSchema [])).

Definition RenderRoutineRecordJson (rec : RoutineRecord) : str :=
  let sig := match signature_json rec with
             | [] => $"null"
             | _ => json_string (signature_json rec)
             end in
  $"{" ++ quoted $"routine_id" ++ $":" ++ json_string (routine_id (r_id rec)) ++
  $"," ++ quoted $"kind" ++ $":" ++ quoted (RoutineKindToString (kind rec)) ++
  $"," ++ quoted $"language" ++ $":" ++ json_string (language rec) ++
  $"," ++ quoted $"ddl_sql" ++ $":" ++ json_string (r_ddl_sql rec) ++
  $"," ++ quoted $"is_temp" ++ $":" ++ (if is_temp rec then $"true" else $"false") ++
  $"," ++ quoted $"signature_json" ++ $":" ++ sig ++ $"}".

Definition ParseRoutineRecordJson (json : str) (ds : DatasetId) : StatusOr RoutineRecord :=
  id ← ParseJsonStringField json $"routine_id";
  k ← ParseJsonStringField json $"kind";
  lang ← ParseJsonStringField json $"language";
  ddl ← ParseJsonStringField json $"ddl_sql";
  parsed ← RoutineKindFromString k;
  let sig :=
    if str_contains json (quoted $"signature_json" ++ $":null") then []
    else match ParseJsonStringField json $"signature_json" with Ok s => s | Err _ => [] end in
  Ok (mkRoutine (mkRoutineId (ds_project_id ds) (ds_dataset_id ds) id) parsed lang ddl
        (ParseJsonBoolField json $"is_temp") sig).

(** ** Objects of an array *)

(** [pos] is the text that is left; [None] when the loop is to stop. *)
Fixpoint AdvancePastWhitespaceAndComma (array_json : str) : option str :=
  match array_json with
  | [] => None
  | c :: rest =>
      if bool_decide (c = " "%char) || bool_decide (c = ","%char) || bool_decide (c = newline)
      then AdvancePastWhitespaceAndComma rest
      else if bool_decide (c = "]"%char) then None else Some array_json
  end.

(** The scan for the brace that brings [depth] back to zero: the text up to it
    and what follows it. *)
Fixpoint balanced_scan (depth : nat) (in_string : bool) (s : str) : option (str * str) :=
  match s with
  | [] => None
  | c :: s' =>
      let put (r : option (str * str)) := (fun p => (c :: p.1, p.2)) <$> r in
      if in_string then
        if bool_decide (c = backslash) then
          match s' with
          | d :: s'' => (fun p => (c :: d :: p.1, p.2)) <$> balanced_scan depth true s''
          | [] => None
          end
        else put (balanced_scan depth (negb (bool_decide (c = quote))) s')
      else if bool_decide (c = quote) then put (balanced_scan depth true s')
      else if bool_decide (c = "{"%char) then put (balanced_scan (S depth) false s')
      else if bool_decide (c = "}"%char) then
        match pred depth with
        | O => Some ([c], s')
        | d => put (balanced_scan d false s')
        end
      else put (balanced_scan depth false s')
  end.

Definition ExtractBalancedObject (s : str) : option (str * str) :=
  match s with
  | "{"%char :: _ => balanced_scan 0 false s
  | _ => None
  end.

Fixpoint SplitLoop (fuel : nat) (s : str) : list str :=
  match fuel with
  | O => []
  | S fuel =>
      match AdvancePastWhitespaceAndComma s with
      | None => []
      | Some s =>
          match ExtractBalancedObject s with
          | None => []
          | Some (object, rest) => object :: SplitLoop fuel rest
          end
      end
  end.

(** Every round consumes at least the braces of an object. *)
Definition SplitTopLevelJsonObjects (array_json : str) : list str :=
  match find_after $"[" array_json with
  | None => []
  | Some rest => SplitLoop (length rest) rest
  end.

(** ** The governance snapshot *)

Definition MaskKindToString (k : DataMaskKind) : str :=
  match k with
  | kNullify => $"NULLIFY"
  | kSha256 => $"SHA256"
  | kDefaultValue => $"DEFAULT_VALUE"
  | kDenied => $"DENIED"
  | kNone => $"NONE"
  end.

Definition MaskKindFromString (s : str) : DataMaskKind :=
  let upper := AsciiStrToUpper s in
  if decide (upper = $"NULLIFY") then kNullify
  else if decide (upper = $"SHA256") then kSha256
  else if decide (upper = $"DEFAULT_VALUE") then kDefaultValue
  else if decide (upper = $"DENIED") then kDenied
  else kNone.

Definition RenderPolicyJson (p : RowAccessPolicyRecord) : str :=
  $"{" ++ quoted $"policy_id" ++ $":" ++ json_string (policy_id p) ++
  $"," ++ quoted $"filter_predicate" ++ $":" ++ json_string (filter_predicate p) ++
  $"," ++ quoted $"grantees" ++ $":" ++ RenderQuotedJsonStrings (grantees p) ++
  $"," ++ quoted $"creation_time_ms" ++ $":" ++ StrInt (creation_time_ms p) ++
  $"," ++ quoted $"last_modified_time_ms" ++ $":" ++ StrInt (last_modified_time_ms p) ++ $"}".

Definition RenderColumnGovJson (col : str * ColumnGovernanceRecord) : str :=
  let '(name, gov) := col in
  $"{" ++ quoted $"column" ++ $":" ++ json_string name ++
  $"," ++ quoted $"policy_tags" ++ $":" ++ RenderQuotedJsonStrings (policy_tags gov) ++
  $"," ++ quoted $"mask_kind" ++ $":" ++ quoted (MaskKindToString (mask_kind gov)) ++
  $"," ++ quoted $"mask_grantees" ++ $":" ++ RenderQuotedJsonStrings (mask_grantees gov) ++
  $"," ++ quoted $"default_mask_value" ++ $":" ++ json_string (default_mask_value gov) ++ $"}".

Definition RenderTableGovJson (table : TableId * TableGovernance) : str :=
  let '(tid, gov) := table in
  $"{" ++ quoted $"table_id" ++ $":" ++ json_string (table_id tid) ++
  $"," ++ quoted $"row_access_policies" ++ $":[" ++
  join_text $"," (map RenderPolicyJson (row_access_policies gov)) ++
  $"]," ++ quoted $"columns" ++ $":[" ++
  join_text $"," (map RenderColumnGovJson (gov_columns gov)) ++ $"]}".

Definition RenderGovernanceSnapshotJson (tables : list (TableId * TableGovernance)) : str :=
  match tables with
  | [] => $"[]"
  | _ => $"[" ++ join_text $"," (map RenderTableGovJson tables) ++ $"]"
  end.

(** From the opening bracket after [key] to the first closing bracket. *)
Definition JsonArraySlice (entry key : str) : option str :=
  match find_after key entry with
  | None => None
  | Some rest =>
      match find_after $"[" (key ++ rest) with
      | None => None
      | Some inner =>
          match find_sub $"]" inner with
          | None => None
          | Some (body, _) => Some ($"[" ++ body ++ $"]")
          end
      end
  end.

(** What [SimpleAtoi] leaves in its output when it returns false. *)
Context (atoi_residue : str -> Z).

Definition ParseJsonInt64Field (json needle : str) : Z :=
  match find_after needle json with
  | None => 0
  | Some rest => match SimpleAtoi rest with Some value => value | None => atoi_residue rest end
  end.

Definition ParseRowAccessPolicy (policy_json : str) : RowAccessPolicyRecord :=
  match ParseJsonStringField policy_json $"policy_id",
        ParseJsonStringField policy_json $"filter_predicate" with
  | Ok id, Ok filter =>
      mkPolicy id filter
        (match JsonArraySlice policy_json (quoted $"grantees") with
         | Some slice => ParseQuotedJsonStringArray slice
         | None => []
         end)
        (ParseJsonInt64Field policy_json (quoted $"creation_time_ms" ++ $":"))
        (ParseJsonInt64Field policy_json (quoted $"last_modified_time_ms" ++ $":"))
  | _, _ => empty_policy
  end.

Definition AppendRowAccessPolicies (entry : str) : list RowAccessPolicyRecord :=
  match JsonArraySlice entry (quoted $"row_access_policies") with
  | None => []
  | Some slice =>
      List.filter (fun p => negb (bool_decide (policy_id p = [])))
        (map ParseRowAccessPolicy (SplitTopLevelJsonObjects slice))
  end.

Definition ParseColumnEntry (col_json : str) : option (str * ColumnGovernanceRecord) :=
  match ParseJsonStringField col_json $"column" with
  | Err _ => None
  | Ok column =>
      let strings key := match JsonArraySlice col_json key with
                         | Some slice => ParseQuotedJsonStringArray slice
                         | None => []
                         end in
      Some (column,
            mkColumnGov (strings (quoted $"policy_tags"))
              (match ParseJsonStringField col_json $"mask_kind" with
               | Ok mask => MaskKindFromString mask
               | Err _ => kNone
               end)
              (strings (quoted $"mask_grantees"))
              (match ParseJsonStringField col_json $"default_mask_value" with
               | Ok value => value
               | Err _ => []
               end))
  end.

Definition AppendColumnGovernance (entry : str) : list (str * ColumnGovernanceRecord) :=
  match JsonArraySlice entry (quoted $"columns") with
  | None => []
  | Some slice => omap ParseColumnEntry (SplitTopLevelJsonObjects slice)
  end.

(** ** The table manifest of a dataset tombstone *)

Definition RenderTablesManifestJson (table_ids : list str) : str :=
  $"[" ++ join_text $"," (map (fun id => quote :: id ++ [quote]) table_ids) ++ $"]".

Definition ParseTablesManifestJson (json : str) : list str := QuotedStringsLoop (length json) json.
End text.

(** ** Dataset and table sidecars *)

Definition RenderDatasetMetaJson (location : str) : str :=
  $"{" ++ [newline] ++ $"  " ++ quoted $"location" ++ $": " ++ [quote] ++ escape_quotes location ++
  [quote; newline] ++ $"}" ++ [newline].

Definition blank (c : ascii) : bool := bool_decide (c = " "%char) || bool_decide (c = newline).

Fixpoint drop_blanks (s : str) : str :=
  match s with
  | c :: s' => if blank c then drop_blanks s' else s
  | [] => []
  end.
Definition drop_blanks_end (s : str) : str := rev (drop_blanks (rev s)).

(** [pop_back] of a given last character. *)
Definition pop_char (c : ascii) (s : str) : str :=
  match rev s with
  | d :: r => if decide (d = c) then rev r else s
  | [] => s
  end.

Definition rest_key : str := quoted $"restMetadata".

Definition MergeRestMetadataIntoDatasetMetaJson (existing_json rest_metadata_json : str) : str :=
  match rest_metadata_json with
  | [] => existing_json
  | _ =>
      match drop_blanks_end (drop_blanks rest_metadata_json) with
      | [] => existing_json
      | trimmed =>
          pop_char "}"%char (drop_blanks_end existing_json) ++
          $"," ++ [newline] ++ $"  " ++ rest_key ++ $": " ++ trimmed ++ [newline] ++ $"}" ++ [newline]
      end
  end.

Definition ExtractRestMetadataFromDatasetMetaJson (json : str) : str :=
  match find_after rest_key json with
  | None => []
  | Some rest =>
      match find_after $":" rest with
      | None => []
      | Some rest =>
          match ExtractBalancedObject (drop_blanks rest) with
          | Some (object, _) => object
          | None => []
          end
      end
  end.

(** The value of a field, with the escapes read back; [None] when the string is
    not closed. *)
Fixpoint UnescapeField (s : str) : option str :=
  match s with
  | [] => None
  | c :: s' =>
      if bool_decide (c = quote) then Some []
      else if bool_decide (c = backslash) then
        match s' with
        | [] => None
        | esc :: s'' =>
            cons (if decide (esc = "n"%char) then newline
                  else if decide (esc = "r"%char) then carriage_return
                  else if decide (esc = "t"%char) then tab
                  else esc) <$> UnescapeField s''
        end
      else cons c <$> UnescapeField s'
  end.

Definition ParseTopLevelJsonStringField (json key : str) : option str :=
  rest ← find_after (quoted key) json;
  rest ← find_after $":" rest;
  match drop_blanks rest with
  | c :: rest => if decide (c = quote) then UnescapeField rest else None
  | [] => None
  end.

Definition ParseTableResourceInfo (json : str) : TableResourceInfo :=
  let field key := default [] (ParseTopLevelJsonStringField json key) in
  mkResourceInfo (field $"tableType") (field $"viewQuery") (field $"ddlSql").

(** protobuf's JSON printer and parser for [v1::TableSchema]; an error is its
    message. *)
Class ProtoJson := {
  MessageToJsonString : TableSchemaProto -> outcome str str;
  JsonStringToMessage : str -> outcome str TableSchemaProto;
}.

Section sidecars.
Context `{AbslText} `{ProtoJson}.

Definition RenderTableMetaJson (sch : TableSchema) : StatusOr str :=
  match MessageToJsonString (TableSchemaToProto sch) with
  | Err m => Err (InternalError ($"failed to render schema as JSON: " ++ m))
  | Ok schema_json =>
      Ok ($"{" ++ [newline] ++
          $"  " ++ quoted $"description" ++ $": " ++ [quote; quote] ++ $"," ++ [newline] ++
          $"  " ++ quoted $"friendlyName" ++ $": " ++ [quote; quote] ++ $"," ++ [newline] ++
          $"  " ++ quoted $"etag" ++ $": " ++ [quote; quote] ++ $"," ++ [newline] ++
          $"  " ++ quoted $"labels" ++ $": {}," ++ [newline] ++
          $"  " ++ quoted $"schema" ++ $": " ++ schema_json ++ $"}" ++ [newline])
  end.

Definition ParseTableMetaJson (json : str) : StatusOr TableSchema :=
  match find_after (quoted $"schema") json with
  | None => Err (InvalidArgumentError ($"table sidecar: missing " ++ quoted $"schema" ++ $" field"))
  | Some rest =>
      match find_after $":" (quoted $"schema" ++ rest) with
      | None =>
          Err (InvalidArgumentError ($"table sidecar: malformed " ++ quoted $"schema" ++ $" entry"))
      | Some rest =>
          match find_after $"{" rest with
          | None => Err (InvalidArgumentError $"table sidecar: schema is not a JSON object")
          | Some rest =>
              match balanced_scan 0 false ($"{" ++ rest) with
              | None => Err (InvalidArgumentError $"table sidecar: unterminated schema object")
              | Some (schema_json, _) =>
                  match JsonStringToMessage schema_json with
                  | Err m => Err (InternalError ($"failed to parse schema JSON: " ++ m))
                  | Ok proto => TableSchemaFromProto proto
                  end
              end
          end
      end
  end.

Definition RenderViewTableMetaJson (sch : TableSchema) (query ddl : str) : StatusOr str :=
  base ← RenderTableMetaJson sch;
  Ok (pop_char "}"%char (pop_char newline base) ++
      $"," ++ [newline] ++
      $"  " ++ quoted $"tableType" ++ $": " ++ quoted $"VIEW" ++ $"," ++ [newline] ++
      $"  " ++ quoted $"viewQuery" ++ $": " ++ [quote] ++ escape_quotes query ++ [quote] ++ $"," ++ [newline] ++
      $"  " ++ quoted $"ddlSql" ++ $": " ++ [quote] ++ JsonEscape ddl ++ [quote; newline] ++ $"}" ++ [newline]).
End sidecars.
