(* ===== verification/SidecarProps.v ===== *)
(** * SidecarProps: what the sidecar and snapshot texts preserve

    Round trips of the texts of [SidecarJson]: the view and routine snapshots
    come back with their control characters turned into letters, the row access
    policies of a governance snapshot do not come back at all, a table sidecar
    returns its schema and a view sidecar its texts, and the REST metadata of a
    dataset is the one merged first. *)

From S2P Require Import Prelude Absl AbslReference Schema Storage VersionLog SidecarJson.

(** ** Escaped texts *)

(** What reading back makes of a byte that was escaped: the letter of its
    escape instead of the control character. *)
Definition degrade_char (c : ascii) : ascii :=
  if decide (c = newline) then "n"%char
  else if decide (c = carriage_return) then "r"%char
  else if decide (c = tab) then "t"%char
  else c.
Definition degrade (s : str) : str := map degrade_char s.

Definition control_free (s : str) : Prop := (newline ∉ s) /\ (carriage_return ∉ s) /\ (tab ∉ s).

Lemma degrade_id s : control_free s -> degrade s = s.
Proof.
  intros (N & R & T). induction s as [|c s IH]; [done|]. simpl.
  rewrite not_elem_of_cons in N, R, T. rewrite IH by tauto. f_equal. unfold degrade_char.
  rewrite !decide_False by (intros ->; tauto). done.
Qed.

(** An escape is one byte that is neither a quote nor a backslash, or a
    backslash and one byte. *)
Lemma escape_char_cases c :
  (escape_char c = [c] /\ c <> quote /\ c <> backslash /\ degrade_char c = c) \/
  exists d, escape_char c = [backslash; d] /\ degrade_char c = d.
Proof.
  unfold escape_char, degrade_char.
  repeat case_decide; subst; try done;
    first [by left; split_and!|right; eexists; split; reflexivity].
Qed.

Lemma JsonEscape_cons c s : JsonEscape (c :: s) = escape_char c ++ JsonEscape s.
Proof. done. Qed.

Ltac escape_cases c :=
  let d := fresh "d" in let E := fresh "E" in let D := fresh "D" in
  destruct (escape_char_cases c) as [(E & ? & ? & D)|(d & E & D)]; rewrite E, ?D; clear E D.

Lemma UnescapeJson_escaped s r : UnescapeJson (JsonEscape s ++ quote :: r) = degrade s.
Proof.
  induction s as [|c s IH]; [done|]. rewrite JsonEscape_cons. simpl. escape_cases c; simpl.
  - rewrite !bool_decide_false by done. by rewrite IH.
  - by rewrite IH.
Qed.

Lemma ScanJsonString_escaped s r : ScanJsonString (JsonEscape s ++ quote :: r) = (degrade s, r).
Proof.
  induction s as [|c s IH]; [done|]. rewrite JsonEscape_cons. simpl. escape_cases c; simpl.
  - rewrite !bool_decide_false by done. by rewrite IH.
  - by rewrite IH.
Qed.

Lemma balanced_scan_escaped depth s r :
  balanced_scan depth true (JsonEscape s ++ quote :: r) =
  (fun p => (JsonEscape s ++ quote :: p.1, p.2)) <$> balanced_scan depth false r.
Proof.
  induction s as [|c s IH].
  { simpl. by destruct (balanced_scan depth false r) as [[]|]. }
  rewrite JsonEscape_cons. escape_cases c; simpl.
  - rewrite !bool_decide_false by done. simpl. rewrite IH.
    by destruct (balanced_scan depth false r) as [[]|].
  - rewrite IH. by destruct (balanced_scan depth false r) as [[]|].
Qed.

(** ** Searching in rendered texts *)

(** [needle] differs from every text that starts with [l] within [l]. *)
Fixpoint clashes (needle l : str) : bool :=
  match needle, l with
  | c :: needle, d :: l => if decide (c = d) then clashes needle l else true
  | _, _ => false
  end.
Fixpoint passes (needle l : str) : bool :=
  match l with
  | [] => true
  | _ :: l' => clashes needle l && passes needle l'
  end.

Lemma clashes_strip needle l r : clashes needle l = true -> strip_prefix needle (l ++ r) = None.
Proof.
  revert l. induction needle as [|c n IH]; intros [|d l]; simpl; try done.
  case_decide; [by apply IH|done].
Qed.

Lemma find_after_step needle c s :
  strip_prefix needle (c :: s) = None -> find_after needle (c :: s) = find_after needle s.
Proof.
  intros E. unfold find_after. rewrite find_sub_step by done. by destruct (find_sub needle s) as [[]|].
Qed.

Lemma find_after_pass needle l r :
  passes needle l = true -> find_after needle (l ++ r) = find_after needle r.
Proof.
  induction l as [|c l IH]; [done|]. cbn [passes]. intros [C P]%andb_prop.
  change ((c :: l) ++ r) with (c :: (l ++ r)). rewrite find_after_step; [by apply IH|].
  by apply (clashes_strip needle (c :: l)).
Qed.

Lemma find_after_here needle r : find_after needle (needle ++ r) = Some r.
Proof. unfold find_after. by rewrite find_sub_here. Qed.

(** A field name with nothing to escape. *)
Definition plain_field (f : str) : bool :=
  forallb (fun c => negb (bool_decide (c = quote)) && negb (bool_decide (c = backslash))) f.

(** The key of a field is not found in the value of another one, whatever that
    value is. *)
Lemma strip_key_escaped f t v x r :
  plain_field f = true -> x <> ":"%char ->
  strip_prefix (f ++ quote :: ":"%char :: t) (JsonEscape v ++ quote :: x :: r) = None.
Proof.
  revert v. induction f as [|c f IH]; intros v P X.
  - destruct v as [|d v]; [|rewrite JsonEscape_cons; escape_cases d]; cbn [app strip_prefix JsonEscape flat_map];
      repeat case_decide; first [congruence|discriminate|done].
  - cbn [plain_field forallb] in P. apply andb_prop in P as [Pc P]. fold (plain_field f) in P.
    apply andb_prop in Pc as [C1 C2]. apply negb_true_iff, bool_decide_eq_false in C1, C2.
    destruct v as [|d v]; [cbn; by rewrite decide_False by congruence|].
    rewrite JsonEscape_cons. escape_cases d; cbn.
    + case_decide; [by apply IH|done].
    + by rewrite decide_False.
Qed.

Lemma find_after_value f t v x r :
  plain_field f = true -> x <> ":"%char -> x <> quote -> head f <> Some x ->
  find_after (quote :: f ++ quote :: ":"%char :: t) (JsonEscape v ++ quote :: x :: r) =
  find_after (quote :: f ++ quote :: ":"%char :: t) (x :: r).
Proof.
  intros P X Q Hx. induction v as [|c v IH].
  - simpl. apply find_after_step. cbn [strip_prefix]. rewrite decide_True by done.
    destruct f as [|d f]; cbn in Hx |- *; by rewrite decide_False by congruence.
  - rewrite JsonEscape_cons. escape_cases c; simpl.
    + rewrite find_after_step; [exact IH|]. cbn. by rewrite decide_False by congruence.
    + rewrite find_after_step by (cbn; by rewrite decide_False).
      rewrite find_after_step; [exact IH|]. cbn. case_decide; [|done].
      by apply strip_key_escaped.
Qed.

(** A field's key: its quoted name, a colon and what the value starts with. *)
Definition key_needle (f t : str) : str := quote :: f ++ quote :: ":"%char :: t.

Lemma find_after_hit needle s r : strip_prefix needle s = Some r -> find_after needle s = Some r.
Proof. intros ->%strip_prefix_Some. apply find_after_here. Qed.

Lemma find_after_other f t v x r :
  plain_field f = true -> x <> ":"%char -> x <> quote -> head f <> Some x ->
  find_after (key_needle f t) (quote :: JsonEscape v ++ quote :: x :: r) =
  find_after (key_needle f t) (x :: r).
Proof.
  intros. rewrite find_after_step; [by apply find_after_value|].
  cbn. rewrite decide_True by done. by apply strip_key_escaped.
Qed.

(** Texts as lists of bytes, escaped values left as they are. *)
Ltac spell :=
  unfold quoted, json_string, lit; cbn [String.list_ascii_of_string app];
  repeat (rewrite <- app_assoc; cbn [app]).

(** Walks a rendered text to the key that is searched. *)
Ltac seek :=
  lazymatch goal with
  | |- find_after _ [] = _ => reflexivity
  | |- find_after _ _ = _ =>
      first [ apply find_after_hit; reflexivity
            | rewrite find_after_other by (reflexivity || discriminate || (cbn; discriminate)); seek
            | rewrite find_after_step by reflexivity; seek ]
  end.

(** ** Balanced texts *)

(** Inside an object, the scan goes over the text without closing it. *)
Definition neutral (s : str) : Prop :=
  forall depth r, 0 < depth ->
  balanced_scan depth false (s ++ r) = (fun p => (s ++ p.1, p.2)) <$> balanced_scan depth false r.

(** The scan that starts at the text's opening brace ends at its last byte. *)
Definition object_text (s : str) : Prop :=
  exists body, s = "{"%char :: body /\ forall r, balanced_scan 0 false (s ++ r) = Some (s, r).

Definition ordinary (c : ascii) : bool :=
  negb (bool_decide (c = quote) || bool_decide (c = "{"%char) || bool_decide (c = "}"%char)).

Lemma neutral_nil : neutral [].
Proof. intros depth r _. simpl. by destruct (balanced_scan depth false r) as [[]|]. Qed.

Lemma neutral_app a b : neutral a -> neutral b -> neutral (a ++ b).
Proof.
  intros A B depth r D. rewrite <- app_assoc, A, B by done.
  destruct (balanced_scan depth false r) as [[]|]; simpl; [|done]. by rewrite app_assoc.
Qed.

Lemma neutral_char c : ordinary c = true -> neutral [c].
Proof.
  unfold ordinary. intros O depth r D. apply negb_true_iff in O.
  apply orb_false_iff in O as [[O1 O2]%orb_false_iff O3]. cbn. by rewrite O1, O2, O3.
Qed.

Lemma neutral_ordinary s : forallb ordinary s = true -> neutral s.
Proof.
  induction s as [|c s IH]; [intros _; apply neutral_nil|]. cbn. intros [C S]%andb_prop.
  apply (neutral_app [c]); [by apply neutral_char|by apply IH].
Qed.

Lemma neutral_string v : neutral (json_string v).
Proof.
  intros depth r D. unfold json_string. cbn. rewrite <- app_assoc. cbn [app].
  rewrite balanced_scan_escaped. destruct (balanced_scan depth false r) as [[]|]; simpl; [|done].
  by rewrite <- app_assoc.
Qed.

Lemma neutral_quoted f : JsonEscape f = f -> neutral (quoted f).
Proof. intros E. pose proof (neutral_string f) as N. unfold json_string in N. by rewrite E in N. Qed.

Lemma neutral_join sep l : neutral sep -> Forall neutral l -> neutral (join_text sep l).
Proof.
  intros S. induction 1 as [|t l T L IH]; [apply neutral_nil|]. simpl.
  destruct l; [done|]. by repeat apply neutral_app.
Qed.

Lemma neutral_braces s : neutral s -> neutral ("{"%char :: s ++ $"}").
Proof.
  intros N depth r D. cbn [app]. rewrite <- app_assoc. change ($"}" ++ r) with ("}"%char :: r).
  cbn. rewrite N by lia. destruct depth; [lia|]. cbn.
  destruct (balanced_scan (S depth) false r) as [[]|]; simpl; [|done]. by rewrite <- app_assoc.
Qed.

Lemma object_braces s : neutral s -> object_text ("{"%char :: s ++ $"}").
Proof.
  intros N. eexists; split; [done|]. intros r. cbn. rewrite <- app_assoc, N by lia. done.
Qed.

Create HintDb neutral.
#[export] Hint Resolve neutral_app neutral_string neutral_nil neutral_braces neutral_join
  object_braces : neutral.
#[export] Hint Extern 1 (neutral (lit _)) => apply neutral_ordinary; reflexivity : neutral.
#[export] Hint Extern 1 (neutral (quoted _)) => apply neutral_quoted; reflexivity : neutral.


Lemma SplitLoop_object fuel j r :
  object_text j -> SplitLoop (S fuel) (j ++ r) = j :: SplitLoop fuel r.
Proof.
  intros (body & E & B). cbn [SplitLoop].
  assert (AdvancePastWhitespaceAndComma (j ++ r) = Some (j ++ r)) as -> by (by rewrite E).
  assert (ExtractBalancedObject (j ++ r) = Some (j, r)) as ->; [|done].
  rewrite <- (B r), E. done.
Qed.

Lemma SplitLoop_comma fuel r : SplitLoop fuel ($"," ++ r) = SplitLoop fuel r.
Proof. by destruct fuel. Qed.

Lemma SplitLoop_objects js fuel :
  Forall object_text js -> length js < fuel -> SplitLoop fuel (join_text $"," js ++ $"]") = js.
Proof.
  intros O. revert fuel. induction O as [|j js Oj O IH]; intros [|fuel] F; simpl in F; try lia; [done|].
  destruct js as [|j' js].
  - cbn [join_text]. rewrite SplitLoop_object by done. f_equal. destruct fuel; [simpl in F; lia|]. done.
  - change (join_text $"," (j :: j' :: js)) with (j ++ $"," ++ join_text $"," (j' :: js)).
    rewrite <- !app_assoc, SplitLoop_object, SplitLoop_comma by done. f_equal. apply IH. lia.
Qed.

Lemma joined_length l : Forall (fun t => t <> []) l -> length l <= length (join_text $"," l).
Proof.
  induction 1 as [|t l T L IH]; [done|]. destruct l as [|u l]; [destruct t; simpl in *; [done|lia]|].
  change (join_text $"," (t :: u :: l)) with (t ++ $"," ++ join_text $"," (u :: l)).
  rewrite !length_app. change (length $",") with 1. simpl in *. lia.
Qed.

(** The objects of a rendered array are found again. *)
Lemma split_rendered js :
  Forall object_text js -> SplitTopLevelJsonObjects ($"[" ++ join_text $"," js ++ $"]") = js.
Proof.
  intros O. unfold SplitTopLevelJsonObjects. rewrite find_after_here.
  apply SplitLoop_objects; [done|]. rewrite length_app. change (length $"]") with 1.
  enough (length js <= length (join_text $"," js)) by lia. apply joined_length.
  eapply Forall_impl; [exact O|]. by intros j (body & -> & _).
Qed.

(** ** Views and routines *)

Section snapshots.
Context `{AbslTextLaws}.

Lemma string_field json f r v :
  find_after (key_needle f [quote]) json = Some (JsonEscape v ++ quote :: r) ->
  quoted f ++ $":" ++ [quote] = key_needle f [quote] ->
  ParseJsonStringField json f = Ok (degrade v).
Proof. intros E K. unfold ParseJsonStringField. by rewrite K, E, UnescapeJson_escaped. Qed.

(** What a view is restored as. *)
Definition restored_view (ds : DatasetId) (rec : ViewRecord) : ViewRecord :=
  mkView (mkViewId (ds_project_id ds) (ds_dataset_id ds) (degrade (view_id (v_id rec))))
    (degrade (ddl_sql rec)) [] (mkTableSchema []).

Lemma view_record_text rec : object_text (RenderViewRecordJson rec).
Proof.
  assert (RenderViewRecordJson rec = "{"%char ::
    ((quoted $"view_id" ++ $":" ++ json_string (view_id (v_id rec)) ++
      $"," ++ quoted $"ddl_sql" ++ $":" ++ json_string (ddl_sql rec)) ++ $"}")) as ->.
  { unfold RenderViewRecordJson. by rewrite <- !app_assoc. }
  auto 12 with neutral.
Qed.

Lemma view_record_parse ds rec : ParseViewRecordJson (RenderViewRecordJson rec) ds = Ok (restored_view ds rec).
Proof.
  unfold ParseViewRecordJson, RenderViewRecordJson.
  erewrite (string_field _ $"view_id"); [|spell; seek|reflexivity]. cbn [mbind outcome_bind].
  erewrite (string_field _ $"ddl_sql"); [|spell; seek|reflexivity]. done.
Qed.

(** What a routine is restored as. *)
Definition restored_routine (ds : DatasetId) (rec : RoutineRecord) : RoutineRecord :=
  mkRoutine (mkRoutineId (ds_project_id ds) (ds_dataset_id ds) (degrade (routine_id (r_id rec))))
    (kind rec) (degrade (language rec)) (degrade (r_ddl_sql rec)) (is_temp rec)
    (degrade (signature_json rec)).

Definition signature_text (sig : str) : str :=
  match sig with [] => $"null" | _ => json_string sig end.

Lemma routine_record_text rec : object_text (RenderRoutineRecordJson rec).
Proof.
  assert (RenderRoutineRecordJson rec = "{"%char ::
    ((quoted $"routine_id" ++ $":" ++ json_string (routine_id (r_id rec)) ++
      $"," ++ quoted $"kind" ++ $":" ++ quoted (RoutineKindToString (kind rec)) ++
      $"," ++ quoted $"language" ++ $":" ++ json_string (language rec) ++
      $"," ++ quoted $"ddl_sql" ++ $":" ++ json_string (r_ddl_sql rec) ++
      $"," ++ quoted $"is_temp" ++ $":" ++ (if is_temp rec then $"true" else $"false") ++
      $"," ++ quoted $"signature_json" ++ $":" ++ signature_text (signature_json rec)) ++ $"}")) as ->.
  { unfold RenderRoutineRecordJson. by rewrite <- !app_assoc. }
  destruct rec as [[] k l d t sig]. cbn [kind is_temp signature_json].
  apply object_braces. destruct k, t, sig; cbn [signature_text RoutineKindToString];
    repeat first [apply neutral_app | solve [auto 2 with neutral]].
Qed.

Lemma RoutineKind_roundtrip k : RoutineKindFromString (RoutineKindToString k) = Ok k.
Proof. unfold RoutineKindFromString. rewrite tolower_ref. by destruct k. Qed.

Lemma contains_after s needle : str_contains s needle = bool_decide (is_Some (find_after needle s)).
Proof. unfold str_contains, find_after. by destruct (find_sub needle s) as [[]|]. Qed.

Lemma routine_strings rec :
  let json := RenderRoutineRecordJson rec in
  ParseJsonStringField json $"routine_id" = Ok (degrade (routine_id (r_id rec))) /\
  ParseJsonStringField json $"kind" = Ok (RoutineKindToString (kind rec)) /\
  ParseJsonStringField json $"language" = Ok (degrade (language rec)) /\
  ParseJsonStringField json $"ddl_sql" = Ok (degrade (r_ddl_sql rec)).
Proof.
  intros json. assert (degrade (RoutineKindToString (kind rec)) = RoutineKindToString (kind rec)) as <-.
  { by destruct (kind rec). }
  assert (quoted (RoutineKindToString (kind rec)) = json_string (RoutineKindToString (kind rec))) as K.
  { by destruct (kind rec). }
  subst json. unfold RenderRoutineRecordJson. rewrite K.
  split_and!; (eapply string_field; [spell; seek|reflexivity]).
Qed.

Lemma routine_flags rec :
  let json := RenderRoutineRecordJson rec in
  ParseJsonBoolField json $"is_temp" = is_temp rec /\
  (if str_contains json (quoted $"signature_json" ++ $":null") then []
   else match ParseJsonStringField json $"signature_json" with Ok s => s | Err _ => [] end) =
  degrade (signature_json rec).
Proof.
  assert (quoted (RoutineKindToString (kind rec)) = json_string (RoutineKindToString (kind rec))) as K.
  { by destruct (kind rec). }
  intros json. subst json. unfold RenderRoutineRecordJson. rewrite K. split.
  - unfold ParseJsonBoolField. change (quoted $"is_temp" ++ $":") with (key_needle $"is_temp" []).
    destruct (is_temp rec);
      (match goal with |- match ?o with _ => _ end = _ => eassert (o = _) as -> by (spell; seek) end);
      reflexivity.
  - rewrite contains_after.
    change (quoted $"signature_json" ++ $":null") with (key_needle $"signature_json" $"null").
    destruct (signature_json rec) as [|a sig] eqn:E.
    + rewrite bool_decide_true; [done|]. eexists. destruct (is_temp rec); spell; seek.
    + rewrite bool_decide_false.
      * erewrite string_field; [done| |reflexivity]. rewrite <- E. destruct (is_temp rec); spell; seek.
      * rewrite <- E. enough (forall o : option str, o = None -> ~ is_Some o) as N.
        { apply N. destruct (is_temp rec); spell; seek. }
        by intros o -> [].
Qed.

Lemma routine_record_parse ds rec :
  ParseRoutineRecordJson (RenderRoutineRecordJson rec) ds = Ok (restored_routine ds rec).
Proof.
  unfold ParseRoutineRecordJson.
  destruct (routine_strings rec) as (E1 & E2 & E3 & E4), (routine_flags rec) as [F1 F2].
  rewrite E1, E2, E3, E4. cbn [mbind outcome_bind]. rewrite RoutineKind_roundtrip. cbn [mbind outcome_bind].
  by rewrite F1, F2.
Qed.

(** ** Row access policies *)

Section quoted_names.
Context (esc : ascii -> str).
Hypothesis Hesc : forall c, (esc c = [c] /\ c <> quote /\ c <> backslash) \/ exists d, esc c = [backslash; d].

(** A quoted name occurs in an escaped value at most at its end. *)
Lemma strip_quoted_escaped f v x r :
  plain_field f = true ->
  strip_prefix (f ++ [quote]) (flat_map esc v ++ quote :: x :: r) = None \/
  strip_prefix (f ++ [quote]) (flat_map esc v ++ quote :: x :: r) = Some (x :: r).
Proof.
  revert v. induction f as [|c f IH]; intros v P.
  - destruct v as [|d v]; [by right|left]. cbn [flat_map].
    destruct (Hesc d) as [(-> & ? & ?)|[e ->]]; cbn;
      by rewrite decide_False by first [congruence|discriminate].
  - cbn [plain_field forallb] in P. apply andb_prop in P as [Pc P]. fold (plain_field f) in P.
    apply andb_prop in Pc as [C1 C2]. apply negb_true_iff, bool_decide_eq_false in C1, C2.
    destruct v as [|d v]; [left; cbn; by rewrite decide_False by congruence|]. cbn [flat_map].
    destruct (Hesc d) as [(-> & ? & ?)|[e ->]]; cbn.
    + case_decide; [by apply IH|by left].
    + left. by rewrite decide_False.
Qed.

Lemma find_quoted_value f v x r :
  plain_field f = true -> x <> quote -> head f <> Some x ->
  find_after (quoted f) (quote :: flat_map esc v ++ quote :: x :: r) = Some (x :: r) \/
  find_after (quoted f) (quote :: flat_map esc v ++ quote :: x :: r) = find_after (quoted f) (x :: r).
Proof.
  intros P X Hf.
  assert (forall w, strip_prefix (quoted f) (quote :: flat_map esc w ++ quote :: x :: r) = None \/
    strip_prefix (quoted f) (quote :: flat_map esc w ++ quote :: x :: r) = Some (x :: r)) as Q.
  { intros w. unfold quoted. cbn. rewrite decide_True by done. by apply strip_quoted_escaped. }
  assert (forall c s, c <> quote -> find_after (quoted f) (c :: s) = find_after (quoted f) s) as K.
  { intros c s C. apply find_after_step. cbn. by rewrite decide_False by congruence. }
  destruct (Q v) as [E|E]; [rewrite find_after_step by done|left; by apply find_after_hit].
  clear E. induction v as [|c w IH]; cbn [flat_map app].
  - right. apply find_after_step. unfold quoted. cbn. rewrite decide_True by done.
    destruct f as [|d f]; cbn in Hf |- *; by rewrite decide_False by congruence.
  - destruct (Hesc c) as [(-> & ? & ?)|[e ->]]; cbn [app].
    + by rewrite K.
    + rewrite K by done. destruct (decide (e = quote)) as [->|D]; [|by rewrite K].
      destruct (Q w) as [E|E]; [by rewrite find_after_step|]. left. by apply find_after_hit.
Qed.
End quoted_names.

Lemma escape_char_shape c :
  (escape_char c = [c] /\ c <> quote /\ c <> backslash) \/ exists d, escape_char c = [backslash; d].
Proof. destruct (escape_char_cases c) as [(? & ? & ? & _)|(d & ? & _)]; [by left|right; by exists d]. Qed.

(** A scan that ends within a text ends at the same place in a longer one. *)
Lemma balanced_scan_prefix s : forall depth b r,
  balanced_scan depth b (s ++ r) = None -> balanced_scan depth b s = None.
Proof.
  induction s as [s IH] using (induction_ltof1 _ (@length ascii)). unfold ltof in IH.
  destruct s as [|c s]; intros depth b r; [done|]. cbn [app balanced_scan].
  assert (forall (g : str * str -> str * str) d b, (g <$> balanced_scan d b (s ++ r)) = None ->
    (g <$> balanced_scan d b s) = None) as K.
  { intros g d b' E. apply fmap_None in E. by rewrite (IH s ltac:(simpl; lia) d b' r E). }
  destruct b.
  - case_bool_decide; [|apply K]. destruct s as [|d s]; [done|]. cbn [app].
    intros E. apply fmap_None in E. by rewrite (IH s ltac:(simpl; lia) depth true r E).
  - repeat case_bool_decide; try apply K. destruct (pred depth); [done|apply K].
Qed.

Lemma find_first c pre post : c ∉ pre -> find_sub [c] (pre ++ c :: post) = Some (pre, post).
Proof.
  intros N. rewrite find_sub_skip by done. rewrite (find_sub_here [c] post : find_sub [c] (c :: post) = _).
  simpl. by rewrite app_nil_r.
Qed.

(** Cut at the first closing bracket, an object that has one before its closing
    brace is not found. *)
Lemma split_cut pre post :
  neutral pre ->
  forall body rest, find_sub $"]" ("{"%char :: pre ++ $"]" ++ post) = Some (body, rest) ->
  SplitTopLevelJsonObjects ($"[" ++ body ++ $"]") = [].
Proof.
  intros N body rest F.
  pose proof (find_sub_Some _ _ _ _ F) as E.
  pose proof (find_sub_first _ _ _ _ ("{"%char :: pre) post F eq_refl) as L.
  assert (exists tail, "{"%char :: pre ++ $"]" = (body ++ $"]") ++ tail) as [tail T].
  { assert (("{"%char :: pre) ++ $"]" ++ post = body ++ $"]" ++ rest) as E' by exact E.
    rewrite !app_assoc in E'. apply app_eq_inv in E' as [(k & K1 & K2)|(k & K1 & K2)].
    - by exists k.
    - exists []. rewrite app_nil_r. destruct k as [|x k]; [by rewrite app_nil_r in K1|].
      apply (f_equal length) in K1. rewrite !length_app in K1. simpl in *. lia. }
  assert (exists body', body = "{"%char :: body') as [body' ->].
  { destruct body as [|x body]; [by injection E|]. injection E as <- _. by eexists. }
  unfold SplitTopLevelJsonObjects. rewrite find_after_here.
  change (length (("{"%char :: body') ++ $"]")) with (S (length (body' ++ $"]"))). cbn [SplitLoop].
  assert (AdvancePastWhitespaceAndComma (("{"%char :: body') ++ $"]") =
          Some (("{"%char :: body') ++ $"]")) as -> by done.
  assert (ExtractBalancedObject (("{"%char :: body') ++ $"]") = None) as ->; [|done].
  apply (balanced_scan_prefix _ 0 false tail). rewrite <- T. cbn.
  assert (neutral (pre ++ $"]")) as N' by auto with neutral.
  rewrite <- (app_nil_r (pre ++ $"]")), N' by lia. done.
Qed.

(** The part of a policy before the end of its grantees. *)
Definition policy_head (p : RowAccessPolicyRecord) : str :=
  quoted $"policy_id" ++ $":" ++ json_string (policy_id p) ++
  $"," ++ quoted $"filter_predicate" ++ $":" ++ json_string (filter_predicate p) ++
  $"," ++ quoted $"grantees" ++ $":[" ++ join_text $"," (map json_string (grantees p)).

Lemma policy_head_neutral p : neutral (policy_head p).
Proof.
  assert (Forall neutral (map json_string (grantees p))).
  { apply Forall_map, Forall_forall. auto with neutral. }
  unfold policy_head. repeat first [apply neutral_app | solve [auto 3 with neutral]].
Qed.

(** Inside a snapshot entry, the array of the policies starts where it was
    written, whatever the table is called. *)
Lemma policies_slice table u :
  JsonArraySlice ($"{" ++ quoted $"table_id" ++ $":" ++ json_string table ++
    $"," ++ quoted $"row_access_policies" ++ $":[" ++ u) (quoted $"row_access_policies") =
  (fun p => $"[" ++ p.1 ++ $"]") <$> find_sub $"]" u.
Proof.
  unfold JsonArraySlice.
  assert (exists rest, find_after (quoted $"row_access_policies") ($"{" ++ quoted $"table_id" ++ $":" ++
    json_string table ++ $"," ++ quoted $"row_access_policies" ++ $":[" ++ u) = Some rest /\
    find_after $"[" (quoted $"row_access_policies" ++ rest) = Some u) as (rest & -> & ->).
  { unfold json_string. rewrite find_after_pass by reflexivity.
    rewrite (app_assoc (quoted $"table_id")), find_after_pass by reflexivity.
    cbn [app]. rewrite <- app_assoc. cbn [app].
    destruct (find_quoted_value _ escape_char_shape $"row_access_policies" table ","%char
      (quoted $"row_access_policies" ++ $":[" ++ u)) as [E|E];
      [reflexivity|discriminate|cbn; discriminate|..]; eexists; split.
    - exact E.
    - spell; seek.
    - etransitivity; [exact E|]. rewrite find_after_step by reflexivity.
      apply find_after_hit. reflexivity.
    - spell; seek. }
  by destruct (find_sub $"]" u) as [[]|].
Qed.

Lemma policies_lost atoi_residue tid gov :
  row_access_policies gov <> [] -> AppendRowAccessPolicies atoi_residue (RenderTableGovJson (tid, gov)) = [].
Proof.
  destruct gov as [[|p ps] cols]; [done|]. intros _. unfold AppendRowAccessPolicies.
  set (post := $"," ++ quoted $"columns" ++ $":[" ++
    join_text $"," (map RenderColumnGovJson cols) ++ $"]}").
  assert (RenderTableGovJson (tid, mkGovernance (p :: ps) cols) =
    $"{" ++ quoted $"table_id" ++ $":" ++ json_string (table_id tid) ++
    $"," ++ quoted $"row_access_policies" ++ $":[" ++
    join_text $"," (map RenderPolicyJson (p :: ps)) ++ $"]" ++ post) as -> by done.
  rewrite policies_slice.
  assert (exists t, join_text $"," (map RenderPolicyJson (p :: ps)) ++ $"]" ++ post =
    "{"%char :: policy_head p ++ $"]" ++ t) as [t ->].
  { cbn [map]. rewrite join_text_cons. unfold RenderPolicyJson at 1, policy_head, RenderQuotedJsonStrings.
    eexists. rewrite <- !app_assoc. reflexivity. }
  destruct (find_sub $"]" _) as [[body rest]|] eqn:F; [|done]. cbn [fmap option_fmap option_map fst].
  by rewrite (split_cut _ _ (policy_head_neutral p) _ _ F).
Qed.
End snapshots.

(** ** Lists of strings *)

(** A text whose scan up to its closing quote gives [v]. *)
Definition string_body (t v : str) : Prop :=
  v <> [] /\ forall r, ScanJsonString (t ++ quote :: r) = (v, r).

Lemma QuotedStringsLoop_skip fuel c s : c <> quote -> QuotedStringsLoop fuel (c :: s) = QuotedStringsLoop fuel s.
Proof.
  intros C. destruct fuel; [done|]. cbn [QuotedStringsLoop]. rewrite find_after_step; [done|].
  cbn. by rewrite decide_False by congruence.
Qed.

Lemma QuotedStringsLoop_list ts vs fuel :
  Forall2 string_body ts vs -> length ts < fuel ->
  QuotedStringsLoop fuel (join_text $"," (map (fun t => quote :: t ++ [quote]) ts) ++ $"]") = vs.
Proof.
  intros F. revert fuel. induction F as [|t v ts vs [V T] F IH]; intros [|fuel] L; simpl in L; try lia; [done|].
  assert (forall r, QuotedStringsLoop (S fuel) (quote :: t ++ quote :: r) = v :: QuotedStringsLoop fuel r) as K.
  { intros r. cbn [QuotedStringsLoop]. rewrite (find_after_hit [quote] _ (t ++ quote :: r)) by done.
    rewrite T. by destruct v. }
  destruct ts as [|t' ts].
  - inversion F; subst. cbn [map join_text app]. rewrite <- app_assoc. cbn [app]. rewrite K.
    destruct fuel; [simpl in L; lia|]. done.
  - cbn [map]. change (join_text $"," (?a :: ?b :: ?l)) with (a ++ $"," ++ join_text $"," (b :: l)).
    cbn [app]. rewrite <- !app_assoc. cbn [app]. rewrite K. f_equal.
    change (lit "," ++ ?x) with (","%char :: x). rewrite QuotedStringsLoop_skip by done.
    apply IH. simpl in *. lia.
Qed.

Lemma ScanJsonString_plain t r :
  quote ∉ t -> backslash ∉ t -> ScanJsonString (t ++ quote :: r) = (t, r).
Proof.
  induction t as [|c t IH]; intros Q B; [done|]. rewrite not_elem_of_cons in Q, B. cbn.
  rewrite !bool_decide_false by naive_solver. by rewrite IH by tauto.
Qed.

Lemma quoted_list_roundtrip ts vs :
  Forall2 string_body ts vs ->
  forall s, s = $"[" ++ join_text $"," (map (fun t => quote :: t ++ [quote]) ts) ++ $"]" ->
  QuotedStringsLoop (length s) s = vs.
Proof.
  intros F s ->. change ($"[" ++ ?x) with ("["%char :: x). rewrite QuotedStringsLoop_skip by done.
  apply QuotedStringsLoop_list; [done|]. cbn [length]. rewrite length_app. change (length $"]") with 1.
  pose proof (joined_length (map (fun t => quote :: t ++ [quote]) ts)) as L.
  rewrite length_map in L. enough (length ts <= length (join_text $"," (map (fun t => quote :: t ++ [quote]) ts)))
    by lia.
  apply L, Forall_map, Forall_forall. done.
Qed.

Lemma manifest_roundtrip ids :
  Forall plain_name ids -> ParseTablesManifestJson (RenderTablesManifestJson ids) = ids.
Proof.
  intros P. eapply quoted_list_roundtrip; [|reflexivity].
  induction P as [|t l (N & Q & B) _ IH]; constructor; [|done].
  split; [done|]. intros r. by apply ScanJsonString_plain.
Qed.

(** ** Sidecars *)

(** A text without the needle, ended by a byte the needle does not have, is
    searched past. *)
Lemma find_after_past needle a x r :
  x ∉ needle -> find_after needle a = None -> find_after needle (a ++ x :: r) = find_after needle (x :: r).
Proof.
  intros X. induction a as [|c a IH]; intros N; [done|]. cbn [app].
  assert (strip_prefix needle (c :: a ++ x :: r) = None) as S.
  { destruct (strip_prefix needle (c :: a ++ x :: r)) as [t|] eqn:E; [|done].
    apply strip_prefix_Some in E. change (c :: a ++ x :: r) with ((c :: a) ++ x :: r) in E.
    apply app_eq_inv in E as [(k & E1 & E2)|(k & E1 & E2)].
    - unfold find_after in N. apply fmap_None, find_sub_None in N. destruct N. by exists [], k.
    - destruct k as [|y k]; [|injection E2 as -> _; set_solver].
      unfold find_after in N. apply fmap_None, find_sub_None in N. destruct N.
      exists [], []. by rewrite E1, !app_nil_r. }
  rewrite find_after_step by done. apply IH.
  unfold find_after in *. apply fmap_None in N. apply fmap_None, find_sub_None.
  apply find_sub_None in N. intros (u & v & ->). apply N. by exists (c :: u), v.
Qed.

Lemma UnescapeField_escaped s r : UnescapeField (JsonEscape s ++ quote :: r) = Some s.
Proof.
  induction s as [|c s IH]; [done|]. rewrite JsonEscape_cons. unfold escape_char.
  repeat case_decide; subst; cbn; rewrite ?IH; try done.
  by rewrite !bool_decide_false by done.
Qed.

Lemma UnescapeField_quotes s r : UnescapeField (escape_quotes s ++ quote :: r) = Some s.
Proof.
  induction s as [|c s IH]; [done|]. unfold escape_quotes in *. cbn [flat_map]. unfold escape_quotes_char at 1.
  repeat case_decide; subst; cbn; rewrite ?IH; try done.
  by rewrite !bool_decide_false by done.
Qed.

Lemma escape_quotes_shape c :
  (escape_quotes_char c = [c] /\ c <> quote /\ c <> backslash) \/
  exists d, escape_quotes_char c = [backslash; d].
Proof. unfold escape_quotes_char. repeat case_decide; subst; [right; by eexists..|by left]. Qed.

(** protobuf prints a schema as one JSON object on lines of its own, and reads
    that object back. *)
Class ProtoJsonLaws `{ProtoJson} : Prop := {
  print_object p j : MessageToJsonString p = Ok j ->
    exists obj, j = obj ++ [newline] /\ object_text obj /\ JsonStringToMessage obj = Ok p;
}.

Section sidecars.
Context `{AbslTextLaws} `{ProtoJsonLaws}.

Definition meta_head : str :=
  $"{" ++ [newline] ++
  $"  " ++ quoted $"description" ++ $": " ++ [quote; quote] ++ $"," ++ [newline] ++
  $"  " ++ quoted $"friendlyName" ++ $": " ++ [quote; quote] ++ $"," ++ [newline] ++
  $"  " ++ quoted $"etag" ++ $": " ++ [quote; quote] ++ $"," ++ [newline] ++
  $"  " ++ quoted $"labels" ++ $": {}," ++ [newline] ++ $"  ".

Lemma table_meta_text sch json : RenderTableMetaJson sch = Ok json ->
  exists obj, MessageToJsonString (TableSchemaToProto sch) = Ok (obj ++ [newline]) /\
    object_text obj /\ JsonStringToMessage obj = Ok (TableSchemaToProto sch) /\
    json = meta_head ++ quoted $"schema" ++ $": " ++ obj ++ [newline] ++ $"}" ++ [newline].
Proof.
  unfold RenderTableMetaJson. destruct (MessageToJsonString _) as [j|] eqn:E; [|done].
  destruct (print_object _ _ E) as (obj & -> & O & P). intros [= <-]. exists obj. split_and!; try done.
  unfold meta_head. rewrite <- !app_assoc. done.
Qed.

(** The schema of a sidecar is read back from any text that goes on after it. *)
Lemma parse_table_meta sch obj r :
  object_text obj -> JsonStringToMessage obj = Ok (TableSchemaToProto sch) -> wf_schema sch ->
  ParseTableMetaJson (meta_head ++ quoted $"schema" ++ $": " ++ obj ++ r) = Ok sch.
Proof.
  intros (body & E & B) P W. unfold ParseTableMetaJson. rewrite find_after_pass by reflexivity.
  rewrite find_after_here, (find_after_pass $":" (quoted $"schema")) by reflexivity.
  rewrite (find_after_hit _ ($": " ++ obj ++ r) ($" " ++ obj ++ r)) by done.
  rewrite (find_after_pass $"{" $" ") by reflexivity.
  rewrite (find_after_hit $"{" (obj ++ r) (body ++ r)) by (by rewrite E).
  change ($"{" ++ body ++ r) with (("{"%char :: body) ++ r). rewrite <- E, B, P.
  destruct sch as [cs]. unfold TableSchemaFromProto, TableSchemaToProto. cbn.
  by rewrite columns_mapM_roundtrip.
Qed.

Lemma pop_char_snoc c s : pop_char c (s ++ [c]) = s.
Proof. unfold pop_char. rewrite rev_unit, decide_True by done. apply rev_involutive. Qed.

(** The texts a view adds after the schema. *)
Definition view_tail (query ddl : str) : str :=
  $"," ++ [newline] ++
  $"  " ++ quoted $"tableType" ++ $": " ++ quoted $"VIEW" ++ $"," ++ [newline] ++
  $"  " ++ quoted $"viewQuery" ++ $": " ++ [quote] ++ escape_quotes query ++ [quote] ++ $"," ++ [newline] ++
  $"  " ++ quoted $"ddlSql" ++ $": " ++ [quote] ++ JsonEscape ddl ++ [quote; newline] ++ $"}" ++ [newline].

Lemma Ok_inj {E A} (a b : A) : @Ok E A a = Ok b -> a = b.
Proof. congruence. Qed.

Lemma view_meta_text sch query ddl json : RenderViewTableMetaJson sch query ddl = Ok json ->
  exists obj, MessageToJsonString (TableSchemaToProto sch) = Ok (obj ++ [newline]) /\
    object_text obj /\ JsonStringToMessage obj = Ok (TableSchemaToProto sch) /\
    json = meta_head ++ quoted $"schema" ++ $": " ++ obj ++ [newline] ++ view_tail query ddl.
Proof.
  unfold RenderViewTableMetaJson. destruct (RenderTableMetaJson sch) as [base|] eqn:E; [|done].
  destruct (table_meta_text _ _ E) as (obj & M & O & P & ->). cbn [mbind outcome_bind].
  intros <-%Ok_inj. exists obj. split_and!; [exact M|exact O|exact P|].
  rewrite !app_assoc. rewrite (pop_char_snoc newline). change $"}" with ["}"%char].
  rewrite pop_char_snoc. unfold view_tail. rewrite <- !app_assoc. done.
Qed.

(** The field of a view sidecar is searched after the schema when the schema
    does not hold its name between quotes. *)
Lemma view_field k obj query ddl :
  passes (quoted k) (meta_head ++ quoted $"schema" ++ $": ") = true -> ","%char ∉ quoted k ->
  find_after (quoted k) (obj ++ [newline]) = None ->
  find_after (quoted k) (meta_head ++ quoted $"schema" ++ $": " ++ obj ++ [newline] ++ view_tail query ddl) =
  find_after (quoted k) (view_tail query ddl).
Proof.
  intros P C N. rewrite (app_assoc (quoted _)), (app_assoc meta_head).
  rewrite (find_after_pass _ _ _ P), (app_assoc obj). by apply (find_after_past (quoted k) (obj ++ [newline]) ","%char).
Qed.

Lemma view_type_field query ddl :
  find_after (quoted $"tableType") (view_tail query ddl) =
  Some ($": " ++ quoted $"VIEW" ++ $"," ++ [newline] ++
    $"  " ++ quoted $"viewQuery" ++ $": " ++ [quote] ++ escape_quotes query ++ [quote] ++ $"," ++ [newline] ++
    $"  " ++ quoted $"ddlSql" ++ $": " ++ [quote] ++ JsonEscape ddl ++ [quote; newline] ++ $"}" ++ [newline]).
Proof. unfold view_tail. change (quoted $"tableType") with ([] ++ quoted $"tableType") at 1. spell. seek. Qed.

Lemma view_query_field query ddl :
  exists r, find_after (quoted $"viewQuery") (view_tail query ddl) =
  Some ($": " ++ [quote] ++ escape_quotes query ++ quote :: r).
Proof. unfold view_tail. eexists. spell. seek. Qed.

(** Where the value of [ddlSql] is read: after the colon that follows the first
    [ddlSql] between quotes, which may be the end of the query. *)
Lemma view_ddl_field query ddl :
  exists r, (find_after (quoted $"ddlSql") (view_tail query ddl) ≫= find_after $":") =
  Some (" "%char :: quote :: JsonEscape ddl ++ quote :: r).
Proof.
  unfold view_tail.
  match goal with |- exists r, (find_after ?n ?t ≫= _) = _ => set (text := t) end.
  assert (exists u, text = ($"," ++ [newline] ++ $"  " ++ quoted $"tableType" ++ $": " ++ quoted $"VIEW" ++ $"," ++
    [newline] ++ $"  " ++ quoted $"viewQuery" ++ $": ") ++ quote :: flat_map escape_quotes_char query ++ quote :: ","%char ::
    (newline :: $"  " ++ quoted $"ddlSql" ++ $": " ++ [quote] ++ JsonEscape ddl ++ quote :: u)) as [u ->].
  { eexists. unfold text. rewrite <- !app_assoc. reflexivity. }
  rewrite find_after_pass by reflexivity. eexists.
  edestruct (find_quoted_value _ escape_quotes_shape $"ddlSql" query ","%char) as [E|E];
    [reflexivity|discriminate|cbn; discriminate|rewrite E..].
  - cbn [mbind option_bind]. spell. seek.
  - match goal with |- (?o ≫= _) = _ => eassert (o = _) as -> by (spell; seek) end.
    cbn [mbind option_bind]. spell. seek.
Qed.

Definition view_keys : list str := [$"tableType"; $"viewQuery"; $"ddlSql"].

Lemma view_resource_info obj query ddl :
  Forall (fun k => find_after (quoted k) (obj ++ [newline]) = None) view_keys ->
  ParseTableResourceInfo
    (meta_head ++ quoted $"schema" ++ $": " ++ obj ++ [newline] ++ view_tail query ddl) =
  mkResourceInfo $"VIEW" query ddl.
Proof.
  unfold view_keys. rewrite !Forall_cons. intros (K1 & K2 & K3 & _).
  unfold ParseTableResourceInfo, ParseTopLevelJsonStringField.
  rewrite !view_field by (assumption || reflexivity || (apply literal_without; reflexivity)).
  rewrite view_type_field. destruct (view_query_field query ddl) as [r ->].
  destruct (view_ddl_field query ddl) as [r' E].
  destruct (find_after (quoted $"ddlSql") (view_tail query ddl)) as [x|]; [|done].
  cbn [mbind option_bind] in E |- *. rewrite E. cbn [mbind option_bind drop_blanks].
  change ($": " ++ ?y) with (":"%char :: " "%char :: y).
  rewrite !(find_after_hit $":" (":"%char :: _) _ eq_refl). cbn -[find_after UnescapeField lit].
  change (blank " "%char) with true. change (blank quote) with false. cbn -[UnescapeField lit].
  by rewrite UnescapeField_escaped, UnescapeField_quotes.
Qed.

(** C31: A sidecar returns the schema it was written with; a view's sidecar returns
    its query and its CREATE statement too, byte for byte, when no column text
    of the schema is one of the names [tableType], [viewQuery] and [ddlSql]. *)
Theorem sidecar_roundtrip sch query ddl (W : wf_schema sch) :
  (forall json, RenderTableMetaJson sch = Ok json -> ParseTableMetaJson json = Ok sch) /\
  (forall json, RenderViewTableMetaJson sch query ddl = Ok json -> ParseTableMetaJson json = Ok sch) /\
  (forall json text, RenderViewTableMetaJson sch query ddl = Ok json ->
     MessageToJsonString (TableSchemaToProto sch) = Ok text ->
     Forall (fun k => find_after (quoted k) text = None) view_keys ->
     ParseTableResourceInfo json = mkResourceInfo $"VIEW" query ddl).
Proof.
  split_and!.
  - intros json (obj & _ & O & P & ->)%table_meta_text. by apply parse_table_meta.
  - intros json (obj & _ & O & P & ->)%view_meta_text. by apply parse_table_meta.
  - intros json text (obj & E & O & P & ->)%view_meta_text E' K. rewrite E in E'.
    apply Ok_inj in E' as <-. by apply view_resource_info.
Qed.
End sidecars.

(** ** REST metadata of a dataset *)

Lemma drop_blanks_head s : blank (hd quote s) = false -> drop_blanks s = s.
Proof. destruct s as [|c s]; [done|]. cbn. by intros ->. Qed.

Lemma drop_blanks_end_snoc s c : blank c = false -> drop_blanks_end (s ++ [c]) = s ++ [c].
Proof.
  intros B. unfold drop_blanks_end. rewrite rev_unit, drop_blanks_head by done.
  cbn. by rewrite rev_involutive.
Qed.

Lemma drop_blanks_end_blank s c : blank c = true -> drop_blanks_end (s ++ [c]) = drop_blanks_end s.
Proof. intros B. unfold drop_blanks_end. rewrite rev_unit. cbn. by rewrite B. Qed.

(** An object as the gateway sends it: it starts with its brace and ends with
    it. *)
Definition rest_object (t : str) : Prop := object_text t /\ exists u, t = u ++ ["}"%char].

Lemma merge_text e t : rest_object t ->
  MergeRestMetadataIntoDatasetMetaJson e t =
  pop_char "}"%char (drop_blanks_end e) ++
  $"," ++ [newline] ++ $"  " ++ rest_key ++ $": " ++ t ++ [newline] ++ $"}" ++ [newline].
Proof.
  intros [(body & E & _) [u U]]. unfold MergeRestMetadataIntoDatasetMetaJson.
  assert (drop_blanks_end (drop_blanks t) = t) as ->.
  { rewrite drop_blanks_head by (by rewrite E). rewrite U. by apply drop_blanks_end_snoc. }
  by rewrite E.
Qed.

(** After a first merge, what a second one appends comes after it. *)
Lemma merge_twice_text e t t' : rest_object t -> rest_object t' ->
  exists r, MergeRestMetadataIntoDatasetMetaJson (MergeRestMetadataIntoDatasetMetaJson e t) t' =
  pop_char "}"%char (drop_blanks_end e) ++
  $"," ++ [newline] ++ $"  " ++ rest_key ++ $": " ++ t ++ r.
Proof.
  intros T T'. rewrite (merge_text _ t') by done. rewrite (merge_text e t) by done.
  rewrite !app_assoc, drop_blanks_end_blank by done. change $"}" with ["}"%char].
  rewrite drop_blanks_end_snoc, pop_char_snoc by done. eexists. rewrite <- !app_assoc. reflexivity.
Qed.

Lemma extract_text e t r : rest_object t -> find_after rest_key e = None ->
  ExtractRestMetadataFromDatasetMetaJson
    (e ++ $"," ++ [newline] ++ $"  " ++ rest_key ++ $": " ++ t ++ r) = t.
Proof.
  intros [(body & E & B) _] N. unfold ExtractRestMetadataFromDatasetMetaJson.
  change ($"," ++ ?x) with (","%char :: x).
  rewrite find_after_past by first [exact N|apply literal_without; reflexivity].
  rewrite find_after_step by done. rewrite find_after_pass, find_after_pass, find_after_here by reflexivity.
  rewrite (find_after_hit $":" _ (" "%char :: t ++ r)) by done. cbn [drop_blanks].
  change (blank " "%char) with true. cbn iota. rewrite drop_blanks_head by (by rewrite E).
  assert (ExtractBalancedObject (t ++ r) = Some (t, r)) as ->; [|done].
  rewrite <- (B r), E. done.
Qed.

(** The REST metadata that a dropped dataset keeps is found again on the first
    drop; when the dataset was restored and is dropped once more, the metadata
    of the first drop is found and not the current one. *)
Theorem rest_metadata_first_kept e t t' (T : rest_object t) (T' : rest_object t')
    (N : find_after rest_key (pop_char "}"%char (drop_blanks_end e)) = None) :
  ExtractRestMetadataFromDatasetMetaJson (MergeRestMetadataIntoDatasetMetaJson e t) = t /\
  ExtractRestMetadataFromDatasetMetaJson
    (MergeRestMetadataIntoDatasetMetaJson (MergeRestMetadataIntoDatasetMetaJson e t) t') = t.
Proof.
  split.
  - rewrite merge_text by done. by apply extract_text.
  - destruct (merge_twice_text e t t' T T') as [r ->]. by apply extract_text.
Qed.
