(* ===== verification/FileTree.v ===== *)
(** * FileTree: the part of [std::filesystem] the catalog storage uses

    The files of [VersionLog]'s disk with the set of the directories that
    exist: [exists], [create_directories], [rename], [remove], [remove_all] and
    [directory_iterator] on POSIX paths, each failing where the disk's fault
    map says so.  A path is the text the program builds; directories are the
    paths without a trailing separator.

    The lemmas say when a sequence of renames is undone by another one: every
    file is carried by the composition of the moves ([rekey_undo]). *)

From S2P Require Import Prelude Absl Storage VersionLog.

Record Tree := mkTree { disk : Disk; dirs : gset str }.

Definition tree_files (t : Tree) : gmap str str := files (disk t).

Definition with_disk (t : Tree) (d : Disk) : Tree := mkTree d (dirs t).

(** ** Paths *)

(** What follows [a] in [k] when [k] is [a] or lies below it. *)
Definition strip_root (a k : str) : option str :=
  match strip_prefix a k with
  | Some [] => Some []
  | Some (c :: r) => if decide (c = "/"%char) then Some (c :: r) else None
  | None => None
  end.

Definition under (a k : str) : bool := match strip_root a k with Some _ => true | None => false end.

(** The directories above a path, from the root down. *)
Fixpoint ancestors_from (before after : str) : list str :=
  match after with
  | [] => []
  | c :: after =>
      if decide (c = "/"%char)
      then match before with
           | [] => ancestors_from [c] after
           | _ => before :: ancestors_from (before ++ [c]) after
           end
      else ancestors_from (before ++ [c]) after
  end.
Definition ancestors (p : str) : list str := ancestors_from [] p.

(** [path.filename()] and [path.parent_path()] of a path with a separator. *)
Definition filename (p : str) : str :=
  match rfind_sub $"/" p with Some (_, name) => name | None => p end.
Definition parent_path (p : str) : str :=
  match rfind_sub $"/" p with Some (dir, _) => dir | None => [] end.

(** ** Queries *)

Definition path_exists (t : Tree) (p : str) : bool :=
  exists_file (disk t) p || bool_decide (p ∈ dirs t).
Definition is_directory (t : Tree) (p : str) : bool := bool_decide (p ∈ dirs t).

(** Every path of the tree. *)
Definition all_paths (t : Tree) : list str := (map_to_list (tree_files t)).*1 ++ elements (dirs t).

(** The name of [k] when it is directly below [dir]. *)
Definition child_name (dir k : str) : option str :=
  match strip_prefix (dir_prefix dir) k with
  | Some (c :: name) => if bool_decide ("/"%char ∈ c :: name) then None else Some (c :: name)
  | _ => None
  end.

(** [directory_iterator]: the names in a directory, in the order of the
    operating system; an error is the message of its code. *)
Definition directory_iterator (t : Tree) (dir : str) : outcome str (list str) :=
  match faults (disk t) dir with
  | Some (FList m) => Err m
  | _ => if bool_decide (dir ∈ dirs t) then Ok (omap (child_name dir) (all_paths t))
         else Err $"No such file or directory"
  end.

Definition dir_empty (t : Tree) (p : str) : bool :=
  forallb (fun k => bool_decide (k = p) || negb (under p k)) (all_paths t).

(** ** Changes *)

Definition rekey (f : str -> str) (m : gmap str str) : gmap str str :=
  list_to_map (map (fun kv => (f kv.1, kv.2)) (map_to_list m)).

Definition move_key (from to k : str) : str :=
  match strip_root from k with Some r => to ++ r | None => k end.

(** [fs::create_directories], with the message of its error. *)
Definition make_dirs (t : Tree) (p : str) : Tree * option str :=
  match faults (disk t) p with
  | Some (FMkdir m) => (t, Some m)
  | _ =>
      if existsb (exists_file (disk t)) (p :: ancestors p) then (t, Some $"Not a directory")
      else (mkTree (disk t) ({[p]} ∪ list_to_set (ancestors p) ∪ dirs t), None)
  end.

(** [fs::rename] of a file or of a directory with all it holds. *)
Definition rename (t : Tree) (from to : str) : Tree * option str :=
  match faults (disk t) to with
  | Some (FMove m) => (t, Some m)
  | _ =>
      if negb (path_exists t from) then (t, Some $"No such file or directory")
      else if is_directory t to && negb (is_directory t from) then (t, Some $"Is a directory")
      else if is_directory t from && exists_file (disk t) to then (t, Some $"Not a directory")
      else if is_directory t to && negb (dir_empty t to) then (t, Some $"Directory not empty")
      else (mkTree
              (mkDisk (rekey (move_key from to) (base.filter (fun kv => under to kv.1 = false) (tree_files t)))
                 (faults (disk t)))
              (set_map (move_key from to) (base.filter (fun k => under to k = false) (dirs t))), None)
  end.

(** [fs::remove]: a file, or a directory that is empty. *)
Definition remove (t : Tree) (p : str) : Tree * option str :=
  match faults (disk t) p with
  | Some (FRemove m) => (t, Some m)
  | _ =>
      if exists_file (disk t) p then (with_disk t (delete_file (disk t) p), None)
      else if dir_empty t p then (mkTree (disk t) (dirs t ∖ {[p]}), None)
      else (t, Some $"Directory not empty")
  end.

Definition remove_all (t : Tree) (p : str) : Tree * option str :=
  match faults (disk t) p with
  | Some (FPurge m) => (t, Some m)
  | _ => (mkTree (mkDisk (base.filter (fun kv => under p kv.1 = false) (tree_files t)) (faults (disk t)))
            (base.filter (fun k => under p k = false) (dirs t)), None)
  end.

(** [WriteFileAtomic] into a directory that exists. *)
Definition write_file (t : Tree) (p contents : str) : Tree * StatusOr unit :=
  if bool_decide (parent_path p ∈ dirs t)
  then let '(d, r) := WriteFileAtomic (disk t) p contents in (with_disk t d, r)
  else (t, Err (InternalError ($"failed to open " ++ p ++ $".tmp for write"))).

(** ** Laws of [rekey] *)

(** [f] keeps the keys of [m] apart. *)
Definition inj_on (f : str -> str) (m : gmap str str) : Prop :=
  forall k k', is_Some (m !! k) -> is_Some (m !! k') -> f k = f k' -> k = k'.

Lemma rekey_NoDup f m : inj_on f m -> NoDup (map (fun kv => (f kv.1, kv.2)) (map_to_list m)).*1.
Proof.
  intros I. pose proof (NoDup_fst_map_to_list m) as N.
  assert (forall kv, kv ∈ map_to_list m -> is_Some (m !! kv.1)) as K.
  { intros [k v] Hk%elem_of_map_to_list. by eexists. }
  induction (map_to_list m) as [|kv l IH]; [constructor|]. cbn in N |- *.
  apply NoDup_cons in N as [N1 N2]. constructor; [|apply IH; [done|intros; apply K; set_solver]].
  intros E. apply N1. rewrite list_elem_of_fmap in E |- *. destruct E as (y & E & Hy).
  apply list_elem_of_In, in_map_iff in Hy as (z & <- & Hz). apply list_elem_of_In in Hz.
  exists z. split; [|done]. cbn in E. apply I; [apply K; set_solver|apply K; set_solver|done].
Qed.

Lemma rekey_lookup f m k v : inj_on f m -> m !! k = Some v -> rekey f m !! f k = Some v.
Proof.
  intros I E. apply elem_of_list_to_map_1; [by apply rekey_NoDup|].
  apply list_elem_of_In, in_map_iff. exists (k, v). split; [done|].
  by apply list_elem_of_In, elem_of_map_to_list.
Qed.

Lemma rekey_Some f m k' v : rekey f m !! k' = Some v -> exists k, k' = f k /\ m !! k = Some v.
Proof.
  intros E%elem_of_list_to_map_2%list_elem_of_In%in_map_iff. destruct E as ([k w] & [= <- <-] & E).
  exists k. split; [done|]. by apply list_elem_of_In, elem_of_map_to_list in E.
Qed.

Lemma rekey_compose f g m :
  inj_on (fun k => g (f k)) m -> rekey g (rekey f m) = rekey (fun k => g (f k)) m.
Proof.
  intros I.
  assert (inj_on f m) as If by (intros k k' H H' E; apply I; congruence).
  assert (inj_on g (rekey f m)) as Ig.
  { intros k k' [v Hv] [v' Hv'] E. apply rekey_Some in Hv as (i & -> & Hi), Hv' as (i' & -> & Hi').
    by rewrite (I i i'). }
  apply map_eq. intros k. apply option_eq. intros v. split.
  - intros (i & -> & (j & -> & Hj)%rekey_Some)%rekey_Some. by apply (rekey_lookup (fun k => g (f k))).
  - intros (i & -> & Hi)%rekey_Some. apply rekey_lookup; [done|]. by apply rekey_lookup.
Qed.

Lemma rekey_id f m : (forall k, is_Some (m !! k) -> f k = k) -> rekey f m = m.
Proof.
  intros F. assert (inj_on f m) as I by (intros k k' H H'; by rewrite !F).
  apply map_eq. intros k. apply option_eq. intros v. split.
  - intros (i & -> & Hi)%rekey_Some. by rewrite F.
  - intros E. rewrite <- (F k) by eauto. by apply rekey_lookup.
Qed.

(** Moves made one after the other carry a key through all of them. *)
Definition rekeys (fs : list (str -> str)) (m : gmap str str) : gmap str str :=
  fold_left (fun m f => rekey f m) fs m.
Definition through (fs : list (str -> str)) (k : str) : str := fold_left (fun k f => f k) fs k.

Lemma rekeys_through fs m : inj_on (through fs) m -> rekeys fs m = rekey (through fs) m.
Proof.
  revert m. induction fs as [|f fs IH]; intros m I; cbn.
  - symmetry. by apply rekey_id.
  - rewrite IH; [exact (rekey_compose f (through fs) m I)|]. intros k k' [v Hv] [v' Hv'] E.
    apply rekey_Some in Hv as (i & -> & Hi), Hv' as (i' & -> & Hi'). f_equal. apply I; eauto.
Qed.

(** When the moves bring every key back, they change nothing. *)
Lemma rekey_undo fs m : (forall k, is_Some (m !! k) -> through fs k = k) -> rekeys fs m = m.
Proof.
  intros F. rewrite rekeys_through, rekey_id; [done..|]. intros k k' H H'. by rewrite !F.
Qed.

(** ** Roots of paths *)

Lemma strip_root_Some a k r :
  strip_root a k = Some r <-> k = a ++ r /\ (r = [] \/ exists r', r = "/"%char :: r').
Proof.
  unfold strip_root. split.
  - destruct (strip_prefix a k) as [[|c t]|] eqn:E; intros H; simplify_eq.
    + apply strip_prefix_Some in E. split; [done|by left].
    + case_decide; simplify_eq. apply strip_prefix_Some in E. split; [done|right; by eexists].
  - intros [-> [->|[r' ->]]]; rewrite strip_prefix_app; [done|]. by rewrite decide_True.
Qed.

Lemma strip_root_app a r : r = [] \/ (exists r', r = "/"%char :: r') -> strip_root a (a ++ r) = Some r.
Proof. intros R. by apply strip_root_Some. Qed.

(** No path is under both roots. *)
Definition apart (a b : str) : Prop := forall k, under a k = true -> under b k = false.

Lemma under_true a k : under a k = true <-> exists r, strip_root a k = Some r.
Proof. unfold under. destruct (strip_root a k); naive_solver. Qed.

Lemma apart_sym a b : apart a b -> apart b a.
Proof. intros A k B. destruct (under a k) eqn:E; [|done]. specialize (A k E). congruence. Qed.

(** Two roots are apart unless one is under the other. *)
Lemma apart_roots a b : under a b = false -> under b a = false -> apart a b.
Proof.
  intros A B k (r & [-> R]%strip_root_Some)%under_true.
  destruct (under b (a ++ r)) eqn:E; [|done]. exfalso.
  apply under_true in E as (r' & [E R']%strip_root_Some).
  assert (forall x y, (y = [] \/ exists y', y = "/"%char :: y') -> under x (x ++ y) = true) as U.
  { intros x y Y. apply under_true. eexists. by apply strip_root_app. }
  apply app_eq_inv in E as [(k & -> & ->)|(k & -> & ->)].
  - destruct k as [|c k]; [by rewrite U in B by eauto|].
    destruct R' as [?|[t [= -> _]]]; [done|]. by rewrite U in B by eauto.
  - destruct k as [|c k]; [by rewrite U in A by eauto|].
    destruct R as [?|[t [= -> _]]]; [done|]. by rewrite U in A by eauto.
Qed.

Lemma move_key_under from to r : (r = [] \/ exists r', r = "/"%char :: r') ->
  move_key from to (from ++ r) = to ++ r.
Proof. intros R. unfold move_key. by rewrite strip_root_app. Qed.

Lemma move_key_other from to k : under from k = false -> move_key from to k = k.
Proof. unfold move_key, under. by destruct (strip_root from k). Qed.

(** Moving every root [a] of [pairs] to its [b], and back in the same order. *)
Definition there (pairs : list (str * str)) : list (str -> str) := map (fun p => move_key p.1 p.2) pairs.
Definition back (pairs : list (str * str)) : list (str -> str) := map (fun p => move_key p.2 p.1) pairs.

Lemma through_app fs gs k : through (fs ++ gs) k = through gs (through fs k).
Proof. unfold through. by rewrite fold_left_app. Qed.

Lemma through_other fs k : Forall (fun f => f k = k) fs -> through fs k = k.
Proof. induction 1 as [|f fs E _ IH]; [done|]. cbn. by rewrite E. Qed.

Lemma under_app a r : (r = [] \/ exists r', r = "/"%char :: r') -> under a (a ++ r) = true.
Proof. intros R. apply under_true. eexists. by apply strip_root_app. Qed.

Lemma under_refl a : under a a = true.
Proof. rewrite <- (app_nil_r a) at 2. apply under_app. by left. Qed.

Lemma apart_app a b r : apart a b -> (r = [] \/ exists r', r = "/"%char :: r') -> under b (a ++ r) = false.
Proof. intros A R. apply A. by apply under_app. Qed.

(** Where the moves there take a path. *)
Lemma there_other pairs k : Forall (fun p => under p.1 k = false) pairs -> through (there pairs) k = k.
Proof.
  intros F. apply through_other, Forall_map. eapply Forall_impl; [exact F|].
  intros p P. by apply move_key_other.
Qed.
Lemma back_other pairs k : Forall (fun p => under p.2 k = false) pairs -> through (back pairs) k = k.
Proof.
  intros F. apply through_other, Forall_map. eapply Forall_impl; [exact F|].
  intros p P. by apply move_key_other.
Qed.

Lemma there_back_one pairs1 a b pairs2 r :
  (r = [] \/ exists r', r = "/"%char :: r') ->
  Forall (fun p => apart a p.1 /\ apart a p.2 /\ apart b p.1 /\ apart b p.2) (pairs1 ++ pairs2) ->
  through (there (pairs1 ++ (a, b) :: pairs2)) (a ++ r) = b ++ r /\
  through (back (pairs1 ++ (a, b) :: pairs2)) (b ++ r) = a ++ r.
Proof.
  intros R F. apply Forall_app in F as [F1 F2]. unfold there, back. rewrite !map_app, !through_app.
  fold (there pairs1) (back pairs1). cbn [map fst snd].
  rewrite there_other, back_other; [|eapply Forall_impl; [exact F1|]..];
    [|intros p (? & ? & ? & ?); by apply apart_app..].
  unfold through at 1 2. cbn [fold_left]. rewrite !move_key_under by done.
  split; [apply (there_other pairs2)|apply (back_other pairs2)];
    (eapply Forall_impl; [exact F2|]); intros p (? & ? & ? & ?); by apply apart_app.
Qed.

(** The roots are apart, sources from targets and those of different pairs. *)
Record separated (pairs : list (str * str)) : Prop := {
  sep_NoDup : NoDup pairs;
  sep_cross p q : p ∈ pairs -> q ∈ pairs -> apart p.1 q.2;
  sep_from p q : p ∈ pairs -> q ∈ pairs -> p <> q -> apart p.1 q.1;
  sep_to p q : p ∈ pairs -> q ∈ pairs -> p <> q -> apart p.2 q.2;
}.

Lemma separated_others p1 a b p2 :
  separated (p1 ++ (a, b) :: p2) ->
  Forall (fun p => apart a p.1 /\ apart a p.2 /\ apart b p.1 /\ apart b p.2) (p1 ++ p2).
Proof.
  intros [N C F T]. apply Forall_forall. intros q Hq.
  assert (q ∈ p1 ++ (a, b) :: p2) by set_solver. assert ((a, b) ∈ p1 ++ (a, b) :: p2) by set_solver.
  assert ((a, b) <> q).
  { intros <-. apply NoDup_app in N as (_ & N1 & [N2 _]%NoDup_cons). set_solver. }
  split_and!; [by apply (F (a, b))|by apply (C (a, b))|apply apart_sym; by apply (C q (a, b))|
    by apply (T (a, b))].
Qed.

Lemma separated_app_l l1 l2 : separated (l1 ++ l2) -> separated l1.
Proof.
  intros [N C F T]. apply NoDup_app in N as (N & _ & _).
  split; [done|intros p q Hp Hq..]; [apply C|apply F|apply T]; set_solver.
Qed.

(** The end of a path below a root. *)
Definition tail_ok (r : str) : Prop := r = [] \/ exists r', r = "/"%char :: r'.

(** Where the moves take a path: nowhere, or with the root it is under. *)
Lemma there_cases pairs k : separated pairs ->
  (Forall (fun p => under p.1 k = false) pairs /\ through (there pairs) k = k) \/
  exists p r, p ∈ pairs /\ tail_ok r /\ k = p.1 ++ r /\ through (there pairs) k = p.2 ++ r.
Proof.
  intros S. destruct (decide (Exists (fun p => under p.1 k = true) pairs)) as [E|E].
  - right. apply Exists_exists in E as ([a b] & Hp & (r & [-> R]%strip_root_Some)%under_true).
    exists (a, b), r. split_and!; try done. cbn [fst snd].
    apply list_elem_of_split in Hp as (p1 & p2 & ->).
    by apply there_back_one; [|apply separated_others].
  - left. assert (Forall (fun p => under p.1 k = false) pairs) as A; [|split; [done|by apply there_other]].
    apply Forall_forall. intros p Hp. destruct (under p.1 k) eqn:U; [|done].
    destruct E. apply Exists_exists. by exists p.
Qed.

Lemma back_one pairs p r : separated pairs -> p ∈ pairs -> tail_ok r ->
  through (back pairs) (p.2 ++ r) = p.1 ++ r.
Proof.
  intros S Hp R. destruct p as [a b]. apply list_elem_of_split in Hp as (p1 & p2 & ->).
  by apply there_back_one; [|apply separated_others].
Qed.

Lemma there_and_back pairs k :
  separated pairs -> Forall (fun p => under p.2 k = false) pairs ->
  through (there pairs ++ back pairs) k = k.
Proof.
  intros S B. rewrite through_app. destruct (there_cases pairs k S) as [[A ->]|(p & r & Hp & R & -> & ->)].
  - by apply back_other.
  - by apply back_one.
Qed.

(** ** What a rename does to the files *)

Lemma move_key_inj (from to : str) (m : gmap str str) :
  (forall k, is_Some (m !! k) -> under to k = false) -> inj_on (move_key from to) m.
Proof.
  intros N k k' K K' E. unfold move_key in E.
  destruct (strip_root from k) as [r|] eqn:R, (strip_root from k') as [r'|] eqn:R'; [|..|done].
  - apply app_inv_head in E. subst r'. apply strip_root_Some in R as [-> _], R' as [-> _]. done.
  - apply strip_root_Some in R as [_ R]. specialize (N _ K'). rewrite <- E in N. by rewrite under_app in N.
  - apply strip_root_Some in R' as [_ R']. specialize (N _ K). rewrite E in N. by rewrite under_app in N.
Qed.

Lemma rename_files t from to t' : rename t from to = (t', None) ->
  tree_files t' = rekey (move_key from to) (base.filter (fun kv => under to kv.1 = false) (tree_files t)).
Proof.
  unfold rename. destruct (faults (disk t) to) as [[]|]; repeat case_match; intros [=]; by subst.
Qed.

Lemma filtered_free (to : str) (m : gmap str str) (k : str) :
  is_Some (base.filter (fun kv => under to kv.1 = false) m !! k) -> under to k = false.
Proof. intros [v E]. by apply map_lookup_filter_Some in E as [_ E]. Qed.

Lemma rename_lookup t from to t' k : rename t from to = (t', None) ->
  under from k = false -> under to k = false -> tree_files t' !! k = tree_files t !! k.
Proof.
  intros E F T. rewrite (rename_files _ _ _ _ E). pose proof (move_key_inj from to _ (filtered_free to (tree_files t))) as I.
  apply option_eq. intros v. split.
  - intros (i & Ei & L)%rekey_Some. apply map_lookup_filter_Some in L as [L _].
    unfold move_key in Ei. destruct (strip_root from i) as [r|] eqn:R; [|by subst].
    apply strip_root_Some in R as [_ R]. subst k. by rewrite under_app in T.
  - intros L. rewrite <- (move_key_other from to k F). apply rekey_lookup; [done|].
    by apply map_lookup_filter_Some.
Qed.

Lemma rename_target t from to t' : apart from to -> rename t from to = (t', None) ->
  tree_files t' !! to = tree_files t !! from.
Proof.
  intros A E. rewrite (rename_files _ _ _ _ E). pose proof (move_key_inj from to _ (filtered_free to (tree_files t))) as I.
  assert (move_key from to from = to) as M.
  { rewrite <- (app_nil_r from) at 2. rewrite move_key_under by (by left). apply app_nil_r. }
  apply option_eq. intros v. split.
  - intros (i & Ei & L)%rekey_Some. apply map_lookup_filter_Some in L as [L N].
    unfold move_key in Ei. destruct (strip_root from i) as [r|] eqn:R.
    + apply strip_root_Some in R as [-> _]. rewrite <- (app_nil_r to) in Ei at 1. apply app_inv_head in Ei as <-.
      by rewrite app_nil_r in L.
    + subst i. cbn in N. by rewrite under_refl in N.
  - intros L. pose proof (rekey_lookup (move_key from to) _ from v I) as R. rewrite M in R. apply R.
    apply map_lookup_filter_Some. split; [done|]. apply A, under_refl.
Qed.

Lemma rename_failed t from to t' m : rename t from to = (t', Some m) -> t' = t.
Proof. unfold rename. destruct (faults (disk t) to) as [[]|]; repeat case_match; naive_solver. Qed.
