(* ===== verification/Registry.v ===== *)
(** * Registry: views, routines and table governance in the catalog database

    Models [backend/storage/duckdb/duckdb_storage_views.cc],
    [duckdb_storage_routines.cc], [duckdb_storage_governance.cc] and the queries
    of [duckdb_storage_tombstone_registry.cc]: the rows the storage keeps in the
    tables [__bqemu_views], [__bqemu_routines], [__bqemu_row_access_policies]
    and [__bqemu_column_governance], and the sidecar of a view.

    The state is the directory tree and the database behind the connection.
    DuckDB is a parameter: [duckdb_query] runs one statement, which may change
    the database and the files, and gives rows or an error message.  The
    statements are the texts the program sends.  Locks are not modelled: each
    operation holds the storage's mutex from start to end. *)

From Stdlib Require Import SpecFloat.
From S2P Require Import Prelude Order Absl Schema Storage DuckDbSql VersionLog SidecarJson FileTree.

(** ** The connection *)

Inductive DbCell :=
| DNull
| DText (s : str)
| DInt (z : Z)
| DBool (b : bool)
| DDouble (d : spec_float)
| DBlob (bytes : str).

Record DbResult := mkResult { column_count : nat; db_rows : list (list DbCell) }.

Class DuckDb := {
  db : Type;
  duckdb_query : db -> gmap str str -> str -> db * gmap str str * outcome str DbResult;
}.

(** The accessors [duckdb_value_varchar], [duckdb_value_int64] and so on at a
    column of a row. *)
Definition value_varchar (row : list DbCell) (i : nat) : str :=
  match row !! i with Some (DText s) => s | _ => [] end.
Definition value_int64 (row : list DbCell) (i : nat) : Z :=
  match row !! i with Some (DInt z) => z | _ => 0 end.
Definition value_boolean (row : list DbCell) (i : nat) : bool :=
  match row !! i with Some (DBool b) => b | _ => false end.
Definition value_double (row : list DbCell) (i : nat) : spec_float :=
  match row !! i with Some (DDouble d) => d | _ => S754_zero false end.
Definition value_blob (row : list DbCell) (i : nat) : str :=
  match row !! i with Some (DBlob b) => b | _ => [] end.
Definition value_is_null (row : list DbCell) (i : nat) : bool :=
  match row !! i with Some DNull => true | _ => false end.

Definition DuckDBError (what detail : str) : Status :=
  InternalError (match detail with [] => what | _ => what ++ $": " ++ detail end).

(** ** Stateful operations *)

Section registry.
Context `{AbslText} `{ProtoJson} `{DuckDb}.

Record Store := mkStore { tree : Tree; conn : db }.

Definition ST (A : Type) : Type := Store -> Store * StatusOr A.

#[global] Instance ST_ret : MRet ST := fun A a s => (s, Ok a).
#[global] Instance ST_bind : MBind ST := fun A B f m s =>
  match m s with
  | (s', Ok a) => f a s'
  | (s', Err e) => (s', Err e)
  end.

Definition fail {A} (e : Status) : ST A := fun s => (s, Err e).
Definition lift {A} (r : StatusOr A) : ST A := fun s => (s, r).
Definition reads {A} (f : Store -> A) : ST A := fun s => (s, Ok (f s)).

Fixpoint st_iter {A} (f : A -> ST unit) (l : list A) : ST unit :=
  match l with
  | [] => mret ()
  | x :: l => f x ≫= fun _ => st_iter f l
  end.

(** A result that the caller looks at instead of returning. *)
Definition try_ {A} (m : ST A) : ST (StatusOr A) := fun s => let '(s', r) := m s in (s', Ok r).

Definition on_tree (f : Tree -> Tree) : ST unit := fun s => (mkStore (f (tree s)) (conn s), Ok ()).
(** A call that sets an error code, which is turned into a status. *)
Definition tree_call (f : Tree -> Tree * option str) (what : str) : ST unit := fun s =>
  let '(t, e) := f (tree s) in
  (mkStore t (conn s), match e with None => Ok () | Some m => Err (FilesystemStatus what m) end).

Definition exists_ (p : str) : ST bool := reads (fun s => path_exists (tree s) p).
Definition read_file (p : str) : ST str := fun s => (s, ReadFile (disk (tree s)) p).
Definition write_file_atomic (p contents : str) : ST unit := fun s =>
  let '(t, r) := write_file (tree s) p contents in (mkStore t (conn s), r).

Definition query (sql : str) : ST (outcome str DbResult) := fun s =>
  let '(c, fs, r) := duckdb_query (conn s) (tree_files (tree s)) sql in
  (mkStore (mkTree (mkDisk fs (faults (disk (tree s)))) (dirs (tree s))) c, Ok r).

Definition RunSql (sql : str) : ST unit :=
  r ← query sql;
  match r with
  | Ok _ => mret ()
  | Err detail => fail (DuckDBError ($"DuckDB query failed: " ++ sql) detail)
  end.

Definition query_rows (what sql : str) : ST (list (list DbCell)) :=
  r ← query sql;
  match r with
  | Ok res => mret (db_rows res)
  | Err detail => fail (DuckDBError what detail)
  end.

(** ** Names and paths *)

Context (data_dir : str).

Definition kTableMetaSuffix : str := $".meta.json".
Definition kDatasetMetaFile : str := $"_dataset.meta.json".
Definition kViewsTable : str := $"main.__bqemu_views".
Definition kRoutinesTable : str := $"main.__bqemu_routines".
Definition kRowAccessPoliciesTable : str := $"main.__bqemu_row_access_policies".
Definition kColumnGovernanceTable : str := $"main.__bqemu_column_governance".

Definition DatasetDir (project dataset : str) : str := path_join (path_join data_dir project) dataset.
Definition DatasetMetaPath (id : DatasetId) : str :=
  path_join (DatasetDir (ds_project_id id) (ds_dataset_id id)) kDatasetMetaFile.
Definition DuckDBSchemaName (id : DatasetId) : str := ds_project_id id ++ $"__" ++ ds_dataset_id id.

Definition view_table (id : ViewId) : TableId := mkTableId (v_project_id id) (v_dataset_id id) (view_id id).

(** [a.b.c] in messages. *)
Definition dotted (l : list str) : str := join "."%char l.
Definition table_name (id : TableId) : str := dotted [project_id id; dataset_id id; table_id id].
Definition dataset_name (id : DatasetId) : str := dotted [ds_project_id id; ds_dataset_id id].

(** A string literal of a statement. *)
Definition sql_text (s : str) : str := $"'" ++ EscapeStringLiteralInner s ++ $"'".

(** [field = 'value' AND ...] *)
Definition where_eq (eq : str) (fields : list (str * str)) : str :=
  join_text $" AND " (map (fun f => f.1 ++ eq ++ sql_text f.2) fields).

Definition dataset_where (id : DatasetId) : str :=
  where_eq $" = " [($"project_id", ds_project_id id); ($"dataset_id", ds_dataset_id id)].

(** ** Views *)

Definition EnsureViewsTable : ST unit :=
  RunSql ($"CREATE TABLE IF NOT EXISTS " ++ kViewsTable ++ $" (" ++
    $"project_id VARCHAR NOT NULL, " ++ $"dataset_id VARCHAR NOT NULL, " ++
    $"view_id VARCHAR NOT NULL, " ++ $"ddl_sql VARCHAR NOT NULL, " ++
    $"PRIMARY KEY (project_id, dataset_id, view_id)" ++ $")").

Definition ValidateViewId (id : ViewId) : StatusOr unit :=
  if bool_decide (v_project_id id = []) || bool_decide (v_dataset_id id = []) || bool_decide (view_id id = [])
  then Err (InvalidArgumentError $"view id requires non-empty project_id, dataset_id, view_id")
  else Ok ().

Definition ReadViewRow (row : list DbCell) : ViewRecord :=
  mkView (mkViewId (value_varchar row 0) (value_varchar row 1) (value_varchar row 2))
    (value_varchar row 3) [] (mkTableSchema []).

Definition QueryViews (where_clause : str) : ST (list ViewRecord) :=
  rows ← query_rows $"ListViews query failed"
    ($"SELECT project_id, dataset_id, view_id, ddl_sql FROM " ++ kViewsTable ++
     match where_clause with [] => [] | _ => $" WHERE " ++ where_clause end ++
     $" ORDER BY project_id, dataset_id, view_id");
  mret (map ReadViewRow rows).

Definition QueryViewsForDataset (id : DatasetId) : ST (list ViewRecord) :=
  rows ← query_rows $"QueryViewsForDataset failed"
    ($"SELECT project_id, dataset_id, view_id, ddl_sql FROM " ++ kViewsTable ++
     $" WHERE " ++ dataset_where id ++ $" ORDER BY view_id");
  mret (map ReadViewRow rows).

(** [view_query.empty() ? ddl_sql : view_query] *)
Definition effective_query (record : ViewRecord) : str :=
  match view_query record with [] => ddl_sql record | q => q end.

Definition view_meta_path (id : ViewId) : str :=
  path_join (DatasetDir (v_project_id id) (v_dataset_id id)) (view_id id ++ kTableMetaSuffix).

Definition WriteViewSidecar (record : ViewRecord) : ST unit :=
  let id := v_id record in
  there ← exists_ (DatasetDir (v_project_id id) (v_dataset_id id));
  if negb there
  then fail (NotFoundError ($"dataset not found: " ++ dotted [v_project_id id; v_dataset_id id]))
  else meta ← lift (RenderViewTableMetaJson (schema record) (effective_query record) (ddl_sql record));
       write_file_atomic (view_meta_path id) meta.

Definition UpsertViewSql (record : ViewRecord) : str :=
  $"INSERT INTO " ++ kViewsTable ++ $" (project_id, dataset_id, view_id, ddl_sql) VALUES (" ++
  sql_text (v_project_id (v_id record)) ++ $", " ++ sql_text (v_dataset_id (v_id record)) ++ $", " ++
  sql_text (view_id (v_id record)) ++ $", " ++ sql_text (ddl_sql record) ++
  $") ON CONFLICT (project_id, dataset_id, view_id) DO UPDATE SET " ++ $"ddl_sql = excluded.ddl_sql".

Definition UpsertView (record : ViewRecord) : ST unit :=
  _ ← lift (ValidateViewId (v_id record));
  match ddl_sql record with
  | [] => fail (InvalidArgumentError $"UpsertView: ddl_sql is required")
  | _ =>
      _ ← WriteViewSidecar record;
      _ ← EnsureViewsTable;
      RunSql (UpsertViewSql record)
  end.

(** The upsert of a restored view: the dataset's directory was just made. *)
Definition UpsertViewLocked (record : ViewRecord) : ST unit :=
  meta ← lift (RenderViewTableMetaJson (schema record) (effective_query record) (ddl_sql record));
  _ ← write_file_atomic (view_meta_path (v_id record)) meta;
  RunSql (UpsertViewSql record).

Definition RemoveViewSidecar (id : ViewId) : ST unit :=
  let meta_path := view_meta_path id in
  there ← exists_ meta_path;
  if negb there then mret ()
  else tree_call (fun t => remove t meta_path) ($"failed to remove view sidecar: " ++ meta_path).

Definition DeleteView (id : ViewId) : ST unit :=
  _ ← lift (ValidateViewId id);
  _ ← RemoveViewSidecar id;
  _ ← EnsureViewsTable;
  RunSql ($"DELETE FROM " ++ kViewsTable ++ $" WHERE " ++
    where_eq $" = " [($"project_id", v_project_id id); ($"dataset_id", v_dataset_id id);
                     ($"view_id", view_id id)]).

Definition ViewRecordFromSidecar (id : TableId) : ST ViewRecord :=
  contents ← read_file (path_join (DatasetDir (project_id id) (dataset_id id))
                          (table_id id ++ kTableMetaSuffix));
  let info := ParseTableResourceInfo contents in
  if negb (EqualsIgnoreCase (table_type info) $"VIEW")
  then fail (NotFoundError ($"table is not a logical view: " ++ table_name id))
  else mret (mkView (mkViewId (project_id id) (dataset_id id) (table_id id))
               (info_ddl_sql info) (info_view_query info)
               (match ParseTableMetaJson contents with Ok sch => sch | Err _ => mkTableSchema [] end)).

(** What the sidecar adds to a row of the table. *)
Definition merge_view_sidecar (rec : ViewRecord) : ST ViewRecord :=
  sidecar ← try_ (ViewRecordFromSidecar (view_table (v_id rec)));
  mret match sidecar with
       | Err _ => rec
       | Ok side =>
           mkView (v_id rec) (ddl_sql rec)
             (match view_query rec with [] => view_query side | q => q end)
             (match columns (schema rec) with [] => schema side | _ => schema rec end)
       end.

Fixpoint MergeViewSidecars (views : list ViewRecord) : ST (list ViewRecord) :=
  match views with
  | [] => mret []
  | rec :: views => rec ← merge_view_sidecar rec; views ← MergeViewSidecars views; mret (rec :: views)
  end.

Definition unit_separator : ascii := "031"%char.
Definition ViewRecordKey (id : ViewId) : str := join unit_separator [v_project_id id; v_dataset_id id; view_id id].

(** The table id of a sidecar's file name. *)
Definition sidecar_table (name : str) : option str :=
  match rfind_sub kTableMetaSuffix name with
  | Some (id, []) => match id with [] => None | _ => Some id end
  | _ => None
  end.

Definition list_or_nothing (p : str) : ST (list str) :=
  reads (fun s => match directory_iterator (tree s) p with Ok names => names | Err _ => [] end).

Fixpoint orphan_views (project dataset : str) (tables : list str) (seen : gset str)
    : ST (list ViewRecord * gset str) :=
  match tables with
  | [] => mret ([], seen)
  | table :: tables =>
      let key := ViewRecordKey (mkViewId project dataset table) in
      if bool_decide (key ∈ seen) then orphan_views project dataset tables seen
      else rec ← try_ (ViewRecordFromSidecar (mkTableId project dataset table));
           rest ← orphan_views project dataset tables ({[key]} ∪ seen);
           mret (match rec with Ok rec => rec :: rest.1 | Err _ => rest.1 end, rest.2)
  end.

Definition CollectOrphanViewsInDataset (project dataset : str) (seen : gset str)
    : ST (list ViewRecord * gset str) :=
  names ← list_or_nothing (DatasetDir project dataset);
  orphan_views project dataset (omap sidecar_table names) seen.

Fixpoint orphan_datasets (l : list (str * str)) (seen : gset str)
    : ST (list ViewRecord * gset str) :=
  match l with
  | [] => mret ([], seen)
  | (project, dataset) :: l =>
      one ← CollectOrphanViewsInDataset project dataset seen;
      rest ← orphan_datasets l one.2;
      mret (one.1 ++ rest.1, rest.2)
  end.

(** The directories of a directory. *)
Definition subdirectories (p : str) : ST (list str) :=
  names ← list_or_nothing p;
  reads (fun s => List.filter (fun name => is_directory (tree s) (path_join p name)) names).

Fixpoint project_datasets (projects : list str) : ST (list (str * str)) :=
  match projects with
  | [] => mret []
  | project :: projects =>
      datasets ← subdirectories (path_join data_dir project);
      rest ← project_datasets projects;
      mret (map (fun d => (project, d)) datasets ++ rest)
  end.

Definition CollectOrphanViewsFromFilesystem (seen : gset str) : ST (list ViewRecord) :=
  projects ← subdirectories data_dir;
  all ← project_datasets projects;
  found ← orphan_datasets all seen;
  mret found.1.

Definition view_lt (a b : ViewRecord) : bool :=
  let x := v_id a in let y := v_id b in
  if negb (bool_decide (v_project_id x = v_project_id y)) then str_ltb (v_project_id x) (v_project_id y)
  else if negb (bool_decide (v_dataset_id x = v_dataset_id y)) then str_ltb (v_dataset_id x) (v_dataset_id y)
  else str_ltb (view_id x) (view_id y).

Definition ListAllViews : ST (list ViewRecord) :=
  from_db ← QueryViews [];
  out ← MergeViewSidecars from_db;
  orphans ← CollectOrphanViewsFromFilesystem (list_to_set (map (fun r => ViewRecordKey (v_id r)) out));
  mret (stable_sort view_lt (out ++ orphans)).

Definition GetTableResourceInfo (id : TableId) : ST TableResourceInfo :=
  contents ← read_file (path_join (DatasetDir (project_id id) (dataset_id id))
                          (table_id id ++ kTableMetaSuffix));
  mret (ParseTableResourceInfo contents).

(** ** Routines *)

Definition EnsureRoutinesTable : ST unit :=
  RunSql ($"CREATE TABLE IF NOT EXISTS " ++ kRoutinesTable ++ $" (" ++
    $"project_id VARCHAR NOT NULL, " ++ $"dataset_id VARCHAR NOT NULL, " ++
    $"routine_id VARCHAR NOT NULL, " ++ $"kind VARCHAR NOT NULL, " ++
    $"language VARCHAR NOT NULL, " ++ $"ddl_sql VARCHAR NOT NULL, " ++
    $"is_temp BOOLEAN NOT NULL DEFAULT FALSE, " ++ $"signature_json VARCHAR, " ++
    $"PRIMARY KEY (project_id, dataset_id, routine_id)" ++ $")").

Definition ValidateRoutineId (id : RoutineId) : StatusOr unit :=
  if bool_decide (r_project_id id = []) || bool_decide (r_dataset_id id = []) || bool_decide (routine_id id = [])
  then Err (InvalidArgumentError $"routine id requires non-empty project_id, dataset_id, routine_id")
  else Ok ().

Definition ReadRoutineRow (row : list DbCell) : StatusOr RoutineRecord :=
  k ← RoutineKindFromString (value_varchar row 3);
  Ok (mkRoutine (mkRoutineId (value_varchar row 0) (value_varchar row 1) (value_varchar row 2)) k
        (value_varchar row 4) (value_varchar row 5) (value_boolean row 6)
        (if value_is_null row 7 then [] else value_varchar row 7)).

Definition QueryRoutines (where_clause : str) : ST (list RoutineRecord) :=
  rows ← query_rows $"ListRoutines query failed"
    ($"SELECT project_id, dataset_id, routine_id, kind, language, " ++
     $"ddl_sql, is_temp, signature_json FROM " ++ kRoutinesTable ++
     match where_clause with [] => [] | _ => $" WHERE " ++ where_clause end ++
     $" ORDER BY project_id, dataset_id, routine_id");
  lift (outcome_mapM ReadRoutineRow rows).

Definition QueryRoutinesForDataset (id : DatasetId) : ST (list RoutineRecord) :=
  rows ← query_rows $"QueryRoutinesForDataset failed"
    ($"SELECT project_id, dataset_id, routine_id, kind, language, ddl_sql, " ++
     $"is_temp, signature_json FROM " ++ kRoutinesTable ++
     $" WHERE " ++ dataset_where id ++ $" ORDER BY routine_id");
  lift (outcome_mapM ReadRoutineRow rows).

Definition UpsertRoutineSql (record : RoutineRecord) : str :=
  $"INSERT INTO " ++ kRoutinesTable ++
  $" (project_id, dataset_id, routine_id, kind, language, ddl_sql, " ++
  $"is_temp, signature_json) VALUES (" ++
  sql_text (r_project_id (r_id record)) ++ $", " ++ sql_text (r_dataset_id (r_id record)) ++ $", " ++
  sql_text (routine_id (r_id record)) ++ $", '" ++ RoutineKindToString (kind record) ++ $"', " ++
  sql_text (language record) ++ $", " ++ sql_text (r_ddl_sql record) ++ $", " ++
  (if is_temp record then $"TRUE" else $"FALSE") ++ $", " ++
  match signature_json record with [] => $"NULL" | sig => sql_text sig end ++
  $") ON CONFLICT (project_id, dataset_id, routine_id) DO UPDATE SET " ++
  $"kind = excluded.kind, " ++ $"language = excluded.language, " ++
  $"ddl_sql = excluded.ddl_sql, " ++ $"is_temp = excluded.is_temp, " ++
  $"signature_json = excluded.signature_json".

Definition UpsertRoutine (record : RoutineRecord) : ST unit :=
  _ ← lift (ValidateRoutineId (r_id record));
  match r_ddl_sql record with
  | [] => fail (InvalidArgumentError $"UpsertRoutine: ddl_sql is required")
  | _ => _ ← EnsureRoutinesTable; RunSql (UpsertRoutineSql record)
  end.

Definition UpsertRoutineLocked (record : RoutineRecord) : ST unit := RunSql (UpsertRoutineSql record).

Definition routine_where (id : RoutineId) : str :=
  where_eq $" = " [($"project_id", r_project_id id); ($"dataset_id", r_dataset_id id);
                   ($"routine_id", routine_id id)].

Definition DeleteRoutine (id : RoutineId) : ST unit :=
  _ ← lift (ValidateRoutineId id);
  RunSql ($"DELETE FROM " ++ kRoutinesTable ++ $" WHERE " ++ routine_where id).

Definition GetRoutine (id : RoutineId) : ST RoutineRecord :=
  _ ← lift (ValidateRoutineId id);
  rows ← QueryRoutines (routine_where id);
  match rows with
  | [] => fail (NotFoundError ($"routine not found: " ++
            dotted [r_project_id id; r_dataset_id id; routine_id id]))
  | rec :: _ => mret rec
  end.

Definition ListRoutines (id : DatasetId) : ST (list RoutineRecord) :=
  if bool_decide (ds_project_id id = []) || bool_decide (ds_dataset_id id = [])
  then fail (InvalidArgumentError $"ListRoutines: project_id and dataset_id must be non-empty")
  else QueryRoutines (dataset_where id).

Definition ListAllRoutines : ST (list RoutineRecord) := QueryRoutines [].

(** ** Row access policies and column governance *)

Definition EnsureGovernanceTables : ST unit :=
  _ ← RunSql ($"CREATE TABLE IF NOT EXISTS " ++ kRowAccessPoliciesTable ++ $" (" ++
    $"project_id VARCHAR NOT NULL, " ++ $"dataset_id VARCHAR NOT NULL, " ++
    $"table_id VARCHAR NOT NULL, " ++ $"policy_id VARCHAR NOT NULL, " ++
    $"filter_predicate VARCHAR NOT NULL, " ++ $"grantees_csv VARCHAR, " ++
    $"creation_time_ms BIGINT NOT NULL, " ++ $"last_modified_time_ms BIGINT NOT NULL, " ++
    $"PRIMARY KEY (project_id, dataset_id, table_id, policy_id)" ++ $")");
  RunSql ($"CREATE TABLE IF NOT EXISTS " ++ kColumnGovernanceTable ++ $" (" ++
    $"project_id VARCHAR NOT NULL, " ++ $"dataset_id VARCHAR NOT NULL, " ++
    $"table_id VARCHAR NOT NULL, " ++ $"column_name VARCHAR NOT NULL, " ++
    $"policy_tags_csv VARCHAR, " ++ $"mask_kind VARCHAR NOT NULL, " ++
    $"mask_grantees_csv VARCHAR, " ++ $"default_mask_value VARCHAR, " ++
    $"PRIMARY KEY (project_id, dataset_id, table_id, column_name)" ++ $")").

Definition SplitCsv (csv : str) : list str := match csv with [] => [] | _ => StrSplit csv ","%char end.
Definition JoinCsv (values : list str) : str := join ","%char values.

Definition governance_where (id : TableId) : str :=
  where_eq $"=" [($"project_id", project_id id); ($"dataset_id", dataset_id id); ($"table_id", table_id id)].

(** A list that is stored as one text, NULL when there is none. *)
Definition csv_cell (row : list DbCell) (i : nat) : list str :=
  if value_is_null row i then [] else SplitCsv (value_varchar row i).

Definition ReadPolicyRow (row : list DbCell) : RowAccessPolicyRecord :=
  mkPolicy (value_varchar row 0) (value_varchar row 1) (csv_cell row 2) (value_int64 row 3) (value_int64 row 4).

Definition ReadColumnGovRow (row : list DbCell) : str * ColumnGovernanceRecord :=
  (value_varchar row 0,
   mkColumnGov (csv_cell row 1) (MaskKindFromString (value_varchar row 2)) (csv_cell row 3)
     (if value_is_null row 4 then [] else value_varchar row 4)).

Definition LoadTableGovernance (id : TableId) : ST TableGovernance :=
  policies ← query_rows $"LoadTableGovernance row policies failed"
    ($"SELECT policy_id, filter_predicate, grantees_csv, creation_time_ms, " ++
     $"last_modified_time_ms FROM " ++ kRowAccessPoliciesTable ++ $" WHERE " ++ governance_where id ++
     $" ORDER BY policy_id");
  cols ← query_rows $"LoadTableGovernance columns failed"
    ($"SELECT column_name, policy_tags_csv, mask_kind, mask_grantees_csv, " ++
     $"default_mask_value FROM " ++ kColumnGovernanceTable ++ $" WHERE " ++ governance_where id ++
     $" ORDER BY column_name");
  mret (mkGovernance (map ReadPolicyRow policies) (map ReadColumnGovRow cols)).

Definition InsertPolicySql (id : TableId) (p : RowAccessPolicyRecord) : str :=
  $"INSERT INTO " ++ kRowAccessPoliciesTable ++ $" VALUES (" ++
  sql_text (project_id id) ++ $", " ++ sql_text (dataset_id id) ++ $", " ++ sql_text (table_id id) ++ $", " ++
  sql_text (policy_id p) ++ $", " ++ sql_text (filter_predicate p) ++ $", " ++
  sql_text (JoinCsv (grantees p)) ++ $", " ++ StrInt (creation_time_ms p) ++ $", " ++
  StrInt (last_modified_time_ms p) ++ $")".

Definition DeletePoliciesSql (id : TableId) : str :=
  $"DELETE FROM " ++ kRowAccessPoliciesTable ++ $" WHERE " ++ governance_where id.

Definition SaveRowAccessPolicies (id : TableId) (gov : TableGovernance) : ST unit :=
  _ ← RunSql (DeletePoliciesSql id);
  st_iter (fun p => RunSql (InsertPolicySql id p)) (row_access_policies gov).

Definition InsertColumnSql (id : TableId) (column_name : str) (col : ColumnGovernanceRecord) : str :=
  $"INSERT OR REPLACE INTO " ++ kColumnGovernanceTable ++ $" VALUES (" ++
  sql_text (project_id id) ++ $", " ++ sql_text (dataset_id id) ++ $", " ++ sql_text (table_id id) ++ $", " ++
  sql_text column_name ++ $", " ++ sql_text (JoinCsv (policy_tags col)) ++ $", '" ++
  MaskKindToString (mask_kind col) ++ $"', " ++ sql_text (JoinCsv (mask_grantees col)) ++ $", " ++
  sql_text (default_mask_value col) ++ $")".

Definition SaveColumnGovernance (id : TableId) (column_name : str) (col : ColumnGovernanceRecord) : ST unit :=
  RunSql (InsertColumnSql id column_name col).

Definition EnsureTableExistsUnlocked (id : TableId) : ST unit :=
  there ← exists_ (path_join (DatasetDir (project_id id) (dataset_id id)) (table_id id ++ kTableMetaSuffix));
  if negb there then fail (NotFoundError ($"table not found: " ++ table_name id)) else mret ().

Definition GetTableGovernance (id : TableId) : ST TableGovernance :=
  _ ← EnsureTableExistsUnlocked id;
  _ ← EnsureGovernanceTables;
  LoadTableGovernance id.

Definition PutTableGovernance (id : TableId) (gov : TableGovernance) : ST unit :=
  _ ← EnsureTableExistsUnlocked id;
  _ ← EnsureGovernanceTables;
  SaveRowAccessPolicies id gov.

(** The times of a policy that is written at [now_ms]. *)
Definition stamp_policy (now_ms : Z) (p : RowAccessPolicyRecord) : RowAccessPolicyRecord :=
  mkPolicy (policy_id p) (filter_predicate p) (grantees p)
    (if (creation_time_ms p =? 0)%Z then now_ms else creation_time_ms p) now_ms.

Fixpoint replace_policy (now_ms : Z) (p : RowAccessPolicyRecord) (l : list RowAccessPolicyRecord)
    : list RowAccessPolicyRecord :=
  match l with
  | [] => [stamp_policy now_ms p]
  | q :: l => if decide (policy_id q = policy_id p) then stamp_policy now_ms p :: l
              else q :: replace_policy now_ms p l
  end.

Definition UpsertRowAccessPolicy (now_ms : Z) (id : TableId) (p : RowAccessPolicyRecord) : ST unit :=
  gov ← GetTableGovernance id;
  SaveRowAccessPolicies id (mkGovernance (replace_policy now_ms p (row_access_policies gov)) (gov_columns gov)).

Definition DeleteRowAccessPolicy (id : TableId) (policy : str) : ST unit :=
  gov ← GetTableGovernance id;
  let kept := List.filter (fun p => negb (bool_decide (policy_id p = policy))) (row_access_policies gov) in
  if negb (existsb (fun p => bool_decide (policy_id p = policy)) (row_access_policies gov))
  then fail (NotFoundError ($"row access policy not found: " ++ policy))
  else SaveRowAccessPolicies id (mkGovernance kept (gov_columns gov)).

Definition SetColumnGovernance (id : TableId) (column_name : str) (col : ColumnGovernanceRecord) : ST unit :=
  _ ← EnsureTableExistsUnlocked id;
  _ ← EnsureGovernanceTables;
  SaveColumnGovernance id column_name col.

Definition RunDatasetScopedDelete (table : str) (id : DatasetId) : ST unit :=
  RunSql ($"DELETE FROM " ++ table ++ $" WHERE " ++ dataset_where id).

Definition InitCatalogTables : ST unit :=
  _ ← EnsureRoutinesTable;
  _ ← RunSql ($"CREATE TABLE IF NOT EXISTS main.__bqemu_views (" ++
    $"project_id VARCHAR NOT NULL, " ++ $"dataset_id VARCHAR NOT NULL, " ++
    $"view_id VARCHAR NOT NULL, " ++ $"ddl_sql VARCHAR NOT NULL, " ++
    $"PRIMARY KEY (project_id, dataset_id, view_id))");
  EnsureGovernanceTables.
End registry.
