(* ===== verification/CatalogStorage.v ===== *)
(** * CatalogStorage: datasets, tables and their tombstones on disk

    Models [backend/storage/duckdb/duckdb_storage_catalog.cc] (create, drop,
    restore and list datasets and tables, read a schema), the soft deletes of
    [duckdb_storage_version_log_tombstone.cc] and the registry snapshots of
    [duckdb_storage_tombstone_registry.cc] and
    [duckdb_storage_tombstone_registry_governance.cc].

    A dropped table moves to [.tombstones/<project.dataset>/<table>/<ms>/]; a
    dropped dataset leaves its metadata, its table manifest and a snapshot of
    its registry rows in [.tombstones/__dataset__/<project.dataset>/<ms>/].  The
    clock is an argument. *)

From S2P Require Import Prelude Order Absl Schema Storage DuckDbSql VersionLog SidecarJson FileTree Registry.

Section catalog.
Context `{AbslText} `{ProtoJson} `{DuckDb} (atoi_residue : str -> Z) (data_dir : str).

Abbreviation DatasetDir := (DatasetDir data_dir).
Abbreviation DatasetMetaPath := (DatasetMetaPath data_dir).
Abbreviation TableMetaPath := (TableMetaPathFromStorage data_dir).
Abbreviation TableParquetPath := (TableParquetPathFromStorage data_dir).

Definition dataset_dir (id : DatasetId) : str := DatasetDir (ds_project_id id) (ds_dataset_id id).
Definition table_dir (id : TableId) : str := DatasetDir (project_id id) (dataset_id id).

(** ** The newest tombstone *)

(** The directories of [root] that are named by a time, the newest of those
    not before [cutoff]. *)
Definition newest (times : list Z) : option Z :=
  fold_left (fun best t => match best with Some b => if (b <? t)%Z then Some t else best | None => Some t end)
    times None.

Definition tombstone_times (t : Tree) (root : str) : list Z :=
  match directory_iterator t root with
  | Err _ => []
  | Ok names => omap SimpleAtoi (List.filter (fun name => is_directory t (path_join root name)) names)
  end.

Definition TableTombstoneRoot (id : TableId) : str :=
  path_join (path_join (path_join data_dir $".tombstones")
    (DatasetTombstoneKey (mkDatasetId (project_id id) (dataset_id id)))) (table_id id).
Definition DatasetTombstoneRoot (id : DatasetId) : str :=
  path_join (path_join (path_join data_dir $".tombstones") $"__dataset__") (DatasetTombstoneKey id).

Definition LatestTombstoneMs (id : TableId) : ST Z :=
  let missing := NotFoundError ($"no tombstones for table " ++ table_name id) in
  there ← exists_ (TableTombstoneRoot id);
  if negb there then fail missing
  else times ← reads (fun s => tombstone_times (tree s) (TableTombstoneRoot id));
       match newest times with Some best => mret best | None => fail missing end.

Definition LatestDatasetTombstoneMs (now_ms : Z) (id : DatasetId) : ST Z :=
  let missing := NotFoundError ($"no tombstones for dataset " ++ dataset_name id) in
  there ← exists_ (DatasetTombstoneRoot id);
  if negb there then fail missing
  else times ← reads (fun s => tombstone_times (tree s) (DatasetTombstoneRoot id));
       match newest (List.filter (fun t => negb (t <? now_ms - kTimeTravelWindowMs)%Z) times) with
       | Some best => mret best
       | None => fail missing
       end.

Definition TombstoneRetentionOk (now_ms deleted_ms : Z) : StatusOr unit :=
  if (deleted_ms + kTimeTravelWindowMs <? now_ms)%Z
  then Err (NotFoundError $"tombstone is past the retention window")
  else Ok ().

(** ** Tables *)

Definition ListTableIdsInDatasetDir (ds_dir : str) : ST (list str) :=
  names ← list_or_nothing ds_dir;
  mret (stable_sort str_ltb
    (omap sidecar_table (List.filter (fun name => negb (bool_decide (name = kDatasetMetaFile))) names))).

(** A file or directory is moved when it is there. *)
Definition move_if_exists (src dest what : str) : ST unit :=
  there ← exists_ src;
  if negb there then mret () else tree_call (fun t => rename t src dest) what.

Definition MoveTableToTombstone (id : TableId) (deleted_ms : Z) : ST unit :=
  let tombstone_dir := TableTombstoneDir data_dir id deleted_ms in
  let move src :=
    let dest := path_join tombstone_dir (filename src) in
    move_if_exists src dest ($"failed to move " ++ src ++ $" -> " ++ dest) in
  let versions_dest := path_join tombstone_dir (table_id id ++ $".versions") in
  _ ← tree_call (fun t => make_dirs t tombstone_dir) ($"failed to create tombstone dir: " ++ tombstone_dir);
  _ ← move (TableMetaPath id);
  _ ← move (TableParquetPath id);
  _ ← move (TableVersionsIndexPath data_dir id);
  move_if_exists (TableVersionsDir data_dir id) versions_dest
    ($"failed to move versions dir to " ++ versions_dest).

Definition RestoreTableFromTombstone (id : TableId) (deleted_ms : Z) : ST unit :=
  chosen ← (if (deleted_ms =? 0)%Z then LatestTombstoneMs id else mret deleted_ms);
  let ds_dir := table_dir id in
  live ← exists_ (TableMetaPath id);
  if live : bool then fail (AlreadyExistsError ($"table already exists: " ++ table_name id))
  else
  let tombstone_dir := TableTombstoneDir data_dir id chosen in
  there ← exists_ tombstone_dir;
  if negb there
  then fail (NotFoundError ($"tombstone not found for table " ++ table_name id ++ $" at " ++ StrInt chosen))
  else
  _ ← tree_call (fun t => make_dirs t ds_dir) ($"failed to create dataset dir: " ++ ds_dir);
  let move name :=
    let src := path_join tombstone_dir name in
    let dest := path_join ds_dir name in
    move_if_exists src dest ($"failed to restore " ++ src ++ $" -> " ++ dest) in
  _ ← move (filename (table_id id ++ kTableMetaSuffix));
  _ ← move (filename (table_id id ++ $".parquet"));
  _ ← move (filename (table_id id ++ $".versions.json"));
  let versions_dest := path_join ds_dir (table_id id ++ $".versions") in
  _ ← move_if_exists (path_join tombstone_dir (table_id id ++ $".versions")) versions_dest
        ($"failed to restore versions dir to " ++ versions_dest);
  on_tree (fun t => (remove t tombstone_dir).1).

(** ** The registry rows of a dataset *)

Definition RenderObjects (l : list str) : str := $"[" ++ join_text $"," l ++ $"]".

Fixpoint governed_tables (id : DatasetId) (tables : list str) : ST (list (TableId * TableGovernance)) :=
  match tables with
  | [] => mret []
  | table :: tables =>
      let tid := mkTableId (ds_project_id id) (ds_dataset_id id) table in
      gov ← LoadTableGovernance tid;
      rest ← governed_tables id tables;
      mret match row_access_policies gov, gov_columns gov with
           | [], [] => rest
           | _, _ => (tid, gov) :: rest
           end
  end.

Definition SnapshotDatasetRegistryForTombstoneLocked (id : DatasetId) (tombstone_dir : str) : ST unit :=
  _ ← EnsureGovernanceTables;
  views ← QueryViewsForDataset id;
  _ ← write_file_atomic (path_join tombstone_dir $"views.json") (RenderObjects (map RenderViewRecordJson views));
  routines ← QueryRoutinesForDataset id;
  _ ← write_file_atomic (path_join tombstone_dir $"routines.json")
        (RenderObjects (map RenderRoutineRecordJson routines));
  tables ← ListTableIdsInDatasetDir (dataset_dir id);
  gov ← governed_tables id tables;
  write_file_atomic (path_join tombstone_dir $"governance.json") (RenderGovernanceSnapshotJson gov).

Definition PersistGovernance (tid : TableId) (gov : TableGovernance) : ST unit :=
  _ ← match row_access_policies gov with [] => mret () | _ => SaveRowAccessPolicies tid gov end;
  st_iter (fun c => SaveColumnGovernance tid c.1 c.2) (gov_columns gov).

Definition RestoreGovernanceFromSnapshotLocked (ds : DatasetId) (json : str) : ST unit :=
  st_iter (fun entry =>
      table ← lift (ParseJsonStringField entry $"table_id");
      PersistGovernance (mkTableId (ds_project_id ds) (ds_dataset_id ds) table)
        (mkGovernance (AppendRowAccessPolicies atoi_residue entry) (AppendColumnGovernance entry)))
    (SplitTopLevelJsonObjects json).

(** The objects of a file, when it is there. *)
Definition for_objects (path : str) (f : str -> ST unit) : ST unit :=
  there ← exists_ path;
  if negb there then mret ()
  else contents ← read_file path; st_iter f (SplitTopLevelJsonObjects contents).

Definition RestoreDatasetRegistryFromTombstoneLocked (id : DatasetId) (tombstone_dir : str) : ST unit :=
  _ ← EnsureGovernanceTables;
  _ ← for_objects (path_join tombstone_dir $"views.json")
        (fun entry => rec ← lift (ParseViewRecordJson entry id); UpsertViewLocked data_dir rec);
  _ ← for_objects (path_join tombstone_dir $"routines.json")
        (fun entry => rec ← lift (ParseRoutineRecordJson entry id); UpsertRoutineLocked rec);
  let gov_path := path_join tombstone_dir $"governance.json" in
  there ← exists_ gov_path;
  if negb there then mret ()
  else contents ← read_file gov_path; RestoreGovernanceFromSnapshotLocked id contents.

Definition PurgeDatasetRegistryRowsLocked (id : DatasetId) : ST unit :=
  _ ← RunDatasetScopedDelete kViewsTable id;
  _ ← RunDatasetScopedDelete kRoutinesTable id;
  _ ← RunDatasetScopedDelete kRowAccessPoliciesTable id;
  RunDatasetScopedDelete kColumnGovernanceTable id.

Definition GetDatasetRestMetadataJson (id : DatasetId) : ST str :=
  contents ← read_file (DatasetMetaPath id);
  mret (ExtractRestMetadataFromDatasetMetaJson contents).

(** ** Datasets *)

Definition MoveDatasetToTombstone (id : DatasetId) (deleted_ms : Z) (rest_metadata_json : str) : ST unit :=
  let ds_dir := dataset_dir id in
  let missing := NotFoundError ($"dataset not found: " ++ dataset_name id) in
  there ← exists_ ds_dir;
  if negb there then fail missing
  else
  let dataset_meta := path_join ds_dir kDatasetMetaFile in
  there ← exists_ dataset_meta;
  if negb there then fail missing
  else
  let tombstone_dir := DatasetTombstoneDir data_dir id deleted_ms in
  _ ← tree_call (fun t => make_dirs t tombstone_dir)
        ($"failed to create dataset tombstone dir: " ++ tombstone_dir);
  _ ← SnapshotDatasetRegistryForTombstoneLocked id tombstone_dir;
  meta ← read_file dataset_meta;
  let tomb_meta := match rest_metadata_json with
                   | [] => meta
                   | _ => MergeRestMetadataIntoDatasetMetaJson meta rest_metadata_json
                   end in
  _ ← write_file_atomic (path_join tombstone_dir kDatasetMetaFile) tomb_meta;
  table_ids ← ListTableIdsInDatasetDir ds_dir;
  _ ← write_file_atomic (path_join tombstone_dir $"tables.json") (RenderTablesManifestJson table_ids);
  _ ← st_iter (fun table =>
        MoveTableToTombstone (mkTableId (ds_project_id id) (ds_dataset_id id) table) deleted_ms) table_ids;
  _ ← PurgeDatasetRegistryRowsLocked id;
  tree_call (fun t => remove_all t ds_dir) ($"failed to remove dataset dir: " ++ ds_dir).

Definition RestoreDatasetFromTombstone (now_ms : Z) (id : DatasetId) (deleted_ms : Z) : ST unit :=
  let live_dir := dataset_dir id in
  let live_meta := path_join live_dir kDatasetMetaFile in
  live ← exists_ live_meta;
  if live : bool then fail (AlreadyExistsError ($"dataset already exists: " ++ dataset_name id))
  else
  chosen ← (if (deleted_ms =? 0)%Z then LatestDatasetTombstoneMs now_ms id else mret deleted_ms);
  _ ← lift (TombstoneRetentionOk now_ms chosen);
  let tombstone_dir := DatasetTombstoneDir data_dir id chosen in
  there ← exists_ tombstone_dir;
  if negb there
  then fail (NotFoundError ($"tombstone not found for dataset " ++ dataset_name id ++ $" at " ++ StrInt chosen))
  else
  meta ← read_file (path_join tombstone_dir kDatasetMetaFile);
  manifest ← read_file (path_join tombstone_dir $"tables.json");
  _ ← tree_call (fun t => make_dirs t live_dir) ($"failed to create dataset dir: " ++ live_dir);
  _ ← write_file_atomic live_meta meta;
  _ ← st_iter (fun table =>
        RestoreTableFromTombstone (mkTableId (ds_project_id id) (ds_dataset_id id) table) chosen)
        (ParseTablesManifestJson manifest);
  _ ← RestoreDatasetRegistryFromTombstoneLocked id tombstone_dir;
  tree_call (fun t => remove_all t tombstone_dir)
    ($"failed to remove dataset tombstone dir: " ++ tombstone_dir).

(** ** The operations of the storage *)

Definition CreateDataset (id : DatasetId) (location : str) : ST unit :=
  if bool_decide (ds_project_id id = []) || bool_decide (ds_dataset_id id = [])
  then fail (InvalidArgumentError $"CreateDataset: project_id and dataset_id must be non-empty")
  else
  let ds_dir := dataset_dir id in
  there ← exists_ ds_dir;
  if there : bool then fail (AlreadyExistsError ($"dataset already exists: " ++ dataset_name id))
  else
  _ ← tree_call (fun t => make_dirs t ds_dir) ($"failed to create dataset dir: " ++ ds_dir);
  meta ← try_ (write_file_atomic (DatasetMetaPath id) (RenderDatasetMetaJson location));
  match meta with
  | Err e => _ ← on_tree (fun t => (remove_all t ds_dir).1); fail e
  | Ok _ =>
      made ← try_ (RunSql ($"CREATE SCHEMA IF NOT EXISTS " ++ QuoteIdent (DuckDBSchemaName id)));
      match made with
      | Err e => _ ← on_tree (fun t => (remove_all t ds_dir).1); fail e
      | Ok _ => mret ()
      end
  end.

(** [path.extension() == ".parquet"]: the last dot is not the first byte. *)
Definition is_parquet (name : str) : bool :=
  match rfind_sub $"." name with
  | Some (_ :: _, ext) => bool_decide (ext = $"parquet")
  | _ => false
  end.

(** Whether an entry of a dataset's directory belongs to a table. *)
Definition table_entry (name : str) : bool :=
  negb (bool_decide (name = kDatasetMetaFile)) &&
  (match sidecar_table name with Some _ => true | None => false end || is_parquet name).

Definition DropDataset (now_ms : Z) (id : DatasetId) (delete_contents : bool) (rest_metadata_json : str)
    : ST unit :=
  let ds_dir := dataset_dir id in
  there ← exists_ ds_dir;
  if negb there then fail (NotFoundError ($"dataset not found: " ++ dataset_name id))
  else
  entries ← reads (fun s => directory_iterator (tree s) ds_dir);
  match entries with
  | Err m => fail (FilesystemStatus ($"failed to enumerate dataset dir: " ++ ds_dir) m)
  | Ok names =>
      if existsb table_entry names && negb delete_contents
      then fail (FailedPreconditionError ($"dataset is not empty: " ++ dataset_name id ++
                   $" (use delete_contents=true to drop with tables)"))
      else
      _ ← MoveDatasetToTombstone id now_ms rest_metadata_json;
      RunSql ($"DROP SCHEMA IF EXISTS " ++ QuoteIdent (DuckDBSchemaName id) ++ $" CASCADE")
  end.

Definition RestoreDataset (now_ms : Z) (id : DatasetId) (deleted_ms : Z) : ST unit :=
  _ ← RestoreDatasetFromTombstone now_ms id deleted_ms;
  RunSql ($"CREATE SCHEMA IF NOT EXISTS " ++ QuoteIdent (DuckDBSchemaName id)).

Definition ListDatasets (project : str) : ST (list DatasetId) :=
  match project with
  | [] => fail (InvalidArgumentError $"ListDatasets: project_id must be non-empty")
  | _ =>
      let project_dir := path_join data_dir project in
      there ← exists_ project_dir;
      if negb there then mret []
      else
      entries ← reads (fun s => directory_iterator (tree s) project_dir);
      match entries with
      | Err m => fail (FilesystemStatus ($"failed to enumerate project dir: " ++ project_dir) m)
      | Ok names =>
          found ← reads (fun s => List.filter (fun name =>
              is_directory (tree s) (path_join project_dir name) &&
              path_exists (tree s) (path_join (path_join project_dir name) kDatasetMetaFile)) names);
          mret (map (mkDatasetId project) (stable_sort str_ltb found))
      end
  end.

Definition start_version_log (id : TableId) (created : Z) : ST unit := fun s =>
  let '(d, r) := InitVersionIndex data_dir (disk (tree s)) id created in
  (mkStore (with_disk (tree s) d) (conn s), r).

(** The sidecar first, then an empty Parquet file laid out through a temporary
    table when the schema has columns to store, then the version index. *)
Definition CreateTable (now_ms : Z) (id : TableId) (sch : TableSchema) : ST unit :=
  match table_id id with
  | [] => fail (InvalidArgumentError $"CreateTable: table_id must be non-empty")
  | _ =>
  there ← exists_ (table_dir id);
  if negb there
  then fail (NotFoundError ($"dataset not found: " ++ dotted [project_id id; dataset_id id]))
  else
  let meta_path := TableMetaPath id in
  live ← exists_ meta_path;
  if live : bool then fail (AlreadyExistsError ($"table already exists: " ++ table_name id))
  else
  meta ← lift (RenderTableMetaJson sch);
  _ ← write_file_atomic meta_path meta;
  let physical := ParquetStorageSchema sch in
  if bool_decide (columns sch = []) || bool_decide (columns physical = []) then mret ()
  else
  let tmp_table := $"main.__bqemu_mkempty" in
  let parquet_path := TableParquetPath id in
  made ← try_ (RunSql ($"CREATE OR REPLACE TEMP TABLE " ++ tmp_table ++ $" " ++ RenderColumnList physical));
  match made with
  | Err e => _ ← on_tree (fun t => (remove t meta_path).1); fail e
  | Ok _ =>
      copied ← try_ (RunSql ($"COPY " ++ tmp_table ++ $" TO '" ++ EscapeStringLiteralInner parquet_path ++
                       $"' (FORMAT PARQUET)"));
      dropped ← try_ (RunSql ($"DROP TABLE " ++ tmp_table));
      match copied with
      | Err e =>
          _ ← on_tree (fun t => (remove t meta_path).1);
          _ ← on_tree (fun t => (remove t parquet_path).1);
          fail e
      | Ok _ =>
          _ ← lift dropped;
          start_version_log id now_ms
      end
  end
  end.

Definition ListTables (id : DatasetId) : ST (list TableId) :=
  if bool_decide (ds_project_id id = []) || bool_decide (ds_dataset_id id = [])
  then fail (InvalidArgumentError $"ListTables: project_id and dataset_id must be non-empty")
  else
  let ds_dir := dataset_dir id in
  there ← exists_ ds_dir;
  if negb there then fail (NotFoundError ($"dataset not found: " ++ dataset_name id))
  else
  entries ← reads (fun s => directory_iterator (tree s) ds_dir);
  match entries with
  | Err m => fail (FilesystemStatus ($"failed to enumerate dataset dir: " ++ ds_dir) m)
  | Ok names =>
      mret (map (mkTableId (ds_project_id id) (ds_dataset_id id)) (stable_sort str_ltb
        (omap sidecar_table (List.filter (fun name => negb (bool_decide (name = kDatasetMetaFile))) names))))
  end.

(** The checks that [DropTable] and [GetSchema] start with. *)
Definition find_table (id : TableId) : ST unit :=
  there ← exists_ (table_dir id);
  if negb there
  then fail (NotFoundError ($"dataset not found: " ++ dotted [project_id id; dataset_id id]))
  else live ← exists_ (TableMetaPath id);
       if negb live then fail (NotFoundError ($"table not found: " ++ table_name id)) else mret ().

Definition DropTable (now_ms : Z) (id : TableId) : ST unit :=
  _ ← find_table id;
  MoveTableToTombstone id now_ms.

Definition RestoreTable (id : TableId) (deleted_ms : Z) : ST unit := RestoreTableFromTombstone id deleted_ms.

Definition GetSchema (id : TableId) : ST TableSchema :=
  _ ← find_table id;
  contents ← read_file (TableMetaPath id);
  if EqualsIgnoreCase (table_type (ParseTableResourceInfo contents)) $"VIEW"
  then fail (NotFoundError ($"logical view has no physical " ++ $"schema: " ++ table_name id))
  else lift (ParseTableMetaJson contents).

(** Opening a storage over a directory, given the database the file holds. *)
Definition Open (t : Tree) (database : db) : Store * StatusOr unit :=
  match data_dir with
  | [] => (mkStore t database, Err (InvalidArgumentError $"DuckDBStorage::Open: data_dir must be non-empty"))
  | _ =>
      match make_dirs t data_dir with
      | (t, Some m) =>
          (mkStore t database, Err (FailedPreconditionError
             ($"DuckDBStorage::Open: could not create data_dir " ++ data_dir ++ $": " ++ m)))
      | (t, None) => InitCatalogTables (mkStore t database)
      end
  end.
End catalog.
