(* ===== verification/CatalogProps.v ===== *)
(** * CatalogProps: dropping and restoring keeps the data

    A dropped table comes back with every file it had, its version log
    included; a restored dataset gets its views and routines back through the
    statements of their registry, with the control characters of their texts
    turned into letters, and no row access policy. *)

From S2P Require Import Prelude Order Absl AbslReference Schema Storage DuckDbSql VersionLog SidecarJson SidecarProps FileTree Registry CatalogStorage.

(** ** Moves of a tree *)

Definition healthy_tree (t : Tree) : Prop := forall p, faults (disk t) p = None.

(** Every path of the tree that is a file or a directory. *)
Definition in_tree (F : gmap str str) (D : gset str) (k : str) : Prop := is_Some (F !! k) \/ k ∈ D.

(** The tree holds the files [F] and the directories [D] after the moves
    [fs]. *)
Record moved (F : gmap str str) (D : gset str) (fs : list (str -> str)) (t : Tree) : Prop := {
  moved_healthy : healthy_tree t;
  moved_files : tree_files t = rekey (through fs) F;
  moved_dirs : dirs t = set_map (through fs) D;
}.

Section moves.
Context `{DuckDb} (F : gmap str str) (D : gset str).

Lemma moved_exists fs t k : moved F D fs t -> inj_on (through fs) F ->
  path_exists t k = true <-> exists i, in_tree F D i /\ k = through fs i.
Proof.
  intros M I. unfold path_exists, exists_file. change (files (disk t)) with (tree_files t).
  rewrite (moved_files _ _ _ _ M), (moved_dirs _ _ _ _ M), orb_true_iff, bool_decide_eq_true. split.
  - intros [E|E].
    + destruct (rekey (through fs) F !! k) as [v|] eqn:L; [|done].
      apply rekey_Some in L as (i & -> & L). exists i. split; [left; by eexists|done].
    + apply elem_of_map in E as (i & -> & E). exists i. split; [by right|done].
  - intros (i & [[v L]|E] & ->).
    + left. by rewrite (rekey_lookup (through fs) F i v).
    + right. apply elem_of_map. by exists i.
Qed.

Lemma filter_nothing (to : str) (m : gmap str str) :
  (forall k, is_Some (m !! k) -> under to k = false) -> base.filter (fun kv => under to kv.1 = false) m = m.
Proof.
  intros N. apply map_filter_id. intros k v L. apply N. by eexists.
Qed.

Lemma rename_free t from to :
  healthy_tree t -> path_exists t from = true ->
  (forall k, is_Some (tree_files t !! k) -> under to k = false) ->
  (forall k, k ∈ dirs t -> under to k = false) ->
  rename t from to =
    (mkTree (mkDisk (rekey (move_key from to) (tree_files t)) (faults (disk t)))
       (set_map (move_key from to) (dirs t)), None).
Proof.
  intros Hh E NF ND. pose proof (under_refl to) as U.
  assert (is_directory t to = false) as D1.
  { apply bool_decide_eq_false. intros H2. by rewrite ND in U. }
  assert (exists_file (disk t) to = false) as D2.
  { unfold exists_file. destruct (files (disk t) !! to) eqn:L; [|done]. by rewrite NF in U by (by eexists). }
  unfold rename. rewrite Hh, E, D1, D2, andb_false_r. cbn [negb andb]. f_equal. f_equal.
  - by rewrite filter_nothing.
  - f_equal. apply set_eq. intros k. rewrite elem_of_filter. naive_solver.
Qed.

Lemma st_exists {A} p (k : bool -> ST A) s : (exists_ p ≫= k) s = k (path_exists (tree s) p) s.
Proof. done. Qed.

(** One move of a part of the tree to a place where there is nothing. *)
Lemma move_step fs gs from to what s :
  moved F D fs (tree s) ->
  (forall k, in_tree F D k -> under to (through fs k) = false) ->
  (forall k, in_tree F D k -> under from (through fs k) = true -> path_exists (tree s) from = true) ->
  (forall k, is_Some (F !! k) -> through (fs ++ move_key from to :: gs) k = k) ->
  exists t, move_if_exists from to what s = (mkStore t (conn s), Ok ()) /\
    moved F D (fs ++ [move_key from to]) t.
Proof.
  intros M T R B.
  assert (inj_on (through (fs ++ [move_key from to])) F) as I'.
  { intros k k' K K' E. rewrite <- (B k K), <- (B k' K').
    replace (fs ++ move_key from to :: gs) with ((fs ++ [move_key from to]) ++ gs) by (by rewrite <- app_assoc).
    rewrite !(through_app (fs ++ [_])). by rewrite E. }
  assert (inj_on (through fs) F) as I.
  { intros k k' K K' E. apply I'; [done..|]. by rewrite !through_app, E. }
  assert (rekey (through (fs ++ [move_key from to])) F = rekey (move_key from to) (tree_files (tree s))) as EF.
  { rewrite (moved_files _ _ _ _ M), rekey_compose by (intros k k' K K' E; apply I'; [done..|]; by rewrite !through_app).
    symmetry. unfold rekey. f_equal. apply map_ext. intros [k v]. by rewrite through_app. }
  assert (set_map (D := gset str) (through (fs ++ [move_key from to])) D =
          set_map (move_key from to) (dirs (tree s))) as ED.
  { rewrite (moved_dirs _ _ _ _ M). apply set_eq. intros k. rewrite !elem_of_map. split.
    - intros (i & -> & Hi). rewrite through_app. eexists. split; [done|]. apply elem_of_map. by exists i.
    - intros (j & -> & (i & -> & Hi)%elem_of_map). exists i. by rewrite through_app. }
  assert (forall k, is_Some (tree_files (tree s) !! k) -> exists i, is_Some (F !! i) /\ k = through fs i) as KF.
  { rewrite (moved_files _ _ _ _ M). intros k [v (i & -> & L)%rekey_Some]. exists i. split; [by eexists|done]. }
  assert (forall k, k ∈ dirs (tree s) -> exists i, i ∈ D /\ k = through fs i) as KD.
  { rewrite (moved_dirs _ _ _ _ M). intros k (i & -> & L)%elem_of_map. by exists i. }
  unfold move_if_exists. rewrite st_exists. destruct (path_exists (tree s) from) eqn:E; cbn [negb].
  - unfold tree_call. rewrite rename_free; [|apply M|done|..].
    + eexists. split; [reflexivity|]. split; [apply M|by rewrite EF|by rewrite ED].
    + intros k (i & Hi & ->)%KF. apply T. by left.
    + intros k (i & Hi & ->)%KD. apply T. by right.
  - assert (forall i, in_tree F D i -> move_key from to (through fs i) = through fs i) as K.
    { intros i Hi. apply move_key_other. destruct (under from (through fs i)) eqn:U; [|done].
      specialize (R i Hi U). congruence. }
    exists (tree s). split; [by destruct s|]. split; [apply M|..].
    + rewrite EF. symmetry. apply rekey_id. intros k (i & Hi & ->)%KF. apply K. by left.
    + rewrite ED. apply set_eq. intros k. rewrite elem_of_map. split.
      * intros Hk. exists k. split; [|done]. destruct (KD k Hk) as (i & Hi & ->). symmetry. apply K. by right.
      * intros (j & -> & Hj). destruct (KD j Hj) as (i & Hi & ->). rewrite K; [done|by right].
Qed.

(** Roots to move, none of whose targets exists, and under whose sources there
    is something only when they exist. *)
Record movable (pairs : list (str * str)) : Prop := {
  mv_separated : separated pairs;
  mv_free p k : p ∈ pairs -> in_tree F D k -> under p.2 k = false;
  mv_rooted p k : p ∈ pairs -> in_tree F D k -> under p.1 k = true -> in_tree F D p.1;
}.

Lemma undone pairs k : movable pairs -> in_tree F D k -> through (there pairs ++ back pairs) k = k.
Proof.
  intros M K. apply there_and_back; [apply M|]. apply Forall_forall. intros p Hp. by apply (mv_free pairs).
Qed.

(** The files after the moves: those under a moved root are under its target, with
    their bytes, and nowhere else; the others are where they were. *)
Lemma moved_inj pairs : movable pairs -> inj_on (through (there pairs)) F.
Proof.
  intros M k k' K K' E. rewrite <- (undone _ k M), <- (undone _ k' M) by (by left). by rewrite !through_app, E.
Qed.

Lemma moved_source pairs t p r : movable pairs -> moved F D (there pairs) t -> p ∈ pairs -> tail_ok r ->
  tree_files t !! (p.1 ++ r) = None.
Proof.
  intros Mv M Hp R. rewrite (moved_files _ _ _ _ M). destruct (rekey _ _ !! _) as [v|] eqn:L; [|done]. exfalso.
  pose proof (mv_separated _ Mv) as S. apply rekey_Some in L as (i & E & L).
  destruct (there_cases pairs i S) as [[A Ei]|(q & r' & Hq & R' & -> & Ei)]; rewrite Ei in E.
  - rewrite <- E, Forall_forall in A. specialize (A p Hp). by rewrite under_app in A.
  - pose proof (sep_cross _ S p q Hp Hq _ (under_app p.1 r R)) as U. by rewrite E, under_app in U.
Qed.

Lemma moved_target pairs t p r : movable pairs -> moved F D (there pairs) t -> p ∈ pairs -> tail_ok r ->
  tree_files t !! (p.2 ++ r) = F !! (p.1 ++ r).
Proof.
  intros Mv M Hp R. rewrite (moved_files _ _ _ _ M). pose proof (mv_separated _ Mv) as S.
  apply option_eq. intros v. split.
  - intros (i & E & L)%rekey_Some.
    destruct (there_cases pairs i S) as [[A Ei]|(q & r' & Hq & R' & -> & Ei)]; rewrite Ei in E.
    + exfalso. pose proof (mv_free _ Mv p i Hp ltac:(left; by eexists)) as U. by rewrite <- E, under_app in U.
    + destruct (decide (p = q)) as [->|N]; [by apply app_inv_head in E as ->|]. exfalso.
      pose proof (sep_to _ S p q Hp Hq N _ (under_app p.2 r R)) as U. by rewrite E, under_app in U.
  - intros L. assert (through (there pairs) (p.1 ++ r) = p.2 ++ r) as <-; [|by apply rekey_lookup, L; apply moved_inj].
    destruct p as [a b]. apply list_elem_of_split in Hp as (p1 & p2 & ->).
    by apply there_back_one; [|apply separated_others].
Qed.

Lemma moved_others pairs t k : movable pairs -> moved F D (there pairs) t ->
  (forall p, p ∈ pairs -> under p.1 k = false /\ under p.2 k = false) -> tree_files t !! k = F !! k.
Proof.
  intros Mv M U. rewrite (moved_files _ _ _ _ M). apply option_eq. intros v. split.
  - intros (i & E & L)%rekey_Some. destruct (there_cases pairs i (mv_separated _ Mv)) as [[_ Ei]|(q & r & Hq & R & _ & Ei)].
    + congruence.
    + destruct (U q Hq) as [_ T]. rewrite E, Ei, under_app in T; done.
  - intros L. assert (through (there pairs) k = k) as <-; [|by apply rekey_lookup, L; apply moved_inj].
    apply there_other, Forall_forall. intros p Hp. by apply U.
Qed.

Lemma there_app l1 l2 : there (l1 ++ l2) = there l1 ++ there l2.
Proof. apply map_app. Qed.
Lemma back_app l1 l2 : back (l1 ++ l2) = back l1 ++ back l2.
Proof. apply map_app. Qed.

Lemma forward_step done a b todo what s :
  movable (done ++ (a, b) :: todo) -> moved F D (there done) (tree s) ->
  exists t, move_if_exists a b what s = (mkStore t (conn s), Ok ()) /\
    moved F D (there (done ++ [(a, b)])) t.
Proof.
  intros Mv M. set (pairs := done ++ (a, b) :: todo) in *.
  assert ((a, b) ∈ pairs) as P by set_solver. assert (forall p, p ∈ done -> p ∈ pairs) as Q by set_solver.
  pose proof (separated_others _ _ _ _ (mv_separated _ Mv)) as O. apply Forall_app in O as [O _].
  rewrite Forall_forall in O.
  assert (inj_on (through (there done)) F) as I.
  { intros k k' K K' E. rewrite <- (undone pairs k), <- (undone pairs k') by (done || by left).
    unfold pairs. rewrite there_app, <- !app_assoc, !(through_app (there done)). by rewrite E. }
  assert (forall k, in_tree F D k -> through (there done) k = k \/
    exists p r, p ∈ done /\ tail_ok r /\ through (there done) k = p.2 ++ r) as C.
  { intros k K. destruct (there_cases done k (separated_app_l _ _ (mv_separated _ Mv))) as
      [[_ ->]|(p & r & Hp & R & _ & E)]; [by left|right; by exists p, r]. }
  rewrite there_app. apply (move_step _ (there todo ++ back pairs)); [done|..].
  - intros k K. destruct (C k K) as [->|(p & r & Hp & R & ->)]; [by apply (mv_free _ Mv (a, b))|].
    destruct (O p Hp) as (? & ? & ? & ?). by apply apart_app; [apply apart_sym|].
  - intros k K U. apply (moved_exists _ _ _ M I). exists a. destruct (C k K) as [E|(p & r & Hp & R & E)].
    + rewrite E in U. split; [by apply (mv_rooted _ Mv (a, b) k)|]. symmetry. apply there_other.
      apply Forall_forall. intros p Hp. destruct (O p Hp) as (A & _ & _ & _).
      rewrite <- (app_nil_r a). apply apart_app; [done|by left].
    + rewrite E in U. destruct (O p Hp) as (_ & A & _ & _). apply apart_sym in A.
      by rewrite apart_app in U.
  - intros k K. rewrite <- (undone pairs k) at 2 by (done || by left). f_equal.
    unfold pairs. rewrite there_app, <- !app_assoc. done.
Qed.

Lemma backward_step done a b todo what s :
  let pairs := done ++ (a, b) :: todo in
  movable pairs -> moved F D (there pairs ++ back done) (tree s) ->
  exists t, move_if_exists b a what s = (mkStore t (conn s), Ok ()) /\
    moved F D (there pairs ++ back (done ++ [(a, b)])) t.
Proof.
  intros pairs Mv M. assert ((a, b) ∈ pairs) as P by set_solver.
  assert (forall p, p ∈ done -> p ∈ pairs) as Q by set_solver.
  pose proof (mv_separated _ Mv) as S. pose proof (separated_app_l _ _ S) as Sd.
  assert (forall p r, p ∈ pairs -> (p ∉ done) -> tail_ok r -> through (back done) (p.2 ++ r) = p.2 ++ r) as KB.
  { intros p r Hp Nd R. apply back_other, Forall_forall. intros q Hq.
    apply apart_app; [|done]. apply (sep_to _ S); [done|by apply Q|]. by intros ->. }
  assert (forall k, in_tree F D k ->
    (through (there pairs ++ back done) k = k /\ (under a k = false)) \/
    exists p r, p ∈ pairs /\ (p ∉ done) /\ tail_ok r /\ k = p.1 ++ r /\
      through (there pairs ++ back done) k = p.2 ++ r) as C.
  { intros k K. rewrite through_app. destruct (there_cases pairs k S) as [[A ->]|(p & r & Hp & R & -> & ->)].
    - left. split; [|by rewrite Forall_forall in A; apply (A (a, b))].
      apply back_other, Forall_forall. intros q Hq. by apply (mv_free _ Mv); [apply Q|].
    - destruct (decide (p ∈ done)) as [Hd|Hd].
      + left. split; [by apply back_one|]. apply apart_app; [|done]. apply (sep_from _ S p (a, b)); [done..|].
        intros ->. pose proof (sep_NoDup _ S) as N. apply NoDup_app in N as (_ & N & _). apply (N (a, b)); set_solver.
      + right. exists p, r. split_and!; try done. by apply KB. }
  assert ((a, b) ∉ done) as Nd.
  { pose proof (sep_NoDup _ S) as N. apply NoDup_app in N as (_ & N & _). intros Hd. apply (N (a, b)); set_solver. }
  assert (inj_on (through (there pairs ++ back done)) F) as I.
  { intros k k' K K' E. rewrite <- (undone pairs k), <- (undone pairs k') by (done || by left).
    unfold pairs at 2 4. rewrite back_app, !app_assoc, !(through_app (there _ ++ back done)). by rewrite E. }
  rewrite back_app, app_assoc. apply (move_step _ (back todo)); [done|..].
  - intros k K. destruct (C k K) as [[-> A]|(p & r & Hp & _ & R & _ & ->)]; [done|].
    apply apart_app; [|done]. apply apart_sym. by apply (sep_cross _ S (a, b) p).
  - intros k K U. apply (moved_exists _ _ _ M I). exists a.
    destruct (C k K) as [[E _]|(p & r & Hp & Np & R & -> & E)].
    + rewrite E in U. by rewrite (mv_free _ Mv (a, b) k P K : under b k = false) in U.
    + rewrite E in U. destruct (decide (p = (a, b))) as [->|N].
      * split; [apply (mv_rooted _ Mv (a, b) (a ++ r)); [done..|by apply under_app]|].
        rewrite through_app. rewrite <- (app_nil_r a) at 1.
        destruct (there_back_one done a b todo []) as [E' _]; [by left|by apply separated_others|].
        fold pairs in E'. rewrite E'.
        rewrite (KB (a, b) [] P Nd (or_introl eq_refl) : through (back done) (b ++ []) = _).
        by rewrite app_nil_r.
      * rewrite apart_app in U; [done| |done]. by apply (sep_to _ S p (a, b)).
  - intros k K. rewrite <- (undone pairs k) at 2 by (done || by left). f_equal.
    unfold pairs. rewrite back_app, <- !app_assoc. done.
Qed.
End moves.

(** ** Paths of a table and of its tombstone *)

Ltac reassociate := cbn [app]; repeat (rewrite <- app_assoc; cbn [app]).

(** A name that is one component of a path. *)
Definition component (n : str) : Prop := n <> [] /\ ("/"%char ∉ n).

Lemma join_component base n : component n -> path_join base n = dir_prefix base ++ n.
Proof.
  intros [N S]. destruct n as [|c r]; [done|]. apply path_join_relative. intros ->. set_solver.
Qed.

Lemma dir_prefix_component a n : component n -> dir_prefix (a ++ n) = a ++ n ++ ["/"%char].
Proof.
  intros [N S]. unfold dir_prefix. destruct n as [|c n] using rev_ind; [done|].
  rewrite app_assoc, last_snoc. rewrite <- !app_assoc.
  assert (c <> "/"%char) as C by (intros ->; set_solver).
  by destruct c as [[] [] [] [] [] [] [] []].
Qed.

Lemma component_app n s : component n -> ("/"%char ∉ s) -> component (n ++ s).
Proof. intros [N S] T. split; [by destruct n|]. set_solver. Qed.

Lemma filename_last a n : "/"%char ∉ n -> filename (a ++ "/"%char :: n) = n.
Proof.
  intros N. unfold filename. destruct (rfind_sub $"/" (a ++ "/"%char :: n)) as [[b m]|] eqn:E.
  - pose proof (rfind_sub_Some _ _ _ _ E) as E1. pose proof (rfind_sub_last _ _ _ _ a n E eq_refl) as L.
    assert (a ++ ["/"%char] ++ n = b ++ ["/"%char] ++ m) as E2 by exact E1.
    apply app_eq_inv in E2 as [(k & E3 & E4)|(k & E3 & E4)].
    + destruct k as [|c k]; [by injection E4|].
      apply (f_equal length) in E3. rewrite length_app in E3. simpl in E3. lia.
    + destruct k as [|c k]; [by injection E4|]. injection E4 as _ ->. set_solver.
  - exfalso. apply (rfind_sub_None _ _ E). by exists a, n.
Qed.

Lemma filename_component n : component n -> filename n = n.
Proof.
  intros [N S]. unfold filename. destruct (rfind_sub $"/" n) as [[b m]|] eqn:E; [|done].
  apply rfind_sub_Some in E. subst n. set_solver.
Qed.

Lemma under_length a k : under a k = true -> length a <= length k.
Proof. intros (r & [-> _]%strip_root_Some)%under_true. rewrite length_app. lia. Qed.

Lemma under_trans a b k : under a b = true -> under b k = true -> under a k = true.
Proof.
  intros (r & [-> R]%strip_root_Some)%under_true (r' & [-> R']%strip_root_Some)%under_true.
  rewrite <- app_assoc. apply under_app. destruct R as [->|[t ->]]; [done|right; by eexists].
Qed.

Lemma under_cancel a x y : under (a ++ x) (a ++ y) = under x y.
Proof.
  unfold under, strip_root. assert (strip_prefix (a ++ x) (a ++ y) = strip_prefix x y) as ->; [|done].
  induction a as [|c a IH]; [done|]. cbn. by rewrite decide_True.
Qed.

Lemma ancestors_from_spec before after a :
  a ∈ ancestors_from before after ->
  exists x r, after = x ++ "/"%char :: r /\ a = before ++ x.
Proof.
  revert before. induction after as [|c after IH]; intros before; [set_solver|]. cbn.
  case_decide as C; [destruct before as [|b before]; [|rewrite elem_of_cons]|].
  - intros (x & r & -> & ->)%IH. exists (c :: x), r. by subst.
  - intros [->|(x & r & -> & ->)%IH]; [exists [], after; split; [by subst|by rewrite app_nil_r]|].
    exists (c :: x), r. split; [done|]. by rewrite <- app_assoc.
  - intros (x & r & -> & ->)%IH. exists (c :: x), r. split; [done|]. by rewrite <- app_assoc.
Qed.

Lemma ancestors_under p a : a ∈ ancestors p -> under a p = true /\ length a < length p.
Proof.
  intros (x & r & -> & ->)%ancestors_from_spec. cbn. split; [apply under_app; right; by eexists|].
  rewrite length_app. simpl. lia.
Qed.

Lemma ancestors_from_elem x before r :
  before ++ x <> [] -> before ++ x ∈ ancestors_from before (x ++ "/"%char :: r).
Proof.
  revert before. induction x as [|c x IH]; intros before N; cbn.
  - rewrite app_nil_r in *. destruct before; [done|]. set_solver.
  - case_decide; [destruct before as [|b before]|].
    + apply (IH [c]). done.
    + apply list_elem_of_further. rewrite (app_assoc (b :: before) [c] x : (b :: before) ++ c :: x = _).
      apply IH. done.
    + rewrite (app_assoc before [c] x : before ++ c :: x = _). apply IH. by destruct before.
Qed.

Lemma ancestors_elem a r : a <> [] -> a ∈ ancestors (a ++ "/"%char :: r).
Proof. intros N. by apply (ancestors_from_elem a []). Qed.

Definition table_suffixes : list str := [$".meta.json"; $".parquet"; $".versions.json"; $".versions"].

Section table.
Context `{AbslTextLaws} (data_dir : str).

(** Identifiers whose parts are file names; the tombstones are not a project. *)
Record table_ok (id : TableId) : Prop := {
  ok_project : component (project_id id);
  ok_dataset : component (dataset_id id);
  ok_table : component (table_id id);
  ok_tombstones : project_id id <> $".tombstones";
}.

Context (id : TableId) (Hid : table_ok id).

(** The files of the table start with this text, those of its tombstone with
    the next one. *)
Definition live_stem : str :=
  dir_prefix data_dir ++ project_id id ++ "/"%char :: dataset_id id ++ "/"%char :: table_id id.
Definition tomb_rest (ms : Z) : str :=
  (project_id id ++ $"." ++ dataset_id id) ++ "/"%char :: table_id id ++ "/"%char :: StrInt ms.
Definition tomb_stem (ms : Z) : str :=
  dir_prefix data_dir ++ $".tombstones" ++ "/"%char :: tomb_rest ms ++ "/"%char :: table_id id.

Lemma literal_component l : l <> [] -> forallb (fun c => negb (Ascii.eqb c "/"%char)) l = true -> component l.
Proof. intros N F. split; [done|]. by apply literal_without. Qed.

Lemma StrInt_component z : component (StrInt z).
Proof. split; [apply StrInt_nonempty|]. apply StrInt_no_char; [by rewrite isdigit_ref|done]. Qed.

(** A path that ends in a file name. *)
Definition named (x : str) : Prop := exists a n, x = a ++ n /\ component n.

Lemma named_join a n : component n -> named (a ++ "/"%char :: n).
Proof. intros N. exists (a ++ ["/"%char]), n. by rewrite <- app_assoc. Qed.

Lemma join_below x m : named x -> component m -> path_join x m = x ++ "/"%char :: m.
Proof.
  intros (a & n & -> & N) M. rewrite join_component, dir_prefix_component by done. by rewrite <- !app_assoc.
Qed.

Lemma live_dir_text : DatasetDirFromStorage data_dir id =
  dir_prefix data_dir ++ project_id id ++ "/"%char :: dataset_id id.
Proof.
  destruct Hid. unfold DatasetDirFromStorage.
  rewrite (join_component data_dir), join_below by first [done|by eexists _, _]. by rewrite <- app_assoc.
Qed.

Lemma live_path_text s : "/"%char ∉ s ->
  path_join (DatasetDirFromStorage data_dir id) (table_id id ++ s) = live_stem ++ s.
Proof.
  intros S. destruct Hid. rewrite live_dir_text, join_below.
  - unfold live_stem. by reassociate.
  - rewrite app_assoc. by apply named_join.
  - by apply component_app.
Qed.

Definition tomb_dir (ms : Z) : str := dir_prefix data_dir ++ $".tombstones" ++ "/"%char :: tomb_rest ms.

Lemma tomb_key_component : component (project_id id ++ $"." ++ dataset_id id).
Proof.
  destruct Hid as [P [D1 D2] T _]. apply component_app; [done|].
  rewrite not_elem_of_app. split; [by apply literal_without|done].
Qed.

Lemma tomb_dir_text ms : TableTombstoneDir data_dir id ms = tomb_dir ms.
Proof.
  pose proof tomb_key_component as K. pose proof (StrInt_component ms) as I. destruct Hid as [P D T _].
  unfold TableTombstoneDir, tomb_dir, tomb_rest, DatasetTombstoneKey. cbn [ds_project_id ds_dataset_id].
  rewrite (join_component data_dir) by (by apply literal_component).
  assert (named (dir_prefix data_dir ++ $".tombstones")) as N.
  { eexists _, _. split; [done|]. by apply literal_component. }
  rewrite (join_below _ _ N K), (join_below _ (table_id id)), (join_below _ (StrInt ms))
    by first [done|by apply named_join].
  by reassociate.
Qed.

Lemma tomb_path_text ms s : "/"%char ∉ s ->
  path_join (tomb_dir ms) (table_id id ++ s) = tomb_stem ms ++ s.
Proof.
  intros S. pose proof (StrInt_component ms) as I. destruct Hid. rewrite join_below.
  - unfold tomb_stem, tomb_dir. by reassociate.
  - exists (dir_prefix data_dir ++ $".tombstones" ++ "/"%char ::
      (project_id id ++ $"." ++ dataset_id id) ++ "/"%char :: table_id id ++ ["/"%char]), (StrInt ms).
    split; [|done]. unfold tomb_dir, tomb_rest. by reassociate.
  - by apply component_app.
Qed.

(** What moves, and where to. *)
Definition table_moves (ms : Z) : list (str * str) :=
  map (fun s => (live_stem ++ s, tomb_stem ms ++ s)) table_suffixes.

Lemma live_tomb_apart ms s s' : apart (live_stem ++ s) (tomb_stem ms ++ s').
Proof.
  destruct Hid as [[P1 P2] _ _ N].
  assert (forall x y, live_stem ++ x <> tomb_stem ms ++ y) as E.
  { intros x y. unfold live_stem, tomb_stem. rewrite <- !app_assoc. intros E%app_inv_head.
    cbn [app] in E. apply app_sep_inj in E as [E _]; [done|done|by apply literal_without]. }
  apply apart_roots; unfold under; destruct (strip_root _ _) as [r|] eqn:R; try done;
    apply strip_root_Some in R as [R _]; rewrite <- app_assoc in R;
    first [by apply E in R|symmetry in R; by apply E in R].
Qed.

Lemma stem_apart (a s s' : str) : under s s' = false -> under s' s = false -> apart (a ++ s) (a ++ s').
Proof. intros U U'. apply apart_roots; by rewrite under_cancel. Qed.

Lemma suffixes_apart s s' : s ∈ table_suffixes -> s' ∈ table_suffixes -> s <> s' -> under s s' = false.
Proof.
  unfold table_suffixes. rewrite !elem_of_cons. intros Hs Hs' N.
  destruct_or! Hs; destruct_or! Hs'; subst; first [done|set_solver].
Qed.

Lemma table_moves_separated ms : separated (table_moves ms).
Proof.
  assert (forall p, p ∈ table_moves ms -> exists s, s ∈ table_suffixes /\ p = (live_stem ++ s, tomb_stem ms ++ s)) as K.
  { intros p Hp. apply list_elem_of_In, in_map_iff in Hp as (s & <- & Hs). exists s.
    split; [by apply list_elem_of_In|done]. }
  split.
  - apply (NoDup_fmap_2_strong (fun s => (live_stem ++ s, tomb_stem ms ++ s))).
    + intros s s' _ _ [= E _]. by apply app_inv_head in E.
    + apply (bool_decide_unpack _). vm_compute. done.
  - intros p q (s & _ & ->)%K (s' & _ & ->)%K. apply live_tomb_apart.
  - intros p q (s & Hs & ->)%K (s' & Hs' & ->)%K N. cbn [fst].
    apply stem_apart; apply suffixes_apart; congruence || (intros ->; done).
  - intros p q (s & Hs & ->)%K (s' & Hs' & ->)%K N. cbn [snd].
    apply stem_apart; apply suffixes_apart; congruence || (intros ->; done).
Qed.

Lemma tomb_stem_text ms s : tomb_stem ms ++ s = tomb_dir ms ++ "/"%char :: table_id id ++ s.
Proof. unfold tomb_dir, tomb_stem. by reassociate. Qed.

Lemma tomb_under_dir ms s : under (tomb_dir ms) (tomb_stem ms ++ s) = true.
Proof. rewrite tomb_stem_text. apply under_app. right. by eexists. Qed.
End table.

(** A directory tree as the operating system keeps it, with no fault to come:
    what is above a path is a directory, and no path is both. *)
Record tree_ok (t : Tree) : Prop := {
  tree_healthy : healthy_tree t;
  tree_above k a : in_tree (tree_files t) (dirs t) k -> a ∈ ancestors k -> a ∈ dirs t;
  tree_disjoint k : is_Some (tree_files t !! k) -> k ∉ dirs t;
}.

(** Nothing is at the place of a new directory. *)
Record free_dir (t : Tree) (p : str) : Prop := {
  free_under k : in_tree (tree_files t) (dirs t) k -> under p k = false;
  free_above a : a ∈ ancestors p -> tree_files t !! a = None;
}.

Lemma tree_rooted t a k : tree_ok t -> a <> [] -> in_tree (tree_files t) (dirs t) k -> under a k = true ->
  in_tree (tree_files t) (dirs t) a.
Proof.
  intros O N K (r & [-> [->|[r' ->]]]%strip_root_Some)%under_true; [by rewrite app_nil_r in K|].
  right. apply (tree_above _ O _ _ K). by apply ancestors_elem.
Qed.

Lemma make_dirs_ok t p : healthy_tree t -> (forall a, a ∈ p :: ancestors p -> tree_files t !! a = None) ->
  make_dirs t p = (mkTree (disk t) ({[p]} ∪ list_to_set (ancestors p) ∪ dirs t), None).
Proof.
  intros Hh N. unfold make_dirs. rewrite Hh.
  destruct (existsb _ _) eqn:E; [|done]. apply existsb_exists in E as (a & Ha & E).
  apply list_elem_of_In in Ha. unfold exists_file in E. change (files (disk t)) with (tree_files t) in E.
  by rewrite (N a Ha) in E.
Qed.

Section drop_restore.
Context `{AbslTextLaws} `{DuckDb} (data_dir : str) (id : TableId) (ms : Z) (s : Store).
Context (Hid : table_ok id) (Ht : tree_ok (tree s)) (Hfree : free_dir (tree s) (tomb_dir data_dir id ms)).

Let F := tree_files (tree s).
Let X := tomb_dir data_dir id ms.
Let D := {[X]} ∪ list_to_set (ancestors X) ∪ dirs (tree s).

Lemma in_tree_cases k : in_tree F D k ->
  in_tree F (dirs (tree s)) k \/ (under k X = true /\ length k <= length X).
Proof.
  intros [K|K]; [left; by left|]. unfold D in K. rewrite !elem_of_union, elem_of_singleton, elem_of_list_to_set in K.
  destruct K as [[->|K]|K].
  - right. split; [apply under_refl|done].
  - right. apply ancestors_under in K as [U L]. split; [done|lia].
  - left. by right.
Qed.

Lemma table_movable : movable F D (table_moves data_dir id ms).
Proof.
  assert (forall p, p ∈ table_moves data_dir id ms ->
    exists x, p = (live_stem data_dir id ++ x, tomb_stem data_dir id ms ++ x)) as K.
  { intros p Hp. apply list_elem_of_In, in_map_iff in Hp as (x & <- & _). by exists x. }
  split.
  - by apply table_moves_separated.
  - intros p k (x & ->)%K [Hk|[U L]]%in_tree_cases; cbn [snd].
    + destruct (under _ k) eqn:U; [|done]. pose proof (tomb_under_dir data_dir id ms x) as U'.
      pose proof (under_trans _ _ _ U' U). by rewrite (free_under _ _ Hfree k) in H2.
    + destruct (under _ k) eqn:U'; [|done]. apply under_length in U'. rewrite tomb_stem_text in U'.
      rewrite length_app in U'. simpl in U'. fold X in U'. lia.
  - intros p k (x & ->)%K [Hk|[U L]]%in_tree_cases U'; cbn [fst] in *.
    + assert (live_stem data_dir id ++ x <> []) as N.
      { unfold live_stem. rewrite <- app_assoc. destruct Hid as [[P _] _ _ _]. intros [_ E]%app_eq_nil.
        destruct (project_id id); [done|]. by rewrite <- app_assoc in E. }
      destruct (tree_rooted _ _ _ Ht N Hk U') as [T|T]; [by left|right]. unfold D. set_solver.
    + exfalso. pose proof (under_trans _ _ _ U' U) as V.
      pose proof (under_trans _ _ _ V (tomb_under_dir data_dir id ms x)) as W.
      pose proof (live_tomb_apart data_dir id Hid ms x x _ W) as A. by rewrite under_refl in A.
Qed.

Lemma after_make_dirs : make_dirs (tree s) X = (mkTree (disk (tree s)) D, None) /\
  moved F D (there []) (mkTree (disk (tree s)) D).
Proof.
  split.
  - apply make_dirs_ok; [apply Ht|]. intros a. rewrite elem_of_cons. intros [->|Ha]; [|by apply Hfree].
    destruct (tree_files (tree s) !! X) as [v|] eqn:E; [|done]. exfalso.
    pose proof (free_under _ _ Hfree X (or_introl (mk_is_Some _ _ E))) as U. fold X in U.
    by rewrite under_refl in U.
  - split; [apply Ht|symmetry; by apply rekey_id|]. apply set_eq. intros k. rewrite elem_of_map. cbn.
    split; [intros K; by exists k|by intros (i & -> & K)].
Qed.

(** The moves of [MoveTableToTombstone], as the paths of [table_moves]. *)
Lemma move_table_moves done x todo what s' :
  table_moves data_dir id ms = done ++ (live_stem data_dir id ++ x, tomb_stem data_dir id ms ++ x) :: todo ->
  moved F D (there done) (tree s') ->
  exists t, move_if_exists (live_stem data_dir id ++ x) (tomb_stem data_dir id ms ++ x) what s' =
      (mkStore t (conn s'), Ok ()) /\
    moved F D (there (done ++ [(live_stem data_dir id ++ x, tomb_stem data_dir id ms ++ x)])) t.
Proof.
  intros E M. apply (forward_step F D _ _ _ todo); [|done]. rewrite <- E. apply table_movable.
Qed.

Lemma restore_table_moves done x todo what s' :
  table_moves data_dir id ms = done ++ (live_stem data_dir id ++ x, tomb_stem data_dir id ms ++ x) :: todo ->
  moved F D (there (table_moves data_dir id ms) ++ back done) (tree s') ->
  exists t, move_if_exists (tomb_stem data_dir id ms ++ x) (live_stem data_dir id ++ x) what s' =
      (mkStore t (conn s'), Ok ()) /\
    moved F D (there (table_moves data_dir id ms) ++
      back (done ++ [(live_stem data_dir id ++ x, tomb_stem data_dir id ms ++ x)])) t.
Proof.
  intros E M. rewrite E in M |- *. apply (backward_step F D); [|done]. rewrite <- E. apply table_movable.
Qed.

Lemma st_bind_Ok {A B} (m : ST A) (k : A -> ST B) s0 s1 a :
  m s0 = (s1, Ok a) -> (m ≫= k) s0 = k a s1.
Proof. intros E. unfold mbind, ST_bind. by rewrite E. Qed.

Lemma tomb_dest x : "/"%char ∉ x ->
  path_join X (filename (live_stem data_dir id ++ x)) = tomb_stem data_dir id ms ++ x.
Proof.
  intros N. destruct Hid as [_ _ [_ T] _]. rewrite <- tomb_path_text by done. unfold X. f_equal.
  assert (live_stem data_dir id ++ x = (dir_prefix data_dir ++ project_id id ++ "/"%char :: dataset_id id) ++
    "/"%char :: table_id id ++ x) as -> by (unfold live_stem; by reassociate).
  apply filename_last. set_solver.
Qed.

(** One move of a sequence. *)
Ltac step_move L :=
  let t := fresh "t" in let E := fresh "E" in let M := fresh "M" in
  match goal with |- context [(move_if_exists _ _ ?w ≫= _) ?s0] =>
    edestruct (fun x todo => L x todo w s0) as (t & E & M);
      [reflexivity|eassumption|rewrite (st_bind_Ok _ _ _ _ _ E)]
  end.

Ltac last_move L :=
  let t := fresh "t" in let E := fresh "E" in let M := fresh "M" in
  match goal with |- context [move_if_exists _ _ ?w ?s0] =>
    edestruct (fun x todo => L x todo w s0) as (t & E & M);
      [reflexivity|eassumption|exists t; split; [exact E|exact M]]
  end.

Lemma dropped_table : exists t,
  MoveTableToTombstone data_dir id ms s = (mkStore t (conn s), Ok ()) /\
  moved F D (there (table_moves data_dir id ms)) t.
Proof.
  unfold MoveTableToTombstone. rewrite tomb_dir_text by done. fold X.
  unfold TableMetaPathFromStorage, TableParquetPathFromStorage, TableVersionsIndexPath, TableVersionsDir.
  rewrite !live_path_text by first [done|by apply literal_without].
  destruct after_make_dirs as [E M].
  erewrite st_bind_Ok by (unfold tree_call; by rewrite E).
  rewrite !tomb_dest by (by apply literal_without). unfold X.
  rewrite tomb_path_text by first [done|by apply literal_without].
  step_move (move_table_moves []). step_move (move_table_moves (take 1 (table_moves data_dir id ms))).
  step_move (move_table_moves (take 2 (table_moves data_dir id ms))).
  last_move (move_table_moves (take 3 (table_moves data_dir id ms))).
Qed.

(** Between the drop and the restore. *)
Lemma dropped_meta t : moved F D (there (table_moves data_dir id ms)) t ->
  path_exists t (live_stem data_dir id ++ $".meta.json") = false.
Proof.
  intros M. destruct (path_exists t _) eqn:E; [|done]. exfalso.
  apply (moved_exists F D _ _ _ M (moved_inj F D _ table_movable)) in E as (i & K & E).
  destruct (there_cases _ i (mv_separated _ _ _ table_movable)) as [[A E']|(p & r & Hp & R & _ & E')].
  - rewrite E' in E. subst i. rewrite Forall_forall in A.
    specialize (A (live_stem data_dir id ++ $".meta.json", tomb_stem data_dir id ms ++ $".meta.json")).
    rewrite under_refl in A. discriminate A. apply list_elem_of_here.
  - apply list_elem_of_In, in_map_iff in Hp as (x & <- & _). cbn [snd] in E'.
    pose proof (live_tomb_apart data_dir id Hid ms $".meta.json" x (live_stem data_dir id ++ $".meta.json")
      (under_refl _)) as A.
    rewrite E, E', under_app in A; done.
Qed.

Lemma dropped_keeps t k : moved F D (there (table_moves data_dir id ms)) t ->
  k ∈ D -> (forall x, under (live_stem data_dir id ++ x) k = false) -> k ∈ dirs t.
Proof.
  intros M K U. rewrite (moved_dirs _ _ _ _ M). apply elem_of_map. exists k. split; [|done].
  symmetry. apply there_other, Forall_forall. intros p Hp.
  apply list_elem_of_In, in_map_iff in Hp as (x & <- & _). apply U.
Qed.

Context (Hms : ms <> 0%Z) (Hds : DatasetDirFromStorage data_dir id ∈ dirs (tree s)).

Lemma live_dir_above a : a ∈ DatasetDirFromStorage data_dir id :: ancestors (DatasetDirFromStorage data_dir id) ->
  a ∈ dirs (tree s) /\ forall x, under (live_stem data_dir id ++ x) a = false.
Proof.
  rewrite elem_of_cons. intros Ha.
  assert (a ∈ dirs (tree s) /\ length a <= length (DatasetDirFromStorage data_dir id)) as [K L].
  { destruct Ha as [->|Ha]; [done|]. split; [apply (tree_above _ Ht _ _ (or_intror Hds) Ha)|].
    apply ancestors_under in Ha. lia. }
  split; [done|]. intros x. destruct (under _ a) eqn:U; [|done]. apply under_length in U.
  rewrite live_dir_text in L by done. unfold live_stem in U.
  rewrite !length_app in *. simpl in *. rewrite !length_app in *. simpl in *. lia.
Qed.

Lemma remake_live_dir t : moved F D (there (table_moves data_dir id ms)) t ->
  make_dirs t (DatasetDirFromStorage data_dir id) = (t, None).
Proof.
  intros M. rewrite make_dirs_ok.
  - destruct t as [d ds]. cbn [disk dirs]. f_equal. f_equal. apply set_eq. intros k.
    rewrite !elem_of_union, elem_of_singleton, elem_of_list_to_set. split; [|naive_solver].
    intros [Hk|Hk]; [|done]. destruct (live_dir_above k) as [K U]; [rewrite elem_of_cons; naive_solver|].
    apply (dropped_keeps _ k M); [unfold D; set_solver|done].
  - apply M.
  - intros a Ha. destruct (live_dir_above a Ha) as [K U]. rewrite (moved_files _ _ _ _ M).
    destruct (rekey _ F !! a) as [v|] eqn:E; [|done]. exfalso.
    apply rekey_Some in E as (i & -> & E).
    destruct (there_cases _ i (mv_separated _ _ _ table_movable)) as [[_ Ei]|(p & r & Hp & R & -> & Ei)].
    + rewrite Ei in K. by apply (tree_disjoint _ Ht i (mk_is_Some _ _ E)) in K.
    + apply list_elem_of_In, in_map_iff in Hp as (x & <- & _). cbn [fst snd] in *. rewrite Ei in K.
      pose proof (free_under _ _ Hfree _ (or_intror K)) as N.
      rewrite (under_trans _ _ _ (tomb_under_dir data_dir id ms x) (under_app _ _ R)) in N. done.
Qed.

Lemma restored_dirs t : moved F D (there (table_moves data_dir id ms) ++ back (table_moves data_dir id ms)) t ->
  tree_files t = F /\ dirs t = D.
Proof.
  intros M. rewrite (moved_files _ _ _ _ M), (moved_dirs _ _ _ _ M). split.
  - apply rekey_id. intros k K. apply (undone F D _ k table_movable). by left.
  - apply set_eq. intros k. rewrite elem_of_map. split.
    + intros (i & -> & K). rewrite (undone F D _ i table_movable); [done|by right].
    + intros K. exists k. rewrite (undone F D _ k table_movable); [done|by right].
Qed.

Lemma remove_tombstone t : healthy_tree t -> tree_files t = F -> dirs t = D ->
  remove t X = (mkTree (disk t) (D ∖ {[X]}), None).
Proof.
  intros Hh EF ED. unfold remove. rewrite Hh. unfold exists_file. change (files (disk t)) with (tree_files t).
  rewrite EF. assert (F !! X = None) as ->.
  { destruct (F !! X) as [v|] eqn:E; [|done]. exfalso.
    pose proof (free_under _ _ Hfree X (or_introl (mk_is_Some _ _ E))) as U. fold X in U.
    by rewrite under_refl in U. }
  assert (dir_empty t X = true) as ->; [|by rewrite ED].
  apply forallb_forall. intros k Hk. apply list_elem_of_In in Hk. apply orb_true_iff.
  assert (in_tree F D k) as K.
  { unfold all_paths in Hk. rewrite EF, ED in Hk. apply elem_of_app in Hk as [Hk|Hk].
    - left. apply list_elem_of_fmap in Hk as ([k' v] & -> & Hk). apply elem_of_map_to_list in Hk. by eexists.
    - right. by apply elem_of_elements in Hk. }
  destruct (in_tree_cases k K) as [K'|[U L]].
  - right. by rewrite (free_under _ _ Hfree k K' : under X k = false).
  - destruct (under X k) eqn:U'; [left|by right]. apply bool_decide_eq_true. apply under_length in U'.
    apply under_true in U as (r & [E _]%strip_root_Some). rewrite E, length_app in U'.
    destruct r; [by rewrite app_nil_r in E|simpl in U'; lia].
Qed.

Lemma restored_table t c : moved F D (there (table_moves data_dir id ms)) t -> exists t',
  RestoreTableFromTombstone data_dir id ms (mkStore t c) = (mkStore t' c, Ok ()) /\
  tree_files t' = F /\ dirs t' = D ∖ {[X]} /\ healthy_tree t'.
Proof.
  intros M. unfold RestoreTableFromTombstone. rewrite (proj2 (Z.eqb_neq ms 0) Hms).
  erewrite st_bind_Ok by reflexivity. rewrite st_exists. cbn [tree].
  unfold TableMetaPathFromStorage, table_dir, Registry.DatasetDir.
  change (path_join (path_join data_dir (project_id id)) (dataset_id id)) with (DatasetDirFromStorage data_dir id).
  rewrite live_path_text by first [done|by apply literal_without]. rewrite dropped_meta by done.
  rewrite st_exists. cbn [tree]. rewrite tomb_dir_text by done. fold X.
  assert (path_exists t X = true) as ->.
  { unfold path_exists. rewrite orb_true_iff, bool_decide_eq_true. right.
    apply (dropped_keeps _ X M); [unfold D; set_solver|]. intros x.
    destruct (under _ X) eqn:U; [|done]. exfalso.
    pose proof (under_trans _ _ _ U (tomb_under_dir data_dir id ms x)) as W.
    pose proof (live_tomb_apart data_dir id Hid ms x x _ W) as A. by rewrite under_refl in A. }
  cbn [negb]. erewrite st_bind_Ok by (unfold tree_call; cbn [tree]; by rewrite remake_live_dir).
  destruct (ok_table _ Hid) as [T1 T2].
  rewrite !filename_component by (apply component_app; [done|by apply literal_without]).
  unfold X. rewrite !tomb_path_text, !live_path_text by first [done|by apply literal_without].
  step_move (restore_table_moves []). step_move (restore_table_moves (take 1 (table_moves data_dir id ms))).
  step_move (restore_table_moves (take 2 (table_moves data_dir id ms))).
  step_move (restore_table_moves (take 3 (table_moves data_dir id ms))).
  match goal with M' : moved _ _ _ ?t' |- context [on_tree _ (mkStore ?t' _)] =>
    destruct (restored_dirs t' M') as [EF ED]; pose proof (moved_healthy _ _ _ _ M') as Hh;
    unfold on_tree; cbn [tree conn]; fold X; rewrite (remove_tombstone t' Hh EF ED) end.
  eexists. split; [reflexivity|]. by split.
Qed.
End drop_restore.

Section table_properties.
Context `{AbslTextLaws} `{DuckDb} (data_dir : str).

Lemma find_table_spec id s : DatasetDirFromStorage data_dir id ∈ dirs (tree s) ->
  find_table data_dir id s =
    (s, if path_exists (tree s) (TableMetaPathFromStorage data_dir id) then Ok ()
        else Err (NotFoundError ($"table not found: " ++ table_name id))).
Proof.
  intros D. unfold find_table. rewrite st_exists. unfold table_dir, Registry.DatasetDir.
  change (path_join (path_join data_dir (project_id id)) (dataset_id id)) with (DatasetDirFromStorage data_dir id).
  assert (path_exists (tree s) (DatasetDirFromStorage data_dir id) = true) as ->.
  { unfold path_exists. by rewrite orb_true_iff, bool_decide_eq_true; right. }
  cbn [negb]. rewrite st_exists. by destruct (path_exists _ _).
Qed.

(** What a drop moves, and where to: the sidecar, the Parquet file of the rows, the
    version index and the directory of the archived versions. *)
Definition tombstone_moves (id : TableId) (ms : Z) : list (str * str) :=
  let dest suffix := path_join (TableTombstoneDir data_dir id ms) (table_id id ++ suffix) in
  [(TableMetaPathFromStorage data_dir id, dest $".meta.json");
   (TableParquetPathFromStorage data_dir id, dest $".parquet");
   (TableVersionsIndexPath data_dir id, dest $".versions.json");
   (TableVersionsDir data_dir id, dest $".versions")].

Lemma tombstone_moves_text id ms : table_ok id -> tombstone_moves id ms = table_moves data_dir id ms.
Proof.
  intros Hid. unfold tombstone_moves, TableMetaPathFromStorage, TableParquetPathFromStorage, TableVersionsIndexPath, TableVersionsDir.
  rewrite tomb_dir_text, !tomb_path_text, !live_path_text by first [done|by apply literal_without]. done.
Qed.

(** C17: dropping a table moves its sidecar, its Parquet rows, its version index and
    its archived versions: after the drop each of these files is in the tombstone
    of that time with the bytes it had, none is in the dataset, every other file
    is unchanged, and the table is not found.  Restoring the table at that time
    brings back every file of the tree as it was before the drop and removes the
    tombstone's own directory. *)
Theorem dropped_table_restores id now_ms s
    (Hid : table_ok id) (Ht : tree_ok (tree s))
    (Hfree : free_dir (tree s) (tomb_dir data_dir id now_ms)) (Hnow : now_ms <> 0%Z)
    (Hdataset : DatasetDirFromStorage data_dir id ∈ dirs (tree s))
    (Htable : is_Some (tree_files (tree s) !! TableMetaPathFromStorage data_dir id)) :
  exists s1 s2,
    DropTable data_dir now_ms id s = (s1, Ok ()) /\
    (forall live dest below, (live, dest) ∈ tombstone_moves id now_ms -> tail_ok below ->
       tree_files (tree s1) !! (dest ++ below) = tree_files (tree s) !! (live ++ below) /\
       tree_files (tree s1) !! (live ++ below) = None) /\
    (forall k, (forall m, m ∈ tombstone_moves id now_ms -> under m.1 k = false /\ under m.2 k = false) ->
       tree_files (tree s1) !! k = tree_files (tree s) !! k) /\
    (DropTable data_dir now_ms id s1).2 = Err (NotFoundError ($"table not found: " ++ table_name id)) /\
    RestoreTable data_dir id now_ms s1 = (s2, Ok ()) /\
    tree_files (tree s2) = tree_files (tree s) /\
    dirs (tree s2) = (list_to_set (ancestors (tomb_dir data_dir id now_ms)) ∪ dirs (tree s))
                     ∖ {[tomb_dir data_dir id now_ms]} /\
    conn s2 = conn s.
Proof.
  pose proof (table_movable data_dir id now_ms s Hid Ht Hfree) as Mv.
  destruct (dropped_table data_dir id now_ms s Hid Ht Hfree) as (t & E & M).
  destruct (restored_table data_dir id now_ms s Hid Ht Hfree Hnow Hdataset t (conn s) M) as (t' & E' & EF & ED & _).
  exists (mkStore t (conn s)), (mkStore t' (conn s)).
  assert (DatasetDirFromStorage data_dir id ∈ dirs t) as Dt.
  { destruct (live_dir_above data_dir id s Hid Ht Hdataset (DatasetDirFromStorage data_dir id)) as [K U];
      [apply list_elem_of_here|].
    apply (dropped_keeps data_dir id now_ms s t _ M); [set_solver|done]. }
  assert (path_exists (tree s) (TableMetaPathFromStorage data_dir id) = true) as Em.
  { destruct Htable as [v L]. unfold path_exists, exists_file. change (files (disk ?x)) with (tree_files x).
    by rewrite L. }
  assert (path_exists t (TableMetaPathFromStorage data_dir id) = false) as Et.
  { unfold TableMetaPathFromStorage. rewrite live_path_text by first [done|by apply literal_without].
    by apply (dropped_meta data_dir id now_ms s). }
  split_and!; try done; cbn [tree conn].
  - unfold DropTable. erewrite st_bind_Ok; [exact E|]. by rewrite find_table_spec, Em.
  - rewrite tombstone_moves_text by done. intros live dest r I R. split.
    + by apply (moved_target _ _ _ _ _ r Mv M I).
    + by apply (moved_source _ _ _ _ _ r Mv M I).
  - rewrite tombstone_moves_text by done. intros k U. by apply (moved_others _ _ _ _ _ Mv M).
  - unfold DropTable, mbind, ST_bind. by rewrite find_table_spec; cbn [tree]; [rewrite Et|].
  - rewrite ED. apply set_eq. set_solver.
Qed.
End table_properties.

(** ** The registry of a restored dataset *)

(** DuckDB changes files only in a COPY. *)
Class QueryFiles `{DuckDb} : Prop :=
  query_files d fs sql : strip_prefix $"COPY " sql = None -> (duckdb_query d fs sql).1.2 = fs.

Section registry.
Context `{AbslTextLaws} `{ProtoJson} `{QueryFiles} (atoi_residue : str -> Z) (data_dir : str).

Lemma st_iter_map {A B} (f : B -> ST unit) (h : A -> ST unit) (g : A -> B) l s :
  (forall x s, f (g x) s = h x s) -> st_iter f (map g l) s = st_iter h l s.
Proof.
  intros E. revert s. induction l as [|x l IH]; intros s; [done|]. cbn. unfold mbind, ST_bind.
  rewrite E. destruct (h x s) as [s' [a|e]]; [apply IH|done].
Qed.

Lemma read_file_at p c s : tree_files (tree s) !! p = Some c -> healthy_tree (tree s) ->
  read_file p s = (s, Ok c).
Proof.
  intros E Hh. unfold read_file, ReadFile. change (files (disk (tree s))) with (tree_files (tree s)).
  by rewrite E, Hh.
Qed.

Lemma exists_at p c s : tree_files (tree s) !! p = Some c -> path_exists (tree s) p = true.
Proof.
  intros E. unfold path_exists, exists_file. change (files (disk (tree s))) with (tree_files (tree s)).
  by rewrite E.
Qed.

Lemma for_objects_at p js f s :
  tree_files (tree s) !! p = Some (RenderObjects js) -> healthy_tree (tree s) -> Forall object_text js ->
  for_objects p f s = st_iter f js s.
Proof.
  intros E Hh O. unfold for_objects. rewrite st_exists, (exists_at _ _ _ E). cbn [negb].
  rewrite (st_bind_Ok _ _ _ _ _ (read_file_at _ _ _ E Hh)). unfold RenderObjects. by rewrite split_rendered.
Qed.

Lemma StrInt_neutral z : neutral (StrInt z).
Proof.
  apply neutral_ordinary, forallb_forall. intros c Hc. apply list_elem_of_In in Hc.
  pose proof (StrInt_chars z) as C. rewrite Forall_forall in C. specialize (C c Hc).
  rewrite isdigit_ref in C. destruct C as [C| ->]; [|done].
  unfold ordinary. by rewrite !bool_decide_false by (intros ->; vm_compute in C; discriminate C).
Qed.

Lemma string_list_neutral l : neutral (RenderQuotedJsonStrings l).
Proof.
  unfold RenderQuotedJsonStrings. apply neutral_app; [auto with neutral|]. apply neutral_app; [|auto with neutral].
  apply neutral_join; [auto with neutral|]. apply Forall_map, Forall_forall. auto with neutral.
Qed.

Ltac neutral_parts :=
  lazymatch goal with
  | |- neutral (_ ++ _) => apply neutral_app; neutral_parts
  | |- neutral (RenderQuotedJsonStrings _) => apply string_list_neutral
  | |- neutral (StrInt _) => apply StrInt_neutral
  | |- neutral (join_text _ _) => apply neutral_join; auto with neutral
  | |- _ => auto 3 with neutral
  end.

Lemma policy_neutral p : neutral (RenderPolicyJson p).
Proof.
  unfold RenderPolicyJson. change ($"{" ++ ?x) with ("{"%char :: x). rewrite !app_assoc. apply neutral_braces.
  neutral_parts.
Qed.

Lemma column_neutral c : neutral (RenderColumnGovJson c).
Proof.
  destruct c as [name gov]. unfold RenderColumnGovJson. change ($"{" ++ ?x) with ("{"%char :: x).
  rewrite !app_assoc. apply neutral_braces.
  assert (neutral (quoted (MaskKindToString (mask_kind gov)))) by (destruct (mask_kind gov); auto with neutral).
  neutral_parts.
Qed.

Lemma entry_object e : object_text (RenderTableGovJson e).
Proof.
  destruct e as [tid gov]. unfold RenderTableGovJson. change ($"{" ++ ?x) with ("{"%char :: x).
  assert (Forall neutral (map RenderPolicyJson (row_access_policies gov))) as P.
  { apply Forall_map, Forall_forall. intros p _. apply policy_neutral. }
  assert (Forall neutral (map RenderColumnGovJson (gov_columns gov))) as C.
  { apply Forall_map, Forall_forall. intros c _. apply column_neutral. }
  change $"]}" with ($"]" ++ $"}"). rewrite !app_assoc. apply object_braces. neutral_parts.
Qed.

Lemma entry_policies e : AppendRowAccessPolicies atoi_residue (RenderTableGovJson e) = [].
Proof.
  destruct e as [tid [[|p ps] cols]]; [|by apply policies_lost].
  unfold AppendRowAccessPolicies.
  rewrite (policies_slice (table_id tid) ($"]," ++ quoted $"columns" ++ $":[" ++
    join_text $"," (map RenderColumnGovJson cols) ++ $"]}") :
    JsonArraySlice (RenderTableGovJson (tid, mkGovernance [] cols)) _ = _).
  change ($"]," ++ ?x) with ($"]" ++ $"," ++ x). by rewrite find_sub_here.
Qed.

Lemma entry_table e : ParseJsonStringField (RenderTableGovJson e) $"table_id" = Ok (degrade (table_id e.1)).
Proof.
  destruct e as [tid gov]. unfold RenderTableGovJson. eapply string_field; [spell; seek|reflexivity].
Qed.

(** What restoring the snapshot of a table's governance does: it writes the
    columns that are read back, and no row access policy. *)
Definition restore_columns (ds : DatasetId) (e : TableId * TableGovernance) : ST unit :=
  st_iter (fun c => SaveColumnGovernance
      (mkTableId (ds_project_id ds) (ds_dataset_id ds) (degrade (table_id e.1))) c.1 c.2)
    (AppendColumnGovernance (RenderTableGovJson e)).

Lemma governance_entry ds e s :
  (table ← lift (ParseJsonStringField (RenderTableGovJson e) $"table_id");
   PersistGovernance (mkTableId (ds_project_id ds) (ds_dataset_id ds) table)
     (mkGovernance (AppendRowAccessPolicies atoi_residue (RenderTableGovJson e))
        (AppendColumnGovernance (RenderTableGovJson e)))) s = restore_columns ds e s.
Proof. rewrite entry_table, entry_policies. done. Qed.

(** *** Steps that keep the files of the snapshot *)

Definition keeps (p : str) {A} (m : ST A) : Prop := forall s, healthy_tree (tree s) ->
  healthy_tree (tree (m s).1) /\ tree_files (tree (m s).1) !! p = tree_files (tree s) !! p.

Lemma keeps_bind p {A B} (m : ST A) (k : A -> ST B) : keeps p m -> (forall a, keeps p (k a)) -> keeps p (m ≫= k).
Proof.
  intros M K s Hh. destruct (M s Hh) as [Hh' E]. unfold mbind, ST_bind. destruct (m s) as [s' [a|e]]; cbn in *; [|done].
  destruct (K a s' Hh') as [Hh'' E']. by rewrite E', E.
Qed.

Lemma keeps_iter p {A} (f : A -> ST unit) l : (forall x, keeps p (f x)) -> keeps p (st_iter f l).
Proof. intros F. induction l as [|x l IH]; [done|]. by apply keeps_bind. Qed.

Lemma keeps_sql p sql : strip_prefix $"COPY " sql = None -> keeps p (RunSql sql).
Proof.
  intros N s Hh. unfold RunSql, query, mbind, ST_bind. pose proof (query_files (conn s) (tree_files (tree s)) sql N) as Q.
  destruct (duckdb_query _ _ _) as [[c fs] r]. cbn in Q. subst fs. by destruct r.
Qed.

Lemma keeps_write p q c : q <> p -> q ++ $".tmp" <> p -> keeps p (write_file_atomic q c).
Proof.
  intros N T s Hh. unfold write_file_atomic, write_file, WriteFileAtomic. case_bool_decide; [|done].
  rewrite (Hh q). cbn. split; [exact Hh|]. unfold tree_files. cbn.
  rewrite lookup_insert_ne, lookup_delete_ne by done. done.
Qed.

Lemma path_join_ends a b : exists pre, path_join a b = pre ++ b.
Proof.
  unfold path_join. repeat case_match;
    first [by exists []|by exists a|exists (a ++ ["/"%char]); by rewrite <- app_assoc].
Qed.

(** Paths that end in names of different endings differ. *)
Lemma endings_differ (a b x y : str) : length x = length y -> x <> y -> a ++ x <> b ++ y.
Proof. intros L N E. apply app_inj_2 in E as [_ E]; done. Qed.

(** A sidecar of a view and its temporary file are no part of the snapshot. *)
Lemma keeps_view tomb name rec : name ∈ [$"routines.json"; $"governance.json"] ->
  keeps (path_join tomb name) (UpsertViewLocked data_dir rec).
Proof.
  intros N. destruct (path_join_ends tomb name) as [pre E].
  assert (exists pre', path_join tomb name = pre' ++ $"es.json" \/ path_join tomb name = pre' ++ $"ce.json") as [pre' E'].
  { rewrite !elem_of_cons, elem_of_nil in N. destruct N as [->|[->|[]]]; rewrite E.
    - exists (pre ++ $"routin"). left. by rewrite <- app_assoc.
    - exists (pre ++ $"governan"). right. by rewrite <- app_assoc. }
  destruct (path_join_ends (Registry.DatasetDir data_dir (v_project_id (v_id rec)) (v_dataset_id (v_id rec)))
    (view_id (v_id rec) ++ kTableMetaSuffix)) as [u U].
  assert (view_meta_path data_dir (v_id rec) = ((u ++ view_id (v_id rec)) ++ $".me") ++ $"ta.json") as V.
  { unfold view_meta_path. rewrite U, <- !app_assoc. done. }
  apply keeps_bind; [done|]. intros meta. apply keeps_bind; [|intros _; by apply keeps_sql]. rewrite V.
  set (v := (u ++ view_id (v_id rec)) ++ $".me").
  assert ((v ++ $"ta.json") ++ $".tmp" = (v ++ $"ta.j") ++ $"son.tmp") as W by (by rewrite <- !app_assoc).
  destruct E' as [-> | ->]; (apply keeps_write; [|rewrite W]; by apply endings_differ).
Qed.

Lemma keeps_ensure p : keeps p EnsureGovernanceTables.
Proof. apply keeps_bind; [by apply keeps_sql|]. intros _. by apply keeps_sql. Qed.

Lemma keeps_routine p rec : keeps p (UpsertRoutineLocked rec).
Proof. by apply keeps_sql. Qed.

(** Equal steps from the store reached. *)
Lemma bind_same {A B} (m : ST A) (k k' : A -> ST B) s :
  (forall a s', m s = (s', Ok a) -> k a s' = k' a s') -> (m ≫= k) s = (m ≫= k') s.
Proof. intros E. unfold mbind, ST_bind. destruct (m s) as [s' [a|e]] eqn:M; [by apply E|done]. Qed.

Lemma views_restored ds tomb views s :
  tree_files (tree s) !! path_join tomb $"views.json" = Some (RenderObjects (map RenderViewRecordJson views)) ->
  healthy_tree (tree s) ->
  for_objects (path_join tomb $"views.json")
    (fun entry => rec ← lift (ParseViewRecordJson entry ds); UpsertViewLocked data_dir rec) s =
  st_iter (fun rec => UpsertViewLocked data_dir (restored_view ds rec)) views s.
Proof.
  intros E Hh. rewrite (for_objects_at _ _ _ _ E Hh).
  - apply st_iter_map. intros rec s'. by rewrite view_record_parse.
  - apply Forall_map, Forall_forall. intros rec _. apply view_record_text.
Qed.

Lemma routines_restored ds tomb routines s :
  tree_files (tree s) !! path_join tomb $"routines.json" = Some (RenderObjects (map RenderRoutineRecordJson routines)) ->
  healthy_tree (tree s) ->
  for_objects (path_join tomb $"routines.json")
    (fun entry => rec ← lift (ParseRoutineRecordJson entry ds); UpsertRoutineLocked rec) s =
  st_iter (fun rec => UpsertRoutineLocked (restored_routine ds rec)) routines s.
Proof.
  intros E Hh. rewrite (for_objects_at _ _ _ _ E Hh).
  - apply st_iter_map. intros rec s'. by rewrite routine_record_parse.
  - apply Forall_map, Forall_forall. intros rec _. apply routine_record_text.
Qed.

Lemma governance_restored ds tables s :
  RestoreGovernanceFromSnapshotLocked atoi_residue ds (RenderGovernanceSnapshotJson tables) s =
  st_iter (restore_columns ds) tables s.
Proof.
  unfold RestoreGovernanceFromSnapshotLocked.
  assert (SplitTopLevelJsonObjects (RenderGovernanceSnapshotJson tables) = map RenderTableGovJson tables) as ->.
  { destruct tables as [|e l]; [done|]. unfold RenderGovernanceSnapshotJson. apply split_rendered.
    apply Forall_map, Forall_forall. intros e' _. apply entry_object. }
  apply st_iter_map. intros e s'. apply governance_entry.
Qed.

(** The two files read after the views are still those of the snapshot. *)
Lemma kept_by {A} (m : ST A) p c s s' a : keeps p m -> healthy_tree (tree s) -> tree_files (tree s) !! p = Some c ->
  m s = (s', Ok a) -> healthy_tree (tree s') /\ tree_files (tree s') !! p = Some c.
Proof. intros K Hh E M. destruct (K s Hh) as [Hh' E']. rewrite M in Hh', E'. cbn in *. by rewrite E'. Qed.

End registry.
