(* ===== verification/RowStorage.v ===== *)
(** * RowStorage: the rows of tables in Parquet files

    Models [backend/storage/duckdb/duckdb_storage_rows.cc], the read stream of
    [duckdb_storage_read_stream.cc] and the helpers of
    [duckdb_storage_sql_render.cc] that run statements: appending and replacing
    rows through a temporary table and a rename, scanning, counting, and the
    snapshots of time travel.

    DuckDB runs the statements ([Registry]); the law it is used with is that a
    statement changes files only when it is a COPY, and then only the file it
    names.  A change that fails leaves the table's Parquet file and sidecar as
    they were ([append_atomic]). *)

From Stdlib Require Import SpecFloat.
From S2P Require Import Prelude Order Absl AbslReference Schema Storage DuckDbSql DuckDbList VersionLog SidecarJson SidecarProps FileTree Registry CatalogStorage CatalogProps.

Section rows.
Context `{AbslText} `{ProtoJson} `{DuckDb} `{DuckText} `{CFloat} (data_dir : str).

Abbreviation TableMetaPath := (TableMetaPathFromStorage data_dir).
Abbreviation TableParquetPath := (TableParquetPathFromStorage data_dir).

(** ** Cells *)

(** [column] with the mode of one element. *)
Definition ReadRepeatedCell (row : list DbCell) (col : nat) (column : ColumnSchema) : StatusOr Value :=
  match ParseDuckDBListVarchar (value_varchar row col) (as_element column) with
  | Ok v => Ok v
  | Err e => Err (InternalError ($"ReadCell: failed to decode REPEATED column `" ++ col_name column ++ $"`: " ++
                                 message e))
  end.

Definition ReadStructCell (row : list DbCell) (col : nat) (column : ColumnSchema) : StatusOr Value :=
  match value_varchar row col with
  | [] => Ok VNull
  | text =>
      match ParseDuckDBStructVarchar text column with
      | Ok v => Ok v
      | Err e => Err (InternalError ($"ReadCell: failed to decode STRUCT column `" ++ col_name column ++ $"`: " ++
                                     message e))
      end
  end.

Definition ReadVarcharCell (row : list DbCell) (col : nat) : Value := VString (value_varchar row col).

Definition ReadScalarCell (row : list DbCell) (col : nat) (column : ColumnSchema) : Value :=
  match col_type column with
  | kBool => VBool (value_boolean row col)
  | kInt64 => VInt64 (value_int64 row col)
  | kFloat64 => VFloat64 (value_double row col)
  | kBytes => VBytes (value_blob row col)
  | _ => ReadVarcharCell row col
  end.

Definition ReadCell (row : list DbCell) (col : nat) (column : ColumnSchema) : StatusOr Value :=
  if decide (col_mode column = kRepeated) then ReadRepeatedCell row col column
  else if value_is_null row col then Ok VNull
  else if decide (col_type column = kStruct) then ReadStructCell row col column
  else if decide (col_type column = kArray) then Ok (ReadVarcharCell row col)
  else Ok (ReadScalarCell row col column).

Fixpoint ReadCells (row : list DbCell) (col : nat) (cols : list ColumnSchema) : StatusOr (list Value) :=
  match cols with
  | [] => Ok []
  | c :: cols => v ← ReadCell row col c; vs ← ReadCells row (S col) cols; Ok (v :: vs)
  end.

(** ** Statements *)

Definition TryDropTempTable (name : str) : ST unit :=
  _ ← try_ (RunSql ($"DROP TABLE IF EXISTS " ++ name)); mret ().

Definition copy_sql (table path : str) : str :=
  $"COPY " ++ table ++ $" TO '" ++ EscapeStringLiteralInner path ++ $"' (FORMAT PARQUET)".

(** Runs [m]; when it fails, drops the temporary table before returning its
    error. *)
Definition or_drop {A} (tmp_table : str) (m : ST A) : ST A :=
  r ← try_ m;
  match r with
  | Ok a => mret a
  | Err e => _ ← TryDropTempTable tmp_table; fail e
  end.

(** The removal after a failed rename overwrites the error code, so the message is
    that of the removal. *)
Definition SnapshotTempTableToParquet (tag tmp_table tmp_path parquet_path : str) : ST unit :=
  _ ← on_tree (fun t => (remove t tmp_path).1);
  copied ← try_ (RunSql (copy_sql tmp_table tmp_path));
  match copied with
  | Err e => _ ← TryDropTempTable tmp_table; _ ← on_tree (fun t => (remove t tmp_path).1); fail e
  | Ok _ =>
      moved ← (fun s => let '(t, e) := rename (tree s) tmp_path parquet_path in (mkStore t (conn s), Ok e)) : ST (option str);
      match moved with
      | Some _ =>
          _ ← TryDropTempTable tmp_table;
          ec ← (fun s => let '(t, e) := remove (tree s) tmp_path in (mkStore t (conn s), Ok e)) : ST (option str);
          fail (InternalError (tag ++ $": failed to rename " ++ tmp_path ++ $" -> " ++ parquet_path ++ $": " ++
                               default $"Success" ec))
      | None => TryDropTempTable tmp_table
      end
  end.

(** The archive step of the version log; the directory it copies into is made
    when there is a file to copy. *)
Definition archive_before_replace (id : TableId) (parquet_path : str) (mutation_ts_ms : Z) : ST unit := fun s =>
  let t := tree s in
  let '(d, r) := ArchiveParquetBeforeReplace data_dir (disk t) id parquet_path mutation_ts_ms mutation_ts_ms in
  let versions_dir := TableVersionsDir data_dir id in
  let made :=
    exists_file (disk t) parquet_path && is_ok (LoadVersionIndexOrInit data_dir (disk t) id mutation_ts_ms) &&
    match create_directories (disk t) versions_dir with None => true | Some _ => false end in
  (mkStore (mkTree d (if made then {[versions_dir]} ∪ list_to_set (ancestors versions_dir) ∪ dirs t else dirs t))
     (conn s), r).

(** ** Changing rows *)

Definition EnsureTableMetaExists (id : TableId) : ST unit := find_table data_dir id.

Definition table_schema (id : TableId) : ST TableSchema :=
  contents ← read_file (TableMetaPath id);
  sch ← lift (ParseTableMetaJson contents);
  mret (ParquetStorageSchema sch).

Definition AppendRows (now_ms : Z) (id : TableId) (rows : list Row) : ST unit :=
  _ ← EnsureTableMetaExists id;
  match rows with
  | [] => mret ()
  | _ =>
      physical ← table_schema id;
      _ ← lift (ValidateRowsShape $"AppendRows" id rows (length (columns physical)));
      let parquet_path := TableParquetPath id in
      let tmp_path := parquet_path ++ $".tmp" in
      let tmp_table := $"main.__bqemu_append" in
      _ ← RunSql ($"CREATE OR REPLACE TEMP TABLE " ++ tmp_table ++ $" " ++ RenderColumnList physical);
      there ← exists_ parquet_path;
      _ ← (if there : bool
           then or_drop tmp_table (RunSql ($"INSERT INTO " ++ tmp_table ++ $" SELECT " ++
                  RenderColumnIdentList physical ++ $" FROM read_parquet('" ++
                  EscapeStringLiteralInner parquet_path ++ $"')"))
           else mret ());
      insert ← or_drop tmp_table (lift (BuildBatchInsertSql tmp_table rows physical));
      _ ← or_drop tmp_table (RunSql insert);
      _ ← archive_before_replace id parquet_path now_ms;
      SnapshotTempTableToParquet $"AppendRows" tmp_table tmp_path parquet_path
  end.

Definition OverwriteRows (now_ms : Z) (id : TableId) (rows : list Row) : ST unit :=
  _ ← EnsureTableMetaExists id;
  physical ← table_schema id;
  _ ← lift (ValidateRowsShape $"OverwriteRows" id rows (length (columns physical)));
  let parquet_path := TableParquetPath id in
  let tmp_path := parquet_path ++ $".tmp" in
  let tmp_table := $"main.__bqemu_overwrite" in
  _ ← RunSql ($"CREATE OR REPLACE TEMP TABLE " ++ tmp_table ++ $" " ++ RenderColumnList physical);
  _ ← match rows with
      | [] => mret ()
      | _ => insert ← or_drop tmp_table (lift (BuildBatchInsertSql tmp_table rows physical));
             or_drop tmp_table (RunSql insert)
      end;
  _ ← archive_before_replace id parquet_path now_ms;
  SnapshotTempTableToParquet $"OverwriteRows" tmp_table tmp_path parquet_path.

(** ** Reading rows *)

Definition ExecuteSelect (sql : str) (sch : TableSchema) (tag : str) (id : TableId) (parquet_path : str)
    : ST (list Row) :=
  r ← query sql;
  match r with
  | Err detail => fail (InternalError (tag ++ $": duckdb_query failed for " ++ parquet_path ++ $": " ++ detail))
  | Ok res =>
      if negb (bool_decide (column_count res = length (columns sch)))
      then fail (InternalError (tag ++ $": parquet file has " ++ StrInt (Z.of_nat (column_count res)) ++
             $" column(s) but sidecar schema declares " ++ StrInt (Z.of_nat (length (columns sch))) ++
             $" for table " ++ table_name id))
      else lift (outcome_mapM (fun row => cs ← ReadCells row 0 (columns sch); Ok (mkRow cs)) (db_rows res))
  end.

Definition ScanRows (id : TableId) : ST RowIterator :=
  _ ← find_table data_dir id;
  physical ← table_schema id;
  let parquet_path := TableParquetPath id in
  there ← exists_ parquet_path;
  if negb there then mret (mkIterator [] None)
  else
  rows ← ExecuteSelect ($"SELECT " ++ RenderColumnIdentList physical ++ $" FROM read_parquet('" ++
           EscapeStringLiteralInner parquet_path ++ $"')") physical $"ScanRows" id parquet_path;
  mret (mkIterator rows None).

Definition CreateReadStream (id : TableId) (filter : ReadFilter) : ST RowIterator :=
  _ ← find_table data_dir id;
  physical ← table_schema id;
  let parquet_path := TableParquetPath id in
  there ← exists_ parquet_path;
  if negb there then mret (mkIterator [] None)
  else
  plan ← lift (PlanReadStreamProjection physical filter);
  rows ← ExecuteSelect (BuildReadStreamSql parquet_path (select_cols plan) filter) (effective_schema plan)
           $"CreateReadStream" id parquet_path;
  mret (mkIterator rows None).

Definition CountParquetRows (parquet_path where_ : str) : ST Z :=
  r ← query ($"SELECT COUNT(*) FROM read_parquet('" ++ EscapeStringLiteralInner parquet_path ++
             $"', file_row_number = true)" ++ RenderWhereSqlClause where_);
  match r with
  | Err detail => fail (InternalError ($"CountParquetRows: duckdb_query failed: " ++ detail))
  | Ok res =>
      match db_rows res, column_count res with
      | [row], 1 => mret (value_int64 row 0)
      | _, _ => fail (InternalError $"CountParquetRows: unexpected COUNT(*) result shape")
      end
  end.

Definition CountRows (id : TableId) : ST Z :=
  _ ← find_table data_dir id;
  there ← exists_ (TableParquetPath id);
  if negb there then mret 0%Z else CountParquetRows (TableParquetPath id) [].

(** Whether the dataset's directory and the table's sidecar are there. *)
Definition table_present (t : Tree) (id : TableId) : bool :=
  path_exists t (DatasetDirFromStorage data_dir id) && path_exists t (TableMetaPath id).

Definition ParquetSnapshotPath (t : Tree) (id : TableId) : option str :=
  if table_present t id && path_exists t (TableParquetPath id) then Some (TableParquetPath id) else None.

Definition ParquetSnapshotPathAt (t : Tree) (now_ms : Z) (id : TableId) (as_of_ms : Z) : StatusOr (option str) :=
  if negb (table_present t id) then Ok None
  else p ← ResolveParquetSnapshotAt data_dir (disk t) id (TableParquetPath id) as_of_ms now_ms now_ms; Ok (Some p).
End rows.

(** ** A change is atomic *)

(** DuckDB changes files only in a COPY, and then only the one it names. *)
Class DuckDbFiles `{DuckDb} : Prop := {
  #[global] plain_statements :: QueryFiles;
  copy_files d fs table path q :
    q <> path -> (duckdb_query d fs (copy_sql table path)).1.2 !! q = fs !! q;
}.

Section laws.
Context `{AbslTextLaws} `{ProtoJson} `{DuckDbFiles} `{DuckText} `{CFloat} (data_dir : str) (id : TableId).
Context (Hid : table_ok id).

Abbreviation meta := (live_stem data_dir id ++ $".meta.json").
Abbreviation parquet := (live_stem data_dir id ++ $".parquet").
Abbreviation tmp := (live_stem data_dir id ++ $".parquet.tmp").

(** The two files a reader of the table depends on. *)
Definition table_file (k : str) : Prop := k = meta \/ k = parquet.

(** Statements run in order on a connection over the files [fs], each with
    success. *)
Inductive runs (fs : gmap str str) : db -> list str -> db -> Prop :=
| runs_nil c : runs fs c [] c
| runs_snoc c sqls c1 sql c2 fs' res :
    runs fs c sqls c1 -> duckdb_query c1 fs sql = (c2, fs', Ok res) -> runs fs c (sqls ++ [sql]) c2.

(** The physical schema of the sidecar. *)
Definition sidecar_schema (t : Tree) (physical : TableSchema) : Prop :=
  exists contents sch, ReadFile (disk t) meta = Ok contents /\ ParseTableMetaJson contents = Ok sch /\
    physical = ParquetStorageSchema sch.

Abbreviation create_sql table physical :=
  ($"CREATE OR REPLACE TEMP TABLE " ++ table ++ $" " ++ RenderColumnList physical).

(** The statements that fill the temporary table: the rows of the Parquet file when
    there is one, then the new rows; for a replacement the new rows alone. *)
Definition append_loads (t : Tree) (rows : list Row) (sqls : list str) : Prop :=
  exists physical insert, sidecar_schema t physical /\
    BuildBatchInsertSql $"main.__bqemu_append" rows physical = Ok insert /\
    sqls = (create_sql $"main.__bqemu_append" physical ::
            if path_exists t parquet
            then [$"INSERT INTO " ++ $"main.__bqemu_append" ++ $" SELECT " ++ RenderColumnIdentList physical ++
                  $" FROM read_parquet('" ++ EscapeStringLiteralInner parquet ++ $"')"]
            else []) ++ [insert].

Definition overwrite_loads (t : Tree) (rows : list Row) (sqls : list str) : Prop :=
  exists physical, sidecar_schema t physical /\
    match rows with
    | [] => sqls = [create_sql $"main.__bqemu_overwrite" physical]
    | _ => exists insert, BuildBatchInsertSql $"main.__bqemu_overwrite" rows physical = Ok insert /\
             sqls = [create_sql $"main.__bqemu_overwrite" physical; insert]
    end.

(** The outcome of writing a table filled on a connection: the sidecar stays; after
    a failure the rows stay; after a success the COPY of [table] succeeded and the
    rows are the file it wrote. *)
Definition replaced (table : str) (c : db) (t : Tree) (out : Store * StatusOr unit) : Prop :=
  tree_files (tree out.1) !! meta = tree_files t !! meta /\
  match out.2 with
  | Err _ => tree_files (tree out.1) !! parquet = tree_files t !! parquet
  | Ok _ => exists fs c' fs' res, duckdb_query c fs (copy_sql table tmp) = (c', fs', Ok res) /\
              tree_files (tree out.1) !! parquet = fs' !! tmp
  end.

(** The outcome of a change from the store [s]: in the case of success the COPY ran
    on the connection that had run the statements of [loads] on the files of
    [s]. *)
Definition atomic (table : str) (loads : list str -> Prop) (s : Store) (out : Store * StatusOr unit) : Prop :=
  tree_files (tree out.1) !! meta = tree_files (tree s) !! meta /\
  match out.2 with
  | Err _ => tree_files (tree out.1) !! parquet = tree_files (tree s) !! parquet
  | Ok _ => exists sqls c fs c' fs' res, loads sqls /\ runs (tree_files (tree s)) (conn s) sqls c /\
              duckdb_query c fs (copy_sql table tmp) = (c', fs', Ok res) /\
              tree_files (tree out.1) !! parquet = fs' !! tmp
  end.

(** The rest of a change, after the statements [ran]. *)
Definition safe (table : str) (loads : list str -> Prop) (s0 : Store) (ran : list str) (m : ST unit) : Prop :=
  forall s, tree s = tree s0 -> runs (tree_files (tree s0)) (conn s0) ran (conn s) -> atomic table loads s0 (m s).

(** Steps that leave the tree alone, and steps that leave the store alone. *)
Definition quiet {A} (m : ST A) : Prop := forall s, tree (m s).1 = tree s.
Definition still {A} (m : ST A) : Prop := forall s, (m s).1 = s.

Lemma safe_still {A} table loads s0 ran (m : ST A) (k : A -> ST unit) :
  still m -> (forall a s, tree s = tree s0 -> (m s).2 = Ok a -> safe table loads s0 ran (k a)) ->
  safe table loads s0 ran (m ≫= k).
Proof.
  intros Q K s E R. specialize (Q s). unfold mbind, ST_bind.
  destruct (m s) as [s' [a|e]] eqn:M; cbn in Q; subst s'.
  - apply (K a s); [done|by rewrite M|done..].
  - unfold atomic. cbn. by rewrite E.
Qed.

Lemma quiet_bind {A B} (m : ST A) (k : A -> ST B) : quiet m -> (forall a, quiet (k a)) -> quiet (m ≫= k).
Proof.
  intros Q K s. specialize (Q s). unfold mbind, ST_bind. destruct (m s) as [s' [a|e]]; cbn in *; [|done].
  rewrite <- Q. apply K.
Qed.

Lemma quiet_ret {A} (a : A) : quiet (mret a).
Proof. done. Qed.
Lemma quiet_fail {A} e : quiet (@fail _ A e).
Proof. done. Qed.
Lemma quiet_lift {A} (r : StatusOr A) : quiet (lift r).
Proof. done. Qed.
Lemma quiet_reads {A} (f : Store -> A) : quiet (reads f).
Proof. done. Qed.
Lemma quiet_read_file p : quiet (read_file p).
Proof. done. Qed.
Lemma quiet_try {A} (m : ST A) : quiet m -> quiet (try_ m).
Proof. intros Q s. specialize (Q s). unfold try_. by destruct (m s). Qed.

Lemma quiet_query sql : strip_prefix $"COPY " sql = None -> quiet (query sql).
Proof.
  intros N s. unfold query. pose proof (query_files (conn s) (tree_files (tree s)) sql N) as Q.
  destruct (duckdb_query _ _ _) as [[c fs] r]. cbn in *. subst fs. unfold tree_files.
  destruct (tree s) as [[] ?]. done.
Qed.

Create HintDb quiet.
Hint Resolve quiet_bind quiet_ret quiet_fail quiet_lift quiet_reads quiet_read_file quiet_try quiet_query : quiet.

Lemma quiet_RunSql sql : strip_prefix $"COPY " sql = None -> quiet (RunSql sql).
Proof. intros N. apply quiet_bind; [by apply quiet_query|]. intros []; auto with quiet. Qed.

Lemma quiet_drop table : quiet (TryDropTempTable table).
Proof. apply quiet_bind; [by apply quiet_try, quiet_RunSql|]. auto with quiet. Qed.

Lemma quiet_or_drop {A} table (m : ST A) : quiet m -> quiet (or_drop table m).
Proof.
  intros Q. apply quiet_bind; [by apply quiet_try|]. intros []; [apply quiet_ret|].
  apply quiet_bind; [apply quiet_drop|]. auto with quiet.
Qed.

Lemma still_find_table : still (find_table data_dir id).
Proof. intros s. unfold find_table, mbind, ST_bind, exists_, reads. by repeat case_match. Qed.

Lemma still_schema : still (table_schema data_dir id).
Proof. intros s. unfold table_schema, mbind, ST_bind, read_file, lift. by repeat case_match. Qed.

Lemma schema_of_sidecar s physical : (table_schema data_dir id s).2 = Ok physical ->
  TableMetaPathFromStorage data_dir id = meta -> sidecar_schema (tree s) physical.
Proof.
  unfold table_schema, mbind, ST_bind, read_file, lift. intros E P. rewrite P in E.
  destruct (ReadFile (disk (tree s)) meta) as [contents|] eqn:F; [|done].
  destruct (ParseTableMetaJson contents) as [sch|] eqn:M; [|done]. injection E as <-. by exists contents, sch.
Qed.

(** A statement of the change that succeeds is one more that ran. *)
Lemma safe_run table loads s0 ran sql (k : unit -> ST unit) : strip_prefix $"COPY " sql = None ->
  safe table loads s0 (ran ++ [sql]) (k ()) -> safe table loads s0 ran (RunSql sql ≫= k).
Proof.
  intros N K s E R. pose proof (quiet_RunSql sql N s) as Q. unfold mbind, ST_bind at 1.
  destruct (RunSql sql s) as [s' [[]|e]] eqn:M; cbn in Q.
  - apply K; [congruence|]. unfold RunSql, query, mbind, ST_bind in M. rewrite <- E.
    destruct (duckdb_query _ _ sql) as [[c fs] [res|]] eqn:D; [|done]. injection M as <-. cbn.
    rewrite <- E in R. by eapply runs_snoc.
  - unfold atomic. cbn. by rewrite Q, E.
Qed.

Lemma or_drop_Ok {A} table (m : ST A) (k : A -> ST unit) loads s0 ran :
  quiet m -> safe table loads s0 ran (m ≫= k) -> safe table loads s0 ran (or_drop table m ≫= k).
Proof.
  intros Q K s E R. specialize (K s E R). specialize (Q s). pose proof (quiet_drop table (m s).1) as D.
  unfold or_drop, mbind, ST_bind, try_ in K |- *. destruct (m s) as [s' [a|e]]; cbn in *; [done|].
  destruct (TryDropTempTable table s') as [s1 [u|e']]; unfold atomic; cbn in *; by rewrite D, Q, E.
Qed.

(** *** The archive *)

(** The archived versions that the index names are files of the versions'
    directory. *)
Definition index_sane (d : Disk) (now_ms : Z) : Prop :=
  forall index, LoadVersionIndexOrInit data_dir d id now_ms = Ok index ->
  Forall (fun v => component (file v)) (versions index).

Lemma versions_file n : component n ->
  path_join (TableVersionsDir data_dir id) n = live_stem data_dir id ++ $".versions" ++ "/"%char :: n.
Proof.
  intros N. unfold TableVersionsDir. rewrite live_path_text by first [done|by apply literal_without].
  destruct Hid as [_ _ T _]. rewrite join_below; [by rewrite <- app_assoc| |done].
  exists (dir_prefix data_dir ++ project_id id ++ "/"%char :: dataset_id id ++ ["/"%char]), (table_id id ++ $".versions").
  split; [unfold live_stem; by reassociate|]. apply component_app; [done|by apply literal_without].
Qed.

Lemma other_file k y : table_file k -> live_stem data_dir id ++ $".versions" ++ y <> k.
Proof. intros K E. destruct K; subst k; apply app_inv_head in E; discriminate E. Qed.

Lemma prune_keeps d l k : table_file k -> Forall (fun v => component (file v)) l ->
  files (fold_left (fun d v => remove_file d (path_join (TableVersionsDir data_dir id) (file v))) l d) !! k =
  files d !! k.
Proof.
  intros K F. revert d. induction F as [|v l V _ IH]; intros d; [done|]. cbn. rewrite IH.
  unfold remove_file. assert (path_join (TableVersionsDir data_dir id) (file v) <> k) as N.
  { rewrite versions_file by done. by apply other_file. }
  repeat case_match; try done; by apply lookup_delete_ne.
Qed.

Lemma write_keeps d p c k : p <> k -> p ++ $".tmp" <> k -> files (WriteFileAtomic d p c).1 !! k = files d !! k.
Proof.
  intros N T. unfold WriteFileAtomic. repeat case_match; cbn; try done;
    rewrite ?lookup_insert_ne, ?lookup_delete_ne by done; done.
Qed.

Lemma finish_keeps d index now k : table_file k -> Forall (fun v => component (file v)) (versions index) ->
  files (FinishArchive data_dir d index id now).1 !! k = files d !! k.
Proof.
  intros K F. unfold FinishArchive, WriteVersionIndex. cbn [PruneOldVersions].
  unfold TableVersionsIndexPath. rewrite live_path_text by first [done|by apply literal_without].
  rewrite write_keeps.
  - cbn. apply prune_keeps; [done|]. apply Forall_forall. intros v Hv. rewrite Forall_forall in F. apply F.
    apply list_elem_of_In in Hv. apply filter_In in Hv as [Hv _]. by apply list_elem_of_In.
  - by apply (other_file k $".json").
  - rewrite <- app_assoc. by apply (other_file k ($".json" ++ $".tmp")).
Qed.

Lemma sort_versions_elem v l : v ∈ sort_versions l -> v ∈ l.
Proof.
  assert (forall w m, v ∈ insert_version w m -> v = w \/ v ∈ m) as I.
  { intros w m. induction m as [|u m IH]; cbn; [set_solver|]. case_match; set_solver. }
  induction l as [|w l IH]; cbn; [done|]. intros [->|Hv]%I; set_solver.
Qed.

Lemma archive_keeps d now k : table_file k -> index_sane d now ->
  files (ArchiveParquetBeforeReplace data_dir d id parquet now now).1 !! k = files d !! k.
Proof.
  intros K S. unfold ArchiveParquetBeforeReplace. unfold index_sane in S.
  destruct (LoadVersionIndexOrInit data_dir d id now) as [index|e]; [|by case_match].
  specialize (S _ eq_refl). case_match; [by apply finish_keeps|]. case_match; [done|].
  set (name := StrInt (current_ts_ms index) ++ $".parquet").
  assert (component name) as N by (apply component_app; [apply StrInt_component|by apply literal_without]).
  rewrite (versions_file name N). unfold copy_file.
  assert (forall c, files (set_file d (live_stem data_dir id ++ $".versions" ++ "/"%char :: name) c) !! k =
    files d !! k) as C.
  { intros c. cbn. apply lookup_insert_ne. by apply other_file. }
  assert (Forall (fun v => component (file v))
    (sort_versions (versions index ++ [mkEntry (current_ts_ms index) name]))) as F.
  { apply Forall_forall. intros v Hv%sort_versions_elem. rewrite Forall_forall in S.
    apply elem_of_app in Hv as [Hv|Hv]; [by apply S|]. apply list_elem_of_singleton in Hv as ->. done. }
  repeat case_match; simplify_eq; try done; rewrite finish_keeps by done; apply C.
Qed.

Lemma archive_step now s : index_sane (disk (tree s)) now ->
  forall k, table_file k ->
  tree_files (tree (archive_before_replace data_dir id parquet now s).1) !! k = tree_files (tree s) !! k.
Proof.
  intros S k K. unfold archive_before_replace. pose proof (archive_keeps (disk (tree s)) now k K S) as E.
  destruct (ArchiveParquetBeforeReplace _ _ _ _ _ _) as [d r]. exact E.
Qed.

(** *** The snapshot *)

Lemma tmp_file k : table_file k -> tmp <> k.
Proof. intros K E. destruct K; subst k; apply app_inv_head in E; discriminate E. Qed.

Lemma remove_keeps t p k : p <> k -> tree_files (remove t p).1 !! k = tree_files t !! k.
Proof.
  intros N. unfold remove. repeat case_match; cbn; try done; by apply lookup_delete_ne.
Qed.

Lemma copy_step table s : forall k, table_file k ->
  tree_files (tree (RunSql (copy_sql table tmp) s).1) !! k = tree_files (tree s) !! k.
Proof.
  intros k K. unfold RunSql, query, mbind, ST_bind.
  pose proof (copy_files (conn s) (tree_files (tree s)) table tmp k) as C.
  destruct (duckdb_query _ _ _) as [[c fs] []]; cbn in *; apply C; intros ->; by apply (tmp_file tmp).
Qed.

Lemma drop_step table s k : tree_files (tree (TryDropTempTable table s).1) !! k = tree_files (tree s) !! k.
Proof. by rewrite (quiet_drop table s). Qed.

Lemma copied_files table s s' u : RunSql (copy_sql table tmp) s = (s', Ok u) ->
  exists c' res, duckdb_query (conn s) (tree_files (tree s)) (copy_sql table tmp) = (c', tree_files (tree s'), Ok res).
Proof.
  unfold RunSql, query, mbind, ST_bind. destruct (duckdb_query _ _ _) as [[c fs] []]; cbn; [|done].
  intros [= <-]. by eexists _, _.
Qed.

Lemma snapshot_replaces tag table s :
  replaced table (conn s) (tree s) (SnapshotTempTableToParquet tag table tmp parquet s).
Proof.
  set (s1 := mkStore (remove (tree s) tmp).1 (conn s)).
  assert (forall k, table_file k -> tree_files (tree s1) !! k = tree_files (tree s) !! k) as K1.
  { intros k K. apply remove_keeps. by apply tmp_file. }
  assert (SnapshotTempTableToParquet tag table tmp parquet s =
    match RunSql (copy_sql table tmp) s1 with
    | (s2, Err e) => (mkStore (remove (tree (TryDropTempTable table s2).1) tmp).1 (conn (TryDropTempTable table s2).1), Err e)
    | (s2, Ok _) =>
        match rename (tree s2) tmp parquet with
        | (t, Some _) =>
            let s3 := (TryDropTempTable table (mkStore t (conn s2))).1 in
            (mkStore (remove (tree s3) tmp).1 (conn s3),
             Err (InternalError (tag ++ $": failed to rename " ++ tmp ++ $" -> " ++ parquet ++ $": " ++
                                 default $"Success" (remove (tree s3) tmp).2)))
        | (t, None) => ((TryDropTempTable table (mkStore t (conn s2))).1, Ok ())
        end
    end) as ->.
  { unfold SnapshotTempTableToParquet, mbind, ST_bind, on_tree, try_. fold s1.
    destruct (RunSql (copy_sql table tmp) s1) as [s2 [u|e]].
    - destruct (rename (tree s2) tmp parquet) as [t [m|]].
      + unfold TryDropTempTable, mbind, ST_bind, try_. destruct (RunSql _ _) as [s3 r]. cbn. by destruct (remove (tree s3) tmp).
      + unfold TryDropTempTable, mbind, ST_bind, try_. by destruct (RunSql _ _).
    - unfold TryDropTempTable, mbind, ST_bind, try_. by destruct (RunSql _ _). }
  pose proof (copy_step table s1) as K2. destruct (RunSql (copy_sql table tmp) s1) as [s2 [u|e]] eqn:E; cbn in K2.
  - destruct (rename (tree s2) tmp parquet) as [t [m|]] eqn:R.
    + apply rename_failed in R as ->. unfold replaced. cbn [fst snd].
      assert (forall k, table_file k ->
        tree_files (tree (mkStore (remove (tree (TryDropTempTable table (mkStore (tree s2) (conn s2))).1) tmp).1
          (conn (TryDropTempTable table (mkStore (tree s2) (conn s2))).1))) !! k = tree_files (tree s) !! k) as K.
      { intros k K. cbn [tree]. rewrite remove_keeps by (by apply tmp_file). by rewrite drop_step, <- K1, <- K2. }
      split; apply K; [by left|by right].
    + unfold replaced. cbn [fst snd]. rewrite !drop_step. cbn [tree]. split.
      * rewrite (rename_lookup _ _ _ _ _ R); [|by rewrite under_cancel..]. rewrite K2, K1; [done|by left..].
      * rewrite (rename_target _ _ _ _ (stem_apart (live_stem data_dir id) $".parquet.tmp" $".parquet" eq_refl eq_refl) R).
        destruct (copied_files _ _ _ _ E) as (c' & res & Q). by eexists _, _, _, _.
  - unfold replaced. cbn [fst snd tree]. rewrite !remove_keeps by (apply tmp_file; (by left) || by right).
    rewrite !drop_step, !K2, !K1 by ((by left) || by right). done.
Qed.

(** *** The operations *)

Lemma safe_end tag table (loads : list str -> Prop) s0 ran now :
  index_sane (disk (tree s0)) now -> loads ran ->
  safe table loads s0 ran (archive_before_replace data_dir id parquet now ≫= fun _ =>
    SnapshotTempTableToParquet tag table tmp parquet).
Proof.
  intros S Lo s E R. rewrite <- E in S. pose proof (archive_step now s S) as K. unfold mbind, ST_bind.
  assert (conn (archive_before_replace data_dir id parquet now s).1 = conn s) as C
    by (unfold archive_before_replace; by destruct (ArchiveParquetBeforeReplace _ _ _ _ _ _)).
  destruct (archive_before_replace data_dir id parquet now s) as [s1 [u|e]]; cbn in K, C; unfold atomic; cbn [fst snd].
  - destruct (snapshot_replaces tag table s1) as [M P]. rewrite M, K, E by (by left). split; [done|].
    destruct (SnapshotTempTableToParquet _ _ _ _ s1) as [s2 []]; cbn in *; [|by rewrite P, K, E by (by right)].
    destruct P as (fs & c' & fs' & res & Q & F). rewrite C in Q. by exists ran, (conn s), fs, c', fs', res.
  - rewrite !K, E by ((by left) || by right). done.
Qed.

Lemma insert_sql t rows sch sql : BuildBatchInsertSql t rows sch = Ok sql -> strip_prefix $"COPY " sql = None.
Proof.
  unfold BuildBatchInsertSql. intros (x & _ & E)%bind_Ok. by injection E as <-.
Qed.

Lemma insert_safe table loads s0 ran rows sch (k : ST unit) :
  (forall insert, BuildBatchInsertSql table rows sch = Ok insert -> safe table loads s0 (ran ++ [insert]) k) ->
  safe table loads s0 ran (insert ← or_drop table (lift (BuildBatchInsertSql table rows sch));
                _ ← or_drop table (RunSql insert); k).
Proof.
  intros K. apply or_drop_Ok; [done|]. apply safe_still; [done|]. intros insert s _ E. cbn in E.
  pose proof (insert_sql _ _ _ _ E) as N. apply or_drop_Ok; [by apply quiet_RunSql|]. apply safe_run; [done|]. by apply K.
Qed.

Lemma paths_of_table :
  TableMetaPathFromStorage data_dir id = meta /\ TableParquetPathFromStorage data_dir id = parquet /\
  TableParquetPathFromStorage data_dir id ++ $".tmp" = tmp.
Proof.
  unfold TableMetaPathFromStorage, TableParquetPathFromStorage.
  rewrite !live_path_text by first [done|by apply literal_without]. split_and!; try done. by rewrite <- app_assoc.
Qed.

Lemma sidecar_at s0 s physical : tree s = tree s0 -> (table_schema data_dir id s).2 = Ok physical ->
  sidecar_schema (tree s0) physical.
Proof. intros <- E. apply schema_of_sidecar; [done|]. apply paths_of_table. Qed.

Lemma append_safe now rows s : rows <> [] -> index_sane (disk (tree s)) now ->
  safe $"main.__bqemu_append" (append_loads (tree s) rows) s [] (AppendRows data_dir now id rows).
Proof.
  intros N S. unfold AppendRows. destruct paths_of_table as (_ & -> & T).
  rewrite <- app_assoc. change ($".parquet" ++ $".tmp") with $".parquet.tmp".
  apply safe_still; [apply still_find_table|]. intros _ _ _ _. destruct rows as [|r rows]; [done|].
  apply safe_still; [apply still_schema|]. intros physical s' E' F. pose proof (sidecar_at s s' physical E' F) as P.
  apply safe_still; [done|]. intros _ _ _ _. apply safe_run; [done|].
  apply safe_still; [done|]. intros there s'' E'' [= <-]. rewrite E''.
  assert (forall insert, BuildBatchInsertSql $"main.__bqemu_append" (r :: rows) physical = Ok insert ->
    append_loads (tree s) (r :: rows) ((create_sql $"main.__bqemu_append" physical ::
            if path_exists (tree s) parquet
            then [$"INSERT INTO " ++ $"main.__bqemu_append" ++ $" SELECT " ++ RenderColumnIdentList physical ++
                  $" FROM read_parquet('" ++ EscapeStringLiteralInner parquet ++ $"')"]
            else []) ++ [insert])) as L by (intros insert B; by exists physical, insert).
  destruct (path_exists (tree s) parquet).
  - apply or_drop_Ok; [by apply quiet_RunSql|]. apply safe_run; [done|]. apply insert_safe. intros insert B.
    apply safe_end; [done|]. by apply L.
  - apply safe_still; [done|]. intros _ _ _ _. apply insert_safe. intros insert B. apply safe_end; [done|]. by apply L.
Qed.

Lemma overwrite_safe now rows s : index_sane (disk (tree s)) now ->
  safe $"main.__bqemu_overwrite" (overwrite_loads (tree s) rows) s [] (OverwriteRows data_dir now id rows).
Proof.
  intros S. unfold OverwriteRows. destruct paths_of_table as (_ & -> & T).
  rewrite <- app_assoc. change ($".parquet" ++ $".tmp") with $".parquet.tmp".
  apply safe_still; [apply still_find_table|]. intros _ _ _ _.
  apply safe_still; [apply still_schema|]. intros physical s' E' F. pose proof (sidecar_at s s' physical E' F) as P.
  apply safe_still; [done|]. intros _ _ _ _. apply safe_run; [done|]. destruct rows as [|r rows].
  - apply safe_still; [done|]. intros _ _ _ _. apply safe_end; [done|]. by exists physical.
  - pose proof (insert_safe $"main.__bqemu_overwrite" (overwrite_loads (tree s) (r :: rows)) s
      ([] ++ [create_sql $"main.__bqemu_overwrite" physical]) (r :: rows) physical
      (archive_before_replace data_dir id parquet now ≫= fun _ =>
         SnapshotTempTableToParquet $"OverwriteRows" $"main.__bqemu_overwrite" tmp parquet)) as I.
    intros s2 E R. refine (_ (I _ s2 E R)).
    + unfold mbind, ST_bind. destruct (or_drop _ (lift _) s2) as [s3 [sql|e]]; [|done].
      by destruct (or_drop _ (RunSql sql) s3) as [s4 [u|e]].
    + intros insert B. apply safe_end; [done|]. exists physical. split; [done|]. by exists insert.
Qed.

(** C18: appending rows, or replacing them, is atomic for the readers of a table,
    whatever statement or file operation fails on the way.  The sidecar is never
    touched.  When the call fails, the Parquet file is the one that was there.
    When it succeeds, DuckDB has run, each with success, the statements that create
    the temporary table and load it (from the Parquet file when there is one, for
    an append, and from the rows of the call), then the COPY of that table to the
    temporary path, and the Parquet file is the file this COPY wrote.  Appending no
    rows changes nothing. *)
Theorem append_atomic now rows s
    (Hindex : index_sane (disk (tree s)) now) :
  atomic $"main.__bqemu_overwrite" (overwrite_loads (tree s) rows) s (OverwriteRows data_dir now id rows s) /\
  match rows with
  | [] => (AppendRows data_dir now id rows s).1 = s
  | _ => atomic $"main.__bqemu_append" (append_loads (tree s) rows) s (AppendRows data_dir now id rows s)
  end.
Proof.
  split; [apply overwrite_safe; [done..|constructor]|]. destruct rows as [|r rows].
  - unfold AppendRows, EnsureTableMetaExists. pose proof (still_find_table s) as S. unfold mbind, ST_bind.
    destruct (find_table data_dir id s) as [s' [u|e]]; exact S.
  - by apply append_safe; [..|constructor].
Qed.
End laws.
