(* ===== verification/CatalogExamples.v ===== *)
(** * CatalogExamples: the catalog storage on concrete trees

    A database that accepts every statement and keeps what it was sent, a
    schema printer for two schemas, and a data directory with one table: the
    theorems of [SidecarProps] and [CatalogProps] at these inputs. *)

From S2P Require Import Prelude Order Absl AbslReference Schema Storage DuckDbSql VersionLog SidecarJson SidecarProps FileTree Registry CatalogStorage CatalogProps.
From S2P Require Import DuckDbList RowStorage.

Module CatalogDemo.

(** The statements that were run, all accepted, none with rows. *)
#[local] Instance statement_log : DuckDb := {|
  db := list str;
  duckdb_query d files sql := (d ++ [sql], files, Ok (mkResult 0 []));
|}.

(** ** Deciding the hypotheses on a tree *)

Definition tree_okb (t : Tree) : bool :=
  forallb (fun k => forallb (fun a => bool_decide (a ∈ dirs t)) (ancestors k)) (all_paths t) &&
  forallb (fun k => negb (bool_decide (k ∈ dirs t))) (map_to_list (tree_files t)).*1.

Definition free_dirb (t : Tree) (p : str) : bool :=
  forallb (fun k => negb (under p k)) (all_paths t) &&
  forallb (fun a => match tree_files t !! a with None => true | Some _ => false end) (ancestors p).

Lemma in_tree_paths t k : in_tree (tree_files t) (dirs t) k -> In k (all_paths t).
Proof.
  intros [[v E]|E]; apply list_elem_of_In, elem_of_app.
  - left. apply list_elem_of_fmap. exists (k, v). split; [done|]. by apply elem_of_map_to_list.
  - right. by apply elem_of_elements.
Qed.

Lemma tree_okb_sound t : healthy_tree t -> tree_okb t = true -> tree_ok t.
Proof.
  intros Hh [A B]%andb_prop. rewrite forallb_forall in A, B. split; [done|..].
  - intros k a K Ha. specialize (A k (in_tree_paths t k K)). rewrite forallb_forall in A.
    apply list_elem_of_In, A, bool_decide_eq_true in Ha. done.
  - intros k [v E]. specialize (B k). apply negb_true_iff, bool_decide_eq_false in B; [done|].
    apply list_elem_of_In, list_elem_of_fmap. exists (k, v). split; [done|]. by apply elem_of_map_to_list.
Qed.

Lemma free_dirb_sound t p : free_dirb t p = true -> free_dir t p.
Proof.
  intros [A B]%andb_prop. rewrite forallb_forall in A, B. split.
  - intros k K. apply negb_true_iff, A. by apply in_tree_paths.
  - intros a Ha. apply list_elem_of_In in Ha. specialize (B a Ha). by destruct (tree_files t !! a).
Qed.

(** ** A data directory *)

Definition demo_files : gmap str str := list_to_map [
  ($"/data/p/d/_dataset.meta.json", $"{}");
  ($"/data/p/d/t.meta.json", $"{ }");
  ($"/data/p/d/t.parquet", $"PAR1 rows PAR1");
  ($"/data/p/d/t.versions.json", $"{}");
  ($"/data/p/d/t.versions/7.parquet", $"PAR1 old PAR1");
  ($"/data/p/d/u.meta.json", $"{ }")].
Definition demo_dirs : gset str := list_to_set [
  $"/"; $"/data"; $"/data/p"; $"/data/p/d"; $"/data/p/d/t.versions"].
Definition demo_tree : Tree := mkTree (mkDisk demo_files (fun _ => None)) demo_dirs.
Definition demo_table : TableId := mkTableId $"p" $"d" $"t".
Definition demo_store : Store := mkStore demo_tree [].

Lemma demo_table_ok : table_ok demo_table.
Proof. split; try (split; [done|]; by apply literal_without). done. Qed.

(** The rows and the archived version are in the tombstone after the drop. *)
Lemma dropped_table_restores_witness :
  exists s1 s2 : Store,
    DropTable $"/data" 9 demo_table demo_store = (s1, Ok ()) /\
    tree_files (tree s1) !! $"/data/.tombstones/p.d/t/9/t.parquet" = Some $"PAR1 rows PAR1" /\
    tree_files (tree s1) !! $"/data/.tombstones/p.d/t/9/t.versions/7.parquet" = Some $"PAR1 old PAR1" /\
    tree_files (tree s1) !! $"/data/p/d/t.versions/7.parquet" = None /\
    tree_files (tree s1) !! $"/data/p/d/u.meta.json" = Some $"{ }" /\
    RestoreTable $"/data" demo_table 9 s1 = (s2, Ok ()) /\
    tree_files (tree s2) = demo_files.
Proof.
  destruct (dropped_table_restores $"/data" demo_table 9 demo_store demo_table_ok) as (s1 & s2 & E & M & O & _ & R & F & _).
  - apply tree_okb_sound; [done|]. vm_compute. reflexivity.
  - apply free_dirb_sound. vm_compute. reflexivity.
  - done.
  - apply (bool_decide_unpack _). vm_compute. exact I.
  - vm_compute. by eexists.
  - exists s1, s2. split; [exact E|]. split_and!; [..|exact R|exact F].
    + apply (M $"/data/p/d/t.parquet" $"/data/.tombstones/p.d/t/9/t.parquet" []); [|by left].
      apply (bool_decide_unpack _). vm_compute. exact I.
    + apply (M $"/data/p/d/t.versions" $"/data/.tombstones/p.d/t/9/t.versions" $"/7.parquet"); [|right; by eexists].
      apply (bool_decide_unpack _). vm_compute. exact I.
    + apply (M $"/data/p/d/t.versions" $"/data/.tombstones/p.d/t/9/t.versions" $"/7.parquet"); [|right; by eexists].
      apply (bool_decide_unpack _). vm_compute. exact I.
    + apply O. intros m Hm. unfold tombstone_moves in Hm. rewrite !elem_of_cons, elem_of_nil in Hm.
      destruct Hm as [->|[->|[->|[->|[]]]]]; split; vm_compute; reflexivity.
Defined.

(** ** Sidecars *)

(** The schema [id STRING], and no schema, as protobuf prints them. *)
Definition demo_proto : TableSchemaProto := mkTableSchemaProto [mkField $"id" $"STRING" $"NULLABLE" [] []].
Definition demo_json : str :=
  $"{" ++ quoted $"fields" ++ $": [ { " ++ quoted $"name" ++ $": " ++ quoted $"id" ++ $" } ] }".

#[local] Instance demo_printer : ProtoJson := {|
  MessageToJsonString p :=
    match p with
    | mkTableSchemaProto [mkField n t m [] []] =>
        if bool_decide ((n, t, m) = ($"id", $"STRING", $"NULLABLE")) then Ok (demo_json ++ [newline])
        else Err $"no text for this schema"
    | mkTableSchemaProto [] => Ok ($"{}" ++ [newline])
    | _ => Err $"no text for this schema"
    end;
  JsonStringToMessage s :=
    if decide (s = demo_json) then Ok demo_proto
    else if decide (s = $"{}") then Ok (mkTableSchemaProto []) else Err $"no schema";
|}.

#[local] Instance demo_printer_laws : ProtoJsonLaws.
Proof.
  split. intros [[|[n t m [|? ?] [|? ?]] [|? ?]]] j; cbn; try done.
  - intros [= <-]. exists $"{}". split_and!; [done| |done]. eexists. split; [done|]. done.
  - case_bool_decide as E; [|done]. simplify_eq. intros <-%Ok_inj. exists demo_json.
    split_and!; [done| |done]. eexists. split; [done|]. done.
Qed.

Definition demo_schema : TableSchema := mkTableSchema [mkColumn $"id" kString kNullable [] [] []].

Lemma demo_schema_wf : wf_schema demo_schema.
Proof. repeat constructor; done. Qed.

Definition two_lines : str := $"CREATE VIEW v AS" ++ [newline] ++ $"SELECT id FROM p.d.t".

Lemma sidecar_roundtrip_witness :
  exists json, RenderViewTableMetaJson demo_schema $"SELECT id FROM p.d.t" two_lines = Ok json /\
    ParseTableMetaJson json = Ok demo_schema /\
    ParseTableResourceInfo json = mkResourceInfo $"VIEW" $"SELECT id FROM p.d.t" two_lines.
Proof.
  destruct (sidecar_roundtrip demo_schema $"SELECT id FROM p.d.t" two_lines demo_schema_wf) as (_ & S & V).
  eexists. split; [reflexivity|]. split; [by apply S|]. eapply V; [reflexivity|reflexivity|].
  repeat constructor; vm_compute; reflexivity.
Defined.

(** ** REST metadata *)

Definition labels (v : str) : str := $"{" ++ quoted $"labels" ++ $": {" ++ quoted $"env" ++ $": " ++ quoted v ++ $"}}".

Lemma rest_metadata_first_kept_witness :
  let meta := RenderDatasetMetaJson $"US" in
  ExtractRestMetadataFromDatasetMetaJson (MergeRestMetadataIntoDatasetMetaJson meta (labels $"dev")) =
    labels $"dev" /\
  ExtractRestMetadataFromDatasetMetaJson
    (MergeRestMetadataIntoDatasetMetaJson (MergeRestMetadataIntoDatasetMetaJson meta (labels $"dev"))
       (labels $"prod")) = labels $"dev".
Proof.
  apply rest_metadata_first_kept.
  - split; [by eexists|]. exists (take (length (labels $"dev") - 1) (labels $"dev")). vm_compute. reflexivity.
  - split; [by eexists|]. exists (take (length (labels $"prod") - 1) (labels $"prod")). vm_compute. reflexivity.
  - vm_compute. reflexivity.
Defined.

(** ** The registry *)

Definition demo_view : ViewRecord := mkView (mkViewId $"p" $"d" $"v") two_lines [] (mkTableSchema []).
Definition demo_routine : RoutineRecord :=
  mkRoutine (mkRoutineId $"p" $"d" $"f") kScalarFunction $"SQL" $"CREATE FUNCTION f() AS (1)" false [].
Definition demo_policy : RowAccessPolicyRecord := mkPolicy $"only_eu" $"region = 'EU'" [$"user:a@b.c"] 5 5.
Definition demo_governance : list (TableId * TableGovernance) :=
  [(demo_table, mkGovernance [demo_policy] [])].

Definition snapshot_store : Store :=
  mkStore (mkTree (mkDisk (list_to_map [
      ($"/tomb/views.json", RenderObjects (map RenderViewRecordJson [demo_view]));
      ($"/tomb/routines.json", RenderObjects (map RenderRoutineRecordJson [demo_routine]));
      ($"/tomb/governance.json", RenderGovernanceSnapshotJson demo_governance)])
    (fun _ => None)) (list_to_set [$"/tomb"; $"/data"; $"/data/p"; $"/data/p/d"])) [].

#[local] Instance demo_query_files : QueryFiles.
Proof. intros d fs sql _. reflexivity. Qed.

End CatalogDemo.

(** ** Appending rows on a concrete tree

    A database whose COPY of the append table writes one Parquet file, and the
    theorem of [RowStorage] on a table with a row. *)

Module RowDemo.
Import CatalogDemo.

Definition demo_tmp : str := $"/data/p/d/t.parquet.tmp".
Definition demo_copy : str := copy_sql $"main.__bqemu_append" demo_tmp.

(** Accepts every statement; the COPY of the append table writes its file. *)
#[local] Instance copying_db : DuckDb := {|
  db := unit;
  duckdb_query _ fs sql :=
    (tt, (if decide (sql = demo_copy) then <[demo_tmp := $"PAR1 old and new PAR1"]> fs else fs),
     Ok (mkResult 0 []));
|}.

(** The text names no other file. *)
Lemma demo_copy_path table path : copy_sql table path = demo_copy -> path = demo_tmp.
Proof.
  unfold copy_sql. intros E.
  destruct (find_sub $" TO '" demo_copy) as [[a b]|] eqn:F; [|by vm_compute in F].
  destruct (rfind_sub $" TO '" demo_copy) as [[a' b']|] eqn:R; [|by vm_compute in R].
  assert (demo_copy = ($"COPY " ++ table) ++ $" TO '" ++
    (EscapeStringLiteralInner path ++ "'"%char :: $" (FORMAT PARQUET)")) as E'.
  { rewrite <- E, <- !app_assoc. done. }
  pose proof (find_sub_first _ _ _ _ _ _ F E') as L. pose proof (rfind_sub_last _ _ _ _ _ _ R E') as L'.
  assert (a = a' /\ b = b') as [<- <-].
  { vm_compute in F. vm_compute in R. injection F as <- <-. by injection R as <- <-. }
  pose proof (find_sub_Some _ _ _ _ F) as E2. rewrite E' in E2 at 1.
  apply app_inj_1 in E2 as [_ E2]; [|lia]. apply app_inv_head in E2.
  assert (QuotedRest b = Some (demo_tmp, $" (FORMAT PARQUET)")) as Q.
  { vm_compute in F. injection F as <- <-. vm_compute. reflexivity. }
  rewrite <- E2, QuotedRest_escape in Q by done. by injection Q.
Qed.

#[local] Instance copying_db_files : DuckDbFiles.
Proof.
  split.
  - intros d fs sql N. cbn. case_decide as E; [|done]. subst sql. by vm_compute in N.
  - intros d fs table path q Q. cbn. case_decide as E; [|done].
    apply demo_copy_path in E. subst path. by apply lookup_insert_ne.
Qed.

#[local] Existing Instance demo_printer.
#[local] Existing Instance DuckDbSql.Demo.demo_text.
#[local] Existing Instance DuckDbList.Demo.demo_cfloat.

Definition demo_meta : str := match RenderTableMetaJson demo_schema with Ok json => json | Err _ => [] end.

Definition row_store : Store :=
  mkStore (mkTree (mkDisk (list_to_map [
      ($"/data/p/d/t.meta.json", demo_meta); ($"/data/p/d/t.parquet", $"PAR1 old PAR1")])
    (fun _ => None)) (list_to_set [$"/data"; $"/data/p"; $"/data/p/d"])) tt.

Definition new_row : Row := mkRow [VString $"x"].

Lemma append_atomic_witness :
  atomic $"/data" demo_table $"main.__bqemu_append" (append_loads $"/data" demo_table (tree row_store) [new_row]) row_store
    (AppendRows $"/data" 9 demo_table [new_row] row_store) /\
  (AppendRows $"/data" 9 demo_table [new_row] row_store).2 = Ok () /\
  tree_files (tree (AppendRows $"/data" 9 demo_table [new_row] row_store).1) !! $"/data/p/d/t.parquet" =
    Some $"PAR1 old and new PAR1".
Proof.
  split.
  - apply (append_atomic $"/data" demo_table demo_table_ok 9 [new_row] row_store).
    intros index E. vm_compute in E. injection E as <-. constructor.
  - vm_compute. done.
Defined.
End RowDemo.
