(* ===== verification/ArrowToBq.v ===== *)
(** * ArrowToBq: cells of DuckDB's result vectors

    Models [backend/engine/duckdb/arrow_to_bq.cc], [arrow_to_bq_types.cc],
    [arrow_to_bq_read.cc] and [arrow_to_bq_internal.h]: how a cell of a result
    chunk becomes a value of a column, with the texts of dates, times, timestamps
    and decimals.

    A vector is flat memory with a logical type, a list (an offset and a length per
    row into a child vector) or a struct (one child per field).  The memory is read
    at the width the code casts it to; the readers are the class [VectorMemory],
    because DuckDB owns the layout. *)

From Stdlib Require Import SpecFloat.
From S2P Require Import Prelude Order Absl AbslReference Schema Storage.

(** ** Vectors *)

(** [duckdb_type], as far as the code tells its values apart. *)
Inductive DuckType :=
| TINYINT | SMALLINT | INTEGER | BIGINT | UTINYINT | USMALLINT | UINTEGER | UBIGINT | HUGEINT
| FLOAT | DOUBLE | DECIMAL | VARCHAR | BLOB | LIST | STRUCT | OtherType (id : Z).

#[export] Instance DuckType_eq_dec : EqDecision DuckType.
Proof. solve_decision. Defined.

(** [duckdb_hugeint]: an unsigned and a signed half. *)
Record duckdb_hugeint := mkHuge { lower : Z; upper : Z }.

(** [duckdb_logical_type]: a DECIMAL has a width, a scale and the type it is kept in. *)
Record LogicalType := mkLogical {
  type_id : DuckType;
  decimal_width : Z;
  decimal_scale : nat;
  decimal_internal_type : DuckType;
}.

Record duckdb_decimal := mkDecimal { dec_width : Z; dec_scale : nat; dec_value : duckdb_hugeint }.

Class VectorMemory := {
  memory : Type;
  read_bool : memory -> nat -> bool;
  read_int8 : memory -> nat -> Z;
  read_int16 : memory -> nat -> Z;
  read_int32 : memory -> nat -> Z;
  read_int64 : memory -> nat -> Z;
  read_uint8 : memory -> nat -> Z;
  read_uint16 : memory -> nat -> Z;
  read_uint32 : memory -> nat -> Z;
  read_uint64 : memory -> nat -> Z;
  read_hugeint : memory -> nat -> duckdb_hugeint;
  read_float : memory -> nat -> spec_float;
  read_double : memory -> nat -> spec_float;
  (** a [duckdb_string_t], inlined or behind its pointer *)
  read_string : memory -> nat -> str;
  type_number : DuckType -> Z;
  duckdb_decimal_to_double : duckdb_decimal -> spec_float;
  (** [absl::HexStringToBytes] *)
  HexStringToBytes : str -> option str;
}.

Inductive duckdb_vector `{VectorMemory} :=
| FlatVector (logical : LogicalType) (validity : option (list Z)) (data : memory)
| ListVector (validity : option (list Z)) (entries : list (nat * nat)) (child : duckdb_vector)
| StructVector (validity : option (list Z)) (children : list duckdb_vector).

(** ** Texts *)

Section texts.
Context `{AbslText}.

(** [int32_t] and [unsigned] arithmetic. *)
Definition i32 (z : Z) : Z := ((z + 0x80000000) mod 0x100000000 - 0x80000000)%Z.
Definition u32 (z : Z) : Z := (z mod 0x100000000)%Z.

(** The date of a day of an era of 400 years. *)
Definition era_date (era doe : Z) : Z * Z * Z :=
  let yoe := (u32 (doe - doe / 1460 + doe / 36524 - doe / 146096) / 365)%Z in
  let y := (yoe + era * 400)%Z in
  let doy := u32 (doe - (365 * yoe + yoe / 4 - yoe / 100)) in
  let mp := ((5 * doy + 2) / 153)%Z in
  let d := u32 (doy - (153 * mp + 2) / 5 + 1) in
  let m := if (mp <? 10)%Z then (mp + 3)%Z else u32 (mp - 9) in
  (if (m <=? 2)%Z then (y + 1)%Z else y, m, d).

Definition date_fields (days_since_epoch : Z) : Z * Z * Z :=
  let z := i32 (days_since_epoch + 719468) in
  let era := ((if (0 <=? z)%Z then z else i32 (z - 146096)) `quot` 146097)%Z in
  era_date era (u32 (z - era * 146097)).

Definition FormatDate (days_since_epoch : Z) : str :=
  let '(y, m, d) := date_fields days_since_epoch in
  PadInt 4 y ++ $"-" ++ PadInt 2 m ++ $"-" ++ PadInt 2 d.

Definition FormatTimeMicros (micros : Z) : str :=
  let micros := if (micros <? 0)%Z then 0%Z else micros in
  let total_seconds := (micros / 1000000)%Z in
  let fractional := (micros mod 1000000)%Z in
  let hh := ((total_seconds / 3600) mod 24)%Z in
  let mm := ((total_seconds / 60) mod 60)%Z in
  let ss := (total_seconds mod 60)%Z in
  PadInt 2 hh ++ $":" ++ PadInt 2 mm ++ $":" ++ PadInt 2 ss ++ $"." ++ PadInt 6 fractional.

Definition micros_per_day : Z := 86400 * 1000000.

Definition FormatTimestampMicros (micros : Z) : str :=
  let day := (micros `quot` micros_per_day)%Z in
  let rem := (micros - day * micros_per_day)%Z in
  let '(day, rem) := if (rem <? 0)%Z then ((day - 1)%Z, (rem + micros_per_day)%Z) else (day, rem) in
  FormatDate (i32 day) ++ $" " ++ FormatTimeMicros rem.

Definition FormatDecimalFromDigits (digits : str) (negative : bool) (scale : nat) : str :=
  let sign := if negative then $"-" else [] in
  match scale with
  | 0 => sign ++ digits
  | _ =>
      let digits := if length digits <=? scale
        then replicate (scale + 1 - length digits) "0"%char ++ digits else digits in
      sign ++ take (length digits - scale) digits ++ $"." ++ drop (length digits - scale) digits
  end.

Definition FormatDecimalInt64 (v : Z) (scale : nat) : str :=
  let negative := (v <? 0)%Z in
  let magnitude := if negative then u64 (u64 (- (v + 1)) + 1) else u64 v in
  FormatDecimalFromDigits (StrInt magnitude) negative scale.

(** The 128-bit integer of two halves. *)
Definition i128 (z : Z) : Z := ((z + 2 ^ 127) mod 2 ^ 128 - 2 ^ 127)%Z.
Definition hugeint_value (h : duckdb_hugeint) : Z := i128 (Z.lor (Z.shiftl (upper h) 64) (lower h)).

(** The digits from the last to the first; 39 rounds are enough for 128 bits. *)
Fixpoint digit_loop (fuel : nat) (magnitude : Z) (digits : str) : str :=
  match fuel with
  | 0 => digits
  | S fuel =>
      if (magnitude <=? 0)%Z then digits
      else digit_loop fuel (magnitude / 10) (byteof (48 + magnitude mod 10) :: digits)
  end.

Definition FormatDecimalHugeint (h : duckdb_hugeint) (scale : nat) : str :=
  let value := hugeint_value h in
  let negative := (value <? 0)%Z in
  let magnitude := if negative then (- (value + 1) + 1)%Z else value in
  let digits := if (magnitude =? 0)%Z then $"0" else digit_loop 39 magnitude [] in
  FormatDecimalFromDigits digits negative scale.

Definition Int64ToDuckdbHugeint (raw : Z) : duckdb_hugeint :=
  mkHuge (u64 raw) (if (raw <? 0)%Z then -1 else 0)%Z.

(** [static_cast<int64_t>] of a 64-bit pattern. *)
Definition as_int64 (z : Z) : Z := ((z + 2 ^ 63) mod 2 ^ 64 - 2 ^ 63)%Z.

Definition HugeintCellToInt64 (h : duckdb_hugeint) (column : ColumnSchema) : StatusOr Z :=
  let out_of_range := Err (OutOfRangeError ($"arrow_to_bq: INT64 column '" ++ col_name column
                        ++ $"' HUGEINT value exceeds INT64 range")) in
  if (upper h =? 0)%Z
  then if (int64_max <? lower h)%Z then out_of_range else Ok (lower h)
  else if (upper h =? -1)%Z then Ok (as_int64 (lower h))
  else out_of_range.

Definition is_xdigit (c : ascii) : bool :=
  let b := byteval c in
  ((48 <=? b) && (b <=? 57) || (65 <=? b) && (b <=? 70) || (97 <=? b) && (b <=? 102))%Z.

Definition DecodeDuckDbBlobText `{VectorMemory} (s : str) : StatusOr str :=
  if has_prefix s $"X'" && has_suffix s $"'" then
    let hex := take (length s - 3) (drop 2 s) in
    match HexStringToBytes hex with
    | Some out => Ok out
    | None => Err (InvalidArgumentError ($"arrow_to_bq: invalid BLOB hex literal X'" ++ hex ++ $"'"))
    end
  else
    match s with
    | "x"%char :: hex =>
        if (0 <? length hex) && Nat.even (length hex) && forallb is_xdigit hex
        then match HexStringToBytes hex with Some out => Ok out | None => Ok s end
        else Ok s
    | _ => Ok s
    end.
End texts.

(** ** Cells *)

(** The text a C routine reads: up to the first NUL. *)
Fixpoint c_str (s : str) : str :=
  match s with c :: s => if (byteval c =? 0)%Z then [] else c :: c_str s | [] => [] end.

(** [std::strtoll] on the text up to its first NUL: [None] when something is left
    over or nothing was read; values past the range are cut to its ends. *)
Definition strtoll_all `{AbslText} (text : str) : option Z :=
  let s := StripLeadingWhitespace (c_str text) in
  let '(negative, digits) :=
    match s with
    | "-"%char :: r => (true, r)
    | "+"%char :: r => (false, r)
    | _ => (false, s)
    end in
  if (0 <? length digits) && forallb ascii_isdigit digits
  then let n := of_digits 10 (map (fun c => byteval c - 48)%Z digits) in
       Some (Z.max int64_min (Z.min int64_max (if negative then - n else n)))%Z
  else None.

Section cells.
Context `{AbslText, VectorMemory}.

(** [RowIsValid]: a bit per row, none set aside when there is no mask.  A row past
    the mask is undefined in C++; here it is valid. *)
Definition RowIsValid (mask : option (list Z)) (row : nat) : bool :=
  match mask with
  | None => true
  | Some words => Z.testbit (nth (row / 64) words (-1)%Z) (Z.of_nat (row mod 64))
  end.

Definition backed_by (kind : str) (column : ColumnSchema) (t : DuckType) : Status :=
  UnimplementedError ($"arrow_to_bq: " ++ kind ++ $" column '" ++ col_name column
    ++ $"' backed by unsupported DuckDB type_id=" ++ StrInt (type_number t)).

Definition ReadInt64Cell (data : memory) (row : nat) (type_id : DuckType) (column : ColumnSchema) : StatusOr Value :=
  match type_id with
  | TINYINT => Ok (VInt64 (read_int8 data row))
  | SMALLINT => Ok (VInt64 (read_int16 data row))
  | INTEGER => Ok (VInt64 (read_int32 data row))
  | BIGINT => Ok (VInt64 (read_int64 data row))
  | UTINYINT => Ok (VInt64 (read_uint8 data row))
  | USMALLINT => Ok (VInt64 (read_uint16 data row))
  | UINTEGER => Ok (VInt64 (read_uint32 data row))
  | UBIGINT => Ok (VInt64 (as_int64 (read_uint64 data row)))
  | HUGEINT => VInt64 <$> HugeintCellToInt64 (read_hugeint data row) column
  | VARCHAR =>
      let text := read_string data row in
      match strtoll_all text with
      | Some parsed => Ok (VInt64 parsed)
      | None => Err (InvalidArgumentError ($"arrow_to_bq: INT64 column '" ++ col_name column
                  ++ $"' VARCHAR cell is not an integer: " ++ text))
      end
  | _ => Err (backed_by $"INT64" column type_id)
  end.

(** The decimal a cell holds, by the type it is kept in. *)
Definition decimal_payload (data : memory) (row : nat) (internal : DuckType) : option duckdb_hugeint :=
  match internal with
  | SMALLINT => Some (Int64ToDuckdbHugeint (read_int16 data row))
  | INTEGER => Some (Int64ToDuckdbHugeint (read_int32 data row))
  | BIGINT => Some (Int64ToDuckdbHugeint (read_int64 data row))
  | HUGEINT => Some (read_hugeint data row)
  | _ => None
  end.

Definition ReadDecimalCellAsDouble (data : memory) (row : nat) (logical : LogicalType) (column : ColumnSchema)
    : StatusOr spec_float :=
  match decimal_payload data row (decimal_internal_type logical) with
  | Some v => Ok (duckdb_decimal_to_double (mkDecimal (decimal_width logical) (decimal_scale logical) v))
  | None => Err (UnimplementedError ($"arrow_to_bq: FLOAT64 column '" ++ col_name column
              ++ $"' DECIMAL internal type is not yet supported"))
  end.

Definition ReadFloat64Cell (data : memory) (row : nat) (logical : LogicalType) (column : ColumnSchema) : StatusOr Value :=
  match type_id logical with
  | FLOAT => Ok (VFloat64 (read_float data row))
  | DOUBLE => Ok (VFloat64 (read_double data row))
  | DECIMAL => VFloat64 <$> ReadDecimalCellAsDouble data row logical column
  | t => Err (backed_by $"FLOAT64" column t)
  end.

Definition ReadDecimalCell (data : memory) (row : nat) (logical : LogicalType) (column : ColumnSchema) : StatusOr Value :=
  let scale := decimal_scale logical in
  match type_id logical with
  | VARCHAR => Ok (VString (read_string data row))
  | DECIMAL =>
      match decimal_internal_type logical with
      | SMALLINT => Ok (VString (FormatDecimalInt64 (read_int16 data row) scale))
      | INTEGER => Ok (VString (FormatDecimalInt64 (read_int32 data row) scale))
      | BIGINT => Ok (VString (FormatDecimalInt64 (read_int64 data row) scale))
      | HUGEINT => Ok (VString (FormatDecimalHugeint (read_hugeint data row) scale))
      | internal => Err (UnimplementedError ($"arrow_to_bq: DECIMAL column '" ++ col_name column
                      ++ $"' with unsupported internal storage type_id=" ++ StrInt (type_number internal)))
      end
  | t => Err (backed_by $"NUMERIC" column t)
  end.

Definition ReadScalarCell (data : memory) (row : nat) (logical : LogicalType) (column : ColumnSchema) : StatusOr Value :=
  let type_id := type_id logical in
  match col_type column with
  | kBool => Ok (VBool (read_bool data row))
  | kInt64 => ReadInt64Cell data row type_id column
  | kFloat64 => ReadFloat64Cell data row logical column
  | kString | kJson | kGeography => Ok (VString (read_string data row))
  | kBytes =>
      let raw := read_string data row in
      if bool_decide (type_id = BLOB) then Ok (VBytes raw) else VBytes <$> DecodeDuckDbBlobText raw
  | kDate => Ok (VString (FormatDate (read_int32 data row)))
  | kTime => Ok (VString (FormatTimeMicros (read_int64 data row)))
  | kDatetime | kTimestamp => Ok (VString (FormatTimestampMicros (read_int64 data row)))
  | kNumeric | kBignumeric => ReadDecimalCell data row logical column
  | kArray | kStruct => Err (FailedPreconditionError ($"arrow_to_bq: container column '" ++ col_name column
                          ++ $"' has no LIST/STRUCT vector backing"))
  | kUnknown =>
      if bool_decide (type_id = VARCHAR) then Ok (VString (read_string data row))
      else Err (UnimplementedError ($"arrow_to_bq: column '" ++ col_name column
             ++ $"' has unknown BigQuery type and non-VARCHAR DuckDB type_id=" ++ StrInt (type_number type_id)))
  end.

(** The column of one element: that of the array type, or the column itself
    without its repeated mode. *)
Definition element_column (column : ColumnSchema) : ColumnSchema :=
  match column with
  | mkColumn _ kArray _ _ _ (field :: _) => field
  | mkColumn n t _ d r fs => mkColumn n t kNullable d r fs
  end.

Definition is_repeated (column : ColumnSchema) : bool :=
  bool_decide (col_mode column = kRepeated) || bool_decide (col_type column = kArray).

Definition non_list (column : ColumnSchema) (t : DuckType) : Status :=
  FailedPreconditionError ($"arrow_to_bq: REPEATED column '" ++ col_name column
    ++ $"' is backed by non-LIST DuckDB vector (type_id=" ++ StrInt (type_number t) ++ $")").

Definition non_struct (column : ColumnSchema) (t : DuckType) : Status :=
  FailedPreconditionError ($"arrow_to_bq: STRUCT column '" ++ col_name column
    ++ $"' is backed by non-STRUCT DuckDB vector (type_id=" ++ StrInt (type_number t) ++ $")").

(** A struct is read by the column's fields; a field without a child vector is
    the null vector. *)
Fixpoint DispatchReadCellFromVector (vector : duckdb_vector) (row : nat) (column : ColumnSchema) : StatusOr Value :=
  match vector with
  | FlatVector logical validity data =>
      if negb (RowIsValid validity row) then Ok VNull
      else if is_repeated column then Err (non_list column (type_id logical))
      else if bool_decide (col_type column = kStruct) then Err (non_struct column (type_id logical))
      else ReadScalarCell data row logical column
  | ListVector validity entries child =>
      if negb (RowIsValid validity row) then Ok VNull
      else
        let '(offset, length) := nth row entries (0, 0) in
        VArray <$> outcome_mapM (fun i => DispatchReadCellFromVector child (offset + i) (element_column column))
                     (seq 0 length)
  | StructVector validity children =>
      if negb (RowIsValid validity row) then Ok VNull
      else if is_repeated column then Err (non_list column STRUCT)
      else
        VStruct <$>
          (fix fields (vs : list duckdb_vector) (cols : list ColumnSchema) : StatusOr (list Value) :=
             match cols, vs with
             | [], _ => Ok []
             | _ :: _, [] => Err (InvalidArgumentError $"arrow_to_bq: vector is null")
             | c :: cols, v :: vs =>
                 x ← DispatchReadCellFromVector v row c; xs ← fields vs cols; Ok (x :: xs)
             end) children (col_fields column)
  end.

Definition ReadCellFromVector := DispatchReadCellFromVector.

Fixpoint read_columns (vectors : list duckdb_vector) (row : nat) (cols : list ColumnSchema) : StatusOr (list Value) :=
  match vectors, cols with
  | v :: vectors, c :: cols =>
      x ← ReadCellFromVector v row c; xs ← read_columns vectors row cols; Ok (x :: xs)
  | _, _ => Ok []
  end.

(** A chunk is its vectors and its number of rows. *)
Record duckdb_data_chunk := mkChunk { chunk_vectors : list duckdb_vector; chunk_size : nat }.

Definition ChunkRowToCells (chunk : duckdb_data_chunk) (row : nat) (output_schema : TableSchema) : StatusOr Row :=
  let ncols := length (chunk_vectors chunk) in
  if negb (ncols =? length (columns output_schema))
  then Err (InvalidArgumentError ($"arrow_to_bq: chunk has " ++ StrInt (Z.of_nat ncols)
         ++ $" columns but analyzer output schema has " ++ StrInt (Z.of_nat (length (columns output_schema)))))
  else mkRow <$> read_columns (chunk_vectors chunk) row (columns output_schema).

(** The loop over the chunks of a result ([DrainResultToRows] and the like). *)
Definition drain_chunks (chunks : list duckdb_data_chunk) (sch : TableSchema) : StatusOr (list Row) :=
  (fun l => concat l) <$>
    outcome_mapM (fun c => outcome_mapM (fun i => ChunkRowToCells c i sch) (seq 0 (chunk_size c))) chunks.
End cells.

(** ** The calendar *)

Definition is_leap (y : Z) : bool := ((y mod 4 =? 0) && (negb (y mod 100 =? 0) || (y mod 400 =? 0)))%Z.

Definition month_length (y m : Z) : Z :=
  if (m =? 2)%Z then (if is_leap y then 29 else 28)
  else if ((m =? 4) || (m =? 6) || (m =? 9) || (m =? 11))%Z then 30 else 31.

Definition next_day (date : Z * Z * Z) : Z * Z * Z :=
  let '(y, m, d) := date in
  if (d <? month_length y m)%Z then (y, m, (d + 1)%Z)
  else if (m <? 12)%Z then (y, (m + 1)%Z, 1%Z) else ((y + 1)%Z, 1%Z, 1%Z).

(** The calendar starts its year on 1 March, so that the leap day comes last:
    [year_start] is the number of days from 1 March 0 to 1 March [y]. *)
Definition year_start (y : Z) : Z := (365 * y + y / 4 - y / 100 + y / 400)%Z.
Definition year_days (y : Z) : Z := if is_leap (y + 1) then 366 else 365.

(** Month and day of a day of such a year. *)
Definition month_of (doy : Z) : Z :=
  let mp := ((5 * doy + 2) / 153)%Z in if (mp <? 10)%Z then (mp + 3)%Z else (mp - 9)%Z.
Definition day_of (doy : Z) : Z := (doy - (153 * ((5 * doy + 2) / 153) + 2) / 5 + 1)%Z.
Definition march_fields (y doy : Z) : Z * Z * Z :=
  (if (month_of doy <=? 2)%Z then (y + 1)%Z else y, month_of doy, day_of doy).

(** The day of an era, with every leap day taken out. *)
Definition leapless (doe : Z) : Z := (doe - doe / 1460 + doe / 36524 - doe / 146096)%Z.

Lemma leapless_step d : (0 <= d < 146096)%Z -> (leapless d <= leapless (d + 1))%Z.
Proof.
  intros R. destruct (decide (d = 146095%Z)) as [->|N]; [by vm_compute|]. unfold leapless.
  rewrite (Z.div_small d 146096%Z), (Z.div_small (d + 1)%Z 146096%Z) by lia.
  assert (d / 36524 <= (d + 1) / 36524)%Z by (apply Z.div_le_mono; lia).
  assert ((d + 1) / 1460 <= d / 1460 + 1)%Z by (Z.to_euclidean_division_equations; lia). lia.
Qed.

Lemma leapless_mono a b : (0 <= a <= b)%Z -> (b <= 146096)%Z -> (leapless a <= leapless b)%Z.
Proof.
  intros R B. replace b with (a + Z.of_nat (Z.to_nat (b - a)))%Z by lia.
  assert (a + Z.of_nat (Z.to_nat (b - a)) <= 146096)%Z as L by lia. revert L. generalize (Z.to_nat (b - a)) as n.
  induction n as [|n IH]; intros L; [rewrite Z.add_0_r; lia|].
  etrans; [apply IH; lia|]. replace (a + Z.of_nat (S n))%Z with ((a + Z.of_nat n) + 1)%Z by lia. apply leapless_step. lia.
Qed.

Fixpoint upto (P : Z -> bool) (n : nat) : bool :=
  match n with 0 => true | S n => P (Z.of_nat n) && upto P n end.

Lemma upto_spec P n z : upto P n = true -> (0 <= z < Z.of_nat n)%Z -> P z = true.
Proof.
  induction n as [|n IH]; cbn [upto]; [lia|]. intros [E F]%andb_prop R.
  destruct (decide (z = Z.of_nat n)) as [->|]; [done|]. apply IH; [done|lia].
Qed.

(** The first and the last day of a year of the first era. *)
Lemma year_ends y : (0 <= y < 400)%Z ->
  (365 * y <= leapless (year_start y))%Z /\ (leapless (year_start (y + 1) - 1) < 365 * (y + 1))%Z /\
  (0 <= year_start y)%Z /\ (year_start (y + 1) <= 146097)%Z /\ year_start (y + 1) = (year_start y + year_days y)%Z.
Proof.
  intros R.
  assert (upto (fun y => (365 * y <=? leapless (year_start y)) && (leapless (year_start (y + 1) - 1) <? 365 * (y + 1)) &&
    (0 <=? year_start y) && (year_start (y + 1) <=? 146097) && (year_start (y + 1) =? year_start y + year_days y))%Z 400 = true)
    as C by (by vm_compute).
  pose proof (upto_spec _ _ y C ltac:(lia)) as E. cbv beta in E.
  rewrite !andb_true_iff, !Z.leb_le, Z.ltb_lt, Z.eqb_eq in E. tauto.
Qed.

Lemma year_of_day y doe : (0 <= y < 400)%Z -> (year_start y <= doe < year_start (y + 1))%Z -> (leapless doe / 365 = y)%Z.
Proof.
  intros R D. destruct (year_ends y R) as (A & B & C & E & _).
  pose proof (leapless_mono (year_start y) doe ltac:(lia) ltac:(lia)).
  pose proof (leapless_mono doe (year_start (y + 1) - 1) ltac:(lia) ltac:(lia)). Z.to_euclidean_division_equations. lia.
Qed.

(** Every day of an era is in one of its years. *)
Lemma day_in_year doe : (0 <= doe < 146097)%Z -> exists y, (0 <= y < 400)%Z /\ (year_start y <= doe < year_start (y + 1))%Z.
Proof.
  intros R. assert (forall n, (n <= 400)%nat -> (doe < year_start (Z.of_nat n))%Z ->
    exists y, (0 <= y < 400)%Z /\ (year_start y <= doe < year_start (y + 1))%Z) as S.
  { induction n as [|n IH]; intros L D; [change (year_start (Z.of_nat 0)) with 0%Z in D; lia|].
    destruct (decide (year_start (Z.of_nat n) <= doe)%Z).
    - exists (Z.of_nat n). replace (Z.of_nat n + 1)%Z with (Z.of_nat (S n)) by lia. lia.
    - apply IH; lia. }
  apply (S 400 ltac:(lia)). change (year_start (Z.of_nat 400)) with 146097%Z. lia.
Qed.

Lemma i32_small z : (- 0x80000000 <= z < 0x80000000)%Z -> i32 z = z.
Proof. intros R. unfold i32. rewrite Z.mod_small by lia. lia. Qed.

Lemma u32_small z : (0 <= z < 0x100000000)%Z -> u32 z = z.
Proof. intros R. unfold u32. by rewrite Z.mod_small by lia. Qed.

Lemma doy_ends doy : (0 <= doy < 366)%Z ->
  (0 <= (5 * doy + 2) / 153 <= 11)%Z /\ (1 <= day_of doy <= 31)%Z.
Proof. intros R. unfold day_of. Z.to_euclidean_division_equations. lia. Qed.

Lemma year_days_range y : (365 <= year_days y <= 366)%Z.
Proof. unfold year_days. case_match; lia. Qed.

(** Day [doy] of year [yoe] of an era, as the code computes it. *)
Lemma era_date_march era yoe doy :
  (0 <= yoe < 400)%Z -> (0 <= doy < year_days yoe)%Z ->
  era_date era (year_start yoe + doy) = march_fields (yoe + 400 * era) doy.
Proof.
  intros Y D. pose proof (year_days_range yoe). destruct (year_ends yoe Y) as (_ & _ & S0 & S1 & S2).
  pose proof (year_of_day yoe (year_start yoe + doy) Y ltac:(lia)) as E.
  assert (0 <= leapless (year_start yoe + doy) < 0x100000000)%Z by (Z.to_euclidean_division_equations; lia).
  unfold era_date. fold (leapless (year_start yoe + doy)). rewrite (u32_small (leapless _)), E by done.
  assert (year_start yoe + doy - (365 * yoe + yoe / 4 - yoe / 100) = doy)%Z as ->
    by (unfold year_start; rewrite (Z.div_small yoe 400) by lia; lia).
  rewrite (u32_small doy) by lia. cbv zeta. fold (day_of doy). destruct (doy_ends doy ltac:(lia)) as [M N].
  rewrite (u32_small (day_of doy)) by lia. unfold march_fields.
  assert ((if ((5 * doy + 2) / 153 <? 10)%Z then ((5 * doy + 2) / 153 + 3)%Z else u32 ((5 * doy + 2) / 153 - 9))
    = month_of doy) as ->.
  { unfold month_of. case_match eqn:C; [done|]. apply Z.ltb_ge in C. by rewrite u32_small by lia. }
  do 2 f_equal. case_match; lia.
Qed.

Lemma year_days_era yoe era : year_days (yoe + 400 * era) = year_days yoe.
Proof.
  unfold year_days, is_leap. replace (yoe + 400 * era + 1)%Z with (yoe + 1 + (100 * era) * 4)%Z by lia.
  rewrite Z.mod_add by lia. replace (yoe + 1 + (100 * era) * 4)%Z with (yoe + 1 + (4 * era) * 100)%Z by lia.
  rewrite Z.mod_add by lia. replace (yoe + 1 + (4 * era) * 100)%Z with (yoe + 1 + era * 400)%Z by lia.
  by rewrite Z.mod_add by lia.
Qed.

Lemma year_start_era yoe era : year_start (yoe + 400 * era) = (year_start yoe + era * 146097)%Z.
Proof.
  unfold year_start. replace ((yoe + 400 * era) / 4)%Z with (yoe / 4 + 100 * era)%Z by (Z.to_euclidean_division_equations; lia).
  replace ((yoe + 400 * era) / 100)%Z with (yoe / 100 + 4 * era)%Z by (Z.to_euclidean_division_equations; lia).
  replace ((yoe + 400 * era) / 400)%Z with (yoe / 400 + era)%Z by (Z.to_euclidean_division_equations; lia). lia.
Qed.

(** Days the code can tell: those for which the shift to 1 March 0 does not
    overflow. *)
Definition tellable (days : Z) : Prop := (- 0x80000000 <= days < 0x80000000 - 719468)%Z.

Lemma date_fields_march days :
  tellable days -> exists y doy, (0 <= doy < year_days y)%Z /\ days = (year_start y + doy - 719468)%Z /\
    date_fields days = march_fields y doy.
Proof.
  intros T. unfold tellable in T. set (z := (days + 719468)%Z). set (era := (z / 146097)%Z).
  assert (0 <= z - era * 146097 < 146097)%Z as R by (subst era; Z.to_euclidean_division_equations; lia).
  destruct (day_in_year _ R) as (yoe & Y & D). destruct (year_ends yoe Y) as (_ & _ & _ & _ & S2).
  exists (yoe + 400 * era)%Z, (z - era * 146097 - year_start yoe)%Z.
  rewrite year_days_era, year_start_era. split_and!; [lia..|].
  rewrite <- (era_date_march era yoe) by lia. unfold date_fields. fold z. rewrite (i32_small z) by lia.
  assert (((if (0 <=? z)%Z then z else i32 (z - 146096)) `quot` 146097 = era)%Z) as ->.
  { subst era. destruct (Z.leb_spec 0 z); [by rewrite Z.quot_div_nonneg by lia|].
    rewrite i32_small by lia. Z.to_euclidean_division_equations. lia. }
  rewrite u32_small by lia. f_equal. lia.
Qed.

Definition shift_years (n : Z) (date : Z * Z * Z) : Z * Z * Z :=
  let '(y, m, d) := date in ((y + n)%Z, m, d).

Lemma march_shift y doy : march_fields y doy = shift_years y (march_fields 0 doy).
Proof. unfold march_fields. cbn. do 2 f_equal. case_match; lia. Qed.

(** [next_day] in a year that starts on 1 March, by whether it ends on a leap day. *)
Definition next_march (leap : bool) (date : Z * Z * Z) : Z * Z * Z :=
  let '(y, m, d) := date in
  let len := if (m =? 2)%Z then (if leap then 29 else 28)%Z
    else if ((m =? 4) || (m =? 6) || (m =? 9) || (m =? 11))%Z then 30%Z else 31%Z in
  if (d <? len)%Z then (y, m, (d + 1)%Z)
  else if (m <? 12)%Z then (y, (m + 1)%Z, 1%Z) else ((y + 1)%Z, 1%Z, 1%Z).

Definition same_date (a b : Z * Z * Z) : bool :=
  let '(y, m, d) := a in let '(y', m', d') := b in ((y =? y') && (m =? m') && (d =? d'))%Z.

Lemma same_date_eq a b : same_date a b = true -> a = b.
Proof.
  destruct a as [[y m] d], b as [[y' m'] d']. cbn. rewrite !andb_true_iff, !Z.eqb_eq. by intros [[-> ->] ->].
Qed.

Lemma next_march_check (leap : bool) doy :
  (0 <= doy < if leap then 366 else 365)%Z ->
  next_march leap (march_fields 0 doy) =
  if (doy + 1 <? if leap then 366 else 365)%Z then march_fields 0 (doy + 1) else march_fields 1 0.
Proof.
  intros D. apply same_date_eq.
  apply (upto_spec (fun doy => same_date (next_march leap (march_fields 0 doy))
    (if (doy + 1 <? if leap then 366 else 365)%Z then march_fields 0 (doy + 1) else march_fields 1 0))
    (if leap then 366 else 365)); [by destruct leap; vm_compute|destruct leap; lia].
Qed.

Lemma next_day_march y doy :
  next_day (march_fields y doy) = shift_years y (next_march (is_leap (y + 1)) (march_fields 0 doy)).
Proof.
  unfold march_fields, next_day, next_march, month_length.
  destruct (Z.eqb_spec (month_of doy) 2) as [E|N].
  - rewrite E. cbn [Z.leb Z.compare Pos.compare Pos.compare_cont]. repeat case_match; cbn [shift_years]; do 2 f_equal; lia.
  - repeat case_match; cbn [shift_years]; do 2 f_equal; lia.
Qed.

(** The day after a day of a year is the next one of it, or the first of the next. *)
Lemma march_step y doy : (0 <= doy < year_days y)%Z ->
  next_day (march_fields y doy) =
  if (doy + 1 <? year_days y)%Z then march_fields y (doy + 1) else march_fields (y + 1) 0.
Proof.
  intros D. rewrite next_day_march. unfold year_days in *. rewrite next_march_check by (case_match; lia).
  match goal with |- shift_years _ (if ?b then _ else _) = _ => destruct b end; [by rewrite <- march_shift|].
  change (march_fields 1 0) with (1, 3, 1)%Z. change (march_fields (y + 1) 0) with (y + 1, 3, 1)%Z.
  cbn [shift_years]. by rewrite Z.add_comm.
Qed.

Lemma year_step y : year_start (y + 1) = (year_start y + year_days y)%Z.
Proof.
  pose proof (Z.div_mod y 400 ltac:(lia)). pose proof (Z.mod_pos_bound y 400 ltac:(lia)) as M.
  replace y with (y mod 400 + 400 * (y / 400))%Z by lia.
  replace (y mod 400 + 400 * (y / 400) + 1)%Z with ((y mod 400 + 1) + 400 * (y / 400))%Z by lia.
  rewrite !year_start_era, year_days_era. destruct (year_ends _ M) as (_ & _ & _ & _ & ->). lia.
Qed.

(** The days of a year are those between its start and the start of the next, so a
    day has one year. *)
Lemma year_start_mono a b : (a < b)%Z -> (year_start a + year_days a <= year_start b)%Z.
Proof.
  intros L. rewrite <- year_step. unfold year_start. Z.to_euclidean_division_equations. lia.
Qed.

Lemma march_unique y doy y' doy' :
  (0 <= doy < year_days y)%Z -> (0 <= doy' < year_days y')%Z ->
  (year_start y + doy = year_start y' + doy')%Z -> y = y' /\ doy = doy'.
Proof.
  intros D D' E. destruct (Z.lt_trichotomy y y') as [L|[->|L]]; [|lia|];
    apply year_start_mono in L; lia.
Qed.

Lemma next_date days : tellable days -> tellable (days + 1) -> date_fields (days + 1) = next_day (date_fields days).
Proof.
  intros T T'. destruct (date_fields_march _ T) as (y & doy & D & E & ->).
  destruct (date_fields_march _ T') as (y' & doy' & D' & E' & ->). rewrite march_step by done.
  destruct (Z.ltb_spec (doy + 1) (year_days y)) as [L|L].
  - destruct (march_unique y (doy + 1) y' doy') as [<- <-]; [lia..|done].
  - destruct (march_unique (y + 1) 0 y' doy') as [<- <-]; [|done|rewrite year_step; lia|done].
    pose proof (year_days_range (y + 1)). lia.
Qed.

Section timestamps.
Context `{AbslText}.

(** A timestamp is printed as the date and the time of day of its instant, for
    every 64-bit number of microseconds; day 0 is printed as 1 January 1970 and every
    day as the day after the one before it in the Gregorian calendar.  In the last
    719468 days of the 32-bit range the shift overflows (with the wrap-around of the
    machine, the first of them is printed a day late). *)
Theorem timestamp_text_exact micros (M : in_int64 micros) :
  (exists day hh mm ss f,
     tellable day /\ (0 <= hh < 24)%Z /\ (0 <= mm < 60)%Z /\ (0 <= ss < 60)%Z /\ (0 <= f < 1000000)%Z /\
     micros = (day * micros_per_day + ((hh * 60 + mm) * 60 + ss) * 1000000 + f)%Z /\
     FormatTimestampMicros micros = FormatDate day ++ $" " ++
       PadInt 2 hh ++ $":" ++ PadInt 2 mm ++ $":" ++ PadInt 2 ss ++ $"." ++ PadInt 6 f) /\
  date_fields 0 = (1970, 1, 1)%Z /\
  (forall day, tellable day -> tellable (day + 1) -> date_fields (day + 1) = next_day (date_fields day)) /\
  (date_fields (0x80000000 - 719469), date_fields (0x80000000 - 719468)) = ((5879610, 9, 9), (5879610, 9, 11))%Z.
Proof.
  split_and!; [|by vm_compute|exact next_date|by vm_compute].
  unfold in_int64, int64_min, int64_max in M. set (day := (micros / micros_per_day)%Z). set (rem := (micros mod micros_per_day)%Z).
  assert (0 <= rem < micros_per_day)%Z as R by (apply Z.mod_pos_bound; done).
  assert (micros = day * micros_per_day + rem)%Z as E by (subst day rem; pose proof (Z.div_mod micros micros_per_day ltac:(done)); lia).
  unfold micros_per_day in *. assert (tellable day) as T by (unfold tellable; lia).
  exists day, (rem / 1000000 / 3600)%Z, ((rem / 1000000 / 60) mod 60)%Z, ((rem / 1000000) mod 60)%Z, (rem mod 1000000)%Z.
  split_and!; [done|Z.to_euclidean_division_equations; lia..|].
  assert (FormatTimestampMicros micros = FormatDate (i32 day) ++ $" " ++ FormatTimeMicros rem) as ->.
  { unfold FormatTimestampMicros, micros_per_day. cbv zeta.
    destruct (Z.ltb_spec (micros - (micros `quot` (86400 * 1000000)) * (86400 * 1000000)) 0); cbv beta iota;
      f_equal; [f_equal| |f_equal|]; f_equal; try (f_equal; clearbody day rem; Z.to_euclidean_division_equations; lia). }
  unfold tellable in T. rewrite i32_small by lia. unfold FormatTimeMicros. destruct (Z.ltb_spec rem 0); [lia|].
  replace ((rem / 1000000 / 3600) mod 24)%Z with (rem / 1000000 / 3600)%Z; [done|].
  symmetry. apply Z.mod_small. Z.to_euclidean_division_equations. lia.
Qed.
End timestamps.

(** ** Decimals *)

Definition digits_value (s : str) : Z := of_digits 10 (map (fun c => byteval c - 48)%Z s).
Definition is_digit (c : ascii) : Prop := (48 <= byteval c <= 57)%Z.

(** The text of [v] divided by [10 ^ scale]: a sign when it is negative, at least one
    digit, and exactly [scale] digits after the point. *)
Definition decimal_text (t : str) (scale : nat) (v : Z) : Prop :=
  exists int frac,
    t = (if (v <? 0)%Z then $"-" else []) ++ int ++ (if scale =? 0 then [] else $"." ++ frac) /\
    int <> [] /\ length frac = scale /\ Forall is_digit (int ++ frac) /\ digits_value (int ++ frac) = Z.abs v.

Lemma digits_value_zeros n s : digits_value (replicate n "0"%char ++ s) = digits_value s.
Proof.
  unfold digits_value. rewrite map_app.
  replace (map (fun c => byteval c - 48)%Z (replicate n "0"%char)) with (replicate n 0%Z); [apply of_digits_zeros|].
  induction n as [|n IH]; cbn; [done|]. by rewrite <- IH.
Qed.

Lemma format_digits digits scale v :
  digits <> [] -> Forall is_digit digits -> digits_value digits = Z.abs v ->
  decimal_text (FormatDecimalFromDigits digits (v <? 0)%Z scale) scale v.
Proof.
  intros N D V. unfold FormatDecimalFromDigits. destruct scale as [|scale].
  { exists digits, []. rewrite !app_nil_r. by split_and!. }
  set (ds := if length digits <=? S scale then _ else _).
  assert (S scale < length ds /\ Forall is_digit ds /\ digits_value ds = Z.abs v) as (L & F & E).
  { subst ds. destruct (Nat.leb_spec (length digits) (S scale)); [|done].
    rewrite length_app, length_replicate, digits_value_zeros, Forall_app. split_and!; [lia|by apply Forall_replicate|done..]. }
  clearbody ds. exists (take (length ds - S scale) ds), (drop (length ds - S scale) ds).
  rewrite take_drop, length_drop. split_and!; [done| |lia|done..].
  intros T%(f_equal length). rewrite length_take in T. cbn in T. lia.
Qed.

Lemma digit_loop_value fuel n acc :
  (0 <= n < 10 ^ Z.of_nat fuel)%Z -> Forall is_digit acc ->
  let t := digit_loop fuel n acc in
  Forall is_digit t /\ digits_value t = (n * 10 ^ Z.of_nat (length acc) + digits_value acc)%Z /\
  ((0 < n)%Z \/ acc <> [] -> t <> []).
Proof.
  revert n acc. induction fuel as [|fuel IH]; intros n acc R F; cbn [digit_loop].
  { cbn in R. assert (n = 0%Z) as -> by lia. split_and!; [done|lia|]. by intros [?|?]; [lia|]. }
  destruct (Z.leb_spec n 0) as [L|L]. { assert (n = 0%Z) as -> by lia. split_and!; [done|lia|]. by intros [?|?]; [lia|]. }
  assert (byteval (byteof (48 + n mod 10)) = 48 + n mod 10)%Z as B.
  { rewrite byteval_byteof. apply Z.mod_small. pose proof (Z.mod_pos_bound n 10 ltac:(lia)). lia. }
  pose proof (Z.mod_pos_bound n 10 ltac:(lia)). rewrite Nat2Z.inj_succ, Z.pow_succ_r in R by lia.
  destruct (IH (n / 10)%Z (byteof (48 + n mod 10) :: acc)) as (G & E & Ne).
  { split; [apply Z.div_pos; lia|]. apply Z.div_lt_upper_bound; lia. }
  { constructor; [unfold is_digit; rewrite B; lia|done]. }
  split_and!; [done| |by intros _; apply Ne; right].
  rewrite E. unfold digits_value at 1. cbn [map]. rewrite of_digits_cons, B, length_map. fold (digits_value acc).
  cbn [length]. rewrite Nat2Z.inj_succ, Z.pow_succ_r by lia. pose proof (Z.div_mod n 10 ltac:(lia)). nia.
Qed.

Section decimals.
Context `{AbslTextLaws}.

Lemma StrInt_digits z : (0 <= z)%Z -> Forall is_digit (StrInt z).
Proof. intros Z0%StrInt_isdigit. eapply Forall_impl; [exact Z0|]. intros c. by rewrite ascii_isdigit_spec. Qed.

(** A DECIMAL is printed exactly, whatever integer it is kept in, the smallest one
    of 64 and of 128 bits included. *)
Theorem decimal_text_exact scale :
  (forall v, in_int64 v -> decimal_text (FormatDecimalInt64 v scale) scale v) /\
  (forall h, decimal_text (FormatDecimalHugeint h scale) scale (hugeint_value h)).
Proof.
  split.
  - intros v V. unfold FormatDecimalInt64. cbv zeta. unfold in_int64, int64_min, int64_max in V.
    assert ((if (v <? 0)%Z then u64 (u64 (- (v + 1)) + 1) else u64 v) = Z.abs v) as ->.
    { unfold u64. destruct (Z.ltb_spec v 0); [rewrite (Z.mod_small (- (v + 1))) by lia|]; rewrite Z.mod_small by lia; lia. }
    apply format_digits; [apply StrInt_nonempty|by apply StrInt_digits; lia|apply StrInt_value; lia].
  - intros h. unfold FormatDecimalHugeint. cbv zeta. set (v := hugeint_value h).
    assert (- 2 ^ 127 <= v < 2 ^ 127)%Z as V.
    { subst v. unfold hugeint_value, i128. pose proof (Z.mod_pos_bound (Z.lor (Z.shiftl (upper h) 64) (lower h) + 2 ^ 127) (2 ^ 128) ltac:(lia)). lia. }
    assert ((if (v <? 0)%Z then (- (v + 1) + 1)%Z else v) = Z.abs v) as -> by (destruct (Z.ltb_spec v 0); lia).
    destruct (Z.eqb_spec (Z.abs v) 0) as [E|N].
    + apply format_digits; [done| |by rewrite E]. constructor; [by vm_compute|done].
    + destruct (digit_loop_value 39 (Z.abs v) []) as (F & E & Ne); [lia|done|].
      apply format_digits; [apply Ne; left; lia|done|]. rewrite E. cbn. unfold digits_value, of_digits. cbn. lia.
Qed.
End decimals.

(** ** Narrowing *)

Lemma as_int64_small z : in_int64 z -> as_int64 z = z.
Proof. unfold in_int64, int64_min, int64_max, as_int64. intros R. rewrite Z.mod_small by lia. lia. Qed.

Lemma hugeint_halves h :
  in_uint64 (lower h) -> in_int64 (upper h) -> hugeint_value h = (upper h * 2 ^ 64 + lower h)%Z.
Proof.
  unfold in_uint64, in_int64, int64_min, int64_max. intros L U. unfold hugeint_value.
  assert (Z.lor (Z.shiftl (upper h) 64) (lower h) = upper h * 2 ^ 64 + lower h)%Z as ->.
  { assert (Z.land (Z.shiftl (upper h) 64) (lower h) = 0)%Z as D.
    { apply Z.bits_inj'. intros i I. rewrite Z.land_spec, Z.bits_0. destruct (decide (i < 64)%Z).
      - by rewrite Z.shiftl_spec_low by lia.
      - rewrite <- (Z.mod_small (lower h) (2 ^ 64)) by lia. rewrite Z.mod_pow2_bits_high by lia. apply andb_false_r. }
    pose proof (Z.add_lor_land (Z.shiftl (upper h) 64) (lower h)) as E. rewrite D in E.
    rewrite Z.shiftl_mul_pow2 in * by lia. lia. }
  unfold i128. rewrite Z.mod_small by lia. lia.
Qed.

(** A HUGEINT cell of an INT64 column gives its value when it has 64 bits and an
    error when it is larger or below [- 2 ^ 64]; between that and the smallest INT64
    it gives the value plus [2 ^ 64], which is positive. *)
Theorem hugeint_narrow h column (L : in_uint64 (lower h)) (U : in_int64 (upper h)) :
  (in_int64 (hugeint_value h) -> HugeintCellToInt64 h column = Ok (hugeint_value h)) /\
  ((int64_max < hugeint_value h \/ hugeint_value h < - 2 ^ 64)%Z -> is_ok (HugeintCellToInt64 h column) = false) /\
  ((- 2 ^ 64 <= hugeint_value h < int64_min)%Z ->
     HugeintCellToInt64 h column = Ok (hugeint_value h + 2 ^ 64)%Z /\ (0 <= hugeint_value h + 2 ^ 64)%Z).
Proof.
  rewrite hugeint_halves by done. unfold in_uint64, in_int64, int64_min, int64_max in *. unfold HugeintCellToInt64, int64_max.
  destruct (Z.eqb_spec (upper h) 0) as [E|E]; [|destruct (Z.eqb_spec (upper h) (-1)) as [E'|E']].
  - rewrite E. destruct (Z.ltb_spec (2 ^ 63 - 1) (lower h)); split_and!; intros; try lia; try done; f_equal; lia.
  - rewrite E'. split_and!; intros R; [|lia|split; [|lia]].
    + f_equal. unfold as_int64. symmetry. Z.to_euclidean_division_equations. lia.
    + f_equal. rewrite as_int64_small; unfold in_int64, int64_min, int64_max; lia.
  - split_and!; intros; [lia|done|lia].
Qed.

(** ** Closed examples *)
Module ArrowDemo.

Lemma timestamp_text_exact_witness :
  FormatTimestampMicros (-1) = $"1969-12-31 23:59:59.999999" /\ date_fields (0 + 1) = (1970, 1, 2)%Z.
Proof.
  destruct (timestamp_text_exact (-1) ltac:(unfold in_int64, int64_min, int64_max; lia)) as (_ & _ & N & _).
  split; [by vm_compute|]. rewrite (N 0%Z); [by vm_compute|unfold tellable; lia..].
Defined.

Lemma decimal_text_exact_witness :
  decimal_text (FormatDecimalInt64 int64_min 9) 9 int64_min /\
  FormatDecimalHugeint (mkHuge (2 ^ 64 - 5) (-1)) 2 = $"-0.05".
Proof.
  split; [|by vm_compute]. destruct (decimal_text_exact 9) as [D _]. apply D.
  unfold in_int64, int64_min, int64_max. lia.
Defined.

(** The number one below the smallest INT64 is read as the largest. *)
Lemma hugeint_narrow_witness :
  HugeintCellToInt64 (mkHuge (2 ^ 63 - 1) (-1)) (mkColumn $"n" kInt64 kNullable [] [] []) = Ok int64_max.
Proof.
  set (h := mkHuge (2 ^ 63 - 1) (-1)). set (c := mkColumn _ _ _ _ _ _).
  destruct (hugeint_narrow h c ltac:(by vm_compute) ltac:(by vm_compute)) as (_ & _ & N).
  destruct (N ltac:(by vm_compute)) as [E _]. exact E.
Defined.
End ArrowDemo.
