(* ===== verification/Governance.v ===== *)
(** * Governance: row access policies and column masks on query results

    Models [backend/catalog/table_governance.cc] and
    [backend/engine/duckdb/duckdb_executor_security.cc]: which policies grant a
    principal rows, the predicate they are combined to, and the mask of each output
    column.  The records are those of [SidecarJson]; the catalog's copies of them
    have the same fields.  SHA-256 is a parameter. *)

From Stdlib Require Import SpecFloat.
From S2P Require Import Prelude Order Absl AbslReference Schema Storage DuckDbSql SidecarJson.

#[export] Instance DataMaskKind_eq_dec : EqDecision DataMaskKind.
Proof. solve_decision. Defined.

Definition PermissionDeniedError (m : str) : Status := mkStatus kPermissionDenied m None.
Definition kEmulatorPrincipalEmail : str := $"emulator@bigquery.local".

(** [SHA256] of the OpenSSL library: the 32 bytes of the digest. *)
Class Sha256 := SHA256 : str -> str.

Section governance.
Context `{AbslText, Sha256}.

(** ** Principals *)

Definition GranteeMatchesPrincipal (grantee principal_email : str) : bool :=
  match grantee with
  | [] => false
  | _ =>
      match strip_prefix $"user:" grantee with
      | Some user => bool_decide (user = principal_email)
      | None => bool_decide (grantee = $"allAuthenticatedUsers") || bool_decide (grantee = $"allUsers")
      end
  end.

Definition GranteesIncludePrincipal (grantees : list str) (principal_email : str) : bool :=
  match grantees with
  | [] => true
  | _ => existsb (fun g => GranteeMatchesPrincipal g principal_email) grantees
  end.

(** ** Rows *)

(** The predicates of the policies that grant the principal, in order. *)
Fixpoint granted_parts (policies : list RowAccessPolicyRecord) (principal_email : str) : StatusOr (list str) :=
  match policies with
  | [] => Ok []
  | policy :: policies =>
      if negb (GranteesIncludePrincipal (grantees policy) principal_email)
      then granted_parts policies principal_email
      else match filter_predicate policy with
           | [] => Err (InvalidArgumentError $"row access policy filter predicate must be non-empty")
           | predicate =>
               parts ← granted_parts policies principal_email; Ok (($"(" ++ predicate ++ $")") :: parts)
           end
  end.

Definition ComposeRowAccessFilterSql (policies : list RowAccessPolicyRecord) (principal_email : str) : StatusOr str :=
  match policies with
  | [] => Ok []
  | _ =>
      parts ← granted_parts policies principal_email;
      match parts with
      | [] => Ok $"(FALSE)"
      | [part] => Ok part
      | _ => Ok ($"(" ++ join_text $" OR " parts ++ $")")
      end
  end.

(** ** Columns *)

Definition ParseDataMaskKind (name : str) : DataMaskKind :=
  let upper := AsciiStrToUpper name in
  if bool_decide (upper = $"NULLIFY") || bool_decide (upper = $"NULL") then kNullify
  else if bool_decide (upper = $"SHA256") || bool_decide (upper = $"HASH") then kSha256
  else if bool_decide (upper = $"DEFAULT") || bool_decide (upper = $"DEFAULT_VALUE") then kDefaultValue
  else if bool_decide (upper = $"DENIED") || bool_decide (upper = $"DENY") then kDenied
  else kNone.

Definition DataMaskKindName (kind : DataMaskKind) : str :=
  match kind with
  | kNullify => $"NULLIFY"
  | kSha256 => $"SHA256"
  | kDefaultValue => $"DEFAULT_VALUE"
  | kDenied => $"DENIED"
  | kNone => $"NONE"
  end.

Definition is_text (t : ColumnType) : bool :=
  match t with kString | kBytes => true | _ => false end.

Definition EffectiveColumnMask (column : ColumnGovernanceRecord) (column_type : ColumnType) (principal_email : str)
    : DataMaskKind :=
  let tagged := negb (bool_decide (policy_tags column = [])) in
  if negb tagged && bool_decide (mask_kind column = kNone) then kNone
  else
    let exempt := negb (bool_decide (mask_grantees column = []))
                  && GranteesIncludePrincipal (mask_grantees column) principal_email in
    if exempt then kNone
    else if negb (bool_decide (mask_kind column = kNone)) then mask_kind column
    else if tagged then (if is_text column_type then kSha256 else kNullify)
    else kNone.

Definition Sha256Hex (input : str) : str := flat_map hex_byte (SHA256 input).

(** The bytes of a STRING or BYTES cell; other cells have none. *)
Definition ApplyDataMask (mask : DataMaskKind) (column : ColumnGovernanceRecord) (column_type : ColumnType)
    (value : Value) : StatusOr Value :=
  match mask with
  | kNone => Ok value
  | kDenied => Err (PermissionDeniedError $"Access denied: caller lacks Fine-Grained Reader access to column")
  | kNullify => Ok VNull
  | kDefaultValue =>
      if is_text column_type then Ok (VString (default_mask_value column))
      else if bool_decide (column_type = kInt64) then
        match default_mask_value column with
        | [] => Ok (VInt64 0)
        | text => match SimpleAtoi text with
                  | Some v => Ok (VInt64 v)
                  | None => Err (InvalidArgumentError $"default mask value is not a valid INT64")
                  end
        end
      else Ok VNull
  | kSha256 =>
      match value with
      | VNull => Ok VNull
      | _ => if is_text column_type then Ok (VString (Sha256Hex (string_value value))) else Ok VNull
      end
  end.

Definition FindColumnGovernance (governance : TableGovernance) (column_name : str) : option ColumnGovernanceRecord :=
  snd <$> List.find (fun entry => bool_decide (fst entry = column_name)) (gov_columns governance).

Record OutputColumnMask := mkOutputMask {
  out_mask : DataMaskKind;
  out_governance : ColumnGovernanceRecord;
  out_column_type : ColumnType;
}.

Definition no_governance : ColumnGovernanceRecord := mkColumnGov [] kNone [] [].

Definition BuildOutputColumnMasks (output_schema : TableSchema) (table_governance : TableGovernance)
    (principal_email : str) : list OutputColumnMask :=
  map (fun column =>
    match FindColumnGovernance table_governance (col_name column) with
    | Some gov => mkOutputMask (EffectiveColumnMask gov (col_type column) principal_email) gov (col_type column)
    | None => mkOutputMask kNone no_governance (col_type column)
    end) (columns output_schema).

Fixpoint mask_cells (masks : list OutputColumnMask) (cs : list Value) : StatusOr (list Value) :=
  match masks, cs with
  | m :: masks, c :: cs =>
      c' ← ApplyDataMask (out_mask m) (out_governance m) (out_column_type m) c;
      cs' ← mask_cells masks cs; Ok (c' :: cs')
  | _, _ => Ok []
  end.

Definition ApplyOutputColumnMasks (masks : list OutputColumnMask) (row : Row) : StatusOr Row :=
  if negb (length masks =? length (cells row))
  then Err (InvalidArgumentError $"ApplyOutputColumnMasks: mask/cell count mismatch")
  else mkRow <$> mask_cells masks (cells row).

(** The governance of all tables of a query, one after the other. *)
Definition merge_governance (govs : list TableGovernance) : TableGovernance :=
  mkGovernance (flat_map row_access_policies govs) (flat_map gov_columns govs).

(** ** What a result shows

    In terms of the governance records and the grants alone. *)

(** A grant names the user, or all users. *)
Definition granted (grantees : list str) (principal_email : str) : Prop :=
  exists g, g ∈ grantees /\ (g = $"user:" ++ principal_email \/ g = $"allAuthenticatedUsers" \/ g = $"allUsers").

(** The record of a column: the first under its name. *)
Definition governs (governance : TableGovernance) (name : str) (g : ColumnGovernanceRecord) : Prop :=
  exists before after, gov_columns governance = before ++ (name, g) :: after /\ (name ∉ map fst before).

Definition is_protected (g : ColumnGovernanceRecord) : Prop := policy_tags g <> [] \/ mask_kind g <> kNone.

(** The principal sees the column as it is. *)
Definition clear (governance : TableGovernance) (principal_email name : str) : Prop :=
  forall g, governs governance name g -> is_protected g -> granted (mask_grantees g) principal_email.

(** The principal sees it masked by the record [g]. *)
Definition masked_by (governance : TableGovernance) (principal_email name : str) (g : ColumnGovernanceRecord) : Prop :=
  governs governance name g /\ is_protected g /\ ~ granted (mask_grantees g) principal_email.

(** What is returned for a cell: the cell itself; or a value that depends on the
    record and the column's type only; or the digest of the cell's bytes, where
    the record asks for one or has tags and no kind. *)
Inductive shown (governance : TableGovernance) (principal_email : str) (c : ColumnSchema) (v : Value) : Value -> Prop :=
| shown_clear : clear governance principal_email (col_name c) -> shown governance principal_email c v v
| shown_null g : masked_by governance principal_email (col_name c) g ->
    mask_kind g = kNullify \/
    ((mask_kind g = kSha256 \/ mask_kind g = kNone) /\ is_text (col_type c) = false) \/
    (mask_kind g = kDefaultValue /\ is_text (col_type c) = false /\ col_type c <> kInt64) ->
    shown governance principal_email c v VNull
| shown_default_text g : masked_by governance principal_email (col_name c) g -> mask_kind g = kDefaultValue ->
    is_text (col_type c) = true -> shown governance principal_email c v (VString (default_mask_value g))
| shown_default_int g n : masked_by governance principal_email (col_name c) g -> mask_kind g = kDefaultValue ->
    col_type c = kInt64 -> (default_mask_value g = [] /\ n = 0%Z \/ SimpleAtoi (default_mask_value g) = Some n) ->
    shown governance principal_email c v (VInt64 n)
| shown_digest g : masked_by governance principal_email (col_name c) g ->
    mask_kind g = kSha256 \/ mask_kind g = kNone -> is_text (col_type c) = true ->
    shown governance principal_email c v
      match v with VNull => VNull | _ => VString (Sha256Hex (string_value v)) end.

(** The column refuses the whole row. *)
Definition refused (governance : TableGovernance) (principal_email : str) (c : ColumnSchema) : Prop :=
  exists g, masked_by governance principal_email (col_name c) g /\
    (mask_kind g = kDenied \/
     (mask_kind g = kDefaultValue /\ col_type c = kInt64 /\ default_mask_value g <> [] /\
      SimpleAtoi (default_mask_value g) = None)).

Lemma match_grantee g p : GranteeMatchesPrincipal g p = true <->
  g = $"user:" ++ p \/ g = $"allAuthenticatedUsers" \/ g = $"allUsers".
Proof.
  unfold GranteeMatchesPrincipal. destruct g as [|c g]; [naive_solver|].
  destruct (strip_prefix $"user:" (c :: g)) as [user|] eqn:E.
  - apply strip_prefix_Some in E. rewrite bool_decide_eq_true, E. split; [by intros ->; left|].
    intros [F|[F|F]]; [by apply app_inv_head in F|discriminate F..].
  - rewrite orb_true_iff, !bool_decide_eq_true. split; [by right|]. intros [F|F]; [|done].
    rewrite F in E. assert (forall x y : str, strip_prefix x (x ++ y) = Some y) as A.
    { intros x y. induction x as [|d x IH]; [done|]. cbn. by rewrite decide_True. }
    by rewrite A in E.
Qed.

Lemma grantees_spec gs p :
  negb (bool_decide (gs = [])) && GranteesIncludePrincipal gs p = true <-> granted gs p.
Proof.
  destruct gs as [|g gs]; [split; [done|intros (g & I & _); by apply elem_of_nil in I]|].
  rewrite bool_decide_false by done. unfold GranteesIncludePrincipal. cbn [negb andb]. rewrite existsb_exists. unfold granted.
  split; intros (x & I & M); exists x; rewrite list_elem_of_In in *; (split; [done|]); by apply match_grantee.
Qed.

Lemma find_governance governance name :
  match FindColumnGovernance governance name with
  | Some g => governs governance name g
  | None => name ∉ map fst (gov_columns governance)
  end.
Proof.
  unfold FindColumnGovernance, governs. induction (gov_columns governance) as [|[n g] l IH]; cbn; [apply not_elem_of_nil|].
  case_bool_decide as E; cbn.
  - subst n. exists [], l. split; [done|apply not_elem_of_nil].
  - destruct (List.find _ l) as [[n' g']|]; cbn in *.
    + destruct IH as (b & a & -> & N). exists ((n, g) :: b), a. split; [done|]. cbn. by apply not_elem_of_cons.
    + by apply not_elem_of_cons.
Qed.

Lemma governs_unique governance name g g' : governs governance name g -> governs governance name g' -> g = g'.
Proof.
  intros (b & a & E & N) (b' & a' & E' & N'). rewrite E in E'. clear E governance.
  revert b' E' N'. induction b as [|[n x] b IH]; intros [|[n' x'] b'] E' N'; cbn in *.
  - by injection E'.
  - injection E' as <- <- _. destruct N'. by left.
  - injection E' as -> -> _. destruct N. by left.
  - injection E' as -> -> E'. rewrite not_elem_of_cons in N, N'. eapply IH; [apply N|exact E'|apply N'].
Qed.

Lemma tags_spec g : negb (negb (bool_decide (policy_tags g = []))) && bool_decide (mask_kind g = kNone) = false <->
  is_protected g.
Proof.
  unfold is_protected. rewrite negb_involutive, andb_false_iff, !bool_decide_eq_false. done.
Qed.

(** The cell of one column. *)
Lemma cell_shown governance principal c v :
  let m := match FindColumnGovernance governance (col_name c) with
    | Some gov => mkOutputMask (EffectiveColumnMask gov (col_type c) principal) gov (col_type c)
    | None => mkOutputMask kNone no_governance (col_type c)
    end in
  match ApplyDataMask (out_mask m) (out_governance m) (out_column_type m) v with
  | Ok w => shown governance principal c v w /\ ~ refused governance principal c
  | Err _ => refused governance principal c
  end.
Proof.
  pose proof (find_governance governance (col_name c)) as F.
  destruct (FindColumnGovernance governance (col_name c)) as [g|]; cbn zeta; cbn [out_mask out_governance out_column_type].
  2: { cbn. assert (forall g, ~ governs governance (col_name c) g) as N.
       { intros g (b & a & E & _). apply F. rewrite E, map_app. set_solver. }
       split; [apply shown_clear; intros g G; by apply N in G|]. intros (g & (G & _) & _). by apply N in G. }
  assert (forall g', governs governance (col_name c) g' -> g' = g) as U by (intros; by eapply governs_unique).
  assert (forall v, clear governance principal (col_name c) ->
    shown governance principal c v v /\ ~ refused governance principal c) as Clear.
  { intros w C. split; [by apply shown_clear|]. intros (g' & (G & P & N) & _). by apply N, C. }
  unfold EffectiveColumnMask. destruct (negb (negb (bool_decide (policy_tags g = []))) && _) eqn:T.
  { apply Clear. intros g' G P. apply U in G as ->. apply tags_spec in P. congruence. }
  apply tags_spec in T. destruct (negb (bool_decide (mask_grantees g = [])) && _) eqn:X.
  { apply grantees_spec in X. apply Clear. intros g' G _. by apply U in G as ->. }
  assert (masked_by governance principal (col_name c) g) as M.
  { split_and!; [done|done|]. intros G%grantees_spec. congruence. }
  assert (refused governance principal c -> mask_kind g = kDenied \/
     (mask_kind g = kDefaultValue /\ col_type c = kInt64 /\ default_mask_value g <> [] /\
      SimpleAtoi (default_mask_value g) = None)) as R.
  { intros (g' & (G & _) & D). by apply U in G as ->. }
  destruct (mask_kind g) eqn:K.
  - destruct T as [T|T]; [|done]. rewrite (bool_decide_true (kNone = kNone)), bool_decide_false by done. cbn [negb].
    destruct (is_text (col_type c)) eqn:Tx; cbn [ApplyDataMask]; [rewrite Tx|].
    + pose proof (shown_digest governance principal c v g M ltac:(by right) Tx) as D.
      destruct v; (split; [exact D|intros [?|(? & _)]%R; congruence]).
    + split; [|intros [?|(? & _)]%R; congruence]. apply (shown_null _ _ _ _ g M). right. left. split; [by right|done].
  - rewrite bool_decide_false by done. cbn [negb ApplyDataMask]. split; [|intros [?|(? & _)]%R; congruence].
    apply (shown_null _ _ _ _ g M). by left.
  - rewrite bool_decide_false by done. cbn [negb ApplyDataMask]. destruct (is_text (col_type c)) eqn:Tx.
    + pose proof (shown_digest governance principal c v g M ltac:(by left) Tx) as D.
      destruct v; (split; [exact D|intros [?|(? & _)]%R; congruence]).
    + pose proof (shown_null governance principal c v g M ltac:(right; left; split; [by left|done])) as D.
      destruct v; (split; [exact D|intros [?|(? & _)]%R; congruence]).
  - rewrite bool_decide_false by done. cbn [negb ApplyDataMask]. destruct (is_text (col_type c)) eqn:Tx.
    { split; [by apply (shown_default_text _ _ _ _ g M)|]. intros [?|(_ & E & _)]%R; [congruence|]. by rewrite E in Tx. }
    destruct (decide (col_type c = kInt64)) as [I|I]; [rewrite bool_decide_true by done|rewrite bool_decide_false by done].
    + destruct (default_mask_value g) as [|x t] eqn:E.
      { split; [|intros [?|(_ & _ & N & _)]%R; congruence].
        apply (shown_default_int _ _ _ _ g 0 M K I). left. by rewrite E. }
      destruct (SimpleAtoi (x :: t)) as [n|] eqn:A.
      * split; [|intros [?|(_ & _ & _ & N)]%R; congruence].
        apply (shown_default_int _ _ _ _ g n M K I). right. by rewrite E.
      * exists g. split; [done|]. right. rewrite E. done.
    + split; [|intros [?|(_ & N & _)]%R; congruence]. apply (shown_null _ _ _ _ g M). by right; right.
  - rewrite bool_decide_false by done. cbn [negb ApplyDataMask]. exists g. split; [done|]. by left.
Qed.

(** The cells of a row, column by column. *)
Lemma cells_shown governance principal cols vs : length vs = length cols ->
  match mask_cells (BuildOutputColumnMasks (mkTableSchema cols) governance principal) vs with
  | Ok ws => length ws = length vs /\ Forall2 (fun c p => shown governance principal c p.1 p.2) cols (zip vs ws) /\
      Forall (fun c => ~ refused governance principal c) cols
  | Err _ => Exists (refused governance principal) cols
  end.
Proof.
  revert vs. induction cols as [|c cols IH]; intros [|v vs] L; try done.
  unfold BuildOutputColumnMasks in *. cbn [columns map mask_cells] in *.
  pose proof (cell_shown governance principal c v) as S. cbn zeta in S.
  destruct (ApplyDataMask _ _ _ _) as [w|e]; cbn; [|by constructor].
  specialize (IH vs ltac:(cbn in L; lia)). destruct (mask_cells _ vs) as [ws|e]; cbn; [|by right].
  destruct S as [S N], IH as (Lw & F & G). split; [cbn; lia|]. split; by constructor.
Qed.

(** C39: what a result row shows to a principal, by the governance records and their
    grants.  The row is refused exactly when a column is masked for the principal
    (its record has policy tags or a mask kind, and no mask grant names the
    principal) with the kind DENIED, or with a default that is no INT64 for an
    INT64 column.  Otherwise each cell of the row comes back as it is when its
    column's name has no record, an unprotected one, or a grant for the
    principal, and else as the mask of its record has it: NULL, the default of
    the record, or the digest of the cell's bytes, which a column with tags and no
    kind has too when it is text.  Records are found by the name of the output
    column, so a protected column returned under another name comes back as it
    is. *)
Theorem masks_disclose_only output_schema governance principal (row : Row) :
  length (cells row) = length (columns output_schema) ->
  match ApplyOutputColumnMasks (BuildOutputColumnMasks output_schema governance principal) row with
  | Ok out =>
      length (cells out) = length (cells row) /\
      Forall2 (fun c p => shown governance principal c p.1 p.2) (columns output_schema) (zip (cells row) (cells out)) /\
      Forall (fun c => ~ refused governance principal c) (columns output_schema)
  | Err _ => Exists (refused governance principal) (columns output_schema)
  end.
Proof.
  intros L. unfold ApplyOutputColumnMasks. unfold BuildOutputColumnMasks at 1. rewrite length_map, L, Nat.eqb_refl. cbn [negb].
  pose proof (cells_shown governance principal (columns output_schema) (cells row) L) as S.
  rewrite L in S. destruct output_schema as [cols]. cbn [columns] in *. by destruct (mask_cells _ _).
Qed.
End governance.

(** ** Closed example *)
Module GovernanceDemo.
(** A digest that only tells lengths. *)
#[local] Instance length_digest : Sha256 := fun s => [byteof (Z.of_nat (length s))].

Definition people : TableSchema := mkTableSchema [
  mkColumn $"name" kString kNullable [] [] []; mkColumn $"ssn" kString kNullable [] [] []].
Definition renamed : TableSchema := mkTableSchema [
  mkColumn $"name" kString kNullable [] [] []; mkColumn $"x" kString kNullable [] [] []].
Definition governance : TableGovernance :=
  mkGovernance [] [($"ssn", mkColumnGov [$"pii"] kNullify [$"user:admin@example.com"] [])].

(** The masked column hides its value from a reader without a grant; under an alias
    it does not. *)
Lemma masks_disclose_only_witness :
  let row ssn := mkRow [VString $"ada"; VString ssn] in
  exists out, ApplyOutputColumnMasks (BuildOutputColumnMasks people governance kEmulatorPrincipalEmail) (row $"1") = Ok out /\
    out = mkRow [VString $"ada"; VNull] /\
    Forall2 (fun c p => shown governance kEmulatorPrincipalEmail c p.1 p.2) (columns people)
      (zip (cells (row $"1")) (cells out)) /\
    ApplyOutputColumnMasks (BuildOutputColumnMasks renamed governance kEmulatorPrincipalEmail) (row $"1") = Ok (row $"1").
Proof.
  intros row. pose proof (masks_disclose_only people governance kEmulatorPrincipalEmail (row $"1") eq_refl) as S.
  assert (ApplyOutputColumnMasks (BuildOutputColumnMasks people governance kEmulatorPrincipalEmail) (row $"1") =
    Ok (mkRow [VString $"ada"; VNull])) as E by (vm_compute; reflexivity).
  rewrite E in S. destruct S as (_ & F & _). exists (mkRow [VString $"ada"; VNull]).
  split; [exact E|]. split; [reflexivity|]. split; [exact F|]. vm_compute. reflexivity.
Defined.
End GovernanceDemo.
