(* ===== verification/ObjectRegistry.v ===== *)
(** * ObjectRegistry: views, functions and table functions of a project

    Models [backend/catalog/view_registry.cc], [udf_registry.cc],
    [tvf_registry.cc] and the names of [view_persistence.cc] and
    [routine_persistence.cc].

    A registry maps a project to the objects that CREATE VIEW, CREATE FUNCTION and
    CREATE TABLE FUNCTION registered, oldest first.  Catalogs keep pointers to the
    objects, so a replaced or dropped object is retired, never destroyed.  An object
    is the pointer to it ([O] with decidable equality); [object_Name] is its name.
    GoogleSQL makes the objects ([MakeView], [MakeTvf]) and holds them in a
    [SimpleCatalog]: these are parameters.  The entries of the code may hold a null
    pointer, but no operation leaves one there: they always hold an object here.

    [objects_never_destroyed] shows that no pointer dangles, [replay_resolves_live]
    what a catalog resolves after the functions were replayed into it, and
    [registered_object_found] when a registered view or function is the one found. *)

From S2P Require Import Prelude Order Absl AbslReference Schema Storage RowRestriction SidecarJson.

Class CatalogObject (O : Type) := { object_Name : O -> str; object_eq_dec :: EqDecision O }.

(** ** Ids from the path of a name *)

Section ids.
Context `{AbslText}.

(** A path of one segment with dots is a quoted path: it is split. *)
Definition flatten_path (name_path : list str) : list str :=
  match name_path with
  | [s] => if bool_decide ("."%char ∈ s) then StrSplit s "." else [s]
  | _ => name_path
  end.

Definition ViewIdFromNamePath (name_path : list str) (project_id default_dataset_id : str) : ViewId :=
  match flatten_path name_path with
  | [v] => mkViewId project_id default_dataset_id v
  | [d; v] => mkViewId project_id d v
  | p :: d :: rest => mkViewId p d (default [] (last rest))
  | [] => mkViewId [] [] []
  end.

(** Routines are not split. *)
Definition RoutineIdFromNamePath (name_path : list str) (project_id default_dataset_id : str) : RoutineId :=
  match name_path with
  | [r] => mkRoutineId project_id default_dataset_id r
  | [d; r] => mkRoutineId project_id d r
  | p :: d :: rest => mkRoutineId p d (default [] (last rest))
  | [] => mkRoutineId [] [] []
  end.

Definition nonempty (s : str) : bool := match s with [] => false | _ => true end.

Definition ViewIdIsComplete (id : ViewId) : bool :=
  nonempty (v_project_id id) && nonempty (v_dataset_id id) && nonempty (view_id id).

Definition RoutineIdIsComplete (id : RoutineId) : bool :=
  nonempty (r_project_id id) && nonempty (r_dataset_id id) && nonempty (routine_id id).

(** The dot of [ParseRoutinePath]: a path of one segment needs one. *)
Definition ParseRoutinePath (path : list str) (catalog_project_id : str) : option (str * str * str) :=
  match path with
  | [single] =>
      '(first, rest) ← find_sub $"." single;
      Some (match find_sub $"." rest with
            | Some (second, third) => (first, second, third)
            | None => (catalog_project_id, first, rest)
            end)
  | [d; r] => Some (catalog_project_id, d, r)
  | [p; d; r] => Some (p, d, r)
  | _ => None
  end.
End ids.

(** ** Registries *)

(** What a project has: the outputs of the analyzer, which own the types the
    objects point to, the objects, and the retired ones. *)
Record Bucket (Output E R : Type) := mkBucket { analyzer_outputs : list Output; live : list E; retired : list R }.
Arguments mkBucket {Output E R} _ _ _.
Arguments analyzer_outputs {Output E R} _.
Arguments live {Output E R} _.
Arguments retired {Output E R} _.

Definition empty_bucket {Output E R} : Bucket Output E R := mkBucket [] [] [].

(** The first element that satisfies a condition, and the list without it. *)
Fixpoint take_first {E} (p : E -> bool) (l : list E) : option (E * list E) :=
  match l with
  | [] => None
  | e :: l => if p e then Some (e, l) else '(x, l') ← take_first p l; Some (x, e :: l')
  end.

Section buckets.
Context {Output E R : Type}.
Implicit Types b : Bucket Output E R.

(** Move the first matching entry to the retired ones. *)
Definition retire (p : E -> bool) (f : E -> R) b : option (Bucket Output E R) :=
  '(e, l) ← take_first p (live b); Some (mkBucket (analyzer_outputs b) l (retired b ++ [f e])).

Definition add_output (output : option Output) b : Bucket Output E R :=
  match output with
  | Some o => mkBucket (analyzer_outputs b ++ [o]) (live b) (retired b)
  | None => b
  end.

Definition add_live (e : E) b : Bucket Output E R :=
  mkBucket (analyzer_outputs b) (live b ++ [e]) (retired b).
End buckets.

Inductive SqlSecurity := SQL_SECURITY_UNSPECIFIED | SQL_SECURITY_DEFINER | SQL_SECURITY_INVOKER.

Section registries.
Context {O Output Type_ Query : Type} `{CatalogObject O, AbslText}.

(** [SimpleSQLView::Create] of GoogleSQL. *)
Context (SimpleSQLView_Create : str -> list (str * Type_) -> SqlSecurity -> bool -> Query -> StatusOr O).

Definition named (name : str) (o : O) : bool := EqualsIgnoreCase (object_Name o) name.

(** *** Views *)

Record RegisteredViewEntry := mkViewEntry { view_dataset_id : str; view_definition : str; view : O }.

Definition ViewRegistry : Type := gmap str (Bucket Output RegisteredViewEntry RegisteredViewEntry).

(** [ResolvedCreateViewStmt]; a column may be null, and its type too. *)
Record CreateViewStmt := mkCreateView {
  view_name_path : list str;
  view_sql : str;
  create_query : option Query;
  create_columns : list (option (str * option Type_));
  sql_security : SqlSecurity;
  is_value_table : bool;
}.

Definition view_column (col : option (str * option Type_)) : StatusOr (str * Type_) :=
  match col with
  | Some (name, Some t) => Ok (name, t)
  | _ => Err (InvalidArgumentError $"create_view_util: CREATE VIEW column has null type")
  end.

Definition MakeViewFromCreateView (stmt : CreateViewStmt) (has_type_factory : bool) (view_table_name : str)
    : StatusOr O :=
  if negb has_type_factory
  then Err (InvalidArgumentError $"create_view_util: type_factory must be non-null")
  else match create_query stmt, view_name_path stmt with
  | None, _ => Err (InvalidArgumentError $"create_view_util: CREATE VIEW has null query")
  | _, [] => Err (InvalidArgumentError $"create_view_util: CREATE VIEW has empty name_path")
  | Some query, path =>
      columns ← outcome_mapM view_column (create_columns stmt);
      let name := match view_table_name with [] => default [] (last path) | n => n end in
      let security := match sql_security stmt with SQL_SECURITY_UNSPECIFIED => SQL_SECURITY_INVOKER | s => s end in
      SimpleSQLView_Create name columns security (is_value_table stmt) query
  end.

Definition replaced_view (dataset_id view_name : str) (e : RegisteredViewEntry) : bool :=
  named view_name (view e) && (negb (nonempty dataset_id) || EqualsIgnoreCase (view_dataset_id e) dataset_id).

Definition RegisterProjectView (project_id default_dataset_id : str) (stmt : CreateViewStmt)
    (output : option Output) (has_type_factory : bool) (reg : ViewRegistry) : ViewRegistry * StatusOr unit :=
  if negb (nonempty project_id) then (reg, Err (InvalidArgumentError $"view_registry: project_id must be non-empty"))
  else if negb has_type_factory
  then (reg, Err (InvalidArgumentError $"view_registry: type_factory must be non-null"))
  else
    let vid := ViewIdFromNamePath (view_name_path stmt) project_id default_dataset_id in
    let view_name := view_id vid in
    let dataset_id := v_dataset_id vid in
    if negb (nonempty view_name)
    then (reg, Err (InvalidArgumentError $"view_registry: CREATE VIEW has empty view name"))
    else match MakeViewFromCreateView stmt has_type_factory view_name with
    | Err e => (reg, Err e)
    | Ok v =>
        let bucket := default empty_bucket (reg !! project_id) in
        let bucket := default bucket (retire (replaced_view dataset_id view_name) id bucket) in
        let bucket := add_output output bucket in
        (<[project_id := add_live (mkViewEntry dataset_id (view_sql stmt) v) bucket]> reg, Ok ())
    end.

(** An entry answers to its name in its dataset; an empty dataset, asked for or
    registered, is any. *)
Definition view_answers (dataset_id view_name : str) (e : RegisteredViewEntry) : bool :=
  named view_name (view e) &&
  negb (nonempty dataset_id && nonempty (view_dataset_id e) && negb (EqualsIgnoreCase (view_dataset_id e) dataset_id)).

Definition live_views (project_id : str) (reg : ViewRegistry) : list RegisteredViewEntry :=
  match reg !! project_id with Some b => live b | None => [] end.

Definition find_view (project_id dataset_id view_name : str) (reg : ViewRegistry) : option RegisteredViewEntry :=
  if negb (nonempty project_id) || negb (nonempty view_name) then None
  else List.find (view_answers dataset_id view_name) (live_views project_id reg).

Definition FindProjectView (project_id dataset_id view_name : str) (reg : ViewRegistry) : option O :=
  view <$> find_view project_id dataset_id view_name reg.

Record RegisteredViewInfo := mkViewInfo {
  info_dataset_id : str; info_view_name : str; info_view_definition : str; use_standard_sql : bool }.

Definition view_info (e : RegisteredViewEntry) : RegisteredViewInfo :=
  mkViewInfo (view_dataset_id e) (object_Name (view e)) (view_definition e) true.

Definition FindRegisteredViewInfo (project_id dataset_id view_name : str) (reg : ViewRegistry)
    : option RegisteredViewInfo := view_info <$> find_view project_id dataset_id view_name reg.

Definition info_lt (a b : RegisteredViewInfo) : bool :=
  if bool_decide (info_dataset_id a = info_dataset_id b) then str_ltb (info_view_name a) (info_view_name b)
  else str_ltb (info_dataset_id a) (info_dataset_id b).

(** Views with the same dataset and name come in the order of their registration
    here; [std::sort] leaves their order open. *)
Definition ListProjectViews (project_id dataset_id : str) (reg : ViewRegistry) : list RegisteredViewInfo :=
  if negb (nonempty project_id) then []
  else
    let all_datasets := negb (nonempty dataset_id) || has_prefix dataset_id $"region-" in
    let listed e := all_datasets || EqualsIgnoreCase (view_dataset_id e) dataset_id in
    stable_sort info_lt (map view_info (List.filter listed (live_views project_id reg))).

(** The dataset of the view is not asked for. *)
Definition DropProjectView (project_id view_name : str) (reg : ViewRegistry) : ViewRegistry * StatusOr unit :=
  if negb (nonempty project_id) || negb (nonempty view_name)
  then (reg, Err (InvalidArgumentError $"view_registry: project_id and view_name must be non-empty"))
  else match reg !! project_id ≫= retire (fun e => named view_name (view e)) id with
  | Some b => (<[project_id := b]> reg, Ok ())
  | None => (reg, Err (NotFoundError ($"view not found: " ++ view_name)))
  end.

(** *** Functions *)

Record RegisteredFunctionEntry := mkFunctionEntry { fn_dataset_id : str; function : O }.

Definition FunctionRegistry : Type := gmap str (Bucket Output RegisteredFunctionEntry O).

Definition function_answers (dataset_id name : str) (e : RegisteredFunctionEntry) : bool :=
  named name (function e) &&
  negb (nonempty dataset_id && nonempty (fn_dataset_id e) && negb (EqualsIgnoreCase (fn_dataset_id e) dataset_id)).

Definition RegisterProjectFunction (project_id dataset_id : str) (output : option Output) (fn : option O)
    (reg : FunctionRegistry) : FunctionRegistry * StatusOr unit :=
  if negb (nonempty project_id) then (reg, Err (InvalidArgumentError $"udf_registry: project_id must be non-empty"))
  else match fn with
  | None => (reg, Err (InvalidArgumentError $"udf_registry: function must be non-null"))
  | Some f =>
      let bucket := add_output output (default empty_bucket (reg !! project_id)) in
      let bucket := default bucket (retire (function_answers dataset_id (object_Name f)) function bucket) in
      (<[project_id := add_live (mkFunctionEntry dataset_id f) bucket]> reg, Ok ())
  end.

Definition live_functions (project_id : str) (reg : FunctionRegistry) : list RegisteredFunctionEntry :=
  match reg !! project_id with Some b => live b | None => [] end.

Definition FindProjectFunction (project_id dataset_id routine_name : str) (reg : FunctionRegistry) : option O :=
  if negb (nonempty project_id) || negb (nonempty routine_name) then None
  else function <$> List.find (function_answers dataset_id routine_name) (live_functions project_id reg).

Definition FindProjectFunctionFromPath (path : list str) (catalog_project_id : str) (reg : FunctionRegistry)
    : option O :=
  '(project_id, dataset_id, routine_id) ← ParseRoutinePath path catalog_project_id;
  FindProjectFunction project_id dataset_id routine_id reg.

Definition IsProjectRegisteredFunction (project_id fn_name : str) (reg : FunctionRegistry) : bool :=
  nonempty project_id && nonempty fn_name &&
  existsb (fun e => named fn_name (function e)) (live_functions project_id reg).

(** The definitions of JavaScript and Python functions of that name go too; they
    are other registries. *)
Definition DropProjectFunction (project_id fn_name : str) (reg : FunctionRegistry)
    : FunctionRegistry * StatusOr unit :=
  if negb (nonempty project_id) || negb (nonempty fn_name)
  then (reg, Err (InvalidArgumentError $"udf_registry: project_id and fn_name must be non-empty"))
  else match reg !! project_id ≫= retire (fun e => named fn_name (function e)) function with
  | Some b => (<[project_id := b]> reg, Ok ())
  | None => (reg, Err (NotFoundError ($"function not found: " ++ fn_name)))
  end.

(** *** Table functions *)

Definition TvfRegistry : Type := gmap str (Bucket Output O O).

(** [ResolvedCreateTableFunctionStmt]. *)
Record CreateTvfStmt := mkCreateTvf { tvf_name_path : list str; tvf_language : str; tvf_body : Query }.

Context (SQLTableValuedFunction_Create : CreateTvfStmt -> StatusOr (option O)).

Definition MakeTvfFromCreateTableFunction (stmt : CreateTvfStmt) : StatusOr O :=
  if EqualsIgnoreCase (tvf_language stmt) $"python"
  then Err (InvalidArgumentError ($"Language " ++ [dquote] ++ $"python" ++ [dquote] ++ $" is unsupported"))
  else
    tvf ← SQLTableValuedFunction_Create stmt;
    match tvf with
    | None => Err (InternalError $"create_tvf_util: SQLTableValuedFunction::Create returned null")
    | Some tvf => Ok tvf
    end.

(** The name is the last segment of the path; GoogleSQL's paths are not empty. *)
Definition RegisterProjectTvf (project_id : str) (stmt : CreateTvfStmt) (output : option Output)
    (reg : TvfRegistry) : TvfRegistry * StatusOr unit :=
  if negb (nonempty project_id) then (reg, Err (InvalidArgumentError $"tvf_registry: project_id must be non-empty"))
  else match MakeTvfFromCreateTableFunction stmt with
  | Err e => (reg, Err e)
  | Ok tvf =>
      let tvf_name := default [] (last (tvf_name_path stmt)) in
      let bucket := default empty_bucket (reg !! project_id) in
      let bucket := default bucket (retire (named tvf_name) id bucket) in
      (<[project_id := add_live tvf (add_output output bucket)]> reg, Ok ())
  end.

Definition DropProjectTvf (project_id tvf_name : str) (reg : TvfRegistry) : TvfRegistry * StatusOr unit :=
  if negb (nonempty project_id) || negb (nonempty tvf_name)
  then (reg, Err (InvalidArgumentError $"tvf_registry: project_id and tvf_name must be non-empty"))
  else match reg !! project_id ≫= retire (named tvf_name) id with
  | Some b => (<[project_id := b]> reg, Ok ())
  | None => (reg, Err (NotFoundError ($"TVF not found: " ++ tvf_name)))
  end.
End registries.

Arguments RegisteredViewEntry O : clear implicits.
Arguments RegisteredFunctionEntry O : clear implicits.
Arguments ViewRegistry O Output : clear implicits.
Arguments FunctionRegistry O Output : clear implicits.
Arguments TvfRegistry O Output : clear implicits.
Arguments CreateViewStmt Type_ Query : clear implicits.
Arguments CreateTvfStmt Query : clear implicits.

(** ** Replaying into a catalog *)

(** [googlesql::SimpleCatalog]: functions by name, whatever the case; adding a
    function whose name is taken ends the process. *)
Class SimpleCatalog (C O : Type) := {
  GetFunction : C -> str -> option O;
  RemoveFunctions : C -> (O -> bool) -> C;
  AddFunction : C -> O -> option C;
}.

Class SimpleCatalogLaws (C O : Type) `{SimpleCatalog C O, CatalogObject O, AbslText} : Prop := {
  get_named c n o : GetFunction c n = Some o -> named n o = true;
  get_case c n n' : EqualsIgnoreCase n n' = true -> GetFunction c n = GetFunction c n';
  get_removed c p n :
    GetFunction (RemoveFunctions c p) n = (o ← GetFunction c n; if p o then None else Some o);
  add_free c o : GetFunction c (object_Name o) = None ->
    exists c', AddFunction c o = Some c' /\
      forall n, GetFunction c' n = if named n o then Some o else GetFunction c n;
}.

Section replay.
Context {C O Output : Type} `{SimpleCatalog C O, CatalogObject O, AbslText}.

Definition purge_retired (retired : list O) (c : C) : C :=
  match retired with [] => c | _ => RemoveFunctions c (fun f => bool_decide (f ∈ retired)) end.

Definition replay_one (c : C) (f : O) : option C :=
  if bool_decide (GetFunction c (object_Name f) = Some f) then Some c
  else AddFunction (RemoveFunctions c (named (object_Name f))) f.

Fixpoint replay_all (fs : list O) (c : C) : option C :=
  match fs with
  | [] => Some c
  | f :: fs => c' ← replay_one c f; replay_all fs c'
  end.

Definition ReplayFunctionsIntoCatalog (project_id : str) (reg : FunctionRegistry O Output) (c : C) : option C :=
  match reg !! project_id with
  | None => Some c
  | Some b => replay_all (map function (live b)) (purge_retired (retired b) c)
  end.

Definition ReplayTvfsIntoCatalog (project_id : str) (reg : TvfRegistry O Output) (c : C) : option C :=
  match reg !! project_id with
  | None => Some c
  | Some b => replay_all (live b) (purge_retired (retired b) c)
  end.
End replay.

(** ** Case *)

Lemma same_case_refl `{AbslText} a : EqualsIgnoreCase a a = true.
Proof. by apply bool_decide_true. Qed.

Lemma same_case `{AbslText} a b : EqualsIgnoreCase a b = true <-> AsciiStrToLower a = AsciiStrToLower b.
Proof. apply bool_decide_eq_true. Qed.

(** Names that differ only in case are the same test. *)
Lemma named_case {O} `{CatalogObject O, AbslText} n n' (o : O) :
  EqualsIgnoreCase n n' = true -> named n o = named n' o.
Proof. rewrite same_case. intros E. unfold named, EqualsIgnoreCase. by rewrite E. Qed.

Section replay_props.
Context {C O Output : Type} `{AbslText, SimpleCatalog C O, CatalogObject O, !SimpleCatalogLaws C O}.

(** What a catalog resolves after a function was replayed. *)
Lemma replay_one_gets (c : C) (f : O) :
  exists c', replay_one c f = Some c' /\
    forall n, GetFunction c' n = if named n f then Some f else GetFunction c n.
Proof.
  unfold replay_one. case_bool_decide as G.
  - exists c. split; [done|]. intros n. destruct (named n f) eqn:N; [|done]. rewrite <- G. apply get_case.
    unfold named in N. rewrite same_case in *. by symmetry.
  - destruct (add_free (RemoveFunctions c (named (object_Name f))) f) as (c' & E & A).
    { rewrite get_removed. destruct (GetFunction c (object_Name f)) as [o|] eqn:L; [|done]. cbn.
      by rewrite (get_named _ _ _ L). }
    exists c'. split; [done|]. intros n. rewrite A. destruct (named n f) eqn:N; [done|]. rewrite get_removed.
    destruct (GetFunction c n) as [o|] eqn:L; [|done]. cbn. destruct (named (object_Name f) o) eqn:M; [|done].
    apply get_named in L. exfalso. unfold named in *. rewrite same_case in L, M. apply not_true_iff_false in N.
    apply N. apply same_case. congruence.
Qed.

Lemma replay_all_gets (fs : list O) (c : C) :
  exists c', replay_all fs c = Some c' /\
    forall n, GetFunction c' n = match last (List.filter (named n) fs) with Some f => Some f | None => GetFunction c n end.
Proof.
  revert c. induction fs as [|f fs IH]; intros c; [by exists c|]. cbn [replay_all].
  destruct (replay_one_gets c f) as (c1 & -> & G1). cbn. destruct (IH c1) as (c2 & -> & G2).
  exists c2. split; [done|]. intros n. rewrite G2, G1. destruct (named n f); [|done].
  rewrite last_cons. by destruct (last _).
Qed.

Lemma purge_gets (old : list O) (c : C) n :
  GetFunction (purge_retired old c) n = (o ← GetFunction c n; if bool_decide (o ∈ old) then None else Some o).
Proof.
  unfold purge_retired. destruct old as [|f old]; [|apply get_removed].
  destruct (GetFunction c n) as [o|]; [|done]. cbn. by rewrite bool_decide_false by apply not_elem_of_nil.
Qed.

(** After the functions of a project were replayed into a catalog, a name resolves to
    the function of that name registered last; a name none has resolves as before,
    but never to a retired function.  The replay never adds a name that is taken,
    which would end the process.  Table functions are replayed the same way. *)
Theorem replay_resolves_live project_id (reg : FunctionRegistry O Output) (b : Bucket Output (RegisteredFunctionEntry O) O)
    (c : C) :
  reg !! project_id = Some b ->
  exists c', ReplayFunctionsIntoCatalog project_id reg c = Some c' /\
    forall n, GetFunction c' n =
      match last (List.filter (named n) (map function (live b))) with
      | Some f => Some f
      | None => o ← GetFunction c n; if bool_decide (o ∈ retired b) then None else Some o
      end.
Proof.
  intros E. unfold ReplayFunctionsIntoCatalog. rewrite E.
  destruct (replay_all_gets (map function (live b)) (purge_retired (retired b) c)) as (c' & -> & G).
  exists c'. split; [done|]. intros n. by rewrite G, purge_gets.
Qed.
End replay_props.

(** ** No object is destroyed *)

Lemma take_first_permutation {E} (p : E -> bool) l e l' : take_first p l = Some (e, l') -> l ≡ₚ e :: l'.
Proof.
  revert e l'. induction l as [|x l IH]; intros e l' T; [done|]. cbn in T. destruct (p x); [by simplify_eq|].
  destruct (take_first p l) as [[y m]|] eqn:K; [|done]. simplify_eq/=. rewrite (IH _ _ eq_refl). apply perm_swap.
Qed.

Section ownership.
Context {O Output Type_ Query : Type} `{CatalogObject O, AbslText}.
Context (View_Create : str -> list (str * Type_) -> SqlSecurity -> bool -> Query -> StatusOr O).
Context (Tvf_Create : CreateTvfStmt Query -> StatusOr (option O)).

Record Registries := mkRegistries {
  views : ViewRegistry O Output; functions : FunctionRegistry O Output; tvfs : TvfRegistry O Output }.

(** An operation on one of the registries. *)
Inductive registry_step (r : Registries) : Registries -> Prop :=
| step_register_view p d stmt output tf :
    registry_step r (mkRegistries (RegisterProjectView View_Create p d stmt output tf (views r)).1 (functions r) (tvfs r))
| step_drop_view p n :
    registry_step r (mkRegistries (DropProjectView p n (views r)).1 (functions r) (tvfs r))
| step_register_function p d output fn :
    registry_step r (mkRegistries (views r) (RegisterProjectFunction p d output fn (functions r)).1 (tvfs r))
| step_drop_function p n :
    registry_step r (mkRegistries (views r) (DropProjectFunction p n (functions r)).1 (tvfs r))
| step_register_tvf p stmt output :
    registry_step r (mkRegistries (views r) (functions r) (RegisterProjectTvf Tvf_Create p stmt output (tvfs r)).1)
| step_drop_tvf p n :
    registry_step r (mkRegistries (views r) (functions r) (DropProjectTvf p n (tvfs r)).1).

(** The objects a bucket owns. *)
Definition owned {E R} (f : E -> O) (g : R -> O) (b : option (Bucket Output E R)) : list O :=
  match b with Some b => map f (live b) ++ map g (retired b) | None => [] end.

Definition all_owned (p : str) (r : Registries) : list O :=
  owned view view (views r !! p) ++ owned function id (functions r !! p) ++ owned id id (tvfs r !! p).

Section one.
Context {E R : Type} (f : E -> O) (g : R -> O) (h : E -> R) (retired_same : forall e, g (h e) = f e).
Implicit Types (b : Bucket Output E R) (m : gmap str (Bucket Output E R)).

Lemma owned_retire q b b' : retire q h b = Some b' -> owned f g (Some b') ≡ₚ owned f g (Some b).
Proof.
  unfold retire. destruct (take_first q (live b)) as [[e l]|] eqn:T; [|done]. intros [= <-]. cbn.
  apply take_first_permutation in T. rewrite T. cbn. rewrite map_app. cbn. rewrite retired_same.
  rewrite app_assoc. symmetry. apply Permutation_cons_append.
Qed.

Lemma owned_retire_default q b : owned f g (Some (default b (retire q h b))) ≡ₚ owned f g (Some b).
Proof. destruct (retire q h b) as [b'|] eqn:K; [by eapply owned_retire|done]. Qed.

Lemma owned_output o b : owned f g (Some (add_output o b)) = owned f g (Some b).
Proof. by destruct o. Qed.

Lemma owned_live e b : owned f g (Some b) ⊆+ owned f g (Some (add_live e b)).
Proof. cbn. rewrite map_app. apply submseteq_app; [by apply submseteq_inserts_r|done]. Qed.

Lemma owned_default m p : owned f g (Some (default empty_bucket (m !! p))) = owned f g (m !! p).
Proof. by destruct (m !! p). Qed.

Lemma owned_insert m p q b : owned f g (m !! p) ⊆+ owned f g (Some b) -> owned f g (m !! q) ⊆+ owned f g (<[p := b]> m !! q).
Proof.
  intros L. destruct (decide (p = q)) as [<-|N]; [by rewrite lookup_insert_eq|by rewrite lookup_insert_ne].
Qed.

Lemma owned_drop t m p q b' :
  m !! p ≫= retire t h = Some b' -> owned f g (m !! q) ⊆+ owned f g (<[p := b']> m !! q).
Proof.
  destruct (m !! p) as [b|] eqn:L; [|done]. cbn. intros K.
  apply owned_insert. rewrite L. by rewrite (owned_retire _ _ _ K).
Qed.
End one.

Lemma step_keeps p r r' : registry_step r r' -> all_owned p r ⊆+ all_owned p r'.
Proof.
  intros S. unfold all_owned.
  assert (forall a a' b b' c c' : list O, a ⊆+ a' -> b ⊆+ b' -> c ⊆+ c' -> a ++ b ++ c ⊆+ a' ++ b' ++ c') as App
    by (intros; by repeat apply submseteq_app).
  destruct S as [q d stmt output tf|q n|q d output fn|q n|q stmt output|q n]; cbn; apply App; try done.
  - unfold RegisterProjectView. repeat case_match; try done. cbn. apply owned_insert.
    rewrite <- owned_default. etrans; [|apply owned_live]. by rewrite owned_output, (owned_retire_default view view id).
  - unfold DropProjectView. case_match; [done|]. case_match eqn:K; [|done]. exact (owned_drop view view id (fun _ => eq_refl) _ _ _ _ _ K).
  - unfold RegisterProjectFunction. repeat case_match; try done. cbn. apply owned_insert.
    rewrite <- owned_default. etrans; [|apply owned_live].
    by rewrite (owned_retire_default function id function), owned_output.
  - unfold DropProjectFunction. case_match; [done|]. case_match eqn:K; [|done]. exact (owned_drop function id function (fun _ => eq_refl) _ _ _ _ _ K).
  - unfold RegisterProjectTvf. repeat case_match; try done. cbn. apply owned_insert.
    rewrite <- owned_default. etrans; [|apply owned_live]. by rewrite owned_output, (owned_retire_default id id id).
  - unfold DropProjectTvf. case_match; [done|]. case_match eqn:K; [|done]. exact (owned_drop id id id (fun _ => eq_refl) _ _ _ _ _ K).
Qed.

(** C37: Catalogs hold pointers to registered objects, so none may be destroyed: whatever
    operations follow, every object a project ever had is still owned by it, as often
    as before, among its live or its retired objects. *)
Theorem objects_never_destroyed p r r' :
  rtc registry_step r r' -> all_owned p r ⊆+ all_owned p r'.
Proof. induction 1 as [|r r1 r2 S _ IH]; [done|]. etrans; [by eapply step_keeps|done]. Qed.
End ownership.

(** ** The registered view is the one found *)

Lemma take_first_found {E} (p : E -> bool) l e l' : take_first p l = Some (e, l') -> p e = true.
Proof.
  revert e l'. induction l as [|x l IH]; intros e l' T; [done|]. cbn in T. destruct (p x) eqn:K; [by simplify_eq|].
  destruct (take_first p l) as [[y m]|]; [|done]. simplify_eq/=. by eapply IH.
Qed.

Lemma take_first_none {E} (p : E -> bool) l : take_first p l = None -> List.find p l = None.
Proof.
  induction l as [|x l IH]; [done|]. cbn. destruct (p x); [done|]. destruct (take_first p l) as [[]|]; [done|auto].
Qed.

Lemma take_first_others {E} (p q : E -> bool) l e l' :
  take_first p l = Some (e, l') -> q e = false -> List.find q l' = List.find q l.
Proof.
  revert e l'. induction l as [|x l IH]; intros e l' T Q; [done|]. cbn in T. destruct (p x) eqn:K.
  - simplify_eq. cbn. by rewrite Q.
  - destruct (take_first p l) as [[y m]|]; [|done]. simplify_eq/=. destruct (q x); [done|]. by eapply IH.
Qed.

Lemma find_in_app {E} (p : E -> bool) l l' :
  List.find p (l ++ l') = match List.find p l with Some x => Some x | None => List.find p l' end.
Proof. induction l as [|x l IH]; [done|]. cbn. by destruct (p x). Qed.

(** Entries told apart by a key. *)
Section keyed.
Context {E K : Type} `{EqDecision K} (key : E -> K).

Definition has_key (k : K) (e : E) : bool := bool_decide (key e = k).

Lemma find_key_absent k l : k ∉ map key l -> List.find (has_key k) l = None.
Proof.
  induction l as [|x l IH]; [done|]. cbn. rewrite not_elem_of_cons. intros [N F].
  unfold has_key at 1. rewrite bool_decide_false by done. auto.
Qed.

Lemma find_key_present k l e : List.find (has_key k) l = Some e -> k ∈ map key l.
Proof. intros [I P]%List.find_some. apply bool_decide_eq_true in P as <-. by apply list_elem_of_In, in_map. Qed.

Lemma taken_keys k l e l' : NoDup (map key l) -> take_first (has_key k) l = Some (e, l') -> NoDup (map key l') /\ k ∉ map key l'.
Proof.
  intros N T. pose proof (take_first_found _ _ _ _ T) as F. apply bool_decide_eq_true in F as <-.
  apply take_first_permutation, (Permutation_map key) in T. rewrite T in N. cbn in N. by apply NoDup_cons in N as [? ?].
Qed.

(** Replacing the entry of a key, or adding one. *)
Definition replace_key (k : K) (l : list E) : list E :=
  match take_first (has_key k) l with Some (_, l') => l' | None => l end.

Lemma replace_key_fresh k l : NoDup (map key l) -> NoDup (map key (replace_key k l)) /\ k ∉ map key (replace_key k l).
Proof.
  intros N. unfold replace_key. destruct (take_first (has_key k) l) as [[e l']|] eqn:T; [by eapply taken_keys|].
  split; [done|]. intros I. apply take_first_none in T. apply list_elem_of_In, in_map_iff in I as (x & Kx & I).
  pose proof (List.find_none _ _ T _ I) as F. unfold has_key in F. by rewrite bool_decide_true in F.
Qed.

Lemma replace_key_found x l : NoDup (map key l) -> List.find (has_key (key x)) (replace_key (key x) l ++ [x]) = Some x.
Proof.
  intros N. destruct (replace_key_fresh (key x) l N) as [_ F]. rewrite find_in_app, find_key_absent by done. cbn.
  unfold has_key. by rewrite bool_decide_true.
Qed.

Lemma replace_key_others x k l :
  key x <> k -> List.find (has_key k) (replace_key (key x) l ++ [x]) = List.find (has_key k) l.
Proof.
  intros Ne. rewrite find_in_app. cbn. replace (has_key k x) with false by (symmetry; by apply bool_decide_false).
  assert (List.find (has_key k) (replace_key (key x) l) = List.find (has_key k) l) as ->; [|by destruct (List.find _ l)].
  unfold replace_key. destruct (take_first (has_key (key x)) l) as [[e l']|] eqn:T; [|done].
  eapply take_first_others; [exact T|]. apply take_first_found in T. apply bool_decide_eq_true in T as T.
  apply bool_decide_false. congruence.
Qed.
End keyed.

Section found.
Context {O Output Type_ Query : Type} `{CatalogObject O, AbslText}.
Context (View_Create : str -> list (str * Type_) -> SqlSecurity -> bool -> Query -> StatusOr O).

(** [SimpleSQLView::Create] gives the view the name it is told. *)
Hypothesis created_name : forall n columns security value_table q v,
  View_Create n columns security value_table q = Ok v -> object_Name v = n.

Definition view_key (e : RegisteredViewEntry O) : str * str :=
  (AsciiStrToLower (view_dataset_id e), AsciiStrToLower (object_Name (view e))).

Definition request_key (dataset_id view_name : str) : str * str :=
  (AsciiStrToLower dataset_id, AsciiStrToLower view_name).

Lemma names_are_key d n e :
  (named n (view e) && EqualsIgnoreCase (view_dataset_id e) d)%bool = has_key view_key (request_key d n) e.
Proof.
  unfold has_key, named, EqualsIgnoreCase, view_key, request_key. rewrite <- bool_decide_and. apply bool_decide_ext.
  split; [by intros [-> ->]|by intros [= -> ->]].
Qed.

Lemma replaced_is_key d n e : d <> [] -> replaced_view d n e = has_key view_key (request_key d n) e.
Proof. intros Nd. rewrite <- names_are_key. unfold replaced_view. by destruct d. Qed.

Lemma answers_is_key d n e :
  d <> [] -> view_dataset_id e <> [] -> view_answers d n e = has_key view_key (request_key d n) e.
Proof.
  intros Nd Ne. rewrite <- names_are_key. unfold view_answers. destruct d, (view_dataset_id e); try done. cbn.
  by rewrite negb_involutive.
Qed.

(** Every view has a dataset, and no two have the same dataset and name. *)
Definition scoped (reg : ViewRegistry O Output) : Prop :=
  forall p, NoDup (map view_key (live_views p reg)) /\ Forall (fun e => view_dataset_id e <> []) (live_views p reg).

(** A registry made by CREATE VIEW statements that name or default a dataset, and
    by DROP VIEW. *)
Inductive scoped_history : ViewRegistry O Output -> Prop :=
| history_empty : scoped_history ∅
| history_register reg p d stmt output :
    scoped_history reg -> v_dataset_id (ViewIdFromNamePath (view_name_path stmt) p d) <> [] ->
    scoped_history (RegisterProjectView View_Create p d stmt output true reg).1
| history_drop reg p n : scoped_history reg -> scoped_history (DropProjectView p n reg).1.

Lemma view_name_made stmt n v : n <> [] -> MakeViewFromCreateView View_Create stmt true n = Ok v -> object_Name v = n.
Proof.
  unfold MakeViewFromCreateView. intros N M. destruct (create_query stmt), (view_name_path stmt); try done. cbn in M.
  destruct (outcome_mapM view_column (create_columns stmt)); [|done]. cbn in M. apply created_name in M. by destruct n.
Qed.

Lemma find_congr {E} (p q : E -> bool) l : Forall (fun e => p e = q e) l -> List.find p l = List.find q l.
Proof. induction 1 as [|e l E1 _ IH]; [done|]. cbn. by rewrite E1, IH. Qed.

Lemma take_congr {E} (p q : E -> bool) l : (forall e, p e = q e) -> take_first p l = take_first q l.
Proof. intros E1. induction l as [|e l IH]; [done|]. cbn. by rewrite E1, IH. Qed.

Implicit Types reg : ViewRegistry O Output.

(** The live views after a registration. *)
Lemma register_live reg p d stmt output reg' (vid := ViewIdFromNamePath (view_name_path stmt) p d) :
  RegisterProjectView View_Create p d stmt output true reg = (reg', Ok ()) -> v_dataset_id vid <> [] ->
  exists v e, MakeViewFromCreateView View_Create stmt true (view_id vid) = Ok v /\ e = mkViewEntry (v_dataset_id vid) (view_sql stmt) v /\
    p <> [] /\ view_id vid <> [] /\ view_key e = request_key (v_dataset_id vid) (view_id vid) /\
    live_views p reg' = replace_key view_key (view_key e) (live_views p reg) ++ [e] /\
    forall q, q <> p -> live_views q reg' = live_views q reg.
Proof.
  unfold RegisterProjectView. fold vid. intros R D. destruct p as [|c p]; [done|]. cbn [nonempty negb] in R.
  destruct (view_id vid) as [|x n] eqn:Ev; [done|]. cbn [nonempty negb] in R.
  destruct (MakeViewFromCreateView View_Create stmt true (x :: n)) as [v|] eqn:M; [|done]. simplify_eq.
  exists v, (mkViewEntry (v_dataset_id vid) (view_sql stmt) v).
  assert (view_key (mkViewEntry (v_dataset_id vid) (view_sql stmt) v) = request_key (v_dataset_id vid) (x :: n)) as K
    by (unfold view_key; cbn; by rewrite (view_name_made stmt (x :: n) v ltac:(done) M)).
  split_and!; try done; unfold live_views.
  - unfold ViewRegistry. rewrite lookup_insert_eq, K. cbn. f_equal.
    transitivity (live (default (default empty_bucket (reg !! (c :: p)))
      (retire (replaced_view (v_dataset_id vid) (x :: n)) id (default empty_bucket (reg !! (c :: p)))))); [by destruct output|].
    unfold ViewRegistry, retire, replace_key in *. rewrite (take_congr _ _ _ (fun e => replaced_is_key _ (x :: n) e D)).
    destruct (reg !! (c :: p)) as [b|]; cbn; [|done]. by destruct (take_first _ (live b)) as [[]|].
  - intros q Nq. unfold ViewRegistry. by rewrite lookup_insert_ne.
Qed.

Lemma replace_key_Forall (P : RegisteredViewEntry O -> Prop) k l : Forall P l -> Forall P (replace_key view_key k l).
Proof.
  intros F. unfold replace_key. destruct (take_first _ l) as [[e l']|] eqn:T; [|done].
  apply take_first_permutation in T. rewrite T in F. by apply Forall_cons in F as [_ F].
Qed.

Lemma register_scoped reg p d stmt output :
  scoped reg -> v_dataset_id (ViewIdFromNamePath (view_name_path stmt) p d) <> [] ->
  scoped (RegisterProjectView View_Create p d stmt output true reg).1.
Proof.
  intros S D. destruct (RegisterProjectView View_Create p d stmt output true reg) as [reg' [[]|e]] eqn:R; cbn.
  - destruct (register_live _ _ _ _ _ _ R D) as (v & e & _ & -> & _ & _ & K & L & Fr). intros q.
    destruct (decide (q = p)) as [->|N]; [|by rewrite (Fr q N)]. destruct (S p) as [Nd F]. rewrite L, map_app.
    split.
    + destruct (replace_key_fresh view_key (view_key (mkViewEntry (v_dataset_id (ViewIdFromNamePath (view_name_path stmt) p d)) (view_sql stmt) v)) _ Nd) as [N1 N2].
      apply NoDup_app. split; [done|]. split; [|apply NoDup_singleton]. intros x I1 I2%list_elem_of_singleton. by subst.
    + apply Forall_app. split; [by apply replace_key_Forall|]. by constructor.
  - unfold RegisterProjectView in R. repeat (case_match; try by simplify_eq).
Qed.

Lemma drop_scoped reg p n : scoped reg -> scoped (DropProjectView p n reg).1.
Proof.
  intros S. unfold DropProjectView. case_match; [done|]. destruct (reg !! p) as [b|] eqn:L; [|done]. cbn.
  destruct (retire _ id b) as [b'|] eqn:R; [|done]. cbn. intros q. unfold live_views, ViewRegistry in *.
  destruct (decide (p = q)) as [<-|N]; [|rewrite lookup_insert_ne by done; apply S]. rewrite lookup_insert_eq.
  pose proof (S p) as Sp. unfold live_views, ViewRegistry in Sp. rewrite L in Sp. unfold retire in R.
  destruct (take_first _ (live b)) as [[e l]|] eqn:T; [|done]. simplify_eq/=. apply take_first_permutation in T.
  rewrite T in Sp. cbn in Sp. destruct Sp as [[_ Nd]%NoDup_cons [_ F]%Forall_cons]. done.
Qed.

Lemma history_scoped reg : scoped_history reg -> scoped reg.
Proof.
  induction 1 as [|reg p d stmt output _ IH D|reg p n _ IH]; [|by apply register_scoped|by apply drop_scoped].
  intros p. unfold live_views, ViewRegistry. rewrite lookup_empty. split; constructor.
Qed.

Lemma find_view_key reg p d n : scoped reg -> p <> [] -> n <> [] -> d <> [] ->
  find_view p d n reg = List.find (has_key view_key (request_key d n)) (live_views p reg).
Proof.
  intros S Np Nn Nd. unfold find_view. destruct p, n; try done. cbn [nonempty negb orb]. apply find_congr.
  destruct (S (a :: p)) as [_ F]. eapply Forall_impl; [exact F|]. intros e Ne. by apply answers_is_key.
Qed.

(** C38: In a registry whose views all have a dataset, the view a CREATE VIEW registers is
    the one its dataset and name resolve to, whatever their case and whatever was
    registered before, and every other view resolves as before. *)
Theorem registered_view_found reg p d stmt output reg' (vid := ViewIdFromNamePath (view_name_path stmt) p d) :
  scoped_history reg -> v_dataset_id vid <> [] ->
  RegisterProjectView View_Create p d stmt output true reg = (reg', Ok ()) ->
  (exists v, MakeViewFromCreateView View_Create stmt true (view_id vid) = Ok v /\
    forall d' n', EqualsIgnoreCase d' (v_dataset_id vid) = true -> EqualsIgnoreCase n' (view_id vid) = true ->
      FindProjectView p d' n' reg' = Some v) /\
  forall q d' n', d' <> [] ->
    q <> p \/ EqualsIgnoreCase d' (v_dataset_id vid) = false \/ EqualsIgnoreCase n' (view_id vid) = false ->
    FindProjectView q d' n' reg' = FindProjectView q d' n' reg.
Proof.
  intros S D R. pose proof (register_scoped reg p d stmt output (history_scoped _ S) D) as S'. rewrite R in S'. cbn in S'.
  apply history_scoped in S. destruct (register_live _ _ _ _ _ _ R D) as (v & e & M & Ee & Np & Nn & K & L & Fr).
  fold vid in M, Ee, Nn, K, L, Fr. split.
  - exists v. split; [done|]. intros d' n' Ed En. apply same_case in Ed, En. unfold FindProjectView.
    rewrite find_view_key; [|done..| |]; [|by intros ->; destruct (view_id vid)|by intros ->; destruct (v_dataset_id vid)].
    unfold request_key. rewrite Ed, En. fold (request_key (v_dataset_id vid) (view_id vid)). rewrite <- K, L.
    rewrite replace_key_found by apply S. by subst e.
  - intros q d' n' Nd' Ne. destruct (decide (q = p)) as [->|Nq].
    + destruct Ne as [?|Ne]; [done|]. destruct (decide (n' = [])) as [->|Nn']; [unfold FindProjectView, find_view; by rewrite orb_true_r|].
      unfold FindProjectView. rewrite !find_view_key by done. rewrite L, replace_key_others; [done|]. rewrite K.
      intros [= Kd Kn]. destruct Ne as [Ne|Ne]; apply not_true_iff_false in Ne; apply Ne; by apply same_case.
    + unfold FindProjectView, find_view. by rewrite (Fr q Nq).
Qed.
End found.

(** ** Concrete registries *)

Module RegistryDemo.

(** An object: its identity and its name. *)
Record Obj := mkObj { obj_id : nat; obj_name : str }.

#[local] Instance Obj_eq_dec : EqDecision Obj.
Proof. solve_decision. Defined.

#[local] Instance Obj_object : CatalogObject Obj := {| object_Name := obj_name; object_eq_dec := _ |}.

Definition lower_name (o : Obj) : str := AsciiStrToLower (obj_name o).

(** A catalog: its functions by their name in lower case. *)
Record Functions := mkFunctions { held : gmap str Obj }.

#[local] Instance Functions_catalog : SimpleCatalog Functions Obj := {|
  GetFunction c n := o ← held c !! AsciiStrToLower n; if decide (lower_name o = AsciiStrToLower n) then Some o else None;
  RemoveFunctions c p := mkFunctions (omap (fun o => if p o then None else Some o) (held c));
  AddFunction c o :=
    match held c !! lower_name o with
    | Some x => if decide (lower_name x = lower_name o) then None else Some (mkFunctions (<[lower_name o := o]> (held c)))
    | None => Some (mkFunctions (<[lower_name o := o]> (held c)))
    end;
|}.

#[local] Instance Functions_laws : SimpleCatalogLaws Functions Obj.
Proof.
  split; cbn -[AsciiStrToLower lower_name named].
  - intros c n o. destruct (held c !! _) as [x|]; [|done]. cbn. case_decide; [|done]. intros [= <-].
    unfold named. by apply same_case.
  - intros c n n' E. apply same_case in E. by rewrite E.
  - intros c p n. rewrite lookup_omap. destruct (held c !! AsciiStrToLower n) as [x|]; [|done]. cbn.
    destruct (p x) eqn:P; cbn; case_decide; cbn; rewrite ?P; done.
  - intros c o G. change (AsciiStrToLower (obj_name o)) with (lower_name o) in G.
    assert (exists c', c' = mkFunctions (<[lower_name o := o]> (held c)) /\
      match held c !! lower_name o with
      | Some x => if decide (lower_name x = lower_name o) then None else Some (mkFunctions (<[lower_name o := o]> (held c)))
      | None => Some (mkFunctions (<[lower_name o := o]> (held c)))
      end = Some c') as (c' & -> & A).
    { eexists. split; [done|]. destruct (held c !! lower_name o) as [x|]; [|done]. cbn -[lower_name] in G. by case_decide. }
    eexists. split; [exact A|]. intros n. cbn -[AsciiStrToLower lower_name named]. destruct (named n o) eqn:N; unfold named in N.
    + apply same_case in N. rewrite <- N. change (AsciiStrToLower (object_Name o)) with (lower_name o). rewrite lookup_insert_eq. cbn -[lower_name]. by rewrite decide_True.
    + rewrite lookup_insert_ne; [done|]. intros E. apply not_true_iff_false in N. apply N. by apply same_case.
Qed.

Definition create_view (n : str) (columns : list (str * unit)) (security : SqlSecurity) (value_table : bool) (q : nat)
  : StatusOr Obj := Ok (mkObj q n).

Definition statement (path : list str) (q : nat) : CreateViewStmt unit nat :=
  mkCreateView path $"SELECT 1" (Some q) [] SQL_SECURITY_UNSPECIFIED false.

Definition register (path : list str) (d : str) (q : nat) (reg : ViewRegistry Obj unit) : ViewRegistry Obj unit :=
  (RegisterProjectView create_view $"p" d (statement path q) None true reg).1.

Lemma create_named n columns security value_table q v : create_view n columns security value_table q = Ok v -> object_Name v = n.
Proof. by intros [= <-]. Qed.

Lemma registered_view_found_witness :
  let reg := register [$"d"; $"v"] [] 1 (register [$"e"; $"v"] [] 2 ∅) in
  FindProjectView $"p" $"D" $"V" (register [$"D.v"] [] 3 reg) = Some (mkObj 3 $"v") /\
  FindProjectView $"p" $"e" $"v" (register [$"D.v"] [] 3 reg) = Some (mkObj 2 $"v").
Proof.
  intros reg.
  destruct (registered_view_found create_view create_named reg $"p" [] (statement [$"D.v"] 3) None
    (register [$"D.v"] [] 3 reg)) as [(v & M & F) Others].
  - repeat (apply history_register; [|by vm_compute]). apply history_empty.
  - by vm_compute.
  - by vm_compute.
  - split.
    + rewrite (F $"D" $"V" ltac:(by vm_compute) ltac:(by vm_compute)). rewrite <- (f_equal (fun r => match r with Ok v => Some v | Err _ => None end) M).
      by vm_compute.
    + rewrite (Others $"p" $"e" $"v" ltac:(done) ltac:(right; left; by vm_compute)). by vm_compute.
Defined.

(** A view made without a dataset answers for every dataset, also after a view of
    that dataset was made. *)
Example view_without_dataset_shadows :
  FindProjectView $"p" $"d" $"v" (register [$"d"; $"v"] [] 2 (register [$"v"] [] 1 ∅)) = Some (mkObj 1 $"v").
Proof. by vm_compute. Qed.

(** DROP VIEW d.v drops the view of another dataset that was made before. *)
Example drop_view_of_other_dataset :
  let reg := register [$"d"; $"v"] [] 2 (register [$"e"; $"v"] [] 1 ∅) in
  let dropped := (DropProjectView $"p" (view_id (ViewIdFromNamePath [$"d"; $"v"] $"p" [])) reg).1 in
  FindProjectView $"p" $"e" $"v" dropped = None /\ FindProjectView $"p" $"d" $"v" dropped = Some (mkObj 2 $"v").
Proof. by vm_compute. Qed.

Lemma objects_never_destroyed_witness :
  let r0 := mkRegistries (register [$"d"; $"v"] [] 1 ∅) ∅ ∅ in
  let r1 := mkRegistries (register [$"d"; $"v"] [] 2 (views r0)) ∅ ∅ in
  [mkObj 1 $"v"] ⊆+ all_owned $"p" r1.
Proof.
  intros r0 r1.
  replace [mkObj 1 $"v"] with (all_owned $"p" r0) by (by vm_compute).
  apply (objects_never_destroyed create_view (fun _ : CreateTvfStmt nat => Ok None) $"p" r0 r1).
  apply rtc_once, step_register_view.
Defined.

(** Functions f of two datasets and a retired one; the catalog still holds the retired
    function and a builtin. *)
Lemma replay_resolves_live_witness :
  let reg := (RegisterProjectFunction $"p" $"e" None (Some (mkObj 3 $"F")) (RegisterProjectFunction $"p" $"d" None
    (Some (mkObj 2 $"f")) (RegisterProjectFunction $"p" $"d" (None : option unit) (Some (mkObj 1 $"f")) ∅).1).1).1 in
  let c := mkFunctions (<[$"f" := mkObj 1 $"f"]> (<[$"sum" := mkObj 9 $"SUM"]> ∅)) in
  exists c', ReplayFunctionsIntoCatalog $"p" reg c = Some c' /\
    GetFunction c' $"f" = Some (mkObj 3 $"F") /\ GetFunction c' $"Sum" = Some (mkObj 9 $"SUM").
Proof.
  intros reg c.
  destruct (replay_resolves_live $"p" reg (default empty_bucket (reg !! $"p")) c ltac:(by vm_compute)) as (c' & E & G).
  exists c'. split; [exact E|]. rewrite !G. by vm_compute.
Defined.
End RegistryDemo.
