(* ===== verification/ScriptText.v ===== *)
(** * ScriptText: how the coordinator cuts the text of a script

    Models the text routines of [coordinator/script_executor.cc],
    [script_executor_internal.cc], [script_executor_set.cc] and
    [script_googlesql_runner.cc]: splitting at semicolons outside single quotes,
    the BEGIN ... END wrapper, the keyword test that sends a script to GoogleSQL's
    script executor, and the extraction of one SET statement. *)

From S2P Require Import Prelude Absl AbslReference.

Section script_text.
Context `{AbslText}.

(** ** Statements between semicolons *)

Definition is_quote_char (c : ascii) : bool := bool_decide (c = "'"%char).
Definition is_semicolon (c : ascii) : bool := bool_decide (c = ";"%char).

(** A piece of text, stripped, in front of the statements after it. *)
Definition add_statement (current : str) (out : list str) : list str :=
  match StripAsciiWhitespace current with [] => out | stmt => stmt :: out end.

Fixpoint split_loop (sql current : str) (in_quote : bool) : list str :=
  match sql with
  | [] => add_statement current []
  | c :: sql =>
      if is_quote_char c then split_loop sql (current ++ [c]) (negb in_quote)
      else if is_semicolon c && negb in_quote then add_statement current (split_loop sql [] in_quote)
      else split_loop sql (current ++ [c]) in_quote
  end.

Definition SplitSemicolonStatements (sql : str) : list str := split_loop sql [] false.

(** The text before the first semicolon outside quotes, and the text after it. *)
Fixpoint cut_statement (sql : str) (in_quote : bool) : option (str * str) :=
  match sql with
  | [] => None
  | c :: sql =>
      let longer := fun p : str * str => (c :: p.1, p.2) in
      if is_quote_char c then longer <$> cut_statement sql (negb in_quote)
      else if is_semicolon c && negb in_quote then Some ([], sql)
      else longer <$> cut_statement sql in_quote
  end.

Definition LeadingScriptStatement (sql : str) : str :=
  StripAsciiWhitespace (match cut_statement sql false with Some (stmt, _) => stmt | None => sql end).

Definition ScriptKeywordPresent (sql keyword : str) : bool := str_contains (AsciiStrToUpper sql) keyword.

Definition ScriptUsesCreateConstantLowering (sql : str) : bool :=
  ScriptKeywordPresent sql $"CREATE CONSTANT".

(** ** BEGIN ... END *)

(** The length without the semicolons and blanks at the end. *)
Fixpoint trailing_punctuation (reversed : str) : nat :=
  match reversed with
  | c :: r => if is_semicolon c || bool_decide (c = " "%char) then S (trailing_punctuation r) else 0
  | [] => 0
  end.

Definition strip_begin (trimmed : str) : str :=
  if StartsWithIgnoreCase trimmed $"BEGIN" then StripAsciiWhitespace (drop 5 trimmed) else trimmed.

Definition strip_end (trimmed : str) : str :=
  if EndsWithIgnoreCase trimmed $"END" then
    let pos := length trimmed - trailing_punctuation (rev trimmed) in
    if (3 <=? pos) && EqualsIgnoreCase (take 3 (drop (pos - 3) trimmed)) $"END"
    then StripAsciiWhitespace (take (pos - 3) trimmed)
    else trimmed
  else trimmed.

Definition StripBeginEnd (sql : str) : str := strip_end (strip_begin (StripAsciiWhitespace sql)).

Definition newline : ascii := "010"%char.

(** [ScriptNeedsGoogleSqlExecutor]: the leading keywords, then the keywords
    anywhere in the text. *)
Definition leading_keywords : list str :=
  [$"IF "; $"WHILE "; $"LOOP "; $"REPEAT"; $"FOR "; $"RAISE "; $"EXECUTE IMMEDIATE"; $"EXCEPTION"].

Definition ScriptNeedsGoogleSqlExecutor (sql : str) : bool :=
  let present := ScriptKeywordPresent sql in
  let on_line keyword := present (" "%char :: keyword) || present (newline :: keyword) in
  existsb (StartsWithIgnoreCase (StripAsciiWhitespace sql)) leading_keywords ||
  (on_line $"IF " || on_line $"WHILE " || on_line $"LOOP " || on_line $"REPEAT" ||
   (present $" FOR " && present $" IN ") || (present (newline :: $"FOR ") && present $" IN ") ||
   present $"EXCEPTION" || on_line $"RAISE " || present $"EXECUTE IMMEDIATE").

(** ** SET statements *)

Record StatementChunk := mkChunk { chunk_sql : str; consumed_bytes : nat }.

(** Comments to the end of the line, and the blanks around them; [fuel] bounds
    the number of comments by the length of the text. *)
Fixpoint skip_comments (fuel : nat) (sql : str) : str :=
  let sql := StripAsciiWhitespace sql in
  match fuel, strip_prefix $"--" sql with
  | S fuel, Some _ =>
      match find_sub [newline] sql with
      | None => []
      | Some (_, rest) => skip_comments fuel rest
      end
  | _, _ => sql
  end.

Definition SkipLeadingLineComments (sql : str) : str := skip_comments (length sql) sql.

(** The number of blanks in front. *)
Definition leading_spaces (sql : str) : nat := length sql - length (StripLeadingWhitespace sql).

Definition ExtractFirstStatementChunk (sql : str) : StatementChunk :=
  let start := leading_spaces sql in
  let body := drop start sql in
  match cut_statement body false with
  | Some (stmt, _) => mkChunk (StripAsciiWhitespace stmt) (start + length stmt + 1)
  | None => mkChunk (StripAsciiWhitespace body) (length sql - start)
  end.

(** [name = expr] of a SET, without blanks around either side. *)
Definition set_parts (rest : str) : option (str * str) :=
  match find_sub $"=" rest with
  | None => None
  | Some (target, expr) => Some (StripAsciiWhitespace target, StripAsciiWhitespace expr)
  end.

(** ** Wrapping for GoogleSQL's script executor *)

Definition WrapScriptInBeginEnd (sql : str) : str :=
  let trimmed := StripAsciiWhitespace sql in
  if StartsWithIgnoreCase trimmed $"BEGIN" || StartsWithIgnoreCase trimmed $"EXECUTE IMMEDIATE"
  then trimmed
  else $"BEGIN" ++ newline :: trimmed ++ newline :: $"END;".

(** [NeedsAllStatements] of [local_coordinator_engine.cc]: the texts that go to
    the analyzer with every statement kind allowed. *)
Definition ContainsSetKeyword (sql : str) : bool :=
  str_contains sql $" SET " || str_contains sql (newline :: $"SET ") ||
  StartsWithIgnoreCase (StripAsciiWhitespace sql) $"SET ".

Definition NeedsAllStatements (request_sql : str) : bool :=
  let sql := StripAsciiWhitespace request_sql in
  str_contains request_sql $"DECLARE" || str_contains request_sql $"CALL " ||
  str_contains request_sql $"BEGIN" || str_contains request_sql $"CREATE CONSTANT" ||
  StartsWithIgnoreCase sql $"CREATE FUNCTION" || StartsWithIgnoreCase sql $"CREATE OR REPLACE FUNCTION" ||
  StartsWithIgnoreCase sql $"CREATE SNAPSHOT" || StartsWithIgnoreCase sql $"CREATE TABLE" ||
  ContainsSetKeyword request_sql.

(** ** Splitting *)

(** Text whose quotes are closed and that has no semicolon outside them: the
    loop reads it to its end without cutting. *)
Fixpoint quotes_after (s : str) (in_quote : bool) : option bool :=
  match s with
  | [] => Some in_quote
  | c :: s =>
      if is_quote_char c then quotes_after s (negb in_quote)
      else if is_semicolon c && negb in_quote then None
      else quotes_after s in_quote
  end.

Definition whole_statement (s : str) : Prop := quotes_after s false = Some false.

Lemma split_loop_text s q q' rest cur :
  quotes_after s q = Some q' -> split_loop (s ++ rest) cur q = split_loop rest (cur ++ s) q'.
Proof.
  revert q cur. induction s as [|c s IH]; intros q cur E; cbn in *; [injection E as ->; by rewrite app_nil_r|].
  destruct (is_quote_char c); [|destruct (is_semicolon c && negb q); [done|]];
    rewrite (IH _ (cur ++ [c]) E); by rewrite <- app_assoc.
Qed.

Lemma cut_statement_text s q q' rest :
  quotes_after s q = Some q' ->
  cut_statement (s ++ rest) q = (fun p : str * str => (s ++ p.1, p.2)) <$> cut_statement rest q'.
Proof.
  revert q. induction s as [|c s IH]; intros q E; cbn in *.
  { injection E as ->. by destruct (cut_statement rest q') as [[]|]. }
  destruct (is_quote_char c); [|destruct (is_semicolon c && negb q); [done|]];
    rewrite (IH _ E); by destruct (cut_statement rest q') as [[]|].
Qed.

Lemma cut_semicolon rest : cut_statement (";"%char :: rest) false = Some ([], rest).
Proof. done. Qed.

(** A text either has a first unquoted semicolon, or has none. *)
Lemma cut_statement_spec sql q :
  match cut_statement sql q with
  | Some (stmt, rest) => sql = stmt ++ ";"%char :: rest /\ quotes_after stmt q = Some false
  | None => exists q', quotes_after sql q = Some q'
  end.
Proof.
  revert q. induction sql as [|c sql IH]; intros q; cbn; [by exists q|].
  destruct (is_quote_char c) eqn:Q.
  { specialize (IH (negb q)). destruct (cut_statement sql (negb q)) as [[stmt rest]|]; cbn; [|done].
    destruct IH as [-> E]. by rewrite Q. }
  destruct (is_semicolon c && negb q) eqn:C.
  { apply andb_true_iff in C as [C N]. apply bool_decide_eq_true in C as ->. cbn. by destruct q. }
  specialize (IH q). destruct (cut_statement sql q) as [[stmt rest]|]; cbn; [|done].
  destruct IH as [-> E]. by rewrite Q, C.
Qed.

Lemma split_after s rest : whole_statement s ->
  SplitSemicolonStatements (s ++ ";"%char :: rest) = add_statement s (SplitSemicolonStatements rest).
Proof. intros W. unfold SplitSemicolonStatements. by rewrite (split_loop_text s false false). Qed.

Lemma split_last s q : quotes_after s false = Some q -> SplitSemicolonStatements s = add_statement s [].
Proof.
  intros W. unfold SplitSemicolonStatements. rewrite <- (app_nil_r s) at 1.
  by rewrite (split_loop_text s false q).
Qed.

(** The statement the splitter finds first is the leading statement. *)
Lemma split_leading sql :
  SplitSemicolonStatements sql =
  match cut_statement sql false with
  | Some (stmt, rest) => add_statement stmt (SplitSemicolonStatements rest)
  | None => add_statement sql []
  end.
Proof.
  pose proof (cut_statement_spec sql false) as C. destruct (cut_statement sql false) as [[stmt rest]|].
  - destruct C as [-> W]. by apply split_after.
  - destruct C as [q W]. by eapply split_last.
Qed.

Fixpoint script_of (pieces : list str) : str :=
  match pieces with
  | [] => []
  | [p] => p
  | p :: ps => p ++ ";"%char :: script_of ps
  end.

Lemma split_pieces pieces : Forall whole_statement pieces ->
  SplitSemicolonStatements (script_of pieces) = foldr add_statement [] pieces.
Proof.
  induction 1 as [|p ps W F IH]; [done|]. destruct ps as [|p' ps].
  - cbn [script_of foldr]. by rewrite (split_last p false).
  - cbn [script_of foldr] in *. rewrite split_after by done. by rewrite IH.
Qed.

(** *** Statements as GoogleSQL reads them

    A statement is a sequence of quoted literals and of text without quotes and
    semicolons.  In a literal a backslash takes the next character with it. *)
Inductive Item := Char (c : ascii) | Escape (c : ascii).
Inductive Token := Plain (text : str) | SingleQuoted (body : list Item) | DoubleQuoted (body : list Item).

Definition double_quote : ascii := "034"%char.
Definition backslash : ascii := "092"%char.

Definition item_text (i : Item) : str := match i with Char c => [c] | Escape c => [backslash; c] end.

Definition token_text (t : Token) : str :=
  match t with
  | Plain s => s
  | SingleQuoted body => "'"%char :: flat_map item_text body ++ ["'"%char]
  | DoubleQuoted body => double_quote :: flat_map item_text body ++ [double_quote]
  end.

Definition statement_text (stmt : list Token) : str := flat_map token_text stmt.

Definition item_ok (close : ascii) (i : Item) : Prop :=
  match i with Char c => c <> close /\ c <> backslash | Escape _ => True end.

Definition token_ok (t : Token) : Prop :=
  match t with
  | Plain s => Forall (fun c => c ∉ ["'"%char; double_quote; ";"%char]) s
  | SingleQuoted body => Forall (item_ok "'"%char) body
  | DoubleQuoted body => Forall (item_ok double_quote) body
  end.

(** The literals that the splitter reads as GoogleSQL does: single-quoted ones
    without an escaped apostrophe, double-quoted ones without apostrophes and
    semicolons. *)
Definition apostrophes_seen (t : Token) : Prop :=
  match t with
  | Plain _ => True
  | SingleQuoted body => Escape "'"%char ∉ body
  | DoubleQuoted body => Forall (fun i => ("'"%char ∉ item_text i) /\ (";"%char ∉ item_text i)) body
  end.

(** A statement between two semicolons: not blank, without blanks around it. *)
Definition statement_ok (stmt : list Token) : Prop :=
  Forall token_ok stmt /\ Forall apostrophes_seen stmt /\
  statement_text stmt <> [] /\ StripAsciiWhitespace (statement_text stmt) = statement_text stmt.

Lemma quotes_after_app a b q q1 : quotes_after a q = Some q1 -> quotes_after (a ++ b) q = quotes_after b q1.
Proof.
  revert q. induction a as [|c a IH]; intros q E; cbn in *; [by injection E as ->|].
  destruct (is_quote_char c); [by apply IH|]. destruct (is_semicolon c && negb q); [done|by apply IH].
Qed.

Lemma quotes_after_plain s : Forall (fun c => c <> "'"%char /\ c <> ";"%char) s -> whole_statement s.
Proof.
  unfold whole_statement. induction 1 as [|c s [A B] _ IH]; [done|]. cbn. unfold is_quote_char, is_semicolon.
  by rewrite !bool_decide_false.
Qed.

(** Inside single quotes only an apostrophe matters. *)
Lemma quotes_after_quoted s : "'"%char ∉ s -> quotes_after s true = Some true.
Proof.
  induction s as [|c s IH]; [done|]. rewrite not_elem_of_cons. intros [N I]. cbn. unfold is_quote_char.
  rewrite bool_decide_false by congruence. rewrite andb_false_r. by apply IH.
Qed.

Lemma single_body body : Forall (item_ok "'"%char) body -> Escape "'"%char ∉ body ->
  "'"%char ∉ flat_map item_text body.
Proof.
  intros F N I. apply list_elem_of_In, in_flat_map in I as (i & Hi & I). apply list_elem_of_In in Hi.
  rewrite Forall_forall in F. specialize (F i Hi). destruct i as [c|c]; cbn in I.
  - destruct I as [->|[]]. by destruct F.
  - destruct I as [I|[->|[]]]; [discriminate I|done].
Qed.

Lemma token_whole t : token_ok t -> apostrophes_seen t -> whole_statement (token_text t).
Proof.
  destruct t as [s|body|body]; intros O A; unfold token_text.
  - apply quotes_after_plain, (Forall_impl _ _ _ O). intros c. rewrite !not_elem_of_cons. tauto.
  - unfold whole_statement. cbn. by rewrite (quotes_after_app _ _ _ _ (quotes_after_quoted _ (single_body _ O A))).
  - apply quotes_after_plain. constructor; [done|]. apply Forall_app. split; [|by repeat constructor].
    apply Forall_flat_map, (Forall_impl _ _ _ A). intros i [P Q]. apply Forall_forall. intros c I.
    split; intros ->; [by apply P|by apply Q].
Qed.

Lemma statement_whole stmt : statement_ok stmt -> whole_statement (statement_text stmt).
Proof.
  intros (O & A & _). induction stmt as [|t stmt IH]; [done|]. apply Forall_cons in O as [Ot O].
  apply Forall_cons in A as [At A]. unfold statement_text. cbn [flat_map]. unfold whole_statement.
  rewrite (quotes_after_app _ _ _ _ (token_whole t Ot At)). by apply IH.
Qed.

Lemma add_statement_text stmt out : statement_ok stmt ->
  add_statement (statement_text stmt) out = statement_text stmt :: out.
Proof. intros (_ & _ & N & E). unfold add_statement. rewrite E. by destruct (statement_text stmt). Qed.

(** Text without apostrophes and semicolons. *)
Definition unmarked (s : str) : Prop := Forall (fun c => c <> "'"%char /\ c <> ";"%char) s.

(** C28: a script of statements with semicolons between them splits into exactly
    these statements, in order, a semicolon at the end adds none, and the first of
    them is the leading statement.  It holds when a single-quoted literal has no
    escaped apostrophe (it may have semicolons) and a double-quoted one has
    neither apostrophes nor semicolons; comments, raw and triple-quoted literals
    are covered only as text without quotes and semicolons.  The conditions are
    needed: a semicolon between double quotes, and one after an escaped
    apostrophe, cut their statement in two. *)
Theorem split_statements (stmts : list (list Token)) :
  (Forall statement_ok stmts ->
   SplitSemicolonStatements (script_of (map statement_text stmts)) = map statement_text stmts /\
   SplitSemicolonStatements (script_of (map statement_text stmts ++ [[]])) = map statement_text stmts /\
   forall s rest, stmts = s :: rest -> LeadingScriptStatement (script_of (map statement_text stmts)) = statement_text s) /\
  (forall before inside after, unmarked before -> unmarked inside -> unmarked after ->
   SplitSemicolonStatements (before ++ double_quote :: inside ++ ";"%char :: after ++ [double_quote]) =
     add_statement (before ++ double_quote :: inside) (add_statement (after ++ [double_quote]) [])) /\
  (forall before inside1 inside2 after, unmarked before -> unmarked inside1 -> unmarked inside2 -> unmarked after ->
   SplitSemicolonStatements
     (before ++ "'"%char :: inside1 ++ backslash :: "'"%char :: inside2 ++ ";"%char :: after ++ ["'"%char]) =
   add_statement (before ++ "'"%char :: inside1 ++ backslash :: "'"%char :: inside2)
     (add_statement (after ++ ["'"%char]) [])).
Proof.
  split_and!.
  - intros F.
    assert (Forall whole_statement (map statement_text stmts)) as W
      by (apply Forall_map, (Forall_impl _ _ _ F); intros s; by apply statement_whole).
    assert (foldr add_statement [] (map statement_text stmts) = map statement_text stmts) as E.
    { clear W. induction F as [|s l T _ IH]; [done|]. cbn. by rewrite IH, add_statement_text. }
    split; [by rewrite split_pieces|]. split.
    + rewrite split_pieces; [by rewrite foldr_app|]. apply Forall_app. by repeat constructor.
    + intros s rest ->. apply Forall_cons in F as [T _]. pose proof (statement_whole s T) as Ws.
      destruct T as (_ & _ & N & Es). unfold LeadingScriptStatement. destruct rest as [|s' rest]; cbn [map script_of].
      * rewrite <- (app_nil_r (statement_text s)) at 1. rewrite (cut_statement_text _ false false) by done. done.
      * rewrite (cut_statement_text _ false false) by done. rewrite cut_semicolon.
        cbn [fmap option_fmap option_map fst]. by rewrite app_nil_r.
  - intros before inside after B I A.
    replace (before ++ double_quote :: inside ++ ";"%char :: after ++ [double_quote])
      with ((before ++ double_quote :: inside) ++ ";"%char :: after ++ [double_quote]) by (by rewrite <- app_assoc).
    rewrite split_after, (split_last _ false); [done|..]; apply quotes_after_plain, Forall_app; split; try done;
      by repeat constructor.
  - intros before inside1 inside2 after B I1 I2 A.
    assert (forall s, unmarked s -> quotes_after s true = Some true) as Q.
    { intros s U. apply quotes_after_quoted. intros J. unfold unmarked in U. rewrite Forall_forall in U. by destruct (U _ J). }
    replace (before ++ "'"%char :: inside1 ++ backslash :: "'"%char :: inside2 ++ ";"%char :: after ++ ["'"%char])
      with ((before ++ "'"%char :: inside1 ++ backslash :: "'"%char :: inside2) ++ ";"%char :: after ++ ["'"%char])
      by (by repeat (rewrite <- app_assoc; cbn [app])).
    rewrite split_after, (split_last _ true); [done|..]; unfold whole_statement.
    + by rewrite (quotes_after_app after _ _ _ (quotes_after_plain _ A)).
    + rewrite (quotes_after_app before _ _ _ (quotes_after_plain _ B)).
      change (quotes_after ("'"%char :: ?x) false) with (quotes_after x true).
      rewrite (quotes_after_app inside1 _ _ _ (Q _ I1)).
      change (quotes_after (backslash :: "'"%char :: ?x) true) with (quotes_after x false). by apply quotes_after_plain.
Qed.

(** ** The chunk of a SET *)

Context `{!AbslTextLaws}.

Lemma strip_leading_app sql : exists sp, sql = sp ++ StripLeadingWhitespace sql /\
  Forall (fun c => ascii_isspace c = true) sp.
Proof.
  induction sql as [|c sql (sp & E & F)]; [by exists []|]. cbn.
  destruct (ascii_isspace c) eqn:Sp; [|by exists []]. exists (c :: sp). split; [by rewrite E at 1|by constructor].
Qed.

Lemma space_plain c : ascii_isspace c = true -> is_quote_char c = false /\ is_semicolon c = false.
Proof.
  intros S%ascii_isspace_spec. assert (byteval "'"%char = 39 /\ byteval ";"%char = 59)%Z by done.
  split; apply bool_decide_eq_false; intros ->; lia.
Qed.

Lemma spaces_plain sp : Forall (fun c => ascii_isspace c = true) sp -> whole_statement sp.
Proof.
  unfold whole_statement. induction 1 as [|c sp S _ IH]; [done|]. cbn.
  destruct (space_plain c S) as [-> ->]. done.
Qed.

Lemma strip_leading_spaces sp s : Forall (fun c => ascii_isspace c = true) sp ->
  StripLeadingWhitespace (sp ++ s) = StripLeadingWhitespace s.
Proof. induction 1 as [|c sp S _ IH]; [done|]. cbn. by rewrite S. Qed.

Lemma strip_spaces sp s : Forall (fun c => ascii_isspace c = true) sp ->
  StripAsciiWhitespace (sp ++ s) = StripAsciiWhitespace s.
Proof. intros F. unfold StripAsciiWhitespace. by rewrite strip_leading_spaces. Qed.

(** The chunk cut for a SET is the leading statement of the text.  When a
    semicolon ends it, exactly the text after the semicolon remains; when none
    does, as many bytes as there were blanks in front remain unread, so a last SET
    after a blank leaves a piece of itself to be read as the next statement. *)
Theorem set_chunk_consumed sql :
  let chunk := ExtractFirstStatementChunk sql in
  chunk_sql chunk = LeadingScriptStatement sql /\
  match cut_statement sql false with
  | Some (_, rest) => drop (consumed_bytes chunk) sql = rest
  | None => length (drop (consumed_bytes chunk) sql) = leading_spaces sql
  end.
Proof.
  destruct (strip_leading_app sql) as (sp & E & F). pose proof (spaces_plain sp F) as W.
  unfold ExtractFirstStatementChunk, LeadingScriptStatement, leading_spaces.
  set (body := StripLeadingWhitespace sql) in *.
  assert (length sql - length body = length sp) as -> by (rewrite E, length_app; lia).
  rewrite E, drop_app_length, (cut_statement_text sp false false) by done.
  pose proof (cut_statement_spec body false) as C.
  destruct (cut_statement body false) as [[stmt rest]|];
    cbn [fmap option_fmap option_map fst snd chunk_sql consumed_bytes].
  - destruct C as [-> _]. rewrite strip_spaces by done. split; [done|].
    replace (sp ++ stmt ++ ";"%char :: rest) with ((sp ++ stmt ++ [";"%char]) ++ rest)
      by (by rewrite <- !app_assoc).
    apply drop_app_length'. rewrite !length_app. cbn. lia.
  - rewrite strip_spaces by done. split; [done|]. rewrite length_drop, !length_app. lia.
Qed.
End script_text.

(** [SELECT ';'; SELECT 2] splits into its two statements; [SELECT "a;b"] is cut. *)
Lemma split_statements_witness :
  SplitSemicolonStatements $"SELECT ';'; SELECT 2" = [$"SELECT ';'"; $"SELECT 2"] /\
  SplitSemicolonStatements ($"SELECT " ++ double_quote :: $"a" ++ $";" ++ $"b" ++ [double_quote]) =
    [$"SELECT " ++ double_quote :: $"a"; $"b" ++ [double_quote]].
Proof.
  split.
  - transitivity (SplitSemicolonStatements (script_of (map statement_text
      [[Plain $"SELECT "; SingleQuoted [Char ";"%char]]; [Plain $"SELECT 2"]]))); [by vm_compute|].
    apply (proj1 (split_statements [[Plain $"SELECT "; SingleQuoted [Char ";"%char]]; [Plain $"SELECT 2"]])).
    assert (forall s, forallb (fun c => bool_decide (c ∉ ["'"%char; double_quote; ";"%char])) s = true -> token_ok (Plain s)) as P.
    { intros s E. apply Forall_forall. intros c I. rewrite forallb_forall in E. apply list_elem_of_In in I.
      exact (bool_decide_eq_true_1 _ (E c I)). }
    apply Forall_cons; split; [split_and!|apply Forall_cons; split; [split_and!|by apply Forall_nil]].
    + apply Forall_cons; split; [by apply P; vm_compute|]. apply Forall_cons; split; [|by apply Forall_nil].
      apply Forall_cons; split; [by split|by apply Forall_nil].
    + repeat (apply Forall_cons; split); [done|intros I; by apply list_elem_of_singleton in I|by apply Forall_nil].
    + discriminate.
    + by vm_compute.
    + apply Forall_cons; split; [by apply P; vm_compute|by apply Forall_nil].
    + repeat (apply Forall_cons; split); [done|by apply Forall_nil].
    + discriminate.
    + by vm_compute.
  - rewrite (proj1 (proj2 (split_statements [])) $"SELECT " $"a" $"b"); [by vm_compute|..]; by repeat constructor.
Defined.
