(* ===== verification/SqlPreprocess.v ===== *)
(** * SqlPreprocess: the rewriting of a statement before it is analyzed

    Models [coordinator/sql_preprocess.cc] and the files it calls
    ([sql_preprocess_rewrites.cc], [sql_preprocess_rewrites_helpers.cc],
    [sql_preprocess_as_paren_rewrites.cc], [sql_preprocess_table_decorators.cc]).
    The C++ loops walk an index over the text; here a loop walks the rest of the
    text, and every turn consumes at least one byte, so the length of the text is
    enough fuel ([rewrite_loop_enough] for the shared loop).  The three quote-aware
    rewriters have one loop, which differs in the quote characters and in what is
    tried at a position. *)

From S2P Require Import Prelude Absl AbslReference ScriptText.

Section preprocess.
Context `{AbslText}.

Definition dquote_char : ascii := "034"%char.
Definition squote_char : ascii := "'"%char.
Definition backtick : ascii := "`"%char.

(** ** Helpers *)

Definition IsIdentChar (c : ascii) : bool := ascii_isalnum c || bool_decide (c = "_"%char).

(** [sql] starts with [literal], which is written in lower case; the rest. *)
Fixpoint MatchCaseInsensitiveAt (sql literal : str) : option str :=
  match literal, sql with
  | [], _ => Some sql
  | l :: literal, c :: sql => if bool_decide (ascii_tolower c = l) then MatchCaseInsensitiveAt sql literal else None
  | _ :: _, [] => None
  end.

Definition IsWordBoundaryBefore (prev : option ascii) : bool :=
  match prev with Some c => negb (IsIdentChar c) | None => true end.

Definition IsWordBoundaryAfter (rest : str) : bool :=
  match rest with c :: _ => negb (IsIdentChar c) | [] => true end.

Fixpoint skip_digits (s : str) : str * str :=
  match s with
  | c :: s' => if ascii_isdigit c then let '(d, r) := skip_digits s' in (c :: d, r) else ([], s)
  | [] => ([], [])
  end.

(** [.<_digits>] to [[OFFSET(digits)]]: the replacement and the text after it. *)
Definition TryAppendAnonymousStructOffsetRewrite (prev : option ascii) (sql : str) : option (str * str) :=
  match strip_prefix $"._" sql with
  | None => None
  | Some after =>
      match skip_digits after with
      | ([], _) => None
      | (digits, rest) =>
          if IsWordBoundaryAfter rest then Some ($"[OFFSET(" ++ digits ++ $")]", rest) else None
      end
  end.

(** The expression of [FORMAT('%T', expr ...)]: up to the comma or the closing
    parenthesis at depth zero. *)
Fixpoint format_argument (depth : nat) (s : str) : str * str :=
  match s with
  | [] => ([], [])
  | c :: rest =>
      let more d := let '(e, r) := format_argument d rest in (c :: e, r) in
      if bool_decide (c = "("%char) then more (S depth)
      else if bool_decide (c = ")"%char) then match depth with 0 => ([], s) | S d => more d end
      else if bool_decide (c = ","%char) && (depth =? 0) then ([], s)
      else more depth
  end.

(** [FORMAT('%T', expr] and the character after it. *)
Definition TryAppendFormatPercentTRewrite (prev : option ascii) (sql : str) : option (str * str) :=
  match MatchCaseInsensitiveAt sql $"format(" with
  | None => None
  | Some j =>
      match strip_prefix $"'%T'" (StripLeadingWhitespace j) with
      | None => None
      | Some j =>
          match StripLeadingWhitespace j with
          | c :: j =>
              if bool_decide (c = ","%char) then
                match format_argument 0 (StripLeadingWhitespace j) with
                | ([], _) => None
                | (expr, rest) => Some ($"emu_format_t(" ++ expr ++ $")", tail rest)
                end
              else None
          | [] => None
          end
      end
  end.

Definition TryAppendIntegerAliasRewrite (prev : option ascii) (sql : str) : option (str * str) :=
  match MatchCaseInsensitiveAt sql $"integer" with
  | None => None
  | Some rest =>
      if IsWordBoundaryBefore prev && IsWordBoundaryAfter rest then Some ($"INT64", rest) else None
  end.

(** ** Rewriting outside quoted literals *)

(** [AdvanceSingleQuoted], [AdvanceDoubleQuoted]: at a quote inside a literal, the
    bytes copied, the text after them, and whether the literal goes on. *)
Definition AdvanceQuoted (q : ascii) (rest : str) : str * str * bool :=
  match rest with
  | d :: rest' => if bool_decide (d = q) then ([q; d], rest', true) else ([q], rest, false)
  | [] => ([q], [], false)
  end.

Section rewrite.
Context (quotes : list ascii) (try : option ascii -> str -> option (str * str)).

(** [prev] is the byte in front of [sql]; [literal] the quote of the literal that
    is open. *)
Fixpoint rewrite_loop (fuel : nat) (literal prev : option ascii) (sql : str) : str :=
  match fuel, sql with
  | S fuel, c :: rest =>
      match literal with
      | Some q =>
          if bool_decide (c = q) then
            let '(copied, rest', open) := AdvanceQuoted q rest in
            copied ++ rewrite_loop fuel (if (open : bool) then Some q else None) (Some c) rest'
          else c :: rewrite_loop fuel literal (Some c) rest
      | None =>
          if bool_decide (c ∈ quotes) then c :: rewrite_loop fuel (Some c) (Some c) rest
          else
            match try prev sql with
            | Some (out, rest') =>
                out ++ rewrite_loop fuel None (List.last (map Some (take (length sql - length rest') sql)) prev) rest'
            | None => c :: rewrite_loop fuel None (Some c) rest
            end
      end
  | _, _ => []
  end.

Definition rewrite_outside_literals (sql : str) : str := rewrite_loop (length sql) None None sql.
End rewrite.

Definition RewriteAnonymousStructFieldAccess : str -> str :=
  rewrite_outside_literals [squote_char] TryAppendAnonymousStructOffsetRewrite.

Definition RewriteFormatTypeLiteral : str -> str :=
  rewrite_outside_literals [squote_char; dquote_char] TryAppendFormatPercentTRewrite.

Definition RewriteIntegerTypeAlias : str -> str :=
  rewrite_outside_literals [squote_char; dquote_char] TryAppendIntegerAliasRewrite.

(** ** Block comments *)

(** An unterminated comment leaves its last byte. *)
Fixpoint strip_comments_loop (fuel : nat) (sql : str) : str :=
  match fuel, sql with
  | S fuel, c :: rest =>
      match strip_prefix $"/*" sql with
      | Some body =>
          match find_sub $"*/" body with
          | Some (_, after) => strip_comments_loop fuel after
          | None => match last body with Some z => [z] | None => [] end
          end
      | None => c :: strip_comments_loop fuel rest
      end
  | _, _ => []
  end.

Definition StripBlockComments (sql : str) : str := strip_comments_loop (length sql) sql.

(** ** CAST of integer literals in STRUCT *)

Fixpoint skip_literal (s : str) : str * str :=
  match s with
  | c :: s' =>
      if ascii_isdigit c || bool_decide (c = "-"%char) || bool_decide (c = "+"%char)
      then let '(d, r) := skip_literal s' in (c :: d, r) else ([], s)
  | [] => ([], [])
  end.

Definition cast_suffix (rest : str) : option str :=
  match strip_prefix $" AS INT64) AS " rest with
  | Some r => Some r
  | None => strip_prefix $" AS INTEGER) AS " rest
  end.

Fixpoint cast_loop (fuel : nat) (sql : str) : str :=
  match fuel, sql with
  | S fuel, c :: rest =>
      match strip_prefix $"CAST(" sql with
      | Some after =>
          match skip_literal after with
          | ([], _) => c :: cast_loop fuel rest
          | (lit, r) => match cast_suffix r with
                        | Some r => lit ++ $" AS " ++ cast_loop fuel r
                        | None => c :: cast_loop fuel rest
                        end
          end
      | None => c :: cast_loop fuel rest
      end
  | _, _ => []
  end.

Definition RewriteStructInt64LiteralCasts (sql : str) : str := cast_loop (length sql) sql.

(** ** Table decorators *)

Fixpoint at_in_backticks (sql : str) (in_backtick : bool) : bool :=
  match sql with
  | [] => false
  | c :: sql =>
      if bool_decide (c = backtick) then at_in_backticks sql (negb in_backtick)
      else (in_backtick && bool_decide (c = "@"%char)) || at_in_backticks sql in_backtick
  end.

Definition HasDecoratorAndSystemTimeConflict (sql : str) : bool :=
  str_contains (AsciiStrToUpper sql) $"FOR SYSTEM_TIME AS OF" && at_in_backticks sql false.

(** Milliseconds since the epoch; [now_ms] is the clock. *)
Definition ResolveDecoratorEpochMs (now_ms : Z) (raw : str) : option Z :=
  match raw with
  | "-"%char :: _ => (fun offset => now_ms + offset)%Z <$> SimpleAtoi raw
  | _ => SimpleAtoi raw
  end.

(** The text up to the next backtick that no backslash precedes, and the rest
    from the backtick on; [None] when there is none. *)
Fixpoint next_backtick (s : str) : option (str * str) :=
  match s with
  | [] => None
  | c :: rest =>
      if bool_decide (c = backtick) then Some ([], rest)
      else if bool_decide (c = "\"%char) then
        match rest with
        | [] => None
        | d :: rest' => (fun p : str * str => (c :: d :: p.1, p.2)) <$> next_backtick rest'
        end
      else (fun p : str * str => (c :: p.1, p.2)) <$> next_backtick rest
  end.

(** [base@epoch] *)
Definition decorator (now_ms : Z) (quoted : str) : option (str * Z) :=
  match rfind_sub $"@" quoted with
  | None => None
  | Some (base, raw) =>
      match base, raw with
      | [], _ | _, [] => None
      | _, _ => (fun ms => (base, ms)) <$> ResolveDecoratorEpochMs now_ms raw
      end
  end.

Fixpoint decorators_loop (fuel : nat) (now_ms : Z) (in_backtick : bool) (sql : str) : str :=
  match fuel, sql with
  | S fuel, c :: rest =>
      if negb (bool_decide (c = backtick)) then c :: decorators_loop fuel now_ms in_backtick rest
      else if negb in_backtick then c :: decorators_loop fuel now_ms true rest
      else
        match next_backtick rest with
        | None => c :: decorators_loop fuel now_ms in_backtick rest
        | Some (quoted, rest') =>
            match decorator now_ms quoted with
            | None => backtick :: quoted ++ backtick :: decorators_loop fuel now_ms in_backtick rest'
            | Some (base, ms) =>
                backtick :: base ++ $"` FOR SYSTEM_TIME AS OF TIMESTAMP_MILLIS(" ++ StrInt ms ++ $")"
                  ++ decorators_loop fuel now_ms false rest'
            end
        end
  | _, _ => []
  end.

Definition LowerTableDecorators (now_ms : Z) (sql : str) : str :=
  if HasDecoratorAndSystemTimeConflict sql then sql
  else decorators_loop (length sql) now_ms false sql.

(** ** Parentheses around the body of a function *)

Definition MatchKeywordAt (sql lit : str) : bool :=
  match MatchCaseInsensitiveAt sql lit with Some rest => IsWordBoundaryAfter rest | None => false end.

Definition IsSubqueryBodyStart (sql : str) : bool := MatchKeywordAt sql $"select" || MatchKeywordAt sql $"with".

Definition OpenedSubqueryParens (body : str) : str := if MatchKeywordAt body $"with" then $"(( " else $"((".

Definition starts_with_char (c : ascii) (sql : str) : bool := bool_decide (head sql = Some c).

(** A rewriting at a position: what is written, and the text after it. *)
Definition TryRewriteLeadingOpenParen (out_empty : bool) (sql : str) : option (str * str) :=
  if out_empty && starts_with_char "("%char sql then
    let after := tail sql in
    let j := StripLeadingWhitespace after in
    if (length j <? length after) && starts_with_char "("%char j then
      let body := StripLeadingWhitespace (tail j) in
      if IsSubqueryBodyStart body then Some (OpenedSubqueryParens body, tail j) else None
    else None
  else None.

Definition TryRewriteAsOpenParen (sql : str) : option (str * str) :=
  match MatchCaseInsensitiveAt sql $"as" with
  | None => None
  | Some after =>
      let j := StripLeadingWhitespace after in
      if starts_with_char "("%char j && negb (starts_with_char "("%char (tail j)) then
        let k := StripLeadingWhitespace (tail j) in
        if starts_with_char "("%char k then
          let body := StripLeadingWhitespace (tail k) in
          if IsSubqueryBodyStart body then Some ($"AS " ++ OpenedSubqueryParens body, tail k) else None
        else None
      else None
  end.

(** The byte after the semicolon is skipped as well. *)
Definition TryRewriteCloseDoubleParen (opened : bool) (sql : str) : option (str * str) :=
  if starts_with_char ")"%char sql && opened then
    let j := StripLeadingWhitespace (tail sql) in
    let k := StripLeadingWhitespace (tail j) in
    if starts_with_char ")"%char j && starts_with_char ";"%char k then Some ($"));", tail (tail k))
    else if starts_with_char ";"%char j then Some ($"));", tail (tail j))
    else None
  else None.

Fixpoint parens_loop (fuel : nat) (literal : option ascii) (opened out_empty : bool) (sql : str) : str :=
  match fuel, sql with
  | S fuel, c :: rest =>
      match literal with
      | Some q =>
          if bool_decide (c = q) then
            let '(copied, rest', open) := AdvanceQuoted q rest in
            copied ++ parens_loop fuel (if (open : bool) then Some q else None) opened false rest'
          else c :: parens_loop fuel literal opened false rest
      | None =>
          if bool_decide (c = squote_char) || bool_decide (c = dquote_char)
          then c :: parens_loop fuel (Some c) opened false rest
          else
            match TryRewriteLeadingOpenParen out_empty sql, TryRewriteAsOpenParen sql,
                  TryRewriteCloseDoubleParen opened sql with
            | Some (out, rest'), _, _ | None, Some (out, rest'), _ =>
                out ++ parens_loop fuel None true false rest'
            | None, None, Some (out, rest') => out ++ parens_loop fuel None false false rest'
            | None, None, None => c :: parens_loop fuel None opened false rest
            end
      end
  | _, _ => []
  end.

Definition NormalizeCreateFunctionAsParens (sql : str) : str := parens_loop (length sql) None false true sql.

(** ** The whole rewriting *)

Definition tab : ascii := "009"%char.

Definition PreprocessFunctionBodyBase (now_ms : Z) (sql : str) : str :=
  LowerTableDecorators now_ms
    (RewriteIntegerTypeAlias
       (RewriteStructInt64LiteralCasts
          (RewriteFormatTypeLiteral
             (RewriteAnonymousStructFieldAccess
                (StripBlockComments (map (fun c => if bool_decide (c = tab) then " "%char else c) sql)))))).

Definition strip_trailing_spaces (s : str) : str := rev (StripLeadingWhitespace (rev s)).

Definition PreprocessFunctionBodyForAnalyzer (now_ms : Z) (sql : str) : str :=
  let normalized :=
    strip_trailing_spaces (NormalizeCreateFunctionAsParens (PreprocessFunctionBodyBase now_ms sql)) in
  if bool_decide (last normalized = Some ";"%char) then removelast normalized else normalized.

Definition PreprocessSqlForAnalyzer (now_ms : Z) (sql : str) : str :=
  if HasDecoratorAndSystemTimeConflict sql then sql
  else
    let base := PreprocessFunctionBodyBase now_ms sql in
    if str_contains (AsciiStrToLower base) $"create function" then NormalizeCreateFunctionAsParens base
    else base.

(** ** The loops end *)

Lemma match_at_length sql lit rest :
  MatchCaseInsensitiveAt sql lit = Some rest -> length rest + length lit = length sql.
Proof.
  revert sql. induction lit as [|l lit IH]; intros [|c sql] E; cbn in *; try done.
  - injection E as <-. cbn. lia.
  - injection E as <-. cbn. lia.
  - case_bool_decide; [|done]. apply IH in E. lia.
Qed.

Section loop.
Context (quotes : list ascii) (try : option ascii -> str -> option (str * str)).
Hypothesis try_shorter : forall prev sql out rest, try prev sql = Some (out, rest) -> length rest < length sql.

Lemma rewrite_loop_enough n m literal prev sql :
  length sql <= n -> length sql <= m ->
  rewrite_loop quotes try n literal prev sql = rewrite_loop quotes try m literal prev sql.
Proof.
  revert m literal prev sql. induction n as [|n IH]; intros [|m] literal prev [|c rest] Ln Lm; cbn in Ln, Lm;
    try done; try lia. cbn. destruct literal as [q|].
  - case_bool_decide; [|f_equal; apply IH; lia]. unfold AdvanceQuoted. destruct rest as [|d rest]; cbn in *.
    + f_equal. apply IH; cbn; lia.
    + case_bool_decide; cbn; [do 2 f_equal|f_equal]; apply IH; cbn; lia.
  - case_bool_decide; [f_equal; apply IH; lia|].
    destruct (try prev (c :: rest)) as [[out rest']|] eqn:T; [|f_equal; apply IH; lia].
    apply try_shorter in T. cbn in T. f_equal. apply IH; lia.
Qed.
End loop.

(** ** Literals *)

Section literals.
Context (quotes : list ascii).

(** A literal and the text after it.  A backslash in the literal takes the next
    character with it; the literals have no escaped quote of their own kind. *)
Record Segment := mkSegment { seg_quote : ascii; seg_body : list Item; seg_code : str }.

Definition segment_text (seg : Segment) : str :=
  seg_quote seg :: flat_map item_text (seg_body seg) ++ seg_quote seg :: seg_code seg.

(** A statement: text, then literals each with the text after it. *)
Definition statement_of (code : str) (segs : list Segment) : str := code ++ flat_map segment_text segs.

Definition code_ok (s : str) : Prop := Forall (fun c => c ∉ quotes) s.

(** Two literals have some text between them. *)
Fixpoint segments_ok (segs : list Segment) : Prop :=
  match segs with
  | [] => True
  | seg :: rest =>
      (seg_quote seg ∈ quotes /\ Forall (item_ok (seg_quote seg)) (seg_body seg) /\
       (Escape (seg_quote seg) ∉ seg_body seg) /\
       code_ok (seg_code seg)) /\ (rest <> [] -> seg_code seg <> []) /\ segments_ok rest
  end.

Definition same_literal (a b : Segment) : Prop := seg_quote a = seg_quote b /\ seg_body a = seg_body b.

Lemma literal_body q body : q <> ScriptText.backslash -> Forall (item_ok q) body -> Escape q ∉ body ->
  q ∉ flat_map item_text body.
Proof.
  intros B F N I. apply list_elem_of_In, in_flat_map in I as (i & Hi & I). apply list_elem_of_In in Hi.
  rewrite Forall_forall in F. specialize (F i Hi). destruct i as [c|c]; cbn in I.
  - destruct I as [->|[]]. by destruct F.
  - destruct I as [I|[->|[]]]; [by symmetry in I|done].
Qed.

Context (try : option ascii -> str -> option (str * str)).
Hypothesis quotes_no_backslash : ScriptText.backslash ∉ quotes.
Hypothesis try_plain : forall prev sql out rest, try prev sql = Some (out, rest) ->
  length rest < length sql /\ Forall (fun c => c ∉ quotes) out /\
  exists consumed, sql = consumed ++ rest /\ Forall (fun c => c ∉ quotes) consumed.

(** Text consumed by a rewriting stops at the next quote. *)
Lemma consumed_code consumed rest code R :
  consumed ++ rest = code ++ R -> code_ok consumed -> R = [] \/ (exists q R', R = q :: R' /\ q ∈ quotes) ->
  exists code', code = consumed ++ code' /\ rest = code' ++ R.
Proof.
  intros E C Q. apply app_eq_inv in E as [(k & K1 & K2)|(k & K1 & K2)].
  - destruct k as [|c k]; [exists []; by rewrite !app_nil_r in *|]. exfalso.
    destruct Q as [->|(q & R' & -> & Q)]; [done|]. injection K2 as <- _. subst consumed.
    unfold code_ok in C. rewrite Forall_forall in C. apply (C q); [set_solver|done].
  - by exists k.
Qed.

Lemma loop_code code : forall n prev R,
  code_ok code -> R = [] \/ (exists q R', R = q :: R' /\ q ∈ quotes) -> length (code ++ R) <= n ->
  exists code' n' prev', code_ok code' /\ length R <= n' /\
    rewrite_loop quotes try n None prev (code ++ R) = code' ++ rewrite_loop quotes try n' None prev' R.
Proof.
  induction code as [code IH] using (induction_ltof1 _ (@length ascii)). unfold ltof in IH.
  intros n prev R C Q L. destruct code as [|c code]; [by exists [], n, prev|].
  destruct n as [|n]; [cbn in L; lia|]. cbn [app rewrite_loop]. pose proof C as C'. apply Forall_cons in C' as [Nc C'].
  rewrite bool_decide_false by done. cbn [app length] in L.
  destruct (try prev (c :: code ++ R)) as [[out rest]|] eqn:T.
  - destruct (try_plain _ _ _ _ T) as (Ls & Po & consumed & E & Pc). cbn [length] in Ls.
    destruct (consumed_code consumed rest (c :: code) R) as (code1 & E1 & ->); [done..|].
    edestruct (IH code1) as (code' & n' & prev' & C1 & L1 & E2); [| |exact Q| |].
    + rewrite !length_app in Ls. cbn. lia.
    + rewrite E1 in C. by apply Forall_app in C as [_ C].
    + instantiate (1 := n). lia.
    + rewrite E2. exists (out ++ code'), n', prev'. split; [by apply Forall_app|]. split; [done|]. by rewrite app_assoc.
  - edestruct (IH code) as (code' & n' & prev' & C1 & L1 & E2); [cbn; lia|exact C'|exact Q| |].
    + instantiate (1 := n). lia.
    + rewrite E2. exists (c :: code'), n', prev'. split; [by constructor|]. done.
Qed.

Lemma loop_body q body : q ∉ body -> forall n p R, length (body ++ q :: R) <= n ->
  exists n' p', length (q :: R) <= n' /\
    rewrite_loop quotes try n (Some q) p (body ++ q :: R) = body ++ rewrite_loop quotes try n' (Some q) p' (q :: R).
Proof.
  induction body as [|c body IH]; intros N n p R L; [by exists n, p|]. apply not_elem_of_cons in N as [Nc N].
  destruct n as [|n]; [cbn in L; lia|]. cbn [app rewrite_loop]. rewrite bool_decide_false by congruence.
  destruct (IH N n (Some c) R) as (n' & p' & L' & E); [cbn in L; lia|]. exists n', p'. by rewrite E.
Qed.

Lemma rewrite_segments segs : forall n code prev, code_ok code -> segments_ok segs -> length (statement_of code segs) <= n ->
  exists code' segs', rewrite_loop quotes try n None prev (statement_of code segs) = statement_of code' segs' /\
    Forall2 same_literal segs segs' /\ code_ok code' /\ Forall (fun s => code_ok (seg_code s)) segs'.
Proof.
  induction segs as [|[q body code1] segs IH]; intros n code prev C S L; unfold statement_of in *.
  - destruct (loop_code code n prev [] C (or_introl eq_refl) L) as (code' & n' & prev' & C' & _ & E).
    exists code', []. cbn [flat_map]. rewrite E. by destruct n'.
  - cbn [flat_map] in *. destruct S as ((Hq & F & N & C1) & Sp & S). cbn [seg_quote seg_body seg_code] in *.
    assert (q <> ScriptText.backslash) as Nb by (by intros ->).
    assert (segment_text (mkSegment q body code1) ++ flat_map segment_text segs =
            q :: flat_map item_text body ++ q :: statement_of code1 segs) as T
      by (unfold segment_text, statement_of; cbn; by rewrite <- app_assoc).
    rewrite T in *. destruct (loop_code code n prev _ C (or_intror (ex_intro _ q (ex_intro _ _ (conj eq_refl Hq)))) L)
      as (code' & n' & prev' & C' & L' & E).
    rewrite E. clear E L. destruct n' as [|k]; [cbn in L'; lia|]. cbn [length] in L'. cbn [rewrite_loop].
    rewrite bool_decide_true by done.
    destruct (loop_body q _ (literal_body q body Nb F N) k (Some q) (statement_of code1 segs)) as (m & p & Lm & E); [lia|].
    rewrite E. clear E. destruct m as [|m]; [cbn in Lm; lia|]. cbn [length] in Lm. cbn [rewrite_loop].
    rewrite bool_decide_true by done.
    assert (AdvanceQuoted q (statement_of code1 segs) = ([q], statement_of code1 segs, false)) as ->.
    { unfold AdvanceQuoted, statement_of. destruct code1 as [|c code1].
      - destruct segs; [done|]. exfalso. by apply Sp.
      - cbn [app]. rewrite bool_decide_false; [done|]. intros ->. by apply Forall_cons in C1 as [? _]. }
    destruct (IH m code1 (Some q) C1 S) as (code2 & segs2 & E & F2 & C2 & F3); [unfold statement_of in *; lia|].
    unfold statement_of in E |- *. rewrite E. exists code', (mkSegment q body code2 :: segs2). split.
    + cbn [flat_map]. unfold segment_text at 2. cbn. repeat (rewrite <- app_assoc; cbn [app]). done.
    + split; [constructor; done|]. split; [done|]. by constructor.
Qed.

Lemma rewrite_outside_keeps code segs : code_ok code -> segments_ok segs ->
  exists code' segs', rewrite_outside_literals quotes try (statement_of code segs) = statement_of code' segs' /\
    Forall2 same_literal segs segs' /\ code_ok code' /\ Forall (fun s => code_ok (seg_code s)) segs'.
Proof. intros C S. by apply rewrite_segments. Qed.
End literals.

Context `{!AbslTextLaws}.

Lemma lower_not_quote c : c = squote_char \/ c = dquote_char -> ascii_tolower c = c.
Proof. intros [->| ->]; apply (inj byteval); by rewrite ascii_tolower_spec. Qed.

Lemma match_at_plain sql lit rest :
  MatchCaseInsensitiveAt sql lit = Some rest -> Forall (fun c => c ∉ [squote_char; dquote_char]) lit ->
  exists consumed, sql = consumed ++ rest /\ Forall (fun c => c ∉ [squote_char; dquote_char]) consumed.
Proof.
  revert sql. induction lit as [|l lit IH]; intros [|c sql] E P; cbn in E; try done;
    [injection E as <-; by exists []..|].
  case_bool_decide as C; [|done]. apply Forall_cons in P as [Pl P].
  destruct (IH _ E P) as (consumed & -> & Pc). exists (c :: consumed). split; [done|]. constructor; [|done].
  intros Q. apply Pl. rewrite <- C, lower_not_quote; [done|]. set_solver.
Qed.

Lemma integer_alias_plain prev sql out rest :
  TryAppendIntegerAliasRewrite prev sql = Some (out, rest) ->
  length rest < length sql /\ Forall (fun c => c ∉ [squote_char; dquote_char]) out /\
  exists consumed, sql = consumed ++ rest /\ Forall (fun c => c ∉ [squote_char; dquote_char]) consumed.
Proof.
  unfold TryAppendIntegerAliasRewrite. destruct (MatchCaseInsensitiveAt sql $"integer") as [r|] eqn:M; [|done].
  destruct (_ && _); [|done]. intros [= <- <-]. split; [apply match_at_length in M; change (length $"integer") with 7 in M; lia|].
  split; [apply (bool_decide_unpack _); by vm_compute|].
  apply (match_at_plain _ _ _ M). apply (bool_decide_unpack _). by vm_compute.
Qed.

Lemma skip_digits_spec s d r : skip_digits s = (d, r) -> s = d ++ r /\ Forall (fun c => ascii_isdigit c = true) d.
Proof.
  revert d r. induction s as [|c s IH]; cbn; intros d r E; [by injection E as <- <-|].
  destruct (ascii_isdigit c) eqn:D; [|by injection E as <- <-].
  destruct (skip_digits s) as [d' r']. injection E as <- <-. destruct (IH d' r' eq_refl) as [-> F].
  split; [done|]. by constructor.
Qed.

Lemma digit_unquoted c : ascii_isdigit c = true -> c ∉ [squote_char; dquote_char].
Proof.
  intros D%ascii_isdigit_spec Q. assert (byteval squote_char = 39 /\ byteval dquote_char = 34)%Z by done.
  apply elem_of_cons in Q as [->|Q]; [lia|]. apply elem_of_cons in Q as [->|Q]; [lia|]. set_solver.
Qed.

Lemma struct_offset_plain prev sql out rest :
  TryAppendAnonymousStructOffsetRewrite prev sql = Some (out, rest) ->
  length rest < length sql /\ Forall (fun c => c ∉ [squote_char]) out /\
  exists consumed, sql = consumed ++ rest /\ Forall (fun c => c ∉ [squote_char]) consumed.
Proof.
  unfold TryAppendAnonymousStructOffsetRewrite. destruct (strip_prefix $"._" sql) as [after|] eqn:P; [|done].
  apply strip_prefix_Some in P as ->. destruct (skip_digits after) as [[|d ds] r] eqn:D; [done|].
  destruct (IsWordBoundaryAfter r); [|done]. intros [= <- <-]. apply skip_digits_spec in D as [-> D].
  assert (Forall (fun c => c ∉ [squote_char]) (d :: ds)) as N.
  { apply (Forall_impl _ _ _ D). intros c C%digit_unquoted. set_solver. }
  split; [rewrite !length_app; cbn; lia|].
  split; [change (Forall (fun c => c ∉ [squote_char]) ($"[OFFSET(" ++ (d :: ds) ++ $")]"));
          apply Forall_app; split; [|apply Forall_app; split; [exact N|]];
          apply (bool_decide_unpack _); by vm_compute|].
  exists ($"._" ++ d :: ds). split; [by rewrite <- app_assoc|]. apply Forall_app. split; [|exact N].
  apply (bool_decide_unpack _). by vm_compute.
Qed.

(** C29: in a statement of code and string literals, the rewriting of INTEGER to INT64
    changes the code only: the result has the same literals, byte for byte and in
    the same places, and code without quotes between them.  The rewriting of
    anonymous struct fields does so for single-quoted literals; it takes a
    double-quoted one for code, so the statement is read with single quotes
    alone.  A literal may have backslash escapes but not of its own quote, and two
    literals have some code between them; comments and raw or triple-quoted
    literals are covered only where they have no quotes. *)
Theorem rewriting_keeps_literals code segs :
  (code_ok [squote_char; dquote_char] code -> segments_ok [squote_char; dquote_char] segs ->
   exists code' segs', RewriteIntegerTypeAlias (statement_of code segs) = statement_of code' segs' /\
     Forall2 same_literal segs segs' /\ code_ok [squote_char; dquote_char] code' /\
     Forall (fun s => code_ok [squote_char; dquote_char] (seg_code s)) segs') /\
  (code_ok [squote_char] code -> segments_ok [squote_char] segs ->
   exists code' segs', RewriteAnonymousStructFieldAccess (statement_of code segs) = statement_of code' segs' /\
     Forall2 same_literal segs segs' /\ code_ok [squote_char] code' /\
     Forall (fun s => code_ok [squote_char] (seg_code s)) segs').
Proof.
  split; apply rewrite_outside_keeps.
  - apply (bool_decide_unpack _). by vm_compute.
  - intros *. apply integer_alias_plain.
  - apply (bool_decide_unpack _). by vm_compute.
  - intros *. apply struct_offset_plain.
Qed.

(** ** Decorators *)

(** Text outside names: no backtick, no [@], no backslash. *)
Definition outside (s : str) : Prop := Forall (fun c => c <> backtick /\ c <> "@"%char /\ c <> "\"%char) s.
Definition name_text (s : str) : Prop := Forall (fun c => c <> backtick) s.

(** Names in backticks, each with the text after it. *)
Fixpoint names_then (l : list (str * str)) : str :=
  match l with
  | [] => []
  | (name, after) :: l => name ++ backtick :: after ++ match l with [] => [] | _ => backtick :: names_then l end
  end.

Lemma decorators_plain n now b s rest :
  name_text s -> length (s ++ rest) <= n ->
  decorators_loop n now b (s ++ rest) = s ++ decorators_loop (n - length s) now b rest.
Proof.
  intros N. revert n. induction N as [|c s Nc _ IH]; intros n L; [by rewrite Nat.sub_0_r|].
  destruct n as [|n]; [cbn in L; lia|]. cbn. rewrite bool_decide_false by done. cbn in *.
  rewrite IH by lia. done.
Qed.

Lemma next_backtick_outside s rest : outside s -> next_backtick (s ++ backtick :: rest) = Some (s, rest).
Proof.
  induction 1 as [|c s (Nb & _ & Ns) _ IH]; [done|]. cbn. rewrite !bool_decide_false by done. by rewrite IH.
Qed.

Lemma next_backtick_none s : outside s -> next_backtick s = None.
Proof.
  induction 1 as [|c s (Nb & _ & Ns) _ IH]; [done|]. cbn. rewrite !bool_decide_false by done. by rewrite IH.
Qed.

Lemma decorator_outside now s : outside s -> decorator now s = None.
Proof.
  intros O. unfold decorator. destruct (rfind_sub $"@" s) as [[a b]|] eqn:R; [|done].
  apply rfind_sub_Some in R as ->. unfold outside in O. apply Forall_app in O as [_ O].
  apply Forall_app in O as [O _]. cbn in O. apply Forall_cons in O as [(_ & N & _) _]. done.
Qed.

Lemma outside_name s : outside s -> name_text s.
Proof. intros O. apply (Forall_impl _ _ _ O). by intros c (N & _). Qed.

Lemma decorators_tail n now b s : name_text s -> length s <= n -> decorators_loop n now b s = s.
Proof.
  intros N L. pose proof (decorators_plain n now b s [] N) as E. rewrite app_nil_r in E. rewrite E by done.
  replace (decorators_loop (n - length s) now b []) with (@nil ascii) by (by destruct (n - length s)).
  by rewrite app_nil_r.
Qed.

Lemma decorators_backtick n now rest :
  decorators_loop (S n) now true (backtick :: rest) =
  match next_backtick rest with
  | None => backtick :: decorators_loop n now true rest
  | Some (quoted, rest') =>
      match decorator now quoted with
      | None => backtick :: quoted ++ backtick :: decorators_loop n now true rest'
      | Some (base, ms) =>
          backtick :: base ++ $"` FOR SYSTEM_TIME AS OF TIMESTAMP_MILLIS(" ++ StrInt ms ++ $")"
            ++ decorators_loop n now false rest'
      end
  end.
Proof. done. Qed.

Lemma decorators_names n now l :
  Forall (fun p : str * str => name_text p.1 /\ outside p.2) l -> length (names_then l) <= n ->
  decorators_loop n now true (names_then l) = names_then l.
Proof.
  intros F. revert n. induction F as [|[name after] l [N O] F IH]; intros n L; [by destruct n|].
  cbn [fst snd] in N, O. cbn [names_then] in *. rewrite decorators_plain by done. f_equal.
  rewrite length_app in L. cbn [length] in L. rewrite length_app in L.
  destruct (n - length name) as [|k] eqn:K; [lia|]. rewrite decorators_backtick.
  destruct l as [|p l].
  - rewrite app_nil_r, next_backtick_none by done. f_equal. apply decorators_tail; [by apply outside_name|].
    cbn in L. lia.
  - rewrite next_backtick_outside, decorator_outside by done. do 3 f_equal. apply IH. cbn [length] in L. lia.
Qed.

(** A statement whose [@] signs are all inside the backticks of its names, as
    in a table decorator, is returned unchanged: no decorator is lowered to FOR
    SYSTEM_TIME AS OF.  The loop examines the text between two names instead of
    the names. *)
Theorem decorators_not_lowered now_ms before (l : list (str * str)) :
  name_text before -> Forall (fun p => name_text p.1 /\ outside p.2) l ->
  let sql := before ++ match l with [] => [] | _ => backtick :: names_then l end in
  LowerTableDecorators now_ms sql = sql.
Proof.
  intros B F. cbn zeta. unfold LowerTableDecorators. destruct (HasDecoratorAndSystemTimeConflict _); [done|].
  rewrite decorators_plain by done. f_equal. rewrite length_app, Nat.add_comm, Nat.add_sub.
  destruct l as [|p l]; [done|]. cbn [length]. change (decorators_loop (S ?n) ?x false (backtick :: ?r)) with
    (backtick :: decorators_loop n x true r). f_equal. by apply decorators_names.
Qed.
End preprocess.
