(* ===== verification/FrameStack.v ===== *)
(** * FrameStack: variable scopes of scripts and SQL functions

    Models [backend/engine/semantic/frame_stack.h] and [frame_stack.cc]: the
    stack of name-to-value frames that the script driver and the UDF / TVF
    calls share, with case-insensitive names.  A block of a script pushes a
    frame, runs its statements and pops it; [Stmt] and [run_stmt] are that
    discipline. *)

From S2P Require Import Prelude Absl AbslReference.

Section frames.
Context `{AbslText} {V : Type}.

Abbreviation Frame := (gmap str V).

(** [frames_], the innermost frame first (the C++ vector's [back()]). *)
Record FrameStack := mkFrames { frames_ : list Frame }.

Definition Canonicalize (name : str) : str := AsciiStrToLower name.

Definition NewFrameStack : FrameStack := mkFrames [∅].

Definition PushFrame (s : FrameStack) : FrameStack := mkFrames (∅ :: frames_ s).

Definition PopFrame (s : FrameStack) : FrameStack * StatusOr unit :=
  match frames_ s with
  | _ :: ((_ :: _) as outer) => (mkFrames outer, Ok ())
  | _ => (s, Err (FailedPreconditionError $"semantic::FrameStack: cannot pop the outer frame; PushFrame / PopFrame must be balanced"))
  end.

Definition frame_count (s : FrameStack) : nat := length (frames_ s).

Definition Declare_ (s : FrameStack) (name : str) (value : V) : FrameStack * StatusOr unit :=
  match frames_ s with
  | [] => (s, Err (InternalError $"semantic::FrameStack::Declare: no frame on the stack"))
  | top :: outer =>
      let key := Canonicalize name in
      match top !! key with
      | Some _ => (s, Err (AlreadyExistsError ($"semantic::FrameStack: name already declared in this frame: " ++ name)))
      | None => (mkFrames (<[key := value]> top :: outer), Ok ())
      end
  end.

(** The innermost frame that binds the key, updated. *)
Fixpoint SetIn (fs : list Frame) (key : str) (value : V) : option (list Frame) :=
  match fs with
  | [] => None
  | f :: fs =>
      match f !! key with
      | Some _ => Some (<[key := value]> f :: fs)
      | None => (cons f) <$> SetIn fs key value
      end
  end.

Definition Set_ (s : FrameStack) (name : str) (value : V) : FrameStack * StatusOr unit :=
  match SetIn (frames_ s) (Canonicalize name) value with
  | Some fs => (mkFrames fs, Ok ())
  | None => (s, Err (NotFoundError ($"semantic::FrameStack: name not declared: " ++ name)))
  end.

Fixpoint LookupIn (fs : list Frame) (key : str) : option V :=
  match fs with
  | [] => None
  | f :: fs => match f !! key with Some v => Some v | None => LookupIn fs key end
  end.

Definition Lookup (s : FrameStack) (name : str) : StatusOr V :=
  match LookupIn (frames_ s) (Canonicalize name) with
  | Some v => Ok v
  | None => Err (NotFoundError ($"semantic::FrameStack: name not declared: " ++ name))
  end.

Definition Has (s : FrameStack) (name : str) : bool :=
  existsb (fun f : Frame => match f !! Canonicalize name with Some _ => true | None => false end)
    (frames_ s).

(** [try_emplace] keeps what an inner frame already put there. *)
Definition VisibleBindings (s : FrameStack) : gmap str V :=
  fold_left (fun out (f : Frame) => out ∪ f) (frames_ s) ∅.

(** ** Blocks *)

Inductive Stmt :=
| SDeclare (name : str) (value : V)
| SSet (name : str) (value : V)
| SBlock (body : list Stmt).

(** A statement that fails leaves the stack as it is; a block pushes a frame,
    runs its body and pops the frame. *)
Fixpoint run_stmt (s : FrameStack) (st : Stmt) : FrameStack :=
  match st with
  | SDeclare name value => (Declare_ s name value).1
  | SSet name value => (Set_ s name value).1
  | SBlock body => (PopFrame (fold_left run_stmt body (PushFrame s))).1
  end.

(** The keys a statement may assign. *)
Fixpoint assigned (st : Stmt) : list str :=
  match st with
  | SDeclare _ _ => []
  | SSet name _ => [Canonicalize name]
  | SBlock body => flat_map assigned body
  end.

Section stmt_ind.
Context (P : Stmt -> Prop).
Hypothesis (PD : forall n v, P (SDeclare n v)) (PS : forall n v, P (SSet n v))
  (PB : forall body, Forall P body -> P (SBlock body)).

Fixpoint Stmt_nested_ind (st : Stmt) : P st :=
  let fix go (l : list Stmt) : Forall P l :=
    match l with
    | [] => Forall_nil_2 _
    | st :: l => Forall_cons_2 _ _ _ (Stmt_nested_ind st) (go l)
    end in
  match st with
  | SDeclare n v => PD n v
  | SSet n v => PS n v
  | SBlock body => PB body (go body)
  end.
End stmt_ind.

(** ** Lemmas *)

(** Two frames below the innermost ones: same names, and same values for every
    key outside [ks]. *)
Definition frame_kept (ks : list str) (f g : Frame) : Prop :=
  dom f = dom g /\ forall k, k ∉ ks -> f !! k = g !! k.

Lemma frame_kept_refl ks f : frame_kept ks f f.
Proof. done. Qed.

Lemma frame_kept_trans ks f g h : frame_kept ks f g -> frame_kept ks g h -> frame_kept ks f h.
Proof.
  intros [D1 K1] [D2 K2]. split; [congruence|]. intros k Hk. rewrite K1, K2 by done. done.
Qed.

Lemma Forall2_kept_refl ks fs : Forall2 (frame_kept ks) fs fs.
Proof. induction fs; constructor; auto using frame_kept_refl. Qed.

Lemma Forall2_kept_trans ks fs gs hs :
  Forall2 (frame_kept ks) fs gs -> Forall2 (frame_kept ks) gs hs -> Forall2 (frame_kept ks) fs hs.
Proof.
  intros F. revert hs. induction F as [|f g fs gs K F IH]; intros hs G; inversion G; subst; constructor.
  - by eapply frame_kept_trans.
  - by apply IH.
Qed.

Lemma frame_kept_mono ks ks' f g : (forall k, k ∈ ks -> k ∈ ks') -> frame_kept ks f g -> frame_kept ks' f g.
Proof. intros Hk [D K]. split; [done|]. intros k Hn. apply K. auto. Qed.

Lemma SetIn_kept fs key v gs :
  SetIn fs key v = Some gs -> Forall2 (frame_kept [key]) fs gs.
Proof.
  revert gs. induction fs as [|f fs IH]; intros gs E; simpl in E; [done|].
  destruct (f !! key) as [w|] eqn:L; simplify_eq.
  - constructor; [|apply Forall2_kept_refl]. split.
    + symmetry. apply dom_insert_lookup_L. by eexists.
    + intros k Hk. rewrite lookup_insert_ne; [done|]. set_solver.
  - destruct (SetIn fs key v) as [gs'|]; simplify_eq/=. constructor; [apply frame_kept_refl|by apply IH].
Qed.

(** A statement only adds names to the innermost frame and only assigns the
    keys it mentions in the others. *)
Lemma run_stmt_outer st top outer :
  exists top' outer', frames_ (run_stmt (mkFrames (top :: outer)) st) = top' :: outer' /\
    Forall2 (frame_kept (assigned st)) outer outer' /\
    (forall k, k ∈ dom top -> k ∈ dom top') /\
    (match st with SBlock _ => frame_kept (assigned st) top top' | _ => True end).
Proof.
  revert top outer. induction st as [n v|n v|body IH] using Stmt_nested_ind; intros top outer.
  - simpl. unfold Declare_. simpl. destruct (top !! _) eqn:L; simpl.
    + eexists _, _. split; [done|]. split; [apply Forall2_kept_refl|done].
    + eexists _, _. split; [done|]. split; [apply Forall2_kept_refl|]. split; [|done].
      intros k Hk. rewrite dom_insert. set_solver.
  - simpl. unfold Set_. destruct (SetIn _ _ _) as [gs|] eqn:E; simpl.
    + apply SetIn_kept in E. inversion E as [|? g ? gs' [D K] F]; subst.
      eexists _, _. split; [done|]. split; [done|]. split; [|done]. by rewrite D.
    + eexists _, _. split; [done|]. split; [apply Forall2_kept_refl|done].
  - assert (forall inner rest, exists inner' rest',
      frames_ (fold_left run_stmt body (mkFrames (inner :: rest))) = inner' :: rest' /\
      Forall2 (frame_kept (assigned (SBlock body))) rest rest') as K.
    { induction IH as [|st body Hst _ IHb]; intros inner rest; simpl.
      - eexists _, _. split; [done|apply Forall2_kept_refl].
      - destruct (Hst inner rest) as (i1 & r1 & E1 & F1 & _).
        destruct (run_stmt (mkFrames (inner :: rest)) st) as [fs]. simpl in E1. subst fs.
        destruct (IHb i1 r1) as (i2 & r2 & E2 & F2). exists i2, r2. split; [done|].
        eapply Forall2_kept_trans; (eapply Forall2_impl; [eassumption|]; intros ? ?;
          apply frame_kept_mono; intros k; simpl; rewrite elem_of_app; auto). }
    destruct (K ∅ (top :: outer)) as (i & r & E & F). inversion F as [|? t' ? o' [D Kt] F']; subst.
    simpl. unfold PushFrame. simpl.
    destruct (fold_left run_stmt body (mkFrames (∅ :: top :: outer))) as [fs]. simpl in E. subst fs.
    simpl. eexists _, _. split; [done|]. split; [done|]. split; [by rewrite D|]. by split.
Qed.

Lemma LookupIn_kept ks fs gs k :
  Forall2 (frame_kept ks) fs gs ->
  (LookupIn fs k = None <-> LookupIn gs k = None) /\
  (k ∉ ks -> LookupIn gs k = LookupIn fs k).
Proof.
  induction 1 as [|f g fs gs [D K] _ [IH1 IH2]]; simpl; [done|]. split.
  - assert (f !! k = None <-> g !! k = None) as E by (rewrite <- !not_elem_of_dom; by rewrite D).
    destruct (f !! k), (g !! k); naive_solver.
  - intros Hk. rewrite (K k Hk). destruct (g !! k); auto.
Qed.

(** Setting a name leaves every other name, and a success is read back. *)
Lemma set_lookup s name v s' r other :
  Set_ s name v = (s', r) ->
  (Canonicalize other <> Canonicalize name -> Lookup s' other = Lookup s other) /\
  (r = Ok () -> Canonicalize other = Canonicalize name -> Lookup s' other = Ok v).
Proof.
  unfold Set_, Lookup. destruct (SetIn _ _ _) as [fs|] eqn:E; intros [= <- <-]; cbn [frames_]; [|done]. split.
  - intros N. apply SetIn_kept, (LookupIn_kept _ _ _ (Canonicalize other)) in E as [_ E].
    rewrite E; [done|]. set_solver.
  - intros _ ->. revert fs E. induction (frames_ s) as [|f fs0 IH]; intros fs E; cbn in E; [done|].
    destruct (f !! Canonicalize name) eqn:L; simplify_eq; cbn [LookupIn]; [by rewrite lookup_insert_eq|].
    destruct (SetIn fs0 _ v) as [gs|]; simplify_eq/=. rewrite L. by apply IH.
Qed.

Lemma VisibleBindings_from (out : gmap str V) fs k :
  fold_left (fun out (f : Frame) => out ∪ f) fs out !! k =
  match out !! k with Some v => Some v | None => LookupIn fs k end.
Proof.
  revert out. induction fs as [|f fs IH]; intros out; simpl; [by destruct (out !! k)|].
  rewrite IH, lookup_union. by destruct (out !! k), (f !! k).
Qed.

Lemma existsb_LookupIn (fs : list Frame) k :
  existsb (fun f : Frame => match f !! k with Some _ => true | None => false end) fs =
  match LookupIn fs k with Some _ => true | None => false end.
Proof. induction fs as [|f fs IH]; simpl; [done|]. destruct (f !! k); auto. Qed.

(** ** Properties *)

(** Leaving a block restores the scope outside it: after a BEGIN ... END
    block, whatever its statements (nested blocks and failing statements
    included), the stack is as deep as before, exactly the same names resolve,
    and every name the block does not assign has its old value. *)
Theorem block_restores_scope s body name (Hs : frames_ s <> []) :
  let s' := run_stmt s (SBlock body) in
  frame_count s' = frame_count s /\
  Has s' name = Has s name /\
  (Canonicalize name ∉ assigned (SBlock body) -> Lookup s' name = Lookup s name).
Proof.
  destruct s as [[|top outer]]; [done|]. cbn zeta.
  destruct (run_stmt_outer (SBlock body) top outer) as (top' & outer' & E & F & _ & Kt).
  assert (Forall2 (frame_kept (assigned (SBlock body))) (top :: outer) (top' :: outer')) as FF
    by (by constructor).
  unfold frame_count, Has, Lookup. rewrite E. simpl frames_. split; [|split].
  - symmetry. by eapply Forall2_length.
  - rewrite !existsb_LookupIn. destruct (LookupIn_kept _ _ _ (Canonicalize name) FF) as [[K1 K2] _].
    destruct (LookupIn (top :: outer) _), (LookupIn (top' :: outer') _); auto;
      [by specialize (K2 eq_refl)|by specialize (K1 eq_refl)].
  - intros Hk. by rewrite (proj2 (LookupIn_kept _ _ _ _ FF) Hk).
Qed.

(** The bindings handed to a nested evaluation are the ones Lookup sees:
    VisibleBindings maps exactly the names that resolve, each to the value of
    its innermost binding. *)
Theorem visible_bindings_lookup s name :
  VisibleBindings s !! Canonicalize name =
    match Lookup s name with Ok v => Some v | Err _ => None end /\
  Has s name = is_ok (Lookup s name).
Proof.
  unfold VisibleBindings, Lookup, Has. rewrite VisibleBindings_from, lookup_empty, existsb_LookupIn.
  by destruct (LookupIn _ _).
Qed.
End frames.

Arguments FrameStack : clear implicits.

Section case_insensitive.
Context `{AbslTextLaws} {V : Type}.
Implicit Types (s : FrameStack V).

(** DECLARE binds its name in the innermost frame under any spelling of its
    case, refuses a second declaration there, shadows an outer binding and
    leaves every other name alone; SET then reaches that binding under any
    spelling. *)
Theorem declare_then_resolve s name alias other v w s1
    (Heq : EqualsIgnoreCase name alias = true)
    (Hne : EqualsIgnoreCase name other = false)
    (E : Declare_ s name v = (s1, Ok ())) :
  Lookup s1 alias = Ok v /\ Lookup s1 other = Lookup s other /\
  (exists e, Declare_ s1 alias w = (s1, Err e) /\ code e = kAlreadyExists) /\
  (exists s2, Set_ s1 alias w = (s2, Ok ()) /\ Lookup s2 name = Ok w /\
     Lookup s2 other = Lookup s other).
Proof.
  unfold EqualsIgnoreCase in Heq, Hne. bool_to_prop.
  destruct s as [[|top outer]]; [done|]. unfold Declare_ in E. simpl in E.
  destruct (top !! Canonicalize name) eqn:L; [done|]. simplify_eq.
  assert (Canonicalize alias = Canonicalize name) as Ea by done.
  assert (Canonicalize other <> Canonicalize name) as Eo by (intros ?; by apply Hne).
  unfold Lookup, Declare_, Set_. cbn [frames_ LookupIn SetIn].
  rewrite Ea, lookup_insert_eq. rewrite !lookup_insert_ne by done.
  split; [done|]. split; [done|]. split; [by eexists|].
  eexists. split; [done|]. cbn [frames_ LookupIn]. rewrite lookup_insert_eq.
  by rewrite !lookup_insert_ne by done.
Qed.
End case_insensitive.

(** ** Witnesses *)

Module Demo.

Definition globals : FrameStack Z :=
  run_stmt (run_stmt NewFrameStack (SDeclare $"x" 1%Z)) (SDeclare $"y" 2%Z).

Lemma block_restores_scope_witness :
  Lookup (run_stmt globals (SBlock [SDeclare $"X" 7%Z; SSet $"y" 9%Z; SBlock [SDeclare $"z" 3%Z]])) $"x" = Ok 1%Z.
Proof.
  destruct (block_restores_scope globals [SDeclare $"X" 7%Z; SSet $"y" 9%Z; SBlock [SDeclare $"z" 3%Z]]
              $"x") as (_ & _ & K).
  - discriminate.
  - rewrite K; [reflexivity|]. vm_compute. intros Hin. apply list_elem_of_In in Hin.
    destruct Hin as [Hin|[]]. discriminate Hin.
Defined.

Lemma declare_then_resolve_witness :
  exists s2, Set_ globals $"Y" 5%Z = (s2, Ok ()) /\ Lookup s2 $"y" = Ok 5%Z.
Proof.
  destruct (declare_then_resolve (run_stmt NewFrameStack (SDeclare $"x" 1%Z)) $"y" $"Y" $"x" 2%Z 5%Z
              globals) as (_ & _ & _ & s2 & E & L & _); [vm_compute; reflexivity..|].
  exists s2. split; [exact E|exact L].
Defined.

End Demo.
