(* ===== verification/SemanticError.v ===== *)
(** * SemanticError: structured errors of the semantic executor

    Models [backend/engine/semantic/error.h] and [error.cc]: the reasons, their
    names and REST tokens, and the one-byte payload a status carries. *)

From S2P Require Import Prelude Absl.

Inductive SemanticErrorReason :=
| rInvalidArgument | rDivisionByZero | rOverflow | rNotImplemented.

#[export] Instance SemanticErrorReason_eq_dec : EqDecision SemanticErrorReason.
Proof. solve_decision. Defined.

Definition reason_number (r : SemanticErrorReason) : Z :=
  match r with
  | rInvalidArgument => 0 | rDivisionByZero => 1 | rOverflow => 2 | rNotImplemented => 3
  end.

Definition EncodeReason (r : SemanticErrorReason) : str := [byteof (reason_number r)].

Definition DecodeReason (cord : str) : SemanticErrorReason :=
  match cord with
  | [] => rInvalidArgument
  | c :: _ =>
      if (byteval c =? 0)%Z then rInvalidArgument
      else if (byteval c =? 1)%Z then rDivisionByZero
      else if (byteval c =? 2)%Z then rOverflow
      else if (byteval c =? 3)%Z then rNotImplemented
      else rInvalidArgument
  end.

Definition SemanticErrorReasonName (r : SemanticErrorReason) : str :=
  match r with
  | rInvalidArgument => $"invalid_argument"
  | rDivisionByZero => $"division_by_zero"
  | rOverflow => $"overflow"
  | rNotImplemented => $"not_implemented"
  end.

Definition BigQueryReasonToken (r : SemanticErrorReason) : str :=
  match r with
  | rInvalidArgument => $"invalidQuery"
  | rDivisionByZero => $"invalidQuery"
  | rOverflow => $"invalidQuery"
  | rNotImplemented => $"notImplemented"
  end.

Definition MakeSemanticError (r : SemanticErrorReason) (m : str) : Status :=
  mkStatus (if bool_decide (r = rNotImplemented) then kUnimplemented else kInvalidArgument) m
    (Some (EncodeReason r)).

(** [None] is the OK status. *)
Definition GetSemanticErrorReason (status : option Status) : SemanticErrorReason :=
  match status with
  | None => rInvalidArgument
  | Some s => match payload s with None => rInvalidArgument | Some p => DecodeReason p end
  end.

(** The reason attached to an error is the reason read back from it, the
    status code is UNIMPLEMENTED exactly when the REST token says so, which is
    for the not-implemented reason only, and a status without a payload reads as
    the generic reason. *)
Theorem semantic_reason_roundtrip r m :
  GetSemanticErrorReason (Some (MakeSemanticError r m)) = r /\
  message (MakeSemanticError r m) = m /\
  (code (MakeSemanticError r m) = kUnimplemented <-> r = rNotImplemented) /\
  (BigQueryReasonToken r = $"notImplemented" <-> r = rNotImplemented) /\
  (forall s, payload s = None -> GetSemanticErrorReason (Some s) = rInvalidArgument).
Proof.
  split; [by destruct r|]. split; [done|]. split; [by destruct r|]. split; [by destruct r|].
  intros s Hs. unfold GetSemanticErrorReason. by rewrite Hs.
Qed.
