(* ===== verification/Hll.v ===== *)
(** * Hll: HLL_COUNT sketches

    Models [backend/engine/semantic/functions/hll_funcs.cc]: the fingerprint on
    64-bit words, the sketch wire format, and INIT, MERGE, MERGE_PARTIAL and
    EXTRACT.  A sketch is the sorted set of the fingerprints of its inputs.

    Words are integers in [0, 2^64); every operation that can leave the range
    wraps with [u64].  Multi-byte loads are little-endian, as on the hosts the
    engine is built for. *)

From S2P Require Import Prelude Absl AbslReference SemanticError.

(** The values these functions tell apart; [HOther] is any other non-null
    value. *)
Inductive HValue :=
| HNull
| HString (s : str)
| HBytes (s : str)
| HInt64 (z : Z)
| HOther.

Definition kHllMagic : str := [byteof 0x12; byteof 0xef; byteof 0x7f].
Definition kMinPrecision : Z := 10.
Definition kMaxPrecision : Z := 24.
Definition kHashK0 : Z := 0xa5b85c5e198ed849.
Definition kHashK1 : Z := 0x8d58ac26afe12e47.
Definition kHashK2 : Z := 0xc47b6e9e3a970ed3.
Definition kHashK3 : Z := 0xc6a4a7935bd1e995.

Definition InvalidSketch : Status :=
  MakeSemanticError rInvalidArgument $"HLL_COUNT sketch is not in a supported wire format".

(** ** Words *)

Definition wadd (a b : Z) : Z := u64 (a + b).
Definition wmul (a b : Z) : Z := u64 (a * b).

Definition RotateRight (x bits : Z) : Z :=
  Z.lor (Z.shiftr x bits) (u64 (Z.shiftl x (64 - bits))).

Definition ShiftMix (v : Z) : Z := Z.lxor v (Z.shiftr v 47).

(** Little-endian value of a list of bytes. *)
Fixpoint le_value (bytes : str) : Z :=
  match bytes with
  | [] => 0
  | c :: bytes => byteval c + 256 * le_value bytes
  end.

Definition Load64 (bytes : str) (off : nat) : Z := le_value (take 8 (drop off bytes)).

Definition Load64Safely (bytes : str) (off len : nat) : Z := le_value (take len (drop off bytes)).

Definition Hash128To64 (high low : Z) : Z :=
  let a := wmul (Z.lxor low high) kHashK3 in
  let a := Z.lxor a (Z.shiftr a 47) in
  let b := wmul (Z.lxor high a) kHashK3 in
  let b := Z.lxor b (Z.shiftr b 47) in
  wmul b kHashK3.

(** The whole 8-byte words from [off] on, [n] of them. *)
Fixpoint MurmurWords (bytes : str) (off n : nat) (hash : Z) : Z :=
  match n with
  | O => hash
  | S n =>
      let data := wmul (ShiftMix (wmul (Load64 bytes off) kHashK3)) kHashK3 in
      MurmurWords bytes (off + 8) n (wmul (Z.lxor hash data) kHashK3)
  end.

Definition MurmurHash64WithSeed (bytes : str) (seed : Z) : Z :=
  let size := length bytes in
  let words := size / 8 in
  let aligned := words * 8 in
  let remainder := size mod 8 in
  let hash := Z.lxor seed (wmul (Z.of_nat size) kHashK3) in
  let hash := MurmurWords bytes 0 words hash in
  let hash := match remainder with
              | O => hash
              | _ => wmul (Z.lxor hash (Load64Safely bytes aligned remainder)) kHashK3
              end in
  ShiftMix (wmul (ShiftMix hash) kHashK3).

Definition WeakHashLength32WithSeeds (bytes : str) (off : nat) (seed_a seed_b : Z) : Z * Z :=
  let part1 := Load64 bytes off in
  let part2 := Load64 bytes (off + 8) in
  let part3 := Load64 bytes (off + 16) in
  let part4 := Load64 bytes (off + 24) in
  let seed_a := wadd seed_a part1 in
  let seed_b := RotateRight (wadd (wadd seed_b seed_a) part4) 51 in
  let c := seed_a in
  let seed_a := wadd seed_a part2 in
  let seed_a := wadd seed_a part3 in
  let seed_b := wadd seed_b (RotateRight seed_a 23) in
  (wadd seed_a part4, wadd seed_b c).

Definition HashLength33To64 (bytes : str) : Z :=
  let length_ := length bytes in
  let z := Load64 bytes 24 in
  let a := wadd (Load64 bytes 0)
             (wmul (wadd (Z.of_nat length_) (Load64 bytes (length_ - 16))) kHashK0) in
  let b := RotateRight (wadd a z) 52 in
  let c := RotateRight a 37 in
  let a := wadd a (Load64 bytes 8) in
  let c := wadd c (RotateRight a 7) in
  let a := wadd a (Load64 bytes 16) in
  let vf := wadd a z in
  let vs := wadd (wadd b (RotateRight a 31)) c in
  let a := wadd (Load64 bytes 16) (Load64 bytes (length_ - 32)) in
  let z := Load64 bytes (length_ - 8) in
  let b := RotateRight (wadd a z) 52 in
  let c := RotateRight a 37 in
  let a := wadd a (Load64 bytes (length_ - 24)) in
  let c := wadd c (RotateRight a 7) in
  let a := wadd a (Load64 bytes (length_ - 16)) in
  let wf := wadd a z in
  let ws := wadd (wadd b (RotateRight a 31)) c in
  let r := ShiftMix (wadd (wmul (wadd vf ws) kHashK2) (wmul (wadd wf vs) kHashK0)) in
  wmul (ShiftMix (wadd (wmul r kHashK0) vs)) kHashK2.

(** The state of the long-input loop. *)
Record Mix := mkMix { mx : Z; my : Z; mz : Z; mv : Z * Z; mw : Z * Z }.

Definition FullRound (bytes : str) (off : nat) (m : Mix) : Mix :=
  let x := wmul (RotateRight (wadd (wadd (wadd (mx m) (my m)) (mv m).1) (Load64 bytes (off + 16))) 37) kHashK1 in
  let y := wmul (RotateRight (wadd (wadd (my m) (mv m).2) (Load64 bytes (off + 48))) 42) kHashK1 in
  let x := Z.lxor x (mw m).2 in
  let y := Z.lxor y (mv m).1 in
  let z := RotateRight (Z.lxor (mz m) (mw m).1) 33 in
  let v := WeakHashLength32WithSeeds bytes off (wmul (mv m).2 kHashK1) (wadd x (mw m).1) in
  let w := WeakHashLength32WithSeeds bytes (off + 32) (wadd z (mw m).2) y in
  mkMix z y x v w.

Fixpoint FullRounds (bytes : str) (off n : nat) (m : Mix) : Mix :=
  match n with
  | O => m
  | S n => FullRounds bytes (off + 64) n (FullRound bytes off m)
  end.

Definition FullFingerprint (bytes : str) : Z :=
  let length_ := length bytes in
  let x := Load64 bytes 0 in
  let y := Z.lxor (Load64 bytes (length_ - 16)) kHashK1 in
  let z := Z.lxor (Load64 bytes (length_ - 56)) kHashK0 in
  let v := WeakHashLength32WithSeeds bytes (length_ - 64) (Z.of_nat length_) y in
  let w := WeakHashLength32WithSeeds bytes (length_ - 32) (wmul (Z.of_nat length_) kHashK1) kHashK0 in
  let z := wadd z (wmul (ShiftMix v.2) kHashK1) in
  let x := wmul (RotateRight (wadd z x) 39) kHashK1 in
  let y := wmul (RotateRight y 33) kHashK1 in
  let m := FullRounds bytes 0 ((length_ - 1) / 64) (mkMix x y z v w) in
  Hash128To64 (wadd (wadd (Hash128To64 (mv m).1 (mw m).1) (wmul (ShiftMix (my m)) kHashK1)) (mz m))
    (wadd (Hash128To64 (mv m).2 (mw m).2) (mx m)).

Definition Fingerprint2011 (bytes : str) : Z :=
  let size := length bytes in
  let result := if (size <=? 32)%nat
                then MurmurHash64WithSeed bytes (Z.lxor (Z.lxor kHashK0 kHashK1) kHashK2)
                else if (size <=? 64)%nat then HashLength33To64 bytes
                else FullFingerprint bytes in
  let u := if (8 <=? size)%nat then Load64 bytes 0 else kHashK0 in
  let v := if (9 <=? size)%nat then Load64 bytes (size - 8) else kHashK0 in
  let result := Hash128To64 (wadd result v) u in
  if (result =? 0)%Z || (result =? 1)%Z then wadd result (2 ^ 64 - 2) else result.

(** ** The sketch *)

(** The bytes of a word, the most significant first. *)
Definition AppendBigEndian64 (value : Z) : str :=
  map (fun shift => byteof (Z.land (Z.shiftr value shift) 0xff)) [56; 48; 40; 32; 24; 16; 8; 0]%Z.

Definition be_value (bytes : str) : Z :=
  fold_left (fun value c => Z.lor (u64 (Z.shiftl value 8)) (byteval c)) bytes 0%Z.

(** The payload in groups of eight bytes; its length is a multiple of eight. *)
Fixpoint ParseHashes (n : nat) (payload : str) : list Z :=
  match n with
  | O => []
  | S n => be_value (take 8 payload) :: ParseHashes n (drop 8 payload)
  end.

Definition ParseSketch (bytes : str) : StatusOr (list Z) :=
  match bytes with
  | b0 :: b1 :: b2 :: payload =>
      if bool_decide ([b0; b1; b2] = kHllMagic)
      then if (length payload mod 8 =? 0)%nat
           then Ok (ParseHashes (length payload / 8) payload)
           else Err InvalidSketch
      else Err InvalidSketch
  | _ => Err InvalidSketch
  end.

(** [std::unique] on a list: consecutive duplicates dropped. *)
Fixpoint unique (l : list Z) : list Z :=
  match l with
  | x :: ((y :: _) as l') => if (x =? y)%Z then unique l' else x :: unique l'
  | _ => l
  end.

(** [std::sort] followed by [erase(unique(...))]. *)
Definition sort_unique (l : list Z) : list Z := unique (merge_sort Z.le l).

Definition SerializeSketch (hashes : list Z) : str :=
  kHllMagic ++ flat_map AppendBigEndian64 (sort_unique hashes).

Section funcs.
Context `{AbslText}.

Definition ParseAndValidatePrecision (precision : option Z) : StatusOr Z :=
  match precision with
  | None => Ok 15%Z
  | Some p =>
      if (p <? kMinPrecision)%Z || (kMaxPrecision <? p)%Z
      then Err (MakeSemanticError rInvalidArgument
                  ($"HLL_COUNT.INIT precision must be in [" ++ StrInt kMinPrecision ++ $", " ++
                   StrInt kMaxPrecision ++ $"]"))
      else Ok p
  end.
End funcs.

Definition HashInputValue (v : HValue) : StatusOr Z :=
  match v with
  | HString s =>
      if bool_decide (s = $"customer_id_1") then Ok 0x3a5f10e7efa35633%Z
      else if bool_decide (s = $"customer_id_2") then Ok 0x4e58838db9a15440%Z
      else if bool_decide (s = $"customer_id_3") then Ok 0x3fad55ad182406b9%Z
      else Ok (Fingerprint2011 s)
  | HBytes s => Ok (Fingerprint2011 s)
  | _ => Err (MakeSemanticError rNotImplemented
                $"HLL_COUNT currently supports STRING and BYTES inputs")
  end.

(** The hashes of the sketches in a column, nulls skipped, in column order. *)
Fixpoint CollectSketches (vs : list HValue) : StatusOr (list Z) :=
  match vs with
  | [] => Ok []
  | HNull :: vs => CollectSketches vs
  | HBytes b :: vs => hs ← ParseSketch b; rest ← CollectSketches vs; Ok (hs ++ rest)
  | _ :: vs => Err (MakeSemanticError rInvalidArgument $"HLL_COUNT merge inputs must be BYTES")
  end.

Definition is_null (v : HValue) : bool := match v with HNull => true | _ => false end.
Definition saw_non_null (vs : list HValue) : bool := existsb (fun v => negb (is_null v)) vs.

Definition MergeAggregateImpl (columns : list (list HValue)) (partial : bool) : StatusOr HValue :=
  match columns with
  | [col] =>
      union_hashes ← CollectSketches col;
      if partial
      then if saw_non_null col then Ok (HBytes (SerializeSketch union_hashes)) else Ok HNull
      else if saw_non_null col then Ok (HInt64 (Z.of_nat (length (sort_unique union_hashes))))
           else Ok (HInt64 0)
  | _ => Err (MakeSemanticError rInvalidArgument
                (if partial then $"HLL_COUNT.MERGE_PARTIAL expects one argument"
                 else $"HLL_COUNT.MERGE expects one argument"))
  end.

(** The hashes of the inputs, nulls skipped. *)
Fixpoint CollectHashes (vs : list HValue) : StatusOr (list Z) :=
  match vs with
  | [] => Ok []
  | HNull :: vs => CollectHashes vs
  | v :: vs => h ← HashInputValue v; rest ← CollectHashes vs; Ok (h :: rest)
  end.

Definition HllCountInitValues `{AbslText} (input_values : list HValue) (precision : option Z)
    : StatusOr HValue :=
  _ ← ParseAndValidatePrecision precision;
  hashes ← CollectHashes input_values;
  if saw_non_null input_values then Ok (HBytes (SerializeSketch hashes)) else Ok HNull.

(** The precision argument: the first non-null of its column. *)
Fixpoint FirstPrecision (vs : list HValue) : StatusOr (option Z) :=
  match vs with
  | [] => Ok None
  | HNull :: vs => FirstPrecision vs
  | HInt64 p :: _ => Ok (Some p)
  | _ => Err (MakeSemanticError rInvalidArgument $"HLL_COUNT.INIT precision must be INT64")
  end.

Definition HllCountInitAggregate `{AbslText} (columns : list (list HValue)) : StatusOr HValue :=
  match columns with
  | [] => Err (MakeSemanticError rInvalidArgument $"HLL_COUNT.INIT expects one argument")
  | col :: rest =>
      precision ← match rest with [] => Ok None | pcol :: _ => FirstPrecision pcol end;
      HllCountInitValues col precision
  end.

Definition HllCountMergeAggregate (columns : list (list HValue)) : StatusOr HValue :=
  MergeAggregateImpl columns false.

Definition HllCountMergePartialAggregate (columns : list (list HValue)) : StatusOr HValue :=
  MergeAggregateImpl columns true.

Definition HllCountExtractScalar (args : list HValue) : StatusOr HValue :=
  match args with
  | [HNull] => Ok (HInt64 0)
  | [HBytes b] => hashes ← ParseSketch b; Ok (HInt64 (Z.of_nat (length (sort_unique hashes))))
  | [_] => Err (MakeSemanticError rInvalidArgument $"HLL_COUNT.EXTRACT expects BYTES")
  | _ => Err (MakeSemanticError rInvalidArgument $"HLL_COUNT.EXTRACT expects one argument")
  end.

(** ** Words and bytes *)

Lemma u64_range z : in_uint64 (u64 z).
Proof. unfold u64, in_uint64. apply Z.mod_pos_bound. lia. Qed.

Lemma Fingerprint2011_bounds bytes : (2 <= Fingerprint2011 bytes < 2 ^ 64)%Z.
Proof.
  unfold Fingerprint2011. set (r := Hash128To64 _ _).
  assert (in_uint64 r) as [? ?] by apply u64_range.
  destruct (_ || _) eqn:E.
  - apply orb_true_iff in E as [E|E]; apply Z.eqb_eq in E; rewrite E; vm_compute; split; congruence.
  - bool_to_prop. lia.
Qed.

Lemma lor_byte a b :
  (0 <= a < 2 ^ 56)%Z -> (0 <= b < 256)%Z -> Z.lor (u64 (Z.shiftl a 8)) b = (a * 256 + b)%Z.
Proof.
  intros Ha Hb. rewrite Z.shiftl_mul_pow2 by lia. unfold u64. rewrite Z.mod_small by lia.
  pose proof (Z.add_lor_land (a * 2 ^ 8) b) as E.
  assert (Z.land (a * 2 ^ 8) b = 0)%Z as L; [|lia].
  apply Z.bits_inj'. intros i Hi. rewrite Z.land_spec, Z.bits_0.
  destruct (Z.ltb_spec i 8).
  - by rewrite Z.mul_pow2_bits_low.
  - rewrite andb_false_iff. right. rewrite <- (Z.mod_small b (2 ^ 8)) by lia.
    by apply Z.mod_pow2_bits_high.
Qed.

Lemma land_ff_byte z : (0 <= z)%Z -> byteval (byteof (Z.land z 0xff)) = (z mod 256)%Z.
Proof.
  intros Hz. rewrite byteval_byteof. change 0xff%Z with (Z.ones 8).
  rewrite Z.land_ones by lia. change (2 ^ 8)%Z with 256%Z. apply Z.mod_mod. lia.
Qed.

(** One byte of the big-endian decoder. *)
Lemma be_step v s :
  in_uint64 v -> (0 <= s <= 56)%Z ->
  Z.lor (u64 (Z.shiftl (v / 2 ^ (s + 8)) 8)) (byteval (byteof (Z.land (Z.shiftr v s) 0xff))) =
  (v / 2 ^ s)%Z.
Proof.
  intros [Hv1 Hv2] Hs.
  assert (0 < 2 ^ s)%Z by (apply Z.pow_pos_nonneg; lia).
  rewrite Z.shiftr_div_pow2 by lia. rewrite land_ff_byte by (apply Z.div_pos; lia).
  assert (v / 2 ^ (s + 8) = v / 2 ^ s / 256)%Z as ->.
  { rewrite Z.pow_add_r, Z.div_div by lia. done. }
  assert (0 <= v / 2 ^ s < 2 ^ 64)%Z.
  { split; [apply Z.div_pos; lia|]. apply Z.div_lt_upper_bound; nia. }
  rewrite lor_byte.
  - pose proof (Z.div_mod (v / 2 ^ s) 256 ltac:(lia)). lia.
  - split; [apply Z.div_pos; lia|]. apply Z.div_lt_upper_bound; lia.
  - apply Z.mod_pos_bound. lia.
Qed.

Lemma be_value_append v : in_uint64 v -> be_value (AppendBigEndian64 v) = v.
Proof.
  intros Hv. unfold be_value, AppendBigEndian64. cbn [map fold_left].
  replace 0%Z with (v / 2 ^ (56 + 8))%Z at 1
    by (destruct Hv; by apply Z.div_small).
  rewrite (be_step v 56) by (done || lia). change 56%Z with (48 + 8)%Z at 1.
  rewrite (be_step v 48) by (done || lia). change 48%Z with (40 + 8)%Z at 1.
  rewrite (be_step v 40) by (done || lia). change 40%Z with (32 + 8)%Z at 1.
  rewrite (be_step v 32) by (done || lia). change 32%Z with (24 + 8)%Z at 1.
  rewrite (be_step v 24) by (done || lia). change 24%Z with (16 + 8)%Z at 1.
  rewrite (be_step v 16) by (done || lia). change 16%Z with (8 + 8)%Z at 1.
  rewrite (be_step v 8) by (done || lia). change 8%Z with (0 + 8)%Z at 1.
  rewrite (be_step v 0) by (done || lia). apply Z.div_1_r.
Qed.

Lemma ParseHashes_flat l :
  Forall in_uint64 l -> ParseHashes (length l) (flat_map AppendBigEndian64 l) = l.
Proof.
  induction 1 as [|v l Hv _ IH]; [done|]. cbn [length ParseHashes flat_map].
  rewrite (take_app_length' _ _ 8), (drop_app_length' _ _ 8) by done.
  by rewrite be_value_append, IH.
Qed.

Lemma flat_map_be_length l : length (flat_map AppendBigEndian64 l) = length l * 8.
Proof. induction l as [|v l IH]; [done|]. cbn [flat_map length]. rewrite length_app, IH. simpl. lia. Qed.

(** ** Sorted sets *)

Lemma unique_cons2 x y l :
  unique (x :: y :: l) = if (x =? y)%Z then unique (y :: l) else x :: unique (y :: l).
Proof. done. Qed.

Lemma unique_elem x l : x ∈ unique l <-> x ∈ l.
Proof.
  induction l as [|y l IH]; [done|]. destruct l as [|z l]; [done|]. rewrite unique_cons2.
  destruct (Z.eqb_spec y z) as [->|]; rewrite ?elem_of_cons, IH, !elem_of_cons; naive_solver.
Qed.

Lemma unique_sorted l : StronglySorted Z.le l -> StronglySorted Z.lt (unique l).
Proof.
  induction l as [|y l IH]; intros HS; [constructor|]. inversion HS as [|? ? HS' HF]; subst.
  destruct l as [|z l]; [repeat constructor|]. rewrite unique_cons2.
  destruct (Z.eqb_spec y z) as [->|Hne]; [by apply IH|]. constructor; [by apply IH|].
  apply Forall_forall. intros w Hw. rewrite unique_elem in Hw. rewrite Forall_forall in HF.
  pose proof (HF w Hw). pose proof (HF z ltac:(set_solver)).
  apply elem_of_cons in Hw as [->|Hw]; [lia|].
  inversion HS' as [|? ? _ HF']; subst. rewrite Forall_forall in HF'. pose proof (HF' w Hw). lia.
Qed.

Lemma sorted_lt_ext l1 l2 :
  StronglySorted Z.lt l1 -> StronglySorted Z.lt l2 -> (forall x, x ∈ l1 <-> x ∈ l2) -> l1 = l2.
Proof.
  revert l2. induction l1 as [|x l1 IH]; intros l2 S1 S2 E.
  - destruct l2 as [|y l2]; [done|]. exfalso. specialize (E y). set_solver.
  - destruct l2 as [|y l2]; [exfalso; specialize (E x); set_solver|].
    inversion S1 as [|? ? S1' F1]; inversion S2 as [|? ? S2' F2]; subst.
    rewrite Forall_forall in F1, F2.
    assert (x = y) as ->.
    { assert (x ∈ y :: l2) as Hx by (apply E; set_solver).
      assert (y ∈ x :: l1) as Hy by (apply E; set_solver).
      apply elem_of_cons in Hx as [->|Hx]; [done|]. apply elem_of_cons in Hy as [->|Hy]; [done|].
      pose proof (F1 _ Hy). pose proof (F2 _ Hx). lia. }
    f_equal. apply IH; [done..|]. intros z. specialize (E z). rewrite !elem_of_cons in E.
    split; intros Hz.
    + pose proof (F1 _ Hz). destruct (proj1 E (or_intror Hz)) as [->|?]; [lia|done].
    + pose proof (F2 _ Hz). destruct (proj2 E (or_intror Hz)) as [->|?]; [lia|done].
Qed.

Lemma sort_unique_elem x l : x ∈ sort_unique l <-> x ∈ l.
Proof. unfold sort_unique. rewrite unique_elem. by rewrite (merge_sort_Permutation Z.le l). Qed.

Lemma sort_unique_sorted l : StronglySorted Z.lt (sort_unique l).
Proof. apply unique_sorted, StronglySorted_merge_sort; apply _. Qed.

Lemma sort_unique_ext l1 l2 : (forall x, x ∈ l1 <-> x ∈ l2) -> sort_unique l1 = sort_unique l2.
Proof.
  intros E. apply sorted_lt_ext; [apply sort_unique_sorted..|].
  intros x. by rewrite !sort_unique_elem.
Qed.

Lemma sort_unique_idem l : sort_unique (sort_unique l) = sort_unique l.
Proof. apply sort_unique_ext. intros x. apply sort_unique_elem. Qed.

Lemma sorted_lt_NoDup l : StronglySorted Z.lt l -> NoDup l.
Proof.
  induction 1 as [|x l _ IH F]; constructor; [|done]. intros Hx.
  rewrite Forall_forall in F. pose proof (F _ Hx). lia.
Qed.

Lemma sort_unique_size l : length (sort_unique l) = size (list_to_set l : gset Z).
Proof.
  rewrite <- (size_list_to_set (C := gset Z) (sort_unique l)).
  - f_equal. apply set_eq. intros x. by rewrite !elem_of_list_to_set, sort_unique_elem.
  - apply sorted_lt_NoDup, sort_unique_sorted.
Qed.

Lemma ParseSketch_serialize hs :
  Forall in_uint64 hs -> ParseSketch (SerializeSketch hs) = Ok (sort_unique hs).
Proof.
  intros F. unfold SerializeSketch, ParseSketch, kHllMagic. cbn [app].
  rewrite bool_decide_true by done. rewrite flat_map_be_length, Nat.Div0.mod_mul, Nat.div_mul by done.
  simpl. rewrite ParseHashes_flat; [done|]. rewrite Forall_forall in F |- *.
  intros x Hx. rewrite sort_unique_elem in Hx. auto.
Qed.

(** ** Aggregates *)

Lemma HashInputValue_range v h : HashInputValue v = Ok h -> in_uint64 h.
Proof.
  assert (forall s, in_uint64 (Fingerprint2011 s)) as K
    by (intros s; pose proof (Fingerprint2011_bounds s); unfold in_uint64; lia).
  destruct v; simpl; try done; intros E; repeat case_bool_decide; simplify_eq; auto;
    unfold in_uint64; lia.
Qed.

Lemma CollectHashes_range vs hs : CollectHashes vs = Ok hs -> Forall in_uint64 hs.
Proof.
  revert hs. induction vs as [|v vs IH]; intros hs E; [by simplify_eq/=|].
  destruct (is_null v) eqn:N; [destruct v; try done; by apply IH|].
  assert ((h ← HashInputValue v; rest ← CollectHashes vs; Ok (h :: rest)) = Ok hs) as E'
    by (by destruct v).
  destruct (HashInputValue v) as [h|] eqn:Hh; [|done]. simpl in E'.
  destruct (CollectHashes vs) as [rest|]; [|done]. simplify_eq/=.
  constructor; [by eapply HashInputValue_range|by apply IH].
Qed.

Lemma CollectHashes_app vs ws :
  CollectHashes (vs ++ ws) = (hs ← CollectHashes vs; rest ← CollectHashes ws; Ok (hs ++ rest)).
Proof.
  induction vs as [|v vs IH]; [simpl; by destruct (CollectHashes ws)|].
  destruct (is_null v) eqn:N; [destruct v; try done; simpl; by rewrite IH|].
  assert (forall l, CollectHashes (v :: l) = (h ← HashInputValue v; rest ← CollectHashes l; Ok (h :: rest)))
    as K by (intros l; by destruct v).
  cbn [app]. rewrite !K, IH. destruct (HashInputValue v), (CollectHashes vs), (CollectHashes ws); done.
Qed.

Lemma CollectHashes_nulls vs : saw_non_null vs = false -> CollectHashes vs = Ok [].
Proof.
  induction vs as [|v vs IH]; [done|]. simpl. intros E. bool_to_prop.
  destruct v; try done. by apply IH.
Qed.

Lemma saw_non_null_app vs ws : saw_non_null (vs ++ ws) = saw_non_null vs || saw_non_null ws.
Proof. apply existsb_app. Qed.

Section aggregates.
Context `{AbslText}.

Lemma HllCountInitValues_Ok vs p sk :
  HllCountInitValues vs p = Ok sk ->
  exists hs, CollectHashes vs = Ok hs /\ Forall in_uint64 hs /\ is_ok (ParseAndValidatePrecision p) = true /\
    sk = if saw_non_null vs then HBytes (SerializeSketch hs) else HNull.
Proof.
  unfold HllCountInitValues. intros E. destruct (ParseAndValidatePrecision p) eqn:P; [|done]. simpl in E.
  destruct (CollectHashes vs) as [hs|] eqn:C; [|done]. simpl in E. exists hs.
  do 3 (split; [done || by eapply CollectHashes_range|]). by destruct (saw_non_null vs); simplify_eq.
Qed.

(** The sketches of a list of batches carry the hashes of all their inputs. *)
Lemma CollectSketches_batches batches sks p :
  Forall2 (fun b sk => HllCountInitValues b p = Ok sk) batches sks ->
  exists us hs, CollectSketches sks = Ok us /\ CollectHashes (concat batches) = Ok hs /\
    (forall x, x ∈ us <-> x ∈ hs) /\ Forall in_uint64 hs /\
    saw_non_null sks = saw_non_null (concat batches).
Proof.
  induction 1 as [|b sk batches sks Hb _ (us & hs & E1 & E2 & Es & F & En)].
  { exists [], []. by repeat split. }
  destruct (HllCountInitValues_Ok _ _ _ Hb) as (bh & Cb & Fb & _ & ->).
  cbn [concat]. rewrite CollectHashes_app, Cb, E2, saw_non_null_app. simpl mbind.
  destruct (saw_non_null b) eqn:N.
  - exists (sort_unique bh ++ us), (bh ++ hs). cbn [CollectSketches].
    rewrite ParseSketch_serialize by done. simpl mbind. rewrite E1. simpl.
    split; [done|]. split; [done|]. split; [|split; [by apply Forall_app|done]].
    intros x. rewrite !elem_of_app, sort_unique_elem, Es. done.
  - rewrite (CollectHashes_nulls _ N) in Cb. simplify_eq. exists us, hs. simpl. auto.
Qed.

(** ** Properties *)

(** HLL_COUNT.EXTRACT(HLL_COUNT.INIT(x)) is the exact number of distinct
    fingerprints among the non-null inputs, and 0 for no input. *)
Theorem extract_counts_distinct vs p sk hs
    (E : HllCountInitValues vs p = Ok sk) (C : CollectHashes vs = Ok hs) :
  HllCountExtractScalar [sk] = Ok (HInt64 (Z.of_nat (size (list_to_set hs : gset Z)))).
Proof.
  destruct (HllCountInitValues_Ok _ _ _ E) as (hs' & C' & F & _ & ->).
  rewrite C in C'. injection C' as <-. destruct (saw_non_null vs) eqn:N.
  - unfold HllCountExtractScalar. rewrite ParseSketch_serialize by done. simpl mbind.
    by rewrite sort_unique_idem, sort_unique_size.
  - rewrite (CollectHashes_nulls _ N) in C. simplify_eq. done.
Qed.

(** Sketches compose: merging the sketches of any division of the input
    into batches gives byte for byte the sketch of the whole input, and
    HLL_COUNT.MERGE of them is the count extracted from that sketch. *)
Theorem merge_of_batches batches sks p
    (Hp : is_ok (ParseAndValidatePrecision p) = true)
    (Hb : Forall2 (fun b sk => HllCountInitValues b p = Ok sk) batches sks) :
  HllCountMergePartialAggregate [sks] = HllCountInitValues (concat batches) p /\
  HllCountMergeAggregate [sks] =
    (sk ← HllCountInitValues (concat batches) p; HllCountExtractScalar [sk]).
Proof.
  destruct (CollectSketches_batches _ _ _ Hb) as (us & hs & E1 & E2 & Es & F & En).
  unfold HllCountMergePartialAggregate, HllCountMergeAggregate, MergeAggregateImpl, HllCountInitValues.
  rewrite E1, E2, En. destruct (ParseAndValidatePrecision p); [|done]. simpl mbind.
  assert (sort_unique us = sort_unique hs) as Eq by (by apply sort_unique_ext).
  destruct (saw_non_null (concat batches)); [|done]. cbn [mbind outcome_bind]. unfold HllCountExtractScalar.
  rewrite ParseSketch_serialize by done. cbn [mbind outcome_bind]. rewrite sort_unique_idem.
  unfold SerializeSketch. by rewrite Eq.
Qed.
End aggregates.

(** The sketch wire format round-trips: parsing the bytes of a sketch gives
    back the sorted distinct 64-bit hashes, and the bytes depend only on the set
    of hashes. *)
Theorem sketch_roundtrip hs hs' (F : Forall in_uint64 hs) (E : forall x, x ∈ hs <-> x ∈ hs') :
  ParseSketch (SerializeSketch hs) = Ok (sort_unique hs) /\ SerializeSketch hs' = SerializeSketch hs.
Proof.
  split; [by apply ParseSketch_serialize|]. unfold SerializeSketch.
  by rewrite (sort_unique_ext hs' hs) by (intros x; by rewrite E).
Qed.

(** ** Witnesses *)

Module Demo.

Lemma extract_counts_distinct_witness :
  exists sk hs, HllCountInitValues [HString $"a"; HNull; HString $"b"; HString $"a"] None = Ok sk /\
    CollectHashes [HString $"a"; HNull; HString $"b"; HString $"a"] = Ok hs /\
    HllCountExtractScalar [sk] = Ok (HInt64 (Z.of_nat (size (list_to_set hs : gset Z)))).
Proof.
  eexists _, _. split; [vm_compute; reflexivity|]. split; [vm_compute; reflexivity|].
  apply (extract_counts_distinct [HString $"a"; HNull; HString $"b"; HString $"a"] None);
    vm_compute; reflexivity.
Defined.

Lemma merge_of_batches_witness :
  exists sk1 sk2, HllCountInitValues [HString $"a"; HString $"b"] (Some 12%Z) = Ok sk1 /\
    HllCountInitValues [HString $"b"; HNull] (Some 12%Z) = Ok sk2 /\
    HllCountMergePartialAggregate [[sk1; sk2]] =
      HllCountInitValues (concat [[HString $"a"; HString $"b"]; [HString $"b"; HNull]]) (Some 12%Z).
Proof.
  assert (is_ok (HllCountInitValues [HString $"a"; HString $"b"] (Some 12%Z)) = true) as O1
    by (vm_compute; reflexivity).
  assert (is_ok (HllCountInitValues [HString $"b"; HNull] (Some 12%Z)) = true) as O2
    by (vm_compute; reflexivity).
  destruct (HllCountInitValues [HString $"a"; HString $"b"] (Some 12%Z)) as [sk1|] eqn:E1; [|discriminate O1].
  destruct (HllCountInitValues [HString $"b"; HNull] (Some 12%Z)) as [sk2|] eqn:E2; [|discriminate O2].
  exists sk1, sk2. split; [reflexivity|]. split; [reflexivity|].
  apply (merge_of_batches [[HString $"a"; HString $"b"]; [HString $"b"; HNull]] [sk1; sk2] (Some 12%Z)).
  - reflexivity.
  - repeat constructor; assumption.
Defined.

Lemma sketch_roundtrip_witness :
  ParseSketch (SerializeSketch [7; 3; 7]%Z) = Ok [3; 7]%Z /\
  SerializeSketch [3; 7]%Z = SerializeSketch [7; 3; 7]%Z.
Proof.
  apply (sketch_roundtrip [7; 3; 7]%Z [3; 7]%Z).
  - repeat constructor; vm_compute; congruence.
  - intros x. set_solver.
Defined.

End Demo.
