(* ===== verification/SqlValue.v ===== *)
(** * SqlValue: the values of the semantic executor

    [backend/engine/semantic/value.h] takes [googlesql::Value] as the value type
    of the executor.  GoogleSQL is not part of the repository: its type kinds,
    its types and the typed values are data, its arithmetic, comparison and
    date routines are the operations of the classes below, and the definitions
    that call them take an instance.  [GoogleSqlLaws] states the documented
    behaviour the theorems rely on.

    The IEEE arithmetic of [double] is the language's; it is the arithmetic of
    [SpecFloat] at 53 bits. *)

From Stdlib Require Export Floats.SpecFloat.
From S2P Require Import Prelude Absl.

(** ** Types *)

Inductive TypeKind :=
| TYPE_UNKNOWN | TYPE_BOOL | TYPE_INT64 | TYPE_DOUBLE | TYPE_FLOAT | TYPE_STRING | TYPE_BYTES
| TYPE_DATE | TYPE_TIME | TYPE_DATETIME | TYPE_TIMESTAMP | TYPE_NUMERIC | TYPE_BIGNUMERIC
| TYPE_JSON | TYPE_GEOGRAPHY | TYPE_INTERVAL | TYPE_UUID | TYPE_ENUM | TYPE_PROTO
| TYPE_RANGE | TYPE_ARRAY | TYPE_STRUCT.

#[export] Instance TypeKind_eq_dec : EqDecision TypeKind.
Proof. solve_decision. Defined.

Inductive SqlType :=
| TBool | TInt64 | TDouble | TFloat | TString | TBytes
| TDate | TTime | TDatetime | TTimestamp | TNumeric | TBigNumeric
| TJson | TGeography | TInterval | TUuid
| TEnum (name : str)
| TProto (name : str)
| TRange (elem : SqlType)
| TArray (elem : SqlType)
| TStruct (fields : list (str * SqlType)).

Definition kind (t : SqlType) : TypeKind :=
  match t with
  | TBool => TYPE_BOOL | TInt64 => TYPE_INT64 | TDouble => TYPE_DOUBLE | TFloat => TYPE_FLOAT
  | TString => TYPE_STRING | TBytes => TYPE_BYTES | TDate => TYPE_DATE | TTime => TYPE_TIME
  | TDatetime => TYPE_DATETIME | TTimestamp => TYPE_TIMESTAMP | TNumeric => TYPE_NUMERIC
  | TBigNumeric => TYPE_BIGNUMERIC | TJson => TYPE_JSON | TGeography => TYPE_GEOGRAPHY
  | TInterval => TYPE_INTERVAL | TUuid => TYPE_UUID | TEnum _ => TYPE_ENUM
  | TProto _ => TYPE_PROTO | TRange _ => TYPE_RANGE | TArray _ => TYPE_ARRAY
  | TStruct _ => TYPE_STRUCT
  end.

Definition IsArray (t : SqlType) : bool := bool_decide (kind t = TYPE_ARRAY).
Definition IsStruct (t : SqlType) : bool := bool_decide (kind t = TYPE_STRUCT).

Section type_ind.
Context (P : SqlType -> Prop).
Hypothesis (PLeaf : forall t, match t with TRange _ | TArray _ | TStruct _ => False | _ => True end -> P t)
  (PRange : forall t, P t -> P (TRange t)) (PArray : forall t, P t -> P (TArray t))
  (PStruct : forall fs, Forall (fun f => P f.2) fs -> P (TStruct fs)).

Fixpoint SqlType_nested_ind (t : SqlType) : P t :=
  let fix go (fs : list (str * SqlType)) : Forall (fun f => P f.2) fs :=
    match fs with
    | [] => Forall_nil_2 _
    | f :: fs => Forall_cons_2 _ _ _ (SqlType_nested_ind f.2) (go fs)
    end in
  match t with
  | TRange t => PRange t (SqlType_nested_ind t)
  | TArray t => PArray t (SqlType_nested_ind t)
  | TStruct fs => PStruct fs (go fs)
  | t => PLeaf t I
  end.
End type_ind.

(** [Type::Equals]: the same type. *)
#[export] Instance SqlType_eq_dec : EqDecision SqlType.
Proof.
  refine (fix go (a b : SqlType) {struct a} : {a = b} + {a <> b} :=
    match a, b with
    | TEnum n, TEnum m => cast_if (decide (n = m))
    | TProto n, TProto m => cast_if (decide (n = m))
    | TRange t, TRange u => cast_if (go t u)
    | TArray t, TArray u => cast_if (go t u)
    | TStruct fs, TStruct gs =>
        cast_if
          ((fix go_fields (fs gs : list (str * SqlType)) : {fs = gs} + {fs <> gs} :=
              match fs, gs with
              | [], [] => left eq_refl
              | (n, t) :: fs, (m, u) :: gs =>
                  cast_if_and3 (decide (n = m)) (go t u) (go_fields fs gs)
              | _, _ => right _
              end) fs gs)
    | TBool, TBool | TInt64, TInt64 | TDouble, TDouble | TFloat, TFloat | TString, TString
    | TBytes, TBytes | TDate, TDate | TTime, TTime | TDatetime, TDatetime
    | TTimestamp, TTimestamp | TNumeric, TNumeric | TBigNumeric, TBigNumeric | TJson, TJson
    | TGeography, TGeography | TInterval, TInterval | TUuid, TUuid => left eq_refl
    | _, _ => right _
    end); first [ congruence | discriminate ].
Defined.

(** ** Doubles *)

Definition dbl_of_Z (z : Z) : spec_float := binary_normalize 53 1024 z 0 false.
Definition dbl_zero : spec_float := S754_zero false.
Definition dbl_add : spec_float -> spec_float -> spec_float := SFadd 53 1024.
Definition dbl_sub : spec_float -> spec_float -> spec_float := SFsub 53 1024.
Definition dbl_mul : spec_float -> spec_float -> spec_float := SFmul 53 1024.
Definition dbl_div : spec_float -> spec_float -> spec_float := SFdiv 53 1024.
Definition dbl_sqrt : spec_float -> spec_float := SFsqrt 53 1024.

(** The integer at or below the number [(-1)^s * m * 2^e], and above it. *)
Definition floor_Z (s : bool) (m : positive) (e : Z) : Z :=
  Z.shiftl (if s then Z.neg m else Z.pos m) e.
Definition ceil_Z (s : bool) (m : positive) (e : Z) : Z := - floor_Z (negb s) m e.

(** A rounding to an integer keeps infinities, NaN and the sign of a zero. *)
Definition dbl_integer (s : bool) (z : Z) : spec_float :=
  if (z =? 0)%Z then S754_zero s else dbl_of_Z z.
Definition dbl_floor (d : spec_float) : spec_float :=
  match d with S754_finite s m e => dbl_integer s (floor_Z s m e) | _ => d end.
Definition dbl_ceil (d : spec_float) : spec_float :=
  match d with S754_finite s m e => dbl_integer s (ceil_Z s m e) | _ => d end.
Definition dbl_trunc (d : spec_float) : spec_float :=
  match d with
  | S754_finite s m e => dbl_integer s (if s then ceil_Z s m e else floor_Z s m e)
  | _ => d
  end.

(** The mathematical functions of the C library that have no exact definition. *)
Class CMath := {
  c_log : spec_float -> spec_float;
  c_sin : spec_float -> spec_float;
  c_cos : spec_float -> spec_float;
  c_asin : spec_float -> spec_float;
  c_acos : spec_float -> spec_float;
  c_atan2 : spec_float -> spec_float -> spec_float;
  c_pow : spec_float -> spec_float -> spec_float;
}.

(** ** Values *)

(** The payload types GoogleSQL defines. *)
Class GoogleSql := {
  NumericValue : Type;
  BigNumericValue : Type;
  IntervalValue : Type;
  DatetimeValue : Type;
  TimeValue : Type;
  UuidValue : Type;
  GeographyValue : Type;
  (** [absl::Time] *)
  AbslTime : Type;
}.

Section values.
Context `{GoogleSql}.

(** [SInvalid] is the default-constructed value, [SNull] a typed null.  A DATE
    is its day number, a TIMESTAMP its picoseconds since the epoch, a JSON its
    text, an ENUM its number. *)
Inductive Value :=
| SInvalid
| SNull (t : SqlType)
| SBool (b : bool)
| SInt64 (z : Z)
| SDouble (d : spec_float)
| SFloat (d : spec_float)
| SString (s : str)
| SBytes (s : str)
| SDate (day : Z)
| STime (t : TimeValue)
| SDatetime (dt : DatetimeValue)
| STimestamp (picos : Z)
| SNumeric (n : NumericValue)
| SBigNumeric (n : BigNumericValue)
| SJson (text : str)
| SGeography (g : GeographyValue)
| SInterval (i : IntervalValue)
| SUuid (u : UuidValue)
| SEnum (name : str) (number : Z)
| SProto (name : str) (bytes : str)
| SRange (elem : SqlType) (start end_ : Value)
| SArray (elem : SqlType) (elems : list Value)
| SStruct (fields : list (str * SqlType)) (vals : list Value).

(** [None] is the invalid value, which has no type. *)
Definition type_of (v : Value) : option SqlType :=
  match v with
  | SInvalid => None
  | SNull t => Some t
  | SBool _ => Some TBool
  | SInt64 _ => Some TInt64
  | SDouble _ => Some TDouble
  | SFloat _ => Some TFloat
  | SString _ => Some TString
  | SBytes _ => Some TBytes
  | SDate _ => Some TDate
  | STime _ => Some TTime
  | SDatetime _ => Some TDatetime
  | STimestamp _ => Some TTimestamp
  | SNumeric _ => Some TNumeric
  | SBigNumeric _ => Some TBigNumeric
  | SJson _ => Some TJson
  | SGeography _ => Some TGeography
  | SInterval _ => Some TInterval
  | SUuid _ => Some TUuid
  | SEnum n _ => Some (TEnum n)
  | SProto n _ => Some (TProto n)
  | SRange t _ _ => Some (TRange t)
  | SArray t _ => Some (TArray t)
  | SStruct fs _ => Some (TStruct fs)
  end.

Definition type_kind (v : Value) : TypeKind :=
  match type_of v with Some t => kind t | None => TYPE_UNKNOWN end.

Definition is_kind (v : Value) (k : TypeKind) : bool := bool_decide (type_kind v = k).

Definition is_null (v : Value) : bool := match v with SNull _ => true | _ => false end.
Definition is_valid (v : Value) : bool := match v with SInvalid => false | _ => true end.

(** The accessors, for a value of the kind that is not null; GoogleSQL aborts
    on any other, where they return a default that no guarded call reads. *)
Definition bool_value (v : Value) : bool := match v with SBool b => b | _ => false end.
Definition int64_value (v : Value) : Z := match v with SInt64 z => z | _ => 0 end.
Definition double_value (v : Value) : spec_float :=
  match v with SDouble d => d | _ => dbl_zero end.
Definition float_value (v : Value) : spec_float :=
  match v with SFloat d => d | _ => dbl_zero end.
Definition string_value (v : Value) : str := match v with SString s => s | _ => [] end.
Definition bytes_value (v : Value) : str := match v with SBytes s => s | _ => [] end.
Definition date_value (v : Value) : Z := match v with SDate d => d | _ => 0 end.
Definition ToUnixPicos (v : Value) : Z := match v with STimestamp p => p | _ => 0 end.
Definition enum_value (v : Value) : Z := match v with SEnum _ n => n | _ => 0 end.
Definition elements (v : Value) : list Value := match v with SArray _ l => l | _ => [] end.
Definition fields (v : Value) : list Value := match v with SStruct _ l => l | _ => [] end.
Definition num_elements (v : Value) : Z := Z.of_nat (length (elements v)).
Definition num_fields (v : Value) : Z := Z.of_nat (length (fields v)).

Definition NullBool : Value := SNull TBool.
Definition NullInt64 : Value := SNull TInt64.
Definition NullDouble : Value := SNull TDouble.
Definition NullString : Value := SNull TString.
Definition NullBytes : Value := SNull TBytes.
Definition NullInterval : Value := SNull TInterval.

(** A value and all the values inside it have the types announced. *)
Fixpoint has_type (v : Value) (t : SqlType) {struct v} : bool :=
  match v with
  | SInvalid => false
  | SRange e a b => bool_decide (t = TRange e) && has_type a e && has_type b e
  | SArray e l => bool_decide (t = TArray e) && forallb (fun x => has_type x e) l
  | SStruct fs l =>
      bool_decide (t = TStruct fs) &&
      (fix all_fields (l : list Value) (fs : list (str * SqlType)) : bool :=
         match l, fs with
         | [], [] => true
         | x :: l, f :: fs => has_type x f.2 && all_fields l fs
         | _, _ => false
         end) l fs
  | _ => bool_decide (type_of v = Some t)
  end.

Lemma has_type_type_of v t : has_type v t = true -> type_of v = Some t.
Proof.
  destruct v; cbn [has_type]; intros HT; repeat (apply andb_true_iff in HT as [HT ?]);
    bool_to_prop; simpl in *; congruence.
Qed.

(** The values of a STRUCT against the types of its fields. *)
Lemma has_type_struct fs l ts :
  has_type (SStruct fs l) (TStruct ts) = true <->
  fs = ts /\ Forall2 (fun v t => has_type v t = true) l (map snd ts).
Proof.
  cbn [has_type]. rewrite andb_true_iff, bool_decide_eq_true.
  assert (forall l fs, (fix all_fields (l : list Value) (fs : list (str * SqlType)) : bool :=
         match l, fs with
         | [], [] => true
         | x :: l, f :: fs => has_type x f.2 && all_fields l fs
         | _, _ => false
         end) l fs = true <-> Forall2 (fun v t => has_type v t = true) l (map snd fs)) as K.
  { clear. intros l. induction l as [|x l IH]; intros [|f fs]; simpl.
    - split; [constructor|done].
    - split; [done|by inversion 1].
    - split; [done|by inversion 1].
    - rewrite andb_true_iff, IH. split; [intros []; by constructor|by inversion 1]. }
  split.
  - intros [[= <-] F]. split; [done|]. by apply K.
  - intros [-> F]. split; [done|]. by apply K.
Qed.

Lemma has_type_array e l t :
  has_type (SArray e l) (TArray t) = true <-> e = t /\ Forall (fun v => has_type v t = true) l.
Proof.
  cbn [has_type]. rewrite andb_true_iff, bool_decide_eq_true, forallb_forall, Forall_forall.
  setoid_rewrite list_elem_of_In. split; intros [[= <-] F] || intros [<- F]; auto.
Qed.
End values.

(** The types a null can be built for ([NullOfType] in [eval_expr_operators.cc]
    has a case for), at every depth. *)
Fixpoint supported (t : SqlType) : bool :=
  match t with
  | TFloat | TEnum _ | TProto _ => false
  | TRange e | TArray e => supported e
  | TStruct fs => forallb (fun f => supported f.2) fs
  | _ => true
  end.

(** ** GoogleSQL's routines *)

(** The decimal types share the shape of their arithmetic. *)
Record DecimalOps (N : Type) := mkDecimalOps {
  num_add : N -> N -> StatusOr N;
  num_sub : N -> N -> StatusOr N;
  num_mul : N -> N -> StatusOr N;
  num_div : N -> N -> StatusOr N;
  num_mod : N -> N -> StatusOr N;
  num_pow : N -> N -> StatusOr N;
  num_floor : N -> StatusOr N;
  num_ceil : N -> StatusOr N;
  num_trunc : N -> Z -> N;
  num_sqrt : N -> StatusOr N;
  num_sign : N -> Z;
  num_is_zero : N -> bool;
  num_to_double : N -> spec_float;
}.
Arguments num_add {N}. Arguments num_sub {N}. Arguments num_mul {N}. Arguments num_div {N}.
Arguments num_mod {N}. Arguments num_pow {N}. Arguments num_floor {N}. Arguments num_ceil {N}.
Arguments num_trunc {N}. Arguments num_sqrt {N}. Arguments num_sign {N}.
Arguments num_is_zero {N}. Arguments num_to_double {N}.

Class GoogleSqlOps `{GoogleSql} := {
  numeric : DecimalOps NumericValue;
  bignumeric : DecimalOps BigNumericValue;
  NumericValue_FromString : str -> StatusOr NumericValue;
  numeric_Negate : NumericValue -> NumericValue;
  numeric_Abs : NumericValue -> NumericValue;
  bignumeric_Negate : BigNumericValue -> StatusOr BigNumericValue;
  bignumeric_Abs : BigNumericValue -> StatusOr BigNumericValue;
  BigNumeric_of_Numeric : NumericValue -> BigNumericValue;
  Numeric_of_int64 : Z -> NumericValue;
  BigNumeric_of_int64 : Z -> BigNumericValue;
  BigNumeric_FromDouble : spec_float -> StatusOr BigNumericValue;
  bignumeric_ToNumericValue : BigNumericValue -> StatusOr NumericValue;
  (** [Value::Equals], [Value::LessThan], [Type::DebugString] *)
  Equals : Value -> Value -> bool;
  LessThan : Value -> Value -> bool;
  DebugString : option SqlType -> str;
  (** [DateTimestampPart_IsValid], [_Parse] *)
  Part_IsValid : Z -> bool;
  Part_Parse : str -> option Z;
  Part_DAY : Z;
  Interval_FromInteger : Z -> Z -> StatusOr IntervalValue;
  interval_Multiply : IntervalValue -> Z -> StatusOr IntervalValue;
  gsql_JustifyDays : IntervalValue -> StatusOr IntervalValue;
  gsql_JustifyHours : IntervalValue -> StatusOr IntervalValue;
  (** the date arithmetic of [functions/date_time_util.h] *)
  AddDate : Z -> Z -> Z -> StatusOr Z;
  SubDate : Z -> Z -> Z -> StatusOr Z;
  AddDateInterval : Z -> IntervalValue -> StatusOr DatetimeValue;
  AddDatetime : DatetimeValue -> IntervalValue -> StatusOr DatetimeValue;
  AddTimestamp : Z -> IntervalValue -> StatusOr Z;
  IntervalDiffDates : Z -> Z -> StatusOr IntervalValue;
  (** [Value::ToTime] of a TIMESTAMP's picoseconds; UTC for a DATETIME *)
  ToTime : Z -> AbslTime;
  IntervalDiffTimestamps : AbslTime -> AbslTime -> StatusOr IntervalValue;
  ConvertDatetimeToTimestamp : DatetimeValue -> StatusOr AbslTime;
  ParseStringToDate : str -> str -> StatusOr Z;
}.

(** Comparison of values of one kind is the comparison of their payloads. *)
Class GoogleSqlLaws `{GoogleSqlOps} : Prop := {
  Equals_bool a b : Equals (SBool a) (SBool b) = Bool.eqb a b;
  Equals_int64 a b : Equals (SInt64 a) (SInt64 b) = (a =? b)%Z;
  LessThan_int64 a b : LessThan (SInt64 a) (SInt64 b) = (a <? b)%Z;
  Equals_string a b : Equals (SString a) (SString b) = bool_decide (a = b);
  Equals_bytes a b : Equals (SBytes a) (SBytes b) = bool_decide (a = b);
}.
