(* ===== verification/GoogleSqlReference.v ===== *)
(** * GoogleSqlReference: a concrete instance of the GoogleSQL classes

    Decimals are integers scaled by a power of ten, written as that integer, an
    interval is its months, days and nanoseconds, a datetime its microseconds.
    The instance satisfies
    [GoogleSqlLaws]; closed examples compute with it.  Operations no example
    reads are answered with an UNIMPLEMENTED status. *)

From S2P Require Import Prelude Order Absl AbslReference SqlValue.

Definition out_of_range (what : str) : Status := mkStatus kOutOfRange (what ++ $" overflow") None.

(** The value when its magnitude is under the limit. *)
Definition in_limit (limit : Z) (what : str) (n : Z) : StatusOr Z :=
  if (Z.abs n <? limit)%Z then Ok n else Err (out_of_range what).

Fixpoint decimal_power (scale limit : Z) (what : str) (base : Z) (exp : nat) : StatusOr Z :=
  match exp with
  | O => Ok scale
  | S exp => p ← decimal_power scale limit what base exp;
             in_limit limit what (Z.quot (p * base) scale)
  end.

Definition decimal_ops (scale limit : Z) (what : str) : DecimalOps Z :=
  mkDecimalOps Z
    (fun a b => in_limit limit what (a + b))
    (fun a b => in_limit limit what (a - b))
    (fun a b => in_limit limit what (Z.quot (a * b) scale))
    (fun a b => if (b =? 0)%Z then Err (mkStatus kOutOfRange $"division by zero" None)
                else in_limit limit what (Z.quot (a * scale) b))
    (fun a b => if (b =? 0)%Z then Err (mkStatus kOutOfRange $"division by zero" None)
                else Ok (Z.rem a b))
    (fun a b => if ((b <? 0) || negb (b mod scale =? 0))%Z
                then Err (InvalidArgumentError $"fractional power")
                else decimal_power scale limit what a (Z.to_nat (b / scale)))
    (fun a => in_limit limit what (a / scale * scale))
    (fun a => in_limit limit what (- (- a / scale * scale)))
    (fun a digits => let unit := (scale / 10 ^ digits)%Z in
                     if (unit =? 0)%Z then a else (Z.quot a unit * unit)%Z)
    (fun a => if (a <? 0)%Z then Err (InvalidArgumentError $"sqrt of a negative number")
              else Ok (Z.sqrt (a * scale)))
    Z.sgn
    (fun a => (a =? 0)%Z)
    (fun a => dbl_div (dbl_of_Z a) (dbl_of_Z scale)).

Module Reference.

#[export] Instance reference_types : GoogleSql := {|
  NumericValue := Z;
  BigNumericValue := Z;
  IntervalValue := Z * Z * Z;
  DatetimeValue := Z;
  TimeValue := Z;
  UuidValue := Z;
  GeographyValue := str;
  AbslTime := Z;
|}.

Fixpoint ref_equals (a b : Value) {struct a} : bool :=
  let fix all (xs ys : list Value) : bool :=
    match xs, ys with
    | [], [] => true
    | x :: xs, y :: ys => ref_equals x y && all xs ys
    | _, _ => false
    end in
  match a, b with
  | SNull t, SNull u => bool_decide (t = u)
  | SBool x, SBool y => Bool.eqb x y
  | SInt64 x, SInt64 y => (x =? y)%Z
  | SDouble x, SDouble y | SFloat x, SFloat y => SFeqb x y
  | SString x, SString y | SBytes x, SBytes y => bool_decide (x = y)
  | SDate x, SDate y | STimestamp x, STimestamp y => (x =? y)%Z
  | STime x, STime y | SDatetime x, SDatetime y | SUuid x, SUuid y => (x =? y)%Z
  | SNumeric x, SNumeric y | SBigNumeric x, SBigNumeric y => (x =? y)%Z
  | SInterval x, SInterval y => bool_decide (x = y)
  | SEnum n x, SEnum m y => bool_decide (n = m) && (x =? y)%Z
  | SRange t x1 x2, SRange u y1 y2 => bool_decide (t = u) && ref_equals x1 y1 && ref_equals x2 y2
  | SArray t xs, SArray u ys => bool_decide (t = u) && all xs ys
  | SStruct fs xs, SStruct gs ys => bool_decide (fs = gs) && all xs ys
  | _, _ => false
  end.

Definition ref_less (a b : Value) : bool :=
  match a, b with
  | SBool x, SBool y => negb x && y
  | SInt64 x, SInt64 y => (x <? y)%Z
  | SDouble x, SDouble y | SFloat x, SFloat y => SFltb x y
  | SString x, SString y | SBytes x, SBytes y => str_ltb x y
  | SDate x, SDate y | STimestamp x, STimestamp y => (x <? y)%Z
  | STime x, STime y | SDatetime x, SDatetime y => (x <? y)%Z
  | SNumeric x, SNumeric y | SBigNumeric x, SBigNumeric y => (x <? y)%Z
  | _, _ => false
  end.

Definition numeric_scale : Z := 10 ^ 9.
Definition numeric_limit : Z := 10 ^ 38.
Definition bignumeric_scale : Z := 10 ^ 38.
Definition bignumeric_limit : Z := 2 ^ 255.

Definition undefined_here {A} : StatusOr A := Err (UnimplementedError $"not in the reference").

Definition days_limit : Z := 4000000.

#[export] Instance reference_ops : GoogleSqlOps := {|
  numeric := decimal_ops numeric_scale numeric_limit $"numeric" : DecimalOps NumericValue;
  bignumeric := decimal_ops bignumeric_scale bignumeric_limit $"BIGNUMERIC";
  NumericValue_FromString s :=
    match ref_integer s with
    | Some z => Ok z
    | None => Err (InvalidArgumentError $"invalid numeric")
    end;
  numeric_Negate n := (- n)%Z;
  numeric_Abs n := Z.abs n;
  bignumeric_Negate n := in_limit bignumeric_limit $"BIGNUMERIC" (- n);
  bignumeric_Abs n := in_limit bignumeric_limit $"BIGNUMERIC" (Z.abs n);
  BigNumeric_of_Numeric n := (n * 10 ^ 29)%Z;
  Numeric_of_int64 z := (z * numeric_scale)%Z;
  BigNumeric_of_int64 z := (z * bignumeric_scale)%Z;
  BigNumeric_FromDouble d := undefined_here;
  bignumeric_ToNumericValue n := in_limit numeric_limit $"numeric" (Z.quot n (10 ^ 29));
  Equals := ref_equals;
  LessThan := ref_less;
  DebugString t := match t with Some TInt64 => $"INT64" | Some TString => $"STRING"
                           | Some TBool => $"BOOL" | Some TDouble => $"DOUBLE" | _ => $"TYPE" end;
  Part_IsValid n := ((1 <=? n) && (n <=? 20))%Z;
  Part_Parse s := if bool_decide (s = $"YEAR") then Some 1%Z
                  else if bool_decide (s = $"MONTH") then Some 2%Z
                  else if bool_decide (s = $"DAY") then Some 3%Z else None;
  Part_DAY := 3%Z;
  Interval_FromInteger n p :=
    if (p =? 1)%Z then Ok (12 * n, 0, 0)%Z else if (p =? 2)%Z then Ok (n, 0, 0)%Z
    else if (p =? 3)%Z then Ok (0, n, 0)%Z else undefined_here;
  interval_Multiply i k := Ok (i.1.1 * k, i.1.2 * k, i.2 * k)%Z;
  gsql_JustifyDays i := Ok (i.1.1 + Z.quot i.1.2 30, Z.rem i.1.2 30, i.2)%Z;
  gsql_JustifyHours i :=
    Ok (i.1.1, i.1.2 + Z.quot i.2 (86400 * 10 ^ 9), Z.rem i.2 (86400 * 10 ^ 9))%Z;
  AddDate d p n := in_limit days_limit $"date" (d + n);
  SubDate d p n := in_limit days_limit $"date" (d - n);
  AddDateInterval d i := undefined_here;
  AddDatetime d i := undefined_here;
  AddTimestamp t i := Ok (t + (i.1.2 * 86400 * 10 ^ 9 + i.2) * 1000)%Z;
  IntervalDiffDates a b := Ok (0, a - b, 0)%Z;
  ToTime p := (p / 1000)%Z;
  IntervalDiffTimestamps a b := Ok (0, 0, a - b)%Z;
  ConvertDatetimeToTimestamp d := Ok (d * 1000)%Z;
  ParseStringToDate f s := undefined_here;
|}.

#[export] Instance reference_laws : GoogleSqlLaws.
Proof. split; intros; reflexivity. Qed.

End Reference.
