(* ===== verification/Arithmetic.v ===== *)
(** * Arithmetic: operators of the expression evaluator

    Models [backend/engine/semantic/eval_expr_operators.cc], the numeric
    promotions of [eval_expr_numeric.cc] and the operator dispatchers of
    [eval_expr_dispatch.cc]: checked INT64 arithmetic, FLOAT64, NUMERIC and
    BIGNUMERIC arithmetic, date arithmetic, comparisons, three-valued logic,
    the conditional operators and the SAFE_ wrapper.  A [const Type*] that may
    be null is an [option].  The arithmetic functions match on the payloads of
    their operands: the dispatchers have answered a null operand before they
    call them. *)

From S2P Require Import Prelude Absl AbslReference Storage SemanticError SqlValue.

Section arithmetic.
Context `{AbslText, AbslDouble, GoogleSqlOps}.

Definition NullOfType (type : option SqlType) : Value :=
  match type with
  | None => NullInt64
  | Some t =>
      match kind t with
      | TYPE_BOOL => NullBool
      | TYPE_INT64 => NullInt64
      | TYPE_DOUBLE => NullDouble
      | TYPE_STRING => NullString
      | TYPE_BYTES => NullBytes
      | TYPE_DATE => SNull TDate
      | TYPE_TIME => SNull TTime
      | TYPE_DATETIME => SNull TDatetime
      | TYPE_TIMESTAMP => SNull TTimestamp
      | TYPE_NUMERIC => SNull TNumeric
      | TYPE_BIGNUMERIC => SNull TBigNumeric
      | TYPE_JSON => SNull TJson
      | TYPE_GEOGRAPHY => SNull TGeography
      | TYPE_INTERVAL => NullInterval
      | TYPE_UUID => SNull TUuid
      | TYPE_RANGE | TYPE_ARRAY | TYPE_STRUCT => SNull t
      | _ => SInvalid
      end
  end.

(** The template parameter of [WrapNumeric] is the decimal type, [mk] the
    value factory its branches select for it. *)
Definition WrapNumeric {N} (mk : N -> Value) (result : StatusOr N) : StatusOr Value :=
  match result with
  | Err s =>
      if bool_decide (code s = kOutOfRange) then Err (MakeSemanticError rOverflow (message s))
      else Err (MakeSemanticError rInvalidArgument (message s))
  | Ok n => Ok (mk n)
  end.

Definition ToDouble (v : Value) : StatusOr spec_float :=
  match v with
  | SDouble d => Ok d
  | SInt64 z => Ok (dbl_of_Z z)
  | SNumeric n => Ok (num_to_double numeric n)
  | _ => Err (InvalidArgumentError
           ($"semantic: cannot coerce " ++ DebugString (type_of v) ++ $" to FLOAT64"))
  end.

(** ** Checked INT64 arithmetic *)

(** [__builtin_add_overflow] and its companions: the wrapped result and
    whether the exact one was out of range. *)
Definition int64_overflows (r : Z) : bool := ((r <? int64_min) || (int64_max <? r))%Z.

Definition int64_overflow_error (a b : Z) (op : str) : Status :=
  MakeSemanticError rOverflow ($"Int64 overflow: " ++ StrInt a ++ op ++ StrInt b).

Definition AddInt64 (a b : Z) : StatusOr Value :=
  if int64_overflows (a + b) then Err (int64_overflow_error a b $" + ") else Ok (SInt64 (a + b)).
Definition SubInt64 (a b : Z) : StatusOr Value :=
  if int64_overflows (a - b) then Err (int64_overflow_error a b $" - ") else Ok (SInt64 (a - b)).
Definition MulInt64 (a b : Z) : StatusOr Value :=
  if int64_overflows (a * b) then Err (int64_overflow_error a b $" * ") else Ok (SInt64 (a * b)).

(** ** Numeric promotion *)

Definition cannot_coerce (v : Value) (to : str) : Status :=
  InvalidArgumentError ($"semantic: cannot coerce " ++ DebugString (type_of v) ++ $" to " ++ to).

Definition CoerceToBigNumeric (v : Value) : StatusOr BigNumericValue :=
  match v with
  | SBigNumeric n => Ok n
  | SNumeric n => Ok (BigNumeric_of_Numeric n)
  | SInt64 z => Ok (BigNumeric_of_int64 z)
  | _ => Err (cannot_coerce v $"BIGNUMERIC")
  end.

Definition CoerceToNumeric (v : Value) : StatusOr NumericValue :=
  match v with
  | SNumeric n => Ok n
  | SInt64 z => NumericValue_FromString (StrInt z)
  | _ => Err (cannot_coerce v $"NUMERIC")
  end.

Definition EitherKind (a b : Value) (k : TypeKind) : bool := is_kind a k || is_kind b k.

(** [WrapNumericValue], the same text as [WrapNumeric] in its own file. *)
Definition WrapNumericValue {N} (mk : N -> Value) (result : StatusOr N) : StatusOr Value :=
  match result with
  | Err s =>
      if bool_decide (code s = kOutOfRange) then Err (MakeSemanticError rOverflow (message s))
      else Err (MakeSemanticError rInvalidArgument (message s))
  | Ok n => Ok (mk n)
  end.

Definition TryPromotedNumericAdd (a b : Value) : option (StatusOr Value) :=
  if EitherKind a b TYPE_BIGNUMERIC then
    Some (lhs ← CoerceToBigNumeric a; rhs ← CoerceToBigNumeric b;
          WrapNumericValue SBigNumeric (num_add bignumeric lhs rhs))
  else if EitherKind a b TYPE_NUMERIC then
    Some (lhs ← CoerceToNumeric a; rhs ← CoerceToNumeric b;
          WrapNumericValue SNumeric (num_add numeric lhs rhs))
  else None.

Definition TryPromotedNumericSub (a b : Value) : option (StatusOr Value) :=
  if EitherKind a b TYPE_BIGNUMERIC then
    Some (lhs ← CoerceToBigNumeric a; rhs ← CoerceToBigNumeric b;
          WrapNumericValue SBigNumeric (num_sub bignumeric lhs rhs))
  else if EitherKind a b TYPE_NUMERIC then
    Some (lhs ← CoerceToNumeric a; rhs ← CoerceToNumeric b;
          WrapNumericValue SNumeric (num_sub numeric lhs rhs))
  else None.

Definition TryPromotedNumericMul (a b : Value) : option (StatusOr Value) :=
  if EitherKind a b TYPE_BIGNUMERIC then
    Some (lhs ← CoerceToBigNumeric a; rhs ← CoerceToBigNumeric b;
          WrapNumericValue SBigNumeric (num_mul bignumeric lhs rhs))
  else if EitherKind a b TYPE_NUMERIC then
    Some (lhs ← CoerceToNumeric a; rhs ← CoerceToNumeric b;
          WrapNumericValue SNumeric (num_mul numeric lhs rhs))
  else None.

(** A failed decimal division is a division by zero when its message says so,
    an overflow otherwise. *)
Definition wrap_division {N} (mk : N -> Value) (result : StatusOr N) : StatusOr Value :=
  match result with
  | Err s =>
      if str_contains (message s) $"by zero" || str_contains (message s) $"Division by zero"
      then Err (MakeSemanticError rDivisionByZero (message s))
      else Err (MakeSemanticError rOverflow (message s))
  | Ok n => Ok (mk n)
  end.

Definition TryPromotedNumericDiv (a b : Value) : option (StatusOr Value) :=
  if EitherKind a b TYPE_BIGNUMERIC then
    Some (lhs ← CoerceToBigNumeric a; rhs ← CoerceToBigNumeric b;
          wrap_division SBigNumeric (num_div bignumeric lhs rhs))
  else if EitherKind a b TYPE_NUMERIC then
    Some (lhs ← CoerceToNumeric a; rhs ← CoerceToNumeric b;
          wrap_division SNumeric (num_div numeric lhs rhs))
  else None.

(** ** The arithmetic operators *)

Definition mismatched_kinds (op : str) (a b : Value) : Status :=
  InvalidArgumentError ($"semantic: '" ++ op ++ $"' operands have mismatched kinds: "
    ++ DebugString (type_of a) ++ $" vs " ++ DebugString (type_of b)).

Definition not_implemented_for (op : str) (a : Value) : Status :=
  InvalidArgumentError ($"semantic: '" ++ op ++ $"' not implemented for " ++ DebugString (type_of a)).

Definition ArithmeticAdd (a b : Value) : StatusOr Value :=
  match a, b with
  | SDate d, SInt64 n => SDate <$> AddDate d Part_DAY n
  | SDate d, SInterval i => SDatetime <$> AddDateInterval d i
  | SDatetime dt, SInterval i => SDatetime <$> AddDatetime dt i
  | STimestamp p, SInterval i => STimestamp <$> AddTimestamp p i
  | _, _ =>
      match TryPromotedNumericAdd a b with
      | Some promoted => promoted
      | None =>
          if negb (is_kind b (type_kind a)) then Err (mismatched_kinds $"+" a b)
          else match a, b with
               | SInt64 x, SInt64 y => AddInt64 x y
               | SDouble x, SDouble y => Ok (SDouble (dbl_add x y))
               | SNumeric x, SNumeric y => WrapNumeric SNumeric (num_add numeric x y)
               | SBigNumeric x, SBigNumeric y => WrapNumeric SBigNumeric (num_add bignumeric x y)
               | _, _ => Err (not_implemented_for $"+" a)
               end
      end
  end.

Definition SubDateMinusInt64 (d n : Z) : StatusOr Value := SDate <$> SubDate d Part_DAY n.
Definition SubDateMinusDate (a b : Z) : StatusOr Value := SInterval <$> IntervalDiffDates a b.
Definition SubDatetimeMinusDatetime (a b : DatetimeValue) : StatusOr Value :=
  ta ← ConvertDatetimeToTimestamp a; tb ← ConvertDatetimeToTimestamp b;
  SInterval <$> IntervalDiffTimestamps ta tb.
Definition SubTimestampMinusTimestamp (a b : Z) : StatusOr Value :=
  SInterval <$> IntervalDiffTimestamps (ToTime a) (ToTime b).
Definition SubDatetimeMinusInterval (a : DatetimeValue) (b : IntervalValue) : StatusOr Value :=
  negated ← interval_Multiply b (-1); SDatetime <$> AddDatetime a negated.
Definition SubTimestampMinusInterval (a : Z) (b : IntervalValue) : StatusOr Value :=
  negated ← interval_Multiply b (-1); STimestamp <$> AddTimestamp a negated.

Definition SubSameKindNumeric (a b : Value) : StatusOr Value :=
  match a, b with
  | SInt64 x, SInt64 y => SubInt64 x y
  | SDouble x, SDouble y => Ok (SDouble (dbl_sub x y))
  | SNumeric x, SNumeric y => WrapNumeric SNumeric (num_sub numeric x y)
  | SBigNumeric x, SBigNumeric y => WrapNumeric SBigNumeric (num_sub bignumeric x y)
  | _, _ => Err (not_implemented_for $"-" a)
  end.

Definition ArithmeticSub (a b : Value) : StatusOr Value :=
  match a, b with
  | SDate d, SInt64 n => SubDateMinusInt64 d n
  | SDate x, SDate y => SubDateMinusDate x y
  | SDatetime x, SDatetime y => SubDatetimeMinusDatetime x y
  | STimestamp x, STimestamp y => SubTimestampMinusTimestamp x y
  | SDatetime x, SInterval i => SubDatetimeMinusInterval x i
  | STimestamp x, SInterval i => SubTimestampMinusInterval x i
  | _, _ =>
      match TryPromotedNumericSub a b with
      | Some promoted => promoted
      | None =>
          if negb (is_kind b (type_kind a)) then Err (mismatched_kinds $"-" a b)
          else SubSameKindNumeric a b
      end
  end.

Definition ArithmeticMul (a b : Value) : StatusOr Value :=
  match TryPromotedNumericMul a b with
  | Some promoted => promoted
  | None =>
      if negb (is_kind b (type_kind a)) then Err (mismatched_kinds $"*" a b)
      else match a, b with
           | SInt64 x, SInt64 y => MulInt64 x y
           | SDouble x, SDouble y => Ok (SDouble (dbl_mul x y))
           | SNumeric x, SNumeric y => WrapNumeric SNumeric (num_mul numeric x y)
           | SBigNumeric x, SBigNumeric y => WrapNumeric SBigNumeric (num_mul bignumeric x y)
           | _, _ => Err (not_implemented_for $"*" a)
           end
  end.

Definition ArithmeticDiv (a b : Value) : StatusOr Value :=
  match a, b with
  | SDouble x, SDouble divisor =>
      if SFeqb divisor dbl_zero then
        Err (MakeSemanticError rDivisionByZero ($"division by zero: " ++ StrDouble x ++ $" / 0"))
      else Ok (SDouble (dbl_div x divisor))
  | SNumeric x, SNumeric y => wrap_division SNumeric (num_div numeric x y)
  | SBigNumeric x, SBigNumeric y => wrap_division SBigNumeric (num_div bignumeric x y)
  | _, _ =>
      match TryPromotedNumericDiv a b with
      | Some promoted => promoted
      | None => Err (InvalidArgumentError ($"semantic: '/' not implemented for ("
                  ++ DebugString (type_of a) ++ $", " ++ DebugString (type_of b) ++ $")"))
      end
  end.

Definition UnaryMinus (a : Value) : StatusOr Value :=
  match a with
  | SInt64 z =>
      if (z =? int64_min)%Z then Err (MakeSemanticError rOverflow $"Int64 overflow: -INT64_MIN")
      else Ok (SInt64 (- z))
  | SDouble d => Ok (SDouble (SFopp d))
  | SNumeric n => Ok (SNumeric (numeric_Negate n))
  | SBigNumeric n =>
      match bignumeric_Negate n with
      | Err s => Err (MakeSemanticError rOverflow (message s))
      | Ok m => Ok (SBigNumeric m)
      end
  | _ => Err (InvalidArgumentError
           ($"semantic: unary '-' not implemented for " ++ DebugString (type_of a)))
  end.
(** ** Dispatchers *)

Definition CompareLess (a b : Value) : StatusOr Value := Ok (SBool (LessThan a b)).
Definition CompareEqual (a b : Value) : StatusOr Value := Ok (SBool (Equals a b)).

Definition NullIfAnyNull (args : list Value) (return_type : option SqlType) : option Value :=
  if existsb is_null args then Some (NullOfType return_type) else None.

Definition expects_two (op : str) : Status :=
  InvalidArgumentError ($"semantic: " ++ op ++ $" expects exactly two arguments").
Definition expects_one (op : str) : Status :=
  InvalidArgumentError ($"semantic: " ++ op ++ $" expects exactly one argument").

Definition DispatchAdd (args : list Value) (return_type : option SqlType) : StatusOr Value :=
  match args with
  | [a; b] => match NullIfAnyNull args return_type with
              | Some n => Ok n
              | None => ArithmeticAdd a b
              end
  | _ => Err (expects_two $"'+'")
  end.

Definition DispatchSub (args : list Value) (return_type : option SqlType) : StatusOr Value :=
  match args with
  | [a; b] => match NullIfAnyNull args return_type with
              | Some n => Ok n
              | None => ArithmeticSub a b
              end
  | _ => Err (expects_two $"'-'")
  end.

Definition DispatchMul (args : list Value) (return_type : option SqlType) : StatusOr Value :=
  match args with
  | [a; b] => match NullIfAnyNull args return_type with
              | Some n => Ok n
              | None => ArithmeticMul a b
              end
  | _ => Err (expects_two $"'*'")
  end.

Definition DispatchDiv (args : list Value) (return_type : option SqlType) : StatusOr Value :=
  match args with
  | [a; b] => match NullIfAnyNull args return_type with
              | Some n => Ok n
              | None => ArithmeticDiv a b
              end
  | _ => Err (expects_two $"'/'")
  end.

Definition DispatchUnaryMinus (args : list Value) (return_type : option SqlType) : StatusOr Value :=
  match args with
  | [a] => if is_null a then Ok (NullOfType return_type) else UnaryMinus a
  | _ => Err (expects_one $"unary '-'")
  end.

(** [-x] of the least INT64 overflows: the hardware result is the value itself. *)
Definition wrap_int64 (z : Z) : Z := (z + 2 ^ 63) mod 2 ^ 64 - 2 ^ 63.

Definition DispatchAbs (args : list Value) (return_type : option SqlType) : StatusOr Value :=
  match args with
  | [v] =>
      if is_null v then Ok (NullOfType return_type)
      else match v with
           | SInt64 x => Ok (SInt64 (if (x <? 0)%Z then wrap_int64 (- x) else x))
           | SDouble d => Ok (SDouble (SFabs d))
           | SNumeric n => Ok (SNumeric (numeric_Abs n))
           | SBigNumeric n =>
               match bignumeric_Abs n with
               | Err s => Err (MakeSemanticError rOverflow (message s))
               | Ok m => Ok (SBigNumeric m)
               end
           | _ => Err (MakeSemanticError rInvalidArgument $"semantic: ABS requires numeric argument")
           end
  | _ => Err (expects_one $"ABS")
  end.

Definition DispatchEqual (args : list Value) : StatusOr Value :=
  match args with
  | [a; b] => if is_null a || is_null b then Ok NullBool else CompareEqual a b
  | _ => Err (expects_two $"'='")
  end.

Definition DispatchNotEqual (args : list Value) : StatusOr Value :=
  match args with
  | [a; b] => if is_null a || is_null b then Ok NullBool else Ok (SBool (negb (Equals a b)))
  | _ => Err (expects_two $"'!='")
  end.

Definition DispatchLess (args : list Value) : StatusOr Value :=
  match args with
  | [a; b] => if is_null a || is_null b then Ok NullBool else CompareLess a b
  | _ => Err (expects_two $"'<'")
  end.

Definition DispatchLessOrEqual (args : list Value) : StatusOr Value :=
  match args with
  | [a; b] => if is_null a || is_null b then Ok NullBool
              else Ok (SBool (LessThan a b || Equals a b))
  | _ => Err (expects_two $"'<='")
  end.

Definition DispatchGreater (args : list Value) : StatusOr Value :=
  match args with
  | [a; b] => if is_null a || is_null b then Ok NullBool else Ok (SBool (LessThan b a))
  | _ => Err (expects_two $"'>'")
  end.

Definition DispatchGreaterOrEqual (args : list Value) : StatusOr Value :=
  match args with
  | [a; b] => if is_null a || is_null b then Ok NullBool
              else Ok (SBool (LessThan b a || Equals a b))
  | _ => Err (expects_two $"'>='")
  end.

(** The loop of [DispatchAnd], with the flag it carries. *)
Fixpoint AndLoop (args : list Value) (seen_null : bool) : StatusOr Value :=
  match args with
  | [] => Ok (if seen_null then NullBool else SBool true)
  | v :: args =>
      if is_null v then AndLoop args true
      else if negb (is_kind v TYPE_BOOL)
      then Err (InvalidArgumentError $"semantic: AND argument is not BOOL")
      else if negb (bool_value v) then Ok (SBool false)
      else AndLoop args seen_null
  end.
Definition DispatchAnd (args : list Value) : StatusOr Value := AndLoop args false.

Fixpoint OrLoop (args : list Value) (seen_null : bool) : StatusOr Value :=
  match args with
  | [] => Ok (if seen_null then NullBool else SBool false)
  | v :: args =>
      if is_null v then OrLoop args true
      else if negb (is_kind v TYPE_BOOL)
      then Err (InvalidArgumentError $"semantic: OR argument is not BOOL")
      else if bool_value v then Ok (SBool true)
      else OrLoop args seen_null
  end.
Definition DispatchOr (args : list Value) : StatusOr Value := OrLoop args false.

Definition DispatchNot (args : list Value) : StatusOr Value :=
  match args with
  | [v] => if is_null v then Ok NullBool
           else if negb (is_kind v TYPE_BOOL)
           then Err (InvalidArgumentError $"semantic: NOT argument is not BOOL")
           else Ok (SBool (negb (bool_value v)))
  | _ => Err (expects_one $"NOT")
  end.

Definition DispatchIsNull (args : list Value) (negate : bool) : StatusOr Value :=
  match args with
  | [v] => Ok (SBool (if negate then negb (is_null v) else is_null v))
  | _ => Err (expects_one $"IS [NOT] NULL")
  end.

Fixpoint DispatchCoalesce (args : list Value) (return_type : option SqlType) : StatusOr Value :=
  match args with
  | [] => Ok (NullOfType return_type)
  | v :: args => if negb (is_null v) then Ok v else DispatchCoalesce args return_type
  end.

Definition DispatchIfNull (args : list Value) : StatusOr Value :=
  match args with
  | [a; b] => if negb (is_null a) then Ok a else Ok b
  | _ => Err (expects_two $"IFNULL")
  end.

Definition DispatchNullIf (args : list Value) (return_type : option SqlType) : StatusOr Value :=
  match args with
  | [a; b] => if is_null a || is_null b then Ok a
              else if Equals a b then Ok (NullOfType return_type) else Ok a
  | _ => Err (expects_two $"NULLIF")
  end.

(** [!cond.is_null() && cond.type_kind() == TYPE_BOOL && cond.bool_value()] *)
Definition is_true (cond : Value) : bool :=
  negb (is_null cond) && is_kind cond TYPE_BOOL && bool_value cond.

Definition DispatchIf (args : list Value) : StatusOr Value :=
  match args with
  | [cond; a; b] => if is_true cond then Ok a else Ok b
  | _ => Err (InvalidArgumentError $"semantic: IF expects exactly three arguments")
  end.

(** The ELSE arm, with a null retyped. *)
Definition else_arm (v : Value) (return_type : option SqlType) : Value :=
  if is_null v then NullOfType return_type else v.

(** The loop over the arms; a list of one value is the ELSE arm. *)
Fixpoint CaseWithValueArms (input : Value) (arms : list Value) (return_type : option SqlType)
    : StatusOr Value :=
  match arms with
  | when_ :: then_ :: rest =>
      if is_null input || is_null when_ then CaseWithValueArms input rest return_type
      else if Equals input when_ then Ok then_
      else CaseWithValueArms input rest return_type
  | [e] => Ok (else_arm e return_type)
  | [] => Ok (NullOfType return_type)
  end.

Definition DispatchCaseWithValue (args : list Value) (return_type : option SqlType)
    : StatusOr Value :=
  match args with
  | input :: ((_ :: _) as arms) =>
      if negb (length args mod 2 =? 0) then
        Err (InvalidArgumentError $"semantic: $case_with_value expects an even argument list (input + N when/then pairs + else)")
      else CaseWithValueArms input arms return_type
  | _ => Err (InvalidArgumentError $"semantic: $case_with_value expects an even argument list (input + N when/then pairs + else)")
  end.

Fixpoint CaseNoValueArms (arms : list Value) (return_type : option SqlType) : StatusOr Value :=
  match arms with
  | cond :: then_ :: rest =>
      if is_true cond then Ok then_ else CaseNoValueArms rest return_type
  | [e] => Ok (else_arm e return_type)
  | [] => Ok (NullOfType return_type)
  end.

Definition DispatchCaseNoValue (args : list Value) (return_type : option SqlType)
    : StatusOr Value :=
  if (length args mod 2 =? 0) then
    Err (InvalidArgumentError $"semantic: $case_no_value expects an odd argument list (N cond/then pairs + else)")
  else CaseNoValueArms args return_type.

Definition WrapSafe (result : StatusOr Value) (return_type : option SqlType) : StatusOr Value :=
  match result with
  | Ok _ => result
  | Err s =>
      match GetSemanticErrorReason (Some s) with
      | rOverflow | rDivisionByZero => Ok (NullOfType return_type)
      | _ => result
      end
  end.
End arithmetic.

(** A null of a supported type has that type. *)
Lemma NullOfType_has_type `{GoogleSql} t :
  supported t = true -> has_type (NullOfType (Some t)) t = true.
Proof. destruct t; try done; intros _; by apply bool_decide_eq_true. Qed.

(** ** Types of results *)

Section result_types.
Context `{GoogleSql}.

(** A value an outcome returns has the type. *)
Definition ok_has (t : SqlType) (r : StatusOr Value) : Prop :=
  forall v, r = Ok v -> has_type v t = true.

Lemma ok_has_Ok t v : has_type v t = true -> ok_has t (Ok v).
Proof. by intros HT w [= <-]. Qed.
Lemma ok_has_Err t e : ok_has t (Err e).
Proof. by intros w. Qed.
Lemma ok_has_bind {A} t (m : StatusOr A) f : (forall a, m = Ok a -> ok_has t (f a)) -> ok_has t (m ≫= f).
Proof. intros F. destruct m; [by apply F|apply ok_has_Err]. Qed.
Lemma ok_has_fmap {A} t (m : StatusOr A) (f : A -> Value) :
  (forall a, has_type (f a) t = true) -> ok_has t (f <$> m).
Proof. intros F. destruct m; [by apply ok_has_Ok|apply ok_has_Err]. Qed.

End result_types.

(** Follow the branches of an outcome to the values it returns. *)
Ltac ok_type :=
  repeat first
    [ apply ok_has_Err
    | (apply ok_has_Ok; first [assumption | by apply bool_decide_eq_true])
    | (apply ok_has_fmap; intros; by apply bool_decide_eq_true)
    | (apply ok_has_bind; intros)
    | (case_match; simplify_eq) ].

(** ** Checked INT64 arithmetic *)

Inductive IntOp := OpAdd | OpSub | OpMul.

Section arithmetic_theorems.
Context `{AbslText, AbslDouble, GoogleSqlOps}.

Definition int_dispatch (op : IntOp) : list Value -> option SqlType -> StatusOr Value :=
  match op with OpAdd => DispatchAdd | OpSub => DispatchSub | OpMul => DispatchMul end.

Definition int_exact (op : IntOp) (a b : Z) : Z :=
  match op with OpAdd => a + b | OpSub => a - b | OpMul => a * b end.

Lemma int64_overflows_spec r : int64_overflows r = false <-> in_int64 r.
Proof. unfold int64_overflows, in_int64. rewrite orb_false_iff, !Z.ltb_ge. lia. Qed.

Lemma int_dispatch_cases op a b rt :
  int_dispatch op [SInt64 a; SInt64 b] rt =
    if int64_overflows (int_exact op a b)
    then Err (int64_overflow_error a b
           match op with OpAdd => $" + " | OpSub => $" - " | OpMul => $" * " end)
    else Ok (SInt64 (int_exact op a b)).
Proof. by destruct op. Qed.

(** C24: the INT64 operators return the exact result when it fits 64 bits,
    an overflow error otherwise and null in their SAFE form; negation is
    subtraction from zero, refused for the smallest integer. *)
Theorem int64_arithmetic_exact op a b rt :
  (in_int64 (int_exact op a b) ->
     int_dispatch op [SInt64 a; SInt64 b] rt = Ok (SInt64 (int_exact op a b)) /\
     WrapSafe (int_dispatch op [SInt64 a; SInt64 b] rt) rt = Ok (SInt64 (int_exact op a b))) /\
  (~ in_int64 (int_exact op a b) ->
     (exists e, int_dispatch op [SInt64 a; SInt64 b] rt = Err e /\
                GetSemanticErrorReason (Some e) = rOverflow) /\
     WrapSafe (int_dispatch op [SInt64 a; SInt64 b] rt) rt = Ok (NullOfType rt)) /\
  (in_int64 a -> DispatchUnaryMinus [SInt64 a] rt =
     int_dispatch OpSub [SInt64 0; SInt64 a] rt \/
     a = int64_min /\ WrapSafe (DispatchUnaryMinus [SInt64 a] rt) rt = Ok (NullOfType rt)).
Proof.
  rewrite !int_dispatch_cases. split_and!.
  - intros R. apply int64_overflows_spec in R. by rewrite R.
  - intros R. destruct (int64_overflows (int_exact op a b)) eqn:O.
    + split; [by eexists|done].
    + by apply int64_overflows_spec in O.
  - intros Ha. unfold DispatchUnaryMinus, UnaryMinus. cbn [is_null int_exact].
    destruct (Z.eqb_spec a int64_min) as [->|N]; [by right|left].
    rewrite (proj2 (int64_overflows_spec (0 - a))); [done|].
    unfold in_int64, int64_min, int64_max in *. lia.
Qed.

(** ** Three-valued logic *)

Definition tri (v : Value) : option bool := match v with SBool b => Some b | _ => None end.
Definition of_tri (o : option bool) : Value :=
  match o with Some b => SBool b | None => NullBool end.

Definition kleene_and (a b : option bool) : option bool :=
  match a, b with
  | Some false, _ | _, Some false => Some false
  | Some true, Some true => Some true
  | _, _ => None
  end.
Definition kleene_or (a b : option bool) : option bool :=
  match a, b with
  | Some true, _ | _, Some true => Some true
  | Some false, Some false => Some false
  | _, _ => None
  end.

(** A BOOL, or a null of any type. *)
Definition boolean (v : Value) : bool :=
  match v with SBool _ | SNull _ => true | _ => false end.

Lemma AndLoop_kleene args seen :
  forallb boolean args = true ->
  AndLoop args seen =
    Ok (of_tri (kleene_and (if seen then None else Some true)
                  (foldr kleene_and (Some true) (map tri args)))).
Proof.
  revert seen. induction args as [|v args IH]; intros seen F; [by destruct seen|].
  cbn [forallb] in F. apply andb_true_iff in F as [B F]. cbn [AndLoop map foldr].
  destruct v as [|t|b| | | | | | | | | | | | | | | | | | | |]; try done; cbn [is_null tri].
  - rewrite IH by done. by destruct seen, (foldr _ _ _) as [[]|].
  - destruct b; cbn [bool_value negb]; [|by destruct seen].
    change (is_kind (SBool true) TYPE_BOOL) with true. cbn [negb]. rewrite IH by done.
    by destruct seen, (foldr _ _ _) as [[]|].
Qed.

Lemma OrLoop_kleene args seen :
  forallb boolean args = true ->
  OrLoop args seen =
    Ok (of_tri (kleene_or (if seen then None else Some false)
                  (foldr kleene_or (Some false) (map tri args)))).
Proof.
  revert seen. induction args as [|v args IH]; intros seen F; [by destruct seen|].
  cbn [forallb] in F. apply andb_true_iff in F as [B F]. cbn [OrLoop map foldr].
  destruct v as [|t|b| | | | | | | | | | | | | | | | | | | |]; try done; cbn [is_null tri].
  - rewrite IH by done. by destruct seen, (foldr _ _ _) as [[]|].
  - change (is_kind (SBool b) TYPE_BOOL) with true. cbn [negb].
    destruct b; cbn [bool_value]; [by destruct seen|]. rewrite IH by done.
    by destruct seen, (foldr _ _ _) as [[]|].
Qed.

Lemma de_morgan l :
  option_map negb (foldr kleene_and (Some true) l) =
  foldr kleene_or (Some false) (map (option_map negb) l).
Proof.
  induction l as [|x l IH]; [done|]. cbn [foldr map]. rewrite <- IH.
  by destruct x as [[]|], (foldr _ _ l) as [[]|].
Qed.

Lemma foldr_perm {A B} (f : A -> B -> B) (e : B) l l' :
  (forall a b c, f a (f b c) = f b (f a c)) -> l ≡ₚ l' -> foldr f e l = foldr f e l'.
Proof. intros C P. induction P; simpl; congruence. Qed.

Lemma boolean_perm args args' :
  args' ≡ₚ args -> forallb boolean args = true -> forallb boolean args' = true.
Proof. rewrite !forallb_forall. intros P F v Hv. apply F. by rewrite <- P. Qed.

Lemma DispatchAnd_kleene args :
  forallb boolean args = true ->
  DispatchAnd args = Ok (of_tri (foldr kleene_and (Some true) (map tri args))).
Proof.
  intros F. unfold DispatchAnd. rewrite AndLoop_kleene by done.
  by destruct (foldr _ _ _) as [[]|].
Qed.

Lemma DispatchOr_kleene args :
  forallb boolean args = true ->
  DispatchOr args = Ok (of_tri (foldr kleene_or (Some false) (map tri args))).
Proof.
  intros F. unfold DispatchOr. rewrite OrLoop_kleene by done.
  by destruct (foldr _ _ _) as [[]|].
Qed.

Lemma DispatchNot_tri v :
  boolean v = true -> DispatchNot [v] = Ok (of_tri (option_map negb (tri v))).
Proof. by destruct v. Qed.

Lemma boolean_of_tri l : forallb boolean (map of_tri l) = true.
Proof. induction l as [|[]]; done. Qed.

Lemma tri_of_tri l : map tri (map of_tri l) = l.
Proof. induction l as [|[] l IH]; simpl; congruence. Qed.

(** AND, OR and NOT over BOOL values are Kleene's connectives, satisfy De
    Morgan's law and do not depend on the order of the operands. *)
Theorem logic_is_kleene args :
  forallb boolean args = true ->
  DispatchAnd args = Ok (of_tri (foldr kleene_and (Some true) (map tri args))) /\
  DispatchOr args = Ok (of_tri (foldr kleene_or (Some false) (map tri args))) /\
  (exists v ns, DispatchAnd args = Ok v /\
     Forall2 (fun a n => DispatchNot [a] = Ok n) args ns /\ DispatchOr ns = DispatchNot [v]) /\
  (forall args', args' ≡ₚ args ->
     DispatchAnd args' = DispatchAnd args /\ DispatchOr args' = DispatchOr args).
Proof.
  intros F. pose proof (DispatchAnd_kleene args F) as A.
  split_and!; [done|by apply DispatchOr_kleene|..].
  - eexists _, (map of_tri (map (option_map negb) (map tri args))). split_and!; [done|..].
    + clear A. induction args as [|v args IH]; [constructor|].
      cbn [forallb] in F. apply andb_true_iff in F as [B F].
      constructor; [by apply DispatchNot_tri|by apply IH].
    + rewrite DispatchOr_kleene, tri_of_tri, <- de_morgan by apply boolean_of_tri.
      by destruct (foldr _ _ _) as [[]|].
  - intros args' P. pose proof (boolean_perm _ _ P F).
    rewrite !DispatchAnd_kleene, !DispatchOr_kleene by done.
    split; do 2 f_equal; apply foldr_perm; try (by apply Permutation_map);
      by intros [[]|] [[]|] [[]|].
Qed.
End arithmetic_theorems.
