(* ===== verification/Operators.v ===== *)
(** * Operators: the operator functions of the semantic executor

    Models [backend/engine/semantic/functions/operator_funcs.cc] (LIKE, BETWEEN,
    the IS tests, the bitwise operators on INT64 and BYTES, the INTERVAL
    constructor), [operator_in.cc] (IN) and [numeric_edges.cc] (BIT_COUNT,
    IEEE_DIVIDE). *)

From S2P Require Import Prelude Absl AbslReference Storage SemanticError SqlValue Arithmetic.

(** ** LIKE

    The matcher of [SqlLikeMatch] keeps an index into the value, one into the
    pattern, and the two indices of the last [%] it passed ([star_vi] and
    [star_pi], both -1 before the first one: [None]). *)
Record LikeState := mkLike { vi : nat; pi : nat; star : option (nat * nat) }.

Inductive LikeStep :=
| LikeContinue (s : LikeState)
| LikeReturn (b : bool).

Definition at_byte (s : str) (i : nat) (c : ascii) : bool := bool_decide (s !! i = Some c).

(** One iteration of the first loop. *)
Definition like_step (value pattern : str) (s : LikeState) : LikeStep :=
  match value !! vi s with
  | None => LikeReturn (forallb (Ascii.eqb "%") (drop (pi s) pattern))
  | Some c =>
      if at_byte pattern (pi s) c || at_byte pattern (pi s) "_" then
        LikeContinue (mkLike (vi s + 1) (pi s + 1) (star s))
      else if at_byte pattern (pi s) "%" then
        LikeContinue (mkLike (vi s) (pi s + 1) (Some (vi s, pi s)))
      else match star s with
           | Some (star_vi, star_pi) =>
               LikeContinue (mkLike (star_vi + 1) (star_pi + 1) (Some (star_vi + 1, star_pi)))
           | None => LikeReturn false
           end
  end.

(** The loop, for at most [fuel] iterations; [None] when they do not suffice. *)
Fixpoint like_loop (fuel : nat) (value pattern : str) (s : LikeState) : option bool :=
  match fuel with
  | O => None
  | S fuel =>
      match like_step value pattern s with
      | LikeReturn b => Some b
      | LikeContinue s => like_loop fuel value pattern s
      end
  end.

Definition like_start : LikeState := mkLike 0 0 None.

(** The number of iterations that always suffices. *)
Definition like_fuel (value pattern : str) : nat :=
  (length pattern + 1) * ((length value + 1) * (length pattern + 1)) + 1.

(** The answer of the loop; [like_terminates] shows that the default is never
    taken. *)
Definition SqlLikeMatch (value pattern : str) : bool :=
  default false (like_loop (like_fuel value pattern) value pattern like_start).

(** ** Bit strings of BYTES *)

Definition bit_char (c : ascii) (b : Z) : ascii :=
  if Z.testbit (byteval c) b then "1"%char else "0"%char.

Definition byte_bits (c : ascii) : str := map (bit_char c) [7; 6; 5; 4; 3; 2; 1; 0]%Z.

Definition BytesToBitString (bytes : str) : str := mjoin (map byte_bits bytes).

(** [while (padded.size() % 8 != 0)] puts a zero in front: the number of zeros
    that completes the last byte. *)
Definition pad_bits (bits : str) : str :=
  replicate ((8 - length bits mod 8) mod 8) "0"%char ++ bits.

Definition bits_byte (bits : str) : ascii :=
  byteof (fold_left (fun byte c => (Z.lor (Z.shiftl byte 1) (if Ascii.eqb c "1" then 1 else 0)) mod 256)%Z
            bits 0%Z).

Fixpoint pack_bits (n : nat) (bits : str) : str :=
  match n with
  | O => []
  | S n => bits_byte (take 8 bits) :: pack_bits n (drop 8 bits)
  end.

Definition BitStringToBytes (bits : str) : str :=
  match bits with
  | [] => []
  | _ => let padded := pad_bits bits in pack_bits (length padded / 8) padded
  end.

(** [bits.substr(bits.find('1'))]; [None] is [npos]. *)
Fixpoint from_first_one (bits : str) : option str :=
  match bits with
  | [] => None
  | c :: rest => if Ascii.eqb c "1" then Some bits else from_first_one rest
  end.

Definition shift_out_of_range : Status :=
  MakeSemanticError rInvalidArgument $"semantic: shift count out of range".

Definition ShiftBytesRight (bytes : str) (shift_bits : Z) : StatusOr str :=
  if (shift_bits <? 0)%Z then Err shift_out_of_range
  else if bool_decide (bytes = []) || (shift_bits =? 0)%Z then Ok bytes
  else
    let bits := BytesToBitString bytes in
    if (Z.of_nat (length bits) <=? shift_bits)%Z then Ok []
    else match from_first_one (take (length bits - Z.to_nat shift_bits) bits) with
         | None => Ok [byteof 0]
         | Some kept => Ok (BitStringToBytes kept)
         end.

(** Bytes are combined from the last one; the shorter operand is extended with
    zero bytes in front. *)
Definition byte_from_end (s : str) (i : nat) : Z :=
  if (i <? length s)%nat then
    match s !! (length s - 1 - i) with Some c => byteval c | None => 0 end
  else 0.

Definition AndBytes (a b : str) : str :=
  let n := Nat.max (length a) (length b) in
  map (fun i => byteof (Z.land (byte_from_end a (n - 1 - i)) (byte_from_end b (n - 1 - i))))
    (seq 0 n).

Section operators.
Context `{AbslText, AbslDouble, GoogleSqlOps}.

Definition RequireInt64 (v : Value) (op : str) : StatusOr Z :=
  if negb (is_kind v TYPE_INT64) then
    Err (InvalidArgumentError ($"semantic: " ++ op ++ $" requires INT64 operands"))
  else Ok (int64_value v).

(** [static_cast<int>] of an [int64_t]. *)
Definition int32_of (z : Z) : Z := (z + 2 ^ 31) mod 2 ^ 32 - 2 ^ 31.

Definition invalid_part (n : Z) : Status :=
  InvalidArgumentError ($"semantic: invalid DateTimestampPart enum value " ++ StrInt n).

Definition PartFromArg (v : Value) : StatusOr Z :=
  match type_kind v with
  | TYPE_INT64 =>
      let part_int := int32_of (int64_value v) in
      if Part_IsValid part_int then Ok part_int else Err (invalid_part (int64_value v))
  | TYPE_STRING =>
      match Part_Parse (string_value v) with
      | Some part => Ok part
      | None => Err (InvalidArgumentError
                  ($"semantic: unknown interval part '" ++ string_value v ++ $"'"))
      end
  | TYPE_ENUM =>
      let part_int := enum_value v in
      if Part_IsValid part_int then Ok part_int else Err (invalid_part part_int)
  | _ => Err (InvalidArgumentError
           ($"semantic: interval part must be INT64 enum or STRING name; got "
              ++ DebugString (type_of v)))
  end.

Definition DispatchLike (name : str) (args : list Value) : StatusOr Value :=
  match args with
  | [a; b] =>
      if is_null a || is_null b then Ok NullBool
      else if negb (is_kind a TYPE_STRING) || negb (is_kind b TYPE_STRING)
      then Err (InvalidArgumentError $"semantic: LIKE requires STRING arguments")
      else
        let matched := SqlLikeMatch (string_value a) (string_value b) in
        Ok (SBool (if bool_decide (name = $"$not_like") then negb matched else matched))
  | _ => Err (expects_two $"LIKE")
  end.

Definition TryParseIsoDateString (v : Value) : option Value :=
  if negb (is_kind v TYPE_STRING) then None
  else match ParseStringToDate $"%Y-%m-%d" (string_value v) with
       | Ok date => Some (SDate date)
       | Err _ => None
       end.

Definition same_type (a b : Value) : bool := bool_decide (type_of a = type_of b).

(** The operand that is compared: a STRING between two DATEs is read as a date. *)
Definition between_operand (value low high : Value) : Value :=
  if negb (same_type value low) || negb (same_type value high) then
    if is_kind value TYPE_STRING && is_kind low TYPE_DATE && is_kind high TYPE_DATE then
      match TryParseIsoDateString value with Some parsed => parsed | None => value end
    else value
  else value.

Definition DispatchBetween (name : str) (args : list Value) : StatusOr Value :=
  match args with
  | [value; low; high] =>
      if is_null value || is_null low || is_null high then Ok NullBool
      else
        let value := between_operand value low high in
        if negb (same_type value low) || negb (same_type value high)
        then Err (InvalidArgumentError $"semantic: BETWEEN operands have mismatched types")
        else
          let in_range := (LessThan low value || Equals low value) &&
                          (LessThan value high || Equals value high) in
          Ok (SBool (if bool_decide (name = $"$not_between") then negb in_range else in_range))
  | _ => Err (InvalidArgumentError $"semantic: BETWEEN expects exactly three arguments")
  end.

Definition DispatchIsTrue (name : str) (args : list Value) : StatusOr Value :=
  match args with
  | [v] =>
      if negb (is_kind v TYPE_BOOL)
      then Err (InvalidArgumentError $"semantic: IS TRUE requires BOOL argument")
      else if is_null v then
        if bool_decide (name = $"$is_not_true") then Ok (SBool true) else Ok NullBool
      else Ok (SBool (if bool_decide (name = $"$is_true") then bool_value v
                      else negb (bool_value v)))
  | _ => Err (expects_one $"IS TRUE")
  end.

Definition DispatchIsFalse (name : str) (args : list Value) : StatusOr Value :=
  match args with
  | [v] =>
      if negb (is_kind v TYPE_BOOL)
      then Err (InvalidArgumentError $"semantic: IS FALSE requires BOOL argument")
      else if is_null v then
        if bool_decide (name = $"$is_not_false") then Ok (SBool true) else Ok NullBool
      else Ok (SBool (if bool_decide (name = $"$is_false") then negb (bool_value v)
                      else bool_value v))
  | _ => Err (expects_one $"IS FALSE")
  end.

Definition DispatchIsDistinctFrom (name : str) (args : list Value) : StatusOr Value :=
  match args with
  | [a; b] =>
      let distinct :=
        if is_null a && is_null b then false
        else if is_null a || is_null b then true
        else negb (Equals a b) in
      Ok (SBool (if bool_decide (name = $"$is_not_distinct_from") then negb distinct else distinct))
  | _ => Err (expects_two $"IS [NOT] DISTINCT FROM")
  end.

(** ** Bitwise operators *)

Definition DispatchBitwiseNot (name : str) (args : list Value) : StatusOr Value :=
  match args with
  | [a] => if is_null a then Ok NullInt64
           else v ← RequireInt64 a name; Ok (SInt64 (Z.lnot v))
  | _ => Err (expects_one $"bitwise NOT")
  end.

Definition DispatchBitwiseBytesBinary (name : str) (a b : Value) : StatusOr Value :=
  if bool_decide (name = $"$bitwise_and") && is_kind a TYPE_BYTES && is_kind b TYPE_BYTES then
    Ok (SBytes (AndBytes (bytes_value a) (bytes_value b)))
  else if bool_decide (name = $"$bitwise_right_shift") && is_kind a TYPE_BYTES
            && is_kind b TYPE_INT64 then
    shift ← RequireInt64 b name; out ← ShiftBytesRight (bytes_value a) shift; Ok (SBytes out)
  else Err (InvalidArgumentError
         ($"semantic: " ++ name ++ $" does not support these BYTES operand types")).

(** [static_cast<int64_t>] of a [uint64_t] is [wrap_int64]. *)
Definition DispatchBitwiseInt64Binary (name : str) (a b : Z) : StatusOr Value :=
  if bool_decide (name = $"$bitwise_and") then Ok (SInt64 (Z.land a b))
  else if bool_decide (name = $"$bitwise_or") then Ok (SInt64 (Z.lor a b))
  else if bool_decide (name = $"$bitwise_xor") then Ok (SInt64 (Z.lxor a b))
  else if bool_decide (name = $"$bitwise_left_shift") then
    if (b <? 0)%Z then Err shift_out_of_range
    else if (64 <=? b)%Z then Ok (SInt64 0)
    else Ok (SInt64 (wrap_int64 (u64 (Z.shiftl (u64 a) b))))
  else if bool_decide (name = $"$bitwise_right_shift") then
    if (b <? 0)%Z then Err shift_out_of_range
    else if (64 <=? b)%Z then Ok (SInt64 0)
    else Ok (SInt64 (wrap_int64 (Z.shiftr (u64 a) b)))
  else Err (InvalidArgumentError ($"semantic: unknown bitwise operator " ++ name)).

Definition DispatchBitwise (name : str) (args : list Value) : StatusOr Value :=
  if bool_decide (name = $"$bitwise_not") then DispatchBitwiseNot name args
  else match args with
  | [a; b] =>
      if is_null a || is_null b then
        Ok (if is_kind a TYPE_BYTES || is_kind b TYPE_BYTES then NullBytes else NullInt64)
      else if is_kind a TYPE_BYTES || is_kind b TYPE_BYTES then DispatchBitwiseBytesBinary name a b
      else x ← RequireInt64 a name; y ← RequireInt64 b name; DispatchBitwiseInt64Binary name x y
  | _ => Err (expects_two name)
  end.

(** ** INTERVAL *)

Definition DispatchInterval (args : list Value) : StatusOr Value :=
  match args with
  | [a; b] =>
      if is_null a || is_null b then Ok NullInterval
      else if is_kind a TYPE_INTERVAL then Ok a
      else
        amount_part ←
          match PartFromArg a, PartFromArg b with
          | Ok part0, Err _ => amount ← RequireInt64 b $"$interval"; Ok (amount, part0)
          | Err _, Ok part1 => amount ← RequireInt64 a $"$interval"; Ok (amount, part1)
          | Ok part0, Ok part1 =>
              if is_kind a TYPE_INT64 && (is_kind b TYPE_ENUM || is_kind b TYPE_STRING)
              then Ok (int64_value a, part1)
              else if is_kind b TYPE_INT64 && (is_kind a TYPE_ENUM || is_kind a TYPE_STRING)
              then Ok (int64_value b, part0)
              else Err (InvalidArgumentError
                     $"semantic: $interval arguments are ambiguous (two part specifiers)")
          | Err _, Err _ =>
              Err (InvalidArgumentError
                ($"semantic: $interval could not interpret arguments (" ++ DebugString (type_of a)
                   ++ $", " ++ DebugString (type_of b) ++ $")"))
          end;
        SInterval <$> Interval_FromInteger amount_part.1 amount_part.2
  | _ => Err (expects_two $"$interval")
  end.

(** The result of GoogleSQL is dereferenced without a test: [None] is the abort
    of the process when it is an error. *)
Definition JustifyDays (args : list Value) : option (StatusOr Value) :=
  match args with
  | [v] =>
      if is_null v then Some (Ok NullInterval)
      else match v with
           | SInterval i =>
               match gsql_JustifyDays i with Ok j => Some (Ok (SInterval j)) | Err _ => None end
           | _ => Some (Err (InvalidArgumentError
                    $"semantic: JUSTIFY_DAYS requires INTERVAL argument"))
           end
  | _ => Some (Err (expects_one $"JUSTIFY_DAYS"))
  end.

Definition JustifyHours (args : list Value) : option (StatusOr Value) :=
  match args with
  | [v] =>
      if is_null v then Some (Ok NullInterval)
      else match v with
           | SInterval i =>
               match gsql_JustifyHours i with Ok j => Some (Ok (SInterval j)) | Err _ => None end
           | _ => Some (Err (InvalidArgumentError
                    $"semantic: JUSTIFY_HOURS requires INTERVAL argument"))
           end
  | _ => Some (Err (expects_one $"JUSTIFY_HOURS"))
  end.

(** ** IN *)

Fixpoint InLoop (name : str) (lhs : Value) (rhs : list Value) (saw_null_rhs : bool) : Value :=
  match rhs with
  | [] => if saw_null_rhs then NullBool else SBool (bool_decide (name = $"$not_in"))
  | v :: rhs =>
      if is_null v then InLoop name lhs rhs true
      else if Equals lhs v then SBool (negb (bool_decide (name = $"$not_in")))
      else InLoop name lhs rhs saw_null_rhs
  end.

Definition DispatchIn (name : str) (args : list Value) : StatusOr Value :=
  match args with
  | lhs :: ((_ :: _) as rhs) => if is_null lhs then Ok NullBool else Ok (InLoop name lhs rhs false)
  | _ => Err (InvalidArgumentError $"semantic: IN expects at least two arguments")
  end.

(** ** BIT_COUNT and IEEE_DIVIDE *)

(** [std::bitset<n>(bits).count()] *)
Fixpoint popcount (n : nat) (bits : Z) : Z :=
  match n with
  | O => 0
  | S n => (if Z.testbit bits (Z.of_nat n) then 1 else 0) + popcount n bits
  end.

Definition BitCount (args : list Value) : StatusOr Value :=
  match args with
  | [v] =>
      if is_null v then Ok NullInt64
      else match v with
           | SBytes s => Ok (SInt64 (fold_left (fun count c => count + popcount 8 (byteval c))%Z s 0%Z))
           | SInt64 z => Ok (SInt64 (popcount 64 (u64 z)))
           | _ => Err (MakeSemanticError rInvalidArgument
                    ($"semantic: BIT_COUNT requires INT64 or BYTES, got " ++ DebugString (type_of v)))
           end
  | _ => Err (expects_one $"BIT_COUNT")
  end.

Definition IeeeDivide (args : list Value) : StatusOr Value :=
  match args with
  | [a; b] =>
      if is_null a || is_null b then Ok NullDouble
      else match a, b with
           | SDouble x, SDouble y => Ok (SDouble (dbl_div x y))
           | _, _ => Err (MakeSemanticError rInvalidArgument
                       ($"semantic: IEEE_DIVIDE requires FLOAT64 operands, got ("
                          ++ DebugString (type_of a) ++ $", " ++ DebugString (type_of b) ++ $")"))
           end
  | _ => Err (expects_two $"IEEE_DIVIDE")
  end.
End operators.

(** ** The LIKE matcher terminates

    Every iteration raises the last [%] passed, or, for the same [%], where its
    text is taken to end, or, for the same end, the position in the pattern. *)

Definition like_wf (value pattern : str) (s : LikeState) : Prop :=
  vi s <= length value /\ pi s <= length pattern /\
  match star s with
  | None => vi s = pi s
  | Some (sv, sp) => sp < pi s /\ vi s = sv + (pi s - sp - 1)
  end.

Definition like_measure (value pattern : str) (s : LikeState) : nat :=
  let sp := match star s with Some (_, sp) => sp + 1 | None => 0 end in
  let sv := match star s with Some (sv, _) => sv | None => 0 end in
  (length pattern - sp) * ((length value + 1) * (length pattern + 1)) +
  (length value - sv) * (length pattern + 1) + (length pattern - pi s).

Lemma at_byte_lt s i c : at_byte s i c = true -> i < length s.
Proof. unfold at_byte. intros E%bool_decide_eq_true. by eapply lookup_lt_Some. Qed.

Lemma like_star_measure (L K sp v sv p : nat) :
  sp <= p -> p < L ->
  (L - (p + 1)) * ((K + 1) * (L + 1)) + (K - v) * (L + 1) + (L - (p + 1)) <
  (L - sp) * ((K + 1) * (L + 1)) + sv * (L + 1) + (L - p).
Proof.
  intros Hs Hp. assert (L - sp = (L - (p + 1)) + 1 + (p - sp)) as -> by lia.
  assert ((K - v) * (L + 1) <= K * (L + 1)) by (apply Nat.mul_le_mono_r; lia).
  assert ((K + 1) * (L + 1) = K * (L + 1) + (L + 1)) as HW by lia.
  remember ((K + 1) * (L + 1)) as W. rewrite !(Nat.mul_add_distr_r _ _ W), Nat.mul_1_l.
  pose proof (Nat.le_0_l (sv * (L + 1))). pose proof (Nat.le_0_l ((p - sp) * W)). lia.
Qed.

Lemma like_step_progress value pattern s s' :
  like_wf value pattern s -> like_step value pattern s = LikeContinue s' ->
  like_wf value pattern s' /\ like_measure value pattern s' < like_measure value pattern s.
Proof.
  unfold like_step, like_wf, like_measure. destruct s as [v p st]; simpl.
  destruct (value !! v) as [c|] eqn:V; [|done]. apply lookup_lt_Some in V.
  intros (Hv & Hp & Hst).
  destruct (at_byte pattern p c || at_byte pattern p "_") eqn:M.
  { intros E. injection E as <-; simpl.
    assert (p < length pattern) by (apply orb_true_iff in M as [M|M]; eauto using at_byte_lt).
    destruct st as [[sv sp]|]; split; lia. }
  destruct (at_byte pattern p "%") eqn:P.
  { apply at_byte_lt in P. intros E. injection E as <-; simpl.
    split; [destruct st as [[sv sp]|]; lia|].
    apply like_star_measure; [|lia]. destruct st as [[sv sp]|]; lia. }
  destruct st as [[sv sp]|]; [|done]. intros E. injection E as <-; simpl.
  split; [lia|].
  assert (length value - sv = (length value - (sv + 1)) + 1) as -> by lia. lia.
Qed.

Lemma like_loop_enough fuel value pattern s :
  like_wf value pattern s -> like_measure value pattern s < fuel ->
  exists b, forall extra, like_loop (fuel + extra) value pattern s = Some b.
Proof.
  revert s. induction fuel as [|fuel IH]; intros s W M; [lia|]. simpl.
  destruct (like_step value pattern s) as [s'|b] eqn:E; [|by exists b].
  destruct (like_step_progress _ _ _ _ W E). apply IH; [done|lia].
Qed.

Lemma like_start_wf value pattern : like_wf value pattern like_start.
Proof. unfold like_wf; simpl; lia. Qed.

Lemma like_start_measure value pattern :
  like_measure value pattern like_start < like_fuel value pattern.
Proof. unfold like_measure, like_fuel; simpl. nia. Qed.

Lemma like_loop_result value pattern fuel :
  like_fuel value pattern <= fuel ->
  like_loop fuel value pattern like_start = Some (SqlLikeMatch value pattern).
Proof.
  intros F. unfold SqlLikeMatch.
  destruct (like_loop_enough (like_fuel value pattern) value pattern like_start) as [b B];
    auto using like_start_wf, like_start_measure.
  rewrite <- (Nat.add_0_r (like_fuel _ _)), (B 0). simpl.
  replace fuel with (like_fuel value pattern + (fuel - like_fuel value pattern)) by lia. apply B.
Qed.

(** ** What LIKE means

    [%] stands for any text, [_] for one byte, every other byte for itself. *)
Inductive like_matches : str -> str -> Prop :=
| like_nil : like_matches [] []
| like_any u v p : like_matches v p -> like_matches (u ++ v) ("%"%char :: p)
| like_one d v p : like_matches v p -> like_matches (d :: v) ("_"%char :: p)
| like_char c v p : c <> "%"%char -> c <> "_"%char -> like_matches v p ->
    like_matches (c :: v) (c :: p).

Lemma like_any_iff v p :
  like_matches v ("%"%char :: p) <-> exists k, k <= length v /\ like_matches (drop k v) p.
Proof.
  split.
  - intros L. inversion L as [|u v' p' L'| |]; subst; [|congruence].
    exists (length u). rewrite drop_app_length, length_app. split; [lia|done].
  - intros (k & _ & L). rewrite <- (take_drop k v). by constructor.
Qed.

Lemma like_cons_iff d v c p :
  c <> "%"%char ->
  like_matches (d :: v) (c :: p) <-> (c = d \/ c = "_"%char) /\ like_matches v p.
Proof.
  intros N. split.
  - intros L. inversion L; subst; auto; congruence.
  - intros [[->| ->] L]; [|by constructor]. destruct (decide (d = "_"%char)) as [->|]; by constructor.
Qed.

Lemma like_nil_r v : like_matches v [] <-> v = [].
Proof. split; [inversion 1; done|intros ->; constructor]. Qed.

Lemma like_nil_l p : like_matches [] p <-> forallb (Ascii.eqb "%") p = true.
Proof.
  induction p as [|c p IH]; cbn [forallb].
  - split; [done|constructor].
  - destruct (Ascii.eqb_spec "%" c) as [<-|N]; cbn [andb].
    + rewrite like_any_iff, <- IH. split.
      * intros (k & _ & L). by rewrite drop_nil in L.
      * intros L. by exists 0.
    + split; [|done]. intros L. inversion L; congruence.
Qed.

(** A part of the pattern without [%] is matched byte by byte. *)
Lemma like_segment q p v :
  Forall (.≠ "%"%char) q -> like_matches v (q ++ p) ->
  length q <= length v /\ like_matches (drop (length q) v) p.
Proof.
  revert v. induction q as [|c q IH]; intros v F L; simpl.
  - split; [lia|]. by rewrite drop_0.
  - apply Forall_cons in F as [N F]. destruct v as [|d v]; [inversion L; congruence|].
    simpl in L. rewrite like_cons_iff in L by done. destruct (IH v F (proj2 L)).
    simpl. split; [lia|done].
Qed.

Section like_correct.
Context (value pattern : str).
Hypothesis no_percent : "%"%char ∉ value.

(** The matches still possible: the current attempt, or a later end for the
    text the last [%] stands for. *)
Definition like_pending (s : LikeState) : Prop :=
  like_matches (drop (vi s) value) (drop (pi s) pattern) \/
  match star s with
  | None => False
  | Some (sv, sp) => exists k, sv < k <= length value /\
                     like_matches (drop k value) (drop (sp + 1) pattern)
  end.

Definition like_inv (s : LikeState) : Prop :=
  like_wf value pattern s /\
  match star s with
  | None => True
  | Some (_, sp) => Forall (.≠ "%"%char) (take (pi s - sp - 1) (drop (sp + 1) pattern))
  end /\
  (like_matches value pattern <-> like_pending s).

Lemma segment_split n m : n <= m ->
  drop n pattern = take (m - n) (drop n pattern) ++ drop m pattern.
Proof.
  intros L. rewrite <- (take_drop (m - n) (drop n pattern)) at 1.
  rewrite drop_drop. by replace (n + (m - n)) with m by lia.
Qed.

(** A later attempt matches the segment too, and then what follows it. *)
Lemma later_attempt s sv sp k :
  like_wf value pattern s -> star s = Some (sv, sp) ->
  Forall (.≠ "%"%char) (take (pi s - sp - 1) (drop (sp + 1) pattern)) ->
  sv < k <= length value -> like_matches (drop k value) (drop (sp + 1) pattern) ->
  exists j, vi s < j <= length value /\ like_matches (drop j value) (drop (pi s) pattern).
Proof.
  intros (Hv & Hp & Hst) E F Hk L. rewrite E in Hst. destruct Hst as [Hlt Heq].
  rewrite (segment_split (sp + 1) (pi s)) in L by lia.
  replace (pi s - (sp + 1)) with (pi s - sp - 1) in L by lia.
  apply like_segment in L as [Hl L]; [|done].
  rewrite length_take, !length_drop in Hl. rewrite length_take, length_drop, drop_drop in L.
  rewrite Nat.min_l in Hl, L by lia.
  exists (k + (pi s - sp - 1)). split; [lia|done].
Qed.

Lemma at_byte_drop t i c : at_byte t i c = true <-> exists r, drop i t = c :: r.
Proof.
  unfold at_byte. rewrite bool_decide_eq_true. split.
  - intros E. exists (drop (S i) t). by apply drop_S.
  - intros [r E]. rewrite <- (Nat.add_0_r i), <- lookup_drop, E. done.
Qed.

Lemma value_byte i c : value !! i = Some c -> c <> "%"%char.
Proof. intros E ->. apply no_percent. by eapply list_elem_of_lookup_2. Qed.

(** The attempt fails at a byte that the pattern does not admit. *)
Lemma mismatch i j c :
  value !! i = Some c -> at_byte pattern j c || at_byte pattern j "_" = false ->
  at_byte pattern j "%" = false -> ~ like_matches (drop i value) (drop j pattern).
Proof.
  intros E M P. apply orb_false_iff in M as [M1 M2]. rewrite (drop_S _ _ _ E).
  destruct (drop j pattern) as [|d r] eqn:D; [by rewrite like_nil_r|].
  assert (forall b, at_byte pattern j b = false -> d <> b) as N.
  { intros b Hb ->. rewrite (proj2 (at_byte_drop _ _ _)) in Hb by eauto. done. }
  rewrite like_cons_iff by auto. intros [[->| ->] _]; [by apply (N c)|by apply (N "_"%char)].
Qed.

Lemma like_step_inv s s' :
  like_inv s -> like_step value pattern s = LikeContinue s' -> like_inv s'.
Proof.
  intros (W & F & I) E. pose proof (like_step_progress _ _ _ _ W E) as [W' _].
  split; [done|]. revert E. unfold like_step.
  destruct (value !! vi s) as [c|] eqn:V; [|done].
  pose proof (value_byte _ _ V) as Nc.
  destruct (at_byte pattern (pi s) c || at_byte pattern (pi s) "_") eqn:M.
  - intros E. injection E as <-.
    assert (exists d, pattern !! pi s = Some d /\ d <> "%"%char /\ (d = c \/ d = "_"%char))
      as (d & Pd & Nd & Hd).
    { unfold at_byte in M. apply orb_true_iff in M as [M|M]; bool_to_prop; eauto. }
    split.
    + destruct (star s) as [[sv sp]|] eqn:St; simpl; [|done].
      destruct W as (_ & _ & Wst). rewrite St in Wst.
      replace (pi s + 1 - sp - 1) with (S (pi s - sp - 1)) by lia.
      rewrite (take_S_r _ _ d).
      * apply Forall_app. by repeat constructor.
      * rewrite lookup_drop. by replace (sp + 1 + (pi s - sp - 1)) with (pi s) by lia.
    + rewrite I. unfold like_pending; simpl. rewrite !(drop_S _ _ _ V), (drop_S _ _ _ Pd).
      rewrite like_cons_iff by done. rewrite !Nat.add_1_r. destruct Hd; intuition.
  - destruct (at_byte pattern (pi s) "%") eqn:P.
    + intros E. injection E as <-. split.
      { simpl. replace (pi s + 1 - pi s - 1) with 0 by lia. constructor. }
      rewrite I. unfold like_pending; simpl. apply at_byte_drop in P as [r P].
      pose proof P as P'. apply (f_equal (drop 1)) in P'. rewrite drop_drop in P'. simpl in P'.
      rewrite drop_0 in P'. rewrite P, P', like_any_iff, length_drop.
      assert (Hv : vi s < length value) by (by eapply lookup_lt_Some).
      split.
      * intros [(k & Hk & L)|Hst].
        { rewrite drop_drop in L. destruct k as [|k]; [left; by rewrite Nat.add_0_r in L|].
          right. exists (vi s + S k). split; [lia|done]. }
        destruct (star s) as [[sv sp]|] eqn:St; [|done]. destruct Hst as (k & Hk & L).
        destruct (later_attempt s sv sp k) as (j & Hj & Lj); [done..|].
        rewrite P, like_any_iff in Lj. destruct Lj as (i & Hi & Li).
        rewrite length_drop in Hi. rewrite drop_drop in Li.
        right. exists (j + i). split; [lia|done].
      * intros [L|(k & Hk & L)]; left.
        { exists 0. rewrite drop_0. split; [lia|done]. }
        exists (k - vi s). rewrite drop_drop. replace (vi s + (k - vi s)) with k by lia.
        split; [lia|done].
    + destruct (star s) as [[sv sp]|] eqn:St; [|done]. intros E. injection E as <-. split.
      { simpl. replace (sp + 1 - sp - 1) with 0 by lia. constructor. }
      rewrite I. unfold like_pending; simpl. rewrite St.
      pose proof (mismatch _ _ _ V M P) as N.
      destruct W as (Wv & _ & Wst). rewrite St in Wst. apply lookup_lt_Some in V.
      split; [intros [?|(k & Hk & L)]; [done|]|intros [L|(k & Hk & L)]; right].
      * destruct (decide (k = sv + 1)) as [->|]; [by left|right]. exists k. split; [lia|done].
      * exists (sv + 1). split; [lia|done].
      * exists k. split; [lia|done].
Qed.

Lemma like_step_answer s b :
  like_inv s -> like_step value pattern s = LikeReturn b -> b = true <-> like_matches value pattern.
Proof.
  intros (W & F & I) E. rewrite I. clear I. revert E. unfold like_step, like_pending.
  destruct (value !! vi s) as [c|] eqn:V.
  - destruct (at_byte pattern (pi s) c || at_byte pattern (pi s) "_") eqn:M; [done|].
    destruct (at_byte pattern (pi s) "%") eqn:P; [done|].
    destruct (star s) as [[sv sp]|]; [done|]. intros E. injection E as <-.
    split; [done|]. intros [L|[]]. by destruct (mismatch _ _ _ V M P).
  - apply lookup_ge_None in V. intros E. injection E as <-.
    rewrite (drop_ge value) by done. rewrite like_nil_l. split; [by left|].
    intros [L|Hst]; [done|]. destruct (star s) as [[sv sp]|] eqn:St; [|done].
    destruct Hst as (k & Hk & L).
    destruct (later_attempt s sv sp k) as (j & Hj & _); [done..|]. lia.
Qed.

Lemma like_loop_correct fuel s b :
  like_inv s -> like_loop fuel value pattern s = Some b -> b = true <-> like_matches value pattern.
Proof.
  revert s. induction fuel as [|fuel IH]; intros s I; [done|]. simpl.
  destruct (like_step value pattern s) as [s'|b'] eqn:E.
  - apply IH. by eapply like_step_inv.
  - intros [= <-]. by eapply like_step_answer.
Qed.
End like_correct.

Lemma like_start_inv value pattern : like_inv value pattern like_start.
Proof.
  split; [apply like_start_wf|]. split; [done|]. unfold like_pending; simpl. rewrite !drop_0. tauto.
Qed.

Lemma like_correct value pattern :
  "%"%char ∉ value -> SqlLikeMatch value pattern = true <-> like_matches value pattern.
Proof.
  intros N. eapply like_loop_correct; [done|apply like_start_inv|].
  by apply like_loop_result.
Qed.


(** ** Bitwise operators on BYTES

    A byte string is read as an unsigned integer, most significant byte first. *)
Definition bytes_Z (s : str) : Z := of_digits 256 (map byteval s).
Definition bits_Z (bits : str) : Z :=
  of_digits 2 (map (fun c => if Ascii.eqb c "1" then 1 else 0)%Z bits).

Lemma bits_digits bits : Forall (fun d => 0 <= d < 2)%Z
  (map (fun c => if Ascii.eqb c "1" then 1 else 0)%Z bits).
Proof. apply Forall_map, Forall_forall. intros c _. simpl. case_match; lia. Qed.

Lemma bits_Z_app a b : bits_Z (a ++ b) = (bits_Z a * 2 ^ Z.of_nat (length b) + bits_Z b)%Z.
Proof. unfold bits_Z. by rewrite map_app, of_digits_app, length_map. Qed.

Lemma bits_Z_bound bits : (0 <= bits_Z bits < 2 ^ Z.of_nat (length bits))%Z.
Proof.
  pose proof (of_digits_bound 2 _ ltac:(lia) (bits_digits bits)). by rewrite length_map in *.
Qed.

Lemma byte_bits_value c : bits_Z (byte_bits c) = byteval c.
Proof.
  destruct c as [b0 b1 b2 b3 b4 b5 b6 b7].
  destruct b0, b1, b2, b3, b4, b5, b6, b7; reflexivity.
Qed.

Lemma bits_Z_of_bytes s : bits_Z (BytesToBitString s) = bytes_Z s.
Proof.
  unfold BytesToBitString, bytes_Z. induction s as [|c s IH] using rev_ind; [done|].
  rewrite map_app, join_app. change (mjoin (map byte_bits [c])) with (byte_bits c ++ []).
  rewrite app_nil_r, bits_Z_app, IH, byte_bits_value, map_app. cbn [map].
  by rewrite of_digits_snoc.
Qed.

Lemma BytesToBitString_length s : length (BytesToBitString s) = 8 * length s.
Proof. unfold BytesToBitString. induction s as [|c s IH]; simpl in *; lia. Qed.

(** Eight bits make the byte they spell. *)
Lemma bits_byte_value bits : length bits = 8 -> byteval (bits_byte bits) = bits_Z bits.
Proof.
  intros L. unfold bits_byte. rewrite byteval_byteof.
  assert (forall acc, (0 <= acc)%Z ->
    (fold_left (fun byte c => Z.lor (Z.shiftl byte 1) (if Ascii.eqb c "1" then 1 else 0) mod 256)
      bits acc mod 256 = (acc * 2 ^ Z.of_nat (length bits) + bits_Z bits) mod 256)%Z) as K.
  { clear L. induction bits as [|c bits IH]; intros acc Hacc; cbn [fold_left].
    - unfold bits_Z, of_digits. simpl. f_equal. lia.
    - rewrite IH by (apply Z.mod_pos_bound; lia). cbn [length].
      change (c :: bits) with ([c] ++ bits). rewrite bits_Z_app.
      rewrite Nat2Z.inj_succ, Z.pow_succ_r by lia.
      assert (Z.lor (Z.shiftl acc 1) (if Ascii.eqb c "1" then 1 else 0) =
              (acc * 2 + bits_Z [c]))%Z as ->.
      { unfold bits_Z, of_digits. cbn [map fold_left]. rewrite Z.shiftl_mul_pow2 by lia.
        change (2 ^ 1)%Z with 2%Z. destruct (Ascii.eqb c "1"); [|rewrite Z.lor_0_r; lia].
        rewrite Z.mul_comm. by destruct acc. }
      rewrite <- Z.add_mod_idemp_l, Z.mul_mod_idemp_l, Z.add_mod_idemp_l by lia. f_equal. lia. }
  rewrite K by lia. pose proof (bits_Z_bound bits) as Bd. rewrite L in *.
  rewrite Z.mul_0_l, Z.add_0_l. apply Z.mod_small. lia.
Qed.

Lemma pack_bits_value n bits : length bits = 8 * n -> bytes_Z (pack_bits n bits) = bits_Z bits.
Proof.
  revert bits. unfold bytes_Z. induction n as [|n IH]; intros bits L.
  - by destruct bits.
  - cbn [pack_bits map]. rewrite of_digits_cons, IH by (rewrite length_drop; lia).
    rewrite bits_byte_value by (rewrite length_take; lia).
    rewrite <- (take_drop 8 bits) at 4. rewrite bits_Z_app, length_map, length_drop.
    assert (forall m bs, length (pack_bits m bs) = m) as -> by (induction m; intros; simpl; auto).
    replace (length bits - 8) with (8 * n) by lia.
    replace (2 ^ Z.of_nat (8 * n))%Z with (256 ^ Z.of_nat n)%Z; [done|].
    rewrite Nat2Z.inj_mul, Z.pow_mul_r by lia. done.
Qed.

Lemma pad_bits_length bits : length (pad_bits bits) mod 8 = 0.
Proof.
  unfold pad_bits. rewrite length_app, length_replicate.
  pose proof (Nat.mod_upper_bound (length bits) 8 ltac:(lia)) as Hm.
  pose proof (Nat.div_mod_eq (length bits) 8) as D.
  destruct (length bits mod 8) as [|m] eqn:E.
  - change ((8 - 0) mod 8) with 0. by rewrite Nat.add_0_l.
  - rewrite (Nat.mod_small (8 - S m)) by lia.
    replace (8 - S m + length bits) with ((length bits / 8 + 1) * 8) by lia.
    apply Nat.Div0.mod_mul.
Qed.

Lemma BitStringToBytes_value bits : bytes_Z (BitStringToBytes bits) = bits_Z bits.
Proof.
  destruct bits as [|c bits]; [done|]. unfold BitStringToBytes.
  rewrite pack_bits_value.
  - unfold pad_bits, bits_Z. rewrite map_app. change (map ?f (replicate ?n ?x)) with (f <$> replicate n x).
    rewrite fmap_replicate. apply of_digits_zeros.
  - pose proof (Nat.div_mod_eq (length (pad_bits (c :: bits))) 8).
    rewrite pad_bits_length in *. lia.
Qed.

Lemma from_first_one_value bits :
  match from_first_one bits with
  | Some kept => bits_Z kept = bits_Z bits
  | None => bits_Z bits = 0%Z
  end.
Proof.
  induction bits as [|c bits IH]; cbn [from_first_one]; [done|].
  destruct (Ascii.eqb c "1") eqn:E; [done|].
  assert (bits_Z (c :: bits) = bits_Z bits) as K.
  { unfold bits_Z. cbn [map]. rewrite E, of_digits_cons. done. }
  rewrite K. apply IH.
Qed.

Theorem ShiftBytesRight_value bytes k :
  (0 <= k)%Z ->
  exists out, ShiftBytesRight bytes k = Ok out /\ bytes_Z out = (bytes_Z bytes / 2 ^ k)%Z.
Proof.
  intros Hk. unfold ShiftBytesRight. rewrite (proj2 (Z.ltb_ge k 0) Hk).
  destruct (bool_decide (bytes = []) || (k =? 0)%Z) eqn:E.
  { exists bytes. split; [done|]. apply orb_true_iff in E as [E|E]; bool_to_prop; subst.
    - unfold bytes_Z, of_digits. simpl. by rewrite Z.div_0_l by lia.
    - by rewrite Z.div_1_r. }
  set (bits := BytesToBitString bytes). pose proof (bits_Z_bound bits) as Bd.
  pose proof (bits_Z_of_bytes bytes) as V. fold bits in V.
  destruct (Z.leb_spec (Z.of_nat (length bits)) k) as [L|L].
  - exists []. split; [done|]. rewrite <- V. symmetry. apply Z.div_small.
    pose proof (Z.pow_le_mono_r 2 (Z.of_nat (length bits)) k ltac:(lia) L). lia.
  - pose proof (from_first_one_value (take (length bits - Z.to_nat k) bits)) as F.
    assert (bits_Z (take (length bits - Z.to_nat k) bits) = (bytes_Z bytes / 2 ^ k)%Z) as T.
    { unfold bits_Z. rewrite <- firstn_map, of_digits_take;
        [|lia|apply bits_digits|rewrite length_map; lia].
      rewrite length_map, <- V. unfold bits_Z. f_equal. f_equal. lia. }
    destruct (from_first_one _) as [kept|]; eexists; (split; [done|]).
    + rewrite BitStringToBytes_value. congruence.
    + rewrite <- T, F. done.
Qed.

Definition pad_bytes (n : nat) (s : str) : list Z :=
  replicate (n - length s) 0%Z ++ map byteval s.

Lemma pad_bytes_length n s : length s <= n -> length (pad_bytes n s) = n.
Proof. intros. unfold pad_bytes. rewrite length_app, length_replicate, length_map. lia. Qed.

Lemma pad_bytes_digits n s : Forall (fun d => 0 <= d < 256)%Z (pad_bytes n s).
Proof.
  apply Forall_app. split; [apply Forall_replicate; lia|].
  apply Forall_map, Forall_forall. intros c _. apply byteval_range.
Qed.

Lemma pad_bytes_lookup n s i :
  length s <= n -> i < n -> pad_bytes n s !! i = Some (byte_from_end s (n - 1 - i)).
Proof.
  intros Hs Hi. unfold pad_bytes, byte_from_end.
  destruct (Nat.ltb_spec (n - 1 - i) (length s)) as [L|L].
  - rewrite lookup_app_r, length_replicate by (rewrite length_replicate; lia).
    replace (i - (n - length s)) with (length s - 1 - (n - 1 - i)) by lia.
    destruct (lookup_lt_is_Some_2 s (length s - 1 - (n - 1 - i))) as [c E]; [lia|].
    rewrite E. change (map byteval s) with (byteval <$> s). by rewrite list_lookup_fmap, E.
  - rewrite lookup_app_l by (rewrite length_replicate; lia). apply lookup_replicate_2. lia.
Qed.

Lemma digit_testbit x d n :
  (0 <= d < 256)%Z -> (0 <= n)%Z ->
  Z.testbit (x * 256 + d) n = if (n <? 8)%Z then Z.testbit d n else Z.testbit x (n - 8).
Proof.
  intros Hd Hn. destruct (Z.ltb_spec n 8).
  - rewrite <- (Z.mod_pow2_bits_low (x * 256 + d) 8) by done. f_equal.
    rewrite Z.add_comm, Z.mod_add by done. by apply Z.mod_small.
  - rewrite <- (Z.sub_add 8 n) at 1. rewrite <- Z.div_pow2_bits by lia. f_equal.
    rewrite Z.div_add_l by done. rewrite Z.div_small by done. lia.
Qed.

Lemma land_byte_range d e :
  (0 <= d < 256)%Z -> (0 <= e < 256)%Z -> (0 <= Z.land d e < 256)%Z.
Proof.
  intros Hd He. pose proof (Z.land_nonneg d e).
  destruct (Z.eq_dec (Z.land d e) 0) as [->|N]; [lia|].
  assert (0 <= Z.land d e)%Z by (apply Z.land_nonneg; lia).
  split; [done|]. apply (Z.log2_lt_pow2 _ 8); [lia|].
  pose proof (Z.log2_land d e ltac:(lia) ltac:(lia)).
  destruct (Z.eq_dec d 0) as [->|]; [by rewrite Z.land_0_l in N|].
  pose proof (proj1 (Z.log2_lt_pow2 d 8 ltac:(lia)) ltac:(lia)). lia.
Qed.

Lemma land_digit x y d e :
  (0 <= d < 256)%Z -> (0 <= e < 256)%Z ->
  Z.land (x * 256 + d) (y * 256 + e) = (Z.land x y * 256 + Z.land d e)%Z.
Proof.
  intros Hd He. apply Z.bits_inj'. intros n Hn.
  rewrite Z.land_spec, !digit_testbit by auto using land_byte_range.
  destruct (n <? 8)%Z; by rewrite Z.land_spec.
Qed.

Lemma of_digits_land xs ys :
  Forall (fun d => 0 <= d < 256)%Z xs -> Forall (fun d => 0 <= d < 256)%Z ys ->
  length xs = length ys ->
  of_digits 256 (zip_with Z.land xs ys) = Z.land (of_digits 256 xs) (of_digits 256 ys).
Proof.
  revert ys. induction xs as [|d xs IH] using rev_ind; intros ys Fx Fy L.
  - by destruct ys.
  - destruct ys as [|e ys _] using rev_ind; [rewrite length_app in L; simpl in L; lia|].
    rewrite !length_app in L. simpl in L.
    apply Forall_app in Fx as [Fx Hd], Fy as [Fy He].
    rewrite zip_with_app by lia. cbn [zip_with]. rewrite !of_digits_snoc, IH by (done || lia).
    rewrite land_digit; [done|by inversion Hd|by inversion He].
Qed.

Lemma AndBytes_digits a b :
  let n := Nat.max (length a) (length b) in
  map byteval (AndBytes a b) = zip_with Z.land (pad_bytes n a) (pad_bytes n b).
Proof.
  intros n. apply list_eq. intros i. unfold AndBytes. fold n.
  destruct (decide (i < n)) as [Hi|Hi].
  - rewrite lookup_zip_with, !pad_bytes_lookup by lia. simpl.
    rewrite map_map. change (map ?f ?l) with (f <$> l). rewrite list_lookup_fmap, lookup_seq_lt by done.
    simpl. rewrite byteval_byteof, Z.mod_small; [done|].
    assert (forall s j, 0 <= byte_from_end s j < 256)%Z as R.
    { intros s j. unfold byte_from_end. repeat case_match; try lia. apply byteval_range. }
    apply land_byte_range; apply R.
  - rewrite !(proj2 (lookup_ge_None _ _)); [done|..].
    + rewrite length_zip_with, !pad_bytes_length by lia. lia.
    + rewrite !length_map, length_seq. lia.
Qed.

Theorem AndBytes_value a b :
  bytes_Z (AndBytes a b) = Z.land (bytes_Z a) (bytes_Z b) /\
  length (AndBytes a b) = Nat.max (length a) (length b).
Proof.
  split; [|unfold AndBytes; by rewrite length_map, length_seq].
  unfold bytes_Z at 1. rewrite AndBytes_digits, of_digits_land by
    (auto using pad_bytes_digits; rewrite !pad_bytes_length; lia).
  unfold pad_bytes. by rewrite !of_digits_zeros.
Qed.

(** ** Bitwise operators on INT64 *)

Lemma in_int64_shiftr z : in_int64 z <-> (Z.shiftr z 63 = 0 \/ Z.shiftr z 63 = -1)%Z.
Proof.
  rewrite Z.shiftr_div_pow2 by lia. unfold in_int64, int64_min, int64_max.
  pose proof (Z.div_mod z (2 ^ 63) ltac:(lia)). pose proof (Z.mod_pos_bound z (2 ^ 63) ltac:(lia)).
  split; intros; [|lia].
  destruct (Z.ltb_spec z 0); [right|left].
  - symmetry. apply (Z.div_unique_pos z (2 ^ 63) (-1) (z + 2 ^ 63)); lia.
  - apply Z.div_small. lia.
Qed.

Lemma wrap_int64_range z : in_int64 (wrap_int64 z).
Proof.
  unfold wrap_int64, in_int64, int64_min, int64_max.
  pose proof (Z.mod_pos_bound (z + 2 ^ 63) (2 ^ 64) ltac:(lia)). lia.
Qed.

Lemma wrap_int64_id z : in_int64 z -> wrap_int64 z = z.
Proof.
  unfold wrap_int64, in_int64, int64_min, int64_max. intros. rewrite Z.mod_small; lia.
Qed.

Lemma wrap_int64_u64 z : wrap_int64 (u64 z) = wrap_int64 z.
Proof. unfold wrap_int64, u64. by rewrite Z.add_mod_idemp_l by lia. Qed.

Lemma land_int64 a b : in_int64 a -> in_int64 b -> in_int64 (Z.land a b).
Proof. rewrite !in_int64_shiftr, Z.shiftr_land. intros [E|E] [F|F]; rewrite E, F; vm_compute; auto. Qed.
Lemma lor_int64 a b : in_int64 a -> in_int64 b -> in_int64 (Z.lor a b).
Proof. rewrite !in_int64_shiftr, Z.shiftr_lor. intros [E|E] [F|F]; rewrite E, F; vm_compute; auto. Qed.
Lemma lxor_int64 a b : in_int64 a -> in_int64 b -> in_int64 (Z.lxor a b).
Proof. rewrite !in_int64_shiftr, Z.shiftr_lxor. intros [E|E] [F|F]; rewrite E, F; vm_compute; auto. Qed.
Lemma lnot_int64 a : in_int64 a -> in_int64 (Z.lnot a).
Proof. unfold in_int64, int64_min, int64_max, Z.lnot. lia. Qed.

Create HintDb int64.
#[export] Hint Resolve land_int64 lor_int64 lxor_int64 lnot_int64 wrap_int64_range : int64.

(** ** BIT_COUNT *)

Lemma popcount_range n z : (0 <= popcount n z <= Z.of_nat n)%Z.
Proof. induction n as [|n IH]; simpl popcount; [lia|]. case_match; lia. Qed.

Lemma popcount_ext n x y :
  (forall i, (0 <= i < Z.of_nat n)%Z -> Z.testbit x i = Z.testbit y i) -> popcount n x = popcount n y.
Proof.
  induction n as [|n IH]; intros E; cbn [popcount]; [done|].
  rewrite E, IH by (intros; try apply E; lia). done.
Qed.

Lemma popcount_u64 z : popcount 64 (u64 z) = popcount 64 z.
Proof. apply popcount_ext. intros i Hi. unfold u64. apply Z.mod_pow2_bits_low. lia. Qed.

Lemma popcount_lnot n z : popcount n (Z.lnot z) = (Z.of_nat n - popcount n z)%Z.
Proof.
  induction n as [|n IH]; cbn [popcount]; [done|].
  rewrite IH, Z.lnot_spec by lia. destruct (Z.testbit z (Z.of_nat n)); simpl; lia.
Qed.

Lemma popcount_land_lor n x y :
  (popcount n (Z.land x y) + popcount n (Z.lor x y) = popcount n x + popcount n y)%Z.
Proof.
  induction n as [|n IH]; cbn [popcount]; [done|]. rewrite Z.land_spec, Z.lor_spec.
  destruct (Z.testbit x _), (Z.testbit y _); simpl; lia.
Qed.

Section operator_theorems.
Context `{AbslText, AbslDouble, GoogleSqlOps}.

Lemma DispatchBitwise_int64 name a b :
  name <> $"$bitwise_not" ->
  DispatchBitwise name [SInt64 a; SInt64 b] = DispatchBitwiseInt64Binary name a b.
Proof. intros N. unfold DispatchBitwise. by rewrite bool_decide_false. Qed.

Lemma bitwise_int64_range name a b r :
  in_int64 a -> in_int64 b -> DispatchBitwise name [SInt64 a; SInt64 b] = Ok r ->
  exists z, r = SInt64 z /\ in_int64 z.
Proof.
  intros Ha Hb. unfold DispatchBitwise. destruct (bool_decide (name = $"$bitwise_not")); [done|].
  change (DispatchBitwiseInt64Binary name a b = Ok r -> exists z, r = SInt64 z /\ in_int64 z).
  assert (in_int64 0) by (unfold in_int64, int64_min, int64_max; lia).
  unfold DispatchBitwiseInt64Binary.
  repeat case_match; intros [=]; subst; eauto with int64.
Qed.

(** Bitwise operators on INT64 yield 64-bit integers; a left shift
    multiplies modulo 2^64, a right shift divides the unsigned reading, for every
    count from 0 on; a negative count is refused. *)
Theorem bitwise_int64 a b :
  in_int64 a -> in_int64 b ->
  (forall name r, DispatchBitwise name [SInt64 a; SInt64 b] = Ok r ->
     exists z, r = SInt64 z /\ in_int64 z) /\
  DispatchBitwise $"$bitwise_left_shift" [SInt64 a; SInt64 b] =
    (if (b <? 0)%Z then Err shift_out_of_range
     else Ok (SInt64 (wrap_int64 (a * 2 ^ b)))) /\
  DispatchBitwise $"$bitwise_right_shift" [SInt64 a; SInt64 b] =
    (if (b <? 0)%Z then Err shift_out_of_range
     else Ok (SInt64 (wrap_int64 (u64 a / 2 ^ b)))).
Proof.
  intros Ha Hb. split; [eauto using bitwise_int64_range|].
  rewrite !DispatchBitwise_int64 by discriminate.
  split; unfold DispatchBitwiseInt64Binary;
    repeat (rewrite bool_decide_false by discriminate); rewrite bool_decide_true by done;
    destruct (Z.ltb_spec b 0); try done; destruct (Z.leb_spec 64 b).
  - f_equal. f_equal. replace b with (64 + (b - 64))%Z by lia.
    rewrite Z.pow_add_r, Z.mul_assoc, Z.mul_shuffle0 by lia. unfold wrap_int64.
    rewrite Z.add_comm, Z.mod_add by lia. done.
  - f_equal. f_equal. rewrite wrap_int64_u64, Z.shiftl_mul_pow2 by done.
    rewrite <- (wrap_int64_u64 (u64 a * 2 ^ b)), <- (wrap_int64_u64 (a * 2 ^ b)). f_equal.
    unfold u64. by rewrite Z.mul_mod_idemp_l by lia.
  - f_equal. f_equal. rewrite Z.div_small; [done|].
    pose proof (Z.mod_pos_bound a (2 ^ 64) ltac:(lia)). unfold u64.
    pose proof (Z.pow_le_mono_r 2 64 b ltac:(lia) ltac:(lia)). lia.
  - by rewrite Z.shiftr_div_pow2 by done.
Qed.

Theorem bit_count_complement x y :
  exists n m k l,
    BitCount [SInt64 x] = Ok (SInt64 n) /\ (0 <= n <= 64)%Z /\
    BitCount [SInt64 (Z.lnot x)] = Ok (SInt64 (64 - n)) /\
    BitCount [SInt64 y] = Ok (SInt64 m) /\
    BitCount [SInt64 (Z.land x y)] = Ok (SInt64 k) /\
    BitCount [SInt64 (Z.lor x y)] = Ok (SInt64 l) /\ (k + l = n + m)%Z.
Proof.
  exists (popcount 64 x), (popcount 64 y), (popcount 64 (Z.land x y)), (popcount 64 (Z.lor x y)).
  unfold BitCount. cbn [is_null]. rewrite !popcount_u64, popcount_lnot.
  repeat split; try apply popcount_range. apply popcount_land_lor.
Qed.

(** IN over a list is the disjunction of the equalities. *)
Definition equal_to (lhs v : Value) : Value :=
  if is_null lhs || is_null v then NullBool else SBool (Equals lhs v).

Lemma InLoop_OrLoop lhs rhs seen :
  is_null lhs = false ->
  Ok (InLoop $"$in" lhs rhs seen) = OrLoop (map (equal_to lhs) rhs) seen.
Proof.
  intros N. revert seen. induction rhs as [|v rhs IH]; intros seen; cbn [InLoop map OrLoop].
  - by destruct seen.
  - assert (equal_to lhs v = if is_null v then NullBool else SBool (Equals lhs v)) as ->
      by (unfold equal_to; by rewrite N).
    destruct (is_null v); [apply IH|]. destruct (Equals lhs v); [done|]. apply IH.
Qed.

Lemma OrLoop_nulls n seen : 0 < n -> OrLoop (replicate n NullBool) seen = Ok NullBool.
Proof.
  intros Hn. assert (forall m, OrLoop (replicate m NullBool) true = Ok NullBool) as K.
  { intros m. induction m; [done|]. done. }
  destruct n as [|n]; [lia|]. apply K.
Qed.

Lemma InLoop_not lhs rhs seen :
  Ok (InLoop $"$not_in" lhs rhs seen) = DispatchNot [InLoop $"$in" lhs rhs seen].
Proof.
  revert seen. induction rhs as [|x rhs IH]; intros seen; cbn [InLoop]; [by destruct seen|].
  destruct (is_null x); [apply IH|]. destruct (Equals lhs x); [done|]. apply IH.
Qed.

Lemma map_const {A B} (f : A -> B) (c : B) (l : list A) :
  (forall x, f x = c) -> map f l = replicate (length l) c.
Proof. intros E. induction l as [|x l IH]; simpl; [done|]. by rewrite E, IH. Qed.

(** IN is the three-valued disjunction of the equalities with the list,
    and NOT IN is its negation. *)
Theorem in_is_disjunction lhs rhs :
  rhs <> [] ->
  DispatchIn $"$in" (lhs :: rhs) = DispatchOr (map (equal_to lhs) rhs) /\
  (forall v, DispatchIn $"$in" (lhs :: rhs) = Ok v ->
     DispatchIn $"$not_in" (lhs :: rhs) = DispatchNot [v]).
Proof.
  intros NE. destruct rhs as [|r rhs]; [done|]. unfold DispatchIn.
  destruct (is_null lhs) eqn:N.
  - split; [|by intros v [= <-]]. unfold DispatchOr.
    assert (map (equal_to lhs) (r :: rhs) = replicate (S (length rhs)) NullBool) as ->.
    { apply (map_const _ _ (r :: rhs)). intros x. unfold equal_to. by rewrite N. }
    symmetry. apply OrLoop_nulls. lia.
  - split; [by apply InLoop_OrLoop|]. intros v [= <-]. apply InLoop_not.
Qed.

(** ** LIKE *)

(** C22: LIKE terminates: for every value and pattern, [like_fuel] iterations of
    the matching loop (backtracking to the last percent sign included) reach an
    answer, and more iterations do not change it. *)
Theorem like_terminates value pattern fuel :
  like_fuel value pattern <= fuel ->
  like_loop fuel value pattern like_start = Some (SqlLikeMatch value pattern).
Proof. apply like_loop_result. Qed.

Lemma DispatchLike_strings v p :
  DispatchLike $"$like" [SString v; SString p] = Ok (SBool (SqlLikeMatch v p)) /\
  DispatchLike $"$not_like" [SString v; SString p] = Ok (SBool (negb (SqlLikeMatch v p))).
Proof. split; reflexivity. Qed.

Lemma like_percent_prefix c s : SqlLikeMatch ("%"%char :: c :: s) $"%" = false.
Proof.
  enough (Some (SqlLikeMatch ("%"%char :: c :: s) $"%") = Some false) as [=]; [done|].
  rewrite <- (like_loop_result _ _ (S (S (like_fuel ("%"%char :: c :: s) $"%")))) by lia.
  reflexivity.
Qed.

(** On STRING values without a percent sign LIKE decides the SQL matching
    relation ([%] any text, [_] one byte, other bytes themselves) and NOT LIKE
    its complement; a value that starts with a percent sign and goes on is not
    matched by the pattern ['%'], which matches every text. *)
Theorem like_operator v p :
  ("%"%char ∉ v ->
   exists b, DispatchLike $"$like" [SString v; SString p] = Ok (SBool b) /\
             DispatchLike $"$not_like" [SString v; SString p] = Ok (SBool (negb b)) /\
             (b = true <-> like_matches v p)) /\
  (v <> [] ->
   DispatchLike $"$like" [SString ("%"%char :: v); SString $"%"] = Ok (SBool false) /\
   like_matches ("%"%char :: v) $"%").
Proof.
  split.
  - intros N. exists (SqlLikeMatch v p). by split_and!; [apply DispatchLike_strings..|apply like_correct].
  - intros NE. destruct v as [|c v]; [done|]. split.
    + rewrite (proj1 (DispatchLike_strings _ _)). by rewrite like_percent_prefix.
    + rewrite <- (app_nil_r (_ :: _)). apply like_any. constructor.
Qed.
End operator_theorems.
