(* ===== verification/MathFuncs.v ===== *)
(** * MathFuncs: the mathematical functions of the semantic executor

    Models [backend/engine/semantic/functions/operator_math_funcs.cc].  The C
    library's transcendental functions are the operations of [CMath].  Where the
    C++ integer division is undefined (the least INT64 by -1) the result is
    [None]. *)

From S2P Require Import Prelude Absl AbslReference Storage SemanticError SqlValue Arithmetic.

Section math.
Context `{AbslText, AbslDouble, GoogleSqlOps, CMath}.

(** [absl::SimpleAtod] *)
Context (SimpleAtod : str -> option spec_float).

(** [static_cast<double>] of a float is exact. *)
Definition NumericArgToDouble (v : Value) : StatusOr spec_float :=
  match v with
  | SDouble d => Ok d
  | SFloat d => Ok d
  | SInt64 z => Ok (dbl_of_Z z)
  | SNumeric n => Ok (num_to_double numeric n)
  | SBigNumeric n => Ok (num_to_double bignumeric n)
  | SString s =>
      match SimpleAtod s with
      | Some d => Ok d
      | None => Err (InvalidArgumentError $"semantic: cannot coerce STRING to FLOAT64")
      end
  | _ => Err (cannot_coerce v $"FLOAT64")
  end.

Definition ValueToBigNumeric (v : Value) : StatusOr BigNumericValue :=
  match v with
  | SBigNumeric n => Ok n
  | SNumeric n => Ok (BigNumeric_of_Numeric n)
  | SInt64 z => Ok (BigNumeric_of_int64 z)
  | SDouble d => BigNumeric_FromDouble d
  | _ => Err (cannot_coerce v $"BIGNUMERIC")
  end.

Definition ValueToNumeric (v : Value) : StatusOr NumericValue :=
  match v with
  | SNumeric n => Ok n
  | SInt64 z => NumericValue_FromString (StrInt z)
  | SBigNumeric n => bignumeric_ToNumericValue n
  | _ => Err (cannot_coerce v $"NUMERIC")
  end.

Definition TruncDoubleTowardZero (x : spec_float) (digits : Z) : spec_float :=
  if (digits =? 0)%Z then dbl_trunc x
  else
    let factor := c_pow (dbl_of_Z 10) (dbl_of_Z digits) in
    dbl_div (dbl_trunc (dbl_mul x factor)) factor.

(** 0.5 as a double *)
Definition dbl_half : spec_float := S754_finite false 4503599627370496 (-53).

(** [x >= 0.0 ? floor(x + 0.5) : ceil(x - 0.5)] *)
Definition round_half_away (x : spec_float) : spec_float :=
  if SFleb dbl_zero x then dbl_floor (dbl_add x dbl_half) else dbl_ceil (dbl_sub x dbl_half).

Definition RoundHalfAwayFromZero (x : spec_float) (precision : Z) : spec_float :=
  if (precision =? 0)%Z then round_half_away x
  else
    let factor := c_pow (dbl_of_Z 10) (dbl_of_Z precision) in
    dbl_div (round_half_away (dbl_mul x factor)) factor.

Definition WrapNumericResult {N} (mk : N -> Value) (result : StatusOr N) : StatusOr Value :=
  match result with
  | Err s =>
      if bool_decide (code s = kOutOfRange) then Err (MakeSemanticError rOverflow (message s))
      else Err (MakeSemanticError rInvalidArgument (message s))
  | Ok n => Ok (mk n)
  end.

(** [Value::Null(args[0].type())] *)
Definition null_like (v : Value) : Value :=
  match type_of v with Some t => SNull t | None => SInvalid end.

Definition UnaryMathOnNumeric (args : list Value) (fn_name : str) (op : spec_float -> spec_float)
    : StatusOr Value :=
  match args with
  | [v] => if is_null v then Ok NullDouble
           else x ← NumericArgToDouble v; Ok (SDouble (op x))
  | _ => Err (expects_one fn_name)
  end.

Definition Floor (args : list Value) : StatusOr Value :=
  match args with
  | [v] =>
      if is_null v then Ok (null_like v)
      else match v with
           | SBigNumeric n => WrapNumericResult SBigNumeric (num_floor bignumeric n)
           | SNumeric n => WrapNumericResult SNumeric (num_floor numeric n)
           | _ => UnaryMathOnNumeric args $"FLOOR" dbl_floor
           end
  | _ => Err (expects_one $"FLOOR")
  end.

Definition Ceil (args : list Value) : StatusOr Value :=
  match args with
  | [v] =>
      if is_null v then Ok (null_like v)
      else match v with
           | SBigNumeric n => WrapNumericResult SBigNumeric (num_ceil bignumeric n)
           | SNumeric n => WrapNumericResult SNumeric (num_ceil numeric n)
           | _ => UnaryMathOnNumeric args $"CEIL" dbl_ceil
           end
  | _ => Err (expects_one $"CEIL")
  end.

(** The one- or two-argument shape of TRUNC and ROUND: the number and the
    digits, or the answer when an argument is null or not an INT64. *)
Definition number_and_digits (fn : str) (null_result : Value -> Value) (args : list Value)
    : (Value * Z) + StatusOr Value :=
  match args with
  | [v] => if is_null v then inr (Ok (null_result v)) else inl (v, 0%Z)
  | [v; d] =>
      if is_null v then inr (Ok (null_result v))
      else if is_null d then inr (Ok (null_result v))
      else if negb (is_kind d TYPE_INT64)
      then inr (Err (InvalidArgumentError ($"semantic: " ++ fn ++ $" precision must be INT64")))
      else inl (v, int64_value d)
  | _ => inr (Err (InvalidArgumentError ($"semantic: " ++ fn ++ $" expects one or two arguments")))
  end.

Definition Trunc (args : list Value) : StatusOr Value :=
  match number_and_digits $"TRUNC" null_like args with
  | inr answer => answer
  | inl (v, digits) =>
      match v with
      | SBigNumeric n => Ok (SBigNumeric (num_trunc bignumeric n digits))
      | SNumeric n => Ok (SNumeric (num_trunc numeric n digits))
      | _ => x ← NumericArgToDouble v; Ok (SDouble (TruncDoubleTowardZero x digits))
      end
  end.

Definition Sign (args : list Value) : StatusOr Value :=
  match args with
  | [v] =>
      if is_null v then Ok NullInt64
      else match v with
           | SInt64 x => Ok (SInt64 (if (x =? 0)%Z then 0 else if (0 <? x)%Z then 1 else -1))
           | SDouble d => Ok (SInt64 (if SFeqb d dbl_zero then 0 else if SFltb dbl_zero d then 1 else -1))
           | SNumeric n => Ok (SInt64 (num_sign numeric n))
           | SBigNumeric n => Ok (SInt64 (num_sign bignumeric n))
           | _ => Err (InvalidArgumentError $"semantic: SIGN requires a numeric argument")
           end
  | _ => Err (expects_one $"SIGN")
  end.

(** C++ [/] and [%] on [int64_t] truncate toward zero. *)
Definition int64_quot (a b : Z) : option Z :=
  if ((a =? int64_min) && (b =? -1))%Z then None else Some (Z.quot a b).
Definition int64_rem (a b : Z) : option Z :=
  if ((a =? int64_min) && (b =? -1))%Z then None else Some (Z.rem a b).

Definition division_by_zero (fn : str) : Status :=
  MakeSemanticError rDivisionByZero ($"semantic: division by zero: " ++ fn).

Definition Div (args : list Value) : option (StatusOr Value) :=
  match args with
  | [a; b] =>
      if is_null a || is_null b then Some (Ok NullInt64)
      else if negb (is_kind a TYPE_INT64) || negb (is_kind b TYPE_INT64)
      then Some (Err (InvalidArgumentError $"semantic: DIV requires INT64 operands"))
      else if (int64_value b =? 0)%Z then Some (Err (division_by_zero $"DIV"))
      else (fun q => Ok (SInt64 q)) <$> int64_quot (int64_value a) (int64_value b)
  | _ => Some (Err (expects_two $"DIV"))
  end.

Definition ModBigNumericValues (a b : Value) : StatusOr Value :=
  lhs ← ValueToBigNumeric a; rhs ← ValueToBigNumeric b;
  if num_is_zero bignumeric rhs then Err (division_by_zero $"MOD")
  else WrapNumericResult SBigNumeric (num_mod bignumeric lhs rhs).

Definition ModNumericValues (a b : Value) : StatusOr Value :=
  lhs ← ValueToNumeric a; rhs ← ValueToNumeric b;
  if num_is_zero numeric rhs then Err (division_by_zero $"MOD")
  else WrapNumericResult SNumeric (num_mod numeric lhs rhs).

Definition Mod (args : list Value) : option (StatusOr Value) :=
  match args with
  | [a; b] =>
      if is_null a || is_null b then Some (Ok (null_like a))
      else if is_kind a TYPE_BIGNUMERIC || is_kind b TYPE_BIGNUMERIC
      then Some (ModBigNumericValues a b)
      else if is_kind a TYPE_NUMERIC || is_kind b TYPE_NUMERIC then Some (ModNumericValues a b)
      else if negb (is_kind a TYPE_INT64) || negb (is_kind b TYPE_INT64)
      then Some (Err (InvalidArgumentError $"semantic: MOD requires numeric operands"))
      else
        let divisor := int64_value b in
        if (divisor =? 0)%Z then Some (Err (division_by_zero $"MOD"))
        else
          (fun remainder =>
             Ok (SInt64 (if ((remainder <? 0) && (0 <? divisor))%Z
                            || ((0 <? remainder) && (divisor <? 0))%Z
                         then remainder + divisor else remainder)%Z))
          <$> int64_rem (int64_value a) divisor
  | _ => Some (Err (expects_two $"MOD"))
  end.

Definition Log (args : list Value) : StatusOr Value :=
  match args with
  | [v] =>
      if is_null v then Ok NullDouble
      else x ← NumericArgToDouble v;
           if SFleb x dbl_zero
           then Err (InvalidArgumentError $"semantic: LOG requires a positive argument")
           else Ok (SDouble (c_log x))
  | _ => Err (expects_one $"LOG")
  end.

Definition Sqrt (args : list Value) : StatusOr Value :=
  match args with
  | [v] =>
      if is_null v then Ok (null_like v)
      else match v with
           | SBigNumeric n => SBigNumeric <$> num_sqrt bignumeric n
           | SNumeric n => SNumeric <$> num_sqrt numeric n
           | _ => UnaryMathOnNumeric args $"SQRT" dbl_sqrt
           end
  | _ => Err (expects_one $"SQRT")
  end.

Definition Sin (args : list Value) : StatusOr Value := UnaryMathOnNumeric args $"SIN" c_sin.
Definition Cos (args : list Value) : StatusOr Value := UnaryMathOnNumeric args $"COS" c_cos.
Definition Asin (args : list Value) : StatusOr Value := UnaryMathOnNumeric args $"ASIN" c_asin.
Definition Acos (args : list Value) : StatusOr Value := UnaryMathOnNumeric args $"ACOS" c_acos.

Definition Atan2 (args : list Value) : StatusOr Value :=
  match args with
  | [a; b] =>
      if is_null a || is_null b then Ok NullDouble
      else y ← NumericArgToDouble a; x ← NumericArgToDouble b; Ok (SDouble (c_atan2 y x))
  | _ => Err (expects_two $"ATAN2")
  end.

Definition Pow (args : list Value) : StatusOr Value :=
  match args with
  | [a; b] =>
      if is_null a || is_null b then Ok (null_like a)
      else if is_kind a TYPE_BIGNUMERIC || is_kind b TYPE_BIGNUMERIC then
        base ← ValueToBigNumeric a; exp ← ValueToBigNumeric b;
        WrapNumericResult SBigNumeric (num_pow bignumeric base exp)
      else if is_kind a TYPE_NUMERIC || is_kind b TYPE_NUMERIC then
        base ← ValueToNumeric a; exp ← ValueToNumeric b;
        WrapNumericResult SNumeric (num_pow numeric base exp)
      else base ← NumericArgToDouble a; exp ← NumericArgToDouble b; Ok (SDouble (c_pow base exp))
  | _ => Err (expects_two $"POW")
  end.

Definition Round (args : list Value) : StatusOr Value :=
  match number_and_digits $"ROUND" (fun _ => NullDouble) args with
  | inr answer => answer
  | inl (v, precision) =>
      x ← NumericArgToDouble v; Ok (SDouble (RoundHalfAwayFromZero x precision))
  end.

End math.

(** ** DIV and MOD *)

(** The remainder of C++ corrected to the divisor's sign is the floored one. *)
Lemma floored_remainder a b :
  b <> 0%Z ->
  (if ((Z.rem a b <? 0) && (0 <? b))%Z || ((0 <? Z.rem a b) && (b <? 0))%Z
   then Z.rem a b + b else Z.rem a b)%Z = (a mod b)%Z.
Proof.
  intros Hb. pose proof (Z.quot_rem' a b). pose proof (Z.rem_bound_abs a b Hb).
  destruct (_ || _) eqn:E.
  - apply (Z.mod_unique a b (Z.quot a b - 1)); [|lia].
    apply orb_true_iff in E as [E|E]; apply andb_true_iff in E as [E1 E2]; bool_to_prop; lia.
  - apply (Z.mod_unique a b (Z.quot a b)); [|lia].
    apply orb_false_iff in E as [E1 E2].
    apply andb_false_iff in E1 as [E1|E1], E2 as [E2|E2]; bool_to_prop; lia.
Qed.

Lemma quot_in_int64 a b :
  in_int64 a -> b <> 0%Z -> ~ (a = int64_min /\ b = -1)%Z -> in_int64 (Z.quot a b).
Proof.
  unfold in_int64, int64_min, int64_max. intros Ha Hb N.
  pose proof (Z.quot_rem' a b). pose proof (Z.rem_bound_abs a b Hb).
  assert (Z.abs (Z.quot a b) <= Z.abs a)%Z as Hq.
  { rewrite <- Z.quot_abs by done. apply Z.quot_le_upper_bound; nia. }
  destruct (Z.eq_dec b (-1)) as [->|]; [lia|].
  destruct (Z.eq_dec (Z.quot a b) (2 ^ 63)) as [E|]; [|lia]. rewrite E in *. nia.
Qed.

Lemma mod_in_int64 a b : in_int64 b -> b <> 0%Z -> in_int64 (a mod b).
Proof.
  unfold in_int64, int64_min, int64_max. intros Hb N.
  destruct (Z.ltb_spec b 0); [pose proof (Z.mod_neg_bound a b)|pose proof (Z.mod_pos_bound a b)]; lia.
Qed.

Section math_theorems.
Context `{AbslText, AbslDouble, GoogleSqlOps, CMath}.

(** DIV truncates towards zero and MOD is the floored remainder (the sign
    of the divisor), both 64-bit integers; INT64_MIN by -1 is undefined; DIV and
    MOD fit together exactly when the two roundings agree. *)
Theorem div_mod_int64 a b :
  in_int64 a -> in_int64 b -> b <> 0%Z ->
  if decide (a = int64_min /\ b = -1)%Z
  then Div [SInt64 a; SInt64 b] = None /\ Mod [SInt64 a; SInt64 b] = None
  else
    Div [SInt64 a; SInt64 b] = Some (Ok (SInt64 (Z.quot a b))) /\ in_int64 (Z.quot a b) /\
    Mod [SInt64 a; SInt64 b] = Some (Ok (SInt64 (a mod b))) /\ in_int64 (a mod b) /\
    (a = Z.quot a b * b + a mod b <-> Z.rem a b = a mod b)%Z.
Proof.
  intros Ha Hb Nb. unfold Div, Mod, int64_quot, int64_rem.
  change (int64_value (SInt64 a)) with a. change (int64_value (SInt64 b)) with b. cbn [is_null orb].
  change (is_kind (SInt64 a) TYPE_INT64) with true. change (is_kind (SInt64 b) TYPE_INT64) with true.
  change (is_kind (SInt64 a) TYPE_BIGNUMERIC || is_kind (SInt64 b) TYPE_BIGNUMERIC) with false.
  change (is_kind (SInt64 a) TYPE_NUMERIC || is_kind (SInt64 b) TYPE_NUMERIC) with false.
  cbn [negb orb]. rewrite (proj2 (Z.eqb_neq b 0) Nb).
  destruct (decide _) as [[-> ->]|N]; [done|].
  assert ((a =? int64_min) && (b =? -1) = false)%Z as ->.
  { apply andb_false_iff. rewrite !Z.eqb_neq. lia. }
  cbn [fmap option_fmap option_map]. rewrite floored_remainder by done.
  split_and!; auto using quot_in_int64, mod_in_int64.
  pose proof (Z.quot_rem' a b). lia.
Qed.
End math_theorems.
