(* ===== verification/Casts.v ===== *)
(** * Casts: CAST and SAFE_CAST in the expression evaluator

    Models [backend/engine/semantic/eval_expr_cast.cc], the structural casts of
    [eval_expr_cast_helpers.cc], the type modifiers of
    [eval_expr_cast_modifiers.cc], the FORMAT and AT TIME ZONE clauses of
    [eval_expr_cast_format.cc] and [eval_expr_cast_format_helpers.cc],
    [eval_expr_cast_extended.cc], and the TIMESTAMP texts of [value.cc].
    GoogleSQL's and Abseil's text conversions are the operations of
    [CastLibrary]. *)

From S2P Require Import Prelude Absl AbslReference Storage SemanticError SqlValue Arithmetic.
From S2P Require Import Operators MathFuncs GoogleSqlReference.

(** FORMAT and AT TIME ZONE take a string literal; [NotLiteral] is any other
    expression. *)
Inductive CastText := StringLiteral (s : str) | NotLiteral.

Inductive TypeParameters :=
| StringParameters (max_length : option Z)
| NumericParameters (precision scale : Z)
| OtherParameters.

(** The clauses of a [ResolvedCast]; [extended_cast] holds the elements of an
    extended cast. *)
Record CastNode := mkCast {
  format : option CastText;
  time_zone : option CastText;
  type_parameters : option TypeParameters;
  extended_cast : option (list Z);
  return_null_on_error : bool;
}.

Class CastLibrary `{GoogleSql} := {
  SimpleAtod : str -> option spec_float;
  (** [static_cast<int64_t>] of a double outside the range of INT64 is undefined *)
  undefined_int64 : spec_float -> Z;
  numeric_ToString : NumericValue -> str;
  bignumeric_ToString : BigNumericValue -> str;
  NumericValue_FromDouble : spec_float -> StatusOr NumericValue;
  BigNumericValue_FromString : str -> StatusOr BigNumericValue;
  numeric_HasFractionalPart : NumericValue -> bool;
  numeric_Round : NumericValue -> Z -> StatusOr NumericValue;
  numeric_less : NumericValue -> NumericValue -> bool;
  bignumeric_HasFractionalPart : BigNumericValue -> bool;
  bignumeric_Round : BigNumericValue -> Z -> StatusOr BigNumericValue;
  SafeConvertBytes : str -> StatusOr str;
  LengthUtf8 : str -> StatusOr Z;
  FormatDateToString : str -> Z -> StatusOr str;
  FormatDatetimeToString : str -> DatetimeValue -> StatusOr str;
  FormatTimestampToString : str -> Z -> str -> StatusOr str;
  ConstructDatetime : Z -> StatusOr DatetimeValue;
  ParseStringToDatetime : str -> str -> StatusOr DatetimeValue;
  ConvertDateToTimestamp : Z -> StatusOr Z;
  ConvertTimestampToDatetime : AbslTime -> str -> StatusOr DatetimeValue;
  MakeTimeZone : str -> StatusOr str;
  CastFormatDateToString : str -> Z -> StatusOr str;
  CastFormatDatetimeToString : str -> DatetimeValue -> StatusOr str;
  CastFormatTimestampToString : str -> Z -> str -> StatusOr str;
  CurrentDateValue : StatusOr Z;
  CastStringToDate : str -> str -> Z -> StatusOr Z;
  CastStringToDatetime : str -> str -> Z -> StatusOr DatetimeValue;
  CastStringToTimestamp : str -> str -> str -> StatusOr Z;
  (** [absl::ParseTime], [ParseStringToTimestamp], [ConvertStringToTimestamp]: microseconds *)
  ParseTime : str -> str -> option Z;
  ParseStringToTimestamp : str -> str -> StatusOr Z;
  ConvertStringToTimestamp : str -> StatusOr Z;
  ConversionEvaluator_Create : Z -> StatusOr Z;
  CastValueWithoutTypeValidation :
    Value -> SqlType -> option str -> option str -> list Z -> StatusOr Value;
}.

Section casts.
Context `{AbslText, AbslDouble, GoogleSqlOps} `{!CastLibrary}.

Definition TimestampFromUnixMicros (micros : Z) : Value := STimestamp (micros * 10 ^ 6).
Definition ToUnixMicros (v : Value) : Z := ToUnixPicos v / 10 ^ 6.

(** ** TIMESTAMP texts *)

Definition NormalizeTimestampOffsetSuffix (text : str) : str :=
  match rev text with
  | d1 :: d0 :: sign :: _ =>
      if (Ascii.eqb sign "+" || Ascii.eqb sign "-") && ascii_isdigit d0 && ascii_isdigit d1 then
        if negb (bool_decide (":"%char ∈ text)) && negb (bool_decide ("T"%char ∈ text)) then text
        else text ++ $":00"
      else text
  | _ => text
  end.

(** [absl::EndsWith] and the text before the suffix. *)
Definition strip_suffix (suffix text : str) : option str :=
  match strip_prefix (rev suffix) (rev text) with Some r => Some (rev r) | None => None end.

Definition first_some {A} (l : list (option A)) : option A :=
  foldr (fun o acc => match o with Some a => Some a | None => acc end) None l.

Definition of_status {A} (r : StatusOr A) : option A :=
  match r with Ok a => Some a | Err _ => None end.

Definition ParseTimestampWireString (body : str) : StatusOr Value :=
  let text := match strip_suffix $" UTC" body with Some t => t | None => body end in
  let text := NormalizeTimestampOffsetSuffix text in
  match first_some
    [ParseTime $"%Y-%m-%d%ET%H:%M:%E*S%Ez" text;
     ParseTime $"%Y-%m-%d %H:%M:%E*S%Ez" text;
     ParseTime $"%Y-%m-%dT%H:%M:%E*S%Ez" text;
     ParseTime $"%Y-%m-%d %H:%M:%E*S" text;
     ParseTime $"%Y-%m-%dT%H:%M:%E*S" text;
     of_status (ParseStringToTimestamp $"%F %T" text);
     of_status (ConvertStringToTimestamp text);
     ParseTime $"%Y-%m-%d" text;
     of_status (date ← ParseStringToDate $"%Y-%m-%d" text; ConvertDateToTimestamp date)] with
  | Some micros => Ok (TimestampFromUnixMicros micros)
  | None => Err (InvalidArgumentError ($"semantic: invalid TIMESTAMP value '" ++ body ++ $"'"))
  end.

(** ** Scalar casts *)

Definition CastToDouble (inner : Value) : StatusOr Value :=
  match inner with
  | SString s =>
      match SimpleAtod s with
      | Some parsed => Ok (SDouble parsed)
      | None => Err (MakeSemanticError rInvalidArgument $"semantic: CAST STRING to FLOAT64 failed")
      end
  | _ => d ← ToDouble inner; Ok (SDouble d)
  end.

Definition CastToString (inner : Value) (null_on_error : bool) : StatusOr Value :=
  match inner with
  | SInt64 z => Ok (SString (StrInt z))
  | SBool b => Ok (SString (if b then $"true" else $"false"))
  | SDouble d => Ok (SString (StrDouble d))
  | SNumeric n => Ok (SString (numeric_ToString n))
  | SBigNumeric n => Ok (SString (bignumeric_ToString n))
  | SDate d => SString <$> FormatDateToString $"%F" d
  | SDatetime dt => SString <$> FormatDatetimeToString $"%F %T" dt
  | SBytes s =>
      match SafeConvertBytes s with
      | Ok out => Ok (SString out)
      | Err e => if null_on_error then Ok NullString else Err e
      end
  | _ => Err (MakeSemanticError rNotImplemented $"semantic: CAST to STRING not implemented for type")
  end.

(** The two formats tried for a DATE. *)
Definition parse_date_text (text : str) : option Z :=
  first_some [of_status (ParseStringToDate $"%Y-%m-%d" text); of_status (ParseStringToDate $"%F" text)].

Definition date_cast_failed (text : str) : Status :=
  MakeSemanticError rInvalidArgument ($"semantic: CAST STRING to DATE failed for '" ++ text ++ $"'").

Definition CastToDate (inner : Value) (null_on_error : bool) : StatusOr Value :=
  match inner with
  | SDate _ => Ok inner
  | SString text =>
      match parse_date_text text with
      | Some date => Ok (SDate date)
      | None => if null_on_error then Ok (SNull TDate) else Err (date_cast_failed text)
      end
  | _ => Err (MakeSemanticError rNotImplemented $"semantic: CAST to DATE not implemented for type")
  end.

Definition CastToDatetime (inner : Value) : StatusOr Value :=
  match inner with
  | SDatetime _ => Ok inner
  | SDate d => SDatetime <$> ConstructDatetime d
  | SString s =>
      match ParseStringToDatetime $"%F %T" s with
      | Ok out => Ok (SDatetime out)
      | Err e => Err (MakeSemanticError rInvalidArgument (message e))
      end
  | _ => Err (MakeSemanticError rNotImplemented $"semantic: CAST to DATETIME not implemented")
  end.

Definition CastToTimestamp (inner : Value) : StatusOr Value :=
  match inner with
  | STimestamp _ => Ok inner
  | SDate d => TimestampFromUnixMicros <$> ConvertDateToTimestamp d
  | SString s =>
      match ParseTimestampWireString s with
      | Ok parsed => Ok parsed
      | Err _ => Err (MakeSemanticError rInvalidArgument
                   ($"semantic: CAST STRING to TIMESTAMP failed for '" ++ s ++ $"'"))
      end
  | _ => Err (MakeSemanticError rNotImplemented $"semantic: CAST to TIMESTAMP not implemented")
  end.

Definition CastToBool (inner : Value) : StatusOr Value :=
  match inner with
  | SBool _ => Ok inner
  | SString s =>
      if EqualsIgnoreCase s $"true" then Ok (SBool true)
      else if EqualsIgnoreCase s $"false" then Ok (SBool false)
      else Err (MakeSemanticError rInvalidArgument $"semantic: CAST STRING to BOOL failed")
  | _ => Err (MakeSemanticError rNotImplemented $"semantic: CAST to BOOL not implemented for type")
  end.

Definition int64_cast_failed : Status :=
  MakeSemanticError rInvalidArgument $"semantic: CAST STRING to INT64 failed".

Definition hex_digit (c : ascii) : option Z :=
  let b := byteval c in
  if (48 <=? b)%Z && (b <=? 57)%Z then Some (b - 48)%Z
  else if (97 <=? b)%Z && (b <=? 102)%Z then Some (b - 97 + 10)%Z
  else if (65 <=? b)%Z && (b <=? 70)%Z then Some (b - 65 + 10)%Z
  else None.

(** The loop of [CastHexStringToInt64] on an unsigned 64-bit accumulator. *)
Fixpoint HexLoop (s : str) (parsed : Z) : option Z :=
  match s with
  | [] => Some parsed
  | c :: s =>
      match hex_digit c with
      | Some d => HexLoop s (Z.lor (u64 (Z.shiftl parsed 4)) d)
      | None => None
      end
  end.

Definition CastHexStringToInt64 (s : str) : StatusOr Value :=
  match HexLoop (drop 2 s) 0 with
  | Some parsed => Ok (SInt64 (wrap_int64 parsed))
  | None => Err int64_cast_failed
  end.

(** [while (s.size() > 1 && s[0] == '0') s.remove_prefix(1);] *)
Fixpoint strip_zeros (s : str) : str :=
  match s with
  | c :: ((_ :: _) as rest) => if Ascii.eqb c "0" then strip_zeros rest else s
  | _ => s
  end.

Definition CastDecimalStringToInt64 (s : str) : StatusOr Value :=
  let '(negative, s) :=
    match s with
    | c :: rest => if Ascii.eqb c "+" then (false, rest)
                   else if Ascii.eqb c "-" then (true, rest) else (false, s)
    | [] => (false, s)
    end in
  let s := strip_zeros s in
  match (match s with [] => Some 0%Z | _ => SimpleAtoi s end) with
  | Some parsed => Ok (SInt64 (if negative then wrap_int64 (- parsed) else parsed))
  | None => Err int64_cast_failed
  end.

(** [static_cast<int64_t>(std::trunc(d))] *)
Definition trunc_int64 (d : spec_float) : Z :=
  match d with
  | S754_zero _ => 0
  | S754_finite s m e =>
      let z := if s then ceil_Z s m e else floor_Z s m e in
      if int64_overflows z then undefined_int64 d else z
  | _ => undefined_int64 d
  end.

Definition CastToInt64 (inner : Value) : StatusOr Value :=
  match inner with
  | SInt64 _ => Ok inner
  | SDouble d => Ok (SInt64 (trunc_int64 d))
  | SFloat d => Ok (SInt64 (trunc_int64 d))
  | SNumeric n => Ok (SInt64 (trunc_int64 (num_to_double numeric n)))
  | SNull TString => Ok NullInt64
  | SString s => if StartsWithIgnoreCase s $"0x" then CastHexStringToInt64 s
                 else CastDecimalStringToInt64 s
  | _ => Err (MakeSemanticError rNotImplemented $"semantic: CAST to INT64 not implemented")
  end.

(** A failed conversion is an overflow when its code says out of range. *)
Definition wrap_conversion {N} (mk : N -> Value) (r : StatusOr N) : StatusOr Value :=
  match r with
  | Ok n => Ok (mk n)
  | Err s => if bool_decide (code s = kOutOfRange) then Err (MakeSemanticError rOverflow (message s))
             else Err (MakeSemanticError rInvalidArgument (message s))
  end.

(** A failed conversion is an invalid argument whatever its code. *)
Definition wrap_invalid {N} (mk : N -> Value) (r : StatusOr N) : StatusOr Value :=
  match r with
  | Ok n => Ok (mk n)
  | Err s => Err (MakeSemanticError rInvalidArgument (message s))
  end.

Definition CastToBignumeric (inner : Value) : StatusOr Value :=
  match inner with
  | SBigNumeric _ => Ok inner
  | SInt64 z => Ok (SBigNumeric (BigNumeric_of_int64 z))
  | SNumeric n => Ok (SBigNumeric (BigNumeric_of_Numeric n))
  | SDouble d => wrap_conversion SBigNumeric (BigNumeric_FromDouble d)
  | SString s => wrap_invalid SBigNumeric (BigNumericValue_FromString s)
  | _ => Err (MakeSemanticError rNotImplemented $"semantic: CAST to BIGNUMERIC not implemented")
  end.

Definition CastNumericFromBignumeric (n : BigNumericValue) : StatusOr Value :=
  wrap_conversion SNumeric (bignumeric_ToNumericValue n).
Definition CastNumericFromInt64 (z : Z) : StatusOr Value :=
  wrap_invalid SNumeric (NumericValue_FromString (StrInt z)).
Definition CastNumericFromDouble (d : spec_float) : StatusOr Value :=
  wrap_conversion SNumeric (NumericValue_FromDouble d).
Definition CastNumericFromString (text : str) : StatusOr Value :=
  wrap_invalid SNumeric (NumericValue_FromString text).

Definition CastToNumeric (inner : Value) : StatusOr Value :=
  match inner with
  | SNumeric _ => Ok inner
  | SBigNumeric n => CastNumericFromBignumeric n
  | SInt64 z => CastNumericFromInt64 z
  | SDouble d => CastNumericFromDouble d
  | SFloat d => CastNumericFromDouble d
  | SString s => CastNumericFromString s
  | _ => Err (MakeSemanticError rNotImplemented $"semantic: CAST to NUMERIC not implemented")
  end.

Definition cast_not_implemented (target : SqlType) : Status :=
  MakeSemanticError rNotImplemented
    ($"semantic: CAST to " ++ DebugString (Some target) ++ $" not implemented for source type").

Definition CastByTargetKind (inner : Value) (target : SqlType) (null_on_error : bool)
    : StatusOr Value :=
  match kind target with
  | TYPE_DOUBLE => CastToDouble inner
  | TYPE_STRING => CastToString inner null_on_error
  | TYPE_BYTES =>
      match inner with
      | SString s => Ok (SBytes s)
      | _ => Err (cast_not_implemented target)
      end
  | TYPE_DATE => CastToDate inner null_on_error
  | TYPE_DATETIME => CastToDatetime inner
  | TYPE_TIMESTAMP => CastToTimestamp inner
  | TYPE_BOOL => CastToBool inner
  | TYPE_INT64 => CastToInt64 inner
  | TYPE_BIGNUMERIC => CastToBignumeric inner
  | TYPE_NUMERIC => CastToNumeric inner
  | _ => Err (cast_not_implemented target)
  end.

(** ** Structural casts *)

Definition StructTypesCompatibleByPosition (source target : list (str * SqlType)) : bool :=
  bool_decide (map snd source = map snd target).

Definition TryCastStringBytesPair (inner : Value) (target : SqlType) (null_on_error : bool)
    : option (StatusOr Value) :=
  match kind target, inner with
  | TYPE_BYTES, SString s => Some (Ok (SBytes s))
  | TYPE_STRING, SBytes s =>
      Some match SafeConvertBytes s with
           | Ok out => Ok (SString out)
           | Err e => if null_on_error then Ok (NullOfType (Some target)) else Err e
           end
  | TYPE_STRING, SInt64 z => Some (Ok (SString (StrInt z)))
  | TYPE_DATE, SString text =>
      Some match parse_date_text text with
           | Some date => Ok (SDate date)
           | None => if null_on_error then Ok (NullOfType (Some target))
                     else Err (date_cast_failed text)
           end
  | _, _ => None
  end.

Definition cast_from_to (source : option SqlType) (target : SqlType) : Status :=
  MakeSemanticError rNotImplemented
    ($"semantic: CAST from "
       ++ match source with Some t => DebugString (Some t) | None => $"<null>" end
       ++ $" to " ++ DebugString (Some target) ++ $" is not yet implemented").

Definition TryCastStructFields (inner : Value) (source : option SqlType) (target : SqlType)
    (null_on_error : bool) : option (StatusOr Value) :=
  match target, type_of inner with
  | TStruct target_st, Some (TStruct source_st) =>
      Some (if negb (StructTypesCompatibleByPosition source_st target_st) then
              if null_on_error then Ok (NullOfType (Some target)) else Err (cast_from_to source target)
            else Ok (SStruct target_st (fields inner)))
  | _, _ => None
  end.

(** The element loop of [TryCastArrayElements]: it gives up when an element has
    no structural cast and stops at the first that fails. *)
Section elements.
Context (cast : Value -> option (StatusOr Value)).
Fixpoint cast_elements (elems : list Value) : option (StatusOr (list Value)) :=
  match elems with
  | [] => Some (Ok [])
  | e :: elems =>
      match cast e with
      | None => None
      | Some (Err s) => Some (Err s)
      | Some (Ok v) =>
          match cast_elements elems with
          | None => None
          | Some r => Some (cons v <$> r)
          end
      end
  end.
End elements.

(** [TryCastArrayElements] is the ARRAY case; its recursion is on the target's
    element type. *)
Fixpoint TryCastValueToType (inner : Value) (source : option SqlType) (target : SqlType)
    (null_on_error : bool) {struct target} : option (StatusOr Value) :=
  if bool_decide (source = Some target) then Some (Ok inner)
  else if is_null inner then Some (Ok (NullOfType (Some target)))
  else match TryCastStringBytesPair inner target null_on_error with
  | Some cast => Some cast
  | None =>
      match target, inner with
      | TArray target_elem, SArray source_elem elems =>
          if bool_decide (source_elem = target_elem) then Some (Ok inner)
          else match cast_elements
                      (fun e => TryCastValueToType e (Some source_elem) target_elem null_on_error)
                      elems with
               | None => None
               | Some r => Some (SArray target_elem <$> r)
               end
      | _, _ => TryCastStructFields inner source target null_on_error
      end
  end.

(** ** Type modifiers *)

(** Precision digits, with the decimal point before the last [scale] of them. *)
Definition upper_bound_text (precision scale : Z) : str :=
  if (scale =? 0)%Z then replicate (Z.to_nat precision) "9"%char
  else <[Z.to_nat (precision - scale) := "."%char]> (replicate (Z.to_nat (precision + 1)) "9"%char).

Definition ApplyNumericPrecisionScale (n : NumericValue) (precision scale : Z) : StatusOr Value :=
  out ← (if numeric_HasFractionalPart n then numeric_Round n scale else Ok n);
  upper ← NumericValue_FromString (upper_bound_text precision scale);
  lower ← NumericValue_FromString ("-"%char :: upper_bound_text precision scale);
  if numeric_less out lower || numeric_less upper out then
    Err (mkStatus kOutOfRange ($"semantic: NUMERIC(" ++ StrInt precision ++ $", " ++ StrInt scale
           ++ $") value out of range after CAST") None)
  else Ok (SNumeric out).

Definition ApplyStringMaxLength (s : str) (max_length : Z) : StatusOr unit :=
  length ← LengthUtf8 s;
  if (max_length <? length)%Z then
    Err (mkStatus kOutOfRange ($"semantic: STRING(" ++ StrInt max_length ++ $") has maximum length "
           ++ StrInt max_length ++ $" but got length " ++ StrInt length) None)
  else Ok ().

Definition ApplyBignumericPrecisionScale (n : BigNumericValue) (scale : Z) (null_on_error : bool)
    : StatusOr Value :=
  if bignumeric_HasFractionalPart n then
    match bignumeric_Round n scale with
    | Ok out => Ok (SBigNumeric out)
    | Err e => if null_on_error then Ok (SNull TBigNumeric) else Err e
    end
  else Ok (SBigNumeric n).

Definition ApplyNumericTypeModifiers (value : Value) (precision scale : Z) (null_on_error : bool)
    : StatusOr Value :=
  match value with
  | SNumeric n =>
      match ApplyNumericPrecisionScale n precision scale with
      | Ok v => Ok v
      | Err e => if null_on_error then Ok (SNull TNumeric) else Err e
      end
  | SBigNumeric n => ApplyBignumericPrecisionScale n scale null_on_error
  | _ => Ok value
  end.

Definition ApplyCastTypeModifiers (value : Value) (params : option TypeParameters)
    (null_on_error : bool) : StatusOr Value :=
  match params with
  | None => Ok value
  | Some params =>
      if is_null value then Ok value
      else match params with
      | StringParameters max_length =>
          match value with
          | SString s =>
              match ApplyStringMaxLength s
                      match max_length with Some n => n | None => int64_max end with
              | Ok _ => Ok value
              | Err e => if null_on_error then Ok (NullOfType (type_of value)) else Err e
              end
          | _ => Ok value
          end
      | NumericParameters precision scale =>
          ApplyNumericTypeModifiers value precision scale null_on_error
      | OtherParameters =>
          Err (MakeSemanticError rNotImplemented
            $"semantic: CAST type_modifiers for this target type are deferred")
      end
  end.

(** ** FORMAT and AT TIME ZONE *)

Definition CastFormatLiteral (cast : CastNode) : StatusOr str :=
  match format cast with
  | None => Err (InvalidArgumentError $"semantic: ResolvedCast has null format")
  | Some NotLiteral => Err (MakeSemanticError rNotImplemented
                         $"semantic: CAST ... FORMAT requires a string literal format")
  | Some (StringLiteral s) => Ok s
  end.

Definition CastTimeZoneLiteral (cast : CastNode) : StatusOr str :=
  match time_zone cast with
  | None => Err (InvalidArgumentError $"semantic: ResolvedCast has null time_zone")
  | Some NotLiteral => Err (MakeSemanticError rNotImplemented
                         $"semantic: CAST ... AT TIME ZONE requires a string literal zone")
  | Some (StringLiteral s) => Ok s
  end.

(** A GoogleSQL failure is a null of the target when the cast is a SAFE_CAST. *)
Definition null_or_error {A} (cast : CastNode) (t : SqlType) (mk : A -> Value) (r : StatusOr A)
    : StatusOr Value :=
  match r with
  | Ok a => Ok (mk a)
  | Err e => if return_null_on_error cast then Ok (SNull t) else Err e
  end.

Definition utc : str := $"UTC".

(** The zone of the clause, or UTC without one. *)
Definition cast_zone (cast : CastNode) : StatusOr str :=
  match time_zone cast with Some _ => CastTimeZoneLiteral cast | None => Ok utc end.

Definition TryEvalCastFormatToString (cast : CastNode) (inner : Value) (target : SqlType)
    : option (StatusOr Value) :=
  match format cast with
  | None => None
  | Some _ =>
      if negb (bool_decide (kind target = TYPE_STRING)) then None
      else if is_null inner then Some (Ok NullString)
      else match CastFormatLiteral cast with
      | Err e => Some (Err e)
      | Ok f =>
          match inner with
          | SDatetime dt => Some (null_or_error cast TString SString (CastFormatDatetimeToString f dt))
          | SDate d => Some (null_or_error cast TString SString (CastFormatDateToString f d))
          | STimestamp _ =>
              Some (tz ← cast_zone cast;
                    null_or_error cast TString SString
                      (CastFormatTimestampToString f (ToUnixMicros inner) tz))
          | _ => None
          end
      end
  end.

Definition TryEvalCastFormatFromString (cast : CastNode) (inner : Value) (target : SqlType)
    : option (StatusOr Value) :=
  match format cast with
  | None => None
  | Some _ =>
      if negb (is_kind inner TYPE_STRING) then None
      else if is_null inner then Some (Ok (NullOfType (Some target)))
      else match CastFormatLiteral cast with
      | Err e => Some (Err e)
      | Ok f =>
          let text := string_value inner in
          match kind target with
          | TYPE_DATE =>
              Some (today ← CurrentDateValue;
                    null_or_error cast TDate SDate (CastStringToDate f text today))
          | TYPE_DATETIME =>
              Some (today ← CurrentDateValue;
                    null_or_error cast TDatetime SDatetime (CastStringToDatetime f text today))
          | TYPE_TIMESTAMP =>
              Some (tz ← cast_zone cast;
                    null_or_error cast TTimestamp TimestampFromUnixMicros
                      (CastStringToTimestamp f text tz))
          | _ => None
          end
      end
  end.

Definition TimestampToStringInZone (cast : CastNode) (inner : Value) : StatusOr Value :=
  tz_name ← CastTimeZoneLiteral cast;
  null_or_error cast TString SString
    (tz ← MakeTimeZone tz_name;
     out ← FormatTimestampToString $"%F %T%Ez" (ToUnixMicros inner) tz;
     Ok match strip_suffix $"+00:00" out with Some t => t ++ $"+00" | None => out end).

Definition TimestampToDatetimeInZone (cast : CastNode) (inner : Value) : StatusOr Value :=
  tz_name ← CastTimeZoneLiteral cast;
  null_or_error cast TDatetime SDatetime
    (tz ← MakeTimeZone tz_name; ConvertTimestampToDatetime (ToTime (ToUnixPicos inner)) tz).

Definition TryEvalCastTimestampTimezone (cast : CastNode) (inner : Value) (target : SqlType)
    : option (StatusOr Value) :=
  match format cast, time_zone cast with
  | None, Some _ =>
      if negb (is_kind inner TYPE_TIMESTAMP) then None
      else match kind target with
           | TYPE_STRING => Some (if is_null inner then Ok NullString else TimestampToStringInZone cast inner)
           | TYPE_DATETIME =>
               Some (if is_null inner then Ok (SNull TDatetime) else TimestampToDatetimeInZone cast inner)
           | _ => None
           end
  | _, _ => None
  end.

Definition TryEvalCastFormatAndTimezone (cast : CastNode) (inner : Value) (target : SqlType)
    : option (StatusOr Value) :=
  first_some [TryEvalCastFormatToString cast inner target;
              TryEvalCastFormatFromString cast inner target;
              TryEvalCastTimestampTimezone cast inner target].

(** ** Extended casts *)

Definition BuildExtendedCastEvaluator (elements : list Z) : StatusOr (list Z) :=
  evaluators ← outcome_mapM ConversionEvaluator_Create elements;
  match evaluators with
  | [] => Err (MakeSemanticError rNotImplemented $"semantic: extended_cast has no elements")
  | _ => Ok evaluators
  end.

Definition IsUnsupportedExtendedCastTarget (type : option SqlType) : bool :=
  match type with
  | None => true
  | Some t => match kind t with TYPE_PROTO | TYPE_ENUM | TYPE_RANGE => true | _ => false end
  end.

Definition literal_text (t : option CastText) : option str :=
  match t with Some (StringLiteral s) => Some s | _ => None end.

Definition EvalExtendedCast (cast : CastNode) (elements : list Z) (inner : Value)
    (source : option SqlType) (target : SqlType) : StatusOr Value :=
  if IsUnsupportedExtendedCastTarget (Some target) ||
     match source with Some _ => IsUnsupportedExtendedCastTarget source | None => false end
  then Err (MakeSemanticError rNotImplemented
         ($"semantic: CAST extended_cast to " ++ DebugString (Some target)
            ++ $" is unsupported locally"))
  else
    evaluator ← BuildExtendedCastEvaluator elements;
    match CastValueWithoutTypeValidation inner target (literal_text (format cast))
            (literal_text (time_zone cast)) evaluator with
    | Ok v => Ok v
    | Err e => if return_null_on_error cast then Ok (NullOfType (Some target)) else Err e
    end.

(** ** The cast *)

Definition EvalResolvedCast (cast : CastNode) (type : option SqlType) (inner : Value)
    (source : option SqlType) : StatusOr Value :=
  match type with
  | None => Err (InvalidArgumentError $"semantic: ResolvedCast has null type")
  | Some target =>
      let finalize v := ApplyCastTypeModifiers v (type_parameters cast) (return_null_on_error cast) in
      match extended_cast cast with
      | Some elements => v ← EvalExtendedCast cast elements inner source target; finalize v
      | None =>
          match TryEvalCastFormatAndTimezone cast inner target with
          | Some formatted => v ← formatted; finalize v
          | None =>
              match TryCastValueToType inner source target (return_null_on_error cast) with
              | Some casted => v ← casted; finalize v
              | None =>
                  if bool_decide (source = Some target) then finalize inner
                  else if is_null inner then finalize (NullOfType (Some target))
                  else match CastByTargetKind inner target (return_null_on_error cast) with
                       | Ok v => finalize v
                       | Err e =>
                           if return_null_on_error cast then finalize (NullOfType (Some target))
                           else match GetSemanticErrorReason (Some e) with
                                | rNotImplemented => Err (cast_from_to source target)
                                | _ => Err e
                                end
                       end
              end
          end
      end
  end.
End casts.

(** ** A cast yields a value of its target type *)

Section cast_types.
Context `{AbslText, AbslDouble, GoogleSqlOps} `{!CastLibrary}.

Lemma CastByTargetKind_type inner target nul :
  supported target = true -> ok_has target (CastByTargetKind inner target nul).
Proof.
  intros Su. unfold CastByTargetKind, CastToBool, CastToInt64, CastHexStringToInt64,
    CastDecimalStringToInt64, CastToDouble, CastToString, CastToDate, CastToDatetime,
    CastToTimestamp, ParseTimestampWireString, CastToNumeric, CastNumericFromBignumeric,
    CastNumericFromInt64, CastNumericFromDouble, CastNumericFromString, CastToBignumeric,
    wrap_conversion, wrap_invalid.
  destruct target; try done; cbn [kind]; try apply ok_has_Err; destruct inner; ok_type.
Qed.

Lemma TryCastStringBytesPair_type inner target nul r :
  supported target = true -> TryCastStringBytesPair inner target nul = Some r -> ok_has target r.
Proof.
  intros Su. pose proof (NullOfType_has_type target Su) as Nt. unfold TryCastStringBytesPair.
  destruct target; try done; cbn [kind]; destruct inner; try done; intros [= <-]; ok_type.
Qed.

Lemma TryCastStructFields_type inner s target nul r :
  supported target = true -> has_type inner s = true -> is_null inner = false ->
  TryCastStructFields inner (Some s) target nul = Some r -> ok_has target r.
Proof.
  intros Su HT N. pose proof (NullOfType_has_type target Su) as Nt. unfold TryCastStructFields.
  destruct target as [| | | | | | | | | | | | | | | | | | | |ts]; try done.
  rewrite (has_type_type_of _ _ HT). destruct s as [| | | | | | | | | | | | | | | | | | | |ss]; try done.
  intros [= <-]. unfold StructTypesCompatibleByPosition.
  destruct (bool_decide_reflect (map snd ss = map snd ts)) as [E|]; cbn [negb]; [|ok_type].
  apply ok_has_Ok. destruct inner; try done. apply has_type_struct. split; [done|].
  pose proof (has_type_type_of _ _ HT) as [= ->].
  apply has_type_struct in HT as [_ HT]. simpl. by rewrite <- E.
Qed.

Lemma cast_elements_type t cast elems r :
  Forall (fun e => forall r, cast e = Some r -> ok_has t r) elems ->
  cast_elements cast elems = Some r -> ok_has (TArray t) (SArray t <$> r).
Proof.
  intros F. revert r. induction F as [|e elems He F IH]; intros r; cbn [cast_elements].
  - intros [= <-]. apply ok_has_Ok. by apply has_type_array.
  - destruct (cast e) as [[v|s]|] eqn:E; [|by intros [= <-]; apply ok_has_Err|done].
    destruct (cast_elements cast elems) as [[vs|s]|]; [|by intros [= <-]; apply ok_has_Err|done].
    intros [= <-]. apply ok_has_Ok, has_type_array. split; [done|].
    specialize (IH _ eq_refl (SArray t vs) eq_refl). apply has_type_array in IH as [_ IH].
    constructor; [|done]. by apply (He _ eq_refl).
Qed.

Lemma TryCastValueToType_type target inner s nul r :
  supported target = true -> has_type inner s = true ->
  TryCastValueToType inner (Some s) target nul = Some r -> ok_has target r.
Proof.
  revert inner s r.
  induction target as [target Leaf|t IH|t IH|fs IH] using SqlType_nested_ind;
    intros inner s r Su HT;
    pose proof (NullOfType_has_type _ Su) as Nt;
    pose proof (TryCastStructFields_type inner s _ nul r Su HT) as St;
    pose proof (TryCastStringBytesPair_type inner _ nul r Su) as Sb.
  1: destruct target; try done; cbn [TryCastValueToType].
  all: cbn [TryCastValueToType].
  all: case_bool_decide as E; [injection E as ->; intros [= <-]; by apply ok_has_Ok|].
  all: destruct (is_null inner) eqn:N; [intros [= <-]; by apply ok_has_Ok|].
  all: destruct (TryCastStringBytesPair _ _ _) as [r'|]; [intros [= <-]; by apply Sb|].
  all: try (by apply St).
  destruct inner as [| | | | | | | | | | | | | | | | | | | | |e elems|]; try (by apply St).
  pose proof (has_type_type_of _ _ HT) as [= <-].
  case_bool_decide as Ee; [intros [= <-]; subst; by apply ok_has_Ok|].
  destruct (cast_elements _ elems) as [r'|] eqn:C; [|done]. intros [= <-].
  eapply cast_elements_type; [|done]. apply has_type_array in HT as [_ HT].
  eapply Forall_impl; [done|]. intros x Hx r0 Er. exact (IH x e r0 Su Hx Er).
Qed.

Lemma ApplyNumericPrecisionScale_type n p sc : ok_has TNumeric (ApplyNumericPrecisionScale n p sc).
Proof. unfold ApplyNumericPrecisionScale. ok_type. Qed.

Lemma ApplyCastTypeModifiers_type v t ps nul :
  has_type v t = true -> ok_has t (ApplyCastTypeModifiers v ps nul).
Proof.
  intros HT. pose proof (has_type_type_of _ _ HT) as Ty.
  unfold ApplyCastTypeModifiers, ApplyNumericTypeModifiers, ApplyBignumericPrecisionScale.
  destruct ps as [ps|]; [|by apply ok_has_Ok].
  destruct (is_null v); [by apply ok_has_Ok|].
  destruct ps; [| |apply ok_has_Err]; destruct v; try (by apply ok_has_Ok);
    injection Ty as <-; try (by ok_type).
  destruct (ApplyNumericPrecisionScale _ _ _) eqn:E; [|ok_type].
  rewrite <- E. apply ApplyNumericPrecisionScale_type.
Qed.

Lemma null_or_error_type {A} cast t (mk : A -> Value) r :
  (forall a, has_type (mk a) t = true) -> ok_has t (null_or_error cast t mk r).
Proof.
  intros F. unfold null_or_error. destruct r; [by apply ok_has_Ok|].
  destruct (return_null_on_error cast); [|apply ok_has_Err].
  apply ok_has_Ok. by apply bool_decide_eq_true.
Qed.

Lemma format_cast_type cast inner target r :
  supported target = true -> TryEvalCastFormatAndTimezone cast inner target = Some r -> ok_has target r.
Proof.
  intros Su. pose proof (NullOfType_has_type _ Su) as Nt.
  assert (forall l, Forall (fun o => forall r, o = Some r -> ok_has target r) l ->
          first_some l = Some r -> ok_has target r) as K.
  { intros l F. induction F as [|[x|] l Hx F IH]; simpl; [done| |done]. intros [= <-]. auto. }
  apply K. clear K r. repeat constructor; intros r.
  - unfold TryEvalCastFormatToString. destruct (format cast); [|done].
    destruct target; try done; cbn [kind]; rewrite bool_decide_true by done; cbn [negb].
    destruct (is_null inner); [intros [= <-]; ok_type|].
    destruct (CastFormatLiteral cast); [|intros [= <-]; apply ok_has_Err].
    destruct inner; try done; intros [= <-]; try (apply ok_has_bind; intros);
      apply null_or_error_type; intros; by apply bool_decide_eq_true.
  - unfold TryEvalCastFormatFromString. destruct (format cast); [|done].
    destruct (is_kind inner TYPE_STRING); cbn [negb]; [|done].
    destruct (is_null inner); [intros [= <-]; by apply ok_has_Ok|].
    destruct (CastFormatLiteral cast); [|intros [= <-]; apply ok_has_Err].
    destruct target; try done; cbn [kind]; intros [= <-]; apply ok_has_bind; intros;
      apply null_or_error_type; intros; by apply bool_decide_eq_true.
  - unfold TryEvalCastTimestampTimezone, TimestampToStringInZone, TimestampToDatetimeInZone.
    destruct (format cast); [done|]. destruct (time_zone cast); [|done].
    destruct (is_kind inner TYPE_TIMESTAMP); cbn [negb]; [|done].
    destruct target; try done; cbn [kind]; intros [= <-];
      (destruct (is_null inner); [ok_type|]); apply ok_has_bind; intros;
      apply null_or_error_type; intros; by apply bool_decide_eq_true.
Qed.

(** The value of a cast has the target type. *)
Lemma cast_type_sound cast source target inner v :
  extended_cast cast = None -> supported target = true -> has_type inner source = true ->
  EvalResolvedCast cast (Some target) inner (Some source) = Ok v -> has_type v target = true.
Proof.
  intros Ext Su HT. revert v. change (ok_has target (EvalResolvedCast cast (Some target) inner (Some source))).
  pose proof (NullOfType_has_type _ Su) as Nt. unfold EvalResolvedCast. rewrite Ext.
  destruct (TryEvalCastFormatAndTimezone cast inner target) as [r|] eqn:F.
  { apply format_cast_type in F; [|done]. apply ok_has_bind. intros a Ea.
    apply ApplyCastTypeModifiers_type. by apply F. }
  destruct (TryCastValueToType inner (Some source) target _) as [r|] eqn:T.
  { apply TryCastValueToType_type in T; [|done..]. apply ok_has_bind. intros a Ea.
    apply ApplyCastTypeModifiers_type. by apply T. }
  case_bool_decide as E; [injection E as ->; by apply ApplyCastTypeModifiers_type|].
  destruct (is_null inner); [by apply ApplyCastTypeModifiers_type|].
  destruct (CastByTargetKind inner target _) as [w|e] eqn:C.
  { apply ApplyCastTypeModifiers_type. by eapply CastByTargetKind_type. }
  destruct (return_null_on_error cast); [by apply ApplyCastTypeModifiers_type|].
  case_match; apply ok_has_Err.
Qed.

(** ** SAFE_CAST *)

Lemma TryCastStringBytesPair_safe inner target r :
  TryCastStringBytesPair inner target true = Some r -> is_ok r = true.
Proof.
  unfold TryCastStringBytesPair. destruct (kind target), inner; try done; intros [= <-];
    repeat case_match; done.
Qed.

Lemma TryCastValueToType_safe target inner source r :
  TryCastValueToType inner source target true = Some r -> is_ok r = true.
Proof.
  revert inner source r.
  induction target as [target Leaf|t IH|t IH|fs IH] using SqlType_nested_ind; intros inner source r;
    pose proof (TryCastStringBytesPair_safe inner) as Sb;
    assert (forall t, TryCastStructFields inner source t true = Some r -> is_ok r = true) as St
      by (intros t'; unfold TryCastStructFields; repeat case_match; by intros [= <-]).
  1: destruct target; try done; cbn [TryCastValueToType].
  all: cbn [TryCastValueToType].
  all: case_bool_decide; [by intros [= <-]|].
  all: destruct (is_null inner); [by intros [= <-]|].
  all: destruct (TryCastStringBytesPair _ _ _) as [r'|] eqn:E; [intros [= <-]; by eapply Sb|].
  all: try (by apply St).
  destruct inner as [| | | | | | | | | | | | | | | | | | | | |e elems|]; try (by apply St).
  case_bool_decide; [by intros [= <-]|].
  destruct (cast_elements _ elems) as [r'|] eqn:C; [|done]. intros [= <-].
  clear Sb St E. revert r' C. induction elems as [|x elems IHe]; intros r'; cbn [cast_elements];
    [by intros [= <-]|].
  destruct (TryCastValueToType x (Some e) t true) as [[v|s]|] eqn:X; [|by apply IH in X|done].
  destruct (cast_elements _ elems) as [[vs|s]|]; [by intros [= <-]| |done].
  by specialize (IHe _ eq_refl).
Qed.

(** A SAFE_CAST without type parameters, FORMAT, time zone or extended
    cast never fails, whatever the value and the types. *)
Theorem safe_cast_total cast source target inner :
  return_null_on_error cast = true -> format cast = None -> time_zone cast = None ->
  type_parameters cast = None -> extended_cast cast = None ->
  exists v, EvalResolvedCast cast (Some target) inner source = Ok v.
Proof.
  intros Nl Fm Tz Tp Ext. unfold EvalResolvedCast. rewrite Ext, Tp.
  unfold TryEvalCastFormatAndTimezone, TryEvalCastFormatToString, TryEvalCastFormatFromString,
    TryEvalCastTimestampTimezone. rewrite Fm, Tz. cbn [first_some foldr].
  rewrite Nl. destruct (TryCastValueToType _ _ _ _) as [r|] eqn:T.
  { apply TryCastValueToType_safe in T. destruct r; [by eexists|done]. }
  repeat case_match; by eexists.
Qed.
End cast_types.

(** ** INT64 through its text *)

Section cast_text.
Context `{AbslTextLaws, AbslDouble, GoogleSqlOps} `{!CastLibrary}.

Definition plain_cast (safe : bool) : CastNode := mkCast None None None None safe.

Lemma strip_zeros_id c s : c <> "0"%char -> strip_zeros (c :: s) = c :: s.
Proof. intros N. destruct s; [done|]. cbn [strip_zeros]. by destruct (Ascii.eqb_spec c "0"). Qed.

Lemma minus_not_digit : ascii_isdigit "-" = false.
Proof.
  destruct (ascii_isdigit "-") eqn:E; [|done]. apply ascii_isdigit_spec in E.
  change (byteval "-") with 45%Z in E. lia.
Qed.

Lemma StrInt_pos_cons z : (0 < z)%Z -> exists c s, StrInt z = c :: s /\ c <> "0"%char /\
  c <> "+"%char /\ c <> "-"%char.
Proof.
  intros Hz. destruct (StrInt z) as [|c s] eqn:E; [by destruct (StrInt_nonempty z)|].
  exists c, s. split; [done|]. split; [by eapply StrInt_leading|]. split.
  - intros ->. pose proof (StrInt_chars z) as F. rewrite E in F.
    apply Forall_cons in F as [[D|D] _]; [|done]. apply ascii_isdigit_spec in D.
    change (byteval "+") with 43%Z in D. lia.
  - intros ->. destruct (StrInt_shape (- z)) as ([] & ds & S & _ & F);
      rewrite StrInt_neg, E in S by done; simpl in S; simplify_eq;
      apply Forall_cons in F as [D _]; by rewrite minus_not_digit in D.
Qed.

Lemma StrInt_not_hex z : StartsWithIgnoreCase (StrInt z) $"0x" = false.
Proof.
  unfold StartsWithIgnoreCase, EqualsIgnoreCase. apply bool_decide_eq_false. intros E.
  apply (f_equal (map byteval)) in E. change (length $"0x") with 2 in E.
  pose proof (StrInt_chars z) as F.
  destruct (StrInt z) as [|c [|d s]]; [done..|].
  apply Forall_cons in F as [_ F]. apply Forall_cons in F as [Hd _].
  unfold AsciiStrToLower in E. cbn in E. injection E as _ E.
  rewrite !ascii_tolower_spec in E. change (byteval "x") with 120%Z in E.
  rewrite (bool_decide_false (65 <= 120 <= 90)%Z) in E by lia.
  destruct Hd as [D| ->].
  - apply ascii_isdigit_spec in D. rewrite bool_decide_false in E by lia. lia.
  - change (byteval "-") with 45%Z in E. rewrite bool_decide_false in E by lia. lia.
Qed.

Lemma CastDecimal_pos z : (0 < z)%Z ->
  CastDecimalStringToInt64 (StrInt z) =
    match SimpleAtoi (StrInt z) with Some p => Ok (SInt64 p) | None => Err int64_cast_failed end /\
  CastDecimalStringToInt64 ("-"%char :: StrInt z) =
    match SimpleAtoi (StrInt z) with
    | Some p => Ok (SInt64 (wrap_int64 (- p))) | None => Err int64_cast_failed
    end.
Proof.
  intros Hz. destruct (StrInt_pos_cons z Hz) as (c & s & -> & N0 & Np & Nm).
  unfold CastDecimalStringToInt64.
  destruct (Ascii.eqb_spec c "+"), (Ascii.eqb_spec c "-"); try done.
  change (Ascii.eqb "-" "+") with false. change (Ascii.eqb "-" "-") with true. cbv iota beta.
  by rewrite strip_zeros_id.
Qed.

Lemma cast_string_int64 safe text :
  EvalResolvedCast (plain_cast safe) (Some TInt64) (SString text) (Some TString) =
    match CastToInt64 (SString text) with
    | Ok v => Ok v
    | Err e => if safe then Ok NullInt64
               else match GetSemanticErrorReason (Some e) with
                    | rNotImplemented => Err (cast_from_to (Some TString) TInt64)
                    | _ => Err e
                    end
    end.
Proof. done. Qed.

(** An INT64 cast to STRING and back is the integer, except the
    smallest one: its text is refused, or null under SAFE_CAST. *)
Theorem int64_text_roundtrip safe z :
  in_int64 z ->
  exists text,
    EvalResolvedCast (plain_cast safe) (Some TString) (SInt64 z) (Some TInt64) = Ok (SString text) /\
    (z <> int64_min ->
       EvalResolvedCast (plain_cast safe) (Some TInt64) (SString text) (Some TString) = Ok (SInt64 z)) /\
    (z = int64_min ->
       EvalResolvedCast (plain_cast safe) (Some TInt64) (SString text) (Some TString) =
       if safe then Ok NullInt64 else Err int64_cast_failed).
Proof.
  intros Hz. exists (StrInt z). split; [done|]. rewrite cast_string_int64.
  unfold CastToInt64. rewrite StrInt_not_hex.
  destruct (Z.lt_trichotomy z 0) as [Neg|[->|Pos]].
  - assert (StrInt z = "-"%char :: StrInt (- z)) as ->.
    { rewrite <- StrInt_neg by lia. by rewrite Z.opp_involutive. }
    rewrite (proj2 (CastDecimal_pos (- z) ltac:(lia))). split.
    + intros N. rewrite SimpleAtoi_StrInt by (unfold in_int64, int64_min, int64_max in *; lia).
      by rewrite Z.opp_involutive, wrap_int64_id.
    + intros ->. rewrite SimpleAtoi_out; [by destruct safe|].
      unfold in_int64, int64_min, int64_max. lia.
  - split; [intros _|done]. pose proof (SimpleAtoi_StrInt 0 Hz) as A.
    rewrite StrInt_zero in *. change (CastDecimalStringToInt64 $"0") with
      (match SimpleAtoi $"0" with Some p => Ok (SInt64 p) | None => Err int64_cast_failed end).
    by rewrite A.
  - rewrite (proj1 (CastDecimal_pos z Pos)), SimpleAtoi_StrInt by done. split; [done|].
    unfold int64_min in *. lia.
Qed.
End cast_text.
