(* ===== verification/EvalExpr.v ===== *)
(** * EvalExpr: the expression evaluator of the semantic executor

    Models [backend/engine/semantic/eval_expr.cc] (the cases of [EvalExpr]),
    [eval_expr_calls.cc] (lazy builtins, SQL function calls, SAFE calls),
    [eval_expr_fn_dispatch.cc] (the builtin dispatch by name),
    [eval_expr_proto.cc] (row fields) and [eval_context.h] (the context).

    A resolved expression is the tree GoogleSQL's analyzer builds; [ENull] is a
    null child pointer, which the code tests for.  A SQL function call carries
    the function's resolved body, so a call is evaluated by structural
    recursion.  What the evaluator calls in other files
    (subqueries, aggregates inside UDAF bodies, JSON fields, the function
    families behind [functions::Dispatch], the external runtimes, the registry
    of project functions) is the class [ExecutorParts]. *)

From S2P Require Import Prelude Absl AbslReference Storage SemanticError FrameStack SqlValue.
From S2P Require Import GoogleSqlReference Arithmetic Operators MathFuncs Casts.

(** ** The context *)

Class ExecutorNodes := {
  SubqueryNode : Type;
  AggregateNode : Type;
  UdafEvalScope : Type;
  JsUdfDefinition : Type;
  PythonUdfDefinition : Type;
}.

Record ParameterBindings `{GoogleSql} := mkParameters {
  by_name : gmap str Value;
  by_position : list Value;
}.

(** The rows of a WITH entry or of a TABLE argument, with the column ids of the
    scan that produced them in the analyzer's order. *)
Record CteTable `{GoogleSql} := mkCteTable {
  cte_column_ids : list Z;
  cte_rows : list (gmap Z Value);
}.

(** The pointers of [EvalContext]; [None] is a null pointer.  The scopes of
    pipes ([subpipeline]) and of flattened paths ([flatten]) are read by no
    modelled function; [bignumeric_render_override] is output formatting. *)
Record EvalContext `{GoogleSql, ExecutorNodes} := mkContext {
  project_id : str;
  parameters : option ParameterBindings;
  columns : option (gmap Z Value);
  columns_by_name : option (gmap str Value);
  arguments : option (FrameStack Value);
  script_variables : option (FrameStack Value);
  script_system_variables : option (gmap (list str) Value);
  udaf : option UdafEvalScope;
  with_tables : option (gmap str CteTable);
  relation_arguments : option (gmap str CteTable);
  group_rows : option (list (gmap Z Value));
}.

Arguments mkParameters {_}.
Arguments mkCteTable {_}.
Arguments mkContext {_ _}.

(** ** Resolved expressions *)

Record ResolvedColumn := mkColumn {
  column_id : Z;
  column_name : str;
  column_type : option SqlType;
  table_name : str;
}.

(** What a call reads of its [Function]; the argument names are those of the
    [TemplatedSQLFunction] or [SQLFunction] it is, if it is one. *)
Record FunctionInfo := mkFunction {
  FullName : str;
  fn_Name : str;
  fn_group : str;
  IsAggregate : bool;
  templated_argument_names : option (list str);
  sql_argument_names : option (list str);
}.

Inductive ErrorMode := DEFAULT_ERROR_MODE | SAFE_ERROR_MODE.

#[export] Instance ErrorMode_eq_dec : EqDecision ErrorMode.
Proof. solve_decision. Defined.

(** A named constant; [const_value] is [None] when [HasValue] is false. *)
Record Constant `{GoogleSql} := mkConstant {
  const_Name : str;
  const_FullName : str;
  const_value : option (StatusOr Value);
}.

Arguments mkConstant {_}.

Inductive ResolvedExpr `{GoogleSql, ExecutorNodes} :=
| ENull
| ELiteral (v : Value)
| EParameter (name : str) (position : Z) (is_untyped : bool) (type : option SqlType)
| ECall (fn : option FunctionInfo) (templated_body sql_body : option ResolvedExpr)
    (args : list ResolvedExpr) (error_mode : ErrorMode) (type : option SqlType)
| ECast (cast : CastNode) (expr : ResolvedExpr) (type : option SqlType)
| EArgumentRef (name : str) (type : option SqlType)
| EColumnRef (column : ResolvedColumn) (is_correlated : bool)
| EConstant (constant : option Constant) (type : option SqlType)
| EMakeStruct (field_list : list ResolvedExpr) (type : option SqlType)
| EGetStructField (expr : ResolvedExpr) (field_idx : Z) (type : option SqlType)
| EGetJsonField (expr : ResolvedExpr) (field_name : str) (type : option SqlType)
| EWithExpr (assignment_list : list (ResolvedColumn * ResolvedExpr)) (expr : ResolvedExpr)
    (type : option SqlType)
| ESubquery (node : SubqueryNode) (type : option SqlType)
| ESystemVariable (name_path : list str) (type : option SqlType)
| EAggregateCall (node : AggregateNode) (type : option SqlType)
| EGetRowField (expr : ResolvedExpr) (column : option str) (type : option SqlType)
| EExpressionColumn (name : str) (type : option SqlType)
| ECatalogColumnRef (name : str) (column : option str) (type : option SqlType)
| EOther (node_kind : str) (type : option SqlType).

Class ExecutorParts `{GoogleSql, ExecutorNodes} := {
  (** the groups of GoogleSQL's [TemplatedSQLFunction] and [SQLFunction] *)
  kTemplatedSQLFunctionGroup : str;
  kSQLFunctionGroup : str;
  EvalSubqueryExpr : SubqueryNode -> EvalContext -> StatusOr Value;
  EvalUdafInnerAggregate : AggregateNode -> UdafEvalScope -> EvalContext -> StatusOr Value;
  EvalUdafInnerFunctionCall : FunctionInfo -> list ResolvedExpr -> UdafEvalScope -> EvalContext -> StatusOr Value;
  JsonGetField : Value -> str -> option SqlType -> StatusOr Value;
  GetSystemVariable : str -> list str -> StatusOr Value;
  functions_Dispatch : str -> list Value -> option SqlType -> EvalContext -> option (StatusOr Value);
  stubs_Dispatch : str -> list Value -> option SqlType -> option (StatusOr Value);
  Extract : list Value -> option SqlType -> StatusOr Value;
  ExtractDateFromTimestamp : Z -> StatusOr Z;
  EmuFormatTypeLiteral : list Value -> StatusOr Value;
  IsProjectRegisteredFunction : str -> str -> bool;
  LookupProjectJsUdf : str -> str -> option JsUdfDefinition;
  LookupProjectPythonUdf : str -> str -> option PythonUdfDefinition;
  EvalJsUdfCall : JsUdfDefinition -> list Value -> option SqlType -> list (option SqlType) -> StatusOr Value;
  EvalPythonUdfCall : str -> PythonUdfDefinition -> list Value -> option SqlType -> list (option SqlType) -> StatusOr Value;
}.

Section eval.
Context `{AbslText, AbslDouble, GoogleSqlOps, ExecutorNodes} `{!CastLibrary, !ExecutorParts}.

Definition expr_type (e : ResolvedExpr) : option SqlType :=
  match e with
  | ENull => None
  | ELiteral v => type_of v
  | EColumnRef c _ => column_type c
  | EParameter _ _ _ t | ECall _ _ _ _ _ t | ECast _ _ t | EArgumentRef _ t | EConstant _ t
  | EMakeStruct _ t | EGetStructField _ _ t | EGetJsonField _ _ t | EWithExpr _ _ t | ESubquery _ t
  | ESystemVariable _ t | EAggregateCall _ t | EGetRowField _ _ t | EExpressionColumn _ t
  | ECatalogColumnRef _ _ t | EOther _ t => t
  end.

(** ** Builtins by name *)

Definition is_name (name : str) (names : list str) : bool := bool_decide (name ∈ names).

Definition IsArithmeticBuiltin (name : str) : bool :=
  is_name name [$"$add"; $"add"; $"$subtract"; $"subtract"; $"$multiply"; $"multiply"; $"$divide";
    $"divide"; $"$unary_minus"; $"unary_minus"; $"abs"; $"$make_array"].

Definition IsComparisonBuiltin (name : str) : bool :=
  is_name name [$"$equal"; $"equal"; $"$not_equal"; $"not_equal"; $"$less"; $"less";
    $"$less_or_equal"; $"less_or_equal"; $"$greater"; $"greater"; $"$greater_or_equal";
    $"greater_or_equal"; $"$like"; $"$not_like"; $"$between"; $"$not_between"].

Definition IsInBuiltin (name : str) : bool :=
  is_name name [$"$in"; $"$not_in"; $"$in_array"; $"$not_in_array"].

Definition IsLogicalBuiltin (name : str) : bool :=
  is_name name [$"$and"; $"and"; $"$or"; $"or"; $"$not"; $"not"; $"$is_null"; $"is_null";
    $"$is_not_null"; $"is_not_null"; $"$is_true"; $"$is_not_true"; $"$is_false"; $"$is_not_false";
    $"$is_distinct_from"; $"$is_not_distinct_from"].

Definition IsConditionalBuiltin (name : str) : bool :=
  is_name name [$"if"; $"coalesce"; $"ifnull"; $"nullif"; $"$case_with_value"; $"$case_no_value"].

Definition IsSafeBuiltin (name : str) : bool :=
  is_name name [$"safe_add"; $"safe_subtract"; $"safe_multiply"; $"safe_negate"; $"safe_divide"].

Definition IsBitwiseBuiltin (name : str) : bool :=
  is_name name [$"$bitwise_and"; $"$bitwise_or"; $"$bitwise_xor"; $"$bitwise_not";
    $"$bitwise_left_shift"; $"$bitwise_right_shift"].

Definition not_implemented (m : str) : Status := MakeSemanticError rNotImplemented m.

Definition DispatchBuiltinArithmetic (name : str) (args : list Value) (rt : option SqlType)
    : StatusOr Value :=
  if is_name name [$"$add"; $"add"] then DispatchAdd args rt
  else if is_name name [$"$subtract"; $"subtract"] then DispatchSub args rt
  else if is_name name [$"$multiply"; $"multiply"] then DispatchMul args rt
  else if is_name name [$"$divide"; $"divide"] then DispatchDiv args rt
  else if is_name name [$"$unary_minus"; $"unary_minus"] then DispatchUnaryMinus args rt
  else if is_name name [$"abs"] then DispatchAbs args rt
  else if is_name name [$"$make_array"] then
    match rt with
    | Some (TArray elem) => Ok (SArray elem args)
    | _ => Err (InvalidArgumentError $"semantic: $make_array requires ARRAY return type")
    end
  else Err (not_implemented $"semantic: unknown arithmetic builtin").

Definition DispatchBuiltinComparison (name : str) (args : list Value) : StatusOr Value :=
  if is_name name [$"$equal"; $"equal"] then DispatchEqual args
  else if is_name name [$"$not_equal"; $"not_equal"] then DispatchNotEqual args
  else if is_name name [$"$less"; $"less"] then DispatchLess args
  else if is_name name [$"$less_or_equal"; $"less_or_equal"] then DispatchLessOrEqual args
  else if is_name name [$"$greater"; $"greater"] then DispatchGreater args
  else if is_name name [$"$greater_or_equal"; $"greater_or_equal"] then DispatchGreaterOrEqual args
  else if is_name name [$"$like"; $"$not_like"] then DispatchLike name args
  else if is_name name [$"$between"; $"$not_between"] then DispatchBetween name args
  else Err (not_implemented $"semantic: unknown comparison builtin").

(** The elements of a null array cannot be read: GoogleSQL aborts there, and
    the accessor of the model has none. *)
Definition DispatchBuiltinIn (name : str) (args : list Value) : StatusOr Value :=
  if is_name name [$"$in"; $"$not_in"] then
    match args with
    | [lhs; arr] =>
        if match type_of arr with Some t => IsArray t | None => false end
        then DispatchIn name (lhs :: elements arr)
        else DispatchIn name args
    | _ => DispatchIn name args
    end
  else if is_name name [$"$in_array"; $"$not_in_array"] then
    match args with
    | [lhs; arr] =>
        let in_name := if bool_decide (name = $"$not_in_array") then $"$not_in" else $"$in" in
        if is_null arr then Ok NullBool
        else if negb match type_of arr with Some t => IsArray t | None => false end
        then Err (InvalidArgumentError $"semantic: $in_array expects an ARRAY second argument")
        else DispatchIn in_name (lhs :: elements arr)
    | _ => Err (expects_two $"$in_array")
    end
  else Err (not_implemented $"semantic: unknown IN builtin").

Definition DispatchBuiltinLogical (name : str) (args : list Value) : StatusOr Value :=
  if is_name name [$"$and"; $"and"] then DispatchAnd args
  else if is_name name [$"$or"; $"or"] then DispatchOr args
  else if is_name name [$"$not"; $"not"] then DispatchNot args
  else if is_name name [$"$is_null"; $"is_null"] then DispatchIsNull args false
  else if is_name name [$"$is_not_null"; $"is_not_null"] then DispatchIsNull args true
  else if is_name name [$"$is_true"; $"$is_not_true"] then DispatchIsTrue name args
  else if is_name name [$"$is_false"; $"$is_not_false"] then DispatchIsFalse name args
  else if is_name name [$"$is_distinct_from"; $"$is_not_distinct_from"]
  then DispatchIsDistinctFrom name args
  else Err (not_implemented $"semantic: unknown logical builtin").

Definition DispatchBuiltinConditional (name : str) (args : list Value) (rt : option SqlType)
    : StatusOr Value :=
  if is_name name [$"if"] then DispatchIf args
  else if is_name name [$"coalesce"] then DispatchCoalesce args rt
  else if is_name name [$"ifnull"] then DispatchIfNull args
  else if is_name name [$"nullif"] then DispatchNullIf args rt
  else if is_name name [$"$case_with_value"] then DispatchCaseWithValue args rt
  else if is_name name [$"$case_no_value"] then DispatchCaseNoValue args rt
  else Err (not_implemented $"semantic: unknown conditional builtin").

Definition DispatchBuiltinSafe (name : str) (args : list Value) (rt : option SqlType)
    : StatusOr Value :=
  if is_name name [$"safe_add"] then WrapSafe (DispatchAdd args rt) rt
  else if is_name name [$"safe_subtract"] then WrapSafe (DispatchSub args rt) rt
  else if is_name name [$"safe_multiply"] then WrapSafe (DispatchMul args rt) rt
  else if is_name name [$"safe_negate"] then WrapSafe (DispatchUnaryMinus args rt) rt
  else if is_name name [$"safe_divide"] then WrapSafe (DispatchDiv args rt) rt
  else Err (not_implemented $"semantic: unknown SAFE builtin").

Definition extract_prefix : str := $"$extract_".

Definition DispatchBuiltinExtractPrefix (name : str) (args : list Value) (rt : option SqlType)
    : StatusOr Value :=
  match strip_prefix extract_prefix name with
  | None => Err (not_implemented $"semantic: not an extract builtin")
  | Some part =>
      match args with
      | [] => Ok (NullOfType rt)
      | v :: rest =>
          if is_null v then Ok (NullOfType rt)
          else if bool_decide (part = $"date") && bool_decide (rt = Some TDate)
                    && is_kind v TYPE_TIMESTAMP
          then SDate <$> ExtractDateFromTimestamp (ToUnixMicros v)
          else Extract (v :: SString (AsciiStrToUpper part) :: take 1 rest) rt
      end
  end.

Definition DispatchFunctionByName (name : str) (args : list Value) (rt : option SqlType)
    (ctx : EvalContext) : StatusOr Value :=
  if IsArithmeticBuiltin name then DispatchBuiltinArithmetic name args rt
  else if IsComparisonBuiltin name then DispatchBuiltinComparison name args
  else if IsInBuiltin name then DispatchBuiltinIn name args
  else if IsLogicalBuiltin name then DispatchBuiltinLogical name args
  else if IsBitwiseBuiltin name then DispatchBitwise name args
  else if is_name name [$"$interval"] then DispatchInterval args
  else if IsConditionalBuiltin name then DispatchBuiltinConditional name args rt
  else if IsSafeBuiltin name then DispatchBuiltinSafe name args rt
  else match strip_prefix extract_prefix name with
  | Some _ => DispatchBuiltinExtractPrefix name args rt
  | None =>
      match functions_Dispatch name args rt ctx with
      | Some dispatched => dispatched
      | None =>
          match stubs_Dispatch name args rt with
          | Some dispatched => dispatched
          | None => Err (not_implemented ($"semantic: function '" ++ name
                      ++ $"' is not yet implemented in the semantic executor"))
          end
      end
  end.

(** ** Leaves *)

Definition DefaultInternalAnalyzerColumn (col : ResolvedColumn) : StatusOr Value :=
  match column_name col with
  | c :: _ =>
      if negb (Ascii.eqb c "$") then Err (NotFoundError $"not an internal analyzer column")
      else
        let null := match column_type col with Some t => SNull t | None => SInvalid end in
        if bool_decide (column_name col = $"$side_effects") then
          Ok match column_type col with Some TBytes => NullBytes | _ => null end
        else Ok match column_type col with Some TBool => SBool false | _ => null end
  | [] => Err (NotFoundError $"not an internal analyzer column")
  end.

Definition EvalResolvedParameter (name : str) (position : Z) (is_untyped : bool) (ctx : EvalContext)
    : StatusOr Value :=
  match parameters ctx with
  | None => Err (InvalidArgumentError
              $"semantic: ResolvedParameter referenced but no parameter bindings supplied")
  | Some bindings =>
      if is_untyped then
        Err (MakeSemanticError rInvalidArgument $"semantic: untyped parameter has no value to bind to")
      else match name with
      | _ :: _ =>
          match by_name bindings !! AsciiStrToLower name with
          | Some v => Ok v
          | None => Err (MakeSemanticError rInvalidArgument
                      ($"semantic: no value bound for parameter @" ++ name))
          end
      | [] =>
          if (0 <? position)%Z then
            match by_position bindings !! Z.to_nat (position - 1) with
            | Some v => Ok v
            | None => Err (MakeSemanticError rInvalidArgument
                        ($"semantic: no value bound for positional parameter #" ++ StrInt position))
            end
          else Err (InvalidArgumentError $"semantic: ResolvedParameter has neither name nor position")
      end
  end.

(** The value bound to the name, or the default of an analyzer column. *)
Definition column_fallback (col : ResolvedColumn) (ctx : EvalContext) : option Value :=
  match columns_by_name ctx ≫= (.!! column_name col) with
  | Some v => Some v
  | None => match DefaultInternalAnalyzerColumn col with Ok v => Some v | Err _ => None end
  end.

Definition LookupColumnRef (col : ResolvedColumn) (ctx : EvalContext) : StatusOr Value :=
  match columns ctx with
  | None =>
      match column_fallback col ctx with
      | Some v => Ok v
      | None => Err (not_implemented ($"semantic: ResolvedColumnRef '" ++ column_name col
                  ++ $"' referenced without a row binding; correlated scans require correlated scan support; see docs/ENGINE_POLICY.md"))
      end
  | Some row =>
      match row !! column_id col with
      | Some v => Ok v
      | None =>
          match column_fallback col ctx with
          | Some v => Ok v
          | None => Err (MakeSemanticError rInvalidArgument
                      ($"semantic: no row binding for column '" ++ column_name col
                         ++ $"' (column_id=" ++ StrInt (column_id col) ++ $")"))
          end
      end
  end.

Definition EvalResolvedConstant (constant : option Constant) (ctx : EvalContext) : StatusOr Value :=
  match constant with
  | None => Err (InternalError $"semantic: ResolvedConstant has null constant pointer")
  | Some c =>
      let from_catalog :=
        match const_value c with
        | None => Err (MakeSemanticError rInvalidArgument ($"semantic: constant '" ++ const_FullName c
                    ++ $"' has no bound value (catalog returned HasValue=false)"))
        | Some (Ok v) => Ok v
        | Some (Err e) => Err (MakeSemanticError rInvalidArgument ($"semantic: constant '"
                            ++ const_FullName c ++ $"' failed to provide its value: " ++ message e))
        end in
      match script_variables ctx with
      | Some vars => if Has vars (const_Name c) then Lookup vars (const_Name c) else from_catalog
      | None => from_catalog
      end
  end.

Definition EvalResolvedArgumentRefExpr (name : str) (ctx : EvalContext) : StatusOr Value :=
  match arguments ctx with
  | None => Err (MakeSemanticError rInvalidArgument ($"semantic: ResolvedArgumentRef '" ++ name
              ++ $"' evaluated without an invocation frame; UDF / TVF body executors must populate EvalContext::arguments before calling EvalExpr"))
  | Some frames =>
      match Lookup frames name with
      | Ok v => Ok v
      | Err e => Err (MakeSemanticError rInvalidArgument ($"semantic: ResolvedArgumentRef '" ++ name
                   ++ $"' has no binding on the invocation frame: " ++ message e))
      end
  end.

Definition EvalResolvedSystemVariableExpr (name_path : list str) (ctx : EvalContext) : StatusOr Value :=
  match script_system_variables ctx ≫= (.!! name_path) with
  | Some v => Ok v
  | None => GetSystemVariable (project_id ctx) name_path
  end.

Definition EvalResolvedAggregateFunctionCallExpr (node : AggregateNode) (ctx : EvalContext)
    : StatusOr Value :=
  match udaf ctx with
  | Some scope => EvalUdafInnerAggregate node scope ctx
  | None => Err (not_implemented $"semantic: aggregate function call outside SQL UDAF body evaluation is not yet implemented")
  end.

Definition EvalResolvedExpressionColumnExpr (name : str) (ctx : EvalContext) : StatusOr Value :=
  match columns_by_name ctx ≫= (.!! name) with
  | Some v => Ok v
  | None =>
      match match script_variables ctx with Some vars => of_status (Lookup vars name) | None => None end with
      | Some v => Ok v
      | None => Err (MakeSemanticError rInvalidArgument ($"semantic: no binding for expression column '"
                  ++ name ++ $"'; populate EvalContext::columns_by_name or script_variables before evaluating AnalyzeExpression output"))
      end
  end.

Definition EvalResolvedCatalogColumnRefExpr (name : str) (column : option str) : StatusOr Value :=
  if negb (bool_decide (name = [])) then
    Err (not_implemented $"semantic: ResolvedCatalogColumnRef graph-property references are out of scope locally (Graph / GQL is unsupported and not planned; see docs/ENGINE_POLICY.md)")
  else match column with
  | None => Err (MakeSemanticError rInvalidArgument $"semantic: ResolvedCatalogColumnRef has neither catalog column nor graph property name")
  | Some c => Err (not_implemented ($"semantic: ResolvedCatalogColumnRef for catalog column '" ++ c
                ++ $"' is not reachable from PRODUCT_EXTERNAL query SQL today; DDL expression contexts remain unsupported (see ROADMAP "
                ++ [byteof 0xC2; byteof 0xA7] ++ $"Catalog / sequence helpers)"))
  end.

(** The field of a STRUCT value by index. *)
Definition struct_field (base : Value) (field_idx : Z) (type : option SqlType) : StatusOr Value :=
  if is_null base then Ok (NullOfType type)
  else if negb match type_of base with Some t => IsStruct t | None => false end
  then Err (InvalidArgumentError $"semantic: GetStructField base is not STRUCT")
  else if ((field_idx <? 0) || (num_fields base <=? field_idx))%Z
  then Err (InvalidArgumentError $"semantic: GetStructField index out of range")
  else match fields base !! Z.to_nat field_idx with
       | Some v => Ok v
       | None => Err (InvalidArgumentError $"semantic: GetStructField index out of range")
       end.

(** The first field of a row STRUCT with the column's name. *)
Definition row_field (base : Value) (name : str) (type : option SqlType) : StatusOr Value :=
  if is_null base then Ok (NullOfType type)
  else match base with
  | SStruct st vals =>
      match list_find (fun f : str * SqlType => f.1 = name) st ≫= (fun p => vals !! p.1) with
      | Some v => Ok v
      | None => Err (InvalidArgumentError ($"semantic: GetRowField column '" ++ name
                  ++ $"' not found in row STRUCT"))
      end
  | _ => Err (InvalidArgumentError $"semantic: GetRowField base is not STRUCT")
  end.

(** ** Function calls *)

Definition LowerFunctionDispatchName (fn : FunctionInfo) : str :=
  match AsciiStrToLower (FullName fn) with
  | [] => AsciiStrToLower (fn_Name fn)
  | name => name
  end.

Definition with_arguments (ctx : EvalContext) (frames : FrameStack Value) : EvalContext :=
  mkContext (project_id ctx) (parameters ctx) (columns ctx) (columns_by_name ctx) (Some frames)
    (script_variables ctx) (script_system_variables ctx) (udaf ctx) (with_tables ctx)
    (relation_arguments ctx) (group_rows ctx).

Definition with_columns (ctx : EvalContext) (row : gmap Z Value) (named : gmap str Value)
    : EvalContext :=
  mkContext (project_id ctx) (parameters ctx) (Some row) (Some named) (arguments ctx)
    (script_variables ctx) (script_system_variables ctx) (udaf ctx) (with_tables ctx)
    (relation_arguments ctx) (group_rows ctx).

(** [Declare] of the arguments in order; the first failure stops. *)
Fixpoint declare_arguments (frames : FrameStack Value) (bindings : list (str * Value))
    : StatusOr (FrameStack Value) :=
  match bindings with
  | [] => Ok frames
  | (name, v) :: bindings =>
      let '(frames, declared) := Declare_ frames name v in
      _ ← declared; declare_arguments frames bindings
  end.

(** The handlers call the evaluator on the parts of the node. *)
Section handlers.
Context (EvalExpr_ : ResolvedExpr -> EvalContext -> StatusOr Value).

Definition EvalIfLazy (args : list ResolvedExpr) (ctx : EvalContext) : StatusOr Value :=
  match args with
  | [c; a; b] =>
      cond ← EvalExpr_ c ctx;
      if is_true cond then EvalExpr_ a ctx else EvalExpr_ b ctx
  | _ => Err (InvalidArgumentError $"semantic: IF expects three arguments")
  end.

Definition EvalIfNullLazy (args : list ResolvedExpr) (ctx : EvalContext) : StatusOr Value :=
  match args with
  | [a; b] =>
      first ← EvalExpr_ a ctx;
      if negb (is_null first) then Ok first else EvalExpr_ b ctx
  | _ => Err (InvalidArgumentError $"semantic: IFNULL expects two arguments")
  end.

(** A list of one expression is the ELSE arm. *)
Fixpoint CaseNoValueLoop (args : list ResolvedExpr) (ctx : EvalContext) : StatusOr Value :=
  match args with
  | c :: t :: rest =>
      cond ← EvalExpr_ c ctx;
      if is_true cond then EvalExpr_ t ctx else CaseNoValueLoop rest ctx
  | [e] => EvalExpr_ e ctx
  | [] => Err (InvalidArgumentError $"semantic: CASE expects odd argument count")
  end.

Definition EvalCaseNoValueLazy (args : list ResolvedExpr) (ctx : EvalContext) : StatusOr Value :=
  if (length args mod 2 =? 0)
  then Err (InvalidArgumentError $"semantic: CASE expects odd argument count")
  else CaseNoValueLoop args ctx.

Fixpoint CaseWithValueLoop (input : Value) (args : list ResolvedExpr) (ctx : EvalContext)
    : StatusOr Value :=
  match args with
  | w :: t :: rest =>
      when_ ← EvalExpr_ w ctx;
      if is_null input || is_null when_ then CaseWithValueLoop input rest ctx
      else if Equals input when_ then EvalExpr_ t ctx
      else CaseWithValueLoop input rest ctx
  | [e] => EvalExpr_ e ctx
  | [] => Err (InvalidArgumentError $"semantic: $case_with_value expects even argument count")
  end.

Definition EvalCaseWithValueLazy (args : list ResolvedExpr) (ctx : EvalContext) : StatusOr Value :=
  match args with
  | i :: ((_ :: _) as arms) =>
      if negb (length args mod 2 =? 0)
      then Err (InvalidArgumentError $"semantic: $case_with_value expects even argument count")
      else input ← EvalExpr_ i ctx; CaseWithValueLoop input arms ctx
  | _ => Err (InvalidArgumentError $"semantic: $case_with_value expects even argument count")
  end.

Definition EvalWithSideEffects (args : list ResolvedExpr) (ctx : EvalContext) : StatusOr Value :=
  match args with
  | [e; p] =>
      payload ← EvalExpr_ p ctx;
      if negb (is_null payload) then
        match payload with
        | SBytes s => Err (MakeSemanticError rInvalidArgument ($"semantic: deferred side effect: " ++ s))
        | _ => Err (MakeSemanticError rInvalidArgument $"semantic: deferred side effect")
        end
      else EvalExpr_ e ctx
  | _ => Err (expects_two $"$with_side_effects")
  end.

Fixpoint CollectFunctionCallArgs (args : list ResolvedExpr) (ctx : EvalContext)
    : StatusOr (list Value) :=
  match args with
  | [] => Ok []
  | ENull :: _ => Err (InvalidArgumentError $"semantic: ResolvedFunctionCall argument is null")
  | a :: args => v ← EvalExpr_ a ctx; vs ← CollectFunctionCallArgs args ctx; Ok (v :: vs)
  end.

(** A null argument is retyped to the type of its expression. *)
Fixpoint CollectUdfArgs (args : list ResolvedExpr) (ctx : EvalContext) : StatusOr (list Value) :=
  match args with
  | [] => Ok []
  | a :: args =>
      v ← EvalExpr_ a ctx;
      if negb (is_null v) && negb (is_valid v)
      then Err (InternalError $"semantic: SQL UDF argument evaluated to invalid Value")
      else vs ← CollectUdfArgs args ctx;
           Ok ((if is_null v then NullOfType (expr_type a) else v) :: vs)
  end.

Fixpoint CollectExternalArgs (args : list ResolvedExpr) (ctx : EvalContext) : StatusOr (list Value) :=
  match args with
  | [] => Ok []
  | a :: args =>
      v ← EvalExpr_ a ctx; vs ← CollectExternalArgs args ctx;
      Ok ((if is_null v then NullOfType (expr_type a) else v) :: vs)
  end.

Definition udf_argument_names (fn : FunctionInfo) : StatusOr (list str) :=
  if bool_decide (fn_group fn = kTemplatedSQLFunctionGroup) then
    match templated_argument_names fn with
    | Some names => Ok names
    | None => Err (InvalidArgumentError $"semantic: SQL UDF call is not a templated function")
    end
  else if bool_decide (fn_group fn = kSQLFunctionGroup) then
    match sql_argument_names fn with
    | Some names => Ok names
    | None => Err (InvalidArgumentError $"semantic: SQL UDF call is not an SQL function")
    end
  else Err (InvalidArgumentError $"semantic: SQL UDF call is not a templated or SQL function").

Definition EvalSqlUdfBody (fn : FunctionInfo) (args : list ResolvedExpr) (type : option SqlType)
    (body : ResolvedExpr) (ctx : EvalContext) : StatusOr Value :=
  names ← udf_argument_names fn;
  if negb (length names =? length args) then
    Err (InvalidArgumentError ($"semantic: SQL UDF argument count mismatch (expected "
           ++ StrInt (Z.of_nat (length names)) ++ $", got " ++ StrInt (Z.of_nat (length args)) ++ $")"))
  else
    values ← CollectUdfArgs args ctx;
    frames ← declare_arguments (PushFrame NewFrameStack) (zip names values);
    result ← EvalExpr_ body (with_arguments ctx frames);
    match type with
    | Some (TArray elem) => if is_null result then Ok (SArray elem []) else Ok result
    | _ => Ok result
    end.

Definition EvalRegisteredExternalUdf (fn : FunctionInfo) (args : list ResolvedExpr)
    (type : option SqlType) (ctx : EvalContext) : StatusOr Value :=
  match LookupProjectJsUdf (project_id ctx) (fn_Name fn) with
  | Some js_def =>
      values ← CollectExternalArgs args ctx; EvalJsUdfCall js_def values type (map expr_type args)
  | None =>
      match LookupProjectPythonUdf (project_id ctx) (fn_Name fn) with
      | Some py_def =>
          values ← CollectExternalArgs args ctx;
          EvalPythonUdfCall (fn_Name fn) py_def values type (map expr_type args)
      | None => Err (InternalError $"External-language UDF metadata is missing for registered function")
      end
  end.

Definition IsLazyBuiltin (name : str) (args : list ResolvedExpr) : bool :=
  is_name name [$"$with_side_effects"; $"emu_format_t"; $"if"; $"ifnull"; $"$case_no_value";
    $"$case_with_value"] || (is_name name [$"error"] && (length args =? 1)).

Definition EvalLazyBuiltinByName (name : str) (args : list ResolvedExpr) (type : option SqlType)
    (ctx : EvalContext) : StatusOr Value :=
  if is_name name [$"$with_side_effects"] then EvalWithSideEffects args ctx
  else if is_name name [$"emu_format_t"] then
    vs ← outcome_mapM (fun a => EvalExpr_ a ctx) args; EmuFormatTypeLiteral vs
  else if is_name name [$"if"] then EvalIfLazy args ctx
  else if is_name name [$"ifnull"] then EvalIfNullLazy args ctx
  else if is_name name [$"$case_no_value"] then EvalCaseNoValueLazy args ctx
  else if is_name name [$"$case_with_value"] then EvalCaseWithValueLazy args ctx
  else match args with
  | [a] => if is_name name [$"error"] then
             msg ← EvalExpr_ a ctx; DispatchFunctionByName name [msg] type ctx
           else Err (not_implemented $"semantic: lazy builtin not handled")
  | _ => Err (not_implemented $"semantic: lazy builtin not handled")
  end.

Definition TryEvalSqlUdfFromCall (fn : FunctionInfo) (templated_body sql_body : option ResolvedExpr)
    (args : list ResolvedExpr) (type : option SqlType) (ctx : EvalContext) : option (StatusOr Value) :=
  match templated_body with
  | Some body => Some (EvalSqlUdfBody fn args type body ctx)
  | None =>
      if bool_decide (fn_group fn = kSQLFunctionGroup) then
        match sql_argument_names fn with
        | None => Some (Err (InvalidArgumentError $"semantic: SQL UDF call is not an SQL function"))
        | Some _ =>
            match sql_body with
            | Some body =>
                if IsProjectRegisteredFunction (project_id ctx) (fn_Name fn)
                then Some (EvalSqlUdfBody fn args type body ctx) else None
            | None => None
            end
        end
      else None
  end.

(** In SAFE mode a failed argument or a failed function is a null of the
    call's type. *)
Definition safe_args_error (mode : ErrorMode) (s : Status) : bool :=
  bool_decide (mode = SAFE_ERROR_MODE) &&
  (bool_decide (code s = kInvalidArgument) || bool_decide (code s = kOutOfRange)).

Definition safe_result_error (mode : ErrorMode) (s : Status) : bool :=
  bool_decide (mode = SAFE_ERROR_MODE) &&
  match GetSemanticErrorReason (Some s) with
  | rOverflow | rDivisionByZero | rInvalidArgument => true
  | rNotImplemented => false
  end.

Definition EvalFunctionCall (function : option FunctionInfo) (templated_body sql_body : option ResolvedExpr)
    (args : list ResolvedExpr) (mode : ErrorMode) (type : option SqlType) (ctx : EvalContext)
    : StatusOr Value :=
  match function with
  | None => Err (InvalidArgumentError $"semantic: ResolvedFunctionCall has null function")
  | Some fn =>
      match udaf ctx, IsAggregate fn with
      | Some scope, true => EvalUdafInnerFunctionCall fn args scope ctx
      | _, _ =>
      match TryEvalSqlUdfFromCall fn templated_body sql_body args type ctx with
      | Some udf => udf
      | None =>
      if bool_decide (fn_group fn = $"External_function")
           && IsProjectRegisteredFunction (project_id ctx) (fn_Name fn)
      then EvalRegisteredExternalUdf fn args type ctx
      else
      let name := LowerFunctionDispatchName fn in
      if IsLazyBuiltin name args then EvalLazyBuiltinByName name args type ctx
      else
        match CollectFunctionCallArgs args ctx with
        | Err s => if safe_args_error mode s then Ok (NullOfType type) else Err s
        | Ok values =>
            match DispatchFunctionByName name values type ctx with
            | Err s => if safe_result_error mode s then Ok (NullOfType type) else Err s
            | Ok v => Ok v
            end
        end
      end
      end
  end.

Fixpoint EvalFieldList (field_list : list ResolvedExpr) (ctx : EvalContext) : StatusOr (list Value) :=
  match field_list with
  | [] => Ok []
  | ENull :: _ => Err (InvalidArgumentError $"semantic: ResolvedMakeStruct field is null")
  | e :: field_list => v ← EvalExpr_ e ctx; vs ← EvalFieldList field_list ctx; Ok (v :: vs)
  end.

Definition EvalResolvedMakeStruct (field_list : list ResolvedExpr) (type : option SqlType)
    (ctx : EvalContext) : StatusOr Value :=
  match type with
  | Some (TStruct st) =>
      if negb (length st =? length field_list)
      then Err (InvalidArgumentError $"semantic: ResolvedMakeStruct field count mismatch")
      else vals ← EvalFieldList field_list ctx; Ok (SStruct st vals)
  | _ => Err (InvalidArgumentError $"semantic: ResolvedMakeStruct has non-STRUCT type")
  end.

(** [emplace] keeps a binding that is already there; the name map is assigned.
    The first assignment is evaluated in the outer context. *)
Fixpoint WithAssignments (assignments : list (ResolvedColumn * ResolvedExpr)) (ctx : EvalContext)
    (bindings : gmap Z Value) (named : gmap str Value) (inner : EvalContext)
    : StatusOr (gmap Z Value * gmap str Value) :=
  match assignments with
  | [] => Ok (bindings, named)
  | (col, e) :: assignments =>
      match e with
      | ENull => Err (InternalError $"semantic: ResolvedWithExpr assignment has null expr")
      | _ =>
          bound ← EvalExpr_ e inner;
          let bindings := match bindings !! column_id col with
                          | Some _ => bindings
                          | None => <[column_id col := bound]> bindings
                          end in
          let named := <[column_name col := bound]> named in
          WithAssignments assignments ctx bindings named (with_columns ctx bindings named)
      end
  end.

Definition EvalResolvedWithExpr (assignments : list (ResolvedColumn * ResolvedExpr))
    (expr : ResolvedExpr) (ctx : EvalContext) : StatusOr Value :=
  match expr with
  | ENull => Err (InvalidArgumentError $"semantic: ResolvedWithExpr has null body expr")
  | _ =>
      maps ← WithAssignments assignments ctx (default ∅ (columns ctx)) ∅ ctx;
      EvalExpr_ expr (with_columns ctx maps.1 maps.2)
  end.

Definition EvalResolvedCastExpr (cast : CastNode) (expr : ResolvedExpr) (type : option SqlType)
    (ctx : EvalContext) : StatusOr Value :=
  match expr with
  | ENull => Err (InvalidArgumentError $"semantic: ResolvedCast has null expr")
  | _ =>
      match EvalExpr_ expr ctx with
      | Err s =>
          match return_null_on_error cast, type with
          | true, Some t => Ok (NullOfType (Some t))
          | _, _ => Err s
          end
      | Ok inner => EvalResolvedCast cast type inner (expr_type expr)
      end
  end.

Definition EvalResolvedGetStructFieldExpr (expr : ResolvedExpr) (field_idx : Z)
    (type : option SqlType) (ctx : EvalContext) : StatusOr Value :=
  match expr with
  | ENull => Err (InvalidArgumentError $"semantic: ResolvedGetStructField has null expr")
  | _ => base ← EvalExpr_ expr ctx; struct_field base field_idx type
  end.

Definition EvalResolvedGetJsonFieldExpr (expr : ResolvedExpr) (field_name : str)
    (type : option SqlType) (ctx : EvalContext) : StatusOr Value :=
  match expr with
  | ENull => Err (InvalidArgumentError $"semantic: ResolvedGetJsonField has null expr")
  | _ => base ← EvalExpr_ expr ctx; JsonGetField base field_name type
  end.

Definition EvalGetRowField (expr : ResolvedExpr) (column : option str) (type : option SqlType)
    (ctx : EvalContext) : StatusOr Value :=
  match expr with
  | ENull => Err (InvalidArgumentError $"semantic: ResolvedGetRowField has null expr")
  | _ =>
      match column with
      | None => Err (InvalidArgumentError $"semantic: ResolvedGetRowField has null column")
      | Some name => base ← EvalExpr_ expr ctx; row_field base name type
      end
  end.
End handlers.

(** [ENull] is dereferenced only by the lazy builtins on an argument list
    that holds a null pointer; the process aborts there. *)
Fixpoint EvalExpr (expr : ResolvedExpr) (ctx : EvalContext) {struct expr} : StatusOr Value :=
  match expr with
  | ENull => Err (InternalError $"null ResolvedExpr")
  | ELiteral v => Ok v
  | EParameter name position is_untyped _ => EvalResolvedParameter name position is_untyped ctx
  | ECall fn templated sql_body args mode type =>
      EvalFunctionCall EvalExpr fn templated sql_body args mode type ctx
  | ECast cast e type => EvalResolvedCastExpr EvalExpr cast e type ctx
  | EArgumentRef name _ => EvalResolvedArgumentRefExpr name ctx
  | EColumnRef col _ => LookupColumnRef col ctx
  | EConstant c _ => EvalResolvedConstant c ctx
  | EMakeStruct field_list type => EvalResolvedMakeStruct EvalExpr field_list type ctx
  | EGetStructField e i type => EvalResolvedGetStructFieldExpr EvalExpr e i type ctx
  | EGetJsonField e name type => EvalResolvedGetJsonFieldExpr EvalExpr e name type ctx
  | EWithExpr assignments e _ => EvalResolvedWithExpr EvalExpr assignments e ctx
  | ESubquery node _ => EvalSubqueryExpr node ctx
  | ESystemVariable name_path _ => EvalResolvedSystemVariableExpr name_path ctx
  | EAggregateCall node _ => EvalResolvedAggregateFunctionCallExpr node ctx
  | EGetRowField e column type => EvalGetRowField EvalExpr e column type ctx
  | EExpressionColumn name _ => EvalResolvedExpressionColumnExpr name ctx
  | ECatalogColumnRef name column _ => EvalResolvedCatalogColumnRefExpr name column
  | EOther kind_string _ => Err (not_implemented ($"semantic: ResolvedExpr kind " ++ kind_string
                              ++ $" is not yet implemented"))
  end.
End eval.
