(* ===== verification/EvalReference.v ===== *)
(** * EvalReference: a concrete instance of the evaluator's surroundings

    The casts to and from text, dates and time zones, the subqueries and the
    function families behind [functions::Dispatch] are answered with an
    UNIMPLEMENTED status or by no handler; closed examples compute with the
    operators the evaluator has itself. *)

From S2P Require Import Prelude Absl AbslReference Storage SemanticError FrameStack SqlValue.
From S2P Require Import GoogleSqlReference Arithmetic Operators MathFuncs Casts EvalExpr.

Module EvalReference.
Import Reference.

#[export] Instance reference_double : AbslDouble := fun _ => $"0".

#[export] Instance reference_casts : CastLibrary := {|
  SimpleAtod _ := None;
  undefined_int64 _ := int64_min;
  numeric_ToString n := StrInt n;
  bignumeric_ToString n := StrInt n;
  NumericValue_FromDouble _ := undefined_here;
  BigNumericValue_FromString s :=
    match ref_integer s with
    | Some z => Ok z
    | None => Err (InvalidArgumentError $"invalid bignumeric")
    end;
  numeric_HasFractionalPart n := negb (n mod numeric_scale =? 0)%Z;
  numeric_Round n _ := Ok n;
  numeric_less a b := (a <? b)%Z;
  bignumeric_HasFractionalPart n := negb (n mod bignumeric_scale =? 0)%Z;
  bignumeric_Round n _ := Ok n;
  SafeConvertBytes s := Ok s;
  LengthUtf8 s := Ok (Z.of_nat (length s));
  FormatDateToString _ _ := undefined_here;
  FormatDatetimeToString _ _ := undefined_here;
  FormatTimestampToString _ _ _ := undefined_here;
  ConstructDatetime d := Ok (d * 86400000000)%Z;
  ParseStringToDatetime _ _ := undefined_here;
  ConvertDateToTimestamp d := Ok (d * 86400000000)%Z;
  ConvertTimestampToDatetime _ _ := undefined_here;
  MakeTimeZone s := Ok s;
  CastFormatDateToString _ _ := undefined_here;
  CastFormatDatetimeToString _ _ := undefined_here;
  CastFormatTimestampToString _ _ _ := undefined_here;
  CurrentDateValue := Ok 0%Z;
  CastStringToDate _ _ _ := undefined_here;
  CastStringToDatetime _ _ _ := undefined_here;
  CastStringToTimestamp _ _ _ := undefined_here;
  ParseTime _ _ := None;
  ParseStringToTimestamp _ _ := undefined_here;
  ConvertStringToTimestamp _ := undefined_here;
  ConversionEvaluator_Create z := Ok z;
  CastValueWithoutTypeValidation _ _ _ _ _ := undefined_here;
|}.

#[export] Instance reference_nodes : ExecutorNodes := {|
  SubqueryNode := unit;
  AggregateNode := unit;
  UdafEvalScope := unit;
  JsUdfDefinition := unit;
  PythonUdfDefinition := unit;
|}.

#[export] Instance reference_parts : ExecutorParts := {|
  kTemplatedSQLFunctionGroup := $"Templated_SQL_Function";
  kSQLFunctionGroup := $"SQL_function";
  EvalSubqueryExpr _ _ := undefined_here;
  EvalUdafInnerAggregate _ _ _ := undefined_here;
  EvalUdafInnerFunctionCall _ _ _ _ := undefined_here;
  JsonGetField _ _ _ := undefined_here;
  GetSystemVariable _ _ := undefined_here;
  functions_Dispatch _ _ _ _ := None;
  stubs_Dispatch _ _ _ := None;
  Extract _ _ := undefined_here;
  ExtractDateFromTimestamp _ := undefined_here;
  EmuFormatTypeLiteral _ := undefined_here;
  IsProjectRegisteredFunction _ _ := true;
  LookupProjectJsUdf _ _ := None;
  LookupProjectPythonUdf _ _ := None;
  EvalJsUdfCall _ _ _ _ := undefined_here;
  EvalPythonUdfCall _ _ _ _ _ := undefined_here;
|}.

Definition builtin (name : str) : option FunctionInfo :=
  Some (mkFunction name name $"GoogleSQL" false None None).

Definition call (name : str) (args : list ResolvedExpr) (t : SqlType) : ResolvedExpr :=
  ECall (builtin name) None None args DEFAULT_ERROR_MODE (Some t).

(** A call of the SQL function [name] with the body of its definition. *)
Definition sql_call (name : str) (names : list str) (body : ResolvedExpr) (args : list ResolvedExpr)
    (t : SqlType) : ResolvedExpr :=
  ECall (Some (mkFunction name name kSQLFunctionGroup false None (Some names))) None (Some body)
    args DEFAULT_ERROR_MODE (Some t).

Definition empty_context : EvalContext := 
  mkContext $"p" None None None None None None None None None None.

(** A row with an INT64 in column 1 and a null BOOL in column 2. *)
Definition row_context : EvalContext :=
  mkContext $"p" None (Some {[1%Z := SInt64 41; 2%Z := SNull TBool]}) None None None None None None
    None None.
End EvalReference.
