(* ===== verification/EvalTypes.v ===== *)
(** * EvalTypes: evaluation respects the types the analyzer assigns

    The evaluator trusts GoogleSQL's analyzer: every node carries its type, and
    a null result is built from it.  [builtin_ok] is the signature of the
    builtins the evaluator dispatches itself, [typed] the typing of expressions
    over the types of the parameters, columns and arguments in scope; evaluating
    a typed expression in a matching context yields a value of its type, at
    every depth, or an error. *)

From S2P Require Import Prelude Absl AbslReference Storage SemanticError FrameStack SqlValue.
From S2P Require Import GoogleSqlReference Arithmetic Operators MathFuncs Casts EvalExpr.
From S2P Require Import EvalReference.

(** ** Signatures of the builtins *)

(** The result type of [+], [-] and [*] on numbers. *)
Definition numeric_type (a b : SqlType) : option SqlType :=
  match a, b with
  | TInt64, TInt64 => Some TInt64
  | TDouble, TDouble => Some TDouble
  | TNumeric, (TNumeric | TInt64) | TInt64, TNumeric => Some TNumeric
  | TBigNumeric, (TBigNumeric | TNumeric | TInt64) | (TNumeric | TInt64), TBigNumeric =>
      Some TBigNumeric
  | _, _ => None
  end.

Definition add_type (a b : SqlType) : option SqlType :=
  match a, b with
  | TDate, TInt64 => Some TDate
  | TDate, TInterval | TDatetime, TInterval => Some TDatetime
  | TTimestamp, TInterval => Some TTimestamp
  | _, _ => numeric_type a b
  end.

Definition sub_type (a b : SqlType) : option SqlType :=
  match a, b with
  | TDate, TInt64 => Some TDate
  | TDate, TDate | TDatetime, TDatetime | TTimestamp, TTimestamp => Some TInterval
  | TDatetime, TInterval => Some TDatetime
  | TTimestamp, TInterval => Some TTimestamp
  | _, _ => numeric_type a b
  end.

Definition div_type (a b : SqlType) : option SqlType :=
  match a, b with TInt64, TInt64 => None | _, _ => numeric_type a b end.

Definition is_number (t : SqlType) : bool :=
  match t with TInt64 | TDouble | TNumeric | TBigNumeric => true | _ => false end.

Definition binary_ok (f : SqlType -> SqlType -> option SqlType) (ts : list SqlType) (t : SqlType) : bool :=
  match ts with [a; b] => bool_decide (f a b = Some t) | _ => false end.

Definition unary_number_ok (ts : list SqlType) (t : SqlType) : bool :=
  match ts with [a] => bool_decide (a = t) && is_number t | _ => false end.

Definition arithmetic_ok (name : str) (ts : list SqlType) (t : SqlType) : bool :=
  if is_name name [$"$add"; $"add"] then binary_ok add_type ts t
  else if is_name name [$"$subtract"; $"subtract"] then binary_ok sub_type ts t
  else if is_name name [$"$multiply"; $"multiply"] then binary_ok numeric_type ts t
  else if is_name name [$"$divide"; $"divide"] then binary_ok div_type ts t
  else if is_name name [$"$unary_minus"; $"unary_minus"] then unary_number_ok ts t
  else if is_name name [$"abs"] then unary_number_ok ts t
  else match t with TArray elem => forallb (fun a => bool_decide (a = elem)) ts | _ => false end.

Definition safe_ok (name : str) (ts : list SqlType) (t : SqlType) : bool :=
  if is_name name [$"safe_add"] then binary_ok add_type ts t
  else if is_name name [$"safe_subtract"] then binary_ok sub_type ts t
  else if is_name name [$"safe_multiply"] then binary_ok numeric_type ts t
  else if is_name name [$"safe_negate"] then unary_number_ok ts t
  else binary_ok div_type ts t.

Definition bitwise_ok (ts : list SqlType) (t : SqlType) : bool :=
  match ts, t with
  | [TInt64], TInt64 | [TInt64; TInt64], TInt64 => true
  | [TBytes; TBytes], TBytes | [TBytes; TInt64], TBytes => true
  | _, _ => false
  end.

(** COALESCE takes values of the result type, NULLIF its first argument. *)
Definition conditional_ok (name : str) (ts : list SqlType) (t : SqlType) : bool :=
  if is_name name [$"coalesce"] then forallb (fun a => bool_decide (a = t)) ts
  else if is_name name [$"nullif"] then match ts with [a; _] => bool_decide (a = t) | _ => false end
  else false.

(** The builtins [DispatchFunctionByName] evaluates itself, in its order. *)
Definition builtin_ok (name : str) (ts : list SqlType) (t : SqlType) : bool :=
  if IsArithmeticBuiltin name then arithmetic_ok name ts t
  else if IsComparisonBuiltin name then bool_decide (t = TBool)
  else if IsInBuiltin name then bool_decide (t = TBool)
  else if IsLogicalBuiltin name then bool_decide (t = TBool)
  else if IsBitwiseBuiltin name then bitwise_ok ts t
  else if is_name name [$"$interval"] then false
  else if IsConditionalBuiltin name then conditional_ok name ts t
  else if IsSafeBuiltin name then safe_ok name ts t
  else false.

Section operator_types.
Context `{AbslText, AbslDouble, GoogleSqlOps, ExecutorNodes} `{!CastLibrary, !ExecutorParts}.

(** A non-null value of a scalar type is its constructor. *)
Lemma typed_payload v t :
  has_type v t = true -> is_null v = false ->
  match t with
  | TBool => exists b, v = SBool b
  | TInt64 => exists z, v = SInt64 z
  | TDouble => exists d, v = SDouble d
  | TString => exists s, v = SString s
  | TBytes => exists s, v = SBytes s
  | TDate => exists d, v = SDate d
  | TDatetime => exists d, v = SDatetime d
  | TTimestamp => exists p, v = STimestamp p
  | TNumeric => exists n, v = SNumeric n
  | TBigNumeric => exists n, v = SBigNumeric n
  | TInterval => exists i, v = SInterval i
  | _ => True
  end.
Proof.
  intros HT N. pose proof (has_type_type_of _ _ HT) as E.
  destruct v; try done; injection E as <-; try done; by eexists.
Qed.

(** Case analysis on the payloads of typed operands. *)
Ltac payload HT N :=
  let P := fresh "P" in
  pose proof (typed_payload _ _ HT N) as P; cbn in P; destruct P as [? ->].

Lemma promoted_ok {N} t (mk : N -> Value) (m : StatusOr N) :
  (forall n, has_type (mk n) t = true) -> ok_has t (WrapNumericValue mk m).
Proof. intros F. unfold WrapNumericValue. repeat case_match; ok_type. by apply ok_has_Ok. Qed.

Lemma wrap_ok {N} t (mk : N -> Value) (m : StatusOr N) :
  (forall n, has_type (mk n) t = true) -> ok_has t (WrapNumeric mk m).
Proof. intros F. unfold WrapNumeric. repeat case_match; ok_type. by apply ok_has_Ok. Qed.

Lemma division_ok {N} t (mk : N -> Value) (m : StatusOr N) :
  (forall n, has_type (mk n) t = true) -> ok_has t (wrap_division mk m).
Proof. intros F. unfold wrap_division. repeat case_match; ok_type. by apply ok_has_Ok. Qed.

Ltac arith_type :=
  repeat first
    [ progress ok_type
    | (apply promoted_ok; intros; by apply bool_decide_eq_true)
    | (apply wrap_ok; intros; by apply bool_decide_eq_true)
    | (apply division_ok; intros; by apply bool_decide_eq_true) ].

Lemma ArithmeticAdd_type a b ta tb t :
  has_type a ta = true -> has_type b tb = true -> is_null a = false -> is_null b = false ->
  add_type ta tb = Some t -> ok_has t (ArithmeticAdd a b).
Proof.
  intros Ha Hb Na Nb E.
  destruct ta, tb; try discriminate E; injection E as <-; payload Ha Na; payload Hb Nb;
    cbn; unfold AddInt64; arith_type.
Qed.

Lemma ArithmeticSub_type a b ta tb t :
  has_type a ta = true -> has_type b tb = true -> is_null a = false -> is_null b = false ->
  sub_type ta tb = Some t -> ok_has t (ArithmeticSub a b).
Proof.
  intros Ha Hb Na Nb E.
  destruct ta, tb; try discriminate E; injection E as <-; payload Ha Na; payload Hb Nb;
    cbn; unfold SubInt64, SubDateMinusInt64, SubDateMinusDate, SubDatetimeMinusDatetime,
      SubTimestampMinusTimestamp, SubDatetimeMinusInterval, SubTimestampMinusInterval; arith_type.
Qed.

Lemma ArithmeticMul_type a b ta tb t :
  has_type a ta = true -> has_type b tb = true -> is_null a = false -> is_null b = false ->
  numeric_type ta tb = Some t -> ok_has t (ArithmeticMul a b).
Proof.
  intros Ha Hb Na Nb E.
  destruct ta, tb; try discriminate E; injection E as <-; payload Ha Na; payload Hb Nb;
    unfold ArithmeticMul, MulInt64; cbn; arith_type.
Qed.

Lemma ArithmeticDiv_type a b ta tb t :
  has_type a ta = true -> has_type b tb = true -> is_null a = false -> is_null b = false ->
  div_type ta tb = Some t -> ok_has t (ArithmeticDiv a b).
Proof.
  intros Ha Hb Na Nb E.
  destruct ta, tb; try discriminate E; injection E as <-; payload Ha Na; payload Hb Nb;
    cbn; arith_type.
Qed.

Lemma UnaryMinus_type a t :
  has_type a t = true -> is_null a = false -> is_number t = true -> ok_has t (UnaryMinus a).
Proof. intros Ha Na E. destruct t; try discriminate E; payload Ha Na; cbn; arith_type. Qed.

(** ** Dispatchers *)

Definition values_ok (vs : list Value) (ts : list SqlType) : Prop :=
  Forall2 (fun v t => has_type v t = true) vs ts.

Lemma two_values vs a b : values_ok vs [a; b] ->
  exists x y, vs = [x; y] /\ has_type x a = true /\ has_type y b = true.
Proof.
  intros V. inversion V as [|x ? xs ? Hx V1]; subst.
  inversion V1 as [|y ? ys ? Hy V2]; subst. inversion V2; subst. eauto.
Qed.

Lemma one_value vs a : values_ok vs [a] -> exists x, vs = [x] /\ has_type x a = true.
Proof. intros V. inversion V as [|x ? xs ? Hx V1]; subst. inversion V1; subst. eauto. Qed.

Lemma supported_binary f vs ts t :
  (forall a b u, f a b = Some u -> supported u = true) -> binary_ok f ts t = true ->
  values_ok vs ts ->
  exists x y a b, vs = [x; y] /\ has_type x a = true /\ has_type y b = true /\ f a b = Some t /\
    has_type (NullOfType (Some t)) t = true.
Proof.
  intros Su B V. unfold binary_ok in B. destruct ts as [|a [|b []]]; try done.
  apply two_values in V as (x & y & -> & Hx & Hy). bool_to_prop.
  exists x, y, a, b. eauto 10 using NullOfType_has_type.
Qed.

Lemma numeric_type_supported a b t : numeric_type a b = Some t -> supported t = true.
Proof. destruct a, b; try discriminate; by intros [= <-]. Qed.
Lemma add_type_supported a b t : add_type a b = Some t -> supported t = true.
Proof. destruct a, b; try discriminate; by intros [= <-]. Qed.
Lemma sub_type_supported a b t : sub_type a b = Some t -> supported t = true.
Proof. destruct a, b; try discriminate; by intros [= <-]. Qed.
Lemma div_type_supported a b t : div_type a b = Some t -> supported t = true.
Proof. destruct a, b; try discriminate; by intros [= <-]. Qed.

(** A binary dispatcher propagates nulls and then calls its operator. *)
Lemma null_propagates (op : Value -> Value -> StatusOr Value) x y t :
  has_type (NullOfType (Some t)) t = true ->
  (is_null x = false -> is_null y = false -> ok_has t (op x y)) ->
  ok_has t (match NullIfAnyNull [x; y] (Some t) with Some n => Ok n | None => op x y end).
Proof.
  intros Nt F. unfold NullIfAnyNull. cbn [existsb].
  destruct (is_null x) eqn:Nx, (is_null y) eqn:Ny; cbn [orb]; try (by apply ok_has_Ok). by apply F.
Qed.

Lemma DispatchAdd_type vs ts t :
  binary_ok add_type ts t = true -> values_ok vs ts -> ok_has t (DispatchAdd vs (Some t)).
Proof.
  intros B V. destruct (supported_binary _ _ _ _ add_type_supported B V)
    as (x & y & a & b & -> & Hx & Hy & E & Nt).
  apply (null_propagates ArithmeticAdd); eauto using ArithmeticAdd_type.
Qed.

Lemma DispatchSub_type vs ts t :
  binary_ok sub_type ts t = true -> values_ok vs ts -> ok_has t (DispatchSub vs (Some t)).
Proof.
  intros B V. destruct (supported_binary _ _ _ _ sub_type_supported B V)
    as (x & y & a & b & -> & Hx & Hy & E & Nt).
  apply (null_propagates ArithmeticSub); eauto using ArithmeticSub_type.
Qed.

Lemma DispatchMul_type vs ts t :
  binary_ok numeric_type ts t = true -> values_ok vs ts -> ok_has t (DispatchMul vs (Some t)).
Proof.
  intros B V. destruct (supported_binary _ _ _ _ numeric_type_supported B V)
    as (x & y & a & b & -> & Hx & Hy & E & Nt).
  apply (null_propagates ArithmeticMul); eauto using ArithmeticMul_type.
Qed.

Lemma DispatchDiv_type vs ts t :
  binary_ok div_type ts t = true -> values_ok vs ts -> ok_has t (DispatchDiv vs (Some t)).
Proof.
  intros B V. destruct (supported_binary _ _ _ _ div_type_supported B V)
    as (x & y & a & b & -> & Hx & Hy & E & Nt).
  apply (null_propagates ArithmeticDiv); eauto using ArithmeticDiv_type.
Qed.

Lemma unary_number vs ts t :
  unary_number_ok ts t = true -> values_ok vs ts ->
  exists x, vs = [x] /\ has_type x t = true /\ is_number t = true /\
    has_type (NullOfType (Some t)) t = true.
Proof.
  intros U V. unfold unary_number_ok in U. destruct ts as [|a []]; try done.
  apply one_value in V as (x & -> & Hx). bool_to_prop. subst a. exists x. split_and!; try done.
  apply NullOfType_has_type. by destruct t.
Qed.

Lemma DispatchUnaryMinus_type vs ts t :
  unary_number_ok ts t = true -> values_ok vs ts -> ok_has t (DispatchUnaryMinus vs (Some t)).
Proof.
  intros U V. destruct (unary_number _ _ _ U V) as (x & -> & Hx & Nu & Nt). unfold DispatchUnaryMinus.
  destruct (is_null x) eqn:N; [by apply ok_has_Ok|by apply UnaryMinus_type].
Qed.

Lemma DispatchAbs_type vs ts t :
  unary_number_ok ts t = true -> values_ok vs ts -> ok_has t (DispatchAbs vs (Some t)).
Proof.
  intros U V. destruct (unary_number _ _ _ U V) as (x & -> & Hx & Nu & Nt). unfold DispatchAbs.
  destruct (is_null x) eqn:N; [by apply ok_has_Ok|].
  destruct t; try discriminate Nu; payload Hx N; ok_type.
Qed.

Lemma WrapSafe_type r t : has_type (NullOfType (Some t)) t = true -> ok_has t r -> ok_has t (WrapSafe r (Some t)).
Proof. intros Nt F. unfold WrapSafe. destruct r; [done|]. case_match; ok_type. Qed.

(** Comparisons, IN and the logical operators return BOOL or fail. *)
Lemma InLoop_type name lhs rhs seen : has_type (InLoop name lhs rhs seen) TBool = true.
Proof.
  revert seen. induction rhs as [|v rhs IH]; intros seen; cbn [InLoop].
  - by destruct seen; apply bool_decide_eq_true.
  - repeat case_match; auto; by apply bool_decide_eq_true.
Qed.

Lemma DispatchIn_type name args : ok_has TBool (DispatchIn name args).
Proof.
  unfold DispatchIn. destruct args as [|l [|r args]]; [ok_type..|].
  destruct (is_null l); [ok_type|]. apply ok_has_Ok, InLoop_type.
Qed.

Lemma comparison_type name args : ok_has TBool (DispatchBuiltinComparison name args).
Proof.
  unfold DispatchBuiltinComparison, DispatchEqual, DispatchNotEqual, DispatchLess,
    DispatchLessOrEqual, DispatchGreater, DispatchGreaterOrEqual, DispatchLike, DispatchBetween,
    CompareEqual, CompareLess.
  ok_type.
Qed.

Lemma in_type name args : ok_has TBool (DispatchBuiltinIn name args).
Proof. unfold DispatchBuiltinIn. repeat case_match; ok_type; apply DispatchIn_type. Qed.

Lemma AndLoop_type args seen : ok_has TBool (AndLoop args seen).
Proof. revert seen. induction args as [|v args IH]; intros seen; cbn [AndLoop]; ok_type; apply IH. Qed.
Lemma OrLoop_type args seen : ok_has TBool (OrLoop args seen).
Proof. revert seen. induction args as [|v args IH]; intros seen; cbn [OrLoop]; ok_type; apply IH. Qed.

Lemma logical_type name args : ok_has TBool (DispatchBuiltinLogical name args).
Proof.
  unfold DispatchBuiltinLogical.
  repeat match goal with |- context [if is_name ?n ?l then _ else _] => destruct (is_name n l) end;
    try apply AndLoop_type; try apply OrLoop_type;
    unfold DispatchNot, DispatchIsNull, DispatchIsTrue, DispatchIsFalse, DispatchIsDistinctFrom; ok_type.
Qed.

Lemma bitwise_type name vs ts t :
  bitwise_ok ts t = true -> values_ok vs ts -> ok_has t (DispatchBitwise name vs).
Proof.
  intros B V. unfold bitwise_ok in B.
  destruct ts as [|a [|b [|c ts]]]; try done; destruct a; try done; try (by destruct b).
  - destruct t; try done. apply one_value in V as (x & -> & Hx).
    unfold DispatchBitwise. destruct (bool_decide _); [|ok_type]. unfold DispatchBitwiseNot. ok_type.
  - destruct b, t; try done. apply two_values in V as (x & y & -> & Hx & Hy).
    unfold DispatchBitwise. destruct (bool_decide _); [ok_type|].
    unfold is_kind, type_kind. rewrite (has_type_type_of _ _ Hx), (has_type_type_of _ _ Hy). cbn.
    destruct (is_null x || is_null y); [ok_type|].
    unfold DispatchBitwiseInt64Binary. ok_type.
  - assert (t = TBytes) as -> by (by destruct b, t).
    assert (b = TBytes \/ b = TInt64) as Hb by (destruct b; auto; done).
    apply two_values in V as (x & y & -> & Hx & Hy).
    unfold DispatchBitwise. destruct (bool_decide _); [ok_type|].
    assert (is_kind x TYPE_BYTES || is_kind y TYPE_BYTES = true) as ->.
    { unfold is_kind, type_kind. by rewrite (has_type_type_of _ _ Hx). }
    destruct (is_null x || is_null y); [ok_type|].
    unfold DispatchBitwiseBytesBinary. ok_type.
Qed.

Lemma coalesce_type vs ts t :
  supported t = true -> forallb (fun a => bool_decide (a = t)) ts = true -> values_ok vs ts ->
  ok_has t (DispatchCoalesce vs (Some t)).
Proof.
  intros Su F V. induction V as [|v a vs ts Hv V IH]; cbn [DispatchCoalesce].
  - by apply ok_has_Ok, NullOfType_has_type.
  - cbn [forallb] in F. apply andb_true_iff in F as [E F]. bool_to_prop. subst a.
    destruct (is_null v); cbn [negb]; [by apply IH|by apply ok_has_Ok].
Qed.

Lemma nullif_type vs a b :
  supported a = true -> values_ok vs [a; b] -> ok_has a (DispatchNullIf vs (Some a)).
Proof.
  intros Su V. apply two_values in V as (x & y & -> & Hx & Hy). unfold DispatchNullIf.
  pose proof (NullOfType_has_type _ Su). ok_type.
Qed.

Lemma make_array_type vs ts e :
  forallb (fun a => bool_decide (a = e)) ts = true -> values_ok vs ts ->
  ok_has (TArray e) (Ok (SArray e vs)).
Proof.
  intros F V. apply ok_has_Ok, has_type_array. split; [done|].
  induction V as [|v a vs ts Hv V IH]; [constructor|].
  cbn [forallb] in F. apply andb_true_iff in F as [E F]. bool_to_prop. subst a. constructor; auto.
Qed.

Lemma arithmetic_type name vs ts t :
  arithmetic_ok name ts t = true -> values_ok vs ts ->
  ok_has t (DispatchBuiltinArithmetic name vs (Some t)).
Proof.
  intros A V. unfold arithmetic_ok, DispatchBuiltinArithmetic in *.
  repeat match goal with |- context [if is_name name ?l then _ else _] =>
    destruct (is_name name l) end; eauto using DispatchAdd_type, DispatchSub_type, DispatchMul_type,
    DispatchDiv_type, DispatchUnaryMinus_type, DispatchAbs_type, ok_has_Err.
  destruct t; try done. by eapply make_array_type.
Qed.

Lemma safe_type name vs ts t :
  safe_ok name ts t = true -> values_ok vs ts -> ok_has t (DispatchBuiltinSafe name vs (Some t)).
Proof.
  intros A V. unfold safe_ok, DispatchBuiltinSafe in *.
  assert (forall f, (forall a b u, f a b = Some u -> supported u = true) ->
    binary_ok f ts t = true -> has_type (NullOfType (Some t)) t = true) as Bt.
  { intros f Su B. destruct (supported_binary _ _ _ _ Su B V) as (? & ? & ? & ? & _ & _ & _ & _ & Nt). done. }
  repeat match goal with |- context [if is_name name ?l then _ else _] =>
    destruct (is_name name l) end; try apply ok_has_Err; apply WrapSafe_type;
    eauto using DispatchAdd_type, DispatchSub_type, DispatchMul_type, DispatchDiv_type,
      DispatchUnaryMinus_type, add_type_supported, sub_type_supported, numeric_type_supported,
      div_type_supported.
  destruct (unary_number _ _ _ A V) as (? & _ & _ & _ & Nt). done.
Qed.

Lemma conditional_type name vs ts t :
  supported t = true -> conditional_ok name ts t = true -> values_ok vs ts ->
  ok_has t (DispatchBuiltinConditional name vs (Some t)).
Proof.
  intros Su C V. unfold conditional_ok in C.
  destruct (is_name name [$"coalesce"]) eqn:E1.
  { apply bool_decide_eq_true, list_elem_of_singleton in E1 as ->. by eapply coalesce_type. }
  destruct (is_name name [$"nullif"]) eqn:E2; [|done].
  apply bool_decide_eq_true, list_elem_of_singleton in E2 as ->.
  destruct ts as [|a [|b []]]; try done. bool_to_prop. subst a. by eapply nullif_type.
Qed.

(** A builtin applied to arguments of its signature. *)
Lemma builtin_type name vs ts t ctx :
  supported t = true -> builtin_ok name ts t = true -> values_ok vs ts ->
  ok_has t (DispatchFunctionByName name vs (Some t) ctx).
Proof.
  intros Su B V. unfold builtin_ok, DispatchFunctionByName in *.
  destruct (IsArithmeticBuiltin name); [by eapply arithmetic_type|].
  destruct (IsComparisonBuiltin name); [bool_to_prop; subst; apply comparison_type|].
  destruct (IsInBuiltin name); [bool_to_prop; subst; apply in_type|].
  destruct (IsLogicalBuiltin name); [bool_to_prop; subst; apply logical_type|].
  destruct (IsBitwiseBuiltin name); [by eapply bitwise_type|].
  destruct (is_name name [$"$interval"]); [done|].
  destruct (IsConditionalBuiltin name); [by eapply conditional_type|].
  destruct (IsSafeBuiltin name); [by eapply safe_type|done].
Qed.
End operator_types.

(** ** Typing expressions *)

(** The types of what is in scope: parameters by lower-case name and by
    position, columns by id, function arguments by lower-case name. *)
Record TypeEnv := mkEnv {
  named_parameters : gmap str SqlType;
  positional_parameters : list SqlType;
  column_types : gmap Z SqlType;
  argument_types : gmap str SqlType;
}.

Section typing.
Context `{AbslText, AbslDouble, GoogleSqlOps, ExecutorNodes} `{!CastLibrary, !ExecutorParts}.
Context (project : str).

Definition agrees (declared : option SqlType) (t : option SqlType) : option SqlType :=
  if bool_decide (declared = t) then t else None.

Definition with_column_type (env : TypeEnv) (id : Z) (t : SqlType) : TypeEnv :=
  mkEnv (named_parameters env) (positional_parameters env) (<[id := t]> (column_types env))
    (argument_types env).

Definition with_argument_types (env : TypeEnv) (args : gmap str SqlType) : TypeEnv :=
  mkEnv (named_parameters env) (positional_parameters env) (column_types env) args.

(** The types of the arguments of a SQL function by canonical name. *)
Definition argument_env (names : list str) (ts : list SqlType) : gmap str SqlType :=
  list_to_map (zip (map Canonicalize names) ts).

(** A call of a SQL function: the arguments the body is typed with. *)
Definition udf_env (env : TypeEnv) (fn : FunctionInfo) (ts : list SqlType) : option TypeEnv :=
  match udf_argument_names fn with
  | Ok names =>
      if (length names =? length ts) && forallb supported ts
      then Some (with_argument_types env (argument_env names ts)) else None
  | Err _ => None
  end.

Section check_lists.
Context (check : ResolvedExpr -> option SqlType).

Fixpoint check_all (es : list ResolvedExpr) : option (list SqlType) :=
  match es with
  | [] => Some []
  | e :: es => t ← check e; ts ← check_all es; Some (t :: ts)
  end.

(** The arms of a CASE: tests of the type [tests] admits, results and an ELSE
    of the type of the call. *)
Fixpoint check_arms (tests : SqlType -> bool) (t : SqlType) (es : list ResolvedExpr) : bool :=
  match es with
  | c :: r :: es =>
      match check c with Some tc => tests tc | None => false end &&
      bool_decide (check r = Some t) && check_arms tests t es
  | [e] => bool_decide (check e = Some t)
  | [] => false
  end.

Definition check_lazy (name : str) (args : list ResolvedExpr) (t : SqlType) : bool :=
  if is_name name [$"$with_side_effects"] then
    match args with
    | [e; p] => bool_decide (check e = Some t) && match check p with Some _ => true | None => false end
    | _ => false
    end
  else if is_name name [$"emu_format_t"] then false
  else if is_name name [$"if"] then
    match args with
    | [c; a; b] => bool_decide (check c = Some TBool) && bool_decide (check a = Some t)
                   && bool_decide (check b = Some t)
    | _ => false
    end
  else if is_name name [$"ifnull"] then
    match args with
    | [a; b] => bool_decide (check a = Some t) && bool_decide (check b = Some t)
    | _ => false
    end
  else if is_name name [$"$case_no_value"] then
    check_arms (fun tc => bool_decide (tc = TBool)) t args
  else if is_name name [$"$case_with_value"] then
    match args with
    | i :: arms => match check i with Some ti => check_arms (fun _ => true) t arms | None => false end
    | [] => false
    end
  else false.
End check_lists.

Section check_with.
Context (check : TypeEnv -> ResolvedExpr -> option SqlType).

(** A WITH expression binds fresh column ids in order. *)
Fixpoint check_assignments (env : TypeEnv) (assignments : list (ResolvedColumn * ResolvedExpr))
    : option TypeEnv :=
  match assignments with
  | [] => Some env
  | (col, e) :: assignments =>
      t ← check env e;
      match column_types env !! column_id col with
      | Some _ => None
      | None => check_assignments (with_column_type env (column_id col) t) assignments
      end
  end.
End check_with.

(** The type of an expression, when it has one over the environment. *)
Fixpoint check (env : TypeEnv) (e : ResolvedExpr) {struct e} : option SqlType :=
  match e with
  | ELiteral v => match type_of v with Some t => if has_type v t then Some t else None | None => None end
  | EParameter name position is_untyped ty =>
      if is_untyped then None
      else match name with
           | _ :: _ => agrees ty (named_parameters env !! AsciiStrToLower name)
           | [] => if (0 <? position)%Z
                   then agrees ty (positional_parameters env !! Z.to_nat (position - 1)) else None
           end
  | EColumnRef col _ => agrees (column_type col) (column_types env !! column_id col)
  | EArgumentRef name ty => agrees ty (argument_types env !! Canonicalize name)
  | ECast cast e (Some t) =>
      match check env e, extended_cast cast with
      | Some _, None => if supported t then Some t else None
      | _, _ => None
      end
  | EMakeStruct es (Some (TStruct st)) =>
      match check_all (check env) es with
      | Some ts => if bool_decide (ts = map snd st) then Some (TStruct st) else None
      | None => None
      end
  | EGetStructField e i (Some t) =>
      match check env e with
      | Some (TStruct st) =>
          if (0 <=? i)%Z && supported t && bool_decide (snd <$> st !! Z.to_nat i = Some t)
          then Some t else None
      | _ => None
      end
  | EGetRowField e (Some name) (Some t) =>
      match check env e with
      | Some (TStruct st) =>
          if supported t && bool_decide
               ((fun p : nat * (str * SqlType) => p.2.2) <$> list_find (fun f => f.1 = name) st = Some t)
          then Some t else None
      | _ => None
      end
  | EWithExpr assignments e (Some t) =>
      match check_assignments check env assignments with
      | Some inner => agrees (Some t) (check inner e)
      | None => None
      end
  | ECall (Some fn) templated_body sql_body args mode (Some t) =>
      if negb (supported t) then None
      else match check_all (check env) args with
      | None => None
      | Some ts =>
          match templated_body with
          | Some body =>
              match udf_env env fn ts with
              | Some inner => agrees (Some t) (check inner body)
              | None => None
              end
          | None =>
              if bool_decide (fn_group fn = kSQLFunctionGroup) then
                match sql_argument_names fn, sql_body with
                | Some _, Some body =>
                    if IsProjectRegisteredFunction project (fn_Name fn) then
                      match udf_env env fn ts with
                      | Some inner => agrees (Some t) (check inner body)
                      | None => None
                      end
                    else None
                | _, _ => None
                end
              else if bool_decide (fn_group fn = $"External_function") then None
              else
                let name := LowerFunctionDispatchName fn in
                if IsLazyBuiltin name args then
                  if check_lazy (check env) name args t then Some t else None
                else if builtin_ok name ts t then Some t else None
          end
      end
  | _ => None
  end.

(** ** Contexts of an environment *)

(** Every name of the environment is bound to a value of its type; no other
    column is bound. *)
Record context_ok (env : TypeEnv) (ctx : EvalContext) : Prop := {
  ok_project : project_id ctx = project;
  ok_udaf : udaf ctx = None;
  ok_named : forall b k v t, parameters ctx = Some b -> by_name b !! k = Some v ->
    named_parameters env !! k = Some t -> has_type v t = true;
  ok_positional : forall b i v t, parameters ctx = Some b -> by_position b !! i = Some v ->
    positional_parameters env !! i = Some t -> has_type v t = true;
  ok_columns : forall id, match column_types env !! id with
    | Some t => exists v, default ∅ (columns ctx) !! id = Some v /\ has_type v t = true
    | None => default ∅ (columns ctx) !! id = None
    end;
  ok_arguments : forall k t, argument_types env !! k = Some t ->
    exists frames v, arguments ctx = Some frames /\ LookupIn (frames_ frames) k = Some v /\
      has_type v t = true;
}.
End typing.

Section expr_ind.
Context `{GoogleSql, ExecutorNodes} (P : ResolvedExpr -> Prop).
Hypothesis (PLeaf : forall e, match e with
    | ECall _ _ _ _ _ _ | ECast _ _ _ | EMakeStruct _ _ | EGetStructField _ _ _
    | EGetJsonField _ _ _ | EWithExpr _ _ _ | EGetRowField _ _ _ => False | _ => True end -> P e)
  (PCall : forall fn tb sb args mode t, from_option P True tb -> from_option P True sb ->
     Forall P args -> P (ECall fn tb sb args mode t))
  (PCast : forall c e t, P e -> P (ECast c e t))
  (PStruct : forall es t, Forall P es -> P (EMakeStruct es t))
  (PField : forall e i t, P e -> P (EGetStructField e i t))
  (PJson : forall e n t, P e -> P (EGetJsonField e n t))
  (PWith : forall asg e t, Forall (fun a => P a.2) asg -> P e -> P (EWithExpr asg e t))
  (PRow : forall e c t, P e -> P (EGetRowField e c t)).

Fixpoint ResolvedExpr_nested_ind (e : ResolvedExpr) : P e :=
  let fix go (es : list ResolvedExpr) : Forall P es :=
    match es with
    | [] => Forall_nil_2 _
    | e :: es => Forall_cons_2 _ _ _ (ResolvedExpr_nested_ind e) (go es)
    end in
  let fix go_with (asg : list (ResolvedColumn * ResolvedExpr)) : Forall (fun a => P a.2) asg :=
    match asg with
    | [] => Forall_nil_2 _
    | a :: asg => Forall_cons_2 _ _ _ (ResolvedExpr_nested_ind a.2) (go_with asg)
    end in
  let go_opt (o : option ResolvedExpr) : from_option P True o :=
    match o with Some e => ResolvedExpr_nested_ind e | None => I end in
  match e with
  | ECall fn tb sb args mode t => PCall fn tb sb args mode t (go_opt tb) (go_opt sb) (go args)
  | ECast c e t => PCast c e t (ResolvedExpr_nested_ind e)
  | EMakeStruct es t => PStruct es t (go es)
  | EGetStructField e i t => PField e i t (ResolvedExpr_nested_ind e)
  | EGetJsonField e n t => PJson e n t (ResolvedExpr_nested_ind e)
  | EWithExpr asg e t => PWith asg e t (go_with asg) (ResolvedExpr_nested_ind e)
  | EGetRowField e c t => PRow e c t (ResolvedExpr_nested_ind e)
  | e => PLeaf e I
  end.
End expr_ind.

(** ** Soundness *)

Section soundness.
Context `{AbslText, AbslDouble, GoogleSqlOps, ExecutorNodes} `{!CastLibrary, !ExecutorParts}.
Context (project : str).

Abbreviation check := (check project).
Abbreviation context_ok := (context_ok project).

Lemma agrees_Some d o t : agrees d o = Some t -> d = Some t /\ o = Some t.
Proof. unfold agrees. case_bool_decide; [|done]. by intros ->; subst. Qed.

Lemma check_expr_type env e t : check env e = Some t -> expr_type e = Some t.
Proof.
  destruct e; simpl; intros E; try done;
    repeat first [ case_match | discriminate E | progress simplify_eq
                 | match goal with HA : agrees _ _ = Some _ |- _ => apply agrees_Some in HA as [HA _] end ];
    congruence.
Qed.

Definition sound (e : ResolvedExpr) : Prop :=
  forall env ctx t, context_ok env ctx -> check env e = Some t -> ok_has t (EvalExpr e ctx).

Lemma collect_cons ev e es ctx :
  e <> ENull -> CollectFunctionCallArgs ev (e :: es) ctx =
    (v ← ev e ctx; vs ← CollectFunctionCallArgs ev es ctx; Ok (v :: vs)).
Proof. by destruct e. Qed.

Lemma field_list_cons ev e es ctx :
  e <> ENull -> EvalFieldList ev (e :: es) ctx =
    (v ← ev e ctx; vs ← EvalFieldList ev es ctx; Ok (v :: vs)).
Proof. by destruct e. Qed.

Lemma check_not_null env e t : check env e = Some t -> e <> ENull.
Proof. by intros E ->. Qed.

(** The values a loop over typed expressions collects have their types. *)
Lemma collected_type (collect : list ResolvedExpr -> StatusOr (list Value)) (retype : ResolvedExpr -> Value -> Value)
    env ctx es ts vs :
  collect [] = Ok [] ->
  (forall e es vs, check env e <> None -> collect (e :: es) = Ok vs ->
     exists v vs', EvalExpr e ctx = Ok v /\ collect es = Ok vs' /\ vs = retype e v :: vs') ->
  (forall e v t, check env e = Some t -> In t ts -> has_type v t = true -> has_type (retype e v) t = true) ->
  Forall sound es -> context_ok env ctx -> check_all (check env) es = Some ts ->
  collect es = Ok vs -> values_ok vs ts.
Proof.
  intros C0 Cs Rt S C. revert ts vs Rt. induction S as [|e es He S IH]; intros ts vs Rt; simpl.
  - intros [= <-] E. rewrite C0 in E. injection E as <-. constructor.
  - destruct (check env e) as [t|] eqn:Ce; [|done]. simpl.
    destruct (check_all (check env) es) as [ts'|]; [|done]. intros [= <-] Cv.
    destruct (Cs e es vs) as (v & vs' & Ev & Cv' & ->); [by rewrite Ce|done|].
    constructor.
    + apply Rt; [done|by left|]. by apply (He env ctx t C Ce).
    + apply IH; [|done..]. intros e' v' t' Ce' Hin. apply Rt; [done|by right].
Qed.

Lemma collect_args_type env ctx es ts vs :
  Forall sound es -> context_ok env ctx -> check_all (check env) es = Some ts ->
  CollectFunctionCallArgs EvalExpr es ctx = Ok vs -> values_ok vs ts.
Proof.
  apply (collected_type (fun es => CollectFunctionCallArgs EvalExpr es ctx) (fun _ v => v)); [done|..|done].
  intros e es' vs' Ce Cv. rewrite collect_cons in Cv by (by intros ->). inv_ok Cv. eauto.
Qed.

Lemma field_list_type env ctx es ts vs :
  Forall sound es -> context_ok env ctx -> check_all (check env) es = Some ts ->
  EvalFieldList EvalExpr es ctx = Ok vs -> values_ok vs ts.
Proof.
  apply (collected_type (fun es => EvalFieldList EvalExpr es ctx) (fun _ v => v)); [done|..|done].
  intros e es' vs' Ce Cv. rewrite field_list_cons in Cv by (by intros ->). inv_ok Cv. eauto.
Qed.

Lemma udf_args_type env ctx es ts vs :
  forallb supported ts = true ->
  Forall sound es -> context_ok env ctx -> check_all (check env) es = Some ts ->
  CollectUdfArgs EvalExpr es ctx = Ok vs -> values_ok vs ts.
Proof.
  intros Su.
  apply (collected_type (fun es => CollectUdfArgs EvalExpr es ctx)
           (fun e v => if is_null v then NullOfType (expr_type e) else v)); [done|..].
  - intros e es' vs' Ce Cv. cbn [CollectUdfArgs] in Cv.
    destruct (EvalExpr e ctx) as [v|]; [|done]. cbn [mbind outcome_bind] in Cv.
    destruct (negb (is_null v) && negb (is_valid v)); [done|]. inv_ok Cv. eauto.
  - intros e v t Ce Hin HT. destruct (is_null v); [|done].
    rewrite (check_expr_type _ _ _ Ce). apply NullOfType_has_type.
    rewrite forallb_forall in Su. by apply Su.
Qed.

(** The frame of a call binds every argument to a value of its type. *)
Definition frame_typed (frame : gmap str Value) (ts : gmap str SqlType) : Prop :=
  forall k t, ts !! k = Some t -> exists v, frame !! k = Some v /\ has_type v t = true.

Lemma declare_arguments_type names vs ts top outer frames :
  values_ok vs ts ->
  declare_arguments (mkFrames (top :: outer)) (zip names vs) = Ok frames ->
  exists top', frames_ frames = top' :: outer /\
    (forall k v, top !! k = Some v -> top' !! k = Some v) /\
    frame_typed top' (argument_env names ts).
Proof.
  intros V. revert names top. induction V as [|v t vs ts Hv V IH]; intros [|n names] top; simpl.
  1-3: intros [= <-]; exists top; split_and!; [done..|]; intros k t'; unfold argument_env; simpl;
    rewrite ?zip_with_nil_r; by rewrite lookup_empty.
  unfold Declare_. cbn [frames_].
  destruct (top !! Canonicalize n) eqn:E; [done|]. cbn [mbind outcome_bind]. intros D.
  destruct (IH _ _ D) as (top' & F & Keep & Ty). exists top'. split_and!; [done|..].
  - intros k w Hk. apply Keep. rewrite lookup_insert_ne; [done|]. congruence.
  - intros k t'. unfold argument_env. simpl. destruct (decide (k = Canonicalize n)) as [->|N].
    + rewrite lookup_insert_eq. intros [= <-]. exists v. split; [|done]. apply Keep, lookup_insert_eq.
    + rewrite lookup_insert_ne by done. apply Ty.
Qed.

Lemma udf_context env ctx names ts vs frames :
  context_ok env ctx -> values_ok vs ts ->
  declare_arguments (PushFrame NewFrameStack) (zip names vs) = Ok frames ->
  context_ok (with_argument_types env (argument_env names ts)) (with_arguments ctx frames).
Proof.
  intros [] V D. destruct (declare_arguments_type _ _ _ _ _ _ V D) as (top & F & _ & Ty).
  split; try done. cbn [argument_types with_argument_types]. intros k t Hk.
  destruct (Ty k t Hk) as (v & Hv & HT). exists frames, v. split_and!; [done| |done].
  rewrite F. cbn [LookupIn]. by rewrite Hv.
Qed.

Lemma udf_body_type env ctx fn args ts t body :
  Forall sound args -> sound body -> context_ok env ctx ->
  check_all (check env) args = Some ts ->
  match udf_env env fn ts with Some inner => agrees (Some t) (check inner body) | None => None end
    = Some t ->
  ok_has t (EvalSqlUdfBody EvalExpr fn args (Some t) body ctx).
Proof.
  intros S Sb C Ca. unfold udf_env, EvalSqlUdfBody.
  destruct (udf_argument_names fn) as [names|]; [|done].
  destruct (length names =? length ts) eqn:L; [|done]. cbn [andb].
  destruct (forallb supported ts) eqn:Su; [|done]. intros A. apply agrees_Some in A as [_ Cb].
  cbn [mbind outcome_bind]. destruct (negb _); [apply ok_has_Err|].
  apply ok_has_bind. intros vs Ev. apply ok_has_bind. intros frames Ed.
  pose proof (udf_args_type _ _ _ _ _ Su S C Ca Ev) as V.
  pose proof (Sb _ _ _ (udf_context _ _ _ _ _ _ C V Ed) Cb) as R.
  apply ok_has_bind. intros r Er. specialize (R _ Er). destruct t; try (by apply ok_has_Ok).
  destruct (is_null r); apply ok_has_Ok; [by apply has_type_array|done].
Qed.

Lemma case_no_value_type env ctx t tests es :
  Forall sound es -> context_ok env ctx -> check_arms (check env) tests t es = true ->
  ok_has t (CaseNoValueLoop EvalExpr es ctx).
Proof.
  intros S C. revert S. remember (length es) as n eqn:Hn. revert es Hn.
  induction n as [n IH] using lt_wf_ind. intros [|c [|r es]] -> S; simpl; [done|..].
  - intros E. bool_to_prop. inversion S as [|? ? Sc]; subst. by apply (Sc env).
  - intros E. apply andb_true_iff in E as [E Er]. apply andb_true_iff in E as [_ E]. bool_to_prop.
    inversion S as [|? ? Sc S1]; subst. inversion S1 as [|? ? Sr S2]; subst.
    apply ok_has_bind. intros cond _. destruct (is_true cond); [by apply (Sr env)|].
    eapply IH; eauto. simpl. lia.
Qed.

Lemma case_with_value_type env ctx t tests input es :
  Forall sound es -> context_ok env ctx -> check_arms (check env) tests t es = true ->
  ok_has t (CaseWithValueLoop EvalExpr input es ctx).
Proof.
  intros S C. revert S. remember (length es) as n eqn:Hn. revert es Hn.
  induction n as [n IH] using lt_wf_ind. intros [|c [|r es]] -> S; simpl; [done|..].
  - intros E. bool_to_prop. inversion S as [|? ? Sc]; subst. by apply (Sc env).
  - intros E. apply andb_true_iff in E as [E Er]. apply andb_true_iff in E as [_ E]. bool_to_prop.
    inversion S as [|? ? Sc S1]; subst. inversion S1 as [|? ? Sr S2]; subst.
    apply ok_has_bind. intros w _.
    destruct (is_null input || is_null w); [eapply IH; eauto; simpl; lia|].
    destruct (Equals input w); [by apply (Sr env)|]. eapply IH; eauto. simpl. lia.
Qed.

Lemma lazy_type env ctx name args t :
  Forall sound args -> context_ok env ctx -> check_lazy (check env) name args t = true ->
  ok_has t (EvalLazyBuiltinByName EvalExpr name args (Some t) ctx).
Proof.
  intros S C. unfold check_lazy, EvalLazyBuiltinByName.
  destruct (is_name name [$"$with_side_effects"]).
  { unfold EvalWithSideEffects. destruct args as [|e [|p []]]; try done.
    inversion S as [|? ? Se _]; subst. intros E. apply andb_true_iff in E as [E _]. bool_to_prop.
    apply ok_has_bind. intros w _. destruct (negb (is_null w)); [destruct w; apply ok_has_Err|].
    by apply (Se env). }
  destruct (is_name name [$"emu_format_t"]); [done|].
  destruct (is_name name [$"if"]).
  { unfold EvalIfLazy. destruct args as [|c [|a [|b []]]]; try done.
    inversion S as [|? ? Sc S1]; subst. inversion S1 as [|? ? Sa S2]; subst.
    inversion S2 as [|? ? Sb _]; subst.
    intros E. apply andb_true_iff in E as [E Eb]. apply andb_true_iff in E as [_ Ea]. bool_to_prop.
    apply ok_has_bind. intros w _. destruct (is_true w); [by apply (Sa env)|by apply (Sb env)]. }
  destruct (is_name name [$"ifnull"]).
  { unfold EvalIfNullLazy. destruct args as [|a [|b []]]; try done.
    inversion S as [|? ? Sa S1]; subst. inversion S1 as [|? ? Sb _]; subst.
    intros E. apply andb_true_iff in E as [Ea Eb]. bool_to_prop.
    apply ok_has_bind. intros w Ew. destruct (negb (is_null w)); [|by apply (Sb env)].
    apply ok_has_Ok. by apply (Sa env ctx t C Ea). }
  destruct (is_name name [$"$case_no_value"]).
  { unfold EvalCaseNoValueLazy. intros E. case_match; [apply ok_has_Err|].
    by eapply case_no_value_type. }
  destruct (is_name name [$"$case_with_value"]); [|done].
  unfold EvalCaseWithValueLazy. destruct args as [|i [|w arms]]; try done.
  destruct (check env i); [|done]. intros E. inversion S as [|? ? _ S1]; subst.
  case_match; [apply ok_has_Err|]. apply ok_has_bind. intros input _.
  by eapply case_with_value_type.
Qed.

(** The columns a WITH expression binds extend the context. *)
Lemma with_column_context env ctx id name t v named :
  context_ok env ctx -> column_types env !! id = None -> has_type v t = true ->
  default ∅ (columns ctx) !! id = None /\
  context_ok (with_column_type env id t)
    (with_columns ctx (<[id := v]> (default ∅ (columns ctx))) (<[name := v]> named)).
Proof.
  intros C Fr HT. pose proof (ok_columns _ _ _ C) as Cc. split.
  { specialize (Cc id). by rewrite Fr in Cc. }
  destruct C. split; try done. intros id'. cbn.
  destruct (decide (id' = id)) as [->|N].
  - rewrite !lookup_insert_eq. eauto.
  - rewrite !lookup_insert_ne by done. apply Cc.
Qed.

Lemma with_columns_context env ctx row named named' :
  context_ok env (with_columns ctx row named) -> context_ok env (with_columns ctx row named').
Proof. by intros []; split. Qed.

Lemma with_columns_twice ctx row named row' named' :
  with_columns (with_columns ctx row named) row' named' = with_columns ctx row' named'.
Proof. done. Qed.

Lemma with_assignments_type asg env inner ctx row named maps env' :
  Forall (fun a => sound a.2) asg ->
  context_ok env inner -> context_ok env (with_columns ctx row named) ->
  check_assignments check env asg = Some env' ->
  WithAssignments EvalExpr asg ctx row named inner = Ok maps ->
  context_ok env' (with_columns ctx maps.1 maps.2).
Proof.
  intros S. revert env inner row named. induction S as [|[col e] asg He S IH];
    intros env inner row named Ci Cr; simpl.
  - by intros [= <-] [= <-].
  - destruct (check env e) as [t|] eqn:Ce; [|done]. simpl.
    destruct (column_types env !! column_id col) eqn:Fr; [done|]. intros Ca.
    assert (e <> ENull) as Ne by (by intros ->).
    intros W. assert (exists v, EvalExpr e inner = Ok v /\
      WithAssignments EvalExpr asg ctx
        (match row !! column_id col with Some _ => row | None => <[column_id col := v]> row end)
        (<[column_name col := v]> named)
        (with_columns ctx
           (match row !! column_id col with Some _ => row | None => <[column_id col := v]> row end)
           (<[column_name col := v]> named)) = Ok maps) as (v & Ev & W').
    { destruct e; try done; (destruct (EvalExpr _ inner) as [u|] eqn:Eu; [|done]);
        exists u; split; done. }
    pose proof (He env inner t Ci Ce v Ev) as HT.
    destruct (with_column_context env _ (column_id col) (column_name col) t v named Cr Fr HT)
      as [Nr Cn]. cbn in Nr, Cn. rewrite Nr in W'.
    eapply IH; [| |exact Ca|exact W']; exact Cn.
Qed.

Lemma call_type env ctx fn tb sb args mode t :
  from_option sound True tb -> from_option sound True sb -> Forall sound args ->
  context_ok env ctx -> check env (ECall (Some fn) tb sb args mode (Some t)) = Some t ->
  ok_has t (EvalFunctionCall EvalExpr (Some fn) tb sb args mode (Some t) ctx).
Proof.
  intros St Ss Sa C. cbn [EvalTypes.check].
  destruct (supported t) eqn:Su; cbn [negb]; [|done].
  pose proof (NullOfType_has_type _ Su) as Nt.
  destruct (check_all (check env) args) as [ts|] eqn:Ca; [|done].
  unfold EvalFunctionCall. rewrite (ok_udaf _ _ _ C). unfold TryEvalSqlUdfFromCall.
  destruct tb as [body|]; [intros Cb; by eapply udf_body_type|].
  destruct (bool_decide (fn_group fn = kSQLFunctionGroup)).
  { destruct (sql_argument_names fn) as [names|]; [|done]. destruct sb as [body|]; [|done].
    rewrite (ok_project _ _ _ C). destruct (IsProjectRegisteredFunction _ _); [|done].
    intros Cb. by eapply udf_body_type. }
  destruct (bool_decide (fn_group fn = $"External_function")); [done|]. cbn [andb].
  destruct (IsLazyBuiltin (LowerFunctionDispatchName fn) args).
  { destruct (check_lazy _ _ _ _) eqn:L; [|done]. intros _. by eapply lazy_type. }
  destruct (builtin_ok _ _ _) eqn:B; [|done]. intros _.
  destruct (CollectFunctionCallArgs EvalExpr args ctx) as [vs|s] eqn:Cv.
  - pose proof (builtin_type _ _ _ _ ctx Su B (collect_args_type _ _ _ _ _ Sa C Ca Cv)) as R.
    destruct (DispatchFunctionByName _ _ _ _) as [v|s]; [done|].
    destruct (safe_result_error mode s); ok_type.
  - destruct (safe_args_error mode s); ok_type.
Qed.

Lemma leaf_sound e :
  match e with
  | ECall _ _ _ _ _ _ | ECast _ _ _ | EMakeStruct _ _ | EGetStructField _ _ _
  | EGetJsonField _ _ _ | EWithExpr _ _ _ | EGetRowField _ _ _ => False | _ => True end -> sound e.
Proof.
  intros Leaf env ctx t C Ce. destruct e; try done; cbn [EvalTypes.check] in Ce.
  - apply ok_has_Ok. destruct (type_of v) as [u|]; [|done]. destruct (has_type v u) eqn:E; congruence.
  - destruct is_untyped; [done|]. simpl. unfold EvalResolvedParameter.
    destruct (parameters ctx) as [b|] eqn:Pb; [|apply ok_has_Err].
    destruct name as [|ch name].
    + destruct (0 <? position)%Z; [|done]. apply agrees_Some in Ce as [_ Ce].
      destruct (by_position b !! _) eqn:Lk; [|apply ok_has_Err].
      apply ok_has_Ok. by eapply (ok_positional _ _ _ C).
    + apply agrees_Some in Ce as [_ Ce].
      destruct (by_name b !! _) eqn:Lk; [|apply ok_has_Err].
      apply ok_has_Ok. by eapply (ok_named _ _ _ C).
  - apply agrees_Some in Ce as [_ Ce]. destruct (ok_arguments _ _ _ C _ _ Ce) as (fr & v & Af & Lk & HT).
    simpl. unfold EvalResolvedArgumentRefExpr. rewrite Af. unfold Lookup. rewrite Lk. by apply ok_has_Ok.
  - apply agrees_Some in Ce as [_ Ce]. pose proof (ok_columns _ _ _ C (column_id column)) as Cc.
    rewrite Ce in Cc. destruct Cc as (v & Lk & HT). simpl. unfold LookupColumnRef.
    destruct (columns ctx) as [row|]; simpl in Lk; [|by rewrite lookup_empty in Lk].
    rewrite Lk. by apply ok_has_Ok.
Qed.

Lemma cast_sound c e ty : sound e -> sound (ECast c e ty).
Proof.
  intros IH env ctx t C Ce. pose proof (check_expr_type _ _ _ Ce) as Ty. simpl in Ty. subst ty.
  cbn [EvalTypes.check] in Ce. destruct (check env e) as [s|] eqn:Es; [|done].
  destruct (extended_cast c) eqn:Ex; [done|]. destruct (supported t) eqn:Su; [|done].
  pose proof (check_not_null _ _ _ Es) as Ne.
  assert (EvalExpr (ECast c e (Some t)) ctx =
    match EvalExpr e ctx with
    | Err s => if return_null_on_error c then Ok (NullOfType (Some t)) else Err s
    | Ok inner => EvalResolvedCast c (Some t) inner (expr_type e)
    end) as -> by (by destruct e).
  destruct (EvalExpr e ctx) as [v|] eqn:Ev.
  - rewrite (check_expr_type _ _ _ Es). intros w Hw.
    eapply cast_type_sound; [done..| |exact Hw]. by apply (IH env ctx s C Es).
  - pose proof (NullOfType_has_type _ Su). ok_type.
Qed.

Lemma struct_sound es ty : Forall sound es -> sound (EMakeStruct es ty).
Proof.
  intros IH env ctx t C Ce. pose proof (check_expr_type _ _ _ Ce) as Ty. simpl in Ty. subst ty.
  cbn [EvalTypes.check] in Ce. destruct t as [| | | | | | | | | | | | | | | | | | | |st]; try done.
  destruct (check_all (check env) es) as [ts|] eqn:Ca; [|done]. case_bool_decide; [|done].
  simpl. unfold EvalResolvedMakeStruct. destruct (negb _); [apply ok_has_Err|].
  apply ok_has_bind. intros vs Ev. apply ok_has_Ok, has_type_struct. split; [done|].
  pose proof (field_list_type _ _ _ _ _ IH C Ca Ev) as V. by subst ts.
Qed.

(** The value at a position of a typed STRUCT has the type of the field. *)
Lemma field_value base st i f v :
  has_type base (TStruct st) = true -> st !! i = Some f -> fields base !! i = Some v ->
  has_type v f.2 = true.
Proof.
  intros HT Ls Lv. pose proof (has_type_type_of _ _ HT) as Ty.
  destruct base; try done. apply has_type_struct in HT as [_ F].
  apply (Forall2_lookup_lr _ _ _ i v f.2) in F; [done..|].
  change (map snd st) with (snd <$> st). by rewrite list_lookup_fmap, Ls.
Qed.

Lemma field_sound e i ty : sound e -> sound (EGetStructField e i ty).
Proof.
  intros IH env ctx t C Ce. pose proof (check_expr_type _ _ _ Ce) as Ty. simpl in Ty. subst ty.
  cbn [EvalTypes.check] in Ce. destruct (check env e) as [te|] eqn:Es; [|done].
  destruct te as [| | | | | | | | | | | | | | | | | | | |st]; try done.
  destruct ((0 <=? i)%Z && supported t) eqn:Su; [|done]. apply andb_true_iff in Su as [Hi Su].
  case_bool_decide as Lk; [|done]. apply fmap_Some in Lk as (f & Lk & ->).
  pose proof (check_not_null _ _ _ Es) as Ne.
  assert (EvalExpr (EGetStructField e i (Some f.2)) ctx =
    (base ← EvalExpr e ctx; struct_field base i (Some f.2))) as -> by (by destruct e).
  apply ok_has_bind. intros base Eb. pose proof (IH env ctx _ C Es _ Eb) as HT.
  pose proof (NullOfType_has_type _ Su) as Nt. unfold struct_field.
  destruct (is_null base); [by apply ok_has_Ok|].
  destruct (negb _); [apply ok_has_Err|]. destruct (_ || _); [apply ok_has_Err|].
  destruct (fields base !! Z.to_nat i) as [v|] eqn:Lv; [|apply ok_has_Err].
  apply ok_has_Ok. by eapply field_value.
Qed.

Lemma row_field_sound e c ty : sound e -> sound (EGetRowField e c ty).
Proof.
  intros IH env ctx t C Ce. pose proof (check_expr_type _ _ _ Ce) as Ty. simpl in Ty. subst ty.
  cbn [EvalTypes.check] in Ce. destruct c as [name|]; [|done].
  destruct (check env e) as [te|] eqn:Es; [|done].
  destruct te as [| | | | | | | | | | | | | | | | | | | |st]; try done.
  destruct (supported t) eqn:Su; [|done]. cbn [andb] in Ce.
  case_bool_decide as Lk; [|done]. apply fmap_Some in Lk as ([i f] & Lk & ->). cbn [snd] in *.
  pose proof (check_not_null _ _ _ Es) as Ne.
  assert (EvalExpr (EGetRowField e (Some name) (Some f.2)) ctx =
    (base ← EvalExpr e ctx; row_field base name (Some f.2))) as -> by (by destruct e).
  apply ok_has_bind. intros base Eb. pose proof (IH env ctx _ C Es _ Eb) as HT.
  pose proof (NullOfType_has_type _ Su) as Nt. unfold row_field.
  destruct (is_null base); [by apply ok_has_Ok|].
  pose proof (has_type_type_of _ _ HT) as Tb. destruct base; try apply ok_has_Err.
  injection Tb as ->. rewrite Lk. cbn [mbind option_bind fst].
  destruct (vals !! i) as [v|] eqn:Lv; [|apply ok_has_Err].
  apply ok_has_Ok. apply list_find_Some in Lk as (Li & _).
  by apply (field_value _ _ i f v HT).
Qed.

Lemma with_sound asg e ty : Forall (fun a => sound a.2) asg -> sound e -> sound (EWithExpr asg e ty).
Proof.
  intros Sa IH env ctx t C Ce. pose proof (check_expr_type _ _ _ Ce) as Ty. simpl in Ty. subst ty.
  cbn [EvalTypes.check] in Ce.
  destruct (check_assignments _ env asg) as [inner|] eqn:Ca; [|done].
  apply agrees_Some in Ce as [_ Ce]. pose proof (check_not_null _ _ _ Ce) as Ne.
  assert (EvalExpr (EWithExpr asg e (Some t)) ctx =
    (maps ← WithAssignments EvalExpr asg ctx (default ∅ (columns ctx)) ∅ ctx;
     EvalExpr e (with_columns ctx maps.1 maps.2))) as -> by (by destruct e).
  apply ok_has_bind. intros maps W. apply (IH inner); [|done].
  eapply with_assignments_type; [done|exact C| |exact Ca|exact W].
  destruct C; by split.
Qed.

(** Evaluation of an expression the type checker accepts. *)
Lemma all_sound e : sound e.
Proof.
  induction e as [e Leaf|fn tb sb args mode ty St Ss Sa|c e ty IH|es ty IH|e i ty IH|e n ty IH
                 |asg e ty IHa IH|e c ty IH] using ResolvedExpr_nested_ind;
    auto using leaf_sound, cast_sound, struct_sound, field_sound, row_field_sound, with_sound.
  - intros env ctx t C Ce. pose proof (check_expr_type _ _ _ Ce) as Ty. simpl in Ty. subst ty.
    destruct fn as [fn|]; [|done]. by eapply call_type.
  - done.
Qed.

(** C10: an expression the type checker accepts evaluates, in a context of the
    environment, to a value of its type at every depth (elements of arrays and
    fields of structs included), or to an error: builtins, lazy conditionals,
    SQL functions with their own argument frame, casts, struct fields and WITH
    expressions. *)
Theorem eval_type_sound env ctx e t v :
  context_ok env ctx -> check env e = Some t -> EvalExpr e ctx = Ok v -> has_type v t = true.
Proof. intros C Ce. by apply (all_sound e env ctx t C Ce). Qed.
End soundness.

(** ** Example: a SQL function over a row *)
Module TypingExample.
Import Reference EvalReference.EvalReference.

Definition env : TypeEnv := mkEnv ∅ [] {[1%Z := TInt64; 2%Z := TBool]} ∅.

(** [twice(x) := IF(x > 100, x, x + x)] applied to column 1. *)
Definition x : ResolvedExpr := EArgumentRef $"X" (Some TInt64).
Definition twice_body : ResolvedExpr :=
  call $"if" [call $"$greater" [x; ELiteral (SInt64 100)] TBool; x; call $"$add" [x; x] TInt64] TInt64.
Definition example : ResolvedExpr :=
  sql_call $"twice" [$"x"] twice_body [EColumnRef (mkColumn 1 $"n" (Some TInt64) []) false] TInt64.

Lemma row_context_ok : context_ok $"p" env row_context.
Proof.
  split; try done.
  intros id. cbn. destruct (decide (id = 1%Z)) as [->|N1]; [by eexists|].
  destruct (decide (id = 2%Z)) as [->|N2]; [by eexists|].
  by rewrite !lookup_insert_ne, !lookup_singleton_ne by congruence.
Qed.

Lemma eval_type_sound_witness :
  EvalExpr example row_context = Ok (SInt64 82) /\ has_type (SInt64 82) TInt64 = true.
Proof.
  assert (EvalExpr example row_context = Ok (SInt64 82)) as E
    by (vm_compute; reflexivity).
  split; [exact E|].
  apply (eval_type_sound $"p" env row_context example TInt64
           (SInt64 82) row_context_ok); [vm_compute; reflexivity|exact E].
Defined.
End TypingExample.
