(* ===== verification/StringFuncs.v ===== *)
(** * StringFuncs: the string functions of the semantic executor

    Models [semantic/functions/string_funcs.cc], [string_extra_core.cc],
    [string_extra_substr.cc], [string_extra_encoding.cc],
    [string_extra_helpers.cc], [string_extra_pad_helpers.cc],
    [string_extra_regex_format.cc], [string_extra_unicode.cc] and
    [contains_substr.cc].  The routines of GoogleSQL these functions call (UTF-8
    text, regular expressions, hashing, Unicode normalization, FORMAT) and the
    escapes of Abseil are the class [StringLibrary]; [StringLibraryLaws] states
    the documented behaviour the theorems rely on.

    A BIGNUMERIC parsed from scientific notation may leave a text in the context
    that the next rendering reads; the parsing functions take that slot and return
    it with their result ([RenderOverride]; [None] is the null context). *)

From S2P Require Import Prelude Order Absl AbslReference Storage SemanticError SqlValue.
From S2P Require Import GoogleSqlReference Arithmetic Operators MathFuncs Casts.

Class StringLibrary `{GoogleSql} := {
  FirstByteOfBytesToASCII : str -> StatusOr Z;
  FirstCharOfStringToASCII : str -> StatusOr Z;
  LengthBytes : str -> StatusOr Z;
  CodePointToString : Z -> StatusOr str;
  FirstCharToCodePoint : str -> StatusOr Z;
  LowerBytes : str -> StatusOr str;
  LowerUtf8 : str -> StatusOr str;
  UpperBytes : str -> StatusOr str;
  UpperUtf8 : str -> StatusOr str;
  LeftTrimSpacesUtf8 : str -> StatusOr str;
  RightTrimSpacesUtf8 : str -> StatusOr str;
  TrimSpacesUtf8 : str -> StatusOr str;
  LeftTrimBytes : str -> str -> StatusOr str;
  RightTrimBytes : str -> str -> StatusOr str;
  TrimBytes : str -> str -> StatusOr str;
  LeftTrimUtf8 : str -> str -> StatusOr str;
  RightTrimUtf8 : str -> str -> StatusOr str;
  TrimUtf8 : str -> str -> StatusOr str;
  ReplaceBytes : str -> str -> str -> StatusOr str;
  ReplaceUtf8 : str -> str -> str -> StatusOr str;
  TranslateBytes : str -> str -> str -> StatusOr str;
  TranslateUtf8 : str -> str -> str -> StatusOr str;
  ReverseBytes : str -> StatusOr str;
  ReverseUtf8 : str -> StatusOr str;
  StartsWithBytes : str -> str -> StatusOr bool;
  StartsWithUtf8 : str -> str -> StatusOr bool;
  EndsWithBytes : str -> str -> StatusOr bool;
  EndsWithUtf8 : str -> str -> StatusOr bool;
  LeftBytes : str -> Z -> StatusOr str;
  LeftUtf8 : str -> Z -> StatusOr str;
  RightBytes : str -> Z -> StatusOr str;
  RightUtf8 : str -> Z -> StatusOr str;
  SubstrBytes : str -> Z -> StatusOr str;
  SubstrUtf8 : str -> Z -> StatusOr str;
  SubstrWithLengthBytes : str -> Z -> Z -> StatusOr str;
  SubstrWithLengthUtf8 : str -> Z -> Z -> StatusOr str;
  StrposBytes : str -> str -> StatusOr Z;
  StrposUtf8 : str -> str -> StatusOr Z;
  SplitBytes : str -> str -> StatusOr (list str);
  SplitUtf8 : str -> str -> StatusOr (list str);
  lib_ToHex : str -> StatusOr str;
  lib_FromHex : str -> StatusOr str;
  lib_ToBase64 : str -> StatusOr str;
  lib_FromBase64 : str -> StatusOr str;
  (** [Hasher::Create(algo)->Hash]; [None] when the algorithm is unavailable *)
  Hasher : Z -> option (str -> str);
  kMd5 : Z;
  kSha1 : Z;
  kSha256 : Z;
  kSha512 : Z;
  FarmFingerprint : str -> Z;
  InitialCapitalizeDefault : str -> StatusOr str;
  InitialCapitalize : str -> str -> StatusOr str;
  NormalizeMode_NFC : Z;
  NormalizeMode_NFKC : Z;
  NormalizeMode_Parse : str -> option Z;
  lib_Normalize : str -> Z -> bool -> StatusOr str;
  lib_CodePointsToString : list Z -> StatusOr str;
  lib_CodePointsToBytes : list Z -> StatusOr str;
  BytesToCodePoints : str -> StatusOr (list Z);
  StringToCodePoints : str -> StatusOr (list Z);
  (** regular expressions; the boolean selects positions in bytes *)
  RegExp : Type;
  MakeRegExpBytes : str -> StatusOr RegExp;
  MakeRegExpUtf8 : str -> StatusOr RegExp;
  re_Contains : RegExp -> str -> StatusOr bool;
  re_Extract : RegExp -> str -> bool -> Z -> Z -> StatusOr (option str);
  (** what the iterator yields, and the error it stops with *)
  re_ExtractAll : RegExp -> str -> Z -> list str * option Status;
  re_Replace : RegExp -> str -> str -> StatusOr str;
  (** position, occurrence and whether the end of the match is returned; [None]
      leaves the default of [InstrParams] *)
  re_Instr : RegExp -> str -> bool -> option Z -> option Z -> option bool -> StatusOr Z;
  StringFormatUtf8 : str -> list Value -> StatusOr (option str);
  lib_ParseNumeric : str -> StatusOr NumericValue;
  lib_ParseBigNumeric : str -> StatusOr BigNumericValue;
  BigNumeric_FromStringWithRounding : str -> Z -> bool -> StatusOr BigNumericValue;
  Value_DebugString : Value -> str;
  lib_GetSQLLiteral : Value -> str;
  Utf8SafeCEscape : str -> str;
  Base64Escape : str -> str;
}.

Section strings.
Context `{AbslText, AbslDouble, GoogleSqlOps} `{!CastLibrary, !StringLibrary}.

(** ** Helpers *)

Definition AnyNull (args : list Value) : bool := existsb is_null args.

Definition AsStringOrBytes (v : Value) : str :=
  if is_kind v TYPE_BYTES then bytes_value v else string_value v.

Definition StringOrBytesFromView (template_value : Value) (out : str) : Value :=
  if is_kind template_value TYPE_BYTES then SBytes out else SString out.

(** The null of a BYTES argument, else of STRING. *)
Definition NullPadResult (template_value : Value) : Value :=
  if is_kind template_value TYPE_BYTES then NullBytes else NullString.

(** A routine of the library for each of the two kinds. *)
Definition by_kind {A} (v : Value) (bytes utf8 : str -> A) : A :=
  if is_kind v TYPE_BYTES then bytes (bytes_value v) else utf8 (string_value v).

Definition MakeRegExpForValue (pattern : Value) : StatusOr RegExp := by_kind pattern MakeRegExpBytes MakeRegExpUtf8.

Definition invalid (m : str) : Status := InvalidArgumentError ($"semantic: " ++ m).

(** ** Lengths and characters *)

Definition Ascii (args : list Value) : StatusOr Value :=
  match args with
  | [v] =>
      if is_null v then Ok NullInt64
      else by_kind v
        (fun s => match s with [] => Ok (SInt64 0) | _ => SInt64 <$> FirstByteOfBytesToASCII s end)
        (fun s => match s with [] => Ok (SInt64 0) | _ => SInt64 <$> FirstCharOfStringToASCII s end)
  | _ => Err (invalid $"ASCII expects one argument")
  end.

Definition ByteLength (args : list Value) : StatusOr Value :=
  match args with
  | [v] => if is_null v then Ok NullInt64 else SInt64 <$> by_kind v LengthBytes LengthBytes
  | _ => Err (invalid $"BYTE_LENGTH expects one argument")
  end.

Definition Length (args : list Value) : StatusOr Value :=
  match args with
  | [v] => if is_null v then Ok NullInt64 else SInt64 <$> by_kind v LengthBytes LengthUtf8
  | _ => Err (invalid $"LENGTH expects one argument")
  end.

Definition CharLength (args : list Value) : StatusOr Value := Length args.
Definition OctetLength (args : list Value) : StatusOr Value := ByteLength args.

Definition Chr (args : list Value) : StatusOr Value :=
  match args with
  | [v] =>
      if is_null v then Ok NullString
      else if negb (is_kind v TYPE_INT64) then Err (invalid $"CHR expects INT64")
      else if (int64_value v =? 0)%Z then Ok (SString [])
      else SString <$> CodePointToString (int64_value v)
  | _ => Err (invalid $"CHR expects one argument")
  end.

Definition Unicode (args : list Value) : StatusOr Value :=
  match args with
  | [v] =>
      if is_null v then Ok NullInt64
      else match string_value v with
           | [] => Ok (SInt64 0)
           | s => SInt64 <$> FirstCharToCodePoint s
           end
  | _ => Err (invalid $"UNICODE expects one argument")
  end.

(** What CONCAT appends for an argument. *)
Definition concat_text (v : Value) : str :=
  match v with
  | SString s => s
  | SBytes s => s
  | SInt64 z => StrInt z
  | SDouble d => StrDouble d
  | SBool b => if b then $"true" else $"false"
  | _ => Value_DebugString v
  end.

Definition Concat (args : list Value) : StatusOr Value :=
  match args with
  | [] => Err (invalid $"CONCAT expects arguments")
  | _ => if AnyNull args then Ok NullString else Ok (SString (flat_map concat_text args))
  end.

Definition Lower (args : list Value) : StatusOr Value :=
  match args with
  | [v] =>
      if is_null v then Ok NullString
      else by_kind v (fun s => SBytes <$> LowerBytes s) (fun s => SString <$> LowerUtf8 s)
  | _ => Err (invalid $"LOWER expects one argument")
  end.

Definition Upper (args : list Value) : StatusOr Value :=
  match args with
  | [v] =>
      if is_null v then Ok NullString
      else by_kind v (fun s => SBytes <$> UpperBytes s) (fun s => SString <$> UpperUtf8 s)
  | _ => Err (invalid $"UPPER expects one argument")
  end.

(** ** TRIM *)

Definition TrimSpacesOnly (name input : str) : StatusOr Value :=
  SString <$> (if bool_decide (name = $"ltrim") then LeftTrimSpacesUtf8 input
               else if bool_decide (name = $"rtrim") then RightTrimSpacesUtf8 input
               else TrimSpacesUtf8 input).

Definition TrimBytesWithChars (name input chars : str) : StatusOr Value :=
  SBytes <$> (if bool_decide (name = $"ltrim") then LeftTrimBytes input chars
              else if bool_decide (name = $"rtrim") then RightTrimBytes input chars
              else TrimBytes input chars).

Definition TrimStringWithChars (name input chars : str) : StatusOr Value :=
  SString <$> (if bool_decide (name = $"ltrim") then LeftTrimUtf8 input chars
               else if bool_decide (name = $"rtrim") then RightTrimUtf8 input chars
               else TrimUtf8 input chars).

Definition TrimFamily (name : str) (args : list Value) : StatusOr Value :=
  match args with
  | [v] =>
      if is_null v then Ok NullString
      else if is_kind v TYPE_BYTES
      then Err (MakeSemanticError rNotImplemented $"semantic: TRIM on BYTES without chars NYI")
      else TrimSpacesOnly name (string_value v)
  | [v; chars] =>
      if is_null v then Ok NullString
      else if is_null chars then Ok NullString
      else if is_kind v TYPE_BYTES then TrimBytesWithChars name (bytes_value v) (bytes_value chars)
      else TrimStringWithChars name (string_value v) (string_value chars)
  | _ => Err (invalid (name ++ $" expects one or two arguments"))
  end.

Definition Trim (args : list Value) : StatusOr Value := TrimFamily $"trim" args.
Definition Ltrim (args : list Value) : StatusOr Value := TrimFamily $"ltrim" args.
Definition Rtrim (args : list Value) : StatusOr Value := TrimFamily $"rtrim" args.

(** ** REPLACE, TRANSLATE, REVERSE, prefixes and parts *)

Definition Replace (args : list Value) : StatusOr Value :=
  match args with
  | [v; from; to] =>
      if AnyNull args then Ok (NullPadResult v)
      else if is_kind v TYPE_BYTES
      then SBytes <$> ReplaceBytes (bytes_value v) (bytes_value from) (bytes_value to)
      else SString <$> ReplaceUtf8 (string_value v) (string_value from) (string_value to)
  | _ => Err (invalid $"REPLACE expects three arguments")
  end.

Definition Translate (args : list Value) : StatusOr Value :=
  match args with
  | [v; from; to] =>
      if AnyNull args then Ok (NullPadResult v)
      else if is_kind v TYPE_BYTES
      then SBytes <$> TranslateBytes (bytes_value v) (bytes_value from) (bytes_value to)
      else SString <$> TranslateUtf8 (string_value v) (string_value from) (string_value to)
  | _ => Err (invalid $"TRANSLATE expects three arguments")
  end.

Definition Reverse (args : list Value) : StatusOr Value :=
  match args with
  | [v] =>
      if is_null v then Ok (NullPadResult v)
      else by_kind v (fun s => SBytes <$> ReverseBytes s) (fun s => SString <$> ReverseUtf8 s)
  | _ => Err (invalid $"REVERSE expects one argument")
  end.

Definition StartsWith (args : list Value) : StatusOr Value :=
  match args with
  | [v; prefix] =>
      if is_null v || is_null prefix then Ok NullBool
      else SBool <$> (if is_kind v TYPE_BYTES then StartsWithBytes (bytes_value v) (bytes_value prefix)
                      else StartsWithUtf8 (string_value v) (string_value prefix))
  | _ => Err (invalid $"STARTS_WITH expects two arguments")
  end.

Definition EndsWith (args : list Value) : StatusOr Value :=
  match args with
  | [v; suffix] =>
      if is_null v || is_null suffix then Ok NullBool
      else SBool <$> (if is_kind v TYPE_BYTES then EndsWithBytes (bytes_value v) (bytes_value suffix)
                      else EndsWithUtf8 (string_value v) (string_value suffix))
  | _ => Err (invalid $"ENDS_WITH expects two arguments")
  end.

Definition Right (args : list Value) : StatusOr Value :=
  match args with
  | [v; n] =>
      if is_null v || is_null n then Ok (NullPadResult v)
      else if is_kind v TYPE_BYTES then SBytes <$> RightBytes (bytes_value v) (int64_value n)
      else SString <$> RightUtf8 (string_value v) (int64_value n)
  | _ => Err (invalid $"RIGHT expects two arguments")
  end.

Definition Left (args : list Value) : StatusOr Value :=
  match args with
  | [v; n] =>
      if is_null v || is_null n then Ok (NullPadResult v)
      else if is_kind v TYPE_BYTES then SBytes <$> LeftBytes (bytes_value v) (int64_value n)
      else SString <$> LeftUtf8 (string_value v) (int64_value n)
  | _ => Err (invalid $"LEFT expects two arguments")
  end.

Definition Substr (args : list Value) : StatusOr Value :=
  match args with
  | v :: pos :: ([] | [_]) =>
      if AnyNull args then Ok (NullPadResult v)
      else
        let pos := int64_value pos in
        match drop 2 args with
        | [] => by_kind v (fun s => SBytes <$> SubstrBytes s pos) (fun s => SString <$> SubstrUtf8 s pos)
        | len :: _ =>
            by_kind v (fun s => SBytes <$> SubstrWithLengthBytes s pos (int64_value len))
                      (fun s => SString <$> SubstrWithLengthUtf8 s pos (int64_value len))
        end
  | _ => Err (invalid $"SUBSTR expects two or three arguments")
  end.

Definition Strpos (args : list Value) : StatusOr Value :=
  match args with
  | [v; sub] =>
      if is_null v || is_null sub then Ok NullInt64
      else SInt64 <$> (if is_kind v TYPE_BYTES then StrposBytes (bytes_value v) (bytes_value sub)
                       else StrposUtf8 (string_value v) (string_value sub))
  | _ => Err (invalid $"STRPOS expects two arguments")
  end.

(** [Value::Null(return_type)], or a null INT64 without a return type. *)
Definition null_result (return_type : option SqlType) : Value :=
  match return_type with Some t => SNull t | None => NullInt64 end.

(** [Value::Array(return_type->AsArray(), elements)]; a return type that is no
    array is a null pointer, which GoogleSQL does not survive. *)
Definition array_of (return_type : option SqlType) (l : list Value) : Value :=
  match return_type with Some (TArray e) => SArray e l | _ => SInvalid end.

Definition Split (args : list Value) (return_type : option SqlType) : StatusOr Value :=
  let split v delim :=
    if is_kind v TYPE_BYTES
    then parts ← SplitBytes (bytes_value v) delim; Ok (array_of return_type (map SBytes parts))
    else parts ← SplitUtf8 (string_value v) delim; Ok (array_of return_type (map SString parts)) in
  match args with
  | [v] => if is_null v then Ok (null_result return_type) else split v $","
  | [v; d] =>
      if is_null v || is_null d then Ok (null_result return_type) else split v (AsStringOrBytes d)
  | _ => Err (invalid $"SPLIT expects one or two arguments")
  end.

(** ** Base 32, hexadecimal, base 64, hashes

    The accumulator of both base-32 loops is an [int]: the shifts wrap at 32
    bits. *)
Definition wrap_int32 (z : Z) : Z := (z + 2 ^ 31) mod 2 ^ 32 - 2 ^ 31.

Definition kAlphabet : str := $"ABCDEFGHIJKLMNOPQRSTUVWXYZ234567".

(** [kAlphabet[i]] for the index of a byte of the array, whose last is NUL. *)
Definition alphabet_char (i : Z) : ascii := nth (Z.to_nat i) kAlphabet "000"%char.

(** [while (bits >= 5)] of one byte: at most two characters, since fewer than 5
    bits are pending before the byte. *)
Fixpoint emit_base32 (fuel : nat) (buffer bits : Z) : str * Z :=
  match fuel with
  | O => ([], bits)
  | S fuel =>
      if (5 <=? bits)%Z
      then let bits := (bits - 5)%Z in
           let '(out, bits') := emit_base32 fuel buffer bits in
           (alphabet_char (Z.land (Z.shiftr buffer bits) 31) :: out, bits')
      else ([], bits)
  end.

Fixpoint encode_loop (input : str) (buffer bits : Z) : str :=
  match input with
  | [] =>
      if (0 <? bits)%Z
      then [alphabet_char (Z.land (wrap_int32 (Z.shiftl buffer (5 - bits))) 31)] else []
  | c :: input =>
      let buffer := Z.lor (wrap_int32 (Z.shiftl buffer 8)) (byteval c) in
      let '(out, bits) := emit_base32 (Z.to_nat (bits + 8)) buffer (bits + 8) in
      out ++ encode_loop input buffer bits
  end.

(** [while (out.size() % 8 != 0) out.push_back('=')] *)
Definition pad_base32 (out : str) : str := out ++ replicate ((8 - length out mod 8) mod 8) "="%char.

Definition EncodeBase32 (input : str) : str := pad_base32 (encode_loop input 0 0).

(** [std::toupper] in the C locale. *)
Definition c_toupper (c : ascii) : ascii :=
  if (97 <=? byteval c)%Z && (byteval c <=? 122)%Z then byteof (byteval c - 32) else c.

(** [std::strchr(kAlphabet, c)]: the index of the first [c]; the NUL that ends the
    array is found too. *)
Fixpoint strchr_index (s : str) (c : ascii) : option Z :=
  match s with
  | [] => if bool_decide (c = "000"%char) then Some 0%Z else None
  | d :: s => if bool_decide (c = d) then Some 0%Z else Z.succ <$> strchr_index s c
  end.

Fixpoint DecodeBase32_loop (input : str) (buffer bits : Z) : StatusOr str :=
  match input with
  | [] => Ok []
  | c :: input =>
      if bool_decide (c = "="%char) then Ok []
      else match strchr_index kAlphabet (c_toupper c) with
           | None => Err (invalid $"invalid base32 input")
           | Some p =>
               let buffer := Z.lor (wrap_int32 (Z.shiftl buffer 5)) p in
               let bits := (bits + 5)%Z in
               if (8 <=? bits)%Z
               then out ← DecodeBase32_loop input buffer (bits - 8);
                    Ok (byteof (Z.land (Z.shiftr buffer (bits - 8)) 255) :: out)
               else DecodeBase32_loop input buffer bits
           end
  end.

Definition DecodeBase32 (input : str) : StatusOr str := DecodeBase32_loop input 0 0.

Definition ToHex (args : list Value) : StatusOr Value :=
  match args with
  | [v] => if is_null v then Ok NullString else SString <$> lib_ToHex (AsStringOrBytes v)
  | _ => Err (invalid $"TO_HEX expects one argument")
  end.

Definition FromHex (args : list Value) : StatusOr Value :=
  match args with
  | [v] => if is_null v then Ok NullBytes else SBytes <$> lib_FromHex (string_value v)
  | _ => Err (invalid $"FROM_HEX expects one argument")
  end.

Definition ToBase64 (args : list Value) : StatusOr Value :=
  match args with
  | [v] => if is_null v then Ok NullString else SString <$> lib_ToBase64 (bytes_value v)
  | _ => Err (invalid $"TO_BASE64 expects one argument")
  end.

Definition FromBase64 (args : list Value) : StatusOr Value :=
  match args with
  | [v] => if is_null v then Ok NullBytes else SBytes <$> lib_FromBase64 (string_value v)
  | _ => Err (invalid $"FROM_BASE64 expects one argument")
  end.

Definition ToBase32 (args : list Value) : StatusOr Value :=
  match args with
  | [v] => if is_null v then Ok NullString else Ok (SString (EncodeBase32 (bytes_value v)))
  | _ => Err (invalid $"TO_BASE32 expects one argument")
  end.

Definition FromBase32 (args : list Value) : StatusOr Value :=
  match args with
  | [v] => if is_null v then Ok NullBytes else SBytes <$> DecodeBase32 (string_value v)
  | _ => Err (invalid $"FROM_BASE32 expects one argument")
  end.

Definition HashBytes (algo : Z) (args : list Value) : StatusOr Value :=
  match args with
  | [v] =>
      if is_null v then Ok NullBytes
      else match Hasher algo with
           | None => Err (InternalError $"semantic: hash algorithm unavailable")
           | Some hash => Ok (SBytes (hash (AsStringOrBytes v)))
           end
  | _ => Err (invalid $"hash expects one argument")
  end.

Definition Md5 (args : list Value) : StatusOr Value := HashBytes kMd5 args.
Definition Sha1 (args : list Value) : StatusOr Value := HashBytes kSha1 args.
Definition Sha256 (args : list Value) : StatusOr Value := HashBytes kSha256 args.
Definition Sha512 (args : list Value) : StatusOr Value := HashBytes kSha512 args.

Definition FarmFingerprintFunc (args : list Value) : StatusOr Value :=
  match args with
  | [v] =>
      if is_null v then Ok NullInt64
      else match v with
           | SString s | SBytes s => Ok (SInt64 (FarmFingerprint s))
           | _ => Err (invalid $"FARM_FINGERPRINT argument must be STRING or BYTES")
           end
  | _ => Err (invalid $"FARM_FINGERPRINT expects one argument")
  end.

(** ** LPAD and RPAD *)

Definition LengthOfValue (v : Value) : StatusOr Z := by_kind v LengthBytes LengthUtf8.
Definition LeftOfValue (v : Value) (n : Z) : StatusOr str :=
  by_kind v (fun s => LeftBytes s n) (fun s => LeftUtf8 s n).

Definition PadPatternForArgs (args : list Value) : StatusOr str :=
  match args with
  | [_; _; p] =>
      match AsStringOrBytes p with
      | [] => Err (invalid $"LPAD/RPAD pattern must not be empty")
      | pad => Ok pad
      end
  | _ => Ok $" "
  end.

(** The loop runs while the padding is too short; its bound is one turn per unit
    of the length needed and the last test.  A library whose lengths do not grow
    would keep the C++ loop running; the status there is never returned with the
    real one ([padding_exact]). *)
Definition padding_diverges : Status := InternalError $"padding loop does not end".

Fixpoint padding_loop (fuel : nat) (template_value : Value) (pad : str) (pad_needed : Z) (padding : str)
    : StatusOr str :=
  match fuel with
  | O => Err padding_diverges
  | S fuel =>
      plen ← LengthOfValue (StringOrBytesFromView template_value padding);
      if (pad_needed <=? plen)%Z then Ok padding
      else padding_loop fuel template_value pad pad_needed (padding ++ pad)
  end.

Definition BuildPadding (template_value : Value) (pad : str) (pad_needed : Z) : StatusOr str :=
  padding ← padding_loop (S (Z.to_nat pad_needed)) template_value pad pad_needed [];
  LeftOfValue (StringOrBytesFromView template_value padding) pad_needed.

Definition PadValue (args : list Value) (pad_left : bool) : StatusOr Value :=
  match args with
  | v :: n :: ([] | [_]) =>
      if AnyNull args then Ok (NullPadResult v)
      else
        let target := int64_value n in
        current_len ← LengthOfValue v;
        pad ← PadPatternForArgs args;
        if (target <=? current_len)%Z
        then truncated ← LeftOfValue v target; Ok (StringOrBytesFromView v truncated)
        else trunc_pad ← BuildPadding v pad (target - current_len);
             Ok (StringOrBytesFromView v
                   (if pad_left then trunc_pad ++ AsStringOrBytes v else AsStringOrBytes v ++ trunc_pad))
  | _ => Err (invalid (if pad_left then $"LPAD expects two or three arguments"
                       else $"RPAD expects two or three arguments"))
  end.

Definition Lpad (args : list Value) : StatusOr Value := PadValue args true.
Definition Rpad (args : list Value) : StatusOr Value := PadValue args false.

(** ** Regular expressions and FORMAT *)

Definition RegexpContains (args : list Value) : StatusOr Value :=
  match args with
  | [v; pattern] =>
      if is_null v || is_null pattern then Ok NullBool
      else re ← MakeRegExpForValue pattern; SBool <$> re_Contains re (AsStringOrBytes v)
  | _ => Err (invalid $"REGEXP_CONTAINS expects two arguments")
  end.

Definition RegexpExtract (args : list Value) : StatusOr Value :=
  match args with
  | v :: pattern :: rest =>
      if (2 <? length rest) then Err (invalid $"REGEXP_EXTRACT expects 2 to 4 arguments")
      else if is_null v || is_null pattern then Ok NullString
      else
        re ← MakeRegExpForValue pattern;
        if AnyNull rest then Ok NullString
        else
          let position := default 1%Z (int64_value <$> rest !! 0) in
          let occurrence := default 1%Z (int64_value <$> rest !! 1) in
          out ← re_Extract re (AsStringOrBytes v) (is_kind v TYPE_BYTES) position occurrence;
          match out with
          | None => Ok NullString
          | Some out => Ok (StringOrBytesFromView v out)
          end
  | _ => Err (invalid $"REGEXP_EXTRACT expects 2 to 4 arguments")
  end.

Definition RegexpExtractAll (args : list Value) (return_type : option SqlType) : StatusOr Value :=
  match args with
  | v :: pattern :: rest =>
      if (2 <? length rest) then Err (invalid $"REGEXP_EXTRACT_ALL expects 2 to 4 arguments")
      else if is_null v || is_null pattern
      then match return_type with
           | Some (TArray e) => Ok (SArray e [])
           | _ => Ok NullString
           end
      else match return_type with
      | Some (TArray e) =>
          re ← MakeRegExpForValue pattern;
          let offset := match rest with
                        | p :: _ => if is_null p then 0%Z else wrap_int64 (int64_value p - 1)
                        | [] => 0%Z
                        end in
          match re_ExtractAll re (AsStringOrBytes v) offset with
          | (_, Some e) => Err e
          | (matches, None) => Ok (SArray e (map (StringOrBytesFromView v) matches))
          end
      | _ => Err (invalid $"REGEXP_EXTRACT_ALL missing array return type")
      end
  | _ => Err (invalid $"REGEXP_EXTRACT_ALL expects 2 to 4 arguments")
  end.

Definition RegexpReplace (args : list Value) : StatusOr Value :=
  match args with
  | [v; pattern; replacement] =>
      if AnyNull args then Ok (NullPadResult v)
      else re ← MakeRegExpForValue pattern;
           StringOrBytesFromView v <$> re_Replace re (AsStringOrBytes v) (AsStringOrBytes replacement)
  | _ => Err (invalid $"REGEXP_REPLACE expects three arguments")
  end.

Definition RegexpInstr (args : list Value) : StatusOr Value :=
  match args with
  | v :: pattern :: rest =>
      if (3 <? length rest) then Err (invalid $"REGEXP_INSTR expects 2 to 5 arguments")
      else if AnyNull args then Ok NullInt64
      else re ← MakeRegExpForValue pattern;
           SInt64 <$> re_Instr re (AsStringOrBytes v) (is_kind v TYPE_BYTES)
             (int64_value <$> rest !! 0) (int64_value <$> rest !! 1)
             ((fun r => negb (int64_value r =? 0)%Z) <$> rest !! 2)
  | _ => Err (invalid $"REGEXP_INSTR expects 2 to 5 arguments")
  end.

Definition FormatString (args : list Value) : StatusOr Value :=
  match args with
  | [] => Err (invalid $"FORMAT expects arguments")
  | f :: values =>
      if is_null f then Ok NullString
      else if AnyNull values then Ok NullString
      else out ← StringFormatUtf8 (string_value f) values;
           match out with None => Ok NullString | Some s => Ok (SString s) end
  end.

Definition Format (args : list Value) : StatusOr Value := FormatString args.

(** ** Unicode *)

Definition InitcapFunc (args : list Value) : StatusOr Value :=
  match args with
  | v :: ([] | [_]) =>
      if AnyNull args then Ok NullString
      else if negb (is_kind v TYPE_STRING) then Err (invalid $"INITCAP value must be STRING")
      else SString <$> match drop 1 args with
                       | [] => InitialCapitalizeDefault (string_value v)
                       | d :: _ => InitialCapitalize (string_value v) (string_value d)
                       end
  | _ => Err (invalid $"INITCAP expects one or two arguments")
  end.

(** The mode argument: absent, null and of another type it is NFC. *)
Definition normalize_mode (what : str) (mode : option Value) : StatusOr Z :=
  match mode with
  | Some (SEnum _ n) => Ok n
  | Some (SString s) =>
      match NormalizeMode_Parse s with
      | Some m => Ok m
      | None => Err (invalid ($"invalid " ++ what ++ $" mode"))
      end
  | _ => Ok NormalizeMode_NFC
  end.

Definition normalize_with (what : str) (is_casefold : bool) (args : list Value) : StatusOr Value :=
  match args with
  | v :: ([] | [_]) =>
      if is_null v then Ok NullString
      else mode ← normalize_mode what (args !! 1);
           SString <$> lib_Normalize (string_value v) mode is_casefold
  | _ => Err (invalid (what ++ $" expects one or two arguments"))
  end.

Definition NormalizeFunc (args : list Value) : StatusOr Value := normalize_with $"NORMALIZE" false args.
Definition NormalizeAndCasefoldFunc (args : list Value) : StatusOr Value :=
  normalize_with $"NORMALIZE_AND_CASEFOLD" true args.

Definition SafeConvertBytesToString (args : list Value) : StatusOr Value :=
  match args with
  | [v] => if is_null v then Ok NullString else SString <$> SafeConvertBytes (bytes_value v)
  | _ => Err (invalid $"SAFE_CONVERT_BYTES_TO_STRING expects one argument")
  end.

Definition CodePointsToString (args : list Value) : StatusOr Value :=
  match args with
  | [v] =>
      if is_null v then Ok NullString
      else if negb (is_kind v TYPE_ARRAY) then Err (invalid $"CODE_POINTS_TO_STRING expects ARRAY<INT64>")
      else if AnyNull (elements v) then Ok NullString
      else SString <$> lib_CodePointsToString
             (List.filter (fun cp => negb (cp =? 0)%Z) (map int64_value (elements v)))
  | _ => Err (invalid $"CODE_POINTS_TO_STRING expects one argument")
  end.

Definition CodePointsToBytes (args : list Value) : StatusOr Value :=
  match args with
  | [v] =>
      if is_null v then Ok NullBytes
      else if AnyNull (elements v) then Ok NullBytes
      else SBytes <$> lib_CodePointsToBytes (map int64_value (elements v))
  | _ => Err (invalid $"CODE_POINTS_TO_BYTES expects one argument")
  end.

Definition ToCodePoints (args : list Value) (return_type : option SqlType) : StatusOr Value :=
  match args with
  | [v] =>
      match return_type with
      | Some (TArray e) =>
          if is_null v then Ok (SArray e [])
          else if is_kind v TYPE_STRING && bool_decide (string_value v = []) then Ok (SArray e [])
          else cps ← by_kind v BytesToCodePoints StringToCodePoints;
               Ok (SArray e (map SInt64 cps))
      | _ => Err (invalid $"TO_CODE_POINTS missing array return type")
      end
  | _ => Err (invalid $"TO_CODE_POINTS expects one argument")
  end.

(** ** LEAST and GREATEST *)

Definition LeastGreatest (name : str) (args : list Value) (return_type : option SqlType) : StatusOr Value :=
  match args with
  | [] => Err (invalid (name ++ $" expects arguments"))
  | first :: rest =>
      if AnyNull args then Ok (match return_type with Some t => SNull t | None => NullString end)
      else Ok (fold_left (fun best v =>
                 if bool_decide (name = $"least") then if LessThan v best then v else best
                 else if LessThan best v then v else best) rest first)
  end.

Definition Least (args : list Value) (return_type : option SqlType) : StatusOr Value :=
  LeastGreatest $"least" args return_type.
Definition Greatest (args : list Value) (return_type : option SqlType) : StatusOr Value :=
  LeastGreatest $"greatest" args return_type.

(** ** PARSE_NUMERIC and PARSE_BIGNUMERIC *)

Definition ParseNumericFunc (args : list Value) : StatusOr Value :=
  match args with
  | [v] => if is_null v then Ok (SNull TNumeric) else SNumeric <$> lib_ParseNumeric (string_value v)
  | _ => Err (invalid $"PARSE_NUMERIC expects one argument")
  end.

Abbreviation RenderOverride := (option (option str)).

(** [s.insert(pos, t)] *)
Definition str_insert (pos : nat) (t s : str) : str := take pos s ++ t ++ drop pos s.

Definition zeros (n : Z) : str := replicate (Z.to_nat n) "0"%char.

(** Mantissa and exponent around the first [e]. *)
Definition split_exponent (input : str) : option (str * Z) :=
  match find_sub $"e" input with
  | None => None
  | Some (mantissa, exp) => (fun e => (mantissa, e)) <$> SimpleAtoi exp
  end.

Definition ExpandScientificNotation (input : str) : option str :=
  '(mantissa, exponent) ← split_exponent input;
  match find_sub $"." mantissa with
  | None => Some (if (0 <=? exponent)%Z then mantissa ++ zeros exponent else mantissa)
  | Some (before, after) =>
      let digits := before ++ after in
      let exponent := wrap_int64 (exponent - Z.of_nat (length after)) in
      if (0 <=? exponent)%Z then Some (digits ++ zeros exponent)
      else
        let shift := wrap_int64 (- exponent) in
        if (Z.of_nat (length digits) <=? shift)%Z
        then Some (str_insert 1 $"." (zeros (shift - Z.of_nat (length digits) + 1) ++ digits))
        else Some (str_insert (length digits - Z.to_nat shift) $"." digits)
  end.

Definition MaybeSetBignumericRenderOverride (parsed : BigNumericValue) (expanded : str) (ctx : RenderOverride)
    : RenderOverride :=
  match ctx with
  | None => None
  | Some old =>
      let rendered := bignumeric_ToString parsed in
      if (length rendered <? length expanded) && bool_decide (take (length rendered) expanded = rendered)
      then Some (Some expanded) else Some old
  end.

(** A text parsed with rounding, else by PARSE_BIGNUMERIC; the error is the
    latter's. *)
Definition parse_rounded (candidate : str) : StatusOr BigNumericValue :=
  match BigNumeric_FromStringWithRounding candidate 76 false with
  | Ok n => Ok n
  | Err _ => lib_ParseBigNumeric candidate
  end.

Definition TryParseBignumericCandidates (expanded : str) (ctx : RenderOverride) : RenderOverride * StatusOr Value :=
  match parse_rounded expanded with
  | Ok n => (MaybeSetBignumericRenderOverride n expanded ctx, Ok (SBigNumeric n))
  | Err _ =>
      match parse_rounded (expanded ++ $".0") with
      | Ok n => (MaybeSetBignumericRenderOverride n expanded ctx, Ok (SBigNumeric n))
      | Err e => (ctx, Err e)
      end
  end.

(** [while (norm_mantissa.size() > 1 && norm_mantissa[0] == '0')]: the rest and the
    number of zeros erased. *)
Fixpoint erase_zeros (s : str) : str * Z :=
  match s with
  | c :: ((_ :: _) as rest) =>
      if bool_decide (c = "0"%char) then let '(r, n) := erase_zeros rest in (r, Z.succ n) else (s, 0%Z)
  | _ => (s, 0%Z)
  end.

Definition TryParseBignumericNormalizedScientific (input expanded : str) (ctx : RenderOverride)
    : RenderOverride * StatusOr Value :=
  match split_exponent input with
  | None => (ctx, Err (invalid $"invalid bignumeric exponent"))
  | Some (mantissa, exponent) =>
      let '(joined, digits_before_dot, has_dot) :=
        match find_sub $"." mantissa with
        | None => (mantissa, Z.of_nat (length mantissa), 0%Z)
        | Some (before, after) => (before ++ after, Z.of_nat (length before), 1%Z)
        end in
      let norm_exp := wrap_int64 (exponent + digits_before_dot - has_dot) in
      let '(norm_mantissa, erased) := erase_zeros joined in
      let normalized := norm_mantissa ++ $"e" ++ StrInt (wrap_int64 (norm_exp - erased)) in
      match parse_rounded normalized with
      | Ok n => (MaybeSetBignumericRenderOverride n expanded ctx, Ok (SBigNumeric n))
      | Err e => (ctx, Err e)
      end
  end.

(** [n] times one step, stopping at the first error. *)
Fixpoint scale_loop (n : nat) (step : BigNumericValue -> StatusOr BigNumericValue) (scaled : BigNumericValue)
    : StatusOr BigNumericValue :=
  match n with
  | O => Ok scaled
  | S n => next ← step scaled; scale_loop n step next
  end.

Definition TryParseBignumericScaledMantissa (mantissa_str : str) (exponent : Z) (expanded : option str)
    (ctx : RenderOverride) : RenderOverride * StatusOr Value :=
  match
    mantissa ← BigNumeric_FromStringWithRounding mantissa_str 76 false;
    let ten := BigNumeric_of_int64 10 in
    if (0 <? exponent)%Z then scale_loop (Z.to_nat exponent) (fun s => num_mul bignumeric s ten) mantissa
    else scale_loop (Z.to_nat (- exponent)) (fun s => num_div bignumeric s ten) mantissa
  with
  | Err e => (ctx, Err e)
  | Ok scaled =>
      (match expanded with Some e => MaybeSetBignumericRenderOverride scaled e ctx | None => ctx end,
       Ok (SBigNumeric scaled))
  end.

(** The part of the mantissa after its dot counts against the exponent, although
    the mantissa is parsed with its dot. *)
Definition scaled_scientific (input : str) (expanded : option str) (ctx : RenderOverride)
    : RenderOverride * StatusOr Value :=
  match split_exponent input with
  | None => (ctx, Err (invalid $"invalid bignumeric exponent"))
  | Some (mantissa, exponent) =>
      let exponent := match find_sub $"." mantissa with
                      | None => exponent
                      | Some (_, after) => wrap_int64 (exponent - Z.of_nat (length after))
                      end in
      TryParseBignumericScaledMantissa mantissa exponent expanded ctx
  end.

Definition TryParseBignumericScientific (input : str) (ctx : RenderOverride) : RenderOverride * StatusOr Value :=
  match ExpandScientificNotation input with
  | None => scaled_scientific input None ctx
  | Some expanded =>
      match TryParseBignumericCandidates expanded ctx with
      | (ctx, Ok v) => (ctx, Ok v)
      | (ctx, Err _) =>
          match TryParseBignumericNormalizedScientific input expanded ctx with
          | (ctx, Ok v) => (ctx, Ok v)
          | (ctx, Err _) => scaled_scientific input (Some expanded) ctx
          end
      end
  end.

Definition lower_exponent (c : ascii) : ascii := if bool_decide (c = "E"%char) then "e"%char else c.

Definition ParseBignumeric (args : list Value) (ctx : RenderOverride) : RenderOverride * StatusOr Value :=
  match args with
  | [v] =>
      if is_null v then (ctx, Ok (SNull TBigNumeric))
      else
        let input := map lower_exponent (string_value v) in
        match lib_ParseBigNumeric input with
        | Ok out => (ctx, Ok (SBigNumeric out))
        | Err error =>
            let last ctx :=
              (ctx, match BigNumeric_FromStringWithRounding input 76 false with
                    | Ok n => Ok (SBigNumeric n)
                    | Err _ => Err error
                    end) in
            if str_contains input $"e"
            then match TryParseBignumericScientific input ctx with
                 | (ctx, Ok v) => (ctx, Ok v)
                 | (ctx, Err _) => last ctx
                 end
            else last ctx
        end
  | _ => (ctx, Err (invalid $"PARSE_BIGNUMERIC expects one argument"))
  end.

(** ** SOUNDEX *)

Definition SoundexCode (ch : ascii) : ascii :=
  let one_of s := bool_decide (ch ∈ s) in
  if one_of $"BFPV" then "1"%char
  else if one_of $"CGJKQSXZ" then "2"%char
  else if one_of $"DT" then "3"%char
  else if one_of $"L" then "4"%char
  else if one_of $"MN" then "5"%char
  else if one_of $"R" then "6"%char
  else if one_of $"AEIOUYHW" then "0"%char
  else "?"%char.

(** The codes after the first letter, at most [room] of them. *)
Fixpoint soundex_loop (room : nat) (s : str) (prev_code : ascii) : str :=
  match room, s with
  | O, _ | _, [] => []
  | S room', c :: s =>
      if negb (ascii_isalpha c) then soundex_loop room s prev_code
      else
        let upper := ascii_toupper c in
        let code := SoundexCode upper in
        if bool_decide (code = "?"%char) then soundex_loop room s prev_code
        else if bool_decide (code = "0"%char)
        then soundex_loop room s
               (if bool_decide (upper <> "H"%char) && bool_decide (upper <> "W"%char) then "0"%char else prev_code)
        else if bool_decide (code <> prev_code) then code :: soundex_loop room' s code
        else soundex_loop room s code
  end.

Fixpoint skip_non_letters (s : str) : str :=
  match s with
  | c :: rest => if ascii_isalpha c then s else skip_non_letters rest
  | [] => []
  end.

(** [while (out.size() < 4) out.push_back('0')] *)
Definition soundex_pad (out : str) : str := out ++ replicate (4 - length out) "0"%char.

Definition Soundex (args : list Value) : StatusOr Value :=
  match args with
  | [v] =>
      if is_null v then Ok NullString
      else match v with
           | SString s =>
               match skip_non_letters s with
               | [] => Ok (SString [])
               | c :: rest => Ok (SString (soundex_pad (c :: soundex_loop 3 rest (SoundexCode c))))
               end
           | _ => Err (MakeSemanticError rInvalidArgument
                         ($"semantic: SOUNDEX requires STRING, got " ++ DebugString (type_of v)))
           end
  | _ => Err (invalid $"SOUNDEX expects exactly one argument")
  end.

(** ** INSTR *)

Record InstrSearchParams := mkInstr {
  instr_value : str;
  instr_sub : str;
  instr_position : Z;
  instr_occurrence : Z;
}.

Definition instr_int64 (what : str) (v : option Value) : StatusOr Z :=
  match v with
  | None => Ok 1%Z
  | Some v => if is_kind v TYPE_INT64 then Ok (int64_value v)
              else Err (MakeSemanticError rInvalidArgument
                          ($"semantic: INSTR " ++ what ++ $" argument must be INT64"))
  end.

Definition ParseInstrSearchParams (args : list Value) : StatusOr InstrSearchParams :=
  position ← instr_int64 $"position" (args !! 2);
  if (position =? 0)%Z
  then Err (MakeSemanticError rInvalidArgument $"semantic: INSTR position must be non-zero")
  else
    occurrence ← instr_int64 $"occurrence" (args !! 3);
    if (occurrence <=? 0)%Z
    then Err (MakeSemanticError rInvalidArgument $"semantic: INSTR occurrence must be positive")
    else Ok (mkInstr (default [] (string_value <$> args !! 0)) (default [] (string_value <$> args !! 1))
               position occurrence).

Definition InstrEmptySubvalueResult (params : InstrSearchParams) : Value :=
  let len := Z.of_nat (length (instr_value params)) in
  let position := instr_position params in
  let start := if (0 <? position)%Z then position else (len + position + 1)%Z in
  let start := if (start <? 1)%Z then 1%Z else start in
  SInt64 (if (len + 1 <? start)%Z then (len + 1)%Z else start).

(** [value.substr(i, sub_len) == sub] *)
Definition matches_at (value sub : str) (i : nat) : bool :=
  bool_decide (take (length sub) (drop i value) = sub).

(** [for (i = start_idx; i + sub_len <= len; ++i)] for the turns that are left. *)
Fixpoint forward_loop (turns : nat) (value sub : str) (i : nat) (seen occurrence : Z) : Z :=
  match turns with
  | O => 0
  | S turns =>
      if matches_at value sub i
      then if (seen + 1 =? occurrence)%Z then (Z.of_nat i + 1)%Z
           else forward_loop turns value sub (S i) (seen + 1) occurrence
      else forward_loop turns value sub (S i) seen occurrence
  end.

Definition InstrSearchForward (params : InstrSearchParams) : Value :=
  let len := length (instr_value params) in
  let sub_len := length (instr_sub params) in
  let start_idx := (instr_position params - 1)%Z in
  if (Z.of_nat len <=? start_idx)%Z then SInt64 0
  else let i := Z.to_nat start_idx in
       SInt64 (forward_loop (S len - sub_len - i) (instr_value params) (instr_sub params) i 0
                 (instr_occurrence params)).

(** [for (i = end_idx; i >= 0; --i)]; [n] is [i + 1]. *)
Fixpoint backward_loop (n : nat) (value sub : str) (seen occurrence : Z) : Z :=
  match n with
  | O => 0
  | S i =>
      if (length value <? i + length sub) then backward_loop i value sub seen occurrence
      else if matches_at value sub i
      then if (seen + 1 =? occurrence)%Z then (Z.of_nat i + 1)%Z
           else backward_loop i value sub (seen + 1) occurrence
      else backward_loop i value sub seen occurrence
  end.

Definition InstrSearchBackward (params : InstrSearchParams) : Value :=
  let end_idx := (Z.of_nat (length (instr_value params)) + instr_position params)%Z in
  if (end_idx <? 0)%Z then SInt64 0
  else SInt64 (backward_loop (S (Z.to_nat end_idx)) (instr_value params) (instr_sub params) 0
                 (instr_occurrence params)).

Definition Instr (args : list Value) : StatusOr Value :=
  match args with
  | v :: sub :: rest =>
      if (2 <? length rest) then Err (invalid $"INSTR expects 2 to 4 arguments")
      else if AnyNull args then Ok NullInt64
      else if negb (is_kind v TYPE_STRING && is_kind sub TYPE_STRING)
      then Err (MakeSemanticError rInvalidArgument
                  $"semantic: INSTR requires STRING value and STRING subvalue")
      else params ← ParseInstrSearchParams args;
           Ok (match instr_sub params with
               | [] => InstrEmptySubvalueResult params
               | _ => if (0 <? instr_position params)%Z then InstrSearchForward params
                      else InstrSearchBackward params
               end)
  | _ => Err (invalid $"INSTR expects 2 to 4 arguments")
  end.

(** ** TO_JSON *)

Definition dquote : ascii := "034"%char.
Definition quoted_text (s : str) : str := [dquote] ++ s ++ [dquote].

Definition ResolveStructFieldNameForJson (fs : list (str * SqlType)) (idx : nat) : str :=
  match fst <$> fs !! idx with
  | Some [] | None => $"_" ++ StrInt (Z.of_nat idx)
  | Some name => name
  end.

Definition single_quotes (c : ascii) : ascii := if bool_decide (c = dquote) then "'"%char else c.

Fixpoint ValueToJsonText (v : Value) : str :=
  match v with
  | SNull _ => $"null"
  | SBool b => if b then $"true" else $"false"
  | SInt64 z => StrInt z
  | SDouble d => StrDouble d
  | SString s => quoted_text (Utf8SafeCEscape s)
  | SBytes s => quoted_text (Base64Escape s)
  | SJson text => text
  | SArray _ l => $"[" ++ join ","%char (map ValueToJsonText l) ++ $"]"
  | SStruct fs l =>
      $"{" ++ join ","%char
        ((fix members (i : nat) (l : list Value) : list str :=
            match l with
            | [] => []
            | x :: l => (quoted_text (ResolveStructFieldNameForJson fs i) ++ $":" ++ ValueToJsonText x)
                          :: members (S i) l
            end) 0 l) ++ $"}"
  | SRange _ _ _ => quoted_text (Utf8SafeCEscape (map single_quotes (lib_GetSQLLiteral v)))
  | _ => quoted_text (Utf8SafeCEscape (Value_DebugString v))
  end.

Definition ToJson (args : list Value) : StatusOr Value :=
  match args with
  | v :: ([] | [_]) =>
      if negb (is_valid v) || is_null v then Ok (SNull TJson) else Ok (SJson (ValueToJsonText v))
  | _ => Err (invalid $"TO_JSON expects one or two arguments")
  end.

(** ** CONTAINS_SUBSTR *)

Inductive SubstrTriState := kFalse | kTrue | kNullFromNullPath.

#[export] Instance SubstrTriState_eq_dec : EqDecision SubstrTriState.
Proof. solve_decision. Defined.

Definition NormalizeForContainsSubstr (input : str) : StatusOr str := lib_Normalize input NormalizeMode_NFKC true.

Definition ScalarToPlainText (v : Value) : str :=
  match v with
  | SBool b => if b then $"true" else $"false"
  | SInt64 z => StrInt z
  | SDouble d => StrDouble d
  | SString s => s
  | SBytes s => s
  | SJson text => text
  | _ => Value_DebugString v
  end.

(** The loop over the children of an array or struct. *)
Fixpoint SearchComposite (search : Value -> SubstrTriState) (children : list Value) (saw_null : bool)
    : SubstrTriState :=
  match children with
  | [] => if saw_null then kNullFromNullPath else kFalse
  | child :: children =>
      match search child with
      | kTrue => kTrue
      | kNullFromNullPath => SearchComposite search children true
      | kFalse => SearchComposite search children saw_null
      end
  end.

Fixpoint ContainsSubstrRecursive (normalized_needle : str) (v : Value) : SubstrTriState :=
  match v with
  | SNull _ => kNullFromNullPath
  | SArray _ l | SStruct _ l => SearchComposite (ContainsSubstrRecursive normalized_needle) l false
  | _ =>
      match NormalizeForContainsSubstr (ScalarToPlainText v) with
      | Err _ => kFalse
      | Ok haystack => if str_contains haystack normalized_needle then kTrue else kFalse
      end
  end.

Definition ContainsSubstr (args : list Value) : StatusOr Value :=
  match args with
  | v :: needle :: ([] | [_]) =>
      if is_null needle then Err (invalid $"CONTAINS_SUBSTR search value cannot be NULL")
      else if is_null v then Ok NullBool
      else normalized_needle ← NormalizeForContainsSubstr (string_value needle);
           Ok (match ContainsSubstrRecursive normalized_needle v with
               | kTrue => SBool true
               | kNullFromNullPath => NullBool
               | kFalse => SBool false
               end)
  | _ => Err (invalid $"CONTAINS_SUBSTR expects two or three arguments")
  end.
End strings.
