(* ===== verification/StringProps.v ===== *)
(** * StringProps: what the string functions compute

    The theorems on [StringFuncs]: base 32 round-trips, LPAD and RPAD give exactly
    the length asked for, INSTR finds the n-th match, CONTAINS_SUBSTR is decided by
    the scalars of a value, scientific notation is expanded to the same number,
    SOUNDEX has its shape. *)

From S2P Require Import Prelude Order Absl AbslReference Storage SemanticError SqlValue.
From S2P Require Import GoogleSqlReference Arithmetic Operators MathFuncs Casts EvalReference StringFuncs.

(** ** Bits, the highest first *)

Definition low_bits (n : nat) (z : Z) : list bool := map (fun i => Z.testbit z (Z.of_nat i)) (rev (seq 0 n)).

Lemma low_bits_length n z : length (low_bits n z) = n.
Proof. unfold low_bits. by rewrite length_map, length_rev, length_seq. Qed.

Lemma low_bits_ext n a b :
  (forall i, (0 <= i < Z.of_nat n)%Z -> Z.testbit a i = Z.testbit b i) -> low_bits n a = low_bits n b.
Proof.
  intros E. unfold low_bits. apply map_ext_in. intros i [_ Hi]%in_rev%in_seq. apply E. lia.
Qed.

Lemma low_bits_S n z : low_bits (S n) z = Z.testbit z (Z.of_nat n) :: low_bits n z.
Proof. unfold low_bits. by rewrite seq_S, rev_app_distr. Qed.

Lemma low_bits_app n m z : low_bits (n + m) z = low_bits n (Z.shiftr z (Z.of_nat m)) ++ low_bits m z.
Proof.
  induction n as [|n IH]; [done|]. cbn [Nat.add]. rewrite !low_bits_S, IH. cbn. f_equal.
  rewrite Z.shiftr_spec by lia. f_equal. lia.
Qed.

Lemma low_bits_false n z :
  (forall i, (0 <= i < Z.of_nat n)%Z -> Z.testbit z i = false) -> low_bits n z = replicate n false.
Proof.
  induction n as [|n IH]; [done|]. intros F. rewrite low_bits_S, F, IH by lia || (intros; apply F; lia). done.
Qed.

Lemma wrap_int32_bit z i : (0 <= i < 32)%Z -> Z.testbit (wrap_int32 z) i = Z.testbit z i.
Proof.
  intros Hi. rewrite <- (Z.mod_pow2_bits_low z 32 i), <- (Z.mod_pow2_bits_low (wrap_int32 z) 32 i) by lia.
  f_equal. unfold wrap_int32. rewrite Zminus_mod_idemp_l. f_equal. lia.
Qed.

(** A digit of [w] bits shifted into the buffer. *)
Lemma shift_in n (w : nat) z d :
  n + w <= 32 -> (0 <= d < 2 ^ Z.of_nat w)%Z ->
  low_bits (n + w) (Z.lor (wrap_int32 (Z.shiftl z (Z.of_nat w))) d) = low_bits n z ++ low_bits w d.
Proof.
  intros L D. rewrite low_bits_app. f_equal; apply low_bits_ext; intros i Hi.
  - rewrite Z.shiftr_spec, Z.lor_spec, wrap_int32_bit, Z.shiftl_spec by lia.
    assert (Z.testbit d (i + Z.of_nat w) = false) as ->; [|rewrite orb_false_r; f_equal; lia].
    destruct (decide (d = 0)%Z) as [->|]; [apply Z.bits_0|]. apply Z.bits_above_log2; [lia|].
    apply Z.log2_lt_pow2; [lia|]. apply Z.lt_le_trans with (2 ^ Z.of_nat w)%Z; [lia|]. apply Z.pow_le_mono_r; lia.
  - rewrite Z.lor_spec, wrap_int32_bit, Z.shiftl_spec_low by lia. done.
Qed.

Lemma low_bits_land n z : low_bits n (Z.land z (Z.ones (Z.of_nat n))) = low_bits n z.
Proof.
  apply low_bits_ext. intros i Hi. rewrite Z.land_spec, Z.ones_spec_low by lia. by rewrite andb_true_r.
Qed.

Lemma byteval_bound c : (0 <= byteval c < 256)%Z.
Proof. destruct c as [[] [] [] [] [] [] [] []]; vm_compute; by split. Qed.

Lemma low_bits_byte_inj c d : low_bits 8 (byteval c) = low_bits 8 (byteval d) -> c = d.
Proof.
  assert (forall c, low_bits 8 (byteval c) =
    match c with Ascii.Ascii b0 b1 b2 b3 b4 b5 b6 b7 => [b7; b6; b5; b4; b3; b2; b1; b0] end) as E.
  { intros [[] [] [] [] [] [] [] []]; reflexivity. }
  rewrite !E. destruct c, d. by intros [= <- <- <- <- <- <- <- <-].
Qed.

(** ** Base 32 *)

Section base32.

Abbreviation digit v := (0 <= v < 32)%Z.
Definition digits_bits (vals : list Z) : list bool := flat_map (low_bits 5) vals.
Definition bytes_bits (s : str) : list bool := flat_map (fun c => low_bits 8 (byteval c)) s.

Lemma bytes_bits_length s : length (bytes_bits s) = 8 * length s.
Proof. induction s as [|c s IH]; [done|]. cbn [bytes_bits flat_map length]. rewrite length_app, low_bits_length.
  fold (bytes_bits s). lia. Qed.

(** Bytes are determined by their bits, up to fewer than eight bits at the end. *)
Lemma bytes_bits_inj s t p q : length p < 8 -> length q < 8 ->
  bytes_bits s ++ p = bytes_bits t ++ q -> s = t.
Proof.
  intros P Q. revert t. induction s as [|c s IH]; intros [|d t] E; [done| | |].
  - apply (f_equal length) in E. rewrite !length_app, !bytes_bits_length in E. cbn in E. lia.
  - apply (f_equal length) in E. rewrite !length_app, !bytes_bits_length in E. cbn in E. lia.
  - cbn [bytes_bits flat_map] in E. rewrite <- !app_assoc in E.
    apply app_inj_1 in E as [E1 E2]; [|by rewrite !low_bits_length].
    f_equal; [by apply low_bits_byte_inj|by apply IH].
Qed.

Lemma land31_digit z : digit (Z.land z 31).
Proof. change 31%Z with (Z.ones 5). rewrite Z.land_ones by lia. apply Z.mod_pos_bound. lia. Qed.

Lemma emit_base32_spec fuel buffer bits out bits' : (0 <= bits)%Z -> Z.to_nat bits <= fuel ->
  emit_base32 fuel buffer bits = (out, bits') ->
  (0 <= bits' < 5)%Z /\ exists vals, out = map alphabet_char vals /\ Forall (fun v => digit v) vals /\
    low_bits (Z.to_nat bits) buffer = digits_bits vals ++ low_bits (Z.to_nat bits') buffer.
Proof.
  revert bits out bits'. induction fuel as [|fuel IH]; intros bits out bits' B L; cbn [emit_base32].
  - intros [= <- <-]. assert (bits = 0)%Z as -> by lia. split; [lia|]. by exists [].
  - destruct (5 <=? bits)%Z eqn:E; bool_to_prop.
    + destruct (emit_base32 fuel buffer (bits - 5)) as [o b] eqn:R. intros [= <- <-].
      apply IH in R as (Hb & vals & -> & F & Eq); [|lia..]. split; [done|].
      exists (Z.land (Z.shiftr buffer (bits - 5)) 31 :: vals). split; [done|]. split.
      { constructor; [apply land31_digit|done]. }
      replace (Z.to_nat bits) with (5 + Z.to_nat (bits - 5)) by lia.
      rewrite low_bits_app, Eq, Z2Nat.id by lia. cbn [digits_bits flat_map]. rewrite <- app_assoc. f_equal.
      change 31%Z with (Z.ones (Z.of_nat 5)). by rewrite low_bits_land.
    + intros [= <- <-]. split; [lia|]. by exists [].
Qed.

Lemma encode_loop_spec input buffer bits : (0 <= bits < 5)%Z ->
  exists vals p, encode_loop input buffer bits = map alphabet_char vals /\ Forall (fun v => digit v) vals /\
    p < 5 /\ digits_bits vals = low_bits (Z.to_nat bits) buffer ++ bytes_bits input ++ replicate p false.
Proof.
  revert buffer bits. induction input as [|c input IH]; intros buffer bits B; cbn [encode_loop].
  - destruct (0 <? bits)%Z eqn:E; bool_to_prop.
    + exists [Z.land (wrap_int32 (Z.shiftl buffer (5 - bits))) 31], (5 - Z.to_nat bits).
      split; [done|]. split; [constructor; [apply land31_digit|done]|]. split; [lia|].
      cbn [digits_bits flat_map bytes_bits]. rewrite app_nil_r. change 31%Z with (Z.ones (Z.of_nat 5)).
      rewrite low_bits_land. replace 5 with (Z.to_nat bits + (5 - Z.to_nat bits)) at 1 by lia.
      rewrite low_bits_app. cbn. f_equal; [apply low_bits_ext; intros i Hi|].
      * rewrite Z.shiftr_spec, wrap_int32_bit, Z.shiftl_spec by lia. f_equal. lia.
      * apply low_bits_false. intros i Hi. by rewrite wrap_int32_bit, Z.shiftl_spec_low by lia.
    + assert (bits = 0)%Z as -> by lia. exists [], 0. repeat split; [constructor|lia].
  - set (buffer' := Z.lor (wrap_int32 (Z.shiftl buffer 8)) (byteval c)).
    destruct (emit_base32 (Z.to_nat (bits + 8)) buffer' (bits + 8)) as [out bits'] eqn:E.
    apply emit_base32_spec in E as (B' & vals & -> & F & Eq); [|lia..].
    destruct (IH buffer' bits' B') as (vals' & p & -> & F' & P & Eq').
    exists (vals ++ vals'), p. rewrite map_app. split; [done|]. split; [by apply Forall_app|]. split; [done|].
    unfold digits_bits in *. rewrite flat_map_app, Eq', app_assoc, <- Eq.
    replace (Z.to_nat (bits + 8)) with (Z.to_nat bits + 8) by lia. unfold buffer'.
    change 8%Z with (Z.of_nat 8) at 1.
    rewrite shift_in by (pose proof (byteval_bound c); cbn; lia). cbn [bytes_bits flat_map].
    by rewrite <- !app_assoc.
Qed.

Lemma alphabet_digit v : digit v ->
  alphabet_char v <> "="%char /\ strchr_index kAlphabet (c_toupper (alphabet_char v)) = Some v.
Proof.
  intros V. assert (Forall (fun n => alphabet_char (Z.of_nat n) <> "="%char /\
    strchr_index kAlphabet (c_toupper (alphabet_char (Z.of_nat n))) = Some (Z.of_nat n)) (seq 0 32)) as F.
  { apply (bool_decide_unpack _). vm_compute. exact I. }
  rewrite Forall_forall in F. specialize (F (Z.to_nat v)). rewrite Z2Nat.id in F by lia. apply F.
  apply elem_of_seq. lia.
Qed.

Lemma byteof_bits z : low_bits 8 (byteval (byteof (Z.land z 255))) = low_bits 8 z.
Proof.
  rewrite <- (low_bits_land 8 z). change (Z.ones (Z.of_nat 8)) with 255%Z. f_equal.
  change 255%Z with (Z.ones 8). rewrite Z.land_ones by lia.
  pose proof (Z.mod_pos_bound z (2 ^ 8) ltac:(lia)) as B. generalize dependent (z mod 2 ^ 8)%Z. intros w B.
  unfold byteval, byteof. rewrite Z.mod_small by (cbn in B; lia).
  rewrite N_ascii_embedding; [lia|]. apply N2Z.inj_lt. rewrite Z2N.id by lia. cbn in B |- *. lia.
Qed.

Lemma decode_loop_spec vals rest buffer bits : Forall (fun v => digit v) vals ->
  (rest = [] \/ exists r, rest = "="%char :: r) -> (0 <= bits < 8)%Z ->
  exists out tail, DecodeBase32_loop (map alphabet_char vals ++ rest) buffer bits = Ok out /\ length tail < 8 /\
    low_bits (Z.to_nat bits) buffer ++ digits_bits vals = bytes_bits out ++ tail.
Proof.
  intros F R. revert buffer bits. induction F as [|v vals V _ IH]; intros buffer bits B.
  - exists [], (low_bits (Z.to_nat bits) buffer). split; [by destruct R as [->|[r ->]]|].
    rewrite low_bits_length. cbn. rewrite app_nil_r. split; [lia|done].
  - destruct (alphabet_digit v V) as [N S]. cbn [map app DecodeBase32_loop].
    rewrite bool_decide_false, S by done. set (buffer' := Z.lor _ _).
    assert (low_bits (Z.to_nat bits + 5) buffer' = low_bits (Z.to_nat bits) buffer ++ low_bits 5 v) as Eb.
    { unfold buffer'. change 5%Z with (Z.of_nat 5). apply shift_in; cbn; lia. }
    destruct (8 <=? bits + 5)%Z eqn:E; bool_to_prop.
    + destruct (IH buffer' (bits + 5 - 8)%Z ltac:(lia)) as (out & tail & -> & T & Eq).
      eexists (_ :: out), tail. split; [reflexivity|]. split; [done|].
      cbn [digits_bits flat_map bytes_bits]. fold (digits_bits vals) (bytes_bits out).
      rewrite app_assoc, <- Eb, byteof_bits, <- app_assoc, <- Eq.
      replace (Z.to_nat bits + 5) with (8 + Z.to_nat (bits + 5 - 8)) by lia.
      rewrite low_bits_app, Z2Nat.id by lia. by rewrite app_assoc.
    + destruct (IH buffer' (bits + 5)%Z ltac:(lia)) as (out & tail & -> & T & Eq).
      exists out, tail. split; [done|]. split; [done|]. rewrite <- Eq.
      replace (Z.to_nat (bits + 5)) with (Z.to_nat bits + 5) by lia. rewrite Eb.
      cbn [digits_bits flat_map]. by rewrite <- app_assoc.
Qed.

Lemma decode_encode s : DecodeBase32 (EncodeBase32 s) = Ok s.
Proof.
  unfold DecodeBase32, EncodeBase32, pad_base32. destruct (encode_loop_spec s 0 0) as (vals & p & -> & F & P & Eq);
    [lia|]. set (pad := replicate _ _).
  destruct (decode_loop_spec vals pad 0 0) as (out & tail & -> & T & Eq'); [done| |lia|].
  { unfold pad. destruct ((8 - _) mod 8); [by left|right; by eexists]. }
  f_equal. rewrite Eq in Eq'. change (Z.to_nat 0) with 0 in Eq'. cbn [low_bits seq rev map app] in Eq'.
  symmetry in Eq'. apply bytes_bits_inj in Eq'; [done..|]. rewrite length_replicate. lia.
Qed.
End base32.

(** TO_BASE32 and FROM_BASE32 on values. *)
Theorem base32_roundtrip `{AbslText, AbslDouble, GoogleSqlOps} `{!CastLibrary, !StringLibrary} (s : str) :
  exists t, ToBase32 [SBytes s] = Ok (SString t) /\ FromBase32 [SString t] = Ok (SBytes s).
Proof. exists (EncodeBase32 s). split; [done|]. unfold FromBase32. cbn [is_null string_value].
  by rewrite decode_encode. Qed.

(** A NUL byte passes as a digit, the 33rd of the alphabet. *)
Lemma base32_accepts_nul : exists s, DecodeBase32 ["000"%char; "A"%char] = Ok s.
Proof. eexists. vm_compute. reflexivity. Qed.

(** ** Characters *)

Section text.
Context `{AbslText, AbslDouble, GoogleSqlOps} `{!CastLibrary, !StringLibrary}.

(** The characters of a text, [None] when it is not UTF-8. *)
Context (utf8_chars : str -> option (list str)).

(** Lengths and prefixes count characters of UTF-8 texts and bytes of BYTES. *)
Class StringLibraryLaws : Prop := {
  utf8_empty : utf8_chars [] = Some [];
  utf8_app s t cs ds : utf8_chars s = Some cs -> utf8_chars t = Some ds -> utf8_chars (s ++ t) = Some (cs ++ ds);
  utf8_prefix s cs n : utf8_chars s = Some cs -> utf8_chars (concat (take n cs)) = Some (take n cs);
  LengthBytes_ok s : LengthBytes s = Ok (Z.of_nat (length s));
  LeftBytes_ok s n : (0 <= n)%Z -> LeftBytes s n = Ok (take (Z.to_nat n) s);
  LengthUtf8_ok s cs : utf8_chars s = Some cs -> LengthUtf8 s = Ok (Z.of_nat (length cs));
  LeftUtf8_ok s cs n : utf8_chars s = Some cs -> (0 <= n)%Z -> LeftUtf8 s n = Ok (concat (take (Z.to_nat n) cs));
}.
Context `{!StringLibraryLaws}.

Definition text_chars (v : Value) : option (list str) :=
  match v with
  | SBytes s => Some (map (fun c => [c]) s)
  | SString s => utf8_chars s
  | _ => None
  end.

Lemma bytes_view s t : StringOrBytesFromView (SBytes s) t = SBytes t.
Proof. reflexivity. Qed.
Lemma string_view s t : StringOrBytesFromView (SString s) t = SString t.
Proof. reflexivity. Qed.

Lemma concat_singletons (s : str) : concat (map (fun c => [c]) s) = s.
Proof. induction s as [|c s IH]; [done|]. cbn. by rewrite IH. Qed.

Lemma LengthOfValue_chars v cs : text_chars v = Some cs -> LengthOfValue v = Ok (Z.of_nat (length cs)).
Proof.
  destruct v; try done; cbn; [by apply LengthUtf8_ok|].
  intros [= <-]. rewrite length_map. apply LengthBytes_ok.
Qed.

Lemma LeftOfValue_chars v cs n : text_chars v = Some cs -> (0 <= n)%Z ->
  LeftOfValue v n = Ok (concat (take (Z.to_nat n) cs)).
Proof.
  destruct v; try done; cbn; [by apply LeftUtf8_ok|].
  intros [= <-] N. rewrite firstn_map, concat_singletons. by apply LeftBytes_ok.
Qed.

Lemma text_chars_prefix v s cs n : text_chars v <> None ->
  text_chars (StringOrBytesFromView v s) = Some cs ->
  text_chars (StringOrBytesFromView v (concat (take n cs))) = Some (take n cs).
Proof.
  destruct v; try done; intros _; rewrite ?bytes_view, ?string_view; cbn [text_chars]; [by apply utf8_prefix|].
  intros [= <-]. by rewrite firstn_map, concat_singletons.
Qed.

Lemma text_chars_app v s t cs ds : text_chars v <> None ->
  text_chars (StringOrBytesFromView v s) = Some cs -> text_chars (StringOrBytesFromView v t) = Some ds ->
  text_chars (StringOrBytesFromView v (s ++ t)) = Some (cs ++ ds).
Proof.
  destruct v; try done; intros _; rewrite ?bytes_view, ?string_view; cbn [text_chars]; [by apply utf8_app|].
  intros [= <-] [= <-]. by rewrite map_app.
Qed.

Lemma text_chars_nil v : text_chars v <> None -> text_chars (StringOrBytesFromView v []) = Some [].
Proof. destruct v; try done; intros _; apply utf8_empty. Qed.

Lemma text_chars_self v cs : text_chars v = Some cs -> StringOrBytesFromView v (AsStringOrBytes v) = v.
Proof. by destruct v. Qed.

(** ** LPAD and RPAD *)

(** The first [n] characters of the pattern written over and over. *)
Definition cycle {A} (n : nat) (ps : list A) : list A := take n (concat (replicate n ps)).

Lemma concat_replicate_length {A} k (ps : list A) : length (concat (replicate k ps)) = k * length ps.
Proof. induction k as [|k IH]; [done|]. cbn. rewrite length_app. lia. Qed.

Lemma take_replicate_enough {A} n k j (ps : list A) : n <= k * length ps ->
  take n (concat (replicate (k + j) ps)) = take n (concat (replicate k ps)).
Proof.
  intros L. rewrite replicate_add, concat_app, take_app_le; [done|]. by rewrite concat_replicate_length.
Qed.

Lemma cycle_take {A} n k (ps : list A) : ps <> [] -> n <= k * length ps ->
  take n (concat (replicate k ps)) = cycle n ps.
Proof.
  intros N L. unfold cycle. assert (n <= n * length ps) as L' by (destruct ps; [done|cbn; nia]).
  rewrite <- (take_replicate_enough n k n ps L), Nat.add_comm. by apply take_replicate_enough.
Qed.

Lemma cycle_length {A} n (ps : list A) : ps <> [] -> length (cycle n ps) = n.
Proof.
  intros N. unfold cycle. rewrite length_take, concat_replicate_length. destruct ps; [done|]. cbn. nia.
Qed.

Lemma padding_loop_spec fuel v pad ps needed k padding : text_chars v <> None -> ps <> [] ->
  text_chars (StringOrBytesFromView v pad) = Some ps ->
  text_chars (StringOrBytesFromView v padding) = Some (concat (replicate k ps)) ->
  0 < fuel -> Z.to_nat needed < k * length ps + fuel ->
  exists k' out, padding_loop fuel v pad needed padding = Ok out /\
    text_chars (StringOrBytesFromView v out) = Some (concat (replicate k' ps)) /\
    Z.to_nat needed <= k' * length ps.
Proof.
  intros V N P. revert k padding. induction fuel as [|fuel IH]; intros k padding T Lf L; [lia|].
  cbn [padding_loop]. rewrite (LengthOfValue_chars _ _ T), concat_replicate_length. cbn.
  destruct (needed <=? _)%Z eqn:E; bool_to_prop.
  - exists k, padding. split; [done|]. split; [done|]. lia.
  - apply (IH (S k)).
    + rewrite replicate_S_end, concat_app. cbn. rewrite app_nil_r. by apply text_chars_app.
    + lia.
    + destruct ps; [done|]. cbn in *. lia.
Qed.

Lemma BuildPadding_spec v pad ps needed : text_chars v <> None -> ps <> [] -> (0 <= needed)%Z ->
  text_chars (StringOrBytesFromView v pad) = Some ps ->
  exists out, BuildPadding v pad needed = Ok out /\
    text_chars (StringOrBytesFromView v out) = Some (cycle (Z.to_nat needed) ps).
Proof.
  intros V N P T. unfold BuildPadding.
  destruct (padding_loop_spec (S (Z.to_nat needed)) v pad ps needed 0 []) as (k & out & -> & O & L); [done..| |lia|lia|].
  { by apply text_chars_nil. }
  cbn. rewrite (LeftOfValue_chars _ _ _ O P). eexists. split; [reflexivity|].
  rewrite <- (cycle_take _ k ps N L). by eapply text_chars_prefix.
Qed.

(** LPAD and RPAD return a text of exactly the length asked for, characters for
    STRING and bytes for BYTES: the first characters of a text that is long enough,
    else the text with the pattern, written over and over and cut, in front or
    behind.  The loop that builds the padding ends. *)
Theorem padding_exact (v pad : Value) (n : Z) (cs ps : list str) (pad_left : bool) :
  text_chars v = Some cs -> text_chars pad = Some ps -> type_of pad = type_of v ->
  AsStringOrBytes pad <> [] -> ps <> [] -> (0 <= n)%Z ->
  let needed := Z.to_nat n - length cs in
  let padded := if pad_left then cycle needed ps ++ cs else cs ++ cycle needed ps in
  let out := if (n <=? Z.of_nat (length cs))%Z then take (Z.to_nat n) cs else padded in
  length out = Z.to_nat n /\
  exists w, PadValue [v; SInt64 n; pad] pad_left = Ok w /\ text_chars w = Some out /\ type_of w = type_of v.
Proof.
  intros V P K A N L. cbn zeta.
  assert (text_chars v <> None) as Vn by (by rewrite V).
  assert (text_chars (StringOrBytesFromView v (AsStringOrBytes pad)) = Some ps) as Tp.
  { destruct v, pad; try done; try (by cbn in K). }
  assert (forall s, type_of (StringOrBytesFromView v s) = type_of v) as Ty by (by destruct v).
  assert (AnyNull [v; SInt64 n; pad] = false) as Nn by (by destruct v, pad).
  unfold PadValue. cbv beta iota. rewrite Nn, (LengthOfValue_chars _ _ V). cbn [mbind outcome_bind int64_value].
  unfold PadPatternForArgs. destruct (AsStringOrBytes pad) as [|c pt] eqn:Ep; [done|]. cbn [mbind outcome_bind].
  destruct (n <=? Z.of_nat (length cs))%Z eqn:E; bool_to_prop.
  - split; [rewrite length_take; lia|]. rewrite (LeftOfValue_chars _ _ _ V L). cbn [mbind outcome_bind].
    eexists. split; [reflexivity|]. split; [|apply Ty]. eapply (text_chars_prefix v (AsStringOrBytes v)); [done|]. by rewrite (text_chars_self _ _ V).
  - split; [destruct pad_left; rewrite length_app, cycle_length by done; lia|].
    destruct (BuildPadding_spec v (c :: pt) ps (n - Z.of_nat (length cs))) as (out & -> & O); [done..|lia|done|].
    replace (Z.to_nat (n - Z.of_nat (length cs))) with (Z.to_nat n - length cs) in O by lia.
    cbn [mbind outcome_bind]. eexists. split; [reflexivity|]. split; [|apply Ty].
    assert (text_chars (StringOrBytesFromView v (AsStringOrBytes v)) = Some cs) as Tv
      by (by rewrite (text_chars_self _ _ V)).
    destruct pad_left; by apply text_chars_app.
Qed.
End text.

(** ** INSTR *)

Lemma matches_at_bound value sub i : matches_at value sub i = true -> sub <> [] -> i + length sub <= length value.
Proof.
  unfold matches_at. rewrite bool_decide_eq_true. intros E N. apply (f_equal length) in E.
  rewrite length_take, length_drop in E. destruct sub; [done|]. cbn [length] in *. lia.
Qed.

(** The [k]-th of the positions, counted from 1; 0 when there are fewer. *)
Definition nth_position (ps : list nat) (k : nat) : Z :=
  match ps !! k with Some p => (Z.of_nat p + 1)%Z | None => 0 end.

Abbreviation found value sub := (List.filter (matches_at value sub)).

Lemma forward_loop_nth turns value sub i seen occurrence : (seen < occurrence)%Z ->
  forward_loop turns value sub i seen occurrence =
  nth_position (found value sub (seq i turns)) (Z.to_nat (occurrence - seen - 1)).
Proof.
  revert i seen. induction turns as [|turns IH]; intros i seen L; [done|]. cbn [forward_loop seq List.filter].
  destruct (matches_at value sub i); [|by apply IH].
  destruct (seen + 1 =? occurrence)%Z eqn:E; bool_to_prop.
  - by replace (Z.to_nat (occurrence - seen - 1)) with 0 by lia.
  - rewrite IH by lia. replace (Z.to_nat (occurrence - seen - 1)) with (S (Z.to_nat (occurrence - (seen + 1) - 1)))
      by lia. done.
Qed.

Lemma backward_loop_nth n value sub seen occurrence : sub <> [] -> (seen < occurrence)%Z ->
  backward_loop n value sub seen occurrence =
  nth_position (found value sub (rev (seq 0 n))) (Z.to_nat (occurrence - seen - 1)).
Proof.
  intros N. revert seen. induction n as [|i IH]; intros seen L; [done|]. cbn [backward_loop].
  rewrite seq_S, rev_app_distr. cbn [rev app Nat.add List.filter].
  destruct (length value <? i + length sub) eqn:B.
  { apply Nat.ltb_lt in B. destruct (matches_at value sub i) eqn:M; [|by apply IH].
    apply matches_at_bound in M; [lia|done]. }
  destruct (matches_at value sub i); [|by apply IH].
  destruct (seen + 1 =? occurrence)%Z eqn:E; bool_to_prop.
  - by replace (Z.to_nat (occurrence - seen - 1)) with 0 by lia.
  - rewrite IH by lia. replace (Z.to_nat (occurrence - seen - 1)) with (S (Z.to_nat (occurrence - (seen + 1) - 1)))
      by lia. done.
Qed.

Lemma filter_none {A} (f : A -> bool) l : Forall (fun x => f x = false) l -> List.filter f l = [].
Proof. induction 1 as [|x l E _ IH]; [done|]. cbn. by rewrite E. Qed.

Lemma filter_and_all {A} (f g : A -> bool) l : Forall (fun x => g x = true) l ->
  List.filter (fun x => f x && g x) l = List.filter f l.
Proof. induction 1 as [|x l E _ IH]; [done|]. cbn. rewrite E, andb_true_r, IH. done. Qed.

(** The positions INSTR considers, in the order it counts them. *)
Definition instr_candidates (value sub : str) (position : Z) : list nat :=
  let all := seq 0 (S (length value)) in
  if (0 <? position)%Z
  then List.filter (fun i => matches_at value sub i && (position - 1 <=? Z.of_nat i)%Z) all
  else List.filter (fun i => matches_at value sub i && (Z.of_nat i <=? Z.of_nat (length value) + position)%Z)
         (rev all).

Lemma candidates_forward value sub (i : nat) : sub <> [] -> i <= length value ->
  instr_candidates value sub (Z.of_nat i + 1) = found value sub (seq i (S (length value) - length sub - i)).
Proof.
  intros N L. unfold instr_candidates. rewrite (proj2 (Z.ltb_lt _ _)) by lia.
  set (t := S (length value) - length sub - i). destruct sub as [|c sub]; [done|].
  replace (S (length value)) with (i + (t + (S (length value) - i - t))) by (unfold t; cbn; lia).
  rewrite !seq_app, !List.filter_app. rewrite filter_none, filter_and_all, (filter_none _ (seq (0 + i + t) _)).
  - by rewrite app_nil_r.
  - apply Forall_forall. intros k Hk%elem_of_seq. apply andb_false_iff. left.
    destruct (matches_at value (c :: sub) k) eqn:M; [|done]. apply matches_at_bound in M; [|done].
    unfold t in Hk. cbn in *. lia.
  - apply Forall_forall. intros k Hk%elem_of_seq. apply Z.leb_le. lia.
  - apply Forall_forall. intros k Hk%elem_of_seq. apply andb_false_iff. right. apply Z.leb_gt. lia.
Qed.

Lemma candidates_backward value sub (e : nat) position :
  (position < 0)%Z -> (Z.of_nat (length value) + position = Z.of_nat e)%Z ->
  instr_candidates value sub position = found value sub (rev (seq 0 (S e))).
Proof.
  intros P E. unfold instr_candidates. rewrite (proj2 (Z.ltb_ge _ _)) by lia.
  replace (S (length value)) with (S e + (length value - e)) by lia.
  rewrite seq_app, rev_app_distr, List.filter_app, filter_none; [cbn [app]; apply filter_and_all|].
  - apply Forall_forall. intros k Hk%list_elem_of_In%in_rev%in_seq. apply Z.leb_le. lia.
  - apply Forall_forall. intros k Hk%list_elem_of_In%in_rev%in_seq. apply andb_false_iff. right. apply Z.leb_gt. lia.
Qed.

Section instr.
Context `{AbslText, AbslDouble, GoogleSqlOps} `{!CastLibrary, !StringLibrary}.

Lemma instr_params value sub position occurrence : position <> 0%Z -> (0 < occurrence)%Z ->
  ParseInstrSearchParams [SString value; SString sub; SInt64 position; SInt64 occurrence] =
  Ok (mkInstr value sub position occurrence).
Proof.
  intros P O. unfold ParseInstrSearchParams. cbn [lookup list_lookup].
  change (instr_int64 ?w (Some (SInt64 ?z))) with (Ok (E := Status) z). cbn [mbind outcome_bind].
  rewrite (proj2 (Z.eqb_neq _ _)) by done. cbn [mbind outcome_bind]. by rewrite (proj2 (Z.leb_gt _ _)) by done.
Qed.

(** INSTR returns the position, counted in bytes from 1, of the occurrence asked
    for among the matches at or after the start position, from left to right, or
    for a negative position among the matches at or before it, from right to left;
    0 when there are not that many.  Matches may overlap. *)
Theorem instr_nth_match (value sub : str) (position occurrence : Z) :
  sub <> [] -> position <> 0%Z -> (0 < occurrence)%Z ->
  Instr [SString value; SString sub; SInt64 position; SInt64 occurrence] =
  Ok (SInt64 (nth_position (instr_candidates value sub position) (Z.to_nat (occurrence - 1)))).
Proof.
  intros N P O. pose proof (instr_params value sub position occurrence P O) as E.
  unfold Instr. change (2 <? length [SInt64 position; SInt64 occurrence]) with false.
  change (AnyNull _) with false. change (negb _) with false. cbv beta iota.
  rewrite E. cbn [mbind outcome_bind instr_sub instr_position]. clear E.
  destruct sub as [|c sub]; [done|]. set (s := c :: sub) in *. f_equal.
  destruct (0 <? position)%Z eqn:E; bool_to_prop; unfold InstrSearchForward, InstrSearchBackward; cbn [instr_value
    instr_sub instr_position instr_occurrence].
  - destruct (Z.of_nat (length value) <=? position - 1)%Z eqn:L; bool_to_prop.
    + f_equal. unfold instr_candidates. rewrite (proj2 (Z.ltb_lt _ _)) by lia. rewrite filter_none; [done|].
      apply Forall_forall. intros k Hk%elem_of_seq. destruct (matches_at value s k) eqn:M; [|done].
      apply matches_at_bound in M; [|done]. apply Z.leb_gt. cbn in M. lia.
    + f_equal. rewrite forward_loop_nth by lia. rewrite <- candidates_forward by (done || lia).
      rewrite Z2Nat.id, Z.sub_0_r by lia. by replace (position - 1 + 1)%Z with position by lia.
  - destruct (Z.of_nat (length value) + position <? 0)%Z eqn:L; bool_to_prop.
    + f_equal. unfold instr_candidates. rewrite (proj2 (Z.ltb_ge _ _)) by lia. rewrite filter_none; [done|].
      apply Forall_forall. intros k _. apply andb_false_iff. right. apply Z.leb_gt. lia.
    + f_equal. rewrite backward_loop_nth by (done || lia).
      rewrite (candidates_backward _ _ (Z.to_nat (Z.of_nat (length value) + position))) by lia.
      by rewrite Z.sub_0_r.
Qed.
End instr.

(** ** CONTAINS_SUBSTR *)

Section value_ind.
Context `{GoogleSql} (P : Value -> Prop).
Hypothesis (PLeaf : forall v, match v with SArray _ _ | SStruct _ _ => False | _ => True end -> P v)
  (PArray : forall t l, Forall P l -> P (SArray t l)) (PStruct : forall fs l, Forall P l -> P (SStruct fs l)).

(** A value is a scalar or a null, or has the property when its children do. *)
Fixpoint composite_ind (v : Value) : P v :=
  let fix go (l : list Value) : Forall P l :=
    match l with
    | [] => Forall_nil_2 _
    | v :: l => Forall_cons_2 _ _ _ (composite_ind v) (go l)
    end in
  match v with
  | SArray t l => PArray t l (go l)
  | SStruct fs l => PStruct fs l (go l)
  | v => PLeaf v I
  end.
End value_ind.

Section contains.
Context `{AbslText, AbslDouble, GoogleSqlOps} `{!CastLibrary, !StringLibrary}.

(** The scalars and nulls of a value. *)
Fixpoint leaves (v : Value) : list Value :=
  match v with
  | SArray _ l | SStruct _ l => flat_map leaves l
  | _ => [v]
  end.

(** The normalized text of the scalar has the needle in it. *)
Definition leaf_matches (needle : str) (v : Value) : bool :=
  negb (is_null v) &&
  match NormalizeForContainsSubstr (ScalarToPlainText v) with
  | Ok haystack => str_contains haystack needle
  | Err _ => false
  end.

Definition decide_leaves (needle : str) (l : list Value) : SubstrTriState :=
  if existsb (leaf_matches needle) l then kTrue else if existsb is_null l then kNullFromNullPath else kFalse.

Lemma search_composite needle l saw_null :
  Forall (fun v => ContainsSubstrRecursive needle v = decide_leaves needle (leaves v)) l ->
  SearchComposite (ContainsSubstrRecursive needle) l saw_null =
  if existsb (leaf_matches needle) (flat_map leaves l) then kTrue
  else if saw_null || existsb is_null (flat_map leaves l) then kNullFromNullPath else kFalse.
Proof.
  intros F. revert saw_null. induction F as [|v l E _ IH]; intros saw_null; cbn [SearchComposite flat_map].
  - cbn. by rewrite orb_false_r.
  - rewrite E, !existsb_app. unfold decide_leaves.
    destruct (existsb (leaf_matches needle) (leaves v)); [done|]. cbn [orb].
    destruct (existsb is_null (leaves v)); rewrite IH; [|done]. by rewrite orb_true_r.
Qed.

Lemma recursive_leaves needle v : ContainsSubstrRecursive needle v = decide_leaves needle (leaves v).
Proof.
  induction v as [v L|t l F|fs l F] using composite_ind.
  - unfold decide_leaves. destruct v; try done; cbn; unfold leaf_matches; cbn [is_null negb andb];
      destruct (NormalizeForContainsSubstr _) as [h|e]; try done; by destruct (str_contains _ _).
  - cbn [ContainsSubstrRecursive leaves]. by rewrite search_composite.
  - cbn [ContainsSubstrRecursive leaves]. by rewrite search_composite.
Qed.

(** CONTAINS_SUBSTR of a value that is not NULL looks at its scalars, at any depth:
    it is true when the normalized text of one of them contains the normalized
    needle, otherwise NULL when one of them is NULL, otherwise false. *)
Theorem contains_substr_leaves (v : Value) (needle normalized : str) :
  is_null v = false -> NormalizeForContainsSubstr needle = Ok normalized ->
  ContainsSubstr [v; SString needle] =
  Ok (if existsb (leaf_matches normalized) (leaves v) then SBool true
      else if existsb is_null (leaves v) then NullBool else SBool false).
Proof.
  intros N E. unfold ContainsSubstr. cbn [is_null string_value]. rewrite N, E. cbn [mbind outcome_bind].
  rewrite recursive_leaves. unfold decide_leaves. destruct (existsb (leaf_matches _) _); [done|].
  by destruct (existsb is_null _).
Qed.
End contains.

(** ** Scientific notation *)

Section scientific.
Context `{AbslTextLaws}.

Definition digit_text (s : str) : Prop := Forall (fun c => ascii_isdigit c = true) s.

(** The number a text of digits denotes. *)
Definition number (s : str) : Z := of_digits 10 (map (fun c => byteval c - 48)%Z s).

Lemma digit_text_without c s : digit_text s -> ascii_isdigit c = false -> c ∉ s.
Proof. intros D N Hin. unfold digit_text in D. rewrite Forall_forall in D. rewrite (D c Hin) in N. done. Qed.

Lemma not_digit c : (byteval c < 48 \/ 57 < byteval c)%Z -> ascii_isdigit c = false.
Proof.
  intros B. destruct (ascii_isdigit c) eqn:E; [|done]. apply ascii_isdigit_spec in E. lia.
Qed.

Lemma map_replicate {A B} (f : A -> B) n x : map f (replicate n x) = replicate n (f x).
Proof. apply fmap_replicate. Qed.

Lemma number_zeros_before n s : number (zeros n ++ s) = number s.
Proof. unfold number, zeros. rewrite map_app, map_replicate. apply of_digits_zeros. Qed.

Lemma number_zeros_after n s : (0 <= n)%Z -> number (s ++ zeros n) = (number s * 10 ^ n)%Z.
Proof.
  intros N. unfold number, zeros. rewrite map_app, of_digits_app, map_replicate, length_replicate, Z2Nat.id by done.
  rewrite <- (app_nil_r (replicate _ _)) at 1. change (byteval "0" - 48)%Z with 0%Z. rewrite of_digits_zeros.
  cbn. lia.
Qed.

Lemma split_exponent_text s k : digit_text s \/ (exists a b, s = a ++ $"." ++ b /\ digit_text a /\ digit_text b) ->
  in_int64 k -> split_exponent (s ++ $"e" ++ StrInt k) = Some (s, k).
Proof.
  intros D K. unfold split_exponent. change $"e" with ["e"%char].
  assert ("e"%char ∉ s) as N.
  { assert (ascii_isdigit "e" = false) as E by (apply not_digit; vm_compute; by right).
    destruct D as [D|(a & b & -> & A & B)]; [by apply digit_text_without|].
    rewrite !not_elem_of_app. split; [by apply digit_text_without|]. split; [by apply literal_without|].
    by apply digit_text_without. }
  rewrite find_sub_skip by done. rewrite find_sub_here. cbn. rewrite app_nil_r, SimpleAtoi_StrInt by done. done.
Qed.

Lemma dot_split a b : digit_text a -> find_sub $"." (a ++ $"." ++ b) = Some (a, b).
Proof.
  intros A. change $"." with ["."%char]. rewrite find_sub_skip.
  - rewrite find_sub_here. cbn. by rewrite app_nil_r.
  - apply digit_text_without; [done|]. apply not_digit. vm_compute. by left.
Qed.

Lemma dot_none a : digit_text a -> find_sub $"." a = None.
Proof.
  intros A. apply find_sub_None. intros (p & q & ->). apply Forall_app in A as [_ A].
  change $"." with ["."%char] in A. apply Forall_cons in A as [A _]. rewrite not_digit in A; [done|].
  vm_compute. by left.
Qed.

Lemma number_insert pos s : exists p q, str_insert pos $"." s = p ++ $"." ++ q /\ p ++ q = s /\
  p = take pos s /\ length q = length s - pos.
Proof. exists (take pos s), (drop pos s). split; [done|]. by rewrite take_drop, length_drop. Qed.

(** A decimal [a.b] with exponent [k] is expanded to the same number: to digits
    when the exponent covers the decimals, else to digits with a dot that leaves
    [|b| - k] decimals.  Without a dot a negative exponent is ignored: the text
    returned is the mantissa, a different number. *)
Theorem expand_scientific_value (a b : str) (k : Z) :
  digit_text a -> digit_text b -> in_int64 k -> in_int64 (k - Z.of_nat (length b)) ->
  in_int64 (Z.of_nat (length b) - k) ->
  (exists t, ExpandScientificNotation ((a ++ $"." ++ b) ++ $"e" ++ StrInt k) = Some t /\
    if (Z.of_nat (length b) <=? k)%Z
    then digit_text t /\ number t = (number (a ++ b) * 10 ^ (k - Z.of_nat (length b)))%Z
    else exists p q, t = p ++ $"." ++ q /\ p <> [] /\ number (p ++ q) = number (a ++ b) /\
           Z.of_nat (length q) = (Z.of_nat (length b) - k)%Z) /\
  (exists t, ExpandScientificNotation (a ++ $"e" ++ StrInt k) = Some t /\
    if (0 <=? k)%Z then number t = (number a * 10 ^ k)%Z else t = a).
Proof.
  intros A B K W W'. split.
  - unfold ExpandScientificNotation. rewrite split_exponent_text by (done || (right; eauto)).
    cbn [mbind option_bind]. rewrite dot_split by done. rewrite (wrap_int64_id (k - _)) by done.
    destruct (Z.of_nat (length b) <=? k)%Z eqn:E; bool_to_prop.
    + rewrite (proj2 (Z.leb_le _ _)) by lia. eexists. split; [reflexivity|].
      split; [|apply number_zeros_after; lia].
      apply Forall_app. split; [by apply Forall_app|]. apply Forall_replicate. apply ascii_isdigit_spec.
      vm_compute. split; congruence.
    + rewrite (proj2 (Z.leb_gt _ _)) by lia.
      replace (- (k - Z.of_nat (length b)))%Z with (Z.of_nat (length b) - k)%Z by lia.
      rewrite (wrap_int64_id (Z.of_nat (length b) - k)) by done.
      set (shift := (Z.of_nat (length b) - k)%Z) in *. assert (0 < shift)%Z as Sp by (unfold shift; lia).
      set (ds := a ++ b). destruct (Z.of_nat (length ds) <=? shift)%Z eqn:F; bool_to_prop;
        eexists; (split; [reflexivity|]).
      * destruct (number_insert 1 (zeros (shift - Z.of_nat (length ds) + 1) ++ ds)) as (p & q & -> & Epq & Ep & Lq).
        exists p, q. split; [done|]. assert (length (zeros (shift - Z.of_nat (length ds) + 1)) =
          Z.to_nat (shift - Z.of_nat (length ds) + 1)) as Lz by apply length_replicate.
        split; [|split].
        -- rewrite Ep. unfold zeros. replace (Z.to_nat (shift - Z.of_nat (length ds) + 1))
             with (S (Z.to_nat (shift - Z.of_nat (length ds)))) by lia. done.
        -- by rewrite Epq, number_zeros_before.
        -- rewrite Lq, length_app, Lz. lia.
      * destruct (number_insert (length ds - Z.to_nat shift) ds) as (p & q & -> & Epq & Ep & Lq).
        exists p, q. split; [done|]. split; [|split].
        -- intros ->. symmetry in Ep. apply (f_equal length) in Ep. rewrite length_take in Ep. cbn in Ep. lia.
        -- by rewrite Epq.
        -- rewrite Lq. lia.
  - unfold ExpandScientificNotation. rewrite split_exponent_text by (done || by left).
    cbn [mbind option_bind]. rewrite dot_none by done. eexists. split; [reflexivity|].
    destruct (0 <=? k)%Z eqn:E; bool_to_prop; [|done]. apply number_zeros_after. lia.
Qed.
End scientific.

(** The last resort of PARSE_BIGNUMERIC counts the decimals of the mantissa twice:
    the exponent is lowered by their number although the mantissa keeps its dot. *)
Lemma scaled_mantissa_off `{AbslTextLaws, AbslDouble, GoogleSqlOps} `{!CastLibrary, !StringLibrary} a b k expanded
    (ctx : option (option str)) :
  digit_text a -> digit_text b -> in_int64 k -> in_int64 (k - Z.of_nat (length b)) ->
  scaled_scientific ((a ++ $"." ++ b) ++ $"e" ++ StrInt k) expanded ctx =
  TryParseBignumericScaledMantissa (a ++ $"." ++ b) (k - Z.of_nat (length b)) expanded ctx.
Proof.
  intros A B K W. unfold scaled_scientific. rewrite split_exponent_text by (done || (right; eauto)).
  by rewrite dot_split, wrap_int64_id.
Qed.

(** ** SOUNDEX *)

Lemma soundex_codes `{AbslText} room s prev : length (soundex_loop room s prev) <= room /\
  Forall (fun c => c ∈ $"123456") (soundex_loop room s prev).
Proof.
  revert room prev. induction s as [|c s IH]; intros room prev; [destruct room; cbn; split; (lia || done)|].
  destruct room as [|room]; [done|]. cbn [soundex_loop]. destruct (negb _); [apply IH|].
  destruct (bool_decide _) eqn:Q; [apply IH|]. destruct (bool_decide (_ = "0"%char)) eqn:Z; [apply IH|].
  destruct (bool_decide (_ <> prev)); [|apply IH]. cbn [length]. destruct (IH room (SoundexCode (ascii_toupper c))) as [L F].
  split; [lia|]. constructor; [|done]. bool_to_prop. revert Q Z. unfold SoundexCode.
  repeat (case_bool_decide; [intros; apply (bool_decide_unpack _); by vm_compute|]). done.
Qed.

(** SOUNDEX of a text with a letter is the first letter as it stands and three
    digits; a lower-case first letter has no code of its own, so the next letter
    of its group is not dropped ("Pfister" is P236, "pfister" p123). *)
Theorem soundex_shape `{AbslText, AbslDouble, GoogleSqlOps} `{!CastLibrary, !StringLibrary} (s : str) c rest :
  skip_non_letters s = c :: rest ->
  exists codes, Soundex [SString s] = Ok (SString (c :: codes)) /\ length codes = 3 /\
    Forall (fun d => d ∈ $"0123456") codes.
Proof.
  intros E. unfold Soundex. cbn [is_null]. rewrite E. eexists. split; [reflexivity|].
  destruct (soundex_codes 3 rest (SoundexCode c)) as [L F]. cbn [length]. rewrite length_app, length_replicate.
  split; [lia|]. apply Forall_app. split.
  - apply (Forall_impl _ _ _ F). intros d D. change $"0123456" with ("0"%char :: $"123456"). by right.
  - apply Forall_replicate. by left.
Qed.

(** ** A concrete library, for ASCII texts *)

Module StringReference.
Import Reference EvalReference.

#[export] Instance reference_strings : StringLibrary := {|
  FirstByteOfBytesToASCII _ := undefined_here;
  FirstCharOfStringToASCII _ := undefined_here;
  LengthBytes s := Ok (Z.of_nat (length s));
  CodePointToString _ := undefined_here;
  FirstCharToCodePoint _ := undefined_here;
  LowerBytes _ := undefined_here;
  LowerUtf8 _ := undefined_here;
  UpperBytes _ := undefined_here;
  UpperUtf8 _ := undefined_here;
  LeftTrimSpacesUtf8 _ := undefined_here;
  RightTrimSpacesUtf8 _ := undefined_here;
  TrimSpacesUtf8 _ := undefined_here;
  LeftTrimBytes _ _ := undefined_here;
  RightTrimBytes _ _ := undefined_here;
  TrimBytes _ _ := undefined_here;
  LeftTrimUtf8 _ _ := undefined_here;
  RightTrimUtf8 _ _ := undefined_here;
  TrimUtf8 _ _ := undefined_here;
  ReplaceBytes _ _ _ := undefined_here;
  ReplaceUtf8 _ _ _ := undefined_here;
  TranslateBytes _ _ _ := undefined_here;
  TranslateUtf8 _ _ _ := undefined_here;
  ReverseBytes _ := undefined_here;
  ReverseUtf8 _ := undefined_here;
  StartsWithBytes _ _ := undefined_here;
  StartsWithUtf8 _ _ := undefined_here;
  EndsWithBytes _ _ := undefined_here;
  EndsWithUtf8 _ _ := undefined_here;
  LeftBytes s n := Ok (take (Z.to_nat n) s);
  LeftUtf8 s n := Ok (take (Z.to_nat n) s);
  RightBytes _ _ := undefined_here;
  RightUtf8 _ _ := undefined_here;
  SubstrBytes _ _ := undefined_here;
  SubstrUtf8 _ _ := undefined_here;
  SubstrWithLengthBytes _ _ _ := undefined_here;
  SubstrWithLengthUtf8 _ _ _ := undefined_here;
  StrposBytes _ _ := undefined_here;
  StrposUtf8 _ _ := undefined_here;
  SplitBytes _ _ := undefined_here;
  SplitUtf8 _ _ := undefined_here;
  lib_ToHex _ := undefined_here;
  lib_FromHex _ := undefined_here;
  lib_ToBase64 _ := undefined_here;
  lib_FromBase64 _ := undefined_here;
  Hasher _ := None;
  kMd5 := 0%Z;
  kSha1 := 1%Z;
  kSha256 := 2%Z;
  kSha512 := 3%Z;
  FarmFingerprint s := Z.of_nat (length s);
  InitialCapitalizeDefault _ := undefined_here;
  InitialCapitalize _ _ := undefined_here;
  NormalizeMode_NFC := 0%Z;
  NormalizeMode_NFKC := 1%Z;
  NormalizeMode_Parse _ := None;
  lib_Normalize s _ casefold := Ok (if casefold then AsciiStrToLower s else s);
  lib_CodePointsToString _ := undefined_here;
  lib_CodePointsToBytes _ := undefined_here;
  BytesToCodePoints _ := undefined_here;
  StringToCodePoints _ := undefined_here;
  RegExp := str;
  MakeRegExpBytes s := Ok s;
  MakeRegExpUtf8 s := Ok s;
  re_Contains re s := Ok (str_contains s re);
  re_Extract _ _ _ _ _ := undefined_here;
  re_ExtractAll _ _ _ := ([], None);
  re_Replace _ _ _ := undefined_here;
  re_Instr _ _ _ _ _ _ := undefined_here;
  StringFormatUtf8 _ _ := undefined_here;
  lib_ParseNumeric _ := undefined_here;
  lib_ParseBigNumeric _ := undefined_here;
  BigNumeric_FromStringWithRounding s _ _ := BigNumericValue_FromString s;
  Value_DebugString _ := [];
  lib_GetSQLLiteral _ := [];
  Utf8SafeCEscape s := s;
  Base64Escape s := s;
|}.

(** ASCII texts only; other bytes count as malformed. *)
Definition ascii_chars (s : str) : option (list str) :=
  if forallb (fun c => byteval c <? 128)%Z s then Some (map (fun c => [c]) s) else None.

Lemma ascii_chars_Some s cs : ascii_chars s = Some cs ->
  forallb (fun c => byteval c <? 128)%Z s = true /\ cs = map (fun c => [c]) s.
Proof. unfold ascii_chars. destruct (forallb _ s); [by intros [= <-]|done]. Qed.

#[export] Instance reference_string_laws : StringLibraryLaws ascii_chars.
Proof.
  split; intros; repeat match goal with H : ascii_chars _ = Some _ |- _ => apply ascii_chars_Some in H as [? ->] end;
    try done.
  - unfold ascii_chars. rewrite forallb_app, map_app.
    repeat match goal with H : forallb _ _ = true |- _ => rewrite H; clear H end. done.
  - rewrite firstn_map, concat_singletons. unfold ascii_chars.
    match goal with F : forallb _ _ = true |- _ => rewrite <- (take_drop n s), forallb_app in F;
      apply andb_prop in F as [-> _] end. done.
  - cbn. by rewrite length_map.
  - cbn. by rewrite firstn_map, concat_singletons.
Qed.

Lemma padding_exact_witness :
  exists w, PadValue [SString $"abc"; SInt64 8; SString $"xy"] true = Ok w /\
    text_chars ascii_chars w = ascii_chars $"xyxyxabc".
Proof.
  destruct (padding_exact ascii_chars (SString $"abc") (SString $"xy") 8 (map (fun c => [c]) $"abc")
    (map (fun c => [c]) $"xy") true) as (_ & w & E & C & _); [reflexivity|reflexivity|reflexivity|discriminate
    |discriminate|lia|]. exists w. split; [exact E|]. rewrite C. vm_compute. reflexivity.
Defined.

Lemma instr_nth_match_witness : Instr [SString $"banana"; SString $"an"; SInt64 (-1); SInt64 2] = Ok (SInt64 2).
Proof. rewrite instr_nth_match; [vm_compute; reflexivity|discriminate|discriminate|lia]. Defined.

Lemma contains_substr_leaves_witness :
  ContainsSubstr [SArray TString [SString $"Blue"; SNull TString]; SString $"LU"] = Ok (SBool true).
Proof.
  rewrite (contains_substr_leaves _ _ $"lu"); [vm_compute; reflexivity|reflexivity|vm_compute; reflexivity].
Defined.

Lemma expand_scientific_value_witness :
  exists t, ExpandScientificNotation (($"12" ++ $"." ++ $"345") ++ $"e" ++ StrInt 1) = Some t.
Proof.
  destruct (expand_scientific_value $"12" $"345" 1) as [(t & E & _) _];
    [repeat constructor|repeat constructor|by vm_compute..|]. exists t. exact E.
Defined.

Example soundex_case :
  Soundex [SString $"Pfister"] = Ok (SString $"P236") /\ Soundex [SString $"pfister"] = Ok (SString $"p123").
Proof. by vm_compute. Qed.

End StringReference.
