(* ===== verification/ArrayFuncs.v ===== *)
(** * ArrayFuncs: arrays and ranges

    Models [semantic/functions/array_funcs.cc] and [range_funcs.cc].  GoogleSQL's
    [GenerateArray] and [Value::MakeRange] are the class [ArrayLibrary]. *)

From S2P Require Import Prelude Order Absl AbslReference Storage SemanticError SqlValue.
From S2P Require Import GoogleSqlReference Arithmetic Operators MathFuncs Casts EvalReference StringFuncs.

Class ArrayLibrary `{GoogleSql} := {
  lib_GenerateArray : Z -> Z -> Z -> StatusOr (list Z);
  MakeRange : Value -> Value -> StatusOr Value;
}.

(** [static_cast<float>] of an integer *)
Definition float_of_Z (z : Z) : spec_float := binary_normalize 24 128 z 0 false.

Section arrays.
Context `{AbslText, AbslDouble, GoogleSqlOps} `{!CastLibrary, !ArrayLibrary}.

Definition HasNull (args : list Value) : bool := existsb is_null args.

(** [None] also when an argument is null and there is no return type. *)
Definition NullIfAny (args : list Value) (return_type : option SqlType) : option Value :=
  if HasNull args then SNull <$> return_type else None.

Definition GenerateArrayElement (element_type : SqlType) (v : Z) : Value :=
  match element_type with
  | TDouble => SDouble (dbl_of_Z v)
  | TFloat => SFloat (float_of_Z v)
  | _ => SInt64 v
  end.

(** A FLOAT64 argument is cut to an integer. *)
Definition Int64Arg (v : Value) (what : str) : StatusOr Z :=
  if is_kind v TYPE_INT64 then Ok (int64_value v)
  else if is_kind v TYPE_DOUBLE then Ok (trunc_int64 (double_value v))
  else if is_kind v TYPE_FLOAT then Ok (trunc_int64 (float_value v))
  else Err (InvalidArgumentError ($"semantic: " ++ what ++ $" requires INT64-compatible argument; got " ++
              DebugString (type_of v))).

Definition ExpectArrayType (v : Value) (what : str) : StatusOr () :=
  if is_kind v TYPE_ARRAY then Ok ()
  else Err (InvalidArgumentError ($"semantic: " ++ what ++ $" requires ARRAY argument; got " ++
              DebugString (type_of v))).

(** [if (!return_type->IsArray()) return error], and the element type. *)
Definition array_return_type (what : str) (return_type : option SqlType) : StatusOr SqlType :=
  match return_type with
  | Some (TArray e) => Ok e
  | _ => Err (InvalidArgumentError ($"semantic: " ++ what ++ $" requires ARRAY return type"))
  end.

Definition generate_array (start end_ : Value) (step : option Value) (return_type : option SqlType)
    : StatusOr Value :=
  start ← Int64Arg start $"GENERATE_ARRAY start";
  end_ ← Int64Arg end_ $"GENERATE_ARRAY end";
  step ← match step with None => Ok 1%Z | Some s => Int64Arg s $"GENERATE_ARRAY step" end;
  raw ← lib_GenerateArray start end_ step;
  element_type ← array_return_type $"GENERATE_ARRAY" return_type;
  Ok (SArray element_type (map (GenerateArrayElement element_type) raw)).

Definition GenerateArray (args : list Value) (return_type : option SqlType) : StatusOr Value :=
  match args with
  | start :: end_ :: ([] | [_]) =>
      match NullIfAny args return_type with
      | Some n => Ok n
      | None => generate_array start end_ (args !! 2) return_type
      end
  | _ => Err (InvalidArgumentError $"semantic: GENERATE_ARRAY expects 2 or 3 arguments")
  end.

Definition ArrayConcat (args : list Value) (return_type : option SqlType) : StatusOr Value :=
  match args with
  | [] => Err (InvalidArgumentError $"semantic: ARRAY_CONCAT expects at least one argument")
  | _ =>
      match NullIfAny args return_type with
      | Some n => Ok n
      | None =>
          out_type ← array_return_type $"ARRAY_CONCAT" return_type;
          merged ← outcome_mapM (fun arr => _ ← ExpectArrayType arr $"ARRAY_CONCAT"; Ok (elements arr)) args;
          Ok (SArray out_type (concat merged))
      end
  end.

Definition ArrayLength (args : list Value) : StatusOr Value :=
  match args with
  | [v] =>
      if is_null v then Ok NullInt64
      else _ ← ExpectArrayType v $"ARRAY_LENGTH"; Ok (SInt64 (num_elements v))
  | _ => Err (InvalidArgumentError $"semantic: ARRAY_LENGTH expects exactly one argument")
  end.

Definition ArrayReverse (args : list Value) (return_type : option SqlType) : StatusOr Value :=
  match args with
  | [v] =>
      if is_null v then Ok (null_result return_type)
      else
        _ ← ExpectArrayType v $"ARRAY_REVERSE";
        t ← array_return_type $"ARRAY_REVERSE" return_type;
        Ok (SArray t (rev (elements v)))
  | _ => Err (InvalidArgumentError $"semantic: ARRAY_REVERSE expects exactly one argument")
  end.

(** The element at an index counted from 0. *)
Definition element_at (arr : Value) (idx : Z) (return_type : option SqlType) (safe : bool) (out_of_bounds : str)
    : StatusOr Value :=
  if (idx <? 0)%Z || (num_elements arr <=? idx)%Z
  then if safe then Ok (null_result return_type) else Err (MakeSemanticError rInvalidArgument out_of_bounds)
  else Ok (nth (Z.to_nat idx) (elements arr) SInvalid).

Definition ArrayAtOffset (args : list Value) (return_type : option SqlType) (safe : bool) : StatusOr Value :=
  match args with
  | [arr; offset] =>
      if is_null arr || is_null offset then Ok (null_result return_type)
      else
        _ ← ExpectArrayType arr $"$array_at_offset";
        if negb (is_kind offset TYPE_INT64)
        then Err (InvalidArgumentError $"semantic: $array_at_offset offset must be INT64")
        else element_at arr (int64_value offset) return_type safe $"semantic: array offset out of bounds"
  | _ => Err (InvalidArgumentError $"semantic: $array_at_offset expects array and offset")
  end.

Definition ArrayAtOrdinal (args : list Value) (return_type : option SqlType) (safe : bool) : StatusOr Value :=
  match args with
  | [arr; ordinal] =>
      if is_null arr || is_null ordinal then Ok (null_result return_type)
      else
        _ ← ExpectArrayType arr $"$array_at_ordinal";
        if negb (is_kind ordinal TYPE_INT64)
        then Err (InvalidArgumentError $"semantic: array ordinal access index must be INT64")
        else element_at arr (wrap_int64 (int64_value ordinal - 1)) return_type safe
               $"semantic: array ordinal out of bounds"
  | _ => Err (InvalidArgumentError $"semantic: array ordinal access expects array and ordinal")
  end.

(** The parts of ARRAY_TO_STRING; a null is replaced or left out. *)
Fixpoint string_parts (l : list Value) (null_replacement : option str) : StatusOr (list str) :=
  match l with
  | [] => Ok []
  | elem :: l =>
      if is_null elem
      then rest ← string_parts l null_replacement;
           Ok (match null_replacement with Some r => r :: rest | None => rest end)
      else if negb (is_kind elem TYPE_STRING)
      then Err (InvalidArgumentError $"semantic: ARRAY_TO_STRING expects ARRAY<STRING>")
      else rest ← string_parts l null_replacement; Ok (string_value elem :: rest)
  end.

Definition ArrayToString (args : list Value) : StatusOr Value :=
  match args with
  | arr :: delimiter :: ([] | [_]) =>
      if is_null arr || is_null delimiter then Ok NullString
      else
        _ ← ExpectArrayType arr $"ARRAY_TO_STRING";
        if negb (is_kind delimiter TYPE_STRING)
        then Err (InvalidArgumentError $"semantic: ARRAY_TO_STRING delimiter must be STRING")
        else
          let replacement := args !! 2 in
          if match replacement with Some r => is_null r | None => false end then Ok NullString
          else parts ← string_parts (elements arr) (string_value <$> replacement);
               Ok (SString (join_text (string_value delimiter) parts))
  | _ => Err (InvalidArgumentError $"semantic: ARRAY_TO_STRING expects two or three arguments")
  end.

(** ** Ranges *)

Definition range_start (v : Value) : Value := match v with SRange _ a _ => a | _ => SInvalid end.
Definition range_end (v : Value) : Value := match v with SRange _ _ b => b | _ => SInvalid end.

Definition NullForRangeElement (range : Value) : Value :=
  match range with SRange t _ _ => SNull t | _ => SInvalid end.

Definition BoundedLessOrEqual (bound other : Value) : bool := LessThan bound other || Equals bound other.

Definition RangesOverlap (a b : Value) : bool :=
  if negb (is_null (range_end a)) && negb (is_null (range_start b)) &&
     BoundedLessOrEqual (range_end a) (range_start b) then false
  else if negb (is_null (range_end b)) && negb (is_null (range_start a)) &&
     BoundedLessOrEqual (range_end b) (range_start a) then false
  else true.

Definition RangeCtor (args : list Value) (return_type : option SqlType) : StatusOr Value :=
  match args with
  | [a; b] =>
      match MakeRange a b with
      | Ok r => Ok r
      | Err e => Err (MakeSemanticError rInvalidArgument (message e))
      end
  | _ => Err (InvalidArgumentError $"semantic: RANGE expects exactly two arguments")
  end.

Definition RangeStart (args : list Value) : StatusOr Value :=
  match args with
  | [v] =>
      if is_null v then Ok NullInt64
      else if negb (is_kind v TYPE_RANGE)
      then Err (MakeSemanticError rInvalidArgument $"semantic: RANGE_START expects RANGE argument")
      else Ok (if is_null (range_start v) then NullForRangeElement v else range_start v)
  | _ => Err (InvalidArgumentError $"semantic: RANGE_START expects exactly one argument")
  end.

Definition RangeEnd (args : list Value) : StatusOr Value :=
  match args with
  | [v] =>
      if is_null v then Ok NullInt64
      else if negb (is_kind v TYPE_RANGE)
      then Err (MakeSemanticError rInvalidArgument $"semantic: RANGE_END expects RANGE argument")
      else Ok (if is_null (range_end v) then NullForRangeElement v else range_end v)
  | _ => Err (InvalidArgumentError $"semantic: RANGE_END expects exactly one argument")
  end.

Definition RangeOverlaps (args : list Value) : StatusOr Value :=
  match args with
  | [a; b] =>
      if is_null a || is_null b then Ok NullBool
      else if negb (is_kind a TYPE_RANGE && is_kind b TYPE_RANGE)
      then Err (MakeSemanticError rInvalidArgument $"semantic: RANGE_OVERLAPS expects RANGE arguments")
      else Ok (SBool (RangesOverlap a b))
  | _ => Err (InvalidArgumentError $"semantic: RANGE_OVERLAPS expects exactly two arguments")
  end.
End arrays.

(** ** What they compute *)

Section array_props.
Context `{AbslText, AbslDouble, GoogleSqlOps} `{!CastLibrary, !ArrayLibrary}.

(** The element of a list at an index of any sign. *)
Definition at_index (l : list Value) (i : Z) : option Value := if (i <? 0)%Z then None else l !! Z.to_nat i.

Lemma element_at_lookup e l i rt safe m :
  element_at (SArray e l) i rt safe m =
  match at_index l i with
  | Some v => Ok v
  | None => if safe then Ok (null_result rt) else Err (MakeSemanticError rInvalidArgument m)
  end.
Proof.
  unfold element_at, at_index, num_elements. cbn [elements]. destruct (i <? 0)%Z eqn:N; bool_to_prop; [done|].
  cbn [orb]. destruct (Z.of_nat (length l) <=? i)%Z eqn:L; bool_to_prop.
  - by rewrite lookup_ge_None_2 by lia.
  - destruct (lookup_lt_is_Some_2 l (Z.to_nat i)) as [v E]; [lia|]. rewrite E.
    rewrite nth_lookup, E. done.
Qed.

(** Access by offset finds the element at that index, counted from 0, and access by
    ordinal the one before it, for every INT64 above the least, whose predecessor
    overflows; outside the array the result is
    NULL under SAFE and an error otherwise.  The access functions see ARRAY_REVERSE
    and ARRAY_CONCAT as the reversed and the concatenated list, and ARRAY_LENGTH as
    its length. *)
Theorem array_access_exact e l m rt safe i :
  (int64_min < i <= int64_max)%Z ->
  ArrayAtOffset [SArray e l; SInt64 i] rt safe =
    match at_index l i with
    | Some v => Ok v
    | None => if safe then Ok (null_result rt)
              else Err (MakeSemanticError rInvalidArgument $"semantic: array offset out of bounds")
    end /\
  ArrayAtOrdinal [SArray e l; SInt64 i] rt safe =
    match at_index l (i - 1) with
    | Some v => Ok v
    | None => if safe then Ok (null_result rt)
              else Err (MakeSemanticError rInvalidArgument $"semantic: array ordinal out of bounds")
    end /\
  ArrayReverse [SArray e l] (Some (TArray e)) = Ok (SArray e (rev l)) /\
  ArrayConcat [SArray e l; SArray e m] (Some (TArray e)) = Ok (SArray e (l ++ m)) /\
  ArrayLength [SArray e l] = Ok (SInt64 (Z.of_nat (length l))).
Proof.
  intros I. split; [|split; [|split; [|split]]]; try reflexivity.
  - unfold ArrayAtOffset. cbn [is_null orb]. change (ExpectArrayType (SArray e l) ?w) with (Ok (E := Status) ()).
    cbn [mbind outcome_bind]. change (negb _) with false. cbv iota. apply element_at_lookup.
  - unfold ArrayAtOrdinal. cbn [is_null orb]. change (ExpectArrayType (SArray e l) ?w) with (Ok (E := Status) ()).
    cbn [mbind outcome_bind]. change (negb _) with false. cbv iota. rewrite element_at_lookup. cbn [int64_value].
    rewrite wrap_int64_id; [done|]. revert I. unfold in_int64, int64_min, int64_max. lia.
  - change (ArrayConcat [SArray e l; SArray e m] (Some (TArray e)))
      with (Ok (E := Status) (SArray e (l ++ m ++ []))). by rewrite app_nil_r.
Qed.

(** GENERATE_ARRAY over FLOAT64 works on the integral parts of its arguments: a
    start, an end and a step with fractions are cut before the array is made. *)
Lemma generate_array_cuts (a b c : spec_float) rt :
  GenerateArray [SDouble a; SDouble b; SDouble c] rt =
  GenerateArray [SInt64 (trunc_int64 a); SInt64 (trunc_int64 b); SInt64 (trunc_int64 c)] rt.
Proof. reflexivity. Qed.

(** RANGE_START and RANGE_END of a NULL range are a NULL of type INT64, whatever the
    element type of the range. *)
Lemma range_bounds_of_null t :
  RangeStart [SNull (TRange t)] = Ok NullInt64 /\ RangeEnd [SNull (TRange t)] = Ok NullInt64.
Proof. done. Qed.

(** ** Overlap *)

(** Dates compare as their day numbers. *)
Class DateOrder : Prop := {
  LessThan_date a b : LessThan (SDate a) (SDate b) = (a <? b)%Z;
  Equals_date a b : Equals (SDate a) (SDate b) = (a =? b)%Z;
}.
Context `{!DateOrder}.

(** The bounds of a range of dates: [None] is unbounded. *)
Definition date_range (start end_ : option Z) : Value :=
  let bound b := match b with Some d => SDate d | None => SNull TDate end in
  SRange TDate (bound start) (bound end_).

Definition in_range (start end_ : option Z) (day : Z) : Prop :=
  match start with Some s => (s <= day)%Z | None => True end /\
  match end_ with Some e => (day < e)%Z | None => True end.

Lemma bounded_le a b : BoundedLessOrEqual (SDate a) (SDate b) = (a <=? b)%Z.
Proof.
  unfold BoundedLessOrEqual. rewrite LessThan_date, Equals_date.
  destruct (a <? b)%Z eqn:L, (a =? b)%Z eqn:E, (a <=? b)%Z eqn:F; bool_to_prop; lia || done.
Qed.

(** RANGE_OVERLAPS of two ranges of dates that are not empty is true exactly when
    some day lies in both, a missing bound counting as unbounded. *)
Theorem range_overlaps_exact (s e s' e' : option Z) :
  (exists d, in_range s e d) -> (exists d, in_range s' e' d) ->
  exists b, RangeOverlaps [date_range s e; date_range s' e'] = Ok (SBool b) /\
    (b = true <-> exists d, in_range s e d /\ in_range s' e' d).
Proof.
  intros [d D] [d' D']. eexists. split; [reflexivity|]. unfold RangesOverlap, date_range. cbn [range_start range_end].
  assert (forall a : option Z, is_null (match a with Some d => SDate d | None => SNull TDate end) =
    match a with Some _ => false | None => true end) as N by (by intros []).
  rewrite !N. unfold in_range in *.
  destruct s as [s|], e as [e|], s' as [s'|], e' as [e'|]; cbn [negb andb]; rewrite ?bounded_le;
    repeat (match goal with |- context [(?x <=? ?y)%Z] => destruct (x <=? y)%Z eqn:?; bool_to_prop end);
    (split; [intros; try done|intros (x & Hx & Hx'); done || (exfalso; lia)]);
    first [exists d; lia | exists d'; lia | exists s; lia | exists s'; lia | exists (Z.min d d'); lia
          | exists (Z.max d d'); lia | exists (Z.max s s'); lia].
Qed.
End array_props.

Module ArrayReference.
Import Reference EvalReference.

(** The numbers from [start] on, [n] of them. *)
Fixpoint count_up (n : nat) (start step : Z) : list Z :=
  match n with O => [] | S n => start :: count_up n (start + step) step end.

#[export] Instance reference_arrays : ArrayLibrary := {|
  lib_GenerateArray start end_ step :=
    if (step =? 0)%Z then Err (InvalidArgumentError $"the step of GENERATE_ARRAY is zero")
    else Ok (count_up (Z.to_nat ((end_ - start) / step + 1)) start step);
  MakeRange a b := match type_of a with
                   | Some t => Ok (SRange t a b)
                   | None => Err (InvalidArgumentError $"a bound without a type")
                   end;
|}.

#[export] Instance reference_dates : DateOrder.
Proof. by split. Qed.

Lemma array_access_exact_witness :
  ArrayAtOrdinal [SArray TInt64 [SInt64 7; SInt64 8]; SInt64 2] (Some TInt64) false = Ok (SInt64 8).
Proof.
  destruct (array_access_exact TInt64 [SInt64 7; SInt64 8] [] (Some TInt64) false 2) as (_ & E & _);
    [vm_compute; split; congruence|]. exact E.
Defined.

Lemma range_overlaps_exact_witness :
  exists b, RangeOverlaps [date_range (Some 1) (Some 5); date_range None (Some 2)]%Z = Ok (SBool b).
Proof.
  destruct (range_overlaps_exact (Some 1) (Some 5) None (Some 2))%Z as (b & E & _);
    [exists 1%Z; split; cbn; lia|exists 1%Z; split; [exact I|cbn; lia]|]. exists b. exact E.
Defined.

Example generate_array_floats :
  GenerateArray [SDouble (dbl_of_Z 1); SDouble (dbl_of_Z 3); SDouble dbl_half] (Some (TArray TDouble)) =
  Err (InvalidArgumentError $"the step of GENERATE_ARRAY is zero").
Proof. by vm_compute. Qed.
End ArrayReference.
