(* ===== verification/Kll.v ===== *)
(** * Kll: KLL_QUANTILES sketches

    Models [semantic/functions/kll_sketch_internal.h] and [kll_funcs.cc].  The
    sketches themselves are [datasketches::kll_sketch], a library: its operations
    are a record, [SketchOps], for each of the two item types, and [SketchLaws]
    states what its documentation promises (smallest and largest item are exact,
    quantiles lie between them and grow with the rank, a serialized sketch reads
    back).  A template over the sketch type is a definition over such a record. *)

From S2P Require Import Prelude Order Absl AbslReference Storage SemanticError SqlValue.
From S2P Require Import GoogleSqlReference Arithmetic.

Definition kKllMagic : str := [byteof 0x12; byteof 0xef; byteof 0x81].
Definition kSketchTypeInt64 : Z := 0.
Definition kSketchTypeFloat64 : Z := 1.
Definition kDefaultPrecision : Z := 1000.
Definition kMinPrecision : Z := 1.
Definition kMaxPrecision : Z := 100000.
Definition kMaxNumQuantiles : Z := 100000.
Definition kMinWeight : Z := 1.
Definition kMaxWeight : Z := 100000.
Definition kMinK : Z := 8.
Definition kMaxK : Z := 4096.

Definition is_nan (d : spec_float) : bool := match d with S754_nan => true | _ => false end.

(** NaN first, and all NaNs alike. *)
Definition Float64GoogleSqlLess (a b : spec_float) : bool :=
  if is_nan a && is_nan b then false
  else if is_nan a then true
  else if is_nan b then false
  else SFltb a b.

Inductive SketchType := kInt64 | kFloat64.

#[export] Instance SketchType_eq_dec : EqDecision SketchType.
Proof. solve_decision. Defined.

Definition bad_argument (m : str) : Status := MakeSemanticError rInvalidArgument m.

Definition InvalidSketch : Status := bad_argument $"KLL_QUANTILES sketch is not in a supported wire format".

Definition TypeMismatch (expected : SketchType) : Status :=
  bad_argument match expected with
               | kInt64 => $"KLL_QUANTILES sketch underlying type is not INT64"
               | kFloat64 => $"KLL_QUANTILES sketch underlying type is not FLOAT64"
               end.

(** ** Arguments *)

Definition PrecisionToK (precision : Z) : Z := Z.max kMinK (Z.min (Z.quot precision 5) kMaxK).

Section kll.
Context `{AbslText, GoogleSql}.

Definition ParseAndValidatePrecision (precision : option Z) : StatusOr Z :=
  match precision with
  | None => Ok kDefaultPrecision
  | Some p =>
      if (p <? kMinPrecision)%Z || (kMaxPrecision <? p)%Z
      then Err (bad_argument ($"KLL_QUANTILES.INIT precision must be in [" ++ StrInt kMinPrecision ++ $", " ++
                  StrInt kMaxPrecision ++ $"]"))
      else Ok p
  end.

Definition ParseAndValidateNumQuantiles (num_quantiles : Z) : StatusOr Z :=
  if (num_quantiles <=? 0)%Z || (kMaxNumQuantiles <? num_quantiles)%Z
  then Err (bad_argument ($"KLL_QUANTILES num_quantiles must be in (0, " ++ StrInt kMaxNumQuantiles ++ $"]"))
  else Ok num_quantiles.

(** [value < 0.0 || value > 1.0] is false of NaN. *)
Definition ParseAndValidatePhi (phi : Value) : StatusOr spec_float :=
  match phi with
  | SDouble d | SFloat d =>
      if SFltb d dbl_zero || SFltb (dbl_of_Z 1) d
      then Err (bad_argument $"KLL_QUANTILES phi must be between 0 and 1") else Ok d
  | _ => Err (bad_argument $"KLL_QUANTILES phi must be FLOAT64")
  end.

Definition ParseAndValidateWeight (weight : Value) : StatusOr Z :=
  match weight with
  | SNull _ => Ok 1%Z
  | SInt64 value =>
      if (value <? kMinWeight)%Z || (kMaxWeight <? value)%Z
      then Err (bad_argument ($"KLL_QUANTILES weight must be in [" ++ StrInt kMinWeight ++ $", " ++
                  StrInt kMaxWeight ++ $"]"))
      else Ok value
  | _ => Err (bad_argument $"KLL_QUANTILES weight must be INT64")
  end.

Fixpoint first_int64 (l : list Value) : option Z :=
  match l with
  | [] => None
  | SInt64 z :: _ => Some z
  | _ :: l => first_int64 l
  end.

Definition FirstNonNullInt64 (columns : list (list Value)) (column_index : nat) : option Z :=
  column ← columns !! column_index; first_int64 column.

(** ** The envelope *)

Definition type_byte (type : SketchType) : Z :=
  match type with kInt64 => kSketchTypeInt64 | kFloat64 => kSketchTypeFloat64 end.

Definition SerializeSketchBytes (type : SketchType) (ds_payload : str) : str :=
  kKllMagic ++ [byteof (type_byte type)] ++ ds_payload.

Definition ParseSketchEnvelope (bytes : str) : StatusOr (SketchType * str) :=
  match bytes with
  | m0 :: m1 :: m2 :: t :: payload =>
      if negb (bool_decide ([m0; m1; m2] = kKllMagic)) then Err InvalidSketch
      else if (byteval t =? kSketchTypeInt64)%Z then Ok (kInt64, payload)
      else if (byteval t =? kSketchTypeFloat64)%Z then Ok (kFloat64, payload)
      else Err InvalidSketch
  | _ => Err InvalidSketch
  end.

(** ** Sketches *)

(** [datasketches::kll_sketch<T>]; [None] is a [std::exception] of [deserialize].
    The smallest, the largest item and the quantiles are of a sketch that is not
    empty. *)
Record SketchOps (T S : Type) := mkSketchOps {
  sk_new : Z -> S;
  sk_update : S -> T -> S;
  sk_merge : S -> S -> S;
  sk_k : S -> Z;
  sk_is_empty : S -> bool;
  sk_min : S -> T;
  sk_max : S -> T;
  sk_quantile : S -> spec_float -> T;
  sk_serialize : S -> str;
  sk_deserialize : str -> option S;
}.
Arguments sk_new {T S}. Arguments sk_update {T S}. Arguments sk_merge {T S}. Arguments sk_k {T S}.
Arguments sk_is_empty {T S}. Arguments sk_min {T S}. Arguments sk_max {T S}. Arguments sk_quantile {T S}.
Arguments sk_serialize {T S}. Arguments sk_deserialize {T S}.

(** A template instance: the sketch class, its tag, and the values of its items. *)
Record Instantiation := mkInstantiation {
  item : Type;
  sketch : Type;
  ops : SketchOps item sketch;
  type_tag : SketchType;
  item_of : Value -> item;
  value_of : item -> Value;
  null_item : Value;
}.

Section templates.
Context (I : Instantiation).


Definition SerializeTypedSketch (s : sketch I) : str := SerializeSketchBytes (type_tag I) (sk_serialize (ops I) s).

Definition DeserializeDataSketchesSketch (payload : str) : StatusOr (sketch I) :=
  match sk_deserialize (ops I) payload with Some s => Ok s | None => Err InvalidSketch end.

Definition DeserializeTypedSketch (bytes : str) : StatusOr (sketch I) :=
  envelope ← ParseSketchEnvelope bytes;
  if bool_decide (envelope.1 = type_tag I) then DeserializeDataSketchesSketch envelope.2
  else Err (TypeMismatch (type_tag I)).

Definition UpdateWithWeight (s : sketch I) (x : item I) (weight : Z) : sketch I :=
  Nat.iter (Z.to_nat weight) (fun s => sk_update (ops I) s x) s.

(** [static_cast<double>(i) / static_cast<double>(num_quantiles)] *)
Definition quantile_rank (num_quantiles : Z) (i : nat) : spec_float :=
  dbl_div (dbl_of_Z (Z.of_nat i)) (dbl_of_Z num_quantiles).

Definition BuildQuantileArray (s : sketch I) (num_quantiles : Z) (return_type : option SqlType) : StatusOr Value :=
  if sk_is_empty (ops I) s then Err (bad_argument $"KLL_QUANTILES sketch is empty")
  else match return_type with
  | Some (TArray e) =>
      Ok (SArray e (map (value_of I)
        ([sk_min (ops I) s] ++
         map (fun i => sk_quantile (ops I) s (quantile_rank num_quantiles i)) (seq 1 (Z.to_nat num_quantiles - 1)) ++
         [sk_max (ops I) s])))
  | _ => Err (bad_argument $"KLL_QUANTILES extract requires ARRAY return type")
  end.

(** The rows with their weights; [None] when there is no weight column. *)
Fixpoint init_loop (input_kind : TypeKind) (inputs : list Value) (weights : option (list Value))
    (s : sketch I) (saw_non_null : bool) : StatusOr (sketch I * bool) :=
  match inputs with
  | [] => Ok (s, saw_non_null)
  | input :: inputs =>
      let rest := tail <$> weights in
      if is_null input then init_loop input_kind inputs rest s saw_non_null
      else if negb (is_kind input input_kind) then Err (bad_argument $"KLL_QUANTILES.INIT input type mismatch")
      else
        weight ← match weights with
                 | None => Ok 1%Z
                 | Some ws => ParseAndValidateWeight (default SInvalid (head ws))
                 end;
        init_loop input_kind inputs rest (UpdateWithWeight s (item_of I input) weight) true
  end.

Definition InitAggregateImpl (columns : list (list Value)) (input_kind : TypeKind) : StatusOr Value :=
  match columns with
  | [] => Err (bad_argument $"KLL_QUANTILES.INIT expects one argument")
  | inputs :: _ =>
      precision ← ParseAndValidatePrecision (FirstNonNullInt64 columns 1);
      result ← init_loop input_kind inputs (columns !! 2) (sk_new (ops I) (PrecisionToK precision)) false;
      if result.2 : bool then Ok (SBytes (SerializeTypedSketch result.1)) else Ok NullBytes
  end.

Fixpoint parse_sketches (inputs : list Value) : StatusOr (list (sketch I)) :=
  match inputs with
  | [] => Ok []
  | v :: inputs =>
      if is_null v then parse_sketches inputs
      else if negb (is_kind v TYPE_BYTES) then Err (bad_argument $"KLL_QUANTILES merge inputs must be BYTES")
      else parsed ← DeserializeTypedSketch (bytes_value v);
           rest ← parse_sketches inputs;
           Ok (parsed :: rest)
  end.

(** The smallest [k] of the sketches. *)
Definition min_k (first : sketch I) (rest : list (sketch I)) : Z :=
  fold_left (fun k s => if (sk_k (ops I) s <? k)%Z then sk_k (ops I) s else k) rest (sk_k (ops I) first).

Definition MergeSketchesImpl (columns : list (list Value)) : StatusOr (sketch I) :=
  match columns with
  | [] => Err (bad_argument $"KLL_QUANTILES merge expects one argument")
  | inputs :: _ =>
      sketches ← parse_sketches inputs;
      match sketches with
      | [] => Err (bad_argument $"KLL_QUANTILES merge received only NULL sketches")
      | s :: rest => Ok (fold_left (sk_merge (ops I)) sketches (sk_new (ops I) (min_k s rest)))
      end
  end.

(** [status().message().find("only NULL") != npos] *)
Definition only_null (e : Status) : bool := str_contains (message e) $"only NULL".

Definition MergePartialImpl (columns : list (list Value)) : StatusOr Value :=
  match MergeSketchesImpl columns with
  | Err e => if only_null e then Ok NullBytes else Err e
  | Ok merged => Ok (SBytes (SerializeTypedSketch merged))
  end.

Definition ExtractScalarImpl (args : list Value) (return_type : option SqlType) : StatusOr Value :=
  match args with
  | [s; n] =>
      if is_null s then Ok (match return_type with Some t => SNull t | None => SInvalid end)
      else if negb (is_kind s TYPE_BYTES) then Err (bad_argument $"KLL_QUANTILES.EXTRACT expects BYTES sketch")
      else if is_null n then Err (bad_argument $"KLL_QUANTILES.EXTRACT num_quantiles must not be NULL")
      else if negb (is_kind n TYPE_INT64)
      then Err (bad_argument $"KLL_QUANTILES.EXTRACT num_quantiles must be INT64")
      else
        num_quantiles ← ParseAndValidateNumQuantiles (int64_value n);
        s ← DeserializeTypedSketch (bytes_value s);
        BuildQuantileArray s num_quantiles return_type
  | _ => Err (bad_argument $"KLL_QUANTILES.EXTRACT expects two arguments")
  end.

Definition ExtractPointScalarImpl (args : list Value) : StatusOr Value :=
  match args with
  | [s; phi] =>
      if is_null s then Ok (null_item I)
      else if negb (is_kind s TYPE_BYTES) then Err (bad_argument $"KLL_QUANTILES.EXTRACT_POINT expects BYTES sketch")
      else if is_null phi then Err (bad_argument $"KLL_QUANTILES.EXTRACT_POINT phi must not be NULL")
      else
        phi ← ParseAndValidatePhi phi;
        s ← DeserializeTypedSketch (bytes_value s);
        if sk_is_empty (ops I) s then Err (bad_argument $"KLL_QUANTILES sketch is empty")
        else Ok (value_of I (sk_quantile (ops I) s phi))
  | _ => Err (bad_argument $"KLL_QUANTILES.EXTRACT_POINT expects two arguments")
  end.

Definition MergeAndExtractImpl (columns : list (list Value)) (return_type : option SqlType) : StatusOr Value :=
  match MergeSketchesImpl columns with
  | Err e => if only_null e then Ok (match return_type with Some t => SNull t | None => SInvalid end) else Err e
  | Ok merged =>
      match FirstNonNullInt64 columns 1 with
      | None => Err (bad_argument $"KLL_QUANTILES.MERGE num_quantiles must not be NULL")
      | Some n =>
          num_quantiles ← ParseAndValidateNumQuantiles n;
          BuildQuantileArray merged num_quantiles return_type
      end
  end.

Definition MergeAndExtractPointImpl (columns : list (list Value)) : StatusOr Value :=
  match MergeSketchesImpl columns with
  | Err e => if only_null e then Ok (null_item I) else Err e
  | Ok merged =>
      match columns !! 1 ≫= head with
      | None => Err (bad_argument $"KLL_QUANTILES.MERGE_POINT phi must not be NULL")
      | Some phi_value =>
          if is_null phi_value then Err (bad_argument $"KLL_QUANTILES.MERGE_POINT phi must not be NULL")
          else
            phi ← ParseAndValidatePhi phi_value;
            if sk_is_empty (ops I) merged then Err (bad_argument $"KLL_QUANTILES sketch is empty")
            else Ok (value_of I (sk_quantile (ops I) merged phi))
      end
  end.
End templates.

(** ** The functions *)

Context {Int64Sketch Float64Sketch : Type} (int64_ops : SketchOps Z Int64Sketch)
  (float64_ops : SketchOps spec_float Float64Sketch).

(** [input.type_kind() == TYPE_DOUBLE ? input.double_value() : input.float_value()] *)
Definition float64_item (v : Value) : spec_float := match v with SDouble d | SFloat d => d | _ => dbl_zero end.

Definition int64_instance : Instantiation :=
  mkInstantiation Z Int64Sketch int64_ops kInt64 int64_value SInt64 NullInt64.
Definition float64_instance : Instantiation :=
  mkInstantiation spec_float Float64Sketch float64_ops kFloat64 float64_item SDouble NullDouble.

(** The columns [InitAggregateImpl] is given: a missing precision is filled in only
    in front of weights. *)
Definition init_columns (input_values : list Value) (precision : option Z) (weights : option (list Value))
    : list (list Value) :=
  [input_values] ++
  match precision, weights with
  | Some p, _ => [[SInt64 p]]
  | None, Some _ => [[SInt64 kDefaultPrecision]]
  | None, None => []
  end ++
  match weights with Some ws => [ws] | None => [] end.

Definition KllQuantilesInitInt64Values (input_values : list Value) (precision : option Z)
    (weights : option (list Value)) : StatusOr Value :=
  InitAggregateImpl int64_instance (init_columns input_values precision weights) TYPE_INT64.

Definition KllQuantilesInitFloat64Values (input_values : list Value) (precision : option Z)
    (weights : option (list Value)) : StatusOr Value :=
  InitAggregateImpl float64_instance (init_columns input_values precision weights) TYPE_DOUBLE.

Definition KllQuantilesInitInt64Aggregate (columns : list (list Value)) : StatusOr Value :=
  KllQuantilesInitInt64Values (default [] (columns !! 0)) (FirstNonNullInt64 columns 1) (columns !! 2).

Definition KllQuantilesInitFloat64Aggregate (columns : list (list Value)) : StatusOr Value :=
  KllQuantilesInitFloat64Values (default [] (columns !! 0)) (FirstNonNullInt64 columns 1) (columns !! 2).

Definition KllQuantilesMergePartialAggregate (columns : list (list Value)) : StatusOr Value :=
  match List.find (fun v => negb (is_null v)) (default [] (columns !! 0)) with
  | None => Ok NullBytes
  | Some first_non_null =>
      envelope ← ParseSketchEnvelope (bytes_value first_non_null);
      match envelope.1 with
      | kInt64 => MergePartialImpl int64_instance columns
      | kFloat64 => MergePartialImpl float64_instance columns
      end
  end.

Definition KllQuantilesMergeInt64Aggregate (columns : list (list Value)) (rt : option SqlType) : StatusOr Value :=
  MergeAndExtractImpl int64_instance columns rt.
Definition KllQuantilesMergeFloat64Aggregate (columns : list (list Value)) (rt : option SqlType) : StatusOr Value :=
  MergeAndExtractImpl float64_instance columns rt.
Definition KllQuantilesMergePointInt64Aggregate (columns : list (list Value)) : StatusOr Value :=
  MergeAndExtractPointImpl int64_instance columns.
Definition KllQuantilesMergePointFloat64Aggregate (columns : list (list Value)) : StatusOr Value :=
  MergeAndExtractPointImpl float64_instance columns.
Definition KllQuantilesExtractInt64Scalar (args : list Value) (rt : option SqlType) : StatusOr Value :=
  ExtractScalarImpl int64_instance args rt.
Definition KllQuantilesExtractFloat64Scalar (args : list Value) (rt : option SqlType) : StatusOr Value :=
  ExtractScalarImpl float64_instance args rt.
Definition KllQuantilesExtractPointInt64Scalar (args : list Value) : StatusOr Value :=
  ExtractPointScalarImpl int64_instance args.
Definition KllQuantilesExtractPointFloat64Scalar (args : list Value) : StatusOr Value :=
  ExtractPointScalarImpl float64_instance args.

(** ** What the library promises *)

(** [fed s l]: the sketch [s] was given the items [l].  The smallest and the largest
    item are exact, a quantile is one of the items, and a serialized sketch reads
    back. *)
Class SketchLaws (fed : Int64Sketch -> list Z -> Prop) : Prop := {
  fed_new k : (kMinK <= k <= kMaxK)%Z -> fed (sk_new int64_ops k) [];
  fed_update s l x : fed s l -> fed (sk_update int64_ops s x) (l ++ [x]);
  fed_merge s t l m : fed s l -> fed t m -> fed (sk_merge int64_ops s t) (l ++ m);
  fed_empty s l : fed s l -> sk_is_empty int64_ops s = true -> l = [];
  fed_not_empty s l : fed s l -> sk_is_empty int64_ops s = false -> l <> [];
  fed_min s l : fed s l -> l <> [] -> sk_min int64_ops s ∈ l /\ Forall (fun x => sk_min int64_ops s <= x)%Z l;
  fed_max s l : fed s l -> l <> [] -> sk_max int64_ops s ∈ l /\ Forall (fun x => x <= sk_max int64_ops s)%Z l;
  fed_quantile s l r : fed s l -> l <> [] -> sk_quantile int64_ops s r ∈ l;
  fed_k s l : fed s l -> (kMinK <= sk_k int64_ops s <= kMaxK)%Z;
  fed_serialize s l : fed s l ->
    exists s', sk_deserialize int64_ops (sk_serialize int64_ops s) = Some s' /\ fed s' l;
}.

Context (fed : Int64Sketch -> list Z -> Prop) `{!SketchLaws fed}.

(** A column of INT64, [None] for NULL. *)
Definition int64_column (l : list (option Z)) : list Value :=
  map (fun x => match x with Some z => SInt64 z | None => NullInt64 end) l.

Definition present (l : list (option Z)) : list Z := omap id l.

Lemma PrecisionToK_bounds p : (kMinK <= PrecisionToK p <= kMaxK)%Z.
Proof. unfold PrecisionToK, kMinK, kMaxK. lia. Qed.

Lemma init_loop_fed l s acc b : fed s acc ->
  exists s', init_loop int64_instance TYPE_INT64 (int64_column l) None s b =
    Ok (s', b || bool_decide (present l <> [])) /\ fed s' (acc ++ present l).
Proof.
  revert s acc b. induction l as [|[z|] l IH]; intros s acc b F.
  - exists s. split; [|by rewrite app_nil_r]. cbn. by rewrite orb_false_r.
  - destruct (IH (sk_update int64_ops s z) (acc ++ [z]) true) as (s' & E & F'); [by apply fed_update|].
    exists s'. split; [|by rewrite <- app_assoc in F'].
    rewrite (bool_decide_eq_true_2 (present (Some z :: l) <> [])) by done. rewrite orb_true_r. exact E.
  - destruct (IH s acc b F) as (s' & E & F'). exists s'. by split.
Qed.

Lemma envelope_roundtrip (t : SketchType) (payload : str) :
  ParseSketchEnvelope (SerializeSketchBytes t payload) = Ok (t, payload).
Proof. by destruct t. Qed.

Lemma deserialize_serialized s l : fed s l ->
  exists s', DeserializeTypedSketch int64_instance (SerializeTypedSketch int64_instance s) = Ok s' /\ fed s' l.
Proof.
  intros F. destruct (fed_serialize s l F) as (s' & E & F'). exists s'. split; [|done].
  unfold DeserializeTypedSketch, SerializeTypedSketch. rewrite envelope_roundtrip. cbn [mbind outcome_bind fst snd].
  rewrite bool_decide_true by done. unfold DeserializeDataSketchesSketch. cbn in *.
  by rewrite E.
Qed.

(** INIT of a column: NULL without an item, else a sketch that was fed the items. *)
Lemma init_spec l precision :
  match precision with Some p => (kMinPrecision <= p <= kMaxPrecision)%Z | None => True end ->
  exists v, KllQuantilesInitInt64Values (int64_column l) precision None = Ok v /\
    (v = NullBytes /\ present l = [] \/
     exists s, v = SBytes (SerializeTypedSketch int64_instance s) /\ fed s (present l) /\ present l <> []).
Proof.
  intros P. unfold KllQuantilesInitInt64Values, InitAggregateImpl, init_columns.
  assert (exists p, ParseAndValidatePrecision (FirstNonNullInt64 ([int64_column l] ++
    match precision with Some p => [[SInt64 p]] | None => [] end ++ []) 1) = Ok p) as [p Ep].
  { destruct precision as [p|]; [|by eexists]. exists p. cbn. unfold kMinPrecision, kMaxPrecision in *.
    rewrite (proj2 (Z.ltb_ge _ _)), (proj2 (Z.ltb_ge _ _)) by lia. done. }
  destruct (init_loop_fed l (sk_new int64_ops (PrecisionToK p)) [] false) as (s & E & F).
  { apply fed_new, PrecisionToK_bounds. }
  assert (forall (cols : list (list Value)), ParseAndValidatePrecision (FirstNonNullInt64 (int64_column l :: cols) 1)
    = Ok p -> (int64_column l :: cols) !! 2 = None ->
    InitAggregateImpl int64_instance (int64_column l :: cols) TYPE_INT64 =
    if bool_decide (present l <> []) then Ok (SBytes (SerializeTypedSketch int64_instance s)) else Ok NullBytes) as K.
  { intros cols Ec En. unfold InitAggregateImpl. rewrite Ec, En. cbn [mbind outcome_bind].
    change (init_loop int64_instance TYPE_INT64 (int64_column l) None _ false) with
      (init_loop int64_instance TYPE_INT64 (int64_column l) None (sk_new int64_ops (PrecisionToK p)) false).
    rewrite E. cbn [mbind outcome_bind orb snd fst].
    by destruct (bool_decide _). }
  unfold InitAggregateImpl in K.
  destruct precision as [q|]; cbn [app] in Ep |- *; rewrite (K _ Ep eq_refl); case_bool_decide as N.
  all: eexists; split; [reflexivity|]; first [right; by eexists|left; split; [done|]; by destruct (present l)].
Qed.

(** A NULL, or the bytes of a sketch of some items. *)
Definition partial (v : Value) (l : list Z) : Prop :=
  v = NullBytes /\ l = [] \/
  exists s, v = SBytes (SerializeTypedSketch int64_instance s) /\ fed s l /\ l <> [].

Lemma parse_partials vs ls : Forall2 partial vs ls ->
  exists ss ls', parse_sketches int64_instance vs = Ok ss /\ Forall2 fed ss ls' /\ concat ls' = concat ls /\
    Forall (fun l => l <> []) ls'.
Proof.
  induction 1 as [|v l vs ls P _ (ss & ls' & E & F & C & N)]; [by exists [], []|].
  destruct P as [[-> ->]|(s & -> & Fs & Ns)].
  - exists ss, ls'. by split.
  - destruct (deserialize_serialized s l Fs) as (s' & E' & F'). exists (s' :: ss), (l :: ls').
    split; [|split; [by constructor|split; [cbn; by rewrite C|by constructor]]].
    cbn [parse_sketches is_null]. change (negb _) with false. cbn [bytes_value]. cbv iota. rewrite E'.
    cbn [mbind outcome_bind]. by rewrite E.
Qed.

Lemma fold_merge_fed ss ls s acc : Forall2 fed ss ls -> fed s acc ->
  fed (fold_left (sk_merge int64_ops) ss s) (acc ++ concat ls).
Proof.
  intros F. revert s acc. induction F as [|t l ss ls Ft _ IH]; intros s acc Fs; [by rewrite app_nil_r|].
  cbn. rewrite app_assoc. apply IH. by apply fed_merge.
Qed.

Lemma min_k_bounds s ss l ls : fed s l -> Forall2 fed ss ls ->
  (kMinK <= min_k int64_instance s ss <= kMaxK)%Z.
Proof.
  intros F Fs. unfold min_k. change (ops int64_instance) with int64_ops.
  pose proof (fed_k s l F) as K. change (item int64_instance) with Z. change (sketch int64_instance) with Int64Sketch.
  generalize dependent (sk_k int64_ops s). induction Fs as [|t m ss ls Ft _ IH]; intros k K; [done|].
  cbn [fold_left]. apply IH. pose proof (fed_k t m Ft). by destruct (_ <? _)%Z.
Qed.

(** Merging sketches is a sketch of all their items, an error saying so when every
    input is NULL. *)
Lemma merge_spec vs ls cols : Forall2 partial vs ls ->
  if bool_decide (concat ls = [])
  then exists e, MergeSketchesImpl int64_instance (vs :: cols) = Err e /\ only_null e = true
  else exists s, MergeSketchesImpl int64_instance (vs :: cols) = Ok s /\ fed s (concat ls).
Proof.
  intros P. destruct (parse_partials vs ls P) as (ss & ls' & E & F & C & N). unfold MergeSketchesImpl. rewrite E.
  cbn [mbind outcome_bind]. rewrite <- C. destruct F as [|s l ss ls' Fs Fss].
  - rewrite bool_decide_true by done. eexists. split; [reflexivity|]. by vm_compute.
  - apply Forall_cons in N as [N _]. rewrite bool_decide_false by (cbn; by destruct l). eexists. split; [reflexivity|].
    apply (fold_merge_fed (s :: ss) (l :: ls') _ []); [by constructor|]. apply fed_new. by eapply min_k_bounds.
Qed.

Lemma partials_first vs ls : Forall2 partial vs ls ->
  match List.find (fun v => negb (is_null v)) vs with
  | None => concat ls = []
  | Some v => concat ls <> [] /\ exists s, v = SBytes (SerializeTypedSketch int64_instance s)
  end.
Proof.
  induction 1 as [|v l vs ls P _ IH]; [done|]. destruct P as [[-> ->]|(s & -> & _ & N)]; [exact IH|].
  cbn. split; [by destruct l|]. by exists s.
Qed.

Lemma merge_partial_spec vs ls cols : Forall2 partial vs ls ->
  exists v, KllQuantilesMergePartialAggregate (vs :: cols) = Ok v /\ partial v (concat ls).
Proof.
  intros P. unfold KllQuantilesMergePartialAggregate. cbn [lookup list_lookup default from_option].
  change (id vs) with vs.
  pose proof (partials_first vs ls P) as F. destruct (List.find _ vs) as [v|].
  - destruct F as [N [s ->]]. cbn [bytes_value]. unfold SerializeTypedSketch at 1. rewrite envelope_roundtrip.
    cbn [mbind outcome_bind fst type_tag int64_instance]. unfold MergePartialImpl.
    pose proof (merge_spec vs ls cols P) as M. rewrite bool_decide_false in M by done. destruct M as (m & -> & Fm).
    eexists. split; [reflexivity|]. right. by exists m.
  - exists NullBytes. split; [done|]. by left.
Qed.

(** The values INIT makes of columns, and what MERGE_PARTIAL makes of such values,
    with the items that went into them. *)
Inductive sketch_of : Value -> list Z -> Prop :=
| of_init l precision v :
    match precision with Some p => (kMinPrecision <= p <= kMaxPrecision)%Z | None => True end ->
    KllQuantilesInitInt64Values (int64_column l) precision None = Ok v -> sketch_of v (present l)
| of_merge vs l v cols :
    sketches_of vs l -> KllQuantilesMergePartialAggregate (vs :: cols) = Ok v -> sketch_of v l
with sketches_of : list Value -> list Z -> Prop :=
| no_sketches : sketches_of [] []
| more_sketches v vs l m : sketch_of v l -> sketches_of vs m -> sketches_of (v :: vs) (l ++ m).

Scheme sketch_of_mut := Minimality for sketch_of Sort Prop
  with sketches_of_mut := Minimality for sketches_of Sort Prop.

Lemma sketches_partial vs l : sketches_of vs l -> exists ls, Forall2 partial vs ls /\ concat ls = l.
Proof.
  apply (sketches_of_mut partial (fun vs l => exists ls, Forall2 partial vs ls /\ concat ls = l)).
  - intros l' p v P E. destruct (init_spec l' p P) as (v' & E' & R). rewrite E in E'. injection E' as ->. exact R.
  - intros vs' l' v cols _ (ls & F & <-) E. destruct (merge_partial_spec vs' ls cols F) as (v' & E' & R).
    rewrite E in E'. injection E' as ->. exact R.
  - by exists [].
  - intros v vs' l' m _ P _ (ls & F & <-). exists (l' :: ls). split; [by constructor|done].
Qed.

(** KLL_QUANTILES.MERGE_INT64 over sketches made by INIT and MERGE_PARTIAL in any
    nesting returns one more value than quantiles asked for: the first is the
    smallest and the last the largest of all the items that went into the
    sketches, and each is one of them.  Without an item the result is NULL. *)
Theorem kll_merge_exact vs l n t :
  sketches_of vs l -> (1 <= n <= kMaxNumQuantiles)%Z ->
  (l = [] -> KllQuantilesMergeInt64Aggregate [vs; [SInt64 n]] (Some (TArray t)) = Ok (SNull (TArray t))) /\
  (l <> [] -> exists lo mid hi,
     KllQuantilesMergeInt64Aggregate [vs; [SInt64 n]] (Some (TArray t)) =
       Ok (SArray t (map SInt64 ([lo] ++ mid ++ [hi]))) /\
     Z.of_nat (length mid) = (n - 1)%Z /\
     lo ∈ l /\ Forall (fun x => lo <= x)%Z l /\ hi ∈ l /\ Forall (fun x => x <= hi)%Z l /\
     Forall (fun q => q ∈ l) mid).
Proof.
  intros K N. destruct (sketches_partial vs l K) as (ls & P & <-). pose proof (merge_spec vs ls [[SInt64 n]] P) as M.
  unfold KllQuantilesMergeInt64Aggregate, MergeAndExtractImpl. split; intros L.
  - rewrite bool_decide_true in M by done. destruct M as (e & -> & ->). done.
  - rewrite bool_decide_false in M by done. destruct M as (s & -> & F).
    assert (ParseAndValidateNumQuantiles n = Ok n) as Q.
    { unfold ParseAndValidateNumQuantiles. rewrite (proj2 (Z.leb_gt _ _)), (proj2 (Z.ltb_ge _ _)) by lia. done. }
    change (FirstNonNullInt64 [vs; [SInt64 n]] 1) with (Some n). cbv iota. rewrite Q. cbn [mbind outcome_bind].
    unfold BuildQuantileArray. cbn [ops int64_instance value_of item sketch].
    destruct (sk_is_empty int64_ops s) eqn:Em; [by apply (fed_empty _ _ F) in Em|].
    do 3 eexists. split; [reflexivity|]. rewrite length_map, length_seq. split; [lia|].
    destruct (fed_min s _ F L), (fed_max s _ F L). do 4 (split; [done|]).
    apply Forall_forall. intros q (i & -> & _)%list_elem_of_fmap. by apply fed_quantile.
Qed.
End kll.

(** ** A concrete library: a sketch keeps its items *)

Module KllReference.
Import Reference.

Fixpoint bits_text (p : positive) : str :=
  match p with xH => [] | xO p => "0"%char :: bits_text p | xI p => "1"%char :: bits_text p end.

Fixpoint text_bits (s : str) : positive :=
  match s with
  | [] => xH
  | c :: s => if bool_decide (c = "0"%char) then xO (text_bits s) else xI (text_bits s)
  end.

Lemma text_bits_text p : text_bits (bits_text p) = p.
Proof. induction p as [p IH|p IH|]; cbn; by rewrite ?IH. Qed.

Definition item_at (l : list Z) (r : spec_float) : Z := default 0%Z (head l).

Definition kept_items : SketchOps Z (Z * list Z) :=
  mkSketchOps _ _ (fun k => (k, [])) (fun s x => (s.1, s.2 ++ [x])) (fun s t => (s.1, s.2 ++ t.2)) fst
    (fun s => bool_decide (s.2 = [])) (fun s => fold_right Z.min (default 0%Z (head s.2)) s.2)
    (fun s => fold_right Z.max (default 0%Z (head s.2)) s.2) (fun s => item_at s.2)
    (fun s => bits_text (encode s)) (fun t => decode (text_bits t)).

Definition fed (s : Z * list Z) (l : list Z) : Prop := (kMinK <= s.1 <= kMaxK)%Z /\ s.2 = l.

Lemma fold_choice (f : Z -> Z -> Z) (R : Z -> Z -> Prop) l d :
  (forall x y, f x y = x \/ f x y = y) -> (forall x y, R (f x y) x /\ R (f x y) y) ->
  (forall x y z, R x y -> R y z -> R x z) -> (forall x, R x x) -> d ∈ l ->
  fold_right f d l ∈ l /\ Forall (R (fold_right f d l)) l.
Proof.
  intros C B T Rf D. assert (fold_right f d l ∈ d :: l /\ Forall (R (fold_right f d l)) (d :: l)) as [E F].
  { clear D. induction l as [|x l [E F]]; cbn [fold_right].
    - split; [left|by constructor].
    - split.
      + destruct (C x (fold_right f d l)) as [->| ->]; [right; left|]. apply elem_of_cons in E as [->|E]; [left|].
        right. by right.
      + apply Forall_cons in F as [Fd F]. destruct (B x (fold_right f d l)) as [B1 B2].
        constructor; [by eapply T|]. constructor; [done|]. apply (Forall_impl _ _ _ F). intros y Y. by eapply T. }
  apply Forall_cons in F as [_ F]. split; [|done]. apply elem_of_cons in E as [->|E]; done.
Qed.

#[export] Instance kept_items_laws : SketchLaws kept_items fed.
Proof.
  unfold fed. split.
  - intros k K. done.
  - intros s l x [K <-]. done.
  - intros s t l m [K <-] [_ <-]. done.
  - intros s l [_ <-]. cbn. by rewrite bool_decide_eq_true.
  - intros s l [_ <-]. cbn. by rewrite bool_decide_eq_false.
  - intros s l [_ <-] N. apply fold_choice; try lia. destruct (s.2); [done|left].
  - intros s l [_ <-] N. apply (fold_choice Z.max (fun a b => b <= a)%Z); try lia. destruct (s.2); [done|left].
  - intros s l r [_ <-] N. cbn. unfold item_at. destruct (s.2); [done|left].
  - by intros s l [K _].
  - intros s l F. exists s. split; [|done]. cbn. by rewrite text_bits_text, decode_encode.
Qed.

(** The sketches of [1, NULL, 5] and of [3], merged, with four quantiles. *)
Lemma kll_merge_exact_witness :
  exists vs lo mid hi,
    KllQuantilesMergeInt64Aggregate kept_items [vs; [SInt64 4]] (Some (TArray TInt64)) =
      Ok (SArray TInt64 (map SInt64 ([lo] ++ mid ++ [hi]))) /\ lo ∈ [1; 5; 3]%Z /\ hi ∈ [1; 5; 3]%Z.
Proof.
  set (v l := match KllQuantilesInitInt64Values kept_items (int64_column l) None None with Ok v => v | Err _ => SInvalid end).
  exists [v [Some 1; None; Some 5]%Z; v [Some 3]%Z].
  edestruct (kll_merge_exact (Float64Sketch := unit) kept_items
    (mkSketchOps _ _ (fun _ => ()) (fun s _ => s) (fun s _ => s) (fun _ => 0%Z) (fun _ => true) (fun _ => dbl_zero)
       (fun _ => dbl_zero) (fun _ _ => dbl_zero) (fun _ => []) (fun _ => None)) fed
    [v [Some 1; None; Some 5]%Z; v [Some 3]%Z] [1; 5; 3]%Z 4 TInt64) as [_ M].
  - apply (more_sketches kept_items _ _ _ [1; 5]%Z [3]%Z); [|apply (more_sketches kept_items _ _ _ [3]%Z [])].
    + apply (of_init kept_items _ [Some 1; None; Some 5]%Z None); [exact I|vm_compute; reflexivity].
    + apply (of_init kept_items _ [Some 3]%Z None); [exact I|vm_compute; reflexivity].
    + apply no_sketches.
  - vm_compute. split; congruence.
  - destruct M as (lo & mid & hi & E & _ & Lo & _ & Hi & _); [discriminate|].
    exists lo, mid, hi. split; [exact E|]. by split.
Defined.
End KllReference.
