(* ===== verification/DatetimeFuncs.v ===== *)
(** * DatetimeFuncs: dates, times and intervals

    Models [semantic/functions/datetime_helpers.cc], [datetime_add_sub.cc],
    [datetime_funcs.cc], [datetime_current_unix.cc], [datetime_parse_format.cc] and
    [datetime_funcs_constructors.cc].  GoogleSQL's date arithmetic, parsers and
    formatters and the clock are the class [DatetimeLibrary], next to those of
    [GoogleSqlOps] and [CastLibrary].  A time zone is its name. *)

From S2P Require Import Prelude Order Absl AbslReference Storage SemanticError SqlValue.
From S2P Require Import GoogleSqlReference Arithmetic Operators MathFuncs Casts EvalReference.

Class DatetimeLibrary `{GoogleSql} := {
  Part_DATE : Z;
  Part_WEEK : Z;
  Part_MONTH : Z;
  Part_QUARTER : Z;
  Part_YEAR : Z;
  LocalTimeZone : str;
  (** [absl::Now()] *)
  Now : AbslTime;
  time_ToUnixMicros : AbslTime -> Z;
  time_ToUnixPicos : AbslTime -> Z;
  FromUnixMicros : Z -> AbslTime;
  DiffDates : Z -> Z -> Z -> StatusOr Z;
  TruncateDate : Z -> Z -> StatusOr Z;
  DiffDatetimes : DatetimeValue -> DatetimeValue -> Z -> StatusOr Z;
  TruncateDatetime : DatetimeValue -> Z -> StatusOr DatetimeValue;
  AddDatetimePart : DatetimeValue -> Z -> Z -> StatusOr DatetimeValue;
  SubDatetimePart : DatetimeValue -> Z -> Z -> StatusOr DatetimeValue;
  TimestampDiff : Z -> Z -> Z -> StatusOr Z;
  TimestampTrunc : Z -> str -> Z -> StatusOr Z;
  (** the overload that is given the name of the zone *)
  TimestampTruncNamed : Z -> str -> Z -> StatusOr Z;
  AddTimestampPart : Z -> str -> Z -> Z -> StatusOr Z;
  SubTimestampPart : Z -> str -> Z -> Z -> StatusOr Z;
  DiffTimes : TimeValue -> TimeValue -> Z -> StatusOr Z;
  TruncateTime : TimeValue -> Z -> StatusOr TimeValue;
  AddTime : TimeValue -> Z -> Z -> StatusOr TimeValue;
  SubTime : TimeValue -> Z -> Z -> StatusOr TimeValue;
  lib_TimestampBucket : AbslTime -> IntervalValue -> AbslTime -> str -> StatusOr AbslTime;
  interval_Extract : IntervalValue -> Z -> StatusOr Z;
  lib_ExtractFromDate : Z -> Z -> StatusOr Z;
  lib_ExtractFromDatetime : Z -> DatetimeValue -> StatusOr Z;
  lib_ExtractFromTime : Z -> TimeValue -> StatusOr Z;
  lib_ExtractFromTimestamp : Z -> AbslTime -> str -> StatusOr Z;
  ExtractFromMicros : Z -> Z -> str -> StatusOr Z;
  Interval_FromYMDHMS : Z -> Z -> Z -> Z -> Z -> Z -> StatusOr IntervalValue;
  gsql_JustifyInterval : IntervalValue -> StatusOr IntervalValue;
  GenerateDates : Z -> Z -> Z -> Z -> StatusOr (list Z);
  GenerateTimes : AbslTime -> AbslTime -> Z -> Z -> StatusOr (list AbslTime);
  ConvertTimestampToTime : AbslTime -> str -> StatusOr TimeValue;
  IsValidTimestamp : Z -> bool;
  IsValidDate : Z -> bool;
  LastDayOfDate : Z -> Z -> StatusOr Z;
  LastDayOfDatetime : DatetimeValue -> Z -> StatusOr Z;
  ConvertDatetimeToTimestampNamed : DatetimeValue -> str -> StatusOr AbslTime;
  ConvertStringToTimestampIn : str -> str -> StatusOr Z;
  ConstructDate : Z -> Z -> Z -> StatusOr Z;
  ConstructDatetimeParts : Z -> Z -> Z -> Z -> Z -> Z -> StatusOr DatetimeValue;
  ConstructTime : Z -> Z -> Z -> StatusOr TimeValue;
  ExtractTimeFromDatetime : DatetimeValue -> StatusOr TimeValue;
  ParseStringToTimestampNamed : str -> str -> str -> StatusOr Z;
  ParseStringToTime : str -> str -> StatusOr TimeValue;
  FormatTimeToString : str -> TimeValue -> StatusOr str;
}.

Section datetime.
Context `{AbslText, AbslDouble, GoogleSqlOps} `{!CastLibrary, !DatetimeLibrary}.

Definition DefaultTimeZone : str := utc.

Definition NullIfAny (args : list Value) (return_type : option SqlType) : option Value :=
  if existsb is_null args then SNull <$> return_type else None.
Definition HasNull (args : list Value) : bool := existsb is_null args.

Definition PartFromArg (v : Value) : StatusOr Z := Operators.PartFromArg v.

Definition NullDate : Value := SNull TDate.
Definition NullDatetime : Value := SNull TDatetime.
Definition NullTime : Value := SNull TTime.
Definition NullTimestamp : Value := SNull TTimestamp.

(** The accessors of values whose payload has no default: on a value of another
    kind GoogleSQL aborts, which the analyzer's types exclude. *)
Definition check_failed : Status := InternalError $"value accessed as another type".
Definition datetime_value (v : Value) : StatusOr DatetimeValue :=
  match v with SDatetime d => Ok d | _ => Err check_failed end.
Definition time_value (v : Value) : StatusOr TimeValue :=
  match v with STime t => Ok t | _ => Err check_failed end.
Definition interval_value (v : Value) : StatusOr IntervalValue :=
  match v with SInterval i => Ok i | _ => Err check_failed end.

Definition value_ToTime (v : Value) : AbslTime := ToTime (ToUnixPicos v).
(** [Value::Timestamp(absl::Time)] *)
Definition TimestampOf (t : AbslTime) : Value := STimestamp (time_ToUnixPicos t).

Definition arguments_error (name n : str) : Status := InvalidArgumentError ($"semantic: " ++ name ++ $" expects " ++ n).

Definition CurrentUnixMicros : Z := time_ToUnixMicros Now.

Definition CurrentDateValue : StatusOr Z :=
  match ExtractFromMicros Part_DATE CurrentUnixMicros DefaultTimeZone with
  | Ok d => Ok d
  | Err _ => Err (InternalError $"semantic: failed to extract current DATE")
  end.

Definition CurrentDatetimeValue : StatusOr DatetimeValue :=
  match ConvertTimestampToDatetime Now LocalTimeZone with
  | Ok dt => Ok dt
  | Err _ => Err (InternalError $"semantic: failed to build current DATETIME")
  end.

Definition CurrentTimeValue : StatusOr TimeValue :=
  match ConvertTimestampToTime Now LocalTimeZone with
  | Ok t => Ok t
  | Err _ => Err (InternalError $"semantic: failed to build current TIME")
  end.

(** A DATE holds 32 bits. *)
Definition BuildDateArray (raw : list Z) (return_type : option SqlType) : StatusOr Value :=
  match return_type with
  | Some (TArray e) => Ok (SArray e (map (fun d => SDate (int32_of d)) raw))
  | _ => Err (InvalidArgumentError $"semantic: GENERATE_DATE_ARRAY requires ARRAY return type")
  end.

Definition BuildTimestampArray (micros : list Z) (return_type : option SqlType) : StatusOr Value :=
  match return_type with
  | Some (TArray e) => Ok (SArray e (map TimestampFromUnixMicros micros))
  | _ => Err (InvalidArgumentError $"semantic: GENERATE_TIMESTAMP_ARRAY requires ARRAY return type")
  end.

(** ** DATE *)

Definition DateDiffImpl (args : list Value) : StatusOr Value :=
  match args with
  | [a; b; p] =>
      if is_null p then Ok NullInt64
      else part ← PartFromArg p; SInt64 <$> DiffDates (date_value a) (date_value b) part
  | _ => Err (arguments_error $"DATE_DIFF" $"three arguments")
  end.

Definition DateTruncImpl (args : list Value) : StatusOr Value :=
  match args with
  | d :: p :: ([] | [_]) =>
      if HasNull (drop 1 args) then Ok NullDate
      else part ← PartFromArg p; SDate <$> TruncateDate (date_value d) part
  | _ => Err (arguments_error $"DATE_TRUNC" $"2 or 3 arguments")
  end.

Definition DateAddSubImpl (name : str) (args : list Value) : StatusOr Value :=
  match args with
  | [d; n; p] =>
      if is_null p then Ok NullDate
      else
        part ← PartFromArg p;
        SDate <$> (if bool_decide (name = $"date_add") then AddDate (date_value d) part (int64_value n)
                   else SubDate (date_value d) part (int64_value n))
  | _ => Err (arguments_error name $"three arguments")
  end.

(** ** DATETIME *)

Definition DatetimeDiffFromArgs (args : list Value) : StatusOr Value :=
  match args with
  | [a; b; p] =>
      if is_null p then Ok NullInt64
      else
        part ← PartFromArg p;
        x ← datetime_value a; y ← datetime_value b;
        SInt64 <$> DiffDatetimes x y part
  | _ => Err (arguments_error $"DATETIME_DIFF" $"three arguments")
  end.

Definition DatetimeTruncFromArgs (args : list Value) : StatusOr Value :=
  match args with
  | [d; p] =>
      if is_null p then Ok NullDatetime
      else part ← PartFromArg p; x ← datetime_value d; SDatetime <$> TruncateDatetime x part
  | _ => Err (arguments_error $"DATETIME_TRUNC" $"two arguments")
  end.

Definition DatetimeAddSubFromArgs (name : str) (args : list Value) : StatusOr Value :=
  match args with
  | [d; n; p] =>
      if is_null p then Ok NullDatetime
      else
        part ← PartFromArg p;
        x ← datetime_value d;
        if bool_decide (name = $"datetime_add") then SDatetime <$> AddDatetimePart x part (int64_value n)
        else if bool_decide (name = $"datetime_sub") then SDatetime <$> SubDatetimePart x part (int64_value n)
        else Err (InvalidArgumentError ($"semantic: unknown datetime function " ++ name))
  | _ => Err (arguments_error name $"three arguments")
  end.

Definition DatetimeAddSubDiffTrunc (name : str) (args : list Value) : StatusOr Value :=
  match args with
  | a :: b :: _ =>
      if is_null a || is_null b then Ok (null_like a)
      else if bool_decide (name = $"datetime_diff") then DatetimeDiffFromArgs args
      else if bool_decide (name = $"datetime_trunc") then DatetimeTruncFromArgs args
      else DatetimeAddSubFromArgs name args
  | _ => Err (arguments_error name $"at least two arguments")
  end.

Definition DateAddSubDiffTrunc (name : str) (args : list Value) : StatusOr Value :=
  match args with
  | a :: b :: _ =>
      let datetime := is_kind a TYPE_DATETIME in
      if datetime && bool_decide (name = $"date_diff") then DatetimeAddSubDiffTrunc $"datetime_diff" args
      else if datetime && bool_decide (name = $"date_trunc") then DatetimeAddSubDiffTrunc $"datetime_trunc" args
      else if is_null a || is_null b then Ok (null_like a)
      else if bool_decide (name = $"date_diff") then DateDiffImpl args
      else if bool_decide (name = $"date_trunc") then DateTruncImpl args
      else if bool_decide (name ∈ [$"date_add"; $"date_sub"]) then DateAddSubImpl name args
      else Err (InvalidArgumentError ($"semantic: unknown date function " ++ name))
  | _ => Err (arguments_error name $"at least two arguments")
  end.

(** ** TIMESTAMP *)

Definition ValueToUnixMicros (v : Value) : StatusOr Z :=
  if is_kind v TYPE_TIMESTAMP then Ok (ToUnixMicros v)
  else d ← datetime_value v; t ← ConvertDatetimeToTimestamp d; Ok (time_ToUnixMicros t).

Definition TimestampDiffFromArgs (args : list Value) : StatusOr Value :=
  match args with
  | [lhs; rhs; p] =>
      if is_null p then Ok NullInt64
      else
        part ← PartFromArg p;
        match lhs, rhs with
        | SDatetime x, SDatetime y => SInt64 <$> DiffDatetimes x y part
        | _, _ =>
            t0 ← ValueToUnixMicros lhs;
            t1 ← ValueToUnixMicros rhs;
            SInt64 <$> TimestampDiff t0 t1 part
        end
  | _ => Err (arguments_error $"TIMESTAMP_DIFF" $"three arguments")
  end.

Definition TimestampTruncFromArgs (args : list Value) : StatusOr Value :=
  match args with
  | t :: p :: ([] | [_]) =>
      if HasNull (drop 1 args) then Ok NullTimestamp
      else
        part ← PartFromArg p;
        out ← match args !! 2 with
              | None => TimestampTrunc (ToUnixMicros t) DefaultTimeZone part
              | Some zone => TimestampTruncNamed (ToUnixMicros t) (string_value zone) part
              end;
        Ok (TimestampFromUnixMicros out)
  | _ => Err (arguments_error $"TIMESTAMP_TRUNC" $"2 or 3 arguments")
  end.

Definition TimestampAddSubFromArgs (name : str) (args : list Value) : StatusOr Value :=
  match args with
  | [t; n; p] =>
      if is_null p then Ok NullTimestamp
      else
        part ← PartFromArg p;
        if bool_decide (name = $"timestamp_add")
        then TimestampFromUnixMicros <$> AddTimestampPart (ToUnixMicros t) DefaultTimeZone part (int64_value n)
        else if bool_decide (name = $"timestamp_sub")
        then TimestampFromUnixMicros <$> SubTimestampPart (ToUnixMicros t) DefaultTimeZone part (int64_value n)
        else Err (InvalidArgumentError ($"semantic: unknown timestamp function " ++ name))
  | _ => Err (arguments_error name $"three arguments")
  end.

Definition TimestampAddSubDiffTrunc (name : str) (args : list Value) : StatusOr Value :=
  match args with
  | a :: b :: _ =>
      if is_null a || is_null b then Ok NullTimestamp
      else if bool_decide (name = $"timestamp_diff") then TimestampDiffFromArgs args
      else if bool_decide (name = $"timestamp_trunc") then TimestampTruncFromArgs args
      else TimestampAddSubFromArgs name args
  | _ => Err (arguments_error name $"at least two arguments")
  end.

Definition TimestampBucket (args : list Value) : StatusOr Value :=
  match args with
  | t :: w :: ([] | [_]) =>
      if HasNull args then Ok NullTimestamp
      else if negb (is_kind t TYPE_TIMESTAMP)
      then Err (InvalidArgumentError $"semantic: TIMESTAMP_BUCKET first argument must be TIMESTAMP")
      else match w with
      | SInterval bucket_width =>
          origin ← match args !! 2 with
                   | Some o =>
                       if is_kind o TYPE_TIMESTAMP then Ok (value_ToTime o)
                       else Err (InvalidArgumentError $"semantic: TIMESTAMP_BUCKET origin must be TIMESTAMP")
                   | None => FromUnixMicros <$> ParseStringToTimestamp $"%F %T" $"1950-01-01 00:00:00"
                   end;
          TimestampOf <$> lib_TimestampBucket (value_ToTime t) bucket_width origin DefaultTimeZone
      | _ => Err (InvalidArgumentError $"semantic: TIMESTAMP_BUCKET second argument must be INTERVAL")
      end
  | _ => Err (arguments_error $"TIMESTAMP_BUCKET" $"2 or 3 arguments")
  end.

(** ** TIME *)

Definition TimeDiffFromArgs (args : list Value) : StatusOr Value :=
  match args with
  | [a; b; p] =>
      if is_null p then Ok NullInt64
      else part ← PartFromArg p; x ← time_value a; y ← time_value b; SInt64 <$> DiffTimes x y part
  | _ => Err (arguments_error $"TIME_DIFF" $"three arguments")
  end.

Definition TimeTruncFromArgs (args : list Value) : StatusOr Value :=
  match args with
  | [t; p] =>
      if is_null p then Ok NullTime
      else part ← PartFromArg p; x ← time_value t; STime <$> TruncateTime x part
  | _ => Err (arguments_error $"TIME_TRUNC" $"two arguments")
  end.

Definition TimeAddSubFromArgs (name : str) (args : list Value) : StatusOr Value :=
  match args with
  | [t; n; p] =>
      if is_null p then Ok NullTime
      else
        part ← PartFromArg p;
        x ← time_value t;
        if bool_decide (name = $"time_add") then STime <$> AddTime x part (int64_value n)
        else if bool_decide (name = $"time_sub") then STime <$> SubTime x part (int64_value n)
        else Err (InvalidArgumentError ($"semantic: unknown time function " ++ name))
  | _ => Err (arguments_error name $"three arguments")
  end.

Definition TimeAddSubDiffTrunc (name : str) (args : list Value) : StatusOr Value :=
  match args with
  | a :: b :: _ =>
      if is_null a || is_null b then Ok NullTime
      else if bool_decide (name = $"time_diff") then TimeDiffFromArgs args
      else if bool_decide (name = $"time_trunc") then TimeTruncFromArgs args
      else TimeAddSubFromArgs name args
  | _ => Err (arguments_error name $"at least two arguments")
  end.

(** ** Arrays of dates, EXTRACT, intervals *)

Record DateArrayStep := mkStep { step : Z; unit : Z }.

(** The first date part of an interval that is not zero, in the order tried. *)
Fixpoint interval_step (interval : IntervalValue) (parts : list Z) : StatusOr DateArrayStep :=
  match parts with
  | [] => Err (InvalidArgumentError
                 $"semantic: GENERATE_DATE_ARRAY step INTERVAL has no supported date part")
  | part :: parts =>
      match interval_Extract interval part with
      | Ok n => if (n =? 0)%Z then interval_step interval parts else Ok (mkStep n part)
      | Err _ => interval_step interval parts
      end
  end.

Definition ParseGenerateDateArrayStep (args : list Value) : StatusOr DateArrayStep :=
  match args !! 2 with
  | None | Some (SNull _) => Ok (mkStep 1 Part_DAY)
  | Some (SInterval interval) =>
      interval_step interval [Part_DAY; Part_WEEK; Part_MONTH; Part_QUARTER; Part_YEAR]
  | Some n =>
      match args !! 3 with
      | None => Ok (mkStep (int64_value n) Part_DAY)
      | Some p => part ← PartFromArg p; Ok (mkStep (int64_value n) part)
      end
  end.

Definition ExtractFromInterval (v : Value) (part : Z) : StatusOr Value :=
  i ← interval_value v; SInt64 <$> interval_Extract i part.
Definition ExtractFromDate (v : Value) (part : Z) : StatusOr Value :=
  SInt64 <$> lib_ExtractFromDate part (date_value v).
Definition ExtractFromDatetime (v : Value) (part : Z) : StatusOr Value :=
  d ← datetime_value v; SInt64 <$> lib_ExtractFromDatetime part d.
Definition ExtractFromTime (v : Value) (part : Z) : StatusOr Value :=
  t ← time_value v; SInt64 <$> lib_ExtractFromTime part t.

Definition ExtractFromTimestamp (v : Value) (part : Z) (args : list Value) : StatusOr Value :=
  tz ← match args with
       | [_; _; zone] => MakeTimeZone (string_value zone)
       | _ => Ok DefaultTimeZone
       end;
  SInt64 <$> lib_ExtractFromTimestamp part (value_ToTime v) tz.

Definition ExtractFromValue (v : Value) (part : Z) (args : list Value) : StatusOr Value :=
  match type_kind v with
  | TYPE_INTERVAL => ExtractFromInterval v part
  | TYPE_DATE => ExtractFromDate v part
  | TYPE_DATETIME => ExtractFromDatetime v part
  | TYPE_TIME => ExtractFromTime v part
  | TYPE_TIMESTAMP => ExtractFromTimestamp v part args
  | _ => Err (InvalidArgumentError ($"semantic: EXTRACT unsupported type " ++ DebugString (type_of v)))
  end.

Definition MakeInterval (args : list Value) : StatusOr Value :=
  match args with
  | [y; mo; d; h; mi; s] =>
      if HasNull args then Ok NullInterval
      else SInterval <$> Interval_FromYMDHMS (int64_value y) (int64_value mo) (int64_value d) (int64_value h)
                           (int64_value mi) (int64_value s)
  | _ => Err (arguments_error $"MAKE_INTERVAL" $"six arguments")
  end.

Definition JustifyInterval (args : list Value) : StatusOr Value :=
  match args with
  | [v] => if is_null v then Ok NullInterval
           else i ← interval_value v; SInterval <$> gsql_JustifyInterval i
  | _ => Err (arguments_error $"JUSTIFY_INTERVAL" $"one argument")
  end.

Definition Extract (args : list Value) (return_type : option SqlType) : StatusOr Value :=
  match args with
  | v :: p :: ([] | [_]) =>
      if HasNull args then Ok NullInt64
      else part ← PartFromArg p; ExtractFromValue v part args
  | _ => Err (arguments_error $"EXTRACT" $"2 or 3 arguments")
  end.

Definition GenerateDateArray (args : list Value) (return_type : option SqlType) : StatusOr Value :=
  match args with
  | a :: b :: rest =>
      if (2 <? length rest) then Err (arguments_error $"GENERATE_DATE_ARRAY" $"2 to 4 arguments")
      else
        let generate :=
          s ← ParseGenerateDateArrayStep args;
          raw ← GenerateDates (date_value a) (date_value b) (unit s) (step s);
          BuildDateArray raw return_type in
        if is_null a || is_null b
        then match NullIfAny args return_type with Some n => Ok n | None => generate end
        else generate
  | _ => Err (arguments_error $"GENERATE_DATE_ARRAY" $"2 to 4 arguments")
  end.

Definition GenerateTimestampArray (args : list Value) (return_type : option SqlType) : StatusOr Value :=
  match args with
  | [a; b; n; p] =>
      match NullIfAny args return_type with
      | Some v => Ok v
      | None =>
          part ← PartFromArg p;
          times ← GenerateTimes (value_ToTime a) (value_ToTime b) part (int64_value n);
          BuildTimestampArray (map time_ToUnixMicros times) return_type
      end
  | _ => Err (arguments_error $"GENERATE_TIMESTAMP_ARRAY" $"four arguments")
  end.

(** ** The clock and UNIX time *)

Definition CurrentDate (args : list Value) : StatusOr Value := SDate <$> CurrentDateValue.
Definition CurrentDatetime (args : list Value) : StatusOr Value := SDatetime <$> CurrentDatetimeValue.
Definition CurrentTime (args : list Value) : StatusOr Value := STime <$> CurrentTimeValue.
Definition CurrentTimestamp (args : list Value) : StatusOr Value := Ok (TimestampFromUnixMicros CurrentUnixMicros).

(** [micros / d], one less when a negative number leaves a remainder. *)
Definition floor_micros (micros d : Z) : Z :=
  if (micros <? 0)%Z && negb (Z.rem micros d =? 0)%Z then (Z.quot micros d - 1)%Z else Z.quot micros d.

Definition UnixSeconds (args : list Value) : StatusOr Value :=
  match args with
  | [t] => if is_null t then Ok NullInt64 else Ok (SInt64 (floor_micros (ToUnixMicros t) 1000000))
  | _ => Err (arguments_error $"UNIX_SECONDS" $"one argument")
  end.

Definition UnixMillis (args : list Value) : StatusOr Value :=
  match args with
  | [t] => if is_null t then Ok NullInt64 else Ok (SInt64 (floor_micros (ToUnixMicros t) 1000))
  | _ => Err (arguments_error $"UNIX_MILLIS" $"one argument")
  end.

Definition UnixMicros (args : list Value) : StatusOr Value :=
  match args with
  | [t] => if is_null t then Ok NullInt64 else Ok (SInt64 (ToUnixMicros t))
  | _ => Err (arguments_error $"UNIX_MICROS" $"one argument")
  end.

Definition UnixDate (args : list Value) : StatusOr Value :=
  match args with
  | [d] => if is_null d then Ok NullInt64 else Ok (SInt64 (date_value d))
  | _ => Err (arguments_error $"UNIX_DATE" $"one argument")
  end.

Definition not_a_timestamp (v : Z) : Status :=
  MakeSemanticError rInvalidArgument ($"Input value " ++ StrInt v ++ $" cannot be converted into TIMESTAMP").

(** The product wraps at 64 bits before it is checked. *)
Definition timestamp_from (v factor : Z) : StatusOr Value :=
  let micros := wrap_int64 (v * factor) in
  if IsValidTimestamp micros then Ok (TimestampFromUnixMicros micros) else Err (not_a_timestamp v).

Definition TimestampSeconds (args : list Value) : StatusOr Value :=
  match args with
  | [v] => if is_null v then Ok NullTimestamp else timestamp_from (int64_value v) 1000000
  | _ => Err (arguments_error $"TIMESTAMP_SECONDS" $"one argument")
  end.

Definition TimestampMillis (args : list Value) : StatusOr Value :=
  match args with
  | [v] => if is_null v then Ok NullTimestamp else timestamp_from (int64_value v) 1000
  | _ => Err (arguments_error $"TIMESTAMP_MILLIS" $"one argument")
  end.

Definition TimestampMicros (args : list Value) : StatusOr Value :=
  match args with
  | [v] =>
      if is_null v then Ok NullTimestamp
      else if IsValidTimestamp (int64_value v) then Ok (TimestampFromUnixMicros (int64_value v))
      else Err (not_a_timestamp (int64_value v))
  | _ => Err (arguments_error $"TIMESTAMP_MICROS" $"one argument")
  end.

(** The number of days is cut to 32 bits before it is checked. *)
Definition DateFromUnixDate (args : list Value) : StatusOr Value :=
  match args with
  | [v] =>
      if is_null v then Ok NullDate
      else
        let days := int64_value v in
        let date := int32_of days in
        if IsValidDate date then Ok (SDate date)
        else Err (MakeSemanticError rInvalidArgument
                    ($"DATE_FROM_UNIX_DATE range is -719162 to 2932896 but saw " ++ StrInt days))
  | _ => Err (arguments_error $"DATE_FROM_UNIX_DATE" $"one argument")
  end.

Definition LastDay (args : list Value) : StatusOr Value :=
  match args with
  | v :: ([] | [_]) =>
      if is_null v then Ok NullDate
      else
        let last part :=
          match v with
          | SDate d => SDate <$> LastDayOfDate d part
          | SDatetime d => SDate <$> LastDayOfDatetime d part
          | _ => Err (InvalidArgumentError $"semantic: LAST_DAY requires DATE or DATETIME")
          end in
        match args !! 1 with
        | None => last Part_MONTH
        | Some p => if is_null p then Ok NullDate else part ← PartFromArg p; last part
        end
  | _ => Err (arguments_error $"LAST_DAY" $"one or two arguments")
  end.

(** ** Parsing and formatting *)

Definition ParseDate (args : list Value) : StatusOr Value :=
  match args with
  | [f; s] => if HasNull args then Ok NullDate
              else SDate <$> ParseStringToDate (string_value f) (string_value s)
  | _ => Err (arguments_error $"PARSE_DATE" $"exactly two arguments")
  end.

Definition ParseDatetime (args : list Value) : StatusOr Value :=
  match args with
  | [f; s] => if HasNull args then Ok NullDatetime
              else SDatetime <$> ParseStringToDatetime (string_value f) (string_value s)
  | _ => Err (arguments_error $"PARSE_DATETIME" $"exactly two arguments")
  end.

(** A third argument that is a number, the precision, is read and not used. *)
Definition ParseTimestamp (args : list Value) : StatusOr Value :=
  match args with
  | f :: s :: rest =>
      if (2 <? length rest) then Err (arguments_error $"PARSE_TIMESTAMP" $"2 to 4 arguments")
      else if HasNull args then Ok NullTimestamp
      else
        micros ← match last rest with
                 | Some (SString timezone) =>
                     ParseStringToTimestampNamed (string_value f) (string_value s) timezone
                 | _ => ParseStringToTimestamp (string_value f) (string_value s)
                 end;
        Ok (TimestampFromUnixMicros micros)
  | _ => Err (arguments_error $"PARSE_TIMESTAMP" $"2 to 4 arguments")
  end.

Definition ParseTime (args : list Value) : StatusOr Value :=
  match args with
  | [f; s] => if HasNull args then Ok NullTime
              else STime <$> ParseStringToTime (string_value f) (string_value s)
  | _ => Err (arguments_error $"PARSE_TIME" $"exactly two arguments")
  end.

Definition FormatDate (args : list Value) : StatusOr Value :=
  match args with
  | [f; d] => if HasNull args then Ok NullString
              else SString <$> FormatDateToString (string_value f) (date_value d)
  | _ => Err (arguments_error $"FORMAT_DATE" $"exactly two arguments")
  end.

Definition FormatDatetime (args : list Value) : StatusOr Value :=
  match args with
  | [f; d] => if HasNull args then Ok NullString
              else x ← datetime_value d; SString <$> FormatDatetimeToString (string_value f) x
  | _ => Err (arguments_error $"FORMAT_DATETIME" $"exactly two arguments")
  end.

Definition FormatTimestamp (args : list Value) : StatusOr Value :=
  match args with
  | f :: t :: ([] | [_]) =>
      if HasNull args then Ok NullString
      else
        tz ← match args !! 2 with
             | Some zone => MakeTimeZone (string_value zone)
             | None => Ok DefaultTimeZone
             end;
        SString <$> FormatTimestampToString (string_value f) (ToUnixMicros t) tz
  | _ => Err (arguments_error $"FORMAT_TIMESTAMP" $"2 or 3 arguments")
  end.

Definition FormatTime (args : list Value) : StatusOr Value :=
  match args with
  | [f; t] => if HasNull args then Ok NullString
              else x ← time_value t; SString <$> FormatTimeToString (string_value f) x
  | _ => Err (arguments_error $"FORMAT_TIME" $"exactly two arguments")
  end.

(** ** Constructors *)

Definition TimestampFromDatetimeArgs (args : list Value) : StatusOr Value :=
  match args with
  | [d; SString zone] => x ← datetime_value d; TimestampOf <$> ConvertDatetimeToTimestampNamed x zone
  | [d] => x ← datetime_value d; TimestampOf <$> ConvertDatetimeToTimestamp x
  | _ => Err (InvalidArgumentError $"semantic: TIMESTAMP(DATETIME) expects one or two arguments")
  end.

Definition TimestampFromDateArg (date_arg : Value) : StatusOr Value :=
  TimestampFromUnixMicros <$> ConvertDateToTimestamp (date_value date_arg).

Definition TimestampFromStringWithTimezone (text tz_name : str) : StatusOr Value :=
  tz ← MakeTimeZone tz_name;
  TimestampFromUnixMicros <$> ConvertStringToTimestampIn (NormalizeTimestampOffsetSuffix text) tz.

Definition DateConstructor (args : list Value) : StatusOr Value :=
  if HasNull args then Ok NullDate
  else match args with
  | [SString s] => SDate <$> ParseStringToDate $"%Y-%m-%d" s
  | [SInt64 y; SInt64 m; SInt64 d] => SDate <$> ConstructDate (int32_of y) (int32_of m) (int32_of d)
  | [SDatetime d] => SDate <$> lib_ExtractFromDatetime Part_DATE d
  | [STimestamp _ as t] => SDate <$> ExtractFromMicros Part_DATE (ToUnixMicros t) DefaultTimeZone
  | [STimestamp _ as t; SString zone] =>
      tz ← MakeTimeZone zone; SDate <$> ExtractFromMicros Part_DATE (ToUnixMicros t) tz
  | _ => Err (InvalidArgumentError $"semantic: DATE constructor signature not supported")
  end.

Definition DatetimeConstructor (args : list Value) : StatusOr Value :=
  if HasNull args then Ok NullDatetime
  else match args with
  | [y; mo; d; h; mi; s] =>
      let int v := int32_of (int64_value v) in
      SDatetime <$> ConstructDatetimeParts (int y) (int mo) (int d) (int h) (int mi) (int s)
  | [STimestamp _ as t; SString zone] =>
      tz ← MakeTimeZone zone; SDatetime <$> ConvertTimestampToDatetime (value_ToTime t) tz
  | [STimestamp _ as t] => SDatetime <$> ConvertTimestampToDatetime (value_ToTime t) DefaultTimeZone
  | _ => Err (InvalidArgumentError $"semantic: DATETIME constructor signature not supported")
  end.

Definition StringFunc (args : list Value) : StatusOr Value :=
  match args with
  | [t; zone] =>
      if is_null t || is_null zone then Ok NullString
      else if negb (is_kind t TYPE_TIMESTAMP && is_kind zone TYPE_STRING)
      then Err (InvalidArgumentError $"semantic: STRING(TIMESTAMP, STRING) signature not supported")
      else
        tz ← MakeTimeZone (string_value zone);
        out ← FormatTimestampToString $"%F %T%Ez" (ToUnixMicros t) tz;
        Ok (SString (match strip_suffix $"+00:00" out with Some r => r ++ $"+00" | None => out end))
  | _ => Err (arguments_error $"STRING" $"exactly two arguments")
  end.

Definition TimeConstructor (args : list Value) : StatusOr Value :=
  if HasNull args then Ok NullTime
  else match args with
  | [SDatetime d] => STime <$> ExtractTimeFromDatetime d
  | [SInt64 h; SInt64 m; SInt64 s] => STime <$> ConstructTime (int32_of h) (int32_of m) (int32_of s)
  | [STimestamp _ as t; SString zone] =>
      tz ← MakeTimeZone zone; STime <$> ConvertTimestampToTime (value_ToTime t) tz
  | _ => Err (InvalidArgumentError $"semantic: TIME constructor signature not supported")
  end.

Definition TimestampConstructor (args : list Value) : StatusOr Value :=
  if HasNull args then Ok NullTimestamp
  else match args with
  | [STimestamp _ as t] => Ok t
  | SDatetime _ :: _ => TimestampFromDatetimeArgs args
  | [SDate _ as d] => TimestampFromDateArg d
  | [SString text; SString zone] => TimestampFromStringWithTimezone text zone
  | [SString text] => ParseTimestampWireString text
  | _ => Err (InvalidArgumentError $"semantic: TIMESTAMP constructor signature not supported")
  end.
End datetime.

(** ** What they compute *)

Section datetime_props.
Context `{AbslText, AbslDouble, GoogleSqlOps} `{!CastLibrary, !DatetimeLibrary}.

Lemma floor_micros_div micros d : (0 < d)%Z -> floor_micros micros d = (micros / d)%Z.
Proof.
  intros D. unfold floor_micros. destruct (micros <? 0)%Z eqn:N; bool_to_prop; cbn [andb].
  - rewrite Z.quot_div, Z.rem_mod, Z.sgn_neg, (Z.sgn_pos d), Z.abs_neq, (Z.abs_eq d) by lia.
    pose proof (Z.mod_pos_bound (- micros) d D) as B. pose proof (Z_div_mod_eq_full (- micros) d) as E.
    destruct (-1 * ((- micros) mod d) =? 0)%Z eqn:R; bool_to_prop; cbn [negb].
    + apply (Z.div_unique micros d _ 0); lia.
    + apply (Z.div_unique micros d _ (d - (- micros) mod d)); lia.
  - apply Z.quot_div_nonneg; lia.
Qed.

Lemma unix_micros_of micros : ToUnixMicros (TimestampFromUnixMicros micros) = micros.
Proof. unfold ToUnixMicros, TimestampFromUnixMicros. cbn [ToUnixPicos]. apply Z.div_mul. lia. Qed.

Lemma int32_of_id z : (- 2 ^ 31 <= z < 2 ^ 31)%Z -> int32_of z = z.
Proof. intros B. unfold int32_of. rewrite Z.mod_small; lia. Qed.

Lemma int32_of_period z k : int32_of (z + k * 2 ^ 32) = int32_of z.
Proof.
  unfold int32_of. f_equal. replace (z + k * 2 ^ 32 + 2 ^ 31)%Z with (z + 2 ^ 31 + k * 2 ^ 32)%Z by lia.
  apply Z_mod_plus_full.
Qed.

Lemma wrap_int64_period z k : wrap_int64 (z + k * 2 ^ 64) = wrap_int64 z.
Proof.
  unfold wrap_int64. f_equal. replace (z + k * 2 ^ 64 + 2 ^ 63)%Z with (z + 2 ^ 63 + k * 2 ^ 64)%Z by lia.
  apply Z_mod_plus_full.
Qed.

(** UNIX_SECONDS, UNIX_MILLIS and UNIX_MICROS round a timestamp down, before 1970
    too, and invert TIMESTAMP_SECONDS, TIMESTAMP_MILLIS and TIMESTAMP_MICROS of
    every number whose microseconds fit in 64 bits; UNIX_DATE inverts
    DATE_FROM_UNIX_DATE of every number of 32 bits. *)
Theorem unix_time_roundtrip (picos n : Z) (t : Value) :
  UnixSeconds [STimestamp picos] = Ok (SInt64 (picos / 10 ^ 12)) /\
  UnixMillis [STimestamp picos] = Ok (SInt64 (picos / 10 ^ 9)) /\
  UnixMicros [STimestamp picos] = Ok (SInt64 (picos / 10 ^ 6)) /\
  (in_int64 (n * 1000000) -> TimestampSeconds [SInt64 n] = Ok t -> UnixSeconds [t] = Ok (SInt64 n)) /\
  (in_int64 (n * 1000) -> TimestampMillis [SInt64 n] = Ok t -> UnixMillis [t] = Ok (SInt64 n)) /\
  (TimestampMicros [SInt64 n] = Ok t -> UnixMicros [t] = Ok (SInt64 n)) /\
  ((- 2 ^ 31 <= n < 2 ^ 31)%Z -> DateFromUnixDate [SInt64 n] = Ok t -> UnixDate [t] = Ok (SInt64 n)).
Proof.
  unfold UnixSeconds, UnixMillis, UnixMicros. cbn [is_null].
  assert (forall d, (0 < d)%Z -> floor_micros (ToUnixMicros (STimestamp picos)) d = picos / (10 ^ 6 * d))%Z as D.
  { intros d L. rewrite floor_micros_div by done. unfold ToUnixMicros. cbn [ToUnixPicos]. by rewrite Z.div_div by lia. }
  rewrite !D by lia. do 3 (split; [done|]). clear D.
  assert (forall f, (0 < f)%Z -> in_int64 (n * f) -> timestamp_from n f = Ok t ->
    is_null t = false /\ floor_micros (ToUnixMicros t) f = n) as K.
  { intros f F B. unfold timestamp_from. rewrite wrap_int64_id by done.
    destruct (IsValidTimestamp _); [|done]. intros [= <-]. split; [done|].
    rewrite unix_micros_of, floor_micros_div by done. by apply Z.div_mul; lia. }
  split; [|split; [|split]].
  - intros B E. destruct (K 1000000%Z ltac:(lia) B E) as [-> ->]. done.
  - intros B E. destruct (K 1000%Z ltac:(lia) B E) as [-> ->]. done.
  - unfold TimestampMicros. cbn [is_null int64_value]. destruct (IsValidTimestamp n); [|done].
    intros [= <-]. cbn [is_null TimestampFromUnixMicros]. by rewrite unix_micros_of.
  - intros B. unfold DateFromUnixDate. cbn [is_null int64_value]. rewrite int32_of_id by done.
    destruct (IsValidDate n); [|done]. by intros [= <-].
Qed.

(** Numbers far out of range are accepted when they wrap to one in range: 2^58
    seconds more give the same TIMESTAMP, and 2^32 days more the same DATE. *)
Theorem unix_time_wraps (n : Z) (t : Value) :
  (TimestampSeconds [SInt64 n] = Ok t -> TimestampSeconds [SInt64 (n + 2 ^ 58)] = Ok t) /\
  (DateFromUnixDate [SInt64 n] = Ok t -> DateFromUnixDate [SInt64 (n + 2 ^ 32)] = Ok t).
Proof.
  split.
  - unfold TimestampSeconds, timestamp_from. cbn [is_null int64_value].
    replace ((n + 2 ^ 58) * 1000000)%Z with (n * 1000000 + 15625 * 2 ^ 64)%Z by lia. rewrite wrap_int64_period.
    by destruct (IsValidTimestamp _).
  - unfold DateFromUnixDate. cbn [is_null int64_value]. replace (n + 2 ^ 32)%Z with (n + 1 * 2 ^ 32)%Z by lia.
    rewrite int32_of_period. by destruct (IsValidDate _).
Qed.

(** A difference with a NULL operand has the type of the operands instead of
    INT64. *)
Lemma diff_of_null_type p d :
  DateAddSubDiffTrunc $"date_diff" [SNull TDate; SDate d; p] = Ok (SNull TDate) /\
  TimestampAddSubDiffTrunc $"timestamp_diff" [NullTimestamp; STimestamp d; p] = Ok (SNull TTimestamp) /\
  TimeAddSubDiffTrunc $"time_diff" [NullTime; NullTime; p] = Ok (SNull TTime).
Proof. done. Qed.

(** DATE, DATETIME and TIME of parts cut each part to 32 bits. *)
Lemma date_parts_wrap y m d : DateConstructor [SInt64 (y + 2 ^ 32); SInt64 m; SInt64 d] =
  DateConstructor [SInt64 y; SInt64 m; SInt64 d].
Proof.
  unfold DateConstructor. change (HasNull _) with false. cbv iota.
  replace (y + 2 ^ 32)%Z with (y + 1 * 2 ^ 32)%Z by lia. by rewrite int32_of_period.
Qed.
End datetime_props.

Module DatetimeReference.
Import Reference EvalReference.

#[export] Instance reference_datetimes : DatetimeLibrary := {|
  Part_DATE := 7%Z;
  Part_WEEK := 6%Z;
  Part_MONTH := 2%Z;
  Part_QUARTER := 8%Z;
  Part_YEAR := 1%Z;
  LocalTimeZone := utc;
  Now := 0%Z;
  time_ToUnixMicros t := t;
  time_ToUnixPicos t := (t * 10 ^ 6)%Z;
  FromUnixMicros t := t;
  DiffDates _ _ _ := undefined_here;
  TruncateDate _ _ := undefined_here;
  DiffDatetimes _ _ _ := undefined_here;
  TruncateDatetime _ _ := undefined_here;
  AddDatetimePart _ _ _ := undefined_here;
  SubDatetimePart _ _ _ := undefined_here;
  TimestampDiff _ _ _ := undefined_here;
  TimestampTrunc _ _ _ := undefined_here;
  TimestampTruncNamed _ _ _ := undefined_here;
  AddTimestampPart _ _ _ _ := undefined_here;
  SubTimestampPart _ _ _ _ := undefined_here;
  DiffTimes _ _ _ := undefined_here;
  TruncateTime _ _ := undefined_here;
  AddTime _ _ _ := undefined_here;
  SubTime _ _ _ := undefined_here;
  lib_TimestampBucket _ _ _ _ := undefined_here;
  interval_Extract _ _ := undefined_here;
  lib_ExtractFromDate _ _ := undefined_here;
  lib_ExtractFromDatetime _ _ := undefined_here;
  lib_ExtractFromTime _ _ := undefined_here;
  lib_ExtractFromTimestamp _ _ _ := undefined_here;
  ExtractFromMicros _ _ _ := undefined_here;
  Interval_FromYMDHMS _ _ _ _ _ _ := undefined_here;
  gsql_JustifyInterval _ := undefined_here;
  GenerateDates _ _ _ _ := undefined_here;
  GenerateTimes _ _ _ _ := undefined_here;
  ConvertTimestampToTime _ _ := undefined_here;
  IsValidTimestamp t := (-62135596800000000 <=? t)%Z && (t <=? 253402300799999999)%Z;
  IsValidDate d := (-719162 <=? d)%Z && (d <=? 2932896)%Z;
  LastDayOfDate _ _ := undefined_here;
  LastDayOfDatetime _ _ := undefined_here;
  ConvertDatetimeToTimestampNamed _ _ := undefined_here;
  ConvertStringToTimestampIn _ _ := undefined_here;
  ConstructDate _ _ _ := undefined_here;
  ConstructDatetimeParts _ _ _ _ _ _ := undefined_here;
  ConstructTime _ _ _ := undefined_here;
  ExtractTimeFromDatetime _ := undefined_here;
  ParseStringToTimestampNamed _ _ _ := undefined_here;
  ParseStringToTime _ _ := undefined_here;
  FormatTimeToString _ _ := undefined_here;
|}.

Lemma unix_time_roundtrip_witness :
  UnixSeconds [STimestamp (-1)] = Ok (SInt64 (-1)) /\
  exists t, TimestampSeconds [SInt64 (-5)] = Ok t /\ UnixSeconds [t] = Ok (SInt64 (-5)).
Proof.
  destruct (unix_time_roundtrip (-1) (-5) (TimestampFromUnixMicros (-5000000))) as (E & _ & _ & R & _).
  split; [exact E|]. eexists. split; [vm_compute; reflexivity|]. apply R; [vm_compute; split; congruence|].
  vm_compute. reflexivity.
Defined.

Lemma unix_time_wraps_witness : TimestampSeconds [SInt64 (2 ^ 58)] = Ok (STimestamp 0).
Proof. apply (unix_time_wraps 0 (STimestamp 0)). vm_compute. reflexivity. Defined.
End DatetimeReference.
