(* ===== verification/NetFuncs.v ===== *)
(** * NetFuncs: NET functions, ERROR, SESSION_USER and GENERATE_UUID

    Models [semantic/functions/net_funcs.cc] (its dispatch table is in [Dispatch]).  GoogleSQL's
    address and URL parsers are the class [NetLibrary], where the 16 random bytes
    of GENERATE_UUID are a parameter too. *)

From S2P Require Import Prelude Order Absl AbslReference Storage SemanticError SqlValue.
From S2P Require Import GoogleSqlReference Arithmetic Operators MathFuncs Casts EvalReference StringFuncs StringProps.

Class NetLibrary := {
  IPFromString : str -> StatusOr str;
  (** [None] for the NULL result *)
  SafeIPFromString : str -> StatusOr (option str);
  IPToString : str -> StatusOr str;
  net_Host : str -> StatusOr (option str);
  net_PublicSuffix : str -> StatusOr (option str);
  net_RegDomain : str -> StatusOr (option str);
  (** [absl::SimpleHexAtoi] into a [uint64_t] *)
  SimpleHexAtoi : str -> option Z;
}.

Section net.
Context `{AbslText, GoogleSql, NetLibrary}.

Definition ArgIsNull (args : list Value) (i : nat) : bool :=
  match args !! i with Some v => is_null v | None => true end.

Definition BytesPayload (v : Value) : StatusOr str :=
  if is_null v then Ok []
  else if negb (is_kind v TYPE_BYTES) then Err (InvalidArgumentError $"expected BYTES")
  else Ok (bytes_value v).

Definition Int64Arg (args : list Value) (i : nat) : StatusOr Z :=
  if ArgIsNull args i then Err (InvalidArgumentError $"unexpected NULL")
  else match args !! i with
       | Some (SInt64 z) => Ok z
       | _ => Err (InvalidArgumentError $"expected INT64")
       end.

Definition ErrorFn (args : list Value) : StatusOr Value :=
  match args with
  | [v] =>
      if is_null v then Ok NullString
      else if negb (is_kind v TYPE_STRING) then Err (InvalidArgumentError $"ERROR message must be STRING")
      else Err (InvalidArgumentError (string_value v))
  | _ => Err (InvalidArgumentError $"ERROR expects one argument")
  end.

Definition SessionUser (args : list Value) : StatusOr Value :=
  match args with
  | [] => Ok (SString $"dummy")
  | _ => Err (InvalidArgumentError $"SESSION_USER expects no arguments")
  end.

(** ** UUIDs *)

(** [%02x] of a byte *)
Definition hex_char (d : Z) : ascii := nth (Z.to_nat d) $"0123456789abcdef" "0"%char.
Definition hex_byte (b : Z) : str := [hex_char (Z.shiftr b 4); hex_char (Z.land b 15)].

Definition hex_bytes (l : list Z) : str := flat_map hex_byte l.

Definition FormatUuidV4 (bytes : list Z) : str :=
  hex_bytes (take 4 bytes) ++ $"-" ++ hex_bytes (take 2 (drop 4 bytes)) ++ $"-" ++
  hex_bytes (take 2 (drop 6 bytes)) ++ $"-" ++ hex_bytes (take 2 (drop 8 bytes)) ++ $"-" ++
  hex_bytes (drop 10 bytes).

(** The version and the variant are written over two of the random bytes. *)
Definition uuid_bytes (random : list Z) : list Z :=
  let version b := Z.lor (Z.land b 15) 64 in
  let variant b := Z.lor (Z.land b 63) 128 in
  alter variant 8 (alter version 6 random).

Definition GenerateUuid (random : list Z) (args : list Value) : StatusOr Value :=
  match args with
  | [] => Ok (SString (FormatUuidV4 (uuid_bytes random)))
  | _ => Err (InvalidArgumentError $"GENERATE_UUID expects no arguments")
  end.

(** ** Addresses *)

Definition invalid_ipv4 : Status := InvalidArgumentError $"invalid IPv4 address".
Definition invalid_ipv6 : Status := InvalidArgumentError $"invalid IPv6 address".

(** [absl::SimpleAtoi] into an [int] *)
Definition SimpleAtoi32 (s : str) : option Z :=
  match SimpleAtoi s with
  | Some z => if (- 2 ^ 31 <=? z)%Z && (z <? 2 ^ 31)%Z then Some z else None
  | None => None
  end.

Definition ParseIpv4ToBytes (ip : str) : StatusOr str :=
  let parts := StrSplit ip "."%char in
  if negb (length parts =? 4) then Err invalid_ipv4
  else outcome_mapM (fun part =>
    match SimpleAtoi32 part with
    | Some byte => if (byte <? 0)%Z || (255 <? byte)%Z then Err invalid_ipv4 else Ok (byteof byte)
    | None => Err invalid_ipv4
    end) parts.

Fixpoint hex_pairs (s : str) : StatusOr str :=
  match s with
  | a :: b :: s =>
      match SimpleHexAtoi [a; b] with
      | Some byte =>
          if (255 <? byte)%Z then Err invalid_ipv6
          else rest ← hex_pairs s; Ok (byteof byte :: rest)
      | None => Err invalid_ipv6
      end
  | _ => Ok []
  end.

Definition ParseIpv6ToBytes (ip : str) : StatusOr str :=
  let compact := List.filter (fun c => negb (bool_decide (c = ":"%char))) ip in
  if negb (length compact =? 32) then Err invalid_ipv6 else hex_pairs compact.

Definition NetIpFromString (args : list Value) : StatusOr Value :=
  match args with
  | [v] =>
      if is_null v then Ok NullBytes
      else if negb (is_kind v TYPE_STRING) then Err (InvalidArgumentError $"NET.IP_FROM_STRING expects STRING")
      else SBytes <$> IPFromString (string_value v)
  | _ => Err (InvalidArgumentError $"NET.IP_FROM_STRING expects one argument")
  end.

Definition NetSafeIpFromString (args : list Value) : StatusOr Value :=
  match args with
  | [v] =>
      if is_null v then Ok NullBytes
      else if negb (is_kind v TYPE_STRING) then Err (InvalidArgumentError $"NET.SAFE_IP_FROM_STRING expects STRING")
      else out ← SafeIPFromString (string_value v);
           Ok (match out with Some s => SBytes s | None => NullBytes end)
  | _ => Err (InvalidArgumentError $"NET.SAFE_IP_FROM_STRING expects one argument")
  end.

Definition NetIpToString (args : list Value) : StatusOr Value :=
  match args with
  | [v] => if is_null v then Ok NullString
           else bytes ← BytesPayload v; SString <$> IPToString bytes
  | _ => Err (InvalidArgumentError $"NET.IP_TO_STRING expects one argument")
  end.

(** The bit of weight [0x80 >> (i % 8)] of byte [i / 8]. *)
Definition bit_of (i : nat) : Z := Z.shiftr 128 (Z.of_nat (i mod 8)).
Definition set_bit (i : nat) (bytes : list Z) : list Z := alter (fun b => Z.lor b (bit_of i)) (i / 8) bytes.
Definition clear_bit (i : nat) (bytes : list Z) : list Z :=
  alter (fun b => Z.land b (255 - bit_of i)) (i / 8) bytes.

Definition NetIpNetMask (args : list Value) : StatusOr Value :=
  match args with
  | [a; b] =>
      if is_null a || is_null b then Ok NullBytes
      else
        n ← Int64Arg args 0;
        p ← Int64Arg args 1;
        if negb ((n =? 4)%Z || (n =? 16)%Z)
        then Err (InvalidArgumentError $"NET.IP_NET_MASK: the first argument must be either 4 or 16")
        else
          let max_prefix := if (n =? 4)%Z then 32%Z else 128%Z in
          if (p <? 0)%Z || (max_prefix <? p)%Z
          then Err (InvalidArgumentError
                      ($"NET.IP_NET_MASK: the second argument must be in the range from 0 to " ++ StrInt max_prefix))
          else Ok (SBytes (map byteof
                 (fold_left (fun mask i => set_bit i mask) (seq 0 (Z.to_nat p)) (replicate (Z.to_nat n) 0%Z))))
  | _ => Err (InvalidArgumentError $"NET.IP_NET_MASK expects two INT64 arguments")
  end.

Definition NetIpTrunc (args : list Value) : StatusOr Value :=
  match args with
  | [a; b] =>
      if is_null a || is_null b then Ok NullBytes
      else
        bytes ← BytesPayload a;
        prefix ← Int64Arg args 1;
        if negb ((length bytes =? 4) || (length bytes =? 16))
        then Err (InvalidArgumentError $"NET.IP_TRUNC: length of the first argument must be either 4 or 16")
        else
          let max_prefix := if (length bytes =? 4) then 32%Z else 128%Z in
          if (prefix <? 0)%Z || (max_prefix <? prefix)%Z
          then Err (InvalidArgumentError
                      ($"NET.IP_TRUNC: length must be in the range from 0 to " ++ StrInt max_prefix))
          else
            let p := Z.to_nat prefix in
            Ok (SBytes (map byteof
              (fold_left (fun out i => clear_bit i out) (seq p (length bytes * 8 - p)) (map byteval bytes))))
  | _ => Err (InvalidArgumentError $"NET.IP_TRUNC expects two arguments")
  end.

(** The number is cut to 32 bits. *)
Definition NetIpv4FromInt64 (args : list Value) : StatusOr Value :=
  match args with
  | [v] =>
      if is_null v then Ok NullBytes
      else
        z ← Int64Arg args 0;
        let u := u64 z in
        Ok (SBytes (map (fun shift => byteof (Z.land (Z.shiftr u shift) 255)) [24; 16; 8; 0]%Z))
  | _ => Err (InvalidArgumentError $"NET.IPV4_FROM_INT64 expects one INT64 argument")
  end.

Definition NetIpv4ToInt64 (args : list Value) : StatusOr Value :=
  match args with
  | [v] =>
      if is_null v then Ok NullInt64
      else
        bytes ← BytesPayload v;
        if negb (length bytes =? 4) then Err (InvalidArgumentError $"NET.IPV4_TO_INT64 expects 4 bytes")
        else Ok (SInt64 (fold_left (fun u c => Z.lor (Z.shiftl u 8) (byteval c)) bytes 0%Z))
  | _ => Err (InvalidArgumentError $"NET.IPV4_TO_INT64 expects one BYTES argument")
  end.

(** ** URLs *)

Definition NetUrlString (name : str) (args : list Value) (fn : str -> StatusOr (option str)) : StatusOr Value :=
  match args with
  | [v] =>
      if is_null v then Ok NullString
      else if negb (is_kind v TYPE_STRING) then Err (InvalidArgumentError (name ++ $" expects STRING"))
      else out ← fn (string_value v); Ok (match out with Some s => SString s | None => NullString end)
  | _ => Err (InvalidArgumentError (name ++ $" expects one STRING argument"))
  end.

Definition NetHost (args : list Value) : StatusOr Value := NetUrlString $"NET.HOST" args net_Host.

Definition NetUrlHasInvalidHost (url : str) : bool := str_contains url $"..".

(** The first argument is a text with two dots in a row. *)
Definition invalid_host_argument (args : list Value) : bool :=
  match args with SString url :: _ => NetUrlHasInvalidHost url | _ => false end.

Definition NetPublicSuffix (args : list Value) : StatusOr Value :=
  if invalid_host_argument args then Ok NullString
  else NetUrlString $"NET.PUBLIC_SUFFIX" args net_PublicSuffix.

Definition NetRegDomain (args : list Value) : StatusOr Value :=
  if invalid_host_argument args then Ok NullString
  else NetUrlString $"NET.REG_DOMAIN" args net_RegDomain.

(** ** What they compute *)

Lemma byteof_of z c : (z mod 256 = byteval c)%Z -> byteof z = c.
Proof.
  intros E. unfold byteof. rewrite E. unfold byteval. rewrite N2Z.id. apply ascii_N_embedding.
Qed.

Lemma shift_or_byte u b : (0 <= b < 256)%Z -> Z.lor (Z.shiftl u 8) b = (u * 256 + b)%Z.
Proof.
  intros B. assert (Z.land (Z.shiftl u 8) b = 0)%Z as D.
  { apply Z.bits_inj'. intros i I. rewrite Z.land_spec, Z.bits_0. destruct (decide (i < 8)%Z).
    - by rewrite Z.shiftl_spec_low by lia.
    - rewrite <- (Z.mod_small b (2 ^ 8)) by (cbn; lia). rewrite Z.mod_pow2_bits_high by lia. apply andb_false_r. }
  pose proof (Z.add_lor_land (Z.shiftl u 8) b) as E. rewrite D, Z.shiftl_mul_pow2 in E by lia.
  rewrite Z.shiftl_mul_pow2 by lia. change (2 ^ 8)%Z with 256%Z in *. lia.
Qed.

Lemma ipv4_to_int64_eq (b0 b1 b2 b3 : ascii) :
  NetIpv4ToInt64 [SBytes [b0; b1; b2; b3]] =
  Ok (SInt64 (((byteval b0 * 256 + byteval b1) * 256 + byteval b2) * 256 + byteval b3)).
Proof.
  transitivity (@Ok Status Value (SInt64 (Z.lor (Z.shiftl (Z.lor (Z.shiftl (Z.lor (Z.shiftl (Z.lor (Z.shiftl 0 8) (byteval b0)) 8)
    (byteval b1)) 8) (byteval b2)) 8) (byteval b3)))); [reflexivity|].
  rewrite !shift_or_byte by apply byteval_bound. do 2 f_equal.
Qed.

Lemma ipv4_from_int64_eq z :
  NetIpv4FromInt64 [SInt64 z] =
  Ok (SBytes [byteof (z / 16777216); byteof (z / 65536); byteof (z / 256); byteof z]).
Proof.
  transitivity (@Ok Status Value (SBytes (map (fun shift => byteof (Z.land (Z.shiftr (u64 z) shift) 255)) [24; 16; 8; 0]%Z)));
    [reflexivity|].
  assert (forall k, (0 <= k <= 56)%Z -> byteof (Z.land (Z.shiftr (u64 z) k) 255) = byteof (z / 2 ^ k)) as E.
  { intros k K. apply byteof_of. rewrite byteval_byteof. change 256%Z with (2 ^ 8)%Z. change 255%Z with (Z.ones 8).
    rewrite Z.land_ones, Z.mod_mod by lia. apply Z.bits_inj'. intros i I. rewrite <- !Z.land_ones by lia.
    rewrite !Z.land_spec. destruct (decide (i < 8)%Z).
    - unfold u64. rewrite Z.shiftr_spec, Z.mod_pow2_bits_low, Z.div_pow2_bits by lia. done.
    - by rewrite Z.ones_spec_high, !andb_false_r by lia. }
  cbn [map]. rewrite !E, Z.div_1_r by lia. done.
Qed.

(** NET.IPV4_TO_INT64 inverts NET.IPV4_FROM_INT64 on the numbers of 32 bits, and
    four bytes come back from their number; a number outside is cut to its low 32
    bits. *)
Theorem ipv4_roundtrip (z : Z) (b0 b1 b2 b3 : ascii) :
  (exists bytes, NetIpv4FromInt64 [SInt64 z] = Ok (SBytes bytes) /\ length bytes = 4 /\
     NetIpv4ToInt64 [SBytes bytes] = Ok (SInt64 (z mod 2 ^ 32))) /\
  (exists n, NetIpv4ToInt64 [SBytes [b0; b1; b2; b3]] = Ok (SInt64 n) /\ (0 <= n < 2 ^ 32)%Z /\
     NetIpv4FromInt64 [SInt64 n] = Ok (SBytes [b0; b1; b2; b3])).
Proof.
  split.
  - eexists. split; [apply ipv4_from_int64_eq|]. split; [done|]. rewrite ipv4_to_int64_eq, !byteval_byteof.
    do 2 f_equal. change (2 ^ 32)%Z with 4294967296%Z. Z.to_euclidean_division_equations. lia.
  - pose proof (byteval_bound b0). pose proof (byteval_bound b1). pose proof (byteval_bound b2).
    pose proof (byteval_bound b3). eexists. split; [apply ipv4_to_int64_eq|]. split; [lia|].
    rewrite ipv4_from_int64_eq. do 2 f_equal.
    repeat (apply (f_equal2 (@cons ascii)); [apply byteof_of; Z.to_euclidean_division_equations; lia|]). done.
Qed.

(** ** Masks *)

(** Bit [j] of a list of bytes, the highest bit of the first byte first. *)
Definition bit_at (l : list Z) (j : nat) : bool :=
  match l !! (j / 8) with Some b => Z.testbit b (7 - Z.of_nat (j mod 8)) | None => false end.

Lemma bit_of_spec i k : (0 <= k < 8)%Z -> Z.testbit (bit_of i) k = (k =? 7 - Z.of_nat (i mod 8))%Z.
Proof.
  intros K. unfold bit_of. rewrite Z.shiftr_spec by lia. change 128%Z with (2 ^ 7)%Z. rewrite Z.pow2_bits_eqb by lia.
  pose proof (Nat.mod_upper_bound i 8 ltac:(lia)).
  destruct (_ =? _)%Z eqn:A, (k =? _)%Z eqn:B in |- *; bool_to_prop; (lia || done).
Qed.

Lemma bit_of_range i : (0 <= bit_of i < 256)%Z.
Proof.
  unfold bit_of. rewrite Z.shiftr_div_pow2 by lia. pose proof (Z.pow_pos_nonneg 2 (Z.of_nat (i mod 8))).
  split; [apply Z.div_pos; lia|]. apply Z.div_lt_upper_bound; nia.
Qed.

Lemma cleared_spec i k : (0 <= k < 8)%Z -> Z.testbit (255 - bit_of i) k = negb (k =? 7 - Z.of_nat (i mod 8))%Z.
Proof.
  intros K. replace (255 - bit_of i)%Z with (Z.ldiff 255 (bit_of i)).
  - rewrite Z.ldiff_spec, bit_of_spec by done. change 255%Z with (Z.ones 8). by rewrite Z.ones_spec_low by lia.
  - unfold bit_of. pose proof (Nat.mod_upper_bound i 8 ltac:(lia)) as M.
    destruct (i mod 8) as [|[|[|[|[|[|[|[|]]]]]]]]; try lia; reflexivity.
Qed.

Lemma same_bit i j : (j / 8 = i / 8) -> (7 - Z.of_nat (j mod 8) =? 7 - Z.of_nat (i mod 8))%Z = (j =? i).
Proof.
  intros E. pose proof (Nat.div_mod_eq i 8). pose proof (Nat.div_mod_eq j 8).
  destruct (_ =? _)%Z eqn:A, (j =? i) eqn:B; bool_to_prop; rewrite ?Nat.eqb_eq, ?Nat.eqb_neq in B; (lia || done).
Qed.

Lemma bit_at_alter (f : Z -> Z) i l j (g : bool -> bool) :
  (forall b k, (0 <= k < 8)%Z -> Z.testbit (f b) k = if (k =? 7 - Z.of_nat (i mod 8))%Z then g (Z.testbit b k)
                                                     else Z.testbit b k) ->
  j / 8 < length l -> bit_at (alter f (i / 8) l) j = if (j =? i) then g (bit_at l j) else bit_at l j.
Proof.
  intros F L. unfold bit_at. pose proof (Nat.mod_upper_bound j 8 ltac:(lia)) as M.
  destruct (lookup_lt_is_Some_2 l (j / 8) L) as [b Eb]. destruct (decide (j / 8 = i / 8)) as [E|E].
  - rewrite <- E, list_lookup_alter_eq, Eb. cbn [fmap option_fmap option_map]. rewrite F by lia. by rewrite same_bit.
  - rewrite list_lookup_alter_ne by done. rewrite Eb. destruct (j =? i) eqn:B; [|done].
    apply Nat.eqb_eq in B. by subst.
Qed.

Lemma set_bit_at i l j : j / 8 < length l -> bit_at (set_bit i l) j = (j =? i) || bit_at l j.
Proof.
  intros L. unfold set_bit. rewrite (bit_at_alter _ i l j (fun _ => true)); [by destruct (j =? i)| |done].
  intros b k K. rewrite Z.lor_spec, bit_of_spec by done. destruct (k =? _)%Z; [by rewrite orb_true_r|by rewrite orb_false_r].
Qed.

Lemma clear_bit_at i l j : j / 8 < length l -> bit_at (clear_bit i l) j = negb (j =? i) && bit_at l j.
Proof.
  intros L. unfold clear_bit. rewrite (bit_at_alter _ i l j (fun _ => false)); [by destruct (j =? i)| |done].
  intros b k K. rewrite Z.land_spec, cleared_spec by done. destruct (k =? _)%Z; [by rewrite andb_false_r|by rewrite andb_true_r].
Qed.

Lemma set_bits_at ns l j : j / 8 < length l ->
  bit_at (fold_left (fun m i => set_bit i m) ns l) j = existsb (Nat.eqb j) ns || bit_at l j.
Proof.
  revert l. induction ns as [|i ns IH]; intros l L; [done|]. cbn [fold_left existsb].
  rewrite IH by (unfold set_bit; by rewrite length_alter). rewrite set_bit_at by done.
  destruct (j =? i), (existsb (Nat.eqb j) ns); done.
Qed.

Lemma clear_bits_at ns l j : j / 8 < length l ->
  bit_at (fold_left (fun m i => clear_bit i m) ns l) j = negb (existsb (Nat.eqb j) ns) && bit_at l j.
Proof.
  revert l. induction ns as [|i ns IH]; intros l L; [done|]. cbn [fold_left existsb].
  rewrite IH by (unfold clear_bit; by rewrite length_alter). rewrite clear_bit_at by done.
  destruct (j =? i), (existsb (Nat.eqb j) ns); done.
Qed.

Lemma bits_length ns l :
  length (fold_left (fun m i => set_bit i m) ns l) = length l /\
  length (fold_left (fun m i => clear_bit i m) ns l) = length l.
Proof.
  revert l. induction ns as [|i ns IH]; intros l; [done|]. cbn [fold_left].
  rewrite (proj1 (IH _)), (proj2 (IH _)). split; apply length_alter.
Qed.

Lemma existsb_seq j a n : existsb (Nat.eqb j) (seq a n) = (a <=? j) && (j <? a + n).
Proof.
  destruct (existsb _ _) eqn:E.
  - apply existsb_exists in E as (i & Hi%in_seq & ->%Nat.eqb_eq).
    rewrite (proj2 (Nat.leb_le _ _)), (proj2 (Nat.ltb_lt _ _)) by lia. done.
  - destruct ((a <=? j) && (j <? a + n)) eqn:B; [|done]. apply andb_prop in B as [A%Nat.leb_le B%Nat.ltb_lt].
    assert (existsb (Nat.eqb j) (seq a n) = true) as T; [|congruence].
    apply existsb_exists. exists j. rewrite in_seq, Nat.eqb_refl. split; [lia|done].
Qed.

(** The bits of a text of bytes. *)
Definition text_bit (s : str) (j : nat) : bool := bit_at (map byteval s) j.

Lemma text_bit_byteof l j : text_bit (map byteof l) j = bit_at l j.
Proof.
  unfold text_bit, bit_at. rewrite map_map. change (map ?f l) with (f <$> l).
  rewrite list_lookup_fmap. destruct (l !! (j / 8)) as [b|]; [|done]. cbn.
  rewrite byteval_byteof. change 256%Z with (2 ^ 8)%Z.
  pose proof (Nat.mod_upper_bound j 8 ltac:(lia)). apply Z.mod_pow2_bits_low. lia.
Qed.

(** NET.IP_NET_MASK has exactly its first bits set, and NET.IP_TRUNC keeps exactly
    the first bits of an address: truncating is masking, for both lengths of
    addresses and every prefix length allowed. *)
Theorem ip_trunc_masks (ip : str) (p : Z) :
  (length ip = 4 \/ length ip = 16) -> (0 <= p <= 8 * Z.of_nat (length ip))%Z ->
  exists mask out,
    NetIpNetMask [SInt64 (Z.of_nat (length ip)); SInt64 p] = Ok (SBytes mask) /\
    NetIpTrunc [SBytes ip; SInt64 p] = Ok (SBytes out) /\
    length mask = length ip /\ length out = length ip /\
    forall j, j < 8 * length ip ->
      text_bit mask j = (j <? Z.to_nat p) /\ text_bit out j = text_bit ip j && text_bit mask j.
Proof.
  intros L P.
  assert (negb ((Z.of_nat (length ip) =? 4)%Z || (Z.of_nat (length ip) =? 16)%Z) = false) as G1
    by (destruct L as [-> | ->]; done).
  assert (negb ((length ip =? 4) || (length ip =? 16)) = false) as G2 by (destruct L as [-> | ->]; done).
  assert ((if (Z.of_nat (length ip) =? 4)%Z then 32%Z else 128%Z) = (8 * Z.of_nat (length ip))%Z) as M1
    by (destruct L as [-> | ->]; done).
  assert ((if (length ip =? 4) then 32%Z else 128%Z) = (8 * Z.of_nat (length ip))%Z) as M2
    by (destruct L as [-> | ->]; done).
  do 2 eexists. split; [|split].
  - unfold NetIpNetMask. cbn [is_null orb Int64Arg ArgIsNull lookup list_lookup mbind outcome_bind].
    rewrite G1. cbv zeta. rewrite M1, (proj2 (Z.ltb_ge p 0)), (proj2 (Z.ltb_ge _ p)) by lia. reflexivity.
  - unfold NetIpTrunc. cbn [is_null orb Int64Arg ArgIsNull lookup list_lookup BytesPayload].
    change (is_kind (SBytes ip) TYPE_BYTES) with true. cbn [negb bytes_value mbind outcome_bind].
    rewrite G2. cbv zeta. rewrite M2, (proj2 (Z.ltb_ge p 0)), (proj2 (Z.ltb_ge _ p)) by lia. reflexivity.
  - rewrite !length_map, (proj1 (bits_length _ _)), (proj2 (bits_length _ _)), length_replicate, length_map, Nat2Z.id.
    split; [done|]. split; [done|]. intros j J.
    assert (j / 8 < length ip) as J' by (apply Nat.Div0.div_lt_upper_bound; lia).
    rewrite !text_bit_byteof, set_bits_at, clear_bits_at by (rewrite ?length_replicate, ?length_map, ?Nat2Z.id; done).
    rewrite !existsb_seq. cbn [Nat.leb andb Nat.add].
    assert (bit_at (replicate (length ip) 0%Z) j = false) as ->.
    { unfold bit_at. rewrite lookup_replicate_2 by done. apply Z.testbit_0_l. }
    rewrite orb_false_r. split; [done|]. fold (text_bit ip j).
    destruct (Z.to_nat p <=? j) eqn:A, (j <? Z.to_nat p) eqn:B; rewrite ?Nat.leb_le, ?Nat.leb_gt in A;
      rewrite ?Nat.ltb_lt, ?Nat.ltb_ge in B; try lia.
    + rewrite (proj2 (Nat.ltb_lt _ _)) by lia. cbn. by rewrite andb_false_r.
    + cbn. by rewrite andb_true_r.
Qed.
End net.

(** ** The hypotheses hold on a concrete address *)

Module NetReference.
Import Reference EvalReference.

(** 10.20.30.40/12 is 10.16.0.0. *)
Lemma ip_trunc_masks_witness :
  exists mask out,
    NetIpNetMask [SInt64 4; SInt64 12] = Ok (SBytes mask) /\
    NetIpTrunc [SBytes (map byteof [10; 20; 30; 40]%Z); SInt64 12] = Ok (SBytes out) /\
    mask = map byteof [255; 240; 0; 0]%Z /\ out = map byteof [10; 16; 0; 0]%Z.
Proof.
  destruct (ip_trunc_masks (map byteof [10; 20; 30; 40]%Z) 12) as (mask & out & M & O & _);
    [by left|by vm_compute|].
  exists mask, out. split; [exact M|]. split; [exact O|]. vm_compute in M, O. by simplify_eq.
Defined.
End NetReference.
