(* ===== verification/GeogFuncs.v ===== *)
(** * GeogFuncs: GEOGRAPHY functions

    Models [semantic/geography_value.cc] and [semantic/functions/geog_funcs.cc]: the
    registry of WKT texts behind GEOGRAPHY values, the readers of WKT and WKB, and
    the ST_ functions with the tests of points and polygons on doubles.

    A value is a pointer to a [GeographyRef] and its text is looked up in a map that
    only grows.  The first section models that map; [geography_registry_persists] shows that
    a text stays with its value, which is the law [GeographyRefs] asks of the two
    functions the ST_ functions use. *)

From S2P Require Import Prelude Order Absl AbslReference Storage SemanticError SqlValue.
From S2P Require Import GoogleSqlReference Arithmetic Operators MathFuncs Casts EvalReference StringFuncs StringProps.

(** ** The registry *)

Section registry.
Context {Ref : Type} `{Countable Ref}.

(** [GeographyFromWkt] on [g_geography_wkt], with the address [new] returned. *)
Definition registry_insert (ref : Ref) (wkt : str) (m : gmap Ref str) : gmap Ref str := <[ref := wkt]> m.

(** [GeographyWkt] of a valid, non-null GEOGRAPHY. *)
Definition registry_wkt (ref : Ref) (m : gmap Ref str) : str := default [] (m !! ref).

(** The registry after some values have been made. *)
Definition registry_run (made : list (Ref * str)) (m : gmap Ref str) : gmap Ref str :=
  fold_left (fun m '(ref, wkt) => registry_insert ref wkt m) made m.

(** The text of a value is found however many values are made after it, since an
    object is never freed and so no later address is its own. *)
Theorem geography_registry_persists (ref : Ref) (wkt : str) (later : list (Ref * str)) (m : gmap Ref str) :
  ref ∉ later.*1 -> registry_wkt ref (registry_run later (registry_insert ref wkt m)) = wkt.
Proof.
  revert m. induction later as [|[r t] later IH] using rev_ind; intros m N.
  - unfold registry_wkt, registry_insert. unfold registry_run. cbn [fold_left]. by rewrite lookup_insert_eq.
  - rewrite fmap_app in N. unfold registry_run. rewrite fold_left_app. cbn [fold_left].
    unfold registry_wkt, registry_insert at 1. rewrite lookup_insert_ne by set_solver. apply IH. set_solver.
Qed.
End registry.

Class GeographyRefs `{GoogleSql} := {
  (** [GeographyFromWkt] *)
  geography_ref : str -> GeographyValue;
  (** the registered text, empty when there is none *)
  geography_wkt : GeographyValue -> str;
}.

Class GeographyRefsLaws `{GeographyRefs} : Prop := {
  geography_wkt_ref s : geography_wkt (geography_ref s) = s;
}.

(** ** Doubles *)

(** [std::fmod], which is exact and keeps the sign of the dividend. *)
Definition c_fmod (x y : spec_float) : spec_float :=
  match x, y with
  | S754_nan, _ | _, S754_nan | S754_infinity _, _ | _, S754_zero _ => S754_nan
  | _, S754_infinity _ | S754_zero _, _ => x
  | S754_finite sx mx ex, S754_finite _ my ey =>
      let e := Z.min ex ey in
      let r := (Z.shiftl (Z.pos mx) (ex - e) mod Z.shiftl (Z.pos my) (ey - e))%Z in
      if (r =? 0)%Z then S754_zero sx
      else binary_normalize 53 1024 (if sx then - r else r)%Z e sx
  end.

(** The double with the given bits. *)
Definition dbl_of_bits (bits : Z) : spec_float :=
  let s := Z.testbit bits 63 in
  let e := Z.land (Z.shiftr bits 52) 2047 in
  let f := Z.land bits (2 ^ 52 - 1) in
  if (e =? 2047)%Z then (if (f =? 0)%Z then S754_infinity s else S754_nan)
  else if (e =? 0)%Z then match f with Z.pos m => S754_finite s m (-1074) | _ => S754_zero s end
  else match (f + 2 ^ 52)%Z with Z.pos m => S754_finite s m (e - 1075) | _ => S754_nan end.

(** The literals [3.14159265358979323846], [6371000.0], [1e-9] and [1e-30]. *)
Definition kPi : spec_float := S754_finite false 7074237752028440 (-51).
Definition kEarthRadiusMeters : spec_float := dbl_of_Z 6371000.
Definition kDegreeToRad : spec_float := dbl_div kPi (dbl_of_Z 180).
Definition dbl_1e_9 : spec_float := S754_finite false 4835703278458517 (-82).
Definition dbl_1e_30 : spec_float := S754_finite false 5708990770823840 (-152).

Section geog.
Context `{AbslText, AbslDouble, GoogleSqlOps, CMath} `{!CastLibrary, !StringLibrary, !GeographyRefs}.

Definition GeographyFromWkt (wkt : str) : Value := SGeography (geography_ref wkt).

Definition GeographyWkt (v : Value) : str :=
  match v with SGeography g => geography_wkt g | _ => [] end.

Definition GeographySqlLiteral (v : Value) : StatusOr str :=
  if is_null v then Ok $"NULL"
  else match GeographyWkt v with
  | [] => Err (InvalidArgumentError $"semantic: geography value has no WKT payload")
  | wkt =>
      match strip_prefix $"POINT(" wkt with
      | Some inner =>
          let inner := if bool_decide (last inner = Some ")"%char) then removelast inner else inner in
          match find_sub $" " inner with
          | None => Err (InvalidArgumentError $"semantic: invalid POINT WKT")
          | Some (lng, lat) => Ok ($"ST_GEOGPOINT(" ++ lng ++ $", " ++ lat ++ $")")
          end
      | None => Ok ($"ST_GEOGFROMTEXT('" ++ wkt ++ $"')")
      end
  end.

Definition CoerceDouble (v : Value) : StatusOr spec_float :=
  if is_null v then Err (InvalidArgumentError $"geography argument cannot be NULL")
  else match v with
       | SInt64 z => Ok (dbl_of_Z z)
       | SDouble d => Ok d
       | SFloat d => Ok d
       | _ => Err (InvalidArgumentError $"geography function expects numeric arguments")
       end.

Definition NormalizeLongitude (lng : spec_float) : spec_float :=
  let out := c_fmod (dbl_add lng (dbl_of_Z 180)) (dbl_of_Z 360) in
  let out := if SFltb out dbl_zero then dbl_add out (dbl_of_Z 360) else out in
  dbl_sub out (dbl_of_Z 180).

Definition FormatPointWkt (lng lat : spec_float) : str :=
  $"POINT(" ++ StrDouble lng ++ $" " ++ StrDouble lat ++ $")".

(** [ParsedGeography]: the kind with the fields it uses. *)
Inductive ParsedGeography :=
| kPoint (point_lng point_lat : spec_float)
| kPolygon (ring : list (spec_float * spec_float)).

(** ** WKT *)

Definition coordinate (token : str) (nums : list spec_float) : StatusOr (list spec_float) :=
  match token with
  | [] => Ok nums
  | _ => match SimpleAtod token with
         | Some v => Ok (nums ++ [v])
         | None => Err (InvalidArgumentError $"invalid WKT coordinate")
         end
  end.

Fixpoint number_loop (body token : str) (nums : list spec_float) : StatusOr (list spec_float) :=
  match body with
  | [] => coordinate token nums
  | c :: body =>
      if bool_decide (c = ","%char) || bool_decide (c = " "%char)
      then nums ← coordinate token nums; number_loop body [] nums
      else if bool_decide (c = "("%char) || bool_decide (c = ")"%char) then number_loop body token nums
      else number_loop body (token ++ [c]) nums
  end.

Definition ParseNumberList (body : str) : StatusOr (list spec_float) :=
  nums ← number_loop body [] [];
  if negb (length nums mod 2 =? 0) then Err (InvalidArgumentError $"invalid WKT coordinate pair count")
  else Ok nums.

Fixpoint coordinate_pairs (nums : list spec_float) : list (spec_float * spec_float) :=
  match nums with x :: y :: nums => (x, y) :: coordinate_pairs nums | _ => [] end.

(** The text between the first [opening] and the last [closing] bracket, which is
    to start after [opening] has begun, by [gap] characters at least. *)
Definition bracketed (opening closing : str) (gap : nat) (s : str) : option str :=
  match find_sub opening s, rfind_sub closing s with
  | Some (before, _), Some (upto, _) =>
      let open_ := length before in
      let close := length upto in
      if close <=? open_ + gap then None
      else Some (take (close - open_ - length opening) (drop (open_ + length opening) s))
  | _, _ => None
  end.

Definition ParseWkt (wkt : str) : StatusOr ParsedGeography :=
  let trimmed := StripAsciiWhitespace wkt in
  if bool_decide (trimmed = []) then Err (InvalidArgumentError $"empty WKT")
  else
    let upper := AsciiStrToUpper trimmed in
    if bool_decide (take 5 upper = $"POINT") then
      match bracketed $"(" $")" 0 trimmed with
      | None => Err (InvalidArgumentError $"invalid POINT WKT")
      | Some body =>
          nums ← ParseNumberList body;
          match nums with
          | [lng; lat] => Ok (kPoint lng lat)
          | _ => Err (InvalidArgumentError $"POINT WKT expects two coordinates")
          end
      end
    else if bool_decide (take 7 upper = $"POLYGON") then
      match bracketed $"((" $"))" 1 trimmed with
      | None => Err (InvalidArgumentError $"invalid POLYGON WKT")
      | Some body =>
          nums ← ParseNumberList body;
          if (length nums <? 6) then Err (InvalidArgumentError $"POLYGON WKT ring too short")
          else Ok (kPolygon (coordinate_pairs nums))
      end
    else Err (InvalidArgumentError $"semantic: unsupported geography WKT for MVP").

(** ** WKB *)

(** The number of some bytes, the lowest first. *)
Fixpoint le_number (bytes : str) : Z :=
  match bytes with [] => 0 | b :: bytes => Z.lor (byteval b) (Z.shiftl (le_number bytes) 8) end.

Definition ReadUint32LE (p : str) : Z := le_number (take 4 p).
Definition ReadUint32BE (p : str) : Z := le_number (rev (take 4 p)).

Definition ReadDouble (p : str) (little_endian : bool) : spec_float :=
  dbl_of_bits (le_number (if little_endian then take 8 p else rev (take 8 p))).

Definition ParseWkbPoint (wkb : str) : StatusOr ParsedGeography :=
  if (length wkb <? 21) then Err (InvalidArgumentError $"WKB payload too short for POINT")
  else
    let order := byteval (nth 0 wkb "000"%char) in
    if negb (order =? 0)%Z && negb (order =? 1)%Z then Err (InvalidArgumentError $"invalid WKB byte order")
    else
      let little_endian := (order =? 1)%Z in
      let raw_type := if little_endian then ReadUint32LE (drop 1 wkb) else ReadUint32BE (drop 1 wkb) in
      let offset := if negb (Z.land raw_type 536870912 =? 0)%Z then 9 else 5 in
      let geom_type := Z.land raw_type 255 in
      if negb (geom_type =? 1)%Z
      then Err (InvalidArgumentError $"semantic: ST_GEOGFROMWKB MVP supports POINT geometries only")
      else if (length wkb <? offset + 16) then Err (InvalidArgumentError $"WKB POINT payload truncated")
      else
        let lng := ReadDouble (drop offset wkb) little_endian in
        let lat := ReadDouble (drop (offset + 8) wkb) little_endian in
        if SFltb lat (dbl_of_Z (-90)) || SFltb (dbl_of_Z 90) lat
        then Err (InvalidArgumentError $"ST_GEOGFROMWKB latitude must be between -90 and 90")
        else Ok (kPoint (NormalizeLongitude lng) lat).

Definition ParseGeographyArg (v : Value) : StatusOr ParsedGeography :=
  if is_null v then Err (InvalidArgumentError $"unexpected NULL geography")
  else if negb (is_kind v TYPE_GEOGRAPHY) then Err (InvalidArgumentError $"expected GEOGRAPHY argument")
  else match GeographyWkt v with
       | [] => Err (InvalidArgumentError $"geography value has no WKT payload")
       | wkt => ParseWkt wkt
       end.

(** ** Points and polygons *)

Definition HaversineMeters (lng1 lat1 lng2 lat2 : spec_float) : spec_float :=
  let phi1 := dbl_mul lat1 kDegreeToRad in
  let phi2 := dbl_mul lat2 kDegreeToRad in
  let d_phi := dbl_mul (dbl_sub lat2 lat1) kDegreeToRad in
  let d_lambda := dbl_mul (dbl_sub lng2 lng1) kDegreeToRad in
  let half x := c_sin (dbl_div x (dbl_of_Z 2)) in
  let a := dbl_add (dbl_mul (half d_phi) (half d_phi))
             (dbl_mul (dbl_mul (dbl_mul (c_cos phi1) (c_cos phi2)) (half d_lambda)) (half d_lambda)) in
  let c := dbl_mul (dbl_of_Z 2) (c_atan2 (dbl_sqrt a) (dbl_sqrt (dbl_sub (dbl_of_Z 1) a))) in
  dbl_mul kEarthRadiusMeters c.

(** The edge from [pj] to [pi] crosses the ray from the point. *)
Definition edge_crosses (lng lat : spec_float) (pi pj : spec_float * spec_float) : bool :=
  let '(xi, yi) := pi in
  let '(xj, yj) := pj in
  let rise := dbl_sub yj yi in
  negb (Bool.eqb (SFltb lat yi) (SFltb lat yj)) &&
  SFltb lng (dbl_add (dbl_div (dbl_mul (dbl_sub xj xi) (dbl_sub lat yi))
                        (if SFeqb rise dbl_zero then dbl_1e_30 else rise)) xi).

Fixpoint polygon_loop (lng lat : spec_float) (pj : spec_float * spec_float)
    (ring : list (spec_float * spec_float)) (inside : bool) : bool :=
  match ring with
  | [] => inside
  | pi :: ring => polygon_loop lng lat pi ring (if edge_crosses lng lat pi pj then negb inside else inside)
  end.

Definition PointInPolygon (lng lat : spec_float) (ring : list (spec_float * spec_float)) : bool :=
  match last ring with
  | Some pj => polygon_loop lng lat pj ring false
  | None => false
  end.

Definition PointsEqual (lng1 lat1 lng2 lat2 : spec_float) : bool :=
  SFltb (SFabs (dbl_sub lng1 lng2)) dbl_1e_9 && SFltb (SFabs (dbl_sub lat1 lat2)) dbl_1e_9.

(** ** The functions *)

Definition NullGeography : Value := SNull TGeography.

Definition StGeogPoint (args : list Value) : StatusOr Value :=
  match args with
  | [a; b] =>
      if is_null a || is_null b then Ok NullGeography
      else
        lng ← CoerceDouble a;
        lat ← CoerceDouble b;
        if SFltb lat (dbl_of_Z (-90)) || SFltb (dbl_of_Z 90) lat
        then Err (InvalidArgumentError $"ST_GEOGPOINT latitude must be between -90 and 90")
        else Ok (GeographyFromWkt (FormatPointWkt (NormalizeLongitude lng) lat))
  | _ => Err (InvalidArgumentError $"semantic: ST_GEOGPOINT expects two arguments")
  end.

Definition polygon_wkt (ring : list (spec_float * spec_float)) : str :=
  $"POLYGON((" ++ join_text $", " (map (fun p => StrDouble p.1 ++ $" " ++ StrDouble p.2) ring) ++ $"))".

Definition StGeogFromText (args : list Value) : StatusOr Value :=
  match args with
  | v :: rest =>
      if (3 <? length rest)
      then Err (InvalidArgumentError $"semantic: ST_GEOGFROMTEXT expects one to four arguments")
      else if is_null v then Ok NullGeography
      else if negb (is_kind v TYPE_STRING) then Err (InvalidArgumentError $"ST_GEOGFROMTEXT expects STRING WKT")
      else
        parsed ← ParseWkt (string_value v);
        Ok (GeographyFromWkt match parsed with
                             | kPoint lng lat => FormatPointWkt lng lat
                             | kPolygon ring => polygon_wkt ring
                             end)
  | [] => Err (InvalidArgumentError $"semantic: ST_GEOGFROMTEXT expects one to four arguments")
  end.

Definition StGeogFromWkb (args : list Value) : StatusOr Value :=
  match args with
  | [v] =>
      if is_null v then Ok NullGeography
      else if negb (is_kind v TYPE_BYTES) then Err (InvalidArgumentError $"ST_GEOGFROMWKB expects BYTES WKB")
      else
        parsed ← ParseWkbPoint (bytes_value v);
        Ok (GeographyFromWkt match parsed with
                             | kPoint lng lat => FormatPointWkt lng lat
                             | kPolygon _ => FormatPointWkt dbl_zero dbl_zero
                             end)
  | _ => Err (InvalidArgumentError $"semantic: ST_GEOGFROMWKB expects one BYTES argument")
  end.

Definition StAsText (args : list Value) : StatusOr Value :=
  match args with
  | [v] =>
      if is_null v then Ok NullString
      else match GeographyWkt v with
           | [] => Err (InvalidArgumentError $"geography value has no WKT payload")
           | wkt => Ok (SString wkt)
           end
  | _ => Err (InvalidArgumentError $"semantic: ST_ASTEXT expects one argument")
  end.

Definition StDistance (args : list Value) : StatusOr Value :=
  match args with
  | a :: b :: ([] | [_]) =>
      if is_null a || is_null b then Ok NullDouble
      else
        g1 ← ParseGeographyArg a;
        g2 ← ParseGeographyArg b;
        match g1, g2 with
        | kPoint lng1 lat1, kPoint lng2 lat2 => Ok (SDouble (HaversineMeters lng1 lat1 lng2 lat2))
        | _, _ => Err (InvalidArgumentError $"semantic: ST_DISTANCE MVP supports POINT geometries only")
        end
  | _ => Err (InvalidArgumentError $"semantic: ST_DISTANCE expects two or three arguments")
  end.

Definition vertex_inside (ring outer : list (spec_float * spec_float)) : bool :=
  existsb (fun p => PointInPolygon p.1 p.2 outer) ring.

Definition geographies_intersect (g1 g2 : ParsedGeography) : bool :=
  match g1, g2 with
  | kPoint lng1 lat1, kPoint lng2 lat2 => PointsEqual lng1 lat1 lng2 lat2
  | kPolygon ring, kPoint lng lat => PointInPolygon lng lat ring
  | kPoint lng lat, kPolygon ring => PointInPolygon lng lat ring
  | kPolygon ring1, kPolygon ring2 => vertex_inside ring1 ring2 || vertex_inside ring2 ring1
  end.

(** The last error of the code needs a third kind. *)
Definition StIntersects (args : list Value) : StatusOr Value :=
  match args with
  | [a; b] =>
      if is_null a || is_null b then Ok NullBool
      else
        g1 ← ParseGeographyArg a;
        g2 ← ParseGeographyArg b;
        Ok (SBool (geographies_intersect g1 g2))
  | _ => Err (InvalidArgumentError $"semantic: ST_INTERSECTS expects two arguments")
  end.

Definition StContains (args : list Value) : StatusOr Value :=
  match args with
  | [a; b] =>
      if is_null a || is_null b then Ok NullBool
      else
        outer ← ParseGeographyArg a;
        inner ← ParseGeographyArg b;
        match outer, inner with
        | kPolygon ring, kPoint lng lat => Ok (SBool (PointInPolygon lng lat ring))
        | kPoint lng1 lat1, kPoint lng2 lat2 => Ok (SBool (PointsEqual lng1 lat1 lng2 lat2))
        | _, _ => Err (InvalidArgumentError $"semantic: ST_CONTAINS MVP supports POLYGON contains POINT")
        end
  | _ => Err (InvalidArgumentError $"semantic: ST_CONTAINS expects two arguments")
  end.

Definition StWithin (args : list Value) : StatusOr Value :=
  match args with
  | [a; b] => if is_null a || is_null b then Ok NullBool else StContains [b; a]
  | _ => Err (InvalidArgumentError $"semantic: ST_WITHIN expects two arguments")
  end.

Definition EmuFormatTypeLiteral (args : list Value) : StatusOr Value :=
  match args with
  | [v] =>
      if is_kind v TYPE_GEOGRAPHY then SString <$> GeographySqlLiteral v
      else if is_null v then Ok (SString $"NULL")
      else if is_kind v TYPE_RANGE then Ok (SString (lib_GetSQLLiteral v))
      else FormatString [SString $"%T"; v]
  | _ => Err (InvalidArgumentError $"semantic: emu_format_t expects one argument")
  end.
End geog.

(** ** Tests of points and polygons *)

Section geog_props.
Context `{AbslText, AbslDouble, GoogleSqlOps, CMath} `{!CastLibrary, !StringLibrary, !GeographyRefs}.

Lemma polygon_loop_parity lng lat pj ring inside :
  polygon_loop lng lat pj ring inside = xorb inside (polygon_loop lng lat pj ring false).
Proof.
  revert pj inside. induction ring as [|p ring IH]; intros pj inside; cbn; [by destruct inside|].
  rewrite IH, (IH p (if edge_crosses _ _ _ _ then _ else _)).
  destruct (edge_crosses _ _ _ _), inside, (polygon_loop _ _ p ring false); done.
Qed.

Lemma polygon_loop_app lng lat pj r1 p r2 inside :
  polygon_loop lng lat pj (r1 ++ p :: r2) inside =
  polygon_loop lng lat p r2 (polygon_loop lng lat pj (r1 ++ [p]) inside).
Proof. revert pj inside. induction r1 as [|q r1 IH]; intros pj inside; cbn; [done|]. apply IH. Qed.

Lemma polygon_loop_split lng lat pj r1 p r2 :
  polygon_loop lng lat pj (r1 ++ p :: r2) false =
  xorb (polygon_loop lng lat pj (r1 ++ [p]) false) (polygon_loop lng lat p r2 false).
Proof. by rewrite polygon_loop_app, polygon_loop_parity. Qed.

Lemma point_in_snoc lng lat r p :
  PointInPolygon lng lat (r ++ [p]) = polygon_loop lng lat p (r ++ [p]) false.
Proof. unfold PointInPolygon. by rewrite last_snoc. Qed.

(** Whether a point is in a polygon does not depend on the vertex the ring starts
    with. *)
Theorem point_in_polygon_rotate lng lat (r1 r2 : list (spec_float * spec_float)) :
  PointInPolygon lng lat (r1 ++ r2) = PointInPolygon lng lat (r2 ++ r1).
Proof.
  destruct r1 as [|p1 r1 _] using rev_ind; [by rewrite app_nil_r|].
  destruct r2 as [|p2 r2 _] using rev_ind; [by rewrite app_nil_r|].
  rewrite !app_assoc, !point_in_snoc, <- !app_assoc. cbn [app].
  rewrite (polygon_loop_split _ _ p2 r1 p1 (r2 ++ [p2])), (polygon_loop_split _ _ p1 r2 p2 (r1 ++ [p1])). apply xorb_comm.
Qed.

Lemma binary_round_sign m e s : SFabs (binary_round 53 1024 s m e) = SFabs (binary_round 53 1024 (negb s) m e).
Proof.
  unfold binary_round, binary_round_aux. destruct (shl_align _ _ _) as [mz ez].
  destruct (shr_fexp _ _ _ _ _) as [r1 e1]. destruct (shr_fexp _ _ _ _ _) as [r2 e2].
  destruct (shr_m r2); [done| |done]. by destruct (_ <=? _)%Z.
Qed.

Lemma dbl_sub_distance x y : SFabs (dbl_sub x y) = SFabs (dbl_sub y x).
Proof.
  unfold dbl_sub, SFsub. destruct x as [[]|[]| |sx mx ex], y as [[]|[]| |sy my ey]; try done.
  rewrite (Z.min_comm ey ex). rewrite <- (Z.opp_involutive (_ - cond_Zopp sy _)), Z.opp_sub_distr, Z.add_comm.
  change (?a + - ?b)%Z with (a - b)%Z.
  match goal with |- SFabs (binary_normalize _ _ (- ?z) _ _) = _ => replace (cond_Zopp sy _ - _)%Z with z by lia;
    destruct z; cbn [Z.opp binary_normalize]; [done|..]; apply binary_round_sign end.
Qed.

Lemma points_equal_sym lng1 lat1 lng2 lat2 : PointsEqual lng1 lat1 lng2 lat2 = PointsEqual lng2 lat2 lng1 lat1.
Proof. unfold PointsEqual. by rewrite (dbl_sub_distance lng1), (dbl_sub_distance lat1). Qed.

(** ST_INTERSECTS does not depend on the order of its arguments: it returns the
    same value both ways, or an error both ways. *)
Theorem intersects_symmetric (a b : Value) :
  match StIntersects [a; b] with
  | Ok v => StIntersects [b; a] = Ok v
  | Err _ => exists e, StIntersects [b; a] = Err e
  end.
Proof.
  cbn. rewrite (orb_comm (is_null b)). destruct (is_null a || is_null b); [done|].
  destruct (ParseGeographyArg a) as [g1|e1], (ParseGeographyArg b) as [g2|e2]; cbn; try by eexists.
  do 2 f_equal. destruct g1, g2; cbn; [apply points_equal_sym|done|done|apply orb_comm].
Qed.

(** ** WKB *)

Definition point_of (lng lat : spec_float) : StatusOr ParsedGeography :=
  if SFltb lat (dbl_of_Z (-90)) || SFltb (dbl_of_Z 90) lat
  then Err (InvalidArgumentError $"ST_GEOGFROMWKB latitude must be between -90 and 90")
  else Ok (kPoint (NormalizeLongitude lng) lat).

Definition wkb_le (x y : str) : str := map byteof [1; 1; 0; 0; 0]%Z ++ x ++ y.
Definition wkb_be (x y : str) : str := map byteof [0; 0; 0; 0; 1]%Z ++ rev x ++ rev y.

(** The two byte orders of WKB read the same point: eight bytes and eight bytes
    after the little-endian header, or each reversed after the big-endian one. *)
Theorem wkb_byte_orders (x y more : str) :
  length x = 8 -> length y = 8 ->
  ParseWkbPoint (wkb_le x y ++ more) = point_of (dbl_of_bits (le_number x)) (dbl_of_bits (le_number y)) /\
  ParseWkbPoint (wkb_be x y ++ more) = point_of (dbl_of_bits (le_number x)) (dbl_of_bits (le_number y)).
Proof.
  intros Lx Ly. unfold ParseWkbPoint, wkb_le, wkb_be, ReadDouble. rewrite !length_app, !length_rev, Lx, Ly.
  rewrite !(proj2 (Nat.ltb_ge _ _)) by (cbn; lia).
  cbn [map app nth drop Nat.add]. split.
  - change (byteval (byteof 1)) with 1%Z. cbn [Z.eqb Pos.eqb negb andb].
    match goal with |- context [ReadUint32LE ?t] => change (ReadUint32LE t) with 1%Z end. change (Z.land 1 536870912) with 0%Z. change (Z.land 1 255) with 1%Z. cbn [Z.eqb Pos.eqb negb].
    rewrite (proj2 (Nat.ltb_ge _ _)) by (cbn; lia). cbn [skipn Nat.add].
    rewrite drop_0, <- !app_assoc, (take_app_length' x _ 8), (drop_app_length' x _ 8), (take_app_length' y _ 8) by done. done.
  - change (byteval (byteof 0)) with 0%Z. cbn [Z.eqb Pos.eqb negb andb].
    match goal with |- context [ReadUint32BE ?t] => change (ReadUint32BE t) with 1%Z end. change (Z.land 1 536870912) with 0%Z. change (Z.land 1 255) with 1%Z. cbn [Z.eqb Pos.eqb negb].
    rewrite (proj2 (Nat.ltb_ge _ _)) by (cbn; lia). cbn [skipn Nat.add].
    rewrite drop_0, <- !app_assoc, (take_app_length' (rev x) _ 8), (drop_app_length' (rev x) _ 8), (take_app_length' (rev y) _ 8)
      by (by rewrite length_rev). by rewrite !rev_involutive.
Qed.
End geog_props.

(** ** Concrete inputs *)

Module GeogReference.
Import Reference EvalReference.

Lemma geography_registry_persists_witness :
  registry_wkt 1 (registry_run [(2, $"POINT(3 4)")] (registry_insert 1 $"POINT(1 2)" ∅)) = $"POINT(1 2)".
Proof. apply geography_registry_persists. by vm_compute; set_solver. Defined.

(** A square and a point in it, with the ring started at each vertex. *)
Example unit_square :
  let pt x y := (dbl_of_Z x, dbl_of_Z y) in
  let square := [pt 0 0; pt 0 4; pt 4 4; pt 4 0]%Z in
  PointInPolygon (dbl_of_Z 1) (dbl_of_Z 2) square = true /\
  PointInPolygon (dbl_of_Z 1) (dbl_of_Z 2) (drop 2 square ++ take 2 square) = true /\
  PointInPolygon (dbl_of_Z 5) (dbl_of_Z 2) square = false.
Proof. vm_compute. done. Qed.

Example normalized : map NormalizeLongitude (map dbl_of_Z [190; -190; 180; 540; 10]%Z) =
  map dbl_of_Z [-170; 170; -180; -180; 10]%Z.
Proof. vm_compute. done. Qed.

(** The point with longitude 2 and latitude 1, little-endian. *)
Lemma wkb_byte_orders_witness :
  let x := map byteof [0; 0; 0; 0; 0; 0; 0; 64]%Z in
  let y := map byteof [0; 0; 0; 0; 0; 0; 240; 63]%Z in
  ParseWkbPoint (wkb_le x y ++ []) = Ok (kPoint (dbl_of_Z 2) (dbl_of_Z 1)).
Proof.
  intros x y. transitivity (point_of (dbl_of_bits (le_number x)) (dbl_of_bits (le_number y))).
  - apply (wkb_byte_orders x y []); done.
  - vm_compute. done.
Defined.
End GeogReference.
