(* ===== verification/JsonFuncs.v ===== *)
(** * JsonFuncs: JSON functions

    Models [semantic/functions/json_funcs.cc] and [json_funcs_extract_helpers.cc].
    GoogleSQL's JSON documents, its parser, its path evaluator and its conversions
    are the class [JsonLibrary].  A JSON value is its text: a value that holds a
    parsed document is the text of that document. *)

From S2P Require Import Prelude Order Absl AbslReference Storage SemanticError SqlValue.
From S2P Require Import GoogleSqlReference Arithmetic Operators MathFuncs Casts EvalReference StringFuncs StringProps GeogFuncs.

Class JsonLibrary := {
  JSONValue : Type;
  ParseJSONString : str -> option JSONValue;
  json_ToString : JSONValue -> str;
  json_IsNull : JSONValue -> bool;
  json_IsString : JSONValue -> bool;
  json_IsNumber : JSONValue -> bool;
  json_IsBoolean : JSONValue -> bool;
  json_IsObject : JSONValue -> bool;
  json_IsArray : JSONValue -> bool;
  json_GetString : JSONValue -> str;
  json_GetArraySize : JSONValue -> nat;
  json_GetArrayElement : JSONValue -> nat -> JSONValue;
  json_GetMemberIfExists : JSONValue -> str -> option JSONValue;
  ConvertJsonToBool : JSONValue -> StatusOr bool;
  ConvertJsonToInt64 : JSONValue -> StatusOr Z;
  (** with [kRound] and the external product mode *)
  ConvertJsonToDouble : JSONValue -> StatusOr spec_float;
  ConvertJsonToString : JSONValue -> StatusOr str;
  JsonPathEvaluator : Type;
  (** [JsonPathEvaluator::Create] of a path in or out of SQL standard mode; values
      and keys are escaped *)
  JsonPath_Create : str -> bool -> StatusOr JsonPathEvaluator;
  (** [None] is the null result *)
  JsonPath_Extract : JsonPathEvaluator -> str -> StatusOr (option str);
  JsonPath_ExtractScalar : JsonPathEvaluator -> str -> StatusOr (option str);
  JsonPath_ExtractArray : JsonPathEvaluator -> str -> StatusOr (option (list str));
  JsonPath_ExtractStringArray : JsonPathEvaluator -> str -> StatusOr (option (list (option str)));
}.

Section json.
Context `{AbslText, AbslDouble, GoogleSqlOps, CMath} `{!CastLibrary, !StringLibrary, !GeographyRefs, !JsonLibrary}.

Definition NullForReturnType (return_type : option SqlType) : Value :=
  match return_type with
  | None => NullString
  | Some t =>
      match kind t with
      | TYPE_BOOL => NullBool
      | TYPE_INT64 => NullInt64
      | TYPE_DOUBLE => NullDouble
      | TYPE_STRING => NullString
      | TYPE_JSON => SNull TJson
      | TYPE_ARRAY => SNull t
      | _ => NullString
      end
  end.

Definition invalid_json (m : str) : Status := MakeSemanticError rInvalidArgument m.
Definition not_text : Status := invalid_json $"semantic: JSON function first arg must be STRING or JSON".

Definition JsonInputText (arg : Value) : StatusOr str :=
  match arg with
  | SJson text => Ok text
  | SString s => Ok s
  | _ => Err not_text
  end.

Definition JsonRefFromArg (arg : Value) : StatusOr JSONValue :=
  match arg with
  | SJson text | SString text =>
      match ParseJSONString text with
      | Some doc => Ok doc
      | None => Err (invalid_json $"semantic: invalid JSON input")
      end
  | _ => Err not_text
  end.

Definition PathFromArgs (args : list Value) (path_index : nat) (default_root : bool) : StatusOr str :=
  match args !! path_index with
  | None => if default_root then Ok $"$"
            else Err (invalid_json $"semantic: JSON function missing path argument")
  | Some v =>
      if is_null v then Err (invalid_json $"semantic: JSON path must not be NULL")
      else if negb (is_kind v TYPE_STRING) then Err (invalid_json $"semantic: JSON path must be STRING")
      else Ok (string_value v)
  end.

Definition MakeEvaluator (path : str) (sql_standard_mode : bool) : StatusOr JsonPathEvaluator :=
  JsonPath_Create path sql_standard_mode.

(** The second argument is NULL; [PathFromArgs] has refused it before. *)
Definition path_is_null (args : list Value) : bool :=
  match args !! 1 with Some v => is_null v | None => false end.

Definition ExtractJsonText (args : list Value) (return_type : option SqlType) (sql_standard_mode : bool)
    : StatusOr Value :=
  match args with
  | [] => Err (InvalidArgumentError $"semantic: JSON extract function expects at least one argument")
  | v :: _ =>
      if is_null v then Ok (NullForReturnType return_type)
      else
        path ← PathFromArgs args 1 false;
        if path_is_null args then Ok (NullForReturnType return_type)
        else match JsonInputText v with
        | Err _ => Ok (NullForReturnType return_type)
        | Ok json_text =>
            evaluator ← MakeEvaluator path sql_standard_mode;
            out ← JsonPath_Extract evaluator json_text;
            Ok (match out with Some s => SString s | None => NullForReturnType return_type end)
        end
  end.

Definition ExtractScalarText (args : list Value) (return_type : option SqlType) (sql_standard_mode : bool)
    : StatusOr Value :=
  match args with
  | [] => Err (InvalidArgumentError $"semantic: JSON scalar extract expects at least one argument")
  | v :: _ =>
      if is_null v then Ok (NullForReturnType return_type)
      else
        path ← PathFromArgs args 1 false;
        if path_is_null args then Ok (NullForReturnType return_type)
        else match JsonInputText v with
        | Err _ => Ok (NullForReturnType return_type)
        | Ok json_text =>
            evaluator ← MakeEvaluator path sql_standard_mode;
            out ← JsonPath_ExtractScalar evaluator json_text;
            Ok (match out with Some s => SString s | None => NullForReturnType return_type end)
        end
  end.

(** ** Arrays *)

Definition ExtractUnquotedStringArray (evaluator : JsonPathEvaluator) (json_text : str)
    : StatusOr (option (list Value)) :=
  elems ← JsonPath_ExtractStringArray evaluator json_text;
  Ok (option_map (map (fun e => match e with Some s => SString s | None => NullString end)) elems).

Definition ExtractRawJsonArray (evaluator : JsonPathEvaluator) (json_text : str) (elem : SqlType)
    : StatusOr (option (list Value)) :=
  let make_elem := if bool_decide (kind elem = TYPE_JSON) then SJson else SString in
  elems ← JsonPath_ExtractArray evaluator json_text;
  Ok (option_map (map make_elem) elems).

Definition ExtractArrayValues (args : list Value) (return_type : option SqlType)
    (sql_standard_mode unquote_strings : bool) : StatusOr Value :=
  match args with
  | [] => Err (InvalidArgumentError $"semantic: JSON_*_ARRAY expects at least one argument")
  | v :: _ =>
      if is_null v then Ok (NullForReturnType return_type)
      else
        path ← PathFromArgs args 1 true;
        if path_is_null args then Ok (NullForReturnType return_type)
        else match return_type with
        | Some (TArray elem) =>
            match JsonInputText v with
            | Err _ => Ok (NullForReturnType return_type)
            | Ok json_text =>
                evaluator ← MakeEvaluator path sql_standard_mode;
                extracted ← (if unquote_strings then ExtractUnquotedStringArray evaluator json_text
                             else ExtractRawJsonArray evaluator json_text elem);
                Ok (match extracted with Some l => SArray elem l | None => NullForReturnType return_type end)
            end
        | _ => Err (InternalError $"semantic: JSON_*_ARRAY missing ARRAY return type")
        end
  end.

Definition JsonExtract (args : list Value) (rt : option SqlType) : StatusOr Value := ExtractJsonText args rt false.
Definition JsonQuery (args : list Value) (rt : option SqlType) : StatusOr Value := ExtractJsonText args rt true.
Definition JsonValue (args : list Value) (rt : option SqlType) : StatusOr Value := ExtractScalarText args rt true.
Definition JsonExtractScalar (args : list Value) (rt : option SqlType) : StatusOr Value :=
  ExtractScalarText args rt false.
Definition JsonExtractArray (args : list Value) (rt : option SqlType) : StatusOr Value :=
  ExtractArrayValues args rt false false.
Definition JsonQueryArray (args : list Value) (rt : option SqlType) : StatusOr Value :=
  ExtractArrayValues args rt true false.
Definition JsonExtractStringArray (args : list Value) (rt : option SqlType) : StatusOr Value :=
  ExtractArrayValues args rt false true.
Definition JsonValueArray (args : list Value) (rt : option SqlType) : StatusOr Value :=
  ExtractArrayValues args rt true true.

(** ** Conversions *)

Definition ParseJson (args : list Value) : StatusOr Value :=
  match args with
  | [] => Ok (SNull TJson)
  | v :: _ =>
      if is_null v then Ok (SNull TJson)
      else if negb (is_kind v TYPE_STRING) then Err (invalid_json $"semantic: PARSE_JSON expects STRING input")
      else match ParseJSONString (string_value v) with
           | Some doc => Ok (SJson (json_ToString doc))
           | None => Err (invalid_json $"semantic: PARSE_JSON failed to parse input")
           end
  end.

Definition ToJsonString (args : list Value) : StatusOr Value :=
  match args with
  | [SGeography _ as v] => lit ← GeographySqlLiteral v; Ok (SString (quoted_text (Utf8SafeCEscape lit)))
  | _ => ToJson args
  end.

(** The shape the four casts share: the first argument when it already has the
    kind, else its document converted. *)
Definition json_cast {A} (k : TypeKind) (name : str) (null : Value) (convert : JSONValue -> StatusOr A)
    (mk : A -> Value) (args : list Value) : StatusOr Value :=
  match args with
  | [] => Ok null
  | v :: _ =>
      if is_null v then Ok null
      else if is_kind v k then Ok v
      else if negb (is_kind v TYPE_JSON)
      then Err (MakeSemanticError rNotImplemented
                  ($"semantic: " ++ name ++ $" cast from this type is not yet implemented"))
      else ref ← JsonRefFromArg v; mk <$> convert ref
  end.

Definition JsonCastBool : list Value -> StatusOr Value := json_cast TYPE_BOOL $"BOOL" NullBool ConvertJsonToBool SBool.
Definition JsonCastInt64 : list Value -> StatusOr Value :=
  json_cast TYPE_INT64 $"INT64" NullInt64 ConvertJsonToInt64 SInt64.
Definition JsonCastFloat64 : list Value -> StatusOr Value :=
  json_cast TYPE_DOUBLE $"FLOAT64" NullDouble ConvertJsonToDouble SDouble.
Definition JsonCastString : list Value -> StatusOr Value :=
  json_cast TYPE_STRING $"STRING" NullString ConvertJsonToString SString.

(** ** Access *)

Definition JsonRefToSemanticValue (ref : JSONValue) (return_type : option SqlType) : Value :=
  if json_IsNull ref then NullForReturnType return_type
  else if bool_decide (return_type = Some TJson) then SJson (json_ToString ref)
  else if bool_decide (return_type = Some TString) && json_IsString ref then SString (json_GetString ref)
  else SString (json_ToString ref).

Definition json_member (ref : JSONValue) (name : str) (return_type : option SqlType) : Value :=
  if negb (json_IsObject ref) then NullForReturnType return_type
  else match json_GetMemberIfExists ref name with
       | Some member => JsonRefToSemanticValue member return_type
       | None => NullForReturnType return_type
       end.

Definition JsonGetField (base : Value) (field_name : str) (return_type : option SqlType) : StatusOr Value :=
  if is_null base then Ok (NullForReturnType return_type)
  else ref ← JsonRefFromArg base; Ok (json_member ref field_name return_type).

Definition JsonSubscript (args : list Value) (return_type : option SqlType) : StatusOr Value :=
  match args with
  | [base; index] =>
      if is_null base || is_null index then Ok (NullForReturnType return_type)
      else
        ref ← JsonRefFromArg base;
        match index with
        | SInt64 idx =>
            Ok (if negb (json_IsArray ref) then NullForReturnType return_type
                else if (idx <? 0)%Z || (Z.of_nat (json_GetArraySize ref) <=? idx)%Z then NullForReturnType return_type
                else JsonRefToSemanticValue (json_GetArrayElement ref (Z.to_nat idx)) return_type)
        | SString name => Ok (json_member ref name return_type)
        | _ => Err (invalid_json $"semantic: $subscript index must be INT64 or STRING")
        end
  | _ => Err (InvalidArgumentError $"semantic: $subscript expects two arguments")
  end.

Definition JsonTypeFunc (args : list Value) : StatusOr Value :=
  match args with
  | [v] =>
      if is_null v then Ok NullString
      else
        ref ← JsonRefFromArg v;
        Ok (if json_IsNull ref then SString $"null"
            else if json_IsString ref then SString $"string"
            else if json_IsNumber ref then SString $"number"
            else if json_IsBoolean ref then SString $"boolean"
            else if json_IsObject ref then SString $"object"
            else if json_IsArray ref then SString $"array"
            else NullString)
  | _ => Err (InvalidArgumentError $"semantic: JSON_TYPE expects one argument")
  end.
End json.

(** ** What they return *)

Section json_props.
Context `{AbslText, AbslDouble, GoogleSqlOps, CMath} `{!CastLibrary, !StringLibrary, !GeographyRefs, !JsonLibrary}.

(** A field read with a dot is the field read with a subscript, errors included. *)
Theorem json_field_is_subscript (base : Value) (name : str) (rt : option SqlType) :
  JsonGetField base name rt = JsonSubscript [base; SString name] rt.
Proof. unfold JsonGetField, JsonSubscript. cbn [is_null]. rewrite orb_false_r. by destruct (is_null base). Qed.

(** A NULL path is an error in every function that takes a path, whatever the
    document: the NULL result the code has for it is never reached. *)
Theorem json_null_path_refused (doc : Value) (t : SqlType) (rt : option SqlType) (mode unquote : bool) :
  is_null doc = false ->
  let refused := Err (invalid_json $"semantic: JSON path must not be NULL") in
  ExtractJsonText [doc; SNull t] rt mode = refused /\ ExtractScalarText [doc; SNull t] rt mode = refused /\
  ExtractArrayValues [doc; SNull t] rt mode unquote = refused.
Proof. intros N. cbn. by rewrite N. Qed.

Class JsonLibraryLaws : Prop := {
  ParseJSONString_ToString doc : ParseJSONString (json_ToString doc) = Some doc;
}.
Context `{!JsonLibraryLaws}.

(** PARSE_JSON normalises: the JSON it returns is read back as the document that was
    parsed, so reading a field or element of it is reading it in the input text, and
    parsing its text again changes nothing. *)
Theorem parse_json_normalises (s : str) (v : Value) :
  ParseJson [SString s] = Ok v ->
  exists text, v = SJson text /\ ParseJson [SString text] = Ok v /\
    (forall rt index, JsonSubscript [v; index] rt = JsonSubscript [SString s; index] rt) /\
    JsonTypeFunc [v] = JsonTypeFunc [SString s].
Proof.
  unfold ParseJson. cbn [is_null]. change (is_kind (SString _) TYPE_STRING) with true. cbn [negb string_value].
  destruct (ParseJSONString s) as [doc|] eqn:P; [|done]. intros [= <-]. exists (json_ToString doc).
  rewrite ParseJSONString_ToString. split_and!; [done..| |].
  - intros rt index. unfold JsonSubscript, JsonRefFromArg. by rewrite P, ParseJSONString_ToString.
  - unfold JsonTypeFunc, JsonRefFromArg. by rewrite P, ParseJSONString_ToString.
Qed.
End json_props.

(** ** The laws hold of a small JSON *)

Module JsonReference.
Import Reference EvalReference StringReference.

(** Documents that are booleans, texts without quotes, and arrays of booleans. *)
Inductive document := JBool (b : bool) | JBools (l : list bool).

Definition bit_char (b : bool) : ascii := if b then "t"%char else "f"%char.

Definition print (d : document) : str :=
  match d with
  | JBool b => [bit_char b]
  | JBools l => "["%char :: map bit_char l
  end.

Definition read_bit (c : ascii) : option bool :=
  if bool_decide (c = "t"%char) then Some true else if bool_decide (c = "f"%char) then Some false else None.

Definition read (s : str) : option document :=
  match s with
  | "["%char :: s => JBools <$> mapM read_bit s
  | [c] => JBool <$> read_bit c
  | _ => None
  end.

#[export] Instance reference_refs : GeographyRefs := {| geography_ref s := s; geography_wkt s := s |}.

#[export] Instance reference_json : JsonLibrary := {|
  JSONValue := document;
  ParseJSONString := read;
  json_ToString := print;
  json_IsNull _ := false;
  json_IsString _ := false;
  json_IsNumber _ := false;
  json_IsBoolean d := match d with JBool _ => true | _ => false end;
  json_IsObject _ := false;
  json_IsArray d := match d with JBools _ => true | _ => false end;
  json_GetString _ := [];
  json_GetArraySize d := match d with JBools l => length l | _ => 0 end;
  json_GetArrayElement d i := match d with JBools l => JBool (nth i l false) | _ => d end;
  json_GetMemberIfExists _ _ := None;
  ConvertJsonToBool d := match d with JBool b => Ok b | _ => undefined_here end;
  ConvertJsonToInt64 _ := undefined_here;
  ConvertJsonToDouble _ := undefined_here;
  ConvertJsonToString _ := undefined_here;
  JsonPathEvaluator := unit;
  JsonPath_Create _ _ := Ok ();
  JsonPath_Extract _ s := Ok (Some s);
  JsonPath_ExtractScalar _ s := Ok (Some s);
  JsonPath_ExtractArray _ _ := Ok None;
  JsonPath_ExtractStringArray _ _ := Ok None;
|}.

#[export] Instance reference_json_laws : JsonLibraryLaws.
Proof.
  constructor. intros [b|l]; [by destruct b|]. cbn. assert (mapM read_bit (map bit_char l) = Some l) as ->; [|done].
  induction l as [|b l IH]; [done|]. cbn. rewrite IH. by destruct b.
Qed.

Lemma parse_json_normalises_witness :
  exists text, SJson $"[tf" = SJson text /\ JsonSubscript [SJson $"[tf"; SInt64 1] (Some TJson) = Ok (SJson $"f").
Proof.
  destruct (parse_json_normalises $"[tf" (SJson $"[tf") ltac:(by vm_compute)) as (text & E & _ & R & _).
  exists text. split; [exact E|]. rewrite R. by vm_compute.
Defined.

Lemma json_null_path_refused_witness :
  ExtractJsonText [SJson $"t"; NullString] None true = Err (invalid_json $"semantic: JSON path must not be NULL").
Proof. apply (json_null_path_refused (SJson $"t") TString None true false). reflexivity. Defined.
End JsonReference.
