(* ===== verification/Dispatch.v ===== *)
(** * Dispatch: SQL functions by name

    Models [semantic/functions/dispatch.cc] and the table at the end of [net_funcs.cc].
    Each family is a table of names with the function they call, in the order of the
    tests of the code; a family answers with its first entry that has the name.

    PARSE_BIGNUMERIC is the one function that writes to the evaluation context, so
    [Dispatch] carries that part of it ([RenderOverride]).  The sketches and the
    random bytes of GENERATE_UUID are parameters, and so is [undefined], what a call
    does whose arithmetic is undefined or that aborts ([DIV] and [MOD] of the lowest
    INT64 by -1, a JUSTIFY_ function out of range). *)

From S2P Require Import Prelude Order Absl AbslReference Storage SemanticError Hll SqlValue.
From S2P Require Import GoogleSqlReference Arithmetic FrameStack EvalExpr.
From S2P Require Import Operators MathFuncs Casts EvalReference StringFuncs StringProps ArrayFuncs Kll DatetimeFuncs.
From S2P Require Import NetFuncs GeogFuncs JsonFuncs.

(** The first entry that has the name. *)
Definition first_named {R} (name : str) (t : list (list str * R)) : option R :=
  option_map snd (List.find (fun e => bool_decide (name ∈ e.1)) t).

Section dispatch.
Context `{AbslText, AbslDouble, GoogleSqlOps, CMath} `{!CastLibrary, !StringLibrary, !ArrayLibrary, !DatetimeLibrary}.
Context `{!NetLibrary, !GeographyRefs, !JsonLibrary}.
Context {Int64Sketch Float64Sketch : Type} (int64_ops : SketchOps Z Int64Sketch) (float64_ops : SketchOps spec_float Float64Sketch).
Context (random : list Z) (undefined : StatusOr Value).

Abbreviation Table := (list (list str * StatusOr Value)).
Abbreviation RenderOverride := (option (option str)).

Definition or_undefined (r : option (StatusOr Value)) : StatusOr Value := default undefined r.

(** HLL_COUNT.EXTRACT on the values of its own model. *)
Definition hll_value (v : Value) : HValue :=
  match v with
  | SNull _ => HNull
  | SString s => HString s
  | SBytes s => HBytes s
  | SInt64 z => HInt64 z
  | _ => HOther
  end.

Definition hll_scalar (args : list Value) : StatusOr Value :=
  r ← HllCountExtractScalar (map hll_value args);
  Ok (match r with HInt64 z => SInt64 z | HBytes s => SBytes s | HString s => SString s | _ => NullInt64 end).

(** FORMAT('%T', g) of a GEOGRAPHY. *)
Definition formats_geography (args : list Value) : bool :=
  match args with
  | [f; v] => negb (is_null f) && bool_decide (string_value f = $"%T") && negb (is_null v) && is_kind v TYPE_GEOGRAPHY
  | _ => false
  end.

Definition DispatchCoreAndNumeric_table (args : list Value) (rt : option SqlType) : Table :=
 [
  ([$"$extract"], Extract args rt);
  ([$"$subscript"], JsonSubscript args rt);
  ([$"bit_count"], BitCount args);
  ([$"ieee_divide"], IeeeDivide args)].

Definition DispatchStringBasics_table (args : list Value) : Table :=
 [
  ([$"soundex"], Soundex args);
  ([$"instr"], Instr args);
  ([$"contains_substr"], ContainsSubstr args);
  ([$"ascii"], Ascii args);
  ([$"byte_length"], ByteLength args);
  ([$"char_length"; $"character_length"], CharLength args);
  ([$"octet_length"], OctetLength args);
  ([$"chr"], Chr args);
  ([$"unicode"], Unicode args);
  ([$"concat"], Concat args);
  ([$"length"], Length args);
  ([$"lower"], Lower args);
  ([$"upper"], Upper args);
  ([$"trim"], Trim args);
  ([$"ltrim"], Ltrim args);
  ([$"rtrim"], Rtrim args);
  ([$"lpad"], Lpad args);
  ([$"rpad"], Rpad args)].

Definition DispatchStringSearchAndEncode_table (args : list Value) (rt : option SqlType) : Table :=
 [
  ([$"replace"], Replace args);
  ([$"translate"], Translate args);
  ([$"reverse"], Reverse args);
  ([$"starts_with"], StartsWith args);
  ([$"ends_with"], EndsWith args);
  ([$"left"], Left args);
  ([$"right"], Right args);
  ([$"substr"; $"substring"], Substr args);
  ([$"strpos"], Strpos args);
  ([$"split"], Split args rt);
  ([$"to_hex"], ToHex args);
  ([$"from_hex"], FromHex args);
  ([$"to_base64"], ToBase64 args);
  ([$"from_base64"], FromBase64 args);
  ([$"to_base32"], ToBase32 args);
  ([$"from_base32"], FromBase32 args)].

Definition DispatchStringNormalize_table (args : list Value) (rt : option SqlType) : Table :=
 [
  ([$"initcap"], InitcapFunc args);
  ([$"normalize"], NormalizeFunc args);
  ([$"normalize_and_casefold"], NormalizeAndCasefoldFunc args);
  ([$"safe_convert_bytes_to_string"], SafeConvertBytesToString args);
  ([$"code_points_to_string"], CodePointsToString args);
  ([$"code_points_to_bytes"], CodePointsToBytes args);
  ([$"to_code_points"], ToCodePoints args rt)].

Definition DispatchMathFamily_table (args : list Value) (rt : option SqlType) : Table :=
 [
  ([$"floor"], Floor SimpleAtod args);
  ([$"ceil"; $"ceiling"], Ceil SimpleAtod args);
  ([$"round"], Round SimpleAtod args);
  ([$"trunc"], Trunc SimpleAtod args);
  ([$"sign"], Sign args);
  ([$"div"], or_undefined (Div args));
  ([$"mod"], or_undefined (Mod args));
  ([$"pow"; $"power"], Pow SimpleAtod args);
  ([$"log"], Log SimpleAtod args);
  ([$"ln"], Log SimpleAtod args);
  ([$"sqrt"], Sqrt SimpleAtod args);
  ([$"sin"], Sin SimpleAtod args);
  ([$"cos"], Cos SimpleAtod args);
  ([$"asin"], Asin SimpleAtod args);
  ([$"acos"], Acos SimpleAtod args);
  ([$"atan2"], Atan2 SimpleAtod args);
  ([$"least"], Least args rt);
  ([$"greatest"], Greatest args rt);
  ([$"parse_numeric"], ParseNumericFunc args)].

Definition DispatchHashAndRegexp_table (args : list Value) (rt : option SqlType) : Table :=
 [
  ([$"md5"], Md5 args);
  ([$"sha1"], Sha1 args);
  ([$"sha256"], Sha256 args);
  ([$"sha512"], Sha512 args);
  ([$"farm_fingerprint"], FarmFingerprintFunc args);
  ([$"regexp_contains"], RegexpContains args);
  ([$"regexp_extract"], RegexpExtract args);
  ([$"regexp_extract_all"], RegexpExtractAll args rt);
  ([$"regexp_replace"], RegexpReplace args);
  ([$"regexp_instr"], RegexpInstr args)].

Definition DispatchFormatAndGeog_table (args : list Value) : Table :=
 [
  ([$"format"], if formats_geography args then EmuFormatTypeLiteral (drop 1 args) else Format args);
  ([$"st_geogpoint"], StGeogPoint args);
  ([$"st_geogfromtext"], StGeogFromText args);
  ([$"st_geogfromwkb"], StGeogFromWkb args);
  ([$"st_astext"], StAsText args);
  ([$"st_distance"], StDistance args);
  ([$"st_within"], StWithin args);
  ([$"st_contains"], StContains args);
  ([$"st_intersects"], StIntersects args)].

Definition DispatchJsonFamily_table (args : list Value) (rt : option SqlType) : Table :=
 [
  ([$"to_json"], ToJson args);
  ([$"to_json_string"], ToJsonString args);
  ([$"parse_json"], ParseJson args);
  ([$"json_extract"], JsonExtract args rt);
  ([$"json_query"], JsonQuery args rt);
  ([$"json_value"], JsonValue args rt);
  ([$"json_extract_scalar"], JsonExtractScalar args rt);
  ([$"json_extract_array"], JsonExtractArray args rt);
  ([$"json_extract_string_array"], JsonExtractStringArray args rt);
  ([$"json_query_array"], JsonQueryArray args rt);
  ([$"json_value_array"], JsonValueArray args rt);
  ([$"json_type"], JsonTypeFunc args);
  ([$"bool"], JsonCastBool args);
  ([$"int64"], JsonCastInt64 args);
  ([$"float64"], JsonCastFloat64 args);
  ([$"string"], if (length args =? 1) then JsonCastString args else StringFunc args)].

Definition DispatchDatetimeParseFormat_table (args : list Value) : Table :=
 [
  ([$"justify_days"], or_undefined (JustifyDays args));
  ([$"justify_hours"], or_undefined (JustifyHours args));
  ([$"justify_interval"], JustifyInterval args);
  ([$"parse_date"], ParseDate args);
  ([$"parse_datetime"], ParseDatetime args);
  ([$"parse_timestamp"], ParseTimestamp args);
  ([$"parse_time"], ParseTime args);
  ([$"format_date"], FormatDate args);
  ([$"format_datetime"], FormatDatetime args);
  ([$"format_timestamp"], FormatTimestamp args);
  ([$"format_time"], FormatTime args)].

Definition DispatchDatetimeArithmetic_table (name : str) (args : list Value) : Table :=
 [
  ([$"date_add"; $"date_sub"; $"date_diff"; $"date_trunc"], DateAddSubDiffTrunc name args);
  ([$"datetime_add"; $"datetime_sub"; $"datetime_diff"; $"datetime_trunc"], DatetimeAddSubDiffTrunc name args);
  ([$"timestamp_add"; $"timestamp_sub"; $"timestamp_diff"; $"timestamp_trunc"], TimestampAddSubDiffTrunc name args);
  ([$"time_add"; $"time_sub"; $"time_diff"; $"time_trunc"], TimeAddSubDiffTrunc name args)].

Definition DispatchDatetimeCurrentUnix_table (args : list Value) : Table :=
 [
  ([$"current_date"], CurrentDate args);
  ([$"current_datetime"], CurrentDatetime args);
  ([$"current_time"], CurrentTime args);
  ([$"current_timestamp"], CurrentTimestamp args);
  ([$"unix_seconds"], UnixSeconds args);
  ([$"unix_millis"], UnixMillis args);
  ([$"unix_micros"], UnixMicros args);
  ([$"unix_date"], UnixDate args);
  ([$"timestamp_seconds"], TimestampSeconds args);
  ([$"timestamp_millis"], TimestampMillis args);
  ([$"timestamp_micros"], TimestampMicros args);
  ([$"date_from_unix_date"], DateFromUnixDate args);
  ([$"last_day"], LastDay args);
  ([$"timestamp_bucket"], TimestampBucket args)].

Definition DispatchDatetimeConstructors_table (args : list Value) : Table :=
 [
  ([$"time"], TimeConstructor args);
  ([$"date"], DateConstructor args);
  ([$"datetime"], DatetimeConstructor args);
  ([$"timestamp"; $"timestamp_from_date"; $"timestamp_from_datetime"], TimestampConstructor args);
  ([$"make_interval"], MakeInterval args)].

Definition DispatchArrayAndRange_table (args : list Value) (rt : option SqlType) : Table :=
 [
  ([$"generate_array"], GenerateArray args rt);
  ([$"array_concat"], ArrayConcat args rt);
  ([$"array_length"], ArrayLength args);
  ([$"array_to_string"], ArrayToString args);
  ([$"array_reverse"], ArrayReverse args rt);
  ([$"$array_at_offset"], ArrayAtOffset args rt false);
  ([$"$safe_array_at_offset"], ArrayAtOffset args rt true);
  ([$"$array_at_ordinal"], ArrayAtOrdinal args rt false);
  ([$"$safe_array_at_ordinal"], ArrayAtOrdinal args rt true);
  ([$"generate_date_array"], GenerateDateArray args rt);
  ([$"generate_timestamp_array"], GenerateTimestampArray args rt);
  ([$"range"], RangeCtor args rt);
  ([$"range_start"], RangeStart args);
  ([$"range_end"], RangeEnd args);
  ([$"range_overlaps"], RangeOverlaps args)].

Definition DispatchSpecializedScalar_table (args : list Value) (rt : option SqlType) : Table :=
 [
  ([$"error"], ErrorFn args);
  ([$"generate_uuid"], GenerateUuid random args);
  ([$"net.ip_from_string"], NetIpFromString args);
  ([$"net.safe_ip_from_string"], NetSafeIpFromString args);
  ([$"net.ip_to_string"], NetIpToString args);
  ([$"net.ip_net_mask"], NetIpNetMask args);
  ([$"net.ip_trunc"], NetIpTrunc args);
  ([$"net.ipv4_from_int64"], NetIpv4FromInt64 args);
  ([$"net.ipv4_to_int64"], NetIpv4ToInt64 args);
  ([$"net.host"], NetHost args);
  ([$"net.public_suffix"], NetPublicSuffix args);
  ([$"net.reg_domain"], NetRegDomain args);
  ([$"hll_count.extract"], hll_scalar args);
  ([$"kll_quantiles.extract_int64"], KllQuantilesExtractInt64Scalar int64_ops args rt);
  ([$"kll_quantiles.extract_float64"], KllQuantilesExtractFloat64Scalar float64_ops args rt);
  ([$"kll_quantiles.extract_point_int64"], KllQuantilesExtractPointInt64Scalar int64_ops args);
  ([$"kll_quantiles.extract_point_float64"], KllQuantilesExtractPointFloat64Scalar float64_ops args)].


(** ** The families *)

Definition DispatchCoreAndNumeric (name : str) (args : list Value) (rt : option SqlType) : option (StatusOr Value) :=
  first_named name (DispatchCoreAndNumeric_table args rt).
Definition DispatchStringBasics (name : str) (args : list Value) : option (StatusOr Value) :=
  first_named name (DispatchStringBasics_table args).
Definition DispatchStringSearchAndEncode (name : str) (args : list Value) (rt : option SqlType)
    : option (StatusOr Value) := first_named name (DispatchStringSearchAndEncode_table args rt).
Definition DispatchStringNormalize (name : str) (args : list Value) (rt : option SqlType) : option (StatusOr Value) :=
  first_named name (DispatchStringNormalize_table args rt).

(** [if (auto r = f(...)) return *r;] and then the rest. *)
Definition or_else {R} (r rest : option R) : option R := match r with Some _ => r | None => rest end.

Definition DispatchStringFamily (name : str) (args : list Value) (rt : option SqlType) : option (StatusOr Value) :=
  or_else (DispatchStringBasics name args)
    (or_else (DispatchStringSearchAndEncode name args rt) (DispatchStringNormalize name args rt)).

Definition DispatchMathFamily (name : str) (args : list Value) (rt : option SqlType) : option (StatusOr Value) :=
  first_named name (DispatchMathFamily_table args rt).
Definition DispatchHashAndRegexp (name : str) (args : list Value) (rt : option SqlType) : option (StatusOr Value) :=
  first_named name (DispatchHashAndRegexp_table args rt).

Definition DispatchFormatAndGeog (name : str) (args : list Value) (ctx : RenderOverride)
    : option (RenderOverride * StatusOr Value) :=
  if bool_decide (name = $"parse_bignumeric") then Some (ParseBignumeric args ctx)
  else pair ctx <$> first_named name (DispatchFormatAndGeog_table args).

Definition DispatchJsonFamily (name : str) (args : list Value) (rt : option SqlType) : option (StatusOr Value) :=
  first_named name (DispatchJsonFamily_table args rt).
Definition DispatchDatetimeParseFormat (name : str) (args : list Value) : option (StatusOr Value) :=
  first_named name (DispatchDatetimeParseFormat_table args).
Definition DispatchDatetimeArithmetic (name : str) (args : list Value) : option (StatusOr Value) :=
  first_named name (DispatchDatetimeArithmetic_table name args).
Definition DispatchDatetimeCurrentUnix (name : str) (args : list Value) : option (StatusOr Value) :=
  first_named name (DispatchDatetimeCurrentUnix_table args).
Definition DispatchDatetimeConstructors (name : str) (args : list Value) : option (StatusOr Value) :=
  first_named name (DispatchDatetimeConstructors_table args).

Definition DispatchDatetimeFamily (name : str) (args : list Value) (rt : option SqlType) : option (StatusOr Value) :=
  or_else (DispatchDatetimeParseFormat name args)
    (or_else (DispatchDatetimeArithmetic name args)
       (or_else (DispatchDatetimeCurrentUnix name args)
          (if bool_decide (name = $"extract") then Some (Extract args rt)
           else DispatchDatetimeConstructors name args))).

Definition DispatchArrayAndRange (name : str) (args : list Value) (rt : option SqlType) : option (StatusOr Value) :=
  first_named name (DispatchArrayAndRange_table args rt).
Definition DispatchSpecializedScalar (name : str) (args : list Value) (rt : option SqlType)
    : option (StatusOr Value) := first_named name (DispatchSpecializedScalar_table args rt).

Definition Dispatch (name : str) (args : list Value) (rt : option SqlType) (ctx : RenderOverride)
    : option (RenderOverride * StatusOr Value) :=
  let pure := option_map (pair ctx) in
  or_else (pure (DispatchCoreAndNumeric name args rt))
    (or_else (pure (DispatchStringFamily name args rt))
       (or_else (pure (DispatchMathFamily name args rt))
          (or_else (pure (DispatchHashAndRegexp name args rt))
             (or_else (DispatchFormatAndGeog name args ctx)
                (or_else (pure (DispatchJsonFamily name args rt))
                   (or_else (pure (DispatchDatetimeFamily name args rt))
                      (or_else (pure (DispatchArrayAndRange name args rt))
                         (pure (DispatchSpecializedScalar name args rt))))))))).
End dispatch.

(** ** Stubs

    [semantic/stubs/dispatch.cc] and [keys.cc]. *)

Section stubs.
Context `{AbslText, GoogleSqlOps}.

Definition kKeysetSentinelPrefix : str := $"bigquery-emulator:keyset:v1:".

Definition KeysNewKeyset (args : list Value) : StatusOr Value :=
  match args with
  | [key_type] =>
      if is_null key_type then Ok NullBytes
      else match key_type with
           | SString s => Ok (SBytes (kKeysetSentinelPrefix ++ s))
           | _ => Err (MakeSemanticError rInvalidArgument
                    ($"semantic stub: KEYS.NEW_KEYSET requires a STRING key_type; got " ++ DebugString (type_of key_type)))
           end
  | _ => Err (MakeSemanticError rInvalidArgument
           ($"semantic stub: KEYS.NEW_KEYSET expects exactly one STRING argument; got " ++ StrInt (Z.of_nat (length args))))
  end.

Definition KeysKeysetLength (args : list Value) : StatusOr Value :=
  match args with
  | [keyset] =>
      if is_null keyset then Ok NullInt64
      else match keyset with
           | SBytes _ => Ok (SInt64 1)
           | _ => Err (MakeSemanticError rInvalidArgument
                    ($"semantic stub: KEYS.KEYSET_LENGTH requires a BYTES keyset; got " ++ DebugString (type_of keyset)))
           end
  | _ => Err (MakeSemanticError rInvalidArgument
           ($"semantic stub: KEYS.KEYSET_LENGTH expects exactly one BYTES argument; got " ++ StrInt (Z.of_nat (length args))))
  end.

Definition stub_table (args : list Value) : list (list str * StatusOr Value) :=
  [([$"keys.new_keyset"], KeysNewKeyset args);
   ([$"keys.keyset_length"], KeysKeysetLength args);
   ([$"session_user"],
      match args with
      | [] => Ok (SString $"bigquery-emulator@local")
      | _ => Err (MakeSemanticError rInvalidArgument $"semantic stub: SESSION_USER expects no args")
      end)].

Definition stub_Dispatch (name : str) (args : list Value) (rt : option SqlType) : option (StatusOr Value) :=
  first_named name (stub_table args).
End stubs.

(** ** Every name reaches its function *)

Lemma first_named_app {R} name (a b : list (list str * R)) :
  first_named name (a ++ b) = or_else (first_named name a) (first_named name b).
Proof.
  unfold first_named, or_else. induction a as [|e a IH]; [done|]. cbn. by destruct (bool_decide _).
Qed.

Lemma first_named_map {R S} (f : R -> S) name (a : list (list str * R)) :
  first_named name (map (fun e => (e.1, f e.2)) a) = option_map f (first_named name a).
Proof. unfold first_named. induction a as [|e a IH]; [done|]. cbn. by destruct (bool_decide _). Qed.

Lemma first_named_single {R} name n (r : R) :
  first_named name [([n], r)] = if bool_decide (name = n) then Some r else None.
Proof.
  unfold first_named. cbn. case_bool_decide as E; case_bool_decide as F; [done|set_solver|set_solver|done].
Qed.

Lemma or_else_assoc {R} (a b c : option R) : or_else (or_else a b) c = or_else a (or_else b c).
Proof. by destruct a. Qed.

Lemma or_else_map {R S} (f : R -> S) (a b : option R) :
  option_map f (or_else a b) = or_else (option_map f a) (option_map f b).
Proof. by destruct a. Qed.

(** In a table where no name occurs twice, a name finds its entry. *)
Lemma first_named_iff {R} name (t : list (list str * R)) (r : R) :
  NoDup (concat (map fst t)) -> first_named name t = Some r <-> exists names, (names, r) ∈ t /\ name ∈ names.
Proof.
  intros N. induction t as [|[ns x] t IH]; cbn in *.
  - split; [done|]. intros (? & H%elem_of_nil & _). done.
  - apply NoDup_app in N as (_ & D & N). unfold first_named in *. cbn. case_bool_decide as E; cbn.
    + split; [intros [= ->]; exists ns; set_solver|]. intros (names & [[= -> ->]|I]%elem_of_cons & M); [done|].
      exfalso. apply (D name E). apply list_elem_of_In, in_concat. exists names.
      split; [|by apply list_elem_of_In]. apply in_map_iff. exists (names, r). split; [done|]. by apply list_elem_of_In.
    + rewrite IH by done. split; intros (names & I & M); exists names; [set_solver|].
      apply elem_of_cons in I as [[= -> ->]|I]; done.
Qed.

(** The names of the tables, in their order. *)
Definition dispatch_names : list str :=
  [$"$extract"; $"$subscript"; $"bit_count"; $"ieee_divide"; $"soundex"; $"instr"; $"contains_substr";
   $"ascii"; $"byte_length"; $"char_length"; $"character_length"; $"octet_length"; $"chr"; $"unicode";
   $"concat"; $"length"; $"lower"; $"upper"; $"trim"; $"ltrim"; $"rtrim"; $"lpad"; $"rpad"; $"replace";
   $"translate"; $"reverse"; $"starts_with"; $"ends_with"; $"left"; $"right"; $"substr"; $"substring";
   $"strpos"; $"split"; $"to_hex"; $"from_hex"; $"to_base64"; $"from_base64"; $"to_base32"; $"from_base32";
   $"initcap"; $"normalize"; $"normalize_and_casefold"; $"safe_convert_bytes_to_string";
   $"code_points_to_string"; $"code_points_to_bytes"; $"to_code_points"; $"floor"; $"ceil"; $"ceiling";
   $"round"; $"trunc"; $"sign"; $"div"; $"mod"; $"pow"; $"power"; $"log"; $"ln"; $"sqrt"; $"sin"; $"cos";
   $"asin"; $"acos"; $"atan2"; $"least"; $"greatest"; $"parse_numeric"; $"md5"; $"sha1"; $"sha256"; $"sha512";
   $"farm_fingerprint"; $"regexp_contains"; $"regexp_extract"; $"regexp_extract_all"; $"regexp_replace";
   $"regexp_instr"; $"parse_bignumeric"; $"format"; $"st_geogpoint"; $"st_geogfromtext"; $"st_geogfromwkb";
   $"st_astext"; $"st_distance"; $"st_within"; $"st_contains"; $"st_intersects"; $"to_json"; $"to_json_string";
   $"parse_json"; $"json_extract"; $"json_query"; $"json_value"; $"json_extract_scalar"; $"json_extract_array";
   $"json_extract_string_array"; $"json_query_array"; $"json_value_array"; $"json_type"; $"bool"; $"int64";
   $"float64"; $"string"; $"justify_days"; $"justify_hours"; $"justify_interval"; $"parse_date";
   $"parse_datetime"; $"parse_timestamp"; $"parse_time"; $"format_date"; $"format_datetime";
   $"format_timestamp"; $"format_time"; $"date_add"; $"date_sub"; $"date_diff"; $"date_trunc"; $"datetime_add";
   $"datetime_sub"; $"datetime_diff"; $"datetime_trunc"; $"timestamp_add"; $"timestamp_sub"; $"timestamp_diff";
   $"timestamp_trunc"; $"time_add"; $"time_sub"; $"time_diff"; $"time_trunc"; $"current_date";
   $"current_datetime"; $"current_time"; $"current_timestamp"; $"unix_seconds"; $"unix_millis"; $"unix_micros";
   $"unix_date"; $"timestamp_seconds"; $"timestamp_millis"; $"timestamp_micros"; $"date_from_unix_date";
   $"last_day"; $"timestamp_bucket"; $"extract"; $"time"; $"date"; $"datetime"; $"timestamp";
   $"timestamp_from_date"; $"timestamp_from_datetime"; $"make_interval"; $"generate_array"; $"array_concat";
   $"array_length"; $"array_to_string"; $"array_reverse"; $"$array_at_offset"; $"$safe_array_at_offset";
   $"$array_at_ordinal"; $"$safe_array_at_ordinal"; $"generate_date_array"; $"generate_timestamp_array";
   $"range"; $"range_start"; $"range_end"; $"range_overlaps"; $"error"; $"generate_uuid";
   $"net.ip_from_string"; $"net.safe_ip_from_string"; $"net.ip_to_string"; $"net.ip_net_mask"; $"net.ip_trunc";
   $"net.ipv4_from_int64"; $"net.ipv4_to_int64"; $"net.host"; $"net.public_suffix"; $"net.reg_domain";
   $"hll_count.extract"; $"kll_quantiles.extract_int64"; $"kll_quantiles.extract_float64";
   $"kll_quantiles.extract_point_int64"; $"kll_quantiles.extract_point_float64"].

Section dispatch_props.
Context `{AbslText, AbslDouble, GoogleSqlOps, CMath} `{!CastLibrary, !StringLibrary, !ArrayLibrary, !DatetimeLibrary}.
Context `{!NetLibrary, !GeographyRefs, !JsonLibrary}.
Context {Int64Sketch Float64Sketch : Type} (int64_ops : SketchOps Z Int64Sketch) (float64_ops : SketchOps spec_float Float64Sketch).
Context (random : list Z) (undefined : StatusOr Value).

(** All entries, in the order they are tried. *)
Definition dispatch_entries (name : str) (args : list Value) (rt : option SqlType) (ctx : option (option str))
    : list (list str * (option (option str) * StatusOr Value)) :=
  let pure := map (fun e : list str * StatusOr Value => (e.1, (ctx, e.2))) in
  pure (DispatchCoreAndNumeric_table args rt) ++ pure (DispatchStringBasics_table args) ++
  pure (DispatchStringSearchAndEncode_table args rt) ++ pure (DispatchStringNormalize_table args rt) ++
  pure (DispatchMathFamily_table undefined args rt) ++ pure (DispatchHashAndRegexp_table args rt) ++
  [([$"parse_bignumeric"], ParseBignumeric args ctx)] ++ pure (DispatchFormatAndGeog_table args) ++
  pure (DispatchJsonFamily_table args rt) ++ pure (DispatchDatetimeParseFormat_table undefined args) ++
  pure (DispatchDatetimeArithmetic_table name args) ++ pure (DispatchDatetimeCurrentUnix_table args) ++
  [([$"extract"], (ctx, Extract args rt))] ++ pure (DispatchDatetimeConstructors_table args) ++
  pure (DispatchArrayAndRange_table args rt) ++
  pure (DispatchSpecializedScalar_table int64_ops float64_ops random args rt).

Lemma dispatch_is_table name args rt ctx :
  Dispatch int64_ops float64_ops random undefined name args rt ctx =
  first_named name (dispatch_entries name args rt ctx).
Proof.
  unfold dispatch_entries. cbv zeta. rewrite !first_named_app, !first_named_map, !first_named_single.
  unfold Dispatch, DispatchStringFamily, DispatchDatetimeFamily, DispatchFormatAndGeog. cbv zeta.
  rewrite !or_else_map, !or_else_assoc.
  destruct (bool_decide (name = $"parse_bignumeric")), (bool_decide (name = $"extract")); reflexivity.
Qed.


Lemma dispatch_names_listed name args rt ctx : concat (map fst (dispatch_entries name args rt ctx)) = dispatch_names.
Proof. reflexivity. Qed.

Lemma dispatch_names_distinct : NoDup dispatch_names.
Proof. apply (bool_decide_unpack _). vm_compute. exact I. Qed.

(** A name calls the function its table lists and nothing else: no name is listed
    twice, so no entry of a family is hidden by another, and the families may be
    tried in any order; a name that is not listed is left to the stubs. *)
Lemma dispatch_exact (name : str) (args : list Value) (rt : option SqlType) (ctx : option (option str)) :
  (forall r, Dispatch int64_ops float64_ops random undefined name args rt ctx = Some r <->
     exists names, (names, r) ∈ dispatch_entries name args rt ctx /\ name ∈ names) /\
  (Dispatch int64_ops float64_ops random undefined name args rt ctx = None <-> name ∉ dispatch_names).
Proof.
  assert (forall r, first_named name (dispatch_entries name args rt ctx) = Some r <->
    exists names, (names, r) ∈ dispatch_entries name args rt ctx /\ name ∈ names) as E.
  { intros r. apply first_named_iff. rewrite dispatch_names_listed. apply dispatch_names_distinct. }
  rewrite dispatch_is_table. split; [exact E|].
  rewrite <- (dispatch_names_listed name args rt ctx), list_elem_of_In, in_concat. split.
  - intros N (names & I & M). apply in_map_iff in I as ([ns r] & <- & I).
    assert (first_named name (dispatch_entries name args rt ctx) = Some r) as F; [|congruence].
    apply E. exists ns. rewrite !list_elem_of_In. done.
  - intros N. destruct (first_named _ _) as [r|] eqn:F; [|done]. destruct (proj1 (E r) eq_refl) as (names & I & M).
    destruct N. exists names. split; [|by apply list_elem_of_In]. apply in_map_iff. exists (names, r).
    by rewrite <- list_elem_of_In.
Qed.

(** None of the names is one of the operators the evaluator takes before the
    tables: a call by any of them reaches its function. *)
Lemma dispatch_not_shadowed (name : str) :
  name ∈ dispatch_names ->
  negb (IsArithmeticBuiltin name || IsComparisonBuiltin name || IsInBuiltin name || IsLogicalBuiltin name ||
        IsBitwiseBuiltin name || is_name name [$"$interval"] || IsConditionalBuiltin name || IsSafeBuiltin name) &&
  bool_decide (strip_prefix extract_prefix name = None) = true.
Proof.
  intros I. apply list_elem_of_In in I. revert name I. apply List.forallb_forall. vm_compute. exact eq_refl.
Qed.

(** ** The evaluator with these functions *)

Context `{!ExecutorNodes}.

(** The parts of an executor with the functions of this development in place. *)
Definition with_functions (P : ExecutorParts) : ExecutorParts :=
  {| kTemplatedSQLFunctionGroup := kTemplatedSQLFunctionGroup; kSQLFunctionGroup := kSQLFunctionGroup;
     EvalSubqueryExpr := EvalSubqueryExpr; EvalUdafInnerAggregate := EvalUdafInnerAggregate;
     EvalUdafInnerFunctionCall := EvalUdafInnerFunctionCall;
     EvalExpr.JsonGetField := JsonFuncs.JsonGetField;
     GetSystemVariable := GetSystemVariable;
     functions_Dispatch := fun name args rt _ =>
       option_map snd (Dispatch int64_ops float64_ops random undefined name args rt (Some None));
     stubs_Dispatch := stub_Dispatch;
     EvalExpr.Extract := DatetimeFuncs.Extract;
     ExtractDateFromTimestamp := ExtractDateFromTimestamp;
     EvalExpr.EmuFormatTypeLiteral := GeogFuncs.EmuFormatTypeLiteral;
     IsProjectRegisteredFunction := IsProjectRegisteredFunction;
     LookupProjectJsUdf := LookupProjectJsUdf; LookupProjectPythonUdf := LookupProjectPythonUdf;
     EvalJsUdfCall := EvalJsUdfCall; EvalPythonUdfCall := EvalPythonUdfCall |}.

(** A call by a name of the tables reaches the function listed under it, and only
    that one: no name is listed twice, none is taken by the operators the evaluator
    tests first, and the order of the families does not matter. *)
Theorem call_reaches_function (P : ExecutorParts) (name : str) (args : list Value) (rt : option SqlType)
    (ctx : EvalContext) :
  name ∈ dispatch_names ->
  exists names r,
    (names, r) ∈ dispatch_entries name args rt (Some None) /\ name ∈ names /\
    (forall names' r', (names', r') ∈ dispatch_entries name args rt (Some None) -> name ∈ names' -> r' = r) /\
    @DispatchFunctionByName _ _ _ _ _ (with_functions P) name args rt ctx = snd r.
Proof.
  intros I. destruct (dispatch_exact name args rt (Some None)) as [E N].
  destruct (Dispatch int64_ops float64_ops random undefined name args rt (Some None)) as [r|] eqn:D;
    [|by destruct (proj1 N eq_refl)].
  destruct (proj1 (E r) eq_refl) as (names & M & K). exists names, r. split_and!; [done..| |].
  - intros names' r' M' K'. assert (Some r = Some r') as F by (apply E; eauto). congruence.
  - pose proof (dispatch_not_shadowed name I) as S. apply andb_prop in S as [S X]. apply negb_true_iff in S.
    repeat (apply orb_false_elim in S as [S ?]). apply bool_decide_eq_true in X. unfold DispatchFunctionByName.
    repeat match goal with H : ?b = false |- context [if ?b then _ else _] => rewrite H end.
    rewrite X. cbn [functions_Dispatch with_functions]. by rewrite D.
Qed.
End dispatch_props.

(** ** A call *)

Module DispatchReference.
Import Reference EvalReference StringReference ArrayReference DatetimeReference KllReference JsonReference.

#[export] Instance reference_math : CMath := {|
  c_log x := x; c_sin x := x; c_cos x := x; c_asin x := x; c_acos x := x; c_atan2 x _ := x; c_pow x _ := x
|}.

#[export] Instance reference_net : NetLibrary := {|
  IPFromString _ := undefined_here;
  SafeIPFromString _ := undefined_here;
  IPToString _ := undefined_here;
  net_Host _ := undefined_here;
  net_PublicSuffix _ := undefined_here;
  net_RegDomain _ := undefined_here;
  SimpleHexAtoi _ := None;
|}.

(** A sketch of doubles that keeps its first item. *)
Definition first_double : SketchOps spec_float (Z * list spec_float) :=
  mkSketchOps _ _ (fun k => (k, [])) (fun s x => (s.1, s.2 ++ [x])) (fun s t => (s.1, s.2 ++ t.2)) fst
    (fun s => match s.2 with [] => true | _ => false end) (fun s => default dbl_zero (head s.2))
    (fun s => default dbl_zero (head s.2)) (fun s _ => default dbl_zero (head s.2)) (fun _ => []) (fun _ => None).

(** ARRAY_LENGTH([1, 2]) through the evaluator. *)
Lemma call_reaches_function_witness :
  @DispatchFunctionByName _ _ _ _ _ (with_functions kept_items first_double [] undefined_here reference_parts)
    $"array_length" [SArray TInt64 [SInt64 1; SInt64 2]] (Some TInt64) empty_context = Ok (SInt64 2).
Proof.
  destruct (call_reaches_function kept_items first_double [] undefined_here reference_parts $"array_length"
              [SArray TInt64 [SInt64 1; SInt64 2]] (Some TInt64) empty_context) as (names & r & _ & _ & U & E).
  - apply (bool_decide_unpack _). vm_compute. exact I.
  - rewrite E. rewrite <- (U [$"array_length"] (Some None, Ok (SInt64 2))); [done| |by left].
    apply (list_elem_of_lookup_2 _ 137). reflexivity.
Defined.
End DispatchReference.
