(* ===== verification/EvalProps.v ===== *)
(** * EvalProps: lazy evaluation and SAFE calls

    The conditionals are evaluated lazily, on the expressions of the call,
    although a dispatcher on argument values exists for each of them: the two
    agree whenever the arguments have values.  A call in SAFE mode returns what
    the plain call returns, or a null of the call's type in place of the errors
    SAFE covers. *)

From S2P Require Import Prelude Absl AbslReference Storage SemanticError FrameStack SqlValue.
From S2P Require Import GoogleSqlReference Arithmetic Operators MathFuncs Casts EvalExpr EvalTypes.

Section lazy.
Context `{AbslText, AbslDouble, GoogleSqlOps, ExecutorNodes} `{!CastLibrary, !ExecutorParts}.

(** The arguments of the call evaluate to the values. *)
Definition evaluates (ctx : EvalContext) (e : ResolvedExpr) (v : Value) : Prop :=
  EvalExpr e ctx = Ok v.

Lemma collected_args args ctx vs :
  CollectFunctionCallArgs EvalExpr args ctx = Ok vs -> Forall2 (evaluates ctx) args vs.
Proof.
  revert vs. induction args as [|a args IH]; intros vs E.
  - injection E as <-. constructor.
  - assert ((v ← EvalExpr a ctx; ws ← CollectFunctionCallArgs EvalExpr args ctx; Ok (v :: ws)) = Ok vs)
      as B by (destruct a; done).
    inv_ok B. constructor; auto.
Qed.

(** A null the call can return has the call's type. *)
Definition else_typed (type : option SqlType) (vs : list Value) : Prop :=
  forall v, last vs = Some v -> is_null v = true -> v = NullOfType type.

Lemma else_arm_typed type v vs : last vs = Some v -> else_typed type vs -> else_arm v type = v.
Proof. intros L T. unfold else_arm. destruct (is_null v) eqn:N; [|done]. symmetry. by apply T. Qed.

(** The two loops of CASE agree on an odd list of arms. *)
Lemma case_no_value_agrees type ctx n args vs :
  length args = 2 * n + 1 -> Forall2 (evaluates ctx) args vs -> else_typed type vs ->
  CaseNoValueLoop EvalExpr args ctx = CaseNoValueArms vs type.
Proof.
  revert args vs. induction n as [|n IH]; intros args vs L F T.
  - destruct args as [|a []]; try done. inversion F as [|? v ? ? Ev F']; subst.
    inversion F'; subst. cbn. rewrite (else_arm_typed type v [v]) by done. exact Ev.
  - destruct args as [|c [|t [|a args]]]; [simpl in L; lia..|].
    inversion F as [|? vc ? ? Ec F1]; subst. inversion F1 as [|? vt ? ws Et F2]; subst.
    assert (CaseNoValueLoop EvalExpr (a :: args) ctx = CaseNoValueArms ws type) as R.
    { apply IH; [simpl in *; lia|done|]. inversion F2; subst. intros v Lv. by apply T. }
    cbn [CaseNoValueLoop CaseNoValueArms] in *. rewrite Ec. cbn [mbind outcome_bind].
    destruct (is_true vc); [exact Et|exact R].
Qed.

Lemma case_with_value_agrees type ctx input n args vs :
  length args = 2 * n + 1 -> Forall2 (evaluates ctx) args vs -> else_typed type vs ->
  CaseWithValueLoop EvalExpr input args ctx = CaseWithValueArms input vs type.
Proof.
  revert args vs. induction n as [|n IH]; intros args vs L F T.
  - destruct args as [|a []]; try done. inversion F as [|? v ? ? Ev F']; subst.
    inversion F'; subst. cbn. rewrite (else_arm_typed type v [v]) by done. exact Ev.
  - destruct args as [|c [|t [|a args]]]; [simpl in L; lia..|].
    inversion F as [|? vc ? ? Ec F1]; subst. inversion F1 as [|? vt ? ws Et F2]; subst.
    assert (CaseWithValueLoop EvalExpr input (a :: args) ctx = CaseWithValueArms input ws type) as R.
    { apply IH; [simpl in *; lia|done|]. inversion F2; subst. intros v Lv. by apply T. }
    cbn [CaseWithValueLoop CaseWithValueArms] in *. rewrite Ec. cbn [mbind outcome_bind].
    destruct (is_null input || is_null vc); [exact R|].
    destruct (Equals input vc); [exact Et|exact R].
Qed.

(** The conditionals [EvalFunctionCall] evaluates lazily. *)
Definition lazy_conditionals : list str := [$"if"; $"ifnull"; $"$case_no_value"; $"$case_with_value"].

Lemma odd_length {A} (l : list A) : (length l mod 2 =? 0) = false -> exists n, length l = 2 * n + 1.
Proof.
  intros O. apply Nat.eqb_neq in O. exists (length l / 2).
  pose proof (Nat.div_mod_eq (length l) 2). pose proof (Nat.mod_upper_bound (length l) 2). lia.
Qed.

Lemma even_length {A} x (l : list A) :
  (length (x :: l) mod 2 =? 0) = true -> exists n, length l = 2 * n + 1.
Proof.
  intros O. apply Nat.eqb_eq in O. exists (length (x :: l) / 2 - 1).
  pose proof (Nat.div_mod_eq (length (x :: l)) 2). simpl length in *. lia.
Qed.

Lemma if_agrees ctx args vs v :
  Forall2 (evaluates ctx) args vs ->
  EvalIfLazy EvalExpr args ctx = Ok v <-> DispatchIf vs = Ok v.
Proof.
  intros F. unfold EvalIfLazy, DispatchIf.
  destruct F as [|? c ? ? Ec [|? a ? ? Ea [|? b ? ? Eb []]]]; try done.
  rewrite Ec. cbn [mbind outcome_bind]. unfold evaluates in *. by destruct (is_true c); rewrite ?Ea, ?Eb.
Qed.

Lemma ifnull_agrees ctx args vs v :
  Forall2 (evaluates ctx) args vs ->
  EvalIfNullLazy EvalExpr args ctx = Ok v <-> DispatchIfNull vs = Ok v.
Proof.
  intros F. unfold EvalIfNullLazy, DispatchIfNull.
  destruct F as [|? a ? ? Ea [|? b ? ? Eb []]]; try done.
  rewrite Ea. cbn [mbind outcome_bind]. unfold evaluates in *. by destruct (is_null a); cbn; rewrite ?Eb.
Qed.

Lemma case_agrees ctx args vs type v :
  Forall2 (evaluates ctx) args vs -> else_typed type vs ->
  EvalCaseNoValueLazy EvalExpr args ctx = Ok v <-> DispatchCaseNoValue vs type = Ok v.
Proof.
  intros F T. unfold EvalCaseNoValueLazy, DispatchCaseNoValue.
  rewrite <- (Forall2_length _ _ _ F). destruct (length args mod 2 =? 0) eqn:O; [done|].
  destruct (odd_length _ O) as [n L]. by rewrite (case_no_value_agrees type ctx n args vs).
Qed.

Lemma case_value_agrees ctx args vs type v :
  Forall2 (evaluates ctx) args vs -> else_typed type vs ->
  EvalCaseWithValueLazy EvalExpr args ctx = Ok v <-> DispatchCaseWithValue vs type = Ok v.
Proof.
  intros F T. unfold EvalCaseWithValueLazy, DispatchCaseWithValue.
  pose proof (Forall2_length _ _ _ F) as L.
  destruct F as [|i vi args vs Ei F]; [done|]. destruct F as [|a va args vs Ea F]; [done|].
  rewrite <- L. destruct (length (i :: a :: args) mod 2 =? 0) eqn:O; cbn [negb]; [|done].
  destruct (even_length _ _ O) as [n Ln]. rewrite Ei. cbn [mbind outcome_bind].
  rewrite (case_with_value_agrees type ctx vi n (a :: args) (va :: vs)); [done..|by constructor|].
  intros w Lw. by apply T.
Qed.

(** Evaluating a conditional lazily and dispatching it on the values of its
    arguments return the same values. *)
Theorem lazy_is_eager name args type ctx vs v :
  name ∈ lazy_conditionals -> CollectFunctionCallArgs EvalExpr args ctx = Ok vs ->
  else_typed type vs ->
  EvalLazyBuiltinByName EvalExpr name args type ctx = Ok v <->
  DispatchFunctionByName name vs type ctx = Ok v.
Proof.
  intros N C T. apply collected_args in C.
  repeat (apply elem_of_cons in N as [->|N]); [..|by apply elem_of_nil in N].
  - by apply if_agrees.
  - by apply ifnull_agrees.
  - by apply case_agrees.
  - by apply case_value_agrees.
Qed.
End lazy.

(** ** SAFE calls *)
Section safe.
Context `{AbslText, AbslDouble, GoogleSqlOps, ExecutorNodes} `{!CastLibrary, !ExecutorParts}.

(** The call is neither an aggregate of a UDAF body, nor a user-defined
    function, nor a lazy builtin: its arguments are collected and dispatched. *)
Definition plain_call (fn : FunctionInfo) (tb sb : option ResolvedExpr) (args : list ResolvedExpr)
    (ctx : EvalContext) : Prop :=
  (udaf ctx = None \/ IsAggregate fn = false) /\
  (forall type, TryEvalSqlUdfFromCall EvalExpr fn tb sb args type ctx = None) /\
  (bool_decide (fn_group fn = $"External_function")
     && IsProjectRegisteredFunction (project_id ctx) (fn_Name fn)) = false /\
  IsLazyBuiltin (LowerFunctionDispatchName fn) args = false.

Lemma plain_call_eval fn tb sb args mode type ctx :
  plain_call fn tb sb args ctx ->
  EvalExpr (ECall (Some fn) tb sb args mode type) ctx =
  match CollectFunctionCallArgs EvalExpr args ctx with
  | Err s => if safe_args_error mode s then Ok (NullOfType type) else Err s
  | Ok values =>
      match DispatchFunctionByName (LowerFunctionDispatchName fn) values type ctx with
      | Err s => if safe_result_error mode s then Ok (NullOfType type) else Err s
      | Ok v => Ok v
      end
  end.
Proof.
  intros (U & T & X & L). cbn [EvalExpr]. unfold EvalFunctionCall. rewrite T, X, L.
  destruct (udaf ctx); [|done]. destruct U as [U|U]; [done|]. by rewrite U.
Qed.

(** C23: SAFE *)
Theorem safe_call fn tb sb args type ctx :
  plain_call fn tb sb args ctx ->
  let plain := EvalExpr (ECall (Some fn) tb sb args DEFAULT_ERROR_MODE type) ctx in
  let safe := EvalExpr (ECall (Some fn) tb sb args SAFE_ERROR_MODE type) ctx in
  (forall v, plain = Ok v -> safe = Ok v) /\
  (forall s, plain = Err s ->
     safe = Ok (NullOfType type) \/
     safe = Err s /\
     (CollectFunctionCallArgs EvalExpr args ctx = Err s /\
        code s <> kInvalidArgument /\ code s <> kOutOfRange \/
      GetSemanticErrorReason (Some s) = rNotImplemented)) /\
  (forall s, CollectFunctionCallArgs EvalExpr args ctx = Err s ->
     code s = kInvalidArgument \/ code s = kOutOfRange -> safe = Ok (NullOfType type)).
Proof.
  intros P. cbn zeta. rewrite !(plain_call_eval _ _ _ _ _ _ _ P).
  destruct (CollectFunctionCallArgs EvalExpr args ctx) as [vs|e]; cbn [safe_args_error].
  - split_and!; [..|done]; destruct (DispatchFunctionByName _ _ _ _) as [w|e]; try done.
    intros s [= <-]. unfold safe_result_error.
    rewrite bool_decide_true by done. cbn [andb].
    destruct (GetSemanticErrorReason (Some e)); auto.
  - unfold safe_args_error. change (bool_decide (DEFAULT_ERROR_MODE = SAFE_ERROR_MODE)) with false.
    change (bool_decide (SAFE_ERROR_MODE = SAFE_ERROR_MODE)) with true. cbn [andb].
    split_and!; [done|..].
    + intros s [= <-]. repeat case_bool_decide; cbn [orb]; auto 6.
    + intros s [= <-] [C|C]; rewrite C; done.
Qed.
End safe.
