(* ===== verification/Rows.v ===== *)
(** * Rows: scans of a resolved query and the rows they bind

    The nodes of [googlesql/resolved_ast] the scan evaluator switches on, and
    the helpers its parts share: [StripBarrierScans], [ValueLess] and
    [ValueEqual] ([scan_eval_agg_list.cc]), fingerprints of key values
    ([scan_eval_aggregate.cc]), name bindings ([scan_eval_materialize.cc]) and
    the frames of correlated evaluation ([outer_row_eval.cc]).

    A null pointer is [ENull], [NullScan] or [None].  Subqueries and aggregate
    calls inside expressions are references into the tree ([SubqueryNode],
    [AggregateNode]); [ResolvedAst] follows them. *)

From S2P Require Import Prelude Order Absl AbslReference Storage SemanticError FrameStack.
From S2P Require Import SqlValue GoogleSqlReference Arithmetic Operators MathFuncs Casts EvalExpr.

(** [ColumnBindings]: a row binds column ids. *)
Abbreviation Row := (gmap Z Value).
Abbreviation Names := (gmap str Value).

(** ** The nodes *)

Inductive NullOrder := ORDER_UNSPECIFIED | NULLS_FIRST | NULLS_LAST.

(** [column_ref] with its correlation flag; [collation] is the text of a
    collation name that is a string literal. *)
Record OrderByItem := mkItem {
  column_ref : option (ResolvedColumn * bool);
  is_descending : bool;
  null_order : NullOrder;
  collation : option str;
}.

Inductive NullHandling := DEFAULT_NULL_HANDLING | IGNORE_NULLS | RESPECT_NULLS.
Inductive HavingKind := HAVING_MAX | HAVING_MIN.
Inductive JoinType := INNER | LEFT | RIGHT | FULL.
Inductive SetOp := UNION_ALL | UNION_DISTINCT | INTERSECT_ALL | INTERSECT_DISTINCT
                 | EXCEPT_ALL | EXCEPT_DISTINCT | OTHER_SET_OP.
Inductive SubqueryType := SCALAR | ARRAY | EXISTS | IN | LIKE_ANY | LIKE_ALL | NOT_LIKE_ANY
                        | NOT_LIKE_ALL | OTHER_SUBQUERY.
Inductive BoundaryType := UNBOUNDED_PRECEDING | OFFSET_PRECEDING | CURRENT_ROW | OFFSET_FOLLOWING
                        | UNBOUNDED_FOLLOWING.
Inductive FrameUnit := ROWS | RANGE.

#[export] Instance NullHandling_eq_dec : EqDecision NullHandling.
Proof. solve_decision. Defined.
#[export] Instance JoinType_eq_dec : EqDecision JoinType.
Proof. solve_decision. Defined.
#[export] Instance BoundaryType_eq_dec : EqDecision BoundaryType.
Proof. solve_decision. Defined.
#[export] Instance FrameUnit_eq_dec : EqDecision FrameUnit.
Proof. solve_decision. Defined.

Section nodes.
Context `{GoogleSql, ExecutorNodes}.

Definition ComputedColumn : Type := ResolvedColumn * ResolvedExpr.

(** An aggregate call; an inner aggregate of a multi-level call is [None] when
    its expression is null. *)
Inductive AggregateCall := mkAggregate {
  agg_function : option FunctionInfo;
  agg_args : list ResolvedExpr;
  agg_type : option SqlType;
  agg_error_mode : ErrorMode;
  agg_distinct : bool;
  null_handling : NullHandling;
  agg_order_by : list OrderByItem;
  agg_limit : ResolvedExpr;
  having_modifier : option (HavingKind * ResolvedExpr);
  agg_group_by : list ComputedColumn;
  agg_group_by_aggregates : list (ResolvedColumn * option AggregateCall);
  agg_having : ResolvedExpr;
}.

(** A column of an aggregate scan, computed at once or deferred with a column
    for its error. *)
Inductive AggregateColumn :=
| ComputedAggregate (column : ResolvedColumn) (expr : ResolvedExpr)
| DeferredAggregate (column side_effect : ResolvedColumn) (expr : ResolvedExpr).

(** A bound of a window frame, with its offset expression. *)
Record FrameBound := mkBound {
  boundary_type : BoundaryType;
  bound_expr : ResolvedExpr;
}.

Record WindowFrame := mkFrame {
  frame_unit : FrameUnit;
  start_expr : option FrameBound;
  end_expr : option FrameBound;
}.

Record AnalyticCall := mkAnalytic {
  afn_function : option FunctionInfo;
  afn_args : list ResolvedExpr;
  afn_type : option SqlType;
  afn_distinct : bool;
  window_frame : option WindowFrame;
}.

(** Functions of one window; [None] for a column that is not an analytic call
    and for a null column reference.  A missing ORDER BY is the empty list. *)
Record AnalyticGroup := mkGroup {
  partition_by : list (option ResolvedColumn);
  group_order_by : list OrderByItem;
  analytic_functions : list (ResolvedColumn * option AnalyticCall);
}.

(** A table: its name, and its rows at a list of column indexes when it is a
    [SimpleTable]. *)
Record TableNode := mkTable {
  table_FullName : str;
  EvaluatorTableRows : option (list Z -> StatusOr (list (list Value)));
}.

Inductive Scan :=
| NullScan
| BarrierScan (column_list : list ResolvedColumn) (input : Scan)
| TableScan (column_list : list ResolvedColumn) (table : option TableNode)
    (column_index_list : list Z)
| SingleRowScan (column_list : list ResolvedColumn)
| ArrayScan (column_list : list ResolvedColumn) (input : Scan) (array_expr_list : list ResolvedExpr)
    (element_column_list : list ResolvedColumn) (array_offset_column : option ResolvedColumn)
    (join_expr : ResolvedExpr) (is_outer : bool) (array_zip_mode : ResolvedExpr)
| ProjectScan (column_list : list ResolvedColumn) (expr_list : list ComputedColumn) (input : Scan)
| FilterScan (column_list : list ResolvedColumn) (input : Scan) (filter_expr : ResolvedExpr)
| OrderByScan (column_list : list ResolvedColumn) (items : list OrderByItem) (input : Scan)
| WithScan (column_list : list ResolvedColumn) (with_entry_list : list (str * Scan)) (query : Scan)
| WithRefScan (column_list : list ResolvedColumn) (with_query_name : str)
| RelationArgumentScan (column_list : list ResolvedColumn) (name : str)
| JoinScan (column_list : list ResolvedColumn) (join_type : JoinType) (is_lateral : bool)
    (left right : Scan) (join_expr : ResolvedExpr)
| SetOperationScan (column_list : list ResolvedColumn) (op_type : SetOp) (input_item_list : list Scan)
| AggregateScan (column_list : list ResolvedColumn) (has_grouping_sets : bool)
    (group_by_list : list ComputedColumn) (aggregate_list : list AggregateColumn) (input : Scan)
| AnalyticScan (column_list : list ResolvedColumn) (function_group_list : list AnalyticGroup)
    (input : Scan)
| LimitOffsetScan (column_list : list ResolvedColumn) (input : Scan) (limit offset : ResolvedExpr)
| OtherScan (column_list : list ResolvedColumn) (node_kind : str).

Definition column_list (scan : Scan) : list ResolvedColumn :=
  match scan with
  | NullScan => []
  | BarrierScan cs _ | TableScan cs _ _ | SingleRowScan cs | ArrayScan cs _ _ _ _ _ _ _
  | ProjectScan cs _ _ | FilterScan cs _ _ | OrderByScan cs _ _ | WithScan cs _ _ | WithRefScan cs _
  | RelationArgumentScan cs _ | JoinScan cs _ _ _ _ _ | SetOperationScan cs _ _
  | AggregateScan cs _ _ _ _ | AnalyticScan cs _ _ | LimitOffsetScan cs _ _ _ | OtherScan cs _ => cs
  end.

(** A subquery expression. *)
Record SubqueryExpr := mkSubquery {
  subquery_type : SubqueryType;
  parameter_list : list ResolvedColumn;
  in_expr : ResolvedExpr;
  subquery : Scan;
  sub_type : option SqlType;
}.

Fixpoint StripBarrierScans (scan : Scan) : Scan :=
  match scan with BarrierScan _ input => StripBarrierScans input | _ => scan end.
End nodes.

(** The tree behind the references of expressions, the column references of a
    scan in the order GoogleSQL's visitor reaches them, [Value::DebugString],
    [Value::EnumName], and the binding [begin()] of a hash map yields. *)
Class ResolvedAst `{GoogleSql, ExecutorNodes} := {
  subquery_node : SubqueryNode -> SubqueryExpr;
  aggregate_node : AggregateNode -> AggregateCall;
  scan_column_refs : Scan -> list ResolvedColumn;
  ValueDebugString : Value -> str;
  (** the numbers of [TypeKind] in [googlesql/public/type.proto] *)
  kind_number : TypeKind -> Z;
  EnumName : Value -> StatusOr str;
  node_kind_string : ResolvedExpr -> str;
  first_binding : Row -> option Value;
  (** scans of other kinds, given by [OtherScans]: table functions, sampling, pattern matching *)
  MaterializeOtherScan : str -> EvalContext -> StatusOr (list Row);
}.

Section rows.
Context `{AbslText, AbslDouble, GoogleSqlOps, ExecutorNodes, !ResolvedAst}.

Definition is_null_expr (e : ResolvedExpr) : bool := match e with ENull => true | _ => false end.

Definition rows_error (m : str) : Status := MakeSemanticError rInvalidArgument m.

(** ** Comparing values *)

Definition ValueLess (a b : Value) : bool :=
  if is_null a && is_null b then false
  else if is_null a then true
  else if is_null b then false
  else if negb (bool_decide (type_kind a = type_kind b))
  then (kind_number (type_kind a) <? kind_number (type_kind b))%Z
  else match type_kind a with
  | TYPE_BOOL => negb (bool_value a) && bool_value b
  | TYPE_INT64 => (int64_value a <? int64_value b)%Z
  | TYPE_DOUBLE => SFltb (double_value a) (double_value b)
  | TYPE_STRING => str_ltb (string_value a) (string_value b)
  | TYPE_BYTES => str_ltb (bytes_value a) (bytes_value b)
  | _ => str_ltb (ValueDebugString a) (ValueDebugString b)
  end.

Definition ValueEqual (a b : Value) : bool :=
  if is_null a && is_null b then true
  else if is_null a || is_null b then false
  else Equals a b.

(** Whether nulls come first: the clause, or the direction without one. *)
Definition nulls_first (item : OrderByItem) : bool :=
  match null_order item with
  | NULLS_FIRST => true
  | NULLS_LAST => false
  | ORDER_UNSPECIFIED => negb (is_descending item)
  end.

(** [CompareArrayAggOrderKey] and [CompareOrderByItem]. *)
Definition CompareArrayAggOrderKey (item : OrderByItem) (va vb : Value) : comparison :=
  if ValueEqual va vb then Eq
  else if is_null va || is_null vb then
    if is_null va && is_null vb then Eq
    else if is_null va then (if nulls_first item then Lt else Gt)
    else (if nulls_first item then Gt else Lt)
  else if (if is_descending item then negb (ValueLess va vb) else ValueLess va vb) then Lt else Gt.

(** ** Fingerprints *)

Definition key_separator : ascii := byteof 0x1e.

Definition GroupKeyFingerprint (keys : list Value) : str :=
  flat_map (fun key => ValueDebugString key ++ [key_separator]) keys.

(** ** Bindings *)

(** [merged = base; merged[k] = v for every binding of row]. *)
Definition overlay (row : Row) (base : option Row) : Row := row ∪ default ∅ base.

Definition qualified_name (col : ResolvedColumn) : str := table_name col ++ $"." ++ column_name col.

(** Assign the plain and the qualified name of a bound column. *)
Definition name_column (row : Row) (out : Names) (col : ResolvedColumn) : Names :=
  match row !! column_id col with
  | Some v => <[qualified_name col := v]> (<[column_name col := v]> out)
  | None => out
  end.

Definition name_columns (row : Row) (cols : list ResolvedColumn) (out : Names) : Names :=
  fold_left (name_column row) cols out.

(** A projection adds the names of its input after its own. *)
Fixpoint AppendColumnNameBindings (scan : Scan) (row : Row) (out : Names) : Names :=
  match scan with
  | NullScan => out
  | BarrierScan _ input => AppendColumnNameBindings input row out
  | ArrayScan cs _ _ element_columns offset _ _ _ =>
      name_columns row cs
        (name_columns row (element_columns ++ match offset with Some c => [c] | None => [] end) out)
  | ProjectScan cs _ input => AppendColumnNameBindings input row (name_columns row cs out)
  | _ => name_columns row (column_list scan) out
  end.

Definition PopulateColumnNameBindings (scan : Scan) (row : Row) : Names :=
  AppendColumnNameBindings scan row ∅.

(** The names of the scan, then of its input, down a chain of unary scans. *)
Fixpoint PopulateDeepFrom (scan : Scan) (row : Row) (out : Names) : Names :=
  match scan with
  | NullScan => out
  | BarrierScan _ input => PopulateDeepFrom input row out
  | ProjectScan _ _ input | FilterScan _ input _ | AggregateScan _ _ _ _ input
  | ArrayScan _ input _ _ _ _ _ _ =>
      PopulateDeepFrom input row (AppendColumnNameBindings scan row out)
  | _ => AppendColumnNameBindings scan row out
  end.

Definition PopulateColumnNameBindingsDeep (scan : Scan) (row : Row) : Names :=
  PopulateDeepFrom scan row ∅.

(** Names of the context override those of the row. *)
Definition override_names (out : Names) (ctx : EvalContext) : Names :=
  default ∅ (columns_by_name ctx) ∪ out.

Definition set_columns (ctx : EvalContext) (row : Row) : EvalContext :=
  mkContext (project_id ctx) (parameters ctx) (Some row) (columns_by_name ctx) (arguments ctx)
    (script_variables ctx) (script_system_variables ctx) (udaf ctx) (with_tables ctx)
    (relation_arguments ctx) (group_rows ctx).

Definition set_with_tables (ctx : EvalContext) (tables : gmap str CteTable) : EvalContext :=
  mkContext (project_id ctx) (parameters ctx) (columns ctx) (columns_by_name ctx) (arguments ctx)
    (script_variables ctx) (script_system_variables ctx) (udaf ctx) (Some tables)
    (relation_arguments ctx) (group_rows ctx).

Definition set_group_rows (ctx : EvalContext) (rows : list Row) : EvalContext :=
  mkContext (project_id ctx) (parameters ctx) (columns ctx) (columns_by_name ctx) (arguments ctx)
    (script_variables ctx) (script_system_variables ctx) (udaf ctx) (with_tables ctx)
    (relation_arguments ctx) (Some rows).

(** ** Frames of correlated evaluation *)

(** [OuterRowFrame]: the bindings by id and by name; its context is the
    parent's with these bindings. *)
Record OuterRowFrame := mkOuterRow { merged : Row; by_name_ : Names }.

Definition row_ctx (parent : EvalContext) (frame : OuterRowFrame) : EvalContext :=
  with_columns parent (merged frame) (by_name_ frame).

Definition LookupOuterValue (outer_row : Row) (outer_by_name : Names) (col : ResolvedColumn)
    : option Value :=
  match outer_row !! column_id col with
  | Some v => Some v
  | None => match outer_by_name !! qualified_name col with
            | Some v => Some v
            | None => outer_by_name !! column_name col
            end
  end.

Definition MakeOuterRowFrame (parent : EvalContext) (outer_row : Row) (scan_for_names : Scan)
    : OuterRowFrame :=
  let m := overlay outer_row (columns parent) in
  mkOuterRow m (name_columns m (column_list scan_for_names) (default ∅ (columns_by_name parent))).

(** One reference: an id that is not bound takes the value its name has. *)
Definition bind_reference (frame : OuterRowFrame) (col : ResolvedColumn) : OuterRowFrame :=
  match merged frame !! column_id col with
  | Some _ => frame
  | None =>
      match LookupOuterValue (merged frame) (by_name_ frame) col with
      | None => frame
      | Some v => mkOuterRow (<[column_id col := v]> (merged frame))
                    (<[column_name col := v]> (<[qualified_name col := v]> (by_name_ frame)))
      end
  end.

Definition BindCorrelatedColumnRefs (correlated_scan : Scan) (frame : OuterRowFrame) : OuterRowFrame :=
  fold_left bind_reference (scan_column_refs correlated_scan) frame.
End rows.
