(* ===== verification/Joins.v ===== *)
(** * Joins: nested-loop and hash joins of the semantic executor

    Models the joins of [scan_eval_materialize_helpers.cc]: the row test
    ([EvalBoolExpr] of [scan_eval_scan_impl.cc]), the nested loop, the planner
    that looks for equalities of hashable columns, and the hash join over them.
    The main theorem: where the nested loop succeeds the hash join returns the
    same rows in the same order. *)

From S2P Require Import Prelude Order Absl AbslReference Storage SemanticError FrameStack.
From S2P Require Import SqlValue GoogleSqlReference Arithmetic Operators MathFuncs Casts EvalExpr.
From S2P Require Import EvalProps Rows.
From S2P Require Import EvalTypes.

Section joins.
Context `{AbslText, AbslDouble, GoogleSqlOps, ExecutorNodes}.
Context `{!CastLibrary, !ExecutorParts, !ResolvedAst}.

Definition EvalBoolExpr (expr : ResolvedExpr) (ctx : EvalContext) : StatusOr bool :=
  match expr with
  | ENull => Err (InvalidArgumentError $"semantic: null filter expression")
  | _ =>
      v ← EvalExpr expr ctx;
      if is_null v then Ok false
      else if negb (is_kind v TYPE_BOOL)
      then Err (MakeSemanticError rInvalidArgument $"semantic: expected BOOL in predicate")
      else Ok (bool_value v)
  end.

(** The columns of the right side as nulls, where the row does not bind them. *)
Definition AppendNullRightColumns (rscan : Scan) (row : Row) : Row :=
  fold_left (fun m col => emplace (column_id col)
                            match column_type col with Some t => SNull t | None => SInvalid end m)
    (column_list rscan) row.

Definition ShouldIncludeJoinRow (join_expr : ResolvedExpr) (is_cross : bool) (merged : Row)
    (ctx : EvalContext) : StatusOr bool :=
  if is_cross then Ok true
  else match join_expr with
       | ENull => Ok true
       | _ => EvalBoolExpr join_expr (set_columns ctx merged)
       end.

(** The rows of one left row: its matches, or one row padded with nulls when a
    left outer join has none. *)
Definition join_group (left_outer : bool) (rscan : Scan) (lrow : Row) (matches : list Row) : list Row :=
  match matches with
  | [] => if left_outer then [AppendNullRightColumns rscan lrow] else []
  | _ => matches
  end.

(** The merged rows of a left row that the test includes, in order. *)
Fixpoint matching_rows (include : Row -> StatusOr bool) (lrow : Row) (right_rows : list Row)
    : StatusOr (list Row) :=
  match right_rows with
  | [] => Ok []
  | rrow :: right_rows =>
      let m := lrow ∪ rrow in
      b ← include m;
      rest ← matching_rows include lrow right_rows;
      Ok (if b : bool then m :: rest else rest)
  end.

Fixpoint nested_loop (left_outer : bool) (rscan : Scan) (include : Row -> StatusOr bool)
    (left_rows right_rows : list Row) : StatusOr (list Row) :=
  match left_rows with
  | [] => Ok []
  | lrow :: left_rows =>
      matches ← matching_rows include lrow right_rows;
      rest ← nested_loop left_outer rscan include left_rows right_rows;
      Ok (join_group left_outer rscan lrow matches ++ rest)
  end.

Definition is_cross (join_type : JoinType) (join_expr : ResolvedExpr) : bool :=
  match join_expr with ENull => bool_decide (join_type = INNER) | _ => false end.

Definition MaterializeNestedLoopJoinRows (join_type : JoinType) (right : Scan) (join_expr : ResolvedExpr)
    (left_rows right_rows : list Row) (ctx : EvalContext) : StatusOr (list Row) :=
  nested_loop (bool_decide (join_type = LEFT)) (StripBarrierScans right)
    (fun m => ShouldIncludeJoinRow join_expr (is_cross join_type join_expr) m ctx)
    left_rows right_rows.

(** ** The planner *)

Definition HashableJoinKeyType (type : option SqlType) : bool :=
  match type with
  | Some t =>
      match kind t with
      | TYPE_INT64 | TYPE_BOOL | TYPE_STRING | TYPE_BYTES | TYPE_DATE | TYPE_TIMESTAMP | TYPE_TIME
      | TYPE_DATETIME | TYPE_NUMERIC | TYPE_BIGNUMERIC => true
      | _ => false
      end
  | None => false
  end.

Definition is_call (fn : option FunctionInfo) (name : str) : bool :=
  match fn with Some f => bool_decide (LowerFunctionDispatchName f = name) | None => false end.

(** The conjuncts of an expression, in order. *)
Fixpoint FlattenAndConjuncts (expr : ResolvedExpr) : list ResolvedExpr :=
  match expr with
  | ENull => []
  | ECall fn _ _ args _ _ =>
      if is_call fn $"$and" then flat_map FlattenAndConjuncts args else [expr]
  | _ => [expr]
  end.

(** The column id of an uncorrelated reference to a column of a hashable type. *)
Definition HashableColumnRefId (expr : ResolvedExpr) : option Z :=
  match expr with
  | EColumnRef col is_correlated =>
      if is_correlated || negb (HashableJoinKeyType (column_type col)) then None
      else Some (column_id col)
  | _ => None
  end.

Record EquiJoinPlan := mkPlan {
  left_key_ids : list Z;
  right_key_ids : list Z;
  residual : list ResolvedExpr;
}.

(** The two columns of an equality of hashable columns.  A column id is not
    negative: -1 is the answer for another expression. *)
Definition equality_columns (conjunct : ResolvedExpr) : option (Z * Z) :=
  match conjunct with
  | ECall fn _ _ [a; b] _ _ =>
      if is_call fn $"$equal" then
        match HashableColumnRefId a, HashableColumnRefId b with
        | Some lhs, Some rhs => if ((0 <=? lhs) && (0 <=? rhs))%Z then Some (lhs, rhs) else None
        | _, _ => None
        end
      else None
  | _ => None
  end.

Definition column_ids (scan : Scan) : list Z := map column_id (column_list scan).

Definition plan_conjunct (left right : Scan) (plan : EquiJoinPlan) (conjunct : ResolvedExpr)
    : EquiJoinPlan :=
  let otherwise := mkPlan (left_key_ids plan) (right_key_ids plan) (residual plan ++ [conjunct]) in
  match equality_columns conjunct with
  | Some (lhs, rhs) =>
      if bool_decide (lhs ∈ column_ids left) && bool_decide (rhs ∈ column_ids right)
      then mkPlan (left_key_ids plan ++ [lhs]) (right_key_ids plan ++ [rhs]) (residual plan)
      else if bool_decide (rhs ∈ column_ids left) && bool_decide (lhs ∈ column_ids right)
      then mkPlan (left_key_ids plan ++ [rhs]) (right_key_ids plan ++ [lhs]) (residual plan)
      else otherwise
  | None => otherwise
  end.

Definition is_null_scan (scan : Scan) : bool := match scan with NullScan => true | _ => false end.

Definition PlanEquiJoin (join_type : JoinType) (is_lateral : bool) (left right : Scan)
    (join_expr : ResolvedExpr) : option EquiJoinPlan :=
  match join_expr with
  | ENull => None
  | _ =>
      if is_lateral || negb (bool_decide (join_type = INNER) || bool_decide (join_type = LEFT))
           || is_null_scan left || is_null_scan right
      then None
      else
        let plan := fold_left (plan_conjunct left right) (FlattenAndConjuncts join_expr)
                      (mkPlan [] [] []) in
        match left_key_ids plan with [] => None | _ => Some plan end
  end.

(** ** The hash join *)

(** The values of the key columns; [Ok None] when the first null is reached
    before a missing column. *)
Fixpoint join_keys (row : Row) (key_ids : list Z) : StatusOr (option (list Value)) :=
  match key_ids with
  | [] => Ok (Some [])
  | id :: key_ids =>
      match row !! id with
      | None => Err (InternalError ($"semantic: join key column_id=" ++ StrInt id
                       ++ $" missing from materialized row"))
      | Some v =>
          if is_null v then Ok None
          else keys ← join_keys row key_ids; Ok (option_map (cons v) keys)
      end
  end.

(** [Ok None] is a null key. *)
Definition JoinKeyFingerprint (row : Row) (key_ids : list Z) : StatusOr (option str) :=
  keys ← join_keys row key_ids; Ok (option_map GroupKeyFingerprint keys).

(** The index of the right rows by fingerprint; each bucket in row order. *)
Fixpoint build_index (plan : EquiJoinPlan) (right_rows : list Row) (index : gmap str (list Row))
    : StatusOr (gmap str (list Row)) :=
  match right_rows with
  | [] => Ok index
  | rrow :: right_rows =>
      fp ← JoinKeyFingerprint rrow (right_key_ids plan);
      build_index plan right_rows
        match fp with
        | None => index
        | Some k => <[k := default [] (index !! k) ++ [rrow]]> index
        end
  end.

(** The residual conjuncts in order; the first that does not hold decides. *)
Fixpoint residual_holds (residual : list ResolvedExpr) (merged : Row) (ctx : EvalContext)
    : StatusOr bool :=
  match residual with
  | [] => Ok true
  | e :: residual =>
      ok ← EvalBoolExpr e (set_columns ctx merged);
      if ok : bool then residual_holds residual merged ctx else Ok false
  end.

Fixpoint probe_rows (left_outer : bool) (rscan : Scan) (plan : EquiJoinPlan)
    (index : gmap str (list Row)) (left_rows : list Row) (ctx : EvalContext) : StatusOr (list Row) :=
  match left_rows with
  | [] => Ok []
  | lrow :: left_rows =>
      fp ← JoinKeyFingerprint lrow (left_key_ids plan);
      let candidates := match fp with Some k => default [] (index !! k) | None => [] end in
      matches ← matching_rows (fun m => residual_holds (residual plan) m ctx) lrow candidates;
      rest ← probe_rows left_outer rscan plan index left_rows ctx;
      Ok (join_group left_outer rscan lrow matches ++ rest)
  end.

Definition MaterializeHashEquiJoinRows (join_type : JoinType) (right : Scan) (plan : EquiJoinPlan)
    (left_rows right_rows : list Row) (ctx : EvalContext) : StatusOr (list Row) :=
  index ← build_index plan right_rows ∅;
  probe_rows (bool_decide (join_type = LEFT)) (StripBarrierScans right) plan index left_rows ctx.

(** [MaterializeJoinScan] on the materialized sides of a join that is not
    lateral. *)
Definition JoinRows (join_type : JoinType) (left right : Scan) (join_expr : ResolvedExpr)
    (left_rows right_rows : list Row) (ctx : EvalContext) : StatusOr (list Row) :=
  match PlanEquiJoin join_type false left right join_expr with
  | Some plan => MaterializeHashEquiJoinRows join_type right plan left_rows right_rows ctx
  | None => MaterializeNestedLoopJoinRows join_type right join_expr left_rows right_rows ctx
  end.
End joins.

(** ** The hash join returns the rows of the nested loop

    The nested loop evaluates the whole join condition on every pair of rows;
    the hash join looks equal keys up by fingerprint and evaluates the rest of
    the conjuncts on these pairs only. *)

(** What the planner relies on: the text of a value of a hashable type does not
    contain the separator and tells values apart exactly as SQL equality does. *)
Class FingerprintLaws `{GoogleSqlOps, ExecutorNodes, !ResolvedAst} : Prop := {
  debug_no_separator v t : HashableJoinKeyType (Some t) = true -> has_type v t = true ->
    is_null v = false -> key_separator ∉ ValueDebugString v;
  debug_equal v w t : HashableJoinKeyType (Some t) = true -> has_type v t = true ->
    has_type w t = true -> is_null v = false -> is_null w = false ->
    ValueDebugString v = ValueDebugString w <-> Equals v w = true;
}.

Section conjuncts.
Context `{AbslText, AbslDouble, GoogleSqlOps, ExecutorNodes}.
Context `{!CastLibrary, !ExecutorParts, !ResolvedAst}.

(** ** The verdict on a list of conjuncts *)

(** The residual loop on values: the first conjunct that is null or FALSE
    excludes the row, one that is not BOOL is an error. *)
Fixpoint verdict (vs : list Value) : option bool :=
  match vs with
  | [] => Some true
  | v :: vs =>
      if is_null v then Some false
      else if negb (is_kind v TYPE_BOOL) then None
      else if bool_value v then verdict vs else Some false
  end.

Lemma verdict_cons v vs :
  verdict (v :: vs) =
  if is_null v then Some false
  else if negb (is_kind v TYPE_BOOL) then None
  else if bool_value v then verdict vs else Some false.
Proof. done. Qed.

Lemma verdict_app vs ws :
  verdict (vs ++ ws) = match verdict vs with Some true => verdict ws | r => r end.
Proof. induction vs as [|v vs IH]; simpl; [done|]. by repeat case_match. Qed.

(** A conjunction of values has the verdict of its operands. *)
Lemma AndLoop_verdict vs seen v :
  AndLoop vs seen = Ok v ->
  (is_null v = false -> is_kind v TYPE_BOOL = true) /\
  verdict [v] = if seen then Some false else verdict vs.
Proof.
  revert seen. induction vs as [|x vs IH]; intros seen; cbn [AndLoop].
  - intros [= <-]. destruct seen; (split; [done|reflexivity]).
  - rewrite (verdict_cons x vs). destruct (is_null x).
    { intros E. apply IH in E as [K V]. split; [exact K|]. rewrite V. by destruct seen. }
    destruct (is_kind x TYPE_BOOL); [|done]. cbn [negb].
    destruct (bool_value x); [apply IH|]. intros [= <-]. split; [reflexivity|by destruct seen].
Qed.

Lemma verdict_one v b :
  verdict [v] = Some b ->
  (if is_null v then Ok false
   else if negb (is_kind v TYPE_BOOL)
   then Err (MakeSemanticError rInvalidArgument $"semantic: expected BOOL in predicate")
   else Ok (bool_value v)) = (Ok b : StatusOr bool).
Proof. cbn [verdict]. repeat case_match; congruence. Qed.

Lemma EvalBoolExpr_verdict e ctx b v :
  EvalExpr e ctx = Ok v -> EvalBoolExpr e ctx = Ok b <-> verdict [v] = Some b.
Proof.
  intros E. assert (EvalBoolExpr e ctx =
    (if is_null v then Ok false
     else if negb (is_kind v TYPE_BOOL)
     then Err (MakeSemanticError rInvalidArgument $"semantic: expected BOOL in predicate")
     else Ok (bool_value v))) as ->.
  { unfold EvalBoolExpr. rewrite E. by destruct e. }
  split; [|apply verdict_one]. cbn [verdict]. repeat case_match; congruence.
Qed.

Lemma EvalBoolExpr_Ok e ctx b : EvalBoolExpr e ctx = Ok b -> exists v, EvalExpr e ctx = Ok v.
Proof.
  intros E. destruct (EvalExpr e ctx) as [w|s] eqn:Ev; [by exists w|].
  unfold EvalBoolExpr in E. destruct e; try done; by rewrite Ev in E.
Qed.

(** The residual loop evaluates to the verdict when every conjunct has a value. *)
Lemma residual_verdict es m ctx vs b :
  Forall2 (evaluates (set_columns ctx m)) es vs -> verdict vs = Some b ->
  residual_holds es m ctx = Ok b.
Proof.
  intros F. revert b. induction F as [|e v es vs Ev F IH]; intros b V; cbn [residual_holds].
  - injection V as <-. done.
  - change (v :: vs) with ([v] ++ vs) in V. rewrite verdict_app in V.
    destruct (verdict [v]) as [[]|] eqn:Vv; [| |done].
    + rewrite (proj2 (EvalBoolExpr_verdict e _ true v Ev) Vv). cbn. by apply IH.
    + rewrite (proj2 (EvalBoolExpr_verdict e _ false v Ev) Vv). injection V as <-. done.
Qed.

(** ** The conjuncts of a condition *)

(** A node that calls a builtin: no function body, no aggregate, no external
    function, no SAFE prefix. *)
Definition builtin_node (fn : FunctionInfo) (tb : option ResolvedExpr) (mode : ErrorMode) : bool :=
  match tb with None => true | Some _ => false end
  && negb (bool_decide (fn_group fn = kSQLFunctionGroup))
  && negb (bool_decide (fn_group fn = $"External_function"))
  && negb (IsAggregate fn) && bool_decide (mode = DEFAULT_ERROR_MODE).

(** Every conjunction and equality of the condition is a builtin. *)
Fixpoint condition_ok (e : ResolvedExpr) : bool :=
  match e with
  | ECall (Some fn) tb _ args mode _ =>
      if is_call (Some fn) $"$and" then builtin_node fn tb mode && forallb condition_ok args
      else if is_call (Some fn) $"$equal" then builtin_node fn tb mode
      else true
  | _ => true
  end.

Lemma and_listed : $"$and" ∈ [$"$and"; $"$equal"].
Proof. constructor. Qed.
Lemma equal_listed : $"$equal" ∈ [$"$and"; $"$equal"].
Proof. do 2 constructor. Qed.

Lemma builtin_plain fn tb sb mode args ctx name :
  builtin_node fn tb mode = true -> is_call (Some fn) name = true ->
  name ∈ [$"$and"; $"$equal"] -> plain_call fn tb sb args ctx /\ LowerFunctionDispatchName fn = name.
Proof.
  unfold builtin_node. rewrite !andb_true_iff, !negb_true_iff. intros ((((T & S) & X) & A) & M) C N.
  apply bool_decide_eq_true in C. destruct tb; [done|]. split; [|done].
  split; [by right|]. split; [|split].
  - intros type. unfold TryEvalSqlUdfFromCall. by rewrite S.
  - by rewrite X.
  - rewrite C. repeat (apply elem_of_cons in N as [->|N]); [reflexivity..|by apply elem_of_nil in N].
Qed.

Lemma builtin_value fn tb sb args mode type ctx v name :
  builtin_node fn tb mode = true -> is_call (Some fn) name = true -> name ∈ [$"$and"; $"$equal"] ->
  EvalExpr (ECall (Some fn) tb sb args mode type) ctx = Ok v ->
  exists vs, Forall2 (evaluates ctx) args vs /\ DispatchFunctionByName name vs type ctx = Ok v.
Proof.
  intros B C N E. destruct (builtin_plain fn tb sb mode args ctx name B C N) as [P L].
  rewrite (plain_call_eval _ _ _ _ _ _ _ P) in E.
  unfold builtin_node in B. rewrite !andb_true_iff in B. destruct B as [_ M].
  apply bool_decide_eq_true in M as ->.
  destruct (CollectFunctionCallArgs EvalExpr args ctx) as [vs|s] eqn:A; [|done].
  exists vs. split; [by apply collected_args|]. rewrite L in E.
  by destruct (DispatchFunctionByName name vs type ctx).
Qed.

Lemma flat_conjuncts args : flat_map FlattenAndConjuncts args = concat (map FlattenAndConjuncts args).
Proof. apply flat_map_concat_map. Qed.

(** A condition that has a value: all its conjuncts have values, with the same
    verdict. *)
Lemma conjuncts_verdict e ctx v :
  condition_ok e = true -> EvalExpr e ctx = Ok v ->
  exists vs, Forall2 (evaluates ctx) (FlattenAndConjuncts e) vs /\ verdict vs = verdict [v].
Proof.
  revert v. induction e as [e Leaf|fn tb sb args mode type _ _ IH| | | | | |] using ResolvedExpr_nested_ind;
    intros v Ok_ E; try (exists [v]; split; [by repeat constructor|done]).
  - destruct e; try done; exists [v]; (split; [by repeat constructor|done]).
  - cbn [FlattenAndConjuncts]. destruct (is_call fn $"$and") eqn:A;
      [|exists [v]; split; [by repeat constructor|done]].
    destruct fn as [fn|]; [|done]. cbn [condition_ok] in Ok_. rewrite A in Ok_.
    apply andb_true_iff in Ok_ as [B Ok_].
    destruct (builtin_value _ _ _ _ _ _ _ _ $"$and" B A and_listed E) as (ws & F & D).
    change (DispatchFunctionByName $"$and" ws type ctx) with (AndLoop ws false) in D.
    apply AndLoop_verdict in D as [_ ->]. clear E A B v.
    induction F as [|a w args ws Ea F IHF]; [by exists []|].
    apply Forall_cons in IH as [IHa IH]. cbn [forallb] in Ok_. apply andb_true_iff in Ok_ as [Oa Ok_].
    destruct (IHa w Oa Ea) as (us & Fu & Vu). destruct (IHF IH Ok_) as (xs & Fx & Vx).
    exists (us ++ xs). split; [by apply Forall2_app|].
    change (w :: ws) with ([w] ++ ws). by rewrite !verdict_app, Vu, Vx.
Qed.
End conjuncts.

(** ** The planned keys *)
Section keys.
Context `{AbslText, AbslDouble, GoogleSqlOps, ExecutorNodes}.
Context `{!CastLibrary, !ExecutorParts, !ResolvedAst, !FingerprintLaws}.
Context (left right : Scan).

(** The key columns, left and right, of a conjunct the planner takes. *)
Definition key_of (conjunct : ResolvedExpr) : option (Z * Z) :=
  match equality_columns conjunct with
  | Some (lhs, rhs) =>
      if bool_decide (lhs ∈ column_ids left) && bool_decide (rhs ∈ column_ids right)
      then Some (lhs, rhs)
      else if bool_decide (rhs ∈ column_ids left) && bool_decide (lhs ∈ column_ids right)
      then Some (rhs, lhs) else None
  | None => None
  end.

Definition is_residual (c : ResolvedExpr) : bool := match key_of c with Some _ => false | None => true end.

Lemma plan_conjunct_key plan c :
  plan_conjunct left right plan c =
  match key_of c with
  | Some (a, b) => mkPlan (left_key_ids plan ++ [a]) (right_key_ids plan ++ [b]) (residual plan)
  | None => mkPlan (left_key_ids plan) (right_key_ids plan) (residual plan ++ [c])
  end.
Proof. unfold plan_conjunct, key_of. by repeat case_match. Qed.

Lemma plan_fold cs plan :
  fold_left (plan_conjunct left right) cs plan =
  mkPlan (left_key_ids plan ++ (omap key_of cs).*1) (right_key_ids plan ++ (omap key_of cs).*2)
    (residual plan ++ List.filter is_residual cs).
Proof.
  revert plan. induction cs as [|c cs IH]; intros [ls rs res]; [by rewrite !app_nil_r|].
  cbn [fold_left omap list_omap List.filter]. rewrite IH, plan_conjunct_key. unfold is_residual at 2.
  destruct (key_of c) as [[a b]|] eqn:K; cbn; rewrite <- ?app_assoc; done.
Qed.

(** A row test on one key: both columns bound, not null, with the same text. *)
Definition key_match (m : Row) (key : Z * Z) : bool :=
  match m !! key.1, m !! key.2 with
  | Some x, Some y =>
      negb (is_null x) && negb (is_null y) && bool_decide (ValueDebugString x = ValueDebugString y)
  | _, _ => false
  end.

(** The two rows bind the key columns with values of one hashable type, and the
    left row does not bind the right column. *)
Definition key_typed (l r : Row) (key : Z * Z) : Prop :=
  exists t x y, HashableJoinKeyType (Some t) = true /\
    l !! key.1 = Some x /\ has_type x t = true /\
    r !! key.2 = Some y /\ has_type y t = true /\ l !! key.2 = None.

Lemma key_typed_union (l r : Row) (key : Z * Z) x y :
  l !! key.1 = Some x -> r !! key.2 = Some y -> l !! key.2 = None ->
  (l ∪ r) !! key.1 = Some x /\ (l ∪ r) !! key.2 = Some y.
Proof. intros Hx Hy Hn. split; apply lookup_union_Some_raw; auto. Qed.

Lemma fingerprint_cons v vs :
  GroupKeyFingerprint (v :: vs) = ValueDebugString v ++ key_separator :: GroupKeyFingerprint vs.
Proof. cbn. by rewrite <- app_assoc. Qed.

Lemma join_keys_cons row id ids v :
  row !! id = Some v ->
  join_keys row (id :: ids) =
  if is_null v then Ok None else (keys ← join_keys row ids; Ok (option_map (cons v) keys)).
Proof. intros E. cbn. by rewrite E. Qed.

(** Equal fingerprints are matching keys. *)
Lemma fingerprints_match l r ks :
  Forall (key_typed l r) ks ->
  exists fl fr, JoinKeyFingerprint l ks.*1 = Ok fl /\ JoinKeyFingerprint r ks.*2 = Ok fr /\
    (forallb (key_match (l ∪ r)) ks = true <-> exists k, fl = Some k /\ fr = Some k).
Proof.
  intros F. enough (exists kl kr, join_keys l ks.*1 = Ok kl /\ join_keys r ks.*2 = Ok kr /\
    (forallb (key_match (l ∪ r)) ks = true <->
       exists xs ys, kl = Some xs /\ kr = Some ys /\ GroupKeyFingerprint xs = GroupKeyFingerprint ys))
    as (kl & kr & El & Er & I).
  { exists (option_map GroupKeyFingerprint kl), (option_map GroupKeyFingerprint kr).
    unfold JoinKeyFingerprint. rewrite El, Er. split_and!; [done..|]. rewrite I. split.
    - intros (xs & ys & -> & -> & E). exists (GroupKeyFingerprint xs). simpl. by rewrite E.
    - intros (k & E1 & E2). destruct kl as [xs|], kr as [ys|]; try done.
      injection E1 as E1. injection E2 as E2. exists xs, ys. by rewrite E1, E2. }
  induction F as [|[a b] ks (t & x & y & Ht & Hx & Tx & Hy & Ty & Hn) F IH];
    [exists (Some []), (Some []); split_and!; try done; split; [by exists [], []|done]|].
  destruct IH as (kl & kr & El & Er & I). cbn [fst snd] in *.
  rewrite !fmap_cons. cbn [fst snd].
  rewrite (join_keys_cons l a _ x Hx), (join_keys_cons r b _ y Hy).
  destruct (key_typed_union l r (a, b) x y Hx Hy Hn) as [Mx My].
  cbn [forallb]. unfold key_match at 1. cbn [fst snd] in *. rewrite Mx, My.
  destruct (is_null x) eqn:Nx; [|destruct (is_null y) eqn:Ny].
  - exists None, (if is_null y then None else option_map (cons y) kr). split; [done|]. split.
    { destruct (is_null y); [done|]. by rewrite Er. }
    split; [done|]. by intros (xs & ys & ? & _).
  - rewrite El. exists (option_map (cons x) kl), None. split_and!; [done..|].
    split; [done|]. by intros (xs & ys & _ & ? & _).
  - rewrite El, Er. exists (option_map (cons x) kl), (option_map (cons y) kr). split_and!; [done..|].
    cbn [negb andb]. rewrite andb_true_iff, bool_decide_eq_true, I. split.
    + intros [D (xs & ys & -> & -> & E)]. exists (x :: xs), (y :: ys). split_and!; [done..|].
      by rewrite !fingerprint_cons, D, E.
    + intros (xs & ys & E1 & E2 & E). destruct kl as [xs'|], kr as [ys'|]; try done.
      injection E1 as <-. injection E2 as <-. rewrite !fingerprint_cons in E.
      apply app_sep_inj in E as [D E]; [|by eapply debug_no_separator..].
      split; [done|]. by exists xs', ys'.
Qed.

(** ** The two loops *)

(** The verdict of an equality of values of a hashable type. *)
Lemma equal_verdict x y v t :
  HashableJoinKeyType (Some t) = true -> has_type x t = true -> has_type y t = true ->
  DispatchEqual [x; y] = Ok v ->
  verdict [v] =
  Some (negb (is_null x) && negb (is_null y) && bool_decide (ValueDebugString x = ValueDebugString y)).
Proof.
  intros Ht Tx Ty. pose proof (debug_equal x y t Ht Tx Ty) as D. unfold DispatchEqual.
  destruct (is_null x); [by intros [= <-]|]. destruct (is_null y); [by intros [= <-]|].
  intros [= <-]. specialize (D eq_refl eq_refl).
  change (verdict [SBool (Equals x y)]) with (if Equals x y then Some true else Some false).
  destruct (Equals x y); symmetry; cbn [negb andb]; f_equal.
  - apply bool_decide_eq_true. by apply D.
  - apply bool_decide_eq_false. intros E. by apply D in E.
Qed.

Lemma column_ref_value e id ctx m v u :
  HashableColumnRefId e = Some id -> EvalExpr e (set_columns ctx m) = Ok v -> m !! id = Some u -> v = u.
Proof.
  destruct e; try done. cbn [HashableColumnRefId EvalExpr]. destruct (_ || _); [done|].
  intros [= <-] E Hu. unfold LookupColumnRef in E. cbn [columns set_columns] in E.
  rewrite Hu in E. by injection E.
Qed.

(** The value of an equality of columns. *)
Lemma equality_value c i j ctx m v x y :
  condition_ok c = true -> equality_columns c = Some (i, j) ->
  EvalExpr c (set_columns ctx m) = Ok v -> m !! i = Some x -> m !! j = Some y ->
  DispatchEqual [x; y] = Ok v.
Proof.
  intros Oc Kc E Hx Hy. destruct c as [| | |fn tb sb args mode type| | | | | | | | | | | | | | |]; try done.
  destruct args as [|a [|b []]]; try done. cbn [equality_columns] in Kc.
  destruct (is_call fn $"$equal") eqn:Ic; [|done]. destruct fn as [fn|]; [|done].
  assert (is_call (Some fn) $"$and" = false) as Na.
  { apply bool_decide_eq_true in Ic. unfold is_call. by rewrite Ic. }
  cbn [condition_ok] in Oc. rewrite Na, Ic in Oc.
  destruct (builtin_value _ _ _ _ _ _ _ _ $"$equal" Oc Ic equal_listed E) as (vs & F & D). clear E.
  inversion F as [|? va ? ? Ea F1]; subst. inversion F1 as [|? vb ? ? Eb F2]; subst.
  inversion F2; subst. change (DispatchEqual [va; vb] = Ok v) in D.
  destruct (HashableColumnRefId a) as [ia|] eqn:Ha; [|done].
  destruct (HashableColumnRefId b) as [ib|] eqn:Hb; [|done].
  destruct (_ && _)%Z; [|done]. injection Kc as -> ->.
  by rewrite <- (column_ref_value _ _ _ _ _ _ Ha Ea Hx), <- (column_ref_value _ _ _ _ _ _ Hb Eb Hy).
Qed.

(** The verdict of a planned equality is the key match. *)
Lemma key_verdict c key ctx v l r :
  condition_ok c = true -> key_of c = Some key -> key_typed l r key ->
  EvalExpr c (set_columns ctx (l ∪ r)) = Ok v -> verdict [v] = Some (key_match (l ∪ r) key).
Proof.
  intros Oc Kc (t & x & y & Ht & Hx & Tx & Hy & Ty & Hn) E.
  destruct (key_typed_union l r key x y Hx Hy Hn) as [Mx My].
  unfold key_of in Kc. destruct (equality_columns c) as [[i j]|] eqn:Ec; [|done].
  unfold key_match. rewrite Mx, My.
  destruct (bool_decide _ && bool_decide _); [injection Kc as <-|
    destruct (bool_decide _ && bool_decide _); [injection Kc as <-|done]]; cbn [fst snd] in *.
  - apply (equal_verdict x y v t Ht Tx Ty). by apply (equality_value c i j ctx (l ∪ r) v x y).
  - rewrite (equal_verdict y x v t Ht Ty Tx) by (by apply (equality_value c i j ctx (l ∪ r) v y x)).
    f_equal. rewrite (andb_comm (negb (is_null y))). f_equal. by apply bool_decide_ext.
Qed.

(** Conjuncts with values, split into keys and the rest: the rest decides when
    all keys match, and the row is excluded when one does not. *)
Lemma split_verdict cs vs ctx l r b :
  Forall (fun c => condition_ok c = true) cs -> Forall (key_typed l r) (omap key_of cs) ->
  Forall2 (evaluates (set_columns ctx (l ∪ r))) cs vs -> verdict vs = Some b ->
  if forallb (key_match (l ∪ r)) (omap key_of cs)
  then residual_holds (List.filter is_residual cs) (l ∪ r) ctx = Ok b
  else b = false.
Proof.
  intros Oc Kt F. revert b. induction F as [|c v cs vs Ev F IH]; intros b V.
  { by injection V as <-. }
  apply Forall_cons in Oc as [Oc Ocs]. change (v :: vs) with ([v] ++ vs) in V.
  rewrite verdict_app in V. cbn [List.filter omap list_omap] in *. unfold is_residual at 1.
  destruct (key_of c) as [key|] eqn:Kc.
  - apply Forall_cons in Kt as [Kt Kts]. cbn [forallb].
    rewrite (key_verdict c key ctx v l r Oc Kc Kt Ev) in V.
    destruct (key_match (l ∪ r) key); cbn [andb]; [by apply IH|by injection V as <-].
  - specialize (IH Ocs Kt). cbn [residual_holds].
    destruct (verdict [v]) as [[]|] eqn:Vv; [| |done].
    + rewrite (proj2 (EvalBoolExpr_verdict c _ true v Ev) Vv). by apply IH.
    + injection V as <-. rewrite (proj2 (EvalBoolExpr_verdict c _ false v Ev) Vv).
      by destruct (forallb _ _).
Qed.

(** ** The index of the right rows *)

Lemma filter_nil_iff {A} (p : A -> bool) l : (forall x, In x l -> p x = false) -> List.filter p l = [].
Proof.
  intros N. induction l as [|x l IH]; [done|]. cbn [List.filter]. rewrite N by (by left).
  apply IH. intros y Hy. apply N. by right.
Qed.

Definition fingerprint_of (ids : list Z) (row : Row) : option str :=
  match JoinKeyFingerprint row ids with Ok fp => fp | Err _ => None end.

Lemma build_index_spec plan rows index :
  Forall (fun r => JoinKeyFingerprint r (right_key_ids plan) = Ok (fingerprint_of (right_key_ids plan) r)) rows ->
  exists index', build_index plan rows index = Ok index' /\
    forall k, default [] (index' !! k) = default [] (index !! k) ++
      List.filter (fun r => bool_decide (fingerprint_of (right_key_ids plan) r = Some k)) rows.
Proof.
  revert index. induction rows as [|r rows IH]; intros index F.
  { exists index. split; [done|]. intros k. by rewrite app_nil_r. }
  apply Forall_cons in F as [Fr F]. cbn [build_index]. rewrite Fr. cbn [mbind outcome_bind].
  destruct (IH match fingerprint_of (right_key_ids plan) r with
               | None => index
               | Some k => <[k := default [] (index !! k) ++ [r]]> index end F) as (index' & B & L).
  exists index'. split; [exact B|]. intros k. rewrite L. cbn [List.filter].
  destruct (fingerprint_of (right_key_ids plan) r) as [k'|]; [|by rewrite bool_decide_false].
  destruct (decide (k' = k)) as [->|N].
  - rewrite bool_decide_true by done. rewrite lookup_insert_eq. cbn [from_option]. unfold id at 1. by rewrite <- app_assoc.
  - rewrite bool_decide_false by congruence. by rewrite lookup_insert_ne.
Qed.

Lemma matching_rows_filter include residual_ p l rows ms :
  (forall r b, r ∈ rows -> include (l ∪ r) = Ok b ->
     if p r : bool then residual_ (l ∪ r) = Ok b else b = false) ->
  matching_rows include l rows = Ok ms -> matching_rows residual_ l (List.filter p rows) = Ok ms.
Proof.
  intros K. revert ms. induction rows as [|r rows IH]; intros ms E; [done|].
  cbn [matching_rows] in E. destruct (include (l ∪ r)) as [b|] eqn:I; [|done].
  destruct (matching_rows include l rows) as [rest|]; [|done]. injection E as <-.
  specialize (IH ltac:(intros; apply K; [by right|done]) rest eq_refl).
  pose proof (K r b ltac:(left) I) as Kr. cbn [List.filter]. destruct (p r).
  - cbn [matching_rows]. rewrite Kr. cbn [mbind outcome_bind]. rewrite IH. by destruct b.
  - by subst b.
Qed.

Context (cs : list ResolvedExpr) (include : Row -> StatusOr bool) (ctx : EvalContext).
Hypothesis conjuncts_ok : Forall (fun c => condition_ok c = true) cs.
Hypothesis include_verdict : forall m b, include m = Ok b ->
  exists vs, Forall2 (evaluates (set_columns ctx m)) cs vs /\ verdict vs = Some b.

Definition planned : EquiJoinPlan :=
  mkPlan (omap key_of cs).*1 (omap key_of cs).*2 (List.filter is_residual cs).

Lemma probe_matches left_outer rscan index left_rows right_rows out :
  (forall k, default [] (index !! k) =
     List.filter (fun r => bool_decide (fingerprint_of (right_key_ids planned) r = Some k)) right_rows) ->
  Forall (fun l => Forall (fun r => Forall (key_typed l r) (omap key_of cs)) right_rows) left_rows ->
  Forall (fun l => exists fp, JoinKeyFingerprint l (left_key_ids planned) = Ok fp) left_rows ->
  nested_loop left_outer rscan include left_rows right_rows = Ok out ->
  probe_rows left_outer rscan planned index left_rows ctx = Ok out.
Proof.
  intros Ix. revert out. induction left_rows as [|l left_rows IH]; intros out Kt Fp E; [done|].
  apply Forall_cons in Kt as [Kl Kt]. apply Forall_cons in Fp as [[fp Fl] Fp].
  cbn [nested_loop] in E. destruct (matching_rows include l right_rows) as [ms|] eqn:M; [|done].
  destruct (nested_loop left_outer rscan include left_rows right_rows) as [rest|]; [|done].
  injection E as <-. cbn [probe_rows]. rewrite Fl. cbn [mbind outcome_bind].
  assert (match fp with Some k => default [] (index !! k) | None => [] end =
    List.filter (fun r => forallb (key_match (l ∪ r)) (omap key_of cs)) right_rows) as ->.
  { clear M IH. destruct fp as [k|].
    - rewrite Ix. apply filter_ext_in. intros r Hr.
      rewrite Forall_forall in Kl. specialize (Kl r (proj2 (list_elem_of_In _ _) Hr)).
      destruct (fingerprints_match l r _ Kl) as (fl & fr & El & Er & I).
      change (omap key_of cs).*1 with (left_key_ids planned) in El. rewrite Fl in El. injection El as <-.
      unfold fingerprint_of. change (right_key_ids planned) with (omap key_of cs).*2. rewrite Er.
      destruct (forallb _ _); [|].
      + apply bool_decide_eq_true. destruct (proj1 I eq_refl) as (k' & [= <-] & ->). done.
      + apply bool_decide_eq_false. intros ->. by discriminate (proj2 I ltac:(by exists k)).
    - symmetry. apply filter_nil_iff. intros r Hr.
      rewrite Forall_forall in Kl. specialize (Kl r (proj2 (list_elem_of_In _ _) Hr)).
      destruct (fingerprints_match l r _ Kl) as (fl & fr & El & Er & I).
      change (omap key_of cs).*1 with (left_key_ids planned) in El. rewrite Fl in El. injection El as <-.
      destruct (forallb _ _); [|done]. by destruct (proj1 I eq_refl) as (? & ? & _). }
  rewrite (matching_rows_filter include (fun m => residual_holds (residual planned) m ctx) _ l right_rows ms);
    [|intros r b Hr I|exact M].
  - cbn [mbind outcome_bind]. by rewrite (IH rest Kt Fp eq_refl).
  - destruct (include_verdict _ _ I) as (vs & F & V). rewrite Forall_forall in Kl.
    apply (split_verdict cs vs ctx l r b); auto.
Qed.
End keys.

(** ** The theorem *)
Section agree.
Context `{AbslText, AbslDouble, GoogleSqlOps, ExecutorNodes}.
Context `{!CastLibrary, !ExecutorParts, !ResolvedAst, !FingerprintLaws}.

Lemma conjuncts_condition_ok e :
  condition_ok e = true -> Forall (fun c => condition_ok c = true) (FlattenAndConjuncts e).
Proof.
  induction e as [e Leaf|fn tb sb args mode type _ _ IH| | | | | |] using ResolvedExpr_nested_ind;
    intros Oe; try (by repeat constructor).
  - destruct e; try done; by repeat constructor.
  - cbn [FlattenAndConjuncts]. destruct (is_call fn $"$and") eqn:A; [|by repeat constructor].
    destruct fn as [fn|]; [|done]. cbn [condition_ok] in Oe. rewrite A in Oe.
    apply andb_true_iff in Oe as [_ Oe]. induction IH as [|a args IHa IH IHargs]; [constructor|].
    cbn [forallb] in Oe. apply andb_true_iff in Oe as [Oa Oe]. cbn [flat_map].
    apply Forall_app. auto.
Qed.

Lemma bound_fingerprint (row : Row) ids :
  Forall (fun id => is_Some (row !! id)) ids -> exists fp, JoinKeyFingerprint row ids = Ok fp.
Proof.
  intros F. enough (exists ks, join_keys row ids = Ok ks) as [ks E].
  { unfold JoinKeyFingerprint. rewrite E. by eexists. }
  induction F as [|id ids [v Hv] F [ks IH]]; [by eexists|].
  rewrite (join_keys_cons row id ids v Hv). destruct (is_null v); [by eexists|].
  rewrite IH. by eexists.
Qed.

(** The rows bind the key columns of the plan, with values of one hashable type
    on both sides, and column ids of the two sides are distinct. *)
Record keys_bound (plan : EquiJoinPlan) (left_rows right_rows : list Row) : Prop := {
  left_bound : Forall (fun l => Forall (fun id => is_Some (l !! id)) (left_key_ids plan)) left_rows;
  right_bound : Forall (fun r => Forall (fun id => is_Some (r !! id)) (right_key_ids plan)) right_rows;
  pairs_typed : Forall (fun l => Forall (fun r : Row =>
    Forall (key_typed l r) (zip (left_key_ids plan) (right_key_ids plan))) right_rows) left_rows;
}.

Lemma plan_equi_join jt left right je plan :
  PlanEquiJoin jt false left right je = Some plan ->
  je <> ENull /\ plan = planned left right (FlattenAndConjuncts je).
Proof.
  intros P. assert (je <> ENull) as N by (by intros ->). split; [done|].
  assert (match left_key_ids (fold_left (plan_conjunct left right) (FlattenAndConjuncts je) (mkPlan [] [] []))
          with [] => None
          | _ => Some (fold_left (plan_conjunct left right) (FlattenAndConjuncts je) (mkPlan [] [] []))
          end = Some plan) as P'.
  { unfold PlanEquiJoin in P. destruct je; try done; by destruct (_ || _). }
  rewrite plan_fold in P'. cbn [left_key_ids right_key_ids residual app] in P'.
  unfold planned. destruct ((omap (key_of left right) (FlattenAndConjuncts je)).*1); [done|].
  by injection P' as <-.
Qed.

(** C19: for every join the planner accepts, the hash join returns exactly the
    rows of the nested loop, in the same order, whenever the nested loop
    succeeds. *)
Theorem hash_join_agrees jt left right je plan left_rows right_rows ctx out :
  PlanEquiJoin jt false left right je = Some plan -> condition_ok je = true ->
  keys_bound plan left_rows right_rows ->
  MaterializeNestedLoopJoinRows jt right je left_rows right_rows ctx = Ok out ->
  MaterializeHashEquiJoinRows jt right plan left_rows right_rows ctx = Ok out.
Proof.
  intros P Oe [Lb Rb Pt] E. apply plan_equi_join in P as [N ->].
  unfold MaterializeHashEquiJoinRows.
  destruct (build_index_spec (planned left right (FlattenAndConjuncts je)) right_rows ∅) as (index & B & Ix).
  { apply (Forall_impl _ _ _ Rb). intros r Hr. destruct (bound_fingerprint r _ Hr) as [fp F].
    unfold fingerprint_of. by rewrite F. }
  rewrite B. cbn [mbind outcome_bind].
  eapply probe_matches; [by apply conjuncts_condition_ok| |exact Ix| | |exact E].
  - intros m b I. assert (EvalBoolExpr je (set_columns ctx m) = Ok b) as I'.
    { unfold ShouldIncludeJoinRow, is_cross in I. by destruct je. }
    destruct (EvalBoolExpr_Ok _ _ _ I') as [v Ev]. apply (EvalBoolExpr_verdict je _ b v Ev) in I'.
    destruct (conjuncts_verdict je _ v Oe Ev) as (vs & F & V). exists vs. by rewrite V.
  - apply (Forall_impl _ _ _ Pt). intros l Hl. apply (Forall_impl _ _ _ Hl). intros r Hr.
    cbn [planned left_key_ids right_key_ids] in Hr. by rewrite zip_fst_snd in Hr.
  - apply (Forall_impl _ _ _ Lb). intros l Hl. by apply bound_fingerprint.
Qed.
End agree.
