(* ===== verification/SetOps.v ===== *)
(** * SetOps: UNION, INTERSECT and EXCEPT

    Models [scan_eval_setops.cc]: the arms of a set operation are remapped to
    its output columns, and rows are compared by the text of their output
    columns.  The theorem gives the multiplicity of every row of the result.

    The counters are [int]; a row that occurs [2^31] times or more is outside
    the model. *)

From S2P Require Import Prelude Order Absl AbslReference Storage SemanticError FrameStack.
From S2P Require Import SqlValue GoogleSqlReference Arithmetic Operators MathFuncs Casts EvalExpr Rows.

Section set_operations.
Context `{GoogleSqlOps, ExecutorNodes, !ResolvedAst}.
Context (cols : list ResolvedColumn).

Definition SetOperationRowFingerprint (row : Row) : str :=
  flat_map (fun col => match row !! column_id col with
                       | Some v => ValueDebugString v
                       | None => $"<missing>"
                       end ++ [key_separator]) cols.

(** Output column [j] takes the value of column [j] of the arm, or null. *)
Fixpoint remap_columns (part_row : Row) (outs parts : list ResolvedColumn) (acc : Row) : Row :=
  match outs with
  | [] => acc
  | out :: outs =>
      let v := match head parts ≫= (fun c => part_row !! column_id c) with
               | Some v => v
               | None => match column_type out with Some t => SNull t | None => SInvalid end
               end in
      remap_columns part_row outs (tail parts) (emplace (column_id out) v acc)
  end.

Definition RemapSetOperationRow (part_row : Row) (part_scan : Scan) : Row :=
  remap_columns part_row cols (column_list part_scan) ∅.

(** The first row of every fingerprint, in order. *)
Fixpoint dedupe_from (seen : gset str) (rows : list Row) : list Row :=
  match rows with
  | [] => []
  | row :: rows =>
      let fp := SetOperationRowFingerprint row in
      if bool_decide (fp ∈ seen) then dedupe_from seen rows
      else row :: dedupe_from ({[fp]} ∪ seen) rows
  end.

Definition DedupeSetOperationRowsPreserveOrder (rows : list Row) : list Row := dedupe_from ∅ rows.

Definition count_row (counts : gmap str Z) (row : Row) : gmap str Z :=
  let fp := SetOperationRowFingerprint row in <[fp := (default 0 (counts !! fp) + 1)%Z]> counts.

Definition CountSetOperationRowsByFingerprint (rows : list Row) : gmap str Z :=
  fold_left count_row rows ∅.

Definition FirstSetOperationRowByFingerprint (rows : list Row) : gmap str Row :=
  fold_left (fun first row => emplace (SetOperationRowFingerprint row) row first) rows ∅.

Definition ExpandSetOperationCounts (counts : gmap str Z) (representatives : gmap str Row) : list Row :=
  flat_map (fun entry : str * Z =>
              if (entry.2 <=? 0)%Z then []
              else match representatives !! entry.1 with
                   | None => []
                   | Some row => replicate (Z.to_nat entry.2) row
                   end) (sorted_entries counts).

Definition ApplyExceptAll (left right : list Row) : list Row :=
  let right_counts := CountSetOperationRowsByFingerprint right in
  let left_counts :=
    map_imap (fun fp count => Some (match right_counts !! fp with
                                    | Some n => Z.max 0 (count - n)
                                    | None => count
                                    end))
      (CountSetOperationRowsByFingerprint left) in
  ExpandSetOperationCounts left_counts (FirstSetOperationRowByFingerprint left).

(** The counts an arm leaves: the smaller of the two, when it is positive. *)
Definition intersect_counts (counts : gmap str Z) (arm : list Row) : gmap str Z :=
  let next := CountSetOperationRowsByFingerprint arm in
  map_imap (fun fp count =>
              let common := match next !! fp with Some n => Z.min count n | None => 0%Z end in
              if (common <=? 0)%Z then None else Some common) counts.

Definition ApplyIntersectAllArms (arms : list (list Row)) : list Row :=
  match arms with
  | [] => []
  | arm :: arms =>
      ExpandSetOperationCounts
        (fold_left intersect_counts arms (CountSetOperationRowsByFingerprint arm))
        (FirstSetOperationRowByFingerprint arm)
  end.

Definition ApplyIntersectDistinctArms (arms : list (list Row)) : list Row :=
  match arms with
  | [] => []
  | arm :: arms =>
      (sorted_entries
         (fold_left (fun candidates arm =>
            let next := FirstSetOperationRowByFingerprint arm in
            map_imap (fun fp row => match next !! fp with Some _ => Some row | None => None end) candidates)
            arms (FirstSetOperationRowByFingerprint arm))).*2
  end.

Definition ApplyExceptDistinctArms (arms : list (list Row)) : list Row :=
  match arms with
  | [] => []
  | arm :: arms =>
      (sorted_entries
         (fold_left (fun left arm =>
            let right := FirstSetOperationRowByFingerprint arm in
            map_imap (fun fp row => match right !! fp with Some _ => None | None => Some row end) left)
            arms (FirstSetOperationRowByFingerprint arm))).*2
  end.

(** [MaterializeSetOperationScan] on the materialized arms. *)
Definition SetOperationRows (op_type : SetOp) (arms : list (list Row)) : StatusOr (list Row) :=
  match op_type with
  | UNION_ALL => Ok (concat arms)
  | UNION_DISTINCT => Ok (DedupeSetOperationRowsPreserveOrder (concat arms))
  | INTERSECT_ALL => Ok (ApplyIntersectAllArms arms)
  | INTERSECT_DISTINCT => Ok (ApplyIntersectDistinctArms arms)
  | EXCEPT_ALL =>
      match arms with
      | [] => Ok []
      | arm :: arms => Ok (fold_left ApplyExceptAll arms arm)
      end
  | EXCEPT_DISTINCT => Ok (ApplyExceptDistinctArms arms)
  | OTHER_SET_OP =>
      Err (MakeSemanticError rNotImplemented $"semantic: SetOperationScan op is not implemented")
  end.

(** ** Multiplicities *)

Definition has_fp (fp : str) (row : Row) : bool := bool_decide (SetOperationRowFingerprint row = fp).

(** How often a row occurs, rows with one fingerprint being the same row. *)
Definition mult (fp : str) (rows : list Row) : Z := Z.of_nat (length (List.filter (has_fp fp) rows)).

Lemma mult_nil fp : mult fp [] = 0%Z.
Proof. done. Qed.

Lemma mult_cons fp row rows :
  mult fp (row :: rows) =
  ((if bool_decide (SetOperationRowFingerprint row = fp) then 1 else 0) + mult fp rows)%Z.
Proof. unfold mult. cbn [List.filter]. unfold has_fp at 1. destruct (bool_decide _); simpl length; lia. Qed.

Lemma mult_app fp rows rows' : mult fp (rows ++ rows') = (mult fp rows + mult fp rows')%Z.
Proof. unfold mult. rewrite List.filter_app, length_app. lia. Qed.

Lemma mult_nonneg fp rows : (0 <= mult fp rows)%Z.
Proof. unfold mult. lia. Qed.

Lemma mult_concat fp arms : mult fp (concat arms) = foldr Z.add 0%Z (map (mult fp) arms).
Proof. induction arms as [|arm arms IH]; [done|]. cbn [concat map foldr]. by rewrite mult_app, IH. Qed.

Lemma mult_replicate fp n row :
  mult fp (replicate n row) = if bool_decide (SetOperationRowFingerprint row = fp) then Z.of_nat n else 0%Z.
Proof.
  induction n as [|n IH]; cbn [replicate]; [by destruct (bool_decide _)|].
  rewrite mult_cons, IH. destruct (bool_decide _); lia.
Qed.

Lemma count_rows_from rows counts fp :
  fold_left count_row rows counts !! fp =
  if (mult fp rows =? 0)%Z then counts !! fp else Some (default 0 (counts !! fp) + mult fp rows)%Z.
Proof.
  revert counts. induction rows as [|row rows IH]; intros counts; cbn [fold_left].
  { by rewrite mult_nil. }
  rewrite IH, mult_cons. unfold count_row. pose proof (mult_nonneg fp rows).
  destruct (decide (SetOperationRowFingerprint row = fp)) as [<-|N].
  - rewrite lookup_insert_eq, bool_decide_true by done. cbn [from_option]. unfold id.
    destruct (Z.eqb_spec (mult (SetOperationRowFingerprint row) rows) 0) as [E|E].
    + rewrite E. reflexivity.
    + destruct (Z.eqb_spec (1 + mult (SetOperationRowFingerprint row) rows) 0); [lia|].
      f_equal. lia.
  - rewrite lookup_insert_ne, bool_decide_false by done. by rewrite Z.add_0_l.
Qed.

Lemma count_rows fp rows :
  CountSetOperationRowsByFingerprint rows !! fp =
  if (mult fp rows =? 0)%Z then None else Some (mult fp rows).
Proof.
  unfold CountSetOperationRowsByFingerprint. rewrite count_rows_from, lookup_empty.
  by destruct (_ =? _)%Z.
Qed.

Lemma first_rows_from fp rows first :
  fold_left (fun first row => emplace (SetOperationRowFingerprint row) row first) rows first !! fp =
  match first !! fp with Some row => Some row | None => head (List.filter (has_fp fp) rows) end.
Proof.
  revert first. induction rows as [|row rows IH]; intros first; cbn [fold_left List.filter].
  { by destruct (first !! fp). }
  rewrite IH, lookup_emplace. unfold has_fp at 2.
  destruct (decide (fp = SetOperationRowFingerprint row)) as [->|N].
  - rewrite bool_decide_true by done. by destruct (first !! _).
  - by rewrite bool_decide_false.
Qed.

Lemma first_rows fp rows :
  FirstSetOperationRowByFingerprint rows !! fp = head (List.filter (has_fp fp) rows).
Proof. unfold FirstSetOperationRowByFingerprint. by rewrite first_rows_from, lookup_empty. Qed.

(** The representative of a fingerprint has it, and exists when a row has it. *)
Lemma first_rows_cases fp rows :
  match FirstSetOperationRowByFingerprint rows !! fp with
  | Some row => row ∈ rows /\ SetOperationRowFingerprint row = fp /\ (0 < mult fp rows)%Z
  | None => mult fp rows = 0%Z
  end.
Proof.
  rewrite first_rows. unfold mult. destruct (List.filter (has_fp fp) rows) as [|row l] eqn:E; [done|].
  cbn [head length]. assert (In row (List.filter (has_fp fp) rows)) as I by (rewrite E; by left).
  apply filter_In in I as [I F]. apply bool_decide_eq_true in F.
  split; [by apply list_elem_of_In|]. split; [done|lia].
Qed.

(** ** Expansion *)

(** Every entry yields rows with the fingerprint of its key. *)
Definition faithful {A} (g : str * A -> list Row) (entry : str * A) : Prop :=
  Forall (fun row => SetOperationRowFingerprint row = entry.1) (g entry).

Lemma mult_uniform fp k rows :
  Forall (fun row => SetOperationRowFingerprint row = k) rows ->
  mult fp rows = if decide (k = fp) then Z.of_nat (length rows) else 0%Z.
Proof.
  intros F. induction F as [|row rows <- F IH]; [by rewrite mult_nil; case_decide|].
  rewrite mult_cons, IH. simpl length. case_decide as D.
  - rewrite bool_decide_true by done. lia.
  - by rewrite bool_decide_false.
Qed.

Lemma mult_absent {A} (g : str * A -> list Row) l fp :
  Forall (faithful g) l -> fp ∉ l.*1 -> mult fp (flat_map g l) = 0%Z.
Proof.
  induction l as [|[k a] l IH]; intros F N; [done|]. apply Forall_cons in F as [Fk F].
  rewrite fmap_cons, not_elem_of_cons in N. destruct N as [Nk N]. cbn [flat_map].
  rewrite mult_app, (IH F N), (mult_uniform fp k) by done. rewrite decide_False by (by intros ->). done.
Qed.

Lemma mult_present {A} (g : str * A -> list Row) l fp a :
  Forall (faithful g) l -> NoDup l.*1 -> (fp, a) ∈ l ->
  mult fp (flat_map g l) = Z.of_nat (length (g (fp, a))).
Proof.
  induction l as [|[k b] l IH]; intros F ND I; [by apply elem_of_nil in I|].
  apply Forall_cons in F as [Fk F]. rewrite fmap_cons in ND. apply NoDup_cons in ND as [Nk ND].
  cbn [flat_map fst] in *. rewrite mult_app, (mult_uniform fp k) by done.
  apply elem_of_cons in I as [[= <- <-]|I].
  - rewrite decide_True by done. rewrite mult_absent by done. lia.
  - rewrite decide_False.
    + rewrite IH by done. lia.
    + intros ->. apply Nk. apply list_elem_of_fmap. by exists (fp, a).
Qed.

Lemma mult_entries {A} (g : str * A -> list Row) (m : gmap str A) fp :
  (forall k a, m !! k = Some a -> faithful g (k, a)) ->
  mult fp (flat_map g (sorted_entries m)) =
  match m !! fp with Some a => Z.of_nat (length (g (fp, a))) | None => 0%Z end.
Proof.
  intros G. assert (Forall (faithful g) (sorted_entries m)) as F.
  { apply Forall_forall. intros [k a] I. apply G. by apply sorted_entries_elem. }
  destruct (m !! fp) as [a|] eqn:E.
  - apply mult_present; [done|apply sorted_entries_NoDup|by apply sorted_entries_elem].
  - apply mult_absent; [done|]. intros ((k & a) & -> & I)%list_elem_of_fmap.
    apply sorted_entries_elem in I. cbn [fst] in E. congruence.
Qed.

Lemma expand_mult counts rows fp :
  mult fp (ExpandSetOperationCounts counts (FirstSetOperationRowByFingerprint rows)) =
  match counts !! fp with
  | Some c => if (mult fp rows =? 0)%Z then 0%Z else Z.max 0 c
  | None => 0%Z
  end.
Proof.
  unfold ExpandSetOperationCounts. rewrite mult_entries.
  - destruct (counts !! fp) as [c|]; [|done]. cbn [fst snd].
    pose proof (first_rows_cases fp rows) as R.
    destruct (FirstSetOperationRowByFingerprint rows !! fp) as [row|].
    + destruct R as (_ & _ & P). destruct (Z.eqb_spec (mult fp rows) 0); [lia|].
      destruct (Z.leb_spec c 0); [simpl; lia|]. rewrite length_replicate. lia.
    + rewrite R. cbn. by destruct (c <=? 0)%Z.
  - intros k c _. unfold faithful. cbn [fst snd]. destruct (c <=? 0)%Z; [constructor|].
    pose proof (first_rows_cases k rows) as R.
    destruct (FirstSetOperationRowByFingerprint rows !! k) as [row|]; [|constructor].
    apply Forall_replicate. apply R.
Qed.

Lemma distinct_entries_mult (m : gmap str Row) fp :
  (forall k row, m !! k = Some row -> SetOperationRowFingerprint row = k) ->
  mult fp (sorted_entries m).*2 = match m !! fp with Some _ => 1%Z | None => 0%Z end.
Proof.
  intros G. assert ((sorted_entries m).*2 = flat_map (fun e : str * Row => [e.2]) (sorted_entries m)) as ->.
  { induction (sorted_entries m) as [|e l IH]; [done|]. by rewrite fmap_cons, IH. }
  rewrite mult_entries.
  - by destruct (m !! fp).
  - intros k row E. constructor; [by apply G|constructor].
Qed.

(** ** The operations *)

Definition sum_of (ms : list Z) : Z := foldr Z.add 0%Z ms.

(** How often a row occurs in the result, from how often it occurs in the arms. *)
Definition expected (op : SetOp) (ms : list Z) : Z :=
  match op, ms with
  | UNION_ALL, _ => sum_of ms
  | UNION_DISTINCT, _ => Z.min 1 (sum_of ms)
  | INTERSECT_ALL, m :: ms => foldr Z.min m ms
  | INTERSECT_DISTINCT, m :: ms => Z.min 1 (foldr Z.min m ms)
  | EXCEPT_ALL, m :: ms => Z.max 0 (m - sum_of ms)
  | EXCEPT_DISTINCT, m :: ms => if (sum_of ms =? 0)%Z then Z.min 1 m else 0%Z
  | _, _ => 0%Z
  end.

Lemma dedupe_mult fp seen rows :
  mult fp (dedupe_from seen rows) = if bool_decide (fp ∈ seen) then 0%Z else Z.min 1 (mult fp rows).
Proof.
  revert seen. induction rows as [|row rows IH]; intros seen; cbn [dedupe_from].
  { rewrite mult_nil. by destruct (bool_decide _). }
  pose proof (mult_nonneg fp rows). rewrite mult_cons.
  destruct (bool_decide (SetOperationRowFingerprint row ∈ seen)) eqn:S; bool_to_prop.
  - rewrite IH. destruct (decide (SetOperationRowFingerprint row = fp)) as [<-|N].
    + by rewrite !(bool_decide_true (_ ∈ seen)).
    + by rewrite (bool_decide_false (_ = fp)).
  - rewrite mult_cons, IH. destruct (decide (SetOperationRowFingerprint row = fp)) as [<-|N].
    + rewrite (bool_decide_true (_ = _)), (bool_decide_false (_ ∈ seen)) by done.
      rewrite bool_decide_true by set_solver. lia.
    + rewrite (bool_decide_false (_ = fp)) by done. rewrite Z.add_0_l.
      by rewrite (bool_decide_ext (fp ∈ {[SetOperationRowFingerprint row]} ∪ seen) (fp ∈ seen)) by set_solver.
Qed.

Lemma sum_of_nonneg fp arms : (0 <= sum_of (map (mult fp) arms))%Z.
Proof. unfold sum_of. induction arms as [|arm arms IH]; simpl; [done|]. pose proof (mult_nonneg fp arm). lia. Qed.

Lemma foldr_min c m l : foldr Z.min (Z.min c m) l = Z.min m (foldr Z.min c l).
Proof. induction l as [|x l IH]; cbn [foldr]; lia. Qed.

Lemma foldr_min_nonneg c fp arms : (0 <= c)%Z -> (0 <= foldr Z.min c (map (mult fp) arms))%Z.
Proof.
  intros P. induction arms as [|arm arms IH]; cbn [map foldr]; [done|]. pose proof (mult_nonneg fp arm). lia.
Qed.

Lemma intersect_fold fp arms counts c :
  (0 <= c)%Z -> counts !! fp = (if (c =? 0)%Z then None else Some c) ->
  fold_left intersect_counts arms counts !! fp =
  let n := foldr Z.min c (map (mult fp) arms) in if (n =? 0)%Z then None else Some n.
Proof.
  revert counts c. induction arms as [|arm arms IH]; intros counts c P E; [done|].
  cbn [fold_left map foldr]. rewrite (IH _ (Z.min c (mult fp arm))).
  - by rewrite foldr_min.
  - pose proof (mult_nonneg fp arm). lia.
  - unfold intersect_counts. rewrite map_lookup_imap, E, count_rows. pose proof (mult_nonneg fp arm).
    destruct (Z.eqb_spec c 0) as [->|]; cbn.
    { by destruct (Z.eqb_spec (Z.min 0 (mult fp arm)) 0); [|lia]. }
    destruct (Z.eqb_spec (mult fp arm) 0) as [Z0|]; cbn.
    { rewrite Z0. by destruct (Z.eqb_spec (Z.min c 0) 0); [|lia]. }
    destruct (Z.leb_spec (Z.min c (mult fp arm)) 0); [lia|].
    by destruct (Z.eqb_spec (Z.min c (mult fp arm)) 0); [lia|].
Qed.

Lemma intersect_all_mult fp arm arms :
  mult fp (ApplyIntersectAllArms (arm :: arms)) = foldr Z.min (mult fp arm) (map (mult fp) arms).
Proof.
  cbn [ApplyIntersectAllArms]. rewrite expand_mult.
  rewrite (intersect_fold fp arms _ (mult fp arm)); [|apply mult_nonneg|apply count_rows].
  pose proof (foldr_min_nonneg (mult fp arm) fp arms (mult_nonneg _ _)) as P.
  assert (foldr Z.min (mult fp arm) (map (mult fp) arms) <= mult fp arm)%Z as U.
  { clear P. induction arms as [|a arms IH]; cbn [map foldr]; lia. }
  cbn zeta. destruct (Z.eqb_spec (foldr Z.min (mult fp arm) (map (mult fp) arms)) 0) as [->|]; [done|].
  destruct (Z.eqb_spec (mult fp arm) 0); lia.
Qed.

Lemma except_all_mult fp left right :
  mult fp (ApplyExceptAll left right) = Z.max 0 (mult fp left - mult fp right).
Proof.
  unfold ApplyExceptAll. rewrite expand_mult, map_lookup_imap, !count_rows.
  pose proof (mult_nonneg fp left). pose proof (mult_nonneg fp right).
  destruct (Z.eqb_spec (mult fp left) 0) as [->|]; cbn; [lia|].
  destruct (Z.eqb_spec (mult fp right) 0) as [->|]; cbn; lia.
Qed.

Lemma except_all_fold fp arms rows :
  mult fp (fold_left ApplyExceptAll arms rows) = Z.max 0 (mult fp rows - sum_of (map (mult fp) arms)).
Proof.
  revert rows. induction arms as [|arm arms IH]; intros rows; cbn [fold_left].
  - pose proof (mult_nonneg fp rows). unfold sum_of. simpl. lia.
  - rewrite IH, except_all_mult. unfold sum_of. cbn [map foldr].
    pose proof (mult_nonneg fp arm). pose proof (sum_of_nonneg fp arms). unfold sum_of in *. lia.
Qed.

(** The rows of the first arm that stay when arms filter the candidates. *)
Lemma candidates_fold (keep : bool -> bool) (fp : str) (arms : list (list Row)) (m : gmap str Row) :
  fold_left (fun left arm =>
     let right := FirstSetOperationRowByFingerprint arm in
     map_imap (fun fp row => match right !! fp with
                             | Some _ => if keep true then Some row else None
                             | None => if keep false then Some row else None
                             end) left) arms m !! fp =
  if forallb (fun arm => keep (negb (mult fp arm =? 0)%Z)) arms then m !! fp else None.
Proof.
  revert m. induction arms as [|arm arms IH]; intros m; cbn [fold_left forallb]; [done|].
  rewrite IH, map_lookup_imap. pose proof (first_rows_cases fp arm) as R.
  destruct (FirstSetOperationRowByFingerprint arm !! fp) as [row|].
  - destruct R as (_ & _ & P). destruct (Z.eqb_spec (mult fp arm) 0); [lia|]. cbn [negb].
    destruct (keep true), (forallb _ arms); cbn; by destruct (m !! fp).
  - rewrite R. cbn. destruct (keep false), (forallb _ arms); cbn; by destruct (m !! fp).
Qed.

(** Candidates keep the fingerprint of their key. *)
Lemma candidates_mult (keep : bool -> bool) (fp : str) (arm : list Row) (arms : list (list Row)) :
  mult fp (sorted_entries (fold_left (fun (left : gmap str Row) arm =>
     let right := FirstSetOperationRowByFingerprint arm in
     map_imap (fun fp row => match right !! fp with
                             | Some _ => if keep true then Some row else None
                             | None => if keep false then Some row else None
                             end) left) arms (FirstSetOperationRowByFingerprint arm))).*2 =
  if forallb (fun arm => keep (negb (mult fp arm =? 0)%Z)) arms then Z.min 1 (mult fp arm) else 0%Z.
Proof.
  rewrite distinct_entries_mult.
  - rewrite candidates_fold. destruct (forallb _ arms); [|done].
    pose proof (first_rows_cases fp arm) as R.
    destruct (FirstSetOperationRowByFingerprint arm !! fp); [destruct R as (_ & _ & R)|]; lia.
  - intros k row E. rewrite candidates_fold in E. destruct (forallb _ arms); [|done].
    pose proof (first_rows_cases k arm) as R. rewrite E in R. apply R.
Qed.

Lemma intersect_min c fp arms :
  (0 <= c)%Z -> (if forallb (fun arm => negb (mult fp arm =? 0)%Z) arms then Z.min 1 c else 0%Z) =
  Z.min 1 (foldr Z.min c (map (mult fp) arms)).
Proof.
  intros P. induction arms as [|arm arms IH]; cbn [forallb map foldr]; [done|].
  pose proof (mult_nonneg fp arm). pose proof (foldr_min_nonneg c fp arms P).
  destruct (Z.eqb_spec (mult fp arm) 0) as [->|]; cbn [negb andb]; [lia|].
  destruct (forallb _ arms); lia.
Qed.

Lemma except_none fp arms :
  forallb (fun arm => negb (negb (mult fp arm =? 0)%Z)) arms = (sum_of (map (mult fp) arms) =? 0)%Z.
Proof.
  unfold sum_of. induction arms as [|arm arms IH]; cbn [forallb map foldr]; [done|].
  pose proof (mult_nonneg fp arm). pose proof (sum_of_nonneg fp arms) as S. unfold sum_of in S.
  rewrite negb_involutive in *. rewrite IH.
  destruct (Z.eqb_spec (mult fp arm) 0), (Z.eqb_spec (foldr Z.add 0%Z (map (mult fp) arms)) 0),
    (Z.eqb_spec (mult fp arm + foldr Z.add 0%Z (map (mult fp) arms)) 0); try done; lia.
Qed.

(** C34: a set operation returns every row as often as SQL says, as a function of
    how often it occurs in each arm: the sum (UNION ALL), the minimum (INTERSECT
    ALL), the difference cut at zero (EXCEPT ALL), and at most once in the
    DISTINCT forms; rows are the same when their output columns have the same
    text. *)
Theorem set_operation_multiplicities op arms out fp :
  SetOperationRows op arms = Ok out -> mult fp out = expected op (map (mult fp) arms).
Proof.
  destruct op; cbn [SetOperationRows]; try (intros [= <-]); try done.
  - apply mult_concat.
  - unfold DedupeSetOperationRowsPreserveOrder. by rewrite dedupe_mult, mult_concat.
  - destruct arms; [done|]. apply intersect_all_mult.
  - destruct arms as [|arm arms]; [done|]. cbn [map expected].
    rewrite <- intersect_min by apply mult_nonneg. apply (candidates_mult (fun b => b)).
  - destruct arms as [|arm arms]; intros [= <-]; [done|]. apply except_all_fold.
  - destruct arms as [|arm arms]; [done|]. cbn [map expected]. rewrite <- except_none.
    apply (candidates_mult negb).
Qed.
End set_operations.
