(* ===== verification/Unnest.v ===== *)
(** * Unnest: the rows of an array scan

    Models [array_struct/array_scan.cc]: UNNEST of one or more arrays, with the
    zip modes PAD, TRUNCATE and STRICT, the offset column, and the null row of an
    outer UNNEST.  The theorem says which value every element column has in every
    row. *)

From S2P Require Import Prelude Order Absl AbslReference Storage SemanticError FrameStack.
From S2P Require Import SqlValue GoogleSqlReference Arithmetic Operators MathFuncs Casts EvalExpr Rows.

Inductive ZipMode := kPad | kTruncate | kStrict.

#[export] Instance ZipMode_eq_dec : EqDecision ZipMode.
Proof. solve_decision. Defined.

Section unnest.
Context `{AbslText, AbslDouble, GoogleSqlOps, ExecutorNodes}.
Context `{!CastLibrary, !ExecutorParts, !ResolvedAst}.

Definition ResolveZipMode (mode_expr : ResolvedExpr) : StatusOr ZipMode :=
  match mode_expr with
  | ENull => Ok kPad
  | ELiteral v =>
      if is_null v || negb (is_kind v TYPE_ENUM)
      then Err (rows_error $"semantic: ResolvedArrayScan.array_zip_mode literal is not a non-NULL ENUM value")
      else
        name ← EnumName v;
        if bool_decide (name = $"PAD") then Ok kPad
        else if bool_decide (name = $"TRUNCATE") then Ok kTruncate
        else if bool_decide (name = $"STRICT") then Ok kStrict
        else Err (rows_error ($"semantic: unrecognized ARRAY_ZIP_MODE '" ++ name ++ $"'"))
  | e => Err (rows_error ($"semantic: ResolvedArrayScan.array_zip_mode expected a ResolvedLiteral; got "
                ++ node_kind_string e))
  end.

Definition NullElement (element_type : option SqlType) : Value :=
  match element_type with None => NullInt64 | Some t => SNull t end.

Definition EvaluateArrayExpr (expr : ResolvedExpr) (ctx : EvalContext) : StatusOr Value :=
  match expr with
  | ENull => Err (InvalidArgumentError $"semantic: ResolvedArrayScan has a null array_expr_list entry")
  | _ =>
      v ← EvalExpr expr ctx;
      if negb (is_kind v TYPE_ARRAY)
      then Err (rows_error ($"semantic: ResolvedArrayScan.array_expr_list entry is not an ARRAY; got "
                  ++ DebugString (type_of v)))
      else Ok v
  end.

Definition ComputeZipRowCount (zip_mode : ZipMode) (sizes : list nat) : nat :=
  match sizes with
  | [] => 0
  | [n] => n
  | n :: ns =>
      match zip_mode with
      | kPad => foldl Nat.max 0 sizes
      | kTruncate => foldl Nat.min n ns
      | kStrict => n
      end
  end.

(** The first array whose length differs from the first one's. *)
Fixpoint strict_sizes (first i : nat) (sizes : list nat) : StatusOr nat :=
  match sizes with
  | [] => Ok first
  | n :: sizes =>
      if negb (n =? first)
      then Err (rows_error ($"semantic: UNNEST with mode STRICT requires arrays of equal length; got array #0 length "
                  ++ StrInt (Z.of_nat first) ++ $" and array #" ++ StrInt (Z.of_nat i) ++ $" length "
                  ++ StrInt (Z.of_nat n)))
      else strict_sizes first (S i) sizes
  end.

Definition ValidateStrictZipSizes (sizes : list nat) : StatusOr nat :=
  match sizes with [] => Ok 0 | n :: ns => strict_sizes n 1 ns end.

Section array_scan.
Context (column_list element_column_list : list ResolvedColumn)
  (array_offset_column : option ResolvedColumn) (is_outer : bool).

(** The element column at the position of a public column, else the first one
    with its name. *)
Definition alias_value (elements : list ResolvedColumn) (i : nat) (name : str) (bindings : Row)
    : option Value :=
  match elements !! i ≫= (fun c => bindings !! column_id c) with
  | Some v => Some v
  | None => list_find (fun c => column_name c = name) elements ≫= (fun p => bindings !! column_id p.2)
  end.

Definition alias_column (elements : list ResolvedColumn) (bindings : Row) (ic : nat * ResolvedColumn)
    : Row :=
  match bindings !! column_id ic.2 with
  | Some _ => bindings
  | None =>
      match alias_value elements ic.1 (column_name ic.2) bindings with
      | Some v => <[column_id ic.2 := v]> bindings
      | None => bindings
      end
  end.

Definition AliasUnnestPublicColumnIds (n_arrays : nat) (bindings : Row) : Row :=
  fold_left (alias_column (take n_arrays element_column_list)) (imap pair column_list) bindings.

(** The default of a column the analyzer added: its name starts with a dollar
    sign. *)
Definition internal_default (col : ResolvedColumn) : option Value :=
  let null := match column_type col with Some t => SNull t | None => SInvalid end in
  match column_name col with
  | c :: _ =>
      if negb (Ascii.eqb c "$") then None
      else if bool_decide (column_name col = $"$side_effects")
      then Some match column_type col with Some TBytes => NullBytes | _ => null end
      else Some match column_type col with Some TBool => SBool false | _ => null end
  | [] => None
  end.

Definition known_ids : list Z :=
  map column_id (element_column_list ++ match array_offset_column with Some c => [c] | None => [] end).

Definition inject_column (bindings : Row) (col : ResolvedColumn) : Row :=
  if bool_decide (column_id col ∈ known_ids) then bindings
  else match bindings !! column_id col, internal_default col with
       | None, Some v => <[column_id col := v]> bindings
       | _, _ => bindings
       end.

Definition InjectArrayScanInternalColumns (bindings : Row) : Row :=
  fold_left inject_column column_list bindings.

Definition bind_offset (v : Value) (bindings : Row) : Row :=
  match array_offset_column with Some c => emplace (column_id c) v bindings | None => bindings end.

(** The row whose element columns have the given values, in order. *)
Definition unnest_row (n_arrays : nat) (values : list Value) (offset : Value) : Row :=
  let bindings := fold_left (fun m (cv : ResolvedColumn * Value) => emplace (column_id cv.1) cv.2 m)
                    (zip (take n_arrays element_column_list) values) ∅ in
  InjectArrayScanInternalColumns (AliasUnnestPublicColumnIds n_arrays (bind_offset offset bindings)).

Definition BuildOuterUnnestNullRow (n_arrays : nat) : Row :=
  unnest_row n_arrays (map (fun c => NullElement (column_type c)) (take n_arrays element_column_list))
    NullInt64.

(** The element at an index; past the end, and of a null array, a null of the
    column's type. *)
Definition element_or_null (idx : nat) (ca : ResolvedColumn * Value) : Value :=
  match elements ca.2 !! idx with Some v => v | None => NullElement (column_type ca.1) end.

Definition BuildUnnestRowAtIndex (n_arrays idx : nat) (arrays : list Value) : Row :=
  unnest_row n_arrays (map (element_or_null idx) (zip element_column_list arrays))
    (SInt64 (Z.of_nat idx)).

Definition BuildUnnestRows (n_arrays row_count : nat) (arrays : list Value) : list Row :=
  if (row_count =? 0) && is_outer then [BuildOuterUnnestNullRow n_arrays]
  else map (fun idx => BuildUnnestRowAtIndex n_arrays idx arrays) (seq 0 row_count).

Definition zip_mode_of (n_arrays : nat) (array_zip_mode : ResolvedExpr) : StatusOr ZipMode :=
  if 1 <? n_arrays then ResolveZipMode array_zip_mode else Ok kPad.

(** A null array has no elements. *)
Definition array_sizes (arrays : list Value) : list nat := map (fun a => length (elements a)) arrays.

Definition unnest_row_count (n_arrays : nat) (zip_mode : ZipMode) (sizes : list nat) : StatusOr nat :=
  if (1 <? n_arrays) && bool_decide (zip_mode = kStrict) then ValidateStrictZipSizes sizes
  else Ok (ComputeZipRowCount zip_mode sizes).

Definition is_single_row (scan : Scan) : bool := match scan with SingleRowScan _ => true | _ => false end.

Definition EvaluateArrayScan (input_scan : Scan) (array_expr_list : list ResolvedExpr)
    (join_expr array_zip_mode : ResolvedExpr) (parent_ctx : EvalContext) : StatusOr (list Row) :=
  let n_arrays := length array_expr_list in
  let unbound := match columns parent_ctx with None => true | Some _ => false end in
  if match join_expr with ENull => false | _ => unbound end then
    Err (not_implemented $"semantic: ResolvedArrayScan.join_expr must be lowered by scan_eval MaterializeArrayScan")
  else if match input_scan with NullScan => false | s => negb (is_single_row s) && unbound end then
    Err (not_implemented $"semantic: correlated ResolvedArrayScan requires outer row bindings")
  else if n_arrays =? 0 then
    Err (InvalidArgumentError $"semantic: ResolvedArrayScan has empty array_expr_list")
  else if negb (length element_column_list =? n_arrays) then
    Err (InvalidArgumentError ($"semantic: ResolvedArrayScan.element_column_list size ("
           ++ StrInt (Z.of_nat (length element_column_list))
           ++ $") does not match array_expr_list size (" ++ StrInt (Z.of_nat n_arrays) ++ $")"))
  else if (1 <? n_arrays) && match array_offset_column with Some _ => true | None => false end then
    Err (rows_error $"semantic: WITH OFFSET is not allowed with multi-array UNNEST")
  else
    arrays ← outcome_mapM (fun e => EvaluateArrayExpr e parent_ctx) array_expr_list;
    zip_mode ← zip_mode_of n_arrays array_zip_mode;
    row_count ← unnest_row_count n_arrays zip_mode (array_sizes arrays);
    Ok (BuildUnnestRows n_arrays row_count arrays).

(** ** The rows of UNNEST *)

(** Binding what is not bound keeps every binding. *)
Lemma inject_keeps bindings id v :
  bindings !! id = Some v -> InjectArrayScanInternalColumns bindings !! id = Some v.
Proof.
  unfold InjectArrayScanInternalColumns. revert bindings.
  induction column_list as [|col cols IH]; intros bindings L; [done|]. simpl. apply IH.
  unfold inject_column. case_bool_decide; [done|].
  destruct (bindings !! column_id col) eqn:E; [done|]. destruct (internal_default col); [|done].
  rewrite lookup_insert_ne; [done|]. congruence.
Qed.

Lemma alias_keeps n bindings id v :
  bindings !! id = Some v -> AliasUnnestPublicColumnIds n bindings !! id = Some v.
Proof.
  unfold AliasUnnestPublicColumnIds. generalize (take n element_column_list) as es. intros es.
  revert bindings. generalize (imap pair column_list) as cs.
  induction cs as [|ic cs IH]; intros bindings L; [done|]. simpl. apply IH. unfold alias_column.
  destruct (bindings !! column_id ic.2) eqn:E; [done|]. destruct (alias_value _ _ _ _); [|done].
  rewrite lookup_insert_ne; [done|]. congruence.
Qed.

Lemma emplace_all_keeps (l : list (ResolvedColumn * Value)) (m : Row) id v :
  m !! id = Some v ->
  fold_left (fun m (cv : ResolvedColumn * Value) => emplace (column_id cv.1) cv.2 m) l m !! id = Some v.
Proof.
  revert m. induction l as [|[c w] l IH]; intros m L; [done|]. simpl. apply IH.
  rewrite lookup_emplace. case_decide as E; [subst id; by rewrite L|done].
Qed.

Lemma emplace_all_lookup (l : list (ResolvedColumn * Value)) (m : Row) i c v :
  NoDup (map (fun cv : ResolvedColumn * Value => column_id cv.1) l) ->
  (forall j cv, l !! j = Some cv -> m !! column_id cv.1 = None) ->
  l !! i = Some (c, v) ->
  fold_left (fun m (cv : ResolvedColumn * Value) => emplace (column_id cv.1) cv.2 m) l m
    !! column_id c = Some v.
Proof.
  revert m i. induction l as [|[c0 v0] l IH]; intros m i ND F L; [done|].
  simpl in ND. apply NoDup_cons in ND as [NI ND]. simpl.
  assert (emplace (column_id c0) v0 m !! column_id c0 = Some v0) as E0.
  { rewrite lookup_emplace, (F 0 (c0, v0) eq_refl : m !! column_id c0 = None). by rewrite decide_True. }
  destruct i as [|i].
  - injection L as <- <-. by apply emplace_all_keeps.
  - eapply IH; [done| |exact L]. intros j [c1 v1] L1. rewrite lookup_emplace.
    rewrite decide_False; [by apply (F (S j) (c1, v1))|]. simpl. intros E. apply NI.
    cbn [fst]. rewrite <- E. apply list_elem_of_In, in_map_iff. exists (c1, v1). split; [done|].
    apply list_elem_of_In. by eapply list_elem_of_lookup_2.
Qed.

Definition element_ids : list Z := map column_id element_column_list.

(** A row binds every element column to its value. *)
Lemma unnest_row_element n values offset i c v :
  NoDup element_ids -> length element_column_list = n -> length values = n ->
  element_column_list !! i = Some c -> values !! i = Some v ->
  unnest_row n values offset !! column_id c = Some v.
Proof.
  intros ND <- Lv Lc Ev. unfold unnest_row. rewrite firstn_all.
  apply inject_keeps, alias_keeps.
  assert (fold_left (fun m (cv : ResolvedColumn * Value) => emplace (column_id cv.1) cv.2 m)
            (zip element_column_list values) ∅ !! column_id c = Some v) as E.
  { apply (emplace_all_lookup _ _ i); [|done|].
    - rewrite <- (map_map fst column_id). fold (fst <$> zip element_column_list values).
      rewrite fst_zip by lia. done.
    - apply lookup_zip_with_Some. by exists c, v. }
  unfold bind_offset. destruct array_offset_column; [|done].
  rewrite lookup_emplace. case_decide as D; [|done]. by rewrite <- D, E.
Qed.

Lemma unnest_row_offset n values offset c :
  array_offset_column = Some c -> column_id c ∉ element_ids ->
  unnest_row n values offset !! column_id c = Some offset.
Proof.
  intros O NI. unfold unnest_row, bind_offset. rewrite O. apply inject_keeps, alias_keeps.
  rewrite lookup_emplace, decide_True by done.
  assert (forall (l : list (ResolvedColumn * Value)) (m : Row), column_id c ∉ map column_id l.*1 ->
            fold_left (fun m (cv : ResolvedColumn * Value) => emplace (column_id cv.1) cv.2 m) l m
              !! column_id c = m !! column_id c) as K.
  { induction l as [|[d w] l IH]; intros m N; [done|]. simpl in N |- *.
    apply not_elem_of_cons in N as [N1 N2]. rewrite IH by done. rewrite lookup_emplace.
    by rewrite decide_False. }
  rewrite K; [done|]. intros I. apply NI. unfold element_ids.
  apply list_elem_of_In, in_map_iff in I as (d & <- & I). apply list_elem_of_In, in_map.
  apply list_elem_of_In, list_elem_of_fmap in I as ([d' w] & -> & I).
  apply elem_of_zip_l, list_elem_of_In in I. simpl.
  rewrite <- (take_drop n element_column_list). apply in_or_app. by left.
Qed.

Lemma foldl_max_fold l n : foldl Nat.max n l = Nat.max n (list_max l).
Proof. revert n. induction l as [|x l IH]; intros n; simpl; [lia|]. rewrite IH. lia. Qed.

Lemma strict_sizes_Ok first i sizes n :
  strict_sizes first i sizes = Ok n -> n = first /\ Forall (eq first) sizes.
Proof.
  revert i. induction sizes as [|m sizes IH]; intros i; simpl; [intros [= ->]; by split|].
  destruct (Nat.eqb_spec m first); [|done]. intros E. apply IH in E as [-> F]. by split; [|constructor].
Qed.

(** The number of rows each mode asks for. *)
Definition zip_count (mode : ZipMode) (sizes : list nat) (n : nat) : Prop :=
  match mode with
  | kPad => n = list_max sizes
  | kTruncate => Forall (le n) sizes /\ n ∈ sizes
  | kStrict => Forall (eq n) sizes
  end.

Lemma foldl_min_spec l n :
  (foldl Nat.min n l <= n) /\ Forall (le (foldl Nat.min n l)) l /\ foldl Nat.min n l ∈ n :: l.
Proof.
  revert n. induction l as [|x l IH]; intros n; simpl; [repeat constructor|].
  destruct (IH (Nat.min n x)) as (A & B & C). split; [lia|]. split; [constructor; [lia|done]|].
  apply elem_of_cons in C as [C|C]; [|set_solver]. rewrite C.
  destruct (Nat.min_spec n x) as [[_ ->]|[_ ->]]; set_solver.
Qed.

Lemma unnest_row_count_spec mode sizes n :
  (length sizes <= 1 -> mode = kPad) -> sizes <> [] ->
  unnest_row_count (length sizes) mode sizes = Ok n -> zip_count mode sizes n.
Proof.
  intros M NE. destruct sizes as [|s sizes]; [done|]. unfold unnest_row_count.
  destruct sizes as [|s' sizes].
  { rewrite M by (simpl; lia). simpl. intros [= <-]. simpl. lia. }
  destruct mode; cbn [bool_decide decide andb ValidateStrictZipSizes].
  - simpl. intros [= <-]. rewrite foldl_max_fold. simpl. lia.
  - simpl. intros [= <-]. pose proof (foldl_min_spec sizes (Nat.min s s')) as (A & B & C).
    split; [repeat constructor; [lia|lia|done]|].
    apply elem_of_cons in C as [C|C]; [|set_solver]. rewrite C.
    destruct (Nat.min_spec s s') as [[_ ->]|[_ ->]]; set_solver.
  - rewrite andb_true_r. simpl (1 <? _). intros E. apply (strict_sizes_Ok s 1 (s' :: sizes)) in E as [-> F].
    by constructor.
Qed.

Definition element_columns_are (row : Row) (values : list Value) : Prop :=
  Forall2 (fun id v => row !! id = Some v) element_ids values.

Lemma unnest_row_elements n values offset :
  NoDup element_ids -> length element_column_list = n -> length values = n ->
  element_columns_are (unnest_row n values offset) values.
Proof.
  intros ND L Lv. apply Forall2_same_length_lookup_2.
  { unfold element_ids. rewrite length_map. lia. }
  intros i id v Hi Hv. unfold element_ids in Hi.
  rewrite list_lookup_fmap in Hi. destruct (element_column_list !! i) as [c|] eqn:E; [|done].
  injection Hi as <-. by eapply unnest_row_element.
Qed.

(** UNNEST of several arrays returns, for its zip mode, as many rows as the
    longest array (PAD), the shortest (TRUNCATE) or every array (STRICT) has
    elements; row [k] binds each element column to element [k] of its array, or
    to a null of the column's type past its end, and the offset column to [k].
    An outer UNNEST without elements returns one row of nulls. *)
Theorem unnest_rows input exprs join_expr mode_expr ctx rows :
  EvaluateArrayScan input exprs join_expr mode_expr ctx = Ok rows ->
  NoDup known_ids ->
  exists arrays mode n,
    outcome_mapM (fun e => EvaluateArrayExpr e ctx) exprs = Ok arrays /\
    zip_mode_of (length exprs) mode_expr = Ok mode /\ zip_count mode (array_sizes arrays) n /\
    if (n =? 0) && is_outer
    then exists row, rows = [row] /\
           element_columns_are row (map (fun c => NullElement (column_type c)) element_column_list)
    else length rows = n /\
      forall k row, rows !! k = Some row ->
        element_columns_are row (map (element_or_null k) (zip element_column_list arrays)) /\
        (forall c, array_offset_column = Some c -> row !! column_id c = Some (SInt64 (Z.of_nat k))).
Proof.
  intros E ND. unfold EvaluateArrayScan in E.
  destruct (match join_expr with ENull => _ | _ => _ end); [done|].
  destruct (match input with NullScan => _ | _ => _ end); [done|].
  destruct (Nat.eqb_spec (length exprs) 0) as [|NE]; [done|].
  destruct (Nat.eqb_spec (length element_column_list) (length exprs)) as [L|]; [|done]. simpl in E.
  destruct (_ && match array_offset_column with Some _ => _ | None => _ end); [done|].
  apply bind_Ok in E as (arrays & A & E). apply bind_Ok in E as (mode & M & E).
  apply bind_Ok in E as (n & C & E). injection E as <-.
  exists arrays, mode, n. split; [done|]. split; [done|].
  pose proof (mapM_length _ _ _ A) as LA.
  unfold known_ids in ND. rewrite map_app in ND. apply NoDup_app in ND as (ND & Dis & _).
  assert (length (array_sizes arrays) = length exprs) as LS by (unfold array_sizes; by rewrite length_map).
  split.
  { apply unnest_row_count_spec; [|destruct (array_sizes arrays); simpl in *; [lia|done]|by rewrite LS].
    rewrite LS. unfold zip_mode_of in M. destruct (Nat.ltb_spec 1 (length exprs)); [lia|]. by injection M as <-. }
  unfold BuildUnnestRows. destruct ((n =? 0) && is_outer).
  { eexists. split; [done|]. unfold BuildOuterUnnestNullRow. rewrite <- L, firstn_all.
    apply unnest_row_elements; [done|done|by rewrite length_map]. }
  rewrite length_map, length_seq. split; [done|]. intros k row R.
  rewrite list_lookup_fmap in R. destruct (seq 0 n !! k) as [k'|] eqn:Q; [|done].
  apply lookup_seq in Q as [-> _]. injection R as <-. simpl. split.
  - apply unnest_row_elements; [done|done|]. rewrite length_map, length_zip. lia.
  - intros c O. apply unnest_row_offset; [done|]. intros I. apply (Dis _ I). rewrite O. set_solver.
Qed.
End array_scan.
End unnest.
