(* ===== verification/AggFuncs.v ===== *)
(** * AggFuncs: the aggregate functions

    Models [functions/aggregate_sum_avg.cc] and its helpers (SUM, AVG, MIN, MAX),
    [functions/aggregate_specialized.cc] (COUNT, COUNTIF, ANY_VALUE, STDDEV,
    VAR_SAMP, the approximate aggregates, ARRAY_CONCAT_AGG),
    [functions/aggregate_top_helpers.cc] and [functions/aggregate_safe_wrap.cc]
    (the dispatch by name, LOGICAL_AND and LOGICAL_OR, SAFE aggregates).

    An aggregate takes its argument columns, one list of cells per argument.
    The sum of AVG over INT64 and the weights of APPROX_TOP_SUM overflow a signed
    integer without a test, which C++ leaves undefined; the model wraps.  The
    sketch aggregates are a member of [AggregateParts]. *)

From S2P Require Import Prelude Order Absl AbslReference Storage SemanticError FrameStack.
From S2P Require Import SqlValue GoogleSqlReference Arithmetic Operators MathFuncs Casts EvalExpr Rows.

Section aggregates.
Context `{AbslText, AbslDouble, GoogleSqlOps, ExecutorNodes, !CastLibrary, !ResolvedAst}.

(** [Value::Null]; a null type has no value. *)
Definition null_value (type : option SqlType) : Value :=
  match type with Some t => SNull t | None => SInvalid end.

(** ** SUM and AVG *)

Definition NullOfAggregateType (type : option SqlType) : Value :=
  match type with None => NullInt64 | Some t => SNull t end.

(** A decimal operation that fails is an overflow when its code says so. *)
Definition decimal_status {N} (r : StatusOr N) : StatusOr N :=
  match r with
  | Ok n => Ok n
  | Err s => if bool_decide (code s = kOutOfRange) then Err (MakeSemanticError rOverflow (message s))
             else Err (rows_error (message s))
  end.

Definition CoerceToNumericForSum (v : Value) : StatusOr NumericValue :=
  match v with
  | SNumeric n => Ok n
  | SInt64 z => match NumericValue_FromString (StrInt z) with
                | Ok n => Ok n
                | Err s => Err (rows_error (message s))
                end
  | SDouble d | SFloat d => decimal_status (NumericValue_FromDouble d)
  | _ => Err (rows_error ($"semantic: cannot coerce " ++ DebugString (type_of v)
                ++ $" to NUMERIC for SUM"))
  end.

Definition mismatch (what : str) : Status :=
  rows_error ($"semantic: " ++ what ++ $" argument type mismatch").

Definition numeric_cell (what : str) (v : Value) : StatusOr NumericValue :=
  match v with SNumeric n => Ok n | _ => Err (mismatch what) end.
Definition bignumeric_cell (what : str) (v : Value) : StatusOr BigNumericValue :=
  match v with SBigNumeric n => Ok n | _ => Err (mismatch what) end.

(** The total of the cells that are not null and their number. *)
Fixpoint decimal_total {N} (ops : DecimalOps N) (read : Value -> StatusOr N) (cells : list Value)
    (total : option N) (count : Z) : StatusOr (option N * Z) :=
  match cells with
  | [] => Ok (total, count)
  | v :: cells =>
      if is_null v then decimal_total ops read cells total count
      else
        n ← read v;
        total ← match total with
                | None => Ok n
                | Some t => decimal_status (num_add ops t n)
                end;
        decimal_total ops read cells (Some total) (count + 1)
  end.

Definition sum_of_decimals {N} (ops : DecimalOps N) (mk : N -> Value) (read : Value -> StatusOr N)
    (type : option SqlType) (cells : list Value) : StatusOr Value :=
  '(total, _) ← decimal_total ops read cells None 0;
  Ok match total with None => NullOfAggregateType type | Some t => mk t end.

Definition SumNumericAggregateCells (type : option SqlType) (cells : list Value) : StatusOr Value :=
  sum_of_decimals numeric SNumeric CoerceToNumericForSum type cells.

Definition SumNumericCells (type : option SqlType) (cells : list Value) : StatusOr Value :=
  sum_of_decimals numeric SNumeric (numeric_cell $"SUM") type cells.

Fixpoint SumInt64Loop (cells : list Value) (total : Z) (any_non_null : bool) : StatusOr (Z * bool) :=
  match cells with
  | [] => Ok (total, any_non_null)
  | v :: cells =>
      if is_null v then SumInt64Loop cells total any_non_null
      else if negb (is_kind v TYPE_INT64) then Err (mismatch $"SUM")
      else let next := (total + int64_value v)%Z in
           if int64_overflows next
           then Err (MakeSemanticError rOverflow $"semantic: integer overflow")
           else SumInt64Loop cells next true
  end.

Definition SumInt64Cells (type : option SqlType) (cells : list Value) : StatusOr Value :=
  '(total, any_non_null) ← SumInt64Loop cells 0 false;
  Ok (if any_non_null : bool then SInt64 total else NullOfAggregateType type).

(** The sum of DOUBLE cells and their number. *)
Fixpoint DoubleLoop (what : str) (cells : list Value) (total : spec_float) (count : Z)
    : StatusOr (spec_float * Z) :=
  match cells with
  | [] => Ok (total, count)
  | v :: cells =>
      if is_null v then DoubleLoop what cells total count
      else if negb (is_kind v TYPE_DOUBLE) then Err (mismatch what)
      else DoubleLoop what cells (dbl_add total (double_value v)) (count + 1)
  end.

Definition SumDoubleCells (type : option SqlType) (cells : list Value) : StatusOr Value :=
  '(total, count) ← DoubleLoop $"SUM" cells dbl_zero 0;
  Ok (if (count =? 0)%Z then NullOfAggregateType type else SDouble total).

Definition AvgDoubleCells (type : option SqlType) (cells : list Value) : StatusOr Value :=
  '(total, count) ← DoubleLoop $"AVG" cells dbl_zero 0;
  Ok (if (count =? 0)%Z then NullOfAggregateType type else SDouble (dbl_div total (dbl_of_Z count))).

Fixpoint AvgInt64Loop (cells : list Value) (total count : Z) : StatusOr (Z * Z) :=
  match cells with
  | [] => Ok (total, count)
  | v :: cells =>
      if is_null v then AvgInt64Loop cells total count
      else if negb (is_kind v TYPE_INT64) then Err (mismatch $"AVG")
      else AvgInt64Loop cells (wrap_int64 (total + int64_value v)) (count + 1)
  end.

Definition AvgInt64Cells (type : option SqlType) (cells : list Value) : StatusOr Value :=
  '(total, count) ← AvgInt64Loop cells 0 0;
  Ok (if (count =? 0)%Z then NullOfAggregateType type
      else SDouble (dbl_div (dbl_of_Z total) (dbl_of_Z count))).

Definition avg_of_decimals {N} (ops : DecimalOps N) (mk : N -> Value) (of_int64 : Z -> N)
    (read : Value -> StatusOr N) (type : option SqlType) (cells : list Value) : StatusOr Value :=
  '(total, count) ← decimal_total ops read cells None 0;
  match total with
  | None => Ok (NullOfAggregateType type)
  | Some t => mk <$> decimal_status (num_div ops t (of_int64 count))
  end.

Definition AvgNumericCells (type : option SqlType) (cells : list Value) : StatusOr Value :=
  avg_of_decimals numeric SNumeric Numeric_of_int64 (numeric_cell $"AVG") type cells.

Definition AvgBigNumericCells (type : option SqlType) (cells : list Value) : StatusOr Value :=
  avg_of_decimals bignumeric SBigNumeric BigNumeric_of_int64 (bignumeric_cell $"AVG") type cells.

Definition SumAggregateImpl (type : option SqlType) (columns : list (list Value)) : StatusOr Value :=
  match columns with
  | [[]] => Ok (NullOfAggregateType type)
  | [(first :: _) as cells] =>
      if bool_decide (option_map kind type = Some TYPE_NUMERIC)
      then SumNumericAggregateCells type cells
      else match type_kind first with
      | TYPE_INT64 => SumInt64Cells type cells
      | TYPE_DOUBLE => SumDoubleCells type cells
      | TYPE_NUMERIC => SumNumericCells type cells
      | _ => Err (not_implemented $"semantic: SUM is not implemented for this argument type")
      end
  | _ => Err (rows_error $"semantic: SUM expects one argument column")
  end.

Definition AvgAggregateImpl (type : option SqlType) (columns : list (list Value)) : StatusOr Value :=
  match columns with
  | [(first :: _) as cells] =>
      match type_kind first with
      | TYPE_INT64 => AvgInt64Cells type cells
      | TYPE_DOUBLE => AvgDoubleCells type cells
      | TYPE_NUMERIC => AvgNumericCells type cells
      | TYPE_BIGNUMERIC => AvgBigNumericCells type cells
      | _ => Err (not_implemented $"semantic: AVG is not implemented for this argument type")
      end
  | _ => Ok (NullOfAggregateType type)
  end.

(** ** MIN and MAX *)

Definition is_nan (d : spec_float) : bool := match d with S754_nan => true | _ => false end.

Definition IsNaNCell (v : Value) : bool :=
  match v with SDouble d | SFloat d => is_nan d | _ => false end.

Fixpoint MinMaxLoop (pick_max : bool) (cells : list Value) (best : option Value)
    : StatusOr (option Value) :=
  match cells with
  | [] => Ok best
  | v :: cells =>
      if is_null v then MinMaxLoop pick_max cells best
      else if IsNaNCell v then Ok (Some v)
      else match best with
      | None => MinMaxLoop pick_max cells (Some v)
      | Some b =>
          if negb (bool_decide (type_kind b = type_kind v))
          then Err (rows_error $"semantic: MIN/MAX argument type mismatch")
          else MinMaxLoop pick_max cells
                 (Some (if (if pick_max then LessThan b v else LessThan v b) then v else b))
      end
  end.

Definition MinMaxAggregateImpl (type : option SqlType) (columns : list (list Value)) (pick_max : bool)
    : StatusOr Value :=
  match columns with
  | [cells] =>
      best ← MinMaxLoop pick_max cells None;
      Ok match best with None => NullOfAggregateType type | Some v => v end
  | _ => Err (rows_error $"semantic: MIN/MAX expects one argument column")
  end.

Definition SumAggregate (call : AggregateCall) (columns : list (list Value)) : StatusOr Value :=
  SumAggregateImpl (agg_type call) columns.
Definition AvgAggregate (call : AggregateCall) (columns : list (list Value)) : StatusOr Value :=
  AvgAggregateImpl (agg_type call) columns.
Definition MinAggregate (call : AggregateCall) (columns : list (list Value)) : StatusOr Value :=
  MinMaxAggregateImpl (agg_type call) columns false.
Definition MaxAggregate (call : AggregateCall) (columns : list (list Value)) : StatusOr Value :=
  MinMaxAggregateImpl (agg_type call) columns true.

Definition EvalAggregateBuiltin (name : str) (return_type : option SqlType) (distinct : bool)
    (columns : list (list Value)) : StatusOr Value :=
  if is_name name [$"sum"] then SumAggregateImpl return_type columns
  else if is_name name [$"avg"] then AvgAggregateImpl return_type columns
  else if is_name name [$"min"] then MinMaxAggregateImpl return_type columns false
  else if is_name name [$"max"] then MinMaxAggregateImpl return_type columns true
  else Err (not_implemented ($"semantic: aggregate '" ++ name ++ $"' is not implemented")).

(** ** Counting *)

(** The cells of the first argument; a [RowValue] is a cell and whether it is
    null. *)
Definition CollectAggregateInputs (call : AggregateCall) (columns : list (list Value)) : list Value :=
  match agg_args call with [] => [] | _ => default [] (head columns) end.

Definition not_null (v : Value) : bool := negb (is_null v).

(** [seen], a set of texts. *)
Definition distinct_texts (cells : list Value) : gset str :=
  list_to_set (map ValueDebugString (List.filter not_null cells)).

Definition ApproxCountDistinct (call : AggregateCall) (columns : list (list Value)) : StatusOr Value :=
  Ok (SInt64 (Z.of_nat (size (distinct_texts (CollectAggregateInputs call columns))))).

Definition CountAggregate (call : AggregateCall) (columns : list (list Value)) : StatusOr Value :=
  let rows := CollectAggregateInputs call columns in
  if agg_distinct call then Ok (SInt64 (Z.of_nat (size (distinct_texts rows))))
  else Ok (SInt64 (Z.of_nat (length (List.filter not_null rows)))).

Definition AnyValueAggregate (call : AggregateCall) (columns : list (list Value)) : StatusOr Value :=
  Ok match List.filter not_null (CollectAggregateInputs call columns) with
     | v :: _ => v
     | [] => null_value (agg_type call)
     end.

Definition CountIfAggregate (call : AggregateCall) (columns : list (list Value)) : StatusOr Value :=
  Ok (SInt64 (Z.of_nat (length (List.filter
        (fun v => not_null v && is_kind v TYPE_BOOL && bool_value v)
        (CollectAggregateInputs call columns))))).

(** ** Dispersion *)

Definition double_cell (what : str) (v : Value) : StatusOr spec_float :=
  match v with
  | SInt64 z => Ok (dbl_of_Z z)
  | SDouble d | SFloat d => Ok d
  | _ => Err (rows_error ($"semantic: " ++ what ++ $" expects numeric arguments"))
  end.

(** The sum of squared deviations over the number of values less one. *)
Definition sample_variance (values : list spec_float) : spec_float :=
  let n := dbl_of_Z (Z.of_nat (length values)) in
  let mean := dbl_div (fold_left dbl_add values dbl_zero) n in
  let sum_sq := fold_left (fun acc v => let d := dbl_sub v mean in dbl_add acc (dbl_mul d d))
                  values dbl_zero in
  dbl_div sum_sq (dbl_of_Z (Z.of_nat (length values) - 1)).

Definition dispersion (what : str) (finish : spec_float -> spec_float) (cells : list Value)
    : StatusOr Value :=
  values ← outcome_mapM (double_cell what) (List.filter not_null cells);
  Ok (if (length values <? 2) then NullDouble else SDouble (finish (sample_variance values))).

Definition StddevAggregate (call : AggregateCall) (columns : list (list Value)) : StatusOr Value :=
  dispersion $"STDDEV" dbl_sqrt (CollectAggregateInputs call columns).

Definition VarSampAggregate (call : AggregateCall) (columns : list (list Value)) : StatusOr Value :=
  dispersion $"VAR_SAMP" (fun v => v) (CollectAggregateInputs call columns).

(** ** Approximate aggregates *)

(** The first cell of every text, of cells that are not null. *)
Fixpoint distinct_cells (seen : gset str) (cells : list Value) : list Value :=
  match cells with
  | [] => []
  | v :: cells =>
      let key := ValueDebugString v in
      if bool_decide (key ∈ seen) then distinct_cells seen cells
      else v :: distinct_cells ({[key]} ∪ seen) cells
  end.

Record SortedNumeric := mkSorted { sorted_values : list spec_float; have_null : bool }.

Definition is_number (v : Value) : bool := is_kind v TYPE_INT64 || is_kind v TYPE_DOUBLE.

(** NaN is not ordered by [operator<]; the order of a list that has one is
    unspecified in C++. *)
Definition SortedNumericValues (rows : list Value) (distinct : bool) : SortedNumeric :=
  let numbers := List.filter (fun v => not_null v && is_number v) rows in
  let kept := if distinct then distinct_cells ∅ numbers else numbers in
  mkSorted (stable_sort SFltb (map (fun v => if is_kind v TYPE_INT64 then dbl_of_Z (int64_value v)
                                             else double_value v) kept))
    (existsb is_null rows).

(** The index of quantile [i] of [n] in a population. *)
Definition quantile_index (i n population : Z) : Z :=
  let last := dbl_of_Z (population - 1) in
  let pos := dbl_div (dbl_mul (dbl_of_Z i) last) (dbl_of_Z n) in
  trunc_int64 (if SFltb pos dbl_zero then dbl_zero else if SFltb last pos then last else pos).

(** A negative [n] aborts the process in [reserve]; the model has no elements
    there. *)
Definition BuildApproxQuantileElements (n : Z) (sorted : SortedNumeric) (respect_nulls distinct : bool)
    (rows : list Value) : list Value :=
  let vals := sorted_values sorted in
  let indexes := map Z.of_nat (seq 0 (Z.to_nat (n + 1))) in
  let with_nulls := respect_nulls && have_null sorted in
  if bool_decide (vals = []) && negb with_nulls then map (fun _ => NullInt64) indexes
  else
    let null_slots := if with_nulls then
                        if distinct then 1%Z else Z.of_nat (length (List.filter is_null rows))
                      else 0%Z in
    let population := (null_slots + Z.of_nat (length vals))%Z in
    map (fun i =>
           if (population <=? 0)%Z then NullInt64
           else let idx := quantile_index i n population in
                if (idx <? null_slots)%Z then NullInt64
                else match vals !! Nat.min (Z.to_nat (idx - null_slots)) (length vals - 1) with
                     | Some d => SInt64 (trunc_int64 d)
                     | None => NullInt64
                     end) indexes.

Definition ApproxQuantiles (call : AggregateCall) (columns : list (list Value))
    (return_type : option SqlType) : StatusOr Value :=
  if (length (agg_args call) <? 2)
  then Err (InvalidArgumentError $"APPROX_QUANTILES expects two arguments")
  else
    let rows := CollectAggregateInputs call columns in
    let respect_nulls := bool_decide (null_handling call = RESPECT_NULLS) in
    let n := match columns with _ :: (SInt64 n :: _) :: _ => n | _ => 2%Z end in
    match return_type with
    | Some (TArray elem) =>
        Ok (SArray elem (BuildApproxQuantileElements n (SortedNumericValues rows (agg_distinct call))
                           respect_nulls (agg_distinct call) rows))
    | _ => Err (rows_error $"APPROX_QUANTILES requires ARRAY return type")
    end.

Record TopCountEntry := mkTop { top_key : Value; top_sum : Z; weight_was_non_null : bool }.

Definition top_text (v : Value) : str := if is_null v then $"NULL" else ValueDebugString v.
Definition top_value (v : Value) : Value := if is_null v then NullString else v.

Definition count_top (counts : gmap str TopCountEntry) (v : Value) : gmap str TopCountEntry :=
  match counts !! top_text v with
  | None => <[top_text v := mkTop (top_value v) 1 true]> counts
  | Some e => <[top_text v := mkTop (top_key e) (top_sum e + 1) (weight_was_non_null e)]> counts
  end.

Definition AccumulateTopCounts (rows : list Value) : gmap str TopCountEntry :=
  fold_left count_top rows ∅.

Definition weigh_top (sums : gmap str TopCountEntry) (row : Value * Value) : gmap str TopCountEntry :=
  let '(v, w) := row in
  match sums !! top_text v, w with
  | None, SInt64 z => <[top_text v := mkTop (top_value v) z true]> sums
  | None, _ => <[top_text v := mkTop (top_value v) 0 false]> sums
  | Some e, SInt64 z => <[top_text v := mkTop (top_key e) (wrap_int64 (top_sum e + z)) true]> sums
  | Some _, _ => sums
  end.

Definition AccumulateTopSums (columns : list (list Value)) : gmap str TopCountEntry :=
  match columns with
  | keys :: weights :: _ => fold_left weigh_top (zip keys weights) ∅
  | _ => ∅
  end.

Definition TopKLimitFromArgColumn (columns : list (list Value)) (arg_index : nat) (default_k : Z) : Z :=
  match columns !! arg_index with
  | Some (v :: _) => if is_null v then default_k else int64_value v
  | _ => default_k
  end.

Definition cut_top (k : Z) (sorted : list TopCountEntry) : list TopCountEntry :=
  if (u64 k <? Z.of_nat (length sorted))%Z then take (Z.to_nat (u64 k)) sorted else sorted.

Definition top_count_before (a b : TopCountEntry) : bool :=
  if negb (top_sum a =? top_sum b)%Z then (top_sum b <? top_sum a)%Z
  else str_ltb (ValueDebugString (top_key a)) (ValueDebugString (top_key b)).

Definition SortTopCountEntries (counts : gmap str TopCountEntry) (k : Z) : list TopCountEntry :=
  cut_top k (stable_sort top_count_before (sorted_entries counts).*2).

Definition top_sum_before (a b : TopCountEntry) : bool :=
  if negb (top_sum a =? top_sum b)%Z then (top_sum b <? top_sum a)%Z
  else if negb (Bool.eqb (weight_was_non_null a) (weight_was_non_null b))
  then weight_was_non_null a && negb (weight_was_non_null b)
  else str_ltb (ValueDebugString (top_key a)) (ValueDebugString (top_key b)).

Definition SortTopSumEntries (sums : gmap str TopCountEntry) (k : Z) : list TopCountEntry :=
  cut_top k (stable_sort top_sum_before (sorted_entries sums).*2).

(** The entries as structs, when the element type is one. *)
Definition top_array (what : str) (weight : TopCountEntry -> Value) (sorted : list TopCountEntry)
    (return_type : option SqlType) : StatusOr Value :=
  match return_type with
  | Some (TArray (TStruct fs)) =>
      Ok (SArray (TStruct fs) (map (fun e => SStruct fs [top_key e; weight e]) sorted))
  | Some (TArray elem) => Ok (SArray elem [])
  | _ => Err (rows_error (what ++ $" requires ARRAY<STRUCT>"))
  end.

Definition BuildTopCountArray (sorted : list TopCountEntry) (return_type : option SqlType)
    : StatusOr Value :=
  top_array $"APPROX_TOP_COUNT" (fun e => SInt64 (top_sum e)) sorted return_type.

Definition BuildTopSumArray (sorted : list TopCountEntry) (return_type : option SqlType)
    : StatusOr Value :=
  top_array $"APPROX_TOP_SUM"
    (fun e => if weight_was_non_null e then SInt64 (top_sum e) else NullInt64) sorted return_type.

Definition ApproxTopCount (call : AggregateCall) (columns : list (list Value))
    (return_type : option SqlType) : StatusOr Value :=
  BuildTopCountArray
    (SortTopCountEntries (AccumulateTopCounts (CollectAggregateInputs call columns))
       (TopKLimitFromArgColumn columns 1 2)) return_type.

Definition ApproxTopSum (call : AggregateCall) (columns : list (list Value))
    (return_type : option SqlType) : StatusOr Value :=
  if (length columns <? 2) then Err (InvalidArgumentError $"APPROX_TOP_SUM expects value and weight")
  else BuildTopSumArray
         (SortTopSumEntries (AccumulateTopSums columns) (TopKLimitFromArgColumn columns 2 2)) return_type.

Definition ArrayConcatAgg (call : AggregateCall) (columns : list (list Value))
    (return_type : option SqlType) : StatusOr Value :=
  if (length (agg_args call) <? 1)
  then Err (InvalidArgumentError $"ARRAY_CONCAT_AGG expects one array argument")
  else match return_type with
  | Some (TArray elem) => Ok (SArray elem (flat_map elements (default [] (head columns))))
  | _ => Err (rows_error $"ARRAY_CONCAT_AGG requires ARRAY return type")
  end.
End aggregates.

(** What aggregation calls in other files: HLL and KLL sketches
    over the executor's values ([None] for another name), the bodies of SQL
    aggregate functions (given by [Udaf]); and the value of a read past the end of a vector. *)
Class AggregateParts `{GoogleSql, ExecutorNodes} := {
  SketchAggregate : str -> AggregateCall -> list (list Value) -> option (StatusOr Value);
  EvalSqlUdafBody : AggregateCall -> FunctionInfo -> list (list Value) -> list nat -> EvalContext ->
    StatusOr Value;
  past_the_end : list Value -> nat -> Value;
}.

Section dispatch.
Context `{AbslText, AbslDouble, GoogleSqlOps, ExecutorNodes}.
Context `{!CastLibrary, !ResolvedAst, !AggregateParts}.

Definition MaybeWrapSafeAggregate (call : AggregateCall) (result : StatusOr Value) : StatusOr Value :=
  match result with
  | Ok v => Ok v
  | Err s =>
      if bool_decide (agg_error_mode call = SAFE_ERROR_MODE) &&
         match GetSemanticErrorReason (Some s) with rOverflow | rDivisionByZero => true | _ => false end
      then Ok (null_value (agg_type call)) else Err s
  end.

Definition DispatchStdAggregates (name : str) (call : AggregateCall) (columns : list (list Value))
    (finish : StatusOr Value -> StatusOr Value) : StatusOr Value :=
  if is_name name [$"sum"; $"agg"] then finish (SumAggregate call columns)
  else if is_name name [$"avg"] then finish (AvgAggregate call columns)
  else if is_name name [$"min"] then finish (MinAggregate call columns)
  else if is_name name [$"max"] then finish (MaxAggregate call columns)
  else if is_name name [$"count"] then finish (CountAggregate call columns)
  else if is_name name [$"countif"] then finish (CountIfAggregate call columns)
  else if is_name name [$"any_value"] then finish (AnyValueAggregate call columns)
  else if is_name name [$"stddev"; $"stddev_samp"; $"stdev"] then finish (StddevAggregate call columns)
  else if is_name name [$"var_samp"; $"variance"] then finish (VarSampAggregate call columns)
  else Err (not_implemented $"semantic: not a standard aggregate").

Definition DispatchApproxAggregates (name : str) (call : AggregateCall) (columns : list (list Value))
    (finish : StatusOr Value -> StatusOr Value) : StatusOr Value :=
  if is_name name [$"approx_count_distinct"] then finish (ApproxCountDistinct call columns)
  else if is_name name [$"approx_quantiles"] then finish (ApproxQuantiles call columns (agg_type call))
  else if is_name name [$"approx_top_count"] then finish (ApproxTopCount call columns (agg_type call))
  else if is_name name [$"approx_top_sum"] then finish (ApproxTopSum call columns (agg_type call))
  else Err (not_implemented $"semantic: not an approx aggregate").

Definition DispatchSketchAggregates (name : str) (call : AggregateCall) (columns : list (list Value))
    (finish : StatusOr Value -> StatusOr Value) : StatusOr Value :=
  match SketchAggregate name call columns with
  | Some r => finish r
  | None => Err (not_implemented $"semantic: not a sketch aggregate")
  end.

Definition DispatchLogicalAggregates (name : str) (columns : list (list Value))
    (finish : StatusOr Value -> StatusOr Value) : StatusOr Value :=
  let cells := default [] (head columns) in
  if is_name name [$"logical_or"]
  then finish (Ok (SBool (existsb (fun v => not_null v && bool_value v) cells)))
  else if is_name name [$"logical_and"] then
    match cells with
    | [] => finish (Ok (SBool false))
    | _ => finish (Ok (SBool (forallb (fun v => not_null v && bool_value v) cells)))
    end
  else Err (not_implemented $"semantic: not a logical aggregate").

(** A family answers unless it fails with the not-implemented reason. *)
Definition answered (r : StatusOr Value) : bool :=
  match r with
  | Ok _ => true
  | Err s => negb (bool_decide (GetSemanticErrorReason (Some s) = rNotImplemented))
  end.

Definition EvalAggregateCall (call : AggregateCall) (columns : list (list Value)) : StatusOr Value :=
  match agg_function call with
  | None => Err (InvalidArgumentError $"aggregate call has null function")
  | Some fn =>
      let name := LowerFunctionDispatchName fn in
      let finish := MaybeWrapSafeAggregate call in
      let std := DispatchStdAggregates name call columns finish in
      let approx := DispatchApproxAggregates name call columns finish in
      let sketch := DispatchSketchAggregates name call columns finish in
      let logical := DispatchLogicalAggregates name columns finish in
      if answered std then std
      else if answered approx then approx
      else if answered sketch then sketch
      else if is_name name [$"array_concat_agg"]
      then finish (ArrayConcatAgg call columns (agg_type call))
      else if answered logical then logical
      else finish (Err (not_implemented ($"semantic: aggregate '" ++ name ++ $"' is not implemented")))
  end.
End dispatch.
