(* ===== verification/Aggregates.v ===== *)
(** * Aggregates: GROUP BY and aggregate calls

    Models [scan_eval_agg_list.cc] (ARRAY_AGG, STRING_AGG),
    [scan_eval_agg_having.cc] (HAVING MAX and MIN), [scan_eval_aggregate.cc] (the
    groups of an aggregate scan), [scan_eval_measure_multi_level.cc] and its
    helpers (aggregates over inner groups).

    Rows are addressed by their index into the input, as in the code.
    [CollectOrderedAggRows] indexes the argument column by input row; where the
    column is shorter, the read past its end is [past_the_end]. *)

From S2P Require Import Prelude Order Absl AbslReference Storage SemanticError FrameStack.
From S2P Require Import SqlValue GoogleSqlReference Arithmetic Operators MathFuncs Casts EvalExpr.
From S2P Require Import Rows AggFuncs.

(** The groups of the rows by fingerprint: the keys of the first row and the
    indices, in order. *)
Abbreviation Groups := (gmap str (list Value * list nat)).

Section aggregation.
Context `{AbslText, AbslDouble, GoogleSqlOps, ExecutorNodes}.
Context `{!CastLibrary, !ExecutorParts, !ResolvedAst, !AggregateParts}.

(** ** ARRAY_AGG and STRING_AGG *)

Record AggListRow := mkAggRow { agg_val : Value; sort_keys : list Value }.

Definition order_key (row_ctx : EvalContext) (item : OrderByItem) : StatusOr Value :=
  match column_ref item with
  | None => Err (rows_error $"semantic: aggregate ORDER BY requires column references")
  | Some (col, correlated) => EvalExpr (EColumnRef col correlated) row_ctx
  end.

Definition cell_at (column : list Value) (r : nat) : Value :=
  match column !! r with Some v => v | None => past_the_end column r end.

Fixpoint collect_rows (items : list OrderByItem) (column : list Value) (ignore_nulls : bool)
    (ctx : EvalContext) (r : nat) (input_rows : list Row) : StatusOr (list AggListRow) :=
  match input_rows with
  | [] => Ok []
  | row :: input_rows =>
      let v := cell_at column r in
      if ignore_nulls && is_null v then collect_rows items column ignore_nulls ctx (S r) input_rows
      else
        keys ← outcome_mapM (order_key (set_columns ctx row)) items;
        rest ← collect_rows items column ignore_nulls ctx (S r) input_rows;
        Ok (mkAggRow v keys :: rest)
  end.

Definition CollectOrderedAggRows (call : AggregateCall) (columns : list (list Value))
    (input_rows : list Row) (ignore_nulls : bool) (ctx : EvalContext) : StatusOr (list AggListRow) :=
  collect_rows (agg_order_by call) (default [] (head columns)) ignore_nulls ctx 0 input_rows.

(** The first row of every value. *)
Definition dedup_row (deduped : list AggListRow) (row : AggListRow) : list AggListRow :=
  if existsb (fun prior => ValueEqual (agg_val prior) (agg_val row)) deduped then deduped
  else deduped ++ [row].

Definition DedupAggRows (rows : list AggListRow) : list AggListRow := fold_left dedup_row rows [].

(** The first key that differs decides. *)
Fixpoint keys_before (items : list OrderByItem) (a b : list Value) : bool :=
  match items, a, b with
  | item :: items, va :: a, vb :: b =>
      match CompareArrayAggOrderKey item va vb with
      | Lt => true
      | Gt => false
      | Eq => keys_before items a b
      end
  | _, _, _ => false
  end.

Definition SortAggRows (call : AggregateCall) (rows : list AggListRow) : list AggListRow :=
  match agg_order_by call with
  | [] => rows
  | items => stable_sort (fun a b => keys_before items (sort_keys a) (sort_keys b)) rows
  end.

Definition ApplyAggRowLimit (call : AggregateCall) (ctx : EvalContext) (rows : list AggListRow)
    : StatusOr (list AggListRow) :=
  match agg_limit call with
  | ENull => Ok rows
  | limit_expr =>
      limit ← EvalExpr limit_expr ctx;
      if is_null limit then Err (rows_error $"semantic: aggregate LIMIT must not be NULL")
      else if negb (is_kind limit TYPE_INT64)
      then Err (rows_error $"semantic: aggregate LIMIT must be INT64")
      else if (int64_value limit <? 0)%Z
      then Err (rows_error $"semantic: aggregate LIMIT must be non-negative")
      else Ok (take (Z.to_nat (int64_value limit)) rows)
  end.

(** The rows both aggregates list: collected, made distinct, sorted and cut. *)
Definition listed_rows (call : AggregateCall) (columns : list (list Value)) (input_rows : list Row)
    (ctx : EvalContext) : StatusOr (list AggListRow) :=
  let ignore_nulls := bool_decide (null_handling call = IGNORE_NULLS) in
  rows ← CollectOrderedAggRows call columns input_rows ignore_nulls ctx;
  let rows := if agg_distinct call then DedupAggRows rows else rows in
  ApplyAggRowLimit call ctx (SortAggRows call rows).

Definition EvalArrayAgg (call : AggregateCall) (columns : list (list Value)) (input_rows : list Row)
    (ctx : EvalContext) : StatusOr Value :=
  if negb (length columns =? 1) then Err (rows_error $"semantic: ARRAY_AGG expects one argument")
  else match agg_type call with
  | Some (TArray elem) =>
      rows ← listed_rows call columns input_rows ctx; Ok (SArray elem (map agg_val rows))
  | _ => Err (rows_error $"semantic: ARRAY_AGG return type must be ARRAY")
  end.

Definition StringifyAggValue (v : Value) : str :=
  match v with
  | SNull _ => []
  | SString s | SBytes s => s
  | _ => ValueDebugString v
  end.

(** [None] is a null delimiter. *)
Definition string_agg_delimiter (call : AggregateCall) (columns : list (list Value))
    : StatusOr (option str) :=
  if (length (agg_args call) <? 2) then Ok (Some $",")
  else match columns with
  | _ :: (delim :: _) :: _ =>
      if is_null delim then Ok None
      else if negb (is_kind delim TYPE_STRING)
      then Err (rows_error $"semantic: STRING_AGG delimiter must be STRING")
      else Ok (Some (string_value delim))
  | _ => Err (rows_error $"semantic: STRING_AGG delimiter missing")
  end.

Definition EvalStringAgg (call : AggregateCall) (columns : list (list Value)) (input_rows : list Row)
    (ctx : EvalContext) : StatusOr Value :=
  match columns with
  | [] => Err (rows_error $"semantic: STRING_AGG expects one argument")
  | _ =>
      delimiter ← string_agg_delimiter call columns;
      match delimiter with
      | None => Ok NullString
      | Some delimiter =>
          rows ← listed_rows call columns input_rows ctx;
          match rows with
          | [] => Ok (if bool_decide (null_handling call = IGNORE_NULLS) then NullString else SString [])
          | _ =>
              match List.filter not_null (map agg_val rows) with
              | [] => Ok NullString
              | cells => Ok (SString (join_text delimiter (map StringifyAggValue cells)))
              end
          end
      end
  end.

(** ** HAVING MAX and HAVING MIN *)

Definition CompareHavingValues (a b : Value) : comparison :=
  if is_null a && is_null b then Eq
  else if is_null a then Lt
  else if is_null b then Gt
  else if ValueEqual a b then Eq
  else if ValueLess a b then Lt else Gt.

Definition row_at (input_rows : list Row) (r : nat) : Row := default ∅ (input_rows !! r).

Definition better_having (hk : HavingKind) (best : option Value) (v : Value) : option Value :=
  if is_null v then best
  else match best with
  | None => Some v
  | Some b =>
      match hk, CompareHavingValues v b with
      | HAVING_MAX, Gt | HAVING_MIN, Lt => Some v
      | _, _ => best
      end
  end.

Definition FilterRowsByHavingModifier (call : AggregateCall) (input_rows : list Row)
    (row_indices : list nat) (ctx : EvalContext) : StatusOr (list nat) :=
  match having_modifier call with
  | None => Ok row_indices
  | Some (_, ENull) => Err (rows_error $"semantic: HAVING modifier missing expression")
  | Some (hk, e) =>
      values ← outcome_mapM (fun r => EvalExpr e (set_columns ctx (row_at input_rows r))) row_indices;
      match fold_left (better_having hk) values None with
      | None => Ok []
      | Some best =>
          Ok (map fst (List.filter (fun rv : nat * Value => not_null rv.2 && ValueEqual rv.2 best)
                         (zip row_indices values)))
      end
  end.

(** ** Aggregate calls over rows *)

Definition report_suffixes : list str :=
  [$"_with_report_json"; $"_with_report_proto"; $"_report_json"; $"_report_proto"].
Definition type_suffixes : list str := [$"_double_array"; $"_int64"; $"_uint64"; $"_double"; $"_numeric"].

(** The first suffix that matches is dropped. *)
Fixpoint drop_suffix (suffixes : list str) (s : str) : str :=
  match suffixes with
  | [] => s
  | suffix :: suffixes => match strip_suffix suffix s with Some r => r | None => drop_suffix suffixes s end
  end.

Definition PlainAggregateNameForPrivacyStub (agg_name : str) : str :=
  match (match strip_prefix $"$differential_privacy_" agg_name with
         | Some s => Some s
         | None => strip_prefix $"$anon_" agg_name
         end) with
  | None => agg_name
  | Some stripped =>
      let stripped := drop_suffix report_suffixes stripped in
      match strip_prefix $"count_star" stripped with
      | Some _ => $"$count_star"
      | None => drop_suffix type_suffixes stripped
      end
  end.

Definition agg_dispatch_name (agg : AggregateCall) : str :=
  PlainAggregateNameForPrivacyStub
    match agg_function agg with Some fn => LowerFunctionDispatchName fn | None => [] end.

Definition is_count_star (agg : AggregateCall) : bool :=
  bool_decide (agg_dispatch_name agg = $"$count_star").

Definition agg_named (agg : AggregateCall) (name : str) : bool :=
  match agg_function agg with
  | Some fn => bool_decide (AsciiStrToLower (fn_Name fn) = name)
  | None => false
  end.

Definition FinishAggregateFromArgColumns (agg : AggregateCall) (arg_columns : list (list Value))
    (input_rows : list Row) (ctx : EvalContext) : StatusOr Value :=
  if is_count_star agg then Ok (SInt64 (Z.of_nat (length (default [] (head arg_columns)))))
  else if agg_named agg $"array_agg" then EvalArrayAgg agg arg_columns input_rows ctx
  else if agg_named agg $"string_agg" then EvalStringAgg agg arg_columns input_rows ctx
  else match agg_function agg with
  | Some fn =>
      if bool_decide (fn_group fn = kSQLFunctionGroup) && IsAggregate fn then
        match sql_argument_names fn with
        | None => Err (InvalidArgumentError $"semantic: aggregate function is not an SQL function")
        | Some _ => EvalSqlUdafBody agg fn arg_columns (seq 0 (length input_rows)) ctx
        end
      else EvalAggregateCall agg arg_columns
  | None => EvalAggregateCall agg arg_columns
  end.

(** The context of a row with the names its scan binds. *)
Definition named_row_ctx (ctx : EvalContext) (input_scan : Scan) (row : Row) : EvalContext :=
  with_columns ctx row (override_names (PopulateColumnNameBindingsDeep input_scan row) ctx).

(** Rows of values, one list per argument. *)
Definition columns_of (n : nat) (rows : list (list Value)) : list (list Value) :=
  map (fun a => omap (fun row => row !! a) rows) (seq 0 n).

Definition argument_columns (args : list ResolvedExpr) (contexts : list EvalContext)
    : StatusOr (list (list Value)) :=
  rows ← outcome_mapM (fun row_ctx => outcome_mapM (fun e => EvalExpr e row_ctx) args) contexts;
  Ok (columns_of (length args) rows).

Definition row_contexts (ctx : EvalContext) (input_scan : Scan) (input_rows : list Row)
    (row_indices : list nat) : list EvalContext :=
  map (fun r => named_row_ctx ctx input_scan (row_at input_rows r)) row_indices.

Definition IsGrainLockAnyValue (inner_agg : AggregateCall) (column : ResolvedColumn) : bool :=
  agg_named inner_agg $"any_value" &&
  match strip_prefix $"$any_value_grain_lock" (column_name column) with Some _ => true | None => false end.

Definition EvalGrainLockInnerWithOuterAggregate (outer_agg inner_any_value : AggregateCall)
    (input_scan : Scan) (input_rows : list Row) (row_indices : list nat) (ctx : EvalContext)
    : StatusOr Value :=
  columns ← argument_columns (agg_args inner_any_value)
              (row_contexts ctx input_scan input_rows row_indices);
  FinishAggregateFromArgColumns outer_agg columns (map (fun _ => ∅) row_indices) ctx.

(** ** Groups *)

Definition add_to_group (groups : Groups) (r : nat) (keys : list Value) : Groups :=
  let fp := GroupKeyFingerprint keys in
  match groups !! fp with
  | None => <[fp := (keys, [r])]> groups
  | Some (ks, rs) => <[fp := (ks, rs ++ [r])]> groups
  end.

Definition group_keys (message : str) (group_by : list ComputedColumn) (row_ctx : EvalContext)
    : StatusOr (list Value) :=
  outcome_mapM (fun gc : ComputedColumn =>
                  match gc.2 with
                  | ENull => Err (InternalError message)
                  | e => EvalExpr e row_ctx
                  end) group_by.

Fixpoint group_rows_by (keys_of : nat -> StatusOr (list Value)) (row_indices : list nat)
    (groups : Groups) : StatusOr Groups :=
  match row_indices with
  | [] => Ok groups
  | r :: row_indices =>
      keys ← keys_of r; group_rows_by keys_of row_indices (add_to_group groups r keys)
  end.

Definition BuildMultiLevelInnerGroups (agg : AggregateCall) (input_scan : Scan) (input_rows : list Row)
    (effective_rows : list nat) (ctx : EvalContext) : StatusOr Groups :=
  group_rows_by
    (fun r => group_keys $"semantic: multi-level aggregate group_by column has null expr"
                (agg_group_by agg) (named_row_ctx ctx input_scan (row_at input_rows r)))
    effective_rows ∅.

(** ** Multi-level aggregates *)

Record MultiLevelInnerRow := mkInner { inner_bindings : Row; inner_by_name : Names }.

Definition bind_inner (inner : MultiLevelInnerRow) (col : ResolvedColumn) (v : Value)
    : MultiLevelInnerRow :=
  mkInner (emplace (column_id col) v (inner_bindings inner))
    (<[column_name col := v]> (inner_by_name inner)).

Definition inner_ctx (ctx : EvalContext) (inner : MultiLevelInnerRow) : EvalContext :=
  with_columns ctx (inner_bindings inner) (inner_by_name inner).

Definition EvalMultiLevelHaving (agg : AggregateCall) (inner : MultiLevelInnerRow) (ctx : EvalContext)
    : StatusOr bool :=
  match agg_having agg with
  | ENull => Ok true
  | e => v ← EvalExpr e (inner_ctx ctx inner); Ok (not_null v && bool_value v)
  end.

Definition BuildMultiLevelOuterArgColumns (agg : AggregateCall) (inner_results : list MultiLevelInnerRow)
    (ctx : EvalContext) : StatusOr (list (list Value)) :=
  argument_columns (agg_args agg) (map (inner_ctx ctx) inner_results).

Section multi_level.
Context (EvalInner : AggregateCall -> list nat -> StatusOr Value).
Context (agg : AggregateCall) (input_scan : Scan) (input_rows : list Row) (ctx : EvalContext).

Fixpoint eval_inner_columns (columns : list (ResolvedColumn * option AggregateCall))
    (row_indices : list nat) (inner : MultiLevelInnerRow) : StatusOr MultiLevelInnerRow :=
  match columns with
  | [] => Ok inner
  | (col, None) :: _ =>
      Err (InternalError $"semantic: multi-level aggregate inner column has null expr")
  | (col, Some inner_agg) :: columns =>
      v ← (if IsGrainLockAnyValue inner_agg col
           then EvalGrainLockInnerWithOuterAggregate agg inner_agg input_scan input_rows row_indices ctx
           else EvalInner inner_agg row_indices);
      eval_inner_columns columns row_indices (bind_inner inner col v)
  end.

Definition EvalMultiLevelInnerGroup (columns : list (ResolvedColumn * option AggregateCall))
    (keys : list Value) (row_indices : list nat) : StatusOr MultiLevelInnerRow :=
  eval_inner_columns columns row_indices
    (fold_left (fun inner (cv : ComputedColumn * Value) => bind_inner inner cv.1.1 cv.2)
       (zip (agg_group_by agg) keys) (mkInner ∅ ∅)).

Fixpoint inner_rows (columns : list (ResolvedColumn * option AggregateCall))
    (groups : list (list Value * list nat)) : StatusOr (list MultiLevelInnerRow) :=
  match groups with
  | [] => Ok []
  | (keys, row_indices) :: groups =>
      inner ← EvalMultiLevelInnerGroup columns keys row_indices;
      keep ← EvalMultiLevelHaving agg inner ctx;
      rest ← inner_rows columns groups;
      Ok (if keep : bool then inner :: rest else rest)
  end.

Definition EvalMultiLevelAggregateForRows (columns : list (ResolvedColumn * option AggregateCall))
    (row_indices : list nat) : StatusOr Value :=
  effective_rows ← FilterRowsByHavingModifier agg input_rows row_indices ctx;
  groups ← BuildMultiLevelInnerGroups agg input_scan input_rows effective_rows ctx;
  inner_results ← inner_rows columns (sorted_entries groups).*2;
  arg_columns ← BuildMultiLevelOuterArgColumns agg inner_results ctx;
  FinishAggregateFromArgColumns agg arg_columns (map inner_bindings inner_results) ctx.
End multi_level.

Fixpoint EvalAggregateForRows (agg : AggregateCall) (input_scan : Scan) (input_rows : list Row)
    (row_indices : list nat) (ctx : EvalContext) {struct agg} : StatusOr Value :=
  effective_rows ← FilterRowsByHavingModifier agg input_rows row_indices ctx;
  match agg with
  | mkAggregate _ _ _ _ _ _ _ _ _ group_by group_by_aggregates _ =>
      if (0 <? length group_by) || (0 <? length group_by_aggregates)
      then EvalMultiLevelAggregateForRows
             (fun inner_agg rows => EvalAggregateForRows inner_agg input_scan input_rows rows ctx)
             agg input_scan input_rows ctx group_by_aggregates effective_rows
      else
        arg_columns ← argument_columns (agg_args agg)
                        (row_contexts ctx input_scan input_rows effective_rows);
        if is_count_star agg then Ok (SInt64 (Z.of_nat (length effective_rows)))
        else FinishAggregateFromArgColumns agg arg_columns input_rows ctx
  end.

(** ** The rows of an aggregate scan *)

Definition is_aggregate_call (e : ResolvedExpr) : option AggregateCall :=
  match e with EAggregateCall node _ => Some (aggregate_node node) | _ => None end.

Definition EvalDeferredComputedExpr (expr : ResolvedExpr) (input_scan : Scan) (input_rows : list Row)
    (row_indices : list nat) (agg_ctx : EvalContext) : StatusOr Value :=
  let aggregate_or (e otherwise : ResolvedExpr) :=
    match is_aggregate_call e with
    | Some agg => EvalAggregateForRows agg input_scan input_rows row_indices agg_ctx
    | None => EvalExpr otherwise agg_ctx
    end in
  match expr with
  | ECall (Some fn) _ _ args _ _ =>
      if bool_decide (LowerFunctionDispatchName fn = $"$with_side_effects") then
        match args with
        | [value; side] =>
            s ← EvalExpr side agg_ctx;
            if negb (is_null s) then EvalExpr expr agg_ctx else aggregate_or value expr
        | _ => Err (InvalidArgumentError $"semantic: $with_side_effects expects exactly two arguments")
        end
      else EvalExpr expr agg_ctx
  | _ => aggregate_or expr expr
  end.

Fixpoint aggregate_columns (input_scan : Scan) (input_rows : list Row) (row_indices : list nat)
    (agg_ctx : EvalContext) (columns : list AggregateColumn) (out_row : Row) : StatusOr Row :=
  match columns with
  | [] => Ok out_row
  | ComputedAggregate _ ENull :: _ | DeferredAggregate _ _ ENull :: _ =>
      Err (InternalError $"semantic: aggregate column has null expr")
  | DeferredAggregate col side expr :: columns =>
      aggregate_columns input_scan input_rows row_indices agg_ctx columns
        match EvalDeferredComputedExpr expr input_scan input_rows row_indices agg_ctx with
        | Err s => emplace (column_id side) (SBytes (message s))
                     (emplace (column_id col) (null_value (column_type col)) out_row)
        | Ok v => emplace (column_id side) (null_value (column_type side))
                    (emplace (column_id col) v out_row)
        end
  | ComputedAggregate col expr :: columns =>
      match is_aggregate_call expr with
      | None => Err (not_implemented $"semantic: aggregate expression is not a function call")
      | Some agg =>
          v ← EvalAggregateForRows agg input_scan input_rows row_indices agg_ctx;
          aggregate_columns input_scan input_rows row_indices agg_ctx columns
            (emplace (column_id col) v out_row)
      end
  end.

Definition MaterializeAggregateGroup (group_by_list : list ComputedColumn)
    (aggregate_list : list AggregateColumn) (input_scan : Scan) (input_rows : list Row)
    (row_indices : list nat) (keys : option (list Value)) (ctx : EvalContext) : StatusOr Row :=
  out_row ← match keys with
            | None => Ok ∅
            | Some keys =>
                if negb (length keys =? length group_by_list)
                then Err (InternalError $"semantic: aggregate group key arity mismatch")
                else Ok (fold_left (fun m (cv : ComputedColumn * Value) => emplace (column_id cv.1.1) cv.2 m)
                           (zip group_by_list keys) ∅)
            end;
  aggregate_columns input_scan input_rows row_indices
    (set_group_rows ctx (map (row_at input_rows) row_indices)) aggregate_list out_row.

(** The groups of the input rows. *)
Definition scan_groups (group_by_list : list ComputedColumn) (input_rows : list Row) (ctx : EvalContext)
    : StatusOr Groups :=
  group_rows_by
    (fun r => group_keys $"semantic: group by column has null expr" group_by_list
                (set_columns ctx (row_at input_rows r)))
    (seq 0 (length input_rows)) ∅.

(** [MaterializeAggregateScan] on the materialized input. *)
Definition AggregateRows (has_grouping_sets : bool) (group_by_list : list ComputedColumn)
    (aggregate_list : list AggregateColumn) (input_scan : Scan) (input_rows : list Row)
    (ctx : EvalContext) : StatusOr (list Row) :=
  if has_grouping_sets
  then Err (not_implemented $"semantic: GROUPING SETS aggregate scans are not implemented")
  else match group_by_list with
  | [] =>
      row ← MaterializeAggregateGroup group_by_list aggregate_list input_scan input_rows
              (seq 0 (length input_rows)) None ctx;
      Ok [row]
  | _ =>
      groups ← scan_groups group_by_list input_rows ctx;
      outcome_mapM (fun entry : str * (list Value * list nat) =>
                      MaterializeAggregateGroup group_by_list aggregate_list input_scan input_rows
                        entry.2.2 (Some entry.2.1) ctx) (sorted_entries groups)
  end.
End aggregation.

(** ** What grouping and the aggregate functions compute

    GROUP BY partitions the input rows by the text of their keys; SUM over INT64
    is the exact sum or an overflow; MIN and MAX return an extreme cell; HAVING
    MAX and MIN keep the rows with the extreme value. *)

Section grouping.
Context `{AbslText, AbslDouble, GoogleSqlOps, ExecutorNodes}.
Context `{!CastLibrary, !ExecutorParts, !ResolvedAst, !AggregateParts}.
Context (keys_of : nat -> StatusOr (list Value)).

(** ** Groups *)

Definition has_keys (fp : str) (r : nat) : bool :=
  match keys_of r with Ok ks => bool_decide (GroupKeyFingerprint ks = fp) | Err _ => false end.

(** The group of a fingerprint among rows: the rows that have it, in order, and
    the keys of the first. *)
Definition group_of (rows : list nat) (fp : str) : option (list Value * list nat) :=
  match List.filter (has_keys fp) rows with
  | [] => None
  | r :: rs => match keys_of r with Ok ks => Some (ks, r :: rs) | Err _ => None end
  end.

Definition group_indices (groups : Groups) : list nat :=
  concat (map (fun entry : str * (list Value * list nat) => entry.2.2) (map_to_list groups)).

Lemma has_keys_Ok fp r ks : keys_of r = Ok ks -> has_keys fp r = bool_decide (GroupKeyFingerprint ks = fp).
Proof. unfold has_keys. by intros ->. Qed.

Lemma group_of_snoc rows r ks fp :
  keys_of r = Ok ks ->
  group_of (rows ++ [r]) fp =
  if decide (GroupKeyFingerprint ks = fp)
  then Some match group_of rows fp with None => (ks, [r]) | Some (k, rs) => (k, rs ++ [r]) end
  else group_of rows fp.
Proof.
  intros K. unfold group_of. rewrite List.filter_app. simpl. rewrite (has_keys_Ok fp r ks K).
  destruct (decide (GroupKeyFingerprint ks = fp)) as [E|E].
  - rewrite bool_decide_eq_true_2 by done.
    destruct (List.filter (has_keys fp) rows) as [|r0 rs] eqn:F; simpl; [by rewrite K|].
    assert (In r0 (List.filter (has_keys fp) rows)) as I by (rewrite F; by left).
    apply filter_In in I as [_ I]. unfold has_keys in I. by destruct (keys_of r0).
  - rewrite bool_decide_eq_false_2 by done. by rewrite app_nil_r.
Qed.

Lemma add_to_group_spec rows r ks groups :
  keys_of r = Ok ks -> (forall fp, groups !! fp = group_of rows fp) ->
  forall fp, add_to_group groups r ks !! fp = group_of (rows ++ [r]) fp.
Proof.
  intros K G fp. rewrite (group_of_snoc rows r ks fp K). unfold add_to_group.
  destruct (decide (GroupKeyFingerprint ks = fp)) as [<-|N].
  - rewrite <- G. destruct (groups !! GroupKeyFingerprint ks) as [[k rs]|]; by rewrite lookup_insert_eq.
  - rewrite <- G. destruct (groups !! GroupKeyFingerprint ks) as [[k rs]|]; by rewrite lookup_insert_ne.
Qed.

Lemma add_to_group_indices groups r ks :
  group_indices (add_to_group groups r ks) ≡ₚ r :: group_indices groups.
Proof.
  unfold add_to_group, group_indices. set (fp := GroupKeyFingerprint ks).
  destruct (groups !! fp) as [[k rs]|] eqn:E.
  - rewrite <- (insert_delete_id groups fp (k, rs) E) at 2. rewrite <- insert_delete_eq.
    rewrite !map_to_list_insert by apply lookup_delete_eq. simpl.
    rewrite <- app_assoc. symmetry. apply Permutation_middle.
  - by rewrite map_to_list_insert.
Qed.

Lemma group_rows_by_spec rows seen groups out :
  (forall fp, groups !! fp = group_of seen fp) -> group_indices groups ≡ₚ seen ->
  group_rows_by keys_of rows groups = Ok out ->
  (forall fp, out !! fp = group_of (seen ++ rows) fp) /\ group_indices out ≡ₚ seen ++ rows.
Proof.
  revert seen groups. induction rows as [|r rows IH]; intros seen groups G I; cbn [group_rows_by].
  - intros [= <-]. by rewrite app_nil_r.
  - intros E. apply bind_Ok in E as (ks & K & E).
    apply (IH (seen ++ [r])) in E; [by rewrite <- app_assoc in E|by apply add_to_group_spec|].
    rewrite add_to_group_indices, I. by rewrite Permutation_app_comm.
Qed.

Lemma group_rows_by_keys rows groups out :
  group_rows_by keys_of rows groups = Ok out -> Forall (fun r => exists ks, keys_of r = Ok ks) rows.
Proof.
  revert groups. induction rows as [|r rows IH]; intros groups E; [by constructor|].
  cbn [group_rows_by] in E. apply bind_Ok in E as (ks & K & E). constructor; [by exists ks|by eapply IH].
Qed.
End grouping.

Section aggregate_scan.
Context `{AbslText, AbslDouble, GoogleSqlOps, ExecutorNodes}.
Context `{!CastLibrary, !ExecutorParts, !ResolvedAst, !AggregateParts}.

(** The key values of an input row. *)
Definition row_keys (group_by_list : list ComputedColumn) (input_rows : list Row) (ctx : EvalContext)
    (r : nat) : StatusOr (list Value) :=
  group_keys $"semantic: group by column has null expr" group_by_list
    (set_columns ctx (row_at input_rows r)).

(** C21: GROUP BY partitions the input: the groups together hold every row once,
    the group of a fingerprint holds exactly the rows whose keys have it, in
    input order, with the keys of its first row; and the scan returns one row per
    group, in the order of the fingerprints. *)
Theorem group_by_partitions group_by aggregates input_scan input_rows ctx out :
  group_by <> [] ->
  AggregateRows false group_by aggregates input_scan input_rows ctx = Ok out ->
  exists groups,
    (forall fp, groups !! fp = group_of (row_keys group_by input_rows ctx)
                                 (seq 0 (length input_rows)) fp) /\
    group_indices groups ≡ₚ seq 0 (length input_rows) /\
    Forall2 (fun entry row =>
               MaterializeAggregateGroup group_by aggregates input_scan input_rows
                 entry.2.2 (Some entry.2.1) ctx = Ok row) (sorted_entries groups) out.
Proof.
  intros NE E. unfold AggregateRows in E.
  assert (exists groups, scan_groups group_by input_rows ctx = Ok groups /\
    outcome_mapM (fun entry : str * (list Value * list nat) =>
       MaterializeAggregateGroup group_by aggregates input_scan input_rows
         entry.2.2 (Some entry.2.1) ctx) (sorted_entries groups) = Ok out) as (groups & G & M).
  { destruct group_by; [done|]. by apply bind_Ok in E. }
  exists groups.
  apply (group_rows_by_spec _ _ [] ∅) in G as [L P]; [|intros fp; apply lookup_empty|done].
  split; [exact L|]. split; [exact P|]. by apply mapM_Forall2.
Qed.

(** ** SUM *)

Definition int_cell (v : Value) : option Z := match v with SInt64 z => Some z | _ => None end.

Definition int_or_null (v : Value) : Prop := is_null v = true \/ exists z, v = SInt64 z.

Definition zsum (l : list Z) : Z := fold_right Z.add 0%Z l.

(** Every running total fits. *)
Fixpoint totals_fit (total : Z) (zs : list Z) : bool :=
  match zs with
  | [] => true
  | z :: zs => negb (int64_overflows (total + z)) && totals_fit (total + z) zs
  end.

Lemma int64_overflows_false z : int64_overflows z = false <-> in_int64 z.
Proof. unfold int64_overflows, in_int64. rewrite orb_false_iff, !Z.ltb_ge. lia. Qed.

Lemma totals_fit_spec total zs :
  in_int64 total ->
  totals_fit total zs = true <-> forall n, in_int64 (total + zsum (take n zs)).
Proof.
  revert total. induction zs as [|z zs IH]; intros total R; cbn [totals_fit].
  { split; [|done]. intros _ n. rewrite take_nil. cbn. by rewrite Z.add_0_r. }
  rewrite andb_true_iff, negb_true_iff, int64_overflows_false. split.
  - intros [O F] [|n]; [cbn; by rewrite Z.add_0_r|]. cbn [take zsum fold_right].
    pose proof (proj1 (IH _ O) F n) as K. unfold zsum in K. by rewrite Z.add_assoc.
  - intros F. assert (in_int64 (total + z)) as O.
    { specialize (F 1). cbn in F. rewrite take_0 in F. cbn in F. by rewrite Z.add_0_r in F. }
    split; [done|]. apply IH; [done|]. intros n. specialize (F (S n)). cbn [take zsum fold_right] in F.
    by rewrite Z.add_assoc in F.
Qed.

Lemma SumInt64Loop_spec cells total seen :
  Forall int_or_null cells ->
  let zs := omap int_cell cells in
  SumInt64Loop cells total seen =
  if totals_fit total zs then Ok ((total + zsum zs)%Z, seen || bool_decide (zs <> []))
  else Err (MakeSemanticError rOverflow $"semantic: integer overflow").
Proof.
  intros F. revert total seen. induction F as [|v cells Hv F IH]; intros total seen; cbn zeta in *.
  - cbn. by rewrite Z.add_0_r, orb_false_r.
  - destruct Hv as [Nv|[z ->]]; [destruct v; try done; cbn; apply IH|].
    cbn [SumInt64Loop is_null omap list_omap int_cell totals_fit int64_value].
    replace (is_kind (SInt64 z) TYPE_INT64) with true by reflexivity. cbn [negb].
    destruct (int64_overflows (total + z)); [done|]. rewrite IH. cbn [negb andb].
    destruct (totals_fit (total + z) (omap int_cell cells)); [|done].
    cbn. by rewrite orb_true_r, Z.add_assoc.
Qed.

(** SUM over INT64 cells ignores nulls and is the exact sum when every
    running total fits in 64 bits, an overflow error when one does not, and a
    null of the result type when there is no cell to add. *)
Theorem sum_int64_exact type cells :
  Forall int_or_null cells ->
  let zs := omap int_cell cells in
  (zs = [] -> SumInt64Cells type cells = Ok (NullOfAggregateType type)) /\
  (zs <> [] -> (forall n, in_int64 (zsum (take n zs))) -> SumInt64Cells type cells = Ok (SInt64 (zsum zs))) /\
  ((exists n, ~ in_int64 (zsum (take n zs))) ->
   SumInt64Cells type cells = Err (MakeSemanticError rOverflow $"semantic: integer overflow")).
Proof.
  intros F zs. unfold SumInt64Cells. rewrite (SumInt64Loop_spec cells 0 false F). fold zs.
  pose proof (totals_fit_spec 0 zs ltac:(unfold in_int64, int64_min, int64_max; lia)) as T.
  setoid_rewrite Z.add_0_l in T. split; [by intros ->|]. split.
  - intros NE R. apply T in R. rewrite R. cbn. by rewrite bool_decide_eq_true_2.
  - intros [n N]. destruct (totals_fit 0 zs); [|done]. destruct N. by apply T.
Qed.

(** ** MIN and MAX *)

(** [a] comes strictly before [b] for the extreme that is picked. *)
Definition beats (pick_max : bool) (a b : Value) : bool := if pick_max then LessThan b a else LessThan a b.

(** [LessThan] is a strict weak order on the cells that are not null. *)
Definition ordered_cells (cells : list Value) : Prop :=
  forall x y z, x ∈ cells -> y ∈ cells -> z ∈ cells ->
    is_null x = false -> is_null y = false -> is_null z = false ->
    (LessThan x y = true -> LessThan y x = false) /\
    (LessThan x z = true -> LessThan x y = true \/ LessThan y z = true).

Lemma MinMaxLoop_spec pick_max cells all best out :
  ordered_cells all -> (forall v, v ∈ cells -> v ∈ all) -> Forall (fun v => IsNaNCell v = false) cells ->
  (forall b, best = Some b -> b ∈ all /\ is_null b = false) ->
  MinMaxLoop pick_max cells best = Ok out ->
  match out with
  | None => best = None /\ Forall (fun v => is_null v = true) cells
  | Some v => v ∈ all /\ is_null v = false /\
      forall w, w ∈ cells \/ best = Some w -> is_null w = false -> beats pick_max w v = false
  end.
Proof.
  intros O. revert best. induction cells as [|v cells IH]; intros best Sub NN B E; cbn [MinMaxLoop] in E.
  - injection E as <-. destruct best as [b|]; [|by split]. destruct (B b eq_refl) as [I N].
    split; [done|]. split; [done|]. intros w [W|[= <-]] _; [by apply elem_of_nil in W|].
    unfold beats. destruct (O b b b I I I N N N) as [A _]. destruct (LessThan b b) eqn:L; [|by destruct pick_max].
    by specialize (A eq_refl).
  - apply Forall_cons in NN as [Nv NN].
    assert (forall w, w ∈ cells -> w ∈ all) as Sub' by (intros; apply Sub; by right).
    destruct (is_null v) eqn:Nl.
    { specialize (IH best Sub' NN B E). destruct out as [o|].
      - destruct IH as (I & N & K). split; [done|]. split; [done|]. intros w [W|W] Nw; [|by apply K; [right|]].
        apply elem_of_cons in W as [->|W]; [congruence|by apply K; [left|]].
      - destruct IH as [-> F]. split; [done|by constructor]. }
    rewrite Nv in E. destruct best as [b|].
    + destruct (bool_decide (type_kind b = type_kind v)); [|done]. cbn [negb] in E.
      destruct (B b eq_refl) as [Ib Nb]. assert (v ∈ all) as Iv by (apply Sub; by left).
      set (c := if (if pick_max then LessThan b v else LessThan v b) then v else b) in E.
      assert (c ∈ all /\ is_null c = false) as [Ic Nc] by (unfold c; by destruct (if pick_max then _ else _)).
      specialize (IH (Some c) Sub' NN ltac:(by intros ? [= <-]) E).
      destruct out as [o|]; [|by destruct IH]. destruct IH as (Io & No & K). split; [done|]. split; [done|].
      pose proof (K c (or_intror eq_refl) Nc) as Kc.
      assert (forall w, w = v \/ w = b -> beats pick_max w c = false) as Bc.
      { intros w W. unfold c, beats. destruct (O v b v Iv Ib Iv Nl Nb Nl) as [A1 _], (O b v b Ib Iv Ib Nb Nl Nb) as [A2 _].
        destruct (O v v v Iv Iv Iv Nl Nl Nl) as [A3 _], (O b b b Ib Ib Ib Nb Nb Nb) as [A4 _].
        destruct pick_max, (LessThan b v) eqn:L1, (LessThan v b) eqn:L2, W as [?|?]; subst w;
          destruct (LessThan v v), (LessThan b b); naive_solver. }
      assert (forall w, w ∈ all -> is_null w = false -> beats pick_max w c = false -> beats pick_max w o = false) as Tr.
      { intros w Iw Nw Kw. destruct (beats pick_max w o) eqn:L; [|done]. unfold beats in *.
        destruct pick_max.
        - destruct (O o c w Io Ic Iw No Nc Nw) as [_ C]. destruct (C L); congruence.
        - destruct (O w c o Iw Ic Io Nw Nc No) as [_ C]. destruct (C L); congruence. }
      intros w [W|[= <-]] Nw; [apply elem_of_cons in W as [->|W]|]; [|by apply K; [left|]|];
        apply Tr; try done; apply Bc; auto.
    + specialize (IH (Some v) Sub' NN ltac:(intros ? [= <-]; split; [apply Sub; by left|done]) E).
      destruct out as [o|]; [|by destruct IH]. destruct IH as (Io & No & K). split; [done|]. split; [done|].
      intros w [W|W] Nw; [|done]. apply elem_of_cons in W as [->|W]; apply K; auto.
Qed.

(** MIN and MAX return one of the cells that are not null, and no other cell
    is smaller, respectively greater; over nulls only, they return a null of the
    result type. *)
Theorem min_max_extreme type cells pick_max v :
  ordered_cells cells -> Forall (fun c => IsNaNCell c = false) cells ->
  MinMaxAggregateImpl type [cells] pick_max = Ok v ->
  (Forall (fun c => is_null c = true) cells /\ v = NullOfAggregateType type) \/
  (v ∈ cells /\ is_null v = false /\
   forall w, w ∈ cells -> is_null w = false -> beats pick_max w v = false).
Proof.
  intros O NN E. unfold MinMaxAggregateImpl in E. apply bind_Ok in E as (best & E & [= <-]).
  apply (MinMaxLoop_spec _ _ cells) in E; [|done|done|done|done]. destruct best as [b|].
  - destruct E as (I & N & K). right. split; [done|]. split; [done|]. intros w W. by apply K; left.
  - destruct E as [_ F]. by left.
Qed.
End aggregate_scan.
