(* ===== verification/Analytic.v ===== *)
(** * Analytic: window functions

    Models [scan_eval_analytic_layout.cc] (partitions and row numbers),
    [scan_eval_analytic_numbering.cc] (NTILE, RANK, DENSE_RANK, LAG, LEAD),
    [scan_eval_analytic_aggregate.cc] (frames and aggregates over them) and
    [scan_eval_analytic_apply.cc] (PERCENTILE_CONT and the scan).

    A function that assigns one output column of every row returns the list of
    the assigned values.  A missing ORDER BY is the empty list of items, which
    the code treats alike.  Where the code adds signed offsets without a test,
    or reads the order value of a null, C++ or GoogleSQL aborts or is undefined;
    the model wraps the sum and reads the accessor's default. *)

From S2P Require Import Prelude Order Absl AbslReference Storage SemanticError FrameStack.
From S2P Require Import SqlValue GoogleSqlReference Arithmetic Operators MathFuncs Casts EvalExpr.
From S2P Require Import Rows AggFuncs Aggregates.

Section analytic.
Context `{AbslText, AbslDouble, GoogleSqlOps, ExecutorNodes}.
Context `{!CastLibrary, !ExecutorParts, !ResolvedAst}.

(** ** The layout of a group *)

Definition LookupColumnValue (row : Row) (col_id : Z) : Value := default SInvalid (row !! col_id).

Definition PartitionFingerprint (keys : list Value) : str := GroupKeyFingerprint keys.

Definition PartitionKeysForRow (group : AnalyticGroup) (row : Row) : list Value :=
  map (fun c => LookupColumnValue row (column_id c)) (omap (fun c => c) (partition_by group)).

(** Ascending, nulls last; a prefix comes first, then the fingerprints. *)
Fixpoint partition_keys_less (keys_a keys_b : list Value) (fp_a fp_b : str) : bool :=
  match keys_a, keys_b with
  | a :: keys_a, b :: keys_b =>
      if ValueEqual a b then partition_keys_less keys_a keys_b fp_a fp_b
      else if negb (Bool.eqb (is_null a) (is_null b)) then is_null b
      else ValueLess a b
  | [], [] => str_ltb fp_a fp_b
  | [], _ :: _ => true
  | _ :: _, [] => false
  end.

Definition PartitionKeysLess (keys_a keys_b : list Value) (fp_a fp_b : str) : bool :=
  partition_keys_less keys_a keys_b fp_a fp_b.

Definition item_column (item : OrderByItem) : option Z := option_map (fun c => column_id c.1) (column_ref item).

Fixpoint OrderSpecLess (items : list OrderByItem) (row_a row_b : Row) : bool :=
  match items with
  | [] => false
  | item :: items =>
      match item_column item with
      | None => OrderSpecLess items row_a row_b
      | Some id =>
          match CompareArrayAggOrderKey item (LookupColumnValue row_a id) (LookupColumnValue row_b id) with
          | Lt => true
          | Gt => false
          | Eq => OrderSpecLess items row_a row_b
          end
      end
  end.

Definition OrderKeysEqual (items : list OrderByItem) (row_a row_b : Row) : bool :=
  forallb (fun item => match item_column item with
                       | None => true
                       | Some id => ValueEqual (LookupColumnValue row_a id) (LookupColumnValue row_b id)
                       end) items.

Record AnalyticGroupLayout := mkLayout {
  partition_fps : list str;
  row_numbers : list Z;
  sorted_indices : list nat;
}.

Definition fp_at (fps : list str) (r : nat) : str := default [] (fps !! r).

Definition layout_before (group : AnalyticGroup) (input_rows : list Row) (fps : list str) (a b : nat)
    : bool :=
  if negb (bool_decide (fp_at fps a = fp_at fps b))
  then PartitionKeysLess (PartitionKeysForRow group (row_at input_rows a))
         (PartitionKeysForRow group (row_at input_rows b)) (fp_at fps a) (fp_at fps b)
  else OrderSpecLess (group_order_by group) (row_at input_rows a) (row_at input_rows b).

(** One more row of its partition: the counters of the partitions and the
    numbers given so far. *)
Definition number_row (fps : list str) (state : gmap str Z * gmap nat Z) (r : nat)
    : gmap str Z * gmap nat Z :=
  let fp := fp_at fps r in
  let n := (default 0 (state.1 !! fp) + 1)%Z in
  (<[fp := n]> state.1, <[r := n]> state.2).

Definition number_rows (fps : list str) (order : list nat) : gmap nat Z :=
  (fold_left (number_row fps) order (∅, ∅)).2.

Definition BuildAnalyticGroupLayout (group : AnalyticGroup) (input_rows : list Row)
    : AnalyticGroupLayout :=
  let fps := map (fun row => PartitionFingerprint (PartitionKeysForRow group row)) input_rows in
  let all := seq 0 (length input_rows) in
  let order := stable_sort (layout_before group input_rows fps) all in
  let numbers := number_rows fps order in
  mkLayout fps (map (fun r => default 0%Z (numbers !! r)) all) order.

Definition number_at (layout : AnalyticGroupLayout) (r : nat) : Z := default 0%Z (row_numbers layout !! r).

(** ** Numbering *)

(** Assign a column of every row. *)
Definition set_column (id : Z) (values : list Value) (rows : list Row) : list Row :=
  zip_with (fun row v => <[id := v]> row) rows values.

Definition ApplyAnalyticRowNumber (layout : AnalyticGroupLayout) : list Value :=
  map SInt64 (row_numbers layout).

(** Arguments that do not depend on the row are read on the first one. *)
Definition first_row_ctx (ctx : EvalContext) (input_rows : list Row) : EvalContext :=
  match input_rows with [] => ctx | row :: _ => set_columns ctx row end.

(** The bucket of row [rn] of [S] rows in [n] buckets. *)
Definition ntile_bucket (S n rn : Z) : Z :=
  let q := (S / n)%Z in
  let rem := (S mod n)%Z in
  if (q =? 0)%Z then rn
  else if (rn <=? rem * (q + 1))%Z then ((rn - 1) / (q + 1) + 1)%Z
  else (rem + (rn - rem * (q + 1) - 1) / q + 1)%Z.

Definition partition_size (layout : AnalyticGroupLayout) (fp : str) : Z :=
  Z.of_nat (length (List.filter (fun f => bool_decide (f = fp)) (partition_fps layout))).

Definition ntile_error : Status :=
  rows_error $"semantic: NTILE buckets argument must be a positive INT64".

Definition ntile_arity : Status :=
  InvalidArgumentError $"semantic: analytic NTILE expects one argument".

Definition ApplyAnalyticNtile (afn : AnalyticCall) (layout : AnalyticGroupLayout)
    (input_rows : list Row) (ctx : EvalContext) : StatusOr (list Value) :=
  match afn_args afn with
  | [arg] =>
      if is_null_expr arg then Err ntile_arity
      else
        buckets ← EvalExpr arg (first_row_ctx ctx input_rows);
        if is_null buckets || negb (is_kind buckets TYPE_INT64) then Err ntile_error
        else if (int64_value buckets <=? 0)%Z then Err ntile_error
        else Ok (map (fun r =>
                        let S := partition_size layout (fp_at (partition_fps layout) r) in
                        let rn := number_at layout r in
                        if ((S <=? 0) || (rn <=? 0))%Z then NullInt64
                        else SInt64 (ntile_bucket S (int64_value buckets) rn))
                   (seq 0 (length input_rows)))
  | _ => Err ntile_arity
  end.

(** Rows by partition, then by row number. *)
Definition numbered_before (layout : AnalyticGroupLayout) (a b : nat) : bool :=
  let fps := partition_fps layout in
  if negb (bool_decide (fp_at fps a = fp_at fps b)) then str_ltb (fp_at fps a) (fp_at fps b)
  else (number_at layout a <? number_at layout b)%Z.

Definition numbered_order (layout : AnalyticGroupLayout) : list nat :=
  stable_sort (numbered_before layout) (seq 0 (length (row_numbers layout))).

Record RankState := mkRank {
  rank_prev : option nat;
  olympic_rank : Z;
  dense_rank : Z;
  rank_out : gmap nat Value;
}.

Definition rank_step (items : list OrderByItem) (layout : AnalyticGroupLayout) (input_rows : list Row)
    (dense : bool) (s : RankState) (idx : nat) : RankState :=
  let fps := partition_fps layout in
  let new_partition := match rank_prev s with
                       | None => true
                       | Some p => negb (bool_decide (fp_at fps idx = fp_at fps p))
                       end in
  let peer_break := new_partition ||
    match rank_prev s with
    | None => true
    | Some p => negb (OrderKeysEqual items (row_at input_rows idx) (row_at input_rows p))
    end in
  let olympic := if peer_break then number_at layout idx else olympic_rank s in
  let dense_ := if peer_break then (if new_partition then 1 else dense_rank s + 1)%Z else dense_rank s in
  mkRank (Some idx) olympic dense_ (<[idx := SInt64 (if dense then dense_ else olympic)]> (rank_out s)).

Definition ApplyAnalyticRank (items : list OrderByItem) (layout : AnalyticGroupLayout)
    (input_rows : list Row) (dense : bool) : list Value :=
  let out := rank_out (fold_left (rank_step items layout input_rows dense) (numbered_order layout)
                         (mkRank None 0 0 ∅)) in
  map (fun r => default SInvalid (out !! r)) (seq 0 (length input_rows)).

Definition offset_error : Status := rows_error $"semantic: LAG/LEAD offset must be a positive INT64".

Definition lag_offset (args : list ResolvedExpr) (ctx : EvalContext) : StatusOr Z :=
  match args !! 1 with
  | None => Ok 1%Z
  | Some e =>
      if is_null_expr e then Ok 1%Z
      else
        v ← EvalExpr e ctx;
        if is_null v || negb (is_kind v TYPE_INT64) || (int64_value v <=? 0)%Z then Err offset_error
        else Ok (int64_value v)
  end.

(** [None] when there is no default argument. *)
Definition lag_default (args : list ResolvedExpr) (ctx : EvalContext) : StatusOr (option Value) :=
  match args !! 2 with
  | None => Ok None
  | Some e => if is_null_expr e then Ok None else Some <$> EvalExpr e ctx
  end.

Definition rn_key (fp : str) (rn : Z) : str := fp ++ [key_separator] ++ StrInt rn.

Definition by_partition_rn (layout : AnalyticGroupLayout) (n : nat) : gmap str nat :=
  fold_left (fun m r => <[rn_key (fp_at (partition_fps layout) r) (number_at layout r) := r]> m)
    (seq 0 n) ∅.

Definition lag_arity : Status :=
  InvalidArgumentError $"semantic: analytic LAG/LEAD expects a value argument".

Definition ApplyAnalyticLagLead (afn : AnalyticCall) (layout : AnalyticGroupLayout)
    (input_rows : list Row) (ctx : EvalContext) (direction : Z) : StatusOr (list Value) :=
  match afn_args afn with
  | [] => Err lag_arity
  | arg :: _ =>
      if is_null_expr arg then Err lag_arity
      else
        offset ← lag_offset (afn_args afn) (first_row_ctx ctx input_rows);
        default_value ← lag_default (afn_args afn) (first_row_ctx ctx input_rows);
        let index := by_partition_rn layout (length input_rows) in
        outcome_mapM (fun r =>
            let target_rn := wrap_int64 (number_at layout r + direction * offset) in
            match index !! rn_key (fp_at (partition_fps layout) r) target_rn with
            | None => Ok match default_value, expr_type arg with
                         | Some d, _ => d
                         | None, Some t => SNull t
                         | None, None => NullInt64
                         end
            | Some target => EvalExpr arg (set_columns ctx (row_at input_rows target))
            end) (seq 0 (length input_rows))
  end.

(** ** Frames *)

(** The rows of every partition in row number order. *)
Definition BuildPartitionOrder (layout : AnalyticGroupLayout) : gmap str (list nat) :=
  fold_left (fun by_fp idx =>
               let fp := fp_at (partition_fps layout) idx in
               <[fp := default [] (by_fp !! fp) ++ [idx]]> by_fp) (numbered_order layout) ∅.

Definition EvalFrameOffsetInt64 (expr : ResolvedExpr) (ctx : EvalContext) : StatusOr Z :=
  match expr with
  | ENull => Err (InvalidArgumentError $"semantic: frame offset missing")
  | _ =>
      v ← EvalExpr expr ctx;
      if is_null v then Err (rows_error $"semantic: frame offset must not be NULL")
      else match v with
      | SInt64 z => Ok z
      | SDouble d => Ok (trunc_int64 d)
      | _ => Err (rows_error $"semantic: frame offset must be INT64")
      end
  end.

Definition AddDateOffset (date : Value) (offset_days : Z) : StatusOr Value :=
  if is_null date then Ok date else SDate <$> AddDate (date_value date) Part_DAY offset_days.

Definition AddTimestampOffset (ts : Value) (offset_micros : Z) : StatusOr Value :=
  if is_null ts then Ok ts
  else Ok (TimestampFromUnixMicros (wrap_int64 (ToUnixMicros ts + offset_micros))).

Definition bound_is (types : list BoundaryType) (bound : option FrameBound) : bool :=
  match bound with Some b => bool_decide (boundary_type b ∈ types) | None => false end.

Definition BoundIsUnbounded : option FrameBound -> bool := bound_is [UNBOUNDED_PRECEDING; UNBOUNDED_FOLLOWING].
Definition BoundIsCurrentRow : option FrameBound -> bool := bound_is [CURRENT_ROW].
Definition BoundIsOffset : option FrameBound -> bool := bound_is [OFFSET_PRECEDING; OFFSET_FOLLOWING].

(** The first position of the peers of the row at [pos], going back. *)
Fixpoint PeerStartIndex (peer : nat -> bool) (pos : nat) : nat :=
  match pos with
  | O => O
  | S p => if peer p then PeerStartIndex peer p else pos
  end.

(** The last position of the peers, going forward through the [more] positions
    that follow. *)
Fixpoint PeerEndIndex (peer : nat -> bool) (pos more : nat) : nat :=
  match more with
  | O => pos
  | S m => if peer (S pos) then PeerEndIndex peer (S pos) m else pos
  end.

Definition RowsBoundRn (bound : option FrameBound) (current_rn max_rn : Z) (ctx : EvalContext)
    : StatusOr Z :=
  match bound with
  | None => Err (InvalidArgumentError $"semantic: ROWS frame bound missing")
  | Some b =>
      match boundary_type b with
      | UNBOUNDED_PRECEDING => Ok 1%Z
      | UNBOUNDED_FOLLOWING => Ok max_rn
      | CURRENT_ROW => Ok current_rn
      | OFFSET_PRECEDING =>
          offset ← EvalFrameOffsetInt64 (bound_expr b) ctx;
          let rn := wrap_int64 (current_rn - offset) in Ok (if (rn <? 1)%Z then 1%Z else rn)
      | OFFSET_FOLLOWING =>
          offset ← EvalFrameOffsetInt64 (bound_expr b) ctx;
          let rn := wrap_int64 (current_rn + offset) in Ok (if (max_rn <? rn)%Z then max_rn else rn)
      end
  end.

Definition ResolveRowsFrame (wf : WindowFrame) (layout : AnalyticGroupLayout) (ordered : list nat)
    (row_index : nat) (ctx : EvalContext) : StatusOr (list nat) :=
  let current_rn := number_at layout row_index in
  let max_rn := Z.of_nat (length ordered) in
  start ← RowsBoundRn (start_expr wf) current_rn max_rn ctx;
  end_ ← RowsBoundRn (end_expr wf) current_rn max_rn ctx;
  Ok (List.filter (fun idx => ((start <=? number_at layout idx) && (number_at layout idx <=? end_))%Z)
        ordered).

(** The value at an offset from the current one. *)
Definition shift_order (current_order : Value) (offset : Z) : StatusOr Value :=
  match type_kind current_order with
  | TYPE_INT64 => Ok (SInt64 (wrap_int64 (int64_value current_order + offset)))
  | TYPE_DOUBLE => Ok (SDouble (dbl_add (double_value current_order) (dbl_of_Z offset)))
  | TYPE_DATE => AddDateOffset current_order offset
  | TYPE_TIMESTAMP => AddTimestampOffset current_order offset
  | _ => Err (not_implemented $"semantic: unsupported frame bound for order key")
  end.

Definition FrameBoundValue (bound : option FrameBound) (current_order : Value) (ctx : EvalContext)
    : StatusOr Value :=
  match bound with
  | None => Err (InvalidArgumentError $"semantic: frame bound missing")
  | Some b =>
      match boundary_type b with
      | UNBOUNDED_PRECEDING | UNBOUNDED_FOLLOWING => Ok NullInt64
      | CURRENT_ROW => Ok current_order
      | OFFSET_PRECEDING =>
          offset ← EvalFrameOffsetInt64 (bound_expr b) ctx; shift_order current_order (- offset)
      | OFFSET_FOLLOWING =>
          offset ← EvalFrameOffsetInt64 (bound_expr b) ctx; shift_order current_order offset
      end
  end.

Definition ValueInClosedRange (value low : Value) (has_low : bool) (high : Value) (has_high : bool)
    : bool :=
  if is_null value then false
  else if has_low && negb (is_null low) && ValueLess value low then false
  else if has_high && negb (is_null high) && ValueLess high value then false
  else true.

Definition range_order_type (t : option SqlType) : bool :=
  match option_map kind t with
  | Some (TYPE_INT64 | TYPE_DOUBLE | TYPE_DATE | TYPE_TIMESTAMP) => true
  | _ => false
  end.

Definition ResolveRangeValueOffsetFrame (wf : WindowFrame) (items : list OrderByItem)
    (input_rows : list Row) (ordered : list nat) (row_index : nat) (ctx : EvalContext)
    : StatusOr (list nat) :=
  match items with
  | [] => Err (not_implemented $"semantic: RANGE value offset requires ORDER BY")
  | item :: _ =>
      match column_ref item with
      | None => Err (not_implemented $"semantic: RANGE value offset missing order key")
      | Some (col, _) =>
          if negb (range_order_type (column_type col))
          then Err (not_implemented $"semantic: RANGE value offset requires numeric/DATE/TIMESTAMP order")
          else
            let order_of r := LookupColumnValue (row_at input_rows r) (column_id col) in
            let row_ctx := set_columns ctx (row_at input_rows row_index) in
            low ← FrameBoundValue (start_expr wf) (order_of row_index) row_ctx;
            high ← FrameBoundValue (end_expr wf) (order_of row_index) row_ctx;
            Ok (List.filter (fun other => ValueInClosedRange (order_of other) low (negb (is_null low))
                                            high (negb (is_null high))) ordered)
      end
  end.

Definition unsupported_range (which : str) : Status :=
  not_implemented ($"semantic: unsupported RANGE " ++ which ++ $" bound").

Definition ResolvePeerRangeFrame (wf : option WindowFrame) (items : list OrderByItem)
    (input_rows : list Row) (ordered : list nat) (cur_pos : nat) : StatusOr (list nat) :=
  let start_bound := wf ≫= start_expr in
  let end_bound := wf ≫= end_expr in
  let no_frame := match wf with None => true | Some _ => false end in
  let start_unbounded := no_frame || BoundIsUnbounded start_bound in
  let end_unbounded := bound_is [UNBOUNDED_FOLLOWING] end_bound in
  let start_current := BoundIsCurrentRow start_bound in
  let end_current := no_frame || BoundIsCurrentRow end_bound in
  let row_of pos := row_at input_rows (default 0 (ordered !! pos)) in
  let peer pos := OrderKeysEqual items (row_of pos) (row_of cur_pos) in
  if BoundIsOffset start_bound || BoundIsOffset end_bound
  then Err (rows_error $"semantic: peer RANGE resolver received value-offset bounds")
  else
    start ← (if start_unbounded then Ok 0
             else if start_current then Ok (PeerStartIndex peer cur_pos)
             else Err (unsupported_range $"start"));
    end_ ← (if end_unbounded then Ok (length ordered - 1)
            else if end_current then Ok (PeerEndIndex peer cur_pos (length ordered - 1 - cur_pos))
            else Err (unsupported_range $"end"));
    Ok (if end_ <? start then [] else take (end_ + 1 - start) (drop start ordered)).

(** The position of a row in its partition; 0 when it is not there. *)
Definition position_of (ordered : list nat) (row_index : nat) : nat :=
  match list_find (fun i => i = row_index) ordered with Some (pos, _) => pos | None => 0 end.

Definition ResolveWindowFrameRows (afn : AnalyticCall) (items : list OrderByItem)
    (layout : AnalyticGroupLayout) (input_rows : list Row) (partition_order : gmap str (list nat))
    (row_index : nat) (ctx : EvalContext) : StatusOr (list nat) :=
  match partition_order !! fp_at (partition_fps layout) row_index with
  | None | Some [] => Ok []
  | Some ordered =>
      let cur_pos := position_of ordered row_index in
      let cur_row := default 0 (ordered !! cur_pos) in
      match items, window_frame afn with
      | [], _ => Ok ordered
      | _, None => ResolvePeerRangeFrame None items input_rows ordered cur_pos
      | _, Some wf =>
          if bool_decide (frame_unit wf = ROWS)
          then ResolveRowsFrame wf layout ordered cur_row (set_columns ctx (row_at input_rows row_index))
          else if BoundIsOffset (start_expr wf) || BoundIsOffset (end_expr wf)
          then ResolveRangeValueOffsetFrame wf items input_rows ordered cur_row ctx
          else if BoundIsUnbounded (start_expr wf) && BoundIsUnbounded (end_expr wf) then Ok ordered
          else ResolvePeerRangeFrame (Some wf) items input_rows ordered cur_pos
      end
  end.

Definition aggregate_cells (fname : str) (afn : AnalyticCall) (cells : list Value) : StatusOr Value :=
  if is_name fname [$"count"] then
    Ok (SInt64 (Z.of_nat (if afn_distinct afn then size (distinct_texts cells)
                          else length (List.filter not_null cells))))
  else EvalAggregateBuiltin fname (afn_type afn) (afn_distinct afn) [cells].

Definition ApplyAnalyticAggregate (afn : AnalyticCall) (fname : str) (items : list OrderByItem)
    (layout : AnalyticGroupLayout) (input_rows : list Row) (ctx : EvalContext) : StatusOr (list Value) :=
  let n_args := length (afn_args afn) in
  let is_count_star := is_name fname [$"$count_star"] || (is_name fname [$"count"] && (n_args =? 0)) in
  let is_count_expr := is_name fname [$"count"] && (n_args =? 1) in
  if negb is_count_star && negb is_count_expr && negb (is_name fname [$"sum"; $"avg"; $"min"; $"max"])
  then Err (not_implemented ($"semantic: analytic aggregate '" ++ fname ++ $"' is not implemented"))
  else
    let argument := match afn_args afn with
                    | [e] => if is_null_expr e then None else Some e
                    | _ => None
                    end in
    let frames := outcome_mapM (fun r => ResolveWindowFrameRows afn items layout input_rows
                                           (BuildPartitionOrder layout) r ctx)
                    (seq 0 (length input_rows)) in
    if is_count_star then
      fs ← frames; Ok (map (fun f : list nat => SInt64 (Z.of_nat (length f))) fs)
    else match argument with
    | None => Err (InvalidArgumentError ($"semantic: analytic " ++ AsciiStrToUpper fname
                     ++ $" expects one argument"))
    | Some e =>
        arg_values ← outcome_mapM (fun row => EvalExpr e (set_columns ctx row)) input_rows;
        outcome_mapM (fun r =>
            frame ← ResolveWindowFrameRows afn items layout input_rows (BuildPartitionOrder layout) r ctx;
            aggregate_cells fname afn (map (fun idx => default SInvalid (arg_values !! idx)) frame))
          (seq 0 (length input_rows))
    end.

(** ** PERCENTILE_CONT *)

(** A percentile outside [0, 1] indexes past the end, which is undefined. *)
Definition PercentileContFromSorted (sorted : list spec_float) (p : spec_float) : spec_float :=
  match sorted with
  | [] => dbl_zero
  | [x] => x
  | _ =>
      let rank := dbl_mul p (dbl_of_Z (Z.of_nat (length sorted) - 1)) in
      let lo := Z.to_nat (trunc_int64 rank) in
      let hi := Nat.min (lo + 1) (length sorted - 1) in
      let frac := dbl_sub rank (dbl_of_Z (Z.of_nat lo)) in
      let at_ i := default dbl_zero (sorted !! i) in
      dbl_add (at_ lo) (dbl_mul frac (dbl_sub (at_ hi) (at_ lo)))
  end.

Definition percentile_cell (v : Value) : StatusOr spec_float :=
  match v with
  | SInt64 z => Ok (dbl_of_Z z)
  | SDouble d | SFloat d => Ok d
  | SNumeric n => Ok (num_to_double numeric n)
  | _ => Err (not_implemented $"semantic: PERCENTILE_CONT unsupported type")
  end.

Definition PercentileContValue (percentile : Value) (values : list Value) : StatusOr Value :=
  if is_null percentile then Ok NullDouble
  else
    nums ← outcome_mapM percentile_cell (List.filter not_null values);
    Ok match nums with
       | [] => NullDouble
       | _ => SDouble (PercentileContFromSorted (stable_sort SFltb nums) (double_value percentile))
       end.

(** The cells of a partition, and the percentile of its first row. *)
Definition ApplyAnalyticPercentileCont (afn : AnalyticCall) (layout : AnalyticGroupLayout)
    (input_rows : list Row) (ctx : EvalContext) : StatusOr (list Value) :=
  match afn_args afn with
  | [arg; pct] =>
      if is_null_expr arg || is_null_expr pct
      then Err (InvalidArgumentError $"semantic: analytic PERCENTILE_CONT expects two arguments")
      else
        pieces ← outcome_mapM (fun row =>
                   v ← EvalExpr arg (set_columns ctx row);
                   p ← EvalExpr pct (set_columns ctx row); Ok (v, p)) input_rows;
        let of_partition fp :=
          map snd (List.filter (fun t : str * (Value * Value) => bool_decide (t.1 = fp))
                     (zip (partition_fps layout) pieces)) in
        outcome_mapM (fun fp => match of_partition fp with
                                | [] => Ok NullDouble
                                | (v, p) :: rest => PercentileContValue p (map fst ((v, p) :: rest))
                                end) (partition_fps layout)
  | _ => Err (InvalidArgumentError $"semantic: analytic PERCENTILE_CONT expects two arguments")
  end.

(** ** The scan *)

Definition AnalyticFunctionName (fn : FunctionInfo) : str := LowerFunctionDispatchName fn.

(** The values of the output column of an analytic function. *)
Definition ApplyAnalyticFunction (call : option AnalyticCall) (items : list OrderByItem)
    (layout : AnalyticGroupLayout) (input_rows : list Row) (ctx : EvalContext) : StatusOr (list Value) :=
  match call with
  | None => Err (not_implemented $"semantic: analytic column is not a function call")
  | Some afn =>
      match afn_function afn with
      | None => Err (InternalError $"semantic: analytic function is null")
      | Some fn =>
          let fname := AnalyticFunctionName fn in
          if is_name fname [$"row_number"] then Ok (ApplyAnalyticRowNumber layout)
          else if is_name fname [$"percentile_cont"] then ApplyAnalyticPercentileCont afn layout input_rows ctx
          else if is_name fname [$"ntile"] then ApplyAnalyticNtile afn layout input_rows ctx
          else if is_name fname [$"rank"] then Ok (ApplyAnalyticRank items layout input_rows false)
          else if is_name fname [$"dense_rank"] then Ok (ApplyAnalyticRank items layout input_rows true)
          else if is_name fname [$"lag"] then ApplyAnalyticLagLead afn layout input_rows ctx (-1)
          else if is_name fname [$"lead"] then ApplyAnalyticLagLead afn layout input_rows ctx 1
          else if is_name fname [$"sum"; $"avg"; $"min"; $"max"; $"count"; $"$count_star"]
          then ApplyAnalyticAggregate afn fname items layout input_rows ctx
          else Err (not_implemented ($"semantic: analytic function '" ++ fname ++ $"' is not yet implemented"))
      end
  end.

Fixpoint apply_functions (functions : list (ResolvedColumn * option AnalyticCall))
    (items : list OrderByItem) (layout : AnalyticGroupLayout) (input_rows : list Row) (ctx : EvalContext)
    (out_rows : list Row) : StatusOr (list Row) :=
  match functions with
  | [] => Ok out_rows
  | (col, call) :: functions =>
      values ← ApplyAnalyticFunction call items layout input_rows ctx;
      apply_functions functions items layout input_rows ctx (set_column (column_id col) values out_rows)
  end.

Fixpoint apply_groups (groups : list AnalyticGroup) (input_rows : list Row) (ctx : EvalContext)
    (out_rows : list Row) : StatusOr (list Row) :=
  match groups with
  | [] => Ok out_rows
  | group :: groups =>
      out_rows ← apply_functions (analytic_functions group) (group_order_by group)
                   (BuildAnalyticGroupLayout group input_rows) input_rows ctx out_rows;
      apply_groups groups input_rows ctx out_rows
  end.

(** [MaterializeAnalyticScan] on the materialized input: the rows in the order
    of the first group. *)
Definition AnalyticRows (groups : list AnalyticGroup) (input_rows : list Row) (ctx : EvalContext)
    : StatusOr (list Row) :=
  out_rows ← apply_groups groups input_rows ctx input_rows;
  Ok match groups with
     | [] => out_rows
     | group :: _ =>
         let order := sorted_indices (BuildAnalyticGroupLayout group input_rows) in
         if length order =? length out_rows then map (row_at out_rows) order else out_rows
     end.
End analytic.
