(* ===== verification/AnalyticProps.v ===== *)
(** * AnalyticProps: row numbers, NTILE, LAG and ROWS frames

    The rows of a partition are numbered from one in its order, without gaps;
    NTILE cuts them into buckets whose sizes differ by at most one; LAG and LEAD
    read the row of the partition whose number is at the offset; a ROWS frame
    holds the rows between its bounds. *)

From S2P Require Import Prelude Order Absl AbslReference Storage SemanticError FrameStack.
From S2P Require Import SqlValue GoogleSqlReference Arithmetic Operators MathFuncs Casts EvalExpr.
From S2P Require Import Rows AggFuncs Aggregates Analytic.

(** ** Buckets *)

(** The number of rows before bucket [b + 1]. *)
Definition bucket_end (S n b : Z) : Z := (b * (S / n) + Z.min b (S mod n))%Z.

(** A row is in bucket [b] when its number is after the rows of the buckets
    before and not after those of [b]. *)
Lemma ntile_bucket_iff S n rn b :
  (0 < n)%Z -> (1 <= rn <= S)%Z -> (1 <= b <= n)%Z ->
  ntile_bucket S n rn = b <-> (bucket_end S n (b - 1) < rn <= bucket_end S n b)%Z.
Proof.
  intros Hn Hrn Hb. unfold ntile_bucket, bucket_end.
  pose proof (Z.div_mod S n ltac:(lia)) as D. pose proof (Z.mod_pos_bound S n Hn) as R.
  set (q := (S / n)%Z) in *. set (rem := (S mod n)%Z) in *.
  assert (0 <= q)%Z by (apply Z.div_pos; lia).
  destruct (Z.eqb_spec q 0) as [->|Q].
  { rewrite !Z.mul_0_r. assert (rem = S) by lia. lia. }
  destruct (Z.leb_spec rn (rem * (q + 1))).
  - pose proof (Z.div_mod (rn - 1) (q + 1) ltac:(lia)) as D1.
    pose proof (Z.mod_pos_bound (rn - 1) (q + 1) ltac:(lia)) as R1.
    set (k := ((rn - 1) / (q + 1))%Z) in *.
    assert (k < rem)%Z by nia. split.
    + intros <-. rewrite !Z.min_l by lia. nia.
    + intros [L U]. destruct (Z.min_spec b rem) as [[? E1]|[? E1]], (Z.min_spec (b - 1) rem) as [[? E2]|[? E2]];
        rewrite E1, E2 in *; nia.
  - set (m := (rn - rem * (q + 1) - 1)%Z).
    pose proof (Z.div_mod m q ltac:(lia)) as D1. pose proof (Z.mod_pos_bound m q ltac:(lia)) as R1.
    set (k := (m / q)%Z) in *. assert (0 <= k)%Z by (apply Z.div_pos; lia). split.
    + intros <-. rewrite !Z.min_r by lia. nia.
    + intros [L U]. destruct (Z.min_spec b rem) as [[? E1]|[? E1]], (Z.min_spec (b - 1) rem) as [[? E2]|[? E2]];
        rewrite E1, E2 in *; nia.
Qed.

Lemma bucket_size S n b :
  (0 < n)%Z ->
  (bucket_end S n b - bucket_end S n (b - 1) = S / n + if b <=? S mod n then 1 else 0)%Z.
Proof. intros. unfold bucket_end. destruct (Z.leb_spec b (S mod n)); lia. Qed.

(** How many of the numbers from one are in an interval. *)
Lemma count_interval (k : nat) (lo hi : Z) :
  (0 <= lo <= hi)%Z -> (hi <= Z.of_nat k)%Z ->
  Z.of_nat (length (List.filter (fun z => (lo <? z) && (z <=? hi))%Z (map Z.of_nat (seq 1 k))))
  = (hi - lo)%Z.
Proof.
  intros L H.
  assert (forall k, Z.of_nat (length (List.filter (fun z => (lo <? z) && (z <=? hi))%Z
            (map Z.of_nat (seq 1 k)))) = Z.max 0 (Z.min hi (Z.of_nat k) - Z.min lo (Z.of_nat k)))%Z as K.
  { clear k H. induction k as [|k IH]; [cbn; lia|].
    rewrite seq_S, map_app, List.filter_app, length_app, Nat2Z.inj_add, IH. cbn [map List.filter].
    destruct (Z.ltb_spec lo (Z.of_nat (1 + k))), (Z.leb_spec (Z.of_nat (1 + k)) hi); cbn [andb length]; lia. }
  rewrite K. lia.
Qed.

Section numbering.
Context `{AbslText, AbslDouble, GoogleSqlOps, ExecutorNodes}.
Context `{!CastLibrary, !ExecutorParts, !ResolvedAst}.

(** ** Row numbers *)

Definition in_partition (fps : list str) (fp : str) (r : nat) : bool := bool_decide (fp_at fps r = fp).

(** The counters after some rows, and the numbers of these rows. *)
Lemma number_rows_spec fps order :
  NoDup order ->
  let st := fold_left (number_row fps) order (∅, ∅) in
  (forall fp, default 0%Z (st.1 !! fp) = Z.of_nat (length (List.filter (in_partition fps fp) order))) /\
  (forall r, st.2 !! r <> None -> r ∈ order) /\
  (forall fp, map (fun r => default 0%Z (st.2 !! r)) (List.filter (in_partition fps fp) order) =
     map Z.of_nat (seq 1 (length (List.filter (in_partition fps fp) order)))).
Proof.
  induction order as [|r order IH] using rev_ind; intros ND.
  { split; [done|]. split; [done|]. done. }
  apply NoDup_app in ND as (ND & Dis & _). destruct (IH ND) as (C & D & N). cbn zeta in *.
  rewrite fold_left_app. cbn [fold_left]. set (st := fold_left (number_row fps) order (∅, ∅)) in *.
  unfold number_row. cbn [fst snd].
  assert (r ∉ order) as NI by (intros I; apply (Dis r I); set_solver).
  split; [|split].
  - intros fp. rewrite List.filter_app, length_app. cbn [List.filter].
    destruct (in_partition fps fp r) eqn:Ir.
    1: apply bool_decide_eq_true in Ir as <-. 2: apply bool_decide_eq_false in Ir.
    + rewrite lookup_insert_eq. cbn [default length]. rewrite C. unfold id. lia.
    + rewrite lookup_insert_ne by done. rewrite C. cbn [length]. lia.
  - intros r'. destruct (decide (r' = r)) as [->|]; [set_solver|]. rewrite lookup_insert_ne by done.
    intros X. apply elem_of_app. left. by apply D.
  - intros fp. rewrite List.filter_app, map_app, length_app, Nat.add_comm.
    assert (forall l, (forall x, x ∈ l -> x ∈ order) ->
              map (fun x => default 0%Z (<[r := (default 0 (st.1 !! fp_at fps r) + 1)%Z]> st.2 !! x)) l =
              map (fun x => default 0%Z (st.2 !! x)) l) as Same.
    { intros l Sub. apply map_ext_in. intros x I. rewrite lookup_insert_ne; [done|].
      intros ->. apply NI, Sub. by apply list_elem_of_In. }
    rewrite Same.
    2:{ intros x I. apply list_elem_of_In, filter_In in I as [I _]. by apply list_elem_of_In. }
    rewrite N. cbn [List.filter]. destruct (in_partition fps fp r) eqn:Ir.
    1: apply bool_decide_eq_true in Ir as <-.
    + cbn [map length]. rewrite lookup_insert_eq. cbn [default]. unfold id. rewrite C.
      change (1 + ?n) with (S n). rewrite seq_S, map_app. cbn [map]. do 2 f_equal. lia.
    + cbn [map length]. by rewrite app_nil_r.
Qed.

Lemma stable_sort_NoDup {A} (lt : A -> A -> bool) l : NoDup l -> NoDup (stable_sort lt l).
Proof. by rewrite stable_sort_Permutation. Qed.

Context (group : AnalyticGroup) (input_rows : list Row).
Local Abbreviation layout := (BuildAnalyticGroupLayout group input_rows).
Local Abbreviation all_rows := (seq 0 (length input_rows)).

Lemma number_at_layout r :
  r < length input_rows ->
  number_at layout r = default 0%Z (number_rows (partition_fps layout) (sorted_indices layout) !! r).
Proof.
  intros L. unfold number_at, BuildAnalyticGroupLayout. cbn [row_numbers partition_fps sorted_indices].
  rewrite list_lookup_fmap, lookup_seq_lt by done. done.
Qed.

(** The rows of a partition in its order. *)
Definition partition_rows (fp : str) : list nat :=
  List.filter (in_partition (partition_fps layout) fp) (sorted_indices layout).

Lemma sorted_indices_Permutation : sorted_indices layout ≡ₚ all_rows.
Proof. apply stable_sort_Permutation. Qed.

Lemma partition_rows_elem fp r :
  r ∈ partition_rows fp <-> r < length input_rows /\ fp_at (partition_fps layout) r = fp.
Proof.
  unfold partition_rows, in_partition. rewrite list_elem_of_In, filter_In, <- list_elem_of_In.
  rewrite sorted_indices_Permutation, elem_of_seq, bool_decide_eq_true. intuition lia.
Qed.

(** The rows of a partition are numbered 1, 2, 3, ... in its order. *)
Lemma partition_numbers fp :
  map (number_at layout) (partition_rows fp) = map Z.of_nat (seq 1 (length (partition_rows fp))).
Proof.
  destruct (number_rows_spec (partition_fps layout) (sorted_indices layout)) as (_ & _ & N).
  { apply stable_sort_NoDup, NoDup_seq. }
  etrans; [|exact (N fp)]. apply map_ext_in. intros r I.
  apply number_at_layout. apply list_elem_of_In, partition_rows_elem in I. tauto.
Qed.

Lemma partition_size_rows fp :
  partition_size layout fp = Z.of_nat (length (partition_rows fp)).
Proof.
  unfold partition_size, partition_rows. f_equal.
  assert (List.filter (in_partition (partition_fps layout) fp) (sorted_indices layout) ≡ₚ
          List.filter (in_partition (partition_fps layout) fp) all_rows) as P.
  { apply List_filter_Permutation, sorted_indices_Permutation. }
  rewrite (Permutation_length P). cbn [partition_fps]. clear P.
  unfold in_partition, fp_at. cbn [partition_fps BuildAnalyticGroupLayout].
  set (fps := map _ input_rows). replace (length input_rows) with (length fps) by apply length_map.
  clearbody fps. induction fps as [|f fps IH] using rev_ind; [done|].
  rewrite List.filter_app, !length_app, seq_app, List.filter_app, length_app, IH. f_equal.
  - f_equal. apply filter_ext_in. intros r I%in_seq. by rewrite lookup_app_l by lia.
  - cbn. rewrite lookup_app_r, Nat.sub_diag by lia. cbn. by case_bool_decide.
Qed.

Lemma partition_number_position fp i r :
  partition_rows fp !! i = Some r -> number_at layout r = Z.of_nat (S i).
Proof.
  intros L. assert (map (number_at layout) (partition_rows fp) !! i = Some (number_at layout r)) as E.
  { rewrite list_lookup_fmap, L. done. }
  rewrite partition_numbers, list_lookup_fmap in E.
  destruct (seq 1 (length (partition_rows fp)) !! i) as [k|] eqn:Q; [|done].
  apply lookup_seq in Q as [-> _]. injection E as <-. done.
Qed.

(** A row of a partition is known by its number. *)
Lemma partition_number_inj fp r r' :
  r ∈ partition_rows fp -> r' ∈ partition_rows fp -> number_at layout r = number_at layout r' -> r = r'.
Proof.
  intros [i Hi]%list_elem_of_lookup [j Hj]%list_elem_of_lookup E.
  rewrite (partition_number_position _ _ _ Hi), (partition_number_position _ _ _ Hj) in E.
  assert (i = j) as <- by lia. congruence.
Qed.

(** ** NTILE *)

Lemma length_filter_map {A B} (f : A -> B) (P : B -> bool) l :
  length (List.filter P (map f l)) = length (List.filter (fun x => P (f x)) l).
Proof. induction l as [|x l IH]; simpl; [done|]. destruct (P (f x)); simpl; by rewrite IH. Qed.

(** The value NTILE assigns to a row of a partition. *)
Lemma ntile_value afn arg n ctx values fp r :
  afn_args afn = [arg] -> EvalExpr arg (first_row_ctx ctx input_rows) = Ok (SInt64 n) ->
  ApplyAnalyticNtile afn layout input_rows ctx = Ok values -> r ∈ partition_rows fp ->
  (0 < n)%Z /\
  values !! r = Some (SInt64 (ntile_bucket (Z.of_nat (length (partition_rows fp))) n (number_at layout r))).
Proof.
  intros A B E I. unfold ApplyAnalyticNtile in E. rewrite A in E.
  destruct (is_null_expr arg); [done|]. rewrite B in E. cbn [mbind outcome_bind is_null] in E.
  replace (is_kind (SInt64 n) TYPE_INT64) with true in E by reflexivity. cbn [orb negb int64_value] in E.
  destruct (Z.leb_spec n 0); [done|]. injection E as <-. split; [done|].
  pose proof (proj1 (partition_rows_elem fp r) I) as [L F].
  rewrite list_lookup_fmap, lookup_seq_lt by done. cbn [fmap option_fmap option_map]. f_equal.
  change (map (fun row => PartitionFingerprint (PartitionKeysForRow group row)) input_rows)
    with (partition_fps layout).
  rewrite Nat.add_0_l, F, partition_size_rows. apply list_elem_of_lookup in I as [i I].
  rewrite (partition_number_position _ _ _ I). apply lookup_lt_Some in I.
  destruct (Z.leb_spec (Z.of_nat (length (partition_rows fp))) 0); [lia|].
  destruct (Z.leb_spec (Z.of_nat (S i)) 0); [lia|]. done.
Qed.

Definition has_bucket (values : list Value) (b : Z) (r : nat) : bool :=
  match values !! r with Some (SInt64 z) => (z =? b)%Z | _ => false end.

(** NTILE over [n] buckets gives the rows of every partition buckets from 1
    to [n]; a bucket holds [size / n] rows, and one more when it is one of the
    first [size mod n]; and the rows of a bucket are consecutive in the
    partition's order, after those of the buckets before. *)
Theorem ntile_buckets afn arg n ctx values fp b :
  afn_args afn = [arg] -> EvalExpr arg (first_row_ctx ctx input_rows) = Ok (SInt64 n) ->
  ApplyAnalyticNtile afn layout input_rows ctx = Ok values -> (1 <= b <= n)%Z ->
  let size := Z.of_nat (length (partition_rows fp)) in
  (Z.of_nat (length (List.filter (has_bucket values b) (partition_rows fp)))
   = size / n + if b <=? size mod n then 1 else 0)%Z /\
  (forall i r, partition_rows fp !! i = Some r ->
     has_bucket values b r = true <->
     (bucket_end size n (b - 1) <= Z.of_nat i < bucket_end size n b)%Z).
Proof.
  intros A B E Hb size.
  assert (forall i r, partition_rows fp !! i = Some r ->
     has_bucket values b r = true <->
     (bucket_end size n (b - 1) <= Z.of_nat i < bucket_end size n b)%Z) as K.
  { intros i r L. assert (r ∈ partition_rows fp) as I by by eapply list_elem_of_lookup_2.
    destruct (ntile_value afn arg n ctx values fp r A B E I) as [Hn V]. unfold has_bucket. rewrite V.
    rewrite Z.eqb_eq, (partition_number_position _ _ _ L). fold size.
    apply lookup_lt_Some in L. rewrite ntile_bucket_iff by lia. lia. }
  split; [|exact K].
  destruct (partition_rows fp) as [|r0 rows] eqn:P.
  { cbn in *. unfold size. rewrite Zdiv_0_l, Zmod_0_l. destruct (Z.leb_spec b 0); lia. }
  rewrite <- P in *. assert (0 <= size)%Z by (unfold size; lia). assert (0 < n)%Z as Hn by lia. rewrite <- bucket_size by done.
  set (inside := fun z => ((bucket_end size n (b - 1) <? z) && (z <=? bucket_end size n b))%Z).
  assert (List.filter (has_bucket values b) (partition_rows fp) =
          List.filter (fun r => inside (number_at layout r)) (partition_rows fp)) as ->.
  { apply filter_ext_in. intros r I. apply list_elem_of_In, list_elem_of_lookup in I as [i I].
    apply eq_true_iff_eq. rewrite (K i r I). unfold inside.
    rewrite (partition_number_position _ _ _ I), andb_true_iff, Z.ltb_lt, Z.leb_le. lia. }
  rewrite <- length_filter_map, partition_numbers. apply count_interval.
  - unfold bucket_end. pose proof (Z.mod_pos_bound size n Hn). assert (0 <= size / n)%Z by (apply Z.div_pos; lia).
    nia.
  - unfold bucket_end. pose proof (Z.div_mod size n ltac:(lia)). pose proof (Z.mod_pos_bound size n Hn).
    assert (0 <= size / n)%Z by (apply Z.div_pos; lia). rewrite P. fold size. nia.
Qed.

(** ** LAG and LEAD *)

Context `{!AbslTextLaws}.

Lemma StrInt_no_separator z : key_separator ∉ StrInt z.
Proof.
  intros I. pose proof (StrInt_chars z) as F. rewrite Forall_forall in F.
  destruct (F _ I) as [D|D]; [|done]. apply ascii_isdigit_spec in D. vm_compute in D. by destruct D as [D _]; apply D.
Qed.

(** The last separator splits a key. *)
Lemma last_separator_inj (a a' b b' : str) :
  key_separator ∉ b -> key_separator ∉ b' -> a ++ key_separator :: b = a' ++ key_separator :: b' ->
  a = a' /\ b = b'.
Proof.
  intros N N'. revert a'. induction a as [|x a IH]; intros [|x' a'] E; simplify_eq/=; [done| | |].
  - destruct N. set_solver.
  - destruct N'. set_solver.
  - destruct (IH a' ltac:(done)) as [-> ->]. done.
Qed.

Lemma rn_key_inj fp fp' z z' : rn_key fp z = rn_key fp' z' -> fp = fp' /\ z = z'.
Proof.
  unfold rn_key. cbn [app]. intros E.
  apply last_separator_inj in E as [-> E]; [|apply StrInt_no_separator..]. split; [done|by apply StrInt_inj].
Qed.

(** The index finds the row of a partition by its number. *)
Lemma by_partition_rn_spec n fp z :
  n <= length input_rows ->
  match by_partition_rn layout n !! rn_key fp z with
  | Some r => r < n /\ fp_at (partition_fps layout) r = fp /\ number_at layout r = z
  | None => forall r, r < n -> fp_at (partition_fps layout) r = fp -> number_at layout r <> z
  end.
Proof.
  unfold by_partition_rn. induction n as [|n IH]; intros L.
  { cbn [seq fold_left]. rewrite lookup_empty. intros r ?. lia. }
  rewrite seq_S, fold_left_app. cbn [fold_left]. rewrite Nat.add_0_l.
  destruct (decide (rn_key (fp_at (partition_fps layout) n) (number_at layout n) = rn_key fp z)) as [E|E].
  - rewrite E, lookup_insert_eq. apply rn_key_inj in E as [<- <-]. split; [lia|done].
  - rewrite lookup_insert_ne by done. specialize (IH ltac:(lia)).
    destruct (_ !! rn_key fp z) as [r|].
    + destruct IH as (? & ? & ?). split; [lia|done].
    + intros r Lr F N. destruct (decide (r = n)) as [->|]; [subst; done|]. apply (IH r); [lia|done|done].
Qed.

Lemma by_partition_rn_position fp (j : Z) :
  by_partition_rn layout (length input_rows) !! rn_key fp (j + 1) =
  if (j <? 0)%Z then None else partition_rows fp !! Z.to_nat j.
Proof.
  pose proof (by_partition_rn_spec (length input_rows) fp (j + 1) ltac:(lia)) as B.
  destruct (_ !! rn_key fp (j + 1)) as [r|].
  - destruct B as (L & F & N).
    assert (r ∈ partition_rows fp) as I by by apply partition_rows_elem.
    apply list_elem_of_lookup in I as [i I]. pose proof (partition_number_position _ _ _ I).
    destruct (Z.ltb_spec j 0); [lia|]. replace (Z.to_nat j) with i by lia. done.
  - destruct (Z.ltb_spec j 0); [done|].
    destruct (partition_rows fp !! Z.to_nat j) as [r|] eqn:E; [|done].
    assert (r ∈ partition_rows fp) as I by by eapply list_elem_of_lookup_2.
    apply partition_rows_elem in I as [L F]. apply partition_number_position in E.
    exfalso. apply (B r L F). lia.
Qed.

(** LAG and LEAD read their argument on the row that is the offset before,
    respectively after, the current row in the order of its partition; past
    either end of the partition they return the default argument, or a null of
    the argument's type. *)
Theorem lag_lead_rows afn arg args direction offset dflt ctx values fp i r :
  afn_args afn = arg :: args ->
  lag_offset (arg :: args) (first_row_ctx ctx input_rows) = Ok offset ->
  lag_default (arg :: args) (first_row_ctx ctx input_rows) = Ok dflt ->
  ApplyAnalyticLagLead afn layout input_rows ctx direction = Ok values ->
  partition_rows fp !! i = Some r -> in_int64 (Z.of_nat (S i) + direction * offset) ->
  exists v, values !! r = Some v /\
    let j := (Z.of_nat i + direction * offset)%Z in
    match (if (j <? 0)%Z then None else partition_rows fp !! Z.to_nat j) with
    | Some target => EvalExpr arg (set_columns ctx (row_at input_rows target)) = Ok v
    | None => v = match dflt, expr_type arg with
                  | Some d, _ => d
                  | None, Some t => SNull t
                  | None, None => NullInt64
                  end
    end.
Proof.
  intros A Eo Ed E I R. unfold ApplyAnalyticLagLead in E. rewrite A in E.
  destruct (is_null_expr arg); [done|]. rewrite Eo, Ed in E.
  assert (r ∈ partition_rows fp) as M by by eapply list_elem_of_lookup_2.
  apply partition_rows_elem in M as [L F]. apply mapM_Forall2 in E.
  destruct (Forall2_lookup_l _ _ _ r r E) as (v & V & Ev); [by rewrite lookup_seq_lt by done|].
  exists v. split; [exact V|]. cbn zeta. cbn beta in Ev.
  change (map (fun row => PartitionFingerprint (PartitionKeysForRow group row)) input_rows)
    with (partition_fps layout) in Ev.
  rewrite F, (partition_number_position _ _ _ I), (wrap_int64_id _ R) in Ev.
  replace (Z.of_nat (S i) + direction * offset)%Z with (Z.of_nat i + direction * offset + 1)%Z in Ev by lia.
  rewrite by_partition_rn_position in Ev. destruct (if (_ <? 0)%Z then _ else _); [done|]. by injection Ev as <-.
Qed.

(** ** Frames *)

#[local] Instance swo_numbered : StrictWeakOrder (numbered_before layout).
Proof.
  apply (swo_ext (lex (fun a b => str_ltb (fp_at (partition_fps layout) a) (fp_at (partition_fps layout) b))
                      (fun a b => (number_at layout a <? number_at layout b)%Z))).
  2: { apply swo_lex; [apply (swo_key _ str_ltb)|apply (swo_key _ Z.ltb)]. }
  intros x y. unfold numbered_before, lex. case_bool_decide as E; cbn [negb].
  - rewrite E, (swo_irrefl str_ltb). done.
  - destruct (str_ltb _ _) eqn:L1; [done|]. destruct (str_ltb (fp_at _ y) _) eqn:L2; [done|].
    destruct E. by apply str_ltb_total.
Qed.

Lemma numbered_partition fp :
  List.filter (fun r => bool_decide (fp_at (partition_fps layout) r = fp)) (numbered_order layout)
  = partition_rows fp.
Proof.
  assert (forall l, (forall x, x ∈ l -> x ∈ partition_rows fp) ->
            StronglySorted (not_after (numbered_before layout)) l ->
            StronglySorted (fun a b => number_at layout a <= number_at layout b)%Z l) as K.
  { intros l Sub S. induction S as [|x l S IH F]; constructor; [apply IH; set_solver|].
    rewrite Forall_forall in F |- *. intros y I. specialize (F y I). unfold not_after, numbered_before in F.
    pose proof (proj1 (partition_rows_elem fp x) ltac:(apply Sub; by left)) as [_ Fx].
    pose proof (proj1 (partition_rows_elem fp y) ltac:(apply Sub; by right)) as [_ Fy].
    rewrite Fx, Fy, bool_decide_eq_true_2 in F by done. cbn [negb] in F. apply Z.ltb_ge in F. lia. }
  assert (List.filter (fun r => bool_decide (fp_at (partition_fps layout) r = fp)) (numbered_order layout)
          ≡ₚ partition_rows fp) as P.
  { apply List_filter_Permutation. unfold numbered_order. rewrite stable_sort_Permutation.
    rewrite sorted_indices_Permutation. cbn [row_numbers BuildAnalyticGroupLayout].
    by rewrite length_map, length_seq. }
  apply (StronglySorted_unique_strong (fun a b => number_at layout a <= number_at layout b)%Z); [| | |exact P].
  - intros x y Hx Hy L1 L2. rewrite P in Hx. eapply partition_number_inj; [done|done|lia].
  - apply K; [intros x; by rewrite P|]. apply StronglySorted_filter, stable_sort_sorted. apply _.
  - assert (forall l n, map (number_at layout) l = map Z.of_nat (seq n (length l)) ->
              StronglySorted (fun a b => number_at layout a <= number_at layout b)%Z l) as Inc.
    { induction l as [|x l IH]; intros n E; constructor; cbn in E; injection E as Ex E; [by eapply IH|].
      rewrite Forall_forall. intros y [i I]%list_elem_of_lookup.
      assert (map (number_at layout) l !! i = Some (number_at layout y)) as Q by by rewrite list_lookup_fmap, I.
      rewrite E, list_lookup_fmap in Q. destruct (seq (S n) (length l) !! i) eqn:Sq; [|done].
      apply lookup_seq in Sq as [-> _]. injection Q as Q. lia. }
    eapply Inc, partition_numbers.
Qed.

(** The order the frames are cut from is the partition's. *)
Lemma partition_order_lookup fp r :
  r ∈ partition_rows fp -> BuildPartitionOrder layout !! fp = Some (partition_rows fp).
Proof.
  intros I. unfold BuildPartitionOrder. rewrite fold_append_lookup, lookup_empty, numbered_partition.
  destruct (partition_rows fp); [by apply elem_of_nil in I|done].
Qed.

Lemma partition_rows_NoDup fp : NoDup (partition_rows fp).
Proof. apply NoDup_ListNoDup, List.NoDup_filter, NoDup_ListNoDup, stable_sort_NoDup, NoDup_seq. Qed.

Lemma position_of_lookup fp i r : partition_rows fp !! i = Some r -> position_of (partition_rows fp) r = i.
Proof.
  intros L. unfold position_of. destruct (list_find _ _) as [[j x]|] eqn:E.
  - apply list_find_Some in E as (E & -> & _). eapply NoDup_lookup; [apply (partition_rows_NoDup fp)|done|done].
  - apply list_find_None in E. rewrite Forall_forall in E. exfalso.
    by apply (E r); [eapply list_elem_of_lookup_2|].
Qed.

(** The rows whose number is between two bounds are consecutive. *)
Lemma numbers_between l n (s e : Z) :
  map (number_at layout) l = map Z.of_nat (seq n (length l)) ->
  List.filter (fun r => (s <=? number_at layout r) && (number_at layout r <=? e))%Z l =
  take (Z.to_nat (e - Z.max s (Z.of_nat n) + 1)) (drop (Z.to_nat (s - Z.of_nat n)) l).
Proof.
  revert n. induction l as [|r l IH]; intros n E; [by rewrite drop_nil, take_nil|].
  cbn in E. injection E as Er E. cbn [List.filter]. rewrite Er, (IH (S n) E).
  destruct (Z.leb_spec s (Z.of_nat n)) as [Ls|Ls]; cbn [andb].
  - replace (Z.to_nat (s - Z.of_nat (S n))) with 0 by lia. replace (Z.to_nat (s - Z.of_nat n)) with 0 by lia.
    rewrite !drop_0. destruct (Z.leb_spec (Z.of_nat n) e).
    + replace (Z.to_nat (e - Z.max s (Z.of_nat n) + 1))
        with (S (Z.to_nat (e - Z.max s (Z.of_nat (S n)) + 1))) by lia. done.
    + replace (Z.to_nat (e - Z.max s (Z.of_nat n) + 1)) with 0 by lia.
      by replace (Z.to_nat (e - Z.max s (Z.of_nat (S n)) + 1)) with 0 by lia.
  - replace (Z.to_nat (s - Z.of_nat n)) with (S (Z.to_nat (s - Z.of_nat (S n)))) by lia.
    by replace (Z.max s (Z.of_nat (S n))) with (Z.max s (Z.of_nat n)) by lia.
Qed.

(** The rows of a partition at the positions from [lo] to [hi]. *)
Definition rows_between (fp : str) (lo hi : Z) : list nat :=
  take (Z.to_nat (hi - Z.max 0 lo + 1)) (drop (Z.to_nat lo) (partition_rows fp)).

Lemma rows_frame_between afn wf items fp i r ctx s e :
  window_frame afn = Some wf -> frame_unit wf = ROWS -> items <> [] ->
  partition_rows fp !! i = Some r ->
  let row_ctx := set_columns ctx (row_at input_rows r) in
  let size := Z.of_nat (length (partition_rows fp)) in
  RowsBoundRn (start_expr wf) (Z.of_nat (S i)) size row_ctx = Ok s ->
  RowsBoundRn (end_expr wf) (Z.of_nat (S i)) size row_ctx = Ok e ->
  ResolveWindowFrameRows afn items layout input_rows (BuildPartitionOrder layout) r ctx
  = Ok (rows_between fp (s - 1) (e - 1)).
Proof.
  intros W U NE L. cbn zeta. intros Es Ee. unfold ResolveWindowFrameRows.
  assert (r ∈ partition_rows fp) as I by by eapply list_elem_of_lookup_2.
  destruct (proj1 (partition_rows_elem fp r) I) as [_ F]. rewrite F, (partition_order_lookup fp r I).
  rewrite (position_of_lookup _ _ _ L), L, W. cbn [default].
  destruct (partition_rows fp) as [|x xs] eqn:P; [by apply elem_of_nil in I|]. rewrite <- P in *.
  destruct items as [|item items]; [done|]. rewrite U. cbn [bool_decide decide].
  rewrite bool_decide_eq_true_2 by done. unfold ResolveRowsFrame, id.
  rewrite (partition_number_position _ _ _ L), Es. cbn [mbind outcome_bind].
  rewrite Ee. cbn [mbind outcome_bind]. f_equal. rewrite (numbers_between _ 1) by apply partition_numbers.
  unfold rows_between. change (Z.of_nat 1) with 1%Z.
  by replace (e - 1 - Z.max 0 (s - 1) + 1)%Z with (e - Z.max s 1 + 1)%Z by lia.
Qed.

(** An offset bound with the value of its expression. *)
Definition offset_bound (bound : option FrameBound) (bt : BoundaryType) (n : Z) (ctx : EvalContext)
    : Prop :=
  exists b, bound = Some b /\ boundary_type b = bt /\ EvalFrameOffsetInt64 (bound_expr b) ctx = Ok n.

Lemma RowsBound_preceding bound n ctx rn size :
  offset_bound bound OFFSET_PRECEDING n ctx -> in_int64 (rn - n) ->
  RowsBoundRn bound rn size ctx = Ok (Z.max 1 (rn - n)).
Proof.
  intros (b & -> & T & E) R. unfold RowsBoundRn. rewrite T, E. cbn. rewrite (wrap_int64_id _ R). f_equal.
  destruct (Z.ltb_spec (rn - n) 1); lia.
Qed.

Lemma RowsBound_following bound n ctx rn size :
  offset_bound bound OFFSET_FOLLOWING n ctx -> in_int64 (rn + n) ->
  RowsBoundRn bound rn size ctx = Ok (Z.min size (rn + n)).
Proof.
  intros (b & -> & T & E) R. unfold RowsBoundRn. rewrite T, E. cbn. rewrite (wrap_int64_id _ R). f_equal.
  destruct (Z.ltb_spec size (rn + n)); lia.
Qed.

(** The frame ROWS BETWEEN [a] PRECEDING AND [b] FOLLOWING of the row at a
    position holds the rows of its partition from [a] positions before to [b]
    after, cut at the ends of the partition.  A frame that ends [b] PRECEDING is
    cut at the first row too: where it should be empty, before row [b], it holds
    the first row. *)
Theorem rows_frame afn wf items fp i r ctx a b :
  window_frame afn = Some wf -> frame_unit wf = ROWS -> items <> [] ->
  partition_rows fp !! i = Some r -> (Z.of_nat (length (partition_rows fp)) < 2 ^ 62)%Z ->
  (0 <= a < 2 ^ 62)%Z -> (0 <= b < 2 ^ 62)%Z ->
  let row_ctx := set_columns ctx (row_at input_rows r) in
  let frame := ResolveWindowFrameRows afn items layout input_rows (BuildPartitionOrder layout) r ctx in
  (offset_bound (start_expr wf) OFFSET_PRECEDING a row_ctx ->
   offset_bound (end_expr wf) OFFSET_FOLLOWING b row_ctx ->
   frame = Ok (rows_between fp (Z.of_nat i - a) (Z.of_nat i + b))) /\
  (offset_bound (start_expr wf) OFFSET_PRECEDING a row_ctx ->
   offset_bound (end_expr wf) OFFSET_PRECEDING b row_ctx -> (Z.of_nat i < b <= a)%Z ->
   exists first, head (partition_rows fp) = Some first /\ frame = Ok [first]).
Proof.
  intros W U NE L Sz Ha Hb row_ctx frame. pose proof (lookup_lt_Some _ _ _ L) as Lt.
  assert (in_int64 (Z.of_nat (S i) - a)) as Ra by (unfold in_int64, int64_min, int64_max; lia).
  assert (in_int64 (Z.of_nat (S i) - b)) as Rb by (unfold in_int64, int64_min, int64_max; lia).
  assert (in_int64 (Z.of_nat (S i) + b)) as Rc by (unfold in_int64, int64_min, int64_max; lia).
  split.
  - intros Bs Be. unfold frame. erewrite (rows_frame_between afn wf items fp i r ctx) by
      first [done | by apply RowsBound_preceding | by apply RowsBound_following].
    f_equal. unfold rows_between. set (l := partition_rows fp) in *.
    replace (Z.to_nat (Z.max 1 (Z.of_nat (S i) - a) - 1)) with (Z.to_nat (Z.of_nat i - a)) by lia.
    destruct (Z.le_gt_cases (Z.of_nat (length l)) (Z.of_nat (S i) + b)).
    + rewrite !take_ge; [done| |]; rewrite length_drop; lia.
    + f_equal. lia.
  - intros Bs Be Hi. unfold frame. erewrite (rows_frame_between afn wf items fp i r ctx) by
      first [done | by apply RowsBound_preceding].
    destruct (partition_rows fp) as [|x xs] eqn:P; [done|]. exists x. split; [done|].
    unfold rows_between. rewrite P. replace (Z.to_nat (Z.max 1 (Z.of_nat (S i) - a) - 1)) with 0 by lia.
    cbn [drop]. replace (Z.to_nat (Z.max 1 (Z.of_nat (S i) - b) - 1
      - Z.max 0 (Z.max 1 (Z.of_nat (S i) - a) - 1) + 1)) with 1 by lia. done.
Qed.
End numbering.
