(* ===== verification/Scans.v ===== *)
(** * Scans: materializing a resolved scan

    Models [scan_eval_scan_impl.cc] (filters, ORDER BY, LIMIT, WITH and the switch
    [MaterializeScanImpl]), [scan_eval_materialize.cc] and its helpers
    (projections, tables, array scans, lateral joins),
    [scan_eval_materialize_relation_argument.cc] and [scan_eval.cc] (the value of a
    subquery).

    The evaluation of a scan calls [EvalExpr], and an expression may hold a
    subquery: [EvalSubqueryExpr] is the member of [ExecutorParts] that the
    expressions of a scan call, and [SubqueryValue] is its definition over
    [MaterializeScanImpl].  [TiedParts] says that the first is the second. *)

From S2P Require Import Prelude Order Absl AbslReference Storage SemanticError FrameStack.
From S2P Require Import SqlValue GoogleSqlReference Arithmetic Operators MathFuncs Casts EvalExpr.
From S2P Require Import EvalProps Rows Joins SetOps Unnest AggFuncs Aggregates Analytic.

Section scans.
Context `{AbslText, AbslDouble, GoogleSqlOps, ExecutorNodes}.
Context `{!CastLibrary, !ExecutorParts, !ResolvedAst, !AggregateParts}.

(** ** Projections and filters *)

(** The context of an input row: its columns over the outer ones, and the names
    its scan gives them under the outer ones. *)
Definition input_row_ctx (ctx : EvalContext) (input_scan : Scan) (row : Row) : EvalContext :=
  let m := overlay row (columns ctx) in
  with_columns ctx m (override_names (PopulateColumnNameBindings input_scan m) ctx).

Fixpoint project_columns (exprs : gmap Z ResolvedExpr) (row_ctx : EvalContext) (m : Row)
    (cols : list ResolvedColumn) (row : Row) : StatusOr Row :=
  match cols with
  | [] => Ok row
  | col :: cols =>
      v ← match exprs !! column_id col with
          | Some e => EvalExpr e row_ctx
          | None =>
              match m !! column_id col with
              | Some v => Ok v
              | None => Err (InternalError ($"semantic: ProjectScan missing binding for column '"
                               ++ column_name col ++ $"'"))
              end
          end;
      project_columns exprs row_ctx m cols (emplace (column_id col) v row)
  end.

Definition ProjectOneInputRow (column_list : list ResolvedColumn) (exprs : gmap Z ResolvedExpr)
    (input_scan : Scan) (ctx : EvalContext) (input : Row) : StatusOr Row :=
  let m := overlay input (columns ctx) in
  project_columns exprs (input_row_ctx ctx input_scan input) m column_list m.

Fixpoint expr_by_column_id (expr_list : list ComputedColumn) (m : gmap Z ResolvedExpr)
    : StatusOr (gmap Z ResolvedExpr) :=
  match expr_list with
  | [] => Ok m
  | (col, e) :: expr_list =>
      if is_null_expr e then Err (InternalError $"semantic: ResolvedComputedColumn has null expr")
      else expr_by_column_id expr_list (<[column_id col := e]> m)
  end.

Definition ProjectRows (column_list : list ResolvedColumn) (expr_list : list ComputedColumn)
    (input_scan : Scan) (input_rows : list Row) (ctx : EvalContext) : StatusOr (list Row) :=
  exprs ← expr_by_column_id expr_list ∅;
  outcome_mapM (ProjectOneInputRow column_list exprs input_scan ctx) input_rows.

(** [MaterializeFilterScan] on the materialized input. *)
Fixpoint FilterRows (input_scan : Scan) (filter_expr : ResolvedExpr) (ctx : EvalContext)
    (rows : list Row) : StatusOr (list Row) :=
  match rows with
  | [] => Ok []
  | row :: rows =>
      keep ← EvalBoolExpr filter_expr (input_row_ctx ctx input_scan row);
      rest ← FilterRows input_scan filter_expr ctx rows;
      Ok (if keep : bool then row :: rest else rest)
  end.

(** ** ORDER BY and LIMIT *)

Definition CompareOrderByItemValues (item : OrderByItem) (va vb : Value) : bool :=
  if ValueEqual va vb then false
  else if is_null va || is_null vb then
    if is_null va && is_null vb then false
    else if is_null va then nulls_first item else negb (nulls_first item)
  else match collation item, va, vb with
  | Some c, SString a, SString b =>
      if bool_decide (c = $"und:ci") then
        if is_descending item then negb (str_ltb (AsciiStrToLower a) (AsciiStrToLower b))
        else str_ltb (AsciiStrToLower a) (AsciiStrToLower b)
      else if is_descending item then negb (ValueLess va vb) else ValueLess va vb
  | _, _, _ => if is_descending item then negb (ValueLess va vb) else ValueLess va vb
  end.

Fixpoint OrderByScanRowLess (items : list OrderByItem) (a b : Row) : bool :=
  match items with
  | [] => false
  | item :: items =>
      match item_column item with
      | None => OrderByScanRowLess items a b
      | Some id =>
          let va := LookupColumnValue a id in
          let vb := LookupColumnValue b id in
          if ValueEqual va vb then OrderByScanRowLess items a b
          else CompareOrderByItemValues item va vb
      end
  end.

(** [MaterializeOrderByScanRows] on the materialized input. *)
Definition OrderByRows (items : list OrderByItem) (rows : list Row) : list Row :=
  stable_sort (OrderByScanRowLess items) rows.

Definition EvalLimitOffsetInt64 (expr : ResolvedExpr) (ctx : EvalContext) (role : str) : StatusOr Z :=
  if is_null_expr expr
  then Err (InvalidArgumentError ($"semantic: LIMIT/OFFSET missing " ++ role ++ $" expression"))
  else
    v ← EvalExpr expr ctx;
    if is_null v then Err (rows_error ($"semantic: LIMIT/OFFSET " ++ role ++ $" must not be NULL"))
    else if negb (is_kind v TYPE_INT64)
    then Err (rows_error ($"semantic: LIMIT/OFFSET " ++ role ++ $" must be INT64"))
    else Ok (int64_value v).

(** [MaterializeLimitOffsetScan] on the materialized input; the limit is not
    evaluated when the offset passes the last row. *)
Definition LimitOffsetRows (limit offset : ResolvedExpr) (rows : list Row) (ctx : EvalContext)
    : StatusOr (list Row) :=
  start ← (if is_null_expr offset then Ok 0%Z
           else o ← EvalLimitOffsetInt64 offset ctx $"offset";
                if (o <? 0)%Z then Err (rows_error $"semantic: OFFSET must be non-negative") else Ok o);
  if (Z.of_nat (length rows) <=? start)%Z then Ok []
  else
    end_ ← (if is_null_expr limit then Ok (Z.of_nat (length rows))
            else l ← EvalLimitOffsetInt64 limit ctx $"limit";
                 if (l <? 0)%Z then Err (rows_error $"semantic: LIMIT must be non-negative")
                 else Ok (Z.min (Z.of_nat (length rows)) (start + l)));
    Ok (take (Z.to_nat (end_ - start)) (drop (Z.to_nat start) rows)).

(** ** Leaves *)

Definition bind_columns (cols : list ResolvedColumn) (values : list Value) : Row :=
  fold_left (fun m (cv : ResolvedColumn * Value) => emplace (column_id cv.1) cv.2 m) (zip cols values) ∅.

Definition MaterializeTableScan (cols : list ResolvedColumn) (table : option TableNode)
    (column_index_list : list Z) : StatusOr (list Row) :=
  match table with
  | None => Err (InternalError $"semantic: TableScan has null table")
  | Some t =>
      match EvaluatorTableRows t with
      | None => Err (not_implemented ($"semantic: table '" ++ table_FullName t
                  ++ $"' is not iterable via SimpleTable"))
      | Some read =>
          if negb (length cols =? length column_index_list)
          then Err (InternalError $"semantic: TableScan column_list / column_index_list size mismatch")
          else rows ← read column_index_list; Ok (map (bind_columns cols) rows)
      end
  end.

Definition MaterializeSingleRowScan (cols : list ResolvedColumn) : list Row :=
  [bind_columns cols (map (fun c => null_value (column_type c)) cols)].

(** A stored row under the column ids of a reference. *)
Fixpoint remap_stored (missing : str) (src_ids : list Z) (dst : list ResolvedColumn) (stored row : Row)
    : StatusOr Row :=
  match src_ids, dst with
  | src_id :: src_ids, col :: dst =>
      match stored !! src_id with
      | None => Err (InternalError (missing ++ StrInt src_id))
      | Some v => remap_stored missing src_ids dst stored (emplace (column_id col) v row)
      end
  | _, _ => Ok row
  end.

Definition MaterializeWithRefScan (cols : list ResolvedColumn) (with_query_name : str)
    (ctx : EvalContext) : StatusOr (list Row) :=
  match with_tables ctx with
  | None => Err (InternalError $"semantic: WithRefScan without active WithScan bindings")
  | Some tables =>
      match tables !! with_query_name with
      | None => Err (rows_error ($"semantic: unknown CTE '" ++ with_query_name ++ $"'"))
      | Some cte =>
          if negb (length (cte_column_ids cte) =? length cols)
          then Err (InternalError $"semantic: WithRefScan column count does not match CTE")
          else outcome_mapM (fun r => remap_stored $"semantic: CTE row missing column_id="
                                        (cte_column_ids cte) cols r ∅) (cte_rows cte)
      end
  end.

Definition MaterializeRelationArgumentScan (cols : list ResolvedColumn) (name : str)
    (ctx : EvalContext) : StatusOr (list Row) :=
  match relation_arguments ctx with
  | None => Err (InternalError $"semantic: RelationArgumentScan without active TVF relation bindings")
  | Some tables =>
      match tables !! AsciiStrToLower name with
      | None => Err (rows_error ($"semantic: unknown TVF relation argument '" ++ name ++ $"'"))
      | Some bound =>
          if negb (length (cte_column_ids bound) =? length cols)
          then Err (InternalError $"semantic: RelationArgumentScan column count does not match bound relation")
          else outcome_mapM (fun r => remap_stored $"semantic: TVF relation row missing column_id="
                                        (cte_column_ids bound) cols r ∅) (cte_rows bound)
      end
  end.

(** ** Array scans over rows *)

Section array_rows.
Context (cols : list ResolvedColumn) (input : Scan) (array_expr_list : list ResolvedExpr)
  (element_columns : list ResolvedColumn) (offset : option ResolvedColumn)
  (join_expr : ResolvedExpr) (is_outer : bool) (zip_mode : ResolvedExpr).

Definition array_rows_of (ctx : EvalContext) : StatusOr (list Row) :=
  EvaluateArrayScan cols element_columns offset is_outer input array_expr_list join_expr zip_mode ctx.

Definition left_frame_ctx (ctx : EvalContext) (lrow : Row) : EvalContext :=
  row_ctx ctx (MakeOuterRowFrame ctx lrow input).

(** The row of an outer UNNEST without a match. *)
Definition null_array_row (lrow : Row) : Row :=
  let m := fold_left (fun m c => emplace (column_id c) (null_value (column_type c)) m) element_columns lrow in
  match offset with Some c => emplace (column_id c) NullInt64 m | None => m end.

Fixpoint MaterializeArrayScanWithJoinExpr (left_rows : list Row) (ctx : EvalContext)
    : StatusOr (list Row) :=
  match left_rows with
  | [] => Ok []
  | lrow :: left_rows =>
      array_rows ← array_rows_of (left_frame_ctx ctx lrow);
      matches ← matching_rows (fun m => EvalBoolExpr join_expr (set_columns ctx m)) lrow array_rows;
      rest ← MaterializeArrayScanWithJoinExpr left_rows ctx;
      Ok (match matches with [] => if is_outer then [null_array_row lrow] else [] | _ => matches end ++ rest)
  end.

Fixpoint MaterializeArrayScanFromLeftInput (left_rows : list Row) (ctx : EvalContext)
    : StatusOr (list Row) :=
  match left_rows with
  | [] => Ok []
  | lrow :: left_rows =>
      array_rows ← array_rows_of (left_frame_ctx ctx lrow);
      rest ← MaterializeArrayScanFromLeftInput left_rows ctx;
      Ok (map (fun arow => lrow ∪ arow) array_rows ++ rest)
  end.

Definition uncorrelated_array_rows (ctx : EvalContext) : StatusOr (list Row) :=
  rows ← array_rows_of ctx;
  Ok (map (fun row => InjectArrayScanInternalColumns cols element_columns offset
                        (AliasUnnestPublicColumnIds cols element_columns (length array_expr_list) row)) rows).
End array_rows.

(** ** Joins with a lateral right side *)

Section lateral.
Context (materialize_right : EvalContext -> StatusOr (list Row)).
Context (join_type : JoinType) (left right : Scan) (join_expr : ResolvedExpr).

Fixpoint MaterializeLateralJoinRows (left_rows : list Row) (ctx : EvalContext) : StatusOr (list Row) :=
  match left_rows with
  | [] => Ok []
  | lrow :: left_rows =>
      let frame := BindCorrelatedColumnRefs right (MakeOuterRowFrame ctx lrow left) in
      right_rows ← materialize_right (row_ctx ctx frame);
      matches ← matching_rows
                  (fun m => ShouldIncludeJoinRow join_expr (is_cross join_type join_expr) m ctx)
                  lrow right_rows;
      rest ← MaterializeLateralJoinRows left_rows ctx;
      Ok (join_group (bool_decide (join_type = LEFT)) (StripBarrierScans right) lrow matches ++ rest)
  end.
End lateral.

(** The table of a WITH entry.  The context of an entry has the tables of the
    entries before it, and no table of an outer WITH. *)
Definition cte_table (sub : Scan) (rows : list Row) : CteTable :=
  mkCteTable (map column_id (column_list sub)) rows.

(** ** The switch *)

Fixpoint MaterializeScanImpl (scan : Scan) (ctx : EvalContext) {struct scan} : StatusOr (list Row) :=
  let fix with_entries (entries : list (str * Scan)) (tables : gmap str CteTable)
      : StatusOr (gmap str CteTable) :=
    match entries with
    | [] => Ok tables
    | (name, sub) :: entries =>
        if is_null_scan sub then Err (InternalError $"semantic: malformed WithEntry")
        else
          rows ← MaterializeScanImpl sub (set_with_tables ctx tables);
          with_entries entries (<[name := cte_table sub rows]> tables)
    end in
  let fix set_arms (cols : list ResolvedColumn) (items : list Scan) : StatusOr (list (list Row)) :=
    match items with
    | [] => Ok []
    | item :: items =>
        if is_null_scan item then Err (InternalError $"semantic: SetOperationItem has null scan")
        else
          rows ← MaterializeScanImpl item ctx;
          arms ← set_arms cols items;
          Ok (map (fun row => RemapSetOperationRow cols row item) rows :: arms)
    end in
  match scan with
  | NullScan => Err (InvalidArgumentError $"semantic: null scan")
  | BarrierScan _ input => MaterializeScanImpl input ctx
  | TableScan cols table index_list => MaterializeTableScan cols table index_list
  | SingleRowScan cols => Ok (MaterializeSingleRowScan cols)
  | ArrayScan cols input exprs elements offset join_expr is_outer zip_mode =>
      if negb (is_null_expr join_expr) && negb (is_null_scan input) then
        left_rows ← MaterializeScanImpl input ctx;
        MaterializeArrayScanWithJoinExpr cols input exprs elements offset join_expr is_outer zip_mode
          left_rows ctx
      else if negb (is_null_scan input) && negb (is_single_row input) then
        left_rows ← MaterializeScanImpl input ctx;
        MaterializeArrayScanFromLeftInput cols input exprs elements offset join_expr is_outer zip_mode
          left_rows ctx
      else uncorrelated_array_rows cols input exprs elements offset join_expr is_outer zip_mode ctx
  | ProjectScan cols exprs input =>
      rows ← MaterializeScanImpl input ctx; ProjectRows cols exprs input rows ctx
  | FilterScan _ input filter_expr =>
      rows ← MaterializeScanImpl input ctx; FilterRows input filter_expr ctx rows
  | OrderByScan _ items input =>
      rows ← MaterializeScanImpl input ctx; Ok (OrderByRows items rows)
  | WithScan _ entries query =>
      tables ← with_entries entries ∅; MaterializeScanImpl query (set_with_tables ctx tables)
  | WithRefScan cols name => MaterializeWithRefScan cols name ctx
  | RelationArgumentScan cols name => MaterializeRelationArgumentScan cols name ctx
  | JoinScan _ join_type is_lateral lhs rhs join_expr =>
      if is_lateral then
        left_rows ← MaterializeScanImpl lhs ctx;
        MaterializeLateralJoinRows (MaterializeScanImpl rhs) join_type lhs rhs join_expr left_rows ctx
      else if bool_decide (join_type = RIGHT) || bool_decide (join_type = FULL)
      then Err (not_implemented $"semantic: RIGHT/FULL JOIN not yet implemented")
      else
        left_rows ← MaterializeScanImpl lhs ctx;
        right_rows ← MaterializeScanImpl rhs ctx;
        JoinRows join_type lhs rhs join_expr left_rows right_rows ctx
  | SetOperationScan cols op items => arms ← set_arms cols items; SetOperationRows cols op arms
  | AggregateScan _ grouping_sets group_by aggregates input =>
      rows ← MaterializeScanImpl input ctx;
      AggregateRows grouping_sets group_by aggregates input rows ctx
  | AnalyticScan _ groups input => rows ← MaterializeScanImpl input ctx; AnalyticRows groups rows ctx
  | LimitOffsetScan _ input limit offset =>
      rows ← MaterializeScanImpl input ctx; LimitOffsetRows limit offset rows ctx
  | OtherScan _ kind_string => MaterializeOtherScan kind_string ctx
  end.

(** ** Subqueries *)

(** A frame around the outer row, with the parameters of the subquery and its
    column references bound; a parameter's own id is bound before its name is
    looked up. *)
Definition bind_parameter (ctx : EvalContext) (outer : Row) (frame : OuterRowFrame)
    (outer_col : ResolvedColumn) : OuterRowFrame :=
  let bind v := mkOuterRow (emplace (column_id outer_col) v (merged frame))
                  (<[column_name outer_col := v]> (<[qualified_name outer_col := v]> (by_name_ frame))) in
  match outer !! column_id outer_col with
  | Some v => bind v
  | None =>
      match columns_by_name ctx with
      | None => frame
      | Some names =>
          match names !! qualified_name outer_col, names !! column_name outer_col with
          | Some v, _ | None, Some v => bind v
          | None, None => frame
          end
      end
  end.

Definition BindCorrelatedSubqueryColumns (node : SubqueryExpr) (ctx : EvalContext) : option Row :=
  match columns ctx with
  | None => None
  | Some outer =>
      let frame := fold_left (bind_parameter ctx outer) (parameter_list node)
                     (MakeOuterRowFrame ctx outer NullScan) in
      let frame := mkOuterRow (merged frame ∪ outer) (by_name_ frame) in
      Some (merged (BindCorrelatedColumnRefs (subquery node) frame))
  end.

(** The columns of the projection whose rows a scan returns. *)
Fixpoint FindOutputProjectScan (scan : Scan) : option (list ResolvedColumn * list ComputedColumn) :=
  let fix first_arm (items : list Scan) : option (list ResolvedColumn * list ComputedColumn) :=
    match items with
    | [] => None
    | item :: items =>
        match FindOutputProjectScan item with Some p => Some p | None => first_arm items end
    end in
  match scan with
  | BarrierScan _ input | OrderByScan _ _ input | FilterScan _ input _ | LimitOffsetScan _ input _ _
  | ArrayScan _ input _ _ _ _ _ _ => FindOutputProjectScan input
  | ProjectScan cols exprs _ => Some (cols, exprs)
  | WithScan _ _ query => FindOutputProjectScan query
  | JoinScan _ _ _ lhs rhs _ =>
      match FindOutputProjectScan lhs with Some p => Some p | None => FindOutputProjectScan rhs end
  | SetOperationScan _ _ items => first_arm items
  | _ => None
  end.

Definition ResolveSubqueryValueColumnId (subquery : Scan) : Z :=
  match FindOutputProjectScan subquery with
  | Some (_, (col, _) :: _) => column_id col
  | Some (col :: _, []) => column_id col
  | _ => match column_list (StripBarrierScans subquery) with
         | col :: _ => column_id col
         | [] => -1
         end
  end.

Definition SubqueryValueFromRow (value_col_id : Z) (row : Row) : StatusOr Value :=
  match (if (0 <=? value_col_id)%Z then row !! value_col_id else None) with
  | Some v => Ok v
  | None =>
      match first_binding row with
      | Some v => Ok v
      | None => Err (InternalError $"semantic: subquery row missing projected column")
      end
  end.

Definition EvalExistsSubquery (rows : list Row) : Value := SBool (negb (length rows =? 0)).

Definition EvalScalarSubquery (rows : list Row) (value_col_id : Z) (type : option SqlType)
    : StatusOr Value :=
  match rows with
  | [] => Ok match type with Some (TArray elem) => SArray elem [] | t => null_value t end
  | [row] => SubqueryValueFromRow value_col_id row
  | _ => Err (rows_error $"semantic: scalar subquery returned more than one row")
  end.

Definition EvalArraySubquery (rows : list Row) (value_col_id : Z) (type : option SqlType)
    : StatusOr Value :=
  match type with
  | Some (TArray elem) => SArray elem <$> outcome_mapM (SubqueryValueFromRow value_col_id) rows
  | _ => Err (InternalError $"semantic: ARRAY subquery missing ARRAY type")
  end.

Fixpoint in_rows (lhs : Value) (value_col_id : Z) (rows : list Row) : StatusOr Value :=
  match rows with
  | [] => Ok (SBool false)
  | row :: rows =>
      rv ← SubqueryValueFromRow value_col_id row;
      if is_null rv then in_rows lhs value_col_id rows
      else if Equals lhs rv then Ok (SBool true) else in_rows lhs value_col_id rows
  end.

Definition EvalInSubquery (in_expr : ResolvedExpr) (rows : list Row) (value_col_id : Z)
    (ctx : EvalContext) : StatusOr Value :=
  if is_null_expr in_expr then Err (InvalidArgumentError $"semantic: IN subquery missing in_expr")
  else
    lhs ← EvalExpr in_expr ctx;
    if is_null lhs then Ok NullBool else in_rows lhs value_col_id rows.

(** Whether some pattern matched, and whether all did. *)
Fixpoint like_rows (lhs : Value) (value_col_id : Z) (rows : list Row) (any_match all_match : bool)
    : StatusOr (bool * bool) :=
  match rows with
  | [] => Ok (any_match, all_match)
  | row :: rows =>
      pattern ← SubqueryValueFromRow value_col_id row;
      if is_null pattern then like_rows lhs value_col_id rows any_match false
      else
        matched ← DispatchLike $"$like" [lhs; pattern];
        if is_null matched then like_rows lhs value_col_id rows any_match false
        else if bool_value matched then like_rows lhs value_col_id rows true all_match
        else like_rows lhs value_col_id rows any_match false
  end.

Definition like_result (st : SubqueryType) (any_match all_match : bool) : StatusOr Value :=
  match st with
  | LIKE_ANY => Ok (SBool any_match)
  | LIKE_ALL => Ok (SBool all_match)
  | NOT_LIKE_ANY => Ok (SBool (negb any_match))
  | NOT_LIKE_ALL => Ok (SBool (negb all_match))
  | _ => Err (not_implemented $"semantic: LIKE ANY/ALL subquery type")
  end.

Definition EvalLikeAnyAllSubquery (st : SubqueryType) (in_expr : ResolvedExpr) (rows : list Row)
    (value_col_id : Z) (ctx : EvalContext) : StatusOr Value :=
  if is_null_expr in_expr
  then Err (InvalidArgumentError $"semantic: LIKE ANY/ALL subquery missing in_expr")
  else
    lhs ← EvalExpr in_expr ctx;
    if is_null lhs then Ok NullBool
    else match rows, st with
    | [], (LIKE_ANY | NOT_LIKE_ALL) => Ok (SBool false)
    | [], (LIKE_ALL | NOT_LIKE_ANY) => Ok (SBool true)
    | _, _ =>
        '(any_match, all_match) ← like_rows lhs value_col_id rows false true;
        like_result st any_match all_match
    end.

(** [EvalSubqueryExpr] of [scan_eval.cc]. *)
Definition SubqueryValue (node : SubqueryExpr) (ctx : EvalContext) : StatusOr Value :=
  if is_null_scan (subquery node)
  then Err (InvalidArgumentError $"semantic: ResolvedSubqueryExpr has null subquery")
  else
    let outer_bind := default (default ∅ (columns ctx)) (BindCorrelatedSubqueryColumns node ctx) in
    rows ← MaterializeScanImpl (subquery node) (set_columns ctx outer_bind);
    let value_col_id := ResolveSubqueryValueColumnId (subquery node) in
    match subquery_type node with
    | EXISTS => Ok (EvalExistsSubquery rows)
    | SCALAR => EvalScalarSubquery rows value_col_id (sub_type node)
    | ARRAY => EvalArraySubquery rows value_col_id (sub_type node)
    | IN => EvalInSubquery (in_expr node) rows value_col_id ctx
    | (LIKE_ANY | LIKE_ALL | NOT_LIKE_ANY | NOT_LIKE_ALL) as st =>
        EvalLikeAnyAllSubquery st (in_expr node) rows value_col_id ctx
    | OTHER_SUBQUERY => Err (not_implemented $"semantic: subquery type not yet implemented")
    end.

(** The subqueries of the expressions are evaluated by [SubqueryValue]. *)
Class TiedParts : Prop :=
  subquery_tied node ctx : EvalSubqueryExpr node ctx = SubqueryValue (subquery_node node) ctx.
End scans.
