(* ===== verification/ScanProps.v ===== *)
(** * ScanProps: the rows of a scan bind its columns

    Every row a scan materializes binds the columns the analyzer announces for
    the scan.  [wf_scan] is the condition on the tree: a scan announces columns it
    computes or columns of its input, a table hands out a value per column, and a
    scan of another kind (a sample, a table function, a pattern match) binds the
    columns it announces, which [OtherProps] proves of those scans. *)

From S2P Require Import Prelude Order Absl AbslReference Storage SemanticError FrameStack.
From S2P Require Import SqlValue GoogleSqlReference Arithmetic Operators MathFuncs Casts EvalExpr.
From S2P Require Import EvalProps Rows Joins SetOps Unnest AggFuncs Aggregates Analytic Scans.

Section binding.
Context `{AbslText, AbslDouble, GoogleSqlOps, ExecutorNodes}.
Context `{!CastLibrary, !ExecutorParts, !ResolvedAst, !AggregateParts}.

(** ** Rows that bind columns *)

Definition binds (row : Row) (id : Z) : Prop := is_Some (row !! id).

Definition binds_all (cols : list ResolvedColumn) (row : Row) : Prop :=
  Forall (fun c => binds row (column_id c)) cols.

Lemma binds_all_spec cols row :
  binds_all cols row <-> forall id, id ∈ map column_id cols -> binds row id.
Proof.
  unfold binds_all. rewrite Forall_forall. split.
  - intros B id I. apply list_elem_of_In, in_map_iff in I as (c & <- & I). apply B. by apply list_elem_of_In.
  - intros B c I. apply B, list_elem_of_In, in_map. by apply list_elem_of_In.
Qed.

Definition covers (cols available : list ResolvedColumn) : Prop :=
  forall id, id ∈ map column_id cols -> id ∈ map column_id available.

Lemma binds_covered cols available row :
  covers cols available -> binds_all available row -> binds_all cols row.
Proof. rewrite !binds_all_spec. auto. Qed.

Lemma binds_app a b row : binds_all (a ++ b) row <-> binds_all a row /\ binds_all b row.
Proof. apply Forall_app. Qed.

(** More bindings. *)
Lemma binds_mono (row row' : Row) cols :
  (forall id, binds row id -> binds row' id) -> binds_all cols row -> binds_all cols row'.
Proof. intros Sub B. apply (Forall_impl _ _ _ B). intros c. apply Sub. Qed.

Lemma binds_emplace (row : Row) id v id' : binds row id' \/ id' = id -> binds (emplace id v row) id'.
Proof.
  unfold binds. rewrite lookup_emplace. case_decide as D; [by eexists|]. by intros [?|?].
Qed.

Lemma binds_insert (row : Row) id v id' : binds row id' \/ id' = id -> binds (<[id := v]> row) id'.
Proof.
  unfold binds. destruct (decide (id = id')) as [->|].
  - rewrite lookup_insert_eq. by eexists.
  - rewrite lookup_insert_ne by done. intros [?|?]; [done|congruence].
Qed.

Lemma binds_union (a b : Row) id : binds (a ∪ b) id <-> binds a id \/ binds b id.
Proof. unfold binds. rewrite lookup_union_is_Some. done. Qed.

(** Emplacing a list of columns binds them and keeps the others. *)
Lemma emplace_list_binds {A} (f : A -> Z) (g : A -> Value) (l : list A) (row : Row) id :
  binds row id \/ id ∈ map f l -> binds (fold_left (fun m x => emplace (f x) (g x) m) l row) id.
Proof.
  revert row. induction l as [|x l IH]; intros row B; cbn [fold_left map] in *; [set_solver|].
  apply IH. rewrite elem_of_cons in B. destruct B as [B|[->|B]]; [left|left|by right];
    apply binds_emplace; auto.
Qed.

Lemma bind_columns_binds cols values : length cols <= length values -> binds_all cols (bind_columns cols values).
Proof.
  intros L. apply binds_all_spec. intros id I. unfold bind_columns.
  apply (emplace_list_binds (fun cv : ResolvedColumn * Value => column_id cv.1) snd). right.
  rewrite <- (map_map fst column_id). fold (fst <$> zip cols values). by rewrite fst_zip.
Qed.

(** ** What the analyzer announces *)

Definition optional (c : option ResolvedColumn) : list ResolvedColumn :=
  match c with Some c => [c] | None => [] end.

Definition aggregate_outputs (a : AggregateColumn) : list ResolvedColumn :=
  match a with ComputedAggregate c _ => [c] | DeferredAggregate c s _ => [c; s] end.

(** The left columns of an array scan whose rows are joined to the elements. *)
Definition array_input_columns (input : Scan) : list ResolvedColumn :=
  if is_null_scan input || is_single_row input then [] else column_list input.

(** The rows a table hands out have a value for every column. *)
Definition table_rows_complete (cols : list ResolvedColumn) (table : option TableNode)
    (column_index_list : list Z) : Prop :=
  forall t read rows, table = Some t -> EvaluatorTableRows t = Some read ->
    read column_index_list = Ok rows -> Forall (fun r => length cols <= length r) rows.

(** The well-formed trees, for a condition on the scans of other kinds. *)
Fixpoint wf_scan_over (other_ok : list ResolvedColumn -> str -> Prop) (scan : Scan) : Prop :=
  match scan with
  | NullScan => True
  | BarrierScan cs input | FilterScan cs input _ | OrderByScan cs _ input | LimitOffsetScan cs input _ _ =>
      covers cs (column_list input) /\ wf_scan_over other_ok input
  | WithScan cs _ query => covers cs (column_list query) /\ wf_scan_over other_ok query
  | TableScan cs table index_list => table_rows_complete cs table index_list
  | ArrayScan cs input _ elements offset _ _ _ =>
      covers cs (elements ++ optional offset ++ array_input_columns input) /\ wf_scan_over other_ok input
  | JoinScan cs _ _ lhs rhs _ => covers cs (column_list lhs ++ column_list rhs) /\ wf_scan_over other_ok lhs /\ wf_scan_over other_ok rhs
  | AggregateScan cs _ group_by aggregates _ =>
      covers cs (map fst group_by ++ flat_map aggregate_outputs aggregates)
  | AnalyticScan cs groups input =>
      covers cs (column_list input ++ flat_map (fun g => map fst (analytic_functions g)) groups) /\
      wf_scan_over other_ok input
  | SingleRowScan _ | ProjectScan _ _ _ | WithRefScan _ _ | RelationArgumentScan _ _
  | SetOperationScan _ _ _ => True
  | OtherScan cs kind => other_ok cs kind
  end.

Lemma wf_scan_over_mono (P Q : list ResolvedColumn -> str -> Prop) scan :
  (forall cs kind, P cs kind -> Q cs kind) -> wf_scan_over P scan -> wf_scan_over Q scan.
Proof. intros PQ. induction scan; cbn [wf_scan_over]; naive_solver. Qed.

Definition other_rows_complete (cols : list ResolvedColumn) (kind : str) : Prop :=
  forall ctx rows, MaterializeOtherScan kind ctx = Ok rows -> Forall (binds_all cols) rows.

Definition wf_scan : Scan -> Prop := wf_scan_over other_rows_complete.

Lemma strip_barriers_covers scan : wf_scan scan -> covers (column_list scan) (column_list (StripBarrierScans scan)).
Proof.
  induction scan; try (intros _ id I; exact I). intros [C W] id I. apply IHscan; [done|]. by apply C.
Qed.

(** ** The scans *)

Lemma project_columns_binds exprs row_ctx m cols row out :
  project_columns exprs row_ctx m cols row = Ok out ->
  (forall id, binds row id -> binds out id) /\ binds_all cols out.
Proof.
  revert row. induction cols as [|c cols IH]; intros row E; cbn [project_columns] in E.
  { injection E as <-. by split; [|constructor]. }
  apply bind_Ok in E as (v & _ & E). apply IH in E as [K B]. split.
  - intros id I. apply K, binds_emplace. by left.
  - constructor; [|done]. apply K, binds_emplace. by right.
Qed.

Lemma project_rows_bind cols exprs input rows ctx out :
  ProjectRows cols exprs input rows ctx = Ok out -> Forall (binds_all cols) out.
Proof.
  unfold ProjectRows. intros E. apply bind_Ok in E as (m & _ & E). apply mapM_Forall2 in E.
  induction E as [|row row' rows rows' P _ IH]; constructor; [|done].
  by apply project_columns_binds in P as [_ ?].
Qed.

Lemma filter_rows_sub input e ctx rows out :
  FilterRows input e ctx rows = Ok out -> forall r, r ∈ out -> r ∈ rows.
Proof.
  revert out. induction rows as [|row rows IH]; intros out E; cbn [FilterRows] in E.
  { by injection E as <-. }
  apply bind_Ok in E as (b & _ & E). apply bind_Ok in E as (rest & R & E). injection E as <-.
  specialize (IH _ R). intros r. destruct b; [rewrite !elem_of_cons|rewrite elem_of_cons]; naive_solver.
Qed.

Lemma limit_rows_sub limit offset rows ctx out :
  LimitOffsetRows limit offset rows ctx = Ok out -> forall r, r ∈ out -> r ∈ rows.
Proof.
  unfold LimitOffsetRows. intros E. apply bind_Ok in E as (s & _ & E).
  destruct (_ <=? _)%Z; [injection E as <-; intros r I; by apply elem_of_nil in I|]. apply bind_Ok in E as (e & _ & E). injection E as <-.
  intros r I. apply list_elem_of_lookup in I as [i I]. apply lookup_take_Some in I as [I _].
  rewrite lookup_drop in I. by eapply list_elem_of_lookup_2.
Qed.

Lemma remap_stored_binds missing ids cols stored row out :
  length ids = length cols -> remap_stored missing ids cols stored row = Ok out ->
  (forall id, binds row id -> binds out id) /\ binds_all cols out.
Proof.
  revert cols row. induction ids as [|i ids IH]; intros [|c cols] row L E; try done; cbn [remap_stored] in E.
  { injection E as <-. by split; [|constructor]. }
  destruct (stored !! i) as [v|]; [|done]. apply IH in E as [K B]; [|by injection L]. split.
  - intros id I. apply K, binds_emplace. by left.
  - constructor; [|done]. apply K, binds_emplace. by right.
Qed.

Lemma remapped_bind missing ids cols rows out :
  length ids = length cols ->
  outcome_mapM (fun r => remap_stored missing ids cols r ∅) rows = Ok out -> Forall (binds_all cols) out.
Proof.
  intros L E. apply mapM_Forall2 in E. induction E as [|x y xs ys P _ IH]; constructor; [|done].
  by apply remap_stored_binds in P as [_ ?].
Qed.

(** ** Joins *)

Lemma matching_rows_shape include lrow rrows out :
  matching_rows include lrow rrows = Ok out ->
  forall m, m ∈ out -> exists rrow, rrow ∈ rrows /\ m = lrow ∪ rrow.
Proof.
  revert out. induction rrows as [|rrow rrows IH]; intros out E m I; cbn [matching_rows] in E.
  { injection E as <-. by apply elem_of_nil in I. }
  apply bind_Ok in E as (b & _ & E). apply bind_Ok in E as (rest & R & E). injection E as <-.
  assert (m = lrow ∪ rrow \/ m ∈ rest) as [->|I'] by (destruct b; [by apply elem_of_cons in I|by right]).
  - exists rrow. split; [by left|done].
  - destruct (IH _ R m I') as (r & ? & ->). exists r. split; [by right|done].
Qed.

Lemma append_nulls_binds rscan row :
  (forall id, binds row id -> binds (AppendNullRightColumns rscan row) id) /\
  binds_all (column_list rscan) (AppendNullRightColumns rscan row).
Proof.
  unfold AppendNullRightColumns. split.
  - intros id B. apply (emplace_list_binds column_id
      (fun col => match column_type col with Some t => SNull t | None => SInvalid end)). by left.
  - apply binds_all_spec. intros id I. apply (emplace_list_binds column_id
      (fun col => match column_type col with Some t => SNull t | None => SInvalid end)). by right.
Qed.

(** The rows of one left row: unions with right rows, or the left row with the
    right columns null. *)
Lemma join_group_binds lhs rhs outer lrow matches :
  wf_scan rhs -> binds_all (column_list lhs) lrow ->
  (forall m, m ∈ matches -> exists rrow, binds_all (column_list rhs) rrow /\ m = lrow ∪ rrow) ->
  Forall (binds_all (column_list lhs ++ column_list rhs))
    (join_group outer (StripBarrierScans rhs) lrow matches).
Proof.
  intros W B M. unfold join_group. destruct matches as [|m ms].
  - destruct outer; constructor; [|constructor].
    destruct (append_nulls_binds (StripBarrierScans rhs) lrow) as [K N]. apply binds_app. split.
    + by eapply binds_mono.
    + eapply binds_covered; [by apply strip_barriers_covers|done].
  - rewrite Forall_forall. intros x I. destruct (M x I) as (rrow & Br & ->). apply binds_app. split.
    + eapply binds_mono; [|exact B]. intros id ?. apply binds_union. by left.
    + eapply binds_mono; [|exact Br]. intros id ?. apply binds_union. by right.
Qed.

Lemma nested_loop_binds lhs rhs outer include left_rows right_rows out :
  wf_scan rhs -> Forall (binds_all (column_list lhs)) left_rows ->
  Forall (binds_all (column_list rhs)) right_rows ->
  nested_loop outer (StripBarrierScans rhs) include left_rows right_rows = Ok out ->
  Forall (binds_all (column_list lhs ++ column_list rhs)) out.
Proof.
  intros W L R. revert out. induction L as [|lrow left_rows Bl L IH]; intros out E; cbn [nested_loop] in E.
  { by injection E as <-. }
  apply bind_Ok in E as (ms & M & E). apply bind_Ok in E as (rest & Re & E). injection E as <-.
  apply Forall_app. split; [|by apply IH]. apply join_group_binds; [done|done|].
  intros m I. destruct (matching_rows_shape _ _ _ _ M m I) as (rrow & Ir & ->). exists rrow.
  rewrite Forall_forall in R. auto.
Qed.

Lemma build_index_sub plan right_rows index out :
  build_index plan right_rows index = Ok out ->
  (forall k rows r, index !! k = Some rows -> r ∈ rows -> r ∈ right_rows \/ exists k0 rows0, index !! k0 = Some rows0 /\ r ∈ rows0) ->
  forall k rows r, out !! k = Some rows -> r ∈ rows ->
    r ∈ right_rows \/ exists k0 rows0, index !! k0 = Some rows0 /\ r ∈ rows0.
Proof.
  revert index. induction right_rows as [|rrow right_rows IH]; intros index E _ k rows r L I;
    cbn [build_index] in E.
  { injection E as <-. right. eauto. }
  apply bind_Ok in E as (fp & _ & E).
  destruct (IH _ E ltac:(eauto) k rows r L I) as [?|(k0 & rows0 & L0 & I0)]; [left; by right|].
  destruct fp as [key|]; [|eauto]. destruct (decide (key = k0)) as [<-|].
  - rewrite lookup_insert_eq in L0. injection L0 as <-. apply elem_of_app in I0 as [I0|I0].
    + destruct (index !! key) as [old|] eqn:Old; [|by apply elem_of_nil in I0]. right. eauto.
    + left. apply list_elem_of_singleton in I0 as ->. by left.
  - rewrite lookup_insert_ne in L0 by done. eauto.
Qed.

Lemma probe_rows_binds lhs rhs outer plan index left_rows right_rows ctx out :
  wf_scan rhs -> Forall (binds_all (column_list lhs)) left_rows ->
  (forall k rows r, index !! k = Some rows -> r ∈ rows -> r ∈ right_rows) ->
  Forall (binds_all (column_list rhs)) right_rows ->
  probe_rows outer (StripBarrierScans rhs) plan index left_rows ctx = Ok out ->
  Forall (binds_all (column_list lhs ++ column_list rhs)) out.
Proof.
  intros W L Ix R. revert out. induction L as [|lrow left_rows Bl L IH]; intros out E; cbn [probe_rows] in E.
  { by injection E as <-. }
  apply bind_Ok in E as (fp & _ & E). apply bind_Ok in E as (ms & M & E).
  apply bind_Ok in E as (rest & Re & E). injection E as <-.
  apply Forall_app. split; [|by apply IH]. apply join_group_binds; [done|done|].
  intros m I. destruct (matching_rows_shape _ _ _ _ M m I) as (rrow & Ir & ->). exists rrow.
  split; [|done]. rewrite Forall_forall in R. apply R.
  destruct fp as [k|]; [|by apply elem_of_nil in Ir].
  destruct (index !! k) as [rows|] eqn:K; [|by apply elem_of_nil in Ir]. by eapply Ix.
Qed.

Lemma join_rows_bind jt lhs rhs je left_rows right_rows ctx out :
  wf_scan rhs -> Forall (binds_all (column_list lhs)) left_rows ->
  Forall (binds_all (column_list rhs)) right_rows ->
  JoinRows jt lhs rhs je left_rows right_rows ctx = Ok out ->
  Forall (binds_all (column_list lhs ++ column_list rhs)) out.
Proof.
  intros W L R. unfold JoinRows. destruct (PlanEquiJoin jt false lhs rhs je) as [plan|].
  - unfold MaterializeHashEquiJoinRows. intros E. apply bind_Ok in E as (index & B & E).
    eapply probe_rows_binds; [done|done| |exact R|exact E].
    intros k rows r Lk I. destruct (build_index_sub _ _ _ _ B ltac:(done) k rows r Lk I) as [?|(? & ? & ? & _)]; done.
  - apply nested_loop_binds; done.
Qed.

Lemma lateral_binds mat jt lhs rhs je left_rows ctx out :
  wf_scan rhs -> Forall (binds_all (column_list lhs)) left_rows ->
  (forall c rows, mat c = Ok rows -> Forall (binds_all (column_list rhs)) rows) ->
  MaterializeLateralJoinRows mat jt lhs rhs je left_rows ctx = Ok out ->
  Forall (binds_all (column_list lhs ++ column_list rhs)) out.
Proof.
  intros W L Mt. revert out. induction L as [|lrow left_rows Bl L IH]; intros out E;
    cbn [MaterializeLateralJoinRows] in E.
  { by injection E as <-. }
  apply bind_Ok in E as (rr & R & E). apply bind_Ok in E as (ms & M & E).
  apply bind_Ok in E as (rest & Re & E). injection E as <-. apply Mt in R.
  apply Forall_app. split; [|by apply IH]. apply join_group_binds; [done|done|].
  intros m I. destruct (matching_rows_shape _ _ _ _ M m I) as (rrow & Ir & ->). exists rrow.
  rewrite Forall_forall in R. auto.
Qed.

(** ** Set operations *)

Section arms.
Context (cols : list ResolvedColumn) (P : Row -> Prop).

Lemma first_rows_keep rows fp row :
  Forall P rows -> FirstSetOperationRowByFingerprint cols rows !! fp = Some row -> P row.
Proof.
  intros F L. pose proof (first_rows_cases cols fp rows) as K. rewrite L in K.
  rewrite Forall_forall in F. apply F, K.
Qed.

Lemma expand_keep counts rows :
  Forall P rows -> Forall P (ExpandSetOperationCounts counts (FirstSetOperationRowByFingerprint cols rows)).
Proof.
  intros F. unfold ExpandSetOperationCounts. apply Forall_flat_map, Forall_forall. intros [fp n] _. cbn [fst snd].
  destruct (n <=? 0)%Z; [constructor|].
  destruct (FirstSetOperationRowByFingerprint cols rows !! fp) as [row|] eqn:L; [|constructor].
  apply Forall_replicate. by eapply first_rows_keep.
Qed.

Lemma dedupe_keep seen rows : Forall P rows -> Forall P (dedupe_from cols seen rows).
Proof.
  intros F. revert seen. induction F as [|row rows Pr F IH]; intros seen; cbn [dedupe_from]; [constructor|].
  case_bool_decide; [apply IH|]. by constructor.
Qed.

(** A fold that only removes entries keeps the rows of the first map. *)
Lemma shrink_keep {A} (f : gmap str Row -> A -> gmap str Row) arms m :
  (forall m a k row, f m a !! k = Some row -> m !! k = Some row) ->
  (forall k row, m !! k = Some row -> P row) ->
  Forall P (sorted_entries (fold_left f arms m)).*2.
Proof.
  intros S. revert m. induction arms as [|a arms IH]; intros m K; cbn [fold_left].
  - apply Forall_fmap, Forall_forall. intros [k row] I. apply sorted_entries_elem in I. by eapply K.
  - apply IH. intros k row L. by eapply K, S.
Qed.

Lemma set_rows_keep op arms out :
  Forall (Forall P) arms -> SetOperationRows cols op arms = Ok out -> Forall P out.
Proof.
  intros F. destruct op; cbn [SetOperationRows]; try (intros [= <-]); try done.
  - by apply Forall_concat.
  - by apply dedupe_keep, Forall_concat.
  - destruct F; [constructor|]. by apply expand_keep.
  - destruct F as [|arm arms Fa F]; [constructor|]. apply shrink_keep.
    + intros m a k row L. rewrite map_lookup_imap in L. destruct (m !! k) as [r|]; [|done].
      cbn in L. case_match; congruence.
    + intros k row. by apply first_rows_keep.
  - destruct F as [|arm arms Fa F]; intros [= <-]; [constructor|]. clear F. revert arm Fa.
    induction arms as [|a arms IH]; intros arm Fa; cbn [fold_left]; [done|]. apply IH. by apply expand_keep.
  - destruct F as [|arm arms Fa F]; [constructor|]. apply shrink_keep.
    + intros m a k row L. rewrite map_lookup_imap in L. destruct (m !! k) as [r|]; [|done].
      cbn in L. case_match; congruence.
    + intros k row. by apply first_rows_keep.
Qed.
End arms.

Lemma remap_columns_binds part_row outs parts acc id :
  binds acc id \/ id ∈ map column_id outs -> binds (remap_columns part_row outs parts acc) id.
Proof.
  revert parts acc. induction outs as [|o outs IH]; intros parts acc B; cbn [remap_columns map] in *; [set_solver|].
  apply IH. rewrite elem_of_cons in B. destruct B as [B|[->|B]]; [left|left|by right]; apply binds_emplace; auto.
Qed.

Lemma remap_row_binds cols part_row part_scan : binds_all cols (RemapSetOperationRow cols part_row part_scan).
Proof. apply binds_all_spec. intros id I. apply remap_columns_binds. by right. Qed.

(** ** Array scans *)

Lemma inject_mono cols elements offset (row : Row) id :
  binds row id -> binds (InjectArrayScanInternalColumns cols elements offset row) id.
Proof. intros [v L]. eexists. by apply inject_keeps. Qed.

Lemma alias_mono cols elements n (row : Row) id :
  binds row id -> binds (AliasUnnestPublicColumnIds cols elements n row) id.
Proof. intros [v L]. eexists. by apply alias_keeps. Qed.

Lemma unnest_row_binds cols elements offset n values ov :
  length elements = n -> n <= length values ->
  binds_all (elements ++ optional offset) (unnest_row cols elements offset n values ov).
Proof.
  intros Le L. apply binds_all_spec. intros id I. unfold unnest_row. apply inject_mono, alias_mono.
  unfold bind_offset. rewrite map_app in I. apply elem_of_app in I as [I|I].
  - assert (binds (fold_left (fun m (cv : ResolvedColumn * Value) => emplace (column_id cv.1) cv.2 m)
              (zip (take n elements) values) ∅) id) as B.
    { apply (emplace_list_binds (fun cv : ResolvedColumn * Value => column_id cv.1) snd). right.
      rewrite <- (map_map fst column_id). fold (fst <$> zip (take n elements) values).
      rewrite fst_zip by (rewrite length_take; lia). by rewrite <- Le, firstn_all. }
    destruct offset; [apply binds_emplace; by left|done].
  - destruct offset as [c|]; [|by apply elem_of_nil in I]. apply list_elem_of_singleton in I as ->.
    apply binds_emplace. by right.
Qed.

Lemma evaluate_array_binds cols elements offset outer input exprs je zm ctx out :
  EvaluateArrayScan cols elements offset outer input exprs je zm ctx = Ok out ->
  Forall (binds_all (elements ++ optional offset)) out.
Proof.
  intros E. unfold EvaluateArrayScan in E.
  destruct (match je with ENull => _ | _ => _ end); [done|].
  destruct (match input with NullScan => _ | _ => _ end); [done|].
  destruct (length exprs =? 0); [done|].
  destruct (Nat.eqb_spec (length elements) (length exprs)) as [L|]; [|done]. cbn [negb] in E.
  destruct (_ && match offset with Some _ => _ | None => _ end); [done|].
  apply bind_Ok in E as (arrays & A & E). apply bind_Ok in E as (mode & _ & E).
  apply bind_Ok in E as (n & _ & E). injection E as <-. pose proof (mapM_length _ _ _ A) as LA.
  unfold BuildUnnestRows. destruct (_ && _).
  - constructor; [|constructor]. apply unnest_row_binds; [done|].
    rewrite length_map, length_take. lia.
  - apply Forall_map, Forall_forall. intros k _. apply unnest_row_binds; [done|].
    rewrite length_map, length_zip. lia.
Qed.

Lemma null_array_row_binds elements offset lrow :
  (forall id, binds lrow id -> binds (null_array_row elements offset lrow) id) /\
  binds_all (elements ++ optional offset) (null_array_row elements offset lrow).
Proof.
  assert (forall id, binds lrow id \/ id ∈ map column_id (elements ++ optional offset) ->
            binds (null_array_row elements offset lrow) id) as K.
  { intros id B. unfold null_array_row. rewrite map_app, elem_of_app in B.
    assert (binds lrow id \/ id ∈ map column_id elements ->
            binds (fold_left (fun m c => emplace (column_id c) (null_value (column_type c)) m) elements lrow) id) as F.
    { apply (emplace_list_binds column_id (fun c => null_value (column_type c))). }
    destruct offset as [c|].
    - destruct B as [B|[B|B]]; [apply binds_emplace; left; apply F; auto..|].
      apply list_elem_of_singleton in B as ->. apply binds_emplace. by right.
    - apply F. set_solver. }
  split; [auto|]. apply binds_all_spec. auto.
Qed.

Lemma array_join_binds cols input exprs elements offset je outer zm left_rows ctx base out :
  Forall (binds_all base) left_rows ->
  MaterializeArrayScanWithJoinExpr cols input exprs elements offset je outer zm left_rows ctx = Ok out ->
  Forall (binds_all ((elements ++ optional offset) ++ base)) out.
Proof.
  intros L. revert out. induction L as [|lrow left_rows Bl L IH]; intros out E;
    cbn [MaterializeArrayScanWithJoinExpr] in E.
  { by injection E as <-. }
  apply bind_Ok in E as (ar & A & E). apply bind_Ok in E as (ms & M & E).
  apply bind_Ok in E as (rest & R & E). injection E as <-. apply Forall_app. split; [|by apply IH].
  apply evaluate_array_binds in A. rewrite Forall_forall in A. destruct ms as [|m ms].
  - destruct outer; constructor; [|constructor].
    destruct (null_array_row_binds elements offset lrow) as [K N]. apply binds_app. split; [done|].
    by eapply binds_mono.
  - rewrite Forall_forall. intros x I. destruct (matching_rows_shape _ _ _ _ M x I) as (arow & Ia & ->).
    apply binds_app. split.
    + eapply binds_mono; [|exact (A _ Ia)]. intros id ?. apply binds_union. by right.
    + eapply binds_mono; [|exact Bl]. intros id ?. apply binds_union. by left.
Qed.

Lemma array_left_binds cols input exprs elements offset je outer zm left_rows ctx base out :
  Forall (binds_all base) left_rows ->
  MaterializeArrayScanFromLeftInput cols input exprs elements offset je outer zm left_rows ctx = Ok out ->
  Forall (binds_all ((elements ++ optional offset) ++ base)) out.
Proof.
  intros L. revert out. induction L as [|lrow left_rows Bl L IH]; intros out E;
    cbn [MaterializeArrayScanFromLeftInput] in E.
  { by injection E as <-. }
  apply bind_Ok in E as (ar & A & E). apply bind_Ok in E as (rest & R & E). injection E as <-.
  apply Forall_app. split; [|by apply IH]. apply evaluate_array_binds in A.
  apply Forall_map, (Forall_impl _ _ _ A). intros arow B. cbn beta. apply binds_app. split.
  - eapply binds_mono; [|exact B]. intros id ?. apply binds_union. by right.
  - eapply binds_mono; [|exact Bl]. intros id ?. apply binds_union. by left.
Qed.

(** ** Aggregate scans *)

Lemma aggregate_columns_binds input rows idx ctx cols row out :
  aggregate_columns input rows idx ctx cols row = Ok out ->
  (forall id, binds row id -> binds out id) /\ binds_all (flat_map aggregate_outputs cols) out.
Proof.
  revert row. induction cols as [|a cols IH]; intros row E; cbn [aggregate_columns] in E.
  { injection E as <-. by split; [|constructor]. }
  assert (exists row', (forall id, binds row id -> binds row' id) /\ binds_all (aggregate_outputs a) row' /\
            aggregate_columns input rows idx ctx cols row' = Ok out) as (row' & K & B & E').
  { destruct a as [c e|c side e].
    - assert (exists v, aggregate_columns input rows idx ctx cols (emplace (column_id c) v row) = Ok out) as [v E'].
      { destruct e; try done; cbn [is_aggregate_call] in E. apply bind_Ok in E as (v & _ & E). by exists v. }
      eexists. split; [|split; [|exact E']].
      + intros id I. apply binds_emplace. by left.
      + constructor; [|constructor]. apply binds_emplace. by right.
    - assert (exists v w, aggregate_columns input rows idx ctx cols
                (emplace (column_id side) w (emplace (column_id c) v row)) = Ok out) as (v & w & E').
      { destruct e; try done; (destruct (EvalDeferredComputedExpr _ _ _ _ _); eauto). }
      eexists. split; [|split; [|exact E']].
      + intros id I. apply binds_emplace. left. apply binds_emplace. by left.
      + constructor; [apply binds_emplace; left; apply binds_emplace; by right|].
        constructor; [|constructor]. apply binds_emplace. by right. }
  apply IH in E' as [K' B']. split; [auto|]. cbn [flat_map]. apply binds_app. split; [|done].
  by eapply binds_mono.
Qed.

Lemma aggregate_group_binds group_by aggregates input rows idx keys ctx out :
  (keys = None -> group_by = []) ->
  MaterializeAggregateGroup group_by aggregates input rows idx keys ctx = Ok out ->
  binds_all (map fst group_by ++ flat_map aggregate_outputs aggregates) out.
Proof.
  intros KN E. unfold MaterializeAggregateGroup in E. apply bind_Ok in E as (row & G & E).
  apply aggregate_columns_binds in E as [K B]. apply binds_app. split; [|done].
  eapply binds_mono; [exact K|]. destruct keys as [keys|].
  - destruct (Nat.eqb_spec (length keys) (length group_by)) as [L|]; [|done]. injection G as <-.
    apply binds_all_spec. intros id I.
    apply (emplace_list_binds (fun cv : ComputedColumn * Value => column_id cv.1.1) snd). right.
    rewrite <- (map_map fst (fun c : ComputedColumn => column_id c.1)).
    fold (fst <$> zip group_by keys). rewrite fst_zip by lia. by rewrite map_map in I.
  - rewrite KN by done. constructor.
Qed.

Lemma aggregate_rows_bind gs group_by aggregates input rows ctx out :
  AggregateRows gs group_by aggregates input rows ctx = Ok out ->
  Forall (binds_all (map fst group_by ++ flat_map aggregate_outputs aggregates)) out.
Proof.
  unfold AggregateRows. destruct gs; [done|]. destruct group_by as [|g group_by].
  - intros E. apply bind_Ok in E as (row & G & E). injection E as <-. constructor; [|constructor].
    by apply aggregate_group_binds in G.
  - intros E. apply bind_Ok in E as (groups & _ & E). apply mapM_Forall2 in E.
    induction E as [|x y xs ys P _ IH]; constructor; [|done]. by apply aggregate_group_binds in P.
Qed.

(** ** Analytic scans *)

Lemma set_column_binds id values rows (P : Z -> Prop) :
  Forall (fun row => forall i, P i -> binds row i) rows ->
  Forall (fun row => forall i, P i \/ i = id -> binds row i) (set_column id values rows).
Proof.
  intros F. unfold set_column. revert values. induction F as [|row rows B F IH]; intros [|v values]; constructor.
  - intros i Hi. apply binds_insert. destruct Hi; auto.
  - apply IH.
Qed.

Lemma apply_functions_binds functions items layout input_rows ctx rows out (P : Z -> Prop) :
  Forall (fun row => forall i, P i -> binds row i) rows ->
  apply_functions functions items layout input_rows ctx rows = Ok out ->
  Forall (fun row => forall i, P i \/ i ∈ map column_id (map fst functions) -> binds row i) out.
Proof.
  revert rows P. induction functions as [|[c call] functions IH]; intros rows P F E; cbn [apply_functions] in E.
  { injection E as <-. apply (Forall_impl _ _ _ F). intros row B i [?|I]; [auto|by apply elem_of_nil in I]. }
  apply bind_Ok in E as (values & _ & E).
  apply (IH _ (fun i => P i \/ i = column_id c)) in E; [|by apply set_column_binds].
  apply (Forall_impl _ _ _ E). intros row B i Hi. apply B. cbn [map fst] in Hi.
  rewrite elem_of_cons in Hi. tauto.
Qed.

Lemma apply_groups_binds groups input_rows ctx rows out (P : Z -> Prop) :
  Forall (fun row => forall i, P i -> binds row i) rows ->
  apply_groups groups input_rows ctx rows = Ok out ->
  Forall (fun row => forall i, P i \/ i ∈ map column_id (flat_map (fun g => map fst (analytic_functions g)) groups) ->
                     binds row i) out.
Proof.
  revert rows P. induction groups as [|g groups IH]; intros rows P F E; cbn [apply_groups] in E.
  { injection E as <-. apply (Forall_impl _ _ _ F). intros row B i [?|I]; [auto|by apply elem_of_nil in I]. }
  apply bind_Ok in E as (rows' & G & E). eapply apply_functions_binds in G; [|exact F].
  apply (IH _ _ G) in E. apply (Forall_impl _ _ _ E). intros row B i Hi. apply B. cbn [flat_map] in Hi.
  rewrite map_app, elem_of_app in Hi. tauto.
Qed.

Lemma analytic_rows_bind groups cols rows ctx out :
  Forall (binds_all cols) rows -> AnalyticRows groups rows ctx = Ok out ->
  Forall (binds_all (cols ++ flat_map (fun g => map fst (analytic_functions g)) groups)) out.
Proof.
  intros F E. unfold AnalyticRows in E. apply bind_Ok in E as (rows' & G & E).
  apply (apply_groups_binds _ _ _ _ _ (fun i => i ∈ map column_id cols)) in G.
  2:{ apply (Forall_impl _ _ _ F). intros row B. by apply binds_all_spec. }
  assert (Forall (binds_all (cols ++ flat_map (fun g => map fst (analytic_functions g)) groups)) rows') as B.
  { apply (Forall_impl _ _ _ G). intros row B. apply binds_all_spec. intros id I. apply B.
    by rewrite map_app, elem_of_app in I. }
  injection E as <-. destruct groups as [|g groups]; [done|].
  case_match eqn:L; [|done]. apply Nat.eqb_eq in L. apply Forall_map, Forall_forall. intros r I.
  rewrite stable_sort_Permutation in I. apply elem_of_seq in I.
  rewrite (Permutation_length (stable_sort_Permutation _ _)), length_seq in L.
  unfold row_at. destruct (lookup_lt_is_Some_2 rows' r ltac:(lia)) as [row R]. rewrite R. cbn.
  rewrite Forall_forall in B. apply B. by eapply list_elem_of_lookup_2.
Qed.

(** ** Every scan *)

Lemma table_scan_binds cols table index_list rows :
  table_rows_complete cols table index_list ->
  MaterializeTableScan cols table index_list = Ok rows -> Forall (binds_all cols) rows.
Proof.
  intros W E. unfold MaterializeTableScan in E. destruct table as [t|]; [|done].
  destruct (EvaluatorTableRows t) as [read|] eqn:R; [|done].
  destruct (length cols =? length index_list); [|done]. cbn [negb] in E.
  apply bind_Ok in E as (values & V & E). injection E as <-.
  apply Forall_map, (Forall_impl _ _ _ (W t read values eq_refl R V)). intros r L. by apply bind_columns_binds.
Qed.

Lemma with_ref_binds cols name ctx rows :
  MaterializeWithRefScan cols name ctx = Ok rows -> Forall (binds_all cols) rows.
Proof.
  unfold MaterializeWithRefScan. destruct (with_tables ctx) as [tables|]; [|done].
  destruct (tables !! name) as [cte|]; [|done].
  destruct (Nat.eqb_spec (length (cte_column_ids cte)) (length cols)); [|done]. by apply remapped_bind.
Qed.

Lemma relation_argument_binds cols name ctx rows :
  MaterializeRelationArgumentScan cols name ctx = Ok rows -> Forall (binds_all cols) rows.
Proof.
  unfold MaterializeRelationArgumentScan. destruct (relation_arguments ctx) as [tables|]; [|done].
  destruct (tables !! AsciiStrToLower name) as [bound|]; [|done].
  destruct (Nat.eqb_spec (length (cte_column_ids bound)) (length cols)); [|done]. by apply remapped_bind.
Qed.

Lemma array_scan_binds cols input exprs elements offset je outer zm ctx rows :
  covers cols (elements ++ optional offset ++ array_input_columns input) ->
  (forall left_rows, MaterializeScanImpl input ctx = Ok left_rows ->
     Forall (binds_all (column_list input)) left_rows) ->
  MaterializeScanImpl (ArrayScan cols input exprs elements offset je outer zm) ctx = Ok rows ->
  Forall (binds_all cols) rows.
Proof.
  intros C IH E. cbn [MaterializeScanImpl] in E. rewrite app_assoc in C.
  assert (Forall (binds_all ((elements ++ optional offset) ++ array_input_columns input)) rows) as B;
    [|apply (Forall_impl _ _ _ B); intros row; by apply binds_covered].
  assert (forall left_rows, MaterializeScanImpl input ctx = Ok left_rows ->
            Forall (binds_all (array_input_columns input)) left_rows) as Left.
  { intros lr El. apply IH in El. unfold array_input_columns. destruct (_ || _); [|done].
    apply Forall_forall. intros x _. constructor. }
  destruct (negb (is_null_expr je) && negb (is_null_scan input)).
  { apply bind_Ok in E as (lr & El & E). eapply array_join_binds; [by apply Left|exact E]. }
  destruct (negb (is_null_scan input) && negb (is_single_row input)) eqn:Cor.
  { apply bind_Ok in E as (lr & El & E). eapply array_left_binds; [by apply Left|exact E]. }
  unfold uncorrelated_array_rows in E. apply bind_Ok in E as (ar & A & E). injection E as <-.
  apply evaluate_array_binds in A.
  assert (array_input_columns input = []) as ->.
  { unfold array_input_columns. revert Cor. by destruct (is_null_scan input), (is_single_row input). }
  rewrite app_nil_r. apply Forall_map, (Forall_impl _ _ _ A). intros row.
  apply binds_mono. intros id ?. by apply inject_mono, alias_mono.
Qed.

Lemma set_operation_binds cols op items ctx rows :
  MaterializeScanImpl (SetOperationScan cols op items) ctx = Ok rows -> Forall (binds_all cols) rows.
Proof.
  cbn [MaterializeScanImpl]. intros E. apply bind_Ok in E as (arms & A & E).
  apply (set_rows_keep cols (binds_all cols)) in E; [done|].
  clear -A. revert arms A. induction items as [|item items IH]; intros arms A; cbn in A.
  { by injection A as <-. }
  destruct (is_null_scan item); [done|]. apply bind_Ok in A as (r & _ & A). apply bind_Ok in A as (rest & R & A).
  injection A as <-. constructor; [|by apply IH]. apply Forall_map, Forall_forall. intros x _.
  apply remap_row_binds.
Qed.

Lemma join_scan_binds cols jt lateral lhs rhs je ctx rows :
  covers cols (column_list lhs ++ column_list rhs) -> wf_scan rhs ->
  (forall c rs, MaterializeScanImpl lhs c = Ok rs -> Forall (binds_all (column_list lhs)) rs) ->
  (forall c rs, MaterializeScanImpl rhs c = Ok rs -> Forall (binds_all (column_list rhs)) rs) ->
  MaterializeScanImpl (JoinScan cols jt lateral lhs rhs je) ctx = Ok rows -> Forall (binds_all cols) rows.
Proof.
  intros C W L R E. cbn [MaterializeScanImpl] in E.
  assert (Forall (binds_all (column_list lhs ++ column_list rhs)) rows) as B;
    [|apply (Forall_impl _ _ _ B); intros row; by apply binds_covered].
  destruct lateral.
  - apply bind_Ok in E as (lr & El & E). apply L in El. by eapply lateral_binds in E.
  - destruct (_ || _); [done|]. apply bind_Ok in E as (lr & El & E). apply bind_Ok in E as (rr & Er & E).
    apply L in El. apply R in Er. by eapply join_rows_bind in E.
Qed.

Lemma materialize_binds scan ctx rows :
  wf_scan scan -> MaterializeScanImpl scan ctx = Ok rows -> Forall (binds_all (column_list scan)) rows.
Proof.
  revert ctx rows. induction scan; intros ctx rows W E; unfold wf_scan in W; cbn [wf_scan_over] in W; cbn [Rows.column_list]; try done;
    try (cbn [MaterializeScanImpl] in E).
  - destruct W as [C W]. eapply Forall_impl; [by eapply IHscan|]. intros row. by apply binds_covered.
  - by eapply table_scan_binds.
  - injection E as <-. constructor; [|constructor]. apply bind_columns_binds. by rewrite length_map.
  - destruct W as [C W]. eapply array_scan_binds; [exact C|intros; by eapply IHscan|exact E].
  - apply bind_Ok in E as (input_rows & _ & E). by apply project_rows_bind in E.
  - destruct W as [C W]. apply bind_Ok in E as (input_rows & I & E). apply IHscan in I; [|done].
    pose proof (filter_rows_sub _ _ _ _ _ E) as Sub. rewrite Forall_forall in I |- *.
    intros row R. eapply binds_covered; [exact C|]. by apply I, Sub.
  - destruct W as [C W]. apply bind_Ok in E as (input_rows & I & E). injection E as <-.
    apply IHscan in I; [|done]. unfold OrderByRows. rewrite stable_sort_Permutation.
    apply (Forall_impl _ _ _ I). intros row. by apply binds_covered.
  - destruct W as [C W]. apply bind_Ok in E as (tables & _ & E). apply IHscan in E; [|done].
    apply (Forall_impl _ _ _ E). intros row. by apply binds_covered.
  - by eapply with_ref_binds.
  - by eapply relation_argument_binds.
  - destruct W as (C & W1 & W2).
    eapply join_scan_binds; [exact C|done|intros; by eapply IHscan1|intros; by eapply IHscan2|exact E].
  - eapply set_operation_binds. exact E.
  - apply bind_Ok in E as (input_rows & _ & E). apply aggregate_rows_bind in E.
    apply (Forall_impl _ _ _ E). intros row. by apply binds_covered.
  - destruct W as [C W]. apply bind_Ok in E as (input_rows & I & E). apply IHscan in I; [|done].
    eapply analytic_rows_bind in E; [|exact I]. apply (Forall_impl _ _ _ E). intros row. by apply binds_covered.
  - destruct W as [C W]. apply bind_Ok in E as (input_rows & I & E). apply IHscan in I; [|done].
    pose proof (limit_rows_sub _ _ _ _ _ E) as Sub. rewrite Forall_forall in I |- *.
    intros row R. eapply binds_covered; [exact C|]. by apply I, Sub.
  - exact (W _ _ E).
Qed.
End binding.
