(* ===== verification/QueryProps.v ===== *)
(** * QueryProps: ORDER BY, WITH and subqueries

    ORDER BY sorts as SQL says when its keys are booleans, integers, strings or
    bytes; a WITH reference returns the rows of its query; IN over a subquery is
    the disjunction of the equalities, except for nulls. *)

From S2P Require Import Prelude Order Absl AbslReference Storage SemanticError FrameStack.
From S2P Require Import SqlValue GoogleSqlReference Arithmetic Operators MathFuncs Casts EvalExpr.
From S2P Require Import EvalProps Rows Joins SetOps Unnest AggFuncs Aggregates Analytic Scans ScanProps.

Section ordering.
Context `{AbslText, AbslDouble, GoogleSqlOps, !GoogleSqlLaws, ExecutorNodes}.
Context `{!CastLibrary, !ExecutorParts, !ResolvedAst, !AggregateParts}.

(** ** The order SQL asks for *)

(** The ascending order of values of one type. *)
Definition value_before : Value -> Value -> bool :=
  lex (fun a b => (int64_value a <? int64_value b)%Z)
    (lex (fun a b => str_ltb (string_value a) (string_value b))
       (lex (fun a b => str_ltb (bytes_value a) (bytes_value b))
          (fun a b => bool_ltb (bool_value a) (bool_value b)))).

#[local] Instance swo_value_before : StrictWeakOrder value_before.
Proof.
  repeat apply swo_lex.
  - apply (swo_key int64_value Z.ltb).
  - apply (swo_key string_value str_ltb).
  - apply (swo_key bytes_value str_ltb).
  - apply (swo_key bool_value bool_ltb).
Qed.

Definition nulls_before (item : OrderByItem) (a b : Value) : bool :=
  if nulls_first item then bool_ltb (negb (is_null a)) (negb (is_null b))
  else bool_ltb (is_null a) (is_null b).

(** One key: nulls where the item puts them, then the values in its direction. *)
Definition item_before (item : OrderByItem) : Value -> Value -> bool :=
  lex (nulls_before item)
    (fun a b => if is_descending item then value_before b a else value_before a b).

#[local] Instance swo_item_before item : StrictWeakOrder (item_before item).
Proof.
  apply swo_lex.
  - unfold nulls_before. destruct (nulls_first item).
    + apply (swo_key (fun v => negb (is_null v)) bool_ltb).
    + apply (swo_key is_null bool_ltb).
  - destruct (is_descending item); [apply (swo_flip value_before)|apply swo_value_before].
Qed.

(** The keys in order, the first that differs deciding. *)
Fixpoint sql_before (items : list OrderByItem) : Row -> Row -> bool :=
  match items with
  | [] => fun _ _ => false
  | item :: items =>
      match item_column item with
      | None => sql_before items
      | Some id => lex (fun a b => item_before item (LookupColumnValue a id) (LookupColumnValue b id))
                     (sql_before items)
      end
  end.

#[local] Instance swo_sql_before items : StrictWeakOrder (sql_before items).
Proof.
  induction items as [|item items IH]; cbn [sql_before]; [apply _|].
  destruct (item_column item) as [id|]; [|done]. apply swo_lex; [|done].
  apply (swo_key (fun r => LookupColumnValue r id) (item_before item)).
Qed.

(** ** The comparator of the code *)

Definition plain_type (t : SqlType) : bool :=
  match t with TBool | TInt64 | TString | TBytes => true | _ => false end.

Definition plain_values (a b : Value) : Prop :=
  exists t, plain_type t = true /\ has_type a t = true /\ has_type b t = true.

Lemma plain_value v t :
  plain_type t = true -> has_type v t = true ->
  v = SNull t \/ match t with
                 | TBool => exists b, v = SBool b
                 | TInt64 => exists z, v = SInt64 z
                 | TString => exists s, v = SString s
                 | TBytes => exists s, v = SBytes s
                 | _ => False
                 end.
Proof.
  intros P T. destruct v; cbn [has_type] in T; bool_to_prop; try (cbn in T; injection T as <-; eauto);
    subst; done.
Qed.

Lemma value_before_int64 x y : value_before (SInt64 x) (SInt64 y) = (x <? y)%Z.
Proof. unfold value_before, lex. cbn. rewrite andb_false_r. apply orb_false_r. Qed.

Lemma value_before_string x y : value_before (SString x) (SString y) = str_ltb x y.
Proof. unfold value_before, lex. cbn. rewrite andb_false_r. apply orb_false_r. Qed.

Lemma value_before_bytes x y : value_before (SBytes x) (SBytes y) = str_ltb x y.
Proof. unfold value_before, lex. cbn. rewrite andb_false_r. apply orb_false_r. Qed.

Lemma value_before_bool x y : value_before (SBool x) (SBool y) = bool_ltb x y.
Proof. done. Qed.

(** Values that are not null: the direction applied to a total order. *)
Lemma compare_values item a b (less : bool) (equal : bool) :
  collation item = None -> is_null a = false -> is_null b = false ->
  Equals a b = equal -> ValueLess a b = less -> value_before a b = less ->
  value_before b a = (if equal then less else negb less) -> (equal = true -> less = false) ->
  (ValueEqual a b = true -> item_before item a b = false /\ item_before item b a = false) /\
  (ValueEqual a b = false ->
   CompareOrderByItemValues item a b = item_before item a b /\
   item_before item a b = negb (item_before item b a)).
Proof.
  intros C Na Nb E L B1 B2 Tie.
  unfold CompareOrderByItemValues, item_before, lex, nulls_before, ValueEqual.
  rewrite Na, Nb, C, E, L, B1, B2. cbn [andb orb negb bool_ltb].
  destruct equal; [rewrite (Tie eq_refl)|]; destruct (nulls_first item), (is_descending item), less; done.
Qed.

Lemma str_ltb_neq a b : bool_decide (a = b) = false -> str_ltb b a = negb (str_ltb a b).
Proof.
  intros N%bool_decide_eq_false. destruct (str_ltb a b) eqn:L1; cbn; [by apply swo_asym|].
  destruct (str_ltb b a) eqn:L2; [done|]. destruct N. by apply str_ltb_total.
Qed.

(** On values of one plain type, equal values are tied and others are ordered as
    the code compares them. *)
Lemma compare_item item a b :
  collation item = None -> plain_values a b ->
  (ValueEqual a b = true -> item_before item a b = false /\ item_before item b a = false) /\
  (ValueEqual a b = false ->
   CompareOrderByItemValues item a b = item_before item a b /\
   item_before item a b = negb (item_before item b a)).
Proof.
  intros C (t & P & Ta & Tb).
  destruct (plain_value a t P Ta) as [->|Va], (plain_value b t P Tb) as [->|Vb].
  1-3: unfold CompareOrderByItemValues, item_before, lex, nulls_before, ValueEqual; rewrite ?C.
  - cbn. split; [|done]. destruct (nulls_first item), (is_descending item); split; reflexivity.
  - destruct t; try done; destruct Vb as [x ->]; cbn; (split; [done|]); destruct (nulls_first item); done.
  - destruct t; try done; destruct Va as [x ->]; cbn; (split; [done|]); destruct (nulls_first item); done.
  - destruct t; try done; destruct Va as [x ->], Vb as [y ->].
    + apply (compare_values item _ _ (bool_ltb x y) (Bool.eqb x y)); try done; [apply Equals_bool|by destruct x, y..].
    + apply (compare_values item _ _ (x <? y)%Z (x =? y)%Z); try done; rewrite ?Equals_int64, ?value_before_int64; try done.
      * destruct (Z.eqb_spec x y), (Z.ltb_spec x y), (Z.ltb_spec y x); try done; lia.
      * intros ->%Z.eqb_eq. apply Z.ltb_irrefl.
    + apply (compare_values item _ _ (str_ltb x y) (bool_decide (x = y))); try done;
        rewrite ?Equals_string, ?value_before_string; try done.
      * case_bool_decide as D; [subst; done|]. apply str_ltb_neq. by apply bool_decide_eq_false.
      * intros ->%bool_decide_eq_true. apply (swo_irrefl str_ltb).
    + apply (compare_values item _ _ (str_ltb x y) (bool_decide (x = y))); try done;
        rewrite ?Equals_bytes, ?value_before_bytes; try done.
      * case_bool_decide as D; [subst; done|]. apply str_ltb_neq. by apply bool_decide_eq_false.
      * intros ->%bool_decide_eq_true. apply (swo_irrefl str_ltb).
Qed.

(** The keys of the rows have plain types, and no item names a collation. *)
Definition sortable (items : list OrderByItem) (rows : list Row) : Prop :=
  Forall (fun item => collation item = None /\
    forall id, item_column item = Some id ->
      exists t, plain_type t = true /\
        forall row, row ∈ rows -> has_type (LookupColumnValue row id) t = true) items.

Lemma row_less_sql items rows a b :
  sortable items rows -> a ∈ rows -> b ∈ rows -> OrderByScanRowLess items a b = sql_before items a b.
Proof.
  intros S Ia Ib. induction S as [|item items [C T] S IH]; [done|]. cbn [OrderByScanRowLess sql_before].
  destruct (item_column item) as [id|]; [|exact IH]. destruct (T id eq_refl) as (t & P & Ty).
  destruct (compare_item item (LookupColumnValue a id) (LookupColumnValue b id) C) as [Eq Ne].
  { exists t. auto. }
  unfold lex. destruct (ValueEqual _ _).
  - destruct (Eq eq_refl) as [-> ->]. exact IH.
  - destruct (Ne eq_refl) as [-> E]. rewrite E. by destruct (item_before item (LookupColumnValue b id) _).
Qed.

(** C20: ORDER BY keys of type BOOL, INT64, STRING or BYTES without a collation: the
    scan returns the input rows in the order the keys ask for, nulls first or last
    as written (or by the direction), values ascending or descending, each key
    breaking the ties of those before it; rows with equal keys keep their input
    order.  Keys of other types are compared by their printed text. *)
Theorem order_by_sorts items rows :
  sortable items rows ->
  let out := OrderByRows items rows in
  out ≡ₚ rows /\ StronglySorted (not_after (sql_before items)) out /\
  forall row, List.filter (tied (sql_before items) row) out = List.filter (tied (sql_before items) row) rows.
Proof.
  intros S out. assert (out = stable_sort (sql_before items) rows) as ->.
  { apply stable_sort_ext. intros x y Ix Iy. by eapply row_less_sql. }
  split; [apply stable_sort_Permutation|]. split; [by apply stable_sort_sorted; apply _|].
  intros row. by apply stable_sort_stable; apply _.
Qed.

(** ** WITH *)

(** A row of the query under the ids of the reference. *)
Definition renamed (src dst : list ResolvedColumn) (row row' : Row) : Prop :=
  Forall2 (fun s d => row' !! column_id d = row !! column_id s) src dst.

Lemma remap_stored_spec missing src dst stored row :
  length src = length dst -> NoDup (map column_id dst) ->
  Forall (fun d => row !! column_id d = None) dst -> binds_all src stored ->
  exists out, remap_stored missing (map column_id src) dst stored row = Ok out /\
    (forall id, id ∉ map column_id dst -> out !! id = row !! id) /\ renamed src dst stored out.
Proof.
  revert dst row. induction src as [|s src IH]; intros [|d dst] row L ND Fr B; try done.
  - exists row. split; [done|]. split; [done|constructor].
  - cbn [map remap_stored]. apply Forall_cons in B as [[v Bv] B]. rewrite Bv.
    cbn [map] in ND. apply NoDup_cons in ND as [NI ND]. apply Forall_cons in Fr as [Fd Fr].
    destruct (IH dst (emplace (column_id d) v row)) as (out & E & K & R); [by injection L|done| |done|].
    { apply Forall_forall. intros d' I. rewrite lookup_emplace, decide_False.
      - rewrite Forall_forall in Fr. by apply Fr.
      - intros Eq. apply NI. rewrite <- Eq. apply list_elem_of_In, in_map. by apply list_elem_of_In. }
    exists out. split; [exact E|]. split.
    + intros id N. cbn [map] in N. rewrite not_elem_of_cons in N. destruct N as [N1 N2].
      rewrite (K id N2), lookup_emplace. by rewrite decide_False.
    + constructor; [|exact R]. rewrite (K _ NI), lookup_emplace, decide_True by done. by rewrite Fd, Bv.
Qed.

(** A reference to a WITH entry returns the rows of the entry's query, in
    order, with the value of every column of the query under the id the
    reference gives it. *)
Theorem with_ref_rows name query cols outs ctx rows :
  wf_scan query -> length cols = length (column_list query) -> NoDup (map column_id cols) ->
  MaterializeScanImpl query (set_with_tables ctx ∅) = Ok rows ->
  exists out,
    MaterializeScanImpl (WithScan outs [(name, query)] (WithRefScan cols name)) ctx = Ok out /\
    Forall2 (renamed (column_list query) cols) rows out.
Proof.
  intros W L ND E. pose proof (materialize_binds _ _ _ W E) as B.
  assert (is_null_scan query = false) as NQ by (by destruct query).
  cbn [MaterializeScanImpl]. rewrite NQ, E. cbn [mbind outcome_bind]. unfold MaterializeWithRefScan.
  cbn [with_tables set_with_tables]. rewrite lookup_insert_eq. cbn [cte_table cte_column_ids cte_rows].
  rewrite length_map, L, Nat.eqb_refl. cbn [negb]. clear E.
  induction B as [|row rows Br B IH]; [by exists []|].
  destruct IH as (out & E & F).
  destruct (remap_stored_spec $"semantic: CTE row missing column_id=" (column_list query) cols row ∅)
    as (row' & E' & _ & R); [done|done| |done|].
  { apply Forall_forall. intros d _. apply lookup_empty. }
  exists (row' :: out). split; [|by constructor]. cbn [outcome_mapM]. rewrite E'. cbn [mbind outcome_bind].
  rewrite E. done.
Qed.

(** ** IN over a subquery *)

Lemma in_rows_spec lhs id rows vs seen :
  Forall2 (fun row v => SubqueryValueFromRow id row = Ok v) rows vs ->
  in_rows lhs id rows =
  Ok match InLoop $"$in" lhs vs seen with SNull _ => SBool false | v => v end.
Proof.
  intros F. revert seen. induction F as [|row v rows vs V F IH]; intros seen; cbn [in_rows InLoop].
  - by destruct seen.
  - rewrite V. cbn [mbind outcome_bind]. destruct (is_null v); [apply IH|].
    destruct (Equals lhs v); [done|apply IH].
Qed.

(** The values of a subquery's rows in its column. *)
Definition subquery_values (id : Z) (rows : list Row) (vs : list Value) : Prop :=
  Forall2 (fun row v => SubqueryValueFromRow id row = Ok v) rows vs.

(** IN over a subquery returns what IN over the list of its values returns,
    except where that is null because a value of the list is: there it returns
    FALSE. *)
Theorem in_subquery_values in_expr rows id ctx lhs vs :
  EvalExpr in_expr ctx = Ok lhs -> vs <> [] ->
  subquery_values id rows vs ->
  exists w, DispatchIn $"$in" (lhs :: vs) = Ok w /\
    EvalInSubquery in_expr rows id ctx =
    Ok (if is_null w && negb (is_null lhs) then SBool false else w).
Proof.
  intros E NE F. destruct vs as [|v vs]; [done|].
  assert (is_null_expr in_expr = false) as NN by (by destruct in_expr).
  unfold EvalInSubquery, DispatchIn. rewrite NN, E. cbn [mbind outcome_bind].
  destruct (is_null lhs); [by exists NullBool|]. eexists. split; [done|].
  rewrite (in_rows_spec lhs id rows (v :: vs) false F). by destruct (InLoop _ _ _ _).
Qed.
End ordering.
