(* ===== verification/QueryExamples.v ===== *)
(** * QueryExamples: the theorems of the scan evaluator on concrete queries

    A concrete [ResolvedAst] over the reference instances: [DebugString] prints
    numbers in decimal and text in hexadecimal, and so satisfies
    [FingerprintLaws].  Closed instances of the theorems on scans, joins,
    aggregates and windows compute with it, and so do those on operators, casts and
    calls. *)

From S2P Require Import Prelude Order Absl AbslReference Storage SemanticError FrameStack.
From S2P Require Import SqlValue GoogleSqlReference Arithmetic Operators MathFuncs Casts EvalExpr.
From S2P Require Import EvalReference EvalProps Rows Joins SetOps Unnest AggFuncs Aggregates.
From S2P Require Import Aggregates Analytic AnalyticProps Scans ScanProps QueryProps.
From S2P Require Import EvalTypes.
Import Reference EvalReference.EvalReference.

(** ** The instances *)

Definition hex_digit (n : Z) : ascii := byteof (65 + n).

Definition hex_byte (c : ascii) : str := [hex_digit (byteval c / 16); hex_digit (byteval c mod 16)].

Definition hex_text (s : str) : str := flat_map hex_byte s.

Lemma hex_byte_inj c d : hex_byte c = hex_byte d -> c = d.
Proof.
  unfold hex_byte, hex_digit. intros [= E1 E2]. apply (inj byteval).
  pose proof (byteval_range c) as Bc. pose proof (byteval_range d) as Bd.
  apply (f_equal byteval) in E1, E2. rewrite !byteval_byteof in E1, E2.
  Z.div_mod_to_equations. lia.
Qed.

Lemma hex_text_inj s t : hex_text s = hex_text t -> s = t.
Proof.
  revert t. induction s as [|c s IH]; intros [|d t] E; [done..|].
  unfold hex_text in E. cbn [flat_map hex_byte app] in E.
  injection E as E1 E2 E. f_equal; [|by apply IH]. apply hex_byte_inj. unfold hex_byte. congruence.
Qed.

Lemma hex_text_no_separator s : key_separator ∉ hex_text s.
Proof.
  intros I. apply list_elem_of_In, in_flat_map in I as (c & _ & I). pose proof (byteval_range c).
  destruct I as [I|[I|[]]]; apply (f_equal byteval) in I; unfold hex_digit, key_separator in I;
    rewrite !byteval_byteof in I; Z.div_mod_to_equations; lia.
Qed.

Definition debug_string (v : Value) : str :=
  match v with
  | SBool b => if b then $"true" else $"false"
  | SInt64 z | SDate z | STimestamp z => StrInt z
  | STime z | SDatetime z | SNumeric z | SBigNumeric z => StrInt z
  | SString s | SBytes s => hex_text s
  | SNull _ => $"NULL"
  | _ => $"?"
  end.

#[export] Instance reference_ast : ResolvedAst := {|
  subquery_node _ := mkSubquery SCALAR [] ENull (SingleRowScan []) (Some TInt64);
  aggregate_node _ := mkAggregate (builtin $"$count_star") [] (Some TInt64) DEFAULT_ERROR_MODE false
                        DEFAULT_NULL_HANDLING [] ENull None [] [] ENull;
  scan_column_refs _ := [];
  ValueDebugString := debug_string;
  kind_number k := match k with TYPE_BOOL => 5 | TYPE_INT64 => 2 | TYPE_DOUBLE => 7 | TYPE_STRING => 8
                   | TYPE_BYTES => 9 | TYPE_DATE => 10 | _ => 0 end%Z;
  EnumName _ := undefined_here;
  node_kind_string _ := $"node";
  first_binding row := snd <$> head (map_to_list row);
  MaterializeOtherScan _ _ := undefined_here;
|}.

#[export] Instance reference_aggregates : AggregateParts := {|
  SketchAggregate _ _ _ := None;
  EvalSqlUdafBody _ _ _ _ _ := undefined_here;
  past_the_end _ _ := SInvalid;
|}.

#[export] Instance reference_fingerprints : FingerprintLaws.
Proof.
  split.
  - intros v t Ht T N. apply has_type_type_of in T.
    destruct v; try done; simplify_eq/=; try done; try apply (StrInt_no_separator (H := absl_reference));
      try apply hex_text_no_separator.
    intros I. destruct b; apply list_elem_of_In in I; vm_compute in I; intuition discriminate.
  - intros v w t Ht T1 T2 N1 N2. apply has_type_type_of in T1, T2.
    destruct v; try done; simplify_eq/=; try done; destruct w; try done; cbn [debug_string Equals];
      cbn [reference_ops ref_equals];
      try (by destruct b, b0); rewrite ?Z.eqb_eq, ?bool_decide_eq_true;
      (split; [|by intros ->]); try apply hex_text_inj; apply (StrInt_inj (H := absl_reference)).
Qed.

(** ** The rows *)

Definition column (id : Z) (name : str) (t : SqlType) : ResolvedColumn := mkColumn id name (Some t) $"t".

Definition k_column : ResolvedColumn := column 1 $"k" TInt64.
Definition v_column : ResolvedColumn := column 2 $"v" TString.
Definition j_column : ResolvedColumn := column 3 $"j" TInt64.

Definition ref (c : ResolvedColumn) : ResolvedExpr := EColumnRef c false.

(** A table with its rows. *)
Definition table (name : str) (cols : list ResolvedColumn) (rows : list (list Value)) : Scan :=
  TableScan cols (Some (mkTable name (Some (fun _ => Ok rows)))) (map Z.of_nat (seq 0 (length cols))).

Definition people : Scan :=
  table $"people" [k_column; v_column]
    [[SInt64 2; SString $"b"]; [SInt64 1; SString $"a"]; [SNull TInt64; SString $"n"];
     [SInt64 2; SString $"c"]].

Definition people_rows : list Row :=
  [{[1 := SInt64 2; 2 := SString $"b"]}; {[1 := SInt64 1; 2 := SString $"a"]};
   {[1 := SNull TInt64; 2 := SString $"n"]}; {[1 := SInt64 2; 2 := SString $"c"]}]%Z.

Definition numbers : Scan := table $"numbers" [j_column] [[SInt64 2]; [SInt64 3]; [SNull TInt64]].

Definition numbers_rows : list Row := [{[3 := SInt64 2]}; {[3 := SInt64 3]}; {[3 := SNull TInt64]}]%Z.

Definition on_key : ResolvedExpr := call $"$equal" [ref j_column; ref k_column] TBool.

Lemma hash_join_agrees_witness :
  MaterializeHashEquiJoinRows LEFT numbers (mkPlan [1%Z] [3%Z] []) people_rows numbers_rows empty_context
  = Ok [{[1 := SInt64 2; 2 := SString $"b"; 3 := SInt64 2]};
        {[1 := SInt64 1; 2 := SString $"a"; 3 := SNull TInt64]};
        {[1 := SNull TInt64; 2 := SString $"n"; 3 := SNull TInt64]};
        {[1 := SInt64 2; 2 := SString $"c"; 3 := SInt64 2]}]%Z.
Proof.
  apply (hash_join_agrees LEFT people numbers on_key); [vm_compute; reflexivity..| |vm_compute; reflexivity].
  split; [repeat constructor; by eexists..|].
  unfold people_rows, numbers_rows. cbn [left_key_ids right_key_ids zip zip_with].
  repeat first [apply Forall_nil; exact I|apply Forall_cons; split];
    exists TInt64; eexists _, _; repeat split; reflexivity.
Defined.

Lemma set_operation_multiplicities_witness :
  exists out, SetOperationRows [k_column] EXCEPT_ALL [people_rows; drop 3 people_rows] = Ok out /\
    mult [k_column] ($"2" ++ [key_separator]) out = 1%Z.
Proof.
  eexists. split; [vm_compute; reflexivity|].
  rewrite (set_operation_multiplicities [k_column] EXCEPT_ALL [people_rows; drop 3 people_rows]);
    vm_compute; reflexivity.
Defined.

(** [UNNEST([7, 8]) AS x WITH OFFSET o] *)
Definition x_column : ResolvedColumn := column 4 $"x" TInt64.
Definition o_column : ResolvedColumn := column 5 $"o" TInt64.

Lemma unnest_rows_witness :
  exists rows, EvaluateArrayScan [x_column; o_column] [x_column] (Some o_column) false NullScan
      [ELiteral (SArray TInt64 [SInt64 7; SInt64 8])] ENull ENull empty_context = Ok rows /\
    forall row, rows !! 1 = Some row -> row !! 5%Z = Some (SInt64 1).
Proof.
  eexists. split; [vm_compute; reflexivity|]. intros row R.
  destruct (unnest_rows [x_column; o_column] [x_column] (Some o_column) false NullScan
      [ELiteral (SArray TInt64 [SInt64 7; SInt64 8])] ENull ENull empty_context
      [ {[4 := SInt64 7; 5 := SInt64 0]}; {[4 := SInt64 8; 5 := SInt64 1]} ]%Z)
    as (arrays & mode & n & A & M & Z & C).
  { vm_compute. reflexivity. }
  { apply (bool_decide_unpack _). vm_compute. exact I. }
  rewrite andb_false_r in C. destruct C as [_ C].
  destruct (C 1 row R) as [_ O]. exact (O o_column eq_refl).
Defined.

(** ** Aggregates and windows *)

Definition aggregate (name : str) (args : list ResolvedExpr) : AggregateCall :=
  mkAggregate (builtin name) args (Some TInt64) DEFAULT_ERROR_MODE false DEFAULT_NULL_HANDLING [] ENull
    None [] [] ENull.

Definition count_star : @AggregateNode reference_nodes := tt.

Definition n_column : ResolvedColumn := column 6 $"n" TInt64.

(** [SELECT k, COUNT( * ) FROM people GROUP BY k] *)
Lemma group_by_partitions_witness :
  exists groups : Groups,
    groups !! ($"2" ++ [key_separator]) = Some ([SInt64 2], [0; 3]).
Proof.
  destruct (group_by_partitions [(k_column, ref k_column)] [ComputedAggregate n_column (EAggregateCall count_star None)]
    people people_rows empty_context
    [{[1 := SInt64 1; 6 := SInt64 1]}; {[1 := SInt64 2; 6 := SInt64 2]};
     {[1 := SNull TInt64; 6 := SInt64 1]}]%Z) as (groups & G & _).
  { discriminate. }
  { vm_compute. reflexivity. }
  exists groups. rewrite G. vm_compute. reflexivity.
Defined.

Lemma sum_int64_exact_witness :
  SumInt64Cells (Some TInt64) [SInt64 int64_max; SNull TInt64; SInt64 1]
  = Err (MakeSemanticError rOverflow $"semantic: integer overflow").
Proof.
  destruct (sum_int64_exact (Some TInt64) [SInt64 int64_max; SNull TInt64; SInt64 1])
    as (_ & _ & O).
  { repeat first [apply Forall_nil; exact I|apply Forall_cons; split];
      first [left; reflexivity|right; eexists; reflexivity]. }
  apply O. exists 2. intros [_ L]. vm_compute in L. apply L. reflexivity.
Defined.

Lemma min_max_extreme_witness :
  MinMaxAggregateImpl (Some TInt64) [[SInt64 4; SNull TInt64; SInt64 9]] true = Ok (SInt64 9) /\
  SInt64 9 ∈ [SInt64 4; SNull TInt64; SInt64 9].
Proof.
  assert (MinMaxAggregateImpl (Some TInt64) [[SInt64 4; SNull TInt64; SInt64 9]] true = Ok (SInt64 9)) as E
    by (vm_compute; reflexivity).
  split; [exact E|].
  destruct (min_max_extreme (Some TInt64) [SInt64 4; SNull TInt64; SInt64 9] true (SInt64 9))
    as [[_ N]|[I _]]; [| |exact E|discriminate N|exact I].
  - intros x y z Ix Iy Iz. set_unfold. intros Nx Ny Nz.
    split; destruct_or!; subst; vm_compute in *; try discriminate; auto.
  - repeat constructor.
Defined.

(** [OVER (ORDER BY k)] on three rows *)
Definition window : AnalyticGroup :=
  mkGroup [] [mkItem (Some (k_column, false)) false ORDER_UNSPECIFIED None] [].

Definition window_rows : list Row := [{[1 := SInt64 30]}; {[1 := SInt64 10]}; {[1 := SInt64 20]}]%Z.

Definition analytic (name : str) (args : list ResolvedExpr) (frame : option WindowFrame) : AnalyticCall :=
  mkAnalytic (builtin name) args (Some TInt64) false frame.

Definition two : ResolvedExpr := ELiteral (SInt64 2).
Definition one : ResolvedExpr := ELiteral (SInt64 1).

Lemma ntile_buckets_witness :
  exists values,
    ApplyAnalyticNtile (analytic $"ntile" [two] None) (BuildAnalyticGroupLayout window window_rows)
      window_rows empty_context = Ok values /\
    length (List.filter (has_bucket values 1) (partition_rows window window_rows [])) = 2.
Proof.
  eexists. split; [vm_compute; reflexivity|].
  match goal with |- context [has_bucket ?values 1] =>
    destruct (ntile_buckets window window_rows (analytic $"ntile" [two] None) two 2 empty_context values
                [] 1) as [L _]; [reflexivity|reflexivity|vm_compute; reflexivity|lia|] end.
  vm_compute in L |- *. reflexivity.
Defined.

Lemma lag_lead_rows_witness :
  exists values v,
    ApplyAnalyticLagLead (analytic $"lag" [ref k_column] None) (BuildAnalyticGroupLayout window window_rows)
      window_rows empty_context (-1) = Ok values /\ values !! 0 = Some v /\ v = SInt64 20.
Proof.
  eexists. 
  match goal with |- exists v, ApplyAnalyticLagLead _ _ _ _ _ = Ok ?values /\ _ =>
    destruct (lag_lead_rows window window_rows (analytic $"lag" [ref k_column] None) (ref k_column) []
      (-1) 1 None empty_context values [] 2 0) as (v & V & E) end;
    [reflexivity|reflexivity|reflexivity|vm_compute; reflexivity|vm_compute; reflexivity
    |vm_compute; split; discriminate|].
  exists v. split; [vm_compute; reflexivity|]. split; [exact V|].
  vm_compute in E. injection E as <-. reflexivity.
Defined.

(** [ROWS BETWEEN 1 PRECEDING AND 1 FOLLOWING] *)
Definition around : WindowFrame :=
  mkFrame ROWS (Some (mkBound OFFSET_PRECEDING one)) (Some (mkBound OFFSET_FOLLOWING one)).

Lemma rows_frame_witness :
  ResolveWindowFrameRows (analytic $"sum" [ref k_column] (Some around)) (group_order_by window)
    (BuildAnalyticGroupLayout window window_rows) window_rows
    (BuildPartitionOrder (BuildAnalyticGroupLayout window window_rows)) 1 empty_context = Ok [1; 2].
Proof.
  destruct (rows_frame window window_rows (analytic $"sum" [ref k_column] (Some around)) around
              (group_order_by window) [] 0 1 empty_context 1 1) as [F _];
    [reflexivity|reflexivity|discriminate|vm_compute; reflexivity|vm_compute; reflexivity
    |vm_compute; split; [discriminate|reflexivity]|vm_compute; split; [discriminate|reflexivity]|].
  rewrite F; [vm_compute; reflexivity|exists (mkBound OFFSET_PRECEDING one); repeat split
             |exists (mkBound OFFSET_FOLLOWING one); repeat split].
Defined.

(** ** Queries *)

Definition by_key : list OrderByItem := [mkItem (Some (k_column, false)) true NULLS_FIRST None].

Lemma order_by_sorts_witness :
  OrderByRows by_key people_rows ≡ₚ people_rows /\
  StronglySorted (not_after (sql_before by_key)) (OrderByRows by_key people_rows).
Proof.
  destruct (order_by_sorts by_key people_rows) as (P & S & _); [|split; [exact P|exact S]].
  apply Forall_cons. split; [|apply Forall_nil; exact I].
  split; [reflexivity|]. intros id [= <-]. exists TInt64. split; [reflexivity|].
  intros row R. apply list_elem_of_In in R. unfold people_rows in R.
  repeat (destruct R as [<-|R]; [vm_compute; reflexivity|]). destruct R.
Defined.

(** [WITH w AS (SELECT k, v FROM people) SELECT c, d FROM w] *)
Definition c_column : ResolvedColumn := column 11 $"c" TInt64.
Definition d_column : ResolvedColumn := column 12 $"d" TString.

Lemma with_ref_rows_witness :
  exists out, MaterializeScanImpl (WithScan [c_column; d_column] [($"w", people)]
                (WithRefScan [c_column; d_column] $"w")) empty_context = Ok out /\ length out = 4.
Proof.
  destruct (with_ref_rows $"w" people [c_column; d_column] [c_column; d_column] empty_context people_rows)
    as (out & O & F).
  - intros t read rows [= <-] [= <-] [= <-]. repeat constructor.
  - reflexivity.
  - apply (bool_decide_unpack _). vm_compute. exact I.
  - vm_compute. reflexivity.
  - exists out. split; [exact O|]. apply Forall2_length in F. rewrite <- F. reflexivity.
Defined.

(** [4 IN (SELECT j FROM numbers)]: FALSE where SQL has NULL. *)
Lemma in_subquery_values_witness :
  DispatchIn $"$in" [SInt64 4; SInt64 2; SInt64 3; SNull TInt64] = Ok NullBool /\
  EvalInSubquery (ELiteral (SInt64 4)) numbers_rows 3 empty_context = Ok (SBool false).
Proof.
  destruct (in_subquery_values (ELiteral (SInt64 4)) numbers_rows 3 empty_context (SInt64 4)
              [SInt64 2; SInt64 3; SNull TInt64]) as (w & D & E).
  - reflexivity.
  - discriminate.
  - repeat constructor.
  - assert (w = NullBool) as -> by (vm_compute in D; injection D as <-; reflexivity).
    split; [exact D|exact E].
Defined.

(** ** The theorems of the expression evaluator on concrete inputs

    Closed instances of the theorems on operators, casts and calls, computed
    with the reference instances. *)

Lemma logic_is_kleene_witness :
  DispatchAnd [SBool true; NullBool; SBool false] = Ok (SBool false) /\
  DispatchOr [SBool true; NullBool; SBool false] = Ok (SBool true).
Proof.
  destruct (logic_is_kleene [SBool true; NullBool; SBool false] ltac:(vm_compute; reflexivity))
    as (A & O & _).
  split; [exact A|exact O].
Defined.

Lemma like_terminates_witness : like_loop 100 $"abab" $"%ab" like_start = Some true.
Proof.
  change true with (SqlLikeMatch $"abab" $"%ab").
  apply like_terminates. apply Nat.leb_le. reflexivity.
Defined.

Lemma in_is_disjunction_witness :
  DispatchIn $"$not_in" [SInt64 3; SInt64 1; SNull TInt64] = Ok NullBool.
Proof.
  destruct (in_is_disjunction (SInt64 3) [SInt64 1; SNull TInt64] ltac:(discriminate)) as [_ N].
  apply (N NullBool). vm_compute. reflexivity.
Defined.

Lemma bitwise_int64_witness :
  DispatchBitwise $"$bitwise_right_shift" [SInt64 (-1); SInt64 60] = Ok (SInt64 15).
Proof.
  destruct (bitwise_int64 (-1) 60 ltac:(vm_compute; split; discriminate)
              ltac:(vm_compute; split; discriminate)) as (_ & _ & R).
  exact R.
Defined.

Lemma cast_array_typed :
  EvalResolvedCast (plain_cast false) (Some (TArray TString)) (SArray TInt64 [SInt64 7; SNull TInt64])
    (Some (TArray TInt64)) = Ok (SArray TString [SString $"7"; SNull TString]) /\
  has_type (SArray TString [SString $"7"; SNull TString]) (TArray TString) = true.
Proof.
  assert (EvalResolvedCast (plain_cast false) (Some (TArray TString))
    (SArray TInt64 [SInt64 7; SNull TInt64]) (Some (TArray TInt64)) =
    Ok (SArray TString [SString $"7"; SNull TString])) as E by (vm_compute; reflexivity).
  split; [exact E|].
  apply (cast_type_sound (plain_cast false) (TArray TInt64) (TArray TString)
           (SArray TInt64 [SInt64 7; SNull TInt64])); [reflexivity..|exact E].
Defined.

Lemma safe_cast_total_witness :
  exists v, EvalResolvedCast (plain_cast true) (Some TInt64) (SString $"seven") (Some TString) = Ok v.
Proof. apply safe_cast_total; reflexivity. Defined.

Lemma int64_text_roundtrip_witness :
  EvalResolvedCast (plain_cast false) (Some TInt64) (SString (StrInt (-42))) (Some TString)
  = Ok (SInt64 (-42)).
Proof.
  destruct (int64_text_roundtrip false (-42) ltac:(vm_compute; split; discriminate)) as (s & S & R & _).
  injection S as <-. apply R. discriminate.
Defined.

Lemma div_mod_int64_witness :
  Mod [SInt64 (-7); SInt64 3] = Some (Ok (SInt64 2)) /\
  Div [SInt64 (-7); SInt64 3] = Some (Ok (SInt64 (-2))).
Proof.
  destruct (div_mod_int64 (-7) 3 ltac:(vm_compute; split; discriminate)
              ltac:(vm_compute; split; discriminate) ltac:(discriminate)) as (D & _ & M & _).
  split; [exact M|exact D].
Defined.

(** [CASE WHEN NULL THEN 1 WHEN TRUE THEN 2 ELSE NULL END] *)
Definition case_example : list ResolvedExpr :=
  [ELiteral NullBool; ELiteral (SInt64 1); ELiteral (SBool true); ELiteral (SInt64 2);
   ELiteral (SNull TInt64)].

Lemma lazy_is_eager_witness :
  EvalLazyBuiltinByName EvalExpr $"$case_no_value" case_example (Some TInt64) empty_context
  = Ok (SInt64 2).
Proof.
  apply (lazy_is_eager $"$case_no_value" case_example (Some TInt64) empty_context
           [NullBool; SInt64 1; SBool true; SInt64 2; SNull TInt64] (SInt64 2));
    [|reflexivity| |vm_compute; reflexivity].
  - apply (bool_decide_eq_true ($"$case_no_value" ∈ lazy_conditionals)). vm_compute. reflexivity.
  - intros v [= <-] _. reflexivity.
Defined.

(** [SAFE.abs(1 + 9223372036854775807)] *)
Definition overflowing : ResolvedExpr :=
  call $"$add" [ELiteral (SInt64 1); ELiteral (SInt64 int64_max)] TInt64.

Lemma safe_call_witness :
  EvalExpr (ECall (builtin $"abs") None None [overflowing] DEFAULT_ERROR_MODE (Some TInt64))
    empty_context = Err (MakeSemanticError rOverflow $"Int64 overflow: 1 + 9223372036854775807") /\
  EvalExpr (ECall (builtin $"abs") None None [overflowing] SAFE_ERROR_MODE (Some TInt64))
    empty_context = Ok (SNull TInt64).
Proof.
  split; [vm_compute; reflexivity|].
  destruct (safe_call (mkFunction $"abs" $"abs" $"GoogleSQL" false None None) None None [overflowing]
              (Some TInt64) empty_context) as (_ & _ & C).
  { split; [left; reflexivity|]. split; [reflexivity|]. split; reflexivity. }
  eapply C; [vm_compute; reflexivity|]. left. reflexivity.
Defined.
