(* ===== verification/OtherScans.v ===== *)
(** * OtherScans: sampling, table functions and pattern matching

    Models [scan_eval_sample.cc] (TABLESAMPLE), [eval_tvf.cc] with the model stubs of
    [stubs/ml.cc] (table functions) and [scan_eval_match_recognize.cc].  These are the
    scans [Scans] leaves to [MaterializeOtherScan]; [TiedScans] says that it is the
    switch of this file on the node behind its name.

    The draws of the random generator, the fixture behind EXTERNAL_QUERY (a file) and
    GoogleSQL's matcher of row patterns are parameters. *)

From S2P Require Import Prelude Order Absl AbslReference Storage SemanticError FrameStack.
From S2P Require Import SqlValue GoogleSqlReference Arithmetic Operators MathFuncs Casts EvalExpr.
From S2P Require Import EvalProps Rows Joins SetOps Unnest AggFuncs Aggregates Analytic Scans.

(** ** Nodes *)

Section other_nodes.
Context `{GoogleSql, ExecutorNodes}.

(** [sample_percent] is the unit PERCENT; a null expression is [ENull]. *)
Record SampleNode := mkSample {
  sample_input : Scan;
  sample_method : str;
  sample_percent : bool;
  sample_size : ResolvedExpr;
  repeatable_argument : ResolvedExpr;
  weight_column : option ResolvedColumn;
  sample_partition_by : list ResolvedExpr;
}.

Inductive TvfArgument :=
| NullArgument
| ScanArgument (scan : Scan)
| ExprArgument (expr : ResolvedExpr).

(** [tvf_name] is [None] for a null function; [templated_query] the query of a
    templated signature; [sql_tvf] the argument names and the query of an
    [SQLTableValuedFunction]. *)
Record TvfNode := mkTvf {
  tvf_columns : list ResolvedColumn;
  tvf_name : option str;
  tvf_arguments : list TvfArgument;
  templated_query : option Scan;
  sql_tvf : option (list str * Scan);
}.

Inductive AfterMatchSkip := SKIP_UNSPECIFIED | END_OF_MATCH | NEXT_ROW.

Record MeasureGroup := mkMeasures {
  pattern_variable_ref : option str;
  measure_aggregates : list ComputedColumn;
}.

(** [match_group] is the first analytic group: its partitioning and ordering. *)
Record MatchNode := mkMatchNode {
  match_columns : list ResolvedColumn;
  match_input : Scan;
  match_options : list (str * ResolvedExpr);
  after_match_skip : AfterMatchSkip;
  match_group : option (list (option ResolvedColumn) * list OrderByItem);
  match_definitions : list (option (str * ResolvedExpr));
  measure_groups : list (option MeasureGroup);
  match_number_column : ResolvedColumn;
  match_row_number_column : ResolvedColumn;
  classifier_column : ResolvedColumn;
}.

(** [match_recognize::Match] *)
Record Match := mkMatch {
  start_row_index : Z;
  match_id : Z;
  pattern_vars_by_row : list Z;
}.

Record ExternalQueryFixture := mkFixture {
  fixture_rows : list Row;
  fixture_schema : list str;
  fixture_column_ids : list Z;
}.

Inductive OtherNode :=
| SampleScan (node : SampleNode)
| TvfScan (node : TvfNode)
| MatchRecognizeScan (node : MatchNode)
| UnknownScan (node_kind : str).
End other_nodes.

Class OtherParts `{GoogleSql, ExecutorNodes} := {
  other_node : str -> OtherNode;
  (** [std::random_device] and the draws in [0, 1) of [mt19937_64] with a seed *)
  random_device : Z;
  uniform_draw : Z -> nat -> spec_float;
  (** [static_cast<uint64_t>] of a double *)
  double_to_uint64 : spec_float -> Z;
  LoadExternalQueryFixture : str -> str -> StatusOr ExternalQueryFixture;
  Matcher : Type;
  (** [CompiledPattern::Create] and [CreateMatchPartition] *)
  CreateMatcher : MatchNode -> StatusOr Matcher;
  AddRow : Matcher -> list bool -> StatusOr (Matcher * list Match);
  Finalize : Matcher -> StatusOr (list Match);
}.

Section other_scans.
Context `{AbslText, AbslDouble, GoogleSqlOps, ExecutorNodes}.
Context `{!CastLibrary, !ExecutorParts, !ResolvedAst, !AggregateParts, !OtherParts}.

(** ** TABLESAMPLE *)

Definition StratifyFingerprint (keys : list Value) : str := GroupKeyFingerprint keys.

(** The weight column by its id, else by its name among the columns of the table. *)
Definition weight_value (scan : SampleNode) (col : ResolvedColumn) (row : Row) : option Value :=
  match row !! column_id col with
  | Some v => Some v
  | None =>
      match StripBarrierScans (sample_input scan) with
      | TableScan cols _ _ =>
          head (omap (fun c => if bool_decide (column_name c = column_name col) then row !! column_id c else None) cols)
      | _ => None
      end
  end.

Definition EvalSampleWeight (scan : SampleNode) (row : Row) : StatusOr spec_float :=
  match weight_column scan with
  | None => Ok (dbl_of_Z 1)
  | Some col =>
      match weight_value scan col row with
      | None => Err (rows_error $"semantic: sample weight column missing")
      | Some weight =>
          if is_null weight then Ok dbl_zero
          else match weight with
               | SInt64 z => Ok (dbl_of_Z z)
               | SDouble d => Ok d
               | SFloat d => Ok d
               | SNumeric n => Ok (num_to_double numeric n)
               | _ => Err (rows_error $"semantic: sample weight must be numeric")
               end
      end
  end.

Definition StratifyKeys (scan : SampleNode) (row : Row) (ctx : EvalContext) : StatusOr (list Value) :=
  outcome_mapM (fun expr => EvalExpr expr (set_columns ctx row))
    (List.filter (fun e => negb (is_null_expr e)) (sample_partition_by scan)).

Definition SampleSeed (scan : SampleNode) (ctx : EvalContext) : Z :=
  if is_null_expr (repeatable_argument scan) then random_device
  else match EvalExpr (repeatable_argument scan) ctx with
       | Err _ => 0
       | Ok v => if is_null v then 0%Z
                 else match v with
                      | SInt64 z => u64 z
                      | SDouble d => double_to_uint64 d
                      | _ => 0
                      end
       end.

Definition ParseSamplePercent (scan : SampleNode) (ctx : EvalContext) : StatusOr spec_float :=
  if is_null_expr (sample_size scan) then Err (InvalidArgumentError $"semantic: TABLESAMPLE missing size")
  else
    v ← EvalExpr (sample_size scan) ctx;
    if is_null v then Err (rows_error $"semantic: TABLESAMPLE size must not be NULL")
    else
      percent ← match v with
                | SInt64 z => Ok (dbl_of_Z z)
                | SDouble d => Ok d
                | _ => Err (rows_error $"semantic: TABLESAMPLE size must be numeric")
                end;
      if SFltb percent dbl_zero || SFltb (dbl_of_Z 100) percent
      then Err (rows_error $"semantic: TABLESAMPLE percent out of range")
      else Ok percent.

(** The stratum of a row and its weight. *)
Definition stratum_and_weight (scan : SampleNode) (ctx : EvalContext) (row : Row) : StatusOr (str * spec_float) :=
  keys ← StratifyKeys scan row ctx;
  weight ← EvalSampleWeight scan row;
  Ok (StratifyFingerprint keys, weight).

(** [std::max(a, b)] *)
Definition dbl_max (a b : spec_float) : spec_float := if SFltb a b then b else a.

Definition stratum_max (m : gmap str spec_float) (fp : str) : spec_float := default dbl_zero (m !! fp).

Definition BuildStratumMaxWeights (scan : SampleNode) (rows : list Row) (ctx : EvalContext)
    : StatusOr (gmap str spec_float) :=
  weighed ← outcome_mapM (stratum_and_weight scan ctx) rows;
  Ok (fold_left (fun m (p : str * spec_float) => <[p.1 := dbl_max (stratum_max m p.1) p.2]> m) weighed ∅).

Definition sample_probability (fraction max_w row_weight : spec_float) (has_weight_column : bool) : spec_float :=
  if SFltb fraction (dbl_of_Z 1) && SFltb dbl_zero max_w && has_weight_column
  then dbl_mul fraction (dbl_div row_weight max_w) else fraction.

(** Whether the row is kept, and the number of draws made so far. *)
Definition KeepBernoulliRow (fraction max_w row_weight : spec_float) (has_weight_column : bool) (seed : Z)
    (draws : nat) : bool * nat :=
  let probability := sample_probability fraction max_w row_weight has_weight_column in
  if SFleb (dbl_of_Z 1) probability then (true, draws)
  else if SFleb probability dbl_zero then (false, draws)
  else (SFltb (uniform_draw seed draws) probability, S draws).

Fixpoint bernoulli_loop (scan : SampleNode) (ctx : EvalContext) (fraction : spec_float) (seed : Z)
    (max_weights : gmap str spec_float) (rows : list Row) (draws : nat) : StatusOr (list Row) :=
  match rows with
  | [] => Ok []
  | row :: rows =>
      p ← stratum_and_weight scan ctx row;
      let has_weight_column := bool_decide (is_Some (weight_column scan)) in
      let '(keep, draws) := KeepBernoulliRow fraction (stratum_max max_weights p.1) p.2 has_weight_column seed draws in
      out ← bernoulli_loop scan ctx fraction seed max_weights rows draws;
      Ok (if keep then row :: out else out)
  end.

Definition BernoulliPercentSample (scan : SampleNode) (rows : list Row) (ctx : EvalContext) : StatusOr (list Row) :=
  percent ← ParseSamplePercent scan ctx;
  let fraction := dbl_div percent (dbl_of_Z 100) in
  max_weights ← BuildStratumMaxWeights scan rows ctx;
  bernoulli_loop scan ctx fraction (SampleSeed scan ctx) max_weights rows 0.

(** [MaterializeSampleScan] on the materialized input. *)
Definition SampleRows (scan : SampleNode) (rows : list Row) (ctx : EvalContext) : StatusOr (list Row) :=
  match rows with
  | [] => Ok []
  | _ =>
      let method := AsciiStrToLower (sample_method scan) in
      if negb (sample_percent scan)
      then Err (not_implemented ($"semantic: TABLESAMPLE " ++ method
                                   ++ $" with ROWS unit on semantic path is not implemented"))
      else if negb (is_name method [$"bernoulli"; $"system"])
      then Err (not_implemented ($"semantic: TABLESAMPLE method " ++ method
                                   ++ $" is not implemented on semantic path"))
      else BernoulliPercentSample scan rows ctx
  end.

Definition MaterializeSampleScan (scan : SampleNode) (ctx : EvalContext) : StatusOr (list Row) :=
  rows ← MaterializeScanImpl (sample_input scan) ctx; SampleRows scan rows ctx.

(** ** Table functions *)

Definition RemapScanOutputColumns (rows : list Row) (src_scan : Scan) (cols : list ResolvedColumn)
    : StatusOr (list Row) :=
  if is_null_scan src_scan then Ok rows
  else if negb (length cols =? length (column_list src_scan))
  then Err (InternalError $"semantic: TVFScan output column count does not match inner query")
  else match cols with
  | [] => Ok rows
  | _ => outcome_mapM (fun r => remap_stored $"semantic: TVF inner row missing column_id="
                                  (map column_id (column_list src_scan)) cols r ∅) rows
  end.

(** The frames of scalar arguments and the tables of relations. *)
Fixpoint bind_tvf_arguments (ctx : EvalContext) (names : list str) (args : list TvfArgument)
    (frames : FrameStack Value) (relations : gmap str CteTable) : StatusOr (FrameStack Value * gmap str CteTable) :=
  match names, args with
  | name :: names, arg :: args =>
      match arg with
      | NullArgument => Err (InvalidArgumentError $"semantic: TVF call has null argument")
      | ScanArgument scan =>
          rows ← MaterializeScanImpl scan ctx;
          bind_tvf_arguments ctx names args frames (emplace (AsciiStrToLower name) (cte_table scan rows) relations)
      | ExprArgument ENull => Err (InvalidArgumentError $"semantic: TVF call has null argument expression")
      | ExprArgument expr =>
          value ← EvalExpr expr ctx;
          match Declare_ frames name value with
          | (_, Err e) => Err e
          | (frames, Ok _) => bind_tvf_arguments ctx names args frames relations
          end
      end
  | _, _ => Ok (frames, relations)
  end.

Definition BindTvfArguments (scan : TvfNode) (arg_names : list str) (ctx : EvalContext)
    : StatusOr (FrameStack Value * gmap str CteTable) :=
  if negb (length arg_names =? length (tvf_arguments scan))
  then Err (InvalidArgumentError ($"semantic: TVF argument count mismatch (expected "
              ++ StrInt (Z.of_nat (length arg_names)) ++ $", got "
              ++ StrInt (Z.of_nat (length (tvf_arguments scan))) ++ $")"))
  else bind_tvf_arguments ctx arg_names (tvf_arguments scan) (PushFrame NewFrameStack) ∅.

(** *** Model stubs *)

Definition InputColumnIdsByName (input_scan : Scan) : gmap str Z :=
  fold_left (fun m c => emplace (AsciiStrToLower (column_name c)) (column_id c) m) (column_list input_scan) ∅.

Definition ml_null_type : Status := InternalError $"semantic stub: ML TVF output column has null type".

Fixpoint null_columns (cols : list ResolvedColumn) (row : Row) : StatusOr Row :=
  match cols with
  | [] => Ok row
  | col :: cols =>
      match column_type col with
      | None => Err ml_null_type
      | Some t => null_columns cols (emplace (column_id col) (SNull t) row)
      end
  end.

Definition SingleNullRow (scan : TvfNode) : StatusOr (list Row) :=
  row ← null_columns (tvf_columns scan) ∅; Ok [row].

Fixpoint extended_row (input_ids : gmap str Z) (in_row : Row) (cols : list ResolvedColumn) (row : Row) : StatusOr Row :=
  match cols with
  | [] => Ok row
  | col :: cols =>
      match column_type col with
      | None => Err ml_null_type
      | Some t =>
          let v := match input_ids !! AsciiStrToLower (column_name col) with
                   | Some id => default (SNull t) (in_row !! id)
                   | None => SNull t
                   end in
          extended_row input_ids in_row cols (emplace (column_id col) v row)
      end
  end.

Definition PassThroughWithNullExtensions (scan : TvfNode) (input_rows : list Row) (input_scan : Scan)
    : StatusOr (list Row) :=
  outcome_mapM (fun in_row => extended_row (InputColumnIdsByName input_scan) in_row (tvf_columns scan) ∅) input_rows.

Definition ml_needs_table : Status :=
  MakeSemanticError rInvalidArgument $"semantic stub: ML.PREDICT requires a TABLE input argument".

Definition MlPredictStub (scan : TvfNode) (input_rows : list Row) (input_scan : Scan) : StatusOr (list Row) :=
  if is_null_scan input_scan then Err ml_needs_table else PassThroughWithNullExtensions scan input_rows input_scan.
Definition MlEvaluateStub (scan : TvfNode) : StatusOr (list Row) := SingleNullRow scan.
Definition MlForecastStub (scan : TvfNode) : StatusOr (list Row) := SingleNullRow scan.

(** The first argument that is a scan. *)
Definition first_scan (args : list TvfArgument) : option Scan :=
  head (omap (fun a => match a with ScanArgument s => Some s | _ => None end) args).

Definition MaterializeMlPredictTvf (scan : TvfNode) (ctx : EvalContext) : StatusOr (list Row) :=
  match first_scan (tvf_arguments scan) with
  | None => Err ml_needs_table
  | Some input => rows ← MaterializeScanImpl input ctx; MlPredictStub scan rows input
  end.

(** The input is evaluated for its errors only. *)
Definition MaterializeMlEvaluateTvf (scan : TvfNode) (ctx : EvalContext) : StatusOr (list Row) :=
  match first_scan (tvf_arguments scan) with
  | None => MlEvaluateStub scan
  | Some input => _ ← MaterializeScanImpl input ctx; MlEvaluateStub scan
  end.

(** *** Queries *)

Definition MaterializeTemplatedSqlTvf (scan : TvfNode) (inner : Scan) (ctx : EvalContext) : StatusOr (list Row) :=
  rows ← MaterializeScanImpl inner ctx; RemapScanOutputColumns rows inner (tvf_columns scan).

Fixpoint fixture_row (fixture : ExternalQueryFixture) (in_row : Row) (cols : list ResolvedColumn) (row : Row)
    : StatusOr Row :=
  match cols with
  | [] => Ok row
  | col :: cols =>
      match list_find (fun name => EqualsIgnoreCase name (column_name col) = true) (fixture_schema fixture) with
      | None => Err (InternalError ($"semantic: EXTERNAL_QUERY fixture missing output column '"
                                      ++ column_name col ++ $"'"))
      | Some (idx, _) =>
          match fixture_column_ids fixture !! idx ≫= fun src_id => in_row !! src_id with
          | None => Err (InternalError ($"semantic: EXTERNAL_QUERY fixture row missing column '"
                                          ++ column_name col ++ $"'"))
          | Some v => fixture_row fixture in_row cols (emplace (column_id col) v row)
          end
      end
  end.

Definition MaterializeExternalQueryTvf (scan : TvfNode) (ctx : EvalContext) : StatusOr (list Row) :=
  match tvf_arguments scan with
  | ExprArgument conn :: ExprArgument query :: _ =>
      if is_null_expr conn || is_null_expr query
      then Err (InvalidArgumentError $"EXTERNAL_QUERY requires constant connection and query arguments")
      else
        c ← EvalExpr conn ctx;
        if negb (is_kind c TYPE_STRING)
        then Err (InvalidArgumentError $"EXTERNAL_QUERY connection argument must be STRING")
        else
          q ← EvalExpr query ctx;
          if negb (is_kind q TYPE_STRING)
          then Err (InvalidArgumentError $"EXTERNAL_QUERY query argument must be STRING")
          else
            fixture ← LoadExternalQueryFixture (string_value c) (string_value q);
            outcome_mapM (fun in_row => fixture_row fixture in_row (tvf_columns scan) ∅) (fixture_rows fixture)
  | _ :: _ :: _ => Err (InvalidArgumentError $"EXTERNAL_QUERY requires constant connection and query arguments")
  | _ => Err (InvalidArgumentError $"EXTERNAL_QUERY requires (connection STRING, query STRING)")
  end.

Definition set_tvf_arguments (ctx : EvalContext) (frames : FrameStack Value) (relations : gmap str CteTable)
    : EvalContext :=
  mkContext (project_id ctx) (parameters ctx) (columns ctx) (columns_by_name ctx) (Some frames)
    (script_variables ctx) (script_system_variables ctx) (udaf ctx) (with_tables ctx) (Some relations)
    (group_rows ctx).

Definition MaterializeRegisteredSqlTvf (scan : TvfNode) (ctx : EvalContext) : StatusOr (list Row) :=
  match sql_tvf scan with
  | None => Err (not_implemented ($"semantic: TVF '" ++ default [] (tvf_name scan) ++ $"' is not a supported SQL TVF"))
  | Some (arg_names, inner_query) =>
      if is_null_scan inner_query then Err (InternalError $"semantic: SQLTableValuedFunction has null query scan")
      else
        bound ← BindTvfArguments scan arg_names ctx;
        rows ← MaterializeScanImpl inner_query (set_tvf_arguments ctx bound.1 bound.2);
        RemapScanOutputColumns rows inner_query (tvf_columns scan)
  end.

Definition MaterializeTvfScan (scan : TvfNode) (ctx : EvalContext) : StatusOr (list Row) :=
  match tvf_name scan with
  | None => Err (InvalidArgumentError $"semantic: TVFScan has null tvf")
  | Some sql_name =>
      let name := AsciiStrToLower sql_name in
      if bool_decide (name = $"ml.predict") then MaterializeMlPredictTvf scan ctx
      else if bool_decide (name = $"ml.evaluate") then MaterializeMlEvaluateTvf scan ctx
      else if bool_decide (name = $"ml.forecast") then MlForecastStub scan
      else if bool_decide (name = $"external_query") then MaterializeExternalQueryTvf scan ctx
      else match templated_query scan with
           | Some inner => MaterializeTemplatedSqlTvf scan inner ctx
           | None => MaterializeRegisteredSqlTvf scan ctx
           end
  end.

(** ** MATCH_RECOGNIZE *)

Definition check_match_option (option : str * ResolvedExpr) : StatusOr unit :=
  let '(name, value) := option in
  if is_null_expr value then Ok ()
  else if negb (bool_decide (AsciiStrToLower name = $"use_longest_match"))
  then Err (not_implemented ($"semantic: MATCH_RECOGNIZE option " ++ name ++ $" is not implemented"))
  else match value with
  | ELiteral v =>
      if negb (is_null v) && bool_value v
      then Err (not_implemented $"semantic: MATCH_RECOGNIZE use_longest_match=TRUE is not implemented")
      else Ok ()
  | _ => Err (not_implemented
           $"semantic: MATCH_RECOGNIZE use_longest_match with query parameters is not implemented")
  end.

Definition CheckUnsupportedMatchRecognizeOptions (scan : MatchNode) : StatusOr unit :=
  _ ← outcome_mapM check_match_option (match_options scan);
  match after_match_skip scan with
  | NEXT_ROW => Err (not_implemented $"semantic: MATCH_RECOGNIZE AFTER MATCH SKIP TO NEXT ROW is not implemented")
  | _ => Ok ()
  end.

(** The PARTITION BY columns, none without a group. *)
Definition match_partition_by (scan : MatchNode) : list (option ResolvedColumn) :=
  match match_group scan with Some (cols, _) => cols | None => [] end.
Definition match_order_by (scan : MatchNode) : list OrderByItem :=
  match match_group scan with Some (_, items) => items | None => [] end.

Definition EvalPartitionKeys (partition_by : list (option ResolvedColumn)) (row : Row) : StatusOr (list Value) :=
  outcome_mapM (fun col =>
    match col with
    | None => Err (InternalError $"semantic: MATCH_RECOGNIZE partition_by_list has null ref")
    | Some c =>
        match row !! column_id c with
        | Some v => Ok v
        | None => Err (rows_error $"semantic: MATCH_RECOGNIZE partition column missing from input row")
        end
    end) partition_by.

Fixpoint MatchRecognizeOrderRowLess (items : list OrderByItem) (a b : Row) : bool :=
  match items with
  | [] => false
  | item :: items =>
      match column_ref item with
      | None => MatchRecognizeOrderRowLess items a b
      | Some (col, _) =>
          match CompareArrayAggOrderKey item (LookupColumnValue a (column_id col)) (LookupColumnValue b (column_id col)) with
          | Eq => MatchRecognizeOrderRowLess items a b
          | Lt => true
          | Gt => false
          end
      end
  end.

Definition SortRowsByOrderBy (items : list OrderByItem) (rows : list Row) : list Row :=
  stable_sort (MatchRecognizeOrderRowLess items) rows.

Definition EvalPatternVariableRow (scan : MatchNode) (row : Row) (ctx : EvalContext) : StatusOr (list bool) :=
  let by_name := override_names (PopulateColumnNameBindings (match_input scan) row) ctx in
  outcome_mapM (fun def =>
    match def with
    | None | Some (_, ENull) => Err (InternalError $"semantic: MATCH_RECOGNIZE DEFINE entry has null predicate")
    | Some (_, predicate) => EvalBoolExpr predicate (with_columns ctx row by_name)
    end) (match_definitions scan).

Record MatchRowContext := mkMatchRow {
  mr_row : Row;
  mr_match_id : Z;
  mr_row_number : Z;
  mr_classifier : str;
}.

(** The rows of a match with their numbers from [offset + 1]. *)
Fixpoint match_row_contexts (scan : MatchNode) (partition_rows : list Row) (m : Match) (vars : list Z) (offset : nat)
    : StatusOr (list MatchRowContext) :=
  match vars with
  | [] => Ok []
  | var_index :: vars =>
      let row_index := (start_row_index m + Z.of_nat offset)%Z in
      match (if (row_index <? 0)%Z then None else partition_rows !! Z.to_nat row_index) with
      | None => Err (InternalError $"semantic: MATCH_RECOGNIZE match row index out of range")
      | Some row =>
          match (if (var_index <? 0)%Z then None else match_definitions scan !! Z.to_nat var_index) with
          | None => Err (InternalError $"semantic: MATCH_RECOGNIZE pattern variable index out of range")
          | Some def =>
              rest ← match_row_contexts scan partition_rows m vars (S offset);
              Ok (mkMatchRow row (match_id m) (Z.of_nat (S offset)) match def with Some (n, _) => n | None => [] end
                    :: rest)
          end
      end
  end.

Definition BuildMatchRowContexts (scan : MatchNode) (partition_rows : list Row) (m : Match)
    : StatusOr (list MatchRowContext) :=
  match_row_contexts scan partition_rows m (pattern_vars_by_row m) 0.

(** The rows of a match with its three columns added. *)
Definition augmented_row (scan : MatchNode) (context : MatchRowContext) : Row :=
  <[column_id (classifier_column scan) := SString (mr_classifier context)]>
    (<[column_id (match_row_number_column scan) := SInt64 (mr_row_number context)]>
       (<[column_id (match_number_column scan) := SInt64 (mr_match_id context)]> (mr_row context))).

Definition FilterRowsForMeasureGroup (group : MeasureGroup) (contexts : list MatchRowContext) : list MatchRowContext :=
  match pattern_variable_ref group with
  | None => contexts
  | Some name => List.filter (fun c => bool_decide (mr_classifier c = name)) contexts
  end.

Fixpoint measure_aggregate_values (scan : MatchNode) (rows : list Row) (ctx : EvalContext)
    (columns : list ComputedColumn) (out_row : Row) : StatusOr Row :=
  match columns with
  | [] => Ok out_row
  | (_, ENull) :: _ => Err (InternalError $"semantic: MATCH_RECOGNIZE measure aggregate has null expr")
  | (col, expr) :: columns =>
      match is_aggregate_call expr with
      | None => Err (not_implemented $"semantic: MATCH_RECOGNIZE measure is not an aggregate call")
      | Some agg =>
          v ← EvalAggregateForRows agg (match_input scan) rows (seq 0 (length rows)) ctx;
          measure_aggregate_values scan rows ctx columns (<[column_id col := v]> out_row)
      end
  end.

Definition EvalMatchMeasureGroup (group : MeasureGroup) (scan : MatchNode) (contexts : list MatchRowContext)
    (ctx : EvalContext) : StatusOr Row :=
  measure_aggregate_values scan (map (augmented_row scan) (FilterRowsForMeasureGroup group contexts)) ctx
    (measure_aggregates group) ∅.

Fixpoint match_measures (scan : MatchNode) (contexts : list MatchRowContext) (ctx : EvalContext)
    (groups : list (option MeasureGroup)) (out_row : Row) : StatusOr Row :=
  match groups with
  | [] => Ok out_row
  | None :: _ => Err (InternalError $"semantic: MATCH_RECOGNIZE measure_group_list has null entry")
  | Some group :: groups =>
      group_row ← EvalMatchMeasureGroup group scan contexts ctx;
      match_measures scan contexts ctx groups (out_row ∪ group_row)
  end.

(** The columns no measure has bound, from the first row of the match. *)
Fixpoint match_output_columns (scan : MatchNode) (contexts : list MatchRowContext) (cols : list ResolvedColumn)
    (out_row : Row) : StatusOr Row :=
  match cols with
  | [] => Ok out_row
  | col :: cols =>
      let col_id := column_id col in
      if bool_decide (is_Some (out_row !! col_id)) then match_output_columns scan contexts cols out_row
      else match contexts with
      | [] => Err (InternalError $"semantic: MATCH_RECOGNIZE match has no rows for output")
      | first :: _ =>
          let bind v := match_output_columns scan contexts cols (<[col_id := v]> out_row) in
          if bool_decide (col_id = column_id (match_number_column scan)) then bind (SInt64 (mr_match_id first))
          else if bool_decide (col_id = column_id (match_row_number_column scan)) then bind (SInt64 (mr_row_number first))
          else if bool_decide (col_id = column_id (classifier_column scan)) then bind (SString (mr_classifier first))
          else match mr_row first !! col_id with
               | Some v => bind v
               | None => Err (rows_error ($"semantic: MATCH_RECOGNIZE output column " ++ column_name col
                                            ++ $" missing from match row"))
               end
      end
  end.

Definition EvalMatchMeasures (scan : MatchNode) (contexts : list MatchRowContext) (ctx : EvalContext) : StatusOr Row :=
  out_row ← match_measures scan contexts ctx (measure_groups scan) ∅;
  match_output_columns scan contexts (match_columns scan) out_row.

Fixpoint feed_rows (scan : MatchNode) (ctx : EvalContext) (rows : list Row) (matcher : Matcher)
    : StatusOr (list Match) :=
  match rows with
  | [] => Finalize matcher
  | row :: rows =>
      predicates ← EvalPatternVariableRow scan row ctx;
      added ← AddRow matcher predicates;
      later ← feed_rows scan ctx rows added.1;
      Ok (added.2 ++ later)
  end.

Definition RunPartitionMatching (scan : MatchNode) (partition_rows : list Row) (ctx : EvalContext)
    : StatusOr (list Match) :=
  matcher ← CreateMatcher scan; feed_rows scan ctx partition_rows matcher.

(** The output row of a match, none for a match without rows. *)
Definition match_output (scan : MatchNode) (partition_rows : list Row) (ctx : EvalContext) (m : Match)
    : StatusOr (list Row) :=
  contexts ← BuildMatchRowContexts scan partition_rows m;
  match contexts with
  | [] => Ok []
  | _ => row ← EvalMatchMeasures scan contexts ctx; Ok [row]
  end.

Definition partition_output (scan : MatchNode) (rows : list Row) (ctx : EvalContext) (row_indices : list nat)
    : StatusOr (list Row) :=
  let partition_rows := SortRowsByOrderBy (match_order_by scan) (map (row_at rows) row_indices) in
  matches ← RunPartitionMatching scan partition_rows ctx;
  out ← outcome_mapM (match_output scan partition_rows ctx) matches;
  Ok (concat out).

(** [MaterializeMatchRecognizeScan] on the materialized input. *)
Definition MatchRecognizeRows (scan : MatchNode) (rows : list Row) (ctx : EvalContext) : StatusOr (list Row) :=
  match rows with
  | [] => Ok []
  | _ =>
      partitions ← group_rows_by (fun r => EvalPartitionKeys (match_partition_by scan) (row_at rows r))
                     (seq 0 (length rows)) ∅;
      out ← outcome_mapM (fun entry : str * (list Value * list nat) => partition_output scan rows ctx entry.2.2)
              (sorted_entries partitions);
      Ok (concat out)
  end.

Definition MaterializeMatchRecognizeScan (scan : MatchNode) (ctx : EvalContext) : StatusOr (list Row) :=
  _ ← CheckUnsupportedMatchRecognizeOptions scan;
  rows ← MaterializeScanImpl (match_input scan) ctx;
  MatchRecognizeRows scan rows ctx.

(** ** The switch *)

Definition OtherScanRows (node : OtherNode) (ctx : EvalContext) : StatusOr (list Row) :=
  match node with
  | SampleScan n => MaterializeSampleScan n ctx
  | TvfScan n => MaterializeTvfScan n ctx
  | MatchRecognizeScan n => MaterializeMatchRecognizeScan n ctx
  | UnknownScan kind => Err (not_implemented ($"semantic: scan kind " ++ kind ++ $" is not yet implemented"))
  end.

(** The other scans of [MaterializeScanImpl] are those of this file. *)
Class TiedScans : Prop :=
  other_scan_tied kind ctx : MaterializeOtherScan kind ctx = OtherScanRows (other_node kind) ctx.
End other_scans.
