(* ===== verification/Udaf.v ===== *)
(** * Udaf: the bodies of SQL aggregate functions

    Models [eval_udaf.cc] and [eval_udaf_helpers.cc]: the frame of one input row, the
    aggregates a body lists, and the body over their results.  These are what
    [AggregateParts] and [ExecutorParts] call [EvalSqlUdafBody],
    [EvalUdafInnerAggregate] and [EvalUdafInnerFunctionCall].

    The scope of a running body is the record [UdafScope]; its map from columns to
    arguments is null wherever the code builds one. *)

From S2P Require Import Prelude Order Absl AbslReference Storage SemanticError FrameStack.
From S2P Require Import SqlValue GoogleSqlReference Arithmetic Operators MathFuncs Casts EvalExpr.
From S2P Require Import EvalProps Rows Joins SetOps Unnest AggFuncs Aggregates.

Section udaf.
Context `{AbslText, AbslDouble, GoogleSqlOps, ExecutorNodes}.
Context `{!CastLibrary, !ExecutorParts, !ResolvedAst, !AggregateParts}.

(** [UdafEvalScope] *)
Record UdafScope := mkScope {
  arg_columns : list (list Value);
  udaf_rows : list nat;
  arg_is_aggregate : list bool;
  arg_names : list str;
}.

(** What the code reads of an aggregate [SQLFunction]: its body, its argument
    names, whether each argument of its signature is an aggregate one ([None]
    without signatures), and the aggregates its body lists. *)
Record SqlAggregateFunction := mkSqlAggregate {
  FunctionExpression : ResolvedExpr;
  GetArgumentNames : list str;
  signature_arguments : option (list bool);
  aggregate_expression_list : list ComputedColumn;
}.

Definition ArgIsAggregateFlags (fn : SqlAggregateFunction) : StatusOr (list bool) :=
  match signature_arguments fn with
  | Some flags => Ok flags
  | None => Err (InvalidArgumentError $"semantic: SQL UDAF has no function signatures")
  end.

Definition column_out_of_range : Status :=
  InternalError $"semantic: SQL UDAF aggregate argument column out of range".

(** [Declare] in an error monad. *)
Definition declare (frames : FrameStack Value) (name : str) (v : Value) : StatusOr (FrameStack Value) :=
  match Declare_ frames name v with (_, Err e) => Err e | (frames, Ok _) => Ok frames end.

Definition agg_slot_name (slot : nat) : str := $"$agg" ++ StrInt (Z.of_nat slot).

(** The arguments from position [i] on: an aggregate one takes its cell of the row
    and the next slot name, another its value in the outer frame. *)
Fixpoint bind_row_arguments (udaf : UdafScope) (ctx : EvalContext) (row_index i slot : nat)
    (args : list (str * bool)) (frames : FrameStack Value) (by_name : Names) : StatusOr (FrameStack Value * Names) :=
  match args with
  | [] => Ok (frames, by_name)
  | (name, true) :: args =>
      match arg_columns udaf !! i ≫= fun column => column !! row_index with
      | None => Err column_out_of_range
      | Some cell =>
          frames ← declare frames name cell;
          bind_row_arguments udaf ctx row_index (S i) (S slot) args frames (<[agg_slot_name (S slot) := cell]> by_name)
      end
  | (name, false) :: args =>
      match arguments ctx with
      | None => Err (MakeSemanticError rInvalidArgument
                  ($"semantic: SQL UDAF non-aggregate parameter '" ++ name ++ $"' has no outer invocation binding"))
      | Some outer =>
          v ← Lookup outer name;
          frames ← declare frames name v;
          bind_row_arguments udaf ctx row_index (S i) slot args frames by_name
      end
  end.

Definition BindUdafRowFrame (udaf : UdafScope) (ctx : EvalContext) (row_index : nat)
    : StatusOr (FrameStack Value * Names) :=
  bind_row_arguments udaf ctx row_index 0 0 (zip (arg_names udaf) (arg_is_aggregate udaf)) (PushFrame NewFrameStack) ∅.

(** The context of a row or of the body: its arguments and columns, no scope. *)
Definition udaf_ctx (ctx : EvalContext) (frames : FrameStack Value) (row : Row) (by_name : Names) : EvalContext :=
  mkContext (project_id ctx) (parameters ctx) (Some row) (Some by_name) (Some frames) (script_variables ctx)
    (script_system_variables ctx) None (with_tables ctx) (relation_arguments ctx) (group_rows ctx).

(** The values of the arguments of an inner call, a row at a time. *)
Definition inner_columns (args : list ResolvedExpr) (udaf : UdafScope) (ctx : EvalContext) : StatusOr (list (list Value)) :=
  rows ← outcome_mapM (fun r =>
           bound ← BindUdafRowFrame udaf ctx r;
           outcome_mapM (fun e => EvalExpr e (udaf_ctx ctx bound.1 ∅ bound.2)) args) (udaf_rows udaf);
  Ok (columns_of (length args) rows).

Definition UdafInnerAggregate (call : AggregateCall) (udaf : UdafScope) (ctx : EvalContext) : StatusOr Value :=
  columns ← inner_columns (agg_args call) udaf ctx; EvalAggregateCall call columns.

Definition UdafInnerFunctionCall (fn : FunctionInfo) (args : list ResolvedExpr) (type : option SqlType)
    (udaf : UdafScope) (ctx : EvalContext) : StatusOr Value :=
  columns ← inner_columns args udaf ctx; EvalAggregateBuiltin (LowerFunctionDispatchName fn) type false columns.

Fixpoint declare_outer (columns : list (list Value)) (row_indices : list nat) (i : nat) (args : list (str * bool))
    (frames : FrameStack Value) : StatusOr (FrameStack Value) :=
  match args with
  | [] => Ok frames
  | (_, true) :: args => declare_outer columns row_indices (S i) args frames
  | (name, false) :: args =>
      match columns !! i with
      | None | Some [] => Err (MakeSemanticError rInvalidArgument
                   ($"semantic: SQL UDAF non-aggregate parameter '" ++ name ++ $"' has no evaluated argument value"))
      | Some column =>
          match column !! default 0 (head row_indices) with
          | None => Err (InternalError $"semantic: SQL UDAF non-aggregate argument row out of range")
          | Some v => frames ← declare frames name v; declare_outer columns row_indices (S i) args frames
          end
      end
  end.

Definition DeclareOuterNonAggregateArgs (frames : FrameStack Value) (names : list str) (is_agg : list bool)
    (columns : list (list Value)) (row_indices : list nat) : StatusOr (FrameStack Value) :=
  declare_outer columns row_indices 0 (zip names is_agg) frames.

(** The scope is not read below: the rows' contexts have none. *)
Fixpoint EvalListedUdafAggregates (listed : list ComputedColumn) (udaf : UdafScope) (outer_args : FrameStack Value)
    (ctx : EvalContext) (results : Row) (by_name : Names) : StatusOr (Row * Names) :=
  match listed with
  | [] => Ok (results, by_name)
  | (_, ENull) :: _ => Err (InternalError $"semantic: SQL UDAF aggregate_expression_list entry is null")
  | (col, expr) :: listed =>
      match is_aggregate_call expr with
      | None => Err (InternalError $"semantic: SQL UDAF aggregate_expression_list expr is not an aggregate call")
      | Some call =>
          v ← UdafInnerAggregate call udaf
                (mkContext (project_id ctx) (parameters ctx) (columns ctx) (columns_by_name ctx) (Some outer_args)
                   (script_variables ctx) (script_system_variables ctx) None (with_tables ctx)
                   (relation_arguments ctx) (group_rows ctx));
          EvalListedUdafAggregates listed udaf outer_args ctx (emplace (column_id col) v results)
            (emplace (column_name col) v by_name)
      end
  end.

Definition SqlUdafBody (call : AggregateCall) (fn : SqlAggregateFunction) (columns : list (list Value))
    (row_indices : list nat) (ctx : EvalContext) : StatusOr Value :=
  if is_null_expr (FunctionExpression fn) then Err (InvalidArgumentError $"semantic: SQL UDAF has null function expression")
  else if negb (length (GetArgumentNames fn) =? length (agg_args call))
  then Err (InvalidArgumentError ($"semantic: SQL UDAF argument count mismatch (expected "
              ++ StrInt (Z.of_nat (length (GetArgumentNames fn))) ++ $", got "
              ++ StrInt (Z.of_nat (length (agg_args call))) ++ $")"))
  else
    is_agg ← ArgIsAggregateFlags fn;
    if negb (length is_agg =? length (GetArgumentNames fn))
    then Err (InternalError $"semantic: SQL UDAF signature/name arity mismatch")
    else
      outer_args ← DeclareOuterNonAggregateArgs (PushFrame NewFrameStack) (GetArgumentNames fn) is_agg columns row_indices;
      let scope := mkScope columns row_indices is_agg (GetArgumentNames fn) in
      listed ← EvalListedUdafAggregates (aggregate_expression_list fn) scope outer_args ctx ∅ ∅;
      EvalExpr (FunctionExpression fn) (udaf_ctx ctx outer_args listed.1 listed.2).
End udaf.

(** ** A body that is one aggregate of its argument *)

Section udaf_props.
Context `{AbslText, AbslDouble, GoogleSqlOps, ExecutorNodes}.
Context `{!CastLibrary, !ExecutorParts, !ResolvedAst, !AggregateParts}.

(** The bodies of the executor's SQL aggregate functions are run by this file. *)
Class TiedUdaf (sql_aggregate : FunctionInfo -> SqlAggregateFunction) : Prop :=
  udaf_tied call fn cols rows ctx : EvalSqlUdafBody call fn cols rows ctx = SqlUdafBody call (sql_aggregate fn) cols rows ctx.

(** [CREATE AGGREGATE FUNCTION f(x) AS (g(x))] *)
Definition wraps (fn : SqlAggregateFunction) (x : str) (g : AggregateCall) : Prop :=
  exists col corr node t t',
    fn = mkSqlAggregate (EColumnRef col corr) [x] (Some [true]) [(col, EAggregateCall node t)] /\
    aggregate_node node = g /\ agg_args g = [EArgumentRef x t'].

Lemma bind_one_argument column rows x ctx r :
  match column !! r with
  | Some cell => exists frames, BindUdafRowFrame (mkScope [column] rows [true] [x]) ctx r =
                   Ok (frames, {[agg_slot_name 1 := cell]}) /\ Lookup frames x = Ok cell
  | None => BindUdafRowFrame (mkScope [column] rows [true] [x]) ctx r = Err column_out_of_range
  end.
Proof.
  unfold BindUdafRowFrame. cbn [zip arg_names arg_is_aggregate bind_row_arguments arg_columns zip_with lookup list_lookup mbind option_bind].
  destruct (column !! r) as [cell|] eqn:E; rewrite ?E; [|done]. eexists. split; [reflexivity|].
  unfold Lookup. cbn. by rewrite lookup_insert_eq.
Qed.

(** The column at the rows, or the error of the first row it does not have. *)
Lemma inner_column column all x t ctx :
  inner_columns [EArgumentRef x t] (mkScope [column] all [true] [x]) ctx =
  if forallb (fun r => r <? length column) all then Ok [omap (column !!.) all] else Err column_out_of_range.
Proof.
  unfold inner_columns. cbn [udaf_rows].
  match goal with |- context [outcome_mapM ?f all] => set (row_values := f) end.
  assert (forall rows, outcome_mapM row_values rows =
    if forallb (fun r => r <? length column) rows then Ok (map (fun v => [v]) (omap (column !!.) rows))
    else Err column_out_of_range) as E.
  { induction rows as [|r rows IH]; [done|]. cbn [outcome_mapM forallb]. rewrite IH. clear IH. unfold row_values.
    pose proof (bind_one_argument column all x ctx r) as B. destruct (column !! r) as [cell|] eqn:L.
    - destruct B as (frames & -> & K). rewrite (proj2 (Nat.ltb_lt _ _)) by (by eapply lookup_lt_Some).
      cbn [mbind outcome_bind outcome_mapM fst snd].
      assert (EvalExpr (EArgumentRef x t) (udaf_ctx ctx frames ∅ {[agg_slot_name 1 := cell]}) = Ok cell) as ->.
      { unfold EvalExpr. cbn. unfold EvalResolvedArgumentRefExpr. cbn. by rewrite K. }
      cbn [mbind outcome_bind andb omap list_omap map]. rewrite L. by destruct (forallb _ rows).
    - rewrite B. rewrite (proj2 (Nat.ltb_ge _ _)) by (by apply lookup_ge_None). done. }
  rewrite E. destruct (forallb _ all); [|done]. cbn. do 2 f_equal.
  induction (omap _ all) as [|v l IH]; [done|]. cbn. by rewrite IH.
Qed.

Lemma wrapped_body fn x g call column rows ctx :
  wraps fn x g -> length (agg_args call) = 1 ->
  SqlUdafBody call fn [column] rows ctx =
  if forallb (fun r => r <? length column) rows then EvalAggregateCall g [omap (column !!.) rows]
  else Err column_out_of_range.
Proof.
  intros (col & corr & node & t & t' & -> & G & A) L. unfold SqlUdafBody. cbn [FunctionExpression is_null_expr GetArgumentNames].
  rewrite L. cbn [length Nat.eqb negb ArgIsAggregateFlags signature_arguments mbind outcome_bind].
  change (DeclareOuterNonAggregateArgs (PushFrame NewFrameStack) [x] [true] [column] rows) with
    (@Ok Status (FrameStack Value) (PushFrame NewFrameStack)). cbn [mbind outcome_bind aggregate_expression_list].
  cbn [EvalListedUdafAggregates is_aggregate_call]. rewrite G. unfold UdafInnerAggregate. rewrite A, inner_column.
  destruct (forallb _ rows); [|done]. cbn [mbind outcome_bind].
  destruct (EvalAggregateCall g _) as [v|e]; [|done]. cbn [mbind outcome_bind fst snd].
  unfold EvalExpr. cbn. unfold LookupColumnRef. cbn. rewrite lookup_emplace, decide_True by done. by rewrite lookup_empty.
Qed.

Lemma omap_seq_all {A} (l : list A) : omap (l !!.) (seq 0 (length l)) = l.
Proof.
  assert (forall l' : list A, omap ((l' ++ l) !!.) (seq (length l') (length l)) = l) as E; [|exact (E [])].
  induction l as [|a l IH]; intros l'; [done|]. cbn [length seq omap list_omap].
  rewrite lookup_app_r, Nat.sub_diag by lia. cbn. f_equal. specialize (IH (l' ++ [a])).
  rewrite <- app_assoc, length_app in IH. cbn in IH. by rewrite Nat.add_1_r in IH.
Qed.

(** A SQL aggregate function that wraps an aggregate returns what that aggregate
    returns over the argument column when the group is the whole input; over a group
    that is smaller the call is refused, because the body is run at the row numbers
    of the input. *)
Theorem udaf_over_group (sql_aggregate : FunctionInfo -> SqlAggregateFunction) `{!TiedUdaf sql_aggregate}
    (agg g : AggregateCall) (fn : FunctionInfo) (x : str) (names : list str) (column : list Value)
    (input_rows : list Row) (ctx : EvalContext) :
  agg_function agg = Some fn -> fn_group fn = kSQLFunctionGroup -> IsAggregate fn = true ->
  sql_argument_names fn = Some names -> is_count_star agg = false -> agg_named agg $"array_agg" = false ->
  agg_named agg $"string_agg" = false -> length (agg_args agg) = 1 -> wraps (sql_aggregate fn) x g ->
  (length column = length input_rows ->
     FinishAggregateFromArgColumns agg [column] input_rows ctx = EvalAggregateCall g [column]) /\
  (length column < length input_rows ->
     FinishAggregateFromArgColumns agg [column] input_rows ctx = Err column_out_of_range).
Proof.
  intros F G I N C A S L W. unfold FinishAggregateFromArgColumns. rewrite C, A, S, F, I, N.
  rewrite bool_decide_true by done. cbn [andb]. rewrite udaf_tied, (wrapped_body _ x g) by done. split; intros E.
  - rewrite <- E, (proj2 (forallb_forall _ _)), omap_seq_all; [done|].
    intros r R%in_seq. apply Nat.ltb_lt. lia.
  - destruct (forallb _ _) eqn:B; [|done]. rewrite forallb_forall in B.
    specialize (B (length column)). rewrite Nat.ltb_irrefl in B. discriminate B. apply in_seq. lia.
Qed.
End udaf_props.
