(* ===== verification/OtherProps.v ===== *)
(** * OtherProps: what sampling, table functions and pattern matching return

    The theorems on [OtherScans] and [Udaf], with closed examples. *)

From S2P Require Import Prelude Order Absl AbslReference Storage SemanticError FrameStack.
From S2P Require Import SqlValue GoogleSqlReference Arithmetic Operators MathFuncs Casts EvalExpr.
From S2P Require Import EvalProps Rows Joins SetOps Unnest AggFuncs Aggregates Analytic Scans ScanProps QueryProps OtherScans.
From S2P Require Import EvalReference QueryExamples Udaf.

Section other_props.
Context `{AbslText, AbslDouble, GoogleSqlOps, ExecutorNodes}.
Context `{!CastLibrary, !ExecutorParts, !ResolvedAst, !AggregateParts, !OtherParts}.

(** ** Sampling *)

(** The row passed the test with some draw. *)
Definition drawn (scan : SampleNode) (ctx : EvalContext) (fraction : spec_float) (seed : Z)
    (max_weights : gmap str spec_float) (row : Row) : Prop :=
  exists fp w draws, stratum_and_weight scan ctx row = Ok (fp, w) /\
    fst (KeepBernoulliRow fraction (stratum_max max_weights fp) w (bool_decide (is_Some (weight_column scan))) seed draws)
    = true.

Lemma bernoulli_loop_spec scan ctx fraction seed max_weights rows draws out :
  bernoulli_loop scan ctx fraction seed max_weights rows draws = Ok out ->
  sublist out rows /\ Forall (drawn scan ctx fraction seed max_weights) out.
Proof.
  revert draws out. induction rows as [|row rows IH]; intros draws out; cbn; [by intros [= <-]|].
  destruct (stratum_and_weight scan ctx row) as [[fp w]|] eqn:E; [|done]. cbn.
  destruct (KeepBernoulliRow _ _ _ _ _ _) as [keep draws'] eqn:K.
  destruct (bernoulli_loop _ _ _ _ _ rows draws') as [out'|] eqn:L; [|done]. cbn. intros [= <-].
  destruct (IH _ _ L) as [S F]. destruct keep.
  - split; [by constructor|]. constructor; [|done]. exists fp, w, draws. by rewrite K.
  - split; [by constructor|done].
Qed.

Lemma bernoulli_loop_all scan ctx fraction seed max_weights rows draws out :
  (forall fp w n, fst (KeepBernoulliRow fraction (stratum_max max_weights fp) w
                    (bool_decide (is_Some (weight_column scan))) seed n) = true) ->
  bernoulli_loop scan ctx fraction seed max_weights rows draws = Ok out -> out = rows.
Proof.
  intros A. revert draws out. induction rows as [|row rows IH]; intros draws out; cbn; [by intros [= <-]|].
  destruct (stratum_and_weight scan ctx row) as [[fp w]|]; [|done]. cbn. specialize (A fp w draws).
  destruct (KeepBernoulliRow _ _ _ _ _ _) as [keep draws']. cbn in A. subst keep.
  destruct (bernoulli_loop _ _ _ _ _ rows draws') as [out'|] eqn:L; [|done]. cbn. intros [= <-]. f_equal. eauto.
Qed.

Lemma keep_certain max_w w weighted seed n :
  fst (KeepBernoulliRow (dbl_div (dbl_of_Z 100) (dbl_of_Z 100)) max_w w weighted seed n) = true.
Proof. reflexivity. Qed.

Lemma keep_nothing percent max_w w weighted seed n :
  percent = S754_zero true \/ percent = S754_zero false ->
  fst (KeepBernoulliRow (dbl_div percent (dbl_of_Z 100)) max_w w weighted seed n) = false.
Proof.
  intros [-> | ->]; unfold KeepBernoulliRow, sample_probability.
  all: destruct (SFltb _ _ && _ && _); [|reflexivity].
  all: unfold dbl_mul; destruct (dbl_div w max_w) as [[]|[]| |[]]; cbn; try reflexivity; destruct (uniform_draw _ _) as [[]|[]| |[]]; reflexivity.
Qed.

Lemma keep_no_weight fraction max_w (sign : bool) seed n :
  SFltb fraction (dbl_of_Z 1) = true -> SFltb dbl_zero max_w = true ->
  fst (KeepBernoulliRow fraction max_w (S754_zero sign) true seed n) = false.
Proof.
  intros F M. unfold KeepBernoulliRow, sample_probability. rewrite F, M. cbn [andb].
  destruct max_w as [|[]| |[] m e]; try discriminate M; destruct sign, fraction as [[]|[]| |[] ? ?]; try discriminate F;
    try reflexivity; cbn; destruct (uniform_draw _ _) as [[]|[]| |[]]; reflexivity.
Qed.

Lemma SampleRows_cases scan rows ctx out :
  SampleRows scan rows ctx = Ok out -> (rows = [] /\ out = []) \/ BernoulliPercentSample scan rows ctx = Ok out.
Proof.
  unfold SampleRows. destruct rows; [intros [= <-]; by left|]. destruct (sample_percent scan); [|done]. cbn.
  destruct (is_name _ _); [|done]. cbn. intros E. by right.
Qed.

(** TABLESAMPLE returns some of the rows of its input, in their order; all of them
    at 100 percent and none at 0; below 100 percent a row whose weight is NULL or
    zero is never returned when another row of its stratum has a positive weight. *)
Theorem sample_returns (scan : SampleNode) (rows out : list Row) (ctx : EvalContext) (percent : spec_float)
    (max_weights : gmap str spec_float) :
  SampleRows scan rows ctx = Ok out -> ParseSamplePercent scan ctx = Ok percent ->
  BuildStratumMaxWeights scan rows ctx = Ok max_weights ->
  sublist out rows /\
  (percent = dbl_of_Z 100 -> out = rows) /\
  (percent = dbl_zero -> out = []) /\
  (SFltb (dbl_div percent (dbl_of_Z 100)) (dbl_of_Z 1) = true -> is_Some (weight_column scan) ->
   forall row fp (sign : bool), row ∈ out -> stratum_and_weight scan ctx row = Ok (fp, S754_zero sign) ->
     SFltb dbl_zero (stratum_max max_weights fp) = false).
Proof.
  intros [[-> ->]|B]%SampleRows_cases P W; [split_and!; [done..|intros; set_solver]|].
  unfold BernoulliPercentSample in B. rewrite P in B. cbn in B. rewrite W in B. cbn in B.
  pose proof (bernoulli_loop_spec _ _ _ _ _ _ _ _ B) as [S F]. split_and!; [done|..].
  - intros ->. eapply bernoulli_loop_all, B. intros. apply keep_certain.
  - intros ->. destruct out as [|row out]; [done|]. apply Forall_inv in F as (fp & w & n & _ & K).
    rewrite keep_nothing in K by (by right). done.
  - intros L C row fp sign I E. rewrite Forall_forall in F. destruct (F _ I) as (fp' & w & n & E' & K).
    rewrite E in E'. simplify_eq. rewrite bool_decide_true in K by done.
    destruct (SFltb dbl_zero _) eqn:M; [|done]. by rewrite keep_no_weight in K.
Qed.

(** ** Table functions *)

Lemma binds_renamed src dst row row' : length src = length dst -> renamed src dst row row' -> binds_all src row ->
  binds_all dst row'.
Proof.
  intros _ R. induction R as [|s d src dst E R IH]; intros B; [constructor|].
  apply Forall_cons in B as [S B]. constructor; [|by apply IH]. unfold binds in *. by rewrite E.
Qed.

Lemma renamed_trans src mid dst a b c : renamed src mid a b -> renamed mid dst b c -> renamed src dst a c.
Proof.
  intros R. revert dst. induction R as [|s m src mid E R IH]; intros dst S; inversion S; subst; constructor.
  - congruence.
  - by apply IH.
Qed.

(** Rows stored under the ids of a scan, read under others. *)
Lemma remap_rows_spec missing src dst rows :
  length src = length dst -> NoDup (map column_id dst) -> Forall (binds_all src) rows ->
  exists out, outcome_mapM (fun r => remap_stored missing (map column_id src) dst r ∅) rows = Ok out /\
    Forall2 (renamed src dst) rows out.
Proof.
  intros L ND B. induction B as [|row rows Br B (out & E & F)]; [by exists []|].
  destruct (remap_stored_spec missing src dst row ∅) as (row' & E' & _ & R); [done..| |done|].
  { apply Forall_forall. intros d _. apply lookup_empty. }
  exists (row' :: out). split; [|by constructor]. cbn [outcome_mapM]. rewrite E'. cbn [mbind outcome_bind]. by rewrite E.
Qed.

Lemma remap_output_spec rows src cols :
  is_null_scan src = false -> length cols = length (column_list src) -> NoDup (map column_id cols) ->
  Forall (binds_all (column_list src)) rows -> cols <> [] ->
  exists out, RemapScanOutputColumns rows src cols = Ok out /\ Forall2 (renamed (column_list src) cols) rows out.
Proof.
  intros N L ND B NE. unfold RemapScanOutputColumns. rewrite N, L, Nat.eqb_refl. cbn [negb].
  destruct cols as [|c cols]; [done|]. by apply remap_rows_spec.
Qed.

Lemma Forall2_renamed_trans src mid dst (a b c : list Row) :
  Forall2 (renamed src mid) a b -> Forall2 (renamed mid dst) b c -> Forall2 (renamed src dst) a c.
Proof.
  intros F. revert c. induction F as [|x y a b R F IH]; intros c G; inversion G; subst; constructor; [|by apply IH].
  by eapply renamed_trans.
Qed.

(** A table function that returns its table argument returns the rows of the
    argument of the call, in their order, with every value under the id the call
    gives its column: the argument is bound, read back and renamed without loss. *)
Theorem tvf_returns_argument (scan : TvfNode) (name param : str) (inner_cols : list ResolvedColumn) (arg : Scan)
    (ctx : EvalContext) (rows : list Row) :
  tvf_name scan = Some name ->
  is_name (AsciiStrToLower name) [$"ml.predict"; $"ml.evaluate"; $"ml.forecast"; $"external_query"] = false ->
  templated_query scan = None ->
  sql_tvf scan = Some ([param], RelationArgumentScan inner_cols param) -> tvf_arguments scan = [ScanArgument arg] ->
  wf_scan arg -> length inner_cols = length (column_list arg) -> length (tvf_columns scan) = length (column_list arg) ->
  NoDup (map column_id inner_cols) -> NoDup (map column_id (tvf_columns scan)) -> tvf_columns scan <> [] ->
  MaterializeScanImpl arg ctx = Ok rows ->
  exists out, MaterializeTvfScan scan ctx = Ok out /\ Forall2 (renamed (column_list arg) (tvf_columns scan)) rows out.
Proof.
  intros N M T Q A W Li Lo NDi NDo NE E. pose proof (materialize_binds _ _ _ W E) as B.
  apply bool_decide_eq_false in M. rewrite !not_elem_of_cons in M. destruct M as (M1 & M2 & M3 & M4 & _).
  unfold MaterializeTvfScan. rewrite N, T. cbv zeta. rewrite !bool_decide_false by done.
  unfold MaterializeRegisteredSqlTvf. rewrite Q. cbn [is_null_scan].
  unfold BindTvfArguments. rewrite A. cbn [length Nat.eqb negb bind_tvf_arguments]. rewrite E.
  cbn [mbind outcome_bind fst snd MaterializeScanImpl]. unfold MaterializeRelationArgumentScan.
  cbn [relation_arguments set_tvf_arguments]. rewrite lookup_emplace, decide_True by done. rewrite lookup_empty.
  cbn [default cte_table cte_column_ids cte_rows]. rewrite length_map, Li, Nat.eqb_refl. cbn [negb].
  destruct (remap_rows_spec $"semantic: TVF relation row missing column_id=" (column_list arg) inner_cols rows)
    as (mid & E1 & F1); [done..|]. rewrite E1. cbn [mbind outcome_bind].
  destruct (remap_output_spec mid (RelationArgumentScan inner_cols param) (tvf_columns scan)) as (out & E2 & F2);
    [done|cbn; congruence|done| |done|].
  - clear E E1. induction F1 as [|x y xs ys R F1 IH]; [constructor|]. apply Forall_cons in B as [Bx B].
    constructor; [|by apply IH]. by eapply binds_renamed.
  - exists out. split; [done|]. cbn [column_list] in F2. by eapply Forall2_renamed_trans.
Qed.

(** ** The columns of the rows *)

Definition other_columns (node : OtherNode) : list ResolvedColumn :=
  match node with
  | SampleScan n => column_list (sample_input n)
  | TvfScan n => tvf_columns n
  | MatchRecognizeScan n => match_columns n
  | UnknownScan _ => []
  end.

Lemma match_output_binds scan contexts cols row out :
  match_output_columns scan contexts cols row = Ok out ->
  (forall id, binds row id -> binds out id) /\ binds_all cols out.
Proof.
  revert row. induction cols as [|c cols IH]; intros row; cbn [match_output_columns].
  { intros [= <-]. by split; [|constructor]. }
  assert (forall v, match_output_columns scan contexts cols (<[column_id c := v]> row) = Ok out ->
    (forall id, binds row id -> binds out id) /\ binds_all (c :: cols) out) as Step.
  { intros v E. apply IH in E as [K B]. split; [intros id I; apply K, binds_insert; by left|].
    constructor; [|done]. apply K, binds_insert. by right. }
  case_bool_decide as D.
  - intros E. apply IH in E as [K B]. split; [done|]. constructor; [by apply K|done].
  - destruct contexts as [|first rest]; [done|]. repeat (case_bool_decide; [apply Step|]).
    destruct (mr_row first !! column_id c); [apply Step|done].
Qed.

Lemma match_output_rows_bind scan partition_rows ctx m out :
  match_output scan partition_rows ctx m = Ok out -> Forall (binds_all (match_columns scan)) out.
Proof.
  unfold match_output. intros E. apply bind_Ok in E as (contexts & _ & E). destruct contexts as [|c cs].
  - injection E as <-. constructor.
  - apply bind_Ok in E as (row & E & R). injection R as <-. constructor; [|constructor].
    apply bind_Ok in E as (row' & _ & E). by apply match_output_binds in E as [_ ?].
Qed.

Lemma concat_outputs {A} (f : A -> StatusOr (list Row)) (l : list A) outs (P : Row -> Prop) :
  (forall x out, f x = Ok out -> Forall P out) -> outcome_mapM f l = Ok outs -> Forall P (concat outs).
Proof.
  intros F E. apply mapM_Forall2 in E. induction E as [|x y xs ys X _ IH]; [constructor|]. cbn.
  apply Forall_app. split; [by eapply F|done].
Qed.

(** One more column emplaced before the rest of the loop. *)
Ltac emplaced IH E :=
  apply IH in E as [K B]; split; [intros id I; apply K, binds_emplace; by left|];
  constructor; [|done]; apply K, binds_emplace; by right.

Lemma fixture_row_binds fixture in_row cols row out :
  fixture_row fixture in_row cols row = Ok out -> (forall id, binds row id -> binds out id) /\ binds_all cols out.
Proof.
  revert row. induction cols as [|c cols IH]; intros row; cbn [fixture_row].
  { intros [= <-]. by split; [|constructor]. }
  destruct (list_find _ _) as [[i n]|]; [|done]. destruct (_ ≫= _) as [v|]; [|done].
  intros E. emplaced IH E.
Qed.

Lemma null_columns_binds cols row out :
  null_columns cols row = Ok out -> (forall id, binds row id -> binds out id) /\ binds_all cols out.
Proof.
  revert row. induction cols as [|c cols IH]; intros row; cbn [null_columns].
  { intros [= <-]. by split; [|constructor]. }
  destruct (column_type c); [|done]. intros E. emplaced IH E.
Qed.

Lemma extended_row_binds ids in_row cols row out :
  extended_row ids in_row cols row = Ok out -> (forall id, binds row id -> binds out id) /\ binds_all cols out.
Proof.
  revert row. induction cols as [|c cols IH]; intros row; cbn [extended_row].
  { intros [= <-]. by split; [|constructor]. }
  destruct (column_type c); [|done]. intros E. emplaced IH E.
Qed.

Lemma mapped_rows_bind {A} (f : A -> StatusOr Row) (l : list A) outs cols :
  (forall x out, f x = Ok out -> binds_all cols out) -> outcome_mapM f l = Ok outs -> Forall (binds_all cols) outs.
Proof. intros F E. apply mapM_Forall2 in E. induction E; constructor; eauto. Qed.

Lemma remap_output_binds rows src cols out :
  is_null_scan src = false -> RemapScanOutputColumns rows src cols = Ok out -> Forall (binds_all cols) out.
Proof.
  unfold RemapScanOutputColumns. intros ->. destruct (length cols =? _) eqn:L; [|done]. cbn.
  apply Nat.eqb_eq in L. destruct cols as [|c cols].
  - intros [= <-]. apply Forall_forall. intros. constructor.
  - intros E. eapply remapped_bind, E. by rewrite length_map.
Qed.

(** A templated function whose query is present. *)
Definition wf_tvf (n : TvfNode) : Prop := forall inner, templated_query n = Some inner -> is_null_scan inner = false.

Lemma tvf_rows_bind n ctx out : wf_tvf n -> MaterializeTvfScan n ctx = Ok out -> Forall (binds_all (tvf_columns n)) out.
Proof.
  intros W. unfold MaterializeTvfScan. destruct (tvf_name n) as [name|]; [|done]. cbv zeta.
  assert (forall out, SingleNullRow n = Ok out -> Forall (binds_all (tvf_columns n)) out) as Null.
  { intros o E. apply bind_Ok in E as (row & E & R). injection R as <-. constructor; [|constructor].
    by apply null_columns_binds in E as [_ ?]. }
  case_bool_decide; [|case_bool_decide; [|case_bool_decide; [apply Null|case_bool_decide]]].
  - unfold MaterializeMlPredictTvf. destruct (first_scan _) as [s|]; [|done]. intros E.
    apply bind_Ok in E as (rows & _ & E). unfold MlPredictStub in E. destruct (is_null_scan s); [done|].
    eapply mapped_rows_bind, E. intros x o R. by apply extended_row_binds in R as [_ ?].
  - unfold MaterializeMlEvaluateTvf. destruct (first_scan _); [|apply Null]. intros E.
    apply bind_Ok in E as (rows & _ & E). by apply Null.
  - unfold MaterializeExternalQueryTvf. destruct (tvf_arguments n) as [|[| |conn] [|[| |query] rest]]; try done.
    destruct (is_null_expr conn || is_null_expr query); [done|]. intros E. apply bind_Ok in E as (c & _ & E).
    destruct (negb _); [done|]. apply bind_Ok in E as (q & _ & E). destruct (negb _); [done|].
    apply bind_Ok in E as (fixture & _ & E). eapply mapped_rows_bind, E.
    intros x o R. by apply fixture_row_binds in R as [_ ?].
  - destruct (templated_query n) as [inner|] eqn:T.
    + intros E. apply bind_Ok in E as (rows & _ & E). eapply remap_output_binds, E. by apply W.
    + unfold MaterializeRegisteredSqlTvf. destruct (sql_tvf n) as [[names inner]|]; [|done].
      destruct (is_null_scan inner) eqn:I; [done|]. intros E. apply bind_Ok in E as (bound & _ & E).
      apply bind_Ok in E as (rows & _ & E). by eapply remap_output_binds.
Qed.

(** The rows of a sample, of a table function and of a pattern match bind every
    column their scan announces. *)
Theorem other_rows_bind_columns (node : OtherNode) (ctx : EvalContext) (out : list Row) :
  match node with
  | SampleScan n => wf_scan (sample_input n)
  | TvfScan n => wf_tvf n
  | MatchRecognizeScan _ => True
  | UnknownScan _ => False
  end ->
  OtherScanRows node ctx = Ok out -> Forall (binds_all (other_columns node)) out.
Proof.
  destruct node as [n|n|n|]; cbn [OtherScanRows other_columns]; intros W E; [| |clear W|done].
  - apply bind_Ok in E as (rows & M & E). pose proof (materialize_binds _ _ _ W M) as B.
    apply SampleRows_cases in E as [[-> ->]|E]; [done|]. unfold BernoulliPercentSample in E.
    apply bind_Ok in E as (p & _ & E). apply bind_Ok in E as (mw & _ & E). apply bernoulli_loop_spec in E as [S _].
    apply Forall_forall. intros x I. rewrite Forall_forall in B. apply B. by eapply elem_of_sublist.
  - by eapply tvf_rows_bind.
  - apply bind_Ok in E as (u & _ & E). apply bind_Ok in E as (rows & _ & E). unfold MatchRecognizeRows in E.
    destruct rows as [|r rows]; [injection E as <-; constructor|]. apply bind_Ok in E as (parts & _ & E).
    apply bind_Ok in E as (outs & E & R). injection R as <-. eapply concat_outputs, E. intros e o P.
    apply bind_Ok in P as (ms & _ & P). apply bind_Ok in P as (os & P & R). injection R as <-.
    eapply concat_outputs, P. intros m o' Q. by eapply match_output_rows_bind.
Qed.

(** ** Every scan

    The condition on a tree of scans with samples nested to a given depth: the
    samples, table functions and pattern matches of the tree announce columns of
    their input or their own, as every other scan does. *)
Fixpoint wf_at (depth : nat) : Scan -> Prop :=
  wf_scan_over (fun cols kind =>
    match other_node kind, depth with
    | SampleScan n, S d => covers cols (column_list (sample_input n)) /\ wf_at d (sample_input n)
    | SampleScan _, O => False
    | TvfScan n, _ => covers cols (tvf_columns n) /\ wf_tvf n
    | MatchRecognizeScan n, _ => covers cols (match_columns n)
    | UnknownScan _, _ => True
    end).

Context `{!TiedScans}.

Lemma other_covered cols node ctx rows :
  covers cols (other_columns node) ->
  match node with
  | SampleScan n => wf_scan (sample_input n)
  | TvfScan n => wf_tvf n
  | MatchRecognizeScan _ => True
  | UnknownScan _ => False
  end ->
  OtherScanRows node ctx = Ok rows -> Forall (binds_all cols) rows.
Proof.
  intros C W E. apply (other_rows_bind_columns _ _ _ W) in E. apply (Forall_impl _ _ _ E). intros row. by apply binds_covered.
Qed.

Lemma wf_at_wf depth scan : wf_at depth scan -> wf_scan scan.
Proof.
  revert scan. induction depth as [|d IH]; intros scan; cbn [wf_at]; apply wf_scan_over_mono;
    intros cols kind W ctx rows; rewrite other_scan_tied; destruct (other_node kind) as [n|n|n|n] eqn:K; try done;
    apply other_covered; naive_solver.
Qed.

(** C11: the rows a scan materializes, under any outer row, bind every column the
    scan announces.  It holds of every kind of scan of the executor (tables,
    arrays, projections, filters, joins, aggregation, windows, set operations,
    WITH, ORDER BY, LIMIT, samples, table functions, pattern matches) under these
    conditions on the tree, that each scan announces only columns it computes or
    columns of its input, that a table hands out a value for every column it is
    asked for, and that a templated table function has its query. *)
Theorem scan_rows_bind_columns depth scan ctx rows :
  wf_at depth scan -> MaterializeScanImpl scan ctx = Ok rows -> Forall (binds_all (column_list scan)) rows.
Proof. intros W. by apply materialize_binds, wf_at_wf with depth. Qed.
End other_props.

(** ** Sampling, table functions, patterns and SQL aggregates on concrete inputs *)

Import Reference EvalReference.EvalReference.

(** A matcher that reports every row with its first variable true as a match of one
    row. *)
#[export] Instance reference_others : OtherParts := {|
  other_node := UnknownScan;
  random_device := 7%Z;
  uniform_draw _ n := if Nat.even n then dbl_zero else dbl_of_Z 1;
  double_to_uint64 _ := 0%Z;
  LoadExternalQueryFixture _ _ := undefined_here;
  Matcher := nat;
  CreateMatcher _ := Ok 0;
  AddRow n predicates :=
    Ok (S n, match predicates with
             | true :: _ => [mkMatch (Z.of_nat n) (Z.of_nat (S n)) [0%Z]]
             | _ => []
             end);
  Finalize _ := Ok [];
|}.

(** Half of the people, weighted by their key: the person without a key is not
    among them. *)
Definition half : SampleNode :=
  mkSample people $"BERNOULLI" true (ELiteral (SInt64 50)) (ELiteral (SInt64 3)) (Some k_column) [].

Lemma sample_returns_witness :
  exists out, SampleRows half people_rows empty_context = Ok out /\ sublist out people_rows /\
    {[1 := SNull TInt64; 2 := SString $"n"]}%Z ∉ out.
Proof.
  assert (exists out, SampleRows half people_rows empty_context = Ok out) as [out E] by (eexists; vm_compute; reflexivity).
  assert (exists m, BuildStratumMaxWeights half people_rows empty_context = Ok m) as [m M] by (eexists; vm_compute; reflexivity).
  exists out. split; [exact E|].
  destruct (sample_returns half people_rows out empty_context (dbl_of_Z 50) m) as (S & _ & _ & Z); [exact E|by vm_compute|exact M|].
  split; [exact S|]. intros I. specialize (Z ltac:(by vm_compute) ltac:(by eexists) _ [] false I ltac:(by vm_compute)).
  vm_compute in M. injection M as <-. vm_compute in Z. discriminate.
Defined.

(** [f(TABLE people)] for a function that returns its table. *)
Definition returned : TvfNode :=
  mkTvf [c_column; d_column] (Some $"F") [ScanArgument people] None
    (Some ([$"input"], RelationArgumentScan [column 21 $"k" TInt64; column 22 $"v" TString] $"input")).

Lemma people_wf : wf_scan people.
Proof. intros t read rows [= <-] [= <-] [= <-]. repeat constructor. Qed.

Lemma tvf_returns_argument_witness :
  exists out, MaterializeTvfScan returned empty_context = Ok out /\
    Forall2 (renamed [k_column; v_column] [c_column; d_column]) people_rows out.
Proof.
  apply (tvf_returns_argument returned $"F" $"input" [column 21 $"k" TInt64; column 22 $"v" TString] people);
    [reflexivity|by vm_compute|reflexivity..|apply people_wf|reflexivity|reflexivity| | |discriminate|by vm_compute].
  - apply (bool_decide_unpack _). vm_compute. exact I.
  - apply (bool_decide_unpack _). vm_compute. exact I.
Defined.

(** The people whose key is 2, one match each. *)
Definition twos : MatchNode :=
  mkMatchNode [k_column; v_column; column 31 $"n" TInt64] people [] END_OF_MATCH (Some ([], []))
    [Some ($"a", call $"$equal" [ref k_column; ELiteral (SInt64 2)] TBool)] []
    (column 31 $"n" TInt64) (column 32 $"r" TInt64) (column 33 $"c" TString).

Lemma other_rows_bind_columns_witness :
  exists out, OtherScanRows (MatchRecognizeScan twos) empty_context = Ok out /\ length out = 2 /\
    Forall (binds_all [k_column; v_column; column 31 $"n" TInt64]) out.
Proof.
  assert (exists out, OtherScanRows (MatchRecognizeScan twos) empty_context = Ok out /\ length out = 2) as (out & E & L)
    by (eexists; split; vm_compute; reflexivity).
  exists out. split; [exact E|]. split; [exact L|].
  apply (other_rows_bind_columns (MatchRecognizeScan twos) empty_context out); [exact I|exact E].
Defined.

(** [SELECT v FROM (SELECT * FROM people TABLESAMPLE BERNOULLI (50 PERCENT)
    WITH WEIGHT) WHERE k = 2], with the sample reached by [MaterializeScanImpl]. *)
Module Sampled.

#[local] Instance sampled_others : OtherParts := {|
  other_node kind := if bool_decide (kind = $"SampleScan") then SampleScan half else UnknownScan kind;
  random_device := 7%Z;
  uniform_draw _ n := if Nat.even n then dbl_zero else dbl_of_Z 1;
  double_to_uint64 _ := 0%Z;
  LoadExternalQueryFixture _ _ := undefined_here;
  Matcher := nat;
  CreateMatcher _ := Ok 0;
  AddRow n _ := Ok (n, []);
  Finalize _ := Ok [];
|}.

Definition sampled_scan : Scan :=
  FilterScan [v_column] (OtherScan [k_column; v_column] $"SampleScan") (call $"$equal" [ref k_column; ELiteral (SInt64 2)] TBool).

#[local] Instance sampled_ast : ResolvedAst := {|
  subquery_node := @subquery_node _ _ reference_ast;
  aggregate_node := @aggregate_node _ _ reference_ast;
  scan_column_refs _ := [];
  ValueDebugString := debug_string;
  kind_number := @kind_number _ _ reference_ast;
  EnumName _ := undefined_here;
  node_kind_string _ := $"node";
  first_binding := @first_binding _ _ reference_ast;
  MaterializeOtherScan kind ctx := OtherScanRows (H6 := reference_ast) (other_node kind) ctx;
|}.

#[local] Instance sampled_tied : TiedScans.
Proof. intros kind ctx. cbn. by case_bool_decide. Qed.

Lemma scan_rows_bind_columns_witness :
  exists rows, MaterializeScanImpl (H6 := sampled_ast) sampled_scan empty_context = Ok rows /\ length rows = 2 /\
    Forall (binds_all [v_column]) rows.
Proof.
  assert (exists rows, MaterializeScanImpl (H6 := sampled_ast) sampled_scan empty_context = Ok rows /\
            length rows = 2) as (rows & E & L) by (eexists; split; vm_compute; reflexivity).
  exists rows. split; [exact E|]. split; [exact L|].
  apply (scan_rows_bind_columns 1 sampled_scan empty_context rows); [|exact E].
  split; [intros id I; right; exact I|]. split; [intros id I; exact I|apply people_wf].
Defined.
End Sampled.

(** ** [CREATE AGGREGATE FUNCTION total(x) AS (SUM(x))] *)

Module Total.

Definition sum_of_x : AggregateCall :=
  mkAggregate (builtin $"sum") [EArgumentRef $"x" (Some TInt64)] (Some TInt64) DEFAULT_ERROR_MODE false
    DEFAULT_NULL_HANDLING [] ENull None [] [] ENull.

#[local] Instance sum_ast : ResolvedAst := {|
  subquery_node := @subquery_node _ _ reference_ast;
  aggregate_node _ := sum_of_x;
  scan_column_refs _ := [];
  ValueDebugString := debug_string;
  kind_number := @kind_number _ _ reference_ast;
  EnumName _ := undefined_here;
  node_kind_string _ := $"node";
  first_binding := @first_binding _ _ reference_ast;
  MaterializeOtherScan _ _ := undefined_here;
|}.

Definition total_info : FunctionInfo := mkFunction $"total" $"total" kSQLFunctionGroup true None (Some [$"x"]).

Definition total_function : SqlAggregateFunction :=
  mkSqlAggregate (EColumnRef (column 41 $"s" TInt64) false) [$"x"] (Some [true])
    [(column 41 $"s" TInt64, EAggregateCall tt (Some TInt64))].

#[local] Instance udaf_parts : AggregateParts := {|
  SketchAggregate _ _ _ := None;
  EvalSqlUdafBody := fun call fn cols rows ctx => SqlUdafBody (H7 := reference_aggregates) call total_function cols rows ctx;
  past_the_end _ _ := SInvalid;
|}.

#[local] Instance total_tied : TiedUdaf (fun _ => total_function).
Proof. intros call fn cols rows ctx. reflexivity. Qed.

Definition total_call : AggregateCall :=
  mkAggregate (Some total_info) [ref k_column] (Some TInt64) DEFAULT_ERROR_MODE false
    DEFAULT_NULL_HANDLING [] ENull None [] [] ENull.

(** The sum over the whole input, and the refusal over a group of two of its four
    rows. *)
Lemma udaf_over_group_witness :
  FinishAggregateFromArgColumns total_call [[SInt64 2; SInt64 1; SInt64 3; SInt64 2]] people_rows empty_context = Ok (SInt64 8) /\
  FinishAggregateFromArgColumns total_call [[SInt64 2; SInt64 2]] people_rows empty_context = Err column_out_of_range.
Proof.
  assert (wraps total_function $"x" sum_of_x) as W by (eexists _, _, _, _, _; split_and!; reflexivity).
  split.
  - transitivity (EvalAggregateCall sum_of_x [[SInt64 2; SInt64 1; SInt64 3; SInt64 2]]); [|by vm_compute].
    apply (udaf_over_group (fun _ => total_function) total_call sum_of_x total_info $"x" [$"x"]);
      first [exact W|by vm_compute].
  - apply (udaf_over_group (fun _ => total_function) total_call sum_of_x total_info $"x" [$"x"]);
      first [exact W|by vm_compute|cbn; lia].
Defined.
End Total.
