(* ===== verification/StorageValues.v ===== *)
(** * StorageValues: values of the executor in the cells of a table

    [ToStorageValue], [ColumnSchemaForType] and the type names of
    [backend/engine/semantic/value.cc], and the way back,
    [StorageValueToGoogleSqlValue] of [backend/catalog/storage_table.cc] with the
    row projection of the table iterator.

    Texts that Abseil and GoogleSQL produce are the class [ValueText].  The
    render override of BIGNUMERIC results ([bignumeric_render_override]) is not
    part of the context. *)

From S2P Require Import Prelude Order Absl AbslReference Schema RowRestriction Storage SemanticError.
From S2P Require Import FrameStack SqlValue GoogleSqlReference Arithmetic Operators MathFuncs Casts.

(** [absl::ToCivilDay] and [ToCivilSecond] in UTC (of a day, of microseconds),
    the texts of GoogleSQL's values, [GeographyWkt], which reads the payload of a
    value through its memory layout, and [Type::TypeName]. *)
Class ValueText `{GoogleSql} := {
  ToCivilDay : Z -> Z * Z * Z;
  ToCivilSecond : Z -> Z * Z * Z * Z * Z * Z;
  time_DebugString : TimeValue -> str;
  datetime_DebugString : DatetimeValue -> str;
  interval_ToString : IntervalValue -> str;
  uuid_ToString : UuidValue -> StatusOr str;
  GeographyWkt : GeographyValue -> str;
  GetSQLLiteral : Value -> str;
  TypeName : SqlType -> str;
}.

Section lowering.
Context `{AbslText, AbslDouble, GoogleSqlOps} `{!CastLibrary, !ValueText}.

(** ** To cells *)

Definition FormatTimestampUtc (micros : Z) : str :=
  let '(y, mo, d, h, mi, sec) := ToCivilSecond micros in
  let civil := PadInt 4 y ++ $"-" ++ PadInt 2 mo ++ $"-" ++ PadInt 2 d ++ $" " ++
               PadInt 2 h ++ $":" ++ PadInt 2 mi ++ $":" ++ PadInt 2 sec in
  if (Z.rem micros 1000000 =? 0)%Z then civil ++ $"+00"
  else
    let frac := if (0 <=? micros)%Z then Z.rem micros 1000000 else Z.rem (- micros) 1000000 in
    civil ++ $"." ++ PadInt 6 frac ++ $"+00".

(** The first blank becomes a [T]. *)
Definition datetime_text (text : str) : str :=
  match find_sub $" " text with
  | Some (before, after) => before ++ $"T" ++ after
  | None => text
  end.

Definition ToStorageTemporalValue (v : Value) : StatusOr Storage.Value :=
  match v with
  | SDate d =>
      let '(y, mo, day) := ToCivilDay d in
      Ok (VString (PadInt 4 y ++ $"-" ++ PadInt 2 mo ++ $"-" ++ PadInt 2 day))
  | STime t => Ok (VString (time_DebugString t))
  | SDatetime dt => Ok (VString (datetime_text (datetime_DebugString dt)))
  | STimestamp _ => Ok (VString (FormatTimestampUtc (ToUnixMicros v)))
  | _ => Err (InvalidArgumentError $"semantic: ToStorageTemporalValue called for non-temporal type")
  end.

Definition ToStorageExtendedScalar (v : Value) : StatusOr Storage.Value :=
  match v with
  | SNumeric n => Ok (VString (numeric_ToString n))
  | SBigNumeric n => Ok (VString (bignumeric_ToString n))
  | SJson text => Ok (VString text)
  | SGeography g =>
      match GeographyWkt g with
      | [] => Ok (VString (GetSQLLiteral v))
      | wkt => Ok (VString wkt)
      end
  | SInterval i => Ok (VString (interval_ToString i))
  | SRange _ _ _ =>
      Ok (VString (map (fun c => if decide (c = dquote) then squote else c) (GetSQLLiteral v)))
  | SUuid u => text ← uuid_ToString u; Ok (VString text)
  | _ => Err (InvalidArgumentError $"semantic: ToStorageExtendedScalar called for unsupported type")
  end.

Fixpoint ToStorageValue (v : Value) : StatusOr Storage.Value :=
  match v with
  | SInvalid => Err (InvalidArgumentError $"semantic: cannot lower invalid Value onto storage::Value")
  | SNull _ => Ok VNull
  | SBool b => Ok (VBool b)
  | SInt64 z => Ok (VInt64 z)
  | SDouble d => Ok (VFloat64 d)
  | SString s => Ok (VString s)
  | SBytes s => Ok (VBytes s)
  | SDate _ | STime _ | SDatetime _ | STimestamp _ => ToStorageTemporalValue v
  | SNumeric _ | SBigNumeric _ | SJson _ | SGeography _ | SInterval _ | SRange _ _ _ | SUuid _ =>
      ToStorageExtendedScalar v
  | SArray _ l => cells ← outcome_mapM ToStorageValue l; Ok (VArray cells)
  | SStruct _ l => cells ← outcome_mapM ToStorageValue l; Ok (VStruct cells)
  | SProto _ bytes => Ok (VBytes bytes)
  | SFloat _ | SEnum _ _ =>
      Err (InvalidArgumentError ($"semantic: unsupported type for storage::Value lowering: "
             ++ DebugString (type_of v)))
  end.

(** ** Types as columns *)

Definition column_of (name : str) (mode : ColumnMode) (t : ColumnType) (raw : str)
    (fields : list ColumnSchema) : ColumnSchema := mkColumn name t mode [] raw fields.

(** [core] is the type, or the element type of an array ([mode] says which). *)
Fixpoint ColumnSchemaForType (type : SqlType) (name : str) : StatusOr ColumnSchema :=
  let fix core (mode : ColumnMode) (t : SqlType) : StatusOr ColumnSchema :=
    let plain ct := Ok (column_of name mode ct [] []) in
    match t with
    | TBool => plain kBool
    | TInt64 => plain kInt64
    | TDouble => plain kFloat64
    | TString => plain kString
    | TBytes => plain kBytes
    | TDate => plain kDate
    | TTime => plain kTime
    | TDatetime => plain kDatetime
    | TTimestamp => plain kTimestamp
    | TNumeric => plain kNumeric
    | TBigNumeric => plain kBignumeric
    | TJson => plain kJson
    | TGeography => plain kGeography
    | TStruct fs =>
        fields ← (fix go fs := match fs with
                   | [] => Ok []
                   | f :: fs => c ← ColumnSchemaForType f.2 f.1; cs ← go fs; Ok (c :: cs)
                   end) fs;
        Ok (column_of name mode kStruct [] fields)
    | TProto full_name => Ok (column_of name mode kBytes ($"PROTO<" ++ full_name ++ $">") [])
    | TInterval => Ok (column_of name mode kString $"INTERVAL" [])
    | TUuid => Ok (column_of name mode kString $"UUID" [])
    | TRange _ => Ok (column_of name mode kString (TypeName t) [])
    | TFloat | TEnum _ | TArray _ =>
        Err (InvalidArgumentError ($"semantic: column '" ++ name ++ $"': unsupported type "
               ++ DebugString (Some t)))
    end in
  match type with
  | TArray (TArray _) =>
      Err (InvalidArgumentError ($"semantic: column '" ++ name
             ++ $"': ARRAY<ARRAY<...>> is not representable in BigQuery"))
  | TArray e => core kRepeated e
  | _ => core kNullable type
  end.

(** ** From cells *)

Definition kind_number_of (c : Storage.Value) : Z :=
  match c with
  | VNull => 0 | VBool _ => 1 | VInt64 _ => 2 | VFloat64 _ => 3 | VString _ => 4 | VBytes _ => 5
  | VArray _ => 6 | VStruct _ => 7
  end.

Definition iterator_error (column_name : str) (what : str) : Status :=
  InvalidArgumentError ($"StorageTable iterator: column '" ++ column_name ++ what).

Definition ConvertStringTypedScalar (s : str) (type : SqlType) (column_name : str) : StatusOr Value :=
  match type with
  | TNumeric =>
      match NumericValue_FromString s with
      | Ok n => Ok (SNumeric n)
      | Err e => Err (iterator_error column_name
                   ($"': invalid NUMERIC value '" ++ s ++ $"': " ++ message e))
      end
  | TBigNumeric =>
      match BigNumericValue_FromString s with
      | Ok n => Ok (SBigNumeric n)
      | Err e => Err (iterator_error column_name
                   ($"': invalid BIGNUMERIC value '" ++ s ++ $"': " ++ message e))
      end
  | TTimestamp => ParseTimestampWireString s
  | _ => Ok (SString s)
  end.

Section scalars.
Context (ConvertCell_ : Storage.Value -> SqlType -> ColumnSchema -> StatusOr Value).

(** The fields of a struct against their types and columns, of one length. *)
Fixpoint convert_fields (values : list Storage.Value) (types : list (str * SqlType))
    (cols : list ColumnSchema) : StatusOr (list Value) :=
  match values, types, cols with
  | v :: values, f :: types, c :: cols =>
      x ← ConvertCell_ v f.2 c; xs ← convert_fields values types cols; Ok (x :: xs)
  | _, _, _ => Ok []
  end.

Definition ConvertStructScalar (values : list Storage.Value) (type : SqlType) (column : ColumnSchema)
    : StatusOr Value :=
  match type with
  | TStruct fs =>
      if negb (length values =? length fs) || negb (length values =? length (col_fields column))
      then Err (iterator_error (col_name column) ($"' STRUCT has " ++ StrInt (Z.of_nat (length values))
             ++ $" field(s) but schema has " ++ StrInt (Z.of_nat (length (col_fields column)))
             ++ $" and analyzer Type has " ++ StrInt (Z.of_nat (length fs))))
      else xs ← convert_fields values fs (col_fields column); Ok (SStruct fs xs)
  | _ => Err (iterator_error (col_name column)
           ($"' carries a STRUCT cell but the GoogleSQL type is " ++ DebugString (Some type)))
  end.

(** [ConvertSimpleScalarKind]; a string is converted before. *)
Definition ConvertSimpleScalarKind (value : Storage.Value) (type : SqlType) (column : ColumnSchema)
    : StatusOr Value :=
  match value with
  | VNull => Ok (SNull type)
  | VBool b => Ok (SBool b)
  | VInt64 z => Ok (SInt64 z)
  | VFloat64 d => Ok (SDouble d)
  | VString s => Ok (SString s)
  | VBytes s => match type with TProto n => Ok (SProto n s) | _ => Ok (SBytes s) end
  | VStruct values => ConvertStructScalar values type column
  | VArray _ => Err (iterator_error (col_name column)
                  ($"': unexpected ARRAY cell while converting scalar type " ++ DebugString (Some type)))
  end.

Definition ConvertScalar (value : Storage.Value) (type : SqlType) (column : ColumnSchema)
    : StatusOr Value :=
  match value with
  | VString s => ConvertStringTypedScalar s type (col_name column)
  | _ => ConvertSimpleScalarKind value type column
  end.
End scalars.

(** The column of the elements: the first nested column, or the column itself
    without its mode. *)
Definition element_schema (column : ColumnSchema) : ColumnSchema :=
  match col_fields column with
  | c :: _ => c
  | [] => mkColumn (col_name column) (col_type column) kNullable (col_description column)
            (col_raw_type column) []
  end.

Fixpoint ConvertCell (value : Storage.Value) (type : SqlType) (column : ColumnSchema) {struct value}
    : StatusOr Value :=
  match type with
  | TArray e =>
      match value with
      | VNull => Ok (SNull type)
      | VArray l =>
          xs ← outcome_mapM (fun c => ConvertCell c e (element_schema column)) l;
          Ok (SArray e xs)
      | _ => Err (iterator_error (col_name column)
               ($"' is ARRAY but cell kind is " ++ StrInt (kind_number_of value)))
      end
  | _ => ConvertScalar ConvertCell value type column
  end.

(** The public entry points, with a null target type. *)
Definition StorageValueToGoogleSqlValue (value : Storage.Value) (type : option SqlType)
    (column : ColumnSchema) : StatusOr Value :=
  match type with
  | None => Err (iterator_error (col_name column) $"': null target type")
  | Some t => ConvertCell value t column
  end.

(** A column without a name, for a read past the end of a schema: the code
    indexes the schema with the index of an existing cell. *)
Definition no_column : ColumnSchema := column_of [] kNullable kUnknown [] [].

(** One row of the table iterator. *)
Fixpoint ProjectRowCells (row : Storage.Row) (sch : TableSchema)
    (column_idxs : list (Z * option SqlType)) : StatusOr (list Value) :=
  match column_idxs with
  | [] => Ok []
  | (idx, type) :: column_idxs =>
      match (if (idx <? 0)%Z then None else cells row !! Z.to_nat idx) with
      | None => Err (InvalidArgumentError ($"StorageTable iterator: requested column index "
                  ++ StrInt idx ++ $" is outside the row's " ++ StrInt (Z.of_nat (length (cells row)))
                  ++ $" cells"))
      | Some cell =>
          v ← StorageValueToGoogleSqlValue cell type (nth (Z.to_nat idx) (Schema.columns sch) no_column);
          vs ← ProjectRowCells row sch column_idxs; Ok (v :: vs)
      end
  end.
End lowering.

(** ** The round trip *)

(** A decimal prints to a text it is read from. *)
Class DecimalTextLaws `{GoogleSqlOps} `{!CastLibrary} : Prop := {
  numeric_text n : NumericValue_FromString (numeric_ToString n) = Ok n;
  bignumeric_text n : BigNumericValue_FromString (bignumeric_ToString n) = Ok n;
}.

(** The types whose cells read back with a column: [column] describes a struct
    field by field, and the elements of an array with [element_schema]. *)
Fixpoint readable (t : SqlType) (column : ColumnSchema) : bool :=
  match t with
  | TBool | TInt64 | TDouble | TString | TBytes | TNumeric | TBigNumeric | TProto _ => true
  | TArray e => readable e (element_schema column)
  | TStruct fs =>
      (fix all (fs : list (str * SqlType)) (cols : list ColumnSchema) : bool :=
         match fs, cols with
         | [], [] => true
         | f :: fs, c :: cols => readable f.2 c && all fs cols
         | _, _ => false
         end) fs (col_fields column)
  | _ => false
  end.

(** The types that are read back as a STRING. *)
Definition read_as_string (t : SqlType) : bool :=
  match t with
  | TDate | TTime | TDatetime | TJson | TGeography | TInterval | TRange _ => true
  | _ => false
  end.

Section roundtrip.
Context `{AbslText, AbslDouble, GoogleSqlOps} `{!CastLibrary, !ValueText, !DecimalTextLaws}.

Lemma readable_struct fs column :
  readable (TStruct fs) column = true <->
  Forall2 (fun f c => readable f.2 c = true) fs (col_fields column).
Proof.
  cbn [readable]. generalize (col_fields column). induction fs as [|f fs IH]; intros [|c cols].
  - split; [constructor|done].
  - split; [done|by inversion 1].
  - split; [done|by inversion 1].
  - rewrite andb_true_iff, IH. split; [intros []; by constructor|by inversion 1].
Qed.

(** What a cell of the value reads back as. *)
Definition reads_back (v : Value) (t : SqlType) (column : ColumnSchema) : Prop :=
  exists cell, ToStorageValue v = Ok cell /\ ConvertCell cell t column = Ok v.

Lemma elements_read_back e column l :
  Forall (fun v => reads_back v e column) l ->
  exists cells, outcome_mapM ToStorageValue l = Ok cells /\
    outcome_mapM (fun c => ConvertCell c e column) cells = Ok l.
Proof.
  induction 1 as [|v l (c & E & B) _ (cs & Es & Bs)]; [by exists []|].
  exists (c :: cs). cbn [outcome_mapM]. rewrite E, B. cbn. by rewrite Es, Bs.
Qed.

Lemma fields_read_back fs cols l :
  Forall (fun f => forall v column, has_type v f.2 = true -> readable f.2 column = true ->
                   reads_back v f.2 column) fs ->
  Forall2 (fun f c => readable f.2 c = true) fs cols ->
  Forall2 (fun v t => has_type v t = true) l (map snd fs) ->
  exists cells, outcome_mapM ToStorageValue l = Ok cells /\ length cells = length fs /\
    convert_fields ConvertCell cells fs cols = Ok l.
Proof.
  intros IH R. revert l. induction R as [|f c fs cols Rc R IHR]; intros l T; inversion T as [|v ? l' ? Tv T']; subst.
  { by exists []. }
  apply Forall_cons in IH as [IHf IH]. destruct (IHR IH l' T') as (cs & Es & Ls & Bs).
  destruct (IHf v c Tv Rc) as (cell & E & B). exists (cell :: cs).
  cbn [outcome_mapM length convert_fields]. rewrite E, B. cbn. rewrite Es, Bs, Ls. done.
Qed.

Lemma leaf_reads_back v t column :
  has_type v t = true -> readable t column = true ->
  match t with TArray _ | TStruct _ => False | _ => True end -> reads_back v t column.
Proof.
  intros T R L. pose proof (has_type_type_of _ _ T) as TO. unfold reads_back.
  destruct v; simplify_eq/=; try done; try (eexists; split; [done|]);
    cbn [ConvertCell ConvertScalar ConvertSimpleScalarKind ConvertStringTypedScalar];
    try done; rewrite ?numeric_text, ?bignumeric_text; try done; by destruct t.
Qed.

Lemma null_reads_back t column : reads_back (SNull t) t column.
Proof. exists VNull. split; [done|]. by destruct t. Qed.

Lemma value_reads_back t : forall v column,
  has_type v t = true -> readable t column = true -> reads_back v t column.
Proof.
  induction t as [t Leaf|t IH|t IH|fs IH] using SqlType_nested_ind; intros v column T R.
  - apply leaf_reads_back; [done..|]. by destruct t.
  - done.
  - pose proof (has_type_type_of _ _ T) as TO. destruct v; simplify_eq/=; [apply null_reads_back|].
    apply has_type_array in T as [_ F].
    destruct (elements_read_back t (element_schema column) elems) as (cs & Es & Bs).
    { apply (Forall_impl _ _ _ F). intros v Tv. by apply IH. }
    exists (VArray cs). cbn [ToStorageValue ConvertCell]. by rewrite Es, Bs.
  - pose proof (has_type_type_of _ _ T) as TO. destruct v; simplify_eq/=; [apply null_reads_back|].
    apply has_type_struct in T as [_ F]. apply readable_struct in R.
    destruct (fields_read_back fs (col_fields column) vals IH R F) as (cs & Es & Ls & Bs).
    exists (VStruct cs). cbn [ToStorageValue ConvertCell ConvertScalar ConvertSimpleScalarKind]. rewrite Es.
    unfold ConvertStructScalar. rewrite Ls, (Forall2_length _ _ _ R), !Nat.eqb_refl. cbn.
    split; [done|]. by rewrite Bs.
Qed.

(** C30: a value of type BOOL, INT64, FLOAT64, STRING, BYTES, NUMERIC, BIGNUMERIC or
    PROTO, or an array or struct of such at any depth, that is written to a cell
    reads back as the same value, when the column describes the fields of its
    structs.  A DATE, TIME, DATETIME, JSON, GEOGRAPHY, INTERVAL or RANGE that is not
    null reads back as a STRING.  A non-empty array of structs whose first element
    is not null does not read back when its column lists the fields of the struct
    and the first of them has no fields itself.  Nothing is said of TIMESTAMP,
    which is parsed from its text. *)
Theorem cell_value_reads_back v t column :
  has_type v t = true ->
  (readable t column = true -> reads_back v t column) /\
  (read_as_string t = true -> is_null v = false ->
   exists s, ToStorageValue v = Ok (VString s) /\ ConvertCell (VString s) t column = Ok (SString s)) /\
  (forall fs f cols, t = TArray (TStruct fs) -> col_fields column = f :: cols -> fs <> [] ->
   col_fields f = [] -> forall xs x, v = SArray (TStruct fs) (x :: xs) -> is_null x = false ->
   forall cell v', ToStorageValue v = Ok cell -> ConvertCell cell t column <> Ok v').
Proof.
  intros T. split; [by apply value_reads_back|]. split.
  - intros S N. pose proof (has_type_type_of _ _ T) as TO.
    destruct v; simplify_eq/=; try done; try (by eexists).
    + destruct (ToCivilDay day) as [[y mo] d]. by eexists.
    + destruct (GeographyWkt g); by eexists.
  - intros fs f cols -> C NE Cf xs x -> Nx cell v' E B.
    apply has_type_array in T as [_ Fx]. apply Forall_cons in Fx as [Tx _].
    cbn [ToStorageValue outcome_mapM] in E. apply bind_Ok in E as (cs & E & [= <-]).
    apply bind_Ok in E as (c & Ec & E). apply bind_Ok in E as (cs' & _ & [= <-]).
    destruct x; try done; cbn [has_type] in Tx; try (by bool_to_prop).
    cbn [ToStorageValue] in Ec. apply bind_Ok in Ec as (ds & Ed & [= <-]).
    apply mapM_length in Ed. cbn [ConvertCell outcome_mapM] in B. unfold element_schema in B. rewrite C in B.
    cbn [ConvertScalar ConvertSimpleScalarKind] in B. unfold ConvertStructScalar in B.
    destruct ds as [|d ds].
    + apply andb_true_iff in Tx as [Tf Tx]. apply bool_decide_eq_true in Tf. injection Tf as Tf.
      rewrite <- Tf in Tx. destruct vals; [|done]. by destruct fs.
    + rewrite Cf, orb_true_r in B. done.
Qed.
End roundtrip.
