(* ===== verification/Dml.v ===== *)
(** * Dml: INSERT, UPDATE, DELETE and MERGE

    Models [backend/engine/semantic/dml]: [dml_executor_common.cc],
    [dml_insert_helpers.cc], [dml_mutate.cc], [dml_mutate_helpers.cc],
    [dml_update_helpers.cc], [dml_merge.cc], [dml_merge_helpers.cc] and
    [dml_returning.cc].

    The executor reads every row of the target, computes the rows after the
    statement and hands them to the storage in one call; the state is the storage
    [S], threaded through the operations that write.  The pointer to the result of
    THEN RETURN is never null, as [ExecuteDml] passes it.  A null pointer to a node
    is [None], [ENull] or [NullScan].  An index taken from a schema is used on the
    cells of a row as it is; a row is as wide as the schema. *)

From S2P Require Import Prelude Order Absl AbslReference Schema RowRestriction Storage SemanticError.
From S2P Require Import FrameStack SqlValue GoogleSqlReference Arithmetic Operators MathFuncs Casts.
From S2P Require Import EvalExpr Rows Joins SetOps Unnest AggFuncs Aggregates Analytic Scans StorageValues.

(** ** Statements *)

(** The table of a statement; [None] when it is not a [StorageTable]. *)
Record TargetTable := mkTarget {
  target_FullName : str;
  target_storage : option (TableId * TableSchema);
}.

Record TableScanNode := mkTableScan {
  scan_columns : list ResolvedColumn;
  scan_table : option TargetTable;
}.

Inductive MergeMatchType := MATCHED | NOT_MATCHED_BY_SOURCE | NOT_MATCHED_BY_TARGET.
Inductive MergeAction := MERGE_INSERT | MERGE_UPDATE | MERGE_DELETE.

Record DmlStats := mkStats {
  inserted_row_count : Z;
  updated_row_count : Z;
  deleted_row_count : Z;
}.

Definition no_stats : DmlStats := mkStats 0 0 0.

Inductive DmlStatementKind := kInsert | kUpdate | kDelete.

Definition AffectedRowCount (kind : DmlStatementKind) (stats : DmlStats) : Z :=
  match kind with
  | kInsert => inserted_row_count stats
  | kUpdate => updated_row_count stats
  | kDelete => deleted_row_count stats
  end.

(** A materialized result. *)
Definition RowSource : Type := TableSchema * list Storage.Row.

Section statements.
Context `{GoogleSql, ExecutorNodes}.

Record ReturningClause := mkReturning {
  output_column_list : list (option (ResolvedColumn * str));
  returning_exprs : list ComputedColumn;
  action_column : option ResolvedColumn;
}.

(** An insert row: the expressions of its values. *)
Definition InsertRow : Type := list ResolvedExpr.

Record InsertStmt := mkInsert {
  insert_or_error : bool;
  has_on_conflict : bool;
  insert_generated_columns : Z;
  insert_target : option TableScanNode;
  insert_column_list : list ResolvedColumn;
  insert_query : Scan;
  query_output_column_list : list ResolvedColumn;
  row_list : list (option InsertRow);
  insert_assert : option ResolvedExpr;
  insert_returning : option ReturningClause;
}.

Record DeleteStmt := mkDelete {
  delete_target : option TableScanNode;
  delete_where : ResolvedExpr;
  delete_assert : option ResolvedExpr;
  delete_returning : option ReturningClause;
}.

(** A DELETE nested in an UPDATE, over the elements of an array. *)
Record NestedDelete := mkNestedDelete {
  nested_where : ResolvedExpr;
  nested_offset_column : option ResolvedColumn;
}.

Record UpdateItem := mkUpdateItem {
  item_target : ResolvedExpr;
  item_set_value : ResolvedExpr;
  item_element_column : option ResolvedColumn;
  item_delete_list : list (option NestedDelete);
  (** array element updates, nested UPDATE or INSERT items *)
  item_has_nested : bool;
}.

Record UpdateStmt := mkUpdate {
  update_generated_columns : Z;
  update_target : option TableScanNode;
  update_item_list : list (option UpdateItem);
  update_from : Scan;
  update_where : ResolvedExpr;
  update_assert : option ResolvedExpr;
  update_returning : option ReturningClause;
}.

Record MergeWhen := mkMergeWhen {
  match_type : MergeMatchType;
  match_expr : ResolvedExpr;
  action_type : MergeAction;
  when_insert_columns : list ResolvedColumn;
  when_insert_row : option InsertRow;
  when_update_items : list (option UpdateItem);
}.

Record MergeStmt := mkMerge {
  merge_target : option TableScanNode;
  merge_from : Scan;
  merge_expr : ResolvedExpr;
  when_clause_list : list (option MergeWhen);
}.

(** [ENull] and [None] are null pointers. *)
Record TruncateStmt := mkTruncate {
  truncate_where : ResolvedExpr;
  truncate_target : option TableScanNode;
}.

Inductive Statement :=
| InsertStatement (s : InsertStmt)
| UpdateStatement (s : UpdateStmt)
| DeleteStatement (s : DeleteStmt)
| MergeStatement (s : MergeStmt)
(** a generalized query; [Some i] when its body is a pipe INSERT *)
| GeneralizedQuery (insert : option (option InsertStmt))
| TruncateStatement (s : TruncateStmt)
| OtherStatement (node_kind : str).
End statements.

Record QueryParameter := mkQueryParameter {
  param_name : str;
  value_json : str;
  param_type_kind : str;
  type_json : str;
}.

Record QueryRequest := mkRequest {
  request_project_id : str;
  default_dataset_id : str;
  request_sql : str;
  request_parameters : list QueryParameter;
  use_legacy_sql : bool;
}.

(** [ParseParameterValue] of [value_parameters.cc]. *)
Class ParameterParser `{GoogleSql} := ParseParameterValue : str -> str -> str -> StatusOr Value.

Section dml.
Context `{AbslText, AbslDouble, GoogleSqlOps, ExecutorNodes}.
Context `{!CastLibrary, !ValueText, !ExecutorParts, !ResolvedAst, !AggregateParts}.

(** ** Targets and rows *)

Definition StorageTargetFor (scan : option TableScanNode) (stmt_kind : str)
    : StatusOr (TableScanNode * TableId * TableSchema) :=
  match scan with
  | Some ts =>
      match scan_table ts with
      | Some table =>
          match target_storage table with
          | Some (id, sch) => Ok (ts, id, sch)
          | None => Err (FailedPreconditionError ($"semantic/dml: " ++ stmt_kind ++ $" target '"
                      ++ target_FullName table
                      ++ $"' is not backed by a StorageTable; cannot apply DML"))
          end
      | None => Err (InternalError ($"semantic/dml: " ++ stmt_kind
                  ++ $" has no resolved target table scan"))
      end
  | None => Err (InternalError ($"semantic/dml: " ++ stmt_kind
              ++ $" has no resolved target table scan"))
  end.

(** [None] is -1. *)
Fixpoint index_from (i : nat) (cols : list ColumnSchema) (name : str) : option nat :=
  match cols with
  | [] => None
  | c :: cols => if EqualsIgnoreCase (col_name c) name then Some i else index_from (S i) cols name
  end.

Definition IndexOfColumn (sch : TableSchema) (name : str) : option nat :=
  index_from 0 (Schema.columns sch) name.

Definition ColumnIndexes := gmap Z nat.

Fixpoint index_columns (sch : TableSchema) (cols : list ResolvedColumn) (by_id : ColumnIndexes)
    : StatusOr ColumnIndexes :=
  match cols with
  | [] => Ok by_id
  | col :: cols =>
      match IndexOfColumn sch (column_name col) with
      | None => Err (InternalError ($"semantic/dml: ResolvedTableScan column '" ++ column_name col
                  ++ $"' not found in storage table schema"))
      | Some idx => index_columns sch cols (<[column_id col := idx]> by_id)
      end
  end.

Definition BuildColumnIndexByColumnId (scan : TableScanNode) (sch : TableSchema)
    : StatusOr ColumnIndexes := index_columns sch (scan_columns scan) ∅.

Definition schema_column (sch : TableSchema) (idx : nat) : ColumnSchema :=
  nth idx (Schema.columns sch) no_column.

Fixpoint bind_cells (row : Storage.Row) (by_id : ColumnIndexes) (sch : TableSchema)
    (cols : list ResolvedColumn) (bindings : Row) : StatusOr Row :=
  match cols with
  | [] => Ok bindings
  | col :: cols =>
      match by_id !! column_id col with
      | None => Err (InternalError ($"semantic/dml: column_id=" ++ StrInt (column_id col)
                  ++ $" missing from storage column-index map"))
      | Some idx =>
          match cells row !! idx with
          | None => Err (InternalError ($"semantic/dml: column index " ++ StrInt (Z.of_nat idx)
                      ++ $" out of range for row with " ++ StrInt (Z.of_nat (length (cells row)))
                      ++ $" cells"))
          | Some cell =>
              v ← StorageValueToGoogleSqlValue cell (column_type col) (schema_column sch idx);
              bind_cells row by_id sch cols (<[column_id col := v]> bindings)
          end
      end
  end.

Definition BindRow (row : Storage.Row) (scan : TableScanNode) (by_id : ColumnIndexes)
    (sch : TableSchema) : StatusOr Row := bind_cells row by_id sch (scan_columns scan) ∅.

(** Cells by their index; a row of nulls of the schema's width. *)
Definition set_cell (row : Storage.Row) (idx : nat) (cell : Storage.Value) : Storage.Row :=
  mkRow (<[idx := cell]> (cells row)).

Definition null_row (sch : TableSchema) : Storage.Row :=
  mkRow (replicate (length (Schema.columns sch)) VNull).

Fixpoint insert_cells (values : list ResolvedExpr) (idxs : list nat) (ctx : EvalContext)
    (out : Storage.Row) : StatusOr Storage.Row :=
  match values, idxs with
  | e :: values, idx :: idxs =>
      if is_null_expr e
      then Err (InternalError $"semantic/dml: ResolvedDMLValue carries a null inner expr")
      else
        v ← EvalExpr e ctx;
        cell ← ToStorageValue v;
        insert_cells values idxs ctx (set_cell out idx cell)
  | _, _ => Ok out
  end.

Definition BuildInsertRow (values : InsertRow) (column_idx : list nat) (sch : TableSchema)
    (ctx : EvalContext) : StatusOr Storage.Row :=
  if negb (length values =? length column_idx)
  then Err (InternalError ($"semantic/dml: INSERT row has " ++ StrInt (Z.of_nat (length values))
         ++ $" values but the column list named " ++ StrInt (Z.of_nat (length column_idx))
         ++ $" columns"))
  else insert_cells values column_idx ctx (null_row sch).

(** A null context pointer for the columns. *)
Definition clear_columns (ctx : EvalContext) : EvalContext :=
  mkContext (project_id ctx) (parameters ctx) None (columns_by_name ctx) (arguments ctx)
    (script_variables ctx) (script_system_variables ctx) (udaf ctx) (with_tables ctx)
    (relation_arguments ctx) (group_rows ctx).

Definition is_true_bool (v : Value) : bool := match v with SBool b => b | _ => false end.

Definition EvalWherePredicate (where_expr : ResolvedExpr) (ctx : EvalContext) : StatusOr bool :=
  if is_null_expr where_expr then Ok true
  else v ← EvalExpr where_expr ctx; Ok (is_true_bool v).

Definition CheckAssertRowsModified (assert_rows : option ResolvedExpr) (kind : DmlStatementKind)
    (stats : DmlStats) (ctx : EvalContext) : StatusOr unit :=
  match assert_rows with
  | None => Ok ()
  | Some rows_expr =>
      if is_null_expr rows_expr
      then Err (InternalError $"semantic/dml: ResolvedAssertRowsModified has null rows expr")
      else
        expected ← EvalExpr rows_expr ctx;
        match expected with
        | SInt64 expected_count =>
            let actual := AffectedRowCount kind stats in
            if (actual =? expected_count)%Z then Ok ()
            else Err (MakeSemanticError rInvalidArgument ($"DML statement modified " ++ StrInt actual
                   ++ $" row(s), but " ++ StrInt expected_count ++ $" row(s) were expected."))
        | _ => Err (InternalError
                 $"semantic/dml: ASSERT_ROWS_MODIFIED rows must be a non-null INT64")
        end
  end.

Definition MergeColumnBindings (target from : Row) : Row := from ∪ target.

Definition RejectUnsupportedDmlFeatures (generated_column_count : Z) (stmt_kind : str) : StatusOr unit :=
  if (0 <? generated_column_count)%Z
  then Err (MakeSemanticError rNotImplemented ($"semantic/dml: " ++ stmt_kind
         ++ $" on tables with GENERATED columns is not yet supported"))
  else Ok ().

(** ** THEN RETURN *)

Definition BuildReturningSchema (returning : ReturningClause) : StatusOr TableSchema :=
  cols ← outcome_mapM (fun oc : option (ResolvedColumn * str) =>
           match oc with
           | None => Err (InternalError
                       $"semantic/dml: ResolvedReturningClause output column is null")
           | Some (c, name) =>
               match column_type c with
               | None => Err (InvalidArgumentError $"semantic: null type for column schema")
               | Some t => ColumnSchemaForType t name
               end
           end) (output_column_list returning);
  Ok (mkTableSchema cols).

Definition returning_value (exprs : gmap Z ResolvedExpr) (action_id : option Z) (row_ctx : Row)
    (action : str) (name : str) (id : Z) (ctx : EvalContext) : StatusOr Value :=
  if bool_decide (action_id = Some id) then Ok (SString action)
  else match exprs !! id with
  | Some e => EvalExpr e ctx
  | None => match row_ctx !! id with
            | Some v => Ok v
            | None => Err (InternalError ($"semantic/dml: returning column '" ++ name
                        ++ $"' has no binding for column_id=" ++ StrInt id))
            end
  end.

Definition ProjectReturningRow (returning : ReturningClause) (row_ctx : Row) (action : str)
    (ctx : EvalContext) : StatusOr Storage.Row :=
  if existsb (fun cc : ComputedColumn => is_null_expr cc.2) (returning_exprs returning)
  then Err (InternalError $"semantic/dml: returning computed column has null expr")
  else
    let exprs := fold_left (fun m (cc : ComputedColumn) => <[column_id cc.1 := cc.2]> m)
                   (returning_exprs returning) ∅ in
    cells ← outcome_mapM (fun oc : option (ResolvedColumn * str) =>
      match oc with
      | None => Err (InternalError $"semantic/dml: returning output column is null")
      | Some (c, name) =>
          v ← returning_value exprs (column_id <$> action_column returning) row_ctx action name
                (column_id c) (set_columns ctx row_ctx);
          ToStorageValue v
      end) (output_column_list returning);
    Ok (mkRow cells).

(** The contexts with their action labels, which the code keeps in two vectors. *)
Definition BuildReturningRowSource (returning : ReturningClause) (row_contexts : list (Row * str))
    (ctx : EvalContext) : StatusOr RowSource :=
  sch ← BuildReturningSchema returning;
  rows ← outcome_mapM (fun rc : Row * str => ProjectReturningRow returning rc.1 rc.2 ctx) row_contexts;
  Ok (sch, rows).

Definition FinalizeMutateWithReturning (returning : option ReturningClause)
    (returning_contexts : list (Row * str)) (stats : DmlStats) (ctx : EvalContext)
    : StatusOr (DmlStats * option RowSource) :=
  match returning, returning_contexts with
  | Some r, _ :: _ => source ← BuildReturningRowSource r returning_contexts ctx; Ok (stats, Some source)
  | _, _ => Ok (stats, None)
  end.

(** ** INSERT *)

Definition BuildInsertColumnIndexMapping (cols : list ResolvedColumn) (sch : TableSchema)
    : StatusOr (list nat) :=
  outcome_mapM (fun col =>
    match IndexOfColumn sch (column_name col) with
    | None => Err (InternalError ($"semantic/dml: INSERT column '" ++ column_name col
                ++ $"' not found in storage table schema"))
    | Some idx => Ok idx
    end) cols.

Definition BuildInsertReturningIfNeeded (returning : option ReturningClause) (scan : TableScanNode)
    (sch : TableSchema) (by_id : ColumnIndexes) (rows : list Storage.Row) (stats : DmlStats)
    (ctx : EvalContext) : StatusOr (DmlStats * option RowSource) :=
  match returning, rows with
  | Some r, _ :: _ =>
      contexts ← outcome_mapM (fun row => bind ← BindRow row scan by_id sch; Ok (bind, $"INSERT")) rows;
      source ← BuildReturningRowSource r contexts ctx;
      Ok (stats, Some source)
  | _, _ => Ok (stats, None)
  end.

(** The rows of INSERT ... VALUES. *)
Definition insert_values_rows (insert : InsertStmt) (sch : TableSchema) (column_idx : list nat)
    (ctx : EvalContext) : StatusOr (list Storage.Row) :=
  outcome_mapM (fun row_node : option InsertRow =>
    match row_node with
    | None => Err (InternalError $"semantic/dml: INSERT row_list contains a null entry")
    | Some values => BuildInsertRow values column_idx sch ctx
    end) (row_list insert).

(** One row of INSERT ... SELECT. *)
Fixpoint select_cells (bind : Row) (ids : list Z) (idxs : list nat) (out : Storage.Row)
    : StatusOr Storage.Row :=
  match ids, idxs with
  | id :: ids, idx :: idxs =>
      match bind !! id with
      | None => Err (InternalError ($"semantic/dml: INSERT ... SELECT row missing column_id="
                  ++ StrInt id))
      | Some v => cell ← ToStorageValue v; select_cells bind ids idxs (set_cell out idx cell)
      end
  | _, _ => Ok out
  end.

Definition insert_select_rows (insert : InsertStmt) (sch : TableSchema) (column_idx : list nat)
    (ctx : EvalContext) : StatusOr (list Storage.Row) :=
  if negb (length (query_output_column_list insert) =? length (insert_column_list insert))
  then Err (InternalError
         $"semantic/dml: INSERT column list size does not match SELECT output column list size")
  else
    binds ← MaterializeScanImpl (insert_query insert) ctx;
    outcome_mapM (fun bind =>
      select_cells bind (map column_id (query_output_column_list insert)) column_idx (null_row sch)) binds.

(** ** UPDATE *)

Record UpdateTarget := mkUpdateTarget {
  column_idx : nat;
  struct_field_path : list Z;
}.

(** The column and the path of a target, root first. *)
Fixpoint target_path (target : ResolvedExpr) : StatusOr (ResolvedColumn * list Z) :=
  match target with
  | EGetStructField ENull _ _ =>
      Err (InternalError $"semantic/dml: ResolvedGetStructField has null expr")
  | EGetStructField expr field_idx _ => cp ← target_path expr; Ok (cp.1, cp.2 ++ [field_idx])
  | EColumnRef column _ => Ok (column, [])
  | _ => Err (MakeSemanticError rNotImplemented ($"semantic/dml: UPDATE SET target kind "
           ++ node_kind_string target ++ $" is not yet supported; see docs/ENGINE_POLICY.md"))
  end.

Definition ParseUpdateTarget (target : ResolvedExpr) (sch : TableSchema) : StatusOr UpdateTarget :=
  cp ← target_path target;
  match IndexOfColumn sch (column_name cp.1) with
  | None => Err (InternalError ($"semantic/dml: UPDATE target column '" ++ column_name cp.1
              ++ $"' not found in storage table schema"))
  | Some idx => Ok (mkUpdateTarget idx cp.2)
  end.

Fixpoint SetNestedStructField (root : Value) (field_path : list Z) (leaf : Value) : StatusOr Value :=
  match field_path with
  | [] => Ok leaf
  | idx :: rest =>
      if is_null root
      then Err (MakeSemanticError rInvalidArgument
             $"semantic/dml: cannot SET a nested STRUCT field on NULL")
      else match root with
      | SStruct st fields_ =>
          match (if (idx <? 0)%Z then None else fields_ !! Z.to_nat idx) with
          | None => Err (InvalidArgumentError $"semantic/dml: SetNestedStructField index out of range")
          | Some field =>
              nested ← SetNestedStructField field rest leaf;
              Ok (SStruct st (<[Z.to_nat idx := nested]> fields_))
          end
      | _ => Err (InvalidArgumentError $"semantic/dml: SetNestedStructField base is not STRUCT")
      end
  end.

Record SetAssignment := mkSet {
  set_target : UpdateTarget;
  set_expr : ResolvedExpr;
  root_column_type : option SqlType;
}.

Record NestedArrayDeleteAssignment := mkNestedAssignment {
  nested_target : UpdateTarget;
  nested_root_type : option SqlType;
  nested_item : UpdateItem;
}.

Fixpoint root_type_from (cols : list ResolvedColumn) (sch : TableSchema) (idx : nat)
    : option (option SqlType) :=
  match cols with
  | [] => None
  | col :: cols => if bool_decide (IndexOfColumn sch (column_name col) = Some idx)
                   then Some (column_type col) else root_type_from cols sch idx
  end.

Definition RootColumnTypeForTarget (scan : TableScanNode) (sch : TableSchema) (target : UpdateTarget)
    : StatusOr (option SqlType) :=
  match root_type_from (scan_columns scan) sch (column_idx target) with
  | Some t => Ok t
  | None => Err (InternalError $"semantic/dml: UPDATE target column missing from table scan")
  end.

Definition nested_deferred : Status :=
  MakeSemanticError rNotImplemented
    $"semantic/dml: nested UPDATE (array element / sub-record) is deferred; see docs/ENGINE_POLICY.md".

Definition ParseOneUpdateListItem (item : UpdateItem) (scan : TableScanNode) (sch : TableSchema)
    : StatusOr (SetAssignment + NestedArrayDeleteAssignment) :=
  if item_has_nested item then Err nested_deferred
  else match item_delete_list item with
  | _ :: _ =>
      if is_null_expr (item_target item) || negb (bool_decide (is_Some (item_element_column item)))
      then Err (InternalError $"semantic/dml: nested DELETE item missing target/element_column")
      else
        parsed ← ParseUpdateTarget (item_target item) sch;
        root_type ← RootColumnTypeForTarget scan sch parsed;
        Ok (inr (mkNestedAssignment parsed root_type item))
  | [] =>
      if bool_decide (is_Some (item_element_column item)) then Err nested_deferred
      else if is_null_expr (item_target item)
      then Err (InternalError $"semantic/dml: ResolvedUpdateItem has null target")
      else if is_null_expr (item_set_value item)
      then Err (InternalError $"semantic/dml: scalar UPDATE item has null set_value")
      else
        parsed ← ParseUpdateTarget (item_target item) sch;
        root_type ← RootColumnTypeForTarget scan sch parsed;
        Ok (inl (mkSet parsed (item_set_value item) root_type))
  end.

Definition lefts {A B} (l : list (A + B)) : list A :=
  flat_map (fun p => match p with inl a => [a] | inr _ => [] end) l.

Definition rights {A B} (l : list (A + B)) : list B :=
  flat_map (fun p => match p with inl _ => [] | inr b => [b] end) l.

(** The assignments and the nested deletes, each in the order of the items. *)
Definition ParseUpdateAssignments (items : list (option UpdateItem)) (scan : TableScanNode)
    (sch : TableSchema) : StatusOr (list SetAssignment * list NestedArrayDeleteAssignment) :=
  parsed ← outcome_mapM (fun item : option UpdateItem =>
    match item with
    | None => Err (InternalError $"semantic/dml: UPDATE update_item_list contains a null entry")
    | Some item => ParseOneUpdateListItem item scan sch
    end) items;
  Ok (lefts parsed, rights parsed).

(** The states of the elements after one nested DELETE: [true] is kept. *)
Fixpoint delete_elements (nested : NestedDelete) (element_column : ResolvedColumn) (i : Z)
    (elems : list Value) (states : list bool) (row_ctx : Row) (ctx : EvalContext)
    : StatusOr (list bool) :=
  match elems, states with
  | e :: elems, st :: states =>
      st' ← (if st then
               let local := emplace (column_id element_column) e row_ctx in
               let local := match nested_offset_column nested with
                            | Some c => emplace (column_id c) (SInt64 i) local
                            | None => local
                            end in
               pred ← EvalExpr (nested_where nested) (set_columns ctx local);
               Ok (negb (is_true_bool pred))
             else Ok false);
      rest ← delete_elements nested element_column (i + 1) elems states row_ctx ctx;
      Ok (st' :: rest)
  | _, _ => Ok []
  end.

Definition ApplyNestedArrayDeleteStmt (nested : NestedDelete) (element_column : ResolvedColumn)
    (array_value : Value) (row_ctx : Row) (ctx : EvalContext) (states : list bool)
    : StatusOr (list bool) :=
  if is_null_expr (nested_where nested)
  then Err (InternalError $"semantic/dml: nested DELETE requires a WHERE clause")
  else if is_null array_value
  then Err (MakeSemanticError rInvalidArgument
         $"semantic/dml: cannot execute nested DELETE on a NULL array value")
  else match array_value with
  | SArray _ elems => delete_elements nested element_column 0 elems states row_ctx ctx
  | _ => Err (InternalError $"semantic/dml: nested DELETE target is not an ARRAY")
  end.

Fixpoint nested_delete_list (nested : list (option NestedDelete)) (element_column : ResolvedColumn)
    (array_value : Value) (row_ctx : Row) (ctx : EvalContext) (states : list bool)
    : StatusOr (list bool) :=
  match nested with
  | [] => Ok states
  | None :: _ => Err (InternalError $"semantic/dml: nested DELETE list contains null entry")
  | Some n :: nested =>
      states ← ApplyNestedArrayDeleteStmt n element_column array_value row_ctx ctx states;
      nested_delete_list nested element_column array_value row_ctx ctx states
  end.

(** The elements in state [true]. *)
Definition kept_elements (elems : list Value) (states : list bool) : list Value :=
  flat_map (fun es : Value * bool => if es.2 then [es.1] else []) (zip elems states).

Definition ApplyNestedArrayDeleteItem (item : UpdateItem) (array_value : Value) (row_ctx : Row)
    (ctx : EvalContext) : StatusOr Value :=
  match item_element_column item with
  | None => Err (InternalError $"semantic/dml: nested DELETE update item missing element_column")
  | Some element_column =>
      match item_delete_list item with
      | [] => Err (InternalError $"semantic/dml: nested DELETE update item has empty delete_list")
      | nested =>
          states ← nested_delete_list nested element_column array_value row_ctx ctx
                     (replicate (length (elements array_value)) true);
          match array_value with
          | SArray t elems => Ok (SArray t (kept_elements elems states))
          | _ => Ok array_value
          end
      end
  end.

(** [ApplyUpdateSets], first over the assignments (as [ApplyMergeSets]), then over
    the nested deletes. *)
Definition apply_set (mutated : Storage.Row) (s : SetAssignment) (sch : TableSchema) (ctx : EvalContext)
    : StatusOr Storage.Row :=
  v ← EvalExpr (set_expr s) ctx;
  let idx := column_idx (set_target s) in
  match struct_field_path (set_target s) with
  | [] => cell ← ToStorageValue v; Ok (set_cell mutated idx cell)
  | path =>
      current ← StorageValueToGoogleSqlValue (nth idx (cells mutated) VNull) (root_column_type s)
                  (schema_column sch idx);
      rewritten ← SetNestedStructField current path v;
      cell ← ToStorageValue rewritten;
      Ok (set_cell mutated idx cell)
  end.

Fixpoint apply_sets (mutated : Storage.Row) (sets : list SetAssignment) (sch : TableSchema)
    (ctx : EvalContext) : StatusOr Storage.Row :=
  match sets with
  | [] => Ok mutated
  | s :: sets => mutated ← apply_set mutated s sch ctx; apply_sets mutated sets sch ctx
  end.

Fixpoint apply_nested_deletes (mutated : Storage.Row) (nested : list NestedArrayDeleteAssignment)
    (row_ctx : Row) (sch : TableSchema) (ctx : EvalContext) : StatusOr Storage.Row :=
  match nested with
  | [] => Ok mutated
  | n :: nested =>
      let idx := column_idx (nested_target n) in
      current ← StorageValueToGoogleSqlValue (nth idx (cells mutated) VNull) (nested_root_type n)
                  (schema_column sch idx);
      match struct_field_path (nested_target n) with
      | _ :: _ => Err (MakeSemanticError rNotImplemented
                    $"semantic/dml: nested DELETE on nested STRUCT arrays is deferred")
      | [] =>
          rewritten ← ApplyNestedArrayDeleteItem (nested_item n) current row_ctx ctx;
          cell ← ToStorageValue rewritten;
          apply_nested_deletes (set_cell mutated idx cell) nested row_ctx sch ctx
      end
  end.

Definition ApplyUpdateSets (mutated : Storage.Row) (sets : list SetAssignment)
    (nested_deletes : list NestedArrayDeleteAssignment) (row_ctx : Row) (sch : TableSchema)
    (ctx : EvalContext) : StatusOr Storage.Row :=
  mutated ← apply_sets mutated sets sch (set_columns ctx row_ctx);
  apply_nested_deletes mutated nested_deletes row_ctx sch ctx.

(** The number of matching source rows, with the bindings of the last one. *)
Fixpoint from_matches (where_expr : ResolvedExpr) (target_bind : Row) (from_rows : list Row)
    (ctx : EvalContext) (match_count : Z) (matched_from : Row) : StatusOr (Z * Row) :=
  match from_rows with
  | [] => Ok (match_count, matched_from)
  | from_bind :: from_rows =>
      let merged := MergeColumnBindings target_bind from_bind in
      matched ← EvalWherePredicate where_expr (set_columns ctx merged);
      if (matched : bool)
      then from_matches where_expr target_bind from_rows ctx (match_count + 1) merged
      else from_matches where_expr target_bind from_rows ctx match_count matched_from
  end.

(** [None] when no source row matches. *)
Definition CountFromScanMatches (where_expr : ResolvedExpr) (target_bind : Row) (from_rows : list Row)
    (ctx : EvalContext) : StatusOr (option Row) :=
  found ← from_matches where_expr target_bind from_rows ctx 0 ∅;
  if (1 <? found.1)%Z
  then Err (MakeSemanticError rInvalidArgument
         $"semantic/dml: UPDATE/MERGE must match at most one source row for each target row")
  else Ok (if (0 <? found.1)%Z then Some found.2 else None).

(** The row an UPDATE leaves in place of one row; [Some] with the bindings after
    the update when it was updated (they are read for THEN RETURN only). *)
Definition RecordUpdatedRow (upd : UpdateStmt) (mutated : Storage.Row) (scan : TableScanNode)
    (by_id : ColumnIndexes) (sch : TableSchema) : StatusOr (Storage.Row * option (list (Row * str))) :=
  match update_returning upd with
  | None => Ok (mutated, Some [])
  | Some _ => post ← BindRow mutated scan by_id sch; Ok (mutated, Some [(post, $"UPDATE")])
  end.

Definition ApplyUpdateToMatchedRow (upd : UpdateStmt) (row : Storage.Row) (eval_row : Row)
    (sets : list SetAssignment) (nested_deletes : list NestedArrayDeleteAssignment)
    (scan : TableScanNode) (by_id : ColumnIndexes) (sch : TableSchema) (ctx : EvalContext)
    : StatusOr (Storage.Row * option (list (Row * str))) :=
  mutated ← ApplyUpdateSets row sets nested_deletes eval_row sch ctx;
  RecordUpdatedRow upd mutated scan by_id sch.

(** The bindings a row is updated with; [None] when it does not match. *)
Definition update_match (upd : UpdateStmt) (target_bind : Row) (from_rows : list Row)
    (ctx : EvalContext) : StatusOr (option Row) :=
  if is_null_scan (update_from upd) then
    matched ← EvalWherePredicate (update_where upd) (set_columns ctx target_bind);
    Ok (if (matched : bool) then Some target_bind else None)
  else CountFromScanMatches (update_where upd) target_bind from_rows ctx.

Definition ProcessOneUpdateRow (upd : UpdateStmt) (row : Storage.Row) (target_bind : Row)
    (sets : list SetAssignment) (nested_deletes : list NestedArrayDeleteAssignment)
    (from_rows : list Row) (scan : TableScanNode) (by_id : ColumnIndexes) (sch : TableSchema)
    (ctx : EvalContext) : StatusOr (Storage.Row * option (list (Row * str))) :=
  matched ← update_match upd target_bind from_rows ctx;
  match matched with
  | None => Ok (row, None)
  | Some eval_row =>
      ApplyUpdateToMatchedRow upd row eval_row sets nested_deletes scan by_id sch ctx
  end.

(** ** MERGE *)

Record TargetMergeState := mkTargetState {
  target_bind : Row;
  target_row : Storage.Row;
  has_source_match : bool;
  match_count : Z;
  matched_bind : Row;
  target_acted : bool;
  deleted : bool;
}.

Record SourceMergeState := mkSourceState {
  source_bind : Row;
  has_target_match : bool;
  source_acted : bool;
}.

(** [EvalBoolExpr] of [dml_merge_helpers.cc]: an error counts as FALSE. *)
Definition merge_condition (expr : ResolvedExpr) (ctx : EvalContext) : bool :=
  if is_null_expr expr then true
  else match EvalExpr expr ctx with Ok v => is_true_bool v | Err _ => false end.

Definition ParseMergeUpdateItems (items : list (option UpdateItem)) (sch : TableSchema)
    (scan : TableScanNode) : StatusOr (list SetAssignment) :=
  outcome_mapM (fun item : option UpdateItem =>
    match item with
    | None => Err (InternalError $"semantic/dml: MERGE UPDATE item is missing target or set_value")
    | Some item =>
        if is_null_expr (item_target item) || is_null_expr (item_set_value item)
        then Err (InternalError $"semantic/dml: MERGE UPDATE item is missing target or set_value")
        else if item_has_nested item || negb (length (item_delete_list item) =? 0)
                || bool_decide (is_Some (item_element_column item))
        then Err (MakeSemanticError rNotImplemented
               $"semantic/dml: nested MERGE UPDATE items are deferred")
        else
          parsed ← ParseUpdateTarget (item_target item) sch;
          match root_type_from (scan_columns scan) sch (column_idx parsed) with
          | Some (Some t) => Ok (mkSet parsed (item_set_value item) (Some t))
          | _ => Err (InternalError
                   $"semantic/dml: MERGE UPDATE target column missing from table scan")
          end
    end) items.

Definition ApplyMergeSets (mutated : Storage.Row) (sets : list SetAssignment) (row_ctx : Row)
    (sch : TableSchema) (ctx : EvalContext) : StatusOr Storage.Row :=
  apply_sets mutated sets sch (set_columns ctx row_ctx).

(** One source row against all targets. *)
Definition correlate_target (merge : MergeStmt) (source : Row) (ctx : EvalContext) (t : TargetMergeState)
    : bool * TargetMergeState :=
  let merged := MergeColumnBindings (target_bind t) source in
  if merge_condition (merge_expr merge) (set_columns ctx merged)
  then (true, mkTargetState (target_bind t) (target_row t) true (match_count t + 1) merged
                (target_acted t) (deleted t))
  else (false, t).

Fixpoint CorrelateMergeTargetsAndSources (merge : MergeStmt) (targets : list TargetMergeState)
    (sources : list SourceMergeState) (ctx : EvalContext)
    : list TargetMergeState * list SourceMergeState :=
  match sources with
  | [] => (targets, [])
  | src :: sources =>
      let results := map (correlate_target merge (source_bind src) ctx) targets in
      let src := mkSourceState (source_bind src) (has_target_match src || existsb fst results)
                   (source_acted src) in
      let '(targets, sources) := CorrelateMergeTargetsAndSources merge (map snd results) sources ctx in
      (targets, src :: sources)
  end.

Definition matched_mutates (merge : MergeStmt) : bool :=
  existsb (fun w : option MergeWhen =>
    match w with
    | Some w => match match_type w, action_type w with
                | MATCHED, (MERGE_UPDATE | MERGE_DELETE) => true
                | _, _ => false
                end
    | None => false
    end) (when_clause_list merge).

Definition CheckMatchedTargetMultiMatch (merge : MergeStmt) (targets : list TargetMergeState)
    : StatusOr unit :=
  if matched_mutates merge && existsb (fun st => (1 <? match_count st)%Z) targets
  then Err (MakeSemanticError rInvalidArgument
         $"semantic/dml: MERGE must match at most one source row for each target row")
  else Ok ().

Definition count_inserted (s : DmlStats) : DmlStats :=
  mkStats (inserted_row_count s + 1) (updated_row_count s) (deleted_row_count s).
Definition count_updated (s : DmlStats) : DmlStats :=
  mkStats (inserted_row_count s) (updated_row_count s + 1) (deleted_row_count s).
Definition count_deleted (s : DmlStats) : DmlStats :=
  mkStats (inserted_row_count s) (updated_row_count s) (deleted_row_count s + 1).

(** The action of a clause on one target row, evaluated on [bind]. *)
Definition act_on_target (w : MergeWhen) (sch : TableSchema) (scan : TableScanNode) (bind : Row)
    (unexpected : str) (st : TargetMergeState) (stats : DmlStats) (ctx : EvalContext)
    : StatusOr (TargetMergeState * DmlStats) :=
  match action_type w with
  | MERGE_DELETE =>
      Ok (mkTargetState (target_bind st) (target_row st) (has_source_match st) (match_count st)
            (matched_bind st) true true, count_deleted stats)
  | MERGE_UPDATE =>
      sets ← ParseMergeUpdateItems (when_update_items w) sch scan;
      row ← ApplyMergeSets (target_row st) sets bind sch ctx;
      Ok (mkTargetState (target_bind st) row (has_source_match st) (match_count st)
            (matched_bind st) true (deleted st), count_updated stats)
  | MERGE_INSERT => Err (InternalError unexpected)
  end.

(** A clause over the targets it applies to. *)
Fixpoint act_on_targets (applies : TargetMergeState -> bool) (bind_of : TargetMergeState -> Row)
    (unexpected : str) (w : MergeWhen) (sch : TableSchema) (scan : TableScanNode)
    (targets : list TargetMergeState) (stats : DmlStats) (ctx : EvalContext)
    : StatusOr (list TargetMergeState * DmlStats) :=
  match targets with
  | [] => Ok ([], stats)
  | st :: targets =>
      r ← (if applies st && negb (target_acted st) && negb (deleted st)
              && merge_condition (match_expr w) (set_columns ctx (bind_of st))
           then act_on_target w sch scan (bind_of st) unexpected st stats ctx
           else Ok (st, stats));
      rest ← act_on_targets applies bind_of unexpected w sch scan targets r.2 ctx;
      Ok (r.1 :: rest.1, rest.2)
  end.

Definition ApplyMatchedMergeWhen (w : MergeWhen) (sch : TableSchema) (scan : TableScanNode)
    (targets : list TargetMergeState) (stats : DmlStats) (ctx : EvalContext)
    : StatusOr (list TargetMergeState * DmlStats) :=
  act_on_targets has_source_match matched_bind
    $"semantic/dml: MATCHED MERGE clause has unexpected action" w sch scan targets stats ctx.

Definition ApplyNotMatchedBySourceMergeWhen (w : MergeWhen) (sch : TableSchema) (scan : TableScanNode)
    (targets : list TargetMergeState) (stats : DmlStats) (ctx : EvalContext)
    : StatusOr (list TargetMergeState * DmlStats) :=
  act_on_targets (fun st => negb (has_source_match st)) target_bind
    $"semantic/dml: NOT MATCHED BY SOURCE has unexpected action" w sch scan targets stats ctx.

(** The row a clause inserts for a source row. *)
Definition merge_insert_row (w : MergeWhen) (sch : TableSchema) (ctx : EvalContext)
    : StatusOr Storage.Row :=
  match action_type w with
  | MERGE_INSERT =>
      match when_insert_row w, when_insert_columns w with
      | Some values, _ :: _ =>
          column_idx ← outcome_mapM (fun col =>
            match IndexOfColumn sch (column_name col) with
            | None => Err (InternalError ($"semantic/dml: MERGE INSERT column '" ++ column_name col
                        ++ $"' not found in target schema"))
            | Some idx => Ok idx
            end) (when_insert_columns w);
          BuildInsertRow values column_idx sch ctx
      | _, _ => Err (InternalError $"semantic/dml: MERGE INSERT clause missing row/columns")
      end
  | _ => Err (InternalError $"semantic/dml: NOT MATCHED BY TARGET requires INSERT")
  end.

Fixpoint ApplyNotMatchedByTargetMergeWhen (w : MergeWhen) (sch : TableSchema)
    (sources : list SourceMergeState) (inserts : list Storage.Row) (stats : DmlStats) (ctx : EvalContext)
    : StatusOr (list SourceMergeState * list Storage.Row * DmlStats) :=
  match sources with
  | [] => Ok ([], inserts, stats)
  | src :: sources =>
      let row_ctx := set_columns ctx (source_bind src) in
      if negb (has_target_match src) && negb (source_acted src)
         && merge_condition (match_expr w) row_ctx
      then
        built ← merge_insert_row w sch row_ctx;
        rest ← ApplyNotMatchedByTargetMergeWhen w sch sources (inserts ++ [built])
                 (count_inserted stats) ctx;
        Ok (mkSourceState (source_bind src) (has_target_match src) true :: rest.1.1, rest.1.2, rest.2)
      else
        rest ← ApplyNotMatchedByTargetMergeWhen w sch sources inserts stats ctx;
        Ok (src :: rest.1.1, rest.1.2, rest.2)
  end.

Record MergeState := mkMergeState {
  ms_targets : list TargetMergeState;
  ms_sources : list SourceMergeState;
  ms_inserts : list Storage.Row;
  ms_stats : DmlStats;
}.

Fixpoint ApplyMergeWhenClauses (clauses : list (option MergeWhen)) (sch : TableSchema)
    (scan : TableScanNode) (ms : MergeState) (ctx : EvalContext) : StatusOr MergeState :=
  match clauses with
  | [] => Ok ms
  | None :: _ => Err (InternalError $"semantic/dml: MERGE when_clause_list contains null entry")
  | Some w :: clauses =>
      ms ← match match_type w with
           | MATCHED =>
               r ← ApplyMatchedMergeWhen w sch scan (ms_targets ms) (ms_stats ms) ctx;
               Ok (mkMergeState r.1 (ms_sources ms) (ms_inserts ms) r.2)
           | NOT_MATCHED_BY_TARGET =>
               r ← ApplyNotMatchedByTargetMergeWhen w sch (ms_sources ms) (ms_inserts ms)
                     (ms_stats ms) ctx;
               Ok (mkMergeState (ms_targets ms) r.1.1 r.1.2 r.2)
           | NOT_MATCHED_BY_SOURCE =>
               r ← ApplyNotMatchedBySourceMergeWhen w sch scan (ms_targets ms) (ms_stats ms) ctx;
               Ok (mkMergeState r.1 (ms_sources ms) (ms_inserts ms) r.2)
           end;
      ApplyMergeWhenClauses clauses sch scan ms ctx
  end.

Definition BuildMergeFinalRows (targets : list TargetMergeState) (inserts : list Storage.Row)
    : list Storage.Row :=
  map target_row (List.filter (fun st => negb (deleted st)) targets) ++ inserts.

(** ** The statements *)

Section executor.
Context {S : Type} `{RewritableStorage S}.

Definition ScanAllRows (storage : S) (id : TableId) : StatusOr (list Storage.Row) :=
  iter ← ScanRows storage id;
  match iter_error iter with Some e => Err e | None => Ok (iter_rows iter) end.

(** What a statement returns, with the storage after it. *)
Definition Outcome : Type := S * StatusOr (DmlStats * option RowSource).

(** A failure before the storage is written. *)
Definition on_store {A} (storage : S) (m : StatusOr A) (k : A -> Outcome) : Outcome :=
  match m with Ok a => k a | Err e => (storage, Err e) end.

(** A call that writes the storage, then the rest with the written one. *)
Definition after_write (w : S * StatusOr unit) (k : S -> Outcome) : Outcome :=
  match w with (storage, Ok _) => k storage | (storage, Err e) => (storage, Err e) end.

Definition FinalizeInsertAppend (insert : InsertStmt) (scan : TableScanNode) (id : TableId)
    (sch : TableSchema) (by_id : ColumnIndexes) (rows : list Storage.Row) (storage : S)
    (ctx : EvalContext) : Outcome :=
  match rows with
  | [] =>
      on_store storage (CheckAssertRowsModified (insert_assert insert) kInsert no_stats ctx)
        (fun _ => (storage, Ok (no_stats, None)))
  | _ =>
      let stats := mkStats (Z.of_nat (length rows)) 0 0 in
      on_store storage (CheckAssertRowsModified (insert_assert insert) kInsert stats ctx) (fun _ =>
      on_store storage
        (BuildInsertReturningIfNeeded (insert_returning insert) scan sch by_id rows stats ctx)
        (fun result =>
      after_write (AppendRows storage id rows) (fun storage => (storage, Ok result))))
  end.

Definition ExecuteInsert (insert : InsertStmt) (storage : S) (ctx : EvalContext) : Outcome :=
  if negb (insert_or_error insert) then
    (storage, Err (MakeSemanticError rNotImplemented
       $"semantic/dml: INSERT OR {IGNORE,REPLACE,UPDATE} requires primary-key conflict resolution that is not yet supported"))
  else if has_on_conflict insert then
    (storage, Err (MakeSemanticError rNotImplemented
       $"semantic/dml: INSERT ... ON CONFLICT is not yet supported"))
  else
    on_store storage (RejectUnsupportedDmlFeatures (insert_generated_columns insert) $"INSERT") (fun _ =>
    on_store storage (StorageTargetFor (insert_target insert) $"INSERT") (fun target =>
    let '(scan, id, sch) := target in
    on_store storage (match insert_returning insert with
                      | Some _ => BuildColumnIndexByColumnId scan sch
                      | None => Ok ∅
                      end) (fun by_id =>
    on_store storage (BuildInsertColumnIndexMapping (insert_column_list insert) sch) (fun column_idx =>
    on_store storage (if is_null_scan (insert_query insert)
                      then insert_values_rows insert sch column_idx ctx
                      else insert_select_rows insert sch column_idx ctx) (fun rows =>
    FinalizeInsertAppend insert scan id sch by_id rows storage ctx))))).

(** One row of a DELETE: its bindings when the predicate holds. *)
Definition delete_row (del : DeleteStmt) (scan : TableScanNode) (by_id : ColumnIndexes)
    (sch : TableSchema) (ctx : EvalContext) (row : Storage.Row) : StatusOr (option Row) :=
  bind ← BindRow row scan by_id sch;
  matched ← EvalWherePredicate (delete_where del) (set_columns ctx bind);
  Ok (if (matched : bool) then Some bind else None).

(** The rows whose outcome is [None], and the bindings of the others. *)
Definition rows_kept (rows : list Storage.Row) (outcomes : list (option Row)) : list Storage.Row :=
  flat_map (fun ro : Storage.Row * option Row => match ro.2 with None => [ro.1] | Some _ => [] end)
    (zip rows outcomes).

Definition rows_deleted (outcomes : list (option Row)) : list Row :=
  flat_map (fun o : option Row => match o with Some b => [b] | None => [] end) outcomes.

Definition ExecuteDelete (del : DeleteStmt) (storage : S) (ctx : EvalContext) : Outcome :=
  on_store storage (RejectUnsupportedDmlFeatures 0 $"DELETE") (fun _ =>
  on_store storage (StorageTargetFor (delete_target del) $"DELETE") (fun target =>
  let '(scan, id, sch) := target in
  on_store storage (BuildColumnIndexByColumnId scan sch) (fun by_id =>
  on_store storage (ScanAllRows storage id) (fun rows =>
  on_store storage (outcome_mapM (delete_row del scan by_id sch ctx) rows) (fun outcomes =>
  let ctx := clear_columns ctx in
  let contexts := match delete_returning del with
                  | Some _ => map (fun b => (b, $"DELETE")) (rows_deleted outcomes)
                  | None => []
                  end in
  let stats := mkStats 0 0 (Z.of_nat (length (rows_deleted outcomes))) in
  on_store storage (CheckAssertRowsModified (delete_assert del) kDelete stats ctx) (fun _ =>
  let finish storage :=
    (storage, FinalizeMutateWithReturning (delete_returning del) contexts stats ctx) in
  if (0 <? deleted_row_count stats)%Z
  then after_write (OverwriteRows storage id (rows_kept rows outcomes)) finish
  else finish storage)))))).

Definition update_row (upd : UpdateStmt) (sets : list SetAssignment)
    (nested_deletes : list NestedArrayDeleteAssignment) (from_rows : list Row) (scan : TableScanNode)
    (by_id : ColumnIndexes) (sch : TableSchema) (ctx : EvalContext) (row : Storage.Row)
    : StatusOr (Storage.Row * option (list (Row * str))) :=
  bind ← BindRow row scan by_id sch;
  ProcessOneUpdateRow upd row bind sets nested_deletes from_rows scan by_id sch ctx.

(** The contexts of the updated rows, one list per row. *)
Definition updated_rows (outcomes : list (Storage.Row * option (list (Row * str))))
    : list (list (Row * str)) :=
  flat_map (fun o : Storage.Row * option (list (Row * str)) =>
              match o.2 with Some c => [c] | None => [] end) outcomes.

Definition ExecuteUpdate (upd : UpdateStmt) (storage : S) (ctx : EvalContext) : Outcome :=
  on_store storage (RejectUnsupportedDmlFeatures (update_generated_columns upd) $"UPDATE") (fun _ =>
  on_store storage (StorageTargetFor (update_target upd) $"UPDATE") (fun target =>
  let '(scan, id, sch) := target in
  on_store storage (ParseUpdateAssignments (update_item_list upd) scan sch) (fun assignments =>
  on_store storage (BuildColumnIndexByColumnId scan sch) (fun by_id =>
  on_store storage (ScanAllRows storage id) (fun rows =>
  on_store storage (if is_null_scan (update_from upd) then Ok []
                    else MaterializeScanImpl (update_from upd) ctx) (fun from_rows =>
  on_store storage
    (outcome_mapM (update_row upd assignments.1 assignments.2 from_rows scan by_id sch ctx) rows)
    (fun outcomes =>
  let ctx := clear_columns ctx in
  let stats := mkStats 0 (Z.of_nat (length (updated_rows outcomes))) 0 in
  on_store storage (CheckAssertRowsModified (update_assert upd) kUpdate stats ctx) (fun _ =>
  let finish storage :=
    (storage, FinalizeMutateWithReturning (update_returning upd) (concat (updated_rows outcomes))
                stats ctx) in
  if (0 <? updated_row_count stats)%Z
  then after_write (OverwriteRows storage id (map fst outcomes)) finish
  else finish storage)))))))).

Definition LoadMergeParticipants (merge : MergeStmt) (storage : S) (sch : TableSchema)
    (by_id : ColumnIndexes) (scan : TableScanNode) (id : TableId) (ctx : EvalContext)
    : StatusOr (list TargetMergeState * list SourceMergeState) :=
  target_rows ← ScanAllRows storage id;
  source_rows ← MaterializeScanImpl (merge_from merge) ctx;
  targets ← outcome_mapM (fun row =>
    bind ← BindRow row scan by_id sch; Ok (mkTargetState bind row false 0 ∅ false false)) target_rows;
  Ok (targets, map (fun bind => mkSourceState bind false false) source_rows).

Definition ExecuteMerge (merge : MergeStmt) (storage : S) (ctx : EvalContext) : Outcome :=
  on_store storage (StorageTargetFor (merge_target merge) $"MERGE") (fun target =>
  let '(scan, id, sch) := target in
  on_store storage (BuildColumnIndexByColumnId scan sch) (fun by_id =>
  on_store storage (LoadMergeParticipants merge storage sch by_id scan id ctx) (fun participants =>
  let '(targets, sources) :=
    CorrelateMergeTargetsAndSources merge participants.1 participants.2 ctx in
  on_store storage (CheckMatchedTargetMultiMatch merge targets) (fun _ =>
  on_store storage (ApplyMergeWhenClauses (when_clause_list merge) sch scan
                      (mkMergeState targets sources [] no_stats) ctx) (fun ms =>
  after_write (OverwriteRows storage id (BuildMergeFinalRows (ms_targets ms) (ms_inserts ms)))
    (fun storage => (storage, Ok (ms_stats ms, None)))))))).

Context `{!ParameterParser}.

Fixpoint bind_parameters (ps : list QueryParameter) (b : ParameterBindings) (any_positional any_named : bool)
    : StatusOr (ParameterBindings * bool) :=
  match ps with
  | [] => Ok (b, any_positional && any_named)
  | p :: ps =>
      v ← ParseParameterValue (value_json p) (param_type_kind p) (type_json p);
      match param_name p with
      | [] => bind_parameters ps (mkParameters (by_name b) (by_position b ++ [v])) true any_named
      | name => bind_parameters ps (mkParameters (<[AsciiStrToLower name := v]> (by_name b))
                                      (by_position b)) any_positional true
      end
  end.

Definition BuildParameterBindings (request : QueryRequest) : StatusOr ParameterBindings :=
  b ← bind_parameters (request_parameters request) (mkParameters ∅ []) false false;
  if (b.2 : bool) then Err (InvalidArgumentError
         $"semantic/dml: request mixes named and positional parameters")
  else Ok b.1.

Definition request_context (request : QueryRequest) (b : ParameterBindings) : EvalContext :=
  mkContext (request_project_id request) (Some b) None None None None None None None None None.

Definition ExecuteDml (request : QueryRequest) (stmt : Statement) (storage : S) : Outcome :=
  on_store storage (BuildParameterBindings request) (fun bindings =>
  let ctx := request_context request bindings in
  match stmt with
  | InsertStatement s => ExecuteInsert s storage ctx
  | DeleteStatement s => ExecuteDelete s storage ctx
  | UpdateStatement s => ExecuteUpdate s storage ctx
  | MergeStatement s => ExecuteMerge s storage ctx
  | GeneralizedQuery None =>
      (storage, Err (MakeSemanticError rNotImplemented
         $"semantic/dml: generalized query statement is not a pipe INSERT"))
  | GeneralizedQuery (Some None) =>
      (storage, Err (InternalError $"semantic/dml: ResolvedPipeInsertScan missing insert_stmt"))
  | GeneralizedQuery (Some (Some s)) => ExecuteInsert s storage ctx
  | TruncateStatement _ =>
      (storage, Err (MakeSemanticError rNotImplemented
         $"semantic/dml: TRUNCATE TABLE is owned by control-op-executor (catalog metadata op), not the DML executor"))
  | OtherStatement kind =>
      (storage, Err (MakeSemanticError rNotImplemented ($"semantic/dml: ExecuteDml does not handle "
         ++ kind ++ $"; only INSERT / UPDATE / DELETE / MERGE statement kinds route through the local DML executor")))
  end).
End executor.
End dml.
