(* ===== verification/EngineSql.v ===== *)
(** * EngineSql: the SQL text the executors send to an in-memory DuckDB

    Models [backend/engine/duckdb/duckdb_executor_literals.cc] and
    [backend/engine/control/control_op_literals.cc]: the literals of cells and of
    query parameters, column lists, the INSERT of scanned rows, and the substitution
    of parameters.  The two files are copies of each other that differ in the points
    of the record [LiteralStyle].

    The second half holds what the executors ask of the storage, of DuckDB and of the
    host, and the routines both executors have a copy of.

    [parameters_substituted] says when the substitution puts every parameter in its
    place, and that a string parameter whose text is a placeholder is not. *)

From Stdlib Require Import SpecFloat.
From S2P Require Import Prelude Order Absl AbslReference Schema RowRestriction Storage DuckDbSql SemanticError FrameStack.
From S2P Require Import SqlValue GoogleSqlReference Arithmetic Operators MathFuncs Casts EvalExpr Rows.
From S2P Require Import AggFuncs StorageValues Dml.
From S2P Require Import SidecarJson ArrowToBq.

(** ** Texts *)

(** [absl::StrReplaceAll] of one text, which is not empty, from left to right. *)
Fixpoint replace_from (skip : nat) (old new s : str) : str :=
  match s with
  | [] => []
  | c :: r =>
      match skip with
      | S skip => replace_from skip old new r
      | 0 => if has_prefix s old then new ++ replace_from (length old - 1) old new r
             else c :: replace_from 0 old new r
      end
  end.

Definition StrReplaceAll (s old new : str) : str := replace_from 0 old new s.

(** ** Literals of cells *)

(** The points in which the two copies differ. *)
Record LiteralStyle := mkStyle {
  (** the name the messages start with *)
  style_tag : str;
  style_double : spec_float -> str;
  (** the type NUMERIC and BIGNUMERIC literals are cast to *)
  style_decimal_type : ColumnType -> str;
  (** whether a text that looks like a struct literal is passed on *)
  style_struct_text : bool;
  style_column_type : ColumnSchema -> str;
  style_missing_parameter : str;
}.

Section literals.
Context `{AbslText, DuckText, AbslDouble}.

(** [backend/engine/duckdb]. *)
Definition engine_style : LiteralStyle :=
  mkStyle $"DuckDBEngine" FormatG17 ToDuckDBStorageType true ColumnSchemaToDuckDBStorageType
    $"DuckDbExecutor: missing query parameter for DuckDB placeholder $".

(** [backend/engine/control]. *)
Definition control_style : LiteralStyle :=
  mkStyle $"ControlOpExecutor" StrDouble ToDuckDBType false ColumnSchemaToDuckDBType
    $"ControlOpExecutor: missing query parameter for DuckDB placeholder $".

Context (style : LiteralStyle).

Definition RenderFloatLiteral (cell : Storage.Value) : str :=
  match cell with
  | VString s => $"CAST(" ++ quoted_text s ++ $" AS DOUBLE)"
  | _ =>
      match Storage.float64_value cell with
      | S754_nan => $"'NaN'::DOUBLE"
      | S754_infinity false => $"'Infinity'::DOUBLE"
      | S754_infinity true => $"'-Infinity'::DOUBLE"
      | v => style_double style v
      end
  end.

(** The cases of [RenderScalarLiteral] other than STRUCT. *)
Definition RenderScalarText (cell : Storage.Value) (type : ColumnType) : str :=
  match type with
  | kBool =>
      match cell with
      | VString s => $"CAST(" ++ quoted_text s ++ $" AS BOOLEAN)"
      | _ => if Storage.bool_value cell then $"TRUE" else $"FALSE"
      end
  | kInt64 =>
      match cell with
      | VString s => $"CAST(" ++ quoted_text s ++ $" AS BIGINT)"
      | _ => StrInt (Storage.int64_value cell)
      end
  | kFloat64 => RenderFloatLiteral cell
  | kBytes => RenderBlobLiteral (Storage.string_value cell)
  | kDate => $"DATE " ++ quoted_text (Storage.string_value cell)
  | kTime => $"TIME " ++ quoted_text (Storage.string_value cell)
  | kDatetime => $"TIMESTAMP " ++ quoted_text (Storage.string_value cell)
  | kTimestamp => $"TIMESTAMPTZ " ++ quoted_text (Storage.string_value cell)
  | kNumeric | kBignumeric =>
      $"CAST(" ++ quoted_text (Storage.string_value cell) ++ $" AS " ++ style_decimal_type style type ++ $")"
  | kString | kJson | kGeography | kArray | kStruct | kUnknown => quoted_text (Storage.string_value cell)
  end.

Definition struct_expected (column : ColumnSchema) : Status :=
  InvalidArgumentError (style_tag style ++ $": column '" ++ col_name column
    ++ $"' expects STRUCT but row provided non-struct cell").

Definition struct_fields_differ (column : ColumnSchema) (n : nat) : Status :=
  InvalidArgumentError (style_tag style ++ $": STRUCT column '" ++ col_name column ++ $"' has "
    ++ StrInt (Z.of_nat (length (col_fields column))) ++ $" fields but row provided " ++ StrInt (Z.of_nat n)).

(** [RenderCellLiteral], with [RenderStructLiteral] where it is called back. *)
Fixpoint RenderCellLiteral (cell : Storage.Value) (column : ColumnSchema) : StatusOr str :=
  match cell with
  | VNull => Ok $"NULL"
  | _ =>
      if decide (col_mode column = kRepeated) then
        texts ← match cell with
                | VArray elems =>
                    (fix elements (l : list Storage.Value) : StatusOr (list str) :=
                       match l with
                       | [] => Ok []
                       | e :: l => t ← RenderCellLiteral e (as_element column); ts ← elements l; Ok (t :: ts)
                       end) elems
                | _ => Ok []
                end;
        Ok ($"[" ++ join_text $", " texts ++ $"]")
      else if decide (col_type column = kStruct) then
        match (if style_struct_text style then raw_struct_text cell else None) with
        | Some text => Ok text
        | None =>
            match cell with
            | VStruct vs =>
                if negb (length vs =? length (col_fields column))%nat
                then Err (struct_fields_differ column (length vs))
                else
                  texts ← (fix fields (l : list Storage.Value) (cols : list ColumnSchema) : StatusOr (list str) :=
                             match l, cols with
                             | v :: l, f :: cols =>
                                 t ← RenderCellLiteral v f; ts ← fields l cols;
                                 Ok ((quoted_text (col_name f) ++ $": " ++ t) :: ts)
                             | _, _ => Ok []
                             end) vs (col_fields column);
                  Ok ($"{" ++ join_text $", " texts ++ $"}")
            | _ => Err (struct_expected column)
            end
        end
      else Ok (RenderScalarText cell (col_type column))
  end.

(** [RenderScalarLiteral]: a cell at the type of its column, repeated or not. *)
Definition RenderScalarLiteral (cell : Storage.Value) (column : ColumnSchema) : StatusOr str :=
  match cell with
  | VNull => if decide (col_type column = kStruct) then Err (struct_expected column)
             else Ok (RenderScalarText cell (col_type column))
  | _ => RenderCellLiteral cell (as_element column)
  end.

Definition RenderColumnList (sch : TableSchema) : str :=
  $"(" ++ join_text $", " (map (fun c => QuoteIdent (col_name c) ++ $" " ++ style_column_type style c) (Schema.columns sch)) ++ $")".

Fixpoint render_row (cs : list Storage.Value) (cols : list ColumnSchema) : StatusOr (list str) :=
  match cs, cols with
  | c :: cs, col :: cols => t ← RenderCellLiteral c col; ts ← render_row cs cols; Ok (t :: ts)
  | _, _ => Ok []
  end.

Fixpoint render_rows (name : str) (i : Z) (rows : list Storage.Row) (cols : list ColumnSchema) : StatusOr (list str) :=
  match rows with
  | [] => Ok []
  | r :: rows =>
      if negb (length (cells r) =? length cols)%nat
      then Err (InvalidArgumentError (style_tag style ++ $": row[" ++ StrInt i ++ $"] has "
             ++ StrInt (Z.of_nat (length (cells r))) ++ $" cells but table '" ++ name ++ $"' has "
             ++ StrInt (Z.of_nat (length cols)) ++ $" columns"))
      else texts ← render_row (cells r) cols; rest ← render_rows name (i + 1) rows cols; Ok (render_tuple texts :: rest)
  end.

(** [BuildInsertSqlForRows] and the statement of [InsertScannedRowsAt]. *)
Definition BuildInsertSqlForRows (table_name name : str) (sch : TableSchema) (rows : list Storage.Row) : StatusOr str :=
  tuples ← render_rows name 0 rows (Schema.columns sch);
  Ok ($"INSERT INTO " ++ table_name ++ $" VALUES " ++ join_text $", " tuples).
End literals.

(** ** Query parameters *)

(** [Transpiler::ParameterRef]: the parameter behind a placeholder, by its name or,
    when that is empty, by its position among the parameters without a name. *)
Record ParameterRef := mkParameterRef { ref_name : str; ref_position : Z }.

Section parameters.
Context `{AbslText, AbslDouble, GoogleSqlOps} `{!CastLibrary, !ValueText, !ParameterParser, DuckText}.

Fixpoint positional (seen position : Z) (parameters : list QueryParameter) : option QueryParameter :=
  match parameters with
  | [] => None
  | p :: parameters =>
      if negb (bool_decide (param_name p = [])) then positional seen position parameters
      else if (seen + 1 =? position)%Z then Some p else positional (seen + 1) position parameters
  end.

Definition FindParameterForRef (ref : ParameterRef) (parameters : list QueryParameter) : option QueryParameter :=
  match ref_name ref with
  | [] => positional 0 (ref_position ref) parameters
  | name => List.find (fun p => EqualsIgnoreCase (param_name p) name) parameters
  end.

Definition parameter_column (mode : ColumnMode) (t : ColumnType) : ColumnSchema := Schema.mkColumn $"p" t mode [] [] [].

Definition engine_parameter_type (k : TypeKind) : ColumnType :=
  match k with
  | TYPE_BOOL => kBool
  | TYPE_INT64 => kInt64
  | TYPE_DOUBLE => kFloat64
  | TYPE_BYTES => kBytes
  | TYPE_DATE => kDate
  | TYPE_TIMESTAMP => kTimestamp
  | TYPE_NUMERIC => kNumeric
  | TYPE_BIGNUMERIC => kBignumeric
  | _ => kString
  end.

(** [duckdb::internal::RenderSemanticParameterLiteral]. *)
Definition engine_parameter_literal (v : Value) : StatusOr str :=
  if is_null v then Ok $"NULL"
  else
    cell ← ToStorageValue v;
    if bool_decide (type_kind v = TYPE_ARRAY)
    then RenderCellLiteral engine_style cell (parameter_column kRepeated kString)
    else RenderScalarLiteral engine_style cell (parameter_column kNullable (engine_parameter_type (type_kind v))).

Definition control_parameter_type (k : TypeKind) : ColumnType :=
  match k with
  | TYPE_DATE => kDate
  | TYPE_TIMESTAMP => kTimestamp
  | TYPE_NUMERIC => kNumeric
  | TYPE_BIGNUMERIC => kBignumeric
  | _ => kString
  end.

(** [control::internal::RenderSemanticParameterLiteral]. *)
Definition control_parameter_literal (v : Value) : StatusOr str :=
  if is_null v then Ok $"NULL"
  else
    match v with
    | SBool b => Ok (if b then $"TRUE" else $"FALSE")
    | SInt64 z => Ok (StrInt z)
    | SDouble d => Ok (RenderFloatLiteral control_style (VFloat64 d))
    | SString _ | SJson _ | SGeography _ => Ok (quoted_text (string_value v))
    | SBytes s => Ok (RenderBlobLiteral s)
    | _ =>
        cell ← ToStorageValue v;
        RenderScalarLiteral control_style cell (parameter_column kNullable (control_parameter_type (type_kind v)))
    end.

Context (style : LiteralStyle) (literal : Value -> StatusOr str).

Definition RenderParameterLiteral (p : QueryParameter) : StatusOr str :=
  v ← ParseParameterValue (value_json p) (param_type_kind p) (type_json p); literal v.

Fixpoint parameter_literals (i : Z) (order : list ParameterRef) (parameters : list QueryParameter)
    : StatusOr (list str) :=
  match order with
  | [] => Ok []
  | ref :: order =>
      match FindParameterForRef ref parameters with
      | None => Err (InvalidArgumentError (style_missing_parameter style ++ StrInt (i + 1)))
      | Some p => t ← RenderParameterLiteral p; ts ← parameter_literals (i + 1) order parameters; Ok (t :: ts)
      end
  end.

Definition placeholder (slot : nat) : str := $"$" ++ StrInt (Z.of_nat slot).

(** From the last placeholder to the first, so that none is a prefix of one that is
    still to come. *)
Fixpoint substitute_slots (slot : nat) (literals : list str) (sql : str) : str :=
  match slot with
  | 0 => sql
  | S n => substitute_slots n literals (StrReplaceAll sql (placeholder slot) (nth n literals []))
  end.

Definition SubstituteDuckdbParameters (sql : str) (order : list ParameterRef) (parameters : list QueryParameter)
    : StatusOr str :=
  match order with
  | [] => Ok sql
  | _ => literals ← parameter_literals 0 order parameters; Ok (substitute_slots (length order) literals sql)
  end.
End parameters.

(** ** What the substitution does *)

Section substitution.
Context `{AbslTextLaws}.

(** A statement as the transpiler writes it: texts without a dollar sign and
    placeholders, each followed by something that is not a digit. *)
Inductive Piece := Text (t : str) | Slot (n : nat).

Definition piece_text (literals : nat -> option str) (p : Piece) : str :=
  match p with
  | Text t => t
  | Slot n => default (placeholder n) (literals n)
  end.

Definition statement (literals : nat -> option str) (ps : list Piece) : str := flat_map (piece_text literals) ps.

Definition dollar : ascii := "$"%char.

Definition no_digit_first (t : str) : Prop :=
  match t with [] => False | c :: _ => ascii_isdigit c = false end.

(** The texts the theorem is about: the pieces of text have no dollar sign, also not
    in their string literals and quoted names, and a slot is followed by text that
    does not start with a digit. *)
Fixpoint written (n : nat) (ps : list Piece) : Prop :=
  match ps with
  | [] => True
  | Text t :: ps => ~ (dollar ∈ t) /\ written n ps
  | Slot i :: ps => 1 <= i <= n /\ (match ps with [] => True | Text t :: _ => no_digit_first t | Slot _ :: _ => False end) /\ written n ps
  end.

Lemma replace_skip k old new s : replace_from k old new s = replace_from 0 old new (drop k s).
Proof. revert s. induction k as [|k IH]; intros [|c s]; cbn; [done..|by destruct k|]. apply IH. Qed.

(** Text without the first byte of the pattern is passed over. *)
Lemma replace_over c old new t s : ~ (c ∈ t) -> replace_from 0 (c :: old) new (t ++ s) = t ++ replace_from 0 (c :: old) new s.
Proof.
  intros N. induction t as [|d t IH]; [done|]. apply not_elem_of_cons in N as [Ne N]. cbn [app replace_from].
  unfold has_prefix. cbn [strip_prefix]. destruct (decide (c = d)) as [E|]; [done|]. by rewrite IH.
Qed.

Lemma replace_here old new s : old <> [] -> replace_from 0 old new (old ++ s) = new ++ replace_from 0 old new s.
Proof.
  intros Ne. destruct old as [|c old]; [done|]. cbn [app replace_from]. unfold has_prefix.
  change (c :: old ++ s) with ((c :: old) ++ s). rewrite strip_prefix_app. cbn [length]. rewrite replace_skip. f_equal.
  replace (S (length old) - 1) with (length old) by lia. by rewrite drop_app_length.
Qed.

Lemma placeholder_cons i : placeholder i = dollar :: StrInt (Z.of_nat i).
Proof. done. Qed.

Lemma double_char_without c s : ~ (c ∈ s) -> double_char c s = s.
Proof.
  unfold double_char. induction s as [|d s IH]; [done|]. intros [Ne N]%not_elem_of_cons. cbn [flat_map].
  rewrite decide_False by done. cbn [app]. by rewrite IH.
Qed.

Lemma quote_not_digit : ascii_isdigit squote = false.
Proof.
  destruct (ascii_isdigit squote) eqn:E; [|done]. apply ascii_isdigit_spec in E. change (byteval squote) with 39%Z in E. lia.
Qed.

Lemma quote_not_in_placeholder i : ~ (squote ∈ placeholder i).
Proof.
  rewrite placeholder_cons. apply not_elem_of_cons. split; [done|]. apply StrInt_no_char; [apply quote_not_digit|done].
Qed.

Lemma dollar_not_digit i : ~ (dollar ∈ StrInt (Z.of_nat i)).
Proof.
  apply StrInt_no_char; [|done]. destruct (ascii_isdigit dollar) eqn:E; [|done].
  apply ascii_isdigit_spec in E. change (byteval dollar) with 36%Z in E. lia.
Qed.

(** A smaller placeholder does not start with a larger one. *)
Lemma placeholder_apart i j s : 1 <= i < j -> (s = [] \/ no_digit_first s) -> has_prefix (placeholder i ++ s) (placeholder j) = false.
Proof.
  intros L N. unfold has_prefix. destruct (strip_prefix _ _) as [r|] eqn:E; [exfalso|done].
  apply strip_prefix_Some in E. rewrite !placeholder_cons in E. cbn [app] in E. injection E as E.
  pose proof (StrInt_isdigit (Z.of_nat j) ltac:(lia)) as Dj. pose proof (StrInt_value (Z.of_nat j) ltac:(lia)) as Vj.
  pose proof (StrInt_value (Z.of_nat i) ltac:(lia)) as Vi. pose proof (StrInt_isdigit (Z.of_nat i) ltac:(lia)) as Di.
  assert (exists t, StrInt (Z.of_nat i) = StrInt (Z.of_nat j) ++ t) as [t T].
  { apply app_eq_inv in E as [(k & Ei & _)|(k & Ej & Es)]; [by exists k|].
    destruct k as [|c k]; [exists []; by rewrite app_nil_r in Ej |- *|]. exfalso.
    rewrite Ej in Dj. apply Forall_app in Dj as [_ Dk]. inversion Dk as [|? ? Dc _]; subst.
    destruct N as [N|N]; [done|]. cbn in N. congruence. }
  rewrite T, map_app, of_digits_app, Vj in Vi.
  assert (Forall (fun d => 0 <= d < 10)%Z (map (fun c => byteval c - 48)%Z t)) as B.
  { apply Forall_fmap. rewrite T in Di. apply Forall_app in Di as [_ Dt]. eapply Forall_impl; [exact Dt|].
    intros c Hc. apply ascii_isdigit_spec in Hc. cbn. lia. }
  apply of_digits_bound in B; [|lia]. pose proof (Z.pow_pos_nonneg 10 (Z.of_nat (length (map (fun c => byteval c - 48)%Z t))) ltac:(lia) ltac:(lia)). nia.
Qed.

Lemma replace_slot n k f lit ps :
  written n ps -> 1 <= k -> (forall i l, f i = Some l -> ~ (dollar ∈ l)) ->
  (forall i, 1 <= i <= n -> f i = None -> i <= k) -> f k = None ->
  StrReplaceAll (statement f ps) (placeholder k) lit = statement (fun i => if decide (i = k) then Some lit else f i) ps.
Proof.
  intros W K D B Fk. unfold StrReplaceAll. induction ps as [|[t|i] ps IH]; [done|..]; cbn [statement flat_map].
  - destruct W as [N W]. cbn [piece_text]. rewrite placeholder_cons, replace_over, <- placeholder_cons by done.
    f_equal. by apply IH.
  - destruct W as (R & Nx & W). cbn [piece_text]. destruct (decide (i = k)) as [->|Ne].
    + rewrite Fk. cbn [default]. rewrite replace_here by done. f_equal. by apply IH.
    + destruct (f i) as [l|] eqn:Fi; cbn [default].
      * rewrite placeholder_cons, replace_over, <- placeholder_cons by (by eapply D). f_equal. by apply IH.
      * assert (i < k) as L by (specialize (B i R Fi); lia).
        assert (statement f ps = [] \/ no_digit_first (statement f ps)) as Nd.
        { destruct ps as [|[t|j] ps]; [by left|right|done]. destruct t; [done|exact Nx]. }
        pose proof (placeholder_apart i k (statement f ps) ltac:(lia) Nd) as P.
        change (flat_map (piece_text f) ps) with (statement f ps). rewrite (placeholder_cons i) in P |- *. cbn [app replace_from].
        cbn [app] in P. rewrite P. f_equal.
        rewrite placeholder_cons, replace_over, <- placeholder_cons by apply dollar_not_digit. f_equal. by apply IH.
Qed.

Lemma statement_ext n f g ps : written n ps -> (forall i, 1 <= i <= n -> f i = g i) -> statement f ps = statement g ps.
Proof.
  intros W E. induction ps as [|[t|i] ps IH]; [done|..]; cbn [statement flat_map]; cbn [written] in W.
  - destruct W as [_ W]. unfold statement in IH. by rewrite (IH W).
  - destruct W as (R & _ & W). cbn [piece_text]. unfold statement in IH. by rewrite E, (IH W).
Qed.

Lemma substitute_written n k literals ps :
  written n ps -> k <= n -> length literals = n -> Forall (fun l => ~ (dollar ∈ l)) literals ->
  substitute_slots k literals (statement (fun i => if decide (k < i) then literals !! (i - 1) else None) ps)
  = statement (fun i => literals !! (i - 1)) ps.
Proof.
  intros W. induction k as [|k IH]; intros K L F; cbn [substitute_slots].
  - apply (statement_ext n); [done|]. intros i R. by rewrite decide_True by lia.
  - rewrite (replace_slot n); [|done|lia| | |by rewrite decide_False by lia].
    + rewrite <- IH by (done || lia). f_equal. apply (statement_ext n); [done|]. intros i R.
      destruct (decide (i = S k)) as [->|]; [|by repeat case_decide; try lia].
      rewrite decide_True by lia. replace (S k - 1) with k by lia.
      destruct (lookup_lt_is_Some_2 literals k ltac:(lia)) as [l E]. rewrite E. f_equal. by apply nth_lookup_Some.
    + intros i l E. case_decide; [|done]. rewrite Forall_forall in F. apply F. by eapply list_elem_of_lookup_2.
    + intros i R E. case_decide; [|lia]. destruct (lookup_lt_is_Some_2 literals (i - 1) ltac:(lia)) as [l E']. congruence.
Qed.

(** C40: in a statement whose only dollar signs are those of its placeholders, each
    placeholder that is not followed by a digit or another placeholder is replaced
    by the literal of its parameter and nothing else changes, when no literal holds
    a dollar sign.  Both conditions are needed.  When the literal of the second
    parameter is the text of the first placeholder, the literal of the first is put
    inside its quotes; the slots are filled from the last to the first, so the
    converse does not happen.  A string literal of the statement itself that holds
    the text of a placeholder is replaced as well. *)
Theorem parameters_substituted literals ps :
  (written (length literals) ps -> Forall (fun l => ~ (dollar ∈ l)) literals ->
   substitute_slots (length literals) literals (statement (fun _ => None) ps)
   = statement (fun i => literals !! (i - 1)) ps) /\
  (forall first a b, ~ (dollar ∈ first) -> ~ (dollar ∈ a) -> ~ (dollar ∈ b) -> no_digit_first b ->
   substitute_slots 2 [first; quoted_text (placeholder 1)] (a ++ placeholder 1 ++ b ++ placeholder 2)
   = a ++ first ++ b ++ $"'" ++ first ++ $"'") /\
  (forall first a b, ~ (dollar ∈ first) -> ~ (dollar ∈ a) -> ~ (dollar ∈ b) ->
   substitute_slots 1 [first] (a ++ $"'" ++ placeholder 1 ++ $"'" ++ b) = a ++ $"'" ++ first ++ $"'" ++ b).
Proof.
  split_and!.
  - intros W F. rewrite <- (substitute_written (length literals) (length literals)) by done. f_equal.
    apply (statement_ext (length literals)); [done|]. intros i R. by rewrite decide_False by lia.
  - intros first a b N Na Nb D. cbn [substitute_slots nth].
    replace (a ++ placeholder 1 ++ b ++ placeholder 2) with (statement (fun _ => None) [Text a; Slot 1; Text b; Slot 2])
      by (cbn [statement flat_map piece_text default]; by rewrite app_nil_r).
    rewrite (replace_slot 2) by (cbn; intuition lia || done).
    set (qs := [Text a; Slot 1; Text (b ++ $"'"); Slot 1; Text $"'"]).
    assert (written 1 qs) as W.
    { assert (~ (dollar ∈ b ++ $"'")) as Nb' by (rewrite elem_of_app; intros [?|I]; [done|]; revert I; by apply literal_without).
      assert (no_digit_first $"'") as Q by apply quote_not_digit. assert (no_digit_first (b ++ $"'")) as Db by (by destruct b).
      cbn -[lit]. split_and!; try done; try lia. by apply literal_without. }
    match goal with |- StrReplaceAll ?s _ _ = _ => replace s with (statement (fun _ => None) qs) end.
    + rewrite (replace_slot 1) by (done || (intros; lia)). cbn [statement flat_map piece_text qs default].
      cbn. by rewrite app_nil_r, <- !app_assoc.
    + cbn [statement flat_map piece_text qs]. cbn. unfold quoted_text, EscapeStringLiteralInner.
      rewrite double_char_without by apply quote_not_in_placeholder. cbn. by rewrite !app_nil_r, <- !app_assoc.
  - intros first a b N Na Nb. set (qs := [Text (a ++ $"'"); Slot 1; Text ($"'" ++ b)]).
    assert (~ (dollar ∈ $"'")) as Q by (by apply literal_without).
    assert (written 1 qs) as W.
    { cbn -[lit]. rewrite !elem_of_app. split_and!; try lia; first [apply quote_not_digit|tauto]. }
    replace (a ++ $"'" ++ placeholder 1 ++ $"'" ++ b) with (statement (fun _ => None) qs)
      by (cbn [statement flat_map piece_text qs default]; by rewrite app_nil_r, <- !app_assoc).
    cbn [substitute_slots nth]. rewrite (replace_slot 1) by (done || (intros; lia)).
    cbn [statement flat_map piece_text qs default]. by rewrite app_nil_r, decide_True, <- !app_assoc.
Qed.
End substitution.

(** ** Closed example *)
Module EngineSqlDemo.

(** A statement with both of its parameters in place, and one in which the text of
    the first parameter ends up outside of any quotes. *)
Lemma parameters_substituted_witness :
  substitute_slots 2 [$"'x'"; $"7"] $"SELECT $1, $2" = $"SELECT 'x', 7" /\
  substitute_slots 2 [$"' || version() || '"; $"'$1'"] $"SELECT $1, $2" = $"SELECT ' || version() || ', '' || version() || ''".
Proof.
  destruct (parameters_substituted [$"'x'"; $"7"] [Text $"SELECT "; Slot 1; Text $", "; Slot 2]) as (P & Q & _).
  split.
  - apply P; [|repeat constructor; by apply literal_without].
    cbn -[lit]. split_and!; try lia; try done; by apply literal_without.
  - apply (Q $"' || version() || '" $"SELECT " $", "); try done; by apply literal_without.
Defined.
End EngineSqlDemo.

(** ** What the executors ask of the storage, of DuckDB and of the host

    The control-op executor and the DuckDB executor change tables through
    [storage::Storage], run SQL in an in-memory DuckDB they open for one statement,
    and fetch or send files with a shell command.  These are the interfaces of
    these three ([CatalogStore] with [CatalogStoreLaws], [InMemoryDb], [Host]), the
    monad of the executors, and the routines both executors have a copy of: running
    a statement, attaching a table, and draining a result
    ([duckdb_executor_attach*.cc], [duckdb_executor_dml.cc], [control_op_literals.cc]). *)

(** ** Computations on the state *)

Definition Op (S A : Type) : Type := S -> S * StatusOr A.

#[export] Instance Op_ret {S} : MRet (Op S) := fun A a s => (s, Ok a).
#[export] Instance Op_bind {S} : MBind (Op S) := fun A B f m s =>
  match m s with
  | (s', Ok a) => f a s'
  | (s', Err e) => (s', Err e)
  end.

Definition op_fail {S A} (e : Status) : Op S A := fun s => (s, Err e).
Definition op_lift {S A} (r : StatusOr A) : Op S A := fun s => (s, r).
(** A computation that only reads the state. *)
Definition op_reads {S A} (f : S -> StatusOr A) : Op S A := fun s => (s, f s).
(** A status that the caller looks at instead of returning. *)
Definition op_try {S A} (m : Op S A) : Op S (StatusOr A) := fun s => let '(s', r) := m s in (s', Ok r).

Fixpoint op_iter {S A} (f : A -> Op S unit) (l : list A) : Op S unit :=
  match l with
  | [] => mret ()
  | x :: l => f x ≫= fun _ => op_iter f l
  end.

Definition has_code (c : StatusCode) (e : Status) : bool := bool_decide (code e = c).

(** An error of one code is not one. *)
Definition tolerate (c : StatusCode) (r : StatusOr unit) : StatusOr unit :=
  match r with Ok _ => Ok () | Err e => if has_code c e then Ok () else Err e end.

(** ** The catalog side of the storage *)

Class CatalogStore (S : Type) := {
  CreateDataset : S -> DatasetId -> str -> S * StatusOr unit;
  DropDataset : S -> DatasetId -> bool -> S * StatusOr unit;
  RestoreDataset : S -> DatasetId -> S * StatusOr unit;
  ListDatasets : S -> str -> StatusOr (list DatasetId);
  CreateTable : S -> TableId -> TableSchema -> S * StatusOr unit;
  DropTable : S -> TableId -> S * StatusOr unit;
  ListTables : S -> DatasetId -> StatusOr (list TableId);
  DeleteView : S -> ViewId -> S * StatusOr unit;
  DeleteRoutine : S -> RoutineId -> S * StatusOr unit;
  ListRoutines : S -> DatasetId -> StatusOr (list RoutineRecord);
  ListAllViews : S -> StatusOr (list ViewRecord);
  ParquetSnapshotPath : S -> TableId -> option str;
  ParquetSnapshotPathAt : S -> TableId -> Z -> StatusOr (option str);
  GetTableGovernance : S -> TableId -> StatusOr TableGovernance;
  data_dir : S -> str;
}.

(** Two answers to the same question: equal values, or errors of one code. *)
Definition same_result {A} (r r' : StatusOr A) : Prop :=
  match r, r' with
  | Ok a, Ok b => a = b
  | Err e, Err e' => code e = code e'
  | _, _ => False
  end.

(** A table is the same in two states: its schema and its rows. *)
Definition same_table {S} `{Storage S, !StorageLaws S} (s s' : S) (t : TableId) : Prop :=
  same_result (GetSchema s t) (GetSchema s' t) /\ contents s' t = contents s t.

(** What the theorems on the executors assume of a store.  [storage.h] says nothing of
    what a failed call leaves, so the laws allow what [DuckDBStorage] can leave: a
    failed CreateTable no table or the new one, as when the version index cannot be
    written after the sidecar ([duckdb_storage_catalog.cc]), with no word on its
    rows; a failed DropTable the table or none, as when the Parquet file cannot be
    moved after the sidecar ([duckdb_storage_version_log_tombstone.cc]).
    [absent] names have neither a table nor a view; a name of a view is refused by
    CreateTable although GetSchema does not find it.  [recorded] schemas are returned
    as they were given and have a column that is stored: the sidecar of another
    schema need not read back, and a table without stored columns has no file of its
    own, so that the rows of an earlier table may be left in its place.  The laws
    are for tables whose names are path components, other than [_dataset], whose
    sidecar is that of the dataset. *)
Class CatalogStoreLaws S `{CatalogStore S, Storage S, !StorageLaws S} := {
  absent : S -> TableId -> Prop;
  recorded : TableSchema -> Prop;
  absent_schema s t : absent s t -> exists e, GetSchema s t = Err e /\ code e = kNotFound;
  create_dataset_tables s d l t : same_table s (CreateDataset s d l).1 t;
  create_dataset_absent s d l t : absent s t -> absent (CreateDataset s d l).1 t;
  create_table_new s t sch s' : recorded sch ->
    CreateTable s t sch = (s', Ok ()) -> GetSchema s' t = Ok sch /\ contents s' t = [];
  create_table_failed s t sch s' e : recorded sch -> absent s t ->
    CreateTable s t sch = (s', Err e) -> code e <> kAlreadyExists /\ (absent s' t \/ GetSchema s' t = Ok sch);
  create_table_exists s t sch sch' :
    GetSchema s t = Ok sch' ->
    exists s' e, CreateTable s t sch = (s', Err e) /\ code e = kAlreadyExists /\ same_table s s' t;
  create_table_frame s t sch u : u <> t -> same_table s (CreateTable s t sch).1 u;
  drop_table_gone s t s' : DropTable s t = (s', Ok ()) -> absent s' t;
  drop_table_failed s t s' e : DropTable s t = (s', Err e) -> same_table s s' t \/ absent s' t;
  drop_table_frame s t u : u <> t -> same_table s (DropTable s t).1 u;
}.

(** ** An in-memory database *)

(** [session_query] runs one statement; it may read the files of the storage, and a
    COPY may write one. *)
Class InMemoryDb (S : Type) `{VectorMemory} := {
  connection : Type;
  duckdb_open : bool;
  duckdb_connect : option connection;
  (** [udf::RegisterAll] *)
  RegisterAll : connection -> connection * StatusOr unit;
  session_query : connection -> S -> str -> connection * S * outcome str (list duckdb_data_chunk);
}.

(** The host: environment variables, files, and [std::system]. *)
Class Host (S : Type) := {
  getenv : str -> option str;
  file_exists : S -> str -> bool;
  create_directories : S -> str -> S;
  remove_path : S -> str -> S;
  system : S -> str -> S * Z;
}.

(** A table of the catalog as the executors tell them apart. *)
Inductive QueryTable :=
| StorageTable (name full_name : str) (id : TableId) (sch : TableSchema)
| WildcardTable (name : str)
| VirtualTable (name : str)
| OtherTable (name : str).

Definition Name (t : QueryTable) : str :=
  match t with StorageTable n _ _ _ | WildcardTable n | VirtualTable n | OtherTable n => n end.

Section session.
Context {S : Type} `{CatalogStore S, Storage S, !RewritableStorage S}.
Context `{AbslText, AbslDouble, DuckText, VectorMemory, !InMemoryDb S}.

(** A computation with a connection. *)
Abbreviation Session := (Op (connection * S)).

Definition on_store {A} (m : Op S A) : Session A := fun cs =>
  let '(s, r) := m cs.2 in ((cs.1, s), r).

Definition query (sql : str) : Session (outcome str (list duckdb_data_chunk)) := fun cs =>
  let '(c, s, r) := session_query cs.1 cs.2 sql in ((c, s), Ok r).

(** A body with a connection of its own, closed afterwards. *)
Definition with_session {A} (open_failed connect_failed : str) (register : bool) (body : Session A) : Op S A := fun s =>
  if negb duckdb_open then (s, Err (InternalError open_failed))
  else match duckdb_connect with
  | None => (s, Err (InternalError connect_failed))
  | Some c =>
      let '(c, registered) := if register then RegisterAll c else (c, Ok ()) in
      match registered with
      | Err e => (s, Err e)
      | Ok _ => let '(cs, r) := body (c, s) in (cs.2, r)
      end
  end.

Definition RunSqlNoResult (style : LiteralStyle) (sql : str) : Session unit :=
  r ← query sql;
  match r with
  | Ok _ => mret ()
  | Err detail => op_fail (InternalError (style_tag style ++ $": query failed: " ++ sql ++ $": " ++ detail))
  end.

Definition ResolveParquetPath (id : TableId) (as_of_ms : option Z) : Session (option str) := fun cs =>
  (cs, match as_of_ms with
       | None => Ok (ParquetSnapshotPath cs.2 id)
       | Some ms => ParquetSnapshotPathAt cs.2 id ms
       end).

Definition CreateOrReplaceTable (style : LiteralStyle) (table_name : str) (sch : TableSchema) : Session unit :=
  RunSqlNoResult style ($"CREATE OR REPLACE TABLE " ++ table_name ++ $" " ++ RenderColumnList style sch).

(** The loop over a row iterator. *)
Definition ReadRowsFromIterator (it : RowIterator) : StatusOr (list Storage.Row) :=
  match iter_error it with None => Ok (iter_rows it) | Some e => Err e end.

Definition scan_rows (id : TableId) : Session (list Storage.Row) := fun cs =>
  (cs, it ← ScanRows cs.2 id; ReadRowsFromIterator it).

(** [control::internal::AttachStorageTableAt]. *)
Definition control_AttachStorageTableAt (name : str) (id : TableId) (sch : TableSchema) (quoted_table_name : str)
    (as_of_ms : option Z) : Session unit :=
  parquet_path ← ResolveParquetPath id as_of_ms;
  _ ← CreateOrReplaceTable control_style quoted_table_name sch;
  match parquet_path with
  | Some path =>
      RunSqlNoResult control_style ($"INSERT INTO " ++ quoted_table_name ++ $" SELECT * FROM read_parquet("
        ++ quoted_text path ++ $")")
  | None =>
      rows ← scan_rows id;
      match rows with
      | [] => mret ()
      | _ => sql ← op_lift (BuildInsertSqlForRows control_style quoted_table_name name sch rows);
             RunSqlNoResult control_style sql
      end
  end.

(** [AttachParquetTableAt]: only the rows the policies let through are read. *)
Definition AttachParquetTableAt (sch : TableSchema) (quoted_table_name parquet_path row_access_filter_sql : str)
    : Session unit :=
  let where_clause := match row_access_filter_sql with [] => [] | f => $" WHERE " ++ f end in
  _ ← CreateOrReplaceTable engine_style quoted_table_name sch;
  RunSqlNoResult engine_style ($"INSERT INTO " ++ quoted_table_name ++ $" SELECT " ++ RenderColumnIdentList sch
    ++ $" FROM read_parquet(" ++ quoted_text parquet_path ++ $")" ++ where_clause).

Definition InsertScannedRowsAt (name : str) (sch : TableSchema) (quoted_table_name : str) (rows : list Storage.Row)
    : Session unit :=
  sql ← op_lift (BuildInsertSqlForRows engine_style quoted_table_name name sch rows); RunSqlNoResult engine_style sql.

Definition ApplyRowAccessFilterDelete (quoted_table_name row_access_filter_sql : str) : Session unit :=
  match row_access_filter_sql with
  | [] => mret ()
  | f => RunSqlNoResult engine_style ($"DELETE FROM " ++ quoted_table_name ++ $" WHERE NOT (" ++ f ++ $")")
  end.

(** [duckdb::internal::AttachStorageTableAt]. *)
Definition engine_AttachStorageTableAt (name : str) (id : TableId) (sch : TableSchema) (quoted_table_name : str)
    (as_of_ms : option Z) (row_access_filter_sql : str) : Session unit :=
  parquet_path ← ResolveParquetPath id as_of_ms;
  match parquet_path with
  | Some path => AttachParquetTableAt sch quoted_table_name path row_access_filter_sql
  | None =>
      _ ← CreateOrReplaceTable engine_style quoted_table_name sch;
      rows ← scan_rows id;
      _ ← match rows with
          | [] => mret ()
          | _ => InsertScannedRowsAt name sch quoted_table_name rows
          end;
      ApplyRowAccessFilterDelete quoted_table_name row_access_filter_sql
  end.

(** [DrainTableRows] and [ReadBackTable]: all rows of a table of the connection. *)
Definition DrainTableRows (failed quoted_table_name : str) (sch : TableSchema) : Session (list Storage.Row) :=
  let sql := $"SELECT * FROM " ++ quoted_table_name in
  r ← query sql;
  match r with
  | Err detail => op_fail (InternalError (failed ++ sql ++ $": " ++ detail))
  | Ok chunks => op_lift (drain_chunks chunks sch)
  end.
End session.
