(* ===== verification/ControlText.v ===== *)
(** * ControlText: options, URIs and shell commands of the control operations

    Models [backend/engine/control/control_op_options.cc] and
    [gcs_uri_resolver.cc], with the statements [BuildReadSql] and [BuildCopyToSql]
    of LOAD DATA and EXPORT DATA.

    A gs:// object is fetched and sent with a curl command line given to the shell.
    [shell_words] is the shell's splitting of a command into words, as far as the
    commands use it; [curl_commands_exact] shows that the words are the ones meant,
    whatever the bucket, the object and the paths are. *)

From S2P Require Import Prelude Order Absl AbslReference Schema RowRestriction Storage DuckDbSql VersionLog SemanticError FrameStack.
From S2P Require Import SidecarJson FileTree SqlValue GoogleSqlReference Arithmetic Operators MathFuncs Casts EvalExpr.
From S2P Require Import ArrowToBq EngineSql.

(** ** Options *)

Section options.
Context `{AbslText, GoogleSql, ExecutorNodes}.

(** [ResolvedOption]; a list of options may hold null entries. *)
Record ResolvedOption := mkOption { option_name : str; option_value : ResolvedExpr }.

Definition TryLiteralString (expr : ResolvedExpr) : option str :=
  match expr with ELiteral (SString s) => Some s | _ => None end.

Definition OptionStringValue (opt : ResolvedOption) : StatusOr str :=
  match TryLiteralString (option_value opt) with
  | Some s => Ok s
  | None => Err (InvalidArgumentError ($"control op executor: option '" ++ option_name opt
              ++ $"' must be a STRING literal"))
  end.

Fixpoint FindOptionString (options : list (option ResolvedOption)) (name : str) : StatusOr str :=
  match options with
  | [] => Err (NotFoundError ($"control op executor: required option '" ++ name ++ $"' missing"))
  | Some opt :: options =>
      if EqualsIgnoreCase (option_name opt) name then OptionStringValue opt else FindOptionString options name
  | None :: options => FindOptionString options name
  end.

Definition not_strings : Status :=
  InvalidArgumentError $"control op executor: uris array must contain STRING literals".

Definition string_element (v : Value) : StatusOr str :=
  match v with SString s => Ok s | _ => Err not_strings end.

Definition expected_array : Status :=
  InvalidArgumentError $"control op executor: expected STRING array literal for uris".

(** An array literal, the arguments of a call (of the array constructor), or one
    text.  GoogleSQL aborts on a NULL array literal; here it has no elements. *)
Definition ExtractStringArrayLiteral (expr : ResolvedExpr) : StatusOr (list str) :=
  match expr with
  | ENull => Err (InvalidArgumentError $"control op executor: expected STRING array literal, got null expr")
  | ELiteral (SArray _ elems) => outcome_mapM string_element elems
  | ELiteral (SNull (TArray _)) => Ok []
  | ELiteral (SString s) => Ok [s]
  | ECall _ _ _ args _ _ =>
      out ← outcome_mapM (fun a => match TryLiteralString a with Some s => Ok s | None => Err not_strings end) args;
      match out with [] => Err expected_array | _ => Ok out end
  | _ => Err expected_array
  end.
End options.

(** ** Statements *)

Section statements.
Context `{AbslText}.

Definition is_json_format (upper : str) : bool :=
  bool_decide (upper = $"JSON") || bool_decide (upper = $"NEWLINE_DELIMITED_JSON").

Definition BuildReadSql (path format : str) : StatusOr str :=
  let upper := AsciiStrToUpper format in
  if bool_decide (upper = $"CSV") || bool_decide (upper = [])
  then Ok ($"SELECT * FROM read_csv_auto(" ++ quoted_text path ++ $", header = true)")
  else if is_json_format upper then Ok ($"SELECT * FROM read_json_auto(" ++ quoted_text path ++ $")")
  else if bool_decide (upper = $"PARQUET") then Ok ($"SELECT * FROM read_parquet(" ++ quoted_text path ++ $")")
  else Err (InvalidArgumentError ($"control op executor: LOAD DATA unsupported format '" ++ format ++ $"'")).

Definition BuildCopyToSql (select_sql path format : str) : StatusOr str :=
  let upper := AsciiStrToUpper format in
  let copy options := Ok ($"COPY (" ++ select_sql ++ $") TO " ++ quoted_text path ++ $" (FORMAT " ++ options ++ $")") in
  if bool_decide (upper = $"CSV") then copy $"CSV, HEADER TRUE"
  else if is_json_format upper then copy $"JSON"
  else if bool_decide (upper = $"PARQUET") then copy $"PARQUET"
  else Err (InvalidArgumentError ($"control op executor: EXPORT DATA unsupported format '" ++ format ++ $"'")).

(** ** URIs *)

Record GCSObjectParts := mkObject { bucket : str; object : str }.

Definition ParseGsUri (uri : str) : StatusOr GCSObjectParts :=
  match strip_prefix $"gs://" uri with
  | None => Err (InvalidArgumentError ($"expected gs:// uri, got '" ++ uri ++ $"'"))
  | Some rest =>
      match find_sub $"/" rest with
      | Some ((_ :: _) as b, (_ :: _) as o) => Ok (mkObject b o)
      | _ => Err (InvalidArgumentError ($"invalid gs:// uri: '" ++ uri ++ $"'"))
      end
  end.

Definition GcsCachePath (data_dir : str) (parts : GCSObjectParts) : str :=
  path_join (path_join (path_join (path_join data_dir $"external") $"gcs-cache") (bucket parts)) (object parts).

Definition unreserved (c : ascii) : bool :=
  let b := byteval c in
  ((97 <=? b) && (b <=? 122) || (65 <=? b) && (b <=? 90) || (48 <=? b) && (b <=? 57))%Z
  || bool_decide (c ∈ ["-"; "_"; "."; "~"]%char).

(** The digits of %02X. *)
Definition kUpperHex : str := $"0123456789ABCDEF".

Definition UrlEscapePath (s : str) : str :=
  flat_map (fun c =>
    if unreserved c then [c]
    else if bool_decide (c = "/"%char) then $"%2F"
    else ["%"%char; nth (Z.to_nat (byteval c / 16)) kUpperHex zero; nth (Z.to_nat (byteval c mod 16)) kUpperHex zero]) s.

Definition GcsMediaURL (origin : str) (parts : GCSObjectParts) : str :=
  origin ++ $"/storage/v1/b/" ++ UrlEscapePath (bucket parts) ++ $"/o/" ++ UrlEscapePath (object parts) ++ $"?alt=media".

Definition GcsUploadURL (origin : str) (parts : GCSObjectParts) : str :=
  origin ++ $"/upload/storage/v1/b/" ++ UrlEscapePath (bucket parts) ++ $"/o?uploadType=media&name="
    ++ UrlEscapePath (object parts).

Definition ShellEscape (s : str) : str :=
  flat_map (fun c => if decide (c = squote) then $"'\''" else [c]) s.

Definition shell_quoted (s : str) : str := $"'" ++ ShellEscape s ++ $"'".

Definition fetch_command (url cache : str) : str :=
  $"curl -sf " ++ shell_quoted url ++ $" -o " ++ shell_quoted cache.

Definition upload_command (content_type local_path url : str) : str :=
  $"curl -sf -X POST -H 'Content-Type: " ++ ShellEscape content_type ++ $"' --data-binary @" ++ shell_quoted local_path
    ++ $" " ++ shell_quoted url.
End statements.

(** ** Objects on the host *)

Section host.
Context {S : Type} `{AbslText, !Host S}.

(** An unset variable and an empty one are the same here. *)
Definition env (name : str) : str := default [] (getenv name).

Definition StorageEmulatorOrigin : str :=
  let port := match env $"FAKE_GCS_PORT" with [] => $"4443" | p => p end in
  match env $"STORAGE_EMULATOR_HOST" with
  | [] => $"http://127.0.0.1:" ++ port
  | out =>
      if has_prefix out $"http://" || has_prefix out $"https://" then out
      else if has_prefix out $"//" then $"http:" ++ out
      else if bool_decide (":"%char ∈ out) then $"http://" ++ out
      else $"http://" ++ out ++ $":" ++ port
  end.

Definition RunShellCommand (cmd : str) : Op S unit := fun s =>
  let '(s, rc) := system s (c_str cmd) in
  (s, if (rc =? 0)%Z then Ok ()
      else Err (InternalError ($"shell command failed (rc=" ++ StrInt rc ++ $"): " ++ cmd))).

Definition MaterializeGCSObjectToCache (gs_uri data_dir : str) : Op S str := fun s =>
  match data_dir with
  | [] => (s, Err (InvalidArgumentError $"control op executor: data_dir is required to resolve gs:// URIs"))
  | _ =>
      match ParseGsUri gs_uri with
      | Err e => (s, Err e)
      | Ok parts =>
          let cache := GcsCachePath data_dir parts in
          if file_exists s cache then (s, Ok cache)
          else
            let s := create_directories s (parent_path cache) in
            match RunShellCommand (fetch_command (GcsMediaURL StorageEmulatorOrigin parts) cache) s with
            | (s, Err e) => (s, Err (InvalidArgumentError ($"control op executor: could not fetch " ++ gs_uri
                ++ $" from storage emulator (set STORAGE_EMULATOR_HOST or pre-stage " ++ cache ++ $"): " ++ message e)))
            | (s, Ok _) =>
                if file_exists s cache then (s, Ok cache)
                else (s, Err (InternalError ($"control op executor: fetch produced no file at " ++ cache)))
            end
      end
  end.

Definition UploadGCSObjectFromFile (gs_uri local_path content_type : str) : Op S unit :=
  parts ← op_lift (ParseGsUri gs_uri);
  there ← op_reads (fun s => Ok (file_exists s local_path));
  if negb there then op_fail (NotFoundError ($"export local file missing: " ++ local_path))
  else
    let ct := match content_type with [] => $"application/octet-stream" | t => t end in
    RunShellCommand (upload_command ct local_path (GcsUploadURL StorageEmulatorOrigin parts)).

Definition LocalPathFromUri (uri data_dir : str) : Op S str :=
  match uri with
  | [] => op_fail (InvalidArgumentError $"control op executor: URI must be non-empty")
  | _ =>
      if has_prefix uri $"gs://" then MaterializeGCSObjectToCache uri data_dir
      else mret (default uri (strip_prefix $"file://" uri))
  end.
End host.

(** ** What the shell makes of the commands *)

(** Bytes that mean themselves outside of quotes. *)
Definition shell_plain (c : ascii) : bool := unreserved c || bool_decide (c ∈ ["/"; ":"; "@"]%char).

(** The words of a command: blanks separate words, a single quote starts a text up to
    the next one, a backslash takes the next byte.  Anything else that the shell
    gives a meaning to is refused. *)
Fixpoint words_from (quoted : bool) (word : option str) (s : str) : option (list str) :=
  match s with
  | [] => if quoted then None else Some (match word with Some w => [w] | None => [] end)
  | c :: r =>
      let add := words_from quoted (Some (default [] word ++ [c])) r in
      if quoted then
        if bool_decide (c = squote) then words_from false word r else add
      else if bool_decide (c = squote) then words_from true (Some (default [] word)) r
      else if bool_decide (c = " "%char) then
        match word with
        | Some w => ws ← words_from false None r; Some (w :: ws)
        | None => words_from false None r
        end
      else if bool_decide (c = "\"%char) then
        match r with
        | d :: r' => words_from false (Some (default [] word ++ [d])) r'
        | [] => None
        end
      else if shell_plain c then add else None
  end.

Definition shell_words (cmd : str) : option (list str) := words_from false None cmd.

(** An escaped text inside quotes is the text. *)
Lemma words_escaped t w r : words_from true (Some w) (ShellEscape t ++ r) = words_from true (Some (w ++ t)) r.
Proof.
  revert w. induction t as [|c t IH]; intros w; [by rewrite app_nil_r|].
  replace (w ++ c :: t) with ((w ++ [c]) ++ t) by (by rewrite <- app_assoc).
  rewrite <- IH. unfold ShellEscape. cbn [flat_map]. rewrite <- app_assoc. fold (ShellEscape t).
  destruct (decide (c = squote)) as [->|N]; cbn; [done|]. by rewrite bool_decide_false.
Qed.

Lemma words_quoted t w r :
  words_from false w (shell_quoted t ++ r) = words_from false (Some (default [] w ++ t)) r.
Proof.
  unfold shell_quoted. rewrite <- !app_assoc.
  transitivity (words_from true (Some (default [] w)) (ShellEscape t ++ [squote] ++ r)); [reflexivity|].
  rewrite words_escaped. reflexivity.
Qed.

Definition own_meaning (c : ascii) : bool :=
  shell_plain c && negb (bool_decide (c = squote)) && negb (bool_decide (c = " "%char)) && negb (bool_decide (c = "\"%char)).

(** A constant without special bytes is added to the word. *)
Lemma words_plain t w r :
  forallb own_meaning t = true -> t <> [] ->
  words_from false w (t ++ r) = words_from false (Some (default [] w ++ t)) r.
Proof.
  revert w. induction t as [|c t IH]; intros w F Ne; [done|]. cbn [forallb] in F. apply andb_prop in F as [C F].
  unfold own_meaning in C. rewrite !andb_true_iff, !negb_true_iff in C. destruct C as [[[P Q] B] K]. cbn [app words_from]. rewrite Q, B, K, P.
  destruct t as [|d t]; [done|]. rewrite IH by done. f_equal. f_equal. exact (eq_sym (app_assoc _ [c] (d :: t))).
Qed.

Lemma words_blank w r : words_from false (Some w) (" "%char :: r) = (ws ← words_from false None r; Some (w :: ws)).
Proof. done. Qed.

(** A word that needs no quotes, and its blank. *)
Lemma words_word t r : forallb own_meaning t = true -> t <> [] ->
  words_from false None (t ++ " "%char :: r) = (ws ← words_from false None r; Some (t :: ws)).
Proof. intros F Ne. by rewrite words_plain, words_blank. Qed.

(** A quoted word at the end of the command and before a blank. *)
Lemma words_last t w : words_from false w (shell_quoted t) = Some [default [] w ++ t].
Proof. rewrite <- (app_nil_r (shell_quoted t)), words_quoted. done. Qed.

Lemma words_quoted_blank t w r :
  words_from false w (shell_quoted t ++ " "%char :: r) = (ws ← words_from false None r; Some ((default [] w ++ t) :: ws)).
Proof. by rewrite words_quoted, words_blank. Qed.

(** The header: a constant inside the quotes, then the escaped text. *)
Lemma words_inside t w r : ~ (squote ∈ t) -> words_from true (Some w) (t ++ r) = words_from true (Some (w ++ t)) r.
Proof.
  revert w. induction t as [|c t IH]; intros w N; [by rewrite app_nil_r|]. apply not_elem_of_cons in N as [Nc N].
  replace (w ++ c :: t) with ((w ++ [c]) ++ t) by (by rewrite <- app_assoc). rewrite <- IH by done.
  cbn. by rewrite bool_decide_false.
Qed.

Lemma words_header t r :
  words_from false None ($"'" ++ $"Content-Type: " ++ ShellEscape t ++ $"'" ++ r) =
    words_from false (Some ($"Content-Type: " ++ t)) r.
Proof.
  change (words_from false None ($"'" ++ ?x)) with (words_from true (Some []) x).
  rewrite words_inside by (by apply literal_without). by rewrite words_escaped.
Qed.

(** The percent-decoding of a URL. *)
Definition hex_value (c : ascii) : option Z :=
  let b := byteval c in
  if ((48 <=? b) && (b <=? 57))%Z then Some (b - 48)%Z else if ((65 <=? b) && (b <=? 70))%Z then Some (b - 55)%Z else None.

Fixpoint url_decode (s : str) : option str :=
  match s with
  | [] => Some []
  | "%"%char :: a :: b :: r =>
      match hex_value a, hex_value b, url_decode r with
      | Some x, Some y, Some t => Some (byteof (16 * x + y) :: t)
      | _, _, _ => None
      end
  | "%"%char :: _ => None
  | c :: r => match url_decode r with Some t => Some (c :: t) | None => None end
  end.

Definition escape_one (c : ascii) : str := UrlEscapePath [c].

Lemma escape_one_decodes c r t : url_decode r = Some t -> url_decode (escape_one c ++ r) = Some (c :: t).
Proof.
  intros E. destruct c as [[] [] [] [] [] [] [] []]; 
    match goal with |- context[escape_one ?c] => let x := eval vm_compute in (escape_one c) in change (escape_one c) with x end;
    cbn; rewrite E; reflexivity.
Qed.

Lemma url_escape_decodes s : url_decode (UrlEscapePath s) = Some s.
Proof.
  induction s as [|c s IH]; [done|].
  replace (UrlEscapePath (c :: s)) with (escape_one c ++ UrlEscapePath s); [by apply escape_one_decodes|].
  unfold escape_one, UrlEscapePath. cbn [flat_map]. by rewrite app_nil_r.
Qed.

Lemma c_str_id s : ~ (zero ∈ s) -> c_str s = s.
Proof.
  induction s as [|c s IH]; [done|]. intros [Ne N]%not_elem_of_cons. cbn [c_str].
  destruct (Z.eqb_spec (byteval c) 0) as [E|]; [|by rewrite IH]. destruct Ne. by apply (inj byteval).
Qed.

Lemma escape_without_nul s : ~ (zero ∈ s) -> ~ (zero ∈ ShellEscape s).
Proof.
  intros N I. unfold ShellEscape in I. apply list_elem_of_In, in_flat_map in I as (c & Ic & I).
  apply list_elem_of_In in Ic, I. case_decide; [revert I; by apply literal_without|].
  apply list_elem_of_singleton in I. congruence.
Qed.

Lemma url_without_nul s : ~ (zero ∈ UrlEscapePath s).
Proof.
  unfold UrlEscapePath. intros I. apply list_elem_of_In, in_flat_map in I as (c & _ & I). revert I.
  destruct c as [[] [] [] [] [] [] [] []]; vm_compute; intuition congruence.
Qed.

Ltac nul_free :=
  rewrite ?not_elem_of_app; split_and!;
  first [done | by apply literal_without | by apply escape_without_nul | apply url_without_nul].

Lemma fetch_words url cache : ~ (zero ∈ url) -> ~ (zero ∈ cache) ->
  shell_words (c_str (fetch_command url cache)) = Some [$"curl"; $"-sf"; url; $"-o"; cache].
Proof.
  intros Nu Nc. rewrite c_str_id by (unfold fetch_command, shell_quoted; nul_free).
  unfold shell_words, fetch_command.
  change ($"curl -sf " ++ ?r) with ($"curl" ++ " "%char :: ($"-sf" ++ " "%char :: r)).
  change ($" -o " ++ ?r) with (" "%char :: ($"-o" ++ " "%char :: r)).
  by rewrite (words_word $"curl"), (words_word $"-sf"), words_quoted_blank, (words_word $"-o"), words_last.
Qed.

Lemma upload_words url cache content_type :
  ~ (zero ∈ url) -> ~ (zero ∈ cache) -> ~ (zero ∈ content_type) ->
  shell_words (c_str (upload_command content_type cache url)) =
    Some [$"curl"; $"-sf"; $"-X"; $"POST"; $"-H"; $"Content-Type: " ++ content_type; $"--data-binary";
          $"@" ++ cache; url].
Proof.
  intros Nu Nc Nt. rewrite c_str_id by (unfold upload_command, shell_quoted; nul_free).
  unfold shell_words, upload_command.
  change ($"curl -sf -X POST -H 'Content-Type: " ++ ?r) with
    ($"curl" ++ " "%char :: ($"-sf" ++ " "%char :: ($"-X" ++ " "%char :: ($"POST" ++ " "%char ::
      ($"-H" ++ " "%char :: ($"'" ++ $"Content-Type: " ++ r)))))).
  change ($"' --data-binary @" ++ ?r) with ($"'" ++ " "%char :: ($"--data-binary" ++ " "%char :: ($"@" ++ r))).
  change ($" " ++ shell_quoted url) with (" "%char :: shell_quoted url).
  rewrite (words_word $"curl"), (words_word $"-sf"), (words_word $"-X"), (words_word $"POST"), (words_word $"-H") by done.
  rewrite (words_header content_type), words_blank, (words_word $"--data-binary") by done.
  by rewrite (words_plain $"@"), words_quoted_blank, words_last.
Qed.

Lemma parse_gs_uri b o : ~ ("/"%char ∈ b) -> b <> [] -> o <> [] ->
  ParseGsUri ($"gs://" ++ b ++ $"/" ++ o) = Ok (mkObject b o).
Proof.
  intros Nb Eb Eo. unfold ParseGsUri. rewrite strip_prefix_app.
  change (find_sub $"/") with (find_sub ["/"%char]). rewrite find_sub_skip by done.
  change (find_sub _ ?x) with (find_sub $"/" x). rewrite find_sub_here. cbn. rewrite app_nil_r.
  destruct b; [done|]. by destruct o.
Qed.

(** The shell runs curl with exactly the arguments meant: the URL and the path of
    the file, unchanged, whatever bytes but NUL they hold; and the URL names the
    bucket and the object: their percent-decoding is what the URI says. *)
Theorem curl_commands_exact origin cache content_type b o :
  ~ (zero ∈ origin) -> ~ (zero ∈ cache) -> ~ (zero ∈ content_type) -> ~ ("/"%char ∈ b) -> b <> [] -> o <> [] ->
  exists parts, ParseGsUri ($"gs://" ++ b ++ $"/" ++ o) = Ok parts /\
    shell_words (c_str (fetch_command (GcsMediaURL origin parts) cache)) =
      Some [$"curl"; $"-sf"; origin ++ $"/storage/v1/b/" ++ UrlEscapePath b ++ $"/o/" ++ UrlEscapePath o ++ $"?alt=media";
            $"-o"; cache] /\
    shell_words (c_str (upload_command content_type cache (GcsUploadURL origin parts))) =
      Some [$"curl"; $"-sf"; $"-X"; $"POST"; $"-H"; $"Content-Type: " ++ content_type; $"--data-binary"; $"@" ++ cache;
            origin ++ $"/upload/storage/v1/b/" ++ UrlEscapePath b ++ $"/o?uploadType=media&name=" ++ UrlEscapePath o] /\
    url_decode (UrlEscapePath b) = Some b /\ url_decode (UrlEscapePath o) = Some o.
Proof.
  intros No Nc Nt Nb Eb Eo. exists (mkObject b o). split_and!; [by apply parse_gs_uri| | |apply url_escape_decodes..].
  - apply fetch_words; [|done]. unfold GcsMediaURL. nul_free.
  - apply upload_words; [|done..]. unfold GcsUploadURL. nul_free.
Qed.

Module ControlTextDemo.
Lemma curl_commands_exact_witness :
  exists parts, ParseGsUri $"gs://in'box/a b/c.csv" = Ok parts /\
    shell_words (c_str (fetch_command (GcsMediaURL $"http://127.0.0.1:4443" parts) $"/data/it's")) =
      Some [$"curl"; $"-sf"; $"http://127.0.0.1:4443/storage/v1/b/in%27box/o/a%20b%2Fc.csv?alt=media"; $"-o"; $"/data/it's"].
Proof.
  destruct (curl_commands_exact $"http://127.0.0.1:4443" $"/data/it's" $"text/csv" $"in'box" $"a b/c.csv")
    as (parts & E & F & _); [by apply literal_without..|done|done|].
  exists parts. split; [exact E|]. rewrite F. by vm_compute.
Defined.
End ControlTextDemo.
