(* ===== verification/DmlProps.v ===== *)
(** * DmlProps: what INSERT, UPDATE and DELETE do to a table

    The theorems are stated against the contract of the storage
    ([StorageLaws], [RewritableStorageLaws]): the rows of the target after a
    statement, its counts, the rows of every other table, and what a statement
    that fails leaves behind. *)

From S2P Require Import Prelude Order Absl AbslReference Schema RowRestriction Storage SemanticError.
From S2P Require Import FrameStack SqlValue GoogleSqlReference Arithmetic Operators MathFuncs Casts.
From S2P Require Import EvalExpr Rows Joins SetOps Unnest AggFuncs Aggregates Analytic Scans StorageValues.
From S2P Require Import Dml.

Section dml.
Context `{AbslText, AbslDouble, GoogleSqlOps, ExecutorNodes}.
Context `{!CastLibrary, !ValueText, !ExecutorParts, !ResolvedAst, !AggregateParts}.
Context {S : Type} `{RewritableStorageLaws S}.

(** ** Outcomes *)

Lemma on_store_Ok {A} (s s' : S) (m : StatusOr A) k r :
  on_store s m k = (s', Ok r) <-> exists a, m = Ok a /\ k a = (s', Ok r).
Proof.
  destruct m as [a|e]; cbn; split; [by exists a| |done|].
  - by intros (? & [= ->] & ?).
  - by intros (? & ? & _).
Qed.

Lemma on_store_Err {A} (s s' : S) (m : StatusOr A) k e :
  on_store s m k = (s', Err e) -> s' = s \/ exists a, m = Ok a /\ k a = (s', Err e).
Proof. destruct m as [a|e']; cbn; [by right; exists a|]. intros [= <- <-]. by left. Qed.

Lemma after_write_Ok (w : S * StatusOr unit) k s' r :
  after_write w k = (s', Ok r) <-> exists s1, w = (s1, Ok ()) /\ k s1 = (s', Ok r).
Proof.
  destruct w as [s1 [[]|e]]; cbn; split; [by exists s1| |done|].
  - by intros (? & [= ->] & ?).
  - by intros (? & ? & _).
Qed.

Lemma scan_all_rows s id rows : ScanAllRows s id = Ok rows -> rows = contents s id.
Proof.
  unfold ScanAllRows. intros E. apply bind_Ok in E as (it & Si & E).
  destruct (iter_error it) eqn:Ie; [done|]. injection E as <-. by apply scan_ok.
Qed.

(** The rows of the target and of every other table after a write. *)
Definition rewritten_to (s s' : S) (id : TableId) (rows : list Storage.Row) : Prop :=
  (exists sch, GetSchema s id = Ok sch /\ contents s' id = map (stored sch) rows) /\
  forall u, u <> id -> contents s' u = contents s u.

Lemma overwrite_rewrites s id rows s' : OverwriteRows s id rows = (s', Ok ()) -> rewritten_to s s' id rows.
Proof. intros E. split; [by eapply overwrite_ok|]. intros u U. by eapply overwrite_frame. Qed.

(** The table is rewritten with [rows] when [n] rows changed, else nothing is
    written. *)
Definition written (s s' : S) (id : TableId) (n : Z) (rows : list Storage.Row) : Prop :=
  if (0 <? n)%Z then rewritten_to s s' id rows else s' = s.

Lemma finish_Ok s id rows n (m : StatusOr (DmlStats * option RowSource)) s' r :
  (if (0 <? n)%Z then after_write (OverwriteRows s id rows) (fun s1 => (s1, m)) else (s, m)) = (s', Ok r) ->
  written s s' id n rows /\ m = Ok r.
Proof.
  unfold written. destruct (0 <? n)%Z; [|by intros [= <- ->]].
  intros E. apply after_write_Ok in E as (s1 & W & [= <- ->]). split; [|done]. by apply overwrite_rewrites.
Qed.

Lemma finalize_stats returning contexts stats ctx out :
  FinalizeMutateWithReturning returning contexts stats ctx = Ok out -> out.1 = stats.
Proof.
  unfold FinalizeMutateWithReturning. intros E. destruct returning, contexts; try by injection E as <-.
  apply bind_Ok in E as (src & _ & E). by injection E as <-.
Qed.

(** ** Cells of a row *)

(** [row] has the cells of [vs] at [idxs], and those of [base] elsewhere. *)
Definition overwrites (base : Storage.Row) (idxs : list nat) (vs : list Value) (row : Storage.Row) : Prop :=
  length (cells row) = length (cells base) /\
  (forall i, i ∉ idxs -> cells row !! i = cells base !! i) /\
  Forall2 (fun v i => exists cell, ToStorageValue v = Ok cell /\ cells row !! i = Some cell) vs idxs.

Lemma overwrites_cons base i idxs v cell vs row :
  ToStorageValue v = Ok cell -> i ∉ idxs -> i < length (cells base) ->
  overwrites (set_cell base i cell) idxs vs row -> overwrites base (i :: idxs) (v :: vs) row.
Proof.
  intros C Ni B (L & Same & F). cbn [set_cell cells] in *. rewrite length_insert in L. split; [done|].
  split.
  - intros j Nj. rewrite Same by set_solver. rewrite list_lookup_insert_ne by set_solver. done.
  - constructor; [|done]. exists cell. split; [done|]. rewrite Same by done. by apply list_lookup_insert_eq.
Qed.

Definition within (idxs : list nat) (row : Storage.Row) : Prop :=
  Forall (fun i => i < length (cells row)) idxs.

Lemma within_set_cell idxs row i cell : within idxs row -> within idxs (set_cell row i cell).
Proof. intros W. apply (Forall_impl _ _ _ W). intros j. cbn. by rewrite length_insert. Qed.

(** ** DELETE *)

(** A predicate that is absent or TRUE on the bindings of a row. *)
Definition accepts (e : ResolvedExpr) (ctx : EvalContext) (bind : Row) : bool :=
  is_null_expr e || match EvalExpr e (set_columns ctx bind) with Ok (SBool b) => b | _ => false end.

Lemma where_accepts e ctx bind b : EvalWherePredicate e (set_columns ctx bind) = Ok b -> accepts e ctx bind = b.
Proof.
  unfold EvalWherePredicate, accepts. destruct (is_null_expr e); [by intros [= <-]|].
  intros E. apply bind_Ok in E as (v & -> & [= <-]). by destruct v.
Qed.

(** The predicate holds on a row of the target. *)
Definition row_holds (scan : TableScanNode) (by_id : ColumnIndexes) (sch : TableSchema)
    (e : ResolvedExpr) (ctx : EvalContext) (row : Storage.Row) : bool :=
  match BindRow row scan by_id sch with Ok bind => accepts e ctx bind | Err _ => false end.

Lemma delete_outcomes del scan by_id sch ctx rows outcomes :
  outcome_mapM (delete_row del scan by_id sch ctx) rows = Ok outcomes ->
  rows_kept rows outcomes =
    List.filter (fun r => negb (row_holds scan by_id sch (delete_where del) ctx r)) rows /\
  length (rows_deleted outcomes) =
    length (List.filter (row_holds scan by_id sch (delete_where del) ctx) rows).
Proof.
  intros F%mapM_Forall2. induction F as [|row o rows os E _ [IHk IHd]]; [done|].
  apply bind_Ok in E as (b & Eb & E). apply bind_Ok in E as (m & Em & [= <-]).
  assert (row_holds scan by_id sch (delete_where del) ctx row = m) as Hm.
  { unfold row_holds. rewrite Eb. by apply where_accepts. }
  cbn [List.filter]. rewrite Hm. unfold rows_kept, rows_deleted in *.
  destruct m; cbn; rewrite IHk; (split; [done|lia]).
Qed.

(** C14: a DELETE that succeeds leaves exactly the rows of the target on which the
    predicate is not TRUE (FALSE or NULL), in their order, and no other table
    changes; it counts the rows it removed.  Without such a row nothing is
    written. *)
Theorem delete_exact del s ctx s' stats src scan id sch :
  StorageTargetFor (delete_target del) $"DELETE" = Ok (scan, id, sch) ->
  ExecuteDelete del s ctx = (s', Ok (stats, src)) ->
  exists by_id, BuildColumnIndexByColumnId scan sch = Ok by_id /\
    let holds := row_holds scan by_id sch (delete_where del) ctx in
    deleted_row_count stats = Z.of_nat (length (List.filter holds (contents s id))) /\
    written s s' id (deleted_row_count stats) (List.filter (fun r => negb (holds r)) (contents s id)).
Proof.
  intros T E. unfold ExecuteDelete in E. rewrite T in E. cbn [RejectUnsupportedDmlFeatures] in E.
  apply on_store_Ok in E as (_ & _ & E). apply on_store_Ok in E as (? & [= <-] & E).
  apply on_store_Ok in E as (by_id & B & E). apply on_store_Ok in E as (rows & R & E).
  apply on_store_Ok in E as (outcomes & O & E). apply on_store_Ok in E as (_ & _ & E).
  apply finish_Ok in E as [W F]. apply finalize_stats in F. cbn in F. subst stats.
  apply scan_all_rows in R as ->. exists by_id. split; [done|].
  destruct (delete_outcomes _ _ _ _ _ _ _ O) as [K D]. cbn [deleted_row_count] in *. rewrite D in *.
  by rewrite K in W.
Qed.

(** ** UPDATE *)

(** The bindings a row of the target is updated with: its own, or those merged
    with the one source row that satisfies the predicate. *)
Definition matches (upd : UpdateStmt) (bind : Row) (from_rows : list Row) (ctx : EvalContext)
    (matched : option Row) : Prop :=
  if is_null_scan (update_from upd)
  then matched = if accepts (update_where upd) ctx bind then Some bind else None
  else match List.filter (accepts (update_where upd) ctx) (map (MergeColumnBindings bind) from_rows) with
       | [] => matched = None
       | [merged] => matched = Some merged
       | _ => False
       end.

Lemma from_matches_filter e bind from_rows ctx n last found :
  from_matches e bind from_rows ctx n last = Ok found ->
  let hits := List.filter (accepts e ctx) (map (MergeColumnBindings bind) from_rows) in
  found = ((n + Z.of_nat (length hits))%Z, List.last hits last).
Proof.
  revert n last. induction from_rows as [|r rows IH]; intros n last; cbn.
  { intros [= <-]. f_equal. lia. }
  intros E. apply bind_Ok in E as (m & M & E). apply where_accepts in M as ->.
  destruct m; apply IH in E; cbn in E; subst found; [|done]. f_equal; [cbn; lia|].
  generalize (List.filter (accepts e ctx) (map (MergeColumnBindings bind) rows)). clear.
  intros [|h hits]; [done|]. revert h. induction hits as [|h' hits IH]; intros h; [done|]. apply IH.
Qed.

Lemma update_match_spec upd bind from_rows ctx matched :
  update_match upd bind from_rows ctx = Ok matched -> matches upd bind from_rows ctx matched.
Proof.
  unfold update_match, matches. destruct (is_null_scan (update_from upd)); intros E;
    apply bind_Ok in E as (m & M & E).
  - apply where_accepts in M as ->. by injection E.
  - apply from_matches_filter in M. cbn zeta in M. subst m. cbn [fst snd] in E.
    destruct (List.filter _ _) as [|h [|h' hits]]; cbn in E; [by injection E|by injection E|].
    destruct (1 <? _)%Z eqn:L; [done|]. apply Z.ltb_ge in L. lia.
Qed.

(** Assignments to whole columns. *)
Definition plain (sets : list SetAssignment) (nested : list NestedArrayDeleteAssignment) : Prop :=
  nested = [] /\ Forall (fun a => struct_field_path (set_target a) = []) sets.

Definition target_columns (sets : list SetAssignment) : list nat := map (fun a => column_idx (set_target a)) sets.

(** The right-hand sides are all evaluated on the bindings [eval_row], whose
    values the assignments before them do not change. *)
Definition assigned (sets : list SetAssignment) (nested : list NestedArrayDeleteAssignment)
    (eval_row : Row) (ctx : EvalContext) (row row' : Storage.Row) : Prop :=
  length (cells row') = length (cells row) /\
  (forall i, i ∉ target_columns sets ++ map (fun n => column_idx (nested_target n)) nested ->
     cells row' !! i = cells row !! i) /\
  (plain sets nested -> NoDup (target_columns sets) -> within (target_columns sets) row ->
   exists vs, Forall2 (fun a v => EvalExpr (set_expr a) (set_columns ctx eval_row) = Ok v) sets vs /\
     overwrites row (target_columns sets) vs row').

Lemma apply_set_cell row a sch ctx row' :
  apply_set row a sch ctx = Ok row' -> exists cell, row' = set_cell row (column_idx (set_target a)) cell.
Proof.
  unfold apply_set. intros E. apply bind_Ok in E as (v & _ & E).
  destruct (struct_field_path (set_target a)).
  - apply bind_Ok in E as (cell & _ & [= <-]). by exists cell.
  - apply bind_Ok in E as (? & _ & E). apply bind_Ok in E as (? & _ & E).
    apply bind_Ok in E as (cell & _ & [= <-]). by exists cell.
Qed.

Lemma apply_sets_plain sets sch ctx row row' :
  apply_sets row sets sch ctx = Ok row' -> Forall (fun a => struct_field_path (set_target a) = []) sets ->
  NoDup (target_columns sets) -> within (target_columns sets) row ->
  exists vs, Forall2 (fun a v => EvalExpr (set_expr a) ctx = Ok v) sets vs /\
    overwrites row (target_columns sets) vs row'.
Proof.
  revert row. induction sets as [|a sets IH]; intros row E P ND W.
  { injection E as <-. exists []. repeat split; [constructor|done..|constructor]. }
  cbn [apply_sets] in E. apply bind_Ok in E as (r & A & E). unfold apply_set in A.
  apply Forall_cons in P as [Pa P]. rewrite Pa in A. apply bind_Ok in A as (v & Ev & A). apply bind_Ok in A as (cell & C & [= <-]).
  apply NoDup_cons in ND as [Ni ND]. apply Forall_cons in W as [Wi W].
  destruct (IH _ E P ND) as (vs & F & O); [by apply within_set_cell|].
  exists (v :: vs). split; [by constructor|]. by eapply overwrites_cons.
Qed.

Lemma apply_sets_frame sets sch ctx row row' :
  apply_sets row sets sch ctx = Ok row' ->
  length (cells row') = length (cells row) /\
  forall i, i ∉ target_columns sets -> cells row' !! i = cells row !! i.
Proof.
  revert row. induction sets as [|a sets IH]; intros row E; [by injection E as <-|].
  cbn [apply_sets] in E. apply bind_Ok in E as (r & (cell & ->)%apply_set_cell & E).
  destruct (IH _ E) as [L F]. cbn [set_cell cells] in *. rewrite length_insert in L. split; [done|].
  intros i [Ni Ns]%not_elem_of_cons. by rewrite F, list_lookup_insert_ne.
Qed.

Lemma apply_nested_frame nested bind sch ctx row row' :
  apply_nested_deletes row nested bind sch ctx = Ok row' ->
  length (cells row') = length (cells row) /\
  forall i, i ∉ map (fun n => column_idx (nested_target n)) nested -> cells row' !! i = cells row !! i.
Proof.
  revert row. induction nested as [|n nested IH]; intros row E; [by injection E as <-|].
  cbn [apply_nested_deletes] in E. apply bind_Ok in E as (cur & _ & E).
  destruct (struct_field_path (nested_target n)); [|done].
  apply bind_Ok in E as (rew & _ & E). apply bind_Ok in E as (cell & _ & E).
  destruct (IH _ E) as [L F]. cbn [set_cell cells] in *. rewrite length_insert in L. split; [done|].
  cbn [map]. intros i [Ni Ns]%not_elem_of_cons. by rewrite F, list_lookup_insert_ne.
Qed.

Lemma update_sets_assigned row sets nested eval_row sch ctx row' :
  ApplyUpdateSets row sets nested eval_row sch ctx = Ok row' -> assigned sets nested eval_row ctx row row'.
Proof.
  unfold ApplyUpdateSets. intros E. apply bind_Ok in E as (mid & A & N).
  destruct (apply_sets_frame _ _ _ _ _ A) as [La Fa]. destruct (apply_nested_frame _ _ _ _ _ _ N) as [Ln Fn].
  split; [congruence|]. split.
  - intros i [Ni Ns]%not_elem_of_app. by rewrite Fn, Fa.
  - intros [-> P] ND W. injection N as <-. by eapply apply_sets_plain.
Qed.

(** The row an UPDATE puts in place of [row], and whether it updated it. *)
Definition row_update (upd : UpdateStmt) (sets : list SetAssignment)
    (nested : list NestedArrayDeleteAssignment) (from_rows : list Row) (scan : TableScanNode)
    (by_id : ColumnIndexes) (sch : TableSchema) (ctx : EvalContext) (row row' : Storage.Row)
    (updated : bool) : Prop :=
  exists bind matched, BindRow row scan by_id sch = Ok bind /\
    matches upd bind from_rows ctx matched /\
    match matched with
    | None => updated = false /\ row' = row
    | Some eval_row => updated = true /\ assigned sets nested eval_row ctx row row'
    end.

Lemma update_outcome upd sets nested from_rows scan by_id sch ctx row o :
  update_row upd sets nested from_rows scan by_id sch ctx row = Ok o ->
  row_update upd sets nested from_rows scan by_id sch ctx row o.1 (bool_decide (is_Some o.2)).
Proof.
  unfold update_row, ProcessOneUpdateRow. intros E. apply bind_Ok in E as (bind & B & E).
  apply bind_Ok in E as (matched & M & E). exists bind, matched. split; [done|].
  split; [by apply update_match_spec|].
  destruct matched as [eval_row|]; [|by injection E as <-].
  unfold ApplyUpdateToMatchedRow, RecordUpdatedRow in E. apply bind_Ok in E as (mutated & A & E).
  apply update_sets_assigned in A.
  destruct (update_returning upd); [|by injection E as <-].
  apply bind_Ok in E as (post & _ & E). by injection E as <-.
Qed.

Lemma updated_rows_count outcomes :
  length (updated_rows outcomes) =
  length (List.filter id (map (fun o : Storage.Row * option (list (Row * str)) =>
                                 bool_decide (is_Some o.2)) outcomes)).
Proof.
  induction outcomes as [|[r [c|]] os IH]; [done| |]; cbn; unfold updated_rows in *; cbn; by rewrite IH.
Qed.

(** C13: an UPDATE that succeeds replaces every row of the target that matches its
    predicate (with exactly one source row, when it has a FROM) by the row with
    its assignments applied: all right-hand sides are evaluated on the row as it
    was, the assigned columns hold their values and every other column keeps its
    cell.  It keeps every other row, in order, and changes no other table; it
    counts the rows that matched, and writes nothing when none did. *)
Theorem update_exact upd s ctx s' stats src scan id sch :
  StorageTargetFor (update_target upd) $"UPDATE" = Ok (scan, id, sch) ->
  ExecuteUpdate upd s ctx = (s', Ok (stats, src)) ->
  exists by_id sets nested from_rows rows' updated,
    BuildColumnIndexByColumnId scan sch = Ok by_id /\
    ParseUpdateAssignments (update_item_list upd) scan sch = Ok (sets, nested) /\
    (is_null_scan (update_from upd) = false -> MaterializeScanImpl (update_from upd) ctx = Ok from_rows) /\
    Forall3 (row_update upd sets nested from_rows scan by_id sch ctx) (contents s id) rows' updated /\
    updated_row_count stats = Z.of_nat (length (List.filter Datatypes.id updated)) /\
    written s s' id (updated_row_count stats) rows'.
Proof.
  intros T E. unfold ExecuteUpdate in E. rewrite T in E.
  apply on_store_Ok in E as (_ & _ & E). apply on_store_Ok in E as (? & [= <-] & E).
  apply on_store_Ok in E as ([sets nested] & A & E). apply on_store_Ok in E as (by_id & B & E).
  apply on_store_Ok in E as (rows & R & E). apply on_store_Ok in E as (from_rows & F & E).
  apply on_store_Ok in E as (outcomes & O & E). apply on_store_Ok in E as (_ & _ & E).
  apply finish_Ok in E as [W St]. apply finalize_stats in St. cbn in St. subst stats.
  apply scan_all_rows in R as ->.
  exists by_id, sets, nested, from_rows, (map fst outcomes),
    (map (fun o : Storage.Row * option (list (Row * str)) => bool_decide (is_Some o.2)) outcomes).
  split; [done|]. split; [done|]. split; [by intros N; rewrite N in F|]. split.
  - clear W. apply mapM_Forall2 in O. induction O as [|row o rows os E _ IH]; [constructor|].
    constructor; [|exact IH]. by apply update_outcome.
  - cbn [updated_row_count] in *. by rewrite <- updated_rows_count.
Qed.

(** ** INSERT *)

Lemma insert_cells_spec values idxs ctx base row :
  insert_cells values idxs ctx base = Ok row -> length values = length idxs -> NoDup idxs ->
  within idxs base ->
  exists vs, Forall2 (fun e v => EvalExpr e ctx = Ok v) values vs /\ overwrites base idxs vs row.
Proof.
  revert idxs base. induction values as [|e values IH]; intros [|i idxs] base E L ND B; try done.
  { injection E as <-. exists []. repeat split; [constructor|done..|constructor]. }
  cbn [insert_cells] in E. destruct (is_null_expr e); [done|].
  apply bind_Ok in E as (v & Ev & E). apply bind_Ok in E as (cell & Ec & E).
  apply NoDup_cons in ND as [Ni ND]. apply Forall_cons in B as [Bi B].
  destruct (IH idxs _ E) as (vs & F & O); [by injection L|done|by apply within_set_cell|].
  exists (v :: vs). split; [by constructor|]. by eapply overwrites_cons.
Qed.

Lemma select_cells_spec bind ids idxs base row :
  select_cells bind ids idxs base = Ok row -> length ids = length idxs -> NoDup idxs ->
  within idxs base ->
  exists vs, Forall2 (fun id v => bind !! id = Some v) ids vs /\ overwrites base idxs vs row.
Proof.
  revert idxs base. induction ids as [|id ids IH]; intros [|i idxs] base E L ND B; try done.
  { injection E as <-. exists []. repeat split; [constructor|done..|constructor]. }
  cbn [select_cells] in E. destruct (bind !! id) as [v|] eqn:Ev; [|done].
  apply bind_Ok in E as (cell & Ec & E).
  apply NoDup_cons in ND as [Ni ND]. apply Forall_cons in B as [Bi B].
  destruct (IH idxs _ E) as (vs & F & O); [by injection L|done|by apply within_set_cell|].
  exists (v :: vs). split; [by constructor|]. by eapply overwrites_cons.
Qed.

(** The values an INSERT supplies, one list per row. *)
Definition supplies (insert : InsertStmt) (ctx : EvalContext) (vss : list (list Value)) : Prop :=
  if is_null_scan (insert_query insert)
  then Forall2 (fun row_node vs => exists values, row_node = Some values /\
                  Forall2 (fun e v => EvalExpr e ctx = Ok v) values vs) (row_list insert) vss
  else exists binds, MaterializeScanImpl (insert_query insert) ctx = Ok binds /\
         Forall2 (fun (bind : Row) vs => Forall2 (fun id v => bind !! id = Some v)
                    (map column_id (query_output_column_list insert)) vs) binds vss.

Lemma index_from_bound k cols name i : index_from k cols name = Some i -> k <= i < k + length cols.
Proof.
  revert k. induction cols as [|c cols IH]; intros k; cbn; [done|].
  destruct (EqualsIgnoreCase _ _); [intros [= <-]; lia|]. intros E%IH. lia.
Qed.

Lemma column_mapping_within cols sch idxs :
  BuildInsertColumnIndexMapping cols sch = Ok idxs -> length idxs = length cols /\ within idxs (null_row sch).
Proof.
  intros F. split; [by eapply mapM_length|]. apply mapM_Forall2 in F. unfold within.
  induction F as [|col i cols idxs E _ IH]; [constructor|]. constructor; [|exact IH].
  destruct (IndexOfColumn sch (column_name col)) as [j|] eqn:I; [|done]. injection E as <-.
  apply index_from_bound in I. unfold null_row. cbn. rewrite length_replicate. lia.
Qed.

Lemma insert_rows_spec insert sch idxs ctx rows :
  BuildInsertColumnIndexMapping (insert_column_list insert) sch = Ok idxs -> NoDup idxs ->
  (if is_null_scan (insert_query insert) then insert_values_rows insert sch idxs ctx
   else insert_select_rows insert sch idxs ctx) = Ok rows ->
  exists vss, supplies insert ctx vss /\ Forall2 (overwrites (null_row sch) idxs) vss rows.
Proof.
  intros M ND R. apply column_mapping_within in M as [L W]. unfold supplies.
  destruct (is_null_scan (insert_query insert)).
  - apply mapM_Forall2 in R. induction R as [|node row nodes rows E _ (vss & F & O)].
    { exists []. by repeat constructor. }
    destruct node as [values|]; [|done]. unfold BuildInsertRow in E.
    destruct (length values =? length idxs) eqn:Lv; [|done]. apply Nat.eqb_eq in Lv.
    destruct (insert_cells_spec _ _ _ _ _ E Lv ND W) as (vs & Fv & Ov).
    exists (vs :: vss). split; constructor; [by exists values|done..].
  - unfold insert_select_rows in R.
    destruct (length (query_output_column_list insert) =? length (insert_column_list insert)) eqn:Lq; [|done].
    apply Nat.eqb_eq in Lq. cbn [negb] in R. apply bind_Ok in R as (binds & Q & R). apply mapM_Forall2 in R.
    assert (exists vss, Forall2 (fun (bind : Row) vs => Forall2 (fun id v => bind !! id = Some v)
              (map column_id (query_output_column_list insert)) vs) binds vss /\
              Forall2 (overwrites (null_row sch) idxs) vss rows) as (vss & F & O); [|exists vss; eauto].
    clear Q. induction R as [|bind row binds rows E _ (vss & F & O)].
    { exists []. by repeat constructor. }
    destruct (select_cells_spec _ _ _ _ _ E) as (vs & Fv & Ov); [rewrite length_map; lia|done|done|].
    exists (vs :: vss). by split; constructor.
Qed.

(** The rows of the target after rows were added. *)
Definition appended (s s' : S) (id : TableId) (rows : list Storage.Row) : Prop :=
  (rows = [] /\ s' = s) \/
  ((exists sch, GetSchema s id = Ok sch /\ contents s' id = contents s id ++ map (stored sch) rows) /\
   forall u, u <> id -> contents s' u = contents s u).

Lemma finalize_insert insert scan id sch by_id rows s ctx s' stats src :
  FinalizeInsertAppend insert scan id sch by_id rows s ctx = (s', Ok (stats, src)) ->
  appended s s' id rows /\ stats = mkStats (Z.of_nat (length rows)) 0 0.
Proof.
  unfold FinalizeInsertAppend. intros E. destruct rows as [|row rows].
  - apply on_store_Ok in E as (_ & _ & [= <- <- <-]). split; [by left|done].
  - apply on_store_Ok in E as (_ & _ & E). apply on_store_Ok in E as (res & Rt & E).
    apply after_write_Ok in E as (s1 & W & [= <- ->]). split.
    + right. split; [by eapply append_ok|]. intros u U. by eapply append_frame.
    + unfold BuildInsertReturningIfNeeded in Rt. destruct (insert_returning insert); [|by injection Rt].
      apply bind_Ok in Rt as (? & _ & Rt). by apply bind_Ok in Rt as (? & _ & [= <- _]).
Qed.

(** C15: an INSERT that succeeds appends one row per row of values or of the query,
    in order, each with its values in the listed columns and NULL in every other
    column of the table; no other table changes, and the count is the number of
    rows. *)
Theorem insert_exact insert s ctx s' stats src scan id sch idxs :
  StorageTargetFor (insert_target insert) $"INSERT" = Ok (scan, id, sch) ->
  BuildInsertColumnIndexMapping (insert_column_list insert) sch = Ok idxs -> NoDup idxs ->
  ExecuteInsert insert s ctx = (s', Ok (stats, src)) ->
  exists vss rows, supplies insert ctx vss /\ Forall2 (overwrites (null_row sch) idxs) vss rows /\
    appended s s' id rows /\ inserted_row_count stats = Z.of_nat (length rows).
Proof.
  intros T M ND E. unfold ExecuteInsert in E. rewrite T in E.
  destruct (insert_or_error insert); [|done]. destruct (has_on_conflict insert); [done|]. cbn [negb] in E.
  apply on_store_Ok in E as (_ & _ & E). apply on_store_Ok in E as (? & [= <-] & E).
  apply on_store_Ok in E as (by_id & _ & E). rewrite M in E. apply on_store_Ok in E as (? & [= <-] & E).
  apply on_store_Ok in E as (rows & R & E). apply finalize_insert in E as [A ->].
  destruct (insert_rows_spec _ _ _ _ _ M ND R) as (vss & Su & F). by exists vss, rows.
Qed.

(** ** Failures *)

Definition unchanged (s s' : S) : Prop := forall u, contents s' u = contents s u.

Lemma after_write_Err (w : S * StatusOr unit) k s' e :
  after_write w k = (s', Err e) -> w = (s', Err e) \/ exists s1, w = (s1, Ok ()) /\ k s1 = (s', Err e).
Proof. destruct w as [s1 [[]|e']]; cbn; [by right; exists s1|]. intros [= <- <-]. by left. Qed.

Lemma insert_failure insert s ctx s' e : ExecuteInsert insert s ctx = (s', Err e) -> unchanged s s'.
Proof.
  unfold ExecuteInsert. destruct (negb _); [by intros [= <- _]|]. destruct (has_on_conflict insert); [by intros [= <- _]|].
  intros E. apply on_store_Err in E as [->|(? & _ & E)]; [done|].
  apply on_store_Err in E as [->|([[scan id] sch] & _ & E)]; [done|].
  apply on_store_Err in E as [->|(by_id & _ & E)]; [done|].
  apply on_store_Err in E as [->|(idxs & _ & E)]; [done|].
  apply on_store_Err in E as [->|(rows & _ & E)]; [done|].
  unfold FinalizeInsertAppend in E. destruct rows.
  - by apply on_store_Err in E as [->|(? & _ & E)].
  - apply on_store_Err in E as [->|(? & _ & E)]; [done|]. apply on_store_Err in E as [->|(? & _ & E)]; [done|].
    apply after_write_Err in E as [E|(? & _ & E)]; [|done]. intros u. by eapply append_err.
Qed.

Lemma merge_failure merge s ctx s' e : ExecuteMerge merge s ctx = (s', Err e) -> unchanged s s'.
Proof.
  unfold ExecuteMerge. intros E. apply on_store_Err in E as [->|([[scan id] sch] & _ & E)]; [done|].
  apply on_store_Err in E as [->|(by_id & _ & E)]; [done|].
  apply on_store_Err in E as [->|(parts & _ & E)]; [done|].
  destruct (CorrelateMergeTargetsAndSources _ _ _ _) as [targets sources].
  apply on_store_Err in E as [->|(? & _ & E)]; [done|]. apply on_store_Err in E as [->|(ms & _ & E)]; [done|].
  apply after_write_Err in E as [E|(? & _ & E)]; [|done]. intros u. by eapply overwrite_err.
Qed.

(** The statement without its THEN RETURN. *)
Definition delete_only (del : DeleteStmt) : DeleteStmt :=
  mkDelete (delete_target del) (delete_where del) (delete_assert del) None.

Definition update_only (upd : UpdateStmt) : UpdateStmt :=
  mkUpdate (update_generated_columns upd) (update_target upd) (update_item_list upd) (update_from upd)
    (update_where upd) (update_assert upd) None.

(** What a failed last step leaves: nothing changed, or the rows written. *)
Lemma finish_Err s id rows n (m : StatusOr (DmlStats * option RowSource)) s' e :
  (if (0 <? n)%Z then after_write (OverwriteRows s id rows) (fun s1 => (s1, m)) else (s, m)) = (s', Err e) ->
  unchanged s s' \/ forall m', (if (0 <? n)%Z then after_write (OverwriteRows s id rows) (fun s1 => (s1, m'))
                               else (s, m')) = (s', m').
Proof.
  destruct (0 <? n)%Z; [|intros [= <- _]; by left]. intros E.
  apply after_write_Err in E as [E|(s1 & W & [= <- _])].
  - left. intros u. by eapply overwrite_err.
  - right. intros m'. by rewrite W.
Qed.

Lemma delete_failure del s ctx s' e :
  ExecuteDelete del s ctx = (s', Err e) ->
  unchanged s s' \/ exists stats, ExecuteDelete (delete_only del) s ctx = (s', Ok (stats, None)).
Proof.
  unfold ExecuteDelete. intros E.
  apply on_store_Err in E as [->|(? & G & E)]; [by left|].
  apply on_store_Err in E as [->|([[scan id] sch] & T & E)]; [by left|].
  apply on_store_Err in E as [->|(by_id & B & E)]; [by left|].
  apply on_store_Err in E as [->|(rows & R & E)]; [by left|].
  apply on_store_Err in E as [->|(outcomes & O & E)]; [by left|].
  apply on_store_Err in E as [->|(? & A & E)]; [by left|].
  apply finish_Err in E as [U|W]; [by left|]. right. eexists.
  cbn [delete_only delete_target delete_where delete_assert delete_returning]. rewrite T. cbn [on_store].
  rewrite B. cbn [on_store]. rewrite R. cbn [on_store].
  change (delete_row (delete_only del) scan by_id sch ctx) with (delete_row del scan by_id sch ctx).
  rewrite O. cbn [on_store]. rewrite A. cbn [on_store]. apply W.
Qed.

Lemma update_row_only upd sets nested from_rows scan by_id sch ctx row o :
  update_row upd sets nested from_rows scan by_id sch ctx row = Ok o ->
  update_row (update_only upd) sets nested from_rows scan by_id sch ctx row =
  Ok (o.1, option_map (fun _ => []) o.2).
Proof.
  unfold update_row, ProcessOneUpdateRow. intros E. apply bind_Ok in E as (bind & B & E).
  apply bind_Ok in E as (matched & M & E). rewrite B. cbn.
  change (update_match (update_only upd) bind from_rows ctx) with (update_match upd bind from_rows ctx).
  rewrite M. cbn. destruct matched as [eval_row|]; [|by injection E as <-].
  unfold ApplyUpdateToMatchedRow, RecordUpdatedRow in *. apply bind_Ok in E as (mutated & A & E).
  rewrite A. cbn. destruct (update_returning upd); [|by injection E as <-].
  apply bind_Ok in E as (post & _ & E). by injection E as <-.
Qed.

Lemma update_rows_only upd sets nested from_rows scan by_id sch ctx rows os :
  outcome_mapM (update_row upd sets nested from_rows scan by_id sch ctx) rows = Ok os ->
  exists os', outcome_mapM (update_row (update_only upd) sets nested from_rows scan by_id sch ctx) rows = Ok os' /\
    map fst os' = map fst os /\ length (updated_rows os') = length (updated_rows os) /\
    concat (updated_rows os') = [].
Proof.
  intros F%mapM_Forall2. induction F as [|row o rows os E _ (os' & E' & M & L & C)]; [by exists []|].
  apply update_row_only in E. exists ((o.1, option_map (fun _ => []) o.2) :: os').
  cbn [outcome_mapM]. rewrite E. cbn. rewrite E'. cbn. unfold updated_rows in *.
  split; [done|]. split; [by rewrite M|]. destruct o as [r [c|]]; cbn; by rewrite ?L, ?C.
Qed.

Lemma update_failure upd s ctx s' e :
  ExecuteUpdate upd s ctx = (s', Err e) ->
  unchanged s s' \/ exists stats, ExecuteUpdate (update_only upd) s ctx = (s', Ok (stats, None)).
Proof.
  unfold ExecuteUpdate. intros E.
  apply on_store_Err in E as [->|(? & G & E)]; [by left|].
  apply on_store_Err in E as [->|([[scan id] sch] & T & E)]; [by left|].
  apply on_store_Err in E as [->|([sets nested] & P & E)]; [by left|].
  apply on_store_Err in E as [->|(by_id & B & E)]; [by left|].
  apply on_store_Err in E as [->|(rows & R & E)]; [by left|].
  apply on_store_Err in E as [->|(from_rows & F & E)]; [by left|].
  apply on_store_Err in E as [->|(outcomes & O & E)]; [by left|].
  apply on_store_Err in E as [->|(? & A & E)]; [by left|].
  apply finish_Err in E as [U|W]; [by left|]. right. cbn [fst snd] in O.
  destruct (update_rows_only _ _ _ _ _ _ _ _ _ _ O) as (os' & O' & M & L & C).
  eexists. cbn [update_only update_generated_columns update_target update_item_list update_from update_where
    update_assert update_returning].
  rewrite G. cbn [on_store]. rewrite T. cbn [on_store]. rewrite P. cbn [on_store]. rewrite B. cbn [on_store].
  rewrite R. cbn [on_store]. rewrite F. cbn [on_store fst snd].
  change (mkUpdate _ _ _ _ _ _ None) with (update_only upd). rewrite O'. cbn [on_store].
  rewrite L, M, C, A. cbn [on_store]. apply W.
Qed.

Context `{!ParameterParser}.

Definition without_returning (stmt : Statement) : Statement :=
  match stmt with
  | DeleteStatement del => DeleteStatement (delete_only del)
  | UpdateStatement upd => UpdateStatement (update_only upd)
  | _ => stmt
  end.

(** C16: a DML statement that fails leaves every table as it was, with one
    exception: the rows of an UPDATE or a DELETE are written before its THEN
    RETURN is evaluated, so when only that fails the table is what the statement
    without the clause would leave. *)
Theorem failed_dml_unchanged request stmt s s' e :
  ExecuteDml request stmt s = (s', Err e) ->
  unchanged s s' \/
  exists stats, ExecuteDml request (without_returning stmt) s = (s', Ok (stats, None)).
Proof.
  unfold ExecuteDml. intros E. apply on_store_Err in E as [->|(b & B & E)]; [by left|]. rewrite B.
  cbn [on_store]. destruct stmt as [i|u|d|m|[[i|]|]| |k]; try (injection E as <- _; by left).
  - left. by eapply insert_failure.
  - by eapply update_failure.
  - by eapply delete_failure.
  - left. by eapply merge_failure.
  - left. by eapply insert_failure.
Qed.
End dml.
