(* ===== verification/MergeProps.v ===== *)
(** * MergeProps: MERGE against its meaning row by row

    The executor correlates all rows first and then runs clause after clause
    over them, marking the rows it has acted on.  The specification looks at one
    row at a time: a target row takes the first clause that applies to it, as a
    matched or as an unmatched row; a source row without a target takes the first
    clause that inserts it. *)

From S2P Require Import Prelude Order Absl AbslReference Schema RowRestriction Storage SemanticError.
From S2P Require Import FrameStack SqlValue GoogleSqlReference Arithmetic Operators MathFuncs Casts.
From S2P Require Import EvalExpr Rows Joins SetOps Unnest AggFuncs Aggregates Analytic Scans StorageValues.
From S2P Require Import Dml DmlProps.

(** ** Lists of options *)

Definition somes {A} (l : list (option A)) : list A :=
  flat_map (fun o => match o with Some a => [a] | None => [] end) l.

Definition first_of {A} (a b : option A) : option A := match a with Some _ => a | None => b end.

(** Two lists with disjoint entries. *)
Lemma somes_merge {A} (l1 l2 : list (option A)) :
  Forall2 (fun a b => a = None \/ b = None) l1 l2 ->
  somes (zip_with first_of l1 l2) ≡ₚ somes l1 ++ somes l2.
Proof.
  induction 1 as [|a b l1 l2 D _ IH]; [done|]. cbn [zip_with].
  destruct a as [a|]; cbn.
  - destruct D as [[=]| ->]. cbn. change (a :: somes (zip_with first_of l1 l2) ≡ₚ a :: (somes l1 ++ somes l2)).
    by rewrite IH.
  - destruct b as [b|]; cbn; [|done].
    change (b :: somes (zip_with first_of l1 l2) ≡ₚ somes l1 ++ b :: somes l2).
    rewrite IH. by rewrite <- Permutation_middle.
Qed.

(** The first element of a list that satisfies a test. *)
Lemma find_app {A} (f : A -> bool) l1 l2 :
  find f (l1 ++ l2) = first_of (find f l1) (find f l2).
Proof. induction l1 as [|x l1 IH]; [done|]. cbn. by destruct (f x). Qed.

Section merge.
Context `{AbslText, AbslDouble, GoogleSqlOps, ExecutorNodes}.
Context `{!CastLibrary, !ValueText, !ExecutorParts, !ResolvedAst, !AggregateParts}.
Context (merge : MergeStmt) (sch : TableSchema) (scan : TableScanNode) (ctx : EvalContext).

(** ** The specification *)

Definition joins (source target : Row) : bool :=
  merge_condition (merge_expr merge) (set_columns ctx (MergeColumnBindings target source)).

Definition holds_on (bind : Row) (w : MergeWhen) : bool :=
  merge_condition (match_expr w) (set_columns ctx bind).

Definition is_matched (w : MergeWhen) : bool := match match_type w with MATCHED => true | _ => false end.
Definition is_unmatched_target (w : MergeWhen) : bool :=
  match match_type w with NOT_MATCHED_BY_SOURCE => true | _ => false end.
Definition is_unmatched_source (w : MergeWhen) : bool :=
  match match_type w with NOT_MATCHED_BY_TARGET => true | _ => false end.

(** The clause of a target row, with the bindings it is evaluated on: those of
    the last source row it joins, or its own. *)
Definition target_clause (clauses : list MergeWhen) (sources : list Row) (tb : Row)
    : option (MergeWhen * Row) :=
  match last (List.filter (fun src => joins src tb) sources) with
  | Some src =>
      let b := MergeColumnBindings tb src in
      option_map (fun w => (w, b)) (find (fun w => is_matched w && holds_on b w) clauses)
  | None => option_map (fun w => (w, tb)) (find (fun w => is_unmatched_target w && holds_on tb w) clauses)
  end.

(** The clause of a source row. *)
Definition source_clause (clauses : list MergeWhen) (targets : list Row) (src : Row) : option MergeWhen :=
  if existsb (joins src) targets then None
  else find (fun w => is_unmatched_source w && holds_on src w) clauses.

(** What a clause makes of a target row: [None] is deleted. *)
Definition clause_result (w : MergeWhen) (bind : Row) (row : Storage.Row) (o : option Storage.Row) : Prop :=
  match action_type w with
  | MERGE_DELETE => o = None
  | MERGE_UPDATE =>
      exists sets row', ParseMergeUpdateItems (when_update_items w) sch scan = Ok sets /\
        ApplyMergeSets row sets bind sch ctx = Ok row' /\ o = Some row'
  | MERGE_INSERT => False
  end.

Definition target_result (clauses : list MergeWhen) (sources : list Row) (tb : Row) (row : Storage.Row)
    (o : option Storage.Row) : Prop :=
  match target_clause clauses sources tb with
  | None => o = Some row
  | Some (w, bind) => clause_result w bind row o
  end.

Definition source_result (clauses : list MergeWhen) (targets : list Row) (src : Row)
    (o : option Storage.Row) : Prop :=
  match source_clause clauses targets src with
  | None => o = None
  | Some w => exists row, merge_insert_row w sch (set_columns ctx src) = Ok row /\ o = Some row
  end.

(** ** Correlation *)

Definition correlated (sources : list Row) (t : TargetMergeState) : TargetMergeState :=
  let ms := List.filter (fun src => joins src (target_bind t)) sources in
  mkTargetState (target_bind t) (target_row t) (has_source_match t || negb (length ms =? 0))
    (match_count t + Z.of_nat (length ms))
    (match last ms with Some src => MergeColumnBindings (target_bind t) src | None => matched_bind t end)
    (target_acted t) (deleted t).

Lemma correlated_cons src sources t :
  correlated (src :: sources) t = correlated sources (snd (correlate_target merge src ctx t)).
Proof.
  unfold correlated, correlate_target. cbn [List.filter].
  change (merge_condition _ _) with (joins src (target_bind t)).
  destruct (joins src (target_bind t)); [|done]. cbn [snd target_bind target_row has_source_match match_count
    matched_bind target_acted deleted length]. rewrite last_cons.
  f_equal.
  - by rewrite orb_true_r.
  - lia.
  - by destruct (last _).
Qed.

Lemma correlate_spec targets sources :
  CorrelateMergeTargetsAndSources merge targets sources ctx =
  (map (correlated (map source_bind sources)) targets,
   map (fun src => mkSourceState (source_bind src)
          (has_target_match src || existsb (joins (source_bind src)) (map target_bind targets))
          (source_acted src)) sources).
Proof.
  revert targets. induction sources as [|src sources IH]; intros targets; cbn [CorrelateMergeTargetsAndSources].
  { f_equal. symmetry. erewrite map_ext; [apply map_id|]. intros []. unfold correlated. cbn. f_equal; [by rewrite orb_false_r|lia]. }
  rewrite IH. cbn [map]. rewrite map_map. f_equal; [|f_equal].
  - rewrite map_map. apply map_ext. intros t. by rewrite correlated_cons.
  - f_equal. f_equal. induction targets as [|t targets IHt]; [done|]. cbn. rewrite IHt. f_equal.
    unfold correlate_target. by change (merge_condition _ _) with (joins (source_bind src) (target_bind t)); destruct (joins _ _).
  - apply map_ext. intros s. f_equal. f_equal. induction targets as [|t targets IHt]; [done|]. cbn. rewrite IHt.
    f_equal. unfold correlate_target. by destruct (merge_condition _ _).
Qed.

(** ** Clauses over targets *)

Definition idle (st : TargetMergeState) : bool := negb (target_acted st) && negb (deleted st).

Definition state_bind (st : TargetMergeState) : Row :=
  if has_source_match st then matched_bind st else target_bind st.

(** The clause is for the kind of row the target is, and its condition holds. *)
Definition applies_to (st : TargetMergeState) (w : MergeWhen) : bool :=
  (if has_source_match st then is_matched w else is_unmatched_target w) && holds_on (state_bind st) w.

Definition finished (st : TargetMergeState) (o : option Storage.Row) : TargetMergeState :=
  mkTargetState (target_bind st) (default (target_row st) o) (has_source_match st) (match_count st)
    (matched_bind st) true (match o with None => true | Some _ => deleted st end).

Definition stepped (clauses : list MergeWhen) (st st' : TargetMergeState) : Prop :=
  match (if idle st then find (applies_to st) clauses else None) with
  | None => st' = st
  | Some w => exists o, clause_result w (state_bind st) (target_row st) o /\ st' = finished st o
  end.

Lemma stepped_cons w clauses st st1 st2 :
  stepped [w] st st1 -> stepped clauses st1 st2 -> stepped (w :: clauses) st st2.
Proof.
  unfold stepped. cbn [find]. destruct (idle st) eqn:I; [|intros ->; by rewrite I].
  destruct (applies_to st w); [|intros ->; by rewrite I].
  intros (o & C & ->). unfold idle, finished at 1. cbn. intros ->. by exists o.
Qed.

Definition dels (l : list TargetMergeState) : Z := Z.of_nat (length (List.filter deleted l)).
Definition upds (l : list TargetMergeState) : Z :=
  Z.of_nat (length (List.filter (fun st => target_acted st && negb (deleted st)) l)).

(** The counts grow by the rows a clause deleted and updated. *)
Definition counted (stats stats' : DmlStats) (l l' : list TargetMergeState) : Prop :=
  inserted_row_count stats' = inserted_row_count stats /\
  (updated_row_count stats' = updated_row_count stats + (upds l' - upds l))%Z /\
  (deleted_row_count stats' = deleted_row_count stats + (dels l' - dels l))%Z.

Lemma act_on_target_spec w bind msg st stats st' stats' :
  act_on_target w sch scan bind msg st stats ctx = Ok (st', stats') -> idle st = true ->
  (exists o, clause_result w bind (target_row st) o /\ st' = finished st o) /\
  counted stats stats' [st] [st'].
Proof.
  unfold act_on_target, clause_result, counted, idle. intros E I. apply andb_true_iff in I as [A D].
  apply negb_true_iff in A, D. destruct (action_type w); [done| |].
  - apply bind_Ok in E as (sets & P & E). apply bind_Ok in E as (row & R & E). injection E as <- <-.
    split; [exists (Some row); split; [by exists sets, row|done]|].
    unfold upds, dels. cbn. rewrite A, D. cbn. split; [done|]. split; lia.
  - injection E as <- <-. split; [by exists None|]. unfold upds, dels. cbn. rewrite A, D. cbn.
    split; [done|]. split; lia.
Qed.

Lemma upds_cons st l : (upds (st :: l) = upds [st] + upds l)%Z.
Proof. unfold upds. cbn. destruct (target_acted st && negb (deleted st)); cbn; lia. Qed.

Lemma dels_cons st l : (dels (st :: l) = dels [st] + dels l)%Z.
Proof. unfold dels. cbn. destruct (deleted st); cbn; lia. Qed.

Lemma counted_cons stats stats1 stats' st st' l l' :
  counted stats stats1 [st] [st'] -> counted stats1 stats' l l' -> counted stats stats' (st :: l) (st' :: l').
Proof.
  unfold counted. rewrite (upds_cons st l), (upds_cons st' l'), (dels_cons st l), (dels_cons st' l').
  intros (? & ? & ?) (? & ? & ?). split; [congruence|]. split; lia.
Qed.

Lemma counted_refl stats l : counted stats stats l l.
Proof. unfold counted. split; [done|]. split; lia. Qed.

Lemma act_on_targets_spec applies bind_of msg w targets stats targets' stats' :
  (forall st, applies st && holds_on (bind_of st) w = applies_to st w) ->
  (forall st, applies st = true -> bind_of st = state_bind st) ->
  act_on_targets applies bind_of msg w sch scan targets stats ctx = Ok (targets', stats') ->
  Forall2 (stepped [w]) targets targets' /\ counted stats stats' targets targets'.
Proof.
  intros Ap Bi. revert stats targets' stats'.
  induction targets as [|st targets IH]; intros stats targets' stats' E; cbn [act_on_targets] in E.
  { injection E as <- <-. split; [constructor|apply counted_refl]. }
  apply bind_Ok in E as ([st' stats1] & E1 & E). apply bind_Ok in E as ([rest stats2] & E2 & E).
  injection E as <- <-. apply IH in E2 as [F C]. cbn [fst snd] in *.
  change (merge_condition _ _) with (holds_on (bind_of st) w) in E1.
  specialize (Ap st). specialize (Bi st). unfold stepped at 1. unfold idle. cbn [find].
  destruct (target_acted st) eqn:A; [|destruct (deleted st) eqn:D]; cbn [negb andb];
    rewrite ?andb_false_r, ?andb_true_r in E1; cbn in E1.
  - injection E1 as <- <-. split; [by constructor; [unfold stepped, idle; rewrite A|]|].
    eapply counted_cons; [apply counted_refl|done].
  - injection E1 as <- <-. split; [by constructor; [unfold stepped, idle; rewrite A, D|]|].
    eapply counted_cons; [apply counted_refl|done].
  - rewrite Ap in E1. destruct (applies_to st w) eqn:W.
    + apply act_on_target_spec in E1 as [Ex Co]; [|unfold idle; by rewrite A, D].
      apply andb_true_iff in Ap as [Ap _]. rewrite (Bi Ap) in Ex. split; [|by eapply counted_cons].
      constructor; [|done]. unfold stepped, idle. cbn [find]. by rewrite A, D, W.
    + injection E1 as <- <-. split; [|by eapply counted_cons; [apply counted_refl|]].
      constructor; [|done]. unfold stepped, idle. cbn [find]. by rewrite A, D, W.
Qed.

(** A clause for source rows does not touch the targets. *)
Lemma unmatched_source_stepped w targets :
  is_unmatched_source w = true -> Forall2 (stepped [w]) targets targets.
Proof.
  intros U. induction targets as [|st targets IH]; constructor; [|done]. unfold stepped, applies_to, is_matched,
    is_unmatched_target, is_unmatched_source in *. cbn [find]. destruct (match_type w); try done.
  by destruct (idle st), (has_source_match st).
Qed.

(** ** Clauses over sources *)

Definition source_idle (src : SourceMergeState) : bool :=
  negb (has_target_match src) && negb (source_acted src).

Definition source_step (clauses : list MergeWhen) (src src' : SourceMergeState) (o : option Storage.Row) : Prop :=
  match (if source_idle src then find (fun w => is_unmatched_source w && holds_on (source_bind src) w) clauses
         else None) with
  | None => src' = src /\ o = None
  | Some w => exists row, merge_insert_row w sch (set_columns ctx (source_bind src)) = Ok row /\ o = Some row /\
                src' = mkSourceState (source_bind src) (has_target_match src) true
  end.

Lemma source_step_cons w clauses src src1 src2 o1 o2 :
  source_step [w] src src1 o1 -> source_step clauses src1 src2 o2 ->
  source_step (w :: clauses) src src2 (first_of o1 o2) /\ (o1 = None \/ o2 = None).
Proof.
  unfold source_step. cbn [find]. destruct (source_idle src) eqn:I.
  - destruct (is_unmatched_source w && holds_on (source_bind src) w).
    + intros (row & R & -> & ->). unfold source_idle. cbn. rewrite andb_false_r. intros [-> ->].
      split; [by exists row|by right].
    + intros [-> ->]. rewrite I. intros E. split; [done|by left].
  - intros [-> ->]. rewrite I. intros [-> ->]. split; [done|by left].
Qed.

Lemma source_steps_cons w clauses l l1 l2 os1 os2 :
  Forall3 (source_step [w]) l l1 os1 -> Forall3 (source_step clauses) l1 l2 os2 ->
  Forall3 (source_step (w :: clauses)) l l2 (zip_with first_of os1 os2) /\
  Forall2 (fun a b => a = None \/ b = None) os1 os2.
Proof.
  intros F1. revert l2 os2. induction F1 as [|src src1 o1 l l1 os1 E1 _ IH]; intros l2 os2 F2;
    inversion F2 as [|? src2 o2 ? ? ? E2 F2']; subst; [by repeat constructor|].
  destruct (source_step_cons _ _ _ _ _ _ _ E1 E2) as [E D]. destruct (IH _ _ F2') as [F Ds].
  by split; constructor.
Qed.

Lemma source_idle_steps w sources :
  is_unmatched_source w = false ->
  exists os, Forall3 (source_step [w]) sources sources os /\ somes os = [].
Proof.
  intros U. induction sources as [|src sources (os & F & S)]; [by exists []; split; [constructor|]|].
  exists (None :: os). split; [|done]. constructor; [|done]. unfold source_step. cbn [find]. rewrite U.
  by destruct (source_idle src).
Qed.

Lemma not_matched_by_target_spec w sources inserts stats sources' inserts' stats' :
  is_unmatched_source w = true ->
  ApplyNotMatchedByTargetMergeWhen w sch sources inserts stats ctx = Ok (sources', inserts', stats') ->
  exists os, Forall3 (source_step [w]) sources sources' os /\ inserts' = inserts ++ somes os /\
    inserted_row_count stats' = (inserted_row_count stats + Z.of_nat (length (somes os)))%Z /\
    updated_row_count stats' = updated_row_count stats /\ deleted_row_count stats' = deleted_row_count stats.
Proof.
  intros U. revert inserts stats sources' inserts' stats'.
  induction sources as [|src sources IH]; intros inserts stats sources' inserts' stats' E;
    cbn [ApplyNotMatchedByTargetMergeWhen] in E.
  { injection E as <- <- <-. exists []. split; [constructor|]. rewrite app_nil_r. cbn. repeat split; lia. }
  change (merge_condition _ _) with (holds_on (source_bind src) w) in E.
  destruct (negb (has_target_match src) && negb (source_acted src) && holds_on (source_bind src) w) eqn:A.
  - apply bind_Ok in E as (built & B & E). apply bind_Ok in E as ([[rest ins] st] & E1 & E).
    injection E as <- <- <-. apply IH in E1 as (os & F & -> & I & Up & De). apply andb_true_iff in A as [A Ho].
    exists (Some built :: os). split.
    + constructor; [|done]. unfold source_step, source_idle. cbn [find]. rewrite A, U, Ho. by exists built.
    + unfold count_inserted in *. cbn in *. rewrite <- app_assoc. split; [done|]. split; [|done].
      unfold somes in I |- *. cbn. lia.
  - apply bind_Ok in E as ([[rest ins] st] & E1 & E). injection E as <- <- <-.
    apply IH in E1 as (os & F & -> & Co). exists (None :: os). split; [|done]. constructor; [|done].
    unfold source_step, source_idle. cbn [find]. rewrite U. cbn [andb].
    destruct (negb (has_target_match src) && negb (source_acted src)); [|done].
    cbn [andb] in A. by rewrite A.
Qed.

(** ** All clauses *)

Definition tallied (ms : MergeState) : Prop :=
  ms_stats ms = mkStats (Z.of_nat (length (ms_inserts ms))) (upds (ms_targets ms)) (dels (ms_targets ms)).

Definition clause_step (clauses : list MergeWhen) (ms ms' : MergeState) : Prop :=
  exists os, Forall2 (stepped clauses) (ms_targets ms) (ms_targets ms') /\
    Forall3 (source_step clauses) (ms_sources ms) (ms_sources ms') os /\
    ms_inserts ms' ≡ₚ ms_inserts ms ++ somes os /\ (tallied ms -> tallied ms').

Lemma tallied_targets stats stats' targets targets' sources inserts :
  counted stats stats' targets targets' ->
  tallied (mkMergeState targets sources inserts stats) -> tallied (mkMergeState targets' sources inserts stats').
Proof.
  unfold tallied, counted. cbn. intros (I & U & D) ->. cbn in *. destruct stats'. cbn in *.
  f_equal; [done|lia|lia].
Qed.

Lemma targets_step w ms r :
  is_unmatched_source w = false ->
  Forall2 (stepped [w]) (ms_targets ms) r.1 /\ counted (ms_stats ms) r.2 (ms_targets ms) r.1 ->
  clause_step [w] ms (mkMergeState r.1 (ms_sources ms) (ms_inserts ms) r.2).
Proof.
  intros U [F C]. destruct (source_idle_steps w (ms_sources ms) U) as (os & Fs & So).
  exists os. split; [done|]. split; [done|]. split; [by rewrite So, app_nil_r|]. destruct ms. by apply tallied_targets.
Qed.

Lemma one_clause w ms ms' :
  match match_type w with
  | MATCHED =>
      r ← ApplyMatchedMergeWhen w sch scan (ms_targets ms) (ms_stats ms) ctx;
      Ok (mkMergeState r.1 (ms_sources ms) (ms_inserts ms) r.2)
  | NOT_MATCHED_BY_TARGET =>
      r ← ApplyNotMatchedByTargetMergeWhen w sch (ms_sources ms) (ms_inserts ms) (ms_stats ms) ctx;
      Ok (mkMergeState (ms_targets ms) r.1.1 r.1.2 r.2)
  | NOT_MATCHED_BY_SOURCE =>
      r ← ApplyNotMatchedBySourceMergeWhen w sch scan (ms_targets ms) (ms_stats ms) ctx;
      Ok (mkMergeState r.1 (ms_sources ms) (ms_inserts ms) r.2)
  end = Ok ms' -> clause_step [w] ms ms'.
Proof.
  destruct (match_type w) eqn:T; intros E; apply bind_Ok in E as (r & E & [= <-]).
  - apply targets_step; [by unfold is_unmatched_source; rewrite T|]. destruct r as [targets stats].
    eapply act_on_targets_spec; [| |exact E]; intros st; unfold applies_to, state_bind, is_matched, is_unmatched_target;
      rewrite ?T; by destruct (has_source_match st).
  - apply targets_step; [by unfold is_unmatched_source; rewrite T|]. destruct r as [targets stats].
    eapply act_on_targets_spec; [| |exact E]; intros st; unfold applies_to, state_bind, is_matched, is_unmatched_target;
      rewrite ?T; by destruct (has_source_match st).
  - assert (is_unmatched_source w = true) as U by (unfold is_unmatched_source; by rewrite T).
    destruct r as [[sources inserts] stats]. apply not_matched_by_target_spec in E as (os & F & -> & I & Up & De); [|done].
    exists os. split; [by apply unmatched_source_stepped|]. split; [done|]. split; [done|].
    unfold tallied. cbn. intros Ta. rewrite Ta in I, Up, De. cbn in *. rewrite length_app.
    destruct stats. cbn in *. f_equal; [lia|done|done].
Qed.

Lemma Forall2_stepped_cons w clauses l l1 l2 :
  Forall2 (stepped [w]) l l1 -> Forall2 (stepped clauses) l1 l2 -> Forall2 (stepped (w :: clauses)) l l2.
Proof.
  intros F1. revert l2. induction F1 as [|st st1 l l1 E1 _ IH]; intros l2 F2;
    inversion F2 as [|? st2 ? ? E2 F2']; subst; constructor; [by eapply stepped_cons|by apply IH].
Qed.

Lemma no_clause_sources sources : exists os, Forall3 (source_step []) sources sources os /\ somes os = [].
Proof.
  induction sources as [|src sources (os & F & S)]; [by exists []; split; [constructor|]|].
  exists (None :: os). split; [|done]. constructor; [|done]. unfold source_step. by destruct (source_idle src).
Qed.

Lemma all_clauses clauses ms ms' :
  ApplyMergeWhenClauses clauses sch scan ms ctx = Ok ms' ->
  exists ws, clauses = map Some ws /\ clause_step ws ms ms'.
Proof.
  revert ms. induction clauses as [|[w|] clauses IH]; intros ms E; cbn [ApplyMergeWhenClauses] in E.
  - injection E as <-. exists []. split; [done|]. destruct (no_clause_sources (ms_sources ms)) as (os & F & So).
    exists os. split; [|by rewrite So, app_nil_r]. induction (ms_targets ms) as [|st l IHl]; constructor; [|done].
    unfold stepped. by destruct (idle st).
  - apply bind_Ok in E as (ms1 & E1 & E). apply one_clause in E1 as (os1 & Ft1 & Fs1 & P1 & T1).
    apply IH in E as (ws & -> & os2 & Ft2 & Fs2 & P2 & T2). exists (w :: ws). split; [done|].
    destruct (source_steps_cons _ _ _ _ _ _ _ Fs1 Fs2) as [Fs D].
    exists (zip_with first_of os1 os2). split; [by eapply Forall2_stepped_cons|]. split; [done|]. split; [|auto].
    rewrite P2, P1, <- app_assoc. by rewrite (somes_merge os1 os2 D).
  - done.
Qed.
End merge.

Section merge_theorem.
Context `{AbslText, AbslDouble, GoogleSqlOps, ExecutorNodes}.
Context `{!CastLibrary, !ValueText, !ExecutorParts, !ResolvedAst, !AggregateParts}.

(** A target before the clauses, and the row it becomes. *)
Definition fresh_target (tb : Row) (row : Storage.Row) : TargetMergeState :=
  mkTargetState tb row false 0 ∅ false false.

Definition row_after (st : TargetMergeState) : option Storage.Row :=
  if deleted st then None else Some (target_row st).

Definition gone (o : option Storage.Row) : bool := match o with None => true | Some _ => false end.

(** The target takes an UPDATE. *)
Definition updates (merge : MergeStmt) (ctx : EvalContext) (clauses : list MergeWhen) (sources : list Row)
    (tb : Row) : bool :=
  match target_clause merge ctx clauses sources tb with
  | Some (w, _) => match action_type w with MERGE_UPDATE => true | _ => false end
  | None => false
  end.

Lemma find_ext {A} (f g : A -> bool) l : (forall x, f x = g x) -> find f l = find g l.
Proof. intros E. induction l as [|x l IH]; [done|]. cbn. by rewrite E, IH. Qed.

(** The clause the executor finds for a correlated target is the specified one. *)
Lemma correlated_clause merge ctx clauses sources tb row :
  let st := correlated merge ctx sources (fresh_target tb row) in
  target_clause merge ctx clauses sources tb =
  option_map (fun w => (w, state_bind st)) (find (applies_to ctx st) clauses).
Proof.
  unfold target_clause, correlated, applies_to, state_bind. cbn [fresh_target target_bind has_source_match orb matched_bind].
  destruct (List.filter (fun src => joins merge ctx src tb) sources) as [|x ms] eqn:F; [done|].
  cbn [length Nat.eqb negb]. rewrite last_cons. by destruct (last ms).
Qed.

Lemma stepped_result merge sch scan ctx clauses sources tb row st' :
  stepped sch scan ctx clauses (correlated merge ctx sources (fresh_target tb row)) st' ->
  target_result merge sch scan ctx clauses sources tb row (row_after st') /\
  target_acted st' && negb (deleted st') = updates merge ctx clauses sources tb.
Proof.
  unfold stepped, target_result, updates. change (idle _) with true. cbn iota.
  rewrite (correlated_clause merge ctx clauses sources tb row).
  destruct (find _ clauses) as [w|]; cbn [option_map].
  - intros (o & C & ->). cbn [target_row correlated fresh_target] in C. unfold row_after, finished. cbn.
    unfold clause_result in C |- *. destruct (action_type w); [done| |by subst o].
    destruct C as (sets & row' & P & A & ->). cbn. split; [by exists sets, row'|done].
  - by intros ->.
Qed.

Lemma source_step_result merge sch ctx clauses targets src src' o :
  source_step sch ctx clauses (mkSourceState src (existsb (joins merge ctx src) targets) false) src' o ->
  source_result merge sch ctx clauses targets src o.
Proof.
  unfold source_step, source_result, source_clause, source_idle. cbn. destruct (existsb _ targets); cbn.
  - by intros [_ ->].
  - destruct (find _ clauses); [|by intros [_ ->]]. intros (row & R & -> & _). by exists row.
Qed.

Lemma final_rows targets inserts :
  BuildMergeFinalRows targets inserts = somes (map row_after targets) ++ inserts.
Proof.
  unfold BuildMergeFinalRows. f_equal. induction targets as [|st targets IH]; [done|]. cbn.
  unfold row_after at 1. destruct (deleted st); cbn; by rewrite IH.
Qed.

Lemma dels_nones targets :
  dels targets = Z.of_nat (length (List.filter gone (map row_after targets))).
Proof.
  unfold dels. f_equal. induction targets as [|st targets IH]; [done|]. cbn. unfold row_after at 1.
  by destruct (deleted st); cbn; rewrite IH.
Qed.

Lemma targets_results merge sch scan ctx clauses sources tbs rows ts :
  length rows = length tbs ->
  Forall2 (stepped sch scan ctx clauses) (map (correlated merge ctx sources) (zip_with fresh_target tbs rows)) ts ->
  Forall3 (target_result merge sch scan ctx clauses sources) tbs rows (map row_after ts) /\
  upds ts = Z.of_nat (length (List.filter (updates merge ctx clauses sources) tbs)).
Proof.
  revert rows ts. induction tbs as [|tb tbs IH]; intros [|row rows] ts L Ft; try done; cbn [zip_with map] in Ft;
    inversion Ft as [|? st' ? ts' S1 Ft']; subst.
  { by split; [constructor|]. }
  apply stepped_result in S1 as [S1 U1]. destruct (IH rows ts') as [Fr U2]; [by injection L|done|].
  split; [by constructor|]. unfold upds in *. cbn [List.filter]. rewrite U1.
  destruct (updates _ _ _ _ tb); cbn [length]; lia.
Qed.

Lemma sources_results merge sch ctx clauses tbs sources ss os :
  Forall3 (source_step sch ctx clauses)
    (map (fun x => mkSourceState x (existsb (joins merge ctx x) tbs) false) sources) ss os ->
  Forall2 (source_result merge sch ctx clauses tbs) sources os.
Proof.
  revert ss os. induction sources as [|x sources IH]; cbn [map]; intros ss os Fs;
    inversion Fs as [|? ? ? ? ? ? S1 Fs']; subst; [constructor|].
  constructor; [by eapply source_step_result|by eapply IH].
Qed.

Lemma single_matches merge ctx sources tbs rows :
  length rows = length tbs ->
  CheckMatchedTargetMultiMatch merge (map (correlated merge ctx sources) (zip_with fresh_target tbs rows)) = Ok () ->
  matched_mutates merge = true ->
  Forall (fun tb => length (List.filter (fun src => joins merge ctx src tb) sources) <= 1) tbs.
Proof.
  unfold CheckMatchedTargetMultiMatch. intros L Mu Mm. rewrite Mm in Mu. cbn [andb] in Mu.
  destruct (existsb _ _) eqn:X in Mu; [done|]. clear Mu. revert rows L X.
  induction tbs as [|tb tbs IH]; intros [|row rows] L X; try done.
  cbn in X. apply orb_false_iff in X as [X1 X2]. apply Z.ltb_ge in X1.
  constructor; [lia|]. apply (IH rows); [by injection L|done].
Qed.

Lemma fresh_tallied merge ctx sources ss tbs rows :
  length rows = length tbs ->
  tallied (mkMergeState (map (correlated merge ctx sources) (zip_with fresh_target tbs rows)) ss [] no_stats).
Proof.
  intros L. unfold tallied. cbn. unfold no_stats.
  assert (forall f, (forall tb row, f (correlated merge ctx sources (fresh_target tb row)) = false) ->
    List.filter f (map (correlated merge ctx sources) (zip_with fresh_target tbs rows)) = []) as N.
  { intros f Nf. clear L. revert rows. induction tbs as [|tb tbs IH]; intros [|row rows]; try done. cbn. by rewrite Nf, IH. }
  unfold upds, dels. by rewrite !N.
Qed.

Context {S : Type} `{RewritableStorageLaws S}.

Lemma load_participants merge s sch by_id scan id ctx targets sources :
  LoadMergeParticipants merge s sch by_id scan id ctx = Ok (targets, sources) ->
  exists source_rows tbs,
    MaterializeScanImpl (merge_from merge) ctx = Ok source_rows /\
    Forall2 (fun row tb => BindRow row scan by_id sch = Ok tb) (contents s id) tbs /\
    targets = zip_with fresh_target tbs (contents s id) /\
    sources = map (fun b => mkSourceState b false false) source_rows.
Proof.
  unfold LoadMergeParticipants. intros E. apply bind_Ok in E as (rows & R & E). apply scan_all_rows in R as ->.
  apply bind_Ok in E as (source_rows & M & E). apply bind_Ok in E as (ts & T & E). injection E as <- <-.
  apply mapM_Forall2 in T.
  assert (exists tbs, Forall2 (fun row tb => BindRow row scan by_id sch = Ok tb) (contents s id) tbs /\
            ts = zip_with fresh_target tbs (contents s id)) as (tbs & F & ->); [|by exists source_rows, tbs].
  induction T as [|row t rows ts E _ (tbs & F & ->)]; [by exists []|].
  apply bind_Ok in E as (tb & B & [= <-]). exists (tb :: tbs). by split; [constructor|].
Qed.

(** C12: a MERGE that succeeds gives every target row the first WHEN clause that
    applies to it, as a row that joins a source or as one that joins none, and
    appends the rows the first applying clause inserts for the sources that join
    no target; the table becomes the surviving targets in order, then the inserted
    rows; when a clause updates or deletes matched rows no target joins two
    sources.  The counts are the numbers of rows deleted, updated and inserted. *)
Theorem merge_exact merge s ctx s' stats src scan id sch :
  StorageTargetFor (merge_target merge) $"MERGE" = Ok (scan, id, sch) ->
  ExecuteMerge merge s ctx = (s', Ok (stats, src)) ->
  exists by_id clauses sources tbs after os inserts,
    BuildColumnIndexByColumnId scan sch = Ok by_id /\ when_clause_list merge = map Some clauses /\
    MaterializeScanImpl (merge_from merge) ctx = Ok sources /\
    Forall2 (fun row tb => BindRow row scan by_id sch = Ok tb) (contents s id) tbs /\
    Forall3 (target_result merge sch scan ctx clauses sources) tbs (contents s id) after /\
    Forall2 (source_result merge sch ctx clauses tbs) sources os /\ inserts ≡ₚ somes os /\
    (matched_mutates merge = true ->
     Forall (fun tb => length (List.filter (fun src => joins merge ctx src tb) sources) <= 1) tbs) /\
    rewritten_to s s' id (somes after ++ inserts) /\
    stats = mkStats (Z.of_nat (length inserts))
              (Z.of_nat (length (List.filter (updates merge ctx clauses sources) tbs)))
              (Z.of_nat (length (List.filter gone after))).
Proof.
  intros T E. unfold ExecuteMerge in E. rewrite T in E. apply on_store_Ok in E as (? & [= <-] & E).
  apply on_store_Ok in E as (by_id & B & E). apply on_store_Ok in E as ([targets srcs] & L & E).
  apply load_participants in L as (sources & tbs & M & F & -> & ->). cbn [fst snd] in E.
  rewrite correlate_spec in E. rewrite !map_map in E. cbn [source_bind has_target_match source_acted orb] in E.
  rewrite map_id in E. apply on_store_Ok in E as ([] & Mu & E). apply on_store_Ok in E as (ms & A & E).
  apply after_write_Ok in E as (s1 & W & [= <- <- <-]). apply overwrite_rewrites in W.
  apply all_clauses in A as (clauses & Cl & os & Ft & Fs & P & Ta). cbn [ms_targets ms_sources ms_inserts] in *.
  assert (map target_bind (zip_with fresh_target tbs (contents s id)) = tbs) as Tb.
  { clear -F. induction F as [|row tb rows tbs E _ IH]; [done|]. cbn. by rewrite IH. }
  rewrite Tb in Fs.
  exists by_id, clauses, sources, tbs, (map row_after (ms_targets ms)), os, (ms_inserts ms).
  rewrite final_rows in W. repeat (split; [done|]).
  destruct (targets_results _ _ _ _ _ _ _ _ _ (Forall2_length _ _ _ F) Ft) as [R U].
  split; [exact R|]. split; [by eapply sources_results|]. split; [done|]. split; [by eapply single_matches; [apply (Forall2_length _ _ _ F)|]|].
  split; [done|]. rewrite Ta, U, dels_nones; [done|]. by apply fresh_tallied, (Forall2_length _ _ _ F).
Qed.
End merge_theorem.
