(* ===== verification/DmlExamples.v ===== *)
(** * DmlExamples: the theorems of the DML executor on concrete statements

    Closed instances over a store with one table, computed with the reference
    instances. *)

From S2P Require Import Prelude Order Absl AbslReference Schema RowRestriction Storage SemanticError.
From S2P Require Import FrameStack SqlValue GoogleSqlReference Arithmetic Operators MathFuncs Casts.
From S2P Require Import EvalExpr EvalReference Rows Joins SetOps Unnest AggFuncs Aggregates Analytic.
From S2P Require Import Scans StorageValues Dml DmlProps MergeProps QueryExamples.
Import Reference EvalReference.EvalReference.

(** ** The instances *)

#[export] Instance reference_text : ValueText := {|
  ToCivilDay d := (1970, 1, d + 1)%Z;
  ToCivilSecond micros := (1970, 1, 1, 0, 0, micros / 1000000)%Z;
  time_DebugString t := StrInt t;
  datetime_DebugString t := StrInt t;
  interval_ToString i := StrInt i.2;
  uuid_ToString u := Ok (StrInt u);
  GeographyWkt g := g;
  GetSQLLiteral _ := $"literal";
  TypeName _ := $"RANGE<DATE>";
|}.

#[export] Instance reference_decimal_text : DecimalTextLaws.
Proof.
  split; intros n; cbn [numeric_ToString bignumeric_ToString reference_casts]; unfold StrInt; cbn;
    by rewrite ref_integer_StrInt.
Qed.

#[export] Instance reference_parameters : ParameterParser := fun json _ _ => Ok (SString json).

(** ** Cells *)

Definition pair_column : ColumnSchema :=
  Schema.mkColumn $"p" kStruct kNullable [] [] [Schema.mkColumn $"a" kInt64 kNullable [] [] [];
                                         Schema.mkColumn $"b" kString kRepeated [] [] []].

Definition pair_type : SqlType := TStruct [($"a", TInt64); ($"b", TArray TString)].

Definition pair_value : Value :=
  SStruct [($"a", TInt64); ($"b", TArray TString)] [SInt64 1; SArray TString [SString $"x"; SNull TString]].

Lemma cell_value_reads_back_witness : reads_back pair_value pair_type pair_column.
Proof.
  destruct (cell_value_reads_back pair_value pair_type pair_column eq_refl) as [R _]. apply R. reflexivity.
Defined.

(** ** Statements *)

Definition t_id : TableId := mkTableId $"p" $"d" $"t".

Definition t_schema : TableSchema :=
  mkTableSchema [Schema.mkColumn $"k" kInt64 kNullable [] [] []; Schema.mkColumn $"v" kString kNullable [] [] []].

Definition t_rows : list Storage.Row :=
  [mkRow [VInt64 1; VString $"a"]; mkRow [VInt64 2; VString $"b"]; mkRow [VNull; VString $"n"]].

(** A store with this table only. *)
Record shelf := mkShelf { shelf_rows : list Storage.Row }.

Definition on_shelf {A} (id : TableId) (a : A) : StatusOr A :=
  if decide (id = t_id) then Ok a else Err (NotFoundError $"table").

Definition put (s : shelf) (id : TableId) (rows : list Storage.Row) : shelf * StatusOr unit :=
  match on_shelf id () with Ok _ => (mkShelf rows, Ok ()) | Err e => (s, Err e) end.

#[export] Instance shelf_storage : Storage shelf := {
  GetSchema _ id := on_shelf id t_schema;
  AppendRows s id rows := put s id (shelf_rows s ++ rows);
  CountRows s id := on_shelf id (Z.of_nat (length (shelf_rows s)));
  CreateReadStream s id f :=
    match where_sql f, equality_predicate f, selected_fields f with
    | None, None, [] => on_shelf id (mkIterator (filter_rows f (shelf_rows s)) None)
    | _, _, _ => Err (UnimplementedError $"predicate")
    end;
}.

#[export] Instance shelf_rewritable : RewritableStorage shelf := {
  ScanRows s id := on_shelf id (mkIterator (shelf_rows s) None);
  OverwriteRows := put;
}.

Definition shelf_contents (s : shelf) (id : TableId) : list Storage.Row :=
  if decide (id = t_id) then shelf_rows s else [].

#[export] Instance shelf_laws : StorageLaws shelf.
Proof.
  refine {| contents := shelf_contents; stored := fun _ r => r |}; cbn; unfold put, on_shelf, shelf_contents.
  - intros s t rows s'. case_decide; [|done]. intros [= <-]. exists t_schema. by rewrite map_id.
  - intros s t rows s' e u. case_decide; [done|]. by intros [= <- _].
  - intros s t rows s' r u. destruct (decide (t = t_id)) as [->|]; intros [= <- _] U; [|done].
    by rewrite !decide_False.
  - done.
  - intros s t n. case_decide; [|done]. by intros [= <-].
  - intros s t f it. intros E Hw He Hs _. rewrite Hw, He, Hs in E. case_decide; [|done]. by injection E as <-.
Defined.

#[export] Instance shelf_rewritable_laws : RewritableStorageLaws shelf.
Proof.
  split; cbn; unfold put, on_shelf, shelf_contents.
  - intros s t it. case_decide; [|done]. by intros [= <-].
  - intros s t rows s'. case_decide; [|done]. intros [= <-]. exists t_schema. by rewrite map_id.
  - intros s t rows s' e u. case_decide; [done|]. by intros [= <- _].
  - intros s t rows s' r u. destruct (decide (t = t_id)) as [->|]; intros [= <- _] U; [|done].
    by rewrite !decide_False.
Qed.

Definition store : shelf := mkShelf t_rows.

Definition t_scan : TableScanNode :=
  mkTableScan [k_column; v_column] (Some (mkTarget $"p.d.t" (Some (t_id, t_schema)))).

Definition is_two : ResolvedExpr := call $"$equal" [ref k_column; two] TBool.

Definition delete_two : DeleteStmt := mkDelete (Some t_scan) is_two None None.

Lemma delete_exact_witness :
  exists s', ExecuteDelete delete_two store empty_context = (s', Ok (mkStats 0 0 1, None)) /\
    contents s' t_id = [mkRow [VInt64 1; VString $"a"]; mkRow [VNull; VString $"n"]].
Proof.
  eexists. split; [vm_compute; reflexivity|].
  destruct (delete_exact delete_two store empty_context
    (mkShelf [mkRow [VInt64 1; VString $"a"]; mkRow [VNull; VString $"n"]])
    (mkStats 0 0 1) None t_scan t_id t_schema) as (by_id & B & _ & W);
    [reflexivity|vm_compute; reflexivity|].
  vm_compute. reflexivity.
Defined.

(** [UPDATE t SET v = 'z' WHERE k = 2] *)
Definition update_two : UpdateStmt :=
  mkUpdate 0 (Some t_scan)
    [Some (mkUpdateItem (ref v_column) (ELiteral (SString $"z")) None [] false)] NullScan is_two None None.

Definition t_updated : list Storage.Row :=
  [mkRow [VInt64 1; VString $"a"]; mkRow [VInt64 2; VString $"z"]; mkRow [VNull; VString $"n"]].

Lemma update_exact_witness :
  ExecuteUpdate update_two store empty_context = (mkShelf t_updated, Ok (mkStats 0 1 0, None)) /\
  exists updated, length (List.filter id updated) = 1 /\ length updated = 3.
Proof.
  assert (ExecuteUpdate update_two store empty_context = (mkShelf t_updated, Ok (mkStats 0 1 0, None))) as E
    by (vm_compute; reflexivity).
  split; [exact E|].
  destruct (update_exact update_two store empty_context (mkShelf t_updated) (mkStats 0 1 0) None
              t_scan t_id t_schema) as (by_id & sets & nested & from & rows' & updated & _ & _ & _ & F & C & _);
    [reflexivity|exact E|].
  exists updated. cbn in C. split; [apply Nat2Z.inj; symmetry; exact C|].
  assert (forall A B C (P : A -> B -> C -> Prop) l k m, Forall3 P l k m -> length m = length l) as L3
    by (clear; intros A B C P l k m; induction 1; cbn; congruence).
  rewrite (L3 _ _ _ _ _ _ _ F). reflexivity.
Defined.

(** [INSERT INTO t (v) VALUES ('q')] *)
Definition insert_q : InsertStmt :=
  mkInsert true false 0 (Some t_scan) [v_column] NullScan [] [Some [ELiteral (SString $"q")]] None None.

Lemma insert_exact_witness :
  exists s' stats vss rows, ExecuteInsert insert_q store empty_context = (s', Ok (stats, None)) /\
    supplies insert_q empty_context vss /\ Forall2 (overwrites (null_row t_schema) [1]) vss rows.
Proof.
  exists (mkShelf (t_rows ++ [mkRow [VNull; VString $"q"]])), (mkStats 1 0 0).
  destruct (insert_exact insert_q store empty_context
    (mkShelf (t_rows ++ [mkRow [VNull; VString $"q"]])) (mkStats 1 0 0) None t_scan t_id t_schema [1])
    as (vss & rows & S & F & _); [reflexivity|reflexivity|apply NoDup_singleton|vm_compute; reflexivity|].
  exists vss, rows. split; [vm_compute; reflexivity|]. split; [exact S|exact F].
Defined.

(** [DELETE FROM t WHERE k = 2 THEN RETURN 1 + 9223372036854775807]: the error
    comes after the row is gone. *)
Definition overflow_column : ResolvedColumn := column 9 $"o" TInt64.

Definition returning_overflow : ReturningClause :=
  mkReturning [Some (overflow_column, $"o")]
    [(overflow_column, call $"$add" [one; ELiteral (SInt64 int64_max)] TInt64)] None.

Definition delete_returning_overflow : DeleteStmt := mkDelete (Some t_scan) is_two None (Some returning_overflow).

Definition no_parameters : QueryRequest := mkRequest $"p" [] [] [] false.

Lemma failed_dml_unchanged_witness :
  exists s' e, ExecuteDml no_parameters (DeleteStatement delete_returning_overflow) store = (s', Err e) /\
    contents s' t_id <> contents store t_id /\
    (unchanged store s' \/
     exists stats, ExecuteDml no_parameters (DeleteStatement delete_two) store = (s', Ok (stats, None))).
Proof.
  do 2 eexists. split; [vm_compute; reflexivity|]. split; [vm_compute; discriminate|].
  apply (failed_dml_unchanged no_parameters (DeleteStatement delete_returning_overflow) store _
           (MakeSemanticError rOverflow $"Int64 overflow: 1 + 9223372036854775807")).
  vm_compute. reflexivity.
Defined.

(** [MERGE t USING numbers ON k = j WHEN MATCHED THEN DELETE WHEN NOT MATCHED
    THEN INSERT (k) VALUES (j)] *)
Definition merge_numbers : MergeStmt :=
  mkMerge (Some t_scan) numbers (call $"$equal" [ref k_column; ref j_column] TBool)
    [Some (mkMergeWhen MATCHED ENull MERGE_DELETE [] None []);
     Some (mkMergeWhen NOT_MATCHED_BY_TARGET ENull MERGE_INSERT [k_column] (Some [ref j_column]) [])].

Definition t_merged : list Storage.Row :=
  [mkRow [VInt64 1; VString $"a"]; mkRow [VNull; VString $"n"]; mkRow [VInt64 3; VNull]; mkRow [VNull; VNull]].

Lemma merge_exact_witness :
  ExecuteMerge merge_numbers store empty_context = (mkShelf t_merged, Ok (mkStats 2 0 1, None)) /\
  exists after : list (option Storage.Row), length (List.filter gone after) = 1.
Proof.
  assert (ExecuteMerge merge_numbers store empty_context = (mkShelf t_merged, Ok (mkStats 2 0 1, None))) as E
    by (vm_compute; reflexivity).
  split; [exact E|].
  destruct (merge_exact merge_numbers store empty_context (mkShelf t_merged) (mkStats 2 0 1) None
              t_scan t_id t_schema) as (by_id & clauses & sources & tbs & after & os & inserts & P);
    [reflexivity|exact E|].
  destruct P as (_ & _ & _ & _ & _ & _ & _ & _ & _ & St). exists after.
  injection St as _ _ D. apply Nat2Z.inj. symmetry. exact D.
Defined.
