(* ===== verification/SemanticExecutor.v ===== *)
(** * SemanticExecutor: statements and the entry points of the semantic executor

    Models [semantic/executor.cc], [semantic/row_source.{h,cc}],
    [semantic/system_variables.cc], [semantic/expression_column_bindings.cc] and
    the statement handlers of [semantic/script]: ASSERT, DECLARE (which arrives as
    CREATE CONSTANT) and SET.  The statements are those the analyzer resolves;
    [node_kind_string] is the name the engine prints for them. *)

From S2P Require Import Prelude Order Absl AbslReference Schema RowRestriction Storage SemanticError.
From S2P Require Import FrameStack SqlValue GoogleSqlReference Arithmetic Operators MathFuncs Casts.
From S2P Require Import EvalExpr Rows Joins SetOps Unnest AggFuncs Aggregates Analytic Scans StorageValues.
From S2P Require Import ScanProps Dml.

(** ** Resolved statements *)

Section statements.
Context `{GoogleSql, ExecutorNodes}.

(** A column of the result, by the name it is returned under. *)
Record OutputColumn := mkOutput { output_name : str; output_column : ResolvedColumn }.

Record QueryStmt := mkQuery {
  query_scan : Scan;
  query_output_list : list (option OutputColumn);
}.

Record AssertStmt := mkAssert { assert_expression : ResolvedExpr; assert_description : str }.
Record CreateConstantStmt := mkCreateConstant { constant_name_path : list str; constant_expr : ResolvedExpr }.
Record AssignmentStmt := mkAssignment { assign_target : ResolvedExpr; assign_expr : ResolvedExpr }.

(** [StoredSQLProcedure] of [catalog/stored_procedure.cc]. *)
Record StoredSQLProcedure := mkProcedure {
  proc_name_path : list str;
  proc_signature : list (option SqlType);
  argument_name_list : list str;
  procedure_body : str;
}.

(** [Procedure::Name()] is the last name of the path. *)
Definition proc_Name (p : StoredSQLProcedure) : str := List.last (proc_name_path p) [].

(** The procedure of a CALL: its name, and the stored procedure when the object
    the catalog returned is one. *)
Record CallStmt := mkCall {
  call_procedure : option (str * option StoredSQLProcedure);
  call_signature : list (option SqlType);
  call_arguments : list ResolvedExpr;
}.

Inductive DdlStatement :=
| CreateTable
| CreateTableAsSelect
| CreateView
| CreateFunction
| CreateTableFunction
| CreateModel
| CreateProcedure (p : StoredSQLProcedure).

Inductive ResolvedStatement :=
| RQuery (q : QueryStmt)
| RDml (s : Statement)
| RAssert (s : AssertStmt)
| RCreateConstant (s : CreateConstantStmt)
| RAssignment (s : AssignmentStmt)
| RCall (s : CallStmt)
| RExecuteImmediate (sql : ResolvedExpr)
| RDdl (s : DdlStatement)
| RMulti (statement_list : list (option ResolvedStatement))
| ROther (kind : str).

Definition dml_kind_string (s : Statement) : str :=
  match s with
  | InsertStatement _ => $"InsertStmt"
  | UpdateStatement _ => $"UpdateStmt"
  | DeleteStatement _ => $"DeleteStmt"
  | MergeStatement _ => $"MergeStmt"
  | GeneralizedQuery _ => $"GeneralizedQueryStmt"
  | TruncateStatement _ => $"TruncateStmt"
  | OtherStatement kind => kind
  end.

Definition ddl_kind_string (s : DdlStatement) : str :=
  match s with
  | CreateTable => $"CreateTableStmt"
  | CreateTableAsSelect => $"CreateTableAsSelectStmt"
  | CreateView => $"CreateViewStmt"
  | CreateFunction => $"CreateFunctionStmt"
  | CreateTableFunction => $"CreateTableFunctionStmt"
  | CreateModel => $"CreateModelStmt"
  | CreateProcedure _ => $"CreateProcedureStmt"
  end.

Definition node_kind_string (s : ResolvedStatement) : str :=
  match s with
  | RQuery _ => $"QueryStmt"
  | RDml s => dml_kind_string s
  | RAssert _ => $"AssertStmt"
  | RCreateConstant _ => $"CreateConstantStmt"
  | RAssignment _ => $"AssignmentStmt"
  | RCall _ => $"CallStmt"
  | RExecuteImmediate _ => $"ExecuteImmediateStmt"
  | RDdl s => ddl_kind_string s
  | RMulti _ => $"MultiStmt"
  | ROther kind => kind
  end.
End statements.

(** ** Row sources *)

(** [MaterializedRowSource::Next]: the rows of a source are those not yet read. *)
Definition Next (source : RowSource) : option Storage.Row * RowSource :=
  match source.2 with
  | [] => (None, source)
  | row :: rows => (Some row, (source.1, rows))
  end.

Fixpoint drain_loop (fuel : nat) (source : RowSource) (rows : list Storage.Row)
    : option (list Storage.Row * RowSource) :=
  match fuel with
  | 0 => None
  | S fuel =>
      match Next source with
      | (None, source) => Some (rows, source)
      | (Some row, source) => drain_loop fuel source (rows ++ [row])
      end
  end.

(** The rows read, and the source after it. *)
Definition DrainRowSource (source : RowSource) : RowSource * RowSource :=
  match drain_loop (S (length source.2)) source [] with
  | Some (rows, rest) => ((source.1, rows), rest)
  | None => (source, source)
  end.

Lemma drain_loop_all fuel sch rows out :
  length rows < fuel -> drain_loop fuel (sch, rows) out = Some (out ++ rows, (sch, [])).
Proof.
  revert rows out. induction fuel as [|fuel IH]; intros rows out L; [lia|].
  destruct rows as [|row rows]; cbn in *; [by rewrite app_nil_r|].
  rewrite IH by lia. by rewrite <- app_assoc.
Qed.

Lemma drain_all source : DrainRowSource source = (source, (source.1, [])).
Proof. destruct source as [sch rows]. unfold DrainRowSource. rewrite drain_loop_all by (cbn; lia). done. Qed.

Section executor.
Context `{AbslText, AbslDouble, GoogleSqlOps, ExecutorNodes}.
Context `{!CastLibrary, !ValueText, !ExecutorParts, !ResolvedAst, !AggregateParts, !ParameterParser}.

(** ** Parameters and contexts *)

(** [BuildParameterBindings] of [executor.cc] and of [assert_stmt.cc]. *)
Definition BuildBindings (who : str) (request : QueryRequest) : StatusOr ParameterBindings :=
  b ← bind_parameters (request_parameters request) (mkParameters ∅ []) false false;
  if (b.2 : bool) then Err (InvalidArgumentError (who ++ $": request mixes named and positional parameters"))
  else Ok b.1.

(** The bindings of a request without parameters are empty. *)
Definition request_bindings (who : str) (request : QueryRequest) : StatusOr ParameterBindings :=
  match request_parameters request with
  | [] => Ok (mkParameters ∅ [])
  | _ => BuildBindings who request
  end.

(** The context of a statement of a script. *)
Definition script_context (project : str) (variables : FrameStack Value) : EvalContext :=
  mkContext project None None None (Some variables) (Some variables) None None None None None.

(** ** SELECT *)

Definition expr_by_column_id (exprs : list ComputedColumn) : gmap Z ResolvedExpr :=
  fold_left (fun m (c : ComputedColumn) => <[column_id c.1 := c.2]> m) exprs ∅.

Definition output_cell (exprs : gmap Z ResolvedExpr) (bind : Row) (ctx : EvalContext)
    (oc : option OutputColumn) : StatusOr Storage.Value :=
  match oc with
  | None => Err (InternalError $"semantic: ResolvedOutputColumn is null")
  | Some oc =>
      let id := column_id (output_column oc) in
      v ← match bind !! id with
          | Some v => Ok v
          | None =>
              match exprs !! id with
              | Some e => EvalExpr e ctx
              | None => Err (InternalError ($"semantic: output column '" ++ output_name oc
                          ++ $"' has no row binding and no expression for column_id=" ++ StrInt id))
              end
          end;
      ToStorageValue v
  end.

Definition ProjectOneRow (query_stmt : QueryStmt) (exprs : gmap Z ResolvedExpr) (bind : Row)
    (ctx : EvalContext) : StatusOr Storage.Row :=
  mkRow <$> outcome_mapM (output_cell exprs bind (set_columns ctx bind)) (query_output_list query_stmt).

Definition output_schema_column (oc : option OutputColumn) : StatusOr ColumnSchema :=
  match oc with
  | None => Err (InternalError $"semantic: ResolvedOutputColumn is null")
  | Some oc =>
      match column_type (output_column oc) with
      | Some t => ColumnSchemaForType t (output_name oc)
      | None => Err (InvalidArgumentError $"semantic: null type for column schema")
      end
  end.

Definition ExecuteResolvedQueryStmt (request : QueryRequest) (query_stmt : QueryStmt)
    (script_vars : option (FrameStack Value)) (system_vars : option (gmap (list str) Value))
    : StatusOr RowSource :=
  if is_null_scan (query_scan query_stmt)
  then Err (InvalidArgumentError $"semantic: ResolvedQueryStmt has no inner scan")
  else
    let exprs := match FindOutputProjectScan (query_scan query_stmt) with Some (_, es) => es | None => [] end in
    bindings ← request_bindings $"semantic" request;
    if existsb (fun c : ComputedColumn => is_null_expr c.2) exprs
    then Err (InternalError $"semantic: ResolvedComputedColumn has null expr")
    else
      let ctx := mkContext (request_project_id request) (Some bindings) None None None script_vars system_vars
                   None None None None in
      cols ← outcome_mapM output_schema_column (query_output_list query_stmt);
      binds ← MaterializeScanImpl (query_scan query_stmt) ctx;
      rows ← outcome_mapM (fun bind => ProjectOneRow query_stmt (expr_by_column_id exprs) bind ctx) binds;
      Ok (mkTableSchema cols, rows).

Definition SemanticExecutor_ExecuteQuery (request : QueryRequest) (stmt : ResolvedStatement)
    : StatusOr RowSource :=
  match stmt with
  | RQuery q => ExecuteResolvedQueryStmt request q None None
  | _ => Err (MakeSemanticError rNotImplemented
           ($"semantic: only SELECT-shaped statements route here today; got " ++ node_kind_string stmt))
  end.

(** ** System variables *)

(** [values_by_project]: the values a session has set, per project. *)
Definition SystemVariables : Type := gmap str (gmap str Value).

Definition CanonicalName (name_path : list str) : str := join "."%char name_path.

Definition GetSystemVariable_ (vars : SystemVariables) (project : str) (name_path : list str)
    : StatusOr Value :=
  match CanonicalName name_path with
  | [] => Err (InvalidArgumentError $"semantic/system_variables: empty system variable name")
  | key =>
      match vars !! project ≫= (.!! key) with
      | Some v => Ok v
      | None => if bool_decide (key = $"time_zone") then Ok (SString $"UTC")
                else Err (NotFoundError ($"semantic/system_variables: @@" ++ key ++ $" is not set"))
      end
  end.

Definition SetSystemVariable (vars : SystemVariables) (project : str) (name_path : list str) (value : Value)
    : SystemVariables * StatusOr unit :=
  match CanonicalName name_path with
  | [] => (vars, Err (InvalidArgumentError $"semantic/system_variables: empty system variable name"))
  | key => (<[project := <[key := value]> (default ∅ (vars !! project))]> vars, Ok ())
  end.

(** ** Statements of a script *)

(** [bool_value] of a value of type BOOL. *)
Definition bool_value (v : Value) : bool := match v with SBool b => b | _ => false end.

Definition ExecuteAssert (request : QueryRequest) (stmt : AssertStmt) : StatusOr unit :=
  if is_null_expr (assert_expression stmt)
  then Err (InternalError $"script::ExecuteAssert: ResolvedAssertStmt has null expression")
  else if negb (bool_decide (expr_type (assert_expression stmt) = Some TBool))
  then Err (InternalError $"script::ExecuteAssert: ResolvedAssertStmt predicate is not BOOL-typed; analyzer should have rejected it")
  else
    bindings ← request_bindings $"script" request;
    v ← EvalExpr (assert_expression stmt)
          (mkContext [] (Some bindings) None None None None None None None None None);
    if is_null v || negb (bool_value v)
    then Err (MakeSemanticError rInvalidArgument
           (match assert_description stmt with
            | [] => $"Assertion failed"
            | d => $"Assertion failed: " ++ d
            end))
    else Ok ().

(** The statements below change the variables of the driver. *)
Definition ExecuteDeclare (request : QueryRequest) (stmt : CreateConstantStmt) (driver : FrameStack Value)
    : FrameStack Value * StatusOr unit :=
  match constant_name_path stmt with
  | [] => (driver, Err (InvalidArgumentError $"script::ExecuteDeclare: CREATE CONSTANT has empty name_path"))
  | path =>
      if is_null_expr (constant_expr stmt)
      then (driver, Err (InvalidArgumentError $"script::ExecuteDeclare: DECLARE has no default expression"))
      else
        match EvalExpr (constant_expr stmt) (script_context (request_project_id request) driver) with
        | Err e => (driver, Err e)
        | Ok v => Declare_ driver (List.last path []) v
        end
  end.

(** The variable a target names: a constant, or a field of one. *)
Fixpoint ScriptVariableName (target : ResolvedExpr) : str :=
  match target with
  | EConstant (Some c) _ => const_Name c
  | EGetStructField e _ _ => ScriptVariableName e
  | _ => []
  end.

Definition set_variable (who : str) (driver : FrameStack Value) (name : str) (v : Value)
    : FrameStack Value * StatusOr unit :=
  match Set_ driver name v with
  | (driver, Ok _) => (driver, Ok ())
  | (driver, Err e) => (driver, Err (MakeSemanticError rInvalidArgument
                          (who ++ $": cannot assign to '" ++ name ++ $"': " ++ message e)))
  end.

(** The branch of an argument reference is never reached: such a target has no
    variable name. *)
Definition ExecuteScriptAssignment (request : QueryRequest) (stmt : AssignmentStmt)
    (driver : FrameStack Value) : FrameStack Value * StatusOr unit :=
  if is_null_expr (assign_target stmt) || is_null_expr (assign_expr stmt)
  then (driver, Err (InvalidArgumentError $"script::ExecuteScriptAssignment: null target or expr"))
  else
    match ScriptVariableName (assign_target stmt) with
    | [] => (driver, Err (MakeSemanticError rNotImplemented
               $"script::ExecuteScriptAssignment: target is not a script variable"))
    | name =>
        let target := match assign_target stmt with EArgumentRef ref _ => ref | _ => name end in
        match EvalExpr (assign_expr stmt) (script_context (request_project_id request) driver) with
        | Err e => (driver, Err e)
        | Ok v => set_variable $"script::ExecuteScriptAssignment" driver target v
        end
    end.

(** ** The entry point for statements that return no rows *)

Fixpoint AsSystemVariableTarget (expr : ResolvedExpr) : option (list str) :=
  match expr with
  | ESystemVariable path _ => Some path
  | EGetStructField e _ _ => AsSystemVariableTarget e
  | _ => None
  end.

Definition ExecuteAssignment (request : QueryRequest) (stmt : AssignmentStmt) (vars : SystemVariables)
    : SystemVariables * StatusOr unit :=
  if is_null_expr (assign_target stmt) || is_null_expr (assign_expr stmt)
  then (vars, Err (InvalidArgumentError $"semantic: AssignmentStmt has null target or expr"))
  else
    match AsSystemVariableTarget (assign_target stmt) with
    | None => (vars, Err (MakeSemanticError rNotImplemented
                 $"semantic: AssignmentStmt target is not a system variable"))
    | Some path =>
        match EvalExpr (assign_expr stmt)
                (mkContext (request_project_id request) None None None None None None None None None None) with
        | Err e => (vars, Err e)
        | Ok v => SetSystemVariable vars (request_project_id request) path v
        end
    end.

Definition SemanticExecutor_ExecuteDdl (request : QueryRequest) (stmt : ResolvedStatement)
    (vars : SystemVariables) : SystemVariables * StatusOr unit :=
  match stmt with
  | RAssert s => (vars, ExecuteAssert request s)
  | RCreateConstant s => (vars, (ExecuteDeclare request s NewFrameStack).2)
  | RAssignment s =>
      match AsSystemVariableTarget (assign_target s) with
      | Some _ => ExecuteAssignment request s vars
      | None => (vars, (ExecuteScriptAssignment request s NewFrameStack).2)
      end
  | _ => (vars, Err (MakeSemanticError rNotImplemented
            ($"semantic: ExecuteDdl is not a semantic-executor route; got statement kind "
               ++ node_kind_string stmt)))
  end.

(** ** Expression columns *)

(** [PopulateEvalContextExpressionColumns]. *)
Definition PopulateExpressionColumns (variables : FrameStack Value) (ctx : EvalContext) : EvalContext :=
  mkContext (project_id ctx) (parameters ctx) (columns ctx) (Some (VisibleBindings variables)) (arguments ctx)
    (script_variables ctx) (script_system_variables ctx) (udaf ctx) (with_tables ctx)
    (relation_arguments ctx) (group_rows ctx).

(** ** The rows of a SELECT *)

Lemma column_schema_name t name col : ColumnSchemaForType t name = Ok col -> col_name col = name.
Proof.
  assert (forall mode ct raw fs, col_name (column_of name mode ct raw fs) = name) as N by done.
  destruct t; cbn; intros E; try (by injection E as <-); try done.
  - destruct t; try (by injection E as <-); try done.
    apply bind_Ok in E as (fs' & _ & E). by injection E as <-.
  - apply bind_Ok in E as (fs' & _ & E). by injection E as <-.
Qed.

(** The value of an output column on a row: the column the scan binds, or the
    expression of the projection. *)
Definition output_value (exprs : gmap Z ResolvedExpr) (bind : Row) (ctx : EvalContext) (oc : OutputColumn)
    (v : Value) : Prop :=
  let id := column_id (output_column oc) in
  bind !! id = Some v \/ (bind !! id = None /\ exists e, exprs !! id = Some e /\ EvalExpr e ctx = Ok v).

Lemma output_cell_spec exprs bind ctx oc cell :
  output_cell exprs bind ctx (Some oc) = Ok cell ->
  exists v, output_value exprs bind ctx oc v /\ ToStorageValue v = Ok cell.
Proof.
  cbn. intros E. apply bind_Ok in E as (v & V & E). exists v. split; [|done]. unfold output_value.
  destruct (bind !! column_id (output_column oc)); [injection V as ->; by left|].
  destruct (exprs !! column_id (output_column oc)) as [e|]; [|done]. right. eauto.
Qed.

(** No output column is null when the schema could be built. *)
Lemma output_columns_named l cols : outcome_mapM output_schema_column l = Ok cols ->
  exists ocs, l = map Some ocs /\ map col_name cols = map output_name ocs.
Proof.
  intros F%mapM_Forall2. induction F as [|oc col l cols E _ (ocs & -> & N)]; [by exists []|].
  destruct oc as [oc|]; [|done]. exists (oc :: ocs). split; [done|]. cbn. rewrite N. f_equal.
  cbn in E. destruct (column_type (output_column oc)); [|done]. by eapply column_schema_name.
Qed.

Lemma project_row_spec q exprs bind ctx row ocs :
  query_output_list q = map Some ocs -> ProjectOneRow q exprs bind ctx = Ok row ->
  Forall2 (fun oc cell => exists v, output_value exprs bind (set_columns ctx bind) oc v /\
                            ToStorageValue v = Ok cell) ocs (cells row).
Proof.
  unfold ProjectOneRow. intros ->. destruct (outcome_mapM _ _) as [cs|e] eqn:E; [|done]. intros [= <-].
  apply mapM_Forall2 in E. cbn. remember (map Some ocs) as l eqn:L. revert ocs L.
  induction E as [|oc cell l cs E _ IH]; intros [|oc' ocs] [=]; subst; constructor; [|by apply IH].
  by apply output_cell_spec.
Qed.

(** C8: a SELECT of the semantic executor returns its columns under the names the
    statement gives them, and one row per row of its scan, in order: each cell
    holds the value of its column on that row, the scan's binding for a column the
    scan announces, else the projection's expression. *)
Theorem select_rows request q vars sys sch rows :
  wf_scan (query_scan q) -> ExecuteResolvedQueryStmt request q vars sys = Ok (sch, rows) ->
  exists ocs exprs ctx binds,
    query_output_list q = map Some ocs /\ map col_name (Schema.columns sch) = map output_name ocs /\
    script_variables ctx = vars /\ script_system_variables ctx = sys /\
    MaterializeScanImpl (query_scan q) ctx = Ok binds /\
    Forall2 (fun bind row => Forall2 (fun oc cell => exists v, ToStorageValue v = Ok cell /\
        output_value exprs bind (set_columns ctx bind) oc v /\
        (column_id (output_column oc) ∈ map column_id (column_list (query_scan q)) ->
         bind !! column_id (output_column oc) = Some v)) ocs (cells row)) binds rows.
Proof.
  intros W E. unfold ExecuteResolvedQueryStmt in E. destruct (is_null_scan (query_scan q)); [done|].
  apply bind_Ok in E as (bindings & _ & E).
  match type of E with context [expr_by_column_id ?es] => set (exprs := expr_by_column_id es) in * end.
  destruct (existsb _ _); [done|]. cbn zeta in E.
  match type of E with context [MaterializeScanImpl _ ?c] => set (ctx := c) in * end.
  apply bind_Ok in E as (cols & C & E). apply bind_Ok in E as (binds & M & E).
  apply bind_Ok in E as (rows' & R & [= <- <-]).
  destruct (output_columns_named _ _ C) as (ocs & L & N). exists ocs, exprs, ctx, binds.
  split; [done|]. split; [done|]. split; [done|]. split; [done|]. split; [done|].
  pose proof (materialize_binds _ _ _ W M) as B. clear M. apply mapM_Forall2 in R.
  induction R as [|bind row binds rows E _ IH]; [constructor|]. apply Forall_cons in B as [Bb B].
  constructor; [|by apply IH]. apply (project_row_spec _ _ _ _ _ _ L) in E.
  apply (Forall2_impl _ _ _ _ E). intros oc cell (v & V & T). exists v. split; [done|]. split; [done|].
  intros I. destruct V as [V|[V _]]; [done|]. exfalso.
  apply list_elem_of_fmap in I as (c & Ec & I). rewrite Ec in V.
  unfold binds_all in Bb. rewrite Forall_forall in Bb. destruct (Bb c I) as [w Bw].
  by rewrite V in Bw.
Qed.
End executor.
