(* ===== verification/Parameters.v ===== *)
(** * Parameters: the values of query parameters

    Models [semantic/value_parameters.cc], [ParseTypeKindName] of [value.cc] and
    the parameter types of [coordinator/local_coordinator_analyze.cc]: the text of
    a parameter to its value, and the type the analyzer is told the parameter has.
    Arrays and structs recurse; [depth] bounds the recursion, and two levels are
    all the code can reach ([depth_enough]). *)

From S2P Require Import Prelude Order Absl AbslReference Schema RowRestriction Storage SemanticError.
From S2P Require Import FrameStack SqlValue GoogleSqlReference Arithmetic Operators MathFuncs Casts.
From S2P Require Import EvalExpr Rows Joins SetOps Unnest AggFuncs Aggregates Analytic Scans StorageValues.
From S2P Require Import Dml.

(** The type factory of GoogleSQL, [absl::Base64Unescape] and the date parsers. *)
Class ParameterLibrary `{GoogleSql} := {
  MakeStructType : list (str * SqlType) -> StatusOr SqlType;
  MakeArrayType : SqlType -> StatusOr SqlType;
  Base64Unescape : str -> option str;
  TypeKind_Name : TypeKind -> str;
  date_FromString : str -> str -> StatusOr Z;
  datetime_FromString : str -> str -> StatusOr DatetimeValue;
  time_FromString : str -> str -> StatusOr TimeValue;
}.

Class ParameterLibraryLaws `{ParameterLibrary} : Prop := {
  MakeStructType_ok fs t : MakeStructType fs = Ok t -> t = TStruct fs;
  MakeArrayType_ok e t : MakeArrayType e = Ok t -> t = TArray e;
}.

Section parameters.
Context `{AbslText, AbslDouble, GoogleSqlOps} `{!CastLibrary, !ParameterLibrary}.

(** ** Names of types *)

Definition kind_names : list (str * TypeKind) :=
  [($"BOOL", TYPE_BOOL); ($"BOOLEAN", TYPE_BOOL); ($"INT64", TYPE_INT64); ($"INTEGER", TYPE_INT64);
   ($"FLOAT64", TYPE_DOUBLE); ($"DOUBLE", TYPE_DOUBLE); ($"FLOAT", TYPE_DOUBLE); ($"STRING", TYPE_STRING);
   ($"BYTES", TYPE_BYTES); ($"DATE", TYPE_DATE); ($"TIME", TYPE_TIME); ($"DATETIME", TYPE_DATETIME);
   ($"TIMESTAMP", TYPE_TIMESTAMP); ($"NUMERIC", TYPE_NUMERIC); ($"BIGNUMERIC", TYPE_BIGNUMERIC);
   ($"JSON", TYPE_JSON); ($"GEOGRAPHY", TYPE_GEOGRAPHY); ($"INTERVAL", TYPE_INTERVAL)].

Definition kind_names_after_range : list (str * TypeKind) :=
  [($"UUID", TYPE_UUID); ($"ARRAY", TYPE_ARRAY); ($"STRUCT", TYPE_STRUCT); ($"RECORD", TYPE_STRUCT)].

Definition named_kind (names : list (str * TypeKind)) (name : str) : option TypeKind :=
  snd <$> List.find (fun p : str * TypeKind => EqualsIgnoreCase name p.1) names.

Definition ParseTypeKindName (type_kind_name : str) : TypeKind :=
  let name := if StartsWithIgnoreCase type_kind_name $"TYPE_" then drop 5 type_kind_name
              else type_kind_name in
  match named_kind kind_names name with
  | Some k => k
  | None =>
      if StartsWithIgnoreCase name $"RANGE" then TYPE_RANGE
      else default TYPE_UNKNOWN (named_kind kind_names_after_range name)
  end.

(** ** Struct and array descriptors *)

Definition dquote : ascii := "034"%char.

Definition StripJsonQuotes (body : str) : str :=
  if (2 <=? length body) && bool_decide (head body = Some dquote) && bool_decide (last body = Some dquote)
  then take (length body - 2) (tail body) else body.

(** The fields [name:KIND] of a descriptor; parts without a colon are skipped. *)
Definition field_spec (part : str) : option (str * str) :=
  match StripAsciiWhitespace part with
  | [] => None
  | part => match find_sub $":" part with
            | None => None
            | Some (name, kind) => Some (name, StripAsciiWhitespace kind)
            end
  end.

Definition ParseStructFieldSpecs (type_json : str) : list (str * str) :=
  omap field_spec (StrSplit type_json ","%char).

Definition PrimitiveTypeForKind (k : TypeKind) : StatusOr SqlType :=
  match k with
  | TYPE_BOOL => Ok TBool
  | TYPE_INT64 => Ok TInt64
  | TYPE_DOUBLE => Ok TDouble
  | TYPE_STRING => Ok TString
  | TYPE_BYTES => Ok TBytes
  | TYPE_DATE => Ok TDate
  | TYPE_TIME => Ok TTime
  | TYPE_DATETIME => Ok TDatetime
  | TYPE_TIMESTAMP => Ok TTimestamp
  | TYPE_NUMERIC => Ok TNumeric
  | TYPE_BIGNUMERIC => Ok TBigNumeric
  | TYPE_JSON => Ok TJson
  | _ => Err (InvalidArgumentError ($"semantic: unsupported struct field type kind '"
                ++ TypeKind_Name k ++ $"'"))
  end.

Definition StructTypeFromFieldSpecs (specs : list (str * str)) : StatusOr SqlType :=
  match specs with
  | [] => Err (InvalidArgumentError $"semantic: STRUCT parameter missing type_json field specs")
  | _ =>
      fields ← outcome_mapM (fun spec : str * str =>
                 t ← PrimitiveTypeForKind (ParseTypeKindName spec.2); Ok (spec.1, t)) specs;
      MakeStructType fields
  end.

(** The kind and the descriptor of the elements of an array. *)
Definition ArrayElementDescriptorFromTypeJson (type_json : str) : StatusOr (str * str) :=
  match type_json with
  | [] => Err (InvalidArgumentError $"semantic: ARRAY parameter missing type_json")
  | _ => match strip_prefix $"STRUCT:" type_json with
         | Some fields => Ok ($"STRUCT", fields)
         | None => Ok (type_json, [])
         end
  end.

Definition ArrayElementTypeFromTypeJson (type_json : str) : StatusOr SqlType :=
  desc ← ArrayElementDescriptorFromTypeJson type_json;
  if bool_decide (desc.1 = $"STRUCT") then StructTypeFromFieldSpecs (ParseStructFieldSpecs desc.2)
  else PrimitiveTypeForKind (ParseTypeKindName desc.1).

(** ** The elements of a JSON array *)

(** A quoted element after its opening quote: what it reads, and the rest. *)
Fixpoint quoted_element (json : str) : str * str :=
  match json with
  | [] => ([], [])
  | c :: rest =>
      if bool_decide (c = "\"%char) then
        match rest with
        | [] => ([c], [])
        | d :: rest => let '(e, r) := quoted_element rest in (c :: d :: e, r)
        end
      else if bool_decide (c = dquote) then ([c], rest)
      else let '(e, r) := quoted_element rest in (c :: e, r)
  end.

Fixpoint bare_element (json : str) : str * str :=
  match json with
  | [] => ([], [])
  | c :: rest =>
      if bool_decide (c = ","%char) || bool_decide (c = "]"%char) then ([], json)
      else let '(e, r) := bare_element rest in (c :: e, r)
  end.

(** [AppendNextJsonArrayElement]: the next element, stripped, and the text after
    it; [None] at the end of the array. *)
Definition NextJsonArrayElement (json : str) : option (str * str) :=
  match StripLeadingWhitespace json with
  | [] => None
  | c :: rest =>
      if bool_decide (c = "]"%char) then None
      else if bool_decide (c = dquote)
      then let '(e, r) := quoted_element rest in Some (StripAsciiWhitespace (c :: e), r)
      else let '(e, r) := bare_element (c :: rest) in Some (StripAsciiWhitespace e, r)
  end.

(** The blanks and the comma between two elements. *)
Definition skip_comma (json : str) : str :=
  match StripLeadingWhitespace json with
  | [] => []
  | c :: rest => if bool_decide (c = ","%char) then rest else c :: rest
  end.

Fixpoint json_elements (fuel : nat) (json : str) : list str :=
  match fuel with
  | 0 => []
  | S fuel =>
      match NextJsonArrayElement json with
      | None => []
      | Some (e, rest) => e :: json_elements fuel (skip_comma rest)
      end
  end.

Definition ParseJsonArrayElements (json : str) : StatusOr (list str) :=
  match StripAsciiWhitespace json with
  | c :: rest =>
      if bool_decide (c = "["%char)
      then Ok (if bool_decide (rest = $"]") then [] else json_elements (S (length rest)) rest)
      else Err (InvalidArgumentError $"semantic: STRUCT parameter value_json must be a JSON array")
  | [] => Err (InvalidArgumentError $"semantic: STRUCT parameter value_json must be a JSON array")
  end.

(** ** Values *)

Definition ParseDateParameter (body : str) : StatusOr Value :=
  match first_some [of_status (date_FromString $"%Y-%m-%d" body); of_status (date_FromString $"%F" body)] with
  | Some d => Ok (SDate d)
  | None => Err (InvalidArgumentError ($"semantic: invalid DATE parameter value '" ++ body ++ $"'"))
  end.

Definition datetime_formats : list str :=
  [$"%F %T"; $"%F %H:%M:%E*S"; $"%Y-%m-%dT%H:%M:%E*S"; $"%Y-%m-%dT%H:%M:%S"; $"%Y-%m-%d %H:%M:%E*S"].

Definition ParseDatetimeParameter (body : str) : StatusOr Value :=
  match first_some (map (fun fmt => of_status (datetime_FromString fmt body)) datetime_formats) with
  | Some d => Ok (SDatetime d)
  | None => Err (InvalidArgumentError ($"semantic: invalid DATETIME parameter value '" ++ body ++ $"'"))
  end.

Definition ParseTimeParameter (body : str) : StatusOr Value :=
  match first_some (map (fun fmt => of_status (time_FromString fmt body)) [$"%T"; $"%H:%M:%E*S"; $"%H:%M:%S"]) with
  | Some t => Ok (STime t)
  | None => Err (InvalidArgumentError ($"semantic: invalid TIME parameter value '" ++ body ++ $"'"))
  end.

Definition ParseNullParameterValue (k : TypeKind) (type_kind_name : str) : StatusOr Value :=
  match k with
  | TYPE_BOOL => Ok (SNull TBool)
  | TYPE_INT64 => Ok (SNull TInt64)
  | TYPE_DOUBLE => Ok (SNull TDouble)
  | TYPE_STRING => Ok (SNull TString)
  | TYPE_BYTES => Ok (SNull TBytes)
  | TYPE_DATE => Ok (SNull TDate)
  | TYPE_TIME => Ok (SNull TTime)
  | TYPE_DATETIME => Ok (SNull TDatetime)
  | TYPE_TIMESTAMP => Ok (SNull TTimestamp)
  | TYPE_NUMERIC => Ok (SNull TNumeric)
  | TYPE_BIGNUMERIC => Ok (SNull TBigNumeric)
  | TYPE_JSON => Ok (SNull TJson)
  | _ => Err (MakeSemanticError rNotImplemented ($"semantic: NULL parameter for type kind '"
                ++ type_kind_name ++ $"' is not yet implemented"))
  end.

Definition invalid_parameter (what value_json : str) : Status :=
  InvalidArgumentError ($"semantic: invalid " ++ what ++ $" parameter value '" ++ value_json ++ $"'").

Section nested.
(** [ParseParameterValue] one level down. *)
Context (parse : str -> str -> str -> StatusOr Value).

Definition ParseArrayParameterValue (trimmed type_json : str) : StatusOr Value :=
  elem_type ← ArrayElementTypeFromTypeJson type_json;
  desc ← ArrayElementDescriptorFromTypeJson type_json;
  elems ← ParseJsonArrayElements trimmed;
  values ← outcome_mapM (fun e => parse e desc.1 desc.2) elems;
  array_type ← MakeArrayType elem_type;
  Ok (match array_type with TArray e => SArray e values | _ => SInvalid end).

Definition ParseStructParameterValue (trimmed type_json : str) : StatusOr Value :=
  let specs := ParseStructFieldSpecs type_json in
  struct_type ← StructTypeFromFieldSpecs specs;
  elems ← ParseJsonArrayElements trimmed;
  if negb (length elems =? length specs)
  then Err (InvalidArgumentError ($"semantic: STRUCT parameter field count mismatch: type_json has "
         ++ StrInt (Z.of_nat (length specs)) ++ $" fields but value_json has "
         ++ StrInt (Z.of_nat (length elems)) ++ $" elements"))
  else
    values ← outcome_mapM (fun p : str * (str * str) => parse p.1 p.2.2 []) (zip elems specs);
    Ok (match struct_type with TStruct fs => SStruct fs values | _ => SInvalid end).

Definition parse_value (value_json type_kind_name type_json : str) : StatusOr Value :=
  let k := ParseTypeKindName type_kind_name in
  if bool_decide (k = TYPE_UNKNOWN)
  then Err (InvalidArgumentError ($"semantic: unknown parameter type kind '" ++ type_kind_name ++ $"'"))
  else
    let trimmed := StripAsciiWhitespace value_json in
    if bool_decide (trimmed = []) || bool_decide (trimmed = $"null")
    then ParseNullParameterValue k type_kind_name
    else
      let body := StripJsonQuotes trimmed in
      let says word := EqualsIgnoreCase trimmed word || EqualsIgnoreCase body word in
      match k with
      | TYPE_BOOL => if says $"true" then Ok (SBool true) else if says $"false" then Ok (SBool false)
                     else Err (invalid_parameter $"BOOL" value_json)
      | TYPE_INT64 => match SimpleAtoi body with
                      | Some z => Ok (SInt64 z)
                      | None => Err (invalid_parameter $"INT64" value_json)
                      end
      | TYPE_DOUBLE => match SimpleAtod body with
                       | Some d => Ok (SDouble d)
                       | None => Err (invalid_parameter $"FLOAT64" value_json)
                       end
      | TYPE_STRING => Ok (SString body)
      | TYPE_BYTES => match Base64Unescape body with
                      | Some s => Ok (SBytes s)
                      | None => Err (invalid_parameter $"BYTES" value_json)
                      end
      | TYPE_NUMERIC => n ← NumericValue_FromString body; Ok (SNumeric n)
      | TYPE_BIGNUMERIC => n ← BigNumericValue_FromString body; Ok (SBigNumeric n)
      | TYPE_DATE => ParseDateParameter body
      | TYPE_TIME => ParseTimeParameter body
      | TYPE_DATETIME => ParseDatetimeParameter body
      | TYPE_JSON | TYPE_INTERVAL | TYPE_UUID =>
          Err (MakeSemanticError rNotImplemented ($"semantic: parameter type '" ++ type_kind_name
                 ++ $"' is not yet supported; see docs/ENGINE_POLICY.md"))
      | TYPE_TIMESTAMP => ParseTimestampWireString body
      | TYPE_ARRAY => ParseArrayParameterValue trimmed type_json
      | TYPE_STRUCT => ParseStructParameterValue trimmed type_json
      | _ => Err (InvalidArgumentError ($"semantic: unsupported parameter type kind '"
                    ++ type_kind_name ++ $"'"))
      end.
End nested.

Fixpoint parse_at (depth : nat) (value_json type_kind_name type_json : str) : StatusOr Value :=
  match depth with
  | 0 => Err (InternalError $"nesting of a parameter value")
  | S depth => parse_value (parse_at depth) value_json type_kind_name type_json
  end.

(** An array of structs of scalars is the deepest value there is. *)
Definition ParseParameterValue_ (value_json type_kind_name type_json : str) : StatusOr Value :=
  parse_at 3 value_json type_kind_name type_json.

(** ** Names of positional parameters *)

(** The index is parsed into a 32-bit [int]. *)
Definition SyntheticPositionalParameterIndex (name : str) : Z :=
  match name with
  | "p"%char :: (_ :: _ as digits) =>
      match SimpleAtoi digits with
      | Some idx => if (idx <? 0)%Z || (2 ^ 31 - 1 <? idx)%Z then -1 else idx
      | None => -1
      end
  | _ => -1
  end.

Definition IsSyntheticPositionalParameterName (name : str) : bool :=
  (0 <=? SyntheticPositionalParameterIndex name)%Z.

Definition IsPositionalParameterName (name : str) : bool :=
  match name with [] => true | _ => IsSyntheticPositionalParameterName name end.

(** ** The types the analyzer is told *)

Definition ParameterTypeForKind (type_kind_name : str) : StatusOr SqlType :=
  match ParseTypeKindName type_kind_name with
  | TYPE_BOOL => Ok TBool
  | TYPE_INT64 => Ok TInt64
  | TYPE_DOUBLE => Ok TDouble
  | TYPE_STRING => Ok TString
  | TYPE_BYTES => Ok TBytes
  | TYPE_DATE => Ok TDate
  | TYPE_TIME => Ok TTime
  | TYPE_DATETIME => Ok TDatetime
  | TYPE_TIMESTAMP => Ok TTimestamp
  | TYPE_NUMERIC => Ok TNumeric
  | TYPE_BIGNUMERIC => Ok TBigNumeric
  | TYPE_JSON => Ok TJson
  | TYPE_GEOGRAPHY => Ok TGeography
  | TYPE_INTERVAL => Ok TInterval
  | TYPE_UUID => Ok TUuid
  | _ => Err (InvalidArgumentError ($"LocalCoordinatorEngine: parameter type kind '" ++ type_kind_name
                ++ $"' is not supported by the coordinator's analyzer plumbing"))
  end.

Fixpoint struct_fields (parts : list str) : StatusOr (list (str * SqlType)) :=
  match parts with
  | [] => Ok []
  | part :: parts =>
      match field_spec part with
      | None => struct_fields parts
      | Some (name, k) => t ← ParameterTypeForKind k; fs ← struct_fields parts; Ok ((name, t) :: fs)
      end
  end.

Definition ParseStructParameterType (type_json : str) : StatusOr SqlType :=
  fields ← struct_fields (StrSplit type_json ","%char);
  match fields with
  | [] => Err (InvalidArgumentError $"LocalCoordinatorEngine: STRUCT parameter missing type_json")
  | _ => MakeStructType fields
  end.

(** The kind and the descriptor [ArrayElementParameter] returns. *)
Definition ArrayElementParameter (type_json : str) : str * str :=
  match strip_prefix $"STRUCT:" type_json with
  | Some fields => ($"STRUCT", fields)
  | None => (type_json, [])
  end.

(** The kinds STRUCT and ARRAY are compared as they are written; an array whose
    elements are arrays has no descriptor for them. *)
Definition ParameterTypeForQueryParameter (type_kind type_json : str) : StatusOr SqlType :=
  if bool_decide (type_kind = $"STRUCT") then ParseStructParameterType type_json
  else if bool_decide (type_kind = $"ARRAY") then
    match type_json with
    | [] => Err (InvalidArgumentError $"LocalCoordinatorEngine: ARRAY parameter missing type_json")
    | _ =>
        let '(ek, ej) := ArrayElementParameter type_json in
        elem ← (if bool_decide (ek = $"STRUCT") then ParseStructParameterType ej
                else if bool_decide (ek = $"ARRAY")
                then Err (InvalidArgumentError $"LocalCoordinatorEngine: ARRAY parameter missing type_json")
                else ParameterTypeForKind ek);
        MakeArrayType elem
    end
  else ParameterTypeForKind type_kind.

(** ** The element loop ends *)

Lemma strip_leading_length s : length (StripLeadingWhitespace s) <= length s.
Proof. induction s as [|c s IH]; [done|]. cbn. destruct (ascii_isspace c); cbn; lia. Qed.

Lemma skip_comma_length s : length (skip_comma s) <= length s.
Proof.
  unfold skip_comma. pose proof (strip_leading_length s) as L.
  destruct (StripLeadingWhitespace s) as [|c r]; [cbn; lia|]. cbn in *. case_bool_decide; cbn; lia.
Qed.

Lemma bare_element_length s : length (bare_element s).1 + length (bare_element s).2 = length s.
Proof.
  induction s as [|c s IH]; [done|]. cbn. destruct (_ || _); [done|].
  destruct (bare_element s) as [e r]. cbn in *. lia.
Qed.

Lemma quoted_element_length s : length (quoted_element s).2 <= length s.
Proof.
  induction s as [s IH] using (induction_ltof1 _ (@length ascii)); unfold ltof in IH.
  destruct s as [|c s]; [done|]. cbn. case_bool_decide; [destruct s as [|d s]; [cbn; lia|]|case_bool_decide; [cbn; lia|]];
    specialize (IH s); cbn in IH; destruct (quoted_element s); cbn in *; lia.
Qed.

Lemma strip_leading_head s c r : StripLeadingWhitespace s = c :: r -> ascii_isspace c = false.
Proof.
  induction s as [|d s IH]; cbn; [done|]. destruct (ascii_isspace d) eqn:D; [done|]. by intros [= <- <-].
Qed.

Lemma next_element_shorter json e rest :
  NextJsonArrayElement json = Some (e, rest) -> length (skip_comma rest) < length json.
Proof.
  unfold NextJsonArrayElement. pose proof (strip_leading_length json) as L.
  destruct (StripLeadingWhitespace json) as [|c r] eqn:S; [done|]. apply strip_leading_head in S.
  cbn [length] in L. case_bool_decide; [done|]. case_bool_decide as Q.
  - pose proof (quoted_element_length r) as Lq. destruct (quoted_element r) as [x y]. intros [= _ <-].
    pose proof (skip_comma_length y). cbn in Lq. lia.
  - cbn [bare_element]. rewrite (bool_decide_false (c = "]"%char)), orb_false_r by done.
    case_bool_decide as C.
    + intros [= _ <-]. unfold skip_comma. cbn [StripLeadingWhitespace]. rewrite S, bool_decide_true by done. lia.
    + pose proof (bare_element_length r) as B. destruct (bare_element r) as [x y]. intros [= _ <-].
      pose proof (skip_comma_length y). cbn in B. lia.
Qed.

(** The fuel of [ParseJsonArrayElements] is enough: more changes nothing. *)
Lemma json_elements_enough n m json :
  length json < n -> length json < m -> json_elements n json = json_elements m json.
Proof.
  revert m json. induction n as [|n IH]; intros [|m] json Ln Lm; [lia..|]. cbn.
  destruct (NextJsonArrayElement json) as [[e rest]|] eqn:E; [|done]. apply next_element_shorter in E.
  f_equal. apply IH; lia.
Qed.

(** ** Nesting *)

(** Scalars do not recurse. *)
Lemma parse_value_scalar parse parse' v k j t :
  PrimitiveTypeForKind (ParseTypeKindName k) = Ok t -> parse_value parse v k j = parse_value parse' v k j.
Proof. unfold parse_value. intros E. destruct (ParseTypeKindName k); done. Qed.

Lemma parse_at_S d v k j : parse_at (S d) v k j = parse_value (parse_at d) v k j.
Proof. done. Qed.

Lemma scalar_depth d d' v k j t :
  PrimitiveTypeForKind (ParseTypeKindName k) = Ok t -> parse_at (S d) v k j = parse_at (S d') v k j.
Proof. apply parse_value_scalar. Qed.

Lemma mapM_agree {E A B} (f g : A -> outcome E B) l :
  Forall (fun a => f a = g a) l -> outcome_mapM f l = outcome_mapM g l.
Proof. induction 1 as [|a l Ea _ IH]; [done|]. cbn. by rewrite Ea, IH. Qed.

Lemma struct_specs_scalar specs t : StructTypeFromFieldSpecs specs = Ok t ->
  Forall (fun spec : str * str => exists ft, PrimitiveTypeForKind (ParseTypeKindName spec.2) = Ok ft) specs.
Proof.
  unfold StructTypeFromFieldSpecs. destruct specs as [|s specs]; [done|]. intros E.
  apply bind_Ok in E as (fs & F%mapM_Forall2 & _).
  induction F as [|spec f l fs' E _ IH]; [constructor|]. constructor; [|done].
  apply bind_Ok in E as (ft & E & _). eauto.
Qed.

Lemma struct_depth d d' v j :
  ParseStructParameterValue (parse_at (S d)) v j = ParseStructParameterValue (parse_at (S d')) v j.
Proof.
  unfold ParseStructParameterValue. destruct (StructTypeFromFieldSpecs _) as [t|] eqn:T; [|done]. cbn.
  apply struct_specs_scalar in T. destruct (ParseJsonArrayElements v) as [es|]; [|done]. cbn.
  destruct (length es =? _); [|done]. cbn. f_equal. apply mapM_agree, Forall_forall.
  intros [e spec] I%elem_of_zip_r. rewrite Forall_forall in T. destruct (T _ I) as [ft Ft].
  by eapply scalar_depth.
Qed.

Context `{!AbslTextLaws}.

Lemma named_kind_ref names name :
  named_kind names name =
  snd <$> List.find (fun p : str * TypeKind => bool_decide (map ref_tolower name = map ref_tolower p.1)) names.
Proof.
  unfold named_kind. f_equal. induction names as [|p names IH]; [done|]. cbn. by rewrite EqualsIgnoreCase_ref, IH.
Qed.

Lemma kind_struct : ParseTypeKindName $"STRUCT" = TYPE_STRUCT.
Proof.
  unfold ParseTypeKindName, StartsWithIgnoreCase. rewrite !EqualsIgnoreCase_ref, !named_kind_ref.
  by vm_compute.
Qed.

Lemma array_depth d d' v j :
  ParseArrayParameterValue (parse_at (S (S d))) v j = ParseArrayParameterValue (parse_at (S (S d'))) v j.
Proof.
  unfold ParseArrayParameterValue, ArrayElementTypeFromTypeJson.
  destruct (ArrayElementDescriptorFromTypeJson j) as [[ek ej]|]; [|done]. cbn -[parse_at].
  case_bool_decide as K.
  - subst ek. destruct (StructTypeFromFieldSpecs _); [|done]. cbn -[parse_at].
    destruct (ParseJsonArrayElements v) as [es|]; [|done]. cbn -[parse_at]. f_equal.
    apply mapM_agree, Forall_forall. intros e _. cbn [parse_at]. unfold parse_value at 1 3.
    rewrite kind_struct. destruct (bool_decide _ || bool_decide _); [done|]. apply struct_depth.
  - destruct (PrimitiveTypeForKind _) as [t|] eqn:T; [|done]. cbn -[parse_at].
    destruct (ParseJsonArrayElements v) as [es|]; [|done]. cbn -[parse_at]. f_equal.
    apply mapM_agree, Forall_forall. intros e _. by eapply scalar_depth.
Qed.

(** The two levels below an array or a struct are enough: more change nothing. *)
Lemma depth_enough d v k j : parse_at (3 + d) v k j = ParseParameterValue_ v k j.
Proof.
  unfold ParseParameterValue_. change (3 + d) with (S (S (S d))).
  cbn [parse_at]. unfold parse_value at 1 4.
  destruct (bool_decide (_ = TYPE_UNKNOWN)); [done|].
  destruct (bool_decide _ || bool_decide _); [done|]. destruct (ParseTypeKindName k); try done.
  - exact (array_depth d 0 _ _).
  - exact (struct_depth (S d) 1 _ _).
Qed.

(** ** The value and the type of a parameter *)

Lemma timestamp_typed body v : ParseTimestampWireString body = Ok v -> has_type v TTimestamp = true.
Proof.
  unfold ParseTimestampWireString. destruct (first_some _); [|done]. intros [= <-]. done.
Qed.

Lemma null_typed k name v t :
  ParseNullParameterValue k name = Ok v -> PrimitiveTypeForKind k = Ok t -> has_type v t = true.
Proof. destruct k; cbn; intros [= <-] [= <-]; done. Qed.

Lemma scalar_typed parse x k j v t :
  parse_value parse x k j = Ok v -> PrimitiveTypeForKind (ParseTypeKindName k) = Ok t -> has_type v t = true.
Proof.
  unfold parse_value. intros E T. destruct (bool_decide (_ = TYPE_UNKNOWN)); [done|].
  destruct (bool_decide _ || bool_decide _); [by eapply null_typed|].
  destruct (ParseTypeKindName k); cbn in T; try done; injection T as <-; cbn in E; try done;
    unfold ParseDateParameter, ParseTimeParameter, ParseDatetimeParameter in E;
    repeat match type of E with
           | (if ?b then _ else _) = _ => destruct b
           | match ?o with Some _ => _ | None => _ end = _ => destruct o
           end; try (by injection E as <-); try done.
  - by apply timestamp_typed in E.
  - apply bind_Ok in E as (n & _ & E). by injection E as <-.
  - apply bind_Ok in E as (n & _ & E). by injection E as <-.
Qed.

Lemma primitive_parameter_type k t :
  PrimitiveTypeForKind (ParseTypeKindName k) = Ok t -> ParameterTypeForKind k = Ok t.
Proof. unfold ParameterTypeForKind. destruct (ParseTypeKindName k); done. Qed.

Lemma parameter_primitive_type k t u :
  PrimitiveTypeForKind (ParseTypeKindName k) = Ok t -> ParameterTypeForKind k = Ok u -> u = t.
Proof. intros P%primitive_parameter_type. congruence. Qed.

Lemma struct_fields_specs parts fs :
  struct_fields parts = Ok fs ->
  Forall2 (fun spec f => f.1 = spec.1 /\ ParameterTypeForKind spec.2 = Ok f.2) (omap field_spec parts) fs.
Proof.
  revert fs. induction parts as [|part parts IH]; cbn; intros fs E; [injection E as <-; constructor|].
  destruct (field_spec part) as [[name k]|]; [|by apply IH].
  apply bind_Ok in E as (t & T & E). apply bind_Ok in E as (fs' & F & [= <-]). constructor; [done|by apply IH].
Qed.

Context `{!ParameterLibraryLaws}.

(** Both sides read the same fields. *)
Lemma struct_types_agree json t u :
  ParseStructParameterType json = Ok t ->
  StructTypeFromFieldSpecs (ParseStructFieldSpecs json) = Ok u ->
  exists fs, t = TStruct fs /\ u = TStruct fs /\
    Forall2 (fun (spec : str * str) (f : str * SqlType) => PrimitiveTypeForKind (ParseTypeKindName spec.2) = Ok f.2)
      (ParseStructFieldSpecs json) fs.
Proof.
  unfold ParseStructParameterType, StructTypeFromFieldSpecs. intros T U.
  apply bind_Ok in T as (fs & F & T). apply struct_fields_specs in F.
  change (omap field_spec (StrSplit json ","%char)) with (ParseStructFieldSpecs json) in F.
  destruct fs as [|f fs]; [done|]. apply MakeStructType_ok in T as ->.
  destruct (ParseStructFieldSpecs json) as [|spec specs] eqn:S; [done|]. rewrite <- S in *.
  apply bind_Ok in U as (gs & G%mapM_Forall2 & U). apply MakeStructType_ok in U as ->. clear S.
  assert (gs = f :: fs /\ Forall2 (fun (spec : str * str) (f : str * SqlType) =>
            PrimitiveTypeForKind (ParseTypeKindName spec.2) = Ok f.2) (ParseStructFieldSpecs json) gs)
    as [-> P]; [|by exists (f :: fs)].
  revert gs G. induction F as [|sp g l k [N P] F IH]; intros gs G; inversion G as [|? g' ? gs' Eg Gs]; subst; [done|].
  apply bind_Ok in Eg as (pt & Pt & [= <-]). destruct (IH _ Gs) as [-> Q]. split; [|by constructor].
  f_equal. pose proof (parameter_primitive_type _ _ _ Pt P). destruct g, sp; cbn in *; by subst.
Qed.

Lemma struct_value_typed d x json v t :
  ParseStructParameterValue (parse_at (S d)) x json = Ok v -> ParseStructParameterType json = Ok t ->
  has_type v t = true.
Proof.
  unfold ParseStructParameterValue. intros E T. apply bind_Ok in E as (u & U & E).
  destruct (struct_types_agree _ _ _ T U) as (fs & -> & -> & P).
  apply bind_Ok in E as (es & _ & E). destruct (length es =? _) eqn:L; [|done]. apply Nat.eqb_eq in L. cbn in E.
  apply bind_Ok in E as (vs & V%mapM_Forall2 & [= <-]). apply has_type_struct. split; [done|].
  clear T U. remember (ParseStructFieldSpecs json) as specs eqn:Sp. clear Sp.
  revert es vs L V. induction P as [|spec f specs fs Pf P IH]; intros es vs L V.
  - destruct es; [|done]. inversion V. constructor.
  - destruct es as [|e es]; [done|]. injection L as L. cbn in V. inversion V as [|? w ? ws W Ws]; subst.
    constructor; [|by eapply IH]. by eapply scalar_typed.
Qed.

Lemma struct_kind_typed d x json v t :
  parse_at (S (S d)) x $"STRUCT" json = Ok v -> ParseStructParameterType json = Ok t -> has_type v t = true.
Proof.
  cbn [parse_at]. unfold parse_value. rewrite kind_struct. cbn -[parse_at].
  destruct (bool_decide _ || bool_decide _); [done|]. apply struct_value_typed.
Qed.

Lemma kind_array : ParseTypeKindName $"ARRAY" = TYPE_ARRAY.
Proof.
  unfold ParseTypeKindName, StartsWithIgnoreCase. rewrite !EqualsIgnoreCase_ref, !named_kind_ref.
  by vm_compute.
Qed.

(** The element descriptors of the two sides are the same. *)
Lemma element_descriptors json : json <> [] ->
  ArrayElementDescriptorFromTypeJson json = Ok (ArrayElementParameter json).
Proof.
  unfold ArrayElementDescriptorFromTypeJson, ArrayElementParameter. destruct json; [done|].
  intros _. by destruct (strip_prefix _ _).
Qed.

Lemma element_typed d e ek ej v t u :
  parse_at (S (S d)) e ek ej = Ok v ->
  (if bool_decide (ek = $"STRUCT") then StructTypeFromFieldSpecs (ParseStructFieldSpecs ej)
   else PrimitiveTypeForKind (ParseTypeKindName ek)) = Ok u ->
  (if bool_decide (ek = $"STRUCT") then ParseStructParameterType ej
   else if bool_decide (ek = $"ARRAY")
   then Err (InvalidArgumentError $"LocalCoordinatorEngine: ARRAY parameter missing type_json")
   else ParameterTypeForKind ek) = Ok t -> has_type v t = true.
Proof.
  intros V U T. case_bool_decide as K; [subst ek; by eapply struct_kind_typed|].
  case_bool_decide; [done|]. rewrite (parameter_primitive_type _ _ _ U T). by eapply scalar_typed.
Qed.

Lemma element_types_agree ek ej t u :
  (if bool_decide (ek = $"STRUCT") then StructTypeFromFieldSpecs (ParseStructFieldSpecs ej)
   else PrimitiveTypeForKind (ParseTypeKindName ek)) = Ok u ->
  (if bool_decide (ek = $"STRUCT") then ParseStructParameterType ej
   else if bool_decide (ek = $"ARRAY")
   then Err (InvalidArgumentError $"LocalCoordinatorEngine: ARRAY parameter missing type_json")
   else ParameterTypeForKind ek) = Ok t -> t = u.
Proof.
  intros U T. case_bool_decide as K.
  - by destruct (struct_types_agree _ _ _ T U) as (fs & -> & -> & _).
  - case_bool_decide; [done|]. by apply (parameter_primitive_type _ _ _ U).
Qed.

Lemma array_value_typed d x json v t :
  ParseArrayParameterValue (parse_at (S (S d))) x json = Ok v ->
  ParameterTypeForQueryParameter $"ARRAY" json = Ok t -> has_type v t = true.
Proof.
  unfold ParseArrayParameterValue, ParameterTypeForQueryParameter, ArrayElementTypeFromTypeJson. intros E T.
  rewrite bool_decide_false, bool_decide_true in T by done. destruct json as [|c json]; [done|].
  rewrite element_descriptors in E by done. destruct (ArrayElementParameter (c :: json)) as [ek ej].
  cbn -[parse_at] in E. apply bind_Ok in E as (u & U & E). apply bind_Ok in T as (et & Et & T).
  apply MakeArrayType_ok in T as ->. apply bind_Ok in E as (es & _ & E).
  apply bind_Ok in E as (vs & V%mapM_Forall2 & E). apply bind_Ok in E as (at_ & A & E).
  apply MakeArrayType_ok in A as ->. injection E as <-. pose proof (element_types_agree _ _ _ _ U Et) as ->.
  cbn [has_type]. apply andb_true_iff. split; [by apply bool_decide_eq_true|]. apply forallb_forall.
  intros w W. apply list_elem_of_In in W. apply list_elem_of_lookup in W as [i W].
  destruct (Forall2_lookup_r _ _ _ _ _ V W) as (e & _ & Ew). by eapply element_typed.
Qed.

(** The value a request parameter is parsed to has the type the analyzer was
    told the parameter has, scalars, structs of scalars and arrays of either
    included; the two sides read the descriptor of the parameter independently. *)
Theorem parameter_types_agree value_json kind type_json t v :
  ParameterTypeForQueryParameter kind type_json = Ok t ->
  ParseParameterValue_ value_json kind type_json = Ok v -> has_type v t = true.
Proof.
  intros T V. unfold ParseParameterValue_ in V. pose proof T as T'. unfold ParameterTypeForQueryParameter in T.
  case_bool_decide as S; [subst; by eapply struct_kind_typed|].
  case_bool_decide as A.
  - subst kind. rewrite parse_at_S in V. unfold parse_value at 1 in V. rewrite kind_array in V.
    cbn -[parse_at ParseArrayParameterValue] in V. rewrite bool_decide_false in V by done.
    destruct (bool_decide _ || bool_decide _); [done|]. by eapply array_value_typed.
  - destruct (PrimitiveTypeForKind (ParseTypeKindName kind)) as [u|e] eqn:P.
    + rewrite (parameter_primitive_type _ _ _ P T). by eapply scalar_typed.
    + exfalso. unfold ParameterTypeForKind in T. rewrite parse_at_S in V. unfold parse_value at 1 in V.
      destruct (bool_decide (_ = TYPE_UNKNOWN)); [done|]. destruct (bool_decide _ || bool_decide _);
        destruct (ParseTypeKindName kind); done.
Qed.
End parameters.
