(* ===== verification/Analyze.v ===== *)
(** * Analyze: from a request to a resolved statement

    Models [coordinator/local_coordinator_analyze.cc], the type conversion of
    [catalog/googlesql_catalog.cc] ([ToGoogleSqlType]) and the variable
    registration of [script_executor_internal.cc] and
    [semantic/expression_column_bindings.cc].  GoogleSQL's analyzer and its options
    are the class [AnalyzerLibrary]; what the analyzer sees of the engine is the
    state [W] of the engine and the constants registered on the catalog. *)

From S2P Require Import Prelude Order Absl AbslReference Schema RowRestriction Storage SemanticError.
From S2P Require Import ScriptText SqlPreprocess FrameStack SqlValue GoogleSqlReference Arithmetic.
From S2P Require Import Operators MathFuncs Casts EvalExpr Rows Joins SetOps Unnest AggFuncs Aggregates.
From S2P Require Import Analytic Scans ScanProps StorageValues Dml SemanticExecutor Parameters.

(** The catalog a handler is given: null, of another class, or a
    [GoogleSqlCatalog], with or without a type factory. *)
Inductive CatalogRef := NullCatalog | ForeignCatalog | BigQueryCatalog (has_type_factory : bool).

Definition is_bigquery_catalog (c : CatalogRef) : bool := match c with BigQueryCatalog _ => true | _ => false end.

(** The constants of a catalog by lower-case name. *)
Abbreviation Constants := (gmap str Value).

Class AnalyzerLibrary (W : Type) `{GoogleSql, ExecutorNodes} := {
  AnalyzerOptions : Type;
  (** the language features and rewrites the coordinator sets *)
  MakeCoordinatorAnalyzerOptions : bool -> AnalyzerOptions;
  set_parameter_mode : bool -> AnalyzerOptions -> AnalyzerOptions;
  AddPositionalQueryParameter : SqlType -> AnalyzerOptions -> StatusOr AnalyzerOptions;
  AddQueryParameter : str -> SqlType -> AnalyzerOptions -> StatusOr AnalyzerOptions;
  AddExpressionColumn : str -> SqlType -> AnalyzerOptions -> StatusOr AnalyzerOptions;
  AddSystemVariable : list str -> SqlType -> AnalyzerOptions -> StatusOr AnalyzerOptions;
  AnalyzeStatement : W -> Constants -> AnalyzerOptions -> str -> StatusOr (option ResolvedStatement);
  (** the statement at a position, the position after it, and whether it was the last *)
  AnalyzeNextStatement :
    W -> Constants -> AnalyzerOptions -> str -> nat -> StatusOr (option ResolvedStatement * nat * bool);
  AnalyzeExpression : W -> Constants -> AnalyzerOptions -> str -> StatusOr (option ResolvedExpr);
  (** [SimpleConstant::Create] *)
  CreateConstant : str -> Value -> StatusOr unit;
  now_ms : W -> Z;
}.

Section analyze.
Context {W : Type} `{AbslText, AbslDouble, GoogleSqlOps, ExecutorNodes}.
Context `{!CastLibrary, !ValueText, !ParameterLibrary, !AnalyzerLibrary W}.

(** ** Requests *)

Definition ValidateRequest (request : QueryRequest) (catalog : CatalogRef) : StatusOr unit :=
  match catalog with
  | NullCatalog => Err (FailedPreconditionError $"LocalCoordinatorEngine: catalog must be non-null")
  | _ =>
      if bool_decide (request_sql request = [])
      then Err (InvalidArgumentError $"LocalCoordinatorEngine: request.sql is required")
      else if use_legacy_sql request
      then Err (InvalidArgumentError $"LocalCoordinatorEngine: useLegacySql=true is not supported; only GoogleSQL is implemented")
      else Ok ()
  end.

Fixpoint add_parameters (ps : list QueryParameter) (options : AnalyzerOptions) : StatusOr AnalyzerOptions :=
  match ps with
  | [] => Ok options
  | p :: ps =>
      t ← ParameterTypeForQueryParameter (param_type_kind p) (type_json p);
      options ← (match param_name p with
                 | [] => AddPositionalQueryParameter t options
                 | name => AddQueryParameter name t options
                 end);
      add_parameters ps options
  end.

Definition is_positional (p : QueryParameter) : bool := match param_name p with [] => true | _ => false end.

Definition PopulateParameterOptions (request : QueryRequest) (options : AnalyzerOptions)
    : StatusOr AnalyzerOptions :=
  match request_parameters request with
  | [] => Ok options
  | ps =>
      let has_positional := existsb is_positional ps in
      let has_named := existsb (fun p => negb (is_positional p)) ps in
      if has_named && has_positional
      then Err (InvalidArgumentError $"LocalCoordinatorEngine: request mixes named and positional parameters")
      else add_parameters ps (set_parameter_mode has_positional options)
  end.

(** [RegisterAnalyzerSystemVariables] of [system_variables.cc]. *)
Definition stack_frame_fields : list (str * SqlType) :=
  [($"line", TInt64); ($"column", TInt64); ($"filename", TString); ($"location", TString)].

Definition RegisterAnalyzerSystemVariables (options : AnalyzerOptions) : StatusOr AnalyzerOptions :=
  options ← AddSystemVariable [$"time_zone"] TString options;
  options ← AddSystemVariable [$"error"; $"message"] TString options;
  options ← AddSystemVariable [$"error"; $"statement_text"] TString options;
  options ← AddSystemVariable [$"error"; $"formatted_stack_trace"] TString options;
  frame ← MakeStructType stack_frame_fields;
  trace ← MakeArrayType frame;
  AddSystemVariable [$"error"; $"stack_trace"] trace options.

Definition BuildAnalyzerOptionsForRequest (request : QueryRequest) (catalog : CatalogRef)
    (all_statements : bool) : StatusOr AnalyzerOptions :=
  match catalog with
  | BigQueryCatalog true =>
      options ← PopulateParameterOptions request (MakeCoordinatorAnalyzerOptions all_statements);
      RegisterAnalyzerSystemVariables options
  | BigQueryCatalog false =>
      Err (FailedPreconditionError $"LocalCoordinatorEngine: catalog type_factory is null")
  | _ => Err (FailedPreconditionError $"LocalCoordinatorEngine: catalog must be a GoogleSqlCatalog")
  end.

Definition AnalyzeStatementImpl (w : W) (constants : Constants) (request : QueryRequest) (catalog : CatalogRef)
    (all_statements : bool) : StatusOr ResolvedStatement :=
  options ← BuildAnalyzerOptionsForRequest request catalog all_statements;
  output ← AnalyzeStatement w constants options (PreprocessSqlForAnalyzer (now_ms w) (request_sql request));
  match output with
  | Some stmt => Ok stmt
  | None => Err (InternalError $"LocalCoordinatorEngine: analyzer returned no resolved statement")
  end.

(** ** The schema of a SELECT, as [Analyze] and [DryRun] report it

    [schema/googlesql_to_bq.cc]: a type to the type name, the mode and the nested
    fields of a wire field. *)

Definition BqScalarName (k : TypeKind) : str :=
  match k with
  | TYPE_BOOL => $"BOOL" | TYPE_INT64 => $"INT64" | TYPE_DOUBLE => $"FLOAT64" | TYPE_STRING => $"STRING"
  | TYPE_BYTES => $"BYTES" | TYPE_DATE => $"DATE" | TYPE_TIME => $"TIME" | TYPE_DATETIME => $"DATETIME"
  | TYPE_TIMESTAMP => $"TIMESTAMP" | TYPE_NUMERIC => $"NUMERIC" | TYPE_BIGNUMERIC => $"BIGNUMERIC"
  | TYPE_JSON => $"JSON" | TYPE_GEOGRAPHY => $"GEOGRAPHY"
  | _ => []
  end.

Definition nested_array (path : str) : Status :=
  InvalidArgumentError ($"field '" ++ path ++ $"': ARRAY<ARRAY<...>> is not representable in BigQuery").

Definition unnamed_field (path : str) (i : Z) : Status :=
  InvalidArgumentError ($"field '" ++ path ++ $"': STRUCT field #" ++ StrInt i
    ++ $" has no name; BigQuery requires a name for every nested field").

Definition child_path (path name : str) : str := match path with [] => name | _ => path ++ $"." ++ name end.

(** [FillArrayField] and [FillStructFields], given the function for scalars and
    structs. *)
Section fill.
Context (fill : SqlType -> str -> StatusOr (str * list FieldSchema)).

Definition FillField (name child : str) (t : SqlType) : StatusOr FieldSchema :=
  match t with
  | TArray (TArray _) => Err (nested_array child)
  | TArray e => r ← fill e child; Ok (mkField name r.1 $"REPEATED" [] r.2)
  | t => r ← fill t child; Ok (mkField name r.1 [] [] r.2)
  end.

Definition FillStructFields (path : str) :=
  fix go (i : Z) (fs : list (str * SqlType)) : StatusOr (list FieldSchema) :=
    match fs with
    | [] => Ok []
    | (name, t) :: fs =>
        if bool_decide (name = []) then Err (unnamed_field path i)
        else
          field ← FillField name (child_path path name) t;
          rest ← go (i + 1)%Z fs;
          Ok (field :: rest)
    end.
End fill.

(** The type name and the nested fields of a scalar or a struct. *)
Fixpoint FillScalarOrStruct (type : SqlType) (path : str) : StatusOr (str * list FieldSchema) :=
  match type with
  | TStruct fs => fields ← FillStructFields FillScalarOrStruct path 0%Z fs; Ok ($"STRUCT", fields)
  | TRange e =>
      r ← FillScalarOrStruct e (path ++ $".range_element_type");
      Ok ($"RANGE", [mkField $"range_element_type" r.1 [] [] r.2])
  | t =>
      match BqScalarName (kind t) with
      | [] => Err (InvalidArgumentError ($"field '" ++ path
                ++ $"': unsupported GoogleSQL type for BigQuery reflection: " ++ DebugString (Some t)))
      | name => Ok (name, [])
      end
  end.

Definition TypeToFieldSchema (type : option SqlType) (name : str) : StatusOr FieldSchema :=
  match type with
  | None => Err (InvalidArgumentError ($"TypeToFieldSchema: column '" ++ name ++ $"' has null type"))
  | Some (TArray (TArray _)) => Err (InvalidArgumentError ($"TypeToFieldSchema: column '" ++ name
                                  ++ $"': ARRAY<ARRAY<...>> is not representable in BigQuery"))
  | Some (TArray e) => r ← FillScalarOrStruct e name; Ok (mkField name r.1 $"REPEATED" [] r.2)
  | Some t => r ← FillScalarOrStruct t name; Ok (mkField name r.1 [] [] r.2)
  end.

Definition OutputColumnListToTableSchema (output_columns : list (option OutputColumn)) : StatusOr TableSchemaProto :=
  mkTableSchemaProto <$> outcome_mapM (fun oc : option OutputColumn =>
    match oc with
    | None => Err (InvalidArgumentError $"OutputColumnListToTableSchema: null ResolvedOutputColumn entry")
    | Some oc => TypeToFieldSchema (column_type (output_column oc)) (output_name oc)
    end) output_columns.

Definition ReflectOutputSchema (q : QueryStmt) : StatusOr TableSchema :=
  proto ← OutputColumnListToTableSchema (query_output_list q); TableSchemaFromProto proto.

Definition AnalyzeSelectQuery (w : W) (constants : Constants) (request : QueryRequest) (catalog : CatalogRef)
    : StatusOr TableSchema :=
  _ ← ValidateRequest request catalog;
  stmt ← AnalyzeStatementImpl w constants request catalog false;
  match stmt with
  | RQuery q => ReflectOutputSchema q
  | _ => Err (InvalidArgumentError ($"LocalCoordinatorEngine::Analyze: only SELECT-shaped queries are supported; got "
           ++ node_kind_string stmt))
  end.

(** ** Variables on the catalog *)

(** [RegisterScriptVariablesOnCatalog] over the visible variables; the names in
    [registered] and those the catalog knows are left alone. *)
Fixpoint register_variables (vars : list (str * Value)) (constants : Constants) (registered : gset str)
    : Constants * gset str * StatusOr unit :=
  match vars with
  | [] => (constants, registered, Ok ())
  | (name, value) :: vars =>
      if decide (name ∈ registered) then register_variables vars constants registered
      else
        match constants !! AsciiStrToLower name with
        | Some _ => register_variables vars constants ({[name]} ∪ registered)
        | None =>
            match CreateConstant name value with
            | Err e => (constants, registered, Err e)
            | Ok _ => register_variables vars (<[AsciiStrToLower name := value]> constants) ({[name]} ∪ registered)
            end
        end
  end.

Definition RegisterScriptVariablesOnCatalog (variables : FrameStack Value) (constants : Constants)
    (registered : gset str) : Constants * gset str * StatusOr unit :=
  register_variables (map_to_list (VisibleBindings variables)) constants registered.

(** [RegisterExpressionColumnsOnAnalyzerOptions]. *)
Fixpoint register_columns (vars : list (str * Value)) (options : AnalyzerOptions) : StatusOr AnalyzerOptions :=
  match vars with
  | [] => Ok options
  | (name, value) :: vars =>
      match type_of value with
      | None => Err (MakeSemanticError rInvalidArgument ($"semantic: expression column '" ++ name
                       ++ $"' has no type for AnalyzeExpression registration"))
      | Some t => options ← AddExpressionColumn name t options; register_columns vars options
      end
  end.

Definition RegisterExpressionColumnsOnAnalyzerOptions (variables : FrameStack Value)
    (options : AnalyzerOptions) : StatusOr AnalyzerOptions :=
  register_columns (map_to_list (VisibleBindings variables)) options.

(** ** Types of columns *)

Section column_types.
Context (ToGoogleSqlType : ColumnSchema -> StatusOr SqlType).

Definition scalar_type (column : ColumnSchema) : StatusOr SqlType :=
  match col_type column with
  | kBool => Ok TBool
  | kInt64 => Ok TInt64
  | kFloat64 => Ok TDouble
  | kString => Ok TString
  | kBytes => Ok TBytes
  | kDate => Ok TDate
  | kTime => Ok TTime
  | kDatetime => Ok TDatetime
  | kTimestamp => Ok TTimestamp
  | kNumeric => Ok TNumeric
  | kBignumeric => Ok TBigNumeric
  | kJson => Ok TJson
  | kGeography => Ok TGeography
  | kStruct =>
      fields ← outcome_mapM (fun f => t ← ToGoogleSqlType f; Ok (col_name f, t)) (col_fields column);
      MakeStructType fields
  | kArray => Err (InvalidArgumentError ($"column '" ++ col_name column
                ++ $"' has type ARRAY but no nested element schema; use ColumnMode REPEATED on the inner type instead"))
  | kUnknown => Err (InvalidArgumentError ($"column '" ++ col_name column ++ $"' has unknown type (raw '"
                  ++ col_raw_type column ++ $"'); the analyzer cannot resolve it"))
  end.
End column_types.

Fixpoint ToGoogleSqlType (column : ColumnSchema) : StatusOr SqlType :=
  t ← scalar_type ToGoogleSqlType column;
  match col_mode column with kRepeated => MakeArrayType t | _ => Ok t end.

(** ** The reported schema is the schema of the rows *)

Fixpoint range_free (t : SqlType) : bool :=
  match t with
  | TRange _ => false
  | TArray e => range_free e
  | TStruct fs => forallb (fun f => range_free f.2) fs
  | _ => true
  end.

Definition is_array (t : SqlType) : bool := match t with TArray _ => true | _ => false end.

Context `{!AbslTextLaws}.

Lemma mode_repeated : ParseColumnMode $"REPEATED" = kRepeated.
Proof. exact (ParseColumnMode_name kRepeated). Qed.

(** A field of type [t], or an array of [t], read back from the wire. *)
Definition reflected (t : SqlType) : Prop :=
  is_array t = false -> range_free t = true -> forall path r name (repeated : bool) c,
  FillScalarOrStruct t path = Ok r ->
  ColumnSchemaFromProto (mkField name r.1 (if repeated then $"REPEATED" else []) [] r.2) = Ok c ->
  ColumnSchemaForType (if repeated then TArray t else t) name = Ok c.

Lemma scalar_reflected t ct name (repeated : bool) c :
  ct <> kUnknown ->
  ColumnSchemaFromProto (mkField name (ColumnTypeName ct) (if repeated then $"REPEATED" else []) [] []) = Ok c ->
  (forall mode : bool, ColumnSchemaForType (if mode then TArray t else t) name
     = Ok (column_of name (if mode then kRepeated else kNullable) ct [] [])) ->
  ColumnSchemaForType (if repeated then TArray t else t) name = Ok c.
Proof.
  intros N E F. cbn in E. destruct (bool_decide (name = [])); [done|].
  rewrite ParseColumnType_name, decide_False in E by done. injection E as <-. rewrite F. unfold column_of.
  destruct repeated; [by rewrite mode_repeated|done].
Qed.

Lemma leaf_column t path r :
  match t with TRange _ | TArray _ | TStruct _ => False | _ => True end -> FillScalarOrStruct t path = Ok r ->
  exists ct, r = (ColumnTypeName ct, []) /\ ct <> kUnknown /\
    forall (mode : bool) name, ColumnSchemaForType (if mode then TArray t else t) name
      = Ok (column_of name (if mode then kRepeated else kNullable) ct [] []).
Proof.
  intros L F. destruct t; try done; cbn in F; try done; injection F as <-;
    [exists kBool|exists kInt64|exists kFloat64|exists kString|exists kBytes|exists kDate|exists kTime
    |exists kDatetime|exists kTimestamp|exists kNumeric|exists kBignumeric|exists kJson|exists kGeography];
    (split; [reflexivity|]; split; [discriminate|]; intros []; reflexivity).
Qed.

Lemma leaf_reflected t : match t with TRange _ | TArray _ | TStruct _ => False | _ => True end -> reflected t.
Proof.
  intros L A R path r name repeated c F E. destruct (leaf_column t path r L F) as (ct & -> & N & C).
  by eapply scalar_reflected.
Qed.

Definition reflects (t : SqlType) : Prop := reflected t /\ forall e, t = TArray e -> reflected e.

(** The field list of [ColumnSchemaForType]. *)
Fixpoint columns_for (fs : list (str * SqlType)) : StatusOr (list ColumnSchema) :=
  match fs with
  | [] => Ok []
  | f :: fs => c ← ColumnSchemaForType f.2 f.1; cs ← columns_for fs; Ok (c :: cs)
  end.

Lemma columns_for_struct (mode : bool) fs name :
  ColumnSchemaForType (if mode then TArray (TStruct fs) else TStruct fs) name =
  (fields ← columns_for fs; Ok (column_of name (if mode then kRepeated else kNullable) kStruct [] fields)).
Proof. by destruct mode. Qed.

Lemma field_reflected t name child field c :
  reflects t -> range_free t = true -> FillField FillScalarOrStruct name child t = Ok field ->
  ColumnSchemaFromProto field = Ok c -> ColumnSchemaForType t name = Ok c.
Proof.
  intros [P A] R F E. destruct (is_array t) eqn:Ar.
  - destruct t as [| | | | | | | | | | | | | | | | | | |e|]; try done. specialize (A e eq_refl).
    destruct (is_array e) eqn:Ae; [by destruct e|].
    assert (exists r, FillScalarOrStruct e child = Ok r /\ field = mkField name r.1 $"REPEATED" [] r.2) as (r & Fr & ->).
    { destruct e; try done; cbn [FillField] in F; apply bind_Ok in F as (r & F & [= <-]); by exists r. }
    exact (A Ae R child r name true c Fr E).
  - assert (exists r, FillScalarOrStruct t child = Ok r /\ field = mkField name r.1 [] [] r.2) as (r & Fr & ->).
    { destruct t; try done; cbn [FillField] in F; apply bind_Ok in F as (r & F & [= <-]); by exists r. }
    exact (P Ar R child r name false c Fr E).
Qed.

Lemma fields_reflected path fs i fields name cs :
  Forall (fun f : str * SqlType => reflects f.2) fs -> forallb (fun f => range_free f.2) fs = true ->
  FillStructFields FillScalarOrStruct path i fs = Ok fields ->
  FieldsFromProto ColumnSchemaFromProto name fields = Ok cs -> columns_for fs = Ok cs.
Proof.
  intros F. revert i fields cs. induction F as [|[n t] fs P F IH]; intros i fields cs R E C.
  { injection E as <-. by injection C as <-. }
  cbn [FillStructFields] in E. destruct (bool_decide (n = [])); [done|].
  apply bind_Ok in E as (field & Ff & E). apply bind_Ok in E as (rest & Er & [= <-]).
  cbn [forallb snd] in R. apply andb_true_iff in R as [Rt R]. cbn [FieldsFromProto] in C.
  destruct (ColumnSchemaFromProto field) as [c|] eqn:Cf; [|done]. apply bind_Ok in C as (cs' & C & [= <-]).
  cbn [columns_for fst snd]. rewrite (field_reflected t n _ field c P Rt Ff Cf).
  cbn. by rewrite (IH _ rest cs' R Er C).
Qed.

Lemma all_reflect t : reflects t.
Proof.
  induction t as [t L|t IH|t IH|fs IH] using SqlType_nested_ind.
  - split; [by apply leaf_reflected|]. by intros e ->.
  - split; [by intros _ R|]. done.
  - split; [by intros A|]. intros e [= <-]. exact (proj1 IH).
  - split; [|done]. intros _ R path r name repeated c F E. cbn [FillScalarOrStruct] in F.
    apply bind_Ok in F as (fields & F & [= <-]). cbn [fst snd ColumnSchemaFromProto] in E.
    destruct (bool_decide (name = [])); [done|].
    change $"STRUCT" with (ColumnTypeName kStruct) in E. rewrite ParseColumnType_name, decide_False in E by done.
    apply bind_Ok in E as (cs & C & [= <-]). cbn [range_free] in R.
    rewrite columns_for_struct, (fields_reflected path fs 0 fields name cs IH R F C). cbn. unfold column_of.
    destruct repeated; [by rewrite mode_repeated|done].
Qed.

Lemma type_reflected t name f c :
  range_free t = true -> TypeToFieldSchema (Some t) name = Ok f -> ColumnSchemaFromProto f = Ok c ->
  ColumnSchemaForType t name = Ok c.
Proof.
  intros R F. apply (field_reflected t name name f c (all_reflect t) R).
  unfold TypeToFieldSchema in F. destruct t as [| | | | | | | | | | | | | | | | | | |e|]; try exact F.
  by destruct e.
Qed.

(** No output column has a RANGE anywhere in its type. *)
Definition output_range_free (q : QueryStmt) : Prop :=
  Forall (fun oc => match oc with
                    | Some oc => forall t, column_type (output_column oc) = Some t -> range_free t = true
                    | None => True
                    end) (query_output_list q).

Context `{!ExecutorParts, !ResolvedAst, !AggregateParts, !ParameterParser}.

(** C9: the schema [Analyze] and [DryRun] report for a SELECT is the schema of the
    rows the semantic executor returns for it, names, modes and nested fields
    included, when no output column has a RANGE in its type; the two are computed
    by different code, one of them through the wire format. *)
Theorem dry_run_schema_agrees request q vars sys sch sch' rows :
  output_range_free q -> ReflectOutputSchema q = Ok sch ->
  ExecuteResolvedQueryStmt request q vars sys = Ok (sch', rows) -> sch' = sch.
Proof.
  intros R D E. unfold ExecuteResolvedQueryStmt in E. destruct (is_null_scan _); [done|].
  apply bind_Ok in E as (? & _ & E). destruct (existsb _ _); [done|].
  apply bind_Ok in E as (cols & C & E). apply bind_Ok in E as (? & _ & E).
  apply bind_Ok in E as (? & _ & [= <- _]). unfold ReflectOutputSchema, OutputColumnListToTableSchema in D.
  destruct (outcome_mapM _ (query_output_list q)) as [fs|] eqn:F in D; [|done]. cbn in D.
  apply bind_Ok in D as (cols' & D & [= <-]). f_equal. apply mapM_Forall2 in C, F, D. unfold output_range_free in R.
  revert fs F cols' D. induction C as [|oc c ocs cols Ec _ IH]; intros fs F cols' D.
  { inversion F; subst. by inversion D. }
  inversion F as [|? f ? fs' Ef Fs]; subst. inversion D as [|? c' ? cs' Ec' Ds]; subst.
  apply Forall_cons in R as [Roc R]. f_equal; [|by eapply IH].
  destruct oc as [oc|]; [|done]. cbn in Ec. destruct (column_type (output_column oc)) as [t|]; [|done].
  rewrite (type_reflected t _ _ _ (Roc t eq_refl) Ef Ec') in Ec. by injection Ec.
Qed.
End analyze.
