(* ===== verification/Script.v ===== *)
(** * Script: the executor of multi-statement scripts

    Models [coordinator/script_executor.cc], [script_executor_set.cc] and
    [script_execute_immediate.cc]: one statement of a script, CALL with its
    argument frame, the bodies of stored procedures, SET, EXECUTE IMMEDIATE, and
    the loop that analyzes and runs the statements of a script one after the
    other.  A computation takes the state of the script and returns the state and
    a status, or [None] when the depth of nested calls is used up: procedures may
    call themselves without end, and the code then overflows its stack.

    The engine ([EngineOps]) runs queries, DDL and DML; [Coordinator] is its
    implementation, which calls the script executor again. *)

From S2P Require Import Prelude Order Absl AbslReference Schema RowRestriction Storage SemanticError.
From S2P Require Import ScriptText SqlPreprocess FrameStack SqlValue GoogleSqlReference Arithmetic.
From S2P Require Import Operators MathFuncs Casts EvalExpr Rows Joins SetOps Unnest AggFuncs Aggregates.
From S2P Require Import Analytic Scans ScanProps StorageValues Dml SemanticExecutor Parameters Analyze.

(** ** Stored procedures *)

(** [catalog/procedure_registry.cc]: the procedures of a project, oldest first. *)
Definition ProcedureRegistry `{GoogleSql, ExecutorNodes} : Type := gmap str (list StoredSQLProcedure).

Section registry.
Context `{AbslText, GoogleSql, ExecutorNodes}.

Definition named_procedure (name : str) (p : StoredSQLProcedure) : bool := EqualsIgnoreCase (proc_Name p) name.

Fixpoint remove_procedure (name : str) (l : list StoredSQLProcedure) : option (list StoredSQLProcedure) :=
  match l with
  | [] => None
  | p :: l => if named_procedure name p then Some l else cons p <$> remove_procedure name l
  end.

Definition RegisterProjectProcedure (reg : ProcedureRegistry) (project : str) (p : StoredSQLProcedure)
    : ProcedureRegistry * StatusOr unit :=
  match project, proc_name_path p with
  | [], _ => (reg, Err (InvalidArgumentError $"procedure_registry: project_id must be non-empty"))
  | _, [] => (reg, Err (InvalidArgumentError $"create_procedure_util: CREATE PROCEDURE has empty name_path"))
  | _, _ =>
      let l := default [] (reg !! project) in
      let kept := default l (remove_procedure (proc_Name p) l) in
      (<[project := kept ++ [p]]> reg, Ok ())
  end.

Definition DropProjectProcedure (reg : ProcedureRegistry) (project name : str)
    : ProcedureRegistry * StatusOr unit :=
  match project, name with
  | [], _ | _, [] => (reg, Err (InvalidArgumentError
                        $"procedure_registry: project_id and procedure_name must be non-empty"))
  | _, _ =>
      match reg !! project ≫= remove_procedure name with
      | Some l => (<[project := l]> reg, Ok ())
      | None => (reg, Err (NotFoundError ($"procedure not found: " ++ name)))
      end
  end.

Definition FindProjectProcedure (reg : ProcedureRegistry) (project name : str) : option StoredSQLProcedure :=
  match project, name with
  | [], _ | _, [] => None
  | _, _ => reg !! project ≫= List.find (named_procedure name)
  end.
End registry.

(** ** State and computations *)

Section script.
Context {W : Type} `{AbslText, AbslDouble, GoogleSqlOps, ExecutorNodes}.
Context `{!CastLibrary, !ValueText, !ResolvedAst, !ParameterLibrary, !ParameterParser, !AnalyzerLibrary W}.

(** What the evaluator reads of the engine's state: its functions. *)
Context (parts : W -> ExecutorParts).

(** The engine's state, the stored procedures, the system variables of the
    projects, and the constants of the catalog of the request. *)
Record Session := mkSession {
  world : W;
  procedures : ProcedureRegistry;
  system_variables : SystemVariables;
  catalog_constants : Constants;
}.

(** The evaluator reads system variables from the session. *)
Definition session_parts (s : Session) : ExecutorParts :=
  let P := parts (world s) in
  {| kTemplatedSQLFunctionGroup := kTemplatedSQLFunctionGroup; kSQLFunctionGroup := kSQLFunctionGroup;
     EvalSubqueryExpr := EvalSubqueryExpr; EvalUdafInnerAggregate := EvalUdafInnerAggregate;
     EvalUdafInnerFunctionCall := EvalUdafInnerFunctionCall; JsonGetField := JsonGetField;
     GetSystemVariable := GetSystemVariable_ (system_variables s);
     functions_Dispatch := functions_Dispatch; stubs_Dispatch := stubs_Dispatch;
     Extract := Extract; ExtractDateFromTimestamp := ExtractDateFromTimestamp;
     EmuFormatTypeLiteral := EmuFormatTypeLiteral;
     IsProjectRegisteredFunction := IsProjectRegisteredFunction;
     LookupProjectJsUdf := LookupProjectJsUdf; LookupProjectPythonUdf := LookupProjectPythonUdf;
     EvalJsUdfCall := EvalJsUdfCall; EvalPythonUdfCall := EvalPythonUdfCall |}.

(** The variables of the driver and the last result of the script. *)
Record ScriptState := mkScript {
  session : Session;
  driver : FrameStack Value;
  final_rows : option RowSource;
}.

Definition Run (S A : Type) : Type := S -> option (S * StatusOr A).
Definition Script (A : Type) : Type := Run ScriptState A.

#[global] Instance run_ret S : MRet (Run S) := fun _ a s => Some (s, Ok a).
#[global] Instance run_bind S : MBind (Run S) := fun _ _ k m s =>
  match m s with
  | None => None
  | Some (s, Err e) => Some (s, Err e)
  | Some (s, Ok a) => k a s
  end.

Definition out_of_depth {S A} : Run S A := fun _ => None.
Definition fail {S A} (e : Status) : Run S A := fun s => Some (s, Err e).
Definition of_status_or {S A} (r : StatusOr A) : Run S A := fun s => Some (s, r).
Definition get_state {S} : Run S S := fun s => Some (s, Ok s).

(** A step of the engine inside a script. *)
Definition in_session {A} (m : Run Session A) : Script A := fun st =>
  match m (session st) with
  | None => None
  | Some (s, r) => Some (mkScript s (driver st) (final_rows st), r)
  end.

Definition on_driver (f : FrameStack Value -> FrameStack Value * StatusOr unit) : Script unit := fun st =>
  let '(d, r) := f (driver st) in Some (mkScript (session st) d (final_rows st), r).

Definition set_final_rows (rows : RowSource) : Script unit := fun st =>
  Some (mkScript (session st) (driver st) (Some rows), Ok ()).

(** The operations of [LocalCoordinatorEngine] a script uses. *)
Record EngineOps := mkEngine {
  engine_ExecuteResolvedStatement : QueryRequest -> ResolvedStatement -> CatalogRef ->
    option (FrameStack Value) -> option (gmap (list str) Value) -> Run Session RowSource;
  engine_ExecuteDdl : QueryRequest -> CatalogRef -> Run Session unit;
  engine_ExecuteDml : QueryRequest -> CatalogRef -> Run Session (DmlStats * option RowSource);
}.

Definition with_sql (request : QueryRequest) (sql : str) : QueryRequest :=
  mkRequest (request_project_id request) (default_dataset_id request) sql (request_parameters request)
    (use_legacy_sql request).

(** [RegisterScriptVariablesOnCatalogFromDriver]. *)
Definition register_on_catalog (registered : gset str) : Script (gset str) := fun st =>
  let '(constants, registered, r) :=
    RegisterScriptVariablesOnCatalog (driver st) (catalog_constants (session st)) registered in
  Some (mkScript (mkSession (world (session st)) (procedures (session st)) (system_variables (session st)) constants) (driver st)
          (final_rows st), (fun _ => registered) <$> r).

(** ** SET *)

Definition EvalExpressionScalar (request : QueryRequest) (expr : str) (catalog : CatalogRef)
    : Script Value := fun st =>
  let s := session st in
  let P := session_parts s in
  Some (st,
    options ← BuildAnalyzerOptionsForRequest request catalog false;
    options ← RegisterExpressionColumnsOnAnalyzerOptions (driver st) options;
    output ← AnalyzeExpression (world s) (catalog_constants s) options expr;
    match output with
    | None => Err (InternalError $"script::EvalExpressionScalar: analyzer returned null expression")
    | Some e => EvalExpr e (PopulateExpressionColumns (driver st)
                              (script_context (request_project_id request) (driver st)))
    end).

Definition ExecuteProcedureSet (request : QueryRequest) (target_name expr : str) (catalog : CatalogRef)
    : Script unit :=
  value ← EvalExpressionScalar request expr catalog;
  on_driver (fun d => set_variable $"script::ExecuteProcedureSet" d target_name value).

(** The exception of [std::string::substr] past the end.  Nothing catches it: the
    process ends; the computation ends here with this value. *)
Definition uncaught_out_of_range : Status := InternalError $"std::out_of_range: basic_string::substr".

(** The target and the expression of a SET: the text after its first four bytes. *)
Definition split_set (who stmt : str) : StatusOr (str * str) :=
  if length stmt <? 4 then Err uncaught_out_of_range
  else
    match set_parts (drop 4 stmt) with
    | Some p => Ok p
    | None => Err (InvalidArgumentError (who ++ $": malformed SET statement"))
    end.

(** ** CALL *)

Definition ScriptVariableNameFromExpr (e : ResolvedExpr) : str :=
  match e with EConstant (Some c) _ => const_Name c | _ => [] end.

(** The procedure a CALL runs: the one the catalog returned, or the one of the
    project with that name. *)
Definition called_procedure (s : Session) (request : QueryRequest) (c : CallStmt) : option StoredSQLProcedure :=
  match call_procedure c with
  | None => None
  | Some (_, Some p) => Some p
  | Some (name, None) => FindProjectProcedure (procedures s) (request_project_id request) name
  end.

Definition NullForType (t : option SqlType) : Value :=
  match t with
  | Some TInt64 => SNull TInt64
  | Some TFloat => SNull TFloat
  | Some TDouble => SNull TDouble
  | Some TBool => SNull TBool
  | Some (TArray e) => SNull (TArray e)
  | Some (TStruct fs) => SNull (TStruct fs)
  | _ => SNull TString
  end.

(** The formal arguments with the types of the signature. *)
Definition formals_of (proc : StoredSQLProcedure) (signature : list (option SqlType))
    : list (str * option SqlType) :=
  let names := argument_name_list proc in zip names (signature ++ replicate (length names) None).

(** The frame of the arguments, and the variables of the caller that receive the
    arguments after the call. *)
Fixpoint bind_arguments (project : str) (st : ScriptState) (formals : list (str * option SqlType))
    (arguments : list ResolvedExpr) (proc_args : FrameStack Value) (out_bindings : list (str * str))
    : StatusOr (FrameStack Value * list (str * str)) :=
  let P := session_parts (session st) in
  match formals, arguments with
  | (formal, type) :: formals, arg :: arguments =>
      if is_null_expr arg
      then Err (InvalidArgumentError $"script::ExecuteCall: null argument expression")
      else
        let caller := ScriptVariableNameFromExpr arg in
        value ← (match caller with
                 | [] => EvalExpr arg (mkContext project None None None None (Some (driver st)) None None None None None)
                 | _ => Ok (match Lookup (driver st) caller with Ok v => v | Err _ => NullForType type end)
                 end);
        match Declare_ proc_args formal value with
        | (_, Err e) => Err e
        | (proc_args, Ok _) =>
            bind_arguments project st formals arguments proc_args
              (match caller with [] => out_bindings | _ => out_bindings ++ [(formal, caller)] end)
        end
  | _, _ => Ok (proc_args, out_bindings)
  end.

(** The arguments copied back to the variables of the caller. *)
Fixpoint copy_back (proc_args : FrameStack Value) (out_bindings : list (str * str)) : Script unit :=
  match out_bindings with
  | [] => mret ()
  | (formal, caller) :: out_bindings =>
      value ← of_status_or (Lookup proc_args formal);
      _ ← on_driver (fun d => Set_ d caller value);
      copy_back proc_args out_bindings
  end.

(** A computation over other variables: it changes the session, and returns the
    variables it leaves. *)
Definition with_variables (variables : FrameStack Value) (m : Script unit) : Script (FrameStack Value) := fun st =>
  match m (mkScript (session st) variables None) with
  | None => None
  | Some (st', r) => Some (mkScript (session st') (driver st) (final_rows st), (fun _ => driver st') <$> r)
  end.

(** A computation whose rows are ignored. *)
Definition ignoring_rows (m : Script unit) : Script unit := fun st =>
  match m (mkScript (session st) (driver st) None) with
  | None => None
  | Some (st', r) => Some (mkScript (session st') (driver st') (final_rows st), r)
  end.

Definition analyze (request : QueryRequest) (catalog : CatalogRef) : Script ResolvedStatement := fun st =>
  let s := session st in
  Some (st, AnalyzeStatementImpl (world s) (catalog_constants s) request catalog true).

Section nested.
Context (engine : EngineOps).

(** [ExecuteOneScriptStatement] one call deeper. *)
Context (execute_one : QueryRequest -> ResolvedStatement -> CatalogRef -> option (gmap (list str) Value) ->
  Script unit).

Fixpoint run_body (request : QueryRequest) (statements : list str) (catalog : CatalogRef) : Script unit :=
  match statements with
  | [] => mret ()
  | stmt_sql :: statements =>
      let trimmed := StripAsciiWhitespace stmt_sql in
      _ ← (if bool_decide (trimmed = []) then mret ()
           else if StartsWithIgnoreCase trimmed $"SET " then
             p ← of_status_or (split_set $"script::ExecuteProcedureBody" trimmed);
             ExecuteProcedureSet request p.1 p.2 catalog
           else
             let body_request := with_sql request trimmed in
             resolved ← analyze body_request catalog;
             ignoring_rows (execute_one body_request resolved catalog None));
      run_body request statements catalog
  end.

Definition ExecuteProcedureBody (request : QueryRequest) (body : str) (arg_frame : FrameStack Value)
    (catalog : CatalogRef) : Script (FrameStack Value) :=
  if negb (is_bigquery_catalog catalog)
  then fail (FailedPreconditionError $"script::ExecuteProcedureBody: catalog must be GoogleSqlCatalog")
  else
    with_variables arg_frame
      (_ ← register_on_catalog ∅;
       run_body request (SplitSemicolonStatements (StripBeginEnd body)) catalog).

Definition ExecuteCallStmt (request : QueryRequest) (stmt : CallStmt) (catalog : CatalogRef) : Script unit :=
  match call_procedure stmt with
  | None => fail (InvalidArgumentError $"script::ExecuteCall: CALL has null procedure")
  | Some (name, _) =>
      st ← get_state;
      match called_procedure (session st) request stmt with
      | None => fail (MakeSemanticError rInvalidArgument
                  ($"script::ExecuteCall: procedure '" ++ name ++ $"' not found"))
      | Some proc =>
          if negb (length (argument_name_list proc) =? length (call_arguments stmt))
          then fail (InvalidArgumentError $"script::ExecuteCall: argument count mismatch")
          else
            bound ← of_status_or (bind_arguments (request_project_id request) st
                      (formals_of proc (call_signature stmt)) (call_arguments stmt)
                      (PushFrame NewFrameStack) []);
            proc_args ← ExecuteProcedureBody request (procedure_body proc) bound.1 catalog;
            copy_back proc_args bound.2
      end
  end.

(** ** EXECUTE IMMEDIATE *)

Definition SqlLiteralToString (e : ResolvedExpr) : Script str := fun st =>
  let P := session_parts (session st) in
  Some (st, Ok (match EvalExpr e (mkContext [] None None None None None None None None None None) with
                | Ok (SString s) => s
                | Ok (SNull _) | Err _ => []
                | Ok v => ValueDebugString v
                end)).

Definition ExecuteExecuteImmediate (request : QueryRequest) (sql : ResolvedExpr) (catalog : CatalogRef)
    : Script unit :=
  if is_null_expr sql
  then fail (InvalidArgumentError $"script::ExecuteExecuteImmediate: null sql expression")
  else
    dynamic_sql ← SqlLiteralToString sql;
    if bool_decide (dynamic_sql = [])
    then fail (MakeSemanticError rInvalidArgument
           $"script::ExecuteExecuteImmediate: dynamic SQL must be a non-null STRING literal")
    else if negb (is_bigquery_catalog catalog)
    then fail (FailedPreconditionError $"script::ExecuteExecuteImmediate: catalog must be GoogleSqlCatalog")
    else
      _ ← register_on_catalog ∅;
      let dynamic_request := with_sql request dynamic_sql in
      resolved ← analyze dynamic_request catalog;
      ignoring_rows (execute_one dynamic_request resolved catalog None).

(** ** One statement *)

Definition script_not_implemented (stmt : ResolvedStatement) : Status :=
  MakeSemanticError rNotImplemented
    ($"script: statement kind " ++ node_kind_string stmt ++ $" is not yet implemented").

Definition execute_statement (request : QueryRequest) (stmt : ResolvedStatement) (catalog : CatalogRef)
    (system_vars : option (gmap (list str) Value)) : Script unit :=
  match stmt with
  | RCreateConstant s => fun st =>
      let P := session_parts (session st) in on_driver (ExecuteDeclare request s) st
  | RAssignment s => fun st =>
      let P := session_parts (session st) in on_driver (ExecuteScriptAssignment request s) st
  | RAssert s => fun st =>
      let P := session_parts (session st) in Some (st, ExecuteAssert request s)
  | RCall s => ExecuteCallStmt request s catalog
  | RQuery _ =>
      st ← get_state;
      rows ← in_session (engine_ExecuteResolvedStatement engine request stmt catalog (Some (driver st)) system_vars);
      set_final_rows rows
  | RDdl CreateModel => fail (script_not_implemented stmt)
  | RDdl _ => in_session (engine_ExecuteDdl engine request catalog)
  | RDml (GeneralizedQuery _) | RDml (OtherStatement _) => fail (script_not_implemented stmt)
  | RDml _ => _ ← in_session (engine_ExecuteDml engine request catalog); mret ()
  | RExecuteImmediate sql => ExecuteExecuteImmediate request sql catalog
  | RMulti _ | ROther _ => fail (script_not_implemented stmt)
  end.
End nested.

Context (engine : EngineOps).

Fixpoint ExecuteOneScriptStatement (depth : nat) (request : QueryRequest) (stmt : ResolvedStatement)
    (catalog : CatalogRef) (system_vars : option (gmap (list str) Value)) : Script unit :=
  match depth with
  | 0 => out_of_depth
  | S depth => execute_statement engine (ExecuteOneScriptStatement depth) request stmt catalog system_vars
  end.

(** ** Scripts the analyzer returns as one statement *)

Fixpoint ExecuteStatementList (depth : nat) (request : QueryRequest)
    (statement_list : list (option ResolvedStatement)) (catalog : CatalogRef) : Script unit :=
  match statement_list with
  | [] => mret ()
  | None :: _ => fail (InternalError $"script: MultiStmt child is null")
  | Some child :: statement_list =>
      _ ← ExecuteOneScriptStatement depth request child catalog None;
      ExecuteStatementList depth request statement_list catalog
  end.

(** The rows of a script: those of its last SELECT. *)
Definition script_rows (rows : option RowSource) : RowSource := default (mkTableSchema [], []) rows.

(** A script from its first statement on, with new variables. *)
Definition run_script (m : Script unit) : Run Session RowSource := fun s =>
  match m (mkScript s NewFrameStack None) with
  | None => None
  | Some (st, r) => Some (session st, (fun _ => script_rows (final_rows st)) <$> r)
  end.

Definition ExecuteMultiStmtScript (depth : nat) (request : QueryRequest)
    (statement_list : list (option ResolvedStatement)) (catalog : CatalogRef) : Run Session RowSource :=
  run_script (ExecuteStatementList depth request statement_list catalog).
End script.
