(* ===== verification/ControlOps.v ===== *)
(** * ControlOps: the statement handlers of the control-op executor

    Models [backend/engine/control/control_op_ddl.cc], [control_op_alter_table.cc],
    [control_op_time_travel.cc], [control_op_materialized_view.cc],
    [control_op_load_data.cc], [control_op_export_data.cc] and
    [control_op_executor.cc]: CREATE, DROP and ALTER TABLE, CREATE TABLE AS SELECT,
    clones and snapshots, UNDROP, LOAD DATA and EXPORT DATA, over any store.  The
    transpiler that writes the SELECT of a statement is a parameter
    ([select_transpile]), as is the reading of stored DDL after UNDROP
    ([RehydrateRoutineRecord], [RehydrateViewRecord]); TRUNCATE is in [Coordinator].
    The theorems are in [ControlProps]. *)

From S2P Require Import Prelude Order Absl AbslReference Schema RowRestriction Storage DuckDbSql VersionLog SemanticError FrameStack.
From S2P Require Import SidecarJson FileTree SqlValue GoogleSqlReference Arithmetic Operators MathFuncs Casts EvalExpr Rows AggFuncs.
From S2P Require Import StorageValues Dml ArrowToBq ObjectRegistry SemanticExecutor Parameters Analyze Script EngineSql ControlText.

(** ** Statements *)

Inductive CreateMode := CREATE_DEFAULT | CREATE_OR_REPLACE | CREATE_IF_NOT_EXISTS.

(** [ResolvedColumnDefinition]; a definition without annotations is nullable. *)
Record ColumnDefinition := mkColumnDef { def_name : str; def_type : option SqlType; not_null : bool }.

(** [ResolvedAlterAction]: the last are the kinds no handler knows, by their name. *)
Inductive AlterAction :=
| AddColumn (definition : option ColumnDefinition) (is_if_not_exists : bool)
| DropColumn (name : str) (is_if_exists : bool)
| RenameColumn (name new_name : str) (is_if_exists : bool)
| SetOptions
| OtherAction (kind_string : str).

Record AlterTableStmt := mkAlterTable {
  alter_name_path : list str; alter_if_exists : bool; alter_action_list : list (option AlterAction) }.

(** What the handlers look at of a scan to clone. *)
Inductive CloneScan `{GoogleSql, ExecutorNodes} :=
| CloneTableScan (table : option QueryTable) (for_system_time_expr : option ResolvedExpr)
| CloneFilterScan (input_scan : option CloneScan)
| CloneOtherScan.

Record CreateTableStmt `{GoogleSql, ExecutorNodes} := mkCreateTable {
  create_name_path : list str;
  create_mode : CreateMode;
  create_columns : list (option ColumnDefinition);
  clone_from : option CloneScan;
}.

Record CreateSnapshotStmt `{GoogleSql, ExecutorNodes} := mkCreateSnapshot {
  snapshot_name_path : list str; snapshot_mode : CreateMode; snapshot_clone_from : option CloneScan }.

(** [ResolvedCloneDataStmt]: the table of the target scan, when there is a scan. *)
Record CloneDataStmt `{GoogleSql, ExecutorNodes} := mkCloneData {
  clone_target : option (option QueryTable); clone_source : option CloneScan }.

Arguments mkCreateTable {_ _}.
Arguments mkCreateSnapshot {_ _}.
Arguments mkCloneData {_ _}.

(** ** Names and schemas *)

Section names.
Context `{AbslText}.

Definition ddl_target : str := $"control op executor: DDL target name must be <dataset>.<table> or "
  ++ $"<project>.<dataset>.<table>; got ".

Definition NamePathToTableId (name_path : list str) (default_project_id default_dataset_id : str) : StatusOr TableId :=
  match flatten_path name_path with
  | [t] =>
      match default_dataset_id with
      | [] => Err (InvalidArgumentError (ddl_target ++ $"1 segment (" ++ t
                ++ $") with no defaultDataset in the query request"))
      | d => Ok (mkTableId default_project_id d t)
      end
  | [d; t] => Ok (mkTableId default_project_id d t)
  | [p; d; t] => Ok (mkTableId p d t)
  | segments => Err (InvalidArgumentError (ddl_target ++ StrInt (Z.of_nat (length segments)) ++ $" segments"))
  end.

Definition NamePathToDatasetId (name_path : list str) (default_project_id : str) : StatusOr DatasetId :=
  match flatten_path name_path with
  | [d] => Ok (mkDatasetId default_project_id d)
  | [p; d] => Ok (mkDatasetId p d)
  | segments => Err (InvalidArgumentError ($"control op executor: DDL schema target must be <dataset> or "
                  ++ $"<project>.<dataset>; got " ++ StrInt (Z.of_nat (length segments)) ++ $" segments"))
  end.
End names.

Section schemas.
Context `{AbslText, GoogleSqlOps}.

Definition ApplyAnnotations (def : ColumnDefinition) (field : FieldSchema) : FieldSchema :=
  if bool_decide (f_mode field = $"REPEATED") || negb (not_null def) then field
  else mkField (f_name field) (f_type field) $"REQUIRED" (f_description field) (f_fields field).

Definition definition_field (def : ColumnDefinition) : StatusOr FieldSchema :=
  ApplyAnnotations def <$> TypeToFieldSchema (def_type def) (def_name def).

Definition ColumnDefinitionListToTableSchema (defs : list (option ColumnDefinition)) : StatusOr TableSchema :=
  fields ← outcome_mapM (fun def =>
    match def with
    | None => Err (InvalidArgumentError $"control op executor: column_definition_list has a null entry")
    | Some def => definition_field def
    end) defs;
  TableSchemaFromProto (mkTableSchemaProto fields).
End schemas.

(** ** Tables *)

Section tables.
Context {S : Type} `{AbslText, AbslDouble, GoogleSqlOps, ExecutorNodes} `{!CastLibrary, !ExecutorParts, !ValueText, !ParameterParser}.
Context `{CatalogStore S, Storage S, !RewritableStorage S} `{VectorMemory, !InMemoryDb S}.

Definition drop_table (t : TableId) : Op S unit := fun s => DropTable s t.
Definition create_table (t : TableId) (sch : TableSchema) : Op S unit := fun s => CreateTable s t sch.
Definition append_rows (t : TableId) (rows : list Storage.Row) : Op S unit := fun s => AppendRows s t rows.
Definition overwrite_rows (t : TableId) (rows : list Storage.Row) : Op S unit := fun s => OverwriteRows s t rows.

(** A status that is looked at, with an error of one code taken as success. *)
Definition tolerating (c : StatusCode) (m : Op S unit) : Op S unit := fun s =>
  let '(s', r) := m s in (s', tolerate c r).

(** No call for no rows. *)
Definition append_some (t : TableId) (rows : list Storage.Row) : Op S unit :=
  match rows with [] => mret () | _ => append_rows t rows end.

Definition EnsureDatasetExists (project_id dataset_id : str) : Op S unit :=
  match dataset_id with
  | [] => op_fail (InvalidArgumentError $"EnsureDatasetExists: dataset_id must be non-empty")
  | _ => tolerating kAlreadyExists (fun s => CreateDataset s (mkDatasetId project_id dataset_id) $"US")
  end.

Definition ApplyCreateMode (created : Op S unit) (mode : CreateMode) : Op S unit :=
  match mode with CREATE_IF_NOT_EXISTS => tolerating kAlreadyExists created | _ => created end.

Definition drop_if_replaced (mode : CreateMode) (t : TableId) : Op S unit :=
  match mode with CREATE_OR_REPLACE => tolerating kNotFound (drop_table t) | _ => mret () end.

(** *** Clones *)

Fixpoint UnwrapTableScan (scan : CloneScan) : option (option QueryTable * option ResolvedExpr) :=
  match scan with
  | CloneTableScan table time => Some (table, time)
  | CloneFilterScan (Some input) => UnwrapTableScan input
  | CloneFilterScan None | CloneOtherScan => None
  end.

(** [EvaluateForSystemTimeAsOfMs] of [duckdb_executor_time_travel.cc], in an empty
    context.  Timestamps are in picoseconds. *)
Definition EvaluateForSystemTimeAsOfMs (expr : ResolvedExpr) : StatusOr Z :=
  v ← EvalExpr expr (mkContext [] None None None None None None None None None None);
  if is_null v then Err (InvalidArgumentError $"FOR SYSTEM_TIME AS OF expression must not be NULL")
  else if negb (is_kind v TYPE_TIMESTAMP)
  then Err (InvalidArgumentError $"FOR SYSTEM_TIME AS OF expression must resolve to TIMESTAMP")
  else Ok (ToUnixPicos v / 1000000000)%Z.

Definition AsOfMsFromScan (scan : CloneScan) : StatusOr (option Z) :=
  match UnwrapTableScan scan with
  | Some (_, Some expr) => Some <$> EvaluateForSystemTimeAsOfMs expr
  | _ => Ok None
  end.

(** The name, the id and the schema of a storage-backed source. *)
Definition StorageTableFromScan (scan : CloneScan) : StatusOr (str * TableId * TableSchema) :=
  match UnwrapTableScan scan with
  | Some (Some (StorageTable name _ id sch), _) => Ok (name, id, sch)
  | Some (Some table, _) => Err (FailedPreconditionError ($"control op executor: clone source '" ++ Name table
                              ++ $"' is not a storage-backed table"))
  | _ => Err (InvalidArgumentError $"control op executor: clone source must be a base table scan")
  end.

Definition open_failed : str := $"control op executor: duckdb_open(in-memory) failed".
Definition connect_failed : str := $"control op executor: duckdb_connect failed".
Definition read_back_failed : str := $"ControlOpExecutor: failed to read back DDL target ".

(** The rows of a source, read through a connection without the UDFs. *)
Definition clone_rows (source : str * TableId * TableSchema) (as_of_ms : option Z) (sch : TableSchema)
    : Op S (list Storage.Row) :=
  let '(name, id, source_schema) := source in
  with_session open_failed connect_failed false
    (_ ← control_AttachStorageTableAt name id source_schema (QuoteIdent name) as_of_ms;
     DrainTableRows read_back_failed (QuoteIdent name) sch).

Definition MaterializeCloneIntoTarget (target : TableId) (source : str * TableId * TableSchema) (as_of_ms : option Z)
    (mode : CreateMode) : Op S unit :=
  sch ← op_reads (fun s => GetSchema s source.1.2);
  _ ← drop_if_replaced mode target;
  _ ← ApplyCreateMode (create_table target sch) mode;
  rows ← clone_rows source as_of_ms sch;
  match rows with [] => mret () | _ => overwrite_rows target rows end.

Definition MaterializeCloneIntoExistingTarget (target : TableId) (source : str * TableId * TableSchema)
    (as_of_ms : option Z) : Op S unit :=
  _ ← op_reads (fun s => GetSchema s target);
  sch ← op_reads (fun s => GetSchema s source.1.2);
  rows ← clone_rows source as_of_ms sch;
  overwrite_rows target rows.

Definition clone_into_named (missing : str) (name_path : list str) (mode : CreateMode) (from : option CloneScan)
    (project_id default_dataset_id : str) : Op S unit :=
  match from with
  | None => op_fail (InvalidArgumentError missing)
  | Some scan =>
      target ← op_lift (NamePathToTableId name_path project_id default_dataset_id);
      _ ← EnsureDatasetExists (Storage.project_id target) (dataset_id target);
      source ← op_lift (StorageTableFromScan scan);
      as_of_ms ← op_lift (AsOfMsFromScan scan);
      MaterializeCloneIntoTarget target source as_of_ms mode
  end.

Definition RunCreateTableClone (project_id default_dataset_id : str) (stmt : CreateTableStmt) : Op S unit :=
  clone_into_named $"control op executor: CREATE TABLE CLONE missing clone_from scan" (create_name_path stmt)
    (create_mode stmt) (clone_from stmt) project_id default_dataset_id.

Definition RunCreateSnapshotTable (project_id default_dataset_id : str) (stmt : CreateSnapshotStmt) : Op S unit :=
  clone_into_named $"control op executor: CREATE SNAPSHOT TABLE missing clone_from scan" (snapshot_name_path stmt)
    (snapshot_mode stmt) (snapshot_clone_from stmt) project_id default_dataset_id.

Definition RunCloneData (stmt : CloneDataStmt) : Op S unit :=
  match clone_target stmt, clone_source stmt with
  | None, _ | _, None =>
      op_fail (InvalidArgumentError $"control op executor: CLONE DATA missing target or source scan")
  | Some None, _ => op_fail (InvalidArgumentError $"control op executor: CLONE DATA target_table has no table")
  | Some (Some (StorageTable _ _ id _)), Some scan =>
      source ← op_lift (StorageTableFromScan scan);
      as_of_ms ← op_lift (AsOfMsFromScan scan);
      MaterializeCloneIntoExistingTarget id source as_of_ms
  | Some (Some _), _ =>
      op_fail (FailedPreconditionError $"control op executor: CLONE DATA target is not storage-backed")
  end.

(** *** CREATE TABLE *)

Definition RunCreateTable (project_id default_dataset_id : str) (stmt : CreateTableStmt) : Op S unit :=
  match clone_from stmt with
  | Some _ => RunCreateTableClone project_id default_dataset_id stmt
  | None =>
      target ← op_lift (NamePathToTableId (create_name_path stmt) project_id default_dataset_id);
      _ ← EnsureDatasetExists (Storage.project_id target) (dataset_id target);
      sch ← op_lift (ColumnDefinitionListToTableSchema (create_columns stmt));
      _ ← drop_if_replaced (create_mode stmt) target;
      ApplyCreateMode (create_table target sch) (create_mode stmt)
  end.

(** *** Tables from a query *)

(** A statement that stores the rows of a query: what the transpiler reads of it, when
    there is a query, and the tables it scans, in the order of a set of pointers. *)
Context {Query : Type}.

Record CreateFromQuery := mkCreateFromQuery {
  cq_name_path : list str;
  cq_mode : CreateMode;
  cq_columns : list (option ColumnDefinition);
  cq_query : option Query;
  cq_tables : list QueryTable;
}.

(** The handlers of CREATE TABLE AS SELECT and of CREATE MATERIALIZED VIEW are copies
    of each other that differ in these points. *)
Record SelectStyle := mkSelectStyle {
  select_open_failed : str;
  select_connect_failed : str;
  (** around the name of a table that cannot be attached *)
  select_cannot_attach : str * str;
  select_null_query : str;
  (** [Transpiler::EmitCtasSelect] or [TranspileScan], with [parameter_order] *)
  select_transpile : Query -> str * list ParameterRef;
  select_untranspiled : str;
  select_rejected : str;
}.

Definition ctas_style (EmitCtasSelect : Query -> str * list ParameterRef) : SelectStyle :=
  mkSelectStyle $"ControlOpExecutor::ExecuteDdl: duckdb_open(in-memory) failed"
    $"ControlOpExecutor::ExecuteDdl: duckdb_connect failed"
    ($"ControlOpExecutor::ExecuteDdl: cannot attach non-StorageTable '",
     $"' for CTAS; rebuild against a GoogleSqlCatalog-backed analyzer")
    $"ControlOpExecutor::ExecuteDdl: CTAS has null query scan" EmitCtasSelect
    $"control op executor: CTAS query scan did not transpile to DuckDB SQL"
    $"ControlOpExecutor: DuckDB rejected CTAS: ".

Definition view_style (TranspileScan : Query -> str * list ParameterRef) : SelectStyle :=
  mkSelectStyle open_failed connect_failed
    ($"control op executor: cannot attach non-StorageTable '", $"' for CREATE MATERIALIZED VIEW")
    $"control op executor: CREATE MATERIALIZED VIEW has null query scan" TranspileScan
    $"control op executor: CREATE MATERIALIZED VIEW query did not transpile to DuckDB SQL"
    $"control op executor: DuckDB rejected materialized view: ".

Definition transpiled (untranspiled : str) (t : str * list ParameterRef) (parameters : list QueryParameter) : StatusOr str :=
  match t with
  | ([], _) => Err (UnimplementedError untranspiled)
  | (sql, order) => SubstituteDuckdbParameters control_style control_parameter_literal sql order parameters
  end.

Definition is_temp_sql (sql : str) : bool := str_contains sql $"CREATE TEMP" || str_contains sql $"create temp".

Definition quoted_target (is_temp : bool) (t : TableId) : str :=
  if is_temp then QuoteIdent (table_id t) else QuoteIdent (dataset_id t) ++ $"." ++ QuoteIdent (table_id t).

(** [BuildDuckdbCtasSql], [BuildMaterializeSql]. *)
Definition BuildCreateSql (style : SelectStyle) (sql : str) (query : option Query) (target : TableId)
    (parameters : list QueryParameter) : StatusOr str :=
  match query with
  | None => Err (InternalError (select_null_query style))
  | Some q =>
      select_sql ← transpiled (select_untranspiled style) (select_transpile style q) parameters;
      Ok ($"CREATE " ++ (if is_temp_sql sql then $"OR REPLACE TEMP " else []) ++ $"TABLE "
          ++ quoted_target (is_temp_sql sql) target ++ $" AS " ++ select_sql)
  end.

Abbreviation Session := (Op (connection * S)).

(** [AttachCollectorTables]: every table of a query at its bare name. *)
Definition AttachCollectorTables (cannot : str * str) (tables : list QueryTable) : Session unit :=
  op_iter (fun table =>
    match table with
    | StorageTable name _ id sch => control_AttachStorageTableAt name id sch (QuoteIdent name) None
    | _ => op_fail (FailedPreconditionError (cannot.1 ++ Name table ++ cannot.2))
    end) tables.

Definition EnsureTargetSchemaExistsIfNeeded (target : TableId) (is_temp : bool) : Session unit :=
  if is_temp then mret ()
  else RunSqlNoResult control_style ($"CREATE SCHEMA IF NOT EXISTS " ++ QuoteIdent (dataset_id target)).

(** The body of both handlers. *)
Definition RunCreateFromQuery (style : SelectStyle) (request : QueryRequest) (stmt : CreateFromQuery) : Op S unit :=
  target ← op_lift (NamePathToTableId (cq_name_path stmt) (request_project_id request) (default_dataset_id request));
  _ ← EnsureDatasetExists (Storage.project_id target) (dataset_id target);
  sch ← op_lift (ColumnDefinitionListToTableSchema (cq_columns stmt));
  let is_temp := is_temp_sql (request_sql request) in
  with_session (select_open_failed style) (select_connect_failed style) true
    (_ ← EnsureTargetSchemaExistsIfNeeded target is_temp;
     _ ← AttachCollectorTables (select_cannot_attach style) (cq_tables stmt);
     _ ← on_store (drop_if_replaced (cq_mode stmt) target);
     sql ← op_lift (BuildCreateSql style (request_sql request) (cq_query stmt) target (request_parameters request));
     r ← query sql;
     match r with
     | Err detail =>
         op_fail (InvalidArgumentError (select_rejected style ++ detail ++ $" (sql=" ++ sql ++ $")"))
     | Ok _ =>
         rows ← DrainTableRows read_back_failed (quoted_target is_temp target) sch;
         _ ← (if is_temp then (_ ← on_store (op_try (drop_table target)); mret ()) else mret ());
         _ ← on_store (ApplyCreateMode (create_table target sch) (cq_mode stmt));
         on_store (append_some target rows)
     end).

Definition RunCreateTableAsSelect (EmitCtasSelect : Query -> str * list ParameterRef) :=
  RunCreateFromQuery (ctas_style EmitCtasSelect).

Definition RunCreateMaterializedView (TranspileScan : Query -> str * list ParameterRef) :=
  RunCreateFromQuery (view_style TranspileScan).

(** *** ALTER TABLE *)

Definition dotted (t : TableId) : str := Storage.project_id t ++ $"." ++ dataset_id t ++ $"." ++ table_id t.

Definition has_column (name : str) (c : ColumnSchema) : bool := bool_decide (col_name c = name).

Definition ProcessAddColumnAction (def : option ColumnDefinition) (is_if_not_exists : bool) (existing : TableSchema)
    (target : TableId) : StatusOr (option ColumnSchema) :=
  match def with
  | None => Err (InternalError $"control op executor: ADD COLUMN action has null column definition")
  | Some def =>
      if existsb (has_column (def_name def)) (Schema.columns existing) then
        if is_if_not_exists then Ok None
        else Err (AlreadyExistsError ($"control op executor: ALTER TABLE ADD COLUMN: column '" ++ def_name def
               ++ $"' already exists on table " ++ dotted target))
      else (field ← definition_field def; Some <$> ColumnSchemaFromProto field)
  end.

(** The first column of a name replaced by some columns, when there is one. *)
Fixpoint replace_column (name : str) (f : ColumnSchema -> list ColumnSchema) (cs : list ColumnSchema)
    : option (list ColumnSchema) :=
  match cs with
  | [] => None
  | c :: cs => if has_column name c then Some (f c ++ cs) else cons c <$> replace_column name f cs
  end.

Definition change_column (verb name : str) (is_if_exists : bool) (f : ColumnSchema -> list ColumnSchema)
    (sch : TableSchema) (target : TableId) : StatusOr TableSchema :=
  match replace_column name f (Schema.columns sch) with
  | Some cs => Ok (mkTableSchema cs)
  | None =>
      if is_if_exists then Ok sch
      else Err (NotFoundError ($"control op executor: ALTER TABLE " ++ verb ++ $" COLUMN: column '" ++ name
             ++ $"' not found on table " ++ dotted target))
  end.

Definition ApplyDropColumnAction (name : str) (is_if_exists : bool) :=
  change_column $"DROP" name is_if_exists (fun _ => []).

Definition renamed_column (new_name : str) (c : ColumnSchema) : ColumnSchema :=
  Schema.mkColumn new_name (col_type c) (col_mode c) (col_description c) (col_raw_type c) (col_fields c).

Definition ApplyRenameColumnAction (name new_name : str) (is_if_exists : bool) :=
  change_column $"RENAME" name is_if_exists (fun c => [renamed_column new_name c]).

(** The new schema, the added columns, and whether the schema changed. *)
Definition AlterState : Type := TableSchema * list ColumnSchema * bool.

Definition ApplyAlterAction (target : TableId) (st : AlterState) (action : AlterAction) : StatusOr AlterState :=
  let '(sch, added, changed) := st in
  match action with
  | AddColumn def if_not_exists =>
      column ← ProcessAddColumnAction def if_not_exists sch target;
      match column with
      | Some c => Ok (mkTableSchema (Schema.columns sch ++ [c]), added ++ [c], true)
      | None => Ok st
      end
  | DropColumn name if_exists => sch ← ApplyDropColumnAction name if_exists sch target; Ok (sch, added, true)
  | RenameColumn name new_name if_exists =>
      sch ← ApplyRenameColumnAction name new_name if_exists sch target; Ok (sch, added, true)
  | SetOptions => Ok st
  | OtherAction kind =>
      Err (UnimplementedError ($"control op executor: ALTER TABLE action " ++ kind ++ $" is not implemented"))
  end.

Fixpoint apply_actions (target : TableId) (actions : list (option AlterAction)) (st : AlterState) : StatusOr AlterState :=
  match actions with
  | [] => Ok st
  | None :: actions => apply_actions target actions st
  | Some a :: actions => st ← ApplyAlterAction target st a; apply_actions target actions st
  end.

Definition read_rows (target : TableId) : Op S (list Storage.Row) :=
  op_reads (fun s => it ← ScanRows s target; ReadRowsFromIterator it).

Definition with_nulls (n : nat) (r : Storage.Row) : Storage.Row := mkRow (cells r ++ repeat VNull n).

Definition CopyRowsForAlter (target : TableId) (added : list ColumnSchema) : Op S (list Storage.Row) :=
  rows ← read_rows target; mret (map (with_nulls (length added)) rows).

(** The position of the first column of a name. *)
Fixpoint column_index (name : str) (cs : list ColumnSchema) : option nat :=
  match cs with
  | [] => None
  | c :: cs => if has_column name c then Some 0 else Nat.succ <$> column_index name cs
  end.

Definition projected_cell (old : TableSchema) (r : Storage.Row) (c : ColumnSchema) : Storage.Value :=
  match column_index (col_name c) (Schema.columns old) with
  | Some i => nth i (cells r) VNull
  | None => VNull
  end.

Definition projected (old new : TableSchema) (r : Storage.Row) : Storage.Row :=
  mkRow (map (projected_cell old r) (Schema.columns new)).

Definition project_row (old new : TableSchema) (r : Storage.Row) : StatusOr Storage.Row :=
  if negb (length (cells r) =? length (Schema.columns old))
  then Err (InternalError $"control op executor: ALTER TABLE row shape mismatch")
  else Ok (projected old new r).

(** Every row is projected as it is read, so the error of a row comes before an error
    of the iterator behind it. *)
Definition CopyRowsWithSchema (target : TableId) (old new : TableSchema) : Op S (list Storage.Row) :=
  op_reads (fun s =>
    it ← ScanRows s target;
    rows ← outcome_mapM (project_row old new) (iter_rows it);
    match iter_error it with None => Ok rows | Some e => Err e end).

Definition RebuildTableWithColumns (target : TableId) (new_schema : TableSchema) (rows : list Storage.Row) : Op S unit :=
  _ ← drop_table target;
  _ ← create_table target new_schema;
  append_some target rows.

Definition RunAlterTable (project_id default_dataset_id : str) (stmt : AlterTableStmt) : Op S unit :=
  target ← op_lift (NamePathToTableId (alter_name_path stmt) project_id default_dataset_id);
  existing ← op_try (op_reads (fun s => GetSchema s target));
  match existing with
  | Err e => if has_code kNotFound e && alter_if_exists stmt then mret () else op_fail e
  | Ok existing =>
      st ← op_lift (apply_actions target (alter_action_list stmt) (existing, [], false));
      let '(new_schema, added, changed) := st in
      if negb changed then mret ()
      else
        rows ← match added with
               | [] => CopyRowsWithSchema target existing new_schema
               | _ => CopyRowsForAlter target added
               end;
        RebuildTableWithColumns target new_schema rows
  end.
End tables.

(** ** Files *)

Section files.
Context {S : Type} `{AbslText, AbslDouble, GoogleSqlOps, ExecutorNodes} `{!CastLibrary, !ExecutorParts, !ValueText, !ParameterParser}.
Context `{CatalogStore S, Storage S, !RewritableStorage S} `{VectorMemory, !InMemoryDb S, !Host S}.

Inductive InsertionMode := INSERTION_NONE | APPEND | OVERWRITE.

(** [ResolvedAuxLoadDataStmt]. *)
Record LoadDataStmt := mkLoadData {
  load_name_path : list str;
  load_columns : list (option ColumnDefinition);
  insertion_mode : InsertionMode;
  from_files_option_list : list (option ResolvedOption);
}.

Definition ResolveLoadSchema (target : TableId) (stmt : LoadDataStmt) : Op S TableSchema :=
  match load_columns stmt with
  | _ :: _ => op_lift (ColumnDefinitionListToTableSchema (load_columns stmt))
  | [] =>
      op_reads (fun s =>
        match GetSchema s target with
        | Ok sch => Ok sch
        | Err _ => Err (InvalidArgumentError ($"control op executor: LOAD DATA requires an explicit column list or an "
                     ++ $"existing destination table schema"))
        end)
  end.

(** The last format and the last list of URIs of the options. *)
Fixpoint load_options (options : list (option ResolvedOption)) (format : str) (uris : list str)
    : StatusOr (str * list str) :=
  match options with
  | [] => Ok (format, uris)
  | None :: options => load_options options format uris
  | Some opt :: options =>
      if EqualsIgnoreCase (option_name opt) $"format"
      then (fmt ← OptionStringValue opt; load_options options fmt uris)
      else if EqualsIgnoreCase (option_name opt) $"uris"
      then (parsed ← ExtractStringArrayLiteral (option_value opt); load_options options format parsed)
      else load_options options format uris
  end.

(** The format and the one URI. *)
Definition ParseLoadDataFileOptions (stmt : LoadDataStmt) : StatusOr (str * str) :=
  '(format, uris) ← load_options (from_files_option_list stmt) $"CSV" [];
  match uris with
  | [] => Err (InvalidArgumentError $"control op executor: LOAD DATA requires FROM FILES (uris = [...])")
  | [uri] => Ok (format, uri)
  | _ => Err (UnimplementedError $"control op executor: LOAD DATA multi-file uris are not implemented yet")
  end.

Definition EnsureTargetTableForLoadMode (target : TableId) (sch : TableSchema) (mode : InsertionMode) : Op S unit :=
  match mode with
  | OVERWRITE => _ ← tolerating kNotFound (drop_table target); create_table target sch
  | _ =>
      existing ← op_try (op_reads (fun s => GetSchema s target));
      match existing with Ok _ => mret () | Err _ => create_table target sch end
  end.

Definition load_staging : str := QuoteIdent $"__bqemu_load_staging".

Definition LoadRowsFromUri (uri format dir : str) (sch : TableSchema) : Op S (list Storage.Row) :=
  path ← LocalPathFromUri uri dir;
  with_session open_failed connect_failed true
    (read_sql ← op_lift (BuildReadSql path format);
     _ ← RunSqlNoResult control_style ($"CREATE OR REPLACE TEMP TABLE " ++ load_staging ++ $" AS " ++ read_sql);
     DrainTableRows read_back_failed load_staging sch).

Definition RunLoadData (project_id default_dataset_id : str) (stmt : LoadDataStmt) : Op S unit :=
  target ← op_lift (NamePathToTableId (load_name_path stmt) project_id default_dataset_id);
  _ ← EnsureDatasetExists (Storage.project_id target) (dataset_id target);
  '(format, uri) ← op_lift (ParseLoadDataFileOptions stmt);
  sch ← ResolveLoadSchema target stmt;
  dir ← op_reads (fun s => Ok (data_dir s));
  rows ← LoadRowsFromUri uri format dir sch;
  _ ← EnsureTargetTableForLoadMode target sch (insertion_mode stmt);
  append_some target rows.

(** [ResolvedExportDataStmt]: its query, when there is one, and the tables it scans. *)
Context {Query : Type} (TranspileScan : Query -> str * list ParameterRef).

Record ExportDataStmt := mkExportData {
  export_options : list (option ResolvedOption); export_query : option Query; export_tables : list QueryTable }.

(** Errors of the removal are ignored. *)
Definition remove_file (path : str) : Op S unit := fun s => (remove_path s path, Ok ()).

(** The format is compared as written, unlike in [BuildCopyToSql]. *)
Definition export_content_type (format : str) : str :=
  if bool_decide (format = $"JSON") || bool_decide (format = $"NEWLINE_DELIMITED_JSON") then $"application/json"
  else if bool_decide (format = $"PARQUET") then $"application/octet-stream" else $"text/csv".

Definition RunExportData (request : QueryRequest) (stmt : ExportDataStmt) : Op S unit :=
  match export_query stmt with
  | None => op_fail (InternalError $"control op executor: EXPORT DATA has null query scan")
  | Some q =>
      uri ← op_lift (FindOptionString (export_options stmt) $"uri");
      dir ← op_reads (fun s => Ok (data_dir s));
      path ← LocalPathFromUri uri dir;
      let format := match FindOptionString (export_options stmt) $"format" with Ok f => f | Err _ => $"CSV" end in
      select_sql ← op_lift (transpiled $"control op executor: EXPORT DATA query did not transpile to DuckDB SQL"
        (TranspileScan q) (request_parameters request));
      let to_gcs := has_prefix uri $"gs://" in
      let write_path := if to_gcs then path ++ $".export.tmp" else path in
      _ ← with_session open_failed connect_failed true
        (_ ← AttachCollectorTables ($"control op executor: cannot attach non-StorageTable '", $"' for EXPORT DATA")
               (export_tables stmt);
         copy_sql ← op_lift (BuildCopyToSql select_sql write_path format);
         RunSqlNoResult control_style copy_sql);
      if negb to_gcs then mret ()
      else
        _ ← UploadGCSObjectFromFile uri write_path (export_content_type format);
        remove_file write_path
  end.
End files.

(** ** The executor *)

Section executor.
Context {S : Type} `{AbslText, AbslDouble, GoogleSqlOps, ExecutorNodes} `{!CastLibrary, !ExecutorParts, !ValueText, !ParameterParser}.
Context `{CatalogStore S, Storage S, !RewritableStorage S} `{VectorMemory, !InMemoryDb S, !Host S}.
Context {O Output Query : Type} `{CatalogObject O}.

(** The store and the registries of the process. *)
Record World := mkWorld {
  store : S;
  world_views : ViewRegistry O Output;
  world_functions : FunctionRegistry O Output;
  world_tvfs : TvfRegistry O Output;
  world_procedures : ProcedureRegistry;
}.

Definition in_store {A} (m : Op S A) : Op World A := fun w =>
  let '(s, r) := m (store w) in
  (mkWorld s (world_views w) (world_functions w) (world_tvfs w) (world_procedures w), r).

Definition drop_view (project_id name : str) : Op World unit := fun w =>
  let '(v, r) := DropProjectView project_id name (world_views w) in
  (mkWorld (store w) v (world_functions w) (world_tvfs w) (world_procedures w), r).

Definition drop_function (project_id name : str) : Op World unit := fun w =>
  let '(f, r) := DropProjectFunction project_id name (world_functions w) in
  (mkWorld (store w) (world_views w) f (world_tvfs w) (world_procedures w), r).

Definition drop_tvf (project_id name : str) : Op World unit := fun w =>
  let '(t, r) := DropProjectTvf project_id name (world_tvfs w) in
  (mkWorld (store w) (world_views w) (world_functions w) t (world_procedures w), r).

Definition drop_procedure (project_id name : str) : Op World unit := fun w =>
  let '(p, r) := DropProjectProcedure (world_procedures w) project_id name in
  (mkWorld (store w) (world_views w) (world_functions w) (world_tvfs w) p, r).

(** A status that is success when it is NOT_FOUND and the statement says IF EXISTS;
    otherwise what follows runs on success. *)
Definition then_if_dropped (is_if_exists : bool) (m rest : Op World unit) : Op World unit :=
  dropped ← op_try m;
  match dropped with
  | Ok _ => rest
  | Err e => if is_if_exists && has_code kNotFound e then mret () else op_fail e
  end.

Definition DeletePersistedView (id : ViewId) : Op World unit :=
  in_store (tolerating kNotFound (fun s => DeleteView s id)).

Definition DeletePersistedRoutine (id : RoutineId) : Op World unit :=
  in_store (tolerating kNotFound (fun s => DeleteRoutine s id)).

(** [coordinator::RehydrateRoutineRecord] and [RehydrateViewRecord]: they analyze the
    stored DDL and register what it creates. *)
Context (RehydrateRoutineRecord : RoutineRecord -> Op World unit) (RehydrateViewRecord : ViewRecord -> Op World unit).

Definition RehydrateDatasetCatalog (id : DatasetId) : Op World unit :=
  routines ← in_store (op_reads (fun s => ListRoutines s id));
  _ ← op_iter (fun rec => if is_temp rec then mret () else RehydrateRoutineRecord rec) routines;
  views ← in_store (op_reads (fun s => ListAllViews s));
  op_iter (fun rec =>
    if bool_decide (v_project_id (v_id rec) = ds_project_id id) && bool_decide (v_dataset_id (v_id rec) = ds_dataset_id id)
    then RehydrateViewRecord rec else mret ()) views.

(** [ResolvedDropStmt]. *)
Record DropStmt := mkDrop {
  object_type : str; drop_name_path : list str; drop_if_exists : bool; drop_cascade : bool }.

Definition RunDropSchema (project_id : str) (stmt : DropStmt) : Op S unit :=
  target ← op_lift (NamePathToDatasetId (drop_name_path stmt) project_id);
  _ ← (if drop_cascade stmt then mret ()
       else
         tables ← op_reads (fun s => ListTables s target);
         match tables with
         | [] => mret ()
         | _ => op_fail (FailedPreconditionError ($"dataset is not empty: " ++ ds_project_id target ++ $"."
                  ++ ds_dataset_id target ++ $" (use CASCADE to drop with tables)"))
         end);
  (if drop_if_exists stmt then tolerating kNotFound else id) (fun s => DropDataset s target true).

Definition drop_table_if (is_if_exists : bool) (target : TableId) : Op S unit :=
  if is_if_exists then tolerating kNotFound (drop_table target) else drop_table target.

Definition RunDropTable (project_id default_dataset_id : str) (stmt : DropStmt) : Op World unit :=
  if bool_decide (object_type stmt = $"VIEW") then
    match drop_name_path stmt with
    | [] => op_fail (InvalidArgumentError $"control op executor: DROP VIEW has empty name_path")
    | path =>
        let vid := ViewIdFromNamePath path project_id default_dataset_id in
        then_if_dropped (drop_if_exists stmt) (drop_view project_id (view_id vid)) (DeletePersistedView vid)
    end
  else if bool_decide (object_type stmt = $"SCHEMA") then in_store (RunDropSchema project_id stmt)
  else if negb (bool_decide (object_type stmt = $"TABLE")) then
    op_fail (UnimplementedError ($"control op executor: DROP " ++ object_type stmt
      ++ $" is not implemented yet (only DROP TABLE / DROP VIEW are supported); see docs/ENGINE_POLICY.md"))
  else
    in_store (target ← op_lift (NamePathToTableId (drop_name_path stmt) project_id default_dataset_id);
              drop_table_if (drop_if_exists stmt) target).

Record UndropStmt := mkUndrop { schema_object_kind : str; undrop_name_path : list str; is_if_not_exists : bool }.

Definition RunUndrop (project_id : str) (stmt : UndropStmt) : Op World unit :=
  if negb (bool_decide (schema_object_kind stmt = $"SCHEMA")) then
    op_fail (UnimplementedError ($"control op executor: UNDROP " ++ schema_object_kind stmt
      ++ $" is not a BigQuery statement (only UNDROP SCHEMA is supported)"))
  else
    target ← op_lift (NamePathToDatasetId (undrop_name_path stmt) project_id);
    restored ← in_store (op_try (fun s => RestoreDataset s target));
    match restored with
    | Ok _ => RehydrateDatasetCatalog target
    | Err e =>
        if is_if_not_exists stmt then
          if has_code kAlreadyExists e then mret ()
          else if has_code kNotFound e then
            datasets ← in_store (op_try (op_reads (fun s => ListDatasets s project_id)));
            match datasets with
            | Ok ids => if bool_decide (target ∈ ids) then mret () else op_fail e
            | Err _ => op_fail e
            end
          else op_fail e
        else op_fail e
    end.

Record DropSnapshotStmt := mkDropSnapshot { snapshot_drop_path : list str; snapshot_if_exists : bool }.

Definition RunDropSnapshotTable (project_id default_dataset_id : str) (stmt : DropSnapshotStmt) : Op S unit :=
  target ← op_lift (NamePathToTableId (snapshot_drop_path stmt) project_id default_dataset_id);
  drop_table_if (snapshot_if_exists stmt) target.

(** A statement routed to the executor.  TRUNCATE comes with its handler; the
    statements the coordinator registers itself are only named. *)
Inductive ControlStatement :=
| ControlCreateTable (stmt : CreateTableStmt)
| ControlCreateTableAsSelect (stmt : @CreateFromQuery Query)
| ControlDrop (stmt : DropStmt)
| ControlTruncate (run : Op S Z)
| ControlRegistered
| ControlAlterTable (stmt : AlterTableStmt)
| ControlCreateMaterializedView (stmt : @CreateFromQuery Query)
| ControlDropFunction (name_path : list str) (is_if_exists : bool)
| ControlDropTableFunction (name_path : list str) (is_if_exists : bool)
| ControlLoadData (stmt : LoadDataStmt)
| ControlExportData (stmt : @ExportDataStmt _ _ Query)
| ControlCreateSnapshot (stmt : CreateSnapshotStmt)
| ControlCloneData (stmt : CloneDataStmt)
| ControlUndrop (stmt : UndropStmt)
| ControlDropSnapshot (stmt : DropSnapshotStmt)
| ControlOther (node_kind_string : str).

Context (EmitCtasSelect TranspileScan : Query -> str * list ParameterRef).

Definition drop_routine (request : QueryRequest) (null : str) (name_path : list str) (is_if_exists : bool)
    (dropped : str -> Op World unit) : Op World unit :=
  match last name_path with
  | None => op_fail (InternalError null)
  | Some name =>
      let rid := RoutineIdFromNamePath name_path (request_project_id request) (default_dataset_id request) in
      then_if_dropped is_if_exists (dropped name) (DeletePersistedRoutine rid)
  end.

(** A function, or else a procedure, of that name. *)
Definition drop_function_or_procedure (project_id name : str) : Op World unit :=
  dropped ← op_try (drop_function project_id name);
  match dropped with Ok _ => mret () | Err _ => drop_procedure project_id name end.

(** [ControlOpExecutor::ExecuteDdl]; the executor always has a storage here. *)
Definition ControlOp_ExecuteDdl (request : QueryRequest) (stmt : ControlStatement) : Op World unit :=
  let project_id := request_project_id request in
  let dataset := default_dataset_id request in
  match stmt with
  | ControlCreateTable stmt => in_store (RunCreateTable project_id dataset stmt)
  | ControlCreateTableAsSelect stmt => in_store (RunCreateTableAsSelect EmitCtasSelect request stmt)
  | ControlDrop stmt => RunDropTable project_id dataset stmt
  | ControlTruncate run => _ ← in_store run; mret ()
  | ControlRegistered => mret ()
  | ControlAlterTable stmt => in_store (RunAlterTable project_id dataset stmt)
  | ControlCreateMaterializedView stmt => in_store (RunCreateMaterializedView TranspileScan request stmt)
  | ControlDropFunction path is_if_exists =>
      drop_routine request $"control op executor: DROP FUNCTION has null stmt or empty name_path" path is_if_exists
        (drop_function_or_procedure project_id)
  | ControlDropTableFunction path is_if_exists =>
      drop_routine request $"control op executor: DROP TABLE FUNCTION has null stmt or empty name_path" path
        is_if_exists (drop_tvf project_id)
  | ControlLoadData stmt => in_store (RunLoadData project_id dataset stmt)
  | ControlExportData stmt => in_store (RunExportData TranspileScan request stmt)
  | ControlCreateSnapshot stmt => in_store (RunCreateSnapshotTable project_id dataset stmt)
  | ControlCloneData stmt => in_store (RunCloneData stmt)
  | ControlUndrop stmt => RunUndrop project_id stmt
  | ControlDropSnapshot stmt => in_store (RunDropSnapshotTable project_id dataset stmt)
  | ControlOther kind =>
      op_fail (UnimplementedError ($"control op executor: ExecuteDdl does not implement " ++ kind
        ++ $" yet; the row carries disposition=control_op in node_dispositions.yaml but no handler in "
        ++ $"control_op_executor.cc dispatches it"))
  end.

Definition ControlOp_ExecuteQuery (node_kind_string : str) : Op World unit :=
  op_fail (InvalidArgumentError ($"ControlOpExecutor::ExecuteQuery: control-op statements never produce a row stream; "
    ++ $"coordinator routed " ++ node_kind_string ++ $" through the wrong dispatch surface (control_op statements use "
    ++ $"ExecuteDdl)")).

Definition ControlOp_ExecuteDml (node_kind_string : str) : Op World unit :=
  op_fail (InvalidArgumentError ($"ControlOpExecutor::ExecuteDml: control-op statements never produce a DML stats "
    ++ $"summary; coordinator routed " ++ node_kind_string ++ $" through the wrong dispatch surface (control_op "
    ++ $"statements use ExecuteDdl)")).
End executor.
