(* ===== verification/ControlProps.v ===== *)
(** * ControlProps: what CREATE TABLE and ALTER TABLE leave

    The tables after CREATE TABLE in its three modes and after ALTER TABLE, also when
    the statement fails on the way, for any store that meets [CatalogStoreLaws];
    closed examples on a store in memory. *)

From S2P Require Import Prelude Order Absl AbslReference Schema RowRestriction Storage DuckDbSql VersionLog SemanticError FrameStack.
From S2P Require Import SidecarJson FileTree SqlValue GoogleSqlReference Arithmetic Operators MathFuncs Casts EvalExpr EvalReference Rows AggFuncs.
From S2P Require Import StorageValues Dml ArrowToBq ObjectRegistry SemanticExecutor Parameters Analyze Script EngineSql ControlText ControlOps.

(** ** Computations *)

Section ops.
Context {S : Type}.

Lemma op_bind_inv {A B} (m : Op S A) (f : A -> Op S B) s s' r :
  (m ≫= f) s = (s', r) ->
  (exists e, m s = (s', Err e) /\ r = Err e) \/ (exists s1 a, m s = (s1, Ok a) /\ f a s1 = (s', r)).
Proof.
  unfold mbind, Op_bind. destruct (m s) as [s1 [a|e]] eqn:E; intros K.
  - right. by exists s1, a.
  - left. exists e. by simplify_eq.
Qed.

Lemma op_lift_bind {A B} (a : A) (f : A -> Op S B) s : (op_lift (Ok a) ≫= f) s = f a s.
Proof. done. Qed.
End ops.

Section control.
Context {S : Type} `{AbslText, GoogleSqlOps, ExecutorNodes}.
Context `{CatalogStore S, Storage S, !RewritableStorage S, !StorageLaws S, !RewritableStorageLaws S, !CatalogStoreLaws S}.

Lemma same_table_eq (s s' : S) t : GetSchema s' t = GetSchema s t -> contents s' t = contents s t -> same_table s s' t.
Proof. intros E C. split; [|done]. rewrite E. by destruct (GetSchema s t). Qed.

Lemma same_table_trans (s s1 s2 : S) t : same_table s s1 t -> same_table s1 s2 t -> same_table s s2 t.
Proof.
  intros [A B] [C D]. split; [|congruence]. unfold same_result in *.
  destruct (GetSchema s t), (GetSchema s1 t), (GetSchema s2 t); try done; congruence.
Qed.

Lemma same_table_schema (s s' : S) t sch : same_table s s' t -> GetSchema s t = Ok sch -> GetSchema s' t = Ok sch.
Proof. intros [R _] E. rewrite E in R. destruct (GetSchema s' t); [|done]. cbn in R. by subst. Qed.

Lemma append_some_others (s s' : S) t rows r u : append_some t rows s = (s', r) -> u <> t -> same_table s s' u.
Proof.
  intros E N. destruct rows as [|x rows]; cbn in E; unfold mret, Op_ret in E; [simplify_eq; by apply same_table_eq|].
  apply same_table_eq; [by eapply append_schema|by eapply append_frame].
Qed.

Lemma append_some_ok (s s' : S) t rows sch :
  append_some t rows s = (s', Ok ()) -> GetSchema s t = Ok sch ->
  GetSchema s' t = Ok sch /\ contents s' t = contents s t ++ map (stored sch) rows.
Proof.
  intros E G. destruct rows as [|x rows]; cbn in E; unfold mret, Op_ret in E; [simplify_eq; by rewrite app_nil_r|].
  destruct (append_ok _ _ _ _ E) as (sch' & G' & C). rewrite G in G'. injection G' as <-. split; [|done].
  by rewrite (append_schema _ _ _ _ _ t E).
Qed.

Lemma append_some_err (s s' : S) t rows e : append_some t rows s = (s', Err e) -> GetSchema s' t = GetSchema s t.
Proof.
  intros E. destruct rows as [|x rows]; cbn in E; unfold mret, Op_ret in E; [done|]. by eapply append_schema.
Qed.

(** ** Rebuilding a table *)

Lemma create_frame (s s' : S) t sch r u : EngineSql.CreateTable s t sch = (s', r) -> u <> t -> same_table s s' u.
Proof. intros E N. pose proof (create_table_frame s t sch u N) as F. by rewrite E in F. Qed.

Lemma drop_frame (s s' : S) t r u : EngineSql.DropTable s t = (s', r) -> u <> t -> same_table s s' u.
Proof. intros E N. pose proof (drop_table_frame s t u N) as F. by rewrite E in F. Qed.

Lemma rebuild_outcomes (s s' : S) t sch rows r : recorded sch ->
  RebuildTableWithColumns t sch rows s = (s', r) ->
  (forall u, u <> t -> same_table s s' u) /\
  match r with
  | Ok _ => GetSchema s' t = Ok sch /\ contents s' t = map (stored sch) rows
  | Err _ => same_table s s' t \/ absent s' t \/ GetSchema s' t = Ok sch
  end.
Proof.
  unfold RebuildTableWithColumns, drop_table, create_table. intros Rec E.
  destruct (op_bind_inv _ _ _ _ _ E) as [(e & D & ->)|(s1 & [] & D & E1)].
  { split; [intros u N; by eapply drop_frame|]. destruct (drop_table_failed _ _ _ _ D); [by left|by right; left]. }
  assert (forall u, u <> t -> same_table s s1 u) as F1 by (intros u N; by eapply drop_frame).
  destruct (op_bind_inv _ _ _ _ _ E1) as [(e & C & ->)|(s2 & [] & C & E2)].
  { split; [intros u N; eapply same_table_trans; [by apply F1|by eapply create_frame]|]. right.
    by apply (create_table_failed _ _ _ _ _ Rec (drop_table_gone _ _ _ D) C). }
  destruct (create_table_new _ _ _ _ Rec C) as [G N2]. split.
  { intros u N. eapply same_table_trans; [by apply F1|]. eapply same_table_trans; [by eapply create_frame|].
    by eapply append_some_others. }
  destruct r as [[]|e].
  - destruct (append_some_ok _ _ _ _ _ E2 G) as [-> ->]. by rewrite N2.
  - right. right. by rewrite (append_some_err _ _ _ _ _ E2).
Qed.

(** ** ALTER TABLE *)

(** The rows of the altered table: nulls behind every row when a column was added,
    and otherwise the columns of the new schema taken by their names. *)
Definition altered_rows (old new : TableSchema) (added : list ColumnSchema) (rows : list Storage.Row) : list Storage.Row :=
  match added with [] => map (projected old new) rows | _ => map (with_nulls (length added)) rows end.

Lemma projected_rows old new rows out : outcome_mapM (project_row old new) rows = Ok out -> out = map (projected old new) rows.
Proof.
  revert out. induction rows as [|x rows IH]; intros out E; cbn [outcome_mapM] in E; [by simplify_eq|].
  destruct (project_row old new x) as [y|] eqn:P; [|done]. cbn in E.
  destruct (outcome_mapM (project_row old new) rows) as [l|]; [|done]. cbn in E. simplify_eq. cbn. f_equal; [|by apply IH].
  unfold project_row in P. by destruct (negb _); simplify_eq.
Qed.

Lemma copied_rows (s s' : S) t old new added rows :
  (match added with [] => CopyRowsWithSchema t old new | _ => CopyRowsForAlter t added end) s = (s', Ok rows) ->
  s' = s /\ rows = altered_rows old new added (contents s t).
Proof.
  unfold altered_rows. destruct added as [|c added]; intros E.
  - unfold CopyRowsWithSchema, op_reads in E. injection E as <- E. split; [done|].
    destruct (ScanRows s t) as [it|] eqn:Sc; [|done]. cbn in E.
    destruct (outcome_mapM (project_row old new) (iter_rows it)) as [l|] eqn:P; [|done]. cbn in E.
    destruct (iter_error it) eqn:I; [done|]. simplify_eq. rewrite <- (scan_ok _ _ _ Sc I). by apply projected_rows.
  - unfold CopyRowsForAlter in E. apply op_bind_inv in E as [(e & _ & [=])|(s1 & old_rows & R & E)].
    unfold read_rows, op_reads in R. injection R as <- R. unfold mret, Op_ret in E. injection E as <- <-. split; [done|].
    destruct (ScanRows s t) as [it|] eqn:Sc; [|done]. cbn in R. unfold ReadRowsFromIterator in R.
    destruct (iter_error it) eqn:I; [done|]. injection R as <-. by rewrite <- (scan_ok _ _ _ Sc I).
Qed.

Lemma copy_reads (s s' : S) t old new added r :
  (match added with [] => CopyRowsWithSchema t old new | _ => CopyRowsForAlter t added end) s = (s', r) -> s' = s.
Proof.
  destruct added; intros E; [by injection E|]. unfold CopyRowsForAlter in E.
  apply op_bind_inv in E as [(e & E & _)|(s1 & a & E & E2)]; unfold read_rows, op_reads in E; injection E as <-; [done|].
  by injection E2.
Qed.

(** C35: ALTER TABLE that changes the schema, over a store with the laws
    [CatalogStoreLaws] and for a new schema the store records: on success the table
    has the new schema and the rows of the old one, each with a NULL per added
    column, or, when no column was added, with its cells rearranged by name.  On
    failure the table is as it was, or there is none, or it has the new schema and
    its old rows may be lost: the old table is dropped first.  No other table
    changes. *)
Theorem alter_table_outcomes project dataset stmt target existing new added (s s' : S) r :
  NamePathToTableId (alter_name_path stmt) project dataset = Ok target ->
  GetSchema s target = Ok existing ->
  apply_actions target (alter_action_list stmt) (existing, [], false) = Ok (new, added, true) -> recorded new ->
  RunAlterTable project dataset stmt s = (s', r) ->
  (forall u, u <> target -> same_table s s' u) /\
  match r with
  | Ok _ => GetSchema s' target = Ok new /\
            contents s' target = map (stored new) (altered_rows existing new added (contents s target))
  | Err _ => same_table s s' target \/ absent s' target \/ GetSchema s' target = Ok new
  end.
Proof.
  intros Hn Hg Ha Rec E. unfold RunAlterTable in E. rewrite Hn, op_lift_bind in E.
  destruct (op_bind_inv _ _ _ _ _ E) as [(e & D & ->)|(s1 & got & D & E1)]; [by unfold op_try, op_reads in D|].
  unfold op_try, op_reads in D. rewrite Hg in D. simplify_eq. rewrite Ha, op_lift_bind in E1. cbn [negb] in E1.
  destruct (op_bind_inv _ _ _ _ _ E1) as [(e & D & ->)|(s2 & rows & D & E2)].
  - apply copy_reads in D as ->. split; [intros; by apply same_table_eq|]. left. by apply same_table_eq.
  - apply copied_rows in D as [-> ->]. by apply rebuild_outcomes.
Qed.

(** ** RENAME COLUMN *)

Lemma column_index_absent name cs : ~ (name ∈ map col_name cs) -> column_index name cs = None.
Proof.
  induction cs as [|c cs IH]; [done|]. cbn. rewrite not_elem_of_cons. intros [N F]. unfold has_column.
  rewrite bool_decide_false by congruence. by rewrite IH.
Qed.

Lemma column_index_at pre c post : ~ (col_name c ∈ map col_name pre) -> column_index (col_name c) (pre ++ c :: post) = Some (length pre).
Proof.
  induction pre as [|d pre IH]; cbn; intros N; unfold has_column.
  - by rewrite bool_decide_true.
  - apply not_elem_of_cons in N as [N F]. rewrite bool_decide_false by congruence. by rewrite IH.
Qed.

Lemma replace_column_at name f pre c post :
  ~ (name ∈ map col_name pre) -> col_name c = name -> replace_column name f (pre ++ c :: post) = Some (pre ++ f c ++ post).
Proof.
  intros N E. induction pre as [|d pre IH]; cbn; unfold has_column.
  - by rewrite bool_decide_true.
  - cbn in N. apply not_elem_of_cons in N as [Nd F]. rewrite bool_decide_false by congruence. by rewrite IH.
Qed.

(** A run of columns of the old schema keeps its cells. *)
Lemma projected_run old r a l b :
  Schema.columns old = a ++ l ++ b -> NoDup (map col_name (Schema.columns old)) ->
  length (cells r) = length (Schema.columns old) ->
  map (projected_cell old r) l = take (length l) (drop (length a) (cells r)).
Proof.
  revert a. induction l as [|c l IH]; intros a E N L; [done|]. cbn [map length].
  assert (length a < length (cells r)) as La by (rewrite L, E, length_app; cbn; lia).
  destruct (lookup_lt_is_Some_2 _ _ La) as [v V]. rewrite (drop_S _ _ _ V). cbn [take]. f_equal.
  - unfold projected_cell. rewrite E in N |- *. rewrite map_app in N. apply NoDup_app in N as (_ & D & _).
    cbn [app]. rewrite column_index_at; [by apply nth_lookup_Some|]. intros I. apply (D _ I). cbn. apply list_elem_of_here.
  - rewrite (IH (a ++ [c])); [by rewrite length_app, Nat.add_1_r|by rewrite <- app_assoc|done..].
Qed.

(** Renaming a column gives the table the schema meant, but every row has NULL in the
    renamed column; the other columns keep their cells. *)
Theorem rename_loses_values target pre c post new_name if_exists :
  NoDup (map col_name (pre ++ c :: post)) -> ~ (new_name ∈ map col_name (pre ++ c :: post)) ->
  let old := mkTableSchema (pre ++ c :: post) in
  let new := mkTableSchema (pre ++ renamed_column new_name c :: post) in
  apply_actions target [Some (RenameColumn (col_name c) new_name if_exists)] (old, [], false) = Ok (new, [], true) /\
  forall r, length (cells r) = length (pre ++ c :: post) ->
    cells (projected old new r) = take (length pre) (cells r) ++ [VNull] ++ drop (Datatypes.S (length pre)) (cells r).
Proof.
  intros Nd Nn old new. pose proof Nd as Nd'. rewrite map_app in Nd'. apply NoDup_app in Nd' as (Npre & Dis & Npost).
  cbn in Npost. apply NoDup_cons in Npost as [Nc Npost].
  assert (~ (col_name c ∈ map col_name pre)) as Cpre by (intros I; by apply (Dis _ I), list_elem_of_here).
  split.
  - cbn -[replace_column]. unfold ApplyRenameColumnAction, change_column. cbn [Schema.columns old].
    by rewrite replace_column_at.
  - intros [cs] L. cbn in L. unfold projected, new. cbn [Schema.columns cells]. rewrite map_app. cbn [map].
    rewrite (projected_run old (mkRow cs) [] pre (c :: post)) by done. cbn [length drop cells]. f_equal.
    unfold projected_cell at 1. cbn [renamed_column col_name Schema.columns old]. rewrite column_index_absent by done.
    cbn [app]. f_equal. rewrite (projected_run old (mkRow cs) (pre ++ [c]) post []); [|by rewrite app_nil_r, <- app_assoc|done..].
    cbn [cells]. rewrite length_app, Nat.add_1_r. apply firstn_all2. rewrite length_drop, L, length_app. cbn. lia.
Qed.

(** ** CREATE TABLE *)

Lemma tolerating_inv c (m : Op S unit) s s' r :
  tolerating c m s = (s', r) ->
  exists r0, m s = (s', r0) /\ (r = Ok () <-> r0 = Ok () \/ exists e, r0 = Err e /\ code e = c).
Proof.
  unfold tolerating. destruct (m s) as [s1 r1]. intros [= -> <-]. exists r1. split; [done|].
  destruct r1 as [[]|e]; cbn; [split; [auto|done]|]. unfold has_code. case_bool_decide; split; try done; eauto.
  intros [?|(e' & [= ->] & ?)]; done.
Qed.

Lemma ensure_dataset_tables p d (s s' : S) r t : EnsureDatasetExists p d s = (s', r) ->
  same_table s s' t /\ (absent s t -> absent s' t).
Proof.
  unfold EnsureDatasetExists. destruct d; [intros [= <- _]; split; [by apply same_table_eq|done]|].
  intros (r0 & E & _)%tolerating_inv.
  pose proof (create_dataset_tables s (mkDatasetId p (a :: d)) $"US" t) as K.
  pose proof (create_dataset_absent s (mkDatasetId p (a :: d)) $"US" t) as L. by rewrite E in K, L.
Qed.

Lemma create_mode_others mode t sch (s s' : S) r u :
  ApplyCreateMode (create_table t sch) mode s = (s', r) -> u <> t -> same_table s s' u.
Proof.
  intros E N. destruct mode; cbn in E; unfold create_table in E; [by eapply create_frame..|].
  apply tolerating_inv in E as (r0 & E & _). by eapply create_frame.
Qed.

(** What a replacement leaves: drop, where an absent table is no error, then
    create. *)
Lemma replaced_table t sch (s s' : S) r : recorded sch ->
  (tolerating kNotFound (drop_table t) ≫= fun _ => create_table t sch) s = (s', r) ->
  (forall u, u <> t -> same_table s s' u) /\
  (r = Ok () -> GetSchema s' t = Ok sch /\ contents s' t = []) /\
  (forall old, GetSchema s t = Ok old ->
     r = Ok () \/ same_table s s' t \/ absent s' t \/ GetSchema s' t = Ok sch).
Proof.
  intros Rec E. unfold drop_table, create_table in E.
  destruct (op_bind_inv _ _ _ _ _ E) as [(e & T & ->)|(s2 & [] & T & C)]; apply tolerating_inv in T as (r0 & T & R).
  - split; [intros u N; by eapply drop_frame|]. split; [done|]. intros old G. right.
    destruct r0 as [[]|e0]; [right; left; by eapply drop_table_gone|].
    destruct (drop_table_failed _ _ _ _ T); [by left|by right; left].
  - split; [intros u N; eapply same_table_trans; [by eapply drop_frame|by eapply create_frame]|].
    split; [intros ->; by apply (create_table_new _ _ _ _ Rec C)|]. intros old G. destruct r as [[]|e]; [by left|]. right.
    assert (same_table s s2 t \/ absent s2 t) as [Same|Gone].
    { destruct r0 as [[]|e0]; [right; by eapply drop_table_gone|by eapply drop_table_failed]. }
    + left. destruct (create_table_exists s2 t sch old (same_table_schema _ _ _ _ Same G)) as (s3 & e3 & C' & _ & K).
      rewrite C in C'. injection C' as <- _. by eapply same_table_trans.
    + right. by apply (create_table_failed _ _ _ _ _ Rec Gone C).
Qed.

Context `{AbslDouble, !CastLibrary, !ExecutorParts} `{VectorMemory, !InMemoryDb S}.

(** C36: CREATE TABLE, over a store with the laws [CatalogStoreLaws] and for columns the
    store records.  A table that exists: refused and kept; kept with IF NOT EXISTS;
    with OR REPLACE replaced by an empty one, where a replacement that fails may
    leave the old table, none, or one with the new schema.  A name that neither a
    table nor a view has: on success an empty table with the columns of the
    statement.  No other table changes. *)
Theorem create_table_modes project dataset stmt target sch (s s' : S) r :
  clone_from stmt = None ->
  NamePathToTableId (create_name_path stmt) project dataset = Ok target ->
  ColumnDefinitionListToTableSchema (create_columns stmt) = Ok sch -> recorded sch ->
  RunCreateTable project dataset stmt s = (s', r) ->
  (forall u, u <> target -> same_table s s' u) /\
  (r = Ok () -> create_mode stmt = CREATE_OR_REPLACE \/ absent s target ->
     GetSchema s' target = Ok sch /\ contents s' target = []) /\
  (forall old, GetSchema s target = Ok old ->
     match create_mode stmt with
     | CREATE_DEFAULT => r <> Ok () /\ same_table s s' target
     | CREATE_IF_NOT_EXISTS =>
         same_table s s' target /\
         ((EnsureDatasetExists (Storage.project_id target) (dataset_id target) s).2 = Ok () -> r = Ok ())
     | CREATE_OR_REPLACE => r = Ok () \/ same_table s s' target \/ absent s' target \/ GetSchema s' target = Ok sch
     end).
Proof.
  intros Hc Hn Hs Rec E. unfold RunCreateTable in E. rewrite Hc, Hn, op_lift_bind in E.
  destruct (op_bind_inv _ _ _ _ _ E) as [(e & D & ->)|(s1 & [] & D & E1)].
  { pose proof (fun u => proj1 (ensure_dataset_tables _ _ _ _ _ u D)) as K. split_and!; [auto|done|]. intros old G.
    destruct (create_mode stmt); [by split|by right; left|]. split; [done|]. by rewrite D. }
  pose proof (fun u => proj1 (ensure_dataset_tables _ _ _ _ _ u D)) as K1.
  pose proof (proj2 (ensure_dataset_tables _ _ _ _ _ target D)) as Ab. rewrite Hs, op_lift_bind in E1.
  pose proof (fun old => same_table_schema _ _ _ old (K1 target)) as Ex.
  destruct (create_mode stmt) eqn:Mode.
  - change (create_table target sch s1 = (s', r)) in E1. split_and!.
    + intros u N. eapply same_table_trans; [done|]. by apply (create_mode_others CREATE_DEFAULT target sch _ _ r).
    + intros -> _. by eapply create_table_new.
    + intros old G. destruct (create_table_exists s1 target sch old (Ex _ G)) as (s2 & e & C & _ & K).
      unfold create_table in E1. rewrite C in E1. simplify_eq. split; [done|]. by eapply same_table_trans.
  - destruct (replaced_table _ _ _ _ _ Rec E1) as (O & N & X). split_and!.
    + intros u Nu. eapply same_table_trans; [done|]. by apply O.
    + intros ? _. by apply N.
    + intros old G. destruct (X old (Ex _ G)) as [?|[?|?]]; [by left|right; left|by right; right].
      by eapply same_table_trans.
  - change (tolerating kAlreadyExists (create_table target sch) s1 = (s', r)) in E1. split_and!.
    + intros u N. eapply same_table_trans; [done|]. by apply (create_mode_others CREATE_IF_NOT_EXISTS target sch _ _ r).
    + intros -> [?|G]; [done|]. apply tolerating_inv in E1 as (r0 & C & R). unfold create_table in C.
      destruct R as [R _]. destruct (R eq_refl) as [->|(e0 & -> & K0)]; [by eapply create_table_new|].
      by destruct (create_table_failed _ _ _ _ _ Rec (Ab G) C).
    + intros old G. destruct (create_table_exists s1 target sch old (Ex _ G)) as (s2 & e & C & Ke & K).
      apply tolerating_inv in E1 as (r0 & C0 & R). unfold create_table in C0. rewrite C in C0. simplify_eq. split.
      * by eapply same_table_trans.
      * intros _. apply R. right. by exists e.
Qed.
End control.

(** ** A store in memory *)

Module ControlDemo.
Import MemStore Reference EvalReference.EvalReference.

Definition create (s : MemStore.t) (id : TableId) (sch : TableSchema) : MemStore.t * StatusOr unit :=
  match s !! id with
  | Some _ => (s, Err (AlreadyExistsError $"table exists"))
  | None => (<[id := mkTable sch []]> s, Ok ())
  end.

Definition remove (s : MemStore.t) (id : TableId) : MemStore.t * StatusOr unit :=
  match s !! id with Some _ => (delete id s, Ok ()) | None => (s, Err (not_found id)) end.

(** Datasets always exist; there are no views and no routines. *)
#[local] Instance mem_catalog : CatalogStore MemStore.t := {|
  CreateDataset s _ _ := (s, Ok ());
  DropDataset s _ _ := (s, Ok ());
  RestoreDataset s _ := (s, Err (NotFoundError $"no tombstone"));
  ListDatasets _ _ := Ok [];
  EngineSql.CreateTable := create;
  EngineSql.DropTable := remove;
  ListTables s d := Ok (List.filter (fun t => bool_decide (mkDatasetId (Storage.project_id t) (dataset_id t) = d)) (map_to_list s).*1);
  DeleteView s _ := (s, Ok ());
  DeleteRoutine s _ := (s, Ok ());
  ListRoutines _ _ := Ok [];
  ListAllViews _ := Ok [];
  ParquetSnapshotPath _ _ := None;
  ParquetSnapshotPathAt _ _ _ := Ok None;
  GetTableGovernance _ _ := Ok (mkGovernance [] []);
  data_dir _ := $"/data";
|}.

Lemma mem_same (s s' : MemStore.t) t : s' !! t = s !! t -> same_table s s' t.
Proof. intros E. apply same_table_eq; cbn; unfold with_table, rows_of; by rewrite E. Qed.

#[local] Instance mem_catalog_laws : CatalogStoreLaws MemStore.t.
Proof.
  refine {| absent := fun (s : MemStore.t) t => s !! t = None; recorded := fun _ => True |};
    cbn; unfold create, remove.
  - intros s t A. exists (not_found t). unfold with_table. by rewrite A.
  - intros. by apply mem_same.
  - done.
  - intros s t sch s' _. destruct (s !! t) eqn:L; [done|]. intros [= <-]. unfold with_table, rows_of. by rewrite lookup_insert_eq.
  - intros s t sch s' e _ A. by rewrite A.
  - intros s t sch sch' G. unfold with_table in G. destruct (s !! t) eqn:L; [|done]. eexists _, _. split_and!; [done..|].
    by apply mem_same.
  - intros s t sch u N. apply mem_same. destruct (s !! t); [done|]. cbn. by rewrite lookup_insert_ne.
  - intros s t s'. destruct (s !! t); [|done]. intros [= <-]. by rewrite lookup_delete_eq.
  - intros s t s' e. destruct (s !! t) eqn:L; [done|]. intros [= <- _]. by right.
  - intros s t u N. apply mem_same. destruct (s !! t); [|done]. cbn. by rewrite lookup_delete_ne.
Defined.

Lemma mem_recorded sch : recorded (S := MemStore.t) sch.
Proof. exact I. Qed.

(** A table with two columns and a row. *)
Definition tid : TableId := mkTableId $"p" $"d" $"t".
Definition column (n : str) : ColumnSchema := Schema.mkColumn n kInt64 kNullable [] [] [].
Definition two_columns : TableSchema := mkTableSchema [column $"a"; column $"b"].
Definition one_row : MemStore.t := {[ tid := mkTable two_columns [mkRow [VInt64 1; VInt64 2]] ]}.

Definition alter (actions : list AlterAction) : AlterTableStmt := mkAlterTable [$"d.t"] false (map Some actions).
Definition add_c : AlterAction := AddColumn (Some (mkColumnDef $"c" (Some TInt64) false)) false.

Lemma alter_table_outcomes_witness :
  let s' := (RunAlterTable $"p" [] (alter [add_c]) one_row).1 in
  GetSchema s' tid = Ok (mkTableSchema [column $"a"; column $"b"; column $"c"]) /\
  contents s' tid = [mkRow [VInt64 1; VInt64 2; VNull]].
Proof.
  intros s'.
  assert (NamePathToTableId (alter_name_path (alter [add_c])) $"p" [] = Ok tid) as H1 by (vm_compute; reflexivity).
  assert (GetSchema one_row tid = Ok two_columns) as H2 by (vm_compute; reflexivity).
  assert (apply_actions tid (alter_action_list (alter [add_c])) (two_columns, [], false) =
    Ok (mkTableSchema [column $"a"; column $"b"; column $"c"], [column $"c"], true)) as H3 by (vm_compute; reflexivity).
  assert (RunAlterTable $"p" [] (alter [add_c]) one_row = (s', Ok ())) as H4.
  { rewrite (surjective_pairing (RunAlterTable _ _ _ _)). apply (f_equal (pair s')). vm_compute. reflexivity. }
  destruct (alter_table_outcomes _ _ _ _ _ _ _ _ _ _ H1 H2 H3 (mem_recorded _) H4) as [_ [G C]].
  split; [exact G|]. rewrite C. by vm_compute.
Defined.

(** ADD and DROP in one statement: the rows get the nulls of the added column but keep
    the dropped one, the append refuses them, and the table is left empty. *)
Example mixed_alter_loses_rows :
  let '(s', r) := RunAlterTable $"p" [] (alter [add_c; DropColumn $"a" false]) one_row in
  (exists e, r = Err e) /\ contents s' tid = [] /\
  GetSchema s' tid = Ok (mkTableSchema [column $"b"; column $"c"]).
Proof. vm_compute. by split; [eexists|]. Qed.

Lemma rename_loses_values_witness :
  cells (projected two_columns (mkTableSchema [column $"a"; column $"z"]) (mkRow [VInt64 1; VInt64 2])) = [VInt64 1; VNull].
Proof.
  destruct (rename_loses_values tid [column $"a"] (column $"b") [] $"z" false) as [_ P].
  - by apply (bool_decide_unpack _).
  - by apply (bool_decide_unpack _).
  - exact (P (mkRow [VInt64 1; VInt64 2]) eq_refl).
Defined.

(** No vectors and no in-memory database: CREATE TABLE needs neither. *)
#[local] Instance no_memory : VectorMemory := {|
  memory := unit; read_bool _ _ := false; read_int8 _ _ := 0%Z; read_int16 _ _ := 0%Z; read_int32 _ _ := 0%Z;
  read_int64 _ _ := 0%Z; read_uint8 _ _ := 0%Z; read_uint16 _ _ := 0%Z; read_uint32 _ _ := 0%Z; read_uint64 _ _ := 0%Z;
  read_hugeint _ _ := mkHuge 0 0; read_float _ _ := SpecFloat.S754_zero false; read_double _ _ := SpecFloat.S754_zero false;
  read_string _ _ := []; type_number _ := 0%Z; duckdb_decimal_to_double _ := SpecFloat.S754_zero false;
  HexStringToBytes _ := None;
|}.

#[local] Instance no_database : InMemoryDb MemStore.t := {|
  connection := unit;
  duckdb_open := false;
  duckdb_connect := None;
  RegisterAll c := (c, Ok ());
  session_query c s _ := (c, s, Err []);
|}.

Definition create_c (mode : CreateMode) : CreateTableStmt :=
  mkCreateTable [$"d"; $"t"] mode [Some (mkColumnDef $"c" (Some TInt64) false)] None.

Lemma create_table_modes_witness :
  let run mode := RunCreateTable $"p" [] (create_c mode) one_row in
  (GetSchema (run CREATE_OR_REPLACE).1 tid = Ok (mkTableSchema [column $"c"]) /\ contents (run CREATE_OR_REPLACE).1 tid = []) /\
  ((run CREATE_DEFAULT).2 <> Ok () /\ same_table one_row (run CREATE_DEFAULT).1 tid) /\
  same_table one_row (run CREATE_IF_NOT_EXISTS).1 tid.
Proof.
  intros run.
  assert (forall mode, NamePathToTableId (create_name_path (create_c mode)) $"p" [] = Ok tid) as H1 by (intros; vm_compute; reflexivity).
  assert (forall mode, ColumnDefinitionListToTableSchema (create_columns (create_c mode)) = Ok (mkTableSchema [column $"c"])) as H2
    by (intros; vm_compute; reflexivity).
  assert (GetSchema one_row tid = Ok two_columns) as H3 by (vm_compute; reflexivity).
  pose proof (fun mode => create_table_modes $"p" [] (create_c mode) tid _ one_row (run mode).1 (run mode).2
    eq_refl (H1 mode) (H2 mode) (mem_recorded _) (surjective_pairing _)) as M.
  split; [|split].
  - destruct (M CREATE_OR_REPLACE) as (_ & N & _). apply N; [vm_compute; reflexivity|by left].
  - destruct (M CREATE_DEFAULT) as (_ & _ & N). exact (N _ H3).
  - destruct (M CREATE_IF_NOT_EXISTS) as (_ & _ & N). exact (proj1 (N _ H3)).
Defined.
End ControlDemo.
