(* ===== verification/ScriptRunner.v ===== *)
(** * ScriptRunner: scripts with control flow, and the statement loop

    Models [coordinator/script_statement_evaluator.cc], [script_googlesql_runner.cc],
    [script_row_iterator.cc] and the loop of [script_executor.cc]
    ([ExecuteScriptViaAnalyzeNext]).

    Control flow is run by GoogleSQL's [ScriptExecutor], a library: it is the class
    [ScriptExecutorLibrary].  One step of it may call the evaluator the engine
    passes in any number of times and acts on the answers, so a step is a tree of
    calls ([Turn]); [run_turn] answers them with the evaluator's methods.  A script
    may loop for ever: the number of the library's steps is bounded by [steps].  The
    loop over the statements of a script needs one round per byte at most. *)

From S2P Require Import Prelude Order Absl AbslReference Schema RowRestriction Storage SemanticError.
From S2P Require Import ScriptText SqlPreprocess FrameStack SqlValue GoogleSqlReference Arithmetic.
From S2P Require Import Operators MathFuncs Casts EvalExpr Rows Joins SetOps Unnest AggFuncs Aggregates.
From S2P Require Import Analytic Scans ScanProps StorageValues Dml SemanticExecutor Parameters Analyze Script.

(** ** What the library and the evaluator exchange *)

(** A materialized query result, as the library iterates over it
    ([MaterializedEvaluatorTableIterator]). *)
Record TableIterator `{GoogleSql} := mkIterator {
  iter_names : list str;
  iter_types : list SqlType;
  iter_rows : list (list Value);
  iter_cursor : Z;
}.

Definition NumColumns `{GoogleSql} (it : TableIterator) : nat := length (iter_names it).

(** Moves to the next row; whether there is one. *)
Definition NextRow `{GoogleSql} (it : TableIterator) : TableIterator * bool :=
  let cursor := (iter_cursor it + 1)%Z in
  (mkIterator _ (iter_names it) (iter_types it) (iter_rows it) cursor,
   (cursor <? Z.of_nat (length (iter_rows it)))%Z).

Definition GetValue `{GoogleSql} (it : TableIterator) (i : nat) : option Value :=
  iter_rows it !! Z.to_nat (iter_cursor it) ≫= (.!! i).

(** What a method of the evaluator reads of the executor that calls it. *)
Record ExecutorView `{GoogleSql} := mkView {
  current_variables : list (str * Value);
  known_system_variables : gmap (list str) Value;
  UpdateAnalyzerOptions : StatusOr unit;
}.

Section turns.
Context `{GoogleSql} (E : Type).

Inductive Turn : Type :=
| TurnDone (r : StatusOr E)
| TurnExecuteStatement (view : ExecutorView) (segment : str) (k : StatusOr unit -> Turn)
| TurnExecuteQueryWithResult (view : ExecutorView) (segment : str) (k : StatusOr TableIterator -> Turn)
| TurnEvaluateScalarExpression (view : ExecutorView) (segment : str) (k : StatusOr Value -> Turn)
| TurnEvaluateCaseExpression (view : ExecutorView) (case_value : str) (when_values : list str)
    (k : StatusOr Z -> Turn)
| TurnLoadProcedure (path : list str) (k : StatusOr StoredSQLProcedure -> Turn)
(** the result of the executor's [DefaultAssignSystemVariable] comes first *)
| TurnAssignSystemVariable (assigned : StatusOr bool) (path : list str) (value : Value)
    (k : StatusOr unit -> Turn)
| TurnResolveTypeName (segment : str) (k : StatusOr SqlType -> Turn).
End turns.

Arguments TurnDone {_ _}.
Arguments TurnExecuteStatement {_ _}.
Arguments TurnExecuteQueryWithResult {_ _}.
Arguments TurnEvaluateScalarExpression {_ _}.
Arguments TurnEvaluateCaseExpression {_ _}.
Arguments TurnLoadProcedure {_ _}.
Arguments TurnAssignSystemVariable {_ _}.
Arguments TurnResolveTypeName {_ _}.

Class ScriptExecutorLibrary (W : Type) `{GoogleSql} := {
  ScriptExecutor : Type;
  ScriptExecutor_Create : str -> StatusOr ScriptExecutor;
  IsComplete : ScriptExecutor -> bool;
  ExecuteNext : ScriptExecutor -> Turn ScriptExecutor;
  GetCurrentVariables : ScriptExecutor -> list (str * Value);
  (** [googlesql::AnalyzeType] *)
  AnalyzeType : W -> str -> StatusOr (option SqlType);
  (** [MakeScriptException() << message], and the statuses that carry one *)
  MakeScriptException : str -> Status;
  is_script_exception : Status -> bool;
}.

Section runner.
Context {W : Type} `{AbslText, AbslDouble, GoogleSqlOps, ExecutorNodes}.
Context `{!CastLibrary, !ValueText, !ResolvedAst, !ParameterLibrary, !ParameterParser, !AnalyzerLibrary W}.
Context `{!ScriptExecutorLibrary W}.
Context (parts : W -> ExecutorParts) (engine : @EngineOps W _ _).

(** Whether the engine was built with GoogleSQL's script executor. *)
Context (has_googlesql_scripting : bool).

Abbreviation Script := (@Script W _ _).
Abbreviation Session := (@Session W _ _).
Abbreviation ScriptState := (@ScriptState W _ _).

(** ** The evaluator *)

Definition AttachScriptExceptionIfCatchable (status : Status) : Status :=
  if is_script_exception status then status
  else if bool_decide (GetSemanticErrorReason (Some status) = rNotImplemented) ||
          bool_decide (code status = kInternal) then status
  else MakeScriptException (message status).

Definition attach {A} (r : StatusOr A) : StatusOr A :=
  match r with Ok a => Ok a | Err e => Err (AttachScriptExceptionIfCatchable e) end.

(** A computation whose errors a handler of the script may catch. *)
Definition catchable {A} (m : Script A) : Script A := fun st =>
  match m st with None => None | Some (st, r) => Some (st, attach r) end.

Fixpoint SyncDriverFromExecutor (variables : list (str * Value)) : Script unit :=
  match variables with
  | [] => mret ()
  | (name, value) :: variables =>
      _ ← on_driver (fun d => if Has d name then Set_ d name value else Declare_ d name value);
      SyncDriverFromExecutor variables
  end.

(** The start of [ExecuteStatement] and [ExecuteQueryWithResult]: the resolved
    statement of a segment. *)
Definition resolve_segment (request : QueryRequest) (catalog : CatalogRef) (view : ExecutorView)
    (segment : str) : Script ResolvedStatement :=
  if negb (is_bigquery_catalog catalog)
  then fail (FailedPreconditionError $"EmulatorStatementEvaluator: catalog must be GoogleSqlCatalog")
  else
    _ ← SyncDriverFromExecutor (current_variables view);
    _ ← of_status_or (UpdateAnalyzerOptions view);
    _ ← register_on_catalog ∅;
    catchable (analyze (with_sql request segment) catalog).

Definition ExecuteStatement (depth : nat) (request : QueryRequest) (catalog : CatalogRef)
    (view : ExecutorView) (segment : str) : Script unit :=
  resolved ← resolve_segment request catalog view segment;
  catchable (ExecuteOneScriptStatement parts engine depth (with_sql request segment) resolved catalog
               (Some (known_system_variables view))).

Definition convert_row (types : list SqlType) (row : Storage.Row) : StatusOr (list Value) :=
  outcome_mapM (fun ct : Storage.Value * SqlType =>
    StorageValueToGoogleSqlValue ct.1 (Some ct.2) (column_of $"<value>" kNullable kUnknown [] []))
    (zip (cells row) types).

Definition RowSourceToEvaluatorIterator (source : RowSource) : StatusOr TableIterator :=
  let cols := Schema.columns source.1 in
  types ← outcome_mapM ToGoogleSqlType cols;
  rows ← outcome_mapM (convert_row types) source.2;
  Ok (mkIterator _ (map col_name cols) types rows (-1)).

(** The rows of the script, read once: nothing is left of them. *)
Definition drain_final_rows : Script TableIterator := fun st =>
  match final_rows st with
  | None => Some (st, Ok (mkIterator _ [] [] [] (-1)))
  | Some source =>
      let '(drained, rest) := DrainRowSource source in
      Some (mkScript (session st) (driver st) (Some rest), RowSourceToEvaluatorIterator drained)
  end.

Definition ExecuteQueryWithResult (depth : nat) (request : QueryRequest) (catalog : CatalogRef)
    (view : ExecutorView) (segment : str) : Script TableIterator :=
  _ ← ExecuteStatement depth request catalog view segment;
  drain_final_rows.

Definition EvalScalarSegment (request : QueryRequest) (catalog : CatalogRef) (view : ExecutorView)
    (segment : str) : Script Value := fun st =>
  let s := session st in
  let P := session_parts parts s in
  let ctx := mkContext (request_project_id request) None None None (Some (driver st)) (Some (driver st))
               (Some (known_system_variables view)) None None None None in
  Some (st,
    if negb (is_bigquery_catalog catalog)
    then Err (FailedPreconditionError $"EmulatorStatementEvaluator: catalog must be GoogleSqlCatalog")
    else
      options ← RegisterExpressionColumnsOnAnalyzerOptions (driver st) (MakeCoordinatorAnalyzerOptions false);
      output ← AnalyzeExpression (world s) (catalog_constants s) options segment;
      match output with
      | None => Err (InternalError $"EmulatorStatementEvaluator::EvalScalarSegment: null resolved expr")
      | Some e => EvalExpr e (PopulateExpressionColumns (driver st) ctx)
      end).

Definition EvaluateScalarExpression (request : QueryRequest) (catalog : CatalogRef) (view : ExecutorView)
    (segment : str) : Script Value :=
  _ ← SyncDriverFromExecutor (current_variables view);
  EvalScalarSegment request catalog view segment.

(** The index of the first branch equal to the value, by [Value::Equals]. *)
Fixpoint first_case (request : QueryRequest) (catalog : CatalogRef) (view : ExecutorView) (value : Value)
    (i : Z) (when_values : list str) : Script Z :=
  match when_values with
  | [] => mret (-1)%Z
  | segment :: when_values =>
      v ← EvalScalarSegment request catalog view segment;
      if ValueEqual value v then mret i
      else first_case request catalog view value (i + 1)%Z when_values
  end.

Definition EvaluateCaseExpression (request : QueryRequest) (catalog : CatalogRef) (view : ExecutorView)
    (case_value : str) (when_values : list str) : Script Z :=
  _ ← SyncDriverFromExecutor (current_variables view);
  value ← EvalScalarSegment request catalog view case_value;
  first_case request catalog view value 0 when_values.

Definition ResolveTypeName (catalog : CatalogRef) (segment : str) : Script SqlType := fun st =>
  Some (st,
    if negb (is_bigquery_catalog catalog)
    then Err (FailedPreconditionError $"EmulatorStatementEvaluator: catalog must be GoogleSqlCatalog")
    else
      t ← AnalyzeType (world (session st)) segment;
      match t with
      | Some t => Ok t
      | None => Err (InternalError $"EmulatorStatementEvaluator::ResolveTypeName: null resolved type")
      end).

Definition LoadProcedure (request : QueryRequest) (path : list str) : Script StoredSQLProcedure := fun st =>
  Some (st,
    match path with
    | [] => Err (NotFoundError $"procedure path is empty")
    | _ =>
        let name := List.last path [] in
        match FindProjectProcedure (procedures (session st)) (request_project_id request) name with
        | Some p => Ok p
        | None => Err (NotFoundError ($"procedure '" ++ name ++ $"' not found"))
        end
    end).

Definition store_variable (request : QueryRequest) (path : list str) (value : Value) : Script unit := fun st =>
  let s := session st in
  let '(variables, r) := SetSystemVariable (system_variables s) (request_project_id request) path value in
  Some (mkScript (mkSession (world s) (procedures s) variables (catalog_constants s)) (driver st) (final_rows st), r).

Definition AssignSystemVariable (request : QueryRequest) (assigned : StatusOr bool) (path : list str)
    (value : Value) : Script unit :=
  done ← of_status_or assigned;
  if (done : bool) then mret () else store_variable request path value.

(** One step of the library: its calls answered in turn. *)
Definition answer {A B} (m : Script A) (k : StatusOr A -> Script B) : Script B := fun st =>
  match m st with None => None | Some (st, r) => k r st end.

Fixpoint run_turn (depth : nat) (request : QueryRequest) (catalog : CatalogRef) (t : Turn ScriptExecutor)
    : Script ScriptExecutor :=
  match t with
  | TurnDone r => of_status_or r
  | TurnExecuteStatement view segment k =>
      answer (ExecuteStatement depth request catalog view segment) (fun r => run_turn depth request catalog (k r))
  | TurnExecuteQueryWithResult view segment k =>
      answer (ExecuteQueryWithResult depth request catalog view segment)
        (fun r => run_turn depth request catalog (k r))
  | TurnEvaluateScalarExpression view segment k =>
      answer (EvaluateScalarExpression request catalog view segment) (fun r => run_turn depth request catalog (k r))
  | TurnEvaluateCaseExpression view case_value when_values k =>
      answer (EvaluateCaseExpression request catalog view case_value when_values)
        (fun r => run_turn depth request catalog (k r))
  | TurnLoadProcedure path k =>
      answer (LoadProcedure request path) (fun r => run_turn depth request catalog (k r))
  | TurnAssignSystemVariable assigned path value k =>
      answer (AssignSystemVariable request assigned path value) (fun r => run_turn depth request catalog (k r))
  | TurnResolveTypeName segment k =>
      answer (ResolveTypeName catalog segment) (fun r => run_turn depth request catalog (k r))
  end.

(** ** A script under GoogleSQL's executor *)

Fixpoint run_executor (steps depth : nat) (request : QueryRequest) (catalog : CatalogRef) (e : ScriptExecutor)
    : Script ScriptExecutor :=
  if IsComplete e then mret e
  else
    match steps with
    | 0 => out_of_depth
    | S steps =>
        e ← run_turn depth request catalog (ExecuteNext e);
        run_executor steps depth request catalog e
    end.

(** [semantic::BigQueryTypeName]: empty for the kinds it has no name for. *)
Definition BigQueryTypeName (type : option SqlType) : str :=
  match type with
  | Some TBool => $"BOOL"
  | Some TInt64 => $"INT64"
  | Some TDouble => $"FLOAT64"
  | Some TString => $"STRING"
  | Some TBytes => $"BYTES"
  | Some TDate => $"DATE"
  | Some TTime => $"TIME"
  | Some TDatetime => $"DATETIME"
  | Some TTimestamp => $"TIMESTAMP"
  | Some TNumeric => $"NUMERIC"
  | Some TBigNumeric => $"BIGNUMERIC"
  | Some TJson => $"JSON"
  | Some TGeography => $"GEOGRAPHY"
  | Some TInterval => $"INTERVAL"
  | Some (TRange _) => $"RANGE"
  | Some TUuid => $"UUID"
  | Some (TArray _) => $"ARRAY"
  | Some (TStruct _) => $"STRUCT"
  | _ => []
  end.

(** The declarations that give the script the variables set so far; a value whose
    type has no BigQuery name is left out. *)
Definition declare_text (p : str * Value) : str :=
  match BigQueryTypeName (type_of p.2) with
  | [] => []
  | name => $"DECLARE " ++ p.1 ++ $" " ++ name
              ++ (if is_null p.2 then [] else $" DEFAULT " ++ GetSQLLiteral p.2) ++ $";" ++ [newline]
  end.

Definition AugmentScriptWithDriverDeclares (tail : str) (variables : FrameStack Value) : str :=
  mjoin (map declare_text (map_to_list (VisibleBindings variables))) ++ tail.

(** The values the executor ends with, written to the variables that exist. *)
Fixpoint copy_variables (variables : list (str * Value)) : Script unit :=
  match variables with
  | [] => mret ()
  | (name, value) :: variables =>
      _ ← on_driver (fun d => if Has d name then ((Set_ d name value).1, Ok ()) else (d, Ok ()));
      copy_variables variables
  end.

(** [has_driver] is false when the script starts here: the variables are then new
    ones. *)
Definition script_text (request : QueryRequest) (has_driver : bool) (variables : FrameStack Value)
    (script_sql : str) : str :=
  let tail := match script_sql with [] => request_sql request | _ => script_sql end in
  WrapScriptInBeginEnd
    (if has_driver && negb (bool_decide (VisibleBindings variables = ∅))
     then AugmentScriptWithDriverDeclares tail variables else tail).

Definition ExecuteScriptViaGoogleSql (steps depth : nat) (request : QueryRequest) (catalog : CatalogRef)
    (has_driver : bool) (script_sql : str) : Script RowSource :=
  if negb (is_bigquery_catalog catalog)
  then fail (FailedPreconditionError $"script::ExecuteScriptViaGoogleSql: catalog must be GoogleSqlCatalog")
  else
    fun st =>
      let sql := script_text request has_driver (driver st) script_sql in
      let run : Script unit :=
        _ ← register_on_catalog ∅;
        e ← of_status_or (ScriptExecutor_Create sql);
        e ← run_executor steps depth (with_sql request sql) catalog e;
        copy_variables (GetCurrentVariables e) in
      match run (mkScript (session st) (driver st) None) with
      | None => None
      | Some (st', r) =>
          Some (mkScript (session st') (driver st') (final_rows st), (fun _ => script_rows (final_rows st')) <$> r)
      end.

(** ** The loop over the statements of a script *)

Definition ExecuteControlFlowTailIfNeeded (steps depth : nat) (request : QueryRequest) (catalog : CatalogRef)
    (remaining : str) : Script (option RowSource) :=
  if negb (ScriptNeedsGoogleSqlExecutor (LeadingScriptStatement remaining)) then mret None
  else if has_googlesql_scripting then
    let tail := if StartsWithIgnoreCase (StripAsciiWhitespace remaining) $"BEGIN" then remaining
                else StripBeginEnd remaining in
    rows ← ExecuteScriptViaGoogleSql steps depth request catalog true tail;
    mret (Some rows)
  else fail (MakeSemanticError rNotImplemented
         $"script: structured control flow (IF/WHILE/LOOP/FOR/EXCEPTION) requires googlesql/scripting::ScriptExecutor, which is not linked in the prebuilt artifact").

(** A SET at the position: the position after it, when there is one. *)
Definition TryExecuteLeadingSetStatement (request : QueryRequest) (position : nat) (catalog : CatalogRef)
    : Script (option nat) :=
  let remaining := drop position (request_sql request) in
  let trimmed := SkipLeadingLineComments remaining in
  if negb (StartsWithIgnoreCase trimmed $"SET ") then mret None
  else
    let chunk := ExtractFirstStatementChunk remaining in
    if bool_decide (chunk_sql chunk = []) then fail (InvalidArgumentError $"script: empty SET statement")
    else
      p ← of_status_or (split_set $"script" (chunk_sql chunk));
      _ ← ExecuteProcedureSet parts request p.1 p.2 catalog;
      mret (Some (position + consumed_bytes chunk)).

(** The position after the step, the variables registered so far, and whether the
    script is at its end. *)
Definition ExecuteAnalyzeNextLoopStep (steps depth : nat) (request : QueryRequest) (catalog : CatalogRef)
    (options : AnalyzerOptions) (position : nat) (registered : gset str)
    : Script (nat * gset str * bool) :=
  let sql := request_sql request in
  rows ← ExecuteControlFlowTailIfNeeded steps depth request catalog (drop position sql);
  match rows with
  | Some rows => _ ← set_final_rows rows; mret (position, registered, true)
  | None =>
      registered ← register_on_catalog registered;
      set_done ← TryExecuteLeadingSetStatement request position catalog;
      match set_done with
      | Some position =>
          mret (position, registered, bool_decide (StripAsciiWhitespace (drop position sql) = []))
      | None =>
          st ← get_state;
          next ← of_status_or (AnalyzeNextStatement (world (session st)) (catalog_constants (session st)) options
                                 sql position);
          match next with
          | (None, _, _) => fail (InternalError $"script::ExecuteScriptViaAnalyzeNext: analyzer returned null")
          | (Some stmt, position, at_end) =>
              _ ← ExecuteOneScriptStatement parts engine depth request stmt catalog None;
              mret (position, registered, at_end)
          end
      end
  end.

Fixpoint statement_loop (fuel steps depth : nat) (request : QueryRequest) (catalog : CatalogRef)
    (options : AnalyzerOptions) (position : nat) (registered : gset str) : Script unit :=
  match fuel with
  | 0 => out_of_depth
  | S fuel =>
      step ← ExecuteAnalyzeNextLoopStep steps depth request catalog options position registered;
      let '(position, registered, at_end) := step in
      if (at_end : bool) then mret ()
      else statement_loop fuel steps depth request catalog options position registered
  end.

(** A script that starts under GoogleSQL's executor, with new variables. *)
Definition fresh_googlesql_script (steps depth : nat) (request : QueryRequest) (catalog : CatalogRef)
    (script_sql : str) : Run Session RowSource := fun s =>
  match ExecuteScriptViaGoogleSql steps depth request catalog false script_sql
          (mkScript s NewFrameStack None) with
  | None => None
  | Some (st, r) => Some (session st, r)
  end.

Definition ExecuteScriptViaAnalyzeNext (steps depth : nat) (request : QueryRequest) (catalog : CatalogRef)
    : Run Session RowSource :=
  if negb (is_bigquery_catalog catalog)
  then fail (FailedPreconditionError $"script::ExecuteScriptViaAnalyzeNext: catalog must be GoogleSqlCatalog")
  else
    options ← of_status_or (BuildAnalyzerOptionsForRequest request catalog true);
    let sql := request_sql request in
    let inner := StripBeginEnd sql in
    if has_googlesql_scripting && negb (ScriptUsesCreateConstantLowering sql) && ScriptNeedsGoogleSqlExecutor inner
    then
      fresh_googlesql_script steps depth request catalog
        (if StartsWithIgnoreCase (StripAsciiWhitespace sql) $"BEGIN" then sql else inner)
    else run_script (statement_loop (S (length sql)) steps depth request catalog options 0 ∅).
End runner.
