(* ===== verification/Routes.v ===== *)
(** * Routes: the executor a statement runs on

    Models [engine/disposition.{h,cc}], [coordinator/route_classifier.cc],
    [route_classifier_visitor.cc], [route_classifier_functions.cc] and
    [route_classifier_analytic.cc], with the lookups of
    [duckdb/transpiler/node_dispositions.cc] and [functions.cc].

    The classifier reads the resolved tree through its nodes' class names, a few
    attributes and the children by field: [ResolvedNode] is that view of it.  The
    tables of dispositions are generated from YAML files by the build: the one of
    the node classes is transcribed from [node_dispositions.yaml]; the one of the
    functions, and [CanLowerTimestampAddSub] of the DuckDB transpiler, are the class
    [RouteTables]. *)

From S2P Require Import Prelude Order Absl AbslReference Schema RowRestriction Storage SemanticError SqlValue.

(** ** Dispositions *)

Inductive Disposition :=
| kDuckdbNative | kDuckdbRewrite | kDuckdbUdf | kSemanticExecutor | kControlOp | kLocalStub | kUnsupported.

#[global] Instance disposition_eq_dec : EqDecision Disposition.
Proof. solve_decision. Defined.

Definition DispositionToString (d : Disposition) : str :=
  match d with
  | kDuckdbNative => $"duckdb_native"
  | kDuckdbRewrite => $"duckdb_rewrite"
  | kDuckdbUdf => $"duckdb_udf"
  | kSemanticExecutor => $"semantic_executor"
  | kControlOp => $"control_op"
  | kLocalStub => $"local_stub"
  | kUnsupported => $"unsupported"
  end.

Definition RouteClassifierPriority (d : Disposition) : nat :=
  match d with
  | kDuckdbNative => 0
  | kDuckdbRewrite => 1
  | kDuckdbUdf => 2
  | kControlOp => 3
  | kSemanticExecutor => 4
  | kLocalStub => 5
  | kUnsupported => 6
  end.

Record NodeDispositionEntry := mkNodeEntry { node_disposition : Disposition; node_planned : bool }.
Record FnEntry := mkFnEntry { fn_disposition : Disposition; duckdb_name : str; fn_planned : bool }.

(** The rows of [node_dispositions.yaml]; none of them is planned. *)
Definition node_disposition_rows : list (Disposition * list str) := [
  (kDuckdbNative, [
    $"ResolvedQueryStmt"; $"ResolvedTableScan"; $"ResolvedSingleRowScan"; $"ResolvedProjectScan";
    $"ResolvedFilterScan"; $"ResolvedJoinScan"; $"ResolvedArrayScan"; $"ResolvedAggregateScan";
    $"ResolvedSetOperationScan"; $"ResolvedOrderByScan"; $"ResolvedLimitOffsetScan";
    $"ResolvedAnalyticScan"; $"ResolvedSampleScan"; $"ResolvedWithScan"; $"ResolvedWithRefScan";
    $"ResolvedLiteral"; $"ResolvedParameter"; $"ResolvedColumnRef"; $"ResolvedFunctionCall";
    $"ResolvedAggregateFunctionCall"; $"ResolvedAnalyticFunctionCall"; $"ResolvedCast";
    $"ResolvedSubqueryExpr"; $"ResolvedWithExpr"; $"ResolvedConstant"; $"ResolvedOutputColumn";
    $"ResolvedComputedColumn"; $"ResolvedDeferredComputedColumn"; $"ResolvedOrderByItem";
    $"ResolvedWindowFrame"; $"ResolvedWindowFrameExpr"; $"ResolvedAnalyticFunctionGroup";
    $"ResolvedSetOperationItem"; $"ResolvedFunctionArgument"]);
  (kDuckdbRewrite, [
    $"ResolvedRecursiveScan"; $"ResolvedRecursiveRefScan"; $"ResolvedPivotScan"; $"ResolvedUnpivotScan";
    $"ResolvedMakeStruct"; $"ResolvedGetStructField"; $"ResolvedGetJsonField"; $"ResolvedGroupingSet";
    $"ResolvedRollup"; $"ResolvedCube"]);
  (kSemanticExecutor, [
    $"ResolvedInsertStmt"; $"ResolvedUpdateStmt"; $"ResolvedDeleteStmt"; $"ResolvedMergeStmt";
    $"ResolvedCallStmt"; $"ResolvedMultiStmt"; $"ResolvedCreateConstantStmt"; $"ResolvedAssignmentStmt";
    $"ResolvedExecuteImmediateStmt"; $"ResolvedAssertStmt"; $"ResolvedMatchRecognizeScan";
    $"ResolvedTVFScan"; $"ResolvedRelationArgumentScan"; $"ResolvedBarrierScan";
    $"ResolvedPipeInsertScan"; $"ResolvedGetRowField"; $"ResolvedSystemVariable";
    $"ResolvedArgumentRef"; $"ResolvedArgumentDef"; $"ResolvedExpressionColumn";
    $"ResolvedColumnHolder"; $"ResolvedAggregateHavingModifier"; $"ResolvedReturningClause"]);
  (kControlOp, [
    $"ResolvedCreateTableStmt"; $"ResolvedCreateTableAsSelectStmt"; $"ResolvedCreateViewStmt";
    $"ResolvedCreateMaterializedViewStmt"; $"ResolvedCreateProcedureStmt";
    $"ResolvedCreateFunctionStmt"; $"ResolvedCreateTableFunctionStmt"; $"ResolvedAlterTableStmt";
    $"ResolvedDropStmt"; $"ResolvedDropFunctionStmt"; $"ResolvedTruncateStmt";
    $"ResolvedAuxLoadDataStmt"; $"ResolvedExportDataStmt"; $"ResolvedCreateSnapshotTableStmt";
    $"ResolvedCloneDataStmt"; $"ResolvedUndropStmt"; $"ResolvedDropSnapshotTableStmt"]);
  (kLocalStub, [
    $"ResolvedCreateModelStmt"; $"ResolvedAnonymizedAggregateScan";
    $"ResolvedDifferentialPrivacyAggregateScan"; $"ResolvedAggregationThresholdAggregateScan"]);
  (kUnsupported, [
    $"ResolvedExplainStmt"; $"ResolvedAnalyzeStmt"; $"ResolvedGroupRowsScan"; $"ResolvedPipeIfScan";
    $"ResolvedPipeForkScan"; $"ResolvedPipeTeeScan"; $"ResolvedPipeExportDataScan";
    $"ResolvedPipeCreateTableScan"; $"ResolvedGraphTableScan"; $"ResolvedGraphScan";
    $"ResolvedGraphLinearScan"; $"ResolvedGraphRefScan"; $"ResolvedGraphCallScan";
    $"ResolvedGraphElementScan"; $"ResolvedGraphNodeScan"; $"ResolvedGraphEdgeScan";
    $"ResolvedGraphPathScan"; $"ResolvedMakeProto"; $"ResolvedGetProtoField"; $"ResolvedGetProtoOneof";
    $"ResolvedReplaceField"; $"ResolvedFlatten"; $"ResolvedFlattenedArg"; $"ResolvedInlineLambda";
    $"ResolvedFilterField"; $"ResolvedFilterFieldArg"; $"ResolvedSequence"; $"ResolvedCatalogColumnRef";
    $"ResolvedUpdateConstructor"])].

Definition has_row (node_kind : str) (row : Disposition * list str) : bool :=
  existsb (fun name => bool_decide (name = node_kind)) row.2.

Definition LookupNodeDisposition (node_kind : str) : option NodeDispositionEntry :=
  (fun row => mkNodeEntry row.1 false) <$> List.find (has_row node_kind) node_disposition_rows.

(** ** Resolved nodes *)

(** The fields of a node the classifier reads children of; [FOther] is any other. *)
Inductive Field :=
| FArgument | FInputScan | FTableScan | FFromScan | FQuery | FRow | FReturning
| FHavingModifier | FHavingExpr | FGroupBy | FGroupByAggregate
| FSubquery | FParameter | FArrayOffset | FArrayZipMode | FJoinExpr | FArrayExpr
| FFormat | FTimeZone | FExtendedCast | FOrderByItem | FCollationName | FColumnRef
| FFunctionGroup | FOrderBy | FAnalyticFunction | FExpr | FWindowFrame | FStartExpr | FEndExpr | FExpression
| FWhenClause | FWeightColumn | FPartitionBy | FOther.

#[global] Instance field_eq_dec : EqDecision Field.
Proof. solve_decision. Defined.

(** [googlesql::Function]: its group, its name and its full name without the group. *)
Record FunctionRef := mkFunctionRef { fn_group : str; fn_name : str; fn_full_name : str }.

Inductive RouteSubqueryType := QScalar | QArray | QExists | QIn | QLikeAny | QLikeAll | QNotLikeAny | QNotLikeAll.
Inductive FrameUnit := FrameRows | FrameRange.
Inductive BoundaryType :=
  UnboundedPreceding | OffsetPreceding | CurrentRow | OffsetFollowing | UnboundedFollowing.
Inductive MergeMatch := WhenMatched | WhenNotMatchedBySource | WhenNotMatchedByTarget.
Inductive MergeAction := ActionInsert | ActionUpdate | ActionDelete.

#[global] Instance merge_match_eq_dec : EqDecision MergeMatch.
Proof. solve_decision. Defined.
#[global] Instance merge_action_eq_dec : EqDecision MergeAction.
Proof. solve_decision. Defined.

(** The attributes the classifier reads that are not children. *)
Inductive NodeDetail :=
| NoDetail
| CallDetail (function : option FunctionRef) (safe_error_mode : bool)
| ConstantDetail (name : option str)
| QueryStmtDetail (is_value_table : bool)
| JoinDetail (is_lateral : bool)
| SubqueryDetail (type : RouteSubqueryType)
| ArrayScanDetail (is_outer : bool)
| CastDetail (has_type_modifiers : bool)
| OrderByItemDetail (has_collation : bool)
| FrameDetail (unit : FrameUnit)
| BoundaryDetail (type : BoundaryType)
| MergeWhenDetail (match_type : MergeMatch) (action_type : MergeAction)
| TvfDetail (tvf_name : option str).

(** [node_kind_string()], the type of an expression, the attributes, and the
    children in the order of [GetChildNodes] with the field each one is of. *)
Inductive ResolvedNode :=
  RNode (kind : str) (type : option SqlType) (detail : NodeDetail) (children : list (Field * ResolvedNode)).

Definition node_kind (n : ResolvedNode) : str := match n with RNode k _ _ _ => k end.
Definition node_type (n : ResolvedNode) : option SqlType := match n with RNode _ t _ _ => t end.
Definition node_detail (n : ResolvedNode) : NodeDetail := match n with RNode _ _ d _ => d end.
Definition node_children (n : ResolvedNode) : list (Field * ResolvedNode) := match n with RNode _ _ _ c => c end.

(** The children of a field, and the child of a field that has one. *)
Definition list_field (f : Field) (n : ResolvedNode) : list ResolvedNode :=
  map snd (filter (fun c => c.1 = f) (node_children n)).
Definition field (f : Field) (n : ResolvedNode) : option ResolvedNode := head (list_field f n).
Definition has_field (f : Field) (n : ResolvedNode) : bool := bool_decide (is_Some (field f n)).

Definition is_kind (k : str) (n : ResolvedNode) : bool := bool_decide (node_kind n = k).
Definition class_name (n : ResolvedNode) : str := $"Resolved" ++ node_kind n.

Section node_ind.
Context (P : ResolvedNode -> Prop).
Hypothesis (PNode : forall k t d cs, Forall (fun c => P c.2) cs -> P (RNode k t d cs)).

Fixpoint ResolvedNode_nested_ind (n : ResolvedNode) : P n :=
  match n with
  | RNode k t d cs =>
      PNode k t d cs
        ((fix go cs : Forall (fun c => P c.2) cs :=
            match cs with
            | [] => Forall_nil_2 _
            | c :: cs => Forall_cons_2 _ _ _ (ResolvedNode_nested_ind c.2) (go cs)
            end) cs)
  end.
End node_ind.

Class RouteTables := {
  (** [functions_table.inc], by lower-case name *)
  function_table : str -> option FnEntry;
  (** of the transpiler's [transpiler_emit_datetime.cc] *)
  CanLowerTimestampAddSub : ResolvedNode -> bool;
  (** [SQLFunction::kSQLFunctionGroup] *)
  kSqlFunctionGroup : str;
}.

Section classifier.
Context `{AbslText} `{!RouteTables}.

Definition LookupFunction (bq_name : str) : option FnEntry := function_table (AsciiStrToLower bq_name).

(** ** What one node demands *)

(** A promotion: the disposition and the name recorded with it. *)
Abbreviation Promotion := (Disposition * str)%type.

Definition semantic (why : string) : Promotion := (kSemanticExecutor, $why).

Definition when (b : bool) (p : Promotion) : list Promotion := if b then [p] else [].

Definition kTemplatedSqlFunctionGroup : str := $"Templated_SQL_Function".

Definition IsNumericType (t : SqlType) : bool := bool_decide (kind t = TYPE_NUMERIC).
Definition IsBigNumericType (t : SqlType) : bool := bool_decide (kind t = TYPE_BIGNUMERIC).

Definition DecimalArithmeticNeedsSemantic (name : str) (type : option SqlType) : bool :=
  match type with
  | None => false
  | Some t =>
      if bool_decide (name = $"$divide") then IsNumericType t || IsBigNumericType t
      else if bool_decide (name ∈ [$"$add"; $"$subtract"; $"$multiply"]) then IsBigNumericType t
      else false
  end.

Definition InListArgTypeIsDuckdbSafe (type : option SqlType) : bool :=
  match type with
  | Some (TInt64 | TBool | TFloat | TDouble | TString | TBytes | TDate | TTimestamp | TTime | TDatetime) => true
  | _ => false
  end.

Definition InListNeedsSemantic (call : ResolvedNode) : bool :=
  existsb (fun arg => negb (InListArgTypeIsDuckdbSafe (node_type arg))) (list_field FArgument call).

(** The first argument of a decimal type decides. *)
Fixpoint avg_promotion (arguments : list ResolvedNode) : option Promotion :=
  match arguments with
  | [] => None
  | arg :: arguments =>
      match node_type arg with
      | None => avg_promotion arguments
      | Some t =>
          if IsBigNumericType t then Some (semantic "function:avg(bignumeric)")
          else if IsNumericType t then Some (semantic "function:avg(numeric)")
          else avg_promotion arguments
      end
  end.

(** What a function of the table demands: [CheckFunction] after the lookup. *)
Definition entry_promotion (n : ResolvedNode) (name : str) (entry : FnEntry) : Promotion :=
  let lower_name := AsciiStrToLower name in
  let is_call := is_kind $"FunctionCall" n in
  match (if bool_decide (lower_name = $"avg") && is_kind $"AggregateFunctionCall" n
         then avg_promotion (list_field FArgument n) else None) with
  | Some p => p
  | None =>
      if DecimalArithmeticNeedsSemantic name (if is_call then node_type n else None)
      then (kSemanticExecutor, $"function:" ++ name ++ $"(decimal)")
      else if (bool_decide (lower_name = $"timestamp_add") || bool_decide (lower_name = $"timestamp_sub"))
              && is_call && negb (CanLowerTimestampAddSub n)
      then (kSemanticExecutor, $"function:" ++ lower_name ++ $"(interval_shape)")
      else if bool_decide (lower_name = $"$in") && is_call && InListNeedsSemantic n
      then semantic "function:$in(arg_types)"
      else (fn_disposition entry, $"function:" ++ lower_name)
  end.

Definition CheckFunction (n : ResolvedNode) : list Promotion :=
  match node_detail n with
  | CallDetail (Some fn) _ =>
      if bool_decide (fn_group fn = kTemplatedSqlFunctionGroup) || bool_decide (fn_group fn = kSqlFunctionGroup)
      then [(kSemanticExecutor, $"sql_udf:" ++ fn_name fn)]
      else
        match LookupFunction (fn_full_name fn) with
        | None => []
        | Some entry => if fn_planned entry then [] else [entry_promotion n (fn_full_name fn) entry]
        end
  | _ => []
  end.

Definition CheckTvf (n : ResolvedNode) : list Promotion :=
  match node_detail n with
  | TvfDetail (Some tvf_name) =>
      let name := AsciiStrToLower tvf_name in
      match LookupFunction name with
      | None => []
      | Some entry => if fn_planned entry then [] else [(fn_disposition entry, $"function:" ++ name)]
      end
  | _ => []
  end.

Definition CheckNodeClass (n : ResolvedNode) : list Promotion :=
  match LookupNodeDisposition (class_name n) with
  | None => []
  | Some entry => [(node_disposition entry, class_name n)]
  end.

(** *** Window frames *)

Definition IsDateOrTimestampOrderType (item : ResolvedNode) : bool :=
  match field FColumnRef item ≫= node_type with
  | Some (TDate | TTimestamp) => true
  | _ => false
  end.

Definition AsRangeAnalyticCall (col : ResolvedNode) : option ResolvedNode :=
  call ← field FExpr col;
  if negb (is_kind $"AnalyticFunctionCall" call) then None
  else
    frame ← field FWindowFrame call;
    match node_detail frame with FrameDetail FrameRange => Some call | _ => None end.

Definition IsNumericOffsetBoundary (boundary : option ResolvedNode) : bool :=
  match boundary with
  | None => false
  | Some b =>
      match node_detail b, field FExpression b ≫= node_type with
      | BoundaryDetail (OffsetPreceding | OffsetFollowing), Some t => negb (bool_decide (kind t = TYPE_INTERVAL))
      | _, _ => false
      end
  end.

Definition has_numeric_range_frame (col : ResolvedNode) : bool :=
  match AsRangeAnalyticCall col ≫= field FWindowFrame with
  | None => false
  | Some frame => IsNumericOffsetBoundary (field FStartExpr frame) || IsNumericOffsetBoundary (field FEndExpr frame)
  end.

Definition GroupHasNumericRangeFrame (group : ResolvedNode) : bool :=
  existsb has_numeric_range_frame (list_field FAnalyticFunction group).

Definition group_needs_semantic (group : ResolvedNode) : bool :=
  match field FOrderBy group ≫= field FOrderByItem with
  | None => false
  | Some item => IsDateOrTimestampOrderType item && GroupHasNumericRangeFrame group
  end.

Definition AnalyticScanHasDateTimestampNumericRangeFrame (n : ResolvedNode) : bool :=
  existsb group_needs_semantic (list_field FFunctionGroup n).

(** *** Statements and scans *)

Definition IsScalarOnlySelect (n : ResolvedNode) : bool :=
  match field FQuery n with
  | None => false
  | Some query =>
      is_kind $"ProjectScan" query &&
      match field FInputScan query with Some input => is_kind $"SingleRowScan" input | None => false end
  end.

Definition ArrayExprReferencesNamedConstant (expr : ResolvedNode) : bool :=
  if is_kind $"ArgumentRef" expr then true
  else if is_kind $"Constant" expr then
    match node_detail expr with ConstantDetail (Some name) => negb (bool_decide (name = [])) | _ => false end
  else false.

Definition has_match (m : MergeMatch) (n : ResolvedNode) : bool :=
  match node_detail n with MergeWhenDetail m' _ => bool_decide (m' = m) | _ => false end.
Definition has_action (a : MergeAction) (n : ResolvedNode) : bool :=
  match node_detail n with MergeWhenDetail _ a' => bool_decide (a' = a) | _ => false end.
Definition count (p : ResolvedNode -> bool) (l : list ResolvedNode) : nat := length (List.filter p l).

Definition MergeRequiresSemanticExecutor (merge : ResolvedNode) : bool :=
  let whens := list_field FWhenClause merge in
  (0 <? count (has_match WhenNotMatchedBySource) whens)
  || ((1 <? count (has_match WhenMatched) whens) || (1 <? count (has_match WhenNotMatchedByTarget) whens))
  || ((1 <? count (has_action ActionUpdate) whens) || (1 <? count (has_action ActionDelete) whens)
      || (1 <? count (has_action ActionInsert) whens)).

Definition array_scan_promotions (n : ResolvedNode) (is_outer : bool) : list Promotion :=
  if has_field FArrayOffset n then [semantic "ResolvedArrayScan(array_offset_column)"]
  else if is_outer then [semantic "ResolvedArrayScan(is_outer=true)"]
  else if has_field FArrayZipMode n then [semantic "ResolvedArrayScan(array_zip_mode)"]
  else if has_field FJoinExpr n then [semantic "ResolvedArrayScan(join_expr)"]
  else match field FArrayExpr n with
       | Some e => when (ArrayExprReferencesNamedConstant e) (semantic "ResolvedArrayScan(script_constant)")
       | None => []
       end.

Definition subquery_promotions (n : ResolvedNode) (type : RouteSubqueryType) : list Promotion :=
  when (has_field FParameter n) (semantic "ResolvedSubqueryExpr(correlated)")
  ++ (match type, field FSubquery n with
      | QIn, Some q => when (is_kind $"ArrayScan" q) (semantic "ResolvedSubqueryExpr(IN_UNNEST)")
      | _, _ => []
      end)
  ++ (match type with
      | QLikeAny | QLikeAll | QNotLikeAny | QNotLikeAll => [semantic "ResolvedSubqueryExpr(LIKE_ANY/ALL)"]
      | _ => []
      end).

Definition order_by_item_collates (item : ResolvedNode) : bool :=
  has_field FCollationName item
  || match node_detail item with OrderByItemDetail has_collation => has_collation | _ => false end.

(** What the method of the class of a node promotes before it visits the children;
    the check of the class itself comes after it. *)
Definition node_promotions (n : ResolvedNode) : list Promotion :=
  if is_kind $"FunctionCall" n then CheckFunction n
  else if is_kind $"AggregateFunctionCall" n then
    CheckFunction n
    ++ when (has_field FHavingModifier n) (semantic "ResolvedAggregateFunctionCall(having_modifier)")
    ++ when (has_field FGroupBy n || has_field FGroupByAggregate n || has_field FHavingExpr n)
         (semantic "ResolvedAggregateFunctionCall(multi_level_group_by)")
    ++ when (match node_detail n with CallDetail _ safe => safe | _ => false end)
         (semantic "ResolvedAggregateFunctionCall(safe_agg)")
  else if is_kind $"AnalyticFunctionCall" n then
    CheckFunction n
    ++ when (existsb (is_kind $"AggregateFunctionCall") (list_field FArgument n))
         (semantic "ResolvedAnalyticFunctionCall(nested_aggregate)")
  else if is_kind $"AnalyticScan" n then
    when (match field FInputScan n with Some s => is_kind $"AggregateScan" s | None => false end)
      (semantic "ResolvedAnalyticScan(aggregate_input)")
    ++ when (AnalyticScanHasDateTimestampNumericRangeFrame n)
         (semantic "ResolvedAnalyticScan(date_timestamp_range)")
  else if is_kind $"SampleScan" n then
    when (has_field FWeightColumn n || has_field FPartitionBy n) (semantic "ResolvedSampleScan(extended)")
  else if is_kind $"QueryStmt" n then
    (if (match node_detail n with QueryStmtDetail b => b | _ => false end)
     then [semantic "ResolvedQueryStmt(is_value_table=true)"]
     else when (IsScalarOnlySelect n) (semantic "ResolvedQueryStmt(scalar-only SELECT)"))
  else if is_kind $"JoinScan" n then
    when (match node_detail n with JoinDetail b => b | _ => false end) (semantic "ResolvedJoinScan(is_lateral=true)")
  else if is_kind $"SubqueryExpr" n then
    (match node_detail n with SubqueryDetail t => subquery_promotions n t | _ => [] end)
  else if is_kind $"ArrayScan" n then
    array_scan_promotions n (match node_detail n with ArrayScanDetail b => b | _ => false end)
  else if is_kind $"Cast" n then
    when (has_field FFormat n || has_field FTimeZone n || has_field FExtendedCast n
          || match node_detail n with CastDetail b => b | _ => false end)
      (semantic "ResolvedCast(extended)")
  else if is_kind $"OrderByScan" n then
    when (existsb order_by_item_collates (list_field FOrderByItem n)) (semantic "ResolvedOrderByScan(collation)")
  else if is_kind $"TVFScan" n then CheckTvf n
  else if is_kind $"UpdateStmt" n then
    when (has_field FReturning n) (semantic "ResolvedUpdateStmt(returning)")
    ++ when (has_field FFromScan n) (semantic "ResolvedUpdateStmt(from_scan)")
  else if is_kind $"DeleteStmt" n then
    when (has_field FReturning n) (semantic "ResolvedDeleteStmt(returning)")
  else [].

Definition hard_matrix : Promotion := semantic "ResolvedMergeStmt(hard_matrix)".
Definition insert_returning : Promotion := semantic "ResolvedInsertStmt(returning)".

(** ** The visitor *)

(** [disposition_] and [offending_node_]. *)
Abbreviation Visit := (Disposition * str)%type.

Definition visit_start : Visit := (kDuckdbNative, []).

Definition MaybePromote (s : Visit) (p : Promotion) : Visit :=
  if RouteClassifierPriority s.1 <? RouteClassifierPriority p.1 then p else s.

Definition promote (ps : list Promotion) (s : Visit) : Visit := fold_left MaybePromote ps s.

Definition is_duckdb (d : Disposition) : bool := RouteClassifierPriority d <? 3.

(** [Accept] on the children of some fields, in order. *)
Definition visit_over (accept : ResolvedNode -> Visit -> Visit) (p : Field -> bool)
    : list (Field * ResolvedNode) -> Visit -> Visit :=
  fix go l s :=
    match l with
    | [] => s
    | (f, c) :: l => go l (if p f then accept c s else s)
    end.

Definition is_field (f : Field) (f' : Field) : bool := bool_decide (f' = f).
Definition any_field (_ : Field) : bool := true.

Fixpoint visit (n : ResolvedNode) (s : Visit) {struct n} : Visit :=
  match n with
  | RNode _ _ _ children =>
      let on f := visit_over visit (is_field f) children in
      let all := visit_over visit any_field children in
      let own := node_promotions n in
      let class := CheckNodeClass n in
      if is_kind $"InsertStmt" n then
        let s := promote (when (has_field FReturning n) insert_returning) s in
        let inner := on FQuery visit_start in
        let duckdb_insert_select := has_field FQuery n && is_duckdb inner.1 in
        let s := if duckdb_insert_select then MaybePromote s (inner.1, $"ResolvedInsertStmt(SELECT)")
                 else promote class s in
        let s := on FTableScan s in
        let s := if duckdb_insert_select then s else on FQuery s in
        on FRow s
      else if is_kind $"UpdateStmt" n then
        all (promote class (on FFromScan (on FTableScan (promote class (promote own s)))))
      else if is_kind $"DeleteStmt" n then
        all (promote class (on FTableScan (promote class (promote own s))))
      else if is_kind $"MergeStmt" n then
        let s := if MergeRequiresSemanticExecutor n then MaybePromote s hard_matrix else promote class s in
        all (promote class (on FFromScan (on FTableScan s)))
      else all (promote class (promote own s))
  end.

(** ** The decision *)

Record RouteDecision := mkDecision { route : Disposition; reason : str; offending_node : str }.

Definition RouteClassifierReasonFor (d : Disposition) (root_class offending_node : str) : str :=
  match d with
  | kDuckdbNative => []
  | kDuckdbRewrite => $"query lowers via duckdb_rewrite (promoted by " ++ offending_node ++ $")"
  | kDuckdbUdf => $"query lowers via duckdb_udf (promoted by " ++ offending_node ++ $")"
  | kSemanticExecutor => $"query requires the semantic executor (promoted by " ++ offending_node ++ $")"
  | kControlOp => $"statement " ++ root_class ++ $" routes to the control-op executor"
  | kLocalStub => $"query routes to the local-stub executor (specialized feature family promoted by "
                    ++ offending_node ++ $"); see docs/ENGINE_POLICY.md"
  | kUnsupported => $"query is unsupported (offending node: " ++ offending_node ++ $")"
  end.

Definition DmlRootNeedsClassifierWalk (root_class : str) : bool :=
  bool_decide (root_class ∈ [$"ResolvedInsertStmt"; $"ResolvedUpdateStmt"; $"ResolvedDeleteStmt"]).

Definition decide_route (d : Disposition) (root_class offending : str) : RouteDecision :=
  mkDecision d (RouteClassifierReasonFor d root_class offending) offending.

(** The disposition of a root that is not walked. *)
Definition root_route (root_class : str) : option Disposition :=
  match LookupNodeDisposition root_class with
  | Some (mkNodeEntry d false) =>
      match d with
      | kControlOp | kLocalStub | kUnsupported => Some d
      | kSemanticExecutor => if DmlRootNeedsClassifierWalk root_class then None else Some d
      | _ => None
      end
  | _ => None
  end.

Definition Classify (stmt : ResolvedNode) : RouteDecision :=
  let root_class := class_name stmt in
  match root_route root_class with
  | Some d => decide_route d root_class root_class
  | None => let '(d, offending) := visit stmt visit_start in decide_route d root_class offending
  end.

(** ** What a tree demands *)

Definition demands_over (demands : ResolvedNode -> list Promotion) (p : Field -> bool)
    : list (Field * ResolvedNode) -> list Promotion :=
  fix go l :=
    match l with
    | [] => []
    | (f, c) :: l => (if p f then demands c else []) ++ go l
    end.

(** The promotions the visitor makes on a tree, in order. *)
Fixpoint demands (n : ResolvedNode) : list Promotion :=
  match n with
  | RNode _ _ _ children =>
      let on f := demands_over demands (is_field f) children in
      let all := demands_over demands any_field children in
      let own := node_promotions n in
      let class := CheckNodeClass n in
      if is_kind $"InsertStmt" n then
        let inner := promote (on FQuery) visit_start in
        let duckdb_insert_select := has_field FQuery n && is_duckdb inner.1 in
        when (has_field FReturning n) insert_returning
        ++ (if duckdb_insert_select then [(inner.1, $"ResolvedInsertStmt(SELECT)")] else class)
        ++ on FTableScan ++ (if duckdb_insert_select then [] else on FQuery) ++ on FRow
      else if is_kind $"UpdateStmt" n then own ++ class ++ on FTableScan ++ on FFromScan ++ class ++ all
      else if is_kind $"DeleteStmt" n then own ++ class ++ on FTableScan ++ class ++ all
      else if is_kind $"MergeStmt" n then
        (if MergeRequiresSemanticExecutor n then [hard_matrix] else class) ++ on FTableScan ++ on FFromScan ++ class ++ all
      else own ++ class ++ all
  end.

(** The highest priority of a list of promotions. *)
Fixpoint cost (ps : list Promotion) : nat :=
  match ps with [] => 0 | p :: ps => Nat.max (RouteClassifierPriority p.1) (cost ps) end.

Lemma cost_app ps qs : cost (ps ++ qs) = Nat.max (cost ps) (cost qs).
Proof. induction ps as [|p ps IH]; cbn; [done|]. rewrite IH. lia. Qed.

Lemma cost_elem p ps : p ∈ ps -> RouteClassifierPriority p.1 <= cost ps.
Proof. induction 1; cbn; lia. Qed.

Lemma promote_app ps qs s : promote (ps ++ qs) s = promote qs (promote ps s).
Proof. apply fold_left_app. Qed.

Lemma promote_cost ps s :
  RouteClassifierPriority (promote ps s).1 = Nat.max (RouteClassifierPriority s.1) (cost ps).
Proof.
  revert s. induction ps as [|p ps IH]; intros s; cbn; [lia|].
  unfold promote in IH. rewrite IH. unfold MaybePromote.
  destruct (Nat.ltb_spec (RouteClassifierPriority s.1) (RouteClassifierPriority p.1)); lia.
Qed.

(** The result of the promotions is the first of the highest ones. *)
Lemma promote_first ps s :
  promote ps s = s \/
  exists before after, ps = before ++ promote ps s :: after /\
    forall p, p ∈ s :: before -> RouteClassifierPriority p.1 < RouteClassifierPriority (promote ps s).1.
Proof.
  revert s. induction ps as [|q ps IH]; intros s; cbn; [by left|].
  fold (promote ps (MaybePromote s q)).
  assert (Hs : MaybePromote s q = s /\ RouteClassifierPriority q.1 <= RouteClassifierPriority s.1 \/
               MaybePromote s q = q /\ RouteClassifierPriority s.1 < RouteClassifierPriority q.1).
  { unfold MaybePromote.
    destruct (Nat.ltb_spec (RouteClassifierPriority s.1) (RouteClassifierPriority q.1)); [right|left]; done. }
  destruct (IH (MaybePromote s q)) as [E|(before & after & E & F)].
  - destruct Hs as [[Hs L]|[Hs L]]; rewrite E, Hs; [by left|right].
    exists [], ps. split; [done|]. intros p Hp%list_elem_of_singleton. by subst.
  - right. exists (q :: before), after. split; [cbn; by rewrite <- E|].
    intros p Hp. specialize (F (MaybePromote s q) ltac:(left)) as F0.
    apply elem_of_cons in Hp as [->|Hp]; [destruct Hs as [[Hs L]|[Hs L]]; rewrite Hs in F0 |- *; lia|].
    apply elem_of_cons in Hp as [->|Hp]; [destruct Hs as [[Hs L]|[Hs L]]; rewrite Hs in F0 |- *; lia|].
    apply F. by right.
Qed.

(** *** The visitor makes the demands of the tree *)

Lemma visit_over_demands p cs s :
  Forall (fun c => forall s, visit c.2 s = promote (demands c.2) s) cs ->
  visit_over visit p cs s = promote (demands_over demands p cs) s.
Proof.
  intros F. revert s. induction F as [|[f c] cs Hc _ IH]; intros s; cbn [visit_over demands_over]; [done|].
  cbn in Hc. destruct (p f); rewrite IH; [by rewrite Hc, promote_app|done].
Qed.

Lemma visit_demands n s : visit n s = promote (demands n) s.
Proof.
  revert s. induction n as [k t d cs IH] using ResolvedNode_nested_ind. intros s.
  assert (E : forall p s, visit_over visit p cs s = promote (demands_over demands p cs) s)
    by (intros; by apply visit_over_demands).
  cbn [visit demands].
  destruct (is_kind $"InsertStmt" _) eqn:EI.
  - rewrite !E. set (inner := promote (demands_over demands (is_field FQuery) cs) visit_start).
    destruct (has_field FQuery _ && is_duckdb inner.1); rewrite !promote_app; rewrite ?E; done.
  - destruct (is_kind $"UpdateStmt" _); [by rewrite !promote_app, !E|].
    destruct (is_kind $"DeleteStmt" _); [by rewrite !promote_app, !E|].
    destruct (is_kind $"MergeStmt" _); [|by rewrite !promote_app, !E].
    destruct (MergeRequiresSemanticExecutor _); by rewrite !promote_app, !E.
Qed.

(** *** Every visited node is served *)

(** The fields a node passes the visitor on to. *)
Definition visits (n : ResolvedNode) (f : Field) : bool :=
  if is_kind $"InsertStmt" n then is_field FTableScan f || is_field FQuery f || is_field FRow f else true.

Inductive visited : ResolvedNode -> ResolvedNode -> Prop :=
| visited_here n : visited n n
| visited_child m f c n : (f, c) ∈ node_children n -> visits n f = true -> visited m c -> visited m n.

(** What a node demands whatever is below it. *)
Definition own_demands (m : ResolvedNode) : list Promotion :=
  if is_kind $"InsertStmt" m then when (has_field FReturning m) insert_returning
  else if is_kind $"MergeStmt" m then when (MergeRequiresSemanticExecutor m) hard_matrix ++ CheckNodeClass m
  else node_promotions m ++ CheckNodeClass m.

(** What an INSERT demands besides, which depends on its query. *)
Definition insert_demand (m : ResolvedNode) (p : Promotion) : Prop :=
  is_kind $"InsertStmt" m = true /\
  (p ∈ CheckNodeClass m \/ is_duckdb p.1 = true /\ p.2 = $"ResolvedInsertStmt(SELECT)").

Lemma is_kind_other k k' n : is_kind k n = true -> bool_decide (k = k') = false -> is_kind k' n = false.
Proof. unfold is_kind. rewrite !bool_decide_eq_true, !bool_decide_eq_false. congruence. Qed.

Lemma own_in_demands m p : p ∈ own_demands m -> p ∈ demands m.
Proof.
  destruct m as [k t d cs]. unfold own_demands. cbn [demands].
  destruct (is_kind $"InsertStmt" _); [rewrite !elem_of_app; tauto|].
  destruct (is_kind $"MergeStmt" _) eqn:EM.
  - rewrite (is_kind_other _ $"UpdateStmt" _ EM), (is_kind_other _ $"DeleteStmt" _ EM) by done.
    destruct (MergeRequiresSemanticExecutor _); cbn [when]; rewrite !elem_of_app; [tauto|].
    rewrite elem_of_nil. tauto.
  - destruct (is_kind $"UpdateStmt" _); [rewrite !elem_of_app; tauto|].
    destruct (is_kind $"DeleteStmt" _); rewrite !elem_of_app; tauto.
Qed.

Lemma elem_of_demands_over p cs q :
  q ∈ demands_over demands p cs <-> exists f c, (f, c) ∈ cs /\ p f = true /\ q ∈ demands c.
Proof.
  induction cs as [|[f c] cs IH]; cbn [demands_over].
  - split; [by intros ?%not_elem_of_nil|]. by intros (? & ? & ?%not_elem_of_nil & _).
  - rewrite elem_of_app, IH. split.
    + intros [Hq|(f' & c' & Hin & Hf & Hq)]; [|exists f', c'; by rewrite elem_of_cons; auto].
      destruct (p f) eqn:E; [|by apply not_elem_of_nil in Hq]. exists f, c. by rewrite elem_of_cons; auto.
    + intros (f' & c' & Hin & Hf & Hq). apply elem_of_cons in Hin as [[= -> ->]|Hin].
      * left. by rewrite Hf.
      * right. by exists f', c'.
Qed.

Lemma cost_le ps b : cost ps <= b <-> forall q, q ∈ ps -> RouteClassifierPriority q.1 <= b.
Proof.
  split; [intros L q Hq%cost_elem; lia|]. induction ps as [|p ps IH]; intros L; cbn [cost]; [lia|].
  pose proof (L p ltac:(left)). assert (cost ps <= b) by (apply IH; intros q Hq; apply L; by right). lia.
Qed.

(** A child that is visited costs no more than the node. *)
Lemma child_cost n f c :
  (f, c) ∈ node_children n -> visits n f = true -> cost (demands c) <= cost (demands n).
Proof.
  destruct n as [k t d cs]. cbn [node_children]. intros Hin Hv.
  assert (O : forall p, p f = true -> cost (demands c) <= cost (demands_over demands p cs)).
  { intros p Hp. apply cost_le. intros q Hq. apply cost_elem, elem_of_demands_over. by exists f, c. }
  unfold visits in Hv. cbn [demands].
  destruct (is_kind $"InsertStmt" _).
  - rewrite !orb_true_iff in Hv. rewrite !cost_app.
    destruct Hv as [[Hv|Hv]|Hv]; apply O in Hv; [lia| |lia].
    destruct (has_field FQuery _ && is_duckdb _); [|lia].
    cbn [cost fst]. rewrite promote_cost. lia.
  - pose proof (O any_field eq_refl) as OA.
    destruct (is_kind $"UpdateStmt" _); [rewrite !cost_app; lia|].
    destruct (is_kind $"DeleteStmt" _); [rewrite !cost_app; lia|].
    destruct (is_kind $"MergeStmt" _); rewrite !cost_app; lia.
Qed.

Lemma visited_cost m n p : visited m n -> p ∈ own_demands m -> RouteClassifierPriority p.1 <= cost (demands n).
Proof.
  induction 1 as [n|m f c n Hin Hv _ IH]; intros Hp.
  - apply cost_elem. by apply own_in_demands.
  - pose proof (child_cost n f c Hin Hv). specialize (IH Hp). lia.
Qed.

Lemma child_visited m f c n :
  (f, c) ∈ node_children n -> visits n f = true -> visited m c -> visited m n.
Proof. intros. by eapply visited_child. Qed.

(** Every demand of a tree is one of a visited node. *)
Lemma demands_visited n p :
  p ∈ demands n -> exists m, visited m n /\ (p ∈ own_demands m \/ insert_demand m p).
Proof.
  induction n as [k t d cs IH] using ResolvedNode_nested_ind.
  set (n := RNode k t d cs). rewrite Forall_forall in IH.
  assert (here : p ∈ own_demands n \/ insert_demand n p ->
            exists m, visited m n /\ (p ∈ own_demands m \/ insert_demand m p))
    by (intros; exists n; split; [constructor|done]).
  assert (below : forall P, (forall f, P f = true -> visits n f = true) -> p ∈ demands_over demands P cs ->
            exists m, visited m n /\ (p ∈ own_demands m \/ insert_demand m p)).
  { intros P HP (f & c & Hin & Hf & Hq)%elem_of_demands_over.
    destruct (IH (f, c) Hin Hq) as (m & Hm & Hp). exists m. split; [|done].
    eapply visited_child; [exact Hin|by apply HP|done]. }
  change (p ∈ demands n) with (p ∈ demands (RNode k t d cs)). cbn [demands]. fold n.
  destruct (is_kind $"InsertStmt" n) eqn:EI.
  - assert (V : forall f, is_field FTableScan f || is_field FQuery f || is_field FRow f = visits n f)
      by (intros f; unfold visits; by rewrite EI).
    rewrite !elem_of_app. intros [Hp|[Hp|[Hp|[Hp|Hp]]]].
    + apply here. left. unfold own_demands. by rewrite EI.
    + apply here. right. split; [done|].
      destruct (has_field FQuery n && _) eqn:ES; [|by left]. right.
      apply list_elem_of_singleton in Hp as ->. by apply andb_prop in ES as [_ ?].
    + apply (below (is_field FTableScan)); [|done]. intros f Hf. by rewrite <- V, Hf.
    + destruct (has_field FQuery n && _); [by apply not_elem_of_nil in Hp|].
      apply (below (is_field FQuery)); [|done]. intros f Hf. by rewrite <- V, Hf, orb_true_r.
    + apply (below (is_field FRow)); [|done]. intros f Hf. by rewrite <- V, Hf, orb_true_r.
  - assert (V : forall f, visits n f = true) by (intros f; unfold visits; by rewrite EI).
    assert (B : forall P, p ∈ demands_over demands P cs ->
              exists m, visited m n /\ (p ∈ own_demands m \/ insert_demand m p)) by (intros; eauto).
    unfold own_demands in here. rewrite EI in here.
    destruct (is_kind $"MergeStmt" n) eqn:EM.
    + rewrite (is_kind_other _ $"UpdateStmt" _ EM), (is_kind_other _ $"DeleteStmt" _ EM) by done.
      destruct (MergeRequiresSemanticExecutor n); cbn [when] in here; rewrite !elem_of_app in *; intuition eauto.
    + destruct (is_kind $"UpdateStmt" n); [rewrite !elem_of_app in *; intuition eauto|].
      destruct (is_kind $"DeleteStmt" n); rewrite !elem_of_app in *; intuition eauto.
Qed.
Lemma classify_priority stmt :
  root_route (class_name stmt) = None -> RouteClassifierPriority (route (Classify stmt)) = cost (demands stmt).
Proof.
  intros R. unfold Classify. rewrite R, visit_demands.
  pose proof (promote_cost (demands stmt) visit_start) as C. by destruct (promote _ _) as [d offending].
Qed.

(** An unsupported part makes the statement unsupported. *)
Lemma unsupported_visited m stmt name :
  root_route (class_name stmt) = None -> visited m stmt -> (kUnsupported, name) ∈ own_demands m ->
  route (Classify stmt) = kUnsupported.
Proof.
  intros R Hm Hp. pose proof (visited_cost m stmt _ Hm Hp) as L. rewrite <- (classify_priority stmt R) in L.
  by destruct (route (Classify stmt)); cbn in L; try lia.
Qed.

(** C3: a statement that is walked runs where its most demanding part can run: no
    node the visitor reaches demands more than the route it is given, so nothing
    that needs the semantic executor or is unsupported is sent to DuckDB; and the
    route is demanded by a node: it is DuckDB's when nothing is, and otherwise the
    first of the highest demands, with the name it is reported under. *)
Theorem route_is_worst_demand stmt :
  root_route (class_name stmt) = None ->
  let r := Classify stmt in
  (forall m p, visited m stmt -> p ∈ own_demands m ->
     RouteClassifierPriority p.1 <= RouteClassifierPriority (route r)) /\
  (route r = kDuckdbNative /\ offending_node r = [] \/
   (exists m, visited m stmt /\
      ((route r, offending_node r) ∈ own_demands m \/ insert_demand m (route r, offending_node r))) /\
   exists before after, demands stmt = before ++ (route r, offending_node r) :: after /\
     forall p, p ∈ before -> RouteClassifierPriority p.1 < RouteClassifierPriority (route r)).
Proof.
  intros R. unfold Classify. rewrite R. rewrite visit_demands.
  pose proof (promote_cost (demands stmt) visit_start) as C.
  pose proof (promote_first (demands stmt) visit_start) as F.
  destruct (promote (demands stmt) visit_start) as [d offending] eqn:E. cbn in C |- *. split.
  - intros m p Hm Hp. rewrite C. pose proof (visited_cost m stmt p Hm Hp). lia.
  - destruct F as [[= -> ->]|(before & after & Ed & Hf)]; [by left|right]. split.
    + apply demands_visited. rewrite Ed. apply elem_of_app. right. left.
    + exists before, after. split; [done|]. intros p Hp. apply Hf. by right.
Qed.

(** A root whose class runs on the semantic executor is not walked: an unsupported
    node below a MERGE is not seen, and the clauses of the MERGE do not matter. *)
Lemma merge_not_walked stmt :
  is_kind $"MergeStmt" stmt = true ->
  Classify stmt = decide_route kSemanticExecutor $"ResolvedMergeStmt" $"ResolvedMergeStmt".
Proof.
  unfold is_kind. rewrite bool_decide_eq_true. intros E. unfold Classify, class_name. rewrite E. vm_compute. done.
Qed.
End classifier.

(** *** Witnesses *)

Module RouteExamples.
#[export] Instance example_tables : RouteTables := {
  function_table name :=
    if bool_decide (name = $"abs") then Some (mkFnEntry kDuckdbNative $"abs" false)
    else if bool_decide (name = $"net.host") then Some (mkFnEntry kSemanticExecutor [] false)
    else None;
  CanLowerTimestampAddSub _ := false;
  kSqlFunctionGroup := $"SQL_function";
}.

Definition call (name : str) (arguments : list ResolvedNode) : ResolvedNode :=
  RNode $"FunctionCall" (Some TInt64) (CallDetail (Some (mkFunctionRef $"GoogleSQL" name name)) false)
    (map (pair FArgument) arguments).

Definition column_ref : ResolvedNode := RNode $"ColumnRef" (Some TInt64) NoDetail [].
Definition make_struct : ResolvedNode := RNode $"MakeStruct" None NoDetail [(FOther, column_ref)].

(** A query that selects some expressions from a table. *)
Definition select (exprs : list ResolvedNode) : ResolvedNode :=
  RNode $"QueryStmt" None (QueryStmtDetail false)
    [(FQuery, RNode $"ProjectScan" None NoDetail
        (map (pair FExpr) exprs ++ [(FInputScan, RNode $"TableScan" None NoDetail [])]))].

(** A struct lowers by a rewrite, then a function demands the semantic executor:
    the route and the name are the function's. *)
Lemma route_is_worst_demand_witness :
  root_route (class_name (select [make_struct; call $"net.host" []])) = None /\
  (forall m p, visited m (select [make_struct; call $"net.host" []]) -> p ∈ own_demands m ->
     RouteClassifierPriority p.1
     <= RouteClassifierPriority (route (Classify (select [make_struct; call $"net.host" []])))) /\
  Classify (select [make_struct; call $"net.host" []])
  = decide_route kSemanticExecutor $"ResolvedQueryStmt" $"function:net.host".
Proof.
  split; [reflexivity|]. split; [|reflexivity].
  exact (proj1 (route_is_worst_demand (select [make_struct; call $"net.host" []]) eq_refl)).
Defined.
End RouteExamples.
