(* ===== verification/ScriptProps.v ===== *)
(** * ScriptProps: scripts end, calls are isolated, depth does not matter

    Three groups of facts about [Script] and [ScriptRunner].  A computation that
    returns does so for every larger depth with the same result ([refines]).
    Scripts whose procedures do not call themselves return ([settles]): the depth
    needed is the rank of the statements, and the statement loop takes at most one
    round per byte.  A CALL changes the caller's variables at the arguments that
    are bare variables, and nowhere else. *)

From S2P Require Import Prelude Order Absl AbslReference Schema RowRestriction Storage SemanticError.
From S2P Require Import ScriptText SqlPreprocess FrameStack SqlValue GoogleSqlReference Arithmetic.
From S2P Require Import Operators MathFuncs Casts EvalExpr Rows Joins SetOps Unnest AggFuncs Aggregates.
From S2P Require Import Analytic Scans ScanProps StorageValues Dml SemanticExecutor Parameters Analyze Script.
From S2P Require Import ScriptRunner.

(** ** More depth never changes a result *)

Section refines.
Context {S : Type}.

(** [m'] returns what [m] returns, and may return where [m] does not. *)
Definition refines {A} (m m' : Run S A) : Prop := forall s r, m s = Some r -> m' s = Some r.

#[global] Instance refines_preorder A : PreOrder (@refines A).
Proof. split; [by intros m s r|]. intros m1 m2 m3 H12 H23 s r E. by apply H23, H12. Qed.

Lemma refines_bind {A B} (m m' : Run S A) (k k' : A -> Run S B) :
  refines m m' -> (forall a, refines (k a) (k' a)) -> refines (m ≫= k) (m' ≫= k').
Proof.
  intros Hm Hk s r. unfold mbind, run_bind.
  destruct (m s) as [[s' [a|e]]|] eqn:E; [rewrite (Hm _ _ E)..|done]; [apply Hk|done].
Qed.

Lemma out_of_depth_refines {A} (m : Run S A) : refines out_of_depth m.
Proof. by intros s r. Qed.
End refines.

Create HintDb refines.
#[export] Hint Resolve refines_bind out_of_depth_refines : refines.
#[export] Hint Extern 5 (refines ?m ?m) => reflexivity : refines.
#[export] Hint Extern 4 (forall _, refines _ _) => intros ? : refines.

Section script_props.
Context {W : Type} `{AbslText, AbslDouble, GoogleSqlOps, ExecutorNodes}.
Context `{!CastLibrary, !ValueText, !ResolvedAst, !ParameterLibrary, !ParameterParser, !AnalyzerLibrary W}.
Context (parts : W -> ExecutorParts).

Abbreviation Script := (@Script W _ _).
Abbreviation Session := (@Session W _ _).
Abbreviation ScriptState := (@ScriptState W _ _).
Abbreviation EngineOps := (@EngineOps W _ _).

Lemma in_session_refines {A} (m m' : Run Session A) : refines m m' -> refines (in_session m) (in_session m').
Proof.
  intros Hm st r. unfold in_session.
  destruct (m (session st)) as [[s a]|] eqn:E; [by rewrite (Hm _ _ E)|done].
Qed.

Lemma with_variables_refines vars (m m' : Script unit) :
  refines m m' -> refines (with_variables vars m) (with_variables vars m').
Proof.
  intros Hm st r. unfold with_variables.
  destruct (m _) as [[s a]|] eqn:E; [by rewrite (Hm _ _ E)|done].
Qed.

Lemma ignoring_rows_refines (m m' : Script unit) : refines m m' -> refines (ignoring_rows m) (ignoring_rows m').
Proof.
  intros Hm st r. unfold ignoring_rows.
  destruct (m _) as [[s a]|] eqn:E; [by rewrite (Hm _ _ E)|done].
Qed.

#[local] Hint Resolve in_session_refines with_variables_refines ignoring_rows_refines : refines.

(** A step of the script executor one call deeper. *)
Abbreviation ExecuteOne :=
  (QueryRequest -> ResolvedStatement -> CatalogRef -> option (gmap (list str) Value) -> Script unit).

Definition one_refines (one one' : ExecuteOne) : Prop :=
  forall request stmt catalog vars, refines (one request stmt catalog vars) (one' request stmt catalog vars).

Record engine_refines (e e' : EngineOps) : Prop := {
  refines_query request stmt catalog vars sys :
    refines (engine_ExecuteResolvedStatement e request stmt catalog vars sys)
            (engine_ExecuteResolvedStatement e' request stmt catalog vars sys);
  refines_ddl request catalog : refines (engine_ExecuteDdl e request catalog) (engine_ExecuteDdl e' request catalog);
  refines_dml request catalog : refines (engine_ExecuteDml e request catalog) (engine_ExecuteDml e' request catalog);
}.

Lemma run_body_refines one one' request statements catalog :
  one_refines one one' ->
  refines (run_body parts one request statements catalog) (run_body parts one' request statements catalog).
Proof.
  intros Ho. induction statements as [|stmt statements IH]; cbn [run_body]; [reflexivity|].
  apply refines_bind; [|auto].
  destruct (bool_decide _); [reflexivity|]. destruct (StartsWithIgnoreCase _ _); [reflexivity|].
  eauto with refines.
Qed.

Lemma ExecuteCallStmt_refines one one' request c catalog :
  one_refines one one' -> refines (ExecuteCallStmt parts one request c catalog) (ExecuteCallStmt parts one' request c catalog).
Proof.
  intros Ho. unfold ExecuteCallStmt, ExecuteProcedureBody. destruct (call_procedure c) as [[name stored]|]; [|reflexivity].
  apply refines_bind; [reflexivity|]. intros st. destruct (called_procedure _ _ _) as [p|]; [|reflexivity].
  destruct (negb (length _ =? _)); [reflexivity|].
  apply refines_bind; [reflexivity|]. intros [args outs]. apply refines_bind; [|reflexivity].
  destruct (negb (is_bigquery_catalog catalog)); [reflexivity|].
  apply with_variables_refines, refines_bind; [reflexivity|]. intros _. by apply run_body_refines.
Qed.

Lemma ExecuteExecuteImmediate_refines one one' request sql catalog :
  one_refines one one' ->
  refines (ExecuteExecuteImmediate parts one request sql catalog) (ExecuteExecuteImmediate parts one' request sql catalog).
Proof.
  intros Ho. unfold ExecuteExecuteImmediate. destruct (is_null_expr sql); [reflexivity|].
  apply refines_bind; [reflexivity|]. intros text.
  destruct (bool_decide _); [reflexivity|]. destruct (negb _); [reflexivity|]. eauto with refines.
Qed.

Lemma execute_statement_refines e e' one one' request stmt catalog vars :
  engine_refines e e' -> one_refines one one' ->
  refines (execute_statement parts e one request stmt catalog vars)
          (execute_statement parts e' one' request stmt catalog vars).
Proof.
  intros [Hq Hd Hm] Ho. destruct stmt as [q|d|a|k|a|c|sql|d|l|o]; cbn [execute_statement]; try reflexivity.
  - eauto with refines.
  - destruct d; try reflexivity; eauto with refines.
  - by apply ExecuteCallStmt_refines.
  - by apply ExecuteExecuteImmediate_refines.
  - destruct d; try reflexivity; eauto with refines.
Qed.

Lemma one_statement_refines e e' depth depth' :
  engine_refines e e' -> depth <= depth' ->
  one_refines (ExecuteOneScriptStatement parts e depth) (ExecuteOneScriptStatement parts e' depth').
Proof.
  intros He. revert depth'. induction depth as [|depth IH]; intros depth' L request stmt catalog vars.
  - apply out_of_depth_refines.
  - destruct depth' as [|depth']; [lia|]. cbn [ExecuteOneScriptStatement].
    apply execute_statement_refines; [done|]. apply IH. lia.
Qed.

(** ** Scripts without recursion end *)

(** The sessions a script may be in. *)
Context (good : Session -> Prop).

(** The computation returns, in a session of the same kind. *)
Definition settles {A} (m : Script A) : Prop := forall st, good (session st) ->
  exists st' r, m st = Some (st', r) /\ good (session st').

Definition session_settles {A} (m : Run Session A) : Prop := forall s, good s ->
  exists s' r, m s = Some (s', r) /\ good s'.

Lemma settles_bind {A B} (m : Script A) (k : A -> Script B) :
  settles m -> (forall a, settles (k a)) -> settles (m ≫= k).
Proof.
  intros Hm Hk st Hst. unfold mbind, run_bind.
  destruct (Hm st Hst) as (st' & [a|e] & -> & Hst'); [by apply Hk|by exists st', (Err e)].
Qed.

(** The same, with what holds of the value returned. *)
Definition settles_to {A} (m : Script A) (Q : A -> Prop) : Prop := forall st, good (session st) ->
  exists st' r, m st = Some (st', r) /\ good (session st') /\ forall a, r = Ok a -> Q a.

Lemma settles_to_bind {A B} (m : Script A) (k : A -> Script B) P Q :
  settles_to m P -> (forall a, P a -> settles_to (k a) Q) -> settles_to (m ≫= k) Q.
Proof.
  intros Hm Hk st Hst. unfold mbind, run_bind.
  destruct (Hm st Hst) as (st' & [a|e] & -> & Hst' & HP); [|by exists st', (Err e)].
  by apply Hk; [apply HP|].
Qed.

Lemma settles_to_True {A} (m : Script A) : settles m -> settles_to m (fun _ => True).
Proof. intros Hm st Hst. destruct (Hm st Hst) as (st' & r & E & G). by exists st', r. Qed.

Lemma settles_to_settles {A} (m : Script A) Q : settles_to m Q -> settles m.
Proof. intros Hm st Hst. destruct (Hm st Hst) as (st' & r & E & G & _). by exists st', r. Qed.

Lemma settles_to_ret {A} (a : A) (Q : A -> Prop) : Q a -> settles_to (mret a) Q.
Proof. intros Ha st Hst. exists st, (Ok a). split; [done|]. split; [done|]. by intros ? [= <-]. Qed.

Lemma settles_to_fail {A} e (Q : A -> Prop) : settles_to (@fail ScriptState A e) Q.
Proof. intros st Hst. by exists st, (Err e). Qed.

(** The state read is the one the rest starts from. *)
Lemma settles_get {A} (k : ScriptState -> Script A) :
  (forall st, good (session st) -> exists st' r, k st st = Some (st', r) /\ good (session st')) ->
  settles (get_state ≫= k).
Proof. intros Hk st Hst. by apply Hk. Qed.

(** A goal about one state, from the computation on every state. *)
Ltac settle_here :=
  match goal with
  | |- exists st' r, ?m ?st = Some (st', r) /\ _ => let Hm := fresh in assert (settles m) as Hm; [|by apply Hm]
  end.

Lemma settles_of_status_or {A} (r : StatusOr A) : settles (of_status_or r).
Proof. intros st Hst. by exists st, r. Qed.
Lemma settles_ret {A} (a : A) : settles (mret a).
Proof. intros st Hst. by exists st, (Ok a). Qed.
Lemma settles_fail {A} e : settles (@fail ScriptState A e).
Proof. intros st Hst. by exists st, (Err e). Qed.

Lemma settles_on_driver f : settles (on_driver f).
Proof. intros st Hst. unfold on_driver. destruct (f (driver st)) as [d r]. by eexists _, r. Qed.

Lemma settles_set_final_rows rows : settles (set_final_rows rows).
Proof. intros st Hst. by eexists _, (Ok ()). Qed.

Lemma settles_read {A} (f : ScriptState -> StatusOr A) : settles (fun st => Some (st, f st)).
Proof. intros st Hst. by exists st, (f st). Qed.

Lemma settles_in_session {A} (m : Run Session A) : session_settles m -> settles (in_session m).
Proof.
  intros Hm st Hst. unfold in_session. destruct (Hm _ Hst) as (s' & r & -> & Hs'). by eexists _, r.
Qed.

Lemma settles_with_variables vars (m : Script unit) : settles m -> settles (with_variables vars m).
Proof.
  intros Hm st Hst. unfold with_variables.
  destruct (Hm (mkScript (session st) vars None) Hst) as (st' & r & -> & Hst'). by do 2 eexists.
Qed.

Lemma settles_ignoring_rows (m : Script unit) : settles m -> settles (ignoring_rows m).
Proof.
  intros Hm st Hst. unfold ignoring_rows.
  destruct (Hm (mkScript (session st) (driver st) None) Hst) as (st' & r & -> & Hst'). by do 2 eexists.
Qed.

(** The engine returns and keeps the kind of session; so does the registration of
    constants. *)
Record engine_settles (e : EngineOps) : Prop := {
  settles_query request stmt catalog vars sys :
    session_settles (engine_ExecuteResolvedStatement e request stmt catalog vars sys);
  settles_ddl request catalog : session_settles (engine_ExecuteDdl e request catalog);
  settles_dml request catalog : session_settles (engine_ExecuteDml e request catalog);
  settles_constants s constants :
    good s -> good (mkSession (world s) (procedures s) (system_variables s) constants);
}.

(** No procedure reaches itself: statements have ranks, and a statement that is
    analyzed out of the body of a procedure, or out of the text of an EXECUTE
    IMMEDIATE, has a lower rank than the statement that runs it. *)
Record acyclic (rank : ResolvedStatement -> nat) : Prop := {
  body_rank request c catalog s s' p piece stmt :
    good s -> good s' -> called_procedure s request c = Some p ->
    piece ∈ SplitSemicolonStatements (StripBeginEnd (procedure_body p)) ->
    AnalyzeStatementImpl (world s') (catalog_constants s') (with_sql request (StripAsciiWhitespace piece)) catalog true
    = Ok stmt -> rank stmt < rank (RCall c);
  text_rank request e catalog st st' s' text stmt :
    good s' -> SqlLiteralToString parts e st = Some (st', Ok text) ->
    AnalyzeStatementImpl (world s') (catalog_constants s') (with_sql request text) catalog true = Ok stmt ->
    rank stmt < rank (RExecuteImmediate e);
}.

Section ends.
Context (engine : EngineOps) (He : engine_settles engine).

Lemma settles_register registered : settles (register_on_catalog registered).
Proof.
  intros st Hst. unfold register_on_catalog.
  destruct (RegisterScriptVariablesOnCatalog _ _ _) as [[constants registered'] r].
  do 2 eexists. split; [reflexivity|]. by apply He.
Qed.

Lemma settles_set request target expr catalog : settles (ExecuteProcedureSet parts request target expr catalog).
Proof. apply settles_bind; [apply settles_read|intros v; apply settles_on_driver]. Qed.

Lemma settles_copy_back args outs : settles (copy_back args outs).
Proof.
  induction outs as [|[formal caller] outs IH]; cbn [copy_back]; [apply settles_ret|].
  apply settles_bind; [apply settles_of_status_or|intros v].
  apply settles_bind; [apply settles_on_driver|done].
Qed.

(** An analysis, then the statement it returns. *)
Lemma settles_analyzed (request : QueryRequest) (catalog : CatalogRef) (one : ExecuteOne) :
  (forall s' stmt, good s' ->
     AnalyzeStatementImpl (world s') (catalog_constants s') request catalog true = Ok stmt ->
     settles (one request stmt catalog None)) ->
  settles (resolved ← analyze request catalog; ignoring_rows (one request resolved catalog None)).
Proof.
  intros Ho st Hst. unfold mbind, run_bind, analyze.
  destruct (AnalyzeStatementImpl _ _ _ _ _) as [stmt|e] eqn:E; [|by exists st, (Err e)].
  eapply settles_ignoring_rows; [by eapply Ho|done].
Qed.

Lemma settles_run_body (one : ExecuteOne) (request : QueryRequest) (statements : list str) (catalog : CatalogRef) :
  (forall piece s' stmt, piece ∈ statements -> good s' ->
     AnalyzeStatementImpl (world s') (catalog_constants s') (with_sql request (StripAsciiWhitespace piece)) catalog true
     = Ok stmt ->
     settles (one (with_sql request (StripAsciiWhitespace piece)) stmt catalog None)) ->
  settles (run_body parts one request statements catalog).
Proof.
  intros Ho. induction statements as [|stmt statements IH]; cbn [run_body]; [apply settles_ret|].
  apply settles_bind; [|intros _; apply IH; intros; eapply Ho; [by right|done..]].
  destruct (bool_decide _); [apply settles_ret|]. destruct (StartsWithIgnoreCase _ _).
  - apply settles_bind; [apply settles_of_status_or|]. intros p. apply settles_set.
  - apply settles_analyzed. intros s' r Hs E. by eapply Ho; [left|..].
Qed.

Context (rank : ResolvedStatement -> nat) (Hr : acyclic rank).

Lemma settles_call (one : ExecuteOne) (request : QueryRequest) (c : CallStmt) (catalog : CatalogRef) :
  (forall stmt request, rank stmt < rank (RCall c) -> settles (one request stmt catalog None)) ->
  settles (ExecuteCallStmt parts one request c catalog).
Proof.
  intros Ho. unfold ExecuteCallStmt, ExecuteProcedureBody.
  destruct (call_procedure c) as [[name stored]|]; [|apply settles_fail].
  apply settles_get. intros st Hst.
  destruct (called_procedure _ _ _) as [p|] eqn:Ep; [|by apply settles_fail].
  destruct (negb (length _ =? _)); [by apply settles_fail|]. settle_here.
  apply settles_bind; [apply settles_of_status_or|intros [args outs]].
  apply settles_bind; [|intros proc_args; apply settles_copy_back].
  destruct (negb (is_bigquery_catalog catalog)); [apply settles_fail|].
  apply settles_with_variables, settles_bind; [apply settles_register|intros _].
  apply settles_run_body; intros piece s' stmt Hin Hs' E; apply Ho.
  by apply (body_rank rank Hr request c catalog (session st) s' p piece stmt).
Qed.

Lemma settles_immediate (one : ExecuteOne) (request : QueryRequest) (e : ResolvedExpr) (catalog : CatalogRef) :
  (forall stmt request, rank stmt < rank (RExecuteImmediate e) -> settles (one request stmt catalog None)) ->
  settles (ExecuteExecuteImmediate parts one request e catalog).
Proof.
  intros Ho. unfold ExecuteExecuteImmediate. destruct (is_null_expr e); [apply settles_fail|].
  intros st Hst. unfold mbind at 1. unfold run_bind at 1.
  destruct (SqlLiteralToString parts e st) as [[st' r]|] eqn:E; [|by unfold SqlLiteralToString in E].
  assert (st' = st) as -> by (unfold SqlLiteralToString in E; congruence).
  destruct r as [text|err]; [|by exists st, (Err err)].
  destruct (bool_decide _); [by apply settles_fail|]. destruct (negb _); [by apply settles_fail|].
  settle_here.
  apply settles_bind; [apply settles_register|intros _].
  apply settles_analyzed. intros s' stmt Hs' Ea. apply Ho.
  by eapply (text_rank rank Hr request e catalog st st s' text stmt).
Qed.

Lemma settles_statement depth request stmt catalog vars :
  rank stmt < depth -> settles (ExecuteOneScriptStatement parts engine depth request stmt catalog vars).
Proof.
  revert request stmt catalog vars. induction depth as [|depth IH]; intros request stmt catalog vars L; [lia|].
  cbn [ExecuteOneScriptStatement].
  destruct stmt as [q|d|a|k|a|c|sql|d|l|o]; cbn [execute_statement].
  - apply settles_get. intros st Hst.
    settle_here.
    apply settles_bind; [apply settles_in_session, He|intros rows; apply settles_set_final_rows].
  - destruct d; try apply settles_fail;
      (apply settles_bind; [apply settles_in_session, He|intros ?; apply settles_ret]).
  - apply settles_read.
  - intros st Hst. by apply settles_on_driver.
  - intros st Hst. by apply settles_on_driver.
  - apply settles_call. intros stmt' request' L'. apply IH. lia.
  - apply settles_immediate. intros stmt' request' L'. apply IH. lia.
  - destruct d; try apply settles_fail; apply settles_in_session, He.
  - apply settles_fail.
  - apply settles_fail.
Qed.
End ends.

(** *** The statement loop *)

(** What the loop relies on of [AnalyzeNextStatement]: it reads past the statement
    and says so when nothing is left. *)
Class AnalyzerLaws : Prop := {
  next_advances w constants options sql position stmt position' at_end :
    AnalyzeNextStatement w constants options sql position = Ok (stmt, position', at_end) ->
    position < position' <= length sql /\ (at_end = false -> position' < length sql);
}.

Lemma chunk_progress sql :
  chunk_sql (ExtractFirstStatementChunk sql) <> [] ->
  0 < consumed_bytes (ExtractFirstStatementChunk sql) <= length sql.
Proof.
  unfold ExtractFirstStatementChunk.
  assert (leading_spaces sql <= length sql) as L by (unfold leading_spaces; lia).
  pose proof (cut_statement_spec (drop (leading_spaces sql) sql) false) as C.
  pose proof (length_drop sql (leading_spaces sql)) as D.
  destruct (cut_statement _ false) as [[stmt rest]|]; cbn [chunk_sql consumed_bytes]; intros N.
  - destruct C as [E _]. rewrite E in D. rewrite length_app in D. cbn in D. lia.
  - enough (length sql - leading_spaces sql <> 0) by lia. intros Z. apply N.
    rewrite <- D in Z. apply length_zero_iff_nil in Z. by rewrite Z.
Qed.

Section loop.
Context `{!ScriptExecutorLibrary W, !AnalyzerLaws} (has_googlesql_scripting : bool).
Context (engine : EngineOps) (He : engine_settles engine).
Context (rank : ResolvedStatement -> nat) (Hr : acyclic rank).
Context (steps depth : nat) (request : QueryRequest) (catalog : CatalogRef).
Context (Hdepth : forall stmt, rank stmt < depth).

(** A script under GoogleSQL's executor may loop for ever: it has to return. *)
Context (Hscript : has_googlesql_scripting = true -> forall has_driver sql,
  settles (ExecuteScriptViaGoogleSql parts engine steps depth request catalog has_driver sql)).

(** The end of the script, or progress. *)
Definition advances (position : nat) (out : nat * gset str * bool) : Prop :=
  out.2 = true \/ position < out.1.1 < length (request_sql request).

Lemma settles_tail remaining :
  settles (ExecuteControlFlowTailIfNeeded parts engine has_googlesql_scripting steps depth request catalog remaining).
Proof.
  unfold ExecuteControlFlowTailIfNeeded. destruct (negb _); [apply settles_ret|].
  destruct has_googlesql_scripting; [|apply settles_fail].
  apply settles_bind; [by apply Hscript|intros rows; apply settles_ret].
Qed.

Lemma settles_leading_set position :
  settles_to (TryExecuteLeadingSetStatement parts request position catalog)
    (fun o => forall position', o = Some position' -> position < position' <= length (request_sql request)).
Proof.
  unfold TryExecuteLeadingSetStatement. set (remaining := drop position _).
  destruct (negb _) eqn:EN; [by apply settles_to_ret|].
  destruct (bool_decide _) eqn:EB; [apply settles_to_fail|]. apply bool_decide_eq_false in EB.
  eapply settles_to_bind; [apply settles_to_True, settles_of_status_or|intros p _].
  eapply settles_to_bind; [apply settles_to_True, settles_set|intros _ _].
  apply settles_to_ret. intros position' [= <-].
  pose proof (chunk_progress remaining EB). subst remaining. rewrite length_drop in *. lia.
Qed.

Lemma settles_step options position registered :
  settles_to (ExecuteAnalyzeNextLoopStep parts engine has_googlesql_scripting steps depth request catalog options
                position registered) (advances position).
Proof.
  unfold ExecuteAnalyzeNextLoopStep.
  eapply settles_to_bind; [apply settles_to_True, settles_tail|intros [rows|] _].
  { eapply settles_to_bind; [apply settles_to_True, settles_set_final_rows|intros _ _].
    apply settles_to_ret. by left. }
  eapply settles_to_bind; [by apply settles_to_True, (settles_register engine)|intros registered' _].
  eapply settles_to_bind; [apply settles_leading_set|intros [position'|] Hp].
  - apply settles_to_ret. specialize (Hp position' eq_refl). unfold advances. cbn.
    destruct (bool_decide _) eqn:EB; [by left|right]. apply bool_decide_eq_false in EB.
    split; [lia|]. destruct (decide (position' = length (request_sql request))) as [->|]; [|lia].
    by rewrite drop_ge in EB.
  - intros st Hst. unfold mbind, run_bind, get_state, of_status_or.
    destruct (AnalyzeNextStatement _ _ _ _ _) as [[[[stmt|] position'] at_end]|e] eqn:E; [|by do 2 eexists..].
    apply next_advances in E.
    destruct (settles_statement engine He rank Hr depth request stmt catalog None (Hdepth stmt) st Hst)
      as (st' & [[]|e] & -> & Hst'); [|by do 2 eexists].
    do 2 eexists. split; [reflexivity|]. split; [done|]. intros a [= <-]. unfold advances. cbn.
    destruct at_end; [by left|right]. destruct E as [? E]. specialize (E eq_refl). lia.
Qed.

Lemma settles_loop fuel options position registered :
  length (request_sql request) - position < fuel ->
  settles (statement_loop parts engine has_googlesql_scripting fuel steps depth request catalog options position
             registered).
Proof.
  revert position registered. induction fuel as [|fuel IH]; intros position registered L; [lia|].
  cbn [statement_loop]. eapply settles_to_settles, settles_to_bind; [apply settles_step|].
  intros [[position' registered'] at_end] Ha. apply settles_to_True.
  destruct at_end; [apply settles_ret|]. apply IH. destruct Ha as [Ha|Ha]; cbn in Ha; [done|lia].
Qed.

(** A script returns when the script executor of GoogleSQL, where it is used, does. *)
Lemma script_settles s :
  good s ->
  exists s' r, ExecuteScriptViaAnalyzeNext parts engine has_googlesql_scripting steps depth request catalog s
               = Some (s', r) /\ good s'.
Proof.
  intros Hs. unfold ExecuteScriptViaAnalyzeNext.
  destruct (negb (is_bigquery_catalog catalog)); [by do 2 eexists|].
  unfold mbind, run_bind, of_status_or. destruct (BuildAnalyzerOptionsForRequest _ _ _) as [options|e];
    [|by do 2 eexists].
  destruct (has_googlesql_scripting && _ && _) eqn:EG.
  - unfold fresh_googlesql_script. assert (has_googlesql_scripting = true) as G
      by (apply andb_prop in EG as [[??]%andb_prop _]; done).
    edestruct (Hscript G) as (st' & r & -> & Hst'); [|by exists (session st'), r]. done.
  - unfold run_script.
    destruct (settles_loop (Datatypes.S (length (request_sql request))) options 0 ∅ ltac:(lia)
                (mkScript s NewFrameStack None) Hs) as (st' & r & -> & Hst'). by do 2 eexists.
Qed.
End loop.


(** ** CALL *)

(** The arguments that are bare variables, with the formal each one is passed for. *)
Definition bare_argument (fa : (str * option SqlType) * ResolvedExpr) : list (str * str) :=
  match ScriptVariableNameFromExpr fa.2 with [] => [] | caller => [(fa.1.1, caller)] end.

Definition bare_arguments (proc : StoredSQLProcedure) (c : CallStmt) : list (str * str) :=
  flat_map bare_argument (zip (formals_of proc (call_signature c)) (call_arguments c)).

(** Every argument that is a bare variable is copied back, whatever its mode. *)
Lemma bind_arguments_out project st formals arguments args outs args' outs' :
  bind_arguments parts project st formals arguments args outs = Ok (args', outs') ->
  outs' = outs ++ flat_map bare_argument (zip formals arguments).
Proof.
  revert arguments args outs. induction formals as [|[formal t] formals IH]; intros [|arg arguments] args outs;
    cbn [bind_arguments zip zip_with flat_map]; try (intros [= <- <-]; by rewrite app_nil_r).
  destruct (is_null_expr arg); [done|].
  unfold bare_argument at 1; cbn [fst snd].
  destruct (ScriptVariableNameFromExpr arg) as [|ch caller]; cbn [mbind option_bind].
  - destruct (EvalExpr _ _) as [v|e]; [|done]. cbn. destruct (Declare_ _ _ _) as [args1 [[]|e]]; [apply IH|done].
  - cbn. destruct (Declare_ _ _ _) as [args1 [[]|e]]; [|done]. intros E%IH. by rewrite E, <- app_assoc.
Qed.

(** What copying back leaves and sets. *)
Lemma copy_back_spec args outs (st st' : ScriptState) r :
  copy_back args outs st = Some (st', r) ->
  session st' = session st /\ final_rows st' = final_rows st /\
  (forall x, (forall p, p ∈ outs -> Canonicalize p.2 <> Canonicalize x) ->
     Lookup (driver st') x = Lookup (driver st) x) /\
  (r = Ok () -> NoDup (map (fun p => Canonicalize p.2) outs) ->
   forall p, p ∈ outs -> Lookup (driver st') p.2 = Lookup args p.1).
Proof.
  revert st. induction outs as [|[formal caller] outs IH]; intros st; cbn [copy_back].
  { intros [= <- <-]. split_and!; try done. by intros _ _ p ?%not_elem_of_nil. }
  unfold mbind, run_bind, of_status_or, on_driver.
  destruct (Lookup args formal) as [v|e] eqn:El; [|intros [= <- <-]; by split_and!].
  destruct (Set_ (driver st) caller v) as [d [[]|e]] eqn:Es.
  - intros E. destruct (IH _ E) as (IH1 & IH2 & IH3 & IH4). cbn in IH1, IH2, IH3, IH4. split_and!; try done.
    + intros x Hx. rewrite IH3 by (intros p Hp; apply Hx; by right).
      apply (set_lookup _ _ _ _ _ x Es). intros Ec. by apply (Hx (formal, caller)); [left|].
    + intros Er ND. apply NoDup_cons in ND as [Hn ND]. intros p [->|Hp]%elem_of_cons; [|by apply IH4].
      cbn [fst snd]. rewrite El, IH3; [by apply (set_lookup _ _ _ _ _ caller Es)|].
      intros q Hq Ec. apply Hn. cbn [snd]. rewrite <- Ec. by apply (list_elem_of_fmap_2 (fun p : str * str => Canonicalize p.2)).
  - intros [= <- <-]. cbn. split_and!; try done.
    intros x Hx. apply (set_lookup _ _ _ _ _ x Es). intros Ec. by apply (Hx (formal, caller)); [left|].
Qed.

(** The body of a procedure runs on its own variables and rows. *)
Lemma body_keeps_caller (one : ExecuteOne) request body args catalog (st st1 : ScriptState) r1 :
  ExecuteProcedureBody parts one request body args catalog st = Some (st1, r1) ->
  driver st1 = driver st /\ final_rows st1 = final_rows st.
Proof.
  unfold ExecuteProcedureBody. destruct (negb _); [by intros [= <- _]|]. unfold with_variables.
  match goal with |- match ?m with _ => _ end = _ -> _ => destruct m as [[st2 r2]|] end; [|done].
  by intros [= <- _].
Qed.

(** C5: a CALL, however its body ends, changes the variables of the caller only at
    the arguments that are bare variables, leaves the rows of the script, and
    leaves every variable when the body fails.  After a success each of these
    variables holds the final value of its formal argument, whether the procedure
    declares it IN, OUT or INOUT. *)
Theorem call_isolated (one : ExecuteOne) (request : QueryRequest) (c : CallStmt) (catalog : CatalogRef)
    (st st' : ScriptState) r :
  ExecuteCallStmt parts one request c catalog st = Some (st', r) ->
  final_rows st' = final_rows st /\
  (driver st' = driver st /\ (exists e, r = Err e) \/
   exists proc bound st1 args,
     called_procedure (session st) request c = Some proc /\
     bind_arguments parts (request_project_id request) st (formals_of proc (call_signature c)) (call_arguments c)
       (PushFrame NewFrameStack) [] = Ok bound /\
     ExecuteProcedureBody parts one request (procedure_body proc) bound.1 catalog st = Some (st1, Ok args) /\
     (forall x, (forall p, p ∈ bare_arguments proc c -> Canonicalize p.2 <> Canonicalize x) ->
        Lookup (driver st') x = Lookup (driver st) x) /\
     (r = Ok () -> NoDup (map (fun p => Canonicalize p.2) (bare_arguments proc c)) ->
      forall p, p ∈ bare_arguments proc c -> Lookup (driver st') p.2 = Lookup args p.1)).
Proof.
  unfold ExecuteCallStmt. destruct (call_procedure c) as [[name stored]|].
  2: { intros [= <- <-]. split; [done|]. left. split; [done|]. by eexists. }
  unfold mbind at 1. unfold run_bind at 1, get_state.
  destruct (called_procedure _ _ _) as [proc|].
  2: { intros [= <- <-]. split; [done|]. left. split; [done|]. by eexists. }
  destruct (negb _). { intros [= <- <-]. split; [done|]. left. split; [done|]. by eexists. }
  unfold mbind, run_bind, of_status_or.
  destruct (bind_arguments _ _ _ _ _ _ _) as [[args outs]|e] eqn:Eb.
  2: { intros [= <- <-]. split; [done|]. left. split; [done|]. by eexists. }
  cbn [fst snd]. apply bind_arguments_out in Eb as Eo. cbn in Eo. subst outs.
  destruct (ExecuteProcedureBody _ _ _ _ _ _ _) as [[st1 [args'|e]]|] eqn:EB; [| |done];
    destruct (body_keeps_caller _ _ _ _ _ _ _ _ EB) as [D F].
  - intros E%copy_back_spec. destruct E as (_ & E2 & E3 & E4). split; [congruence|]. right.
    exists proc, (args, bare_arguments proc c), st1, args'. split_and!; try done. by rewrite <- D.
  - intros [= <- <-]. split; [done|]. left. split; [done|]. by eexists.
Qed.
End script_props.
