(* ===== verification/Coordinator.v ===== *)
(** * Coordinator: from a request to the executor that serves it

    Models [coordinator/local_coordinator_engine.cc] and [stub_executors.cc]: the
    route of a statement, queries, DML and DDL, and the entry into scripts.  The
    engine and the script executor call each other: [engine_at] ties them with the
    depth of nested calls.

    The DuckDB executor and the control-op executor are parameters ([Executor]), as
    are the registries of functions, views and table functions
    ([RegistrationOps]); stored procedures, the semantic executor, DML and TRUNCATE
    are the models of the other files.  The theorems on the coordinator close the
    file. *)

From S2P Require Import Prelude Order Absl AbslReference Schema RowRestriction Storage SemanticError.
From S2P Require Import ScriptText SqlPreprocess FrameStack SqlValue Routes GoogleSqlReference Arithmetic.
From S2P Require Import Operators MathFuncs Casts EvalExpr Rows Joins SetOps Unnest AggFuncs Aggregates.
From S2P Require Import Analytic Scans ScanProps StorageValues Dml SemanticExecutor Parameters Analyze Script.
From S2P Require Import ScriptRunner.
From S2P Require Import ScriptProps.

Section coordinator.
Context {W S : Type} `{AbslText, AbslDouble, GoogleSqlOps, ExecutorNodes} `{RewritableStorage S}.
Context `{!CastLibrary, !ValueText, !ResolvedAst, !AggregateParts, !ParameterLibrary, !ParameterParser}.
Context `{!AnalyzerLibrary W, !ScriptExecutorLibrary W, !RouteTables}.
Context (parts : W -> ExecutorParts) (has_googlesql_scripting : bool).

Abbreviation Session := (@Session W _ _).
Abbreviation EngineOps := (@EngineOps W _ _).
Abbreviation DmlResult := (DmlStats * option RowSource)%type.

(** The tree of a statement, as the classifier reads it. *)
Context (resolved_tree : ResolvedStatement -> ResolvedNode).

(** The storage of the engine. *)
Context (storage_of : W -> S) (set_storage : S -> W -> W).

(** ** Executors *)

(** [coordinator/executor.h]. *)
Record Executor := mkExecutor {
  executor_ExecuteQuery : QueryRequest -> ResolvedStatement -> CatalogRef -> Run Session RowSource;
  executor_ExecuteDml : QueryRequest -> ResolvedStatement -> CatalogRef -> Run Session DmlResult;
  executor_ExecuteDdl : QueryRequest -> ResolvedStatement -> CatalogRef -> Run Session unit;
}.

Context (duckdb_executor control_op_executor : Executor).

(** A computation on the engine's state. *)
Definition on_world {A} (f : W -> W * StatusOr A) : Run Session A := fun s =>
  let '(w, r) := f (world s) in
  Some (mkSession w (procedures s) (system_variables s) (catalog_constants s), r).

(** A computation on the storage. *)
Definition on_storage {A} (f : S -> S * StatusOr A) : Run Session A :=
  on_world (fun w => let '(st, r) := f (storage_of w) in (set_storage st w, r)).

(** [SemanticExecutor]. *)
Definition semantic_ExecuteQuery (request : QueryRequest) (stmt : ResolvedStatement) (catalog : CatalogRef)
    : Run Session RowSource := fun s =>
  let P := session_parts parts s in Some (s, SemanticExecutor_ExecuteQuery request stmt).

(** A statement of [dml::ExecuteDml]; the other kinds of statement are refused
    there by their kind. *)
Definition dml_statement (stmt : ResolvedStatement) : Statement :=
  match stmt with RDml d => d | _ => OtherStatement (node_kind_string stmt) end.

Definition semantic_ExecuteDml (request : QueryRequest) (stmt : ResolvedStatement) (catalog : CatalogRef)
    : Run Session DmlResult := fun s =>
  let P := session_parts parts s in on_storage (Dml.ExecuteDml request (dml_statement stmt)) s.

Definition semantic_ExecuteDdl (request : QueryRequest) (stmt : ResolvedStatement) (catalog : CatalogRef)
    : Run Session unit := fun s =>
  let P := session_parts parts s in
  let '(variables, r) := SemanticExecutor_ExecuteDdl request stmt (system_variables s) in
  Some (mkSession (world s) (procedures s) variables (catalog_constants s), r).

Definition semantic_executor : Executor :=
  mkExecutor semantic_ExecuteQuery semantic_ExecuteDml semantic_ExecuteDdl.

(** [stub_executors.cc]. *)
Definition MakeUnimplementedMessage (route operation stmt_kind offending_family : str) : str :=
  let family_segment :=
    if negb (bool_decide (offending_family = [])) && negb (bool_decide (offending_family = stmt_kind))
    then $", family: " ++ offending_family else [] in
  $"local coordinator: " ++ operation ++ $" on route '" ++ route
    ++ $"' is not implemented (statement kind: " ++ stmt_kind ++ family_segment
    ++ $"); see docs/ENGINE_POLICY.md".

Definition OffendingFamilyFor (stmt : ResolvedStatement) : str := offending_node (Classify (resolved_tree stmt)).

Definition unsupported {A} (operation : str) (stmt : ResolvedStatement) : Run Session A :=
  fail (UnimplementedError (MakeUnimplementedMessage $"unsupported" operation (node_kind_string stmt)
          (OffendingFamilyFor stmt))).

Definition unsupported_executor : Executor :=
  mkExecutor (fun _ stmt _ => unsupported $"ExecuteQuery" stmt) (fun _ stmt _ => unsupported $"ExecuteDml" stmt)
    (fun _ stmt _ => unsupported $"ExecuteDdl" stmt).

(** ** Routes *)

(** The executor a disposition names; the stubs are part of the semantic one. *)
Inductive ExecutorName := DuckDbExecutor | SemanticExecutor | ControlOpExecutor | UnsupportedExecutor.

Definition executor_name (d : Disposition) : ExecutorName :=
  match d with
  | kDuckdbNative | kDuckdbRewrite | kDuckdbUdf => DuckDbExecutor
  | kSemanticExecutor | kLocalStub => SemanticExecutor
  | kControlOp => ControlOpExecutor
  | kUnsupported => UnsupportedExecutor
  end.

Definition the_executor (n : ExecutorName) : Executor :=
  match n with
  | DuckDbExecutor => duckdb_executor
  | SemanticExecutor => semantic_executor
  | ControlOpExecutor => control_op_executor
  | UnsupportedExecutor => unsupported_executor
  end.

Definition RouteFor (stmt : ResolvedStatement) : ExecutorName :=
  executor_name (route (Classify (resolved_tree stmt))).

Definition engine_analyze (request : QueryRequest) (catalog : CatalogRef) (all_statements : bool)
    : Run Session ResolvedStatement := fun s =>
  Some (s, AnalyzeStatementImpl (world s) (catalog_constants s) request catalog all_statements).

(** The result has the schema of the SELECT and no estimate of bytes. *)
Definition DryRun (request : QueryRequest) (catalog : CatalogRef) : Run Session (TableSchema * Z) := fun s =>
  Some (s, (fun sch => (sch, 0%Z)) <$> AnalyzeSelectQuery (world s) (catalog_constants s) request catalog).

(** [ExecuteResolvedStatement]: only the semantic executor sees the variables of the
    script. *)
Definition ExecuteResolvedStatement (request : QueryRequest) (stmt : ResolvedStatement) (catalog : CatalogRef)
    (script_variables : option (FrameStack Value)) (script_system_variables : option (gmap (list str) Value))
    : Run Session RowSource :=
  match RouteFor stmt, script_variables, stmt with
  | SemanticExecutor, Some variables, RQuery q => fun s =>
      let P := session_parts parts s in
      Some (s, ExecuteResolvedQueryStmt request q (Some variables) script_system_variables)
  | n, _, _ => executor_ExecuteQuery (the_executor n) request stmt catalog
  end.

(** ** DML *)

(** [control::internal::RunTruncateTable]. *)
Definition RunTruncateTable (t : TruncateStmt) (storage : S) : S * StatusOr Z :=
  if negb (is_null_expr (truncate_where t)) then
    (storage, Err (UnimplementedError
       $"control op executor: TRUNCATE TABLE ... WHERE is not implemented yet"))
  else
    match truncate_target t ≫= scan_table with
    | None => (storage, Err (InvalidArgumentError $"control op executor: TRUNCATE TABLE has no resolved target"))
    | Some table =>
        match target_storage table with
        | None => (storage, Err (FailedPreconditionError ($"control op executor: TRUNCATE target '"
                     ++ target_FullName table ++ $"' is not backed by storage")))
        | Some (id, _) =>
            match GetSchema storage id, CountRows storage id with
            | Err e, _ => (storage, Err e)
            | Ok _, Err e => (storage, Err e)
            | Ok _, Ok before =>
                let '(storage, r) := OverwriteRows storage id [] in (storage, (fun _ => before) <$> r)
            end
        end
    end.

Definition ExecuteDml (request : QueryRequest) (catalog : CatalogRef) : Run Session DmlResult :=
  _ ← of_status_or (ValidateRequest request catalog);
  stmt ← engine_analyze request catalog true;
  match stmt with
  | RDml (TruncateStatement t) =>
      deleted ← on_storage (RunTruncateTable t);
      mret (mkStats 0 0 deleted, None)
  | _ => executor_ExecuteDml (the_executor (RouteFor stmt)) request stmt catalog
  end.

(** ** DDL *)

(** The registries of a project and their persistence. *)
Record RegistrationOps := mkRegistration {
  (** the constants of the registration catalog; [None] when there is none *)
  registration_constants : W -> QueryRequest -> option Constants;
  register_function : QueryRequest -> ResolvedStatement -> W -> W * StatusOr unit;
  register_view : QueryRequest -> ResolvedStatement -> W -> W * StatusOr unit;
  register_table_function : QueryRequest -> ResolvedStatement -> W -> W * StatusOr unit;
  PersistRoutineDdl : QueryRequest -> ResolvedStatement -> W -> W * StatusOr unit;
  PersistViewDdl : QueryRequest -> ResolvedStatement -> W -> W * StatusOr unit;
}.

Context (registration : RegistrationOps).

(** The statement, analyzed again against the registration catalog. *)
Definition analyze_for_registration (request : QueryRequest) (catalog : CatalogRef) (unavailable : str)
    : Run Session ResolvedStatement := fun s =>
  Some (s,
    match registration_constants registration (world s) request with
    | None => Err (InternalError unavailable)
    | Some constants => AnalyzeStatementImpl (world s) constants request catalog true
    end).

Definition ExecuteCreateFunctionDdl (request : QueryRequest) (catalog : CatalogRef) : Run Session unit :=
  reg_stmt ← analyze_for_registration request catalog
    $"LocalCoordinatorEngine::ExecuteDdl: CREATE FUNCTION registration catalog unavailable";
  _ ← on_world (register_function registration request reg_stmt);
  on_world (PersistRoutineDdl registration request reg_stmt).

Definition register_procedure (request : QueryRequest) (p : StoredSQLProcedure) : Run Session unit := fun s =>
  let '(procedures, r) := RegisterProjectProcedure (procedures s) (request_project_id request) p in
  Some (mkSession (world s) procedures (system_variables s) (catalog_constants s), r).

(** The statement analyzed again has the kind of [ddl]: the same text is analyzed. *)
Definition ExecuteCreateViewTvfProcedureDdl (request : QueryRequest) (catalog : CatalogRef) (ddl : DdlStatement)
    : Run Session unit :=
  reg_stmt ← analyze_for_registration request catalog
    $"LocalCoordinatorEngine::ExecuteDdl: registration catalog unavailable";
  match ddl, reg_stmt with
  | CreateView, _ =>
      _ ← on_world (register_view registration request reg_stmt);
      on_world (PersistViewDdl registration request reg_stmt)
  | CreateTableFunction, _ =>
      _ ← on_world (register_table_function registration request reg_stmt);
      on_world (PersistRoutineDdl registration request reg_stmt)
  | _, RDdl (CreateProcedure p) =>
      _ ← register_procedure request p;
      on_world (PersistRoutineDdl registration request reg_stmt)
  | _, _ => fail (InternalError $"LocalCoordinatorEngine::ExecuteDdl: CREATE PROCEDURE has null resolved stmt")
  end.

Section nested.

(** The script executor one call deeper. *)
Context (execute_one : QueryRequest -> ResolvedStatement -> CatalogRef -> option (gmap (list str) Value) ->
  @Script W _ _ unit).

(** A CALL outside a script, with no variables. *)
Definition call_alone (request : QueryRequest) (c : CallStmt) (catalog : CatalogRef) : Run Session unit := fun s =>
  match ExecuteCallStmt parts execute_one request c catalog (mkScript s NewFrameStack None) with
  | None => None
  | Some (st, r) => Some (session st, r)
  end.

Definition ExecuteDdl (request : QueryRequest) (catalog : CatalogRef) : Run Session unit :=
  _ ← of_status_or (ValidateRequest request catalog);
  stmt ← engine_analyze request catalog true;
  match stmt with
  | RDdl CreateModel => mret ()
  | RDdl CreateFunction =>
      if negb (is_bigquery_catalog catalog)
      then fail (FailedPreconditionError
             $"LocalCoordinatorEngine::ExecuteDdl: CREATE FUNCTION requires GoogleSqlCatalog")
      else ExecuteCreateFunctionDdl request catalog
  | RDdl ((CreateView | CreateTableFunction | CreateProcedure _) as ddl) =>
      if negb (is_bigquery_catalog catalog)
      then fail (FailedPreconditionError
             $"LocalCoordinatorEngine::ExecuteDdl: view/TVF DDL requires GoogleSqlCatalog")
      else ExecuteCreateViewTvfProcedureDdl request catalog ddl
  | RCall c => call_alone request c catalog
  | _ => executor_ExecuteDdl (the_executor (RouteFor stmt)) request stmt catalog
  end.
End nested.

(** ** The engine *)

(** The engine whose scripts may nest [depth] calls. *)
Fixpoint engine_at (depth : nat) : EngineOps :=
  match depth with
  | 0 => mkEngine (fun _ _ _ _ _ => out_of_depth) (fun _ _ => out_of_depth) (fun _ _ => out_of_depth)
  | Datatypes.S depth =>
      mkEngine ExecuteResolvedStatement
        (ExecuteDdl (ExecuteOneScriptStatement parts (engine_at depth) depth))
        ExecuteDml
  end.

Definition ExecuteQuery (steps depth : nat) (request : QueryRequest) (catalog : CatalogRef) : Run Session RowSource :=
  _ ← of_status_or (ValidateRequest request catalog);
  let all_statements := NeedsAllStatements (request_sql request) in
  if all_statements && bool_decide (";"%char ∈ request_sql request)
  then ExecuteScriptViaAnalyzeNext parts (engine_at depth) has_googlesql_scripting steps depth request catalog
  else
    stmt ← engine_analyze request catalog all_statements;
    match stmt with
    | RMulti statement_list => ExecuteMultiStmtScript parts (engine_at depth) depth request statement_list catalog
    | _ => executor_ExecuteQuery (the_executor (RouteFor stmt)) request stmt catalog
    end.
End coordinator.

(** ** What the coordinator guarantees

    The bounds of the model do not change a result: a query that returns at some
    depth and number of steps returns the same at every larger one.  A statement
    with an unsupported part is refused before anything runs.  TRUNCATE empties the
    table and reports the rows it had. *)

Section runner_refines.
Context {W : Type} `{AbslText, AbslDouble, GoogleSqlOps, ExecutorNodes}.
Context `{!CastLibrary, !ValueText, !ResolvedAst, !ParameterLibrary, !ParameterParser, !AnalyzerLibrary W}.
Context `{!ScriptExecutorLibrary W} (parts : W -> ExecutorParts) (has_googlesql_scripting : bool).
Context (e e' : @EngineOps W _ _) (He : engine_refines e e').
Context (depth depth' : nat) (Hd : depth <= depth').

Abbreviation Script := (@Script W _ _).

Lemma catchable_refines {A} (m m' : Script A) : refines m m' -> refines (catchable m) (catchable m').
Proof.
  intros Hm st r. unfold catchable. destruct (m st) as [[s a]|] eqn:E; [by rewrite (Hm _ _ E)|done].
Qed.

Lemma answer_refines {A B} (m m' : Script A) (k k' : StatusOr A -> Script B) :
  refines m m' -> (forall r, refines (k r) (k' r)) -> refines (answer m k) (answer m' k').
Proof.
  intros Hm Hk st r. unfold answer. destruct (m st) as [[s a]|] eqn:E; [rewrite (Hm _ _ E); apply Hk|done].
Qed.

Lemma statement_refines request catalog view segment :
  refines (ExecuteStatement parts e depth request catalog view segment)
          (ExecuteStatement parts e' depth' request catalog view segment).
Proof.
  apply refines_bind; [reflexivity|]. intros stmt. apply catchable_refines. by apply one_statement_refines.
Qed.

Lemma query_refines request catalog view segment :
  refines (ExecuteQueryWithResult parts e depth request catalog view segment)
          (ExecuteQueryWithResult parts e' depth' request catalog view segment).
Proof. apply refines_bind; [apply statement_refines|reflexivity]. Qed.

Lemma turn_refines request catalog t :
  refines (run_turn parts e depth request catalog t) (run_turn parts e' depth' request catalog t).
Proof.
  induction t as [r|v s k IH|v s k IH|v s k IH|v c ws k IH|p k IH|a p v k IH|s k IH]; cbn [run_turn];
    [reflexivity|apply answer_refines; [|done]..]; try reflexivity.
  - apply statement_refines.
  - apply query_refines.
Qed.

Lemma executor_refines steps steps' request catalog x :
  steps <= steps' ->
  refines (run_executor parts e steps depth request catalog x) (run_executor parts e' steps' depth' request catalog x).
Proof.
  revert steps' x. induction steps as [|steps IH]; intros steps' x L.
  - cbn [run_executor]. destruct steps' as [|steps']; cbn [run_executor]; destruct (IsComplete x);
      try reflexivity; apply out_of_depth_refines.
  - destruct steps' as [|steps']; [lia|]. cbn [run_executor]. destruct (IsComplete x); [reflexivity|].
    apply refines_bind; [apply turn_refines|]. intros x'. apply IH. lia.
Qed.

Lemma googlesql_refines steps steps' request catalog has_driver sql :
  steps <= steps' ->
  refines (ExecuteScriptViaGoogleSql parts e steps depth request catalog has_driver sql)
          (ExecuteScriptViaGoogleSql parts e' steps' depth' request catalog has_driver sql).
Proof.
  intros L. unfold ExecuteScriptViaGoogleSql. destruct (negb _); [reflexivity|]. intros st r.
  match goal with |- match ?m ?s with _ => _ end = _ -> match ?m' _ with _ => _ end = _ =>
    assert (refines m m') as Hm; [|destruct (m s) as [[st' a]|] eqn:E; [by rewrite (Hm _ _ E)|done]] end.
  apply refines_bind; [reflexivity|]. intros _. apply refines_bind; [reflexivity|]. intros x.
  apply refines_bind; [by apply executor_refines|reflexivity].
Qed.

Lemma step_refines steps steps' request catalog options position registered :
  steps <= steps' ->
  refines (ExecuteAnalyzeNextLoopStep parts e has_googlesql_scripting steps depth request catalog options position
             registered)
          (ExecuteAnalyzeNextLoopStep parts e' has_googlesql_scripting steps' depth' request catalog options position
             registered).
Proof.
  intros L. apply refines_bind.
  - unfold ExecuteControlFlowTailIfNeeded. destruct (negb _); [reflexivity|].
    destruct has_googlesql_scripting; [|reflexivity]. apply refines_bind; [by apply googlesql_refines|reflexivity].
  - intros [rows|]; [reflexivity|]. apply refines_bind; [reflexivity|]. intros registered'.
    apply refines_bind; [reflexivity|]. intros [position'|]; [reflexivity|].
    apply refines_bind; [reflexivity|]. intros st. apply refines_bind; [reflexivity|].
    intros [[[stmt|] position'] at_end]; [|reflexivity].
    apply refines_bind; [by apply one_statement_refines|reflexivity].
Qed.

Lemma loop_refines fuel steps steps' request catalog options position registered :
  steps <= steps' ->
  refines (statement_loop parts e has_googlesql_scripting fuel steps depth request catalog options position registered)
          (statement_loop parts e' has_googlesql_scripting fuel steps' depth' request catalog options position
             registered).
Proof.
  intros L. revert position registered. induction fuel as [|fuel IH]; intros position registered;
    cbn [statement_loop]; [reflexivity|].
  apply refines_bind; [by apply step_refines|]. intros [[position' registered'] at_end].
  destruct at_end; [reflexivity|apply IH].
Qed.

Lemma run_script_refines (m m' : Script unit) : refines m m' -> refines (run_script m) (run_script m').
Proof.
  intros Hm s r. unfold run_script. destruct (m _) as [[st a]|] eqn:E; [by rewrite (Hm _ _ E)|done].
Qed.

Lemma script_refines steps steps' request catalog :
  steps <= steps' ->
  refines (ExecuteScriptViaAnalyzeNext parts e has_googlesql_scripting steps depth request catalog)
          (ExecuteScriptViaAnalyzeNext parts e' has_googlesql_scripting steps' depth' request catalog).
Proof.
  intros L. unfold ExecuteScriptViaAnalyzeNext. destruct (negb _); [reflexivity|].
  apply refines_bind; [reflexivity|]. intros options. destruct (_ && _ && _).
  - intros s r. unfold fresh_googlesql_script.
    destruct (ExecuteScriptViaGoogleSql parts e _ _ _ _ _ _ _) as [[st a]|] eqn:E; [|done].
    by rewrite (googlesql_refines _ _ _ _ _ _ L _ _ E).
  - apply run_script_refines. by apply loop_refines.
Qed.

Lemma list_refines request l catalog :
  refines (ExecuteStatementList parts e depth request l catalog) (ExecuteStatementList parts e' depth' request l catalog).
Proof.
  induction l as [|[child|] l IH]; cbn [ExecuteStatementList]; [reflexivity| |reflexivity].
  apply refines_bind; [by apply one_statement_refines|done].
Qed.
End runner_refines.

Section coordinator_props.
Context {W S : Type} `{AbslText, AbslDouble, GoogleSqlOps, ExecutorNodes} `{RewritableStorage S}.
Context `{!CastLibrary, !ValueText, !ResolvedAst, !AggregateParts, !ParameterLibrary, !ParameterParser}.
Context `{!AnalyzerLibrary W, !ScriptExecutorLibrary W, !RouteTables}.
Context (parts : W -> ExecutorParts) (has_googlesql_scripting : bool).
Context (resolved_tree : ResolvedStatement -> ResolvedNode).
Context (storage_of : W -> S) (set_storage : S -> W -> W).
Context (duckdb_executor control_op_executor : @Executor W _ _) (registration : @RegistrationOps W _ _).

Abbreviation engine_at :=
  (engine_at parts resolved_tree storage_of set_storage duckdb_executor control_op_executor registration).
Abbreviation ExecuteQuery :=
  (ExecuteQuery parts has_googlesql_scripting resolved_tree storage_of set_storage duckdb_executor
     control_op_executor registration).
Abbreviation ExecuteDml :=
  (ExecuteDml parts resolved_tree storage_of set_storage duckdb_executor control_op_executor).
Abbreviation ExecuteDdl := (fun execute_one =>
  ExecuteDdl parts resolved_tree storage_of set_storage duckdb_executor control_op_executor registration execute_one).
Abbreviation RouteFor := (RouteFor resolved_tree).

Lemma engine_at_refines depth depth' : depth <= depth' -> engine_refines (engine_at depth) (engine_at depth').
Proof.
  revert depth'. induction depth as [|depth IH]; intros depth' L.
  - split; intros; apply out_of_depth_refines.
  - destruct depth' as [|depth']; [lia|]. specialize (IH depth' ltac:(lia)).
    split; intros; cbn; [reflexivity| |reflexivity].
    apply refines_bind; [reflexivity|]. intros _. apply refines_bind; [reflexivity|].
    intros [q|d|a|k|a|c|sql|d|l|o]; try reflexivity.
    intros s r. unfold call_alone.
    destruct (ExecuteCallStmt parts (ExecuteOneScriptStatement parts (engine_at depth) depth) _ _ _ _)
      as [[st a]|] eqn:E; [|done].
    enough (ExecuteCallStmt parts (ExecuteOneScriptStatement parts (engine_at depth') depth') request c catalog
              (mkScript s NewFrameStack None) = Some (st, a)) as -> by done.
    eapply ExecuteCallStmt_refines; [|exact E]. apply one_statement_refines; [done|lia].
Qed.

(** The bounds of the model do not matter: a request that returns within some
    depth of nested calls and some number of steps of the script library returns
    the same rows or the same error, and leaves the same state, within any larger
    bounds. *)
Theorem bounds_irrelevant steps steps' depth depth' request catalog s out :
  steps <= steps' -> depth <= depth' ->
  ExecuteQuery steps depth request catalog s = Some out ->
  ExecuteQuery steps' depth' request catalog s = Some out.
Proof.
  intros Ls Ld. revert s out. fold (refines (ExecuteQuery steps depth request catalog)
    (ExecuteQuery steps' depth' request catalog)).
  apply refines_bind; [reflexivity|]. intros _. cbv zeta.
  match goal with |- refines (if ?b then _ else _) _ => destruct b end.
  - by apply script_refines; [apply engine_at_refines|..].
  - apply refines_bind; [reflexivity|]. intros [q|d|a|k|a|c|sql|d|l|o]; try reflexivity.
    apply run_script_refines. by apply list_refines; [apply engine_at_refines|].
Qed.

(** The tree of a statement has the statement's kind. *)
Class TreeLaws : Prop := {
  tree_kind stmt : node_kind (resolved_tree stmt) = node_kind_string stmt;
}.

Context `{!TreeLaws}.

Lemma walked_statement stmt :
  root_route (class_name (resolved_tree stmt)) = None ->
  match stmt with RDml (TruncateStatement _) | RMulti _ | RDdl _ | RCall _ => False | _ => True end.
Proof.
  unfold class_name. rewrite tree_kind. destruct stmt as [q|d|a|k|a|c|sql|d|l|o]; try done; by destruct d.
Qed.

Definition refused (operation : str) (stmt : ResolvedStatement) : Status :=
  UnimplementedError (MakeUnimplementedMessage $"unsupported" operation (node_kind_string stmt)
    (OffendingFamilyFor resolved_tree stmt)).

(** C6: a statement that the classifier walks (its root has no route of its own) and
    in which the walk reaches an unsupported node is refused as UNIMPLEMENTED by
    each of the four entry points, in a script or outside, and the state does not
    change: nothing is read or written.  Statements whose root decides the route,
    such as CREATE TABLE AS SELECT and MERGE, are not walked. *)
Theorem unsupported_refused stmt m name request catalog s :
  root_route (class_name (resolved_tree stmt)) = None ->
  visited m (resolved_tree stmt) -> (kUnsupported, name) ∈ own_demands m ->
  (forall variables system_variables,
     ExecuteResolvedStatement parts resolved_tree storage_of set_storage duckdb_executor control_op_executor
       request stmt catalog variables system_variables s = Some (s, Err (refused $"ExecuteQuery" stmt))) /\
  (ValidateRequest request catalog = Ok () ->
   AnalyzeStatementImpl (world s) (catalog_constants s) request catalog true = Ok stmt ->
   ExecuteDml request catalog s = Some (s, Err (refused $"ExecuteDml" stmt)) /\
   forall execute_one, ExecuteDdl execute_one request catalog s = Some (s, Err (refused $"ExecuteDdl" stmt))) /\
  (ValidateRequest request catalog = Ok () ->
   NeedsAllStatements (request_sql request) && bool_decide (";"%char ∈ request_sql request) = false ->
   AnalyzeStatementImpl (world s) (catalog_constants s) request catalog
     (NeedsAllStatements (request_sql request)) = Ok stmt ->
   forall steps depth, ExecuteQuery steps depth request catalog s = Some (s, Err (refused $"ExecuteQuery" stmt))).
Proof.
  intros R Hm Hp. pose proof (walked_statement stmt R) as Hw.
  assert (RouteFor stmt = UnsupportedExecutor) as Hr
    by (unfold Coordinator.RouteFor; by rewrite (unsupported_visited m _ name R Hm Hp)).
  split_and!.
  - intros vars sys. unfold ExecuteResolvedStatement. by rewrite Hr.
  - intros V A. split; [|intros execute_one];
      unfold Coordinator.ExecuteDml, Coordinator.ExecuteDdl, mbind, run_bind, of_status_or, engine_analyze; rewrite V, A;
      destruct stmt as [q|d|a|k|a|c|sql|d|l|o]; try done; try (by rewrite Hr); destruct d; try (by rewrite Hr); done.
  - intros V N A steps depth.
    unfold Coordinator.ExecuteQuery, mbind, run_bind, of_status_or, engine_analyze. rewrite V, N, A.
    destruct stmt as [q|d|a|k|a|c|sql|d|l|o]; try (by rewrite Hr); done.
Qed.

(** ** TRUNCATE *)

Context `{!StorageLaws S, !RewritableStorageLaws S}.
Context (storage_set : forall st w, storage_of (set_storage st w) = st).

(** TRUNCATE TABLE that succeeds leaves the table without rows, reports as deleted
    exactly the rows it had, and touches no other table. *)
Theorem truncate_exact request catalog t scan table id sch s s' stats rows :
  ValidateRequest request catalog = Ok () ->
  AnalyzeStatementImpl (world s) (catalog_constants s) request catalog true = Ok (RDml (TruncateStatement t)) ->
  truncate_target t = Some scan -> scan_table scan = Some table -> target_storage table = Some (id, sch) ->
  ExecuteDml request catalog s = Some (s', Ok (stats, rows)) ->
  rows = None /\
  stats = mkStats 0 0 (Z.of_nat (length (contents (storage_of (world s)) id))) /\
  contents (storage_of (world s')) id = [] /\
  forall u, u <> id -> contents (storage_of (world s')) u = contents (storage_of (world s)) u.
Proof.
  intros V A Et Es Ei. unfold Coordinator.ExecuteDml, mbind, run_bind, of_status_or, engine_analyze.
  rewrite V, A. unfold on_storage, on_world, RunTruncateTable. rewrite Et. cbn [mbind option_bind]. rewrite Es, Ei.
  destruct (negb _); [done|].
  destruct (GetSchema (storage_of (world s)) id) as [sch'|]; [|done].
  destruct (CountRows (storage_of (world s)) id) as [before|] eqn:EC; [|done].
  destruct (OverwriteRows (storage_of (world s)) id []) as [st [[]|]] eqn:EO; [|done].
  cbn. intros [= <- <- <-]. cbn [world]. rewrite storage_set. split_and!; [done| | |].
  - by rewrite (count_ok _ _ _ EC).
  - by destruct (overwrite_ok _ _ _ _ EO) as (sch1 & _ & ->).
  - intros u Hu. by apply (overwrite_frame _ _ _ _ _ u EO).
Qed.
End coordinator_props.
