(* ===== verification/ScriptExamples.v ===== *)
(** * ScriptExamples: the theorems on requests and scripts at concrete inputs

    A concrete analyzer that knows a handful of statements, and closed instances of
    the theorems on preprocessing, parameters, queries, routes, scripts and the
    coordinator, computed with the reference instances. *)

From S2P Require Import Prelude Order Absl AbslReference Schema RowRestriction Storage SemanticError.
From S2P Require Import ScriptText SqlPreprocess FrameStack SqlValue Routes GoogleSqlReference Arithmetic.
From S2P Require Import Operators MathFuncs Casts EvalExpr EvalReference Rows Joins SetOps Unnest AggFuncs Aggregates.
From S2P Require Import Analytic Scans ScanProps QueryExamples StorageValues Dml DmlExamples.
From S2P Require Import SemanticExecutor Parameters Analyze Script ScriptRunner ScriptProps Coordinator.
Import Reference EvalReference.EvalReference.

(** ** Text *)

(** [SET x = 'a;b'] after a blank, without a semicolon: one byte stays unread. *)
Lemma set_chunk_consumed_witness :
  let sql := $" SET x = 'a;b'" in
  chunk_sql (ExtractFirstStatementChunk sql) = LeadingScriptStatement sql /\
  length (drop (consumed_bytes (ExtractFirstStatementChunk sql)) sql) = leading_spaces sql /\
  drop (consumed_bytes (ExtractFirstStatementChunk sql)) sql = $"'".
Proof.
  cbv zeta. destruct (set_chunk_consumed $" SET x = 'a;b'") as [E L].
  split; [exact E|]. split; [exact L|]. vm_compute. reflexivity.
Defined.

(** The literal stays and the type name after it is rewritten.  A literal with an
    escaped apostrophe, and a double-quoted one for the struct fields, are changed. *)
Lemma rewriting_keeps_literals_witness :
  (exists code' segs', RewriteIntegerTypeAlias $"CAST('INTEGER' AS INTEGER)" = statement_of code' segs' /\
     map seg_body segs' = [map Char $"INTEGER"]) /\
  RewriteIntegerTypeAlias $"CAST('INTEGER' AS INTEGER)" = $"CAST('INTEGER' AS INT64)" /\
  RewriteIntegerTypeAlias ($"SELECT 'it" ++ backslash :: $"'s INTEGER'") = $"SELECT 'it" ++ backslash :: $"'s INT64'" /\
  RewriteAnonymousStructFieldAccess ($"SELECT " ++ dquote_char :: $"a._1" ++ [dquote_char]) =
    $"SELECT " ++ dquote_char :: $"a[OFFSET(1)]" ++ [dquote_char].
Proof.
  split; [|split_and!; vm_compute; reflexivity].
  destruct (proj1 (rewriting_keeps_literals $"CAST(" [mkSegment squote_char (map Char $"INTEGER") $" AS INTEGER)"]))
    as (code' & segs' & E & F & _).
  - apply (bool_decide_unpack _). vm_compute. exact I.
  - split_and!; [apply (bool_decide_unpack _); vm_compute; exact I| |
                |apply (bool_decide_unpack _); vm_compute; exact I|done|exact I];
      [|intros J; apply list_elem_of_In, in_map_iff in J as (? & [=] & _)].
    repeat (apply Forall_cons; split); [split; discriminate..|by apply Forall_nil].
  - exists code', segs'. split; [exact E|]. inversion F as [|? seg ? ? [_ B] F']; subst. inversion F'; subst.
    cbn [map]. by rewrite <- B.
Defined.

(** The decorated name of [SELECT * FROM `t@-3600000`]. *)
Lemma decorators_not_lowered_witness :
  LowerTableDecorators 1700000000000 ($"SELECT * FROM " ++ backtick :: $"t@-3600000" ++ [backtick])
  = $"SELECT * FROM " ++ backtick :: $"t@-3600000" ++ [backtick].
Proof.
  apply (decorators_not_lowered 1700000000000 $"SELECT * FROM " [($"t@-3600000", [])]).
  - apply (bool_decide_unpack _). vm_compute. exact I.
  - apply Forall_cons. split; [|apply Forall_nil; exact I]. split; apply (bool_decide_unpack _); vm_compute; exact I.
Defined.

(** ** Parameters *)

#[export] Instance reference_parameter_library : ParameterLibrary := {|
  MakeStructType fs := Ok (TStruct fs);
  MakeArrayType e := Ok (TArray e);
  Base64Unescape s := Some s;
  TypeKind_Name _ := $"TYPE";
  date_FromString _ _ := Ok 0%Z;
  datetime_FromString _ _ := undefined_here;
  time_FromString _ _ := undefined_here;
|}.

#[export] Instance reference_parameter_laws : ParameterLibraryLaws.
Proof. split; intros ? ? [= <-]; done. Qed.

(** A parameter of type [STRUCT<x INT64, y STRING>] with the value [["1","foo"]]. *)
Definition struct_descriptor : str := $"x:INT64,y:STRING".
Definition quoted (s : str) : str := "034"%char :: s ++ ["034"%char].
Definition struct_json : str := $"[" ++ quoted $"1" ++ $"," ++ quoted $"foo" ++ $"]".

Lemma parameter_types_agree_witness :
  exists v, ParseParameterValue_ struct_json $"STRUCT" struct_descriptor = Ok v /\
    has_type v (TStruct [($"x", TInt64); ($"y", TString)]) = true.
Proof.
  eexists. split; [vm_compute; reflexivity|].
  apply (parameter_types_agree struct_json $"STRUCT" struct_descriptor); vm_compute; reflexivity.
Defined.

(** ** SELECT *)

(** [SELECT k, v AS name FROM people] *)
Definition people_query : QueryStmt :=
  mkQuery people [Some (mkOutput $"k" k_column); Some (mkOutput $"name" v_column)].

Definition plain_request (sql : str) : QueryRequest := mkRequest $"p" [] sql [] false.

Definition people_schema : TableSchema :=
  mkTableSchema [Schema.mkColumn $"k" kInt64 kNullable [] [] []; Schema.mkColumn $"name" kString kNullable [] [] []].

Lemma select_rows_witness :
  exists sch rows, ExecuteResolvedQueryStmt (plain_request []) people_query None None = Ok (sch, rows) /\
    length rows = 4 /\ map col_name (Schema.columns sch) = [$"k"; $"name"].
Proof.
  do 2 eexists. split; [vm_compute; reflexivity|]. split; [reflexivity|].
  edestruct (select_rows (plain_request []) people_query None None) as (ocs & _ & _ & _ & Eo & En & _);
    [intros t read rows [= <-] [= <-] [= <-]; repeat constructor|vm_compute; reflexivity|].
  rewrite En. destruct ocs as [|o1 [|o2 [|]]]; try discriminate Eo. injection Eo as <- <-. reflexivity.
Defined.

Lemma dry_run_schema_agrees_witness :
  exists sch rows, ReflectOutputSchema people_query = Ok sch /\
    ExecuteResolvedQueryStmt (plain_request []) people_query None None = Ok (sch, rows).
Proof.
  destruct (ExecuteResolvedQueryStmt (plain_request []) people_query None None) as [[sch' rows]|e] eqn:E;
    [|vm_compute in E; discriminate E].
  exists people_schema, rows. split; [vm_compute; reflexivity|]. f_equal. f_equal.
  apply (dry_run_schema_agrees (plain_request []) people_query None None people_schema sch' rows);
    [|vm_compute; reflexivity|exact E].
  apply Forall_cons. split; [by intros t [= <-]|]. apply Forall_cons. split; [by intros t [= <-]|].
  apply Forall_nil. exact I.
Defined.

(** ** A store, a procedure and an analyzer *)

(** [BEGIN SET a = 2; SELECT 1; END], with the argument [a]. *)
Definition bump : StoredSQLProcedure :=
  mkProcedure [$"bump"] [Some TInt64] [$"a"] $"BEGIN SET a = 2; SELECT 1; END".

Definition x_constant : ResolvedExpr :=
  EConstant (Some (mkConstant $"x" $"x" (Some (Ok (SInt64 1))))) (Some TInt64).

Definition one_column : ResolvedColumn := column 1 $"one" TInt64.

(** [SELECT 1] *)
Definition select_one : ResolvedStatement :=
  RQuery (mkQuery (ProjectScan [one_column] [(one_column, ELiteral (SInt64 1))] (SingleRowScan []))
            [Some (mkOutput $"one" one_column)]).

(** [CREATE CONSTANT x = 1], [CALL bump(x)] and [TRUNCATE TABLE t] *)
Definition declare_x : ResolvedStatement := RCreateConstant (mkCreateConstant [$"x"] (ELiteral (SInt64 1))).
Definition call_bump : CallStmt := mkCall (Some ($"bump", None)) [Some TInt64] [x_constant].
Definition truncate_t : TruncateStmt := mkTruncate ENull (Some t_scan).

Definition known_statements : list (str * ResolvedStatement) :=
  [($"SELECT 1", select_one); ($"CREATE CONSTANT x = 1", declare_x); ($"CALL bump(x)", RCall call_bump);
   ($"TRUNCATE TABLE t", RDml (TruncateStatement truncate_t)); ($"EXPLAIN SELECT 1", ROther $"ExplainStmt")].

Definition known (sql : str) : StatusOr (option ResolvedStatement) :=
  match List.find (fun p : str * ResolvedStatement => bool_decide (p.1 = StripAsciiWhitespace sql)) known_statements with
  | Some p => Ok (Some p.2)
  | None => Err (InvalidArgumentError $"syntax error")
  end.

(** The statement up to the next semicolon. *)
Definition next_statement (sql : str) (position : nat) : StatusOr (option ResolvedStatement * nat * bool) :=
  match drop position sql with
  | [] => Err (InvalidArgumentError $"syntax error: unexpected end of input")
  | remaining =>
      let '(piece, rest) := default (remaining, []) (cut_statement remaining false) in
      stmt ← known piece;
      Ok (stmt, length sql - length rest, bool_decide (StripAsciiWhitespace rest = []))
  end.

#[export] Instance reference_analyzer : AnalyzerLibrary shelf := {|
  AnalyzerOptions := unit;
  MakeCoordinatorAnalyzerOptions _ := ();
  set_parameter_mode _ o := o;
  AddPositionalQueryParameter _ o := Ok o;
  AddQueryParameter _ _ o := Ok o;
  AddExpressionColumn _ _ o := Ok o;
  AddSystemVariable _ _ o := Ok o;
  AnalyzeStatement _ _ _ sql := known sql;
  AnalyzeNextStatement _ _ _ := next_statement;
  AnalyzeExpression _ _ _ sql :=
    if bool_decide (sql = $"2") then Ok (Some (ELiteral (SInt64 2))) else Err (InvalidArgumentError $"syntax error");
  CreateConstant _ _ := Ok ();
  now_ms _ := 0%Z;
|}.

Lemma cut_statement_length s q stmt rest : cut_statement s q = Some (stmt, rest) -> length rest < length s.
Proof.
  pose proof (cut_statement_spec s q) as C. intros E. rewrite E in C. destruct C as [-> _].
  rewrite length_app. cbn. lia.
Qed.

#[export] Instance reference_analyzer_laws : AnalyzerLaws (W := shelf).
Proof.
  split. intros w constants options sql position stmt position' at_end. cbn [AnalyzeNextStatement reference_analyzer].
  unfold next_statement. pose proof (length_drop sql position) as L.
  destruct (drop position sql) as [|c remaining]; [done|].
  destruct (cut_statement (c :: remaining) false) as [[piece rest]|] eqn:C; cbn [default id].
  - apply cut_statement_length in C. unfold id. destruct (known piece) as [o|]; [|done]. cbn.
    intros [= _ <- <-]. cbn in L, C. split; [lia|].
    intros N%bool_decide_eq_false. destruct rest; [by vm_compute in N|cbn; lia].
  - destruct (known (c :: remaining)) as [o|]; [|done]. cbn. intros [= _ <- <-]. cbn in L. split; [lia|].
    done.
Qed.

(** GoogleSQL's script executor, not linked. *)
#[export] Instance reference_script_library : ScriptExecutorLibrary shelf := {|
  ScriptExecutor := unit;
  ScriptExecutor_Create _ := Ok ();
  IsComplete _ := true;
  ExecuteNext e := TurnDone (Ok e);
  GetCurrentVariables _ := [];
  AnalyzeType _ _ := Ok None;
  MakeScriptException := InvalidArgumentError;
  is_script_exception _ := false;
|}.

Definition shelf_parts (_ : shelf) : ExecutorParts := reference_parts.

(** The tree of a statement: EXPLAIN is a leaf, the others have no part that is not
    native to their route. *)
Definition tree (stmt : ResolvedStatement) : ResolvedNode :=
  match stmt with
  | RQuery q =>
      RNode $"QueryStmt" None (QueryStmtDetail false)
        [(FQuery, RNode $"ProjectScan" None NoDetail
            [(FInputScan, RNode $"SingleRowScan" None NoDetail []);
             (FOther, RNode (match query_output_list q with [] => $"Flatten" | _ => $"Literal" end) None NoDetail [])])]
  | _ => RNode (node_kind_string stmt) None NoDetail []
  end.

#[export] Instance tree_laws : TreeLaws tree.
Proof. split. by intros []. Qed.

Definition no_rows : RowSource := (mkTableSchema [], []).

(** An executor that returns no rows. *)
Definition idle_executor : Executor (W := shelf) :=
  mkExecutor (fun _ _ _ => mret no_rows) (fun _ _ _ => mret (no_stats, None)) (fun _ _ _ => mret ()).

Definition no_registration : RegistrationOps (W := shelf) :=
  mkRegistration (fun _ _ => None) (fun _ _ w => (w, Ok ())) (fun _ _ w => (w, Ok ())) (fun _ _ w => (w, Ok ()))
    (fun _ _ w => (w, Ok ())) (fun _ _ w => (w, Ok ())).

Definition set_shelf (s _ : shelf) : shelf := s.

Definition bumps : gmap str (list StoredSQLProcedure) := {[ $"p" := [bump] ]}.
Definition start : Session (W := shelf) := mkSession store bumps ∅ ∅.
Definition the_catalog : CatalogRef := BigQueryCatalog true.

Import RouteExamples.

Definition shelf_engine (depth : nat) : EngineOps (W := shelf) :=
  engine_at (S := shelf) shelf_parts tree id set_shelf idle_executor idle_executor no_registration depth.

(** [CREATE CONSTANT x = 1; CALL bump(x); SELECT 1] *)
Definition bump_script : QueryRequest :=
  plain_request $"CREATE CONSTANT x = 1; CALL bump(x); SELECT 1".

Definition run_query (steps depth : nat) (request : QueryRequest) (s : Session (W := shelf))
    : option (Session (W := shelf) * StatusOr RowSource) :=
  ExecuteQuery (S := shelf) shelf_parts false tree id set_shelf idle_executor idle_executor no_registration
    steps depth request the_catalog s.

(** ** Scripts *)

(** The script returns the rows of its last statement; a procedure has set [x]. *)
Example bump_script_runs :
  exists s', run_query 0 3 bump_script start = Some (s', Ok (mkTableSchema [Schema.mkColumn $"one" kInt64 kNullable [] [] []],
                                                            [mkRow [VInt64 1]])).
Proof. eexists. vm_compute. reflexivity. Qed.

Definition rank (stmt : ResolvedStatement) : nat :=
  match stmt with
  | RCall c => match call_procedure c with Some (_, None) => 1 | _ => 2 end
  | RExecuteImmediate _ => 2
  | _ => 0
  end.

Definition keeps_procedures (s : Session (W := shelf)) : Prop := procedures s = bumps.

Lemma known_rank sql stmt : known sql = Ok (Some stmt) -> rank stmt < 2.
Proof.
  unfold known. destruct (List.find _ known_statements) as [p|] eqn:F; [|done]. intros [= <-].
  apply List.find_some in F as [I _]. cbn in I.
  repeat (destruct I as [<-|I]; [cbn; lia|]). done.
Qed.

Lemma analyzed_known (w : shelf) constants request sql catalog stmt :
  AnalyzeStatementImpl w constants (with_sql request sql) catalog true = Ok stmt ->
  known (PreprocessSqlForAnalyzer 0 sql) = Ok (Some stmt).
Proof.
  unfold AnalyzeStatementImpl. intros E. apply bind_Ok in E as (options & _ & E).
  apply bind_Ok in E as ([stmt'|] & E & R); [|done]. injection R as <-. exact E.
Qed.

Lemma found_bump project name p : FindProjectProcedure bumps project name = Some p -> p = bump.
Proof.
  unfold FindProjectProcedure. destruct project as [|c project]; [done|]. destruct name as [|d name]; [done|].
  intros E. apply bind_Some in E as (l & L & F).
  change (bumps !! (c :: project) = Some l) in L. apply (lookup_singleton_Some (M := gmap str) ($"p") (c :: project) [bump] l) in L as [_ <-].
  cbn in F. destruct (named_procedure _ _); congruence.
Qed.

Lemma bumps_acyclic : acyclic shelf_parts keeps_procedures rank.
Proof.
  split.
  - intros request c catalog s s' p piece stmt G G' C I E%analyzed_known. unfold called_procedure in C. cbn [rank].
    destruct (call_procedure c) as [[name [q|]]|]; [by eapply known_rank| |done].
    rewrite G in C. apply found_bump in C as ->.
    assert (SplitSemicolonStatements (StripBeginEnd (procedure_body bump)) = [$"SET a = 2"; $"SELECT 1"]) as B
      by (vm_compute; reflexivity).
    rewrite B in I. apply elem_of_cons in I as [->|[->|[]%not_elem_of_nil]%elem_of_cons]; vm_compute in E;
      [discriminate E|]. injection E as <-. cbn. lia.
  - intros request e catalog st st' s' text stmt G L E%analyzed_known. by eapply known_rank.
Qed.

Definition idle_engine : EngineOps (W := shelf) :=
  mkEngine (fun _ _ _ _ _ => mret no_rows) (fun _ _ => mret ()) (fun _ _ => mret (no_stats, None)).

Lemma idle_settles : engine_settles keeps_procedures idle_engine.
Proof. split; [intros; intros s G; by do 2 eexists..|]. by intros s constants. Qed.


(** The variables of the caller: [x] is 1 and [y] is 7. *)
Definition caller_state : ScriptState (W := shelf) :=
  mkScript start (Declare_ (Declare_ NewFrameStack $"x" (SInt64 1)).1 $"y" (SInt64 7)).1 None.

Definition execute_one (depth : nat) : QueryRequest -> ResolvedStatement -> CatalogRef ->
    option (gmap (list str) Value) -> Script.Script (W := shelf) unit :=
  ExecuteOneScriptStatement shelf_parts (shelf_engine 3) depth.

(** [CALL bump(x)] sets [x] to 2 and leaves [y]. *)
Lemma call_isolated_witness :
  exists st', ExecuteCallStmt shelf_parts (execute_one 2) bump_script call_bump the_catalog caller_state = Some (st', Ok ())
    /\ Lookup (driver st') $"y" = Ok (SInt64 7) /\ Lookup (driver st') $"x" = Ok (SInt64 2).
Proof.
  destruct (ExecuteCallStmt shelf_parts (execute_one 2) bump_script call_bump the_catalog caller_state)
    as [[st' r]|] eqn:E; [|vm_compute in E; discriminate E].
  assert (r = Ok ()) as -> by (vm_compute in E; congruence).
  exists st'. split; [reflexivity|].
  destruct (call_isolated shelf_parts (execute_one 2) bump_script call_bump the_catalog caller_state st' (Ok ()) E)
    as [_ [[_ [e [=]]]|(proc & bound & st1 & args & Ep & Eb & Ea & F & C)]].
  assert (proc = bump) as -> by (vm_compute in Ep; injection Ep as <-; reflexivity).
  split.
  - rewrite F; [vm_compute; reflexivity|]. vm_compute. by intros p [->|[]%not_elem_of_nil]%elem_of_cons.
  - assert (bound = (default bound (match bind_arguments shelf_parts (request_project_id bump_script) caller_state
        (formals_of bump (call_signature call_bump)) (call_arguments call_bump) (PushFrame NewFrameStack) []
        with Ok b => Some b | Err _ => None end))) as Ebound by (by rewrite Eb).
    change ($"x") with ($"a", $"x").2. rewrite (C eq_refl).
    + rewrite Ebound in Ea. vm_compute in Ea. injection Ea as _ <-. vm_compute. reflexivity.
    + vm_compute. constructor; [|constructor]. by intros ?%not_elem_of_nil.
    + vm_compute. left.
Defined.

(** ** The coordinator *)

(** The script needs three nested calls; seven give the same. *)
Lemma bounds_irrelevant_witness :
  exists out, run_query 0 3 bump_script start = Some out /\ run_query 5 7 bump_script start = Some out.
Proof.
  destruct (run_query 0 3 bump_script start) as [out|] eqn:E; [|vm_compute in E; discriminate E].
  exists out. split; [reflexivity|].
  apply (bounds_irrelevant shelf_parts false tree id set_shelf idle_executor idle_executor no_registration
           0 5 3 7 bump_script the_catalog start out); [lia..|exact E].
Defined.

(** A query whose only column flattens an array of protos. *)
Definition flatten_query : ResolvedStatement := RQuery (mkQuery (SingleRowScan []) []).
Definition flatten_node : ResolvedNode := RNode $"Flatten" None NoDetail [].

Lemma unsupported_refused_witness :
  ExecuteResolvedStatement shelf_parts tree id set_shelf idle_executor idle_executor
    bump_script flatten_query the_catalog None None start
  = Some (start, Err (refused tree $"ExecuteQuery" flatten_query)).
Proof.
  refine (proj1 (unsupported_refused shelf_parts false tree id set_shelf idle_executor idle_executor no_registration
    flatten_query flatten_node $"ResolvedFlatten" bump_script the_catalog start _ _ _) None None).
  - vm_compute. reflexivity.
  - eapply visited_child; [left|reflexivity|]. eapply visited_child; [right; left|reflexivity|]. apply visited_here.
  - vm_compute. left.
Defined.

(** [TRUNCATE TABLE t] deletes the three rows of the table. *)
Lemma truncate_exact_witness :
  exists s', Coordinator.ExecuteDml (S := shelf) shelf_parts tree id set_shelf idle_executor idle_executor
               (plain_request $"TRUNCATE TABLE t") the_catalog start = Some (s', Ok (mkStats 0 0 3, None)) /\
    contents (world s') t_id = [].
Proof.
  eexists. split; [vm_compute; reflexivity|].
  edestruct (truncate_exact (S := shelf) shelf_parts tree id set_shelf idle_executor idle_executor)
    with (request := plain_request $"TRUNCATE TABLE t") (catalog := the_catalog) (s := start) (t := truncate_t)
      (id := t_id) (sch := t_schema)
    as (_ & _ & C & _); [reflexivity|vm_compute; reflexivity|vm_compute; reflexivity|reflexivity|reflexivity
                        |reflexivity|vm_compute; reflexivity|exact C].
Defined.
